(* ===== verification/_CoqProject ===== *)
-Q . S2P
Prelude.v
Arith.v
Vector.v
PtrVector.v
Codec.v
Buffer.v
Uuid.v
Blob.v
Str.v
Arena.v
FbpScanner.v
FbpGraph.v
FbpParser.v
FbpGrammar.v
Mainloop.v
MainloopProofs.v
FlowStatic.v
FlowStaticProofs.v
FlowRun.v
FlowRunProofs.v
JsonScanner.v
JsonScannerProofs.v
JsonPath.v
JsonPathProofs.v
JsonString.v
JsonStringProofs.v
Coap.v
CoapProofs.v
CoapBuild.v
CoapRequest.v
CoapQueue.v
CoapQueueProofs.v
CoapServer.v
CoapServerInv.v
CoapServerReplies.v
CoapServerRequests.v
CoapServerProofs.v
Lwm2m.v
Lwm2mProofs.v
