(* ===== verification/Prelude.v ===== *)
(** * Soletta: a verification library for the framework's core

    Soletta is a framework for small connected devices.  This library models
    the part of its C code the rest stands on: the checked arithmetic and the
    containers of src/src/lib/datatypes and src/src/lib/common, the main loop
    that runs timeouts, idlers and sources, the front end of the flow
    language (src/src/shared), static flows, which route packets between
    nodes (src/src/lib/flow), the JSON library (src/src/lib/parsers), CoAP and the
    values of LWM2M (src/src/lib/comms).  Definitions carry the names of the C functions they
    translate and keep their order of tests and early returns.

    ** How C is modelled

    - [outcome] (this file): a piece of C returns a value or runs into
      undefined behaviour.  Error returns are values, negative errno numbers.
    - Integers are [Z]; unsigned arithmetic is reduced where the C type
      reduces it ([wrapu]), signed arithmetic that leaves its type is
      undefined ([int_op], [signed_op]).
    - Memory is a list of bytes per block; loads, stores and moves outside a
      block are undefined ([mem_load], [mem_store], [mem_move]).
    - [malloc] and [realloc] succeed or fail as the class [Allocator] says,
      the contents of fresh memory included; theorems hold for every
      allocator.  What the preprocessor chooses is the class [BuildConfig].
    - Callbacks, the clock and the random source are parameters; so is
      whether vasprintf finds memory for a message of the parser (the class
      [Formatter]), and what the socket answers and leaves in errno.

    ** Files

    - Prelude.v: outcomes, machine integers, blocks, allocation, tactics.
    - Arith.v: overflow-checked arithmetic and alignment
      (sol-util-internal.h, sol-util.c), [struct timespec], integer ranges
      and colours (sol-types.c).
    - Vector.v: [sol_vector] (sol-vector.c) and its refinement to lists.
    - PtrVector.v: [sol_ptr_vector] on top of it: searches, sorted insertion
      by bisection, re-placing an element whose key changed.
    - Codec.v: base64, base16, UTF-8 and UUID syntax (sol-util.c).
    - Buffer.v: [sol_buffer] (sol-buffer.c), on Arith and Codec.
    - Uuid.v: UUID text and bytes through buffers (sol-util.c).
    - Blob.v: reference counted blobs with parents (sol-blob.c).
    - Str.v: string slices and string tables (sol-str-slice.c,
      sol-str-table.c); splitting fills a Vector.
    - Arena.v: [sol_arena] (sol-arena.c), strings owned through a PtrVector.
    - FbpScanner.v: the scanner of flow programs
      (src/src/shared/sol-fbp-internal-scanner.c).
    - FbpGraph.v: the graph a flow program describes (sol-fbp-graph.c), each
      vector a list whose growth fails as Vector says.
    - FbpParser.v: the parser (sol-fbp-parser.c), on the scanner and the
      graph; FbpGrammar.v: the grammar, what each statement does, and the
      proof that the parser accepts exactly the programs that run.
    - Mainloop.v: the main loop (sol-mainloop-common.c), its queues on
      PtrVector and its times on Arith; MainloopProofs.v: its theorems.
    - FlowStatic.v: the types of static flows (sol-flow-static.c, from
      flow_port_out_is_valid on), arrays of nodes, connections and exported
      ports and their numbering; FlowStaticProofs.v: its theorems.
    - FlowRun.v: flows at work (the rest of sol-flow-static.c, and
      sol_flow_node_init, sol_flow_node_fini and sol_flow_send_packet of
      sol-flow.c): a queue of packets, a timeout and a log of every call; the
      nodes are the class [FlowNodes], which sees the log and answers each
      call with a result and the packets the node sends.  FlowRunProofs.v:
      its theorems.
    - JsonScanner.v: the JSON scanner (sol-json.c, sol-json.h), a document
      being a block and a pointer into it an offset: tokens, skipping, the
      loops over arrays and objects, integers; JsonScannerProofs.v: what a
      token is, and that the scanner finds it.
    - JsonPath.v: values of keys, indices and paths; JsonPathProofs.v: trees,
      the tokens of a tree, and that every lookup finds what the tree has.
    - JsonString.v: serializing into a Buffer and reading string tokens, on
      Codec for their codes; JsonStringProofs.v: their round trips.

    - Coap.v: CoAP packets (coap.c and the packet half of sol-coap.c), each a
      Buffer with a header in front; CoapProofs.v: the grammar of packets and
      the reader; CoapBuild.v: messages, the writer, and both ends together.
    - CoapQueue.v: the packets a CoAP server has to send (sol-coap.c), counted
      packets and queue entries on a heap, memory, timers and the socket
      behind the class [CoapEnv], which sees the log; CoapQueueProofs.v: its
      invariant, the life of an entry, and what the socket is given.
    - CoapServer.v: the server itself (the rest of sol-coap.c): resources and
      their observers, replies that are pending, dispatching, notifications.
      The program's callbacks are the class [CoapProgram], which sees the
      server and answers with a result and what it sends and cancels; memory
      is the class [ServerEnv].  CoapServerInv.v: its invariant and sending;
      CoapServerReplies.v: callbacks, timeouts, cancelling, responses;
      CoapServerRequests.v: requests; CoapServerProofs.v: notifications, the
      life of resources, and runs of a server.  CoapRequest.v: requests and
      path texts, which the server and Lwm2m share.
    - Lwm2m.v: values, entries and requests of LWM2M (sol-lwm2m-common.c), in
      Buffers and CoAP packets; Lwm2mProofs.v: the grammar of entries, and
      that what is written is read.

    ** What the theorems show

    - Refinement: runs of vector and buffer operations are runs on lists;
      the calls that build a CoAP packet are operations on a message.
    - Invariants and safety: sorted vectors stay sorted; a blob lives exactly
      as long as it is referenced; every string an arena hands out is
      the text asked for in a block the arena frees; whatever
      callbacks add and delete, the main loop never uses a freed handler and
      its queues stay well formed (but the callbacks that tell the next timeout
      of a source must delete no timeout); whatever its nodes do, a flow with
      typed ports delivers what
      it accepts once, in order and in the next iteration; whatever a CoAP
      server does with its queue, packets are counted exactly, a confirmable
      packet is sent at most four times with doubling timeouts, and, as long
      as the socket fails with EAGAIN only, nothing
      that could be sent is forgotten; whatever a polite program does from
      its callbacks and whatever comes in, a CoAP server never uses a reply it
      freed, and its end leaves nothing but the subscription to network
      events, which the code never ends.  Polite ([polite]): packets are
      well formed, the callback of a reply sends and may cancel the packet it
      is called for but no other (handlers may cancel any), and none of them
      acts while the server ends; lemmas show what
      happens without this.
    - Functional behaviour: a response goes to the replies that wait for it, a
      request to the first resource that takes it, a notification to every
      observer with the token it registered.
    - Liveness: the main loop does not sleep past a timeout; with memory and a
      willing socket the queue of a CoAP server drains in order.
    - Termination: processing timeouts ends when intervals are positive, and
      calls each due timeout once, in order; scanning ends, and the tokens
      tile the input; parsing ends on every input; splitting ends.
    - Equivalence: the flow parser against a grammar with an executable
      meaning, in both directions; whatever fails, the graph stays well
      formed.
      A string token is read as a reference decoder says, and a path of a
      document gives what the tree of the document has at it.
    - Round trips: base64, base16, UTF-8, UUIDs, strings and integers of JSON,
      CoAP messages, values and resources of LWM2M; a request of LWM2M is the
      message for its arguments.
    - Errors: opening a flow makes everything or undoes what it made; a type
      is made exactly for the specifications the code means to accept.
    - Bounds: the overflow helpers are exact or refuse; decoders
      accept exactly the well-formed texts and write inside the destination.
    - Findings, as lemmas on concrete inputs, stand next to the code they are
      about: where the code does not do what it means to.

    ** Fuel

    Loops that C runs over an index take the number of elements as fuel.
    Loops whose end depends on the data take a fuel for which running out is
    a result of its own, or a bound that a theorem shows to be enough: the
    scanner's [scan_fuel], the parser's [parse_fuel] (each round takes a
    token, and there are at most 8 per byte and 8), the walks over queues ([walk_fuel], vectors hold
    at most 65535 pointers), the loop over timeouts (size of the queue + 1
    times 65536 rounds, [timeout_loop_ends]).  Skipping and looking up in a
    JSON document read a token of at least one byte in each round, so one more
    than the bytes that are left ([skip_fuel], [loop_fuel]) is enough; on paths
    and strings it is the length.  [json_path_correct] and
    [json_unescape_correct] show that none of them runs out.  An option of a
    CoAP packet has at least one byte ([option_fuel]).  Each round of
    [pick_loop] takes an entry from the queue.  An entry of LWM2M has a header
    of at least two bytes ([parse_loop_entries]).

    ** Not modelled

    Floating point (dranges, locations, direction vectors), printf and locale
    dependent number parsing beyond the text they produce (the parser's
    messages are a format and its arguments), logging, locks and
    threads other than as calls that arrive while a callback runs.  Of the CoAP
    server, making its socket, the system calls that join multicast groups and its own
    reference counter are left out; its callbacks send and cancel packets, but do not
    register resources, notify or end the server from within.  Of LWM2M, the client, the servers, their security
    and the constructors of resources, which take variable arguments.  Operating
    system interfaces, bindings to libraries, flow modules, protocols over
    sockets, programs, tests and samples are pure input and output or glue.
    A static flow's nodes do not delete it from within, and inspectors, node
    options and nodes outside a flow are left out.  Of JSON, doubles are left
    out, and so is the loading and serializing of memory descriptions, whose
    own operations (sol-memdesc.c) are left out too. *)

From Stdlib Require Export ZArith Lia.
From stdpp Require Export base numbers list option sets.

#[local] Open Scope Z_scope.

(** ** Outcomes of C code

    A piece of C either finishes with a value or runs into undefined
    behaviour (an access outside an allocated block, a signed overflow, a
    division that traps).  Error returns of the code are ordinary values:
    negative errno numbers. *)

Inductive outcome (A : Type) : Type :=
| Ret (a : A)
| UB.
Arguments Ret {A} a.
Arguments UB {A}.

#[export] Instance outcome_ret : MRet outcome := @Ret.

#[export] Instance outcome_bind : MBind outcome := fun A B f m =>
  match m with Ret a => f a | UB => UB end.

Lemma bind_ret {A B} (a : A) (f : A -> outcome B) : (Ret a ≫= f) = f a.
Proof. done. Qed.

Lemma bind_Ret_inv {A B} (m : outcome A) (f : A -> outcome B) b :
  (m ≫= f) = Ret b -> exists a, m = Ret a /\ f a = Ret b.
Proof. destruct m; [eauto | done]. Qed.

(** ** Error numbers (Linux values) *)

Definition EPERM := 1.
Definition ENOENT := 2.
Definition EIO := 5.
Definition EAGAIN := 11.
Definition ENOMEM := 12.
Definition EEXIST := 17.
Definition EINVAL := 22.
Definition EDOM := 33.
Definition ERANGE := 34.
Definition ENODATA := 61.
Definition EOVERFLOW := 75.

(** ** Machine integers (LP64) *)

Definition UINT8_MAX := 255.
Definition USHRT_MAX := 65535.
Definition UINT16_MAX := 65535.
Definition INT16_MAX := 32767.
Definition INT_MAX := 2147483647.
Definition INT_MIN := -2147483648.
Definition INT32_MAX := 2147483647.
Definition INT32_MIN := -2147483648.
Definition UINT_MAX := 4294967295.
Definition UINT32_MAX := 4294967295.
Definition INT64_MAX := 9223372036854775807.
Definition INT64_MIN := -9223372036854775808.
Definition UINT64_MAX := 18446744073709551615.
Definition SIZE_MAX := 18446744073709551615.
Definition SSIZE_MAX := 9223372036854775807.

(** Unfold the limits so that [lia] sees numerals. *)
Ltac unfold_limits :=
  unfold UINT8_MAX, USHRT_MAX, UINT16_MAX, INT16_MAX, INT_MAX, INT_MIN,
    INT32_MAX, INT32_MIN, UINT_MAX, UINT32_MAX, INT64_MAX, INT64_MIN,
    UINT64_MAX, SIZE_MAX, SSIZE_MAX, EPERM, ENOENT, EIO, EAGAIN, ENOMEM,
    EEXIST, EINVAL, EDOM, ERANGE, ENODATA, EOVERFLOW in *.

Ltac zlia := unfold_limits; lia.

(** Linear arithmetic with quotients and remainders by constants. *)
Ltac dlia := unfold_limits; Z.to_euclidean_division_equations; lia.

(** Conversion of a value to an unsigned or signed type of [w] bits. *)
Definition wrapu (w x : Z) : Z := x mod 2 ^ w.
Definition wraps (w x : Z) : Z := (x + 2 ^ (w - 1)) mod 2 ^ w - 2 ^ (w - 1).

Definition is_uint (w x : Z) : Prop := 0 <= x < 2 ^ w.
Definition is_int32 (x : Z) : Prop := INT32_MIN <= x <= INT32_MAX.
Definition is_int64 (x : Z) : Prop := INT64_MIN <= x <= INT64_MAX.
Definition is_byte (x : Z) : Prop := 0 <= x <= 255.

#[export] Instance is_byte_dec x : Decision (is_byte x).
Proof. unfold is_byte. apply _. Defined.

Lemma wrapu_small w x : 0 <= x < 2 ^ w -> wrapu w x = x.
Proof. apply Z.mod_small. Qed.

(** Signed [int] arithmetic: an out-of-range result is undefined. *)
Definition int_op (x : Z) : outcome Z :=
  if bool_decide (INT_MIN <= x <= INT_MAX) then Ret x else UB.

Lemma int_op_ok x : INT_MIN <= x <= INT_MAX -> int_op x = Ret x.
Proof. intros. unfold int_op. by rewrite bool_decide_true. Qed.

(** ** Memory blocks

    A block of memory is the list of its bytes.  Offsets and sizes are [Z]
    as they come from [size_t] arithmetic; any access that is not inside
    the block is undefined. *)

Abbreviation block := (list Z).

Definition blen {A} (m : list A) : Z := Z.of_nat (length m).

Definition mem_load (m : block) (off n : Z) : outcome block :=
  if bool_decide (0 <= off /\ 0 <= n /\ off + n <= blen m)
  then Ret (take (Z.to_nat n) (drop (Z.to_nat off) m)) else UB.

Definition mem_store (m : block) (off : Z) (bs : block) : outcome block :=
  if bool_decide (0 <= off /\ off + blen bs <= blen m)
  then Ret (take (Z.to_nat off) m ++ bs
            ++ drop (Z.to_nat off + length bs) m)
  else UB.

(** memmove(block + dst, block + src, n) *)
Definition mem_move (m : block) (dst src n : Z) : outcome block :=
  bs ← mem_load m src n; mem_store m dst bs.

(** The bytes of an unsigned value, little endian. *)
Fixpoint le_bytes (n : nat) (x : Z) : list Z :=
  match n with
  | O => []
  | S n' => x mod 256 :: le_bytes n' (x / 256)
  end.

Fixpoint le_value (bs : list Z) : Z :=
  match bs with
  | [] => 0
  | b :: bs' => b + 256 * le_value bs'
  end.

(** ** Allocation

    What the code relies on of [malloc] and [realloc]: a request either
    fails or yields a block of that size; a request for more than
    [PTRDIFF_MAX] bytes fails (malloc(3)); the contents of new bytes are
    indeterminate.  The library is proved for every such allocator. *)

Class Allocator := {
  alloc_ok : Z -> bool;      (** does a request of this many bytes succeed *)
  fresh_byte : Z -> Z;       (** what a new byte at this offset holds *)
  alloc_bound : forall n, alloc_ok n = true -> n <= SSIZE_MAX
}.

(** An allocator that serves every possible request; witnesses run on it. *)
Program Definition roomy : Allocator :=
  {| alloc_ok := fun n => n <=? SSIZE_MAX; fresh_byte := fun _ => 165 |}.
Next Obligation. intros n. apply Z.leb_le. Qed.

(** An allocator that has nothing left. *)
Program Definition exhausted : Allocator :=
  {| alloc_ok := fun n => false; fresh_byte := fun _ => 165 |}.
Next Obligation. done. Qed.

Section Allocation.
Context `{Allocator}.

Definition fresh (from n : Z) : block := fresh_byte <$> seqZ from (n - from).

Definition c_malloc (n : Z) : option block :=
  if alloc_ok n then Some (fresh 0 n) else None.

(** The contents of a block of [n] bytes grown or cut from [m]. *)
Definition resize_block (m : block) (n : Z) : block :=
  take (Z.to_nat n) m ++ fresh (blen m) n.

(** realloc(NULL, n) is malloc(n); realloc(p, 0) frees [p] and yields
    NULL (glibc). *)
Definition c_realloc (old : option block) (n : Z) : option block :=
  match old with
  | None => c_malloc n
  | Some m =>
      if bool_decide (n = 0) then None
      else if alloc_ok n then Some (resize_block m n) else None
  end.
End Allocation.

(** ** Lengths *)

Lemma blen_nil {A} : blen (@nil A) = 0.
Proof. done. Qed.
Lemma blen_cons {A} (x : A) m : blen (x :: m) = 1 + blen m.
Proof. unfold blen. simpl. lia. Qed.
Lemma blen_app {A} (a b : list A) : blen (a ++ b) = blen a + blen b.
Proof. unfold blen. rewrite length_app. lia. Qed.
Lemma blen_nonneg {A} (m : list A) : 0 <= blen m.
Proof. unfold blen. lia. Qed.
Lemma blen_replicate {A} n (x : A) : blen (replicate n x) = Z.of_nat n.
Proof. unfold blen. by rewrite length_replicate. Qed.
Lemma blen_take {A} n (m : list A) : blen (take n m) = Z.min (Z.of_nat n) (blen m).
Proof. unfold blen. rewrite length_take. lia. Qed.
Lemma blen_drop {A} n (m : list A) : blen (drop n m) = Z.max 0 (blen m - Z.of_nat n).
Proof. unfold blen. rewrite length_drop. lia. Qed.
Lemma blen_fmap {A B} (f : A -> B) (m : list A) : blen (f <$> m) = blen m.
Proof. unfold blen. by rewrite length_fmap. Qed.
Lemma blen_to_nat {A} (m : list A) : Z.to_nat (blen m) = length m.
Proof. unfold blen. lia. Qed.
Lemma blen_insert {A} i (x : A) m : blen (<[i:=x]> m) = blen m.
Proof. unfold blen. by rewrite length_insert. Qed.
Lemma blen_zero_nil {A} (m : list A) : blen m = 0 -> m = [].
Proof. destruct m; [done | rewrite blen_cons]. pose proof (blen_nonneg m). lia. Qed.

Lemma blen_fresh `{Allocator} from n : blen (fresh from n) = Z.max 0 (n - from).
Proof. unfold fresh. rewrite blen_fmap. unfold blen. rewrite length_seqZ. lia. Qed.

Create Rewrite HintDb blen.
#[export] Hint Rewrite @blen_nil @blen_cons @blen_app @blen_replicate @blen_take
  @blen_drop @blen_fmap @blen_fresh @blen_insert : blen.

(** Arithmetic on block lengths. *)
Ltac blia :=
  autorewrite with blen in *;
  repeat match goal with
  | m : list ?A |- _ =>
      lazymatch goal with
      | _ : 0 <= blen m |- _ => fail
      | _ => pose proof (blen_nonneg m)
      end
  end;
  unfold_limits; try lia.

Lemma blen_resize `{Allocator} m n : 0 <= n -> blen (resize_block m n) = n.
Proof. intros. unfold resize_block. blia. Qed.

#[export] Hint Rewrite @blen_resize using lia : blen.

Lemma resize_block_prefix `{Allocator} m n : 0 <= n <= blen m ->
  resize_block m n = take (Z.to_nat n) m.
Proof.
  intros. unfold resize_block, fresh.
  assert (seqZ (blen m) (n - blen m) = []) as ->; [|by rewrite fmap_nil, app_nil_r].
  apply nil_length_inv. rewrite length_seqZ. lia.
Qed.

Lemma resize_block_grow `{Allocator} m n : blen m <= n ->
  resize_block m n = m ++ fresh (blen m) n.
Proof.
  intros. unfold resize_block. rewrite take_ge; [done|]. unfold blen in *. lia.
Qed.

(** ** Arrays *)

(** &array[i], read at once; outside the array it is undefined. *)
Definition at_index {A} (l : list A) (i : Z) : outcome A :=
  if i <? 0 then UB else match l !! Z.to_nat i with Some x => Ret x | None => UB end.

Lemma at_index_some {A} (l : list A) i x : 0 <= i -> l !! Z.to_nat i = Some x -> at_index l i = Ret x.
Proof. intros Hi Hx. unfold at_index. destruct (Z.ltb_spec i 0); [lia|]. by rewrite Hx. Qed.

Lemma at_index_lt {A} (l : list A) i : 0 <= i < blen l -> exists x, l !! Z.to_nat i = Some x /\ at_index l i = Ret x.
Proof.
  intros Hi. assert (exists x, l !! Z.to_nat i = Some x) as [x Hx]
    by (apply lookup_lt_is_Some; unfold blen in Hi; lia).
  exists x. split; [done|]. apply at_index_some; [lia|done].
Qed.

(** ** Loads, stores and moves on split blocks *)

Lemma mem_load_app a b c off n :
  off = blen a -> n = blen b -> mem_load (a ++ b ++ c) off n = Ret b.
Proof.
  intros -> ->. unfold mem_load. rewrite bool_decide_true by blia.
  by rewrite !blen_to_nat, drop_app_length, take_app_length.
Qed.

Lemma mem_store_app a b b' c off :
  off = blen a -> blen b = blen b' ->
  mem_store (a ++ b ++ c) off b' = Ret (a ++ b' ++ c).
Proof.
  intros -> Hb. unfold mem_store. rewrite bool_decide_true by blia.
  rewrite !blen_to_nat, take_app_length.
  assert (length b' = length b) as -> by (unfold blen in Hb; lia).
  by rewrite drop_app_add, drop_app_length.
Qed.

(** Closing a gap: the tail [t] moves down over [x]. *)
Lemma mem_move_down a x t s dst src n :
  dst = blen a -> src = blen a + blen x -> n = blen t ->
  mem_move (a ++ x ++ t ++ s) dst src n
  = Ret (a ++ t ++ drop (length t) (x ++ t ++ s)).
Proof.
  intros -> -> ->. unfold mem_move.
  assert (mem_load (a ++ x ++ t ++ s) (blen a + blen x) (blen t) = Ret t) as ->.
  { rewrite app_assoc. apply mem_load_app; blia. }
  rewrite bind_ret. unfold mem_store. rewrite bool_decide_true by blia.
  by rewrite !blen_to_nat, take_app_length, drop_app_add.
Qed.

(** Opening a gap of [k] bytes in front of the tail [t]. *)
Lemma mem_move_up a t s dst src n k :
  0 <= k <= blen s -> dst = blen a + k -> src = blen a -> n = blen t ->
  mem_move (a ++ t ++ s) dst src n
  = Ret (a ++ take (Z.to_nat k) (t ++ s) ++ t ++ drop (Z.to_nat k) s).
Proof.
  intros Hk -> -> ->. unfold mem_move. rewrite mem_load_app by done.
  rewrite bind_ret. unfold mem_store. rewrite bool_decide_true by blia.
  assert (Z.to_nat (blen a + k) = (length a + Z.to_nat k)%nat) as ->
    by (unfold blen; lia).
  rewrite take_app_add, <- Nat.add_assoc, drop_app_add.
  rewrite (Nat.add_comm (Z.to_nat k)), drop_app_add.
  by rewrite <- app_assoc.
Qed.

Lemma mem_load_ok m off n :
  0 <= off -> 0 <= n -> off + n <= blen m ->
  mem_load m off n = Ret (take (Z.to_nat n) (drop (Z.to_nat off) m)).
Proof. intros. unfold mem_load. by rewrite bool_decide_true. Qed.

Lemma mem_store_ok m off bs :
  0 <= off -> off + blen bs <= blen m ->
  mem_store m off bs
  = Ret (take (Z.to_nat off) m ++ bs ++ drop (Z.to_nat off + length bs) m).
Proof. intros. unfold mem_store. by rewrite bool_decide_true. Qed.

Lemma mem_store_blen m off bs m' : mem_store m off bs = Ret m' -> blen m' = blen m.
Proof.
  unfold mem_store. case_bool_decide; [|done]. intros [= <-].
  pose proof (blen_nonneg bs). unfold blen in *.
  rewrite !length_app, length_take, length_drop. lia.
Qed.

Lemma mem_move_blen m dst src n m' : mem_move m dst src n = Ret m' -> blen m' = blen m.
Proof. intros (bs & _ & H)%bind_Ret_inv. by eapply mem_store_blen. Qed.

(** ** Little-endian values *)

Lemma length_le_bytes n x : length (le_bytes n x) = n.
Proof. revert x. induction n; intros; simpl; auto. Qed.

Lemma le_value_bytes n x : le_value (le_bytes n x) = x mod 256 ^ Z.of_nat n.
Proof.
  revert x. induction n as [|n IH]; intros x.
  - simpl. by rewrite Z.mod_1_r.
  - cbn [le_bytes le_value]. rewrite IH.
    rewrite Nat2Z.inj_succ, Z.pow_succ_r by lia.
    rewrite Z.rem_mul_r by lia. lia.
Qed.

Lemma le_value_bytes_small n x : 0 <= x < 256 ^ Z.of_nat n -> le_value (le_bytes n x) = x.
Proof. intros. rewrite le_value_bytes. by apply Z.mod_small. Qed.

(** ** Boolean comparisons *)

(** Case analysis on the comparisons the code makes. *)
Ltac breflect :=
  repeat match goal with
  | |- context [?a >? ?b] => rewrite (Z.gtb_ltb a b)
  | |- context [?a >=? ?b] => rewrite (Z.geb_leb a b)
  | |- context [?a <=? ?b] => destruct (Z.leb_spec a b)
  | |- context [?a <? ?b] => destruct (Z.ltb_spec a b)
  | |- context [?a =? ?b] => destruct (Z.eqb_spec a b)
  end; cbn [andb orb negb].

(** Replace the comparisons that the context decides. *)
Ltac bknown_by tac :=
  repeat match goal with
  | |- context [?a >? ?b] => rewrite (Z.gtb_ltb a b)
  | |- context [?a >=? ?b] => rewrite (Z.geb_leb a b)
  | |- context [?a <=? ?b] =>
      first [ rewrite (proj2 (Z.leb_le a b)) by tac
            | rewrite (proj2 (Z.leb_gt a b)) by tac ]
  | |- context [?a <? ?b] =>
      first [ rewrite (proj2 (Z.ltb_lt a b)) by tac
            | rewrite (proj2 (Z.ltb_ge a b)) by tac ]
  | |- context [?a =? ?b] =>
      first [ rewrite (proj2 (Z.eqb_eq a b)) by tac
            | rewrite (proj2 (Z.eqb_neq a b)) by tac ]
  end;
  rewrite ?andb_false_r, ?andb_false_l, ?andb_true_r, ?andb_true_l,
    ?orb_false_r, ?orb_false_l, ?orb_true_r, ?orb_true_l;
  cbn [andb orb negb].

Ltac bknown := bknown_by ltac:(zlia).
Ltac bknownd := bknown_by ltac:(dlia).

(** ** Filters that keep everything *)

Lemma filter_all {A} (P : A -> Prop) `{!forall x, Decision (P x)} (l : list A) :
  Forall P l -> filter P l = l.
Proof. induction 1; [done|]. rewrite filter_cons_True by done. by f_equal. Qed.

Lemma filter_all_length {A} (P : A -> Prop) `{!forall x, Decision (P x)} (l : list A) :
  length (filter P l) = length l -> filter P l = l.
Proof.
  induction l as [|x l IH]; [done|]. rewrite filter_cons. case_decide; simpl; intros Hl.
  - f_equal. apply IH. lia.
  - pose proof (length_filter P l). lia.
Qed.
