(* ===== verification/Arith.v ===== *)
(** * Checked integer arithmetic

    Models the arithmetic helpers of the framework: power-of-two rounding
    (src/src/lib/common/sol-util-internal.h), overflow-checked products and
    sums (src/src/lib/common/sol-util.c), [struct timespec] arithmetic
    (src/src/lib/common/include/sol-util.h) and the ranged integers and
    colours of src/src/lib/common/sol-types.c. *)

From S2P Require Import Prelude.

#[local] Open Scope Z_scope.

(** ** Build configuration

    Each checked helper has two bodies, selected by what the compiler
    offers; the model has both. *)

Class BuildConfig := {
  have_builtin_mul_overflow : bool;
  have_builtin_add_overflow : bool;
  have_builtin_sub_overflow : bool
}.

Definition gcc5 : BuildConfig := {|
  have_builtin_mul_overflow := true;
  have_builtin_add_overflow := true;
  have_builtin_sub_overflow := true |}.

Definition portable : BuildConfig := {|
  have_builtin_mul_overflow := false;
  have_builtin_add_overflow := false;
  have_builtin_sub_overflow := false |}.

(** ** Power-of-two alignment *)

Module Align.

(** __builtin_clz on a non-zero [w]-bit value *)
Definition clz (w x : Z) : Z := w - Z.succ (Z.log2 x).

(** DEFINE_ALIGN_POWER2 *)
Definition define_align_power2 (w max u : Z) : Z :=
  if u <=? 1 then u
  else
    let left_zeros := clz w (u - 1) in
    if left_zeros <=? 1 then max
    else Z.shiftl 1 (w - left_zeros).

Definition align_power2_uint (u : Z) : Z := define_align_power2 32 UINT_MAX u.
Definition align_power2_size (u : Z) : Z := define_align_power2 64 SIZE_MAX u.

Definition align_power2_short_uint (u : Z) : Z :=
  let aligned := align_power2_uint u in
  if aligned <=? USHRT_MAX then aligned else USHRT_MAX.

Lemma define_align_cases w max u :
  1 < u -> 2 <= w ->
  define_align_power2 w max u
  = if Z.log2 (u - 1) <? w - 2 then 2 ^ Z.succ (Z.log2 (u - 1)) else max.
Proof.
  intros Hu Hw. unfold define_align_power2, clz.
  destruct (Z.leb_spec u 1); [lia|]. cbv zeta.
  pose proof (Z.log2_nonneg (u - 1)).
  destruct (Z.leb_spec (w - Z.succ (Z.log2 (u - 1))) 1);
    destruct (Z.ltb_spec (Z.log2 (u - 1)) (w - 2)); try lia.
  rewrite Z.shiftl_mul_pow2 by lia. rewrite Z.mul_1_l. f_equal. lia.
Qed.

Lemma pow2_log2_pred_bounds u :
  1 < u -> u <= 2 ^ Z.succ (Z.log2 (u - 1)) /\ 2 ^ Z.succ (Z.log2 (u - 1)) <= 2 * (u - 1).
Proof.
  intros. pose proof (Z.log2_spec (u - 1) ltac:(lia)) as [H1 H2].
  rewrite Z.pow_succ_r in * by apply Z.log2_nonneg. lia.
Qed.

(** Rounding never loses room. *)
Lemma define_align_ge w max u :
  2 <= w -> 0 <= u <= max -> u <= define_align_power2 w max u.
Proof.
  intros Hw Hu. destruct (Z.leb_spec u 1) as [|H].
  { unfold define_align_power2. destruct (Z.leb_spec u 1); lia. }
  rewrite define_align_cases by lia.
  destruct (Z.ltb_spec (Z.log2 (u - 1)) (w - 2)); [|lia].
  by apply pow2_log2_pred_bounds.
Qed.

Lemma define_align_le w u :
  2 <= w -> 0 <= u < 2 ^ w ->
  define_align_power2 w (2 ^ w - 1) u <= 2 ^ w - 1.
Proof.
  intros Hw Hu. destruct (Z.leb_spec u 1) as [|H].
  { unfold define_align_power2. destruct (Z.leb_spec u 1); lia. }
  rewrite define_align_cases by lia.
  destruct (Z.ltb_spec (Z.log2 (u - 1)) (w - 2)) as [Hl|]; [|lia].
  assert (2 ^ Z.succ (Z.log2 (u - 1)) < 2 ^ w); [|lia].
  apply Z.pow_lt_mono_r; lia.
Qed.

Lemma define_align_mono w u v :
  2 <= w -> 0 <= u <= v -> v < 2 ^ w ->
  define_align_power2 w (2 ^ w - 1) u <= define_align_power2 w (2 ^ w - 1) v.
Proof.
  intros Hw Huv Hv.
  destruct (Z.leb_spec u 1) as [Hu1|Hu1].
  { transitivity v; [|apply define_align_ge; lia].
    unfold define_align_power2. destruct (Z.leb_spec u 1); lia. }
  pose proof (define_align_le w u Hw ltac:(lia)) as Hle.
  rewrite (define_align_cases w _ v) by lia.
  destruct (Z.ltb_spec (Z.log2 (v - 1)) (w - 2)) as [Hl|]; [|lia].
  rewrite define_align_cases by lia.
  pose proof (Z.log2_le_mono (u - 1) (v - 1) ltac:(lia)).
  destruct (Z.ltb_spec (Z.log2 (u - 1)) (w - 2)); [|lia].
  apply Z.pow_le_mono_r; lia.
Qed.

Lemma align_size_ge u : 0 <= u <= SIZE_MAX -> u <= align_power2_size u.
Proof. intros. apply define_align_ge; zlia. Qed.

Lemma align_size_range u : 0 <= u <= SIZE_MAX -> 0 <= align_power2_size u <= SIZE_MAX.
Proof.
  intros. pose proof (align_size_ge u H). split; [lia|].
  apply (define_align_le 64); zlia.
Qed.

Lemma align_size_pos u : 0 < u <= SIZE_MAX -> 0 < align_power2_size u.
Proof. intros. pose proof (align_size_ge u ltac:(lia)). lia. Qed.

Lemma align_short_ge u : 0 <= u <= USHRT_MAX -> u <= align_power2_short_uint u.
Proof.
  intros. unfold align_power2_short_uint.
  pose proof (define_align_ge 32 UINT_MAX u ltac:(lia) ltac:(zlia)).
  unfold align_power2_uint. destruct (Z.leb_spec (define_align_power2 32 UINT_MAX u) USHRT_MAX); lia.
Qed.

Lemma align_short_le u : 0 <= u <= USHRT_MAX -> align_power2_short_uint u <= USHRT_MAX.
Proof. intros. unfold align_power2_short_uint. case_match eqn:E; [|lia]. apply Z.leb_le in E. lia. Qed.

Lemma align_short_mono u v : 0 <= u <= v -> v <= USHRT_MAX ->
  align_power2_short_uint u <= align_power2_short_uint v.
Proof.
  intros. unfold align_power2_short_uint, align_power2_uint.
  pose proof (define_align_mono 32 u v ltac:(lia) ltac:(lia) ltac:(zlia)) as Hm.
  change (2 ^ 32 - 1) with UINT_MAX in Hm.
  repeat case_match; repeat match goal with H : (_ <=? _) = _ |- _ =>
    first [apply Z.leb_le in H | apply Z.leb_gt in H] end; lia.
Qed.

Lemma align_short_pos u : 0 < u <= USHRT_MAX -> 0 < align_power2_short_uint u.
Proof. intros. pose proof (align_short_ge u ltac:(lia)). lia. Qed.

(** The rounded size is the least power of two that is large enough, below
    a quarter of the type's range. *)
Lemma align_size_least u k :
  1 < u <= 2 ^ 62 -> 0 <= k -> u <= 2 ^ k ->
  (exists j, 0 <= j /\ align_power2_size u = 2 ^ j)
  /\ align_power2_size u <= 2 ^ k.
Proof.
  intros Hu Hk Huk. unfold align_power2_size.
  rewrite define_align_cases by lia.
  assert (Z.log2 (u - 1) < 62) by (apply Z.log2_lt_pow2; lia).
  destruct (Z.ltb_spec (Z.log2 (u - 1)) (64 - 2)); [|lia].
  split; [exists (Z.succ (Z.log2 (u - 1))); split; [pose proof (Z.log2_nonneg (u - 1)); lia|done]|].
  apply Z.pow_le_mono_r; [lia|]. apply Z.le_succ_l, Z.log2_lt_pow2; lia.
Qed.


(** [align_power2] on [size_t] rounds up to the least power of two, is
    never below its argument, and saturates instead of wrapping to zero for
    arguments above 2^62. *)
Theorem align_power2_correct u :
  0 <= u <= SIZE_MAX ->
  u <= align_power2_size u <= SIZE_MAX
  /\ (1 < u <= 2 ^ 62 -> exists j, 0 <= j /\ align_power2_size u = 2 ^ j
        /\ forall k, 0 <= k -> u <= 2 ^ k -> 2 ^ j <= 2 ^ k)
  /\ (2 ^ 62 < u -> align_power2_size u = SIZE_MAX).
Proof.
  intros Hu. split_and!.
  - by apply align_size_ge.
  - by apply align_size_range.
  - intros Hs.
    destruct (align_size_least u 62 Hs ltac:(lia) ltac:(lia)) as [(j & Hj & He) _].
    exists j. split_and!; try done. intros k Hk Hle. rewrite <- He. by apply (align_size_least u k).
  - intros Hb. unfold align_power2_size. rewrite define_align_cases by zlia.
    assert (62 <= Z.log2 (u - 1)) by (apply Z.log2_le_pow2; lia).
    by rewrite (proj2 (Z.ltb_ge _ _)) by lia.
Qed.

Lemma align_power2_correct_witness : 5 <= align_power2_size 5 <= SIZE_MAX.
Proof. apply (align_power2_correct 5). split; discriminate. Defined.
End Align.
Export Align.

(** ** Overflow-checked operations (sol-util.c)

    Each operation returns its code and the value of [*out] afterwards. *)

Module Overflow.
Section Ops.
Context `{BuildConfig}.

(** OVERFLOW_TYPE(type): 1 << (sizeof(type) * 4) *)
Definition OVERFLOW_TYPE (size : Z) : Z := Z.shiftl 1 (size * 4).
Definition OVERFLOW_UINT64 := OVERFLOW_TYPE 8.
Definition OVERFLOW_SIZE_T := OVERFLOW_TYPE 8.
Definition OVERFLOW_UINT32 := OVERFLOW_TYPE 4.
Definition OVERFLOW_SSIZE_T_POS := SIZE_MAX / 2.
Definition OVERFLOW_SSIZE_T_NEG := (SIZE_MAX / 2) * -1 - 1.

(** __builtin_mul_overflow and friends on a [w]-bit unsigned type: the
    wrapped value is stored in every case. *)
Definition builtin_u (w x : Z) : Z * Z :=
  (if (0 <=? x) && (x <? 2 ^ w) then 0 else - EOVERFLOW, wrapu w x).
Definition builtin_s (w x : Z) : Z * Z :=
  (if (- 2 ^ (w - 1) <=? x) && (x <? 2 ^ (w - 1)) then 0 else - EOVERFLOW,
   wraps w x).

(** A signed product or sum of [w] bits: out of range is undefined. *)
Definition signed_op (w x : Z) : outcome Z :=
  if (- 2 ^ (w - 1) <=? x) && (x <? 2 ^ (w - 1)) then Ret x else UB.

Definition sol_util_ssize_mul (op1 op2 out : Z) : outcome (Z * Z) :=
  if have_builtin_mul_overflow then Ret (builtin_s 64 (op1 * op2))
  else
    let overflow :=
      if (op1 >? 0) && (op2 >? 0) then op1 >? OVERFLOW_SSIZE_T_POS ÷ op2
      else if (op1 >? 0) && (op2 <=? 0) then op2 <? OVERFLOW_SSIZE_T_NEG ÷ op1
      else if (op1 <=? 0) && (op2 >? 0) then op1 <? OVERFLOW_SSIZE_T_NEG ÷ op2
      else negb (op1 =? 0) && (op2 <? OVERFLOW_SSIZE_T_POS ÷ op1) in
    if overflow then Ret (- EOVERFLOW, out)
    else r ← signed_op 64 (op1 * op2); Ret (0, r).

Definition sol_util_size_mul (elem_size num_elems out : Z) : Z * Z :=
  if have_builtin_mul_overflow then builtin_u 64 (elem_size * num_elems)
  else if ((OVERFLOW_SIZE_T <=? elem_size) || (OVERFLOW_SIZE_T <=? num_elems))
          && (elem_size >? 0) && (SIZE_MAX / elem_size <? num_elems)
  then (- EOVERFLOW, out)
  else (0, wrapu 64 (elem_size * num_elems)).

Definition sol_util_size_add (a b out : Z) : Z * Z :=
  if have_builtin_add_overflow then builtin_u 64 (a + b)
  else if (a >? 0) && (b >? SIZE_MAX - a) then (- EOVERFLOW, out)
  else (0, wrapu 64 (a + b)).

Definition sol_util_size_sub (a b out : Z) : Z * Z :=
  if have_builtin_sub_overflow then builtin_u 64 (a - b)
  else if b >? a then (- EOVERFLOW, out)
  else (0, wrapu 64 (a - b)).

Definition sol_util_uint64_mul (a b out : Z) : Z * Z :=
  if have_builtin_mul_overflow then builtin_u 64 (a * b)
  else if ((OVERFLOW_UINT64 <=? a) || (OVERFLOW_UINT64 <=? b))
          && (a >? 0) && (UINT64_MAX / a <? b)
  then (- EOVERFLOW, out)
  else (0, wrapu 64 (a * b)).

(** The overflow test shared by int32, int64 and the ranged integers *)
Definition mul_overflow_test (mx mn a b : Z) : bool :=
  ((a =? mx) && (b =? -1))
  || ((a >? 0) && (b >? 0) && (a >? mx ÷ b))
  || ((a <? 0) && (b <? 0) && (a <? mx ÷ b))
  || ((a >? 0) && (b <? -1) && (a >? mn ÷ b))
  || ((a <? 0) && (b >? 0) && (a <? mn ÷ b)).

Definition sol_util_int64_mul (a b out : Z) : outcome (Z * Z) :=
  if have_builtin_mul_overflow then Ret (builtin_s 64 (a * b))
  else if mul_overflow_test INT64_MAX INT64_MIN a b then Ret (- EOVERFLOW, out)
  else r ← signed_op 64 (a * b); Ret (0, r).

Definition sol_util_uint64_add (a b out : Z) : Z * Z :=
  if have_builtin_add_overflow then builtin_u 64 (a + b)
  else if (a >? 0) && (b >? UINT64_MAX - a) then (- EOVERFLOW, out)
  else (0, wrapu 64 (a + b)).

Definition sol_util_int32_mul (a b out : Z) : outcome (Z * Z) :=
  if have_builtin_mul_overflow then Ret (builtin_s 32 (a * b))
  else if mul_overflow_test INT32_MAX INT32_MIN a b then Ret (- EOVERFLOW, out)
  else r ← signed_op 32 (a * b); Ret (0, r).

Definition sol_util_uint32_mul (a b out : Z) : Z * Z :=
  if have_builtin_mul_overflow then builtin_u 32 (a * b)
  else if ((OVERFLOW_UINT32 <=? a) || (OVERFLOW_UINT32 <=? b))
          && (a >? 0) && (UINT32_MAX / a <? b)
  then (- EOVERFLOW, out)
  else (0, wrapu 32 (a * b)).
End Ops.

(** Division tests decide products. *)
Lemma div_lt_mul M a b : 0 <= M -> 0 < b -> M / b < a <-> M < a * b.
Proof.
  intros HM Hb. split; intros H.
  - pose proof (Z.mul_succ_div_gt M b Hb). nia.
  - apply Z.div_lt_upper_bound; lia.
Qed.

Lemma quot_pos_pos M a b : 0 <= M -> 0 < b -> M ÷ b < a <-> M < a * b.
Proof. intros. rewrite Z.quot_div_nonneg by lia. by apply div_lt_mul. Qed.

Lemma quot_pos_neg M a b : 0 <= M -> b < 0 -> a < M ÷ b <-> M < a * b.
Proof.
  intros HM Hb. replace b with (- - b) by lia.
  rewrite Z.quot_opp_r, Z.quot_div_nonneg by lia.
  replace (a * - - b) with (- a * - b) by ring.
  rewrite <- (div_lt_mul M (- a) (- b)) by lia.
  lia.
Qed.

Lemma quot_neg_neg m a b : m <= 0 -> b < 0 -> m ÷ b < a <-> a * b < m.
Proof.
  intros Hm Hb. replace m with (- - m) by lia. replace b with (- - b) by lia.
  rewrite Z.quot_opp_opp, Z.quot_div_nonneg by lia.
  rewrite div_lt_mul by lia. rewrite Z.mul_opp_r. lia.
Qed.

Lemma quot_neg_pos m a b : m <= 0 -> 0 < b -> a < m ÷ b <-> a * b < m.
Proof.
  intros Hm Hb. replace m with (- - m) by lia.
  rewrite Z.quot_opp_l, Z.quot_div_nonneg by lia.
  transitivity (- m / b < - a); [lia|].
  rewrite (div_lt_mul (- m) (- a) b) by lia. rewrite Z.mul_opp_l. lia.
Qed.

Lemma mul_overflow_test_spec mx mn a b :
  0 < mx -> mn = - mx - 1 -> mn <= a <= mx ->
  mul_overflow_test mx mn a b
  = negb ((mn <=? a * b) && (a * b <=? mx)) || ((a =? mx) && (b =? -1)).
Proof.
  intros Hmx Hsym Hab. unfold mul_overflow_test.
  rewrite !Z.gtb_ltb.
  destruct (Z.lt_trichotomy a 0) as [Ha|[->|Ha]].
  - destruct (Z.lt_trichotomy b 0) as [Hb|[->|Hb]].
    + pose proof (quot_pos_neg mx a b ltac:(lia) Hb) as Q.
      assert (0 < a * b) by nia. revert Q. generalize dependent (a * b).
      generalize (mx ÷ b). intros. bknown. breflect; lia.
    + rewrite Z.mul_0_r. by bknown.
    + pose proof (quot_neg_pos mn a b ltac:(lia) Hb) as Q.
      assert (a * b < 0) by nia. revert Q. generalize dependent (a * b).
      generalize (mn ÷ b). intros. bknown. breflect; lia.
  - rewrite Z.mul_0_l. destruct (Z.eqb_spec 0 mx); [lia|]. by bknown.
  - destruct (Z.lt_trichotomy b 0) as [Hb|[->|Hb]].
    + pose proof (quot_neg_neg mn a b ltac:(lia) Hb) as Q.
      assert (a * b < 0) by nia. assert (b = -1 -> a * b = - a) by (intros ->; lia).
      revert Q. generalize dependent (a * b).
      generalize (mn ÷ b). intros. bknown. breflect; lia.
    + rewrite Z.mul_0_r. by bknown.
    + pose proof (quot_pos_pos mx a b ltac:(lia) Hb) as Q.
      assert (0 < a * b) by nia. revert Q. generalize dependent (a * b).
      generalize (mx ÷ b). intros. bknown. breflect; lia.
Qed.

(** What an overflow-checked operation promises: the exact value with code
    0 when it fits, [-EOVERFLOW] otherwise. *)
Definition checked (lo hi x : Z) (r : Z * Z) : Prop :=
  (lo <= x <= hi -> r = (0, x)) /\ (~ lo <= x <= hi -> fst r = - EOVERFLOW).

Lemma wraps_small w x : 0 < w -> - 2 ^ (w - 1) <= x < 2 ^ (w - 1) -> wraps w x = x.
Proof.
  intros Hw Hx. unfold wraps.
  assert (2 ^ w = 2 * 2 ^ (w - 1)) as Hp.
  { replace w with (Z.succ (w - 1)) at 1 by lia. rewrite Z.pow_succ_r; lia. }
  rewrite Z.mod_small; lia.
Qed.

Lemma wraps_wrapu_add w x y : 0 < w -> wraps w (wrapu w x + y) = wraps w (x + y).
Proof.
  intros. unfold wraps, wrapu. f_equal. rewrite <- !Z.add_assoc.
  apply Z.add_mod_idemp_l. by apply Z.pow_nonzero; lia.
Qed.

Lemma builtin_u_checked w x : 0 < w -> checked 0 (2 ^ w - 1) x (builtin_u w x).
Proof.
  intros Hw. unfold checked, builtin_u. split; intros Hx.
  - bknown. by rewrite wrapu_small by lia.
  - simpl. destruct (Z.leb_spec 0 x); [|done]. bknown. done.
Qed.

Lemma builtin_s_checked w x :
  0 < w -> checked (- 2 ^ (w - 1)) (2 ^ (w - 1) - 1) x (builtin_s w x).
Proof.
  intros Hw. unfold checked, builtin_s. split; intros Hx.
  - bknown. by rewrite wraps_small by lia.
  - simpl. destruct (Z.leb_spec (- 2 ^ (w - 1)) x); [|done]. bknown. done.
Qed.

(** The portable product test: only when one factor reaches the square root
    of the range is the division needed. *)
Lemma mul_sqrt_test w t mx a b :
  0 < w -> t = 2 ^ w -> mx = t * t - 1 -> 0 <= a -> 0 <= b ->
  ((t <=? a) || (t <=? b)) && (a >? 0) && (mx / a <? b) = (mx <? a * b).
Proof.
  intros Hw Ht -> Ha Hb.
  assert (0 < t) by (subst; apply Z.pow_pos_nonneg; lia). clear Ht.
  destruct (Z.leb_spec t a) as [Hta|Hta]; [|destruct (Z.leb_spec t b) as [Htb|Htb]];
    cbn [orb andb].
  - bknown. apply eq_true_iff_eq. rewrite !Z.ltb_lt.
    rewrite (div_lt_mul (t * t - 1) b a) by nia. by rewrite (Z.mul_comm b a).
  - destruct (Z.eqb_spec a 0) as [->|].
    + rewrite Z.mul_0_l. assert (0 < t * t) by nia. by bknown.
    + bknown. apply eq_true_iff_eq. rewrite !Z.ltb_lt.
      rewrite (div_lt_mul (t * t - 1) b a) by nia. by rewrite (Z.mul_comm b a).
  - assert (a * b < t * t) by nia. symmetry. apply Z.ltb_ge. lia.
Qed.

Section Specs.
Context `{BuildConfig}.

Lemma size_mul_checked a b out :
  0 <= a -> 0 <= b -> checked 0 SIZE_MAX (a * b) (sol_util_size_mul a b out).
Proof.
  intros Ha Hb. unfold sol_util_size_mul.
  destruct have_builtin_mul_overflow; [by apply (builtin_u_checked 64)|].
  rewrite (mul_sqrt_test 32 OVERFLOW_SIZE_T SIZE_MAX) by (done || lia).
  assert (0 <= a * b) by nia.
  split; intros; bknown; [|done]. by rewrite wrapu_small by zlia.
Qed.

Lemma size_mul_exact a b out :
  0 <= a -> 0 <= b -> a * b <= SIZE_MAX -> sol_util_size_mul a b out = (0, a * b).
Proof. intros. apply size_mul_checked; nia. Qed.

Lemma uint64_mul_checked a b out :
  0 <= a -> 0 <= b -> checked 0 UINT64_MAX (a * b) (sol_util_uint64_mul a b out).
Proof. apply size_mul_checked. Qed.

Lemma uint32_mul_checked a b out :
  0 <= a -> 0 <= b -> checked 0 UINT32_MAX (a * b) (sol_util_uint32_mul a b out).
Proof.
  intros Ha Hb. unfold sol_util_uint32_mul.
  destruct have_builtin_mul_overflow; [by apply (builtin_u_checked 32)|].
  rewrite (mul_sqrt_test 16 OVERFLOW_UINT32 UINT32_MAX) by (done || lia).
  assert (0 <= a * b) by nia.
  split; intros; bknown; [|done]. by rewrite wrapu_small by zlia.
Qed.

Lemma size_add_checked a b out :
  0 <= a <= SIZE_MAX -> 0 <= b <= SIZE_MAX ->
  checked 0 SIZE_MAX (a + b) (sol_util_size_add a b out).
Proof.
  intros Ha Hb. unfold sol_util_size_add.
  destruct have_builtin_add_overflow; [by apply (builtin_u_checked 64)|].
  split; intros.
  - destruct (Z.eqb_spec a 0); bknown; by rewrite wrapu_small by zlia.
  - by bknown.
Qed.

Lemma size_add_exact a b out :
  0 <= a -> 0 <= b -> a + b <= SIZE_MAX -> sol_util_size_add a b out = (0, a + b).
Proof. intros. apply size_add_checked; lia. Qed.

Lemma size_add_refused a b out :
  0 <= a <= SIZE_MAX -> 0 <= b <= SIZE_MAX -> SIZE_MAX < a + b ->
  fst (sol_util_size_add a b out) = - EOVERFLOW.
Proof. intros. apply size_add_checked; lia. Qed.

Lemma uint64_add_checked a b out :
  0 <= a <= UINT64_MAX -> 0 <= b <= UINT64_MAX ->
  checked 0 UINT64_MAX (a + b) (sol_util_uint64_add a b out).
Proof. apply size_add_checked. Qed.

Lemma size_sub_checked a b out :
  0 <= a <= SIZE_MAX -> 0 <= b <= SIZE_MAX ->
  checked 0 SIZE_MAX (a - b) (sol_util_size_sub a b out).
Proof.
  intros Ha Hb. unfold sol_util_size_sub.
  destruct have_builtin_sub_overflow; [by apply (builtin_u_checked 64)|].
  split; intros; bknown; [|done]. by rewrite wrapu_small by zlia.
Qed.

(** The portable signed test rejects one product that fits:
    [INT_MAX * -1]. *)
Lemma signed_mul_portable w mx mn a b out :
  0 < w -> mx = 2 ^ (w - 1) - 1 -> 0 < mx -> mn = - mx - 1 -> mn <= a <= mx ->
  exists r,
    (if mul_overflow_test mx mn a b then Ret (- EOVERFLOW, out)
     else x ← signed_op w (a * b); Ret (0, x)) = Ret r
    /\ (mn <= a * b <= mx -> ~ (a = mx /\ b = -1) -> r = (0, a * b))
    /\ (~ mn <= a * b <= mx \/ a = mx /\ b = -1 -> r = (- EOVERFLOW, out)).
Proof.
  intros Hw Hmx Hpos Hmn Hab. rewrite mul_overflow_test_spec by done.
  destruct (decide (mn <= a * b <= mx)) as [Hin|Hout].
  - destruct (decide (a = mx /\ b = -1)) as [[-> ->]|Hne].
    + bknown. eexists. split; [done|]. split; [|done]. intros _ Hn. by destruct Hn.
    + replace ((a =? mx) && (b =? -1)) with false by (breflect; tauto).
      bknown. unfold signed_op. bknown. eexists. split; [done|].
      split; [done|tauto].
  - replace (negb ((mn <=? a * b) && (a * b <=? mx))) with true
      by (breflect; lia).
    cbn [orb]. eexists. split; [done|]. split; [tauto|done].
Qed.

Lemma int32_mul_spec a b out :
  is_int32 a -> is_int32 b ->
  exists r, sol_util_int32_mul a b out = Ret r
    /\ (is_int32 (a * b) -> ~ (a = INT32_MAX /\ b = -1) -> r = (0, a * b))
    /\ (~ is_int32 (a * b) -> fst r = - EOVERFLOW).
Proof.
  intros Ha Hb. unfold sol_util_int32_mul. destruct have_builtin_mul_overflow.
  - eexists. split; [done|].
    destruct (builtin_s_checked 32 (a * b) ltac:(lia)) as [H1 H2].
    split; intros; [apply H1|apply H2]; unfold is_int32 in *; zlia.
  - destruct (signed_mul_portable 32 INT32_MAX INT32_MIN a b out) as (r & -> & H1 & H2);
      try done.
    exists r. split; [done|]. split; [done|]. intros Hn. by rewrite H2 by (by left).
Qed.

Lemma int64_mul_spec a b out :
  is_int64 a -> is_int64 b ->
  exists r, sol_util_int64_mul a b out = Ret r
    /\ (is_int64 (a * b) -> ~ (a = INT64_MAX /\ b = -1) -> r = (0, a * b))
    /\ (~ is_int64 (a * b) -> fst r = - EOVERFLOW).
Proof.
  intros Ha Hb. unfold sol_util_int64_mul. destruct have_builtin_mul_overflow.
  - eexists. split; [done|].
    destruct (builtin_s_checked 64 (a * b) ltac:(lia)) as [H1 H2].
    split; intros; [apply H1|apply H2]; unfold is_int64 in *; zlia.
  - destruct (signed_mul_portable 64 INT64_MAX INT64_MIN a b out) as (r & -> & H1 & H2);
      try done.
    exists r. split; [done|]. split; [done|]. intros Hn. by rewrite H2 by (by left).
Qed.

(** The ssize_t product is exact in both builds. *)
Lemma ssize_mul_checked a b out :
  is_int64 a -> is_int64 b ->
  exists r, sol_util_ssize_mul a b out = Ret r
    /\ checked INT64_MIN INT64_MAX (a * b) r.
Proof.
  intros Ha Hb. unfold sol_util_ssize_mul. destruct have_builtin_mul_overflow.
  { eexists. split; [done|]. apply (builtin_s_checked 64). lia. }
  change OVERFLOW_SSIZE_T_POS with INT64_MAX.
  change OVERFLOW_SSIZE_T_NEG with INT64_MIN.
  match goal with |- context [if ?t then Ret _ else _] =>
    assert (t = negb ((INT64_MIN <=? a * b) && (a * b <=? INT64_MAX))) as -> end.
  { rewrite !Z.gtb_ltb. unfold is_int64 in *.
    destruct (Z.ltb_spec 0 a), (Z.ltb_spec 0 b); bknown.
    - pose proof (quot_pos_pos INT64_MAX a b ltac:(done) ltac:(lia)) as Q.
      assert (0 < a * b) by nia. revert Q. generalize dependent (a * b).
      generalize (INT64_MAX ÷ b). intros. bknown. breflect; lia.
    - pose proof (quot_neg_pos INT64_MIN b a ltac:(done) ltac:(lia)) as Q.
      rewrite (Z.mul_comm b a) in Q.
      assert (a * b <= 0) by nia. revert Q. generalize dependent (a * b).
      generalize (INT64_MIN ÷ a). intros. bknown. breflect; zlia.
    - pose proof (quot_neg_pos INT64_MIN a b ltac:(done) ltac:(lia)) as Q.
      assert (a * b <= 0) by nia. revert Q. generalize dependent (a * b).
      generalize (INT64_MIN ÷ b). intros. bknown. breflect; zlia.
    - destruct (Z.eqb_spec a 0) as [->|]; [by rewrite Z.mul_0_l|].
      pose proof (quot_pos_neg INT64_MAX b a ltac:(done) ltac:(lia)) as Q.
      rewrite (Z.mul_comm b a) in Q. cbn [negb andb].
      assert (0 <= a * b) by nia. revert Q. generalize dependent (a * b).
      generalize (INT64_MAX ÷ a). intros. bknown. breflect; zlia. }
  unfold checked. destruct (decide (INT64_MIN <= a * b <= INT64_MAX)).
  - bknown. unfold signed_op. bknown. eexists. split; [done|]. done.
  - replace ((INT64_MIN <=? a * b) && (a * b <=? INT64_MAX)) with false by (breflect; lia).
    eexists. split; [done|]. done.
Qed.
End Specs.

(** The overflow-checked helpers agree with exact arithmetic whichever
    implementation the build selects: they return 0 and the exact result when
    it fits the type and [-EOVERFLOW] when it does not.  The signed products
    have one exception without compiler support: the largest value times -1
    may be refused. *)
Theorem overflow_helpers_exact `{BuildConfig} a b out :
  (0 <= a <= SIZE_MAX -> 0 <= b <= SIZE_MAX ->
    checked 0 SIZE_MAX (a * b) (sol_util_size_mul a b out)
    /\ checked 0 SIZE_MAX (a + b) (sol_util_size_add a b out)
    /\ checked 0 SIZE_MAX (a - b) (sol_util_size_sub a b out))
  /\ (is_int64 a -> is_int64 b ->
    (exists r, sol_util_ssize_mul a b out = Ret r /\ checked INT64_MIN INT64_MAX (a * b) r)
    /\ (exists r, sol_util_int64_mul a b out = Ret r
       /\ (is_int64 (a * b) -> ~ (a = INT64_MAX /\ b = -1) -> r = (0, a * b))
       /\ (~ is_int64 (a * b) -> fst r = - EOVERFLOW)))
  /\ (is_int32 a -> is_int32 b ->
    exists r, sol_util_int32_mul a b out = Ret r
       /\ (is_int32 (a * b) -> ~ (a = INT32_MAX /\ b = -1) -> r = (0, a * b))
       /\ (~ is_int32 (a * b) -> fst r = - EOVERFLOW)).
Proof.
  split_and!.
  - intros Ha Hb. split_and!; [apply size_mul_checked; lia|by apply size_add_checked|by apply size_sub_checked].
  - intros Ha Hb. split; [by apply ssize_mul_checked|by apply int64_mul_spec].
  - by apply int32_mul_spec.
Qed.

(** The exception is real. *)
Lemma int32_mul_refuses_fitting_product :
  sol_util_int32_mul (H := portable) INT32_MAX (-1) 7 = Ret (- EOVERFLOW, 7)
  /\ is_int32 (INT32_MAX * -1).
Proof. split; [reflexivity|]. unfold is_int32. zlia. Qed.
End Overflow.
Export Overflow.

(** ** Time values (sol-util.h) *)

Module Timespec.

Record timespec := { tv_sec : Z; tv_nsec : Z }.

Definition SOL_UTIL_NSEC_PER_SEC := 1000000000.
Definition SOL_UTIL_MSEC_PER_SEC := 1000.
Definition SOL_UTIL_USEC_PER_SEC := 1000000.
Definition SOL_UTIL_NSEC_PER_MSEC := 1000000.
Definition SOL_UTIL_NSEC_PER_USEC := 1000.

Definition sol_util_timespec_add (t1 t2 : timespec) : outcome timespec :=
  nsec ← signed_op 64 (tv_nsec t1 + tv_nsec t2);
  sec ← signed_op 64 (tv_sec t1 + tv_sec t2);
  if SOL_UTIL_NSEC_PER_SEC <=? wrapu 64 nsec then
    let nsec := wraps 64 (wrapu 64 nsec - SOL_UTIL_NSEC_PER_SEC) in
    sec ← signed_op 64 (sec + 1);
    Ret {| tv_sec := sec; tv_nsec := nsec |}
  else Ret {| tv_sec := sec; tv_nsec := nsec |}.

Definition sol_util_timespec_sub (t1 t2 : timespec) : outcome timespec :=
  nsec ← signed_op 64 (tv_nsec t1 - tv_nsec t2);
  sec ← signed_op 64 (tv_sec t1 - tv_sec t2);
  if nsec <? 0 then
    let nsec := wraps 64 (wrapu 64 nsec + SOL_UTIL_NSEC_PER_SEC) in
    sec ← signed_op 64 (sec - 1);
    Ret {| tv_sec := sec; tv_nsec := nsec |}
  else Ret {| tv_sec := sec; tv_nsec := nsec |}.

(** (a > b) - (a < b) *)
Definition sol_util_int_compare (a b : Z) : Z :=
  Z.b2z (a >? b) - Z.b2z (a <? b).

Definition sol_util_timespec_compare (t1 t2 : timespec) : Z :=
  let retval := Z.b2z (tv_sec t1 >? tv_sec t2) - Z.b2z (tv_sec t1 <? tv_sec t2) in
  if negb (retval =? 0) then retval
  else Z.b2z (tv_nsec t1 >? tv_nsec t2) - Z.b2z (tv_nsec t1 <? tv_nsec t2).

(** The divisor is an unsigned long long, so a negative [msec] is converted
    before the division. *)
Definition sol_util_timespec_from_msec (msec : Z) : timespec :=
  {| tv_sec := wraps 64 (wrapu 64 msec / SOL_UTIL_MSEC_PER_SEC);
     tv_nsec := wraps 64 (wrapu 64 msec mod SOL_UTIL_MSEC_PER_SEC
                          * SOL_UTIL_NSEC_PER_MSEC) |}.

Definition sol_util_timespec_from_usec (usec : Z) : timespec :=
  {| tv_sec := wraps 64 (wrapu 64 usec / SOL_UTIL_USEC_PER_SEC);
     tv_nsec := wraps 64 (wrapu 64 usec mod SOL_UTIL_USEC_PER_SEC
                          * SOL_UTIL_NSEC_PER_USEC) |}.

Definition sol_util_msec_from_timespec (ts : timespec) : Z :=
  wraps 32 (wrapu 64 (wrapu 64 (tv_sec ts) * SOL_UTIL_MSEC_PER_SEC
                      + wrapu 64 (tv_nsec ts) / SOL_UTIL_NSEC_PER_MSEC)).

Definition sol_util_usec_from_timespec (ts : timespec) : Z :=
  wraps 32 (wrapu 64 (wrapu 64 (tv_sec ts) * SOL_UTIL_USEC_PER_SEC
                      + wrapu 64 (tv_nsec ts) / SOL_UTIL_NSEC_PER_USEC)).

(** A normalised time and the nanoseconds it stands for. *)
Definition normal (t : timespec) : Prop :=
  - 2 ^ 61 <= tv_sec t <= 2 ^ 61 /\ 0 <= tv_nsec t < SOL_UTIL_NSEC_PER_SEC.

Definition nanos (t : timespec) : Z := tv_sec t * SOL_UTIL_NSEC_PER_SEC + tv_nsec t.

Ltac unfold_times :=
  unfold normal, nanos, SOL_UTIL_NSEC_PER_SEC, SOL_UTIL_MSEC_PER_SEC,
    SOL_UTIL_USEC_PER_SEC, SOL_UTIL_NSEC_PER_MSEC, SOL_UTIL_NSEC_PER_USEC in *.

Lemma signed_op_ok w x : - 2 ^ (w - 1) <= x < 2 ^ (w - 1) -> signed_op w x = Ret x.
Proof. intros. unfold signed_op. by bknown. Qed.

(** Sums and differences of normalised times are exact and their nanosecond
    part is in range. *)
Lemma timespec_add_spec t1 t2 :
  normal t1 -> normal t2 ->
  exists t, sol_util_timespec_add t1 t2 = Ret t
    /\ nanos t = nanos t1 + nanos t2 /\ 0 <= tv_nsec t < SOL_UTIL_NSEC_PER_SEC.
Proof.
  intros. unfold sol_util_timespec_add. unfold_times.
  rewrite !signed_op_ok by lia. rewrite !bind_ret, wrapu_small by lia.
  breflect.
  - rewrite signed_op_ok by lia. rewrite bind_ret, wraps_small by lia.
    eexists. split; [done|]. simpl. lia.
  - eexists. split; [done|]. simpl. lia.
Qed.

Lemma timespec_sub_spec t1 t2 :
  normal t1 -> normal t2 ->
  exists t, sol_util_timespec_sub t1 t2 = Ret t
    /\ nanos t = nanos t1 - nanos t2 /\ 0 <= tv_nsec t < SOL_UTIL_NSEC_PER_SEC.
Proof.
  intros. unfold sol_util_timespec_sub. unfold_times.
  rewrite !signed_op_ok by lia. rewrite !bind_ret.
  breflect.
  - rewrite signed_op_ok by lia. rewrite bind_ret.
    eexists. split; [done|]. simpl. rewrite wraps_wrapu_add, wraps_small by lia. lia.
  - eexists. split; [done|]. simpl. lia.
Qed.

(** The comparison orders normalised times by their nanoseconds. *)
Lemma timespec_compare_spec t1 t2 :
  normal t1 -> normal t2 ->
  sol_util_timespec_compare t1 t2 = sol_util_int_compare (nanos t1) (nanos t2).
Proof.
  intros. unfold sol_util_timespec_compare, sol_util_int_compare. unfold_times.
  destruct (Z.lt_trichotomy (tv_sec t1) (tv_sec t2)) as [|[|]]; bknown; simpl; try done.
  destruct (Z.lt_trichotomy (tv_nsec t1) (tv_nsec t2)) as [|[|]]; by bknown.
Qed.

Lemma timespec_from_msec_spec msec :
  0 <= msec <= INT_MAX ->
  normal (sol_util_timespec_from_msec msec)
  /\ nanos (sol_util_timespec_from_msec msec) = msec * SOL_UTIL_NSEC_PER_MSEC.
Proof.
  intros. unfold sol_util_timespec_from_msec. unfold_times. unfold_limits.
  cbn [tv_sec tv_nsec]. rewrite wrapu_small, !wraps_small by dlia. dlia.
Qed.

Lemma msec_roundtrip msec :
  0 <= msec <= INT_MAX ->
  sol_util_msec_from_timespec (sol_util_timespec_from_msec msec) = msec.
Proof.
  intros. unfold sol_util_msec_from_timespec, sol_util_timespec_from_msec.
  unfold_times. unfold_limits. cbn [tv_sec tv_nsec].
  rewrite (wrapu_small 64 msec), !(wraps_small 64), !(wrapu_small 64), wraps_small
    by (rewrite ?wrapu_small by dlia; dlia).
  dlia.
Qed.

(** Arithmetic of [timespec] on normalised values is exact in nanoseconds and
    keeps the nanosecond part in range, comparison orders by total
    nanoseconds, and millisecond counts survive the conversion. *)
Theorem timespec_arithmetic_exact t1 t2 msec :
  normal t1 -> normal t2 -> 0 <= msec <= INT_MAX ->
  (exists t, sol_util_timespec_add t1 t2 = Ret t
    /\ nanos t = nanos t1 + nanos t2 /\ 0 <= tv_nsec t < SOL_UTIL_NSEC_PER_SEC)
  /\ (exists t, sol_util_timespec_sub t1 t2 = Ret t
    /\ nanos t = nanos t1 - nanos t2 /\ 0 <= tv_nsec t < SOL_UTIL_NSEC_PER_SEC)
  /\ sol_util_timespec_compare t1 t2 = sol_util_int_compare (nanos t1) (nanos t2)
  /\ normal (sol_util_timespec_from_msec msec)
  /\ nanos (sol_util_timespec_from_msec msec) = msec * SOL_UTIL_NSEC_PER_MSEC
  /\ sol_util_msec_from_timespec (sol_util_timespec_from_msec msec) = msec.
Proof.
  intros H1 H2 Hm. destruct (timespec_from_msec_spec msec Hm) as [? ?].
  split_and!; [by apply timespec_add_spec|by apply timespec_sub_spec|
    by apply timespec_compare_spec|done|done|by apply msec_roundtrip].
Qed.

Lemma timespec_arithmetic_exact_witness :
  exists t, sol_util_timespec_add {| tv_sec := 1; tv_nsec := 999999999 |}
                                  {| tv_sec := 0; tv_nsec := 2 |} = Ret t
    /\ nanos t = 2000000001 /\ 0 <= tv_nsec t < SOL_UTIL_NSEC_PER_SEC.
Proof.
  apply (timespec_arithmetic_exact {| tv_sec := 1; tv_nsec := 999999999 |}
           {| tv_sec := 0; tv_nsec := 2 |} 5); unfold normal, SOL_UTIL_NSEC_PER_SEC; cbn; zlia.
Defined.
End Timespec.

(** ** Ranged integers and colours (sol-types.c) *)

Module Types.

Record sol_irange := { val : Z; min : Z; max : Z; step : Z }.
Record sol_irange_spec := { spec_min : Z; spec_max : Z; spec_step : Z }.

Definition set_val (r : sol_irange) v := {| val := v; min := min r; max := max r; step := step r |}.
Definition set_min (r : sol_irange) v := {| val := val r; min := v; max := max r; step := step r |}.
Definition set_max (r : sol_irange) v := {| val := val r; min := min r; max := v; step := step r |}.
Definition set_step (r : sol_irange) v := {| val := val r; min := min r; max := max r; step := v |}.

Definition SOL_IRANGE_ADD_OVERFLOW (var0 var1 : Z) : bool :=
  (var1 >? 0) && (var0 >? INT32_MAX - var1).
Definition SOL_IRANGE_ADD_UNDERFLOW (var0 var1 : Z) : bool :=
  (var1 <? 0) && (var0 <? INT32_MIN - var1).
Definition SOL_IRANGE_SUB_OVERFLOW (var0 var1 : Z) : bool :=
  (var1 <? 0) && (var0 >? INT32_MAX + var1).
Definition SOL_IRANGE_SUB_UNDERFLOW (var0 var1 : Z) : bool :=
  (var1 >? 0) && (var0 <? INT32_MIN + var1).
Definition SOL_IRANGE_MUL_OVERFLOW (var0 var1 : Z) : bool :=
  ((var0 =? INT32_MAX) && (var1 =? -1))
  || ((var0 >? 0) && (var1 >? 0) && (var0 >? INT32_MAX ÷ var1))
  || ((var0 <? 0) && (var1 <? 0) && (var0 <? INT32_MAX ÷ var1)).
Definition SOL_IRANGE_MUL_UNDERFLOW (var0 var1 : Z) : bool :=
  ((var0 >? 0) && (var1 <? -1) && (var0 >? INT32_MIN ÷ var1))
  || ((var0 <? 0) && (var1 >? 0) && (var0 <? INT32_MIN ÷ var1)).

(** int32_t quotient and remainder: division by zero and the quotient
    [INT32_MIN / -1] trap. *)
Definition int32_div (a b : Z) : outcome Z :=
  if b =? 0 then UB
  else if (a =? INT32_MIN) && (b =? -1) then UB else Ret (a ÷ b).
Definition int32_rem (a b : Z) : outcome Z :=
  if b =? 0 then UB
  else if (a =? INT32_MIN) && (b =? -1) then UB else Ret (Z.rem a b).

(** The bound of a result: saturates in either direction. *)
Definition saturate (over under : bool) (x : Z) : outcome Z :=
  if over then Ret INT32_MAX
  else if under then Ret INT32_MIN
  else int_op x.

Definition sol_irange_add (var0 var1 result : sol_irange) : outcome (Z * sol_irange) :=
  if SOL_IRANGE_ADD_OVERFLOW (val var0) (val var1) then Ret (- EOVERFLOW, result)
  else if SOL_IRANGE_ADD_UNDERFLOW (val var0) (val var1) then Ret (- EOVERFLOW, result)
  else
    v ← int_op (val var0 + val var1);
    let result := set_step (set_val result v) 1 in
    mn ← saturate (SOL_IRANGE_ADD_OVERFLOW (min var0) (min var1))
           (SOL_IRANGE_ADD_UNDERFLOW (min var0) (min var1)) (min var0 + min var1);
    let result := set_min result mn in
    mx ← saturate (SOL_IRANGE_ADD_OVERFLOW (max var0) (max var1))
           (SOL_IRANGE_ADD_UNDERFLOW (max var0) (max var1)) (max var0 + max var1);
    Ret (0, set_max result mx).

Definition sol_irange_eq (var0 var1 : sol_irange) : bool :=
  if negb (val var0 =? val var1) || negb (min var0 =? min var1)
     || negb (max var0 =? max var1) || negb (step var0 =? step var1)
  then false else true.

Definition sol_irange_div (var0 var1 result : sol_irange) : outcome (Z * sol_irange) :=
  if (val var0 =? INT32_MIN) && (val var1 =? -1) then Ret (- EDOM, result)
  else if val var1 =? 0 then Ret (- EDOM, result)
  else
    v ← int32_div (val var0) (val var1);
    let result := set_step (set_val result v) 1 in
    mn ← (if max var1 =? 0 then Ret INT32_MIN else int32_div (min var0) (max var1));
    let result := set_min result mn in
    mx ← (if min var1 =? 0 then Ret INT32_MAX else int32_div (max var0) (min var1));
    Ret (0, set_max result mx).

Definition sol_irange_mod (var0 var1 result : sol_irange) : outcome (Z * sol_irange) :=
  if val var1 =? 0 then Ret (- EDOM, result)
  else
    v ← int32_rem (val var0) (val var1);
    let result := set_step (set_val result v) 1 in
    mn ← (if SOL_IRANGE_SUB_UNDERFLOW (min var1) 1 then Ret INT32_MIN
          else int_op (min var1 - 1));
    let result := set_min result mn in
    mx ← (if SOL_IRANGE_SUB_UNDERFLOW (max var1) 1 then Ret INT32_MIN
          else int_op (max var1 - 1));
    Ret (0, set_max result mx).

Definition sol_irange_mul (var0 var1 result : sol_irange) : outcome (Z * sol_irange) :=
  let result := set_step result 1 in
  if SOL_IRANGE_MUL_OVERFLOW (val var0) (val var1) then Ret (- EOVERFLOW, result)
  else if SOL_IRANGE_MUL_UNDERFLOW (val var0) (val var1) then Ret (- EOVERFLOW, result)
  else
    v ← int_op (val var0 * val var1);
    let result := set_val result v in
    mn ← saturate (SOL_IRANGE_MUL_OVERFLOW (min var0) (min var1))
           (SOL_IRANGE_MUL_UNDERFLOW (min var0) (min var1)) (min var0 * min var1);
    let result := set_min result mn in
    mx ← saturate (SOL_IRANGE_MUL_OVERFLOW (max var0) (max var1))
           (SOL_IRANGE_MUL_UNDERFLOW (max var0) (max var1)) (max var0 * max var1);
    Ret (0, set_max result mx).

Definition sol_irange_sub (var0 var1 result : sol_irange) : outcome (Z * sol_irange) :=
  if SOL_IRANGE_SUB_OVERFLOW (val var0) (val var1) then Ret (- EOVERFLOW, result)
  else if SOL_IRANGE_SUB_UNDERFLOW (val var0) (val var1) then Ret (- EOVERFLOW, result)
  else
    v ← int_op (val var0 - val var1);
    let result := set_step (set_val result v) 1 in
    mn ← saturate (SOL_IRANGE_SUB_OVERFLOW (min var0) (min var1))
           (SOL_IRANGE_SUB_UNDERFLOW (min var0) (min var1)) (min var0 - min var1);
    let result := set_min result mn in
    mx ← saturate (SOL_IRANGE_SUB_OVERFLOW (max var0) (max var1))
           (SOL_IRANGE_SUB_UNDERFLOW (max var0) (max var1)) (max var0 - max var1);
    Ret (0, set_max result mx).

Definition sol_irange_compose (spec : sol_irange_spec) (value : Z) (result : sol_irange)
    : Z * sol_irange :=
  (0, {| val := value; min := spec_min spec; max := spec_max spec; step := spec_step spec |}).

(** sol_util_int32_clamp (sol-util.h) *)
Definition sol_util_int32_clamp (start end_ value : Z) : Z :=
  if value <? start then start
  else if value >? end_ then end_
  else value.

Record sol_rgb := {
  red : Z; green : Z; blue : Z;
  red_max : Z; green_max : Z; blue_max : Z
}.

(** One component of [sol_rgb_set_max]: clamp, then rescale with a 64-bit
    product that is stored back into 32 bits. *)
Definition rgb_scale (c cmax max_value : Z) : Z :=
  let c := if c >? cmax then cmax else c in
  wrapu 32 (wrapu 64 (c * max_value) / cmax).

Definition sol_rgb_set_max (color : sol_rgb) (max_value : Z) : Z * sol_rgb :=
  if max_value =? 0 then (- EINVAL, color)
  else if (red_max color =? 0) || (green_max color =? 0) || (blue_max color =? 0)
  then (- EINVAL, color)
  else (0, {| red := rgb_scale (red color) (red_max color) max_value;
              green := rgb_scale (green color) (green_max color) max_value;
              blue := rgb_scale (blue color) (blue_max color) max_value;
              red_max := max_value; green_max := max_value; blue_max := max_value |}).

Definition sol_rgb_eq (var0 var1 : sol_rgb) : bool :=
  if negb (red var0 =? red var1) || negb (blue var0 =? blue var1)
     || negb (green var0 =? green var1) || negb (red_max var0 =? red_max var1)
     || negb (blue_max var0 =? blue_max var1) || negb (green_max var0 =? green_max var1)
  then false else true.

(** Saturation to the int32 range. *)
Definition clamp32 (x : Z) : Z := Z.max INT32_MIN (Z.min INT32_MAX x).

Definition wf_irange (r : sol_irange) : Prop :=
  is_int32 (val r) /\ is_int32 (min r) /\ is_int32 (max r) /\ is_int32 (step r).

Definition in_range (r : sol_irange) : Prop := min r <= val r <= max r.

Ltac unfold_irange :=
  unfold wf_irange, in_range, is_int32, clamp32, saturate, int_op,
    SOL_IRANGE_ADD_OVERFLOW, SOL_IRANGE_ADD_UNDERFLOW,
    SOL_IRANGE_SUB_OVERFLOW, SOL_IRANGE_SUB_UNDERFLOW in *.

Lemma saturate_add a b :
  is_int32 a -> is_int32 b ->
  saturate (SOL_IRANGE_ADD_OVERFLOW a b) (SOL_IRANGE_ADD_UNDERFLOW a b) (a + b)
  = Ret (clamp32 (a + b)).
Proof.
  intros. unfold_irange. unfold_limits.
  breflect; try (f_equal; lia); rewrite bool_decide_true by lia; f_equal; lia.
Qed.

Lemma saturate_sub a b :
  is_int32 a -> is_int32 b ->
  saturate (SOL_IRANGE_SUB_OVERFLOW a b) (SOL_IRANGE_SUB_UNDERFLOW a b) (a - b)
  = Ret (clamp32 (a - b)).
Proof.
  intros. unfold_irange. unfold_limits.
  breflect; try (f_equal; lia); rewrite bool_decide_true by lia; f_equal; lia.
Qed.

(** The two product tests together. *)
Lemma mul_tests a b :
  is_int32 a -> is_int32 b ->
  (SOL_IRANGE_MUL_OVERFLOW a b = true <->
     INT32_MAX < a * b \/ a = INT32_MAX /\ b = -1)
  /\ (SOL_IRANGE_MUL_UNDERFLOW a b = true <-> a * b < INT32_MIN).
Proof.
  intros Ha Hb. unfold is_int32, SOL_IRANGE_MUL_OVERFLOW, SOL_IRANGE_MUL_UNDERFLOW in *.
  rewrite !orb_true_iff, !andb_true_iff, !Z.gtb_ltb, !Z.ltb_lt, !Z.eqb_eq.
  destruct (Z.lt_trichotomy a 0) as [Ha'|[->|Ha']];
    [|rewrite !Z.mul_0_l; zlia|];
    (destruct (Z.lt_trichotomy b 0) as [Hb'|[->|Hb']]; [|rewrite !Z.mul_0_r; zlia|]).
  - assert (0 < a * b) by nia.
    rewrite (quot_pos_neg INT32_MAX a b ltac:(done) Hb'). zlia.
  - assert (a * b < 0) by nia.
    rewrite (quot_neg_pos INT32_MIN a b ltac:(done) Hb'). zlia.
  - assert (a * b < 0) by nia. assert (b = -1 -> a * b = - a) by (intros ->; lia).
    rewrite (quot_neg_neg INT32_MIN a b ltac:(done) Hb'). zlia.
  - assert (0 < a * b) by nia.
    rewrite (quot_pos_pos INT32_MAX a b ltac:(done) Hb'). zlia.
Qed.

(** [clamp32] of a product, except for the one pair the test misjudges. *)
Definition mul_bound (a b : Z) : Z :=
  if bool_decide (a = INT32_MAX /\ b = -1) then INT32_MAX else clamp32 (a * b).

Lemma saturate_mul a b :
  is_int32 a -> is_int32 b ->
  saturate (SOL_IRANGE_MUL_OVERFLOW a b) (SOL_IRANGE_MUL_UNDERFLOW a b) (a * b)
  = Ret (mul_bound a b).
Proof.
  intros Ha Hb. destruct (mul_tests a b Ha Hb) as [Ho Hu].
  unfold saturate, mul_bound, clamp32.
  destruct (SOL_IRANGE_MUL_OVERFLOW a b).
  - apply proj1 in Ho. specialize (Ho eq_refl). case_bool_decide; [done|]. f_equal. zlia.
  - assert (~ (INT32_MAX < a * b \/ a = INT32_MAX /\ b = -1)) by (intros ?%Ho; done).
    rewrite bool_decide_false by tauto.
    destruct (SOL_IRANGE_MUL_UNDERFLOW a b).
    + apply proj1 in Hu. specialize (Hu eq_refl). f_equal. zlia.
    + assert (~ a * b < INT32_MIN) by (intros ?%Hu; done).
      rewrite int_op_ok by zlia. f_equal. zlia.
Qed.

(** The ranged sum and difference: exact value, saturated bounds. *)
Definition range_add (v0 v1 : sol_irange) : sol_irange :=
  {| val := val v0 + val v1; min := clamp32 (min v0 + min v1);
     max := clamp32 (max v0 + max v1); step := 1 |}.
Definition range_sub (v0 v1 : sol_irange) : sol_irange :=
  {| val := val v0 - val v1; min := clamp32 (min v0 - min v1);
     max := clamp32 (max v0 - max v1); step := 1 |}.

(** Adding ranged integers is exact or refused, never wrapped: when the sum
    of the values fits, the result carries it with bounds saturated to the
    32-bit range, and lies inside those bounds if the operands lay inside
    theirs; otherwise [-EOVERFLOW] is returned and the result untouched. *)
Theorem irange_add_exact_or_refused v0 v1 r :
  wf_irange v0 -> wf_irange v1 ->
  (is_int32 (val v0 + val v1) ->
   sol_irange_add v0 v1 r = Ret (0, range_add v0 v1)
   /\ wf_irange (range_add v0 v1)
   /\ (in_range v0 -> in_range v1 -> in_range (range_add v0 v1)))
  /\ (~ is_int32 (val v0 + val v1) -> sol_irange_add v0 v1 r = Ret (- EOVERFLOW, r)).
Proof.
  intros (Hv0 & Hn0 & Hx0 & _) (Hv1 & Hn1 & Hx1 & _). unfold sol_irange_add.
  rewrite !saturate_add by done. split.
  - intros Hs.
    replace (SOL_IRANGE_ADD_OVERFLOW (val v0) (val v1)) with false
      by (unfold_irange; breflect; zlia).
    replace (SOL_IRANGE_ADD_UNDERFLOW (val v0) (val v1)) with false
      by (unfold_irange; breflect; zlia).
    rewrite int_op_ok by done. split; [done|]. unfold range_add, range_sub. unfold_irange. simpl. zlia.
  - intros Hs. unfold_irange. unfold_limits. breflect; (done || lia).
Qed.

Lemma irange_sub_spec v0 v1 r :
  wf_irange v0 -> wf_irange v1 ->
  (is_int32 (val v0 - val v1) ->
   sol_irange_sub v0 v1 r = Ret (0, range_sub v0 v1) /\ wf_irange (range_sub v0 v1))
  /\ (~ is_int32 (val v0 - val v1) -> sol_irange_sub v0 v1 r = Ret (- EOVERFLOW, r)).
Proof.
  intros (Hv0 & Hn0 & Hx0 & _) (Hv1 & Hn1 & Hx1 & _). unfold sol_irange_sub.
  rewrite !saturate_sub by done. split.
  - intros Hs.
    replace (SOL_IRANGE_SUB_OVERFLOW (val v0) (val v1)) with false
      by (unfold_irange; breflect; zlia).
    replace (SOL_IRANGE_SUB_UNDERFLOW (val v0) (val v1)) with false
      by (unfold_irange; breflect; zlia).
    rewrite int_op_ok by done. split; [done|]. unfold range_add, range_sub. unfold_irange. simpl. zlia.
  - intros Hs. unfold_irange. unfold_limits. breflect; (done || lia).
Qed.

(** The bounds of a difference are taken from like ends, so a difference of
    in-range operands can leave the range it is given. *)
Lemma irange_sub_leaves_range r :
  exists v0 v1 res, in_range v0 /\ in_range v1
    /\ sol_irange_sub v0 v1 r = Ret (0, res) /\ ~ in_range res.
Proof.
  exists {| val := 10; min := 0; max := 10; step := 1 |},
    {| val := 0; min := 0; max := 10; step := 1 |}.
  eexists. split_and!; [done|done|reflexivity|]. unfold in_range. simpl. lia.
Qed.

(** Multiplication is exact except for [INT32_MAX * -1], which is refused
    although the product fits. *)
Lemma irange_mul_spec v0 v1 r :
  wf_irange v0 -> wf_irange v1 ->
  let refused := ~ is_int32 (val v0 * val v1) \/ val v0 = INT32_MAX /\ val v1 = -1 in
  (~ refused ->
   sol_irange_mul v0 v1 r
   = Ret (0, {| val := val v0 * val v1; min := mul_bound (min v0) (min v1);
                max := mul_bound (max v0) (max v1); step := 1 |}))
  /\ (refused -> sol_irange_mul v0 v1 r = Ret (- EOVERFLOW, set_step r 1)).
Proof.
  intros (Hv0 & Hn0 & Hx0 & _) (Hv1 & Hn1 & Hx1 & _) refused.
  unfold sol_irange_mul. rewrite !saturate_mul by done.
  destruct (mul_tests _ _ Hv0 Hv1) as [Ho Hu]. subst refused. unfold is_int32 in *.
  destruct (SOL_IRANGE_MUL_OVERFLOW _ _), (SOL_IRANGE_MUL_UNDERFLOW _ _);
    split; intros Hr; try done; try (exfalso; zlia).
  by rewrite int_op_ok by zlia.
Qed.

(** Division and remainder answer [EDOM] for a zero divisor and for the
    overflowing quotient, but the quotients of the bounds and the remainder
    are not guarded. *)
Lemma irange_div_spec v0 v1 r :
  ~ (min v0 = INT32_MIN /\ max v1 = -1) -> ~ (max v0 = INT32_MIN /\ min v1 = -1) ->
  (val v1 = 0 \/ val v0 = INT32_MIN /\ val v1 = -1 ->
     sol_irange_div v0 v1 r = Ret (- EDOM, r))
  /\ (val v1 <> 0 -> ~ (val v0 = INT32_MIN /\ val v1 = -1) ->
     exists res, sol_irange_div v0 v1 r = Ret (0, res)
       /\ val res = val v0 ÷ val v1 /\ step res = 1
       /\ (0 <= min v0 -> 0 < min v1 -> in_range v0 -> in_range v1 -> in_range res)).
Proof.
  intros Hmn Hmx. unfold sol_irange_div, int32_div, in_range. split.
  - intros [Hz|[-> ->]]; [|done].
    rewrite Hz. destruct (Z.eqb_spec (val v0) INT32_MIN); done.
  - intros Hz Ht.
    replace ((val v0 =? INT32_MIN) && (val v1 =? -1)) with false by (breflect; lia).
    replace (val v1 =? 0) with false by (breflect; lia).
    replace ((min v0 =? INT32_MIN) && (max v1 =? -1)) with false by (breflect; lia).
    replace ((max v0 =? INT32_MIN) && (min v1 =? -1)) with false by (breflect; lia).
    rewrite bind_ret.
    destruct (Z.eqb_spec (max v1) 0), (Z.eqb_spec (min v1) 0); rewrite !bind_ret;
      (eexists; split_and!; [done|done|done|cbn [val min max set_max set_min set_step set_val]; intros]);
      try lia.
    rewrite !Z.quot_div_nonneg by lia. split.
    + transitivity (min v0 / val v1); [apply Z.div_le_compat_l|apply Z.div_le_mono]; lia.
    + transitivity (max v0 / val v1); [apply Z.div_le_mono|apply Z.div_le_compat_l]; lia.
Qed.

Lemma irange_div_traps v0 v1 r :
  val v1 <> 0 -> ~ (val v0 = INT32_MIN /\ val v1 = -1) ->
  min v0 = INT32_MIN -> max v1 = -1 ->
  sol_irange_div v0 v1 r = UB.
Proof.
  intros Hz Ht Hmn Hmx. unfold sol_irange_div, int32_div.
  replace ((val v0 =? INT32_MIN) && (val v1 =? -1)) with false by (breflect; lia).
  replace (val v1 =? 0) with false by (breflect; lia).
  by rewrite Hmn, Hmx.
Qed.

Lemma irange_mod_spec v0 v1 r :
  wf_irange v1 ->
  sol_irange_mod v0 v1 r
  = if val v1 =? 0 then Ret (- EDOM, r)
    else if (val v0 =? INT32_MIN) && (val v1 =? -1) then UB
    else Ret (0, {| val := Z.rem (val v0) (val v1); min := clamp32 (min v1 - 1);
                    max := clamp32 (max v1 - 1); step := 1 |}).
Proof.
  intros (_ & Hn & Hx & _). unfold sol_irange_mod, int32_rem.
  destruct (Z.eqb_spec (val v1) 0); [done|].
  destruct ((val v0 =? INT32_MIN) && (val v1 =? -1)); [done|]. rewrite bind_ret.
  assert (forall x, is_int32 x ->
    (if SOL_IRANGE_SUB_UNDERFLOW x 1 then Ret INT32_MIN else int_op (x - 1))
    = Ret (clamp32 (x - 1))) as Hc.
  { intros x Hx'. unfold_irange. unfold_limits. breflect; try (f_equal; lia).
    rewrite bool_decide_true by lia. f_equal. lia. }
  by rewrite !Hc by done.
Qed.

Definition wf_rgb (c : sol_rgb) : Prop :=
  is_uint 32 (red c) /\ is_uint 32 (green c) /\ is_uint 32 (blue c)
  /\ is_uint 32 (red_max c) /\ is_uint 32 (green_max c) /\ is_uint 32 (blue_max c).

Lemma rgb_scale_spec c cmax m :
  is_uint 32 c -> is_uint 32 cmax -> 0 < cmax -> is_uint 32 m ->
  rgb_scale c cmax m = Z.min c cmax * m / cmax /\ 0 <= rgb_scale c cmax m <= m.
Proof.
  intros Hc Hcm Hpos Hm. unfold rgb_scale, is_uint in *. cbv zeta.
  replace (if c >? cmax then cmax else c) with (Z.min c cmax) by (breflect; lia).
  set (k := Z.min c cmax). assert (0 <= k <= cmax) by lia.
  assert (0 <= k * m < 2 ^ 64) by nia.
  assert (0 <= k * m / cmax <= m).
  { split; [apply Z.div_pos; lia|]. apply Z.div_le_upper_bound; nia. }
  rewrite (wrapu_small 64), wrapu_small by (rewrite ?wrapu_small; lia). done.
Qed.

(** Rescaling a colour keeps every component within the new maximum, is
    exact integer scaling of the clamped component, and never loses bits in
    the 64-bit product. *)
Lemma rgb_set_max_spec c m :
  wf_rgb c -> is_uint 32 m -> 0 < m ->
  0 < red_max c -> 0 < green_max c -> 0 < blue_max c ->
  exists c', sol_rgb_set_max c m = (0, c') /\ wf_rgb c'
    /\ red c' = Z.min (red c) (red_max c) * m / red_max c
    /\ green c' = Z.min (green c) (green_max c) * m / green_max c
    /\ blue c' = Z.min (blue c) (blue_max c) * m / blue_max c
    /\ red c' <= m /\ green c' <= m /\ blue c' <= m.
Proof.
  intros (? & ? & ? & ? & ? & ?) Hm ? ? ? ?. unfold sol_rgb_set_max.
  bknown. eexists. split; [done|].
  destruct (rgb_scale_spec (red c) (red_max c) m) as [? ?]; try done.
  destruct (rgb_scale_spec (green c) (green_max c) m) as [? ?]; try done.
  destruct (rgb_scale_spec (blue c) (blue_max c) m) as [? ?]; try done.
  unfold wf_rgb, is_uint in *. simpl. split_and!; try done; lia.
Qed.

Definition percent (v : Z) : sol_irange := {| val := v; min := 0; max := 100; step := 1 |}.

Lemma irange_add_exact_or_refused_witness :
  sol_irange_add (percent 40) (percent 50) (percent 0) = Ret (0, range_add (percent 40) (percent 50)).
Proof.
  apply (irange_add_exact_or_refused (percent 40) (percent 50) (percent 0));
    unfold wf_irange, is_int32; cbn; zlia.
Defined.
End Types.
