(* ===== verification/Vector.v ===== *)
(** * Growable arrays (sol_vector)

    Models src/src/lib/datatypes/sol-vector.c and the inline functions of
    src/src/lib/datatypes/include/sol-vector.h that work on raw elements.  A
    vector is modelled as the C struct, with its storage as a byte block;
    [vec_rep v l] says that [v] stands for the list [l] of elements, each
    element a list of [elem_size] bytes.  Every operation is shown to
    implement the corresponding list operation and to stay inside its
    storage. *)

From S2P Require Import Prelude Arith.

#[local] Open Scope Z_scope.

Module Vector.

Record sol_vector := { data : option block; len : Z; elem_size : Z }.

Definition set_data (v : sol_vector) d := {| data := d; len := len v; elem_size := elem_size v |}.
Definition set_len (v : sol_vector) n := {| data := data v; len := n; elem_size := elem_size v |}.

(** The storage of a vector; a NULL pointer has no bytes. *)
Definition storage (v : sol_vector) : block := default [] (data v).

Section Operations.
Context `{BuildConfig} `{Allocator}.

Definition sol_vector_init (elem_size : Z) : sol_vector :=
  {| data := None; len := 0; elem_size := elem_size |}.

Definition sol_vector_grow (v : sol_vector) (amount : Z) : Z * sol_vector :=
  if len v >? UINT16_MAX - amount then (- EOVERFLOW, v)
  else
    let new_len := wrapu 16 (len v + amount) in
    let old_cap := align_power2_short_uint (len v) in
    let new_cap := align_power2_short_uint new_len in
    if negb (new_cap =? old_cap) then
      let '(r, data_size) := sol_util_size_mul (elem_size v) new_cap 0 in
      if r <? 0 then (r, v)
      else
        match c_realloc (data v) data_size with
        | None => (- ENOMEM, v)
        | Some d => (0, set_len (set_data v (Some d)) new_len)
        end
    else (0, set_len v new_len).

(** Pointers to elements are byte offsets into the storage; [inl e] is a
    NULL return with [errno = e]. *)
Definition sol_vector_append_n (v : sol_vector) (n : Z)
    : outcome ((Z + Z) * sol_vector) :=
  if n =? 0 then Ret (inl EINVAL, v)
  else
    let '(err, v) := sol_vector_grow v n in
    if err <? 0 then Ret (inl (- err), v)
    else
      new_elems ← int_op (elem_size v * (len v - n));
      d ← mem_store (storage v) new_elems
            (replicate (Z.to_nat (elem_size v * n)) 0);
      Ret (inr new_elems, set_data v (Some d)).

Definition sol_vector_append (v : sol_vector) : outcome ((Z + Z) * sol_vector) :=
  sol_vector_append_n v 1.

Definition sol_vector_shrink (v : sol_vector) : sol_vector :=
  if len v =? 0 then set_data v None
  else
    let old_cap := align_power2_uint (len v + 1) in
    let new_cap := align_power2_short_uint (len v) in
    if new_cap =? old_cap then v
    else
      match c_realloc (data v) (wrapu 32 (new_cap * elem_size v)) with
      | None => v
      | Some d => set_data v (Some d)
      end.

Definition sol_vector_del (v : sol_vector) (i : Z) : outcome (Z * sol_vector) :=
  if i >=? len v then Ret (- EINVAL, v)
  else
    let v := set_len v (len v - 1) in
    let tail_len := len v - i in
    v ← (if negb (tail_len =? 0) then
           dst ← int_op (elem_size v * i);
           let src := dst + elem_size v in
           d ← mem_move (storage v) dst src (elem_size v * tail_len);
           Ret (set_data v (Some d))
         else Ret v);
    Ret (0, sol_vector_shrink v).

Definition sol_vector_del_range (v : sol_vector) (start n : Z)
    : outcome (Z * sol_vector) :=
  if start >=? len v then Ret (- EINVAL, v)
  else
    let n := if start + n >=? len v then len v - start else n in
    let v := set_len v (len v - n) in
    let tail_len := len v - start in
    v ← (if negb (tail_len =? 0) then
           dst ← int_op (elem_size v * start);
           gap ← int_op (n * elem_size v);
           d ← mem_move (storage v) dst (dst + gap) (elem_size v * tail_len);
           Ret (set_data v (Some d))
         else Ret v);
    Ret (0, sol_vector_shrink v).

Definition sol_vector_clear (v : sol_vector) : sol_vector :=
  set_len (set_data v None) 0.

(** The element pointer is given by its distance from [v->data]. *)
Definition sol_vector_del_element (v : sol_vector) (offset : Z)
    : outcome (Z * sol_vector) :=
  if negb (Z.rem offset (elem_size v) =? 0) || (offset <? 0)
  then Ret (- ENOENT, v)
  else
    let index := offset ÷ elem_size v in
    if index >=? len v then Ret (- ENOENT, v)
    else sol_vector_del v index.

Definition sol_vector_get_no_check (v : sol_vector) (i : Z) : outcome Z :=
  int_op (elem_size v * i).

Definition sol_vector_get (v : sol_vector) (i : Z) : outcome (option Z) :=
  if i >=? len v then Ret None
  else p ← sol_vector_get_no_check v i; Ret (Some p).

Definition sol_vector_del_last (v : sol_vector) : outcome (Z * sol_vector) :=
  if len v =? 0 then Ret (0, v) else sol_vector_del v (len v - 1).

Definition sol_vector_steal_data (v : sol_vector) : option block * sol_vector :=
  (data v, set_len (set_data v None) 0).
End Operations.

(** ** Representation *)

Definition vec_rep (v : sol_vector) (l : list block) : Prop :=
  0 < elem_size v <= 32768
  /\ len v = blen l /\ len v <= UINT16_MAX
  /\ Forall (fun e => blen e = elem_size v) l
  /\ match data v with
     | None => l = []
     | Some m => exists slack, m = concat l ++ slack
         /\ elem_size v * align_power2_short_uint (len v) <= blen m
     end.

Lemma blen_concat s (l : list block) :
  Forall (fun e => blen e = s) l -> blen (concat l) = s * blen l.
Proof.
  induction 1 as [|e l He _ IH]; simpl; [by rewrite !blen_nil, Z.mul_0_r|].
  rewrite blen_app, blen_cons. lia.
Qed.

Lemma concat_replicate {A} n k (x : A) :
  concat (replicate n (replicate k x)) = replicate (n * k) x.
Proof. induction n; simpl; [done|]. by rewrite IHn, replicate_add. Qed.

(** A kept prefix survives a reallocation that has room for it. *)
Lemma resize_keep `{Allocator} a s n :
  blen a <= n -> exists s', resize_block (a ++ s) n = a ++ s'.
Proof.
  intros Hn. unfold resize_block. rewrite take_app_ge by (unfold blen in Hn; lia).
  rewrite <- app_assoc. eauto.
Qed.

(** Stealing, clearing and initialising give the empty vector. *)
Lemma rep_init es : 0 < es <= 32768 -> vec_rep (sol_vector_init es) [].
Proof. intros. split_and!; simpl; (done || zlia). Qed.

Lemma rep_elem_size v l : vec_rep v l -> 0 < elem_size v <= 32768.
Proof. by intros (? & _). Qed.

Lemma rep_len v l : vec_rep v l -> len v = blen l /\ blen l <= UINT16_MAX.
Proof. intros (_ & ? & ? & _). split; [done|congruence]. Qed.

Lemma storage_some v m : data v = Some m -> storage v = m.
Proof. unfold storage. by intros ->. Qed.

Lemma rep_storage v l : vec_rep v l -> exists slack, storage v = concat l ++ slack.
Proof.
  intros (_ & _ & _ & _ & Hd). unfold storage. destruct (data v); simpl.
  - destruct Hd as (s & -> & _). eauto.
  - subst l. by exists [].
Qed.

Section Proofs.
Context `{BuildConfig} `{Allocator}.

(** Growing keeps the elements in place and makes room behind them; a
    failed request leaves the vector untouched. *)
Lemma grow_spec v l n :
  vec_rep v l -> 0 < n <= UINT16_MAX ->
  let '(r, v') := sol_vector_grow v n in
  (r < 0 /\ v' = v)
  \/ (r = 0 /\ elem_size v' = elem_size v /\ len v' = blen l + n
      /\ len v' <= UINT16_MAX
      /\ exists slack, data v' = Some (concat l ++ slack)
           /\ elem_size v * align_power2_short_uint (len v')
              <= blen (concat l ++ slack)).
Proof.
  intros (Hes & Hlen & Hmax & Hall & Hd) Hn. unfold sol_vector_grow.
  pose proof (blen_nonneg l).
  rewrite Z.gtb_ltb. destruct (Z.ltb_spec (UINT16_MAX - n) (len v)); [left; done|].
  rewrite wrapu_small by zlia. set (n' := len v + n).
  assert (0 < n' <= UINT16_MAX) as Hn' by (unfold n'; lia).
  pose proof (align_short_ge n' ltac:(unfold USHRT_MAX, UINT16_MAX in *; lia)).
  pose proof (align_short_le n' ltac:(unfold USHRT_MAX, UINT16_MAX in *; lia)).
  destruct (Z.eqb_spec (align_power2_short_uint n') (align_power2_short_uint (len v)))
    as [Heq|Hne]; cbn [negb].
  - right. split_and!; [done|done|simpl; lia|simpl; lia|]. simpl.
    destruct (data v) as [m|]; [|subst l].
    + destruct Hd as (s & -> & Hcap). exists s. by rewrite Heq.
    + assert (len v = 0) as Hz by (rewrite Hlen; apply blen_nil).
      rewrite Hz in Heq. change (align_power2_short_uint 0) with 0 in Heq. lia.
  - set (cap := align_power2_short_uint n') in *.
    assert (0 <= elem_size v * cap <= SIZE_MAX) as Hsz by (unfold_limits; nia).
    rewrite size_mul_exact by lia. cbn [Z.ltb Z.compare].
    assert (Hkeep : blen (concat l) <= elem_size v * cap)
      by (rewrite (blen_concat (elem_size v)) by done; unfold n' in *; nia).
    unfold c_realloc, c_malloc. destruct (data v) as [m|].
    + rewrite bool_decide_false by nia. destruct (alloc_ok _); [|left; done].
      right. destruct Hd as (s & -> & _).
      destruct (resize_keep (concat l) s (elem_size v * cap) Hkeep) as [s' Hs'].
      split_and!; [done|done|simpl; lia|simpl; lia|]. exists s'. simpl.
      rewrite Hs'. split; [done|]. rewrite <- Hs', blen_resize by lia. lia.
    + subst l. destruct (alloc_ok _); [|left; done]. right.
      split_and!; [done|done|simpl; lia|simpl; lia|]. exists (fresh 0 (elem_size v * cap)).
      simpl. split; [done|]. rewrite blen_fresh. lia.
Qed.

(** When requests succeed, growing below the length limit succeeds. *)
Lemma grow_succeeds v l n :
  vec_rep v l -> 0 < n -> blen l + n <= UINT16_MAX ->
  (forall k, k <= SSIZE_MAX -> alloc_ok k = true) -> fst (sol_vector_grow v n) = 0.
Proof.
  intros (Hes & Hlen & Hmax & Hall & Hd) Hn Hle Hok. unfold sol_vector_grow.
  pose proof (blen_nonneg l). bknown. rewrite wrapu_small by zlia.
  pose proof (align_short_ge (len v + n) ltac:(unfold USHRT_MAX, UINT16_MAX in *; lia)).
  pose proof (align_short_le (len v + n) ltac:(unfold USHRT_MAX, UINT16_MAX in *; lia)).
  set (cap := align_power2_short_uint (len v + n)) in *.
  destruct (negb _); [|done].
  rewrite size_mul_exact by (unfold_limits; nia). cbn [Z.ltb Z.compare].
  unfold c_realloc, c_malloc. rewrite Hok by (unfold_limits; nia). destruct (data v); [|done].
  by rewrite bool_decide_false by nia.
Qed.

(** Shrinking returns storage without losing elements. *)
Lemma shrink_spec v l slack :
  0 < elem_size v <= 32768 -> len v = blen l -> len v <= UINT16_MAX ->
  Forall (fun e => blen e = elem_size v) l ->
  data v = Some (concat l ++ slack) ->
  elem_size v * align_power2_short_uint (len v) <= blen (concat l ++ slack) ->
  vec_rep (sol_vector_shrink v) l.
Proof.
  intros Hes Hlen Hmax Hall Hd Hcap. unfold sol_vector_shrink.
  pose proof (blen_nonneg l).
  destruct (Z.eqb_spec (len v) 0) as [Hz|Hz].
  { rewrite Hz in Hlen. symmetry in Hlen. apply blen_zero_nil in Hlen. subst l.
    split_and!; simpl; (done || zlia). }
  assert (vec_rep v l) as Hrep by (split_and!; try (done || lia); rewrite Hd; eauto).
  pose proof (align_short_ge (len v) ltac:(unfold USHRT_MAX, UINT16_MAX in *; lia)).
  pose proof (align_short_le (len v) ltac:(unfold USHRT_MAX, UINT16_MAX in *; lia)).
  set (cap := align_power2_short_uint (len v)) in *.
  destruct (_ =? _); [done|].
  rewrite wrapu_small by (unfold_limits; nia). unfold c_realloc. rewrite Hd.
  rewrite bool_decide_false by nia. destruct (alloc_ok _); [|done].
  split_and!; simpl; try (done || lia).
  assert (blen (concat l) <= cap * elem_size v) as Hk
    by (rewrite (blen_concat (elem_size v)) by done; nia).
  destruct (resize_keep (concat l) slack _ Hk) as [s' Hs'].
  exists s'. split; [done|]. rewrite blen_resize by nia. fold cap. lia.
Qed.

Lemma shrink_elem_size v : elem_size (sol_vector_shrink v) = elem_size v.
Proof. unfold sol_vector_shrink. by repeat case_match. Qed.

Lemma rep_shrinkable v l : vec_rep v l -> data v <> None -> vec_rep (sol_vector_shrink v) l.
Proof.
  intros (? & ? & ? & ? & Hd) Hn. destruct (data v) as [m|] eqn:E; [|done].
  destruct Hd as (s & -> & ?). by eapply shrink_spec.
Qed.

Lemma elem_index_ok es i : 0 < es <= 32768 -> 0 <= i <= UINT16_MAX -> int_op (es * i) = Ret (es * i).
Proof. intros. apply int_op_ok. unfold_limits. nia. Qed.

(** Appending [n] elements adds [n] zeroed elements at the end and returns
    the address of the first of them, or fails and changes nothing. *)
Lemma append_n_spec v l n :
  vec_rep v l -> 0 < n <= UINT16_MAX ->
  exists r v', sol_vector_append_n v n = Ret (r, v')
    /\ ((exists e, r = inl e /\ 0 < e /\ v' = v)
        \/ (r = inr (elem_size v * blen l) /\ elem_size v' = elem_size v
            /\ vec_rep v' (l ++ replicate (Z.to_nat n)
                              (replicate (Z.to_nat (elem_size v)) 0)))).
Proof.
  intros Hrep Hn. pose proof Hrep as (Hes & Hlen & Hmax & Hall & _).
  pose proof (blen_nonneg l).
  unfold sol_vector_append_n. replace (n =? 0) with false by (breflect; lia).
  pose proof (grow_spec v l n Hrep Hn) as Hg.
  destruct (sol_vector_grow v n) as [r v'].
  destruct Hg as [(Hr & ->)|(-> & Hes' & Hlen' & Hmax' & s & Hd & Hcap)].
  { replace (r <? 0) with true by (breflect; lia).
    do 2 eexists. split; [done|]. left. exists (- r). split_and!; (done || lia). }
  cbn [Z.ltb Z.compare]. rewrite Hes', elem_index_ok by lia. rewrite bind_ret.
  replace (len v' - n) with (blen l) by lia.
  assert (blen (concat l) = elem_size v * blen l) as Hc by by apply blen_concat.
  pose proof (align_short_ge (len v') ltac:(unfold USHRT_MAX, UINT16_MAX in *; lia)).
  assert (elem_size v * n <= blen s) as Hs by (rewrite blen_app, Hc in Hcap; nia).
  pose proof (take_drop (Z.to_nat (elem_size v * n)) s) as Htd.
  rewrite (storage_some _ _ Hd), <- Htd.
  rewrite mem_store_app by (rewrite ?blen_take, ?blen_replicate; nia).
  rewrite bind_ret. do 2 eexists. split; [done|]. right.
  split; [done|]. split; [done|].
  split_and!; cbn [set_data elem_size len data]; try lia.
  - rewrite blen_app, blen_replicate. lia.
  - rewrite Hes'. apply Forall_app. split; [done|].
    apply Forall_replicate. rewrite blen_replicate. lia.
  - exists (drop (Z.to_nat (elem_size v * n)) s).
    rewrite concat_app, concat_replicate, <- app_assoc.
    replace (Z.to_nat n * Z.to_nat (elem_size v))%nat
      with (Z.to_nat (elem_size v * n)) by nia.
    split; [done|]. rewrite Hes'. etrans; [exact Hcap|].
    rewrite !blen_app, blen_replicate, blen_drop. nia.
Qed.

(** A position splits the list it indexes. *)
Lemma rep_split v l i :
  vec_rep v l -> 0 <= i < blen l ->
  exists a e b, l = a ++ e :: b /\ blen a = i /\ blen e = elem_size v
    /\ blen (concat a) = elem_size v * i
    /\ blen (concat b) = elem_size v * (blen l - i - 1).
Proof.
  intros (Hes & _ & _ & Hall & _) Hi.
  destruct (lookup_lt_is_Some_2 l (Z.to_nat i)) as [e He]; [unfold blen in Hi; lia|].
  exists (take (Z.to_nat i) l), e, (drop (S (Z.to_nat i)) l).
  split; [symmetry; by apply take_drop_middle|].
  assert (blen (take (Z.to_nat i) l) = i) as Ha by (rewrite blen_take; lia).
  split; [done|]. split; [by eapply Forall_lookup_1 in Hall|].
  rewrite !(blen_concat (elem_size v)) by (apply Forall_take || apply Forall_drop; done).
  rewrite Ha. split; [done|]. rewrite blen_drop. nia.
Qed.

(** Dropping the elements in [start, start + n) and closing the gap. *)
Lemma remove_gap_spec v a m b slack :
  0 < elem_size v <= 32768 -> len v <= UINT16_MAX ->
  Forall (fun e => blen e = elem_size v) (a ++ m ++ b) ->
  len v = blen (a ++ b) ->
  data v = Some (concat (a ++ m ++ b) ++ slack) ->
  elem_size v * align_power2_short_uint (blen (a ++ m ++ b))
    <= blen (concat (a ++ m ++ b) ++ slack) ->
  blen (a ++ m ++ b) <= UINT16_MAX ->
  exists v',
    (if negb (blen b =? 0) then
       d ← mem_move (storage v) (elem_size v * blen a)
             (elem_size v * blen a + elem_size v * blen m) (elem_size v * blen b);
       Ret (set_data v (Some d))
     else Ret v) = Ret v'
    /\ vec_rep (sol_vector_shrink v') (a ++ b) /\ elem_size v' = elem_size v
    /\ vec_rep v' (a ++ b).
Proof.
  intros Hes Hmax Hall Hlen Hd Hcap Htot.
  rewrite !Forall_app in Hall. destruct Hall as (Ha & Hm & Hb).
  pose proof (blen_concat _ _ Ha) as Hca. pose proof (blen_concat _ _ Hm) as Hcm.
  pose proof (blen_concat _ _ Hb) as Hcb.
  assert (Forall (fun e => blen e = elem_size v) (a ++ b)) as Hab
    by by apply Forall_app.
  pose proof (blen_nonneg a). pose proof (blen_nonneg m). pose proof (blen_nonneg b).
  assert (align_power2_short_uint (len v) <= align_power2_short_uint (blen (a ++ m ++ b)))
    as Hmono by (apply align_short_mono; rewrite ?Hlen, !blen_app in *; unfold USHRT_MAX, UINT16_MAX in *; lia).
  assert (forall m' s', m' = concat (a ++ b) ++ s' ->
            blen m' = blen (concat (a ++ m ++ b) ++ slack) ->
            vec_rep (sol_vector_shrink (set_data v (Some m'))) (a ++ b)
            /\ vec_rep (set_data v (Some m')) (a ++ b)) as Hfin.
  { intros m' s' -> Hm'.
    assert (elem_size v * align_power2_short_uint (len v) <= blen (concat (a ++ b) ++ s'))
      by nia.
    split; [by eapply shrink_spec|]. split_and!; try done; simpl; try lia. eauto. }
  rewrite !concat_app, <- !app_assoc in Hd.
  destruct (Z.eqb_spec (blen b) 0) as [Hz|Hz]; cbn [negb].
  - exists v. split; [done|]. apply blen_zero_nil in Hz. subst b.
    rewrite app_nil_r in *. simpl in Hd.
    destruct (Hfin _ (concat m ++ slack) eq_refl) as [R1 R2].
    { by rewrite app_nil_r, concat_app, <- app_assoc. }
    rewrite <- Hd in R1, R2. destruct v; simpl in *. by subst.
  - rewrite (storage_some _ _ Hd).
    rewrite mem_move_down by lia. rewrite bind_ret. eexists. split; [done|].
    pose proof (mem_move_down (concat a) (concat m) (concat b) slack _ _ _
      eq_refl eq_refl eq_refl) as Hmv%mem_move_blen.
    destruct (Hfin (concat a ++ concat b
        ++ drop (length (concat b)) (concat m ++ concat b ++ slack))
      (drop (length (concat b)) (concat m ++ concat b ++ slack))) as [R1 R2].
    { by rewrite concat_app, <- app_assoc. }
    { rewrite Hmv, !concat_app, <- !app_assoc. done. }
    done.
Qed.

(** Deleting the element at [i]. *)
Lemma del_spec v l i :
  vec_rep v l -> 0 <= i < blen l ->
  exists v', sol_vector_del v i = Ret (0, v') /\ elem_size v' = elem_size v
    /\ vec_rep v' (delete (Z.to_nat i) l).
Proof.
  intros Hrep Hi. pose proof Hrep as (Hes & Hlen & Hmax & Hall & Hd).
  destruct (rep_split v l i Hrep Hi) as (a & e & b & -> & Ha & He & _ & _).
  destruct (data v) as [m|] eqn:E; [|by destruct a].
  destruct Hd as (s & -> & Hcap). rewrite Hlen in Hcap, Hmax.
  assert (Hlab : blen (a ++ e :: b) - 1 = blen (a ++ b))
    by (rewrite !blen_app, blen_cons; lia).
  pose proof (blen_nonneg b). pose proof (blen_nonneg a).
  destruct (remove_gap_spec (set_len v (blen (a ++ b))) a [e] b s) as (v' & Hv' & ? & ? & _);
    cbn [set_len len elem_size data]; try (done || lia).
  unfold sol_vector_del. replace (i >=? len v) with false by (breflect; lia).
  cbv zeta. rewrite Hlen, Hlab. cbn [set_len len elem_size].
  replace (blen (a ++ b) - i) with (blen b) by (rewrite blen_app; lia).
  rewrite elem_index_ok by lia. rewrite bind_ret, <- Ha.
  change (blen [e]) with 1 in Hv'. rewrite Z.mul_1_r in Hv'.
  cbn [set_len elem_size len] in Hv'. rewrite Hv', bind_ret.
  eexists. split; [done|]. split; [by rewrite shrink_elem_size|].
  by rewrite blen_to_nat, delete_middle.
Qed.

Lemma del_out_of_range v i : len v <= i -> sol_vector_del v i = Ret (- EINVAL, v).
Proof. intros. unfold sol_vector_del. by replace (i >=? len v) with true by (breflect; lia). Qed.

(** Deleting a range removes what exists of it. *)
Lemma del_range_spec v l start n :
  vec_rep v l -> 0 <= start < blen l -> 0 <= n <= UINT16_MAX ->
  elem_size v * n <= INT_MAX ->
  exists v', sol_vector_del_range v start n = Ret (0, v') /\ elem_size v' = elem_size v
    /\ vec_rep v' (take (Z.to_nat start) l ++ drop (Z.to_nat (start + n)) l).
Proof.
  intros Hrep Hst Hn Hint. pose proof Hrep as (Hes & Hlen & Hmax & Hall & Hd).
  set (n' := if start + n >=? len v then len v - start else n).
  assert (0 <= n' <= n /\ start + n' <= blen l) as Hn'
    by (unfold n'; rewrite Hlen; breflect; lia).
  set (a := take (Z.to_nat start) l).
  set (m := take (Z.to_nat n') (drop (Z.to_nat start) l)).
  set (b := drop (Z.to_nat (start + n')) l).
  assert (l = a ++ m ++ b) as Hl.
  { subst a m b. rewrite <- (take_drop (Z.to_nat start) l) at 1. f_equal.
    rewrite <- (take_drop (Z.to_nat n') (drop (Z.to_nat start) l)) at 1. f_equal.
    rewrite drop_drop. f_equal. lia. }
  assert (drop (Z.to_nat (start + n)) l = b) as ->.
  { subst b. unfold n'. rewrite Hlen. breflect; [|done].
    rewrite !drop_ge; [done| |]; unfold blen in *; lia. }
  assert (blen a = start) as Ha by (subst a; rewrite blen_take; lia).
  assert (blen m = n') as Hm by (subst m; rewrite blen_take, blen_drop; lia).
  unfold sol_vector_del_range. replace (start >=? len v) with false by (breflect; lia).
  fold n'. clearbody n' a m b.
  destruct (data v) as [mm|] eqn:E; [|exfalso; rewrite Hd in Hst; unfold blen in Hst; simpl in Hst; lia].
  destruct Hd as (s & -> & Hcap). rewrite Hlen in Hcap, Hmax. rewrite Hl in Hcap, Hmax, Hall.
  rewrite Hl in E.
  assert (blen l - n' = blen (a ++ b)) as Hlab by (rewrite Hl, !blen_app; lia).
  pose proof (blen_nonneg b).
  destruct (remove_gap_spec (set_len v (blen (a ++ b))) a m b s) as (v' & Hv' & ? & ? & _);
    cbn [set_len len elem_size data]; try (done || lia).
  { rewrite !blen_app in *. lia. }
  cbv zeta. rewrite Hlen, Hlab. cbn [set_len len elem_size].
  replace (blen (a ++ b) - start) with (blen b) by (rewrite blen_app; lia).
  assert (blen l <= UINT16_MAX) by (by rewrite Hl).
  rewrite (elem_index_ok (elem_size v) start) by lia. rewrite bind_ret.
  rewrite (int_op_ok (n' * elem_size v)) by (unfold_limits; nia). rewrite bind_ret.
  rewrite <- Hm, <- Ha, (Z.mul_comm (blen m)).
  cbn [set_len elem_size len] in Hv'. rewrite Hv', bind_ret. eexists. split; [done|]. by rewrite shrink_elem_size.
Qed.
End Proofs.

(** Reading an element: the address is in range and the bytes found there
    are the element. *)
Lemma get_spec v l i e :
  vec_rep v l -> 0 <= i -> l !! Z.to_nat i = Some e ->
  sol_vector_get_no_check v i = Ret (elem_size v * i)
  /\ sol_vector_get v i = Ret (Some (elem_size v * i))
  /\ mem_load (storage v) (elem_size v * i) (elem_size v) = Ret e.
Proof.
  intros Hrep Hi He. pose proof Hrep as (Hes & Hlen & Hmax & Hall & _).
  assert (i < blen l) by (apply lookup_lt_Some in He; unfold blen; lia).
  destruct (rep_split v l i Hrep ltac:(lia)) as (a & e' & b & -> & Ha & He' & Hca & _).
  assert (e' = e) as ->.
  { rewrite <- Ha, blen_to_nat, list_lookup_middle in He by done. congruence. }
  assert (sol_vector_get_no_check v i = Ret (elem_size v * i)) as Hg
    by (apply elem_index_ok; lia).
  split; [done|]. split.
  - unfold sol_vector_get. replace (i >=? len v) with false by (breflect; lia).
    by rewrite Hg.
  - destruct (rep_storage _ _ Hrep) as [s ->].
    rewrite concat_app, <- app_assoc. cbn [concat]. rewrite <- app_assoc.
    apply mem_load_app; lia.
Qed.

Lemma get_out_of_range v i : len v <= i -> sol_vector_get v i = Ret None.
Proof. intros. unfold sol_vector_get. by replace (i >=? len v) with true by (breflect; lia). Qed.

(** Overwriting element [i] in place. *)
Lemma store_elem_spec v l i e :
  vec_rep v l -> 0 <= i < blen l -> blen e = elem_size v ->
  exists d, mem_store (storage v) (elem_size v * i) e = Ret d
    /\ vec_rep (set_data v (Some d)) (<[Z.to_nat i := e]> l).
Proof.
  intros Hrep Hi He. pose proof Hrep as (Hes & Hlen & Hmax & Hall & Hd).
  destruct (rep_split v l i Hrep ltac:(lia)) as (a & e' & b & -> & Ha & He' & Hca & _).
  destruct (data v) as [m|] eqn:E; [|by destruct a]. destruct Hd as (s & -> & Hcap).
  rewrite (storage_some _ _ E). rewrite concat_app, <- app_assoc. cbn [concat].
  rewrite <- app_assoc. rewrite mem_store_app by lia.
  eexists. split; [done|]. rewrite <- Ha, blen_to_nat, insert_app_r_alt by lia.
  rewrite Nat.sub_diag. cbn [insert list_insert].
  assert (blen (a ++ e :: b) = blen (a ++ e' :: b)) as Hl
    by (by rewrite !blen_app, !blen_cons).
  apply Forall_app in Hall as [? [? ?]%Forall_cons_1].
  split_and!; cbn [set_data len elem_size data]; try lia.
  - apply Forall_app. split; [done|by constructor].
  - exists s. split; [by rewrite concat_app, <- app_assoc; cbn [concat]; rewrite <- app_assoc|].
    etrans; [exact Hcap|]. rewrite !concat_app. cbn [concat]. rewrite !blen_app. lia.
Qed.

(** An element pointer obtained from the vector is deleted by position; any
    other pointer is refused. *)
Lemma del_element_spec `{Allocator} v l offset :
  vec_rep v l ->
  (forall i, 0 <= i < blen l -> offset = elem_size v * i ->
     exists v', sol_vector_del_element v offset = Ret (0, v')
       /\ vec_rep v' (delete (Z.to_nat i) l))
  /\ ((forall i, 0 <= i < blen l -> offset <> elem_size v * i) ->
      sol_vector_del_element v offset = Ret (- ENOENT, v)).
Proof.
  intros Hrep. pose proof Hrep as (Hes & Hlen & _ & _ & _). unfold sol_vector_del_element.
  split.
  - intros i Hi ->. rewrite Z.mul_comm, Z.rem_mul, Z.quot_mul by lia.
    replace (i * elem_size v <? 0) with false by (breflect; nia).
    replace (i >=? len v) with false by (breflect; lia). cbn [negb orb Z.eqb].
    destruct (del_spec v l i Hrep Hi) as (v' & ? & _ & ?). eauto.
  - intros Hno. destruct (Z.eqb_spec (Z.rem offset (elem_size v)) 0) as [Hr|]; [|done].
    destruct (Z.ltb_spec offset 0); [done|]. cbn [negb orb].
    pose proof (Z.quot_rem' offset (elem_size v)) as Hq. rewrite Hr, Z.add_0_r in Hq.
    destruct (Z.geb_spec (offset ÷ elem_size v) (len v)); [done|].
    exfalso. apply (Hno (offset ÷ elem_size v)); [|done].
    split; [apply Z.quot_pos; lia|lia].
Qed.

Lemma clear_spec v l : vec_rep v l -> vec_rep (sol_vector_clear v) [].
Proof. intros (? & _). split_and!; simpl; (done || zlia). Qed.

(** ** Vectors as lists

    Components that keep a vector of structures as the list of its elements
    append to it where [sol_vector_append] succeeds. *)

Section Appending.
Context `{BuildConfig} `{Allocator}.

(** [- errno] of appending to a vector of [n] elements, 0 when there is room. *)
Definition append_error (elem_bytes n : Z) : Z :=
  (sol_vector_grow {| Vector.data := None; Vector.len := n; Vector.elem_size := elem_bytes |} 1).1.

(** The error depends on the length and the element size only. *)
Lemma append_error_agrees v l :
  vec_rep v l ->
  exists r v', sol_vector_append v = Ret (r, v')
    /\ ((append_error (elem_size v) (blen l) < 0 /\ r = inl (- append_error (elem_size v) (blen l)) /\ v' = v)
        \/ (append_error (elem_size v) (blen l) = 0
            /\ vec_rep v' (l ++ [replicate (Z.to_nat (elem_size v)) 0]))).
Proof.
  intros Hrep. pose proof Hrep as (Hes & Hlen & Hmax & _ & Hd).
  assert ((sol_vector_grow v 1).1 = append_error (elem_size v) (blen l)) as He.
  { unfold append_error, sol_vector_grow. cbn [Vector.len Vector.elem_size Vector.data]. rewrite <- Hlen.
    rewrite Z.gtb_ltb. destruct (Z.ltb_spec (UINT16_MAX - 1) (Vector.len v)); [done|].
    pose proof (blen_nonneg l). rewrite wrapu_small by zlia.
    pose proof (Align.align_short_ge (Vector.len v + 1) ltac:(unfold USHRT_MAX, UINT16_MAX in *; lia)).
    pose proof (Align.align_short_le (Vector.len v + 1) ltac:(unfold USHRT_MAX, UINT16_MAX in *; lia)).
    destruct (negb _); [|done].
    rewrite Overflow.size_mul_exact by (unfold_limits; nia). cbn [Z.ltb Z.compare].
    unfold c_realloc, c_malloc. destruct (Vector.data v); [|by destruct (alloc_ok _)].
    rewrite bool_decide_false by nia. by destruct (alloc_ok _). }
  unfold sol_vector_append. destruct (append_n_spec v l 1 Hrep ltac:(zlia)) as (r & v' & Hrun & Hres).
  exists r, v'. split; [done|]. pose proof (grow_spec v l 1 Hrep ltac:(zlia)) as Hg.
  unfold sol_vector_append_n in Hrun. cbn [Z.eqb] in Hrun.
  destruct (sol_vector_grow v 1) as [e v0]. cbn [fst] in He. subst e.
  destruct Hg as [(Hneg & ->)|(Hz & _)].
  - left. rewrite (proj2 (Z.ltb_lt _ 0) Hneg) in Hrun. by injection Hrun as <- <-.
  - right. split; [done|]. destruct Hres as [(e & -> & Hpos & ->)|(-> & _ & Hrep')]; [|done].
    exfalso. rewrite Hz in Hrun. cbn in Hrun.
    destruct (int_op _); [|done]. rewrite bind_ret in Hrun. by destruct (mem_store _ _ _).
Qed.

Lemma append_error_cases es n :
  0 < es <= 32768 -> 0 <= n -> append_error es n < 0 \/ append_error es n = 0 /\ n < UINT16_MAX.
Proof.
  intros Hes Hn. unfold append_error, sol_vector_grow. cbn [Vector.len Vector.elem_size Vector.data].
  rewrite Z.gtb_ltb. destruct (Z.ltb_spec (UINT16_MAX - 1) n); [by left|].
  rewrite wrapu_small by zlia.
  pose proof (Align.align_short_ge (n + 1) ltac:(unfold USHRT_MAX, UINT16_MAX in *; lia)).
  pose proof (Align.align_short_le (n + 1) ltac:(unfold USHRT_MAX, UINT16_MAX in *; lia)).
  destruct (negb _); [|right; cbn; lia].
  rewrite Overflow.size_mul_exact by (unfold_limits; nia). cbn [Z.ltb Z.compare].
  unfold c_realloc. destruct (c_malloc _); [right; cbn; lia|by left].
Qed.

Lemma append_error_values es n :
  0 < es <= 32768 -> 0 <= n ->
  append_error es n = 0 \/ append_error es n = - ENOMEM \/ append_error es n = - EOVERFLOW.
Proof.
  intros Hes Hn. destruct (append_error_cases es n Hes Hn) as [Hneg|[Hz _]]; [right|by left].
  revert Hneg. unfold append_error, sol_vector_grow. cbn [Vector.len Vector.elem_size Vector.data].
  rewrite Z.gtb_ltb. destruct (Z.ltb_spec (UINT16_MAX - 1) n); [by right|].
  rewrite wrapu_small by zlia.
  pose proof (Align.align_short_ge (n + 1) ltac:(unfold USHRT_MAX, UINT16_MAX in *; lia)).
  pose proof (Align.align_short_le (n + 1) ltac:(unfold USHRT_MAX, UINT16_MAX in *; lia)).
  destruct (negb _); [|done].
  rewrite Overflow.size_mul_exact by (unfold_limits; nia). cbn [Z.ltb Z.compare].
  destruct (c_realloc _ _); [done|by left].
Qed.

Lemma append_error_reason es n :
  0 < es <= 32768 -> 0 <= n -> append_error es n < 0 ->
  UINT16_MAX <= n \/ exists size, 0 <= size <= SSIZE_MAX /\ alloc_ok size = false.
Proof.
  intros Hes Hn. unfold append_error, sol_vector_grow. cbn [Vector.len Vector.elem_size Vector.data].
  rewrite Z.gtb_ltb. destruct (Z.ltb_spec (UINT16_MAX - 1) n); [left; lia|]. intros Hneg. right. revert Hneg.
  rewrite wrapu_small by zlia.
  pose proof (Align.align_short_ge (n + 1) ltac:(unfold USHRT_MAX, UINT16_MAX in *; lia)).
  pose proof (Align.align_short_le (n + 1) ltac:(unfold USHRT_MAX, UINT16_MAX in *; lia)).
  destruct (negb _); [|cbn; lia].
  rewrite Overflow.size_mul_exact by (unfold_limits; nia). cbn [Z.ltb Z.compare].
  unfold c_realloc, c_malloc. intros Hneg. eexists. split; [|destruct (alloc_ok _) eqn:Ha; [cbn in Hneg; lia|exact Ha]].
  unfold_limits; nia.
Qed.
End Appending.

(** ** Whole runs of operations *)

Inductive vec_op :=
| VAppend (n : Z) | VDel (i : Z) | VDelRange (start n : Z) | VDelElement (offset : Z)
| VDelLast | VClear | VStore (i : Z) (e : block).

Section Runs.
Context `{BuildConfig} `{Allocator}.

(** [VStore] is what a client does with the pointer [sol_vector_get] returns. *)
Definition run_vec_op (op : vec_op) (v : sol_vector) : outcome (Z * sol_vector) :=
  match op with
  | VAppend n =>
      '(r, v) ← sol_vector_append_n v n;
      Ret (match r with inl e => - e | inr _ => 0 end, v)
  | VDel i => sol_vector_del v i
  | VDelRange start n => sol_vector_del_range v start n
  | VDelElement offset => sol_vector_del_element v offset
  | VDelLast => sol_vector_del_last v
  | VClear => Ret (0, sol_vector_clear v)
  | VStore i e =>
      p ← sol_vector_get v i;
      match p with
      | None => Ret (- EINVAL, v)
      | Some p => d ← mem_store (storage v) p e; Ret (0, set_data v (Some d))
      end
  end.

Fixpoint run_vec (ops : list vec_op) (v : sol_vector) : outcome (list Z * sol_vector) :=
  match ops with
  | [] => Ret ([], v)
  | op :: ops => '(r, v) ← run_vec_op op v; '(rs, v) ← run_vec ops v; Ret (r :: rs, v)
  end.

(** Arguments of the C types; a range deletion also keeps the product of its
    length and the element size in an [int]. *)
Definition vec_args (s : Z) (op : vec_op) : Prop :=
  match op with
  | VAppend n => 0 < n <= UINT16_MAX
  | VDel i => 0 <= i
  | VDelRange start n => 0 <= start /\ 0 <= n <= UINT16_MAX /\ s * n <= INT_MAX
  | VStore i e => 0 <= i /\ blen e = s
  | VDelElement _ | VDelLast | VClear => True
  end.

Definition vec_effect (s : Z) (op : vec_op) (l : list block) : list block :=
  match op with
  | VAppend n => l ++ replicate (Z.to_nat n) (replicate (Z.to_nat s) 0)
  | VDel i => delete (Z.to_nat i) l
  | VDelRange start n => take (Z.to_nat start) l ++ drop (Z.to_nat (start + n)) l
  | VDelElement offset => delete (Z.to_nat (offset / s)) l
  | VDelLast => delete (length l - 1)%nat l
  | VClear => []
  | VStore i e => <[Z.to_nat i := e]> l
  end.

Inductive vec_spec (s : Z) : list vec_op -> list block -> list Z -> list block -> Prop :=
| vec_spec_nil l : vec_spec s [] l [] l
| vec_spec_ok op ops l rs l' :
    vec_spec s ops (vec_effect s op l) rs l' -> vec_spec s (op :: ops) l (0 :: rs) l'
| vec_spec_err op ops l r rs l' :
    r < 0 -> vec_spec s ops l rs l' -> vec_spec s (op :: ops) l (r :: rs) l'.

Lemma shrink_keeps v : elem_size (sol_vector_shrink v) = elem_size v.
Proof.
  unfold sol_vector_shrink. repeat case_match; done.
Qed.

Lemma run_vec_op_spec op v l :
  vec_rep v l -> vec_args (elem_size v) op ->
  exists r v', run_vec_op op v = Ret (r, v') /\ elem_size v' = elem_size v
    /\ (r = 0 /\ vec_rep v' (vec_effect (elem_size v) op l) \/ r < 0 /\ vec_rep v' l).
Proof.
  intros Hrep Hargs. pose proof Hrep as (Hes & Hlen & Hmax & Hall & Hd).
  pose proof (blen_nonneg l).
  destruct op; cbn [run_vec_op vec_args vec_effect] in *.
  - destruct (append_n_spec v l n Hrep Hargs) as (r & v' & -> & [(e & -> & He & ->)|(-> & Hs & Hr)]);
      rewrite bind_ret; do 2 eexists; (split; [done|]); (split; [done|]); [right|left];
      (split; [lia|done]).
  - destruct (Z.lt_ge_cases i (blen l)).
    + destruct (del_spec v l i Hrep) as (v' & -> & Hs & Hr); [lia|]. exists 0, v'. split_and!; auto.
    + exists (- EINVAL), v. rewrite del_out_of_range by lia. split_and!; auto. right. split; [zlia|done].
  - destruct Hargs as (Hst & Hn & Hint). destruct (Z.lt_ge_cases start (blen l)).
    + destruct (del_range_spec v l start n Hrep) as (v' & -> & Hs & Hr); [lia|done|done|].
      exists 0, v'. split_and!; auto.
    + exists (- EINVAL), v. split; [|split; [done|right; split; [zlia|done]]].
      unfold sol_vector_del_range. by replace (start >=? len v) with true by (breflect; lia).
  - destruct (del_element_spec v l offset Hrep) as [Hin Hout].
    destruct (decide (offset mod elem_size v = 0 /\ 0 <= offset / elem_size v < blen l))
      as [[Hm Hi]|Hno].
    + assert (offset = elem_size v * (offset / elem_size v)) as Ho
        by (rewrite (Z.div_mod offset (elem_size v)) at 1 by lia; lia).
      destruct (del_spec v l (offset / elem_size v) Hrep Hi) as (v' & Hdel & Hs & Hr).
      destruct (Hin _ Hi Ho) as (v'' & Hrun & Hr').
      exists 0, v''. split; [done|]. split; [|by left].
      revert Hrun. rewrite Ho. unfold sol_vector_del_element.
      rewrite Z.mul_comm, Z.rem_mul, Z.quot_mul by lia.
      destruct (negb (0 =? 0) || _); [by intros [=]|].
      destruct (_ >=? _); [by intros [=]|]. rewrite Hdel. by intros [= <-].
    + exists (- ENOENT), v. rewrite Hout.
      { split_and!; auto. right. split; [zlia|done]. }
      intros i Hi ->. apply Hno. rewrite Z.mul_comm, Z.mod_mul, Z.div_mul by lia. done.
  - unfold sol_vector_del_last. destruct (Z.eqb_spec (len v) 0) as [Hz|Hz].
    + exists 0, v. split_and!; auto. left. split; [done|].
      assert (l = []) as -> by (apply blen_zero_nil; lia). done.
    + destruct (del_spec v l (len v - 1) Hrep) as (v' & -> & Hs & Hr); [lia|].
      exists 0, v'. split_and!; auto. left. split; [done|].
      by replace (length l - 1)%nat with (Z.to_nat (len v - 1)) by (unfold blen in *; lia).
  - exists 0, (sol_vector_clear v). split_and!; auto. left. split; [done|]. by eapply clear_spec.
  - destruct Hargs as [Hi He]. unfold sol_vector_get, sol_vector_get_no_check.
    destruct (Z.lt_ge_cases i (blen l)).
    + replace (i >=? len v) with false by (breflect; lia).
      rewrite elem_index_ok by lia. rewrite !bind_ret.
      destruct (store_elem_spec v l i e Hrep) as (d & -> & Hr); [lia|done|].
      rewrite bind_ret. do 2 eexists. split; [done|]. split; [done|]. by left.
    + replace (i >=? len v) with true by (breflect; lia). rewrite bind_ret.
      exists (- EINVAL), v. split_and!; auto. right. split; [zlia|done].
Qed.

(** C20: any sequence of vector operations runs without undefined behaviour and
    refines the operations on lists of elements: each returns 0 and takes
    effect, or an error and changes nothing.  This holds for every allocator,
    so also when growing or shrinking fails, for elements of up to 32768
    bytes. *)
Theorem vector_runs_refine_lists ops v l :
  vec_rep v l -> Forall (vec_args (elem_size v)) ops ->
  exists rs v' l', run_vec ops v = Ret (rs, v') /\ vec_rep v' l'
    /\ vec_spec (elem_size v) ops l rs l'.
Proof.
  intros Hrep Hargs. revert v l Hrep Hargs.
  induction ops as [|op ops IH]; intros v l Hrep Hargs.
  - exists [], v, l. split_and!; [done|done|constructor].
  - apply Forall_cons_1 in Hargs as [Hop Hops].
    destruct (run_vec_op_spec op v l Hrep Hop) as (r & v1 & Hrun & Hes & Hcase).
    cbn [run_vec]. rewrite Hrun, bind_ret. rewrite <- Hes in Hops.
    destruct Hcase as [[-> Hr]|[Hneg Hr]]; destruct (IH v1 _ Hr Hops) as (rs & v' & l' & -> & Hr' & Hs);
      rewrite bind_ret; rewrite Hes in Hs; do 3 eexists; (split; [done|]); (split; [done|]);
      by constructor.
Qed.
End Runs.

Lemma vector_runs_refine_lists_witness :
  exists rs v' l',
    run_vec (H := gcc5) (H0 := roomy) [VAppend 3; VStore 1 [7; 8]; VDel 0; VDel 5] (sol_vector_init 2)
    = Ret (rs, v') /\ vec_rep v' l'
    /\ vec_spec 2 [VAppend 3; VStore 1 [7; 8]; VDel 0; VDel 5] [] rs l'.
Proof.
  apply (vector_runs_refine_lists (H := gcc5) (H0 := roomy)); [apply rep_init; lia|].
  repeat constructor; cbn; unfold blen; cbn; zlia.
Defined.
End Vector.
