(* ===== verification/PtrVector.v ===== *)
(** * Arrays of pointers (sol_ptr_vector)

    Models the [sol_ptr_vector] half of src/src/lib/datatypes/sol-vector.c
    and of include/sol-vector.h on top of [Vector]: a pointer is a 64-bit
    value stored as eight bytes, and [ptr_rep pv ps] says that the vector
    holds the pointers [ps].  The comparison callback is a parameter; the
    sorted operations are proved for every callback that is a total
    preorder. *)

From S2P Require Import Prelude Arith Vector.
Import Vector.

#[local] Open Scope Z_scope.

Module PtrVector.

Record sol_ptr_vector := { base : sol_vector }.

Definition len (pv : sol_ptr_vector) : Z := Vector.len (base pv).

(** sizeof(void * ) *)
Definition ptr_size : Z := 8.

Definition ptr_bytes (p : Z) : block := le_bytes 8 p.

Section Operations.
Context `{BuildConfig} `{Allocator}.

Definition sol_ptr_vector_init : sol_ptr_vector := {| base := sol_vector_init ptr_size |}.

(** [*(void ** )(data + p)] *)
Definition load_ptr (pv : sol_ptr_vector) (p : Z) : outcome Z :=
  bs ← mem_load (storage (base pv)) p ptr_size; Ret (le_value bs).

Definition store_ptr (pv : sol_ptr_vector) (p x : Z) : outcome sol_ptr_vector :=
  d ← mem_store (storage (base pv)) p (ptr_bytes x);
  Ret {| base := set_data (base pv) (Some d) |}.

Definition sol_ptr_vector_init_n (n : Z) : outcome (Z * sol_ptr_vector) :=
  '(r, v) ← sol_vector_append_n (sol_vector_init ptr_size) n;
  match r with
  | inl errno => Ret (- errno, {| base := v |})
  | inr _ => Ret (0, {| base := v |})
  end.

Definition sol_ptr_vector_get_len (pv : sol_ptr_vector) : Z := len pv.

Definition sol_ptr_vector_get_no_check (pv : sol_ptr_vector) (i : Z) : outcome Z :=
  data ← sol_vector_get_no_check (base pv) i; load_ptr pv data.

(** NULL is the pointer 0. *)
Definition sol_ptr_vector_get (pv : sol_ptr_vector) (i : Z) : outcome Z :=
  if i >=? len pv then Ret 0 else sol_ptr_vector_get_no_check pv i.

Definition sol_ptr_vector_append (pv : sol_ptr_vector) (ptr : Z)
    : outcome (Z * sol_ptr_vector) :=
  '(r, v) ← sol_vector_append (base pv);
  match r with
  | inl errno => Ret (- errno, {| base := v |})
  | inr data => pv ← store_ptr {| base := v |} data ptr; Ret (0, pv)
  end.

Definition sol_ptr_vector_set (pv : sol_ptr_vector) (i ptr : Z)
    : outcome (Z * sol_ptr_vector) :=
  data ← sol_vector_get (base pv) i;
  match data with
  | None => Ret (- ENODATA, pv)
  | Some p => pv ← store_ptr pv p ptr; Ret (0, pv)
  end.

Definition sol_ptr_vector_del (pv : sol_ptr_vector) (i : Z) : outcome (Z * sol_ptr_vector) :=
  '(r, v) ← sol_vector_del (base pv) i; Ret (r, {| base := v |}).

Definition sol_ptr_vector_del_range (pv : sol_ptr_vector) (start n : Z)
    : outcome (Z * sol_ptr_vector) :=
  '(r, v) ← sol_vector_del_range (base pv) start n; Ret (r, {| base := v |}).

Definition sol_ptr_vector_del_last (pv : sol_ptr_vector) : outcome (Z * sol_ptr_vector) :=
  if len pv =? 0 then Ret (0, pv) else sol_ptr_vector_del pv (len pv - 1).

Definition sol_ptr_vector_steal (pv : sol_ptr_vector) (i : Z)
    : outcome (Z * sol_ptr_vector) :=
  result ← sol_ptr_vector_get pv i;
  '(_, pv) ← sol_ptr_vector_del pv i;
  Ret (result, pv).

Definition sol_ptr_vector_steal_last (pv : sol_ptr_vector)
    : outcome (Z * sol_ptr_vector) :=
  if len pv =? 0 then Ret (0, pv) else sol_ptr_vector_steal pv (len pv - 1).

Definition sol_ptr_vector_clear (pv : sol_ptr_vector) : sol_ptr_vector :=
  {| base := sol_vector_clear (base pv) |}.

(** SOL_PTR_VECTOR_FOREACH_REVERSE_IDX: the index runs from the last
    element down to 0, [fuel] of them left. *)
Fixpoint find_down (pv : sol_ptr_vector) (test : Z -> bool) (fuel : nat) : outcome Z :=
  match fuel with
  | O => Ret (- ENODATA)
  | S i =>
      p ← sol_ptr_vector_get_no_check pv (Z.of_nat i);
      if test p then Ret (Z.of_nat i) else find_down pv test i
  end.

(** SOL_PTR_VECTOR_FOREACH_IDX from [i], [fuel] elements left. *)
Fixpoint find_up (pv : sol_ptr_vector) (test : Z -> bool) (i : Z) (fuel : nat)
    : outcome Z :=
  match fuel with
  | O => Ret (- ENODATA)
  | S n =>
      p ← sol_ptr_vector_get_no_check pv i;
      if test p then Ret i else find_up pv test (i + 1) n
  end.

Definition sol_ptr_vector_find_last (pv : sol_ptr_vector) (elem : Z) : outcome Z :=
  find_down pv (fun p => elem =? p) (Z.to_nat (len pv)).

Definition sol_ptr_vector_find_first (pv : sol_ptr_vector) (elem : Z) : outcome Z :=
  find_up pv (fun p => elem =? p) 0 (Z.to_nat (len pv)).

Definition sol_ptr_vector_match_first (pv : sol_ptr_vector) (tempt : Z)
    (compare_cb : Z -> Z -> Z) : outcome Z :=
  find_up pv (fun p => compare_cb tempt p =? 0) 0 (Z.to_nat (len pv)).

Definition sol_ptr_vector_match_last (pv : sol_ptr_vector) (tempt : Z)
    (compare_cb : Z -> Z -> Z) : outcome Z :=
  find_down pv (fun p => compare_cb tempt p =? 0) (Z.to_nat (len pv)).

Definition sol_ptr_vector_remove (pv : sol_ptr_vector) (ptr : Z)
    : outcome (Z * sol_ptr_vector) :=
  i ← sol_ptr_vector_find_last pv ptr;
  if i <? 0 then Ret (i, pv) else sol_ptr_vector_del pv i.

Definition sol_ptr_vector_insert_at (pv : sol_ptr_vector) (i ptr : Z)
    : outcome (Z * sol_ptr_vector) :=
  if i >? len pv then Ret (- ERANGE, pv)
  else if i =? len pv then sol_ptr_vector_append pv ptr
  else
    let '(r, v) := sol_vector_grow (base pv) 1 in
    if negb (r =? 0) then Ret (- ENOMEM, {| base := v |})
    else
      dst ← int_op (elem_size v * (i + 1));
      src ← int_op (elem_size v * i);
      d ← mem_move (storage v) dst src (elem_size v * (Vector.len v - 1 - i));
      sol_ptr_vector_set {| base := set_data v (Some d) |} i ptr.

(** ** Sorted vectors *)

Section Sorted.
Variable compare : Z -> Z -> Z.

(** The bisection; [fuel] bounds the halvings. *)
Fixpoint bisect (pv : sol_ptr_vector) (low high ptr : Z) (fuel : nat)
    : outcome (Z * Z) :=
  match fuel with
  | O => UB
  | S fuel =>
      if low =? high then
        x ← sol_ptr_vector_get_no_check pv low; Ret (low, compare ptr x)
      else
        let mid := wrapu 16 (Z.shiftr (low + high) 1) in
        x ← sol_ptr_vector_get_no_check pv mid;
        let dir := compare ptr x in
        if dir =? 0 then Ret (mid, dir)
        else if dir <? 0 then bisect pv low mid ptr fuel
        else bisect pv (mid + 1) high ptr fuel
  end.

(** Index and [*dir] of an approximate match. *)
Definition ptr_vector_find_sorted (pv : sol_ptr_vector) (low high ptr : Z)
    : outcome (Z * Z) :=
  x ← sol_ptr_vector_get_no_check pv low;
  let dir := compare ptr x in
  if (dir <=? 0) || (low =? high) then Ret (low, dir)
  else
    y ← sol_ptr_vector_get_no_check pv high;
    let dir := compare ptr y in
    if dir >=? 0 then Ret (high, dir)
    else bisect pv low high ptr (S (Z.to_nat (high - low))).

(** [while (dir == 0 && index < len - 1U)] *)
Fixpoint skip_equal (pv : sol_ptr_vector) (ptr index dir : Z) (fuel : nat)
    : outcome (Z * Z) :=
  match fuel with
  | O => UB
  | S fuel =>
      if (dir =? 0) && (index <? len pv - 1) then
        x ← sol_ptr_vector_get_no_check pv (index + 1);
        skip_equal pv ptr (index + 1) (compare ptr x) fuel
      else Ret (index, dir)
  end.

Definition sol_ptr_vector_insert_sorted (pv : sol_ptr_vector) (ptr : Z)
    : outcome (Z * sol_ptr_vector) :=
  if len pv =? 0 then
    '(dir, pv) ← sol_ptr_vector_append pv ptr;
    if dir <? 0 then Ret (dir, pv)
    else Ret (sol_ptr_vector_get_len pv - 1, pv)
  else
    '(index, dir) ← ptr_vector_find_sorted pv 0 (len pv - 1) ptr;
    '(index, dir) ← skip_equal pv ptr index dir (S (Z.to_nat (len pv)));
    let index := if dir >=? 0 then index + 1 else index in
    '(dir, pv) ← sol_ptr_vector_insert_at pv index ptr;
    if dir <? 0 then Ret (dir, pv) else Ret (index, pv).

Definition sol_ptr_vector_match_sorted (pv : sol_ptr_vector) (elem : Z) : outcome Z :=
  if len pv =? 0 then Ret (- ENODATA)
  else
    '(i, dir) ← ptr_vector_find_sorted pv 0 (len pv - 1) elem;
    if negb (dir =? 0) then Ret (- ENODATA) else Ret i.

(** [fix_it]: take the element out (the storage is not shrunk) and
    insert it again. *)
Definition update_fix_it (pv : sol_ptr_vector) (i ptr : Z)
    : outcome (Z * sol_ptr_vector) :=
  let v := set_len (base pv) (len pv - 1) in
  let tail_len := Vector.len v - i in
  v ← (if negb (tail_len =? 0) then
         dst ← int_op (elem_size v * i);
         let src := dst + elem_size v in
         d ← mem_move (storage v) dst src (elem_size v * tail_len);
         Ret (set_data v (Some d))
       else Ret v);
  sol_ptr_vector_insert_sorted {| base := v |} ptr.

Definition sol_ptr_vector_update_sorted (pv : sol_ptr_vector) (i : Z)
    : outcome (Z * sol_ptr_vector) :=
  if i >=? len pv then Ret (- ERANGE, pv)
  else if len pv =? 1 then Ret (0, pv)
  else
    ptr ← sol_ptr_vector_get_no_check pv i;
    below ← (if i >? 0 then
               other ← sol_ptr_vector_get_no_check pv (i - 1);
               Ret (compare other ptr >? 0)
             else Ret false);
    if (below : bool) then update_fix_it pv i ptr
    else
      above ← (if i + 1 <? len pv then
                 other ← sol_ptr_vector_get_no_check pv (i + 1);
                 Ret (compare ptr other >=? 0)
               else Ret false);
      if (above : bool) then update_fix_it pv i ptr else Ret (i, pv).
End Sorted.

(** The two passes of [sol_ptr_vector_del_element]: the index of the first
    occurrence, then the compaction from there. *)
Fixpoint first_equal (pv : sol_ptr_vector) (elem i : Z) (fuel : nat) : outcome Z :=
  match fuel with
  | O => Ret i
  | S fuel =>
      p ← load_ptr pv (ptr_size * i);
      if negb (p =? elem) then first_equal pv elem (i + 1) fuel else Ret i
  end.

Fixpoint compact (pv : sol_ptr_vector) (elem i offset : Z) (fuel : nat)
    : outcome (Z * sol_ptr_vector) :=
  match fuel with
  | O => Ret (offset, pv)
  | S fuel =>
      p ← load_ptr pv (ptr_size * i);
      if negb (p =? elem) then
        pv ← store_ptr pv (ptr_size * offset) p;
        compact pv elem (i + 1) (offset + 1) fuel
      else compact pv elem (i + 1) offset fuel
  end.

Definition sol_ptr_vector_del_element (pv : sol_ptr_vector) (elem : Z)
    : outcome (Z * sol_ptr_vector) :=
  i ← first_equal pv elem 0 (Z.to_nat (len pv));
  '(offset, pv) ← compact pv elem i i (Z.to_nat (len pv - i));
  if offset =? len pv then Ret (- ENOENT, pv)
  else Ret (0, {| base := sol_vector_shrink (set_len (base pv) offset) |}).
End Operations.

(** ** Representation *)

Definition ptr_rep (pv : sol_ptr_vector) (ps : list Z) : Prop :=
  vec_rep (base pv) (ptr_bytes <$> ps) /\ elem_size (base pv) = ptr_size
  /\ Forall (is_uint 64) ps.

(** Position [i] of [ps] holds [x]. *)
Definition at_pos (ps : list Z) (i x : Z) : Prop := 0 <= i /\ ps !! Z.to_nat i = Some x.

Lemma at_pos_lt ps i x : at_pos ps i x -> 0 <= i < blen ps.
Proof. intros [? H%lookup_lt_Some]. unfold blen. lia. Qed.

Lemma at_pos_ex ps i : 0 <= i < blen ps -> exists x, at_pos ps i x.
Proof.
  intros Hi. destruct (lookup_lt_is_Some_2 ps (Z.to_nat i)) as [x Hx]; [unfold blen in Hi; lia|].
  exists x. split; [lia|done].
Qed.

Lemma at_pos_unique ps i x y : at_pos ps i x -> at_pos ps i y -> x = y.
Proof. intros [_ H1] [_ H2]. congruence. Qed.

Lemma blen_ptr_bytes p : blen (ptr_bytes p) = ptr_size.
Proof. unfold blen, ptr_bytes. by rewrite length_le_bytes. Qed.

Lemma ptr_bytes_inv p : is_uint 64 p -> le_value (ptr_bytes p) = p.
Proof. intros. by apply le_value_bytes_small. Qed.

Lemma ptr_rep_len pv ps : ptr_rep pv ps -> len pv = blen ps /\ blen ps <= UINT16_MAX.
Proof. intros (H & _). apply rep_len in H. unfold len. by rewrite blen_fmap in H. Qed.

Lemma ptr_rep_init `{BuildConfig} : ptr_rep sol_ptr_vector_init [].
Proof. split_and!; [by apply rep_init|done|done]. Qed.

Lemma zero_ptr_bytes : replicate (Z.to_nat ptr_size) 0 = ptr_bytes 0.
Proof. done. Qed.

Lemma last_split_unique (a a' b b' : list Z) p :
  a' ++ p :: b' = a ++ p :: b -> (p ∉ b) -> (p ∉ b') -> a' = a /\ b' = b.
Proof.
  revert a'. induction a as [|x a IH]; intros [|x' a']; simpl; intros Heq Hb Hb'; simplify_eq.
  - done.
  - exfalso. apply Hb, elem_of_app. right. constructor.
  - exfalso. apply Hb', elem_of_app. right. constructor.
  - destruct (IH a') as [-> ->]; done.
Qed.

Section Proofs.
Context `{BuildConfig} `{Allocator}.

Lemma get_no_check_spec pv ps i p :
  ptr_rep pv ps -> at_pos ps i p -> sol_ptr_vector_get_no_check pv i = Ret p.
Proof.
  intros (Hrep & Hes & Hall) [Hi Hp]. unfold sol_ptr_vector_get_no_check, load_ptr.
  destruct (get_spec (base pv) (ptr_bytes <$> ps) i (ptr_bytes p)) as (-> & _ & Hl); try done.
  { by rewrite list_lookup_fmap, Hp. }
  rewrite bind_ret, <- Hes, Hl, bind_ret, ptr_bytes_inv; [done|].
  by eapply Forall_lookup_1 in Hall.
Qed.

Lemma load_ptr_spec pv ps i p :
  ptr_rep pv ps -> at_pos ps i p -> load_ptr pv (ptr_size * i) = Ret p.
Proof.
  intros Hrep Hp. pose proof (get_no_check_spec _ _ _ _ Hrep Hp) as Hg.
  destruct Hrep as (Hrep & Hes & _). unfold sol_ptr_vector_get_no_check in Hg.
  pose proof (rep_len _ _ Hrep) as [_ Hmax]. rewrite blen_fmap in Hmax.
  pose proof (at_pos_lt _ _ _ Hp).
  unfold sol_vector_get_no_check in Hg. rewrite Hes in Hg.
  rewrite int_op_ok in Hg by (unfold ptr_size; zlia). done.
Qed.

Lemma ptr_get_spec pv ps i :
  ptr_rep pv ps -> 0 <= i ->
  sol_ptr_vector_get pv i = Ret (default 0 (ps !! Z.to_nat i)).
Proof.
  intros Hrep Hi. pose proof (ptr_rep_len _ _ Hrep) as [Hlen _]. unfold sol_ptr_vector_get.
  rewrite Hlen. destruct (Z.geb_spec i (blen ps)).
  - rewrite lookup_ge_None_2; [done|]. unfold blen in *. lia.
  - destruct (at_pos_ex ps i ltac:(lia)) as [x Hx].
    rewrite (get_no_check_spec _ _ _ _ Hrep Hx). by destruct Hx as [_ ->].
Qed.

Lemma store_ptr_spec pv ps i x :
  ptr_rep pv ps -> 0 <= i < blen ps -> is_uint 64 x ->
  exists pv', store_ptr pv (ptr_size * i) x = Ret pv'
    /\ ptr_rep pv' (<[Z.to_nat i := x]> ps).
Proof.
  intros (Hrep & Hes & Hall) Hi Hx. unfold store_ptr. rewrite <- Hes.
  destruct (store_elem_spec (base pv) (ptr_bytes <$> ps) i (ptr_bytes x))
    as (d & -> & Hd); [done|by rewrite blen_fmap|by rewrite blen_ptr_bytes|].
  rewrite bind_ret. eexists. split; [done|]. split_and!; cbn [base].
  - by rewrite list_fmap_insert.
  - done.
  - by apply Forall_insert.
Qed.

Lemma set_spec pv ps i x :
  ptr_rep pv ps -> 0 <= i < blen ps -> is_uint 64 x ->
  exists pv', sol_ptr_vector_set pv i x = Ret (0, pv')
    /\ ptr_rep pv' (<[Z.to_nat i := x]> ps).
Proof.
  intros Hrep Hi Hx. pose proof (ptr_rep_len _ _ Hrep) as [Hlen Hmax].
  destruct (store_ptr_spec _ _ _ _ Hrep Hi Hx) as (pv' & Hs & Hp).
  unfold sol_ptr_vector_set, sol_vector_get, sol_vector_get_no_check.
  destruct Hrep as (Hrep & Hes & Hall). unfold len in Hlen.
  replace (i >=? Vector.len (base pv)) with false by (breflect; lia).
  rewrite Hes, int_op_ok by (unfold ptr_size; zlia). rewrite !bind_ret, Hs, bind_ret. eauto.
Qed.

(** Appending a pointer, or failing without a trace. *)
Lemma append_spec pv ps x :
  ptr_rep pv ps -> is_uint 64 x ->
  exists r pv', sol_ptr_vector_append pv x = Ret (r, pv')
    /\ ((r < 0 /\ pv' = pv) \/ (r = 0 /\ ptr_rep pv' (ps ++ [x]))).
Proof.
  intros (Hrep & Hes & Hall) Hx. unfold sol_ptr_vector_append, sol_vector_append.
  destruct (append_n_spec (base pv) _ 1 Hrep ltac:(zlia))
    as (r & v' & -> & [(e & -> & He & ->)|(-> & Hes' & Hrep')]).
  - rewrite bind_ret. do 2 eexists. split; [done|]. left. split; [lia|]. by destruct pv.
  - rewrite bind_ret, Hes in *. cbn [replicate Z.to_nat Pos.to_nat Pos.iter_op] in Hrep'.
    change (Z.to_nat 1) with 1%nat in Hrep'. cbn [replicate] in Hrep'.
    rewrite zero_ptr_bytes in Hrep'.
    destruct (store_ptr_spec {| base := v' |} (ps ++ [0]) (blen ps) x) as (pv' & Hs & Hp).
    { split_and!; cbn [base]; [|congruence|].
      - by rewrite fmap_app.
      - apply Forall_app. split; [done|]. by repeat constructor. }
    { rewrite blen_app. unfold blen. simpl. lia. }
    { done. }
    rewrite blen_fmap, Hs, bind_ret. do 2 eexists. split; [done|]. right. split; [done|].
    rewrite blen_to_nat in Hp. rewrite insert_app_r_alt, Nat.sub_diag in Hp by lia. done.
Qed.

Lemma ptr_del_spec pv ps i :
  ptr_rep pv ps -> 0 <= i < blen ps ->
  exists pv', sol_ptr_vector_del pv i = Ret (0, pv')
    /\ ptr_rep pv' (delete (Z.to_nat i) ps).
Proof.
  intros (Hrep & Hes & Hall) Hi. unfold sol_ptr_vector_del.
  destruct (del_spec (base pv) _ i Hrep) as (v' & -> & Hes' & Hr);
    [by rewrite blen_fmap|].
  rewrite bind_ret. eexists. split; [done|]. split_and!; cbn [base].
  - by rewrite list_fmap_delete.
  - congruence.
  - by apply Forall_delete.
Qed.

(** Inserting at a position shifts the tail up by one, or fails without a
    trace. *)
Lemma insert_at_spec pv ps i x :
  ptr_rep pv ps -> 0 <= i <= blen ps -> is_uint 64 x ->
  exists r pv', sol_ptr_vector_insert_at pv i x = Ret (r, pv')
    /\ ((r < 0 /\ pv' = pv)
        \/ (r = 0 /\ ptr_rep pv' (take (Z.to_nat i) ps ++ x :: drop (Z.to_nat i) ps))).
Proof.
  intros Hrep Hi Hx. pose proof (ptr_rep_len _ _ Hrep) as [Hlen Hmax].
  unfold sol_ptr_vector_insert_at. rewrite Hlen, Z.gtb_ltb.
  replace (blen ps <? i) with false by (breflect; lia).
  destruct (Z.eqb_spec i (blen ps)) as [->|Hne].
  { destruct (append_spec _ _ _ Hrep Hx) as (r & pv' & -> & Hcase).
    do 2 eexists. split; [done|]. rewrite blen_to_nat, firstn_all, drop_all. done. }
  pose proof Hrep as (Hv & Hes & Hall).
  pose proof (grow_spec _ _ 1 Hv ltac:(zlia)) as Hg.
  destruct (sol_vector_grow (base pv) 1) as [r v'].
  destruct Hg as [(Hr & ->)|(-> & Hes' & Hlen' & Hmax' & s & Hd & Hcap)].
  { replace (negb (r =? 0)) with true by (breflect; (done || lia)).
    do 2 eexists. split; [done|]. left. split; [done|]. by destruct pv. }
  cbn [Z.eqb negb]. rewrite Hes' in *. rewrite Hes in *. rewrite blen_fmap in Hlen'.
  rewrite !int_op_ok by (unfold ptr_size; zlia). rewrite !bind_ret.
  set (a := take (Z.to_nat i) ps). set (b := drop (Z.to_nat i) ps).
  assert (ps = a ++ b) as Hps by (symmetry; apply take_drop).
  assert (blen a = i) as Ha by (subst a; rewrite blen_take; lia).
  assert (blen b = blen ps - i) as Hb by (subst b; rewrite blen_drop; lia).
  clearbody a b.
  assert (Hcat : forall qs, blen (concat (ptr_bytes <$> qs)) = ptr_size * blen qs).
  { intros qs. rewrite (blen_concat ptr_size), blen_fmap; [done|].
    apply Forall_fmap, Forall_true. intros. apply blen_ptr_bytes. }
  rewrite (storage_some _ _ Hd), Hps, fmap_app, concat_app, <- app_assoc.
  assert (ptr_size <= blen s) as Hs.
  { rewrite blen_app, Hcat in Hcap.
    pose proof (align_short_ge (Vector.len v') ltac:(unfold USHRT_MAX, UINT16_MAX, blen in *; lia)).
    unfold ptr_size in *. nia. }
  rewrite (mem_move_up _ _ s _ _ _ ptr_size)
    by (rewrite ?Hcat, ?Hlen'; unfold ptr_size in *; lia).
  rewrite bind_ret.
  destruct b as [|p0 b]; [unfold blen in *; simpl in *; lia|].
  cbn [fmap list_fmap concat]. rewrite <- (app_assoc (ptr_bytes p0)).
  rewrite take_app_length' by (unfold ptr_bytes; by rewrite length_le_bytes).
  match goal with |- context [sol_ptr_vector_set ?pv _ _] => set (pv0 := pv) end.
  assert (ptr_rep pv0 (a ++ p0 :: p0 :: b)) as Hrep0.
  { subst ps pv0. apply Forall_app in Hall as [Ha' [Hp0 Hb']%Forall_cons_1].
    split_and!; cbn [base set_data data Vector.len elem_size];
      [|congruence|apply Forall_app; split; [done|by do 2 (apply Forall_cons_2; [done|])]].
    split_and!; cbn [set_data data Vector.len elem_size]; rewrite ?Hes';
      try (unfold ptr_size; lia).
    - rewrite blen_fmap, Hlen', !blen_app, !blen_cons. lia.
    - apply Forall_fmap, Forall_true. intros. apply blen_ptr_bytes.
    - eexists. split.
      + rewrite fmap_app, concat_app. cbn [fmap list_fmap concat].
        rewrite <- !app_assoc. done.
      + rewrite Hlen' in *. etrans; [exact Hcap|].
        rewrite !fmap_app, !concat_app. cbn [fmap list_fmap concat].
        rewrite !blen_app, blen_drop, blen_ptr_bytes. unfold ptr_size in *. lia. }
  destruct (set_spec pv0 _ i x Hrep0) as (pv' & -> & Hp).
  { rewrite blen_app, blen_cons. pose proof (blen_nonneg (p0 :: b)). lia. }
  { done. }
  do 2 eexists. split; [done|]. right. split; [done|].
  rewrite <- Ha, blen_to_nat, insert_app_r_alt, Nat.sub_diag in Hp by lia.
  exact Hp.
Qed.

(** ** Searches *)

Lemma find_down_spec pv ps test n :
  ptr_rep pv ps -> (n <= length ps)%nat ->
  (find_down pv test n = Ret (- ENODATA)
     /\ (forall j x, (j < n)%nat -> ps !! j = Some x -> test x = false))
  \/ (exists j x, (j < n)%nat /\ find_down pv test n = Ret (Z.of_nat j)
       /\ ps !! j = Some x /\ test x = true
       /\ (forall k y, (j < k < n)%nat -> ps !! k = Some y -> test y = false)).
Proof.
  intros Hrep. induction n as [|n IH]; intros Hn; [left; split; [done|lia]|].
  destruct (lookup_lt_is_Some_2 ps n) as [x Hx]; [lia|]. simpl.
  assert (at_pos ps (Z.of_nat n) x) as Hat by (split; [lia|by rewrite Nat2Z.id]).
  rewrite (get_no_check_spec _ _ _ _ Hrep Hat), bind_ret.
  destruct (test x) eqn:Ht.
  { right. exists n, x. split_and!; try done; [lia|]. intros. lia. }
  destruct (IH ltac:(lia)) as [[-> Hno]|(j & y & Hj & -> & Hy & Hty & Hgt)].
  - left. split; [done|]. intros j y Hj Hy. destruct (decide (j = n)) as [->|]; [congruence|].
    eapply (Hno j); (done || lia).
  - right. exists j, y. split_and!; try done; [lia|]. intros k z Hk Hz.
    destruct (decide (k = n)) as [->|]; [congruence|]. eapply (Hgt k); (done || lia).
Qed.

Lemma find_up_spec pv ps test n i :
  ptr_rep pv ps -> (i + n)%nat = length ps ->
  (find_up pv test (Z.of_nat i) n = Ret (- ENODATA)
     /\ (forall j x, (i <= j)%nat -> ps !! j = Some x -> test x = false))
  \/ (exists j x, (i <= j)%nat /\ find_up pv test (Z.of_nat i) n = Ret (Z.of_nat j)
       /\ ps !! j = Some x /\ test x = true
       /\ (forall k y, (i <= k < j)%nat -> ps !! k = Some y -> test y = false)).
Proof.
  intros Hrep. revert i. induction n as [|n IH]; intros i Hn.
  { left. split; [done|]. intros j x Hj Hx%lookup_lt_Some. lia. }
  destruct (lookup_lt_is_Some_2 ps i) as [x Hx]; [lia|]. simpl.
  assert (at_pos ps (Z.of_nat i) x) as Hat by (split; [lia|by rewrite Nat2Z.id]).
  rewrite (get_no_check_spec _ _ _ _ Hrep Hat), bind_ret.
  destruct (test x) eqn:Ht.
  { right. exists i, x. split_and!; try done. intros. lia. }
  replace (Z.of_nat i + 1) with (Z.of_nat (S i)) by lia.
  destruct (IH (S i) ltac:(lia)) as [[-> Hno]|(j & y & Hj & -> & Hy & Hty & Hlt)].
  - left. split; [done|]. intros j y Hj Hy. destruct (decide (j = i)) as [->|]; [congruence|].
    eapply (Hno j); (done || lia).
  - right. exists j, y. split_and!; try done; [lia|]. intros k z Hk Hz.
    destruct (decide (k = i)) as [->|]; [congruence|]. eapply (Hlt k); (done || lia).
Qed.

Lemma full_fuel pv ps : ptr_rep pv ps -> Z.to_nat (len pv) = length ps.
Proof. intros [-> _]%ptr_rep_len. apply blen_to_nat. Qed.

(** The last occurrence splits the list. *)
Lemma find_last_spec pv ps p :
  ptr_rep pv ps ->
  ((p ∉ ps) /\ sol_ptr_vector_find_last pv p = Ret (- ENODATA))
  \/ (exists a b, ps = a ++ p :: b /\ (p ∉ b)
       /\ sol_ptr_vector_find_last pv p = Ret (blen a)).
Proof.
  intros Hrep. unfold sol_ptr_vector_find_last. rewrite (full_fuel _ _ Hrep).
  destruct (find_down_spec pv ps (fun x => p =? x) _ Hrep (le_n _))
    as [[-> Hno]|(j & x & Hj & -> & Hx & Ht & Hgt)].
  - left. split; [|done]. intros [j Hj]%list_elem_of_lookup.
    specialize (Hno j p ltac:(by eapply lookup_lt_Some) Hj). lia.
  - right. assert (x = p) as -> by lia.
    exists (take j ps), (drop (S j) ps). rewrite take_drop_middle by done.
    split; [done|]. split.
    + intros [k Hk]%list_elem_of_lookup. rewrite lookup_drop in Hk.
      pose proof (lookup_lt_Some _ _ _ Hk).
      specialize (Hgt (S j + k)%nat p ltac:(lia) Hk). lia.
    + f_equal. rewrite blen_take. unfold blen. lia.
Qed.

(** Removing a pointer deletes its last occurrence only. *)
Lemma remove_spec pv ps p :
  ptr_rep pv ps ->
  ((p ∉ ps) -> sol_ptr_vector_remove pv p = Ret (- ENODATA, pv))
  /\ (forall a b, ps = a ++ p :: b -> (p ∉ b) ->
      exists pv', sol_ptr_vector_remove pv p = Ret (0, pv') /\ ptr_rep pv' (a ++ b)).
Proof.
  intros Hrep. unfold sol_ptr_vector_remove. split.
  - intros Hno. destruct (find_last_spec pv ps p Hrep) as [[_ ->]|(a & b & -> & _ & _)]; [done|].
    exfalso. apply Hno. set_solver.
  - intros a b Hps Hb.
    destruct (find_last_spec pv ps p Hrep) as [[Hno _]|(a' & b' & Hps' & Hb' & ->)].
    { exfalso. apply Hno. rewrite Hps. set_solver. }
    rewrite bind_ret. pose proof (blen_nonneg a').
    replace (blen a' <? 0) with false by (breflect; lia).
    assert (a' = a /\ b' = b) as [-> ->] by (eapply last_split_unique; [|done|done]; congruence).
    destruct (ptr_del_spec pv ps (blen a) Hrep) as (pv' & -> & Hp).
    { rewrite Hps, blen_app, blen_cons. pose proof (blen_nonneg b). lia. }
    rewrite Hps, blen_to_nat, delete_middle in Hp. eauto.
Qed.

(** ** Removal of every occurrence *)

Lemma first_equal_spec pv ps p n i :
  ptr_rep pv ps -> (i + n)%nat = length ps ->
  exists j, first_equal pv p (Z.of_nat i) n = Ret (Z.of_nat j) /\ (i <= j <= length ps)%nat
    /\ (forall k x, (i <= k < j)%nat -> ps !! k = Some x -> x <> p).
Proof.
  intros Hrep. revert i. induction n as [|n IH]; intros i Hn.
  { exists i. split_and!; try done; lia. }
  destruct (lookup_lt_is_Some_2 ps i) as [x Hx]; [lia|]. cbn [first_equal].
  assert (at_pos ps (Z.of_nat i) x) as Hat by (split; [lia|by rewrite Nat2Z.id]).
  rewrite (load_ptr_spec _ _ _ _ Hrep Hat), bind_ret.
  destruct (Z.eqb_spec x p) as [->|Hne]; cbn [negb].
  { exists i. split_and!; try done; lia. }
  replace (Z.of_nat i + 1) with (Z.of_nat (S i)) by lia.
  destruct (IH (S i) ltac:(lia)) as (j & -> & Hj & Hno). exists j.
  split_and!; try done; try lia. intros k y Hk Hy.
  destruct (decide (k = i)) as [->|]; [congruence|]. eapply (Hno k); (done || lia).
Qed.

(** While compacting, the vector holds the kept pointers, a gap of stale
    ones, and the pointers still to visit. *)
Lemma compact_spec pv kept stale rest p :
  ptr_rep pv (kept ++ stale ++ rest) ->
  exists pv' stale',
    compact pv p (blen (kept ++ stale)) (blen kept) (length rest)
    = Ret (blen (kept ++ filter (fun x => x <> p) rest), pv')
    /\ ptr_rep pv' ((kept ++ filter (fun x => x <> p) rest) ++ stale')
    /\ length ((kept ++ filter (fun x => x <> p) rest) ++ stale')
       = length (kept ++ stale ++ rest).
Proof.
  revert pv kept stale. induction rest as [|x rest IH]; intros pv kept stale Hrep.
  { exists pv, stale. simpl. rewrite !app_nil_r in *. done. }
  cbn [compact length].
  assert (at_pos (kept ++ stale ++ x :: rest) (blen (kept ++ stale)) x) as Hat.
  { split; [apply blen_nonneg|]. rewrite blen_to_nat, app_assoc.
    by rewrite list_lookup_middle. }
  rewrite (load_ptr_spec _ _ _ _ Hrep Hat), bind_ret, filter_cons.
  destruct (Z.eqb_spec x p) as [->|Hne]; cbn [negb].
  - rewrite decide_False by naive_solver.
    destruct (IH pv kept (stale ++ [p])) as (pv' & st & Hc & Hr & Hl).
    { by rewrite <- app_assoc. }
    exists pv', st. rewrite <- !app_assoc in *. cbn [app] in *.
    split_and!; try done. rewrite <- Hc.
    by replace (blen (kept ++ stale ++ [p])) with (blen (kept ++ stale) + 1) by blia.
  - rewrite decide_True by done.
    assert (is_uint 64 x) as Hux.
    { destruct Hrep as (_ & _ & Hall). rewrite !Forall_app in Hall.
      destruct Hall as (_ & _ & Hall). by apply Forall_cons_1 in Hall as [? _]. }
    destruct (store_ptr_spec pv _ (blen kept) x Hrep) as (pv1 & -> & Hp1);
      [rewrite !blen_app, blen_cons; pose proof (blen_nonneg kept);
       pose proof (blen_nonneg stale); pose proof (blen_nonneg rest); lia|done|].
    rewrite bind_ret. rewrite blen_to_nat, insert_app_r_alt, Nat.sub_diag in Hp1 by lia.
    destruct stale as [|st0 stale]; cbn [app insert list_insert] in Hp1.
    + destruct (IH pv1 (kept ++ [x]) []) as (pv' & st & Hc & Hr & Hl).
      { by rewrite <- app_assoc. }
      exists pv', st. rewrite !app_nil_r in *. rewrite <- !app_assoc in *. cbn [app] in *.
      split_and!; try done. rewrite <- Hc.
      by replace (blen (kept ++ [x])) with (blen kept + 1) by blia.
    + destruct (IH pv1 (kept ++ [x]) (stale ++ [x])) as (pv' & st & Hc & Hr & Hl).
      { rewrite <- !app_assoc. done. }
      exists pv', st. rewrite <- !app_assoc in *. cbn [app] in *.
      split_and!; try done; [|rewrite Hl, !length_app; simpl; rewrite length_app; simpl; lia].
      rewrite <- Hc.
      replace (blen (kept ++ [x])) with (blen kept + 1) by blia.
      by replace (blen (kept ++ x :: stale ++ [x]))
        with (blen (kept ++ st0 :: stale) + 1) by blia.
Qed.

(** Cutting a vector at [n] and shrinking keeps the first [n] pointers. *)
Lemma cut_spec pv ps qs :
  ptr_rep pv (ps ++ qs) -> ps ++ qs <> [] ->
  ptr_rep {| base := sol_vector_shrink (set_len (base pv) (blen ps)) |} ps.
Proof.
  intros (Hrep & Hes & Hall) Hne. destruct Hrep as (He & Hlen & Hmax & Hf & Hd).
  apply Forall_app in Hall as [Hps _].
  rewrite fmap_app in Hf. apply Forall_app in Hf as [Hf _].
  destruct (data (base pv)) as [m|] eqn:E.
  2:{ by apply fmap_nil_inv in Hd. }
  destruct Hd as (s & Hm & Hcap). rewrite blen_fmap, blen_app in Hlen.
  pose proof (blen_nonneg ps). pose proof (blen_nonneg qs).
  split_and!; cbn [base]; [|by rewrite shrink_elem_size|done].
  apply (shrink_spec _ _ (concat (ptr_bytes <$> qs) ++ s)); cbn [set_len elem_size data Vector.len];
    try (done || lia); [by rewrite blen_fmap| |].
  - by rewrite E, Hm, fmap_app, concat_app, <- app_assoc.
  - rewrite app_assoc, <- concat_app, <- fmap_app, <- Hm. etrans; [|exact Hcap].
    pose proof (align_short_mono (blen ps) (Vector.len (base pv))
      ltac:(lia) ltac:(unfold USHRT_MAX, UINT16_MAX in *; lia)). nia.
Qed.

(** [sol_ptr_vector_del_element] removes every occurrence and keeps the
    order of the others. *)
Lemma del_element_all_spec pv ps p :
  ptr_rep pv ps ->
  exists pv', sol_ptr_vector_del_element pv p
              = Ret (if decide (p ∈ ps) then 0 else - ENOENT, pv')
    /\ ptr_rep pv' (filter (fun x => x <> p) ps).
Proof.
  intros Hrep. unfold sol_ptr_vector_del_element. rewrite (full_fuel _ _ Hrep).
  destruct (first_equal_spec pv ps p (length ps) 0 Hrep eq_refl) as (j & Hj & Hle & Hno).
  change (Z.of_nat 0) with 0 in Hj. rewrite Hj, bind_ret.
  set (a := take j ps). set (b := drop j ps).
  assert (ps = a ++ b) as Hps by (symmetry; apply take_drop).
  assert (blen a = Z.of_nat j) as Ha by (subst a; rewrite blen_take; unfold blen; lia).
  assert (filter (fun x => x <> p) a = a) as Hfa.
  { apply filter_all. apply Forall_lookup_2. intros k x Hk.
    apply lookup_take_Some in Hk as [Hk Hkj]. eapply (Hno k); [lia|done]. }
  assert (filter (fun x => x <> p) ps = a ++ filter (fun x => x <> p) b) as Hf
    by by rewrite Hps, filter_app, Hfa.
  pose proof (ptr_rep_len _ _ Hrep) as [Hlen _].
  assert (Z.to_nat (len pv - Z.of_nat j) = length b) as ->.
  { subst b. rewrite length_drop, Hlen. unfold blen. lia. }
  clearbody a b. rewrite Hps in Hrep.
  destruct (compact_spec pv a [] b p Hrep) as (pv1 & st & Hc & Hr1 & Hl1).
  rewrite app_nil_r, Ha in Hc. rewrite Hc, bind_ret.
  cbn [app] in Hl1. pose proof (ptr_rep_len _ _ Hr1) as [Hlen1 _].
  rewrite <- Hf in *. rewrite Hlen1, blen_app.
  destruct (Z.eqb_spec (blen (filter (fun x => x <> p) ps))
              (blen (filter (fun x => x <> p) ps) + blen st)) as [He|He].
  - assert (st = []) as -> by (apply blen_zero_nil; lia). rewrite app_nil_r in *.
    exists pv1. split; [|done]. rewrite decide_False; [done|].
    intros Hin. assert (filter (fun x => x <> p) ps = ps) as Hall.
    { apply filter_all_length. congruence. }
    rewrite <- Hall in Hin. apply list_elem_of_filter in Hin as [Hc' _]. done.
  - eexists. split.
    + rewrite decide_True; [done|]. apply dec_stable. intros Hnin. apply He.
      assert (filter (fun x => x <> p) ps = ps) as Hall.
      { apply filter_all, Forall_forall. intros x Hx ->. done. }
      rewrite Hall, <- Hps, length_app in Hl1. rewrite Hall. unfold blen. lia.
    + eapply cut_spec; [done|]. intros [_ ->]%app_nil. apply He.
      by rewrite blen_nil, Z.add_0_r.
Qed.

End Proofs.

(** ** Sorted vectors *)

(** What a comparison callback must satisfy: swapping the arguments swaps
    the sign, and "not after" is transitive. *)
Class Comparator (compare : Z -> Z -> Z) : Prop := {
  compare_swap : forall x y, compare x y < 0 <-> 0 < compare y x;
  compare_trans : forall x y z, compare x y <= 0 -> compare y z <= 0 -> compare x z <= 0
}.

(** The reference insertion: after every element that is not greater. *)
Fixpoint insert_after (compare : Z -> Z -> Z) (p : Z) (ps : list Z) : list Z :=
  match ps with
  | [] => [p]
  | x :: ps' => if compare p x <? 0 then p :: ps else x :: insert_after compare p ps'
  end.

Definition sorted_by (compare : Z -> Z -> Z) (ps : list Z) : Prop :=
  forall i j x y, i < j -> at_pos ps i x -> at_pos ps j y -> compare x y <= 0.

Section SortedProofs.
Context `{BuildConfig} `{Allocator} (compare : Z -> Z -> Z) `{!Comparator compare}.

Lemma compare_refl x : compare x x = 0.
Proof. pose proof (compare_swap x x). lia. Qed.

Lemma compare_zero_swap x y : compare x y = 0 -> compare y x = 0.
Proof. pose proof (compare_swap x y). pose proof (compare_swap y x). lia. Qed.

(** Moving along a sorted list moves the comparison one way. *)
Lemma sorted_before ps p i j x y :
  sorted_by compare ps -> i <= j -> at_pos ps i x -> at_pos ps j y ->
  compare p x <= 0 -> compare p y <= 0.
Proof.
  intros Hs Hij Hx Hy Hp. destruct (Z.eq_dec i j) as [->|].
  - by rewrite <- (at_pos_unique _ _ _ _ Hx Hy).
  - eapply compare_trans; [done|]. eapply Hs; [|done|done]. lia.
Qed.

Lemma sorted_before_lt ps p i j x y :
  sorted_by compare ps -> i <= j -> at_pos ps i x -> at_pos ps j y ->
  compare p x < 0 -> compare p y < 0.
Proof.
  intros Hs Hij Hx Hy Hp. assert (compare x y <= 0) as Hxy.
  { destruct (Z.eq_dec i j) as [->|].
    - rewrite (at_pos_unique _ _ _ _ Hx Hy), compare_refl. lia.
    - eapply Hs; [|done|done]. lia. }
  pose proof (compare_trans x y p Hxy) as Ht.
  pose proof (compare_swap p x). pose proof (compare_swap p y).
  pose proof (compare_swap y p). pose proof (compare_swap x p). lia.
Qed.

Lemma sorted_after ps p i j x y :
  sorted_by compare ps -> i <= j -> at_pos ps i x -> at_pos ps j y ->
  0 < compare p y -> 0 < compare p x.
Proof.
  intros Hs Hij Hx Hy Hp. destruct (Z.lt_trichotomy (compare p x) 0) as [|[|]]; [..|done];
    exfalso; pose proof (sorted_before ps p i j x y Hs Hij Hx Hy); lia.
Qed.

(** The bisection ends on a match, or on the first greater element. *)
Lemma bisect_spec pv ps p fuel low high h :
  ptr_rep pv ps -> sorted_by compare ps ->
  0 <= low <= high -> at_pos ps high h -> compare p h < 0 ->
  (forall j x, j < low -> at_pos ps j x -> 0 < compare p x) ->
  high - low < Z.of_nat fuel ->
  exists i x, bisect compare pv low high p fuel = Ret (i, compare p x)
    /\ at_pos ps i x
    /\ (compare p x = 0
        \/ compare p x < 0 /\ forall j y, j < i -> at_pos ps j y -> 0 < compare p y).
Proof.
  intros Hrep Hs. revert low high h. induction fuel as [|fuel IH];
    intros low high h Hlh Hh Hph Hlow Hfuel; [lia|].
  cbn [bisect]. destruct (Z.eqb_spec low high) as [->|Hne].
  { rewrite (get_no_check_spec _ _ _ _ Hrep Hh), bind_ret.
    exists high, h. split_and!; try done. right. done. }
  pose proof (at_pos_lt _ _ _ Hh). pose proof (ptr_rep_len _ _ Hrep) as [_ Hmax].
  rewrite Z.shiftr_div_pow2 by lia. change (2 ^ 1) with 2.
  set (mid := (low + high) / 2).
  assert (low <= mid < high) as Hmid
    by (subst mid; Z.to_euclidean_division_equations; lia).
  rewrite wrapu_small by zlia.
  destruct (at_pos_ex ps mid ltac:(lia)) as [x Hx].
  rewrite (get_no_check_spec _ _ _ _ Hrep Hx), bind_ret.
  destruct (Z.eqb_spec (compare p x) 0) as [He|He].
  { exists mid, x. split_and!; try done. by left. }
  destruct (Z.ltb_spec (compare p x) 0) as [Hlt|Hge].
  - eapply (IH low mid x); (done || lia).
  - eapply (IH (mid + 1) high h); try (done || lia).
    intros j y Hj Hy. eapply (sorted_after ps p j mid); (done || lia).
Qed.

(** The approximate search: a match, the first greater element, or the
    last element when everything is smaller. *)
Lemma find_sorted_spec pv ps p :
  ptr_rep pv ps -> sorted_by compare ps -> ps <> [] ->
  exists i x, ptr_vector_find_sorted compare pv 0 (len pv - 1) p = Ret (i, compare p x)
    /\ at_pos ps i x
    /\ (compare p x = 0
        \/ (compare p x < 0 /\ forall j y, j < i -> at_pos ps j y -> 0 < compare p y)
        \/ (0 < compare p x /\ i = blen ps - 1)).
Proof.
  intros Hrep Hs Hne. pose proof (ptr_rep_len _ _ Hrep) as [Hlen Hmax].
  pose proof (blen_nonneg ps).
  assert (blen ps <> 0) by (intros ?%blen_zero_nil; done).
  destruct (at_pos_ex ps 0 ltac:(lia)) as [x Hx].
  destruct (at_pos_ex ps (blen ps - 1) ltac:(lia)) as [y Hy].
  unfold ptr_vector_find_sorted. rewrite Hlen.
  rewrite (get_no_check_spec _ _ _ _ Hrep Hx), bind_ret.
  assert (forall j z, j < 0 -> at_pos ps j z -> 0 < compare p z) as Hnone
    by (intros j z Hj Hz%at_pos_lt; lia).
  destruct (Z.leb_spec (compare p x) 0) as [Hle|Hgt].
  { exists 0, x. split_and!; try done. destruct (Z.eq_dec (compare p x) 0); [by left|].
    right; left. split; [lia|done]. }
  destruct (Z.eqb_spec 0 (blen ps - 1)) as [Heq|Hneq]; cbn [orb].
  { exists 0, x. split_and!; try done. by right; right. }
  rewrite (get_no_check_spec _ _ _ _ Hrep Hy), bind_ret.
  destruct (Z.geb_spec (compare p y) 0).
  { exists (blen ps - 1), y. split_and!; try done.
    destruct (Z.eq_dec (compare p y) 0); [by left|]. right; right. split; [lia|done]. }
  destruct (bisect_spec pv ps p (S (Z.to_nat (blen ps - 1 - 0))) 0 (blen ps - 1) y)
    as (i & z & -> & Hz & Hcase); try (done || lia).
  exists i, z. split_and!; try done. destruct Hcase; [by left|by right; left].
Qed.

(** Stepping over the elements equal to the new one. *)
Lemma skip_equal_spec pv ps p fuel i x :
  ptr_rep pv ps -> at_pos ps i x -> blen ps - i <= Z.of_nat fuel ->
  exists j y, skip_equal compare pv p i (compare p x) fuel = Ret (j, compare p y)
    /\ at_pos ps j y /\ i <= j
    /\ (compare p x <> 0 -> j = i)
    /\ (compare p y = 0 -> j = blen ps - 1)
    /\ (forall k z, i <= k < j -> at_pos ps k z -> compare p z = 0).
Proof.
  intros Hrep. pose proof (ptr_rep_len _ _ Hrep) as [Hlen _].
  revert i x. induction fuel as [|fuel IH]; intros i x Hx Hf;
    pose proof (at_pos_lt _ _ _ Hx); [lia|].
  cbn [skip_equal]. rewrite Hlen.
  destruct (Z.eqb_spec (compare p x) 0) as [He|He]; cbn [andb].
  2:{ exists i, x. split_and!; try done; try lia. }
  destruct (Z.ltb_spec i (blen ps - 1)).
  2:{ exists i, x. split_and!; try done; lia. }
  destruct (at_pos_ex ps (i + 1) ltac:(lia)) as [y Hy].
  rewrite (get_no_check_spec _ _ _ _ Hrep Hy), bind_ret.
  destruct (IH _ _ Hy ltac:(lia)) as (j & z & -> & Hz & Hij & Hst & Hend & Heq).
  exists j, z. split_and!; try done; try lia.
  intros k w Hk Hw. destruct (Z.eq_dec k i) as [->|].
  - by rewrite (at_pos_unique _ _ _ _ Hw Hx).
  - eapply Heq; [|done]. lia.
Qed.

Lemma insert_after_split p a b :
  (forall x, x ∈ a -> 0 <= compare p x) ->
  (forall x, b !! O = Some x -> compare p x < 0) ->
  insert_after compare p (a ++ b) = a ++ p :: b.
Proof.
  intros Ha Hb. induction a as [|x a IH]; simpl.
  - destruct b as [|y b]; [done|]. simpl. specialize (Hb y eq_refl). by bknown.
  - pose proof (Ha x (list_elem_of_here _ _)). bknown. f_equal. apply IH.
    intros y Hy. apply Ha. by right.
Qed.

(** Elements that are not greater than the new one stay in front. *)
Lemma insert_after_front p k ps :
  (forall x, x ∈ take k ps -> 0 <= compare p x) -> (k <= length ps)%nat ->
  take k (insert_after compare p ps) = take k ps.
Proof.
  revert k. induction ps as [|x ps IH]; intros k Hk Hl; [by destruct k; [|simpl in Hl; lia]|].
  destruct k as [|k]; [done|]. simpl. simpl in Hk, Hl.
  pose proof (Hk x (list_elem_of_here _ _)). bknown. simpl. f_equal. apply IH; [|lia].
  intros y Hy. apply Hk. by right.
Qed.

Lemma at_pos_take ps k x : x ∈ take (Z.to_nat k) ps -> exists j, j < k /\ at_pos ps j x.
Proof.
  intros [j Hj]%list_elem_of_lookup. apply lookup_take_Some in Hj as [Hj Hlt].
  exists (Z.of_nat j). split; [lia|]. split; [lia|by rewrite Nat2Z.id].
Qed.

(** The position computed by the code splits the list as the reference
    insertion does. *)
Lemma insert_position ps p k :
  0 <= k <= blen ps ->
  (forall j x, j < k -> at_pos ps j x -> 0 <= compare p x) ->
  (forall x, at_pos ps k x -> compare p x < 0) ->
  take (Z.to_nat k) ps ++ p :: drop (Z.to_nat k) ps = insert_after compare p ps.
Proof.
  intros Hk Hlo Hhi. rewrite <- (take_drop (Z.to_nat k) ps) at 3.
  symmetry. apply insert_after_split.
  - intros x (j & Hj & Hx)%at_pos_take. by eapply Hlo.
  - intros x Hx. rewrite lookup_drop, Nat.add_0_r in Hx. apply Hhi. split; [lia|done].
Qed.

Lemma at_pos_insert ps p k j x :
  0 <= k <= blen ps ->
  at_pos (take (Z.to_nat k) ps ++ p :: drop (Z.to_nat k) ps) j x <->
  (j < k /\ at_pos ps j x) \/ (j = k /\ x = p) \/ (k < j /\ at_pos ps (j - 1) x).
Proof.
  intros Hk. unfold at_pos.
  assert (length (take (Z.to_nat k) ps) = Z.to_nat k) as Hl
    by (rewrite length_take; unfold blen in Hk; lia).
  destruct (Z.lt_trichotomy j k) as [Hj|[->|Hj]].
  - split.
    + intros [H0j Hx]. rewrite lookup_app_l in Hx by lia.
      rewrite lookup_take_lt in Hx by lia. left. done.
    + intros [(_ & ? & ?)|[[? ?]|[? _]]]; [|lia|lia]. split; [done|].
      rewrite lookup_app_l, lookup_take_lt by lia. done.
  - rewrite list_lookup_middle by (symmetry; exact Hl). split.
    + intros [_ [= ->]]. right; left. done.
    + intros [(? & _)|[[_ ->]|[? _]]]; [lia| |lia]. split; [lia|done].
  - rewrite lookup_app_r, Hl by lia.
    replace (Z.to_nat j - Z.to_nat k)%nat with (S (Z.to_nat (j - 1) - Z.to_nat k)) by lia.
    rewrite lookup_cons, lookup_drop.
    replace (Z.to_nat k + (Z.to_nat (j - 1) - Z.to_nat k))%nat with (Z.to_nat (j - 1)) by lia.
    split.
    + intros [_ Hx]. right; right. split_and!; [lia|lia|done].
    + intros [(? & _)|[[? _]|(_ & _ & Hx)]]; [lia|lia|]. split; [lia|done].
Qed.

Lemma insert_keeps_sorted ps p k :
  sorted_by compare ps -> 0 <= k <= blen ps ->
  (forall j x, j < k -> at_pos ps j x -> 0 <= compare p x) ->
  (forall x, at_pos ps k x -> compare p x < 0) ->
  sorted_by compare (take (Z.to_nat k) ps ++ p :: drop (Z.to_nat k) ps).
Proof.
  intros Hs Hk Hlo Hhi i j x y Hij. rewrite !at_pos_insert by done.
  intros [[Hi Hx]|[[-> ->]|[Hi Hx]]] [[Hj Hy]|[[-> ->]|[Hj Hy]]]; try lia.
  - eapply Hs; [|done|done]; lia.
  - pose proof (Hlo _ _ Hi Hx). pose proof (compare_swap p x). pose proof (compare_swap x p). lia.
  - eapply Hs; [|done|done]. lia.
  - pose proof (at_pos_lt _ _ _ Hy). destruct (at_pos_ex ps k ltac:(lia)) as [z Hz].
    pose proof (sorted_before_lt ps p k (j - 1) z y Hs ltac:(lia) Hz Hy (Hhi _ Hz)). lia.
  - eapply Hs; [|done|done]. lia.
Qed.

(** Insertion into a sorted vector is the reference insertion; the code
    returns the new element's position. *)
Lemma insert_sorted_spec pv ps p :
  ptr_rep pv ps -> sorted_by compare ps -> is_uint 64 p ->
  exists r pv', sol_ptr_vector_insert_sorted compare pv p = Ret (r, pv')
    /\ ((r < 0 /\ pv' = pv)
        \/ (0 <= r /\ ptr_rep pv' (insert_after compare p ps)
            /\ sorted_by compare (insert_after compare p ps)
            /\ at_pos (insert_after compare p ps) r p)).
Proof.
  intros Hrep Hs Hp. pose proof (ptr_rep_len _ _ Hrep) as [Hlen Hmax].
  unfold sol_ptr_vector_insert_sorted. rewrite Hlen.
  destruct (Z.eqb_spec (blen ps) 0) as [Hz|Hz].
  { apply blen_zero_nil in Hz. subst ps.
    destruct (append_spec pv [] p Hrep Hp) as (r & pv' & -> & [[Hr ->]|[-> Hrep']]);
      rewrite bind_ret.
    - replace (r <? 0) with true by (breflect; lia). do 2 eexists. split; [done|]. by left.
    - cbn [Z.ltb Z.compare]. do 2 eexists. split; [done|]. right.
      unfold sol_ptr_vector_get_len. pose proof (ptr_rep_len _ _ Hrep') as [-> _].
      split_and!; try done.
      intros i j x y Hij Hx%at_pos_lt Hy%at_pos_lt. unfold blen in *. simpl in *. lia. }
  destruct (find_sorted_spec pv ps p Hrep Hs) as (i & x & Hf & Hx & Hcase).
  { by intros ->. }
  pose proof (at_pos_lt _ _ _ Hx) as Hi.
  rewrite Hlen in Hf. rewrite Hf, bind_ret.
  destruct (skip_equal_spec pv ps p (S (Z.to_nat (blen ps))) i x Hrep Hx ltac:(lia))
    as (j & y & -> & Hy & Hij & Hstay & Hend & Heq).
  rewrite bind_ret. pose proof (at_pos_lt _ _ _ Hy) as Hj.
  set (k := if compare p y >=? 0 then j + 1 else j).
  assert (0 <= k <= blen ps) as Hk by (subst k; breflect; lia).
  assert (forall n z, n < k -> at_pos ps n z -> 0 <= compare p z) as Hlo.
  { intros n z Hn Hzz. destruct (Z.lt_trichotomy (compare p z) 0) as [Hlt|[|]]; [exfalso|lia|lia].
    destruct (Z.eq_dec n j) as [->|].
    { rewrite <- (at_pos_unique _ _ _ _ Hy Hzz) in Hlt. revert Hn. subst k. breflect; lia. }
    assert (n < j) by (revert Hn; subst k; breflect; lia).
    destruct (Z.le_gt_cases i n); [specialize (Heq n z ltac:(lia) Hzz); lia|].
    destruct Hcase as [He|[[? Hb]|[Hgt ->]]].
    - pose proof (sorted_before_lt ps p n i z x Hs ltac:(lia) Hzz Hx Hlt). lia.
    - specialize (Hb n z ltac:(lia) Hzz). lia.
    - pose proof (sorted_before_lt ps p n (blen ps - 1) z x Hs ltac:(lia) Hzz Hx Hlt). lia. }
  assert (forall z, at_pos ps k z -> compare p z < 0) as Hhi.
  { intros z Hzz. pose proof (at_pos_lt _ _ _ Hzz) as Hkl. revert Hzz Hkl. subst k.
    destruct (Z.geb_spec (compare p y) 0) as [Hge|Hlt]; intros Hzz Hkl;
      [|by rewrite (at_pos_unique _ _ _ _ Hzz Hy)].
    exfalso. destruct (Z.eq_dec (compare p y) 0) as [He|He]; [specialize (Hend He); lia|].
    destruct (Z.eq_dec (compare p x) 0) as [Hex|Hex].
    - pose proof (sorted_before ps p i j x y Hs Hij Hx Hy ltac:(lia)). lia.
    - specialize (Hstay Hex) as ->. rewrite (at_pos_unique _ _ _ _ Hy Hx) in *.
      destruct Hcase as [?|[[? _]|[_ ->]]]; lia. }
  destruct (insert_at_spec pv ps k p Hrep Hk Hp) as (r & pv' & -> & [[Hr ->]|[-> Hrep']]);
    rewrite bind_ret.
  - replace (r <? 0) with true by (breflect; lia). do 2 eexists. split; [done|]. by left.
  - cbn [Z.ltb Z.compare]. do 2 eexists. split; [done|]. right.
    rewrite <- (insert_position ps p k) by done.
    split_and!; [lia|done|by apply insert_keeps_sorted|].
    apply at_pos_insert; [done|]. by right; left.
Qed.

(** Looking an element up answers an equal one exactly when there is one. *)
Lemma match_sorted_spec pv ps p :
  ptr_rep pv ps -> sorted_by compare ps ->
  (exists i x, sol_ptr_vector_match_sorted compare pv p = Ret i
     /\ at_pos ps i x /\ compare p x = 0)
  \/ (sol_ptr_vector_match_sorted compare pv p = Ret (- ENODATA)
      /\ forall x, x ∈ ps -> compare p x <> 0).
Proof.
  intros Hrep Hs. pose proof (ptr_rep_len _ _ Hrep) as [Hlen Hmax].
  unfold sol_ptr_vector_match_sorted. rewrite Hlen.
  destruct (Z.eqb_spec (blen ps) 0) as [Hz|Hz].
  { apply blen_zero_nil in Hz. subst ps. right. split; [done|]. intros x Hx.
    by apply not_elem_of_nil in Hx. }
  destruct (find_sorted_spec pv ps p Hrep Hs) as (i & x & Hf & Hx & Hcase).
  { by intros ->. }
  pose proof (at_pos_lt _ _ _ Hx). rewrite Hlen in Hf. rewrite Hf, bind_ret.
  destruct (Z.eqb_spec (compare p x) 0) as [He|He]; cbn [negb]; [left; eauto|].
  right. split; [done|]. intros z [n Hn]%list_elem_of_lookup Hz0.
  assert (at_pos ps (Z.of_nat n) z) as Hzz by (split; [lia|by rewrite Nat2Z.id]).
  pose proof (at_pos_lt _ _ _ Hzz).
  destruct Hcase as [?|[[Hlt Hb]|[Hgt ->]]]; [done| |].
  - destruct (Z.le_gt_cases i (Z.of_nat n)).
    + pose proof (sorted_before_lt ps p i (Z.of_nat n) x z Hs ltac:(lia) Hx Hzz Hlt). lia.
    + specialize (Hb (Z.of_nat n) z ltac:(lia) Hzz). lia.
  - pose proof (sorted_after ps p (Z.of_nat n) (blen ps - 1) z x Hs ltac:(lia) Hzz Hx Hgt). lia.
Qed.

Lemma insert_after_perm p ps : insert_after compare p ps ≡ₚ p :: ps.
Proof.
  induction ps as [|x ps IH]; simpl; [done|]. destruct (_ <? 0); [done|].
  rewrite IH. apply Permutation_swap.
Qed.

Lemma delete_at ps i p :
  at_pos ps i p ->
  ps = take (Z.to_nat i) (delete (Z.to_nat i) ps) ++ p :: drop (Z.to_nat i) (delete (Z.to_nat i) ps).
Proof.
  intros [Hi Hp]. pose proof (lookup_lt_Some _ _ _ Hp).
  rewrite !delete_take_drop.
  assert (length (take (Z.to_nat i) ps) = Z.to_nat i) as Hl by (rewrite length_take; lia).
  rewrite take_app_length', drop_app_length' by done.
  symmetry. by apply take_drop_middle.
Qed.

(** Taking the element out in place: the storage keeps its size. *)
Lemma take_out_spec pv ps i p :
  ptr_rep pv ps -> at_pos ps i p -> 1 < blen ps ->
  exists v',
    (let v := set_len (base pv) (len pv - 1) in
     let tail_len := Vector.len v - i in
     if negb (tail_len =? 0) then
       dst ← int_op (elem_size v * i);
       let src := dst + elem_size v in
       d ← mem_move (storage v) dst src (elem_size v * tail_len);
       Ret (set_data v (Some d))
     else Ret v) = Ret v'
    /\ ptr_rep {| base := v' |} (delete (Z.to_nat i) ps).
Proof.
  intros Hrep Hp Hlt. pose proof (ptr_rep_len _ _ Hrep) as [Hlen Hmax].
  pose proof (at_pos_lt _ _ _ Hp) as Hi. destruct Hp as [H0i Hp].
  pose proof (take_drop_middle _ _ _ Hp) as Hps.
  set (a := take (Z.to_nat i) ps) in *. set (b := drop (S (Z.to_nat i)) ps) in *.
  assert (blen a = i) as Ha by (subst a; rewrite blen_take; lia).
  clearbody a b. subst ps. destruct Hrep as (Hrep & Hes & Hall).
  destruct Hrep as (He & Hvlen & Hvmax & Hf & Hd).
  rewrite blen_app, blen_cons in *. pose proof (blen_nonneg b).
  destruct (data (base pv)) as [m|] eqn:E; [|by destruct a].
  destruct Hd as (s & Hm & Hcap). subst m.
  rewrite fmap_app in *. cbn [fmap list_fmap] in *.
  destruct (remove_gap_spec (set_len (base pv) (blen a + blen b)) (ptr_bytes <$> a)
              [ptr_bytes p] (ptr_bytes <$> b) s) as (v' & Hv' & _ & Hes' & Hr');
    cbn [set_len Vector.len elem_size data]; try (done || zlia).
  { by rewrite blen_app, !blen_fmap. }
  { cbn [app]. by rewrite <- Hvlen. }
  { cbn [app]. by rewrite <- Hvlen. }
  cbv zeta. rewrite Hlen. cbn [set_len Vector.len elem_size].
  replace (blen a + (1 + blen b) - 1) with (blen a + blen b) by lia.
  replace (blen a + blen b - i) with (blen b) by lia.
  rewrite Hes, int_op_ok by (unfold ptr_size; zlia). rewrite bind_ret.
  cbn [set_len Vector.len elem_size] in Hv'.
  change (blen [ptr_bytes p]) with 1 in Hv'.
  rewrite !blen_fmap, Hes, Ha, Z.mul_1_r in Hv'. exists v'. split; [rewrite Ha; exact Hv'|].
  rewrite <- Ha, blen_to_nat, delete_middle.
  apply Forall_app in Hall as [? [? ?]%Forall_cons_1].
  split_and!; cbn [base]; [by rewrite fmap_app|cbn [set_len elem_size] in Hes'; congruence|by apply Forall_app].
Qed.

(** After one element of a sorted vector changed its key, updating it
    restores the order.  A failed reallocation loses the element. *)
Lemma update_sorted_spec pv ps i p :
  ptr_rep pv ps -> at_pos ps i p -> sorted_by compare (delete (Z.to_nat i) ps) ->
  exists r pv', sol_ptr_vector_update_sorted compare pv i = Ret (r, pv')
    /\ ((r < 0 /\ ptr_rep pv' (delete (Z.to_nat i) ps))
        \/ exists qs, 0 <= r /\ ptr_rep pv' qs /\ qs ≡ₚ ps
             /\ qs = insert_after compare p (delete (Z.to_nat i) ps)
             /\ sorted_by compare qs /\ at_pos qs r p).
Proof.
  intros Hrep Hp Hs. pose proof (ptr_rep_len _ _ Hrep) as [Hlen Hmax].
  pose proof (at_pos_lt _ _ _ Hp) as Hi.
  unfold sol_ptr_vector_update_sorted. rewrite Hlen.
  replace (i >=? blen ps) with false by (breflect; lia).
  destruct (Z.eqb_spec (blen ps) 1) as [H1|H1].
  { exists 0, pv. split; [done|]. right. exists ps.
    assert (i = 0) as -> by lia.
    assert (ps = [p]) as ->.
    { destruct ps as [|y [|? ?]]; [done| |rewrite !blen_cons in H1; pose proof (blen_nonneg l); lia].
      destruct Hp as [_ [= ->]]. done. }
    split_and!; try done.
    intros n k x y Hnk Hx%at_pos_lt Hy%at_pos_lt. lia. }
  rewrite (get_no_check_spec _ _ _ _ Hrep Hp), bind_ret.
  assert (is_uint 64 p) as Hup.
  { destruct Hrep as (_ & _ & Hall), Hp as [_ Hp]. by eapply Forall_lookup_1 in Hall. }
  assert (Hfix : exists r pv', update_fix_it compare pv i p = Ret (r, pv')
    /\ ((r < 0 /\ ptr_rep pv' (delete (Z.to_nat i) ps))
        \/ exists qs, 0 <= r /\ ptr_rep pv' qs /\ qs ≡ₚ ps
             /\ qs = insert_after compare p (delete (Z.to_nat i) ps)
             /\ sorted_by compare qs /\ at_pos qs r p)).
  { unfold update_fix_it. destruct (take_out_spec _ _ _ _ Hrep Hp ltac:(lia)) as (v' & Hv' & Hr').
    cbv zeta in Hv' |- *. rewrite Hv', bind_ret.
    destruct (insert_sorted_spec _ _ p Hr' Hs Hup) as (r & pv' & -> & [[? ->]|(? & ? & ? & ?)]).
    - do 2 eexists. split; [done|]. by left.
    - do 2 eexists. split; [done|]. right. eexists. split_and!; try done.
      rewrite insert_after_perm. rewrite (delete_at ps i p Hp) at 2.
      by rewrite <- Permutation_middle, take_drop. }
  set (qs := delete (Z.to_nat i) ps) in *.
  pose proof (delete_at ps i p Hp) as Hsplit. fold qs in Hsplit.
  assert (blen qs = blen ps - 1) as Hqs.
  { subst qs. destruct Hp as [_ Hp]. apply lookup_lt_Some in Hp.
    unfold blen. rewrite length_delete by (by apply lookup_lt_is_Some_2). lia. }
  assert (Hin : forall n x, at_pos ps n x ->
    (n < i /\ at_pos qs n x) \/ (n = i /\ x = p) \/ (i < n /\ at_pos qs (n - 1) x)).
  { intros n x Hx. rewrite Hsplit in Hx. apply at_pos_insert in Hx; [done|lia]. }
  match goal with |- context [mbind _ ?b0] => assert (exists bl, b0 = Ret bl
    /\ (bl = false -> forall n x, n < i -> at_pos qs n x -> 0 <= compare p x)) as (bl & -> & Hbl) end.
  { rewrite Z.gtb_ltb. destruct (Z.ltb_spec 0 i).
    2:{ eexists. split; [done|]. intros _ n x Hn Hx%at_pos_lt. lia. }
    destruct (at_pos_ex ps (i - 1) ltac:(lia)) as [o Ho].
    rewrite (get_no_check_spec _ _ _ _ Hrep Ho), bind_ret. eexists. split; [done|].
    rewrite Z.gtb_ltb, Z.ltb_ge. intros Hop n x Hn Hx.
    destruct (Hin _ _ Ho) as [[_ Ho']|[[? _]|[? _]]]; [|lia|lia].
    assert (compare x o <= 0) as Hxo.
    { destruct (Z.eq_dec n (i - 1)) as [->|].
      - rewrite (at_pos_unique _ _ _ _ Hx Ho'), compare_refl. lia.
      - eapply Hs; [|done|done]. lia. }
    pose proof (compare_trans x o p Hxo Hop). pose proof (compare_swap p x).
    pose proof (compare_swap x p). lia. }
  rewrite bind_ret. destruct bl; [exact Hfix|].
  match goal with |- context [mbind _ ?b0] => assert (exists ab, b0 = Ret ab
    /\ (ab = false -> forall x, at_pos qs i x -> compare p x < 0)) as (ab & -> & Hab) end.
  { destruct (Z.ltb_spec (i + 1) (blen ps)).
    2:{ eexists. split; [done|]. intros _ x Hx%at_pos_lt. lia. }
    destruct (at_pos_ex ps (i + 1) ltac:(lia)) as [o Ho].
    rewrite (get_no_check_spec _ _ _ _ Hrep Ho), bind_ret. eexists. split; [done|].
    rewrite Z.geb_leb, Z.leb_gt. intros Hop x Hx.
    destruct (Hin _ _ Ho) as [[? _]|[[? _]|[_ Ho']]]; [lia|lia|].
    replace (i + 1 - 1) with i in Ho' by lia. by rewrite (at_pos_unique _ _ _ _ Hx Ho'). }
  rewrite bind_ret. destruct ab; [exact Hfix|].
  exists i, pv. split; [done|]. right. exists ps. split_and!; try done; [lia| |].
  - rewrite Hsplit at 1. apply insert_position; [lia|by apply Hbl|by apply Hab].
  - rewrite Hsplit. apply insert_keeps_sorted; [done|lia|by apply Hbl|by apply Hab].
Qed.


(** C21: sorted pointer vectors.  With a comparison that is a total preorder,
    inserting keeps the vector sorted, places the pointer after all equal ones
    and returns its index; looking up answers the index of an equal element
    exactly when there is one; re-placing an element whose key changed sorts
    the vector again without losing any element, or drops just that element
    when storage cannot be had. *)
Theorem sorted_vector_correct pv ps p i q :
  ptr_rep pv ps -> is_uint 64 p ->
  (sorted_by compare ps ->
   (exists r pv', sol_ptr_vector_insert_sorted compare pv p = Ret (r, pv')
    /\ ((r < 0 /\ pv' = pv)
        \/ (0 <= r /\ ptr_rep pv' (insert_after compare p ps)
            /\ sorted_by compare (insert_after compare p ps)
            /\ insert_after compare p ps ≡ₚ p :: ps
            /\ at_pos (insert_after compare p ps) r p)))
   /\ ((exists i x, sol_ptr_vector_match_sorted compare pv p = Ret i
         /\ at_pos ps i x /\ compare p x = 0)
       \/ (sol_ptr_vector_match_sorted compare pv p = Ret (- ENODATA)
          /\ forall x, x ∈ ps -> compare p x <> 0)))
  /\ (at_pos ps i q -> sorted_by compare (delete (Z.to_nat i) ps) ->
   exists r pv', sol_ptr_vector_update_sorted compare pv i = Ret (r, pv')
    /\ ((r < 0 /\ ptr_rep pv' (delete (Z.to_nat i) ps))
        \/ exists qs, 0 <= r /\ ptr_rep pv' qs /\ qs ≡ₚ ps
             /\ qs = insert_after compare q (delete (Z.to_nat i) ps)
             /\ sorted_by compare qs /\ at_pos qs r q)).
Proof.
  intros Hrep Hp. split.
  - intros Hs. split; [|by apply match_sorted_spec].
    destruct (insert_sorted_spec pv ps p Hrep Hs Hp) as (r & pv' & Hrun & [?|(? & ? & ? & ?)]);
      exists r, pv'; (split; [done|]); [by left|right]. split_and!; try done. apply insert_after_perm.
  - intros Hq Hs. by apply update_sorted_spec.
Qed.
End SortedProofs.

Section ListProofs.
Context `{BuildConfig} `{Allocator}.

(** Pointer vectors behave as lists of pointers.  Insertion at an index
    inserts there or fails without effect; deletion, overwriting and reading
    act on the indexed element; [find_last] answers the last occurrence,
    [remove] deletes it, and [del_element] deletes every occurrence. *)
Theorem ptr_vector_correct pv ps i x :
  ptr_rep pv ps -> is_uint 64 x -> 0 <= i ->
  (i <= blen ps -> exists r pv', sol_ptr_vector_insert_at pv i x = Ret (r, pv')
    /\ ((r < 0 /\ pv' = pv)
        \/ (r = 0 /\ ptr_rep pv' (take (Z.to_nat i) ps ++ x :: drop (Z.to_nat i) ps))))
  /\ (i < blen ps -> (exists pv', sol_ptr_vector_del pv i = Ret (0, pv')
        /\ ptr_rep pv' (delete (Z.to_nat i) ps))
      /\ (exists pv', sol_ptr_vector_set pv i x = Ret (0, pv')
        /\ ptr_rep pv' (<[Z.to_nat i := x]> ps)))
  /\ sol_ptr_vector_get pv i = Ret (default 0 (ps !! Z.to_nat i))
  /\ (((x ∉ ps) /\ sol_ptr_vector_find_last pv x = Ret (- ENODATA)
       /\ sol_ptr_vector_remove pv x = Ret (- ENODATA, pv))
      \/ (exists a b, ps = a ++ x :: b /\ (x ∉ b)
          /\ sol_ptr_vector_find_last pv x = Ret (blen a)
          /\ exists pv', sol_ptr_vector_remove pv x = Ret (0, pv') /\ ptr_rep pv' (a ++ b)))
  /\ (exists pv', sol_ptr_vector_del_element pv x
        = Ret (if decide (x ∈ ps) then 0 else - ENOENT, pv')
      /\ ptr_rep pv' (filter (fun y => y <> x) ps)).
Proof.
  intros Hrep Hx Hi. split_and!.
  - intros. by apply insert_at_spec.
  - intros Hlt. split; [by apply ptr_del_spec|by apply set_spec].
  - by apply ptr_get_spec.
  - destruct (remove_spec pv ps x Hrep) as [Hno Hyes].
    destruct (find_last_spec pv ps x Hrep) as [[Hin Hf]|(a & b & Hps & Hb & Hf)]; [left; auto|].
    right. exists a, b. split_and!; auto.
  - by apply del_element_all_spec.
Qed.
End ListProofs.

Definition by_value (x y : Z) : Z := x - y.

#[export] Instance by_value_comparator : Comparator by_value.
Proof. split; unfold by_value; lia. Qed.

Lemma ptr_vector_correct_witness :
  sol_ptr_vector_get
    {| base := {| data := Some (ptr_bytes 16 ++ ptr_bytes 32); Vector.len := 2; elem_size := 8 |} |} 1
  = Ret 32.
Proof.
  apply (ptr_vector_correct (H := gcc5) (H0 := roomy)
    {| base := {| data := Some (ptr_bytes 16 ++ ptr_bytes 32); Vector.len := 2; elem_size := 8 |} |}
    [16; 32] 1 48).
  - split_and!; [|done|repeat constructor; done].
    split_and!; [done|done|done|done|repeat constructor|]. exists []. by rewrite app_nil_r.
  - done.
  - done.
Defined.

Lemma sorted_vector_correct_witness :
  exists r pv', sol_ptr_vector_insert_sorted (H := gcc5) (H0 := roomy) by_value sol_ptr_vector_init 7
    = Ret (r, pv')
    /\ ((r < 0 /\ pv' = sol_ptr_vector_init)
        \/ (0 <= r /\ ptr_rep pv' [7] /\ sorted_by by_value [7] /\ [7] ≡ₚ [7] /\ at_pos [7] r 7)).
Proof.
  apply (sorted_vector_correct (H := gcc5) (H0 := roomy) by_value sol_ptr_vector_init [] 7 0 0).
  - apply (ptr_rep_init (H := gcc5)).
  - done.
  - intros i j x y _ [_ Hx]. discriminate Hx.
Defined.

End PtrVector.
