(* ===== verification/Codec.v ===== *)
(** * Text encodings

    Models the encoders and decoders of src/src/lib/common/sol-util.c:
    base64, base16, UTF-8 and the textual form of UUIDs.  The C functions
    write through a pointer into a caller's block; here they take the block
    and the offset of that pointer, so that a store outside the block is
    visible as undefined behaviour.  Each codec also has a reference
    function on byte lists that the code is shown to compute. *)

From S2P Require Import Prelude Arith.

#[local] Open Scope Z_scope.

(** ** Exhaustive checking over bytes *)

Lemma range_forall (n : Z) (f : Z -> bool) :
  forallb f (seqZ 0 n) = true -> forall x, 0 <= x < n -> f x = true.
Proof.
  intros Hf x Hx. rewrite forallb_forall in Hf. apply Hf.
  apply list_elem_of_In, elem_of_seqZ. lia.
Qed.

Lemma range_forall2 (n m : Z) (f : Z -> Z -> bool) :
  forallb (fun x => forallb (f x) (seqZ 0 m)) (seqZ 0 n) = true ->
  forall x y, 0 <= x < n -> 0 <= y < m -> f x y = true.
Proof.
  intros Hf x y Hx Hy. apply (range_forall m (f x)); [|done].
  by apply (range_forall n (fun x => forallb (f x) (seqZ 0 m))).
Qed.

(** [output[o++] = c] *)
Definition put (st : block * Z) (c : Z) : outcome (block * Z) :=
  let '(m, o) := st in
  m ← mem_store m o [c]; Ret (m, o + 1).

(** Successive stores amount to one store of the list. *)
Fixpoint puts (st : block * Z) (cs : list Z) : outcome (block * Z) :=
  match cs with
  | [] => Ret st
  | c :: cs => st ← put st c; puts st cs
  end.

Lemma puts_app st cs ds : puts st (cs ++ ds) = (st ← puts st cs; puts st ds).
Proof.
  revert st. induction cs as [|c cs IH]; intros st; simpl; [done|].
  destruct (put st c); [apply IH|done].
Qed.

Lemma puts_spec pre mid post cs :
  blen cs = blen mid ->
  puts (pre ++ mid ++ post, blen pre) cs
  = Ret (pre ++ cs ++ post, blen pre + blen cs).
Proof.
  revert pre mid. induction cs as [|c cs IH]; intros pre mid Hl.
  - symmetry in Hl. apply blen_zero_nil in Hl. subst mid. simpl. by rewrite Z.add_0_r.
  - destruct mid as [|x mid]; [unfold blen in Hl; simpl in Hl; lia|].
    cbn [puts put].
    rewrite (mem_store_app pre [x] [c] (mid ++ post)) by done. rewrite !bind_ret.
    specialize (IH (pre ++ [c]) mid). rewrite !blen_app, !blen_cons, <- !app_assoc in *.
    change (blen []) with 0 in IH. cbn [app] in IH |- *.
    replace (blen pre + 1) with (blen pre + (1 + 0)) by lia.
    rewrite IH by lia. f_equal. f_equal. lia.
Qed.

Lemma puts_one st a : puts st [a] = put st a.
Proof. simpl. by destruct (put st a). Qed.

(** ** Base 64 *)

Module Base64.

(** A map has 65 characters, the last one being the padding. *)
Definition map_ok (map : list Z) : Prop := blen map = 65 /\ NoDup map.

Definition SOL_BASE64_MAP : list Z :=
  [65;66;67;68;69;70;71;72;73;74;75;76;77;78;79;80;81;82;83;84;85;86;87;88;89;90;
   97;98;99;100;101;102;103;104;105;106;107;108;109;110;111;112;113;114;115;116;
   117;118;119;120;121;122;48;49;50;51;52;53;54;55;56;57;43;47;61].

(** [base64_map[c]] *)
Definition map_at (map : list Z) (c : Z) : outcome Z :=
  match map !! Z.to_nat c with Some x => Ret x | None => UB end.

(** [(((1 << n) - 1) << s)] *)
Definition mask (n s : Z) : Z := Z.shiftl (Z.shiftl 1 n - 1) s.

(** The four 6-bit groups, as the code computes them on [uint8_t]. *)
Definition group0 (a : Z) : Z := wrapu 8 (Z.shiftr (Z.land a (mask 6 2)) 2).
Definition group1_hi (a : Z) : Z := wrapu 8 (Z.shiftl (Z.land a (mask 2 0)) 4).
Definition group1 (a b : Z) : Z :=
  wrapu 8 (Z.lor (group1_hi a) (Z.shiftr (Z.land b (mask 4 4)) 4)).
Definition group2_hi (b : Z) : Z := wrapu 8 (Z.shiftl (Z.land b (mask 4 0)) 2).
Definition group2 (b c : Z) : Z :=
  wrapu 8 (Z.lor (group2_hi b) (Z.shiftr (Z.land c (mask 2 6)) 6)).
Definition group3 (c : Z) : Z := wrapu 8 (Z.land c (mask 6 0)).

Definition put_char (map : list Z) (st : block * Z) (c : Z) : outcome (block * Z) :=
  x ← map_at map c; put st x.

(** The main loop and the two tails; the list is the input from [i] on. *)
Fixpoint encode_loop (map : list Z) (st : block * Z) (input : list Z)
    : outcome (block * Z) :=
  match input with
  | a :: b :: c :: rest =>
      st ← put_char map st (group0 a);
      st ← put_char map st (group1 a b);
      st ← put_char map st (group2 b c);
      st ← put_char map st (group3 c);
      encode_loop map st rest
  | [a] =>
      st ← put_char map st (group0 a);
      st ← put_char map st (group1_hi a);
      st ← put_char map st 64;
      put_char map st 64
  | [a; b] =>
      st ← put_char map st (group0 a);
      st ← put_char map st (group1 a b);
      st ← put_char map st (group2_hi b);
      put_char map st 64
  | [] => Ret st
  end.

Section Ops.
Context `{BuildConfig}.

Definition sol_util_base64_calculate_encoded_len (slice : list Z) : outcome Z :=
  let req_len := blen slice / 3 in
  let req_len := if negb (blen slice mod 3 =? 0) then req_len + 1 else req_len in
  '(err, req_len) ← sol_util_ssize_mul req_len 4 req_len;
  if err <? 0 then Ret err else Ret req_len.

(** [buf] is the block [m] at offset [off]; the result is the return value
    and the block afterwards. *)
Definition sol_util_base64_encode (m : block) (off buflen : Z) (slice map : list Z)
    : outcome (Z * block) :=
  if blen slice =? 0 then Ret (0, m)
  else
    req ← sol_util_base64_calculate_encoded_len slice;
    let req_len := wrapu 64 req in
    if buflen <? req_len then Ret (- ENOMEM, m)
    else
      '(m, o) ← encode_loop map (m, off) slice;
      Ret (o - off, m).

(** memchr over the 65 characters *)
Definition base64_index_of (c : Z) (map : list Z) : Z :=
  match list_find (fun x => x = c) map with
  | Some (i, _) => Z.of_nat i
  | None => UINT8_MAX
  end.

(** Trailing padding characters of the reversed slice *)
Fixpoint count_pad (pad : Z) (rev_slice : list Z) : Z :=
  match rev_slice with
  | x :: rest => if x =? pad then 1 + count_pad pad rest else 0
  | [] => 0
  end.

Definition sol_util_base64_calculate_decoded_len (slice map : list Z) : outcome Z :=
  pad ← map_at map 64;
  let req_len := wrapu 64 (blen slice / 4 * 3 - count_pad pad (rev slice)) in
  if req_len >? SSIZE_MAX then Ret (- EOVERFLOW) else Ret req_len.

(** The bytes one group of four indexes stands for *)
Definition byte0 (v0 v1 : Z) : Z :=
  wrapu 8 (Z.lor (Z.shiftl v0 2) (Z.shiftr (Z.land v1 (mask 4 4)) 4)).
Definition byte1 (v1 v2 : Z) : Z :=
  wrapu 8 (Z.lor (Z.shiftl (Z.land v1 (mask 4 0)) 4) (Z.shiftr (Z.land v2 (mask 4 2)) 2)).
Definition byte2 (v2 v3 : Z) : Z :=
  wrapu 8 (Z.lor (Z.shiftl (Z.land v2 (mask 2 0)) 6) v3).

Definition decode_group (st : block * Z) (v0 v1 v2 v3 : Z) : outcome (block * Z) :=
  st ← put st (byte0 v0 v1);
  if negb (v2 =? 64) then
    st ← put st (byte1 v1 v2);
    if negb (v3 =? 64) then put st (byte2 v2 v3) else Ret st
  else Ret st.

(** The loop stops at the first bad character with [-EINVAL]; what was
    written stays. *)
Fixpoint decode_loop (map : list Z) (st : block * Z) (input : list Z)
    : outcome (Z * (block * Z)) :=
  match input with
  | c0 :: c1 :: c2 :: c3 :: rest =>
      let v0 := base64_index_of c0 map in
      let v1 := base64_index_of c1 map in
      let v2 := base64_index_of c2 map in
      let v3 := base64_index_of c3 map in
      if (v0 =? UINT8_MAX) || (v1 =? UINT8_MAX) || (v2 =? UINT8_MAX) || (v3 =? UINT8_MAX)
      then Ret (- EINVAL, st)
      else
        st ← decode_group st v0 v1 v2 v3;
        decode_loop map st rest
  | [] => Ret (0, st)
  | _ => Ret (- EINVAL, st)
  end.

Definition sol_util_base64_decode (m : block) (off buflen : Z) (slice map : list Z)
    : outcome (Z * block) :=
  if blen slice =? 0 then Ret (0, m)
  else
    req ← sol_util_base64_calculate_decoded_len slice map;
    let req_len := wrapu 64 req in
    if buflen <? req_len then Ret (- ENOMEM, m)
    else
      '(r, (m, o)) ← decode_loop map (m, off) slice;
      if r <? 0 then Ret (r, m) else Ret (o - off, m).
End Ops.

(** ** The reference encoder *)

Definition chr (map : list Z) (i : Z) : Z := map !!! Z.to_nat i.

Fixpoint b64 (map : list Z) (bs : list Z) : list Z :=
  match bs with
  | a :: b :: c :: rest =>
      chr map (a / 4) :: chr map (a mod 4 * 16 + b / 16)
      :: chr map (b mod 16 * 4 + c / 64) :: chr map (c mod 64) :: b64 map rest
  | [a] => [chr map (a / 4); chr map (a mod 4 * 16); chr map 64; chr map 64]
  | [a; b] =>
      [chr map (a / 4); chr map (a mod 4 * 16 + b / 16); chr map (b mod 16 * 4); chr map 64]
  | [] => []
  end.

(** The length of an encoding: four characters for every started group of
    three bytes. *)
Definition b64_len (n : Z) : Z := (n + 2) / 3 * 4.

(** Induction on a list three or four elements at a time. *)
Lemma list_ind3 {A} (P : list A -> Prop) :
  P [] -> (forall a, P [a]) -> (forall a b, P [a; b]) ->
  (forall a b c l, P l -> P (a :: b :: c :: l)) -> forall l, P l.
Proof.
  intros H0 H1 H2 H3 l.
  enough (P l /\ (forall a, P (a :: l)) /\ (forall a b, P (a :: b :: l))) by tauto.
  induction l as [|x l (IH0 & IH1 & IH2)]; split_and!; auto.
Qed.

Lemma group_arith a :
  is_byte a ->
  group0 a = a / 4 /\ group1_hi a = a mod 4 * 16 /\ group2_hi a = a mod 16 * 4
  /\ group3 a = a mod 64.
Proof.
  intros Ha.
  assert ((group0 a =? a / 4) && (group1_hi a =? a mod 4 * 16)
          && (group2_hi a =? a mod 16 * 4) && (group3 a =? a mod 64) = true) as Hb.
  { apply (range_forall 256 (fun a => (group0 a =? a / 4) && (group1_hi a =? a mod 4 * 16)
      && (group2_hi a =? a mod 16 * 4) && (group3 a =? a mod 64)));
      [by vm_compute|unfold is_byte in Ha; lia]. }
  rewrite !andb_true_iff, !Z.eqb_eq in Hb. tauto.
Qed.

Lemma group2_arith a b :
  is_byte a -> is_byte b ->
  group1 a b = a mod 4 * 16 + b / 16 /\ group2 a b = a mod 16 * 4 + b / 64.
Proof.
  intros Ha Hb.
  assert ((group1 a b =? a mod 4 * 16 + b / 16)
          && (group2 a b =? a mod 16 * 4 + b / 64) = true) as H.
  { apply (range_forall2 256 256 (fun a b => (group1 a b =? a mod 4 * 16 + b / 16)
      && (group2 a b =? a mod 16 * 4 + b / 64)));
      [by vm_compute|unfold is_byte in *; lia|unfold is_byte in *; lia]. }
  rewrite !andb_true_iff, !Z.eqb_eq in H. tauto.
Qed.

(** The decoder's byte expressions on indexes below 64 *)
Lemma byte_arith v w :
  0 <= v < 64 -> 0 <= w < 64 ->
  byte0 v w = v * 4 + w / 16 /\ byte1 v w = v mod 16 * 16 + w / 4
  /\ byte2 v w = v mod 4 * 64 + w.
Proof.
  intros Hv Hw.
  assert ((byte0 v w =? v * 4 + w / 16) && (byte1 v w =? v mod 16 * 16 + w / 4)
          && (byte2 v w =? v mod 4 * 64 + w) = true) as H.
  { apply (range_forall2 64 64 (fun v w => (byte0 v w =? v * 4 + w / 16)
      && (byte1 v w =? v mod 16 * 16 + w / 4) && (byte2 v w =? v mod 4 * 64 + w)));
      [by vm_compute|done|done]. }
  rewrite !andb_true_iff, !Z.eqb_eq in H. tauto.
Qed.

Lemma map_at_chr map i : map_ok map -> 0 <= i <= 64 -> map_at map i = Ret (chr map i).
Proof.
  intros [Hl _] Hi. unfold map_at, chr.
  destruct (lookup_lt_is_Some_2 map (Z.to_nat i)) as [x Hx]; [unfold blen in Hl; lia|].
  by rewrite Hx, (list_lookup_total_correct _ _ _ Hx).
Qed.

Lemma put_char_chr map st i : map_ok map -> 0 <= i <= 64 -> put_char map st i = put st (chr map i).
Proof. intros. unfold put_char. by rewrite map_at_chr. Qed.

(** Replace the character stores of the code, front to back. *)
Ltac put_steps :=
  repeat match goal with
  | |- context [put_char ?m ?st ?i] =>
      rewrite (put_char_chr m st i) by (done || dlia);
      destruct (put st (chr m i)); [rewrite ?bind_ret|done]
  end.

(** The loop writes the reference encoding. *)
Lemma encode_loop_puts map bs st :
  map_ok map -> Forall is_byte bs -> encode_loop map st bs = puts st (b64 map bs).
Proof.
  intros Hm. revert st. induction bs as [|a|a b|a b c bs IH] using list_ind3; intros st Hbs.
  - done.
  - apply Forall_cons_1 in Hbs as [Ha _].
    destruct (group_arith a Ha) as (E0 & E1 & _ & _). unfold is_byte in *.
    cbn [encode_loop b64 puts]. rewrite E0, E1. by put_steps.
  - apply Forall_cons_1 in Hbs as [Ha [Hb _]%Forall_cons_1].
    destruct (group_arith a Ha) as (E0 & _ & _ & _), (group_arith b Hb) as (_ & _ & E2 & _).
    destruct (group2_arith a b Ha Hb) as (E1 & _). unfold is_byte in *.
    cbn [encode_loop b64 puts]. rewrite E0, E1, E2. by put_steps.
  - apply Forall_cons_1 in Hbs as [Ha [Hb [Hc Hbs]%Forall_cons_1]%Forall_cons_1].
    destruct (group_arith a Ha) as (E0 & _ & _ & _), (group_arith c Hc) as (_ & _ & _ & E3).
    destruct (group2_arith a b Ha Hb) as (E1 & _), (group2_arith b c Hb Hc) as (_ & E2).
    unfold is_byte in *. cbn [encode_loop b64 puts]. rewrite E0, E1, E2, E3.
    put_steps. by apply IH.
Qed.

Lemma blen_b64 map bs : blen (b64 map bs) = b64_len (blen bs).
Proof.
  unfold b64_len. induction bs as [|a|a b|a b c bs IH] using list_ind3; try done.
  cbn [b64]. rewrite !blen_cons, IH. pose proof (blen_nonneg bs).
  replace (1 + (1 + (1 + blen bs)) + 2) with (blen bs + 2 + 1 * 3) by lia.
  rewrite Z.div_add by lia. lia.
Qed.

(** ** The encoder *)

Definition small (n : Z) : Prop := 0 <= n /\ b64_len n <= SSIZE_MAX.

Lemma encoded_len_spec `{BuildConfig} bs :
  small (blen bs) -> sol_util_base64_calculate_encoded_len bs = Ret (b64_len (blen bs)).
Proof.
  intros [Hn Hs]. unfold sol_util_base64_calculate_encoded_len, b64_len in *. cbv zeta.
  set (q := if negb (blen bs mod 3 =? 0) then blen bs / 3 + 1 else blen bs / 3).
  assert (q = (blen bs + 2) / 3) as Hq by (subst q; breflect; dlia).
  rewrite Hq. destruct (ssize_mul_checked ((blen bs + 2) / 3) 4 ((blen bs + 2) / 3))
    as (r & -> & Hin & _); [unfold is_int64; dlia|done|].
  rewrite Hin by dlia. rewrite bind_ret. by cbn [Z.ltb Z.compare].
Qed.

(** Encoding into a region of the right size writes the encoding there and
    nothing else. *)
Lemma base64_encode_spec `{BuildConfig} map bs pre mid post :
  map_ok map -> Forall is_byte bs -> small (blen bs) ->
  blen mid = b64_len (blen bs) ->
  sol_util_base64_encode (pre ++ mid ++ post) (blen pre) (blen mid) bs map
  = Ret (b64_len (blen bs), pre ++ b64 map bs ++ post).
Proof.
  intros Hm Hbs Hs Hmid. unfold sol_util_base64_encode.
  destruct (Z.eqb_spec (blen bs) 0) as [Hz|Hz].
  { rewrite Hz in *. change (b64_len 0) with 0 in *.
    apply blen_zero_nil in Hz, Hmid. by subst. }
  rewrite encoded_len_spec by done. rewrite bind_ret.
  rewrite wrapu_small by (destruct Hs; unfold b64_len in *; dlia).
  bknown. rewrite encode_loop_puts by done.
  rewrite puts_spec by (by rewrite blen_b64). rewrite bind_ret, blen_b64.
  f_equal. f_equal. lia.
Qed.

Lemma base64_encode_nomem `{BuildConfig} map bs m off buflen :
  small (blen bs) -> 0 < blen bs -> buflen < b64_len (blen bs) ->
  sol_util_base64_encode m off buflen bs map = Ret (- ENOMEM, m).
Proof.
  intros Hs Hp Hlt. unfold sol_util_base64_encode. bknown.
  rewrite encoded_len_spec by done. rewrite bind_ret.
  rewrite wrapu_small by (destruct Hs; unfold b64_len in *; dlia).
  by bknown.
Qed.

(** ** The decoder *)

Lemma index_of_chr map i : map_ok map -> 0 <= i <= 64 -> base64_index_of (chr map i) map = i.
Proof.
  intros [Hl Hnd] Hi. unfold base64_index_of, chr.
  destruct (lookup_lt_is_Some_2 map (Z.to_nat i)) as [x Hx]; [unfold blen in Hl; lia|].
  rewrite (list_lookup_total_correct _ _ _ Hx).
  destruct (list_find_elem_of (fun y => y = x) map x) as [[j y] Hf];
    [by eapply list_elem_of_lookup_2|done|].
  rewrite Hf. apply list_find_Some in Hf as (Hj & -> & _).
  rewrite (NoDup_lookup _ _ _ _ Hnd Hj Hx). lia.
Qed.

(** What the decoder writes for a reference encoding. *)
Lemma decode_loop_b64 map bs st :
  map_ok map -> Forall is_byte bs ->
  decode_loop map st (b64 map bs) = (st ← puts st bs; Ret (0, st)).
Proof.
  intros Hm. revert st. induction bs as [|a|a b|a b c bs IH] using list_ind3; intros st Hbs.
  - done.
  - apply Forall_cons_1 in Hbs as [Ha _]. unfold is_byte in *.
    cbn [decode_loop b64]. rewrite !index_of_chr by (done || dlia). bknownd.
    destruct (byte_arith (a / 4) (a mod 4 * 16)) as (E0 & _ & _); [dlia..|].
    unfold decode_group. rewrite E0. cbn [Z.eqb Pos.eqb negb].
    replace (a / 4 * 4 + a mod 4 * 16 / 16) with a by dlia.
    cbn [puts]. by destruct (put st a).
  - apply Forall_cons_1 in Hbs as [Ha [Hb _]%Forall_cons_1]. unfold is_byte in *.
    cbn [decode_loop b64]. rewrite !index_of_chr by (done || dlia). bknownd.
    destruct (byte_arith (a / 4) (a mod 4 * 16 + b / 16)) as (E0 & _ & _); [dlia..|].
    destruct (byte_arith (a mod 4 * 16 + b / 16) (b mod 16 * 4)) as (_ & E1 & _); [dlia..|].
    unfold decode_group. rewrite E0, E1.
    replace (b mod 16 * 4 =? 64) with false by (breflect; dlia). cbn [Z.eqb Pos.eqb negb].
    replace (a / 4 * 4 + (a mod 4 * 16 + b / 16) / 16) with a by dlia.
    replace ((a mod 4 * 16 + b / 16) mod 16 * 16 + b mod 16 * 4 / 4) with b by dlia.
    cbn [puts]. destruct (put st a) as [st1|]; [|done]. rewrite !bind_ret.
    by destruct (put st1 b).
  - apply Forall_cons_1 in Hbs as [Ha [Hb [Hc Hbs]%Forall_cons_1]%Forall_cons_1].
    unfold is_byte in *.
    cbn [decode_loop b64]. rewrite !index_of_chr by (done || dlia). bknownd.
    destruct (byte_arith (a / 4) (a mod 4 * 16 + b / 16)) as (E0 & _ & _); [dlia..|].
    destruct (byte_arith (a mod 4 * 16 + b / 16) (b mod 16 * 4 + c / 64)) as (_ & E1 & _); [dlia..|].
    destruct (byte_arith (b mod 16 * 4 + c / 64) (c mod 64)) as (_ & _ & E2); [dlia..|].
    unfold decode_group. rewrite E0, E1, E2.
    replace (b mod 16 * 4 + c / 64 =? 64) with false by (breflect; dlia).
    replace (c mod 64 =? 64) with false by (breflect; dlia). cbn [negb].
    replace (a / 4 * 4 + (a mod 4 * 16 + b / 16) / 16) with a by dlia.
    replace ((a mod 4 * 16 + b / 16) mod 16 * 16 + (b mod 16 * 4 + c / 64) / 4) with b by dlia.
    replace ((b mod 16 * 4 + c / 64) mod 4 * 64 + c mod 64) with c by dlia.
    cbn [puts]. destruct (put st a) as [st1|]; [|done]. rewrite !bind_ret.
    destruct (put st1 b) as [st2|]; [|done]. rewrite !bind_ret.
    destruct (put st2 c) as [st3|]; [|done]. rewrite !bind_ret. by apply IH.
Qed.

Lemma count_pad_b64 map bs :
  map_ok map -> Forall is_byte bs ->
  count_pad (chr map 64) (rev (b64 map bs)) = b64_len (blen bs) / 4 * 3 - blen bs.
Proof.
  intros Hm. assert (Hne : forall i, 0 <= i < 64 -> (chr map i =? chr map 64) = false).
  { intros i Hi. apply Z.eqb_neq. intros Heq.
    pose proof (index_of_chr map i Hm ltac:(lia)). pose proof (index_of_chr map 64 Hm ltac:(lia)).
    rewrite Heq in *. lia. }
  induction bs as [|a|a b|a b c bs IH] using list_ind3; intros Hbs.
  - done.
  - apply Forall_cons_1 in Hbs as [Ha _]. unfold is_byte in *. cbn [b64 rev app count_pad].
    rewrite !Z.eqb_refl, !Hne by dlia. done.
  - apply Forall_cons_1 in Hbs as [Ha [Hb _]%Forall_cons_1]. unfold is_byte in *.
    cbn [b64 rev app count_pad]. rewrite !Z.eqb_refl, !Hne by dlia. done.
  - apply Forall_cons_1 in Hbs as [Ha [Hb [Hc Hbs]%Forall_cons_1]%Forall_cons_1].
    specialize (IH Hbs). unfold is_byte in *.
    change (b64 map (a :: b :: c :: bs)) with
      ([chr map (a / 4); chr map (a mod 4 * 16 + b / 16);
        chr map (b mod 16 * 4 + c / 64); chr map (c mod 64)] ++ b64 map bs).
    rewrite rev_app_distr.
    assert (Hpre : forall l l' w, (w =? chr map 64) = false ->
      count_pad (chr map 64) (l ++ w :: l') = count_pad (chr map 64) l).
    { induction l as [|u l IHl]; intros l' w Hw; cbn [count_pad app]; [by rewrite Hw|].
      by rewrite IHl. }
    cbn [rev app]. rewrite Hpre by (apply Hne; dlia). rewrite IH, !blen_cons. unfold b64_len.
    pose proof (blen_nonneg bs). dlia.
Qed.

Lemma decoded_len_spec `{BuildConfig} map bs :
  map_ok map -> Forall is_byte bs -> small (blen bs) ->
  sol_util_base64_calculate_decoded_len (b64 map bs) map = Ret (blen bs).
Proof.
  intros Hm Hbs [Hn Hs]. unfold sol_util_base64_calculate_decoded_len.
  rewrite map_at_chr by done. rewrite bind_ret, blen_b64, count_pad_b64 by done.
  replace (b64_len (blen bs) / 4 * 3 - (b64_len (blen bs) / 4 * 3 - blen bs))
    with (blen bs) by lia.
  unfold b64_len in Hs. rewrite wrapu_small by dlia. by replace (blen bs >? SSIZE_MAX) with false by (breflect; dlia).
Qed.

(** Decoding an encoding gives the bytes back, in exactly the region the
    length computation announced. *)
Lemma base64_decode_spec `{BuildConfig} map bs pre mid post :
  map_ok map -> Forall is_byte bs -> small (blen bs) -> blen mid = blen bs ->
  sol_util_base64_decode (pre ++ mid ++ post) (blen pre) (blen mid) (b64 map bs) map
  = Ret (blen bs, pre ++ bs ++ post).
Proof.
  intros Hm Hbs Hs Hmid. unfold sol_util_base64_decode.
  destruct (Z.eqb_spec (blen (b64 map bs)) 0) as [Hz|Hz].
  { rewrite blen_b64 in Hz. unfold b64_len in Hz. pose proof (blen_nonneg bs).
    assert (blen bs = 0) as Hbz by dlia. rewrite Hbz in *. apply blen_zero_nil in Hbz, Hmid.
    by subst. }
  rewrite decoded_len_spec by done. rewrite bind_ret.
  rewrite wrapu_small by (destruct Hs; unfold b64_len in *; dlia). bknown.
  rewrite decode_loop_b64 by done. rewrite puts_spec by done. rewrite !bind_ret.
  cbn [Z.ltb Z.compare]. f_equal. f_equal. lia.
Qed.

(** ** Memory safety of the decoder *)

Lemma list_ind4 {A} (P : list A -> Prop) :
  P [] -> (forall a, P [a]) -> (forall a b, P [a; b]) -> (forall a b c, P [a; b; c]) ->
  (forall a b c d l, P l -> P (a :: b :: c :: d :: l)) -> forall l, P l.
Proof.
  intros H0 H1 H2 H3 H4 l.
  enough (P l /\ (forall a, P (a :: l)) /\ (forall a b, P (a :: b :: l))
          /\ (forall a b c, P (a :: b :: c :: l))) by tauto.
  induction l as [|x l (IH0 & IH1 & IH2 & IH3)]; split_and!; auto.
Qed.

(** One group writes three bytes, less one for each padding at its end. *)
Lemma decode_group_puts st v0 v1 v2 v3 :
  exists cs, decode_group st v0 v1 v2 v3 = puts st cs
    /\ blen cs = (if v2 =? 64 then 1 else if v3 =? 64 then 2 else 3).
Proof.
  unfold decode_group. destruct (v2 =? 64); [|destruct (v3 =? 64)]; cbn [negb].
  - exists [byte0 v0 v1]. split; [|done]. cbn [puts]. by destruct (put st _).
  - exists [byte0 v0 v1; byte1 v1 v2]. split; [|done]. cbn [puts].
    destruct (put st _) as [st1|]; [|done]. rewrite !bind_ret. by destruct (put st1 _).
  - exists [byte0 v0 v1; byte1 v1 v2; byte2 v2 v3]. split; [|done]. cbn [puts].
    destruct (put st _) as [st1|]; [|done]. rewrite !bind_ret.
    destruct (put st1 _) as [st2|]; [|done]. rewrite !bind_ret. by destruct (put st2 _).
Qed.

Lemma count_pad_bound pad l : 0 <= count_pad pad l <= blen l.
Proof.
  induction l as [|x l IH]; [done|]. cbn [count_pad]. rewrite blen_cons.
  destruct (x =? pad); lia.
Qed.

(** Trailing padding of a list that ends in [l]. *)
Lemma count_pad_app pad l l' :
  count_pad pad (l ++ l')
  = if bool_decide (count_pad pad l = blen l) then blen l + count_pad pad l'
    else count_pad pad l.
Proof.
  induction l as [|x l IH]; [done|]. cbn [count_pad app]. rewrite blen_cons.
  pose proof (count_pad_bound pad l).
  destruct (x =? pad).
  - rewrite IH. repeat case_bool_decide; lia.
  - rewrite bool_decide_false by lia. done.
Qed.

Lemma decode_loop_puts map input st :
  map_ok map -> blen input mod 4 = 0 -> count_pad (chr map 64) (rev input) <= 2 ->
  exists r cs, decode_loop map st input = (st ← puts st cs; Ret (r, st))
    /\ r <= 0
    /\ blen cs <= blen input / 4 * 3 - count_pad (chr map 64) (rev input).
Proof.
  intros Hm. pose proof (index_of_chr map 64 Hm ltac:(lia)) as H64.
  revert st. induction input as [|a|a b|a b c|a b c d rest IH] using list_ind4;
    intros st Hmod Hpad; try discriminate Hmod.
  { exists 0, []. split_and!; done. }
  rewrite !blen_cons in *. pose proof (blen_nonneg rest) as Hr.
  assert (blen rest mod 4 = 0) as Hmod' by dlia.
  replace ((1 + (1 + (1 + (1 + blen rest)))) / 4 * 3) with (blen rest / 4 * 3 + 3) by dlia.
  assert (Hrev : rev (a :: b :: c :: d :: rest) = rev rest ++ [d; c; b; a]).
  { cbn [rev]. by rewrite <- !app_assoc. }
  rewrite Hrev, count_pad_app in *.
  assert (blen (rev rest) = blen rest) as Hbr by (unfold blen; by rewrite length_rev).
  cbn [decode_loop].
  set (v0 := base64_index_of a map). set (v1 := base64_index_of b map).
  set (v2 := base64_index_of c map). set (v3 := base64_index_of d map).
  pose proof (count_pad_bound (chr map 64) (rev rest)) as Hb1.
  pose proof (count_pad_bound (chr map 64) [d; c; b; a]) as Hb2.
  change (blen [d; c; b; a]) with 4 in Hb2.
  destruct ((v0 =? UINT8_MAX) || _ || _ || _).
  { exists (- EINVAL), []. split_and!; [done|done|]. change (blen []) with 0.
    case_bool_decide; dlia. }
  destruct (decode_group_puts st v0 v1 v2 v3) as (cs & -> & Hcs).
  case_bool_decide as Hall.
  - assert (rest = []) as ->.
    { apply blen_zero_nil. destruct (Z.eq_dec (blen rest) 0); [done|]. exfalso. dlia. }
    exists 0, cs. split_and!; [by cbn [decode_loop]|done|].
    change (blen (rev [])) with 0. change (blen [] / 4 * 3 + 3) with 3.
    rewrite Hcs. cbn [count_pad].
    destruct (Z.eqb_spec d (chr map 64)) as [->|].
    + assert (v3 = 64) as -> by done. cbn [Z.eqb Pos.eqb].
      destruct (Z.eqb_spec c (chr map 64)) as [->|].
      * assert (v2 = 64) as -> by done. cbn [Z.eqb Pos.eqb].
        revert Hpad. cbn [count_pad rev app]. change (blen []) with 0.
        rewrite !Z.eqb_refl.
        destruct (b =? chr map 64); destruct (a =? chr map 64); cbn; lia.
      * destruct (v2 =? 64); lia.
    + destruct (v2 =? 64); [lia|]. destruct (v3 =? 64); lia.
  - destruct (puts st cs) as [st'|] eqn:Hp.
    + destruct (IH st' Hmod' Hpad) as (r & cs' & Heq & Hr0 & Hle).
      exists r, (cs ++ cs'). rewrite puts_app, Hp, !bind_ret. split_and!; [done|done|].
      rewrite blen_app, Hcs. destruct (v2 =? 64); [lia|]. destruct (v3 =? 64); lia.
    + exists 0, cs. rewrite Hp. split_and!; [done|done|].
      rewrite Hcs. pose proof (Z.div_pos (blen rest) 4 Hr ltac:(lia)).
      destruct (v2 =? 64); [dlia|]. destruct (v3 =? 64); dlia.
Qed.

(** With whole groups and at most two padding characters the decoder stays
    inside the region it was given, whatever the characters are. *)
Lemma base64_decode_in_bounds `{BuildConfig} map input pre mid post :
  map_ok map -> blen input mod 4 = 0 -> count_pad (chr map 64) (rev input) <= 2 ->
  blen input <= SSIZE_MAX ->
  exists r mid',
    sol_util_base64_decode (pre ++ mid ++ post) (blen pre) (blen mid) input map
    = Ret (r, pre ++ mid' ++ post) /\ blen mid' = blen mid /\ r <= blen mid.
Proof.
  intros Hm Hmod Hpad Hmax. unfold sol_util_base64_decode.
  pose proof (blen_nonneg input). pose proof (blen_nonneg mid).
  destruct (Z.eqb_spec (blen input) 0).
  { exists 0, mid. done. }
  unfold sol_util_base64_calculate_decoded_len. rewrite map_at_chr by done. rewrite !bind_ret.
  destruct (decode_loop_puts map input (pre ++ mid ++ post, blen pre) Hm Hmod Hpad)
    as (r & cs & Hd & Hr & Hle).
  pose proof (blen_nonneg cs).
  pose proof (count_pad_bound (chr map 64) (rev input)).
  set (req := blen input / 4 * 3 - count_pad (chr map 64) (rev input)) in *.
  assert (0 <= req <= SSIZE_MAX) as Hreq by (subst req; dlia).
  rewrite (wrapu_small 64 req) by zlia. rewrite Z.gtb_ltb.
  replace (SSIZE_MAX <? req) with false by (breflect; lia).
  rewrite bind_ret, wrapu_small by zlia.
  destruct (Z.ltb_spec (blen mid) req).
  { exists (- ENOMEM), mid. split_and!; [done|done|zlia]. }
  rewrite Hd. rewrite <- (take_drop (Z.to_nat (blen cs)) mid), <- app_assoc.
  rewrite puts_spec by (rewrite blen_take; lia). rewrite !bind_ret.
  exists (if r <? 0 then r else blen cs), (cs ++ drop (Z.to_nat (blen cs)) mid).
  rewrite <- app_assoc. split_and!.
  - destruct (r <? 0); [done|]. f_equal. f_equal. lia.
  - rewrite !blen_app, blen_take, blen_drop. lia.
  - rewrite blen_app, blen_take, blen_drop. breflect; lia.
Qed.

(** The announced length is wrong for other inputs: "AAAA====" announces
    two bytes and stores four. *)
Lemma base64_decode_overrun :
  let _ := gcc5 in
  sol_util_base64_calculate_decoded_len [65;65;65;65;61;61;61;61] SOL_BASE64_MAP = Ret 2
  /\ sol_util_base64_decode [0; 0] 0 2 [65;65;65;65;61;61;61;61] SOL_BASE64_MAP = UB.
Proof. split; reflexivity. Qed.

Lemma SOL_BASE64_MAP_ok : map_ok SOL_BASE64_MAP.
Proof. split; [done|]. apply (bool_decide_unpack _). by vm_compute. Qed.
(** Base64 encoding followed by decoding gives the data back: the encoder
    announces and fills exactly [b64_len] characters of its destination, the
    decoder announces exactly the original length and restores the original
    bytes, and neither touches memory around its destination.  This holds for
    every map of 65 distinct characters, every byte string whose encoding has
    a representable length, and with every configuration of the overflow
    helpers. *)
Theorem base64_roundtrip `{BuildConfig} map bs pre text data post :
  map_ok map -> Forall is_byte bs -> small (blen bs) ->
  blen text = b64_len (blen bs) -> blen data = blen bs ->
  sol_util_base64_calculate_encoded_len bs = Ret (blen text)
  /\ exists enc,
     sol_util_base64_encode (pre ++ text ++ post) (blen pre) (blen text) bs map
       = Ret (blen text, pre ++ enc ++ post)
     /\ sol_util_base64_calculate_decoded_len enc map = Ret (blen bs)
     /\ sol_util_base64_decode (pre ++ data ++ post) (blen pre) (blen data) enc map
        = Ret (blen bs, pre ++ bs ++ post).
Proof.
  intros Hm Hb Hs Ht Hd. split; [rewrite Ht; by apply encoded_len_spec|].
  exists (b64 map bs). split_and!.
  - rewrite base64_encode_spec by done. by rewrite Ht.
  - by apply decoded_len_spec.
  - by apply base64_decode_spec.
Qed.

Lemma base64_roundtrip_witness :
  sol_util_base64_calculate_encoded_len (H := gcc5) [77; 97; 110; 33] = Ret 8.
Proof.
  apply (base64_roundtrip (H := gcc5) SOL_BASE64_MAP [77; 97; 110; 33] [1] [0;0;0;0;0;0;0;0] [0;0;0;0] [2]).
  - exact SOL_BASE64_MAP_ok.
  - apply (bool_decide_unpack _). by vm_compute.
  - unfold small. vm_compute. split; discriminate.
  - reflexivity.
  - reflexivity.
Defined.

End Base64.

(** ** Base 16 *)

Module Base16.

Inductive sol_decode_case := SOL_DECODE_BOTH | SOL_DECODE_UPPERCASE | SOL_DECODE_LOWERCASE.

#[export] Instance decode_case_eq_dec : EqDecision sol_decode_case.
Proof. solve_decision. Defined.

(** Characters: 48 is '0', 57 '9', 65 'A', 97 'a'. *)
Definition base16_encode_digit (nibble a : Z) : Z :=
  if nibble <? 10 then wrapu 8 (48 + nibble) else wrapu 8 (a + (nibble - 10)).

Definition base16_decode_digit (digit a f A F : Z) : Z :=
  if (48 <=? digit) && (digit <=? 57) then digit - 48
  else if (a <=? digit) && (digit <=? f) then 10 + (digit - a)
  else if negb (A =? a) && (A <=? digit) && (digit <=? F) then 10 + (digit - A)
  else UINT8_MAX.

(** The loops over the input; both nibbles of a byte are unrolled. *)
Fixpoint encode_loop16 (a : Z) (st : block * Z) (input : list Z) : outcome (block * Z) :=
  match input with
  | b :: rest =>
      st ← put st (base16_encode_digit (Z.shiftr (Z.land b 240) 4) a);
      st ← put st (base16_encode_digit (Z.land b 15) a);
      encode_loop16 a st rest
  | [] => Ret st
  end.

Fixpoint decode_loop16 (a f A F : Z) (st : block * Z) (input : list Z)
    : outcome (Z * (block * Z)) :=
  match input with
  | c0 :: c1 :: rest =>
      let n0 := base16_decode_digit c0 a f A F in
      if n0 =? UINT8_MAX then Ret (- EINVAL, st)
      else
        let b := wrapu 8 (Z.lor 0 (Z.shiftl n0 4)) in
        let n1 := base16_decode_digit c1 a f A F in
        if n1 =? UINT8_MAX then Ret (- EINVAL, st)
        else
          st ← put st (wrapu 8 (Z.lor b n1));
          decode_loop16 a f A F st rest
  | [] => Ret (0, st)
  | _ => Ret (- EINVAL, st)
  end.

Section Ops.
Context `{BuildConfig}.

Definition sol_util_base16_calculate_encoded_len (slice : list Z) : outcome Z :=
  '(err, req_len) ← sol_util_ssize_mul (blen slice) 2 0;
  if err <? 0 then Ret err else Ret req_len.

Definition sol_util_base16_calculate_decoded_len (slice : list Z) : Z := blen slice / 2.

Definition sol_util_base16_encode (m : block) (off buflen : Z) (slice : list Z)
    (uppercase : bool) : outcome (Z * block) :=
  if blen slice =? 0 then Ret (0, m)
  else
    req ← sol_util_base16_calculate_encoded_len slice;
    let req_len := wrapu 64 req in
    if buflen <? req_len then Ret (- ENOMEM, m)
    else
      let a := if uppercase then 65 else 97 in
      '(m, o) ← encode_loop16 a (m, off) slice;
      Ret (o - off, m).

Definition sol_util_base16_decode (m : block) (off buflen : Z) (slice : list Z)
    (decode_case : sol_decode_case) : outcome (Z * block) :=
  if blen slice =? 0 then Ret (0, m)
  else
    let req_len := wrapu 64 (sol_util_base16_calculate_decoded_len slice) in
    if buflen <? req_len then Ret (- ENOMEM, m)
    else
      let a := match decode_case with SOL_DECODE_UPPERCASE => 65 | _ => 97 end in
      let f := a + 5 in
      let A := match decode_case with SOL_DECODE_BOTH => 65 | _ => a end in
      let F := A + 5 in
      '(r, (m, o)) ← decode_loop16 a f A F (m, off) slice;
      if r <? 0 then Ret (r, m) else Ret (o - off, m).
End Ops.

(** *** Reference *)

(** The letter [a] and the letters a decoder accepts. *)
Definition letter (uppercase : bool) : Z := if uppercase then 65 else 97.

Definition hex_char (uppercase : bool) (n : Z) : Z :=
  if n <? 10 then 48 + n else letter uppercase + (n - 10).

Fixpoint b16 (uppercase : bool) (bs : list Z) : list Z :=
  match bs with
  | [] => []
  | b :: bs => hex_char uppercase (b / 16) :: hex_char uppercase (b mod 16) :: b16 uppercase bs
  end.

(** The letters a decode case admits *)
Definition admits_lower (dc : sol_decode_case) : bool :=
  match dc with SOL_DECODE_UPPERCASE => false | _ => true end.
Definition admits_upper (dc : sol_decode_case) : bool :=
  match dc with SOL_DECODE_LOWERCASE => false | _ => true end.

(** The value of a hexadecimal character under a decode case. *)
Definition hex_value (dc : sol_decode_case) (c : Z) : option Z :=
  if (48 <=? c) && (c <=? 57) then Some (c - 48)
  else if admits_lower dc && (97 <=? c) && (c <=? 102) then Some (c - 87)
  else if admits_upper dc && (65 <=? c) && (c <=? 70) then Some (c - 55)
  else None.

Fixpoint unhex (dc : sol_decode_case) (cs : list Z) : option (list Z) :=
  match cs with
  | [] => Some []
  | c0 :: c1 :: rest =>
      h ← hex_value dc c0; l ← hex_value dc c1; bs ← unhex dc rest; Some (16 * h + l :: bs)
  | _ => None
  end.

(** A decode case that reads what the encoder wrote *)
Definition reads (dc : sol_decode_case) (uppercase : bool) : Prop :=
  match dc with
  | SOL_DECODE_BOTH => True
  | SOL_DECODE_UPPERCASE => uppercase = true
  | SOL_DECODE_LOWERCASE => uppercase = false
  end.


Lemma list_ind2 {A} (P : list A -> Prop) :
  P [] -> (forall a, P [a]) -> (forall a b l, P l -> P (a :: b :: l)) -> forall l, P l.
Proof.
  intros H0 H1 H2 l. enough (P l /\ (forall a, P (a :: l))) by tauto.
  induction l as [|x l [IH0 IH1]]; auto.
Qed.

Lemma nibble_arith b u :
  is_byte b ->
  base16_encode_digit (Z.shiftr (Z.land b 240) 4) (letter u) = hex_char u (b / 16)
  /\ base16_encode_digit (Z.land b 15) (letter u) = hex_char u (b mod 16).
Proof.
  intros Hb.
  set (f u b := (base16_encode_digit (Z.shiftr (Z.land b 240) 4) (letter u) =? hex_char u (b / 16))
    && (base16_encode_digit (Z.land b 15) (letter u) =? hex_char u (b mod 16))).
  enough (f u b = true) as (?%Z.eqb_eq & ?%Z.eqb_eq)%andb_true_iff by done.
  apply (range_forall 256 (f u)); [destruct u; vm_compute; reflexivity | unfold is_byte in Hb; lia].
Qed.

(** What the decoder computes for a character, for every decode case. *)
Definition case_a (dc : sol_decode_case) : Z :=
  match dc with SOL_DECODE_UPPERCASE => 65 | _ => 97 end.
Definition case_A (dc : sol_decode_case) : Z :=
  match dc with SOL_DECODE_BOTH => 65 | _ => case_a dc end.

Lemma decode_digit_spec dc c :
  base16_decode_digit c (case_a dc) (case_a dc + 5) (case_A dc) (case_A dc + 5)
  = default UINT8_MAX (hex_value dc c).
Proof.
  unfold base16_decode_digit, hex_value.
  destruct dc; cbn [case_a case_A admits_lower admits_upper]; breflect;
    cbn [default from_option]; unfold id; zlia.
Qed.

Lemma hex_value_range dc c v : hex_value dc c = Some v -> 0 <= v < 16.
Proof.
  unfold hex_value. destruct dc; cbn [admits_lower admits_upper]; breflect;
    intros [= <-] || done; lia.
Qed.

Lemma hex_value_char dc u n :
  reads dc u -> 0 <= n < 16 -> hex_value dc (hex_char u n) = Some n.
Proof.
  intros Hr Hn. unfold hex_value, hex_char, letter.
  destruct dc, u; cbn [reads] in Hr; try done; cbn [admits_lower admits_upper];
    destruct (Z.ltb_spec n 10); breflect; f_equal; lia.
Qed.

Lemma unhex_b16 dc u bs :
  reads dc u -> Forall is_byte bs -> unhex dc (b16 u bs) = Some bs.
Proof.
  intros Hr. induction 1 as [|b bs Hb _ IH]; [done|]. unfold is_byte in Hb. cbn [b16 unhex].
  rewrite !hex_value_char by (done || dlia). cbn [mbind option_bind]. rewrite IH.
  cbn [mbind option_bind]. f_equal. f_equal. dlia.
Qed.

Lemma blen_b16 u bs : blen (b16 u bs) = 2 * blen bs.
Proof. induction bs as [|b bs IH]; [done|]. cbn [b16]. rewrite !blen_cons, IH. lia. Qed.

Lemma encode_loop16_puts u st bs :
  Forall is_byte bs -> encode_loop16 (letter u) st bs = puts st (b16 u bs).
Proof.
  intros Hb. revert st. induction Hb as [|b bs Hb _ IH]; intros st; [done|].
  cbn [encode_loop16 b16 puts]. destruct (nibble_arith b u Hb) as [-> ->].
  destruct (put st _) as [st1|]; [|done]. rewrite !bind_ret.
  destruct (put st1 _) as [st2|]; [|done]. rewrite !bind_ret. apply IH.
Qed.

Lemma byte_of_nibbles h l :
  0 <= h < 16 -> 0 <= l < 16 ->
  wrapu 8 (Z.lor (wrapu 8 (Z.lor 0 (Z.shiftl h 4))) l) = 16 * h + l.
Proof.
  intros Hh Hl. apply Z.eqb_eq.
  by apply (range_forall2 16 16
    (fun h l => wrapu 8 (Z.lor (wrapu 8 (Z.lor 0 (Z.shiftl h 4))) l) =? 16 * h + l)).
Qed.

(** The decoder writes the bytes of the longest valid prefix; it fails
    exactly when the text is not a sequence of digit pairs. *)
Lemma decode_loop16_puts dc st cs :
  exists bs, decode_loop16 (case_a dc) (case_a dc + 5) (case_A dc) (case_A dc + 5) st cs
    = (st ← puts st bs; Ret (if unhex dc cs is Some _ then 0 else - EINVAL, st))
    /\ blen bs <= blen cs / 2
    /\ (forall bs', unhex dc cs = Some bs' -> bs' = bs /\ blen bs = blen cs / 2).
Proof.
  revert st. induction cs as [|c|c0 c1 rest IH] using list_ind2; intros st.
  - exists []. split_and!; [done|done|]. intros ? [= <-]. done.
  - exists []. split_and!; [done|done|done].
  - cbn [decode_loop16 unhex]. rewrite !decode_digit_spec, !blen_cons.
    replace ((1 + (1 + blen rest)) / 2) with (1 + blen rest / 2) by dlia.
    pose proof (blen_nonneg rest).
    destruct (hex_value dc c0) as [h|] eqn:Hh; cbn [default from_option id mbind option_bind].
    2: { exists []. split_and!; [done| |done]. change (blen []) with 0. dlia. }
    apply hex_value_range in Hh. rewrite (proj2 (Z.eqb_neq h UINT8_MAX)) by zlia.
    destruct (hex_value dc c1) as [l|] eqn:Hl; cbn [default from_option id mbind option_bind].
    2: { exists []. split_and!; [done| |done]. change (blen []) with 0. dlia. }
    apply hex_value_range in Hl. rewrite (proj2 (Z.eqb_neq l UINT8_MAX)) by zlia.
    rewrite byte_of_nibbles by done.
    destruct (put st (16 * h + l)) as [st1|] eqn:Hp.
    + destruct (IH st1) as (bs & Heq & Hle & Hok). exists (16 * h + l :: bs). split_and!.
      * rewrite bind_ret, Heq. cbn [puts]. rewrite Hp, bind_ret.
        destruct (unhex dc rest); done.
      * rewrite blen_cons. lia.
      * destruct (unhex dc rest) as [bs'|] eqn:Hu; [|done]. intros ? [= <-].
        destruct (Hok bs' eq_refl) as [-> ?]. rewrite blen_cons. split; [done|lia].
    + destruct (IH st) as (bs & _ & Hle & Hok). exists (16 * h + l :: bs). split_and!.
      * cbn [puts]. by rewrite Hp.
      * rewrite blen_cons. lia.
      * destruct (unhex dc rest) as [bs'|] eqn:Hu; [|done]. intros ? [= <-].
        destruct (Hok bs' eq_refl) as [-> ?]. rewrite blen_cons. split; [done|lia].
Qed.

Lemma encoded_len16_spec `{BuildConfig} bs :
  2 * blen bs <= SSIZE_MAX -> sol_util_base16_calculate_encoded_len bs = Ret (2 * blen bs).
Proof.
  intros Hs. unfold sol_util_base16_calculate_encoded_len. pose proof (blen_nonneg bs).
  destruct (ssize_mul_checked (blen bs) 2 0) as (r & -> & Hin & _);
    [unfold is_int64; zlia|done|].
  rewrite Hin by zlia. rewrite bind_ret. cbn [Z.ltb Z.compare]. f_equal. lia.
Qed.

Lemma base16_encode_spec `{BuildConfig} u bs pre mid post :
  Forall is_byte bs -> 2 * blen bs <= SSIZE_MAX -> blen mid = 2 * blen bs ->
  sol_util_base16_encode (pre ++ mid ++ post) (blen pre) (blen mid) bs u
  = Ret (2 * blen bs, pre ++ b16 u bs ++ post).
Proof.
  intros Hb Hs Hmid. unfold sol_util_base16_encode.
  destruct (Z.eqb_spec (blen bs) 0) as [Hz|Hz].
  { rewrite Hz in *. apply blen_zero_nil in Hz, Hmid. by subst. }
  rewrite encoded_len16_spec by done. rewrite bind_ret. pose proof (blen_nonneg bs).
  rewrite wrapu_small by zlia. bknown. rewrite (encode_loop16_puts u) by done.
  rewrite puts_spec by (by rewrite blen_b16). rewrite bind_ret, blen_b16.
  f_equal. f_equal. lia.
Qed.

(** Decoding into a region of at least the announced length. *)
Lemma base16_decode_spec dc cs pre mid post :
  blen cs <= SSIZE_MAX -> blen cs / 2 <= blen mid ->
  exists bs,
    sol_util_base16_decode (pre ++ mid ++ post) (blen pre) (blen mid) cs dc
    = Ret (if unhex dc cs is Some _ then blen bs else - EINVAL,
           pre ++ bs ++ drop (length bs) mid ++ post)
    /\ blen bs <= blen mid
    /\ (forall bs', unhex dc cs = Some bs' -> bs' = bs /\ blen bs = blen cs / 2).
Proof.
  intros Hmax Hmid. unfold sol_util_base16_decode. pose proof (blen_nonneg cs).
  destruct (Z.eqb_spec (blen cs) 0) as [Hz|Hz].
  { apply blen_zero_nil in Hz as ->. exists []. split_and!; [done|apply blen_nonneg|].
    intros ? [= <-]. done. }
  unfold sol_util_base16_calculate_decoded_len. rewrite wrapu_small by dlia.
  replace (blen mid <? blen cs / 2) with false by (breflect; lia).
  destruct (decode_loop16_puts dc (pre ++ mid ++ post, blen pre) cs) as (bs & Heq & Hle & Hok).
  change (match dc with SOL_DECODE_UPPERCASE => 65 | _ => 97 end) with (case_a dc).
  change (match dc with SOL_DECODE_BOTH => 65 | _ => case_a dc end) with (case_A dc).
  cbv zeta. rewrite Heq. exists bs.
  rewrite <- (take_drop (length bs) mid) at 1. rewrite <- app_assoc.
  rewrite puts_spec by (rewrite blen_take; unfold blen in *; lia). rewrite !bind_ret.
  split_and!; [|lia|done].
  destruct (unhex dc cs); [|done].
  replace (0 <? 0) with false by done. f_equal. f_equal. lia.
Qed.

(** Base16 encoding writes exactly two characters per byte, and every
    decode case that admits the letters of the encoder restores the bytes. *)
Theorem base16_roundtrip `{BuildConfig} u dc bs pre text data post :
  reads dc u -> Forall is_byte bs -> 2 * blen bs <= SSIZE_MAX ->
  blen text = 2 * blen bs -> blen data = blen bs ->
  sol_util_base16_calculate_encoded_len bs = Ret (blen text)
  /\ exists enc,
     sol_util_base16_encode (pre ++ text ++ post) (blen pre) (blen text) bs u
       = Ret (blen text, pre ++ enc ++ post)
     /\ sol_util_base16_calculate_decoded_len enc = blen bs
     /\ sol_util_base16_decode (pre ++ data ++ post) (blen pre) (blen data) enc dc
        = Ret (blen bs, pre ++ bs ++ post).
Proof.
  intros Hr Hb Hs Ht Hd. split; [rewrite Ht; by apply encoded_len16_spec|].
  exists (b16 u bs). split_and!.
  - rewrite base16_encode_spec by done. by rewrite Ht.
  - unfold sol_util_base16_calculate_decoded_len. rewrite blen_b16. dlia.
  - destruct (base16_decode_spec dc (b16 u bs) pre data post) as (bs' & -> & _ & Hok);
      [rewrite blen_b16; lia|rewrite blen_b16; dlia|].
    rewrite unhex_b16 by done. destruct (Hok bs (unhex_b16 _ _ _ Hr Hb)) as [-> _].
    rewrite drop_ge; [done|]. unfold blen in Hd. lia.
Qed.

Lemma base16_roundtrip_witness :
  sol_util_base16_calculate_encoded_len (H := portable) [222; 173] = Ret 4.
Proof.
  apply (base16_roundtrip (H := portable) true SOL_DECODE_BOTH [222; 173] [1] [0;0;0;0] [0;0] [2]).
  - exact I.
  - apply (bool_decide_unpack _). by vm_compute.
  - vm_compute. discriminate.
  - reflexivity.
  - reflexivity.
Defined.

(** On any text, base16 decoding stays inside its destination: a
    destination shorter than half the text is refused with [-ENOMEM] and left
    alone; otherwise decoding succeeds exactly when the text is a sequence of
    pairs of digits that the decode case admits, and then stores the value of
    each pair; on other texts it returns [-EINVAL] and what it stored fits the
    destination. *)
Theorem base16_decode_total dc cs pre mid post :
  blen cs <= SSIZE_MAX ->
  (blen mid < blen cs / 2 ->
   sol_util_base16_decode (pre ++ mid ++ post) (blen pre) (blen mid) cs dc
   = Ret (- ENOMEM, pre ++ mid ++ post))
  /\ (blen cs / 2 <= blen mid ->
   exists bs,
    sol_util_base16_decode (pre ++ mid ++ post) (blen pre) (blen mid) cs dc
    = Ret (if unhex dc cs is Some _ then blen bs else - EINVAL,
           pre ++ bs ++ drop (length bs) mid ++ post)
    /\ blen bs <= blen mid
    /\ (forall bs', unhex dc cs = Some bs' -> bs' = bs /\ blen bs = blen cs / 2)).
Proof.
  intros Hmax. split; intros Hmid; [|by apply base16_decode_spec].
  unfold sol_util_base16_decode, sol_util_base16_calculate_decoded_len.
  pose proof (blen_nonneg mid). pose proof (blen_nonneg cs).
  destruct (Z.eqb_spec (blen cs) 0) as [Hz|Hz]; [rewrite Hz in Hmid; change (0 / 2) with 0 in Hmid; lia|].
  rewrite wrapu_small by dlia. by replace (blen mid <? blen cs / 2) with true by (breflect; lia).
Qed.

Lemma base16_decode_total_witness :
  sol_util_base16_decode ([7] ++ [0] ++ [9]) 1 1 [52; 103; 65; 65] SOL_DECODE_BOTH
  = Ret (- ENOMEM, [7; 0; 9]).
Proof.
  apply (base16_decode_total SOL_DECODE_BOTH [52; 103; 65; 65] [7] [0] [9]); vm_compute;
    [discriminate | reflexivity].
Defined.
End Base16.

(** ** UTF-8 *)

Module Utf8.

(** The last two bytes of the forms of three and four bytes *)
Definition middle_byte (code : Z) : Z :=
  Z.lor (Z.lor 128 (Z.shiftr (Z.land code 3840) 6)) (Z.shiftr (Z.land code 192) 6).
Definition last_byte (code : Z) : Z := Z.lor 128 (Z.land code 63).

Definition sol_util_utf8_from_unicode_code (m : block) (off buf_len unicode_code : Z)
    : outcome (Z * block) :=
  if buf_len =? 0 then Ret (- EINVAL, m)
  else if unicode_code >? 1114111 then Ret (- EINVAL, m)
  else if unicode_code <? 128 then
    '(m, o) ← put (m, off) (wrapu 8 (Z.land unicode_code 255));
    Ret (o - off, m)
  else if unicode_code >=? 2048 then
    if unicode_code >? 65535 then
      if buf_len <? 4 then Ret (- EINVAL, m)
      else
        st ← put (m, off) 240;
        st ← put st 144;
        st ← put st (wrapu 8 (middle_byte unicode_code));
        '(m, o) ← put st (wrapu 8 (last_byte unicode_code));
        Ret (o - off, m)
    else if buf_len <? 3 then Ret (- EINVAL, m)
    else
      st ← put (m, off) (wrapu 8 (Z.lor 224 (Z.shiftr (Z.land unicode_code 61440) 12)));
      st ← put st (wrapu 8 (middle_byte unicode_code));
      '(m, o) ← put st (wrapu 8 (last_byte unicode_code));
      Ret (o - off, m)
  else if buf_len <? 2 then Ret (- EINVAL, m)
  else
    st ← put (m, off)
      (wrapu 8 (Z.lor (Z.lor 192 (Z.shiftr (Z.land unicode_code 1792) 6))
                      (Z.shiftr (Z.land 192 unicode_code) 6)));
    '(m, o) ← put st (wrapu 8 (last_byte unicode_code));
    Ret (o - off, m).

Definition valid_utf8_byte (byte : Z) : bool := Z.land byte 192 =? 128.

(** [buf[i]]; [buf] is the memory from the pointer on. *)
Definition byte_at (buf : block) (i : Z) : outcome Z :=
  match buf !! Z.to_nat i with Some x => Ret x | None => UB end.

(** The result and [*bytes_read] when it is set *)
Definition sol_util_unicode_code_from_utf8 (buf : block) (buf_len : Z)
    : outcome (Z * option Z) :=
  if buf_len =? 0 then Ret (- EINVAL, None)
  else
    b0 ← byte_at buf 0;
    if b0 <? 128 then Ret (b0, Some 1)
    else if b0 <? 224 then
      if buf_len <? 2 then Ret (- EINVAL, None)
      else
        b1 ← byte_at buf 1;
        if negb (valid_utf8_byte b1) then Ret (- EINVAL, None)
        else Ret (Z.lor (Z.shiftl (Z.land b0 31) 6) (Z.land b1 63), Some 2)
    else if b0 <? 240 then
      if buf_len <? 3 then Ret (- EINVAL, None)
      else
        b1 ← byte_at buf 1;
        if negb (valid_utf8_byte b1) then Ret (- EINVAL, None)
        else
          b2 ← byte_at buf 2;
          if negb (valid_utf8_byte b2) then Ret (- EINVAL, None)
          else Ret (Z.lor (Z.lor (Z.shiftl (Z.land b0 15) 12) (Z.shiftl (Z.land b1 63) 6))
                          (Z.land b2 63), Some 3)
    else if b0 =? 240 then
      b1 ← byte_at buf 1;
      if b1 =? 144 then
        if buf_len <? 4 then Ret (- EINVAL, None)
        else
          b2 ← byte_at buf 2;
          if negb (valid_utf8_byte b2) then Ret (- EINVAL, None)
          else
            b3 ← byte_at buf 3;
            if negb (valid_utf8_byte b3) then Ret (- EINVAL, None)
            else Ret (Z.lor (Z.lor 65536 (Z.shiftl (Z.land b2 63) 6)) (Z.land b3 63), Some 4)
      else Ret (- EINVAL, None)
    else Ret (- EINVAL, None).

(** *** Reference *)

(** The bytes the encoder stands for.  The form of four bytes keeps only the
    low twelve bits of the code. *)
Definition utf8 (code : Z) : list Z :=
  if code <? 128 then [code]
  else if code <? 2048 then [192 + code / 64; 128 + code mod 64]
  else if code <? 65536 then
    [224 + code / 4096; 128 + code / 64 mod 64; 128 + code mod 64]
  else [240; 144; 128 + code / 64 mod 64; 128 + code mod 64].

(** The code a reader gets back. *)
Definition survives (code : Z) : Z :=
  if code <? 65536 then code else 65536 + code mod 4096.

Lemma land_low c m k : 0 <= k -> Z.land (Z.ones k) m = m -> Z.land c m = Z.land (c mod 2 ^ k) m.
Proof. intros Hk Hm. rewrite <- Z.land_ones by done. by rewrite <- Z.land_assoc, Hm. Qed.

Lemma continuation_bytes code :
  wrapu 8 (middle_byte code) = 128 + code / 64 mod 64
  /\ wrapu 8 (last_byte code) = 128 + code mod 64.
Proof.
  unfold middle_byte, last_byte.
  rewrite (land_low code 3840 12), (land_low code 192 12), (land_low code 63 12) by done.
  replace (code / 64 mod 64) with (code mod 2 ^ 12 / 64) by dlia.
  replace (code mod 64) with (code mod 2 ^ 12 mod 64) by dlia.
  assert (0 <= code mod 2 ^ 12 < 4096) as Hc by (apply Z.mod_pos_bound; lia).
  generalize dependent (code mod 2 ^ 12). intros c Hc.
  set (f c := (wrapu 8 (middle_byte c) =? 128 + c / 64)
              && (wrapu 8 (last_byte c) =? 128 + c mod 64)).
  enough (f c = true) as (?%Z.eqb_eq & ?%Z.eqb_eq)%andb_true_iff by done.
  apply (range_forall 4096 f); [vm_compute; reflexivity | done].
Qed.

Lemma lead_bytes code :
  0 <= code < 65536 ->
  (code < 128 -> wrapu 8 (Z.land code 255) = code)
  /\ (code < 2048 -> wrapu 8 (Z.lor (Z.lor 192 (Z.shiftr (Z.land code 1792) 6))
        (Z.shiftr (Z.land 192 code) 6)) = 192 + code / 64)
  /\ wrapu 8 (Z.lor 224 (Z.shiftr (Z.land code 61440) 12)) = 224 + code / 4096.
Proof.
  intros Hc.
  set (f c := (wrapu 8 (Z.lor 224 (Z.land c 15)) =? 224 + c)).
  set (g c := (wrapu 8 (Z.lor (Z.lor 192 (Z.shiftr (Z.land c 1792) 6))
        (Z.shiftr (Z.land 192 c) 6)) =? 192 + c / 64)).
  assert (wrapu 8 (Z.lor 224 (Z.shiftr (Z.land code 61440) 12)) = 224 + code / 4096).
  { rewrite Z.shiftr_land, (Z.shiftr_div_pow2 code) by done. apply Z.eqb_eq.
    apply (range_forall 16 f); [vm_compute; reflexivity | dlia]. }
  split_and!; [|intros|done].
  - intros. change 255 with (Z.ones 8). rewrite Z.land_ones by done.
    unfold wrapu. rewrite !Z.mod_small; [done|lia|rewrite Z.mod_small; lia].
  - apply Z.eqb_eq. apply (range_forall 2048 g); [vm_compute; reflexivity | lia].
Qed.

Lemma blen_utf8 code : 1 <= blen (utf8 code) <= 4.
Proof. unfold utf8. breflect; vm_compute; split; discriminate. Qed.

Lemma puts_step st c cs (f : block * Z -> outcome (Z * block)) :
  (st' ← puts st (c :: cs); f st') = (st' ← put st c; st'' ← puts st' cs; f st'').
Proof. cbn [puts]. by destruct (put st c). Qed.

Lemma utf8_from_code_spec code pre mid post :
  0 <= code <= 1114111 ->
  sol_util_utf8_from_unicode_code (pre ++ mid ++ post) (blen pre) (blen mid) code
  = if blen mid <? blen (utf8 code) then Ret (- EINVAL, pre ++ mid ++ post)
    else Ret (blen (utf8 code),
              pre ++ utf8 code ++ drop (length (utf8 code)) mid ++ post).
Proof.
  intros Hc. unfold sol_util_utf8_from_unicode_code. pose proof (blen_nonneg mid).
  destruct (continuation_bytes code) as [Hmid Hlast].
  assert (Hput : forall o, (blen mid <? blen (utf8 code)) = false ->
    o = blen (utf8 code) ->
    ('(m, o') ← puts (pre ++ mid ++ post, blen pre) (utf8 code); Ret (o' - blen pre, m))
    = Ret (o, pre ++ utf8 code ++ drop (length (utf8 code)) mid ++ post)).
  { intros o Hb%Z.ltb_ge ->. rewrite <- (take_drop (length (utf8 code)) mid) at 1.
    rewrite <- app_assoc. rewrite puts_spec by (rewrite blen_take; unfold blen in *; lia).
    rewrite bind_ret. f_equal. f_equal. lia. }
  destruct (Z.eqb_spec (blen mid) 0) as [Hz|Hz].
  { pose proof (blen_utf8 code). by replace (blen mid <? blen (utf8 code)) with true by (breflect; lia). }
  replace (code >? 1114111) with false by (breflect; lia).
  revert Hput. unfold utf8.
  destruct (Z.ltb_spec code 128).
  { intros Hput. rewrite (proj1 (lead_bytes code ltac:(lia))) by done.
    change (blen [code]) with 1 in *.
    replace (blen mid <? 1) with false in * by (breflect; lia). rewrite <- Hput by done.
    rewrite <- puts_one. by destruct (puts _ _) as [[]|]. }
  rewrite Z.geb_leb, Z.gtb_ltb.
  destruct (Z.ltb_spec code 2048).
  { replace (2048 <=? code) with false by (breflect; lia). intros Hput.
    change (blen [_; _]) with 2 in *. destruct (Z.ltb_spec (blen mid) 2); [done|].
    rewrite <- Hput by done. rewrite (proj1 (proj2 (lead_bytes code ltac:(lia)))) by done.
    rewrite Hlast. rewrite puts_step. destruct (put _ _) as [st|]; [|done].
    rewrite !bind_ret, <- puts_one. by destruct (puts _ _) as [[]|]. }
  replace (2048 <=? code) with true by (breflect; lia).
  destruct (Z.ltb_spec code 65536).
  - replace (65535 <? code) with false by (breflect; lia). intros Hput.
    change (blen [_; _; _]) with 3 in *. destruct (Z.ltb_spec (blen mid) 3); [done|].
    rewrite <- Hput by done. rewrite (proj2 (proj2 (lead_bytes code ltac:(lia)))).
    rewrite Hlast, Hmid. rewrite puts_step. destruct (put _ _) as [st|]; [|done].
    rewrite !bind_ret, puts_step. destruct (put _ _) as [st1|]; [|done].
    rewrite !bind_ret, <- puts_one. by destruct (puts _ _) as [[]|].
  - replace (65535 <? code) with true by (breflect; lia). intros Hput.
    change (blen [_; _; _; _]) with 4 in *. destruct (Z.ltb_spec (blen mid) 4); [done|].
    rewrite <- Hput by done. rewrite Hlast, Hmid.
    rewrite puts_step. destruct (put _ _) as [st|]; [|done].
    rewrite !bind_ret, puts_step. destruct (put _ _) as [st1|]; [|done].
    rewrite !bind_ret, puts_step. destruct (put _ _) as [st2|]; [|done].
    rewrite !bind_ret, <- puts_one. by destruct (puts _ _) as [[]|].
Qed.

(** The first four bytes of a block *)
Lemma byte_at_0 a l : byte_at (a :: l) 0 = Ret a.
Proof. done. Qed.
Lemma byte_at_1 a b l : byte_at (a :: b :: l) 1 = Ret b.
Proof. done. Qed.
Lemma byte_at_2 a b c l : byte_at (a :: b :: c :: l) 2 = Ret c.
Proof. done. Qed.
Lemma byte_at_3 a b c d l : byte_at (a :: b :: c :: d :: l) 3 = Ret d.
Proof. done. Qed.

Create Rewrite HintDb bytes.
#[export] Hint Rewrite byte_at_0 byte_at_1 byte_at_2 byte_at_3 @bind_ret : bytes.

Lemma valid_continuation n : 0 <= n < 64 ->
  valid_utf8_byte (128 + n) = true /\ Z.land (128 + n) 63 = n.
Proof.
  intros Hn.
  set (f n := valid_utf8_byte (128 + n) && (Z.land (128 + n) 63 =? n)).
  enough (f n = true) as (? & ?%Z.eqb_eq)%andb_true_iff by done.
  apply (range_forall 64 f); [vm_compute; reflexivity | done].
Qed.

Lemma shifted_disjoint a b k : 0 <= k -> 0 <= b < 2 ^ k -> Z.land (Z.shiftl a k) b = 0.
Proof.
  intros Hk Hb. apply Z.bits_inj'. intros i Hi. rewrite Z.land_spec, Z.bits_0.
  destruct (Z.ltb_spec i k); [by rewrite Z.shiftl_spec_low|].
  rewrite <- (Z.mod_small b (2 ^ k)), Z.mod_pow2_bits_high by lia. apply andb_false_r.
Qed.

Lemma low_bits a b k : 0 <= k -> 0 <= b < 2 ^ k -> Z.lor (Z.shiftl a k) b = a * 2 ^ k + b.
Proof.
  intros Hk Hb. rewrite <- Z.shiftl_mul_pow2 by done.
  pose proof (shifted_disjoint a b k Hk Hb).
  rewrite <- Z.lxor_lor by done. symmetry. by apply Z.add_nocarry_lxor.
Qed.

Lemma lead_two n : 0 <= n < 32 -> Z.land (192 + n) 31 = n.
Proof.
  intros Hn. apply Z.eqb_eq.
  apply (range_forall 32 (fun n => Z.land (192 + n) 31 =? n)); [vm_compute; reflexivity | done].
Qed.
Lemma lead_three n : 0 <= n < 16 -> Z.land (224 + n) 15 = n.
Proof.
  intros Hn. apply Z.eqb_eq.
  apply (range_forall 16 (fun n => Z.land (224 + n) 15 =? n)); [vm_compute; reflexivity | done].
Qed.

Lemma three_groups a b c : 0 <= b < 64 -> 0 <= c < 64 ->
  Z.lor (Z.lor (Z.shiftl a 12) (Z.shiftl b 6)) c = a * 4096 + b * 64 + c.
Proof.
  intros Hb Hc. replace (Z.shiftl b 6) with (b * 64) by (rewrite Z.shiftl_mul_pow2 by lia; lia).
  rewrite (low_bits a (b * 64) 12) by lia.
  replace (a * 2 ^ 12 + b * 64) with (Z.shiftl (a * 64 + b) 6)
    by (rewrite Z.shiftl_mul_pow2 by lia; lia).
  rewrite low_bits by lia. lia.
Qed.

Lemma code_from_utf8_spec code rest :
  0 <= code <= 1114111 ->
  sol_util_unicode_code_from_utf8 (utf8 code ++ rest) (blen (utf8 code ++ rest))
  = Ret (survives code, Some (blen (utf8 code))).
Proof.
  intros Hc. unfold sol_util_unicode_code_from_utf8, survives.
  pose proof (blen_nonneg rest). rewrite blen_app.
  replace (blen (utf8 code) + blen rest =? 0) with false
    by (pose proof (blen_utf8 code); breflect; lia).
  unfold utf8.
  destruct (Z.ltb_spec code 128).
  { replace (code <? 65536) with true by (breflect; lia).
    cbn [app]. autorewrite with bytes.
    by replace (code <? 128) with true by (breflect; lia). }
  destruct (Z.ltb_spec code 2048).
  { replace (code <? 65536) with true by (breflect; lia). cbn [app]. rewrite !blen_cons.
    autorewrite with bytes. change (blen []) with 0.
    rewrite (proj2 (Z.ltb_ge (192 + code / 64) 128)) by dlia.
    rewrite (proj2 (Z.ltb_lt (192 + code / 64) 224)) by dlia.
    rewrite (proj2 (Z.ltb_ge _ 2)) by lia.
    destruct (valid_continuation (code mod 64)) as [-> ->]; [dlia|].
    rewrite lead_two by dlia. cbn [negb]. rewrite low_bits by dlia.
    f_equal. f_equal. dlia. }
  destruct (Z.ltb_spec code 65536).
  { cbn [app]. rewrite !blen_cons. change (blen []) with 0.
    autorewrite with bytes.
    rewrite (proj2 (Z.ltb_ge (224 + code / 4096) 128)) by dlia.
    rewrite (proj2 (Z.ltb_ge (224 + code / 4096) 224)) by dlia.
    rewrite (proj2 (Z.ltb_lt (224 + code / 4096) 240)) by dlia.
    rewrite (proj2 (Z.ltb_ge _ 3)) by lia.
    destruct (valid_continuation (code mod 64)) as [-> ->]; [dlia|].
    destruct (valid_continuation (code / 64 mod 64)) as [-> ->]; [dlia|].
    rewrite lead_three by dlia. cbn [negb]. rewrite three_groups by dlia.
    f_equal. f_equal. dlia. }
  cbn [app]. rewrite !blen_cons. change (blen []) with 0.
  autorewrite with bytes. cbn [Z.ltb Z.compare Pos.compare Pos.compare_cont Z.eqb Pos.eqb].
  rewrite (proj2 (Z.ltb_ge _ 4)) by lia.
  destruct (valid_continuation (code mod 64)) as [-> ->]; [dlia|].
  destruct (valid_continuation (code / 64 mod 64)) as [-> ->]; [dlia|].
  cbn [negb]. change 65536 with (Z.shiftl 16 12) at 1. rewrite three_groups by dlia.
  f_equal. f_equal. dlia.
Qed.

(** Writing a code point as UTF-8 and reading it back.  For every code
    point the encoder either reports that the space is too short and writes
    nothing, or writes exactly the bytes of its form; the reader then consumes
    exactly those bytes.  What it returns is the code point itself below
    U+10000; above that, both directions keep only the low twelve bits, so
    that U+10000..U+10FFF survive and every higher code point is mapped into
    that range. *)
Theorem utf8_write_then_read code pre mid post :
  0 <= code <= 1114111 ->
  sol_util_utf8_from_unicode_code (pre ++ mid ++ post) (blen pre) (blen mid) code
  = (if blen mid <? blen (utf8 code) then Ret (- EINVAL, pre ++ mid ++ post)
     else Ret (blen (utf8 code), pre ++ utf8 code ++ drop (length (utf8 code)) mid ++ post))
  /\ (forall rest,
      sol_util_unicode_code_from_utf8 (utf8 code ++ rest) (blen (utf8 code ++ rest))
      = Ret (survives code, Some (blen (utf8 code))))
  /\ (survives code = code <-> code < 69632).
Proof.
  intros Hc. split_and!; [by apply utf8_from_code_spec|intros; by apply code_from_utf8_spec|].
  unfold survives. destruct (Z.ltb_spec code 65536); dlia.
Qed.

Lemma utf8_write_then_read_witness :
  sol_util_utf8_from_unicode_code [0; 0; 0; 0; 0] 1 3 8364 = Ret (3, [0; 226; 130; 172; 0]).
Proof. apply (utf8_write_then_read 8364 [0] [0; 0; 0] [0]). split; discriminate. Defined.

(** Reading UTF-8 stays inside a block of bytes of the given length, with
    one exception: a block of the single byte 0xF0.  A result is either an
    error or a code point read from at most the whole block. *)
Theorem utf8_read_in_bounds buf :
  Forall is_byte buf ->
  (buf <> [240] <-> sol_util_unicode_code_from_utf8 buf (blen buf) <> UB)
  /\ (forall r n, sol_util_unicode_code_from_utf8 buf (blen buf) = Ret (r, n) ->
      r = - EINVAL /\ n = None
      \/ 0 <= r /\ exists k, n = Some k /\ 1 <= k <= blen buf /\ k <= 4).
Proof.
  intros Hb. unfold sol_util_unicode_code_from_utf8.
  destruct Hb as [|b0 buf Hb0 Hb].
  { split; [done|]. intros r n [= <- <-]. by left. }
  rewrite !blen_cons. pose proof (blen_nonneg buf).
  replace (1 + blen buf =? 0) with false by (breflect; lia).
  autorewrite with bytes. unfold is_byte in Hb0.
  assert (Hlor : forall a b, 0 <= a -> 0 <= b -> 0 <= Z.lor a b) by (intros; by apply Z.lor_nonneg).
  assert (Hland : forall a b, 0 <= b -> 0 <= Z.land a b) by (intros; apply Z.land_nonneg; auto).
  assert (Hshl : forall a n, 0 <= a -> 0 <= Z.shiftl a n) by (intros; by apply Z.shiftl_nonneg).
  destruct (Z.ltb_spec b0 128).
  { split; [split; [done|]; intros _ [= ->]; lia|]. intros r n [= <- <-]. right.
    split; [lia|]. exists 1. split_and!; (done || lia). }
  destruct Hb as [|b1 buf Hb1 Hb].
  { change (1 + blen []) with 1. assert (b0 <> 240 -> ([b0] <> [240] <-> Ret (- EINVAL, @None Z) <> UB)
      /\ forall r n, Ret (- EINVAL, @None Z) = Ret (r, n) -> r = - EINVAL /\ n = None
        \/ 0 <= r /\ exists k, n = Some k /\ 1 <= k <= 1 /\ k <= 4) as Hbad.
    { intros Hne. split; [split; [done|]; by intros _ [= ->]|]. intros r n [= <- <-]. by left. }
    destruct (Z.ltb_spec b0 224); [apply Hbad; lia|].
    destruct (Z.ltb_spec b0 240); [apply Hbad; lia|].
    destruct (Z.eqb_spec b0 240) as [->|]; [|by apply Hbad]. split; [done|by intros]. }
  rewrite !blen_cons in *. pose proof (blen_nonneg buf).
  autorewrite with bytes.
  assert (Hgood : forall (v k : Z), 0 <= v -> 1 <= k <= 1 + (1 + blen buf) -> k <= 4 ->
    (b0 :: b1 :: buf <> [240] <-> Ret (v, Some k) <> UB)
    /\ forall r n, Ret (v, Some k) = Ret (r, n) -> r = - EINVAL /\ n = None
      \/ 0 <= r /\ exists k, n = Some k /\ 1 <= k <= 1 + (1 + blen buf) /\ k <= 4).
  { intros v k Hv Hk Hk4. split; [done|]. intros r n [= <- <-]. right. eauto. }
  assert (Hbad : (b0 :: b1 :: buf <> [240] <-> Ret (- EINVAL, @None Z) <> UB)
    /\ forall r n, Ret (- EINVAL, @None Z) = Ret (r, n) -> r = - EINVAL /\ n = None
      \/ 0 <= r /\ exists k, n = Some k /\ 1 <= k <= 1 + (1 + blen buf) /\ k <= 4).
  { split; [done|]. intros r n [= <- <-]. by left. }
  destruct (Z.ltb_spec b0 224).
  { destruct (Z.ltb_spec (1 + (1 + blen buf)) 2); [done|].
    destruct (negb (valid_utf8_byte b1)); [done|]. apply Hgood; auto with lia. }
  destruct (Z.ltb_spec b0 240).
  { destruct (Z.ltb_spec (1 + (1 + blen buf)) 3); [done|].
    destruct (negb (valid_utf8_byte b1)); [done|].
    destruct buf as [|b2 buf]; [change (blen []) with 0 in *; lia|].
    autorewrite with bytes.
    destruct (negb (valid_utf8_byte b2)); [done|]. apply Hgood; auto 10 with lia. }
  destruct (Z.eqb_spec b0 240); [|done]. destruct (Z.eqb_spec b1 144); [|done].
  destruct (Z.ltb_spec (1 + (1 + blen buf)) 4); [done|].
  destruct buf as [|b2 [|b3 buf]]; rewrite ?blen_cons in *; change (blen []) with 0 in *; try lia.
  autorewrite with bytes.
  destruct (negb (valid_utf8_byte b2)); [done|]. destruct (negb (valid_utf8_byte b3)); [done|].
  apply Hgood; auto 10 with lia.
Qed.

Lemma utf8_read_in_bounds_witness :
  [195; 169] <> [240] <-> sol_util_unicode_code_from_utf8 [195; 169] 2 <> UB.
Proof. apply (utf8_read_in_bounds [195; 169]). apply (bool_decide_unpack _). by vm_compute. Defined.
End Utf8.

(** ** UUIDs *)

Module Uuid.

Definition isxdigit (c : Z) : bool :=
  (48 <=? c) && (c <=? 57) || (65 <=? c) && (c <=? 70) || (97 <=? c) && (c <=? 102).

(** The position of a hyphen in the long form *)
Definition hyphen_pos (i : Z) : bool := (i =? 8) || (i =? 13) || (i =? 18) || (i =? 23).

(** The loop over the characters of the long form from position [i] on *)
Fixpoint uuid_chars (i : Z) (cs : list Z) : bool :=
  match cs with
  | [] => true
  | c :: cs => (if hyphen_pos i then c =? 45 else isxdigit c) && uuid_chars (i + 1) cs
  end.

Definition sol_util_uuid_str_is_valid (uuid : list Z) : bool :=
  if blen uuid =? 32 then forallb isxdigit uuid
  else if blen uuid =? 36 then uuid_chars 0 uuid
  else false.

(** The version and variant bits of a random UUID; [bytes] has 16 bytes. *)
Definition assert_uuid_v4 (bytes : list Z) : list Z :=
  let bytes := <[6%nat := Z.lor (Z.land (bytes !!! 6%nat) 15) 64]> bytes in
  <[8%nat := Z.lor (Z.land (bytes !!! 8%nat) 63) 128]> bytes.

Lemma isxdigit_spec c : isxdigit c = true <-> is_Some (Base16.hex_value Base16.SOL_DECODE_BOTH c).
Proof.
  unfold isxdigit, Base16.hex_value. cbn [Base16.admits_lower Base16.admits_upper].
  breflect; split; try done; try (intros; eexists; reflexivity); try (intros [? ?]; done); lia.
Qed.

Lemma xdigits_unhex cs :
  forallb isxdigit cs = true -> blen cs mod 2 = 0 ->
  exists bs, Base16.unhex Base16.SOL_DECODE_BOTH cs = Some bs /\ blen bs = blen cs / 2.
Proof.
  induction cs as [|c|c0 c1 cs IH] using Base16.list_ind2; intros Hx He.
  - by exists [].
  - discriminate He.
  - cbn [forallb] in Hx. apply andb_true_iff in Hx as [H0 [H1 Hx]%andb_true_iff].
    apply isxdigit_spec in H0 as [h Hh], H1 as [l Hl].
    rewrite !blen_cons in *. destruct IH as (bs & Hbs & Hlen); [done|dlia|].
    exists (16 * h + l :: bs). cbn [Base16.unhex]. rewrite Hh, Hl. cbn [mbind option_bind].
    rewrite Hbs. cbn [mbind option_bind]. split; [done|]. rewrite blen_cons. dlia.
Qed.

Lemma hex_char_xdigit u n : 0 <= n < 16 -> isxdigit (Base16.hex_char u n) = true.
Proof.
  intros Hn. apply isxdigit_spec. rewrite Base16.hex_value_char by done. done.
Qed.

Lemma b16_xdigits u bs : Forall is_byte bs -> forallb isxdigit (Base16.b16 u bs) = true.
Proof.
  induction 1 as [|b bs Hb _ IH]; [done|]. unfold is_byte in Hb. cbn [Base16.b16 forallb].
  rewrite !hex_char_xdigit, IH by dlia. done.
Qed.
End Uuid.
