(* ===== verification/Buffer.v ===== *)
(** * Dynamic buffers (sol_buffer)

    Models src/src/lib/datatypes/sol-buffer.c and the inline functions of
    src/src/lib/datatypes/include/sol-buffer.h.  A buffer is the C struct with
    its storage as a byte block; a slice argument is the list of its bytes, so
    it never aliases the buffer.  Checks for NULL arguments are left out.
    printf-style functions take the formatted text (or the error of the
    formatter) as an argument.  Every operation is shown to stay inside the
    storage, to keep the invariant [wf] and to act on the contents as the
    list operation its documentation promises. *)

From S2P Require Import Prelude Arith Codec.
Import Base64 Base16.

#[local] Open Scope Z_scope.

Module Buffer.

Record sol_buffer := { data : option block; capacity : Z; used : Z; flags : Z }.

Definition SOL_BUFFER_FLAGS_DEFAULT := 0.
Definition SOL_BUFFER_FLAGS_FIXED_CAPACITY := 1.
Definition SOL_BUFFER_FLAGS_NO_FREE := 2.
Definition SOL_BUFFER_FLAGS_MEMORY_NOT_OWNED := 3.
Definition SOL_BUFFER_FLAGS_NO_NUL_BYTE := 4.
Definition SOL_BUFFER_FLAGS_CLEAR_MEMORY := 8.

Definition set_data (b : sol_buffer) d :=
  {| data := d; capacity := capacity b; used := used b; flags := flags b |}.
Definition set_capacity (b : sol_buffer) c :=
  {| data := data b; capacity := c; used := used b; flags := flags b |}.
Definition set_used (b : sol_buffer) u :=
  {| data := data b; capacity := capacity b; used := u; flags := flags b |}.
Definition set_flags (b : sol_buffer) f :=
  {| data := data b; capacity := capacity b; used := used b; flags := f |}.

(** [b->flags & f] as a condition *)
Definition has (b : sol_buffer) (f : Z) : bool := negb (Z.land (flags b) f =? 0).

(** The storage; a NULL pointer has no bytes. *)
Definition storage (b : sol_buffer) : block := default [] (data b).

(** Stores and moves through [b->data]; nothing happens for zero bytes. *)
Definition buf_store (b : sol_buffer) (off : Z) (bs : block) : outcome sol_buffer :=
  if blen bs =? 0 then Ret b
  else m ← mem_store (storage b) off bs; Ret (set_data b (Some m)).

Definition buf_move (b : sol_buffer) (dst src n : Z) : outcome sol_buffer :=
  if n =? 0 then Ret b
  else m ← mem_move (storage b) dst src n; Ret (set_data b (Some m)).

Definition SOL_BUFFER_NEEDS_NUL_BYTE (b : sol_buffer) : bool :=
  negb (has b SOL_BUFFER_FLAGS_NO_NUL_BYTE).

Definition SOL_BUFFER_CAN_RESIZE (b : sol_buffer) : bool :=
  negb (has b (Z.lor SOL_BUFFER_FLAGS_FIXED_CAPACITY SOL_BUFFER_FLAGS_MEMORY_NOT_OWNED)).

Definition nul_byte_size (b : sol_buffer) : Z :=
  if has b SOL_BUFFER_FLAGS_NO_NUL_BYTE then 0 else 1.

(** ** Creation and access *)

Definition sol_buffer_init : sol_buffer :=
  {| data := None; capacity := 0; used := 0; flags := SOL_BUFFER_FLAGS_DEFAULT |}.

Definition sol_buffer_init_flags (d : option block) (data_size f : Z) : sol_buffer :=
  {| data := d; capacity := data_size; used := 0; flags := f |}.

Definition SOL_BUFFER_INIT_CONST (d : block) : sol_buffer :=
  {| data := Some d; capacity := blen d; used := blen d;
     flags := SOL_BUFFER_FLAGS_MEMORY_NOT_OWNED |}.

(** A pointer into the buffer is an offset; [None] is NULL. *)
Definition sol_buffer_at (b : sol_buffer) (pos : Z) : option Z :=
  if pos >? used b then None else Some pos.

Definition sol_buffer_at_end (b : sol_buffer) : Z := used b.

(** Reading a slice of [n] bytes at an offset *)
Definition buf_load (b : sol_buffer) (off n : Z) : outcome block :=
  if n =? 0 then Ret [] else mem_load (storage b) off n.

Definition sol_buffer_get_slice (b : sol_buffer) : outcome block := buf_load b 0 (used b).

Definition sol_buffer_get_slice_at (b : sol_buffer) (pos : Z) : outcome block :=
  if used b <? pos then Ret [] else buf_load b pos (used b - pos).

Definition sol_buffer_reset (b : sol_buffer) : sol_buffer := set_used b 0.

Section Operations.
Context `{BuildConfig} `{Allocator}.

(** ** Capacity *)

Definition secure_realloc (b : sol_buffer) (new_size : Z) : outcome (option block) :=
  if new_size =? 0 then Ret None
  else
    match c_malloc new_size with
    | None => Ret None
    | Some new_data =>
        match data b with
        | None => Ret (Some new_data)
        | Some d =>
            bs ← mem_load d 0 (Z.min new_size (capacity b));
            m ← mem_store new_data 0 bs; Ret (Some m)
        end
    end.

Definition sol_buffer_resize (b : sol_buffer) (new_size : Z) : outcome (Z * sol_buffer) :=
  if has b SOL_BUFFER_FLAGS_MEMORY_NOT_OWNED then Ret (- EPERM, b)
  else if capacity b =? new_size then Ret (0, b)
  else
    new_data ← (if has b SOL_BUFFER_FLAGS_CLEAR_MEMORY then secure_realloc b new_size
                else Ret (c_realloc (data b) new_size));
    if bool_decide (new_data = None) && negb (new_size =? 0) then Ret (- ENOMEM, b)
    else
      let b := set_capacity (set_data b new_data) new_size in
      Ret (0, if used b >? new_size then set_used b new_size else b).

Definition sol_buffer_ensure (b : sol_buffer) (min_size : Z) : outcome (Z * sol_buffer) :=
  let nul_byte := nul_byte_size b in
  if min_size >=? SIZE_MAX - nul_byte then Ret (- EINVAL, b)
  else
    let min_size := min_size + nul_byte in
    if capacity b >=? min_size then Ret (0, b)
    else
      '(err, b) ← sol_buffer_resize b (align_power2_size min_size);
      if err =? - EPERM then Ret (- ENOMEM, b) else Ret (err, b).

Definition sol_buffer_expand (b : sol_buffer) (bytes : Z) : outcome (Z * sol_buffer) :=
  let available := wrapu 64 (capacity b - used b) in
  if available >=? wrapu 64 (bytes + nul_byte_size b) then Ret (0, b)
  else
    let '(err, new_size) := sol_util_size_add (capacity b) (wrapu 64 (bytes - available)) 0 in
    if err <? 0 then Ret (err, b)
    else
      '(err, b) ← sol_buffer_ensure b new_size;
      if err <? 0 then Ret (err, b) else Ret (0, b).

Definition sol_buffer_ensure_nul_byte (b : sol_buffer) : outcome (Z * sol_buffer) :=
  if has b SOL_BUFFER_FLAGS_NO_NUL_BYTE then Ret (- EINVAL, b)
  else
    last_is_nul ← (if used b =? 0 then Ret false
                   else bs ← mem_load (storage b) (used b - 1) 1; Ret (bool_decide (bs = [0])));
    if (last_is_nul : bool) then Ret (0, b)
    else if used b >=? SIZE_MAX - 1 then Ret (- ENOMEM, b)
    else
      '(err, b) ← sol_buffer_ensure b (used b);
      if err <? 0 then Ret (- ENOMEM, b)
      else b ← buf_store b (used b) [0]; Ret (0, b).

Definition sol_buffer_trim (b : sol_buffer) : outcome (Z * sol_buffer) :=
  if negb (has b SOL_BUFFER_FLAGS_NO_NUL_BYTE) && (used b =? SIZE_MAX) then Ret (- EOVERFLOW, b)
  else
    let new_size := if has b SOL_BUFFER_FLAGS_NO_NUL_BYTE then used b else used b + 1 in
    if new_size =? capacity b then Ret (0, b)
    else sol_buffer_resize b new_size.

(** [if (SOL_BUFFER_NEEDS_NUL_BYTE(buf)) return sol_buffer_ensure_nul_byte(buf);
    return 0;], the end of most operations *)
Definition finish (b : sol_buffer) : outcome (Z * sol_buffer) :=
  if SOL_BUFFER_NEEDS_NUL_BYTE b then sol_buffer_ensure_nul_byte b else Ret (0, b).

(** ** Replacing and appending *)

Definition sol_buffer_set_slice (b : sol_buffer) (slice : list Z) : outcome (Z * sol_buffer) :=
  '(err, b) ← sol_buffer_ensure b (blen slice);
  if err <? 0 then Ret (err, b)
  else
    b ← buf_store b 0 slice;
    finish (set_used b (blen slice)).

Definition sol_buffer_append_bytes (b : sol_buffer) (bytes : list Z) : outcome (Z * sol_buffer) :=
  if blen bytes =? 0 then finish b
  else
    '(err, b) ← sol_buffer_expand b (blen bytes);
    if err <? 0 then Ret (err, b)
    else
      let p := sol_buffer_at_end b in
      b ← buf_store b p bytes;
      b ← (if SOL_BUFFER_NEEDS_NUL_BYTE b then buf_store b (p + blen bytes) [0] else Ret b);
      Ret (0, set_used b (used b + blen bytes)).

Definition sol_buffer_append_slice (b : sol_buffer) (slice : list Z) :=
  sol_buffer_append_bytes b slice.

Definition sol_buffer_append_buffer (dst src : sol_buffer) : outcome (Z * sol_buffer) :=
  bs ← buf_load src 0 (used src); sol_buffer_append_bytes dst bs.

Definition sol_buffer_set_buffer (dst src : sol_buffer) : outcome (Z * sol_buffer) :=
  bs ← sol_buffer_get_slice src; sol_buffer_set_slice dst bs.

Definition sol_buffer_append_char (b : sol_buffer) (c : Z) : outcome (Z * sol_buffer) :=
  '(err, b) ← sol_buffer_expand b 1;
  if err <? 0 then Ret (err, b)
  else
    b ← buf_store b (sol_buffer_at_end b) [c];
    let b := set_used b (used b + 1) in
    if negb (nul_byte_size b =? 0) then sol_buffer_ensure_nul_byte b else Ret (0, b).

(** ** Overwriting *)

Definition sol_buffer_set_slice_at (b : sol_buffer) (pos : Z) (slice : list Z)
    : outcome (Z * sol_buffer) :=
  if blen slice =? 0 then Ret (0, b)
  else if used b <? pos then Ret (- EINVAL, b)
  else
    let nul_size := nul_byte_size b in
    if blen slice >=? wrapu 64 (SIZE_MAX - nul_size - pos) then Ret (- EOVERFLOW, b)
    else
      '(err, b) ← sol_buffer_ensure b (pos + blen slice);
      if err <? 0 then Ret (err, b)
      else
        b ← buf_store b pos slice;
        if pos + blen slice >=? used b then
          let b := set_used b (pos + blen slice) in
          b ← (if negb (nul_size =? 0) then buf_store b (used b) [0] else Ret b);
          Ret (0, b)
        else Ret (0, b).

Definition sol_buffer_set_buffer_at (dst : sol_buffer) (pos : Z) (src : sol_buffer)
    : outcome (Z * sol_buffer) :=
  bs ← sol_buffer_get_slice src; sol_buffer_set_slice_at dst pos bs.

Definition sol_buffer_set_char_at (b : sol_buffer) (pos c : Z) : outcome (Z * sol_buffer) :=
  if used b <? pos then Ret (- EINVAL, b)
  else
    let nul_size := nul_byte_size b in
    if 1 >=? wrapu 64 (SIZE_MAX - nul_size - pos) then Ret (- EOVERFLOW, b)
    else
      '(err, b) ← sol_buffer_ensure b (pos + 1);
      if err <? 0 then Ret (err, b)
      else
        b ← buf_store b pos [c];
        let b := if pos + 1 >=? used b then set_used b (pos + 1) else b in
        if negb (nul_size =? 0) then sol_buffer_ensure_nul_byte b else Ret (0, b).

(** ** Inserting and removing *)

Definition sol_buffer_insert_bytes (b : sol_buffer) (pos : Z) (bytes : list Z)
    : outcome (Z * sol_buffer) :=
  if pos >? used b then Ret (- EINVAL, b)
  else if blen bytes =? 0 then finish b
  else if pos =? used b then sol_buffer_append_bytes b bytes
  else
    '(err, b) ← sol_buffer_expand b (blen bytes);
    if err <? 0 then Ret (err, b)
    else
      b ← buf_move b (pos + blen bytes) pos (used b - pos);
      b ← buf_store b pos bytes;
      finish (set_used b (used b + blen bytes)).

Definition sol_buffer_insert_slice (b : sol_buffer) (pos : Z) (slice : list Z) :=
  sol_buffer_insert_bytes b pos slice.

Definition sol_buffer_insert_buffer (dst : sol_buffer) (pos : Z) (src : sol_buffer)
    : outcome (Z * sol_buffer) :=
  bs ← sol_buffer_get_slice src; sol_buffer_insert_slice dst pos bs.

Definition sol_buffer_insert_char (b : sol_buffer) (pos c : Z) : outcome (Z * sol_buffer) :=
  if pos >? used b then Ret (- EINVAL, b)
  else if pos =? used b then sol_buffer_append_char b c
  else
    '(err, b) ← sol_buffer_expand b 1;
    if err <? 0 then Ret (err, b)
    else
      b ← buf_move b (pos + 1) pos (used b - pos);
      b ← buf_store b pos [c];
      finish (set_used b (used b + 1)).

Definition sol_buffer_remove_data (b : sol_buffer) (offset size : Z) : outcome (Z * sol_buffer) :=
  if used b <? offset then Ret (- EINVAL, b)
  else
    let '(r, total) := sol_util_size_add size offset 0 in
    if r <? 0 then Ret (r, b)
    else
      let size := if total <=? used b then size else used b - offset in
      b ← (if negb (used b =? total) then buf_move b offset total (used b - size - offset)
           else Ret b);
      let b := set_used b (used b - size) in
      '(r, b) ← (if negb (has b SOL_BUFFER_FLAGS_MEMORY_NOT_OWNED)
                 then sol_buffer_resize b (align_power2_size (used b + nul_byte_size b))
                 else Ret (0, b));
      if r <? 0 then Ret (r, b) else finish b.

(** ** Formatted output

    [vsnprintf] at the end of the buffer: it stores what fits, always
    followed by a NUL, and returns the full length or an error. *)
Definition vsnprintf (b : sol_buffer) (p space : Z) (text : Z + list Z)
    : outcome ((Z + Z) * sol_buffer) :=
  match text with
  | inl errno => Ret (inl errno, b)
  | inr cs =>
      if space =? 0 then Ret (inr (blen cs), b)
      else
        b ← buf_store b p (take (Z.to_nat (space - 1)) cs ++ [0]);
        Ret (inr (blen cs), b)
  end.

Definition sol_buffer_append_vprintf (b : sol_buffer) (text : Z + list Z)
    : outcome (Z * sol_buffer) :=
  let space := wrapu 64 (capacity b - used b) in
  '(res, b) ← vsnprintf b (sol_buffer_at_end b) space text;
  match res with
  | inl errno => Ret (- errno, b)
  | inr done =>
      if done >=? space then
        let '(r, new_size) := sol_util_size_add (used b) done 0 in
        if r <? 0 then Ret (r, b)
        else if negb (SOL_BUFFER_NEEDS_NUL_BYTE b) && (new_size >=? SIZE_MAX - 1)
        then Ret (- EOVERFLOW, b)
        else
          let new_size := if SOL_BUFFER_NEEDS_NUL_BYTE b then new_size else new_size + 1 in
          '(r, b) ← sol_buffer_ensure b new_size;
          if r <? 0 then Ret (r, b)
          else
            let space := wrapu 64 (capacity b - used b) in
            '(res, b) ← vsnprintf b (sol_buffer_at_end b) space text;
            match res with
            | inl errno => Ret (- errno, b)
            | inr done => Ret (0, set_used b (used b + done))
            end
      else Ret (0, set_used b (used b + done))
  end.

Definition sol_buffer_insert_vprintf (b : sol_buffer) (pos : Z) (text : Z + list Z)
    : outcome (Z * sol_buffer) :=
  if pos >? used b then Ret (- EINVAL, b)
  else if pos =? used b then sol_buffer_append_vprintf b text
  else
    match text with
    | inl errno => Ret (- errno, b)
    | inr s => sol_buffer_insert_slice b pos s
    end.

(** ** Giving the memory away *)

(** The stolen block and its size. *)
Definition sol_buffer_steal (b : sol_buffer) : (option block * Z) * sol_buffer :=
  if has b SOL_BUFFER_FLAGS_NO_FREE then ((None, 0), b)
  else ((data b, used b), set_capacity (set_used (set_data b None) 0) 0).

(** [memcpy] from NULL is undefined also for a block that was allocated. *)
Definition sol_util_memdup (d : option block) (n : Z) : outcome (option block) :=
  match c_malloc n with
  | None => Ret None
  | Some p =>
      bs ← (if n =? 0 then Ret []
            else match d with Some m => mem_load m 0 n | None => UB end);
      m ← mem_store p 0 bs; Ret (Some m)
  end.

Definition sol_buffer_steal_or_copy (b : sol_buffer)
    : outcome ((option block * Z) * sol_buffer) :=
  let '((r, size), b) := sol_buffer_steal b in
  match r with
  | Some d => Ret ((Some d, size), b)
  | None =>
      r ← sol_util_memdup (data b) (used b + nul_byte_size b);
      match r with
      | None => Ret ((None, size), b)
      | Some d => Ret ((Some d, used b), b)
      end
  end.

(** The size of the struct itself *)
Definition sizeof_sol_buffer := 32.

Definition sol_buffer_copy (b : sol_buffer) : outcome (option sol_buffer) :=
  if negb (alloc_ok sizeof_sol_buffer) then Ret None
  else
    d ← sol_util_memdup (data b) (used b + nul_byte_size b);
    match d with
    | None => Ret None
    | Some d =>
        Ret (Some (set_flags (set_data b (Some d))
                     (Z.land (flags b) (Z.lnot SOL_BUFFER_FLAGS_NO_FREE))))
    end.

(** The buffer afterwards and whether its block was freed. *)
Definition sol_buffer_fini (b : sol_buffer) : sol_buffer * bool :=
  (set_capacity (set_used (set_data b None) 0) 0, negb (has b SOL_BUFFER_FLAGS_NO_FREE)).

Definition sol_buffer_new : option sol_buffer :=
  if alloc_ok sizeof_sol_buffer then Some sol_buffer_init else None.

(** ** Encoders and decoders

    The eight functions share two shapes; [size] is the announced size and
    [code] the encoder or decoder, called on the storage, the offset of its
    destination and the room there. *)

(** The coder refuses a NULL destination. *)
Definition run_coder (b : sol_buffer) (code : block -> Z -> Z -> outcome (Z * block)) (p n : Z)
    : outcome (Z * sol_buffer) :=
  match data b with
  | None => Ret (- EINVAL, b)
  | Some m => '(r, m) ← code m p n; Ret (r, set_data b (Some m))
  end.

Definition append_coded (b : sol_buffer) (slice_len : Z) (size : outcome Z)
    (code : block -> Z -> Z -> outcome (Z * block)) : outcome (Z * sol_buffer) :=
  if slice_len =? 0 then finish b
  else
    coded_size ← size;
    if coded_size <? 0 then Ret (coded_size, b)
    else
      '(err, b) ← sol_buffer_expand b coded_size;
      if err <? 0 then Ret (err, b)
      else
        let p := sol_buffer_at_end b in
        '(r, b) ← run_coder b code p coded_size;
        if negb (r =? coded_size) then
          '(_, b) ← finish b;
          Ret (if r <? 0 then r else - EINVAL, b)
        else finish (set_used b (used b + coded_size)).

Definition insert_coded (b : sol_buffer) (pos : Z) (slice_len : Z) (size : outcome Z)
    (code : block -> Z -> Z -> outcome (Z * block)) : outcome (Z * sol_buffer) :=
  if pos >? used b then Ret (- EINVAL, b)
  else if slice_len =? 0 then finish b
  else if pos =? used b then append_coded b slice_len size code
  else
    coded_size ← size;
    if coded_size <? 0 then Ret (coded_size, b)
    else
      '(err, b) ← sol_buffer_expand b coded_size;
      if err <? 0 then Ret (err, b)
      else
        b ← buf_move b (pos + coded_size) pos (used b - pos);
        '(r, b) ← run_coder b code pos coded_size;
        if negb (r =? coded_size) then
          b ← buf_move b pos (pos + coded_size) (used b - pos);
          '(_, b) ← finish b;
          Ret (if r <? 0 then r else - EINVAL, b)
        else finish (set_used b (used b + coded_size)).

Definition sol_buffer_append_as_base64 (b : sol_buffer) (slice map : list Z) :=
  append_coded b (blen slice) (sol_util_base64_calculate_encoded_len slice)
    (fun m p n => sol_util_base64_encode m p n slice map).
Definition sol_buffer_insert_as_base64 (b : sol_buffer) (pos : Z) (slice map : list Z) :=
  insert_coded b pos (blen slice) (sol_util_base64_calculate_encoded_len slice)
    (fun m p n => sol_util_base64_encode m p n slice map).

Definition sol_buffer_append_from_base64 (b : sol_buffer) (slice map : list Z) :=
  append_coded b (blen slice) (sol_util_base64_calculate_decoded_len slice map)
    (fun m p n => sol_util_base64_decode m p n slice map).
Definition sol_buffer_insert_from_base64 (b : sol_buffer) (pos : Z) (slice map : list Z) :=
  insert_coded b pos (blen slice) (sol_util_base64_calculate_decoded_len slice map)
    (fun m p n => sol_util_base64_decode m p n slice map).

Definition sol_buffer_append_as_base16 (b : sol_buffer) (slice : list Z) (uppercase : bool) :=
  append_coded b (blen slice) (sol_util_base16_calculate_encoded_len slice)
    (fun m p n => sol_util_base16_encode m p n slice uppercase).
Definition sol_buffer_insert_as_base16 (b : sol_buffer) (pos : Z) (slice : list Z)
    (uppercase : bool) :=
  insert_coded b pos (blen slice) (sol_util_base16_calculate_encoded_len slice)
    (fun m p n => sol_util_base16_encode m p n slice uppercase).

Definition sol_buffer_append_from_base16 (b : sol_buffer) (slice : list Z)
    (decode_case : sol_decode_case) :=
  append_coded b (blen slice) (Ret (sol_util_base16_calculate_decoded_len slice))
    (fun m p n => sol_util_base16_decode m p n slice decode_case).
Definition sol_buffer_insert_from_base16 (b : sol_buffer) (pos : Z) (slice : list Z)
    (decode_case : sol_decode_case) :=
  insert_coded b pos (blen slice) (Ret (sol_util_base16_calculate_decoded_len slice))
    (fun m p n => sol_util_base16_decode m p n slice decode_case).
End Operations.

(** ** What a buffer stands for *)

(** The buffer [b] holds the bytes [l]. *)
Record rep (b : sol_buffer) (l : list Z) : Prop := {
  rep_used : used b = blen l;
  rep_fits : blen l <= capacity b <= blen (storage b);
  rep_cap : capacity b <= SSIZE_MAX;
  rep_prefix : exists rest, storage b = l ++ rest
}.

(** The contents are followed by a NUL, or end in one, or the buffer is not
    meant to be a C string. *)
Definition terminated (b : sol_buffer) : Prop :=
  has b SOL_BUFFER_FLAGS_NO_NUL_BYTE = true
  \/ (0 < used b /\ storage b !! Z.to_nat (used b - 1) = Some 0)
  \/ (used b < capacity b /\ storage b !! Z.to_nat (used b) = Some 0).

(** What a writing operation promises: on success the contents are [l'] and
    terminated; on an error they are still [l]. *)
Definition writes (r : Z) (b b' : sol_buffer) (l l' : list Z) : Prop :=
  flags b' = flags b
  /\ (r = 0 /\ rep b' l' /\ terminated b' \/ r < 0 /\ rep b' l).

Lemma storage_set_data b m : storage (set_data b (Some m)) = m.
Proof. done. Qed.
Lemma storage_set_used b u : storage (set_used b u) = storage b.
Proof. done. Qed.
Lemma used_set_used b u : used (set_used b u) = u.
Proof. done. Qed.
Lemma used_set_data b d : used (set_data b d) = used b.
Proof. done. Qed.
Lemma capacity_set_used b u : capacity (set_used b u) = capacity b.
Proof. done. Qed.
Lemma capacity_set_data b d : capacity (set_data b d) = capacity b.
Proof. done. Qed.
Lemma flags_set_used b u : flags (set_used b u) = flags b.
Proof. done. Qed.
Lemma flags_set_data b d : flags (set_data b d) = flags b.
Proof. done. Qed.

Create Rewrite HintDb buf.
#[export] Hint Rewrite storage_set_data storage_set_used used_set_used used_set_data
  capacity_set_used capacity_set_data flags_set_used flags_set_data : buf.

Lemma buf_rep_init : rep sol_buffer_init [].
Proof. split; [done|done|done|by exists []]. Qed.

Lemma buf_rep_storage b l : rep b l -> exists rest,
  storage b = l ++ rest /\ capacity b - used b <= blen rest /\ used b = blen l.
Proof.
  intros [Hu Hf Hc [rest Hr]]. exists rest. rewrite Hr, blen_app in Hf. split; [done|]. lia.
Qed.

Lemma get_slice_spec b l : rep b l -> sol_buffer_get_slice b = Ret l.
Proof.
  intros Hrep. destruct (buf_rep_storage _ _ Hrep) as (rest & Hs & _ & Hu).
  unfold sol_buffer_get_slice, buf_load. rewrite Hu.
  destruct (Z.eqb_spec (blen l) 0) as [Hz|]; [by apply blen_zero_nil in Hz as ->|].
  rewrite Hs. by apply (mem_load_app [] l rest).
Qed.

Lemma nul_byte_size_cases b : nul_byte_size b = 0 \/ nul_byte_size b = 1.
Proof. unfold nul_byte_size. destruct (has b _); auto. Qed.

Lemma nul_byte_size_flags b b' : flags b' = flags b -> nul_byte_size b' = nul_byte_size b.
Proof. unfold nul_byte_size, has. by intros ->. Qed.

Lemma has_flags b b' f : flags b' = flags b -> has b' f = has b f.
Proof. unfold has. by intros ->. Qed.

Section Proofs.
Context `{BuildConfig} `{Allocator}.

Lemma fresh_realloc_prefix m n d l rest :
  c_realloc (Some m) n = Some d -> 0 <= n -> m = l ++ rest ->
  blen d = n /\ exists rest', d = take (Z.to_nat n) l ++ rest'.
Proof.
  intros Hd Hn ->. cbn [c_realloc] in Hd. case_bool_decide; [done|].
  destruct (alloc_ok n); [|done]. injection Hd as <-. split; [by apply blen_resize|].
  unfold resize_block. rewrite take_app, <- app_assoc. eauto.
Qed.

(** The block that [resize] installs *)
Lemma new_block_spec b l n :
  rep b l -> 0 <= n ->
  exists d,
    (if has b SOL_BUFFER_FLAGS_CLEAR_MEMORY then secure_realloc b n
     else Ret (c_realloc (data b) n)) = Ret d
    /\ (d = None -> n = 0 \/ alloc_ok n = false)
    /\ (n <> 0 -> forall m, d = Some m ->
        n <= SSIZE_MAX /\ blen m = n /\ exists rest, m = take (Z.to_nat n) l ++ rest).
Proof.
  intros [Hu Hf Hc [rest Hr]] Hn. unfold storage in Hr, Hf.
  destruct (has b SOL_BUFFER_FLAGS_CLEAR_MEMORY).
  - unfold secure_realloc. destruct (Z.eqb_spec n 0); [exists None; split_and!; auto; done|].
    unfold c_malloc. destruct (alloc_ok n) eqn:Hok; [|exists None; split_and!; auto; done].
    pose proof (alloc_bound n Hok).
    destruct (data b) as [d|]; cbn [default from_option] in Hr, Hf; unfold id in *.
    + pose proof (blen_nonneg l). subst d.
      rewrite mem_load_ok by lia. rewrite bind_ret, drop_0.
      rewrite mem_store_ok by (rewrite ?blen_take, ?blen_fresh; lia). rewrite bind_ret.
      eexists. split; [done|]. split; [done|]. intros _ m [= <-]. split; [done|]. split.
      { rewrite !blen_app, blen_drop, blen_fresh, !blen_take, length_take.
        unfold blen in *. lia. }
      change (Z.to_nat 0) with 0%nat; rewrite take_app, <- app_assoc. cbn [app].
      destruct (Z.le_ge_cases (blen l) n).
      * rewrite !(take_ge l) by (unfold blen in *; lia). eauto.
      * rewrite (Z.min_l n) by lia. eauto.
    + assert (l = []) as -> by (destruct l; [done|discriminate Hr]).
      eexists. split; [done|]. split; [done|]. intros _ m [= <-]. rewrite take_nil.
      split; [done|]. split; [rewrite blen_fresh; lia|]. by eexists.
  - eexists. split; [done|].
    destruct (data b) as [d|]; cbn [default from_option] in Hr, Hf.
    + unfold id in *. split.
      { cbn [c_realloc]. case_bool_decide; [by left|]. destruct (alloc_ok n); [done|by right]. }
      intros Hn0 m Hm. destruct (fresh_realloc_prefix _ _ _ _ _ Hm Hn Hr) as [Hlen Hpre].
      split; [|by split]. cbn [c_realloc] in Hm. case_bool_decide; [done|].
      destruct (alloc_ok n) eqn:Hok; [|done]. by apply alloc_bound.
    + assert (l = []) as -> by (destruct l; [done|discriminate Hr]).
      cbn [c_realloc]. unfold c_malloc. destruct (alloc_ok n) eqn:Hok; [|split; [by right|done]].
      split; [done|]. intros _ m [= <-]. rewrite take_nil. pose proof (alloc_bound n Hok).
      split; [done|]. split; [rewrite blen_fresh; lia|]. by eexists.
Qed.

Lemma rep_resized b l n d :
  rep b l -> 0 <= n <= SSIZE_MAX -> n <= blen (default [] d) ->
  (exists rest, default [] d = take (Z.to_nat n) l ++ rest) ->
  let b1 := set_capacity (set_data b d) n in
  let b2 := if used b1 >? n then set_used b1 n else b1 in
  rep b2 (take (Z.to_nat n) l) /\ capacity b2 = n /\ flags b2 = flags b.
Proof.
  intros [Hu Hf _ _] Hn Hd Hpre b1 b2.
  assert (storage b2 = default [] d /\ capacity b2 = n /\ flags b2 = flags b
    /\ used b2 = Z.min n (blen l)) as (Hs & Hc & Hfl & Hu2).
  { subst b2 b1. unfold storage. breflect; cbn in *; split_and!; lia || done. }
  clearbody b2 b1. split_and!; [|done|done]. split.
  - rewrite blen_take. lia.
  - rewrite Hs, Hc, blen_take. lia.
  - lia.
  - by rewrite Hs.
Qed.

Lemma resize_spec b l n :
  rep b l -> 0 <= n ->
  exists r b', sol_buffer_resize b n = Ret (r, b')
    /\ flags b' = flags b
    /\ (r = 0 /\ rep b' (take (Z.to_nat n) l) /\ capacity b' = n
        \/ (r = - EPERM \/ r = - ENOMEM) /\ b' = b)
    /\ (has b SOL_BUFFER_FLAGS_MEMORY_NOT_OWNED = false -> n = 0 \/ alloc_ok n = true -> r = 0).
Proof.
  intros Hrep Hn. unfold sol_buffer_resize.
  destruct (has b SOL_BUFFER_FLAGS_MEMORY_NOT_OWNED) eqn:Hown.
  { exists (- EPERM), b. split_and!; [done|done|auto|done]. }
  destruct (Z.eqb_spec (capacity b) n) as [Hcap|Hcap].
  { exists 0, b. split_and!; try done. left. split; [done|]. split; [|done].
    rewrite take_ge; [done|]. destruct Hrep as [? [? ?] ? ?]. unfold blen in *. lia. }
  destruct (new_block_spec b l n Hrep Hn) as (d & -> & Hnone & Hsome). rewrite bind_ret.
  assert (bool_decide (d = None) && negb (n =? 0) = false ->
    exists r b', Ret (0, let b1 := set_capacity (set_data b d) n in
                         if used b1 >? n then set_used b1 n else b1) = Ret (r, b')
    /\ flags b' = flags b
    /\ (r = 0 /\ rep b' (take (Z.to_nat n) l) /\ capacity b' = n
        \/ (r = - EPERM \/ r = - ENOMEM) /\ b' = b)
    /\ (false = false -> n = 0 \/ alloc_ok n = true -> r = 0)) as Hset.
  { intros Hc. eexists 0, _. split; [done|].
    destruct (Z.eq_dec n 0) as [->|Hn0].
    - destruct (rep_resized b l 0 d Hrep) as (? & ? & ?); [zlia|apply blen_nonneg|by eexists|].
      split_and!; auto.
    - destruct d as [m|]; [|rewrite (proj2 (Z.eqb_neq n 0)) in Hc by done; by rewrite bool_decide_true in Hc].
      destruct (Hsome Hn0 m eq_refl) as (Hmax & Hlen & Hm).
      destruct (rep_resized b l n (Some m) Hrep) as (? & ? & ?); [lia|cbn; unfold id; lia|done|].
      split_and!; auto. }
  destruct (bool_decide (d = None) && negb (n =? 0)) eqn:Hc; [|by apply Hset].
  apply andb_true_iff in Hc as [Hd%bool_decide_eq_true Hn0%negb_true_iff%Z.eqb_neq].
  exists (- ENOMEM), b. split_and!; [done|done|auto|].
  intros _ [?|Hok]; [done|]. destruct (Hnone Hd); congruence.
Qed.

Lemma ensure_spec b l n :
  rep b l -> 0 <= n ->
  exists r b', sol_buffer_ensure b n = Ret (r, b')
    /\ flags b' = flags b /\ rep b' l
    /\ (r = 0 /\ n + nul_byte_size b <= capacity b' \/ r < 0 /\ b' = b)
    /\ (n + nul_byte_size b <= capacity b -> r = 0 /\ b' = b)
    /\ (has b SOL_BUFFER_FLAGS_MEMORY_NOT_OWNED = false ->
        alloc_ok (align_power2_size (n + nul_byte_size b)) = true ->
        n < SIZE_MAX - nul_byte_size b -> r = 0).
Proof.
  intros Hrep Hn. unfold sol_buffer_ensure. rewrite !Z.geb_leb.
  pose proof (nul_byte_size_cases b) as Hnul. pose proof (rep_cap b l Hrep).
  destruct (Z.leb_spec (SIZE_MAX - nul_byte_size b) n).
  { exists (- EINVAL), b. split_and!; [done|done|done|right; split; [zlia|done]|zlia|lia]. }
  destruct (Z.leb_spec (n + nul_byte_size b) (capacity b)).
  { exists 0, b. split_and!; auto. }
  pose proof (align_size_ge (n + nul_byte_size b)) as Hge.
  destruct (resize_spec b l (align_power2_size (n + nul_byte_size b)) Hrep)
    as (r & b' & -> & Hfl & Hcase & Hok); [zlia|]. rewrite bind_ret.
  destruct Hcase as [(-> & Hrep' & Hcap)|(Hr & ->)].
  - rewrite take_ge in Hrep'.
    2: { destruct Hrep as [? [? ?] ? ?]. unfold blen in *. zlia. }
    exists 0, b'. split_and!; try done; [left; split; [done|zlia] | lia].
  - assert (r <> 0 /\ r < 0) as [Hr0 ?] by (destruct Hr as [-> | ->]; zlia).
    eexists (if r =? - EPERM then - ENOMEM else r), b. split_and!; try done.
    + by destruct (r =? - EPERM).
    + right. split; [destruct (r =? - EPERM); zlia|done].
    + lia.
    + intros Hown Ha _. exfalso. apply Hr0, Hok; auto.
Qed.

Lemma expand_spec b l n :
  rep b l -> 0 <= n < SIZE_MAX ->
  exists r b', sol_buffer_expand b n = Ret (r, b')
    /\ flags b' = flags b /\ rep b' l
    /\ (r = 0 /\ used b + n + nul_byte_size b <= capacity b' \/ r < 0 /\ b' = b)
    /\ (used b + n + nul_byte_size b <= capacity b -> r = 0 /\ b' = b)
    /\ (has b SOL_BUFFER_FLAGS_MEMORY_NOT_OWNED = false ->
        alloc_ok (align_power2_size (used b + n + nul_byte_size b)) = true ->
        used b + n < SIZE_MAX - nul_byte_size b -> r = 0).
Proof.
  intros Hrep Hn. unfold sol_buffer_expand. pose proof (nul_byte_size_cases b) as Hnul.
  pose proof Hrep as [Hu Hf Hc _]. pose proof (blen_nonneg l).
  rewrite !Z.geb_leb. rewrite (wrapu_small 64 (capacity b - used b)) by zlia.
  rewrite (wrapu_small 64 (n + _)) by zlia.
  destruct (Z.leb_spec (n + nul_byte_size b) (capacity b - used b)).
  { exists 0, b. split_and!; try done; [left|..]; split; lia || done. }
  rewrite wrapu_small by zlia.
  destruct (Z.le_gt_cases (capacity b + (n - (capacity b - used b))) SIZE_MAX) as [Hfit|Hbig].
  - rewrite size_add_exact by zlia.
    replace (capacity b + (n - (capacity b - used b))) with (used b + n) by lia.
    destruct (ensure_spec b l (used b + n) Hrep) as (r & b' & -> & Hfl & Hrep' & Hr & Hin & Hok);
      [lia|]. cbn [Z.ltb Z.compare]. rewrite bind_ret.
    exists (if r <? 0 then r else 0), b'.
    split; [by destruct (r <? 0)|]. split_and!; try done.
    + destruct Hr as [[-> ?]|[? ->]]; [by left|]. right. breflect; (split; [lia|done]).
    + lia.
    + intros. rewrite Hok by done. done.
  - pose proof (size_add_refused (capacity b) (n - (capacity b - used b)) 0) as Hadd.
    destruct (sol_util_size_add _ _ 0) as [err new_size]. cbn [fst] in Hadd.
    rewrite Hadd by zlia. exists (- EOVERFLOW), b.
    split_and!; try done; [by right|lia|lia].
Qed.

(** Storing right behind the contents *)
Lemma store_end_spec b l bs :
  rep b l -> used b + blen bs <= capacity b ->
  exists b', buf_store b (used b) bs = Ret b'
    /\ flags b' = flags b /\ capacity b' = capacity b /\ used b' = used b
    /\ (exists rest, storage b' = l ++ bs ++ rest) /\ blen (storage b') = blen (storage b).
Proof.
  intros Hrep Hfit. destruct (buf_rep_storage _ _ Hrep) as (rest & Hs & Hrest & Hu).
  unfold buf_store. destruct (Z.eqb_spec (blen bs) 0) as [Hz|].
  { apply blen_zero_nil in Hz as ->. exists b. split_and!; try done. by exists rest. }
  rewrite Hs. rewrite <- (take_drop (length bs) rest), Hu.
  rewrite mem_store_app; [|done|rewrite blen_take; unfold blen in *; lia].
  eexists. split; [done|]. autorewrite with buf. split_and!; try done; [by eexists|].
  rewrite ?Hs, !blen_app, ?blen_take, ?blen_drop. unfold blen in *. lia.
Qed.

Lemma rep_intro b l rest :
  storage b = l ++ rest -> used b = blen l -> blen l <= capacity b <= blen (storage b) ->
  capacity b <= SSIZE_MAX -> rep b l.
Proof. intros. split; eauto. Qed.

Lemma lookup_after (l rest : list Z) x : (l ++ x :: rest) !! Z.to_nat (blen l) = Some x.
Proof. rewrite blen_to_nat. by apply list_lookup_middle. Qed.

(** The NUL byte: where it is, or where it goes. *)
Lemma ensure_nul_byte_spec b l :
  rep b l -> has b SOL_BUFFER_FLAGS_NO_NUL_BYTE = false ->
  exists r b', sol_buffer_ensure_nul_byte b = Ret (r, b')
    /\ flags b' = flags b /\ rep b' l
    /\ (r = 0 /\ terminated b' \/ r < 0 /\ b' = b)
    /\ (used b + 1 <= capacity b -> r = 0 /\ capacity b' = capacity b).
Proof.
  intros Hrep Hnul. pose proof Hrep as [Hu Hf Hc [rest Hs]]. pose proof (blen_nonneg l).
  assert (nul_byte_size b = 1) as Hn1 by (unfold nul_byte_size; by rewrite Hnul).
  unfold sol_buffer_ensure_nul_byte. rewrite Hnul.
  assert (exists last : bool,
    (if used b =? 0 then Ret false
     else bs ← mem_load (storage b) (used b - 1) 1; Ret (bool_decide (bs = [0]))) = Ret last
    /\ (last = true -> terminated b)) as (last & -> & Hlast).
  { destruct (Z.eqb_spec (used b) 0); [by exists false|].
    destruct l as [|x l _] using rev_ind; [done|]. rewrite blen_app in *. change (blen [x]) with 1 in *.
    rewrite Hs, <- app_assoc. rewrite mem_load_app by (done || lia). rewrite bind_ret.
    eexists. split; [done|]. intros Heq%bool_decide_eq_true. injection Heq as ->.
    right; left. split; [lia|]. rewrite Hs, Hu.
    replace (blen l + 1 - 1) with (blen l) by lia. rewrite <- app_assoc. apply lookup_after. }
  rewrite bind_ret. destruct last.
  { exists 0, b. split_and!; auto. }
  rewrite Z.geb_leb. rewrite (proj2 (Z.leb_gt (SIZE_MAX - 1) (used b))) by zlia.
  destruct (ensure_spec b l (used b) Hrep) as (r & b1 & -> & Hfl & Hrep1 & Hr & Hin & _); [lia|].
  rewrite bind_ret, Hn1 in *. destruct Hr as [[-> Hroom]|[Hneg ->]].
  - cbn [Z.ltb Z.compare].
    assert (used b1 = used b) as Hu1 by (destruct Hrep1; lia).
    destruct (store_end_spec b1 l [0] Hrep1) as (b' & -> & Hfl' & Hc' & Hu' & [rest' Hs'] & Hl');
      [change (blen [0]) with 1; lia|]. rewrite bind_ret.
    exists 0, b'. destruct Hrep1 as [? ? ? _]. split_and!; [done|congruence|..].
    + eapply (rep_intro b' l ([0] ++ rest')); [done|congruence|rewrite Hl'; lia|lia].
    + left. split; [done|]. right; right. split; [lia|]. rewrite Hs', Hu', Hu1, Hu. apply lookup_after.
    + intros Hle. destruct (Hin Hle) as [_ ->]. done.
  - rewrite (proj2 (Z.ltb_lt r 0)) by done. exists (- ENOMEM), b.
    split_and!; try done; [right; split; [zlia|done]|]. intros Hle. destruct (Hin Hle); lia.
Qed.

Lemma finish_spec b l :
  rep b l ->
  exists r b', finish b = Ret (r, b') /\ writes r b b' l l
    /\ (used b + nul_byte_size b <= capacity b -> r = 0 /\ capacity b' = capacity b).
Proof.
  intros Hrep. unfold finish, SOL_BUFFER_NEEDS_NUL_BYTE.
  destruct (has b SOL_BUFFER_FLAGS_NO_NUL_BYTE) eqn:Hnul; cbn [negb].
  - exists 0, b. split; [done|]. split; [|done]. split; [done|]. left. split_and!; [done|done|by left].
  - destruct (ensure_nul_byte_spec b l Hrep Hnul) as (r & b' & -> & Hfl & Hrep' & Hr & Hin).
    exists r, b'. split; [done|]. split.
    + split; [done|]. destruct Hr as [[-> ?]|[? ->]]; auto.
    + unfold nul_byte_size. by rewrite Hnul.
Qed.

(** After a successful write there is room for the NUL, so the end of the
    operation cannot fail. *)
Lemma finish_room b l :
  rep b l -> used b + nul_byte_size b <= capacity b ->
  exists b', finish b = Ret (0, b') /\ flags b' = flags b /\ rep b' l /\ terminated b'
    /\ capacity b' = capacity b.
Proof.
  intros Hrep Hroom. destruct (finish_spec b l Hrep) as (r & b' & -> & [Hfl Hw] & Hin).
  destruct (Hin Hroom) as [-> ?]. exists b'. destruct Hw as [(_ & ? & ?)|(? & _)]; [done|lia].
Qed.

Lemma writes_fail r b b' l l' : flags b' = flags b -> r < 0 -> rep b' l -> writes r b b' l l'.
Proof. intros. split; auto. Qed.

Lemma writes_done b b' l l' :
  flags b' = flags b -> rep b' l' -> terminated b' -> writes 0 b b' l l'.
Proof. intros. split; auto. Qed.

(** ** Appending and replacing *)

Lemma append_bytes_spec b l bs :
  rep b l -> blen bs < SIZE_MAX ->
  exists r b', sol_buffer_append_bytes b bs = Ret (r, b') /\ writes r b b' l (l ++ bs)
    /\ (used b + blen bs + nul_byte_size b <= capacity b -> r = 0 /\ capacity b' = capacity b)
    /\ (bs <> [] -> has b SOL_BUFFER_FLAGS_MEMORY_NOT_OWNED = false ->
        alloc_ok (align_power2_size (used b + blen bs + nul_byte_size b)) = true ->
        used b + blen bs < SIZE_MAX - nul_byte_size b -> r = 0).
Proof.
  intros Hrep Hbs. pose proof (blen_nonneg bs). unfold sol_buffer_append_bytes.
  destruct (Z.eqb_spec (blen bs) 0) as [Hz|Hz].
  { apply blen_zero_nil in Hz as ->. rewrite app_nil_r. change (blen []) with 0.
    destruct (finish_spec b l Hrep) as (r & b' & -> & Hw & Hin). exists r, b'.
    split_and!; [done|done| |done]. intros. apply Hin. lia. }
  destruct (expand_spec b l (blen bs) Hrep) as (r & b1 & -> & Hfl & Hrep1 & Hr & Hin & Hok); [lia|].
  rewrite bind_ret. pose proof (nul_byte_size_cases b) as Hnul.
  destruct Hr as [[-> Hroom]|[Hneg ->]]; cbn [Z.ltb Z.compare].
  2: { rewrite (proj2 (Z.ltb_lt r 0)) by done. exists r, b. split_and!; [done|by apply writes_fail|..].
       - intros Hle. destruct (Hin Hle); lia.
       - intros _. exact Hok. }
  pose proof Hrep1 as [Hu1 Hf1 Hc1 _]. pose proof Hrep as [Hu _ _ _].
  unfold sol_buffer_at_end.
  assert (exists b', (b2 ← buf_store b1 (used b1) bs;
      b2 ← (if SOL_BUFFER_NEEDS_NUL_BYTE b2 then buf_store b2 (used b1 + blen bs) [0] else Ret b2);
      Ret (0, set_used b2 (used b2 + blen bs))) = Ret (0, b')
      /\ flags b' = flags b /\ rep b' (l ++ bs) /\ terminated b' /\ capacity b' = capacity b1)
    as (b' & -> & ? & ? & ? & Hcap).
  2: { exists 0, b'. split_and!; [done|by apply writes_done| |done]. intros Hle.
       destruct (Hin Hle) as [_ ->]. done. }
  destruct (store_end_spec b1 l bs Hrep1) as (b2 & -> & Hfl2 & Hc2 & Hu2 & [rest Hs2] & Hl2); [lia|].
  rewrite bind_ret. unfold SOL_BUFFER_NEEDS_NUL_BYTE.
  rewrite (has_flags b b2) by congruence.
  set (b3 := set_used b2 (used b2 + blen bs)).
  assert (rep b3 (l ++ bs)) as Hrep3.
  { apply (rep_intro _ _ rest); subst b3; autorewrite with buf; rewrite ?blen_app; try lia.
    by rewrite <- app_assoc. }
  destruct (has b SOL_BUFFER_FLAGS_NO_NUL_BYTE) eqn:Hno; cbn [negb]; rewrite ?bind_ret.
  - exists b3. subst b3. autorewrite with buf. split_and!; try done; [congruence|].
    left. by rewrite (has_flags b) by (autorewrite with buf; congruence).
  - assert (nul_byte_size b = 1) as Hn1 by (unfold nul_byte_size; by rewrite Hno).
    destruct (store_end_spec b3 (l ++ bs) [0] Hrep3)
      as (b4 & Hst & Hfl4 & Hc4 & Hu4 & [rest4 Hs4] & Hl4).
    { subst b3. autorewrite with buf. change (blen [0]) with 1. lia. }
    revert Hst. unfold buf_store. change (blen [0] =? 0) with false. cbv iota.
    subst b3. autorewrite with buf in *. rewrite Hu2.
    destruct (mem_store (storage b2) (used b1 + blen bs) [0]) as [m|]; [|done].
    rewrite !bind_ret. intros [= <-]. autorewrite with buf in *.
    eexists. split; [done|]. autorewrite with buf. split_and!; [congruence| | |done].
    + apply (rep_intro _ _ ([0] ++ rest4)); autorewrite with buf; rewrite ?blen_app; try lia; done.
    + right; right. autorewrite with buf. split; [lia|]. rewrite Hs4.
      replace (used b2 + blen bs) with (blen (l ++ bs)) by (rewrite blen_app; lia).
      apply lookup_after.
Qed.

(** ** Stores and moves inside the storage *)

Lemma buf_store_ok b off bs :
  0 <= off -> off + blen bs <= blen (storage b) ->
  exists b', buf_store b off bs = Ret b'
    /\ flags b' = flags b /\ capacity b' = capacity b /\ used b' = used b
    /\ storage b' = take (Z.to_nat off) (storage b) ++ bs
                     ++ drop (Z.to_nat off + length bs) (storage b)
    /\ blen (storage b') = blen (storage b).
Proof.
  intros Hoff Hfit. unfold buf_store. destruct (Z.eqb_spec (blen bs) 0) as [Hz|].
  - apply blen_zero_nil in Hz as ->. exists b. split_and!; try done. cbn [app length].
    by rewrite Nat.add_0_r, take_drop.
  - rewrite mem_store_ok by done. rewrite bind_ret. eexists. split; [done|].
    autorewrite with buf. split_and!; try done. autorewrite with blen. unfold blen in *. lia.
Qed.

(** Overwriting from a position inside or at the end of the contents *)
Definition overwrite (pos : Z) (bs l : list Z) : list Z :=
  take (Z.to_nat pos) l ++ bs ++ drop (Z.to_nat pos + length bs) l.

Lemma blen_overwrite pos bs l :
  0 <= pos <= blen l -> blen (overwrite pos bs l) = Z.max (blen l) (pos + blen bs).
Proof. intros. unfold overwrite. autorewrite with blen. unfold blen in *. lia. Qed.

Lemma store_at_spec b l pos bs :
  rep b l -> 0 <= pos <= used b -> pos + blen bs <= capacity b ->
  exists b', buf_store b pos bs = Ret b'
    /\ flags b' = flags b /\ capacity b' = capacity b /\ used b' = used b
    /\ rep (set_used b' (Z.max (used b) (pos + blen bs))) (overwrite pos bs l)
    /\ (forall i, pos + blen bs <= i -> storage b' !! Z.to_nat i = storage b !! Z.to_nat i).
Proof.
  intros [Hu Hf Hc [rest Hs]] Hpos Hfit. pose proof (blen_nonneg bs).
  destruct (buf_store_ok b pos bs) as (b' & -> & Hfl & Hcap & Hus & Hst & Hlen); [lia|lia|].
  exists b'. split_and!; try done.
  - apply (rep_intro _ _ (drop (Z.to_nat pos + length bs - length l) rest)); autorewrite with buf.
    + rewrite Hst, Hs. unfold overwrite.
      rewrite take_app_le by (unfold blen in *; lia). rewrite drop_app. by rewrite <- !app_assoc.
    + rewrite blen_overwrite by lia. lia.
    + rewrite blen_overwrite, Hlen, Hcap by lia. lia.
    + lia.
  - intros i Hi. rewrite Hst, app_assoc. rewrite lookup_app_r.
    2: { rewrite length_app, length_take. unfold blen in *. lia. }
    rewrite lookup_drop. f_equal. rewrite length_app, length_take. unfold blen in *. lia.
Qed.

(** A gap of [n] bytes at [pos], filled by [code] later on *)
Lemma gap_spec b l1 l2 pos n :
  rep b (l1 ++ l2) -> pos = blen l1 -> 0 <= n -> used b + n <= capacity b ->
  exists b' gap rest, buf_move b (pos + n) pos (used b - pos) = Ret b'
    /\ flags b' = flags b /\ capacity b' = capacity b /\ used b' = used b
    /\ storage b' = l1 ++ gap ++ l2 ++ rest /\ blen gap = n
    /\ capacity b <= blen (storage b').
Proof.
  intros Hrep -> Hn Hfit. destruct (buf_rep_storage _ _ Hrep) as (rest & Hs & Hrest & Hu).
  destruct Hrep as [_ Hf _ _]. rewrite <- app_assoc in Hs. rewrite blen_app in *.
  pose proof (blen_nonneg l1). pose proof (blen_nonneg l2). unfold buf_move.
  destruct (Z.eqb_spec (used b - blen l1) 0) as [Hz|].
  - assert (l2 = []) as -> by (apply blen_zero_nil; lia). change (blen []) with 0 in *.
    exists b, (take (Z.to_nat n) rest), (drop (Z.to_nat n) rest). split_and!; try done.
    + cbn [app] in *. by rewrite take_drop.
    + rewrite blen_take. lia.
    + lia.
  - rewrite Hs, (mem_move_up l1 l2 rest _ _ _ n) by lia. rewrite bind_ret.
    do 3 eexists. split; [done|]. autorewrite with buf. split_and!; try done.
    + rewrite blen_take, blen_app. lia.
    + rewrite !blen_app, blen_take, blen_drop, blen_app. rewrite Hs, !blen_app in Hf. lia.
Qed.

(** Filling the gap completes an insertion. *)
Lemma fill_gap b l1 l2 gap rest bs :
  storage b = l1 ++ gap ++ l2 ++ rest -> blen gap = blen bs ->
  used b = blen (l1 ++ l2) -> used b + blen bs <= capacity b ->
  capacity b <= blen (storage b) -> capacity b <= SSIZE_MAX ->
  exists b', buf_store b (blen l1) bs = Ret b'
    /\ flags b' = flags b /\ capacity b' = capacity b /\ used b' = used b
    /\ rep (set_used b' (used b' + blen bs)) (l1 ++ bs ++ l2).
Proof.
  intros Hs Hgap Hu Hfit Hcap Hmax. pose proof (blen_nonneg l1). pose proof (blen_nonneg bs).
  destruct (buf_store_ok b (blen l1) bs) as (b' & -> & Hfl & Hc & Hus & Hst & Hlen); [lia| |].
  { rewrite Hs, !blen_app. pose proof (blen_nonneg l2). pose proof (blen_nonneg rest). lia. }
  exists b'. split_and!; try done.
  apply (rep_intro _ _ rest); autorewrite with buf.
  - rewrite Hst, Hs, blen_to_nat, take_app_length, drop_app_add.
    assert (length bs = length gap) as -> by (unfold blen in Hgap; lia).
    rewrite drop_app_length. by rewrite <- !app_assoc.
  - rewrite !blen_app in *. lia.
  - rewrite Hlen, !blen_app in *. lia.
  - lia.
Qed.

(** ** Single characters *)

Lemma append_char_spec b l c :
  rep b l ->
  exists r b', sol_buffer_append_char b c = Ret (r, b') /\ writes r b b' l (l ++ [c])
    /\ (used b + 1 + nul_byte_size b <= capacity b -> r = 0).
Proof.
  intros Hrep. unfold sol_buffer_append_char.
  destruct (expand_spec b l 1 Hrep) as (r & b1 & -> & Hfl & Hrep1 & Hr & Hin & _); [zlia|].
  rewrite bind_ret. pose proof (nul_byte_size_cases b) as Hnul.
  destruct Hr as [[-> Hroom]|[Hneg ->]]; cbn [Z.ltb Z.compare].
  2: { rewrite (proj2 (Z.ltb_lt r 0)) by done. exists r, b. split_and!; [done|by apply writes_fail|].
       intros Hle. destruct (Hin Hle); lia. }
  pose proof Hrep1 as [Hu1 Hf1 Hc1 _]. pose proof Hrep as [Hu _ _ _]. unfold sol_buffer_at_end.
  destruct (store_end_spec b1 l [c] Hrep1) as (b2 & -> & Hfl2 & Hc2 & Hu2 & [rest Hs2] & Hl2);
    [change (blen [c]) with 1; lia|]. rewrite bind_ret.
  set (b3 := set_used b2 (used b2 + 1)).
  assert (rep b3 (l ++ [c])) as Hrep3.
  { apply (rep_intro _ _ rest); subst b3; autorewrite with buf; rewrite ?blen_app;
      change (blen [c]) with 1; try lia. by rewrite <- app_assoc. }
  assert ((if negb (nul_byte_size b3 =? 0) then sol_buffer_ensure_nul_byte b3 else Ret (0, b3))
    = finish b3) as ->.
  { unfold finish, SOL_BUFFER_NEEDS_NUL_BYTE, nul_byte_size. by destruct (has b3 _). }
  destruct (finish_room b3 _ Hrep3) as (b' & -> & Hfl' & Hrep' & Hterm & _).
  { rewrite (nul_byte_size_flags b) by (subst b3; autorewrite with buf; congruence).
    subst b3; autorewrite with buf. lia. }
  exists 0, b'. split_and!; [done| |done]. apply writes_done; [|done|done].
  rewrite Hfl'. subst b3. autorewrite with buf. congruence.
Qed.

Lemma take_take_all (l : list Z) n : blen l <= n -> take (Z.to_nat n) l = l.
Proof. intros. apply take_ge. unfold blen in *. lia. Qed.

Lemma set_slice_spec b l bs :
  rep b l ->
  exists r b', sol_buffer_set_slice b bs = Ret (r, b') /\ writes r b b' l bs
    /\ (blen bs + nul_byte_size b <= capacity b -> r = 0).
Proof.
  intros Hrep. unfold sol_buffer_set_slice. pose proof (blen_nonneg bs).
  destruct (ensure_spec b l (blen bs) Hrep) as (r & b1 & -> & Hfl & Hrep1 & Hr & Hin & _); [done|].
  rewrite bind_ret. pose proof (nul_byte_size_cases b) as Hnul.
  destruct Hr as [[-> Hroom]|[Hneg ->]]; cbn [Z.ltb Z.compare].
  2: { rewrite (proj2 (Z.ltb_lt r 0)) by done. exists r, b. split_and!; [done|by apply writes_fail|].
       intros Hle. destruct (Hin Hle); lia. }
  pose proof Hrep1 as [Hu1 Hf1 Hc1 _].
  destruct (buf_store_ok b1 0 bs) as (b2 & -> & Hfl2 & Hc2 & Hu2 & Hs2 & Hl2); [lia|lia|].
  rewrite bind_ret. set (b3 := set_used b2 (blen bs)).
  assert (rep b3 bs) as Hrep3.
  { eapply (rep_intro _ _ (drop (length bs) (storage b1))); subst b3; autorewrite with buf; [|lia..].
    rewrite Hs2. done. }
  destruct (finish_room b3 _ Hrep3) as (b' & -> & Hfl' & Hrep' & Hterm & _).
  { rewrite (nul_byte_size_flags b) by (subst b3; autorewrite with buf; congruence).
    subst b3; autorewrite with buf. lia. }
  exists 0, b'. split_and!; [done| |done]. apply writes_done; [|done|done].
  rewrite Hfl'. subst b3. autorewrite with buf. congruence.
Qed.

(** ** Insertion *)

Lemma insert_bytes_spec b l pos bs :
  rep b l -> 0 <= pos -> blen bs < SIZE_MAX ->
  exists r b', sol_buffer_insert_bytes b pos bs = Ret (r, b')
    /\ writes r b b' l (take (Z.to_nat pos) l ++ bs ++ drop (Z.to_nat pos) l)
    /\ (r = 0 -> pos <= used b)
    /\ (pos <= used b -> used b + blen bs + nul_byte_size b <= capacity b -> r = 0).
Proof.
  intros Hrep Hpos Hbs. unfold sol_buffer_insert_bytes. pose proof Hrep as [Hu _ _ _].
  rewrite Z.gtb_ltb. destruct (Z.ltb_spec (used b) pos).
  { exists (- EINVAL), b. split_and!; [done|apply writes_fail; done|discriminate|lia]. }
  pose proof (blen_nonneg bs).
  destruct (Z.eqb_spec (blen bs) 0) as [Hz|Hz].
  { apply blen_zero_nil in Hz as ->. cbn [app]. rewrite take_drop.
    destruct (finish_spec b l Hrep) as (r & b' & -> & Hw & Hin). exists r, b'.
    split_and!; [done|done|done|]. intros _ Hle. apply Hin. change (blen []) with 0 in *. lia. }
  destruct (Z.eqb_spec pos (used b)) as [->|].
  { rewrite Hu, blen_to_nat, take_ge, drop_ge, app_nil_r by done.
    destruct (append_bytes_spec b l bs Hrep Hbs) as (r & b' & -> & Hw & Hin & _). exists r, b'.
    split_and!; [done|done|lia|]. intros _ Hle. apply Hin. lia. }
  destruct (expand_spec b l (blen bs) Hrep) as (r & b1 & -> & Hfl & Hrep1 & Hr & Hin & _); [lia|].
  rewrite bind_ret. pose proof (nul_byte_size_cases b) as Hnul.
  destruct Hr as [[-> Hroom]|[Hneg ->]]; cbn [Z.ltb Z.compare].
  2: { rewrite (proj2 (Z.ltb_lt r 0)) by done. exists r, b.
       split_and!; [done|by apply writes_fail|lia|]. intros _ Hle. destruct (Hin Hle); lia. }
  set (l1 := take (Z.to_nat pos) l). set (l2 := drop (Z.to_nat pos) l).
  assert (l = l1 ++ l2) as Hl by (symmetry; apply take_drop).
  assert (pos = blen l1) as Hp by (subst l1; rewrite blen_take; lia).
  clearbody l1 l2. subst l. pose proof Hrep1 as [Hu1 Hf1 Hc1 _].
  destruct (gap_spec b1 l1 l2 pos (blen bs) Hrep1 Hp)
    as (b2 & gap & rest & -> & Hfl2 & Hc2 & Hu2 & Hs2 & Hg & Hcap2); [done|lia|].
  rewrite bind_ret, Hp.
  destruct (fill_gap b2 l1 l2 gap rest bs) as (b3 & -> & Hfl3 & Hc3 & Hu3 & Hrep3);
    [done|done|lia|lia|lia|lia|]. rewrite bind_ret.
  destruct (finish_room _ _ Hrep3) as (b' & -> & Hfl' & Hrep' & Hterm & _).
  { rewrite (nul_byte_size_flags b) by (autorewrite with buf; congruence). autorewrite with buf. lia. }
  autorewrite with buf in *. exists 0, b'. split_and!; [done| |lia|done].
  apply writes_done; [congruence|done|done].
Qed.

Lemma insert_char_spec b l pos c :
  rep b l -> 0 <= pos ->
  exists r b', sol_buffer_insert_char b pos c = Ret (r, b')
    /\ writes r b b' l (take (Z.to_nat pos) l ++ [c] ++ drop (Z.to_nat pos) l)
    /\ (r = 0 -> pos <= used b).
Proof.
  intros Hrep Hpos. unfold sol_buffer_insert_char. pose proof Hrep as [Hu _ _ _].
  rewrite Z.gtb_ltb. destruct (Z.ltb_spec (used b) pos).
  { exists (- EINVAL), b. split_and!; [done|apply writes_fail; done|discriminate]. }
  destruct (Z.eqb_spec pos (used b)) as [->|].
  { rewrite Hu, blen_to_nat, take_ge, drop_ge, app_nil_r by done.
    destruct (append_char_spec b l c Hrep) as (r & b' & -> & Hw & _). exists r, b'.
    split_and!; [done|done|lia]. }
  destruct (expand_spec b l 1 Hrep) as (r & b1 & -> & Hfl & Hrep1 & Hr & Hin & _); [zlia|].
  rewrite bind_ret. pose proof (nul_byte_size_cases b) as Hnul.
  destruct Hr as [[-> Hroom]|[Hneg ->]]; cbn [Z.ltb Z.compare].
  2: { rewrite (proj2 (Z.ltb_lt r 0)) by done. exists r, b. split_and!; [done|by apply writes_fail|lia]. }
  set (l1 := take (Z.to_nat pos) l). set (l2 := drop (Z.to_nat pos) l).
  assert (l = l1 ++ l2) as Hl by (symmetry; apply take_drop).
  assert (pos = blen l1) as Hp by (subst l1; rewrite blen_take; lia).
  clearbody l1 l2. subst l. pose proof Hrep1 as [Hu1 Hf1 Hc1 _].
  destruct (gap_spec b1 l1 l2 pos 1 Hrep1 Hp)
    as (b2 & gap & rest & -> & Hfl2 & Hc2 & Hu2 & Hs2 & Hg & Hcap2); [done|lia|].
  rewrite bind_ret, Hp. change 1 with (blen [c]) in *.
  destruct (fill_gap b2 l1 l2 gap rest [c]) as (b3 & -> & Hfl3 & Hc3 & Hu3 & Hrep3);
    [done|done|lia|lia|lia|lia|]. rewrite bind_ret.
  destruct (finish_room _ _ Hrep3) as (b' & -> & Hfl' & Hrep' & Hterm & _).
  { rewrite (nul_byte_size_flags b) by (autorewrite with buf; congruence). autorewrite with buf. lia. }
  autorewrite with buf in *. exists 0, b'. split_and!; [done| |lia].
  apply writes_done; [congruence|done|done].
Qed.

(** ** Overwriting *)

(** In a buffer whose contents leave no room for the NUL, placing the NUL is a
    second step that may fail after the character was stored. *)
Lemma set_char_at_spec b l pos c :
  rep b l -> 0 <= pos ->
  exists r b', sol_buffer_set_char_at b pos c = Ret (r, b')
    /\ flags b' = flags b
    /\ (r = 0 /\ pos <= used b /\ rep b' (overwrite pos [c] l) /\ terminated b'
        \/ r < 0 /\ (rep b' l \/ capacity b < used b + nul_byte_size b /\ pos <= used b
                      /\ rep b' (overwrite pos [c] l))).
Proof.
  intros Hrep Hpos. unfold sol_buffer_set_char_at. pose proof Hrep as [Hu Hf Hc _].
  pose proof (nul_byte_size_cases b) as Hnul.
  destruct (Z.ltb_spec (used b) pos).
  { exists (- EINVAL), b. split_and!; auto. right. split; [done|auto]. }
  rewrite wrapu_small by zlia. rewrite Z.geb_leb.
  rewrite (proj2 (Z.leb_gt _ 1)) by zlia.
  destruct (ensure_spec b l (pos + 1) Hrep) as (r & b1 & -> & Hfl & Hrep1 & Hr & Hin & _); [lia|].
  rewrite bind_ret.
  destruct Hr as [[-> Hroom]|[Hneg ->]]; cbn [Z.ltb Z.compare].
  2: { rewrite (proj2 (Z.ltb_lt r 0)) by done. exists r, b. split_and!; auto. }
  pose proof Hrep1 as [Hu1 Hf1 Hc1 _]. change 1 with (blen [c]) in *.
  destruct (store_at_spec b1 l pos [c] Hrep1)
    as (b2 & -> & Hfl2 & Hc2 & Hu2 & Hrep2 & _); [lia|lia|]. rewrite bind_ret.
  set (b3 := if pos + blen [c] >=? used b2 then set_used b2 (pos + blen [c]) else b2).
  assert (rep b3 (overwrite pos [c] l) /\ flags b3 = flags b
    /\ (used b + nul_byte_size b <= capacity b -> used b3 + nul_byte_size b <= capacity b3))
    as (Hrep3 & Hfl3 & Hroom3).
  { subst b3. rewrite Z.geb_leb. destruct (Z.leb_spec (used b2) (pos + blen [c])).
    - rewrite Z.max_r in Hrep2 by lia. autorewrite with buf. split_and!; [done|congruence|lia].
    - rewrite Z.max_l in Hrep2 by lia. split_and!; [|congruence|].
      + replace b2 with (set_used b2 (used b1)); [done|]. unfold set_used. rewrite <- Hu2.
        by destruct b2.
      + change (blen [c]) with 1 in *. destruct Hin as [_ ->]; lia. }
  assert ((if negb (nul_byte_size b =? 0) then sol_buffer_ensure_nul_byte b3 else Ret (0, b3))
    = finish b3) as ->.
  { unfold finish, SOL_BUFFER_NEEDS_NUL_BYTE, nul_byte_size. rewrite (has_flags b b3) by done.
    by destruct (has b _). }
  clearbody b3.
  destruct (finish_spec b3 _ Hrep3) as (r & b' & -> & [Hfl' Hw] & Hfin).
  exists r, b'. split; [done|]. split; [congruence|].
  rewrite (nul_byte_size_flags b) in Hfin by done.
  destruct Hw as [(-> & ? & ?)|(? & ?)]; [left; split_and!; done || lia|].
  right. split; [done|]. right. split; [|by split; [lia|]].
  destruct (Z.le_gt_cases (used b + nul_byte_size b) (capacity b)); [|lia].
  destruct Hfin; [auto|lia].
Qed.

(** [set_slice_at] terminates the buffer only when it grows; inside the
    contents it leaves the terminator where it was. *)
Lemma set_slice_at_spec b l pos bs :
  rep b l -> 0 <= pos -> blen bs <= SIZE_MAX -> bs <> [] ->
  exists r b', sol_buffer_set_slice_at b pos bs = Ret (r, b')
    /\ flags b' = flags b
    /\ (r = 0 /\ pos <= used b /\ rep b' (overwrite pos bs l) /\ (terminated b -> terminated b')
        \/ r < 0 /\ rep b' l).
Proof.
  intros Hrep Hpos Hbs Hne. unfold sol_buffer_set_slice_at. pose proof Hrep as [Hu Hf Hc _].
  pose proof (nul_byte_size_cases b) as Hnul. pose proof (blen_nonneg bs).
  destruct (Z.eqb_spec (blen bs) 0) as [Hz|Hz]; [by apply blen_zero_nil in Hz|].
  destruct (Z.ltb_spec (used b) pos).
  { exists (- EINVAL), b. split_and!; auto. right. split; [zlia|done]. }
  rewrite wrapu_small by zlia. rewrite Z.geb_leb.
  destruct (Z.leb_spec (SIZE_MAX - nul_byte_size b - pos) (blen bs)).
  { exists (- EOVERFLOW), b. split_and!; auto. right. split; [zlia|done]. }
  destruct (ensure_spec b l (pos + blen bs) Hrep) as (r & b1 & -> & Hfl & Hrep1 & Hr & Hin & _); [lia|].
  rewrite bind_ret.
  destruct Hr as [[-> Hroom]|[Hneg ->]]; cbn [Z.ltb Z.compare].
  2: { rewrite (proj2 (Z.ltb_lt r 0)) by done. exists r, b. split_and!; auto. }
  pose proof Hrep1 as [Hu1 Hf1 Hc1 _].
  destruct (store_at_spec b1 l pos bs Hrep1)
    as (b2 & -> & Hfl2 & Hc2 & Hu2 & Hrep2 & Hkeep); [lia|lia|]. rewrite bind_ret.
  rewrite Z.geb_leb. destruct (Z.leb_spec (used b2) (pos + blen bs)).
  - rewrite Z.max_r in Hrep2 by lia. set (b3 := set_used b2 (pos + blen bs)) in *.
    destruct (Z.eqb_spec (nul_byte_size b) 0) as [Hn0|Hn0]; cbn [negb]; rewrite ?bind_ret.
    + exists 0, b3. split; [done|]. split; [subst b3; autorewrite with buf; congruence|]. left.
      split_and!; [done|lia|done|]. intros _. left.
      rewrite (has_flags b) by (subst b3; autorewrite with buf; congruence).
      unfold nul_byte_size in Hn0. by destruct (has b _).
    + destruct (store_end_spec b3 _ [0] Hrep2) as (b4 & -> & Hfl4 & Hc4 & Hu4 & [rest Hs4] & Hl4).
      { subst b3. autorewrite with buf. change (blen [0]) with 1. lia. }
      rewrite bind_ret. pose proof Hrep2 as [Hu3 Hf3 Hc3 _].
      assert (used b3 = pos + blen bs /\ capacity b3 = capacity b1) as [Hub Hcb]
        by (subst b3; by autorewrite with buf).
      exists 0, b4. split; [done|]. split; [rewrite Hfl4; subst b3; autorewrite with buf; congruence|].
      left. split_and!; [done|lia| |].
      * apply (rep_intro _ _ ([0] ++ rest)); [done|congruence|lia|lia].
      * intros _. right; right. split; [lia|]. rewrite Hs4, Hu4, Hu3. apply lookup_after.
  - rewrite Z.max_l in Hrep2 by lia.
    replace (set_used b2 (used b1)) with b2 in Hrep2
      by (unfold set_used; rewrite <- Hu2; by destruct b2).
    destruct Hin as [_ ->]; [lia|].
    exists 0, b2. split_and!; [done|congruence|]. left. split_and!; [done|lia|done|].
    unfold terminated. rewrite (has_flags b b2), Hu2, Hc2 by done.
    rewrite !Hkeep by lia. done.
Qed.

(** ** Removal *)

(** Once the arguments are valid, the bytes are gone whatever is returned:
    an error then means that the storage could not be resized or the
    terminator not placed. *)
Lemma remove_data_spec b l offset size :
  rep b l -> 0 <= offset -> 0 <= size <= SIZE_MAX ->
  exists r b', sol_buffer_remove_data b offset size = Ret (r, b')
    /\ flags b' = flags b /\ (r = 0 -> terminated b')
    /\ (if bool_decide (offset <= used b /\ size + offset <= SIZE_MAX)
        then rep b' (take (Z.to_nat offset) l ++ drop (Z.to_nat (offset + size)) l) /\ r <= 0
        else r < 0 /\ b' = b).
Proof.
  intros Hrep Hoff Hsize. unfold sol_buffer_remove_data. pose proof Hrep as [Hu Hf Hc [rest Hs]].
  destruct (Z.ltb_spec (used b) offset).
  { rewrite bool_decide_false by lia. exists (- EINVAL), b. split_and!; done. }
  destruct (Z.le_gt_cases (size + offset) SIZE_MAX) as [Hfit|Hbig].
  2: { rewrite bool_decide_false by lia. pose proof (size_add_refused size offset 0) as Hadd.
       destruct (sol_util_size_add size offset 0) as [err total]. cbn [fst] in Hadd.
       rewrite Hadd by zlia. exists (- EOVERFLOW), b. split_and!; done. }
  rewrite bool_decide_true by lia. rewrite size_add_exact by lia. cbn [Z.ltb Z.compare].
  set (size' := if size + offset <=? used b then size else used b - offset).
  set (l' := take (Z.to_nat offset) l ++ drop (Z.to_nat (offset + size)) l).
  assert (0 <= size' <= size /\ offset + size' <= used b
    /\ (size' < size -> offset + size' = used b)) as (Hs1 & Hs2 & Hs3)
    by (subst size'; destruct (Z.leb_spec (size + offset) (used b)); lia).
  assert (l' = take (Z.to_nat offset) l ++ drop (Z.to_nat (offset + size')) l) as Hl'.
  { subst l'. f_equal. destruct (Z.eq_dec size' size) as [->|]; [done|].
    rewrite !drop_ge; [done|..]; unfold blen in *; lia. }
  assert (blen l' = used b - size') as Hlen by (rewrite Hl', blen_app, blen_take, blen_drop; lia).
  assert (exists b1, (if negb (used b =? size + offset)
      then buf_move b offset (size + offset) (used b - size' - offset) else Ret b) = Ret b1
      /\ flags b1 = flags b /\ used b1 = used b /\ rep (set_used b1 (used b1 - size')) l')
    as (b1 & -> & Hfl1 & Hu1 & Hrep1).
  { assert (forall b1, storage b1 = storage b -> capacity b1 = capacity b -> used b1 = used b ->
      offset + size' = used b -> rep (set_used b1 (used b1 - size')) l') as Htail.
    { intros b1 Hsb Hcb Hub Hend.
      apply (rep_intro _ _ (drop (Z.to_nat offset) l ++ rest)); autorewrite with buf.
      - rewrite Hsb, Hs, Hl', (drop_ge l), app_nil_r by (unfold blen in *; lia).
        by rewrite app_assoc, take_drop.
      - lia.
      - rewrite Hsb. lia.
      - lia. }
    unfold buf_move.
    destruct (Z.eqb_spec (used b) (size + offset)); cbn [negb].
    { exists b. split_and!; try done. apply Htail; try done. lia. }
    destruct (Z.eqb_spec (used b - size' - offset) 0).
    { exists b. split_and!; try done. apply Htail; try done. lia. }
    assert (size' = size) as Heq by lia. rewrite Heq in *.
    rewrite Hs, <- (take_drop (Z.to_nat offset) l), <- app_assoc.
    rewrite <- (take_drop (Z.to_nat size) (drop (Z.to_nat offset) l)), <- app_assoc.
    rewrite mem_move_down.
    2: { rewrite blen_take. lia. }
    2: { rewrite !blen_take, blen_drop. lia. }
    2: { rewrite !blen_drop. lia. }
    rewrite bind_ret. eexists. split; [done|]. autorewrite with buf. split_and!; try done.
    eapply rep_intro; autorewrite with buf.
    - rewrite Hl', drop_drop. replace (Z.to_nat offset + Z.to_nat size)%nat
        with (Z.to_nat (offset + size)) by lia. by rewrite <- app_assoc.
    - lia.
    - rewrite Hs, blen_app in Hf. autorewrite with blen. rewrite !length_drop.
      unfold blen in *. lia.
    - lia. }
  rewrite bind_ret. set (b2 := set_used b1 (used b1 - size')) in *.
  assert (flags b2 = flags b) as Hfl2 by (subst b2; by autorewrite with buf).
  assert (used b2 <= capacity b2) as Hle2 by (destruct Hrep1 as [? ? ? _]; lia).
  clearbody b2. pose proof (nul_byte_size_cases b2) as Hnul. pose proof Hrep1 as [Hu2 Hf2 Hc2 _].
  assert (exists r b3, (if negb (has b2 SOL_BUFFER_FLAGS_MEMORY_NOT_OWNED)
      then sol_buffer_resize b2 (align_power2_size (used b2 + nul_byte_size b2))
      else Ret (0, b2)) = Ret (r, b3) /\ flags b3 = flags b /\ rep b3 l' /\ r <= 0)
    as (r & b3 & -> & Hfl3 & Hrep3 & Hr).
  { destruct (negb _); [|exists 0, b2; done]. pose proof (blen_nonneg l').
    pose proof (align_size_ge (used b2 + nul_byte_size b2)).
    destruct (resize_spec b2 l' (align_power2_size (used b2 + nul_byte_size b2)) Hrep1)
      as (r & b3 & -> & Hfl3 & Hcase & _); [zlia|].
    exists r, b3. split; [done|]. split; [congruence|].
    destruct Hcase as [(-> & Hrep3 & _)|([-> | ->] & ->)]; [|split; [done|zlia]..].
    rewrite take_take_all in Hrep3 by zlia. done. }
  rewrite bind_ret. destruct (Z.ltb_spec r 0).
  { exists r, b3. split_and!; try done. lia. }
  destruct (finish_spec b3 l' Hrep3) as (r' & b' & -> & [Hfl' Hw] & _).
  exists r', b'. split; [done|]. split; [congruence|].
  destruct Hw as [(-> & ? & ?)|(? & ?)]; (split; [|split; [done|lia]]); [done|lia].
Qed.

(** ** Formatted output *)

(** What [vsnprintf] leaves behind: all of the text and a NUL when it fits,
    otherwise a damaged byte where the terminator was, but the same
    contents. *)
Lemma vsnprintf_spec b l cs :
  rep b l ->
  exists b', vsnprintf b (used b) (capacity b - used b) (inr cs) = Ret (inr (blen cs), b')
    /\ flags b' = flags b /\ capacity b' = capacity b /\ used b' = used b /\ rep b' l
    /\ (blen cs < capacity b - used b ->
        rep (set_used b' (used b + blen cs)) (l ++ cs)
        /\ storage b' !! Z.to_nat (used b + blen cs) = Some 0).
Proof.
  intros Hrep. pose proof Hrep as [Hu Hf Hc _]. pose proof (blen_nonneg cs). unfold vsnprintf.
  destruct (Z.eqb_spec (capacity b - used b) 0).
  { exists b. split_and!; try done; lia. }
  set (out := take (Z.to_nat (capacity b - used b - 1)) cs ++ [0]).
  assert (blen out <= capacity b - used b) as Hout
    by (subst out; autorewrite with blen; lia).
  destruct (store_end_spec b l out Hrep) as (b' & -> & Hfl & Hcap & Hus & [rest Hs] & Hl); [lia|].
  rewrite bind_ret. exists b'. split_and!; try done.
  - apply (rep_intro _ _ (out ++ rest)); [done|lia|lia|lia].
  - intros Hfit. assert (out = cs ++ [0]) as Hall.
    { subst out. rewrite take_ge; [done|]. unfold blen in *. lia. }
    rewrite Hall in Hs. split.
    + apply (rep_intro _ _ ([0] ++ rest)); autorewrite with buf; rewrite ?blen_app; try lia.
      by rewrite Hs, <- !app_assoc.
    + rewrite Hs, <- app_assoc, app_assoc. replace (used b + blen cs) with (blen (l ++ cs))
        by (rewrite blen_app; lia). apply lookup_after.
Qed.

(** A failed [append_vprintf] keeps the contents; a successful one appends the
    text and always terminates it, even when the buffer asks for no NUL. *)
Lemma append_vprintf_spec b l cs :
  rep b l -> blen cs <= INT_MAX ->
  exists r b', sol_buffer_append_vprintf b (inr cs) = Ret (r, b')
    /\ flags b' = flags b
    /\ (r = 0 /\ rep b' (l ++ cs) /\ terminated b' /\ used b' < capacity b'
        \/ r < 0 /\ rep b' l).
Proof.
  intros Hrep Hcs. pose proof (blen_nonneg cs). pose proof (blen_nonneg l). pose proof Hrep as [Hu Hf Hc _].
  unfold sol_buffer_append_vprintf, sol_buffer_at_end.
  rewrite (wrapu_small 64 (capacity b - used b)) by zlia.
  destruct (vsnprintf_spec b l cs Hrep) as (b1 & -> & Hfl1 & Hc1 & Hu1 & Hrep1 & Hfit1).
  rewrite bind_ret, Z.geb_leb.
  assert (Hdone : forall b2, rep (set_used b2 (used b2 + blen cs)) (l ++ cs) ->
    flags b2 = flags b -> used b2 + blen cs < capacity b2 ->
    storage b2 !! Z.to_nat (used b2 + blen cs) = Some 0 ->
    exists r b', Ret (0, set_used b2 (used b2 + blen cs)) = Ret (r, b') /\ flags b' = flags b
      /\ (r = 0 /\ rep b' (l ++ cs) /\ terminated b' /\ used b' < capacity b'
          \/ r < 0 /\ rep b' l)).
  { intros b2 Hr2 Hfl2 Hlt Hnul. eexists 0, _. split; [done|]. autorewrite with buf.
    split; [done|]. left. split_and!; [done|done| |done].
    right; right. autorewrite with buf. by split. }
  destruct (Z.leb_spec (capacity b - used b) (blen cs)).
  2: { destruct Hfit1 as [Hr1 Hnul1]; [lia|]. rewrite <- Hu1 in Hr1, Hnul1.
       apply Hdone; [done|done|lia|done]. }
  rewrite Hu1, size_add_exact by zlia. cbn [Z.ltb Z.compare].
  unfold SOL_BUFFER_NEEDS_NUL_BYTE. rewrite (has_flags b b1) by done.
  set (no_nul := has b SOL_BUFFER_FLAGS_NO_NUL_BYTE).
  destruct (negb (negb no_nul) && (used b + blen cs >=? SIZE_MAX - 1)) eqn:Hov.
  { exists (- EOVERFLOW), b1. split_and!; [done|done|right; split; [zlia|done]]. }
  set (n := if negb no_nul then used b + blen cs else used b + blen cs + 1).
  destruct (ensure_spec b1 l n Hrep1) as (r & b2 & -> & Hfl2 & Hrep2 & Hr & _ & _).
  { subst n. destruct (negb no_nul); lia. }
  rewrite bind_ret.
  destruct Hr as [[-> Hroom]|[Hneg ->]]; cbn [Z.ltb Z.compare].
  2: { rewrite (proj2 (Z.ltb_lt r 0)) by done. exists r, b1. split_and!; auto. }
  rewrite (nul_byte_size_flags b b1) in Hroom by done.
  assert (used b + blen cs + 1 <= capacity b2) as Hspace.
  { subst n. unfold nul_byte_size in Hroom. fold no_nul in Hroom. destruct no_nul; cbn in Hroom; lia. }
  pose proof Hrep2 as [Hu2 Hf2 Hc2 _].
  rewrite (wrapu_small 64 (capacity b2 - used b2)) by zlia.
  destruct (vsnprintf_spec b2 l cs Hrep2) as (b3 & -> & Hfl3 & Hc3 & Hu3 & Hrep3 & Hfit3).
  rewrite bind_ret. destruct Hfit3 as [Hr3 Hnul3]; [lia|]. rewrite <- Hu3 in Hr3, Hnul3.
  apply Hdone; [done|congruence|lia|done].
Qed.

(** ** Encoders and decoders on buffers *)

(** What is asked of a coder that announced [n] bytes: it returns [r] and
    leaves [out] in the region it was given, nothing else. *)
Definition coder_ok (code : block -> Z -> Z -> outcome (Z * block)) (n r : Z) (out : list Z)
    : Prop :=
  blen out = n /\ (r <> n -> r <= n) /\
  forall pre mid post, blen mid = n ->
    exists mid', code (pre ++ mid ++ post) (blen pre) n = Ret (r, pre ++ mid' ++ post)
      /\ blen mid' = n /\ (r = n -> mid' = out).

(** The result of a buffer operation around such a coder *)
Definition coded (n r : Z) (r' : Z) (b b' : sol_buffer) (l l' : list Z) : Prop :=
  writes r' b b' l l' /\ (r' = 0 -> r = n).

Lemma append_coded_spec b l len size code n r out :
  rep b l -> len <> 0 -> size = Ret n -> 0 < n < SIZE_MAX -> coder_ok code n r out ->
  exists r' b', append_coded b len size code = Ret (r', b') /\ coded n r r' b b' l (l ++ out)
    /\ (r = n -> used b + n + nul_byte_size b <= capacity b -> r' = 0).
Proof.
  intros Hrep Hlen -> Hn (Hout & Hle & Hcode). unfold append_coded.
  rewrite (proj2 (Z.eqb_neq len 0)), bind_ret by done.
  rewrite (proj2 (Z.ltb_ge n 0)) by lia. pose proof (nul_byte_size_cases b) as Hnul.
  destruct (expand_spec b l n Hrep) as (e & b1 & -> & Hfl & Hrep1 & Hr & Hin & _); [lia|].
  rewrite bind_ret.
  destruct Hr as [[-> Hroom]|[Hneg ->]]; cbn [Z.ltb Z.compare].
  2: { rewrite (proj2 (Z.ltb_lt e 0)) by done. exists e, b.
       split_and!; [done|split; [by apply writes_fail|lia]|]. intros _ Hfit. destruct (Hin Hfit); lia. }
  destruct (buf_rep_storage _ _ Hrep1) as (rest & Hs1 & Hrest1 & Hu1).
  destruct Hrep1 as [_ Hf1 Hc1 _]. pose proof Hrep as [Hu _ _ _].
  unfold sol_buffer_at_end, run_coder. unfold storage in Hs1, Hf1.
  destruct (data b1) as [m|] eqn:Hd.
  2: { cbn [default from_option] in Hf1. change (blen []) with 0 in Hf1.
       pose proof (blen_nonneg l). lia. }
  cbn [default from_option] in Hs1, Hf1. unfold id in *.
  destruct (Hcode l (take (Z.to_nat n) rest) (drop (Z.to_nat n) rest)) as (mid' & Hrun & Hmid & Heq);
    [rewrite blen_take; lia|].
  rewrite take_drop in Hrun. rewrite Hu1, Hs1, Hrun, !bind_ret.
  set (b2 := set_data b1 (Some (l ++ mid' ++ drop (Z.to_nat n) rest))).
  assert (blen (storage b2) = blen m) as Hl2.
  { subst b2. autorewrite with buf. rewrite Hs1, !blen_app, blen_drop. lia. }
  assert (rep b2 l) as Hrep2.
  { apply (rep_intro _ _ (mid' ++ drop (Z.to_nat n) rest)); subst b2; autorewrite with buf;
      [done|lia| |lia]. autorewrite with buf in Hl2. lia. }
  assert (flags b2 = flags b) as Hfl2 by (subst b2; by autorewrite with buf).
  destruct (Z.eqb_spec r n) as [->|Hne]; cbn [negb].
  - assert (mid' = out) by auto. subst mid'. set (b3 := set_used b2 (used b2 + n)).
    assert (rep b3 (l ++ out)) as Hrep3.
    { apply (rep_intro _ _ (drop (Z.to_nat n) rest)); subst b3 b2; autorewrite with buf in *;
        rewrite ?(blen_app l out); [by rewrite <- app_assoc|lia|lia|lia]. }
    destruct (finish_room b3 _ Hrep3) as (b' & -> & Hfl' & Hrep' & Hterm & _).
    { rewrite (nul_byte_size_flags b) by (subst b3; by autorewrite with buf).
      subst b3 b2; autorewrite with buf. lia. }
    exists 0, b'. split_and!; [done| |done]. split; [|done]. apply writes_done; [|done|done].
    rewrite Hfl'. subst b3. by autorewrite with buf.
  - destruct (finish_spec b2 l Hrep2) as (e' & b' & -> & [Hfl' Hw] & _). rewrite bind_ret.
    eexists _, b'. split; [done|].
    assert ((if r <? 0 then r else - EINVAL) < 0) as Hlt by (destruct (Z.ltb_spec r 0); zlia).
    split; [|lia]. split; [|lia].
    apply writes_fail; [congruence|done|]. by destruct Hw as [(_ & ? & _)|[_ ?]].
Qed.

Lemma insert_coded_spec b l pos len size code n r out :
  rep b l -> 0 <= pos -> len <> 0 -> size = Ret n -> 0 < n < SIZE_MAX -> coder_ok code n r out ->
  exists r' b', insert_coded b pos len size code = Ret (r', b')
    /\ coded n r r' b b' l (take (Z.to_nat pos) l ++ out ++ drop (Z.to_nat pos) l)
    /\ (r = n -> pos <= used b -> used b + n + nul_byte_size b <= capacity b -> r' = 0).
Proof.
  intros Hrep Hpos Hlen Hsize Hn Hok. unfold insert_coded. pose proof Hrep as [Hu _ _ _].
  rewrite Z.gtb_ltb. destruct (Z.ltb_spec (used b) pos).
  { exists (- EINVAL), b. split_and!; [done|split; [by apply writes_fail|done]|lia]. }
  rewrite (proj2 (Z.eqb_neq len 0)) by done.
  destruct (Z.eqb_spec pos (used b)) as [->|].
  { rewrite Hu, blen_to_nat, take_ge, drop_ge, app_nil_r by done.
    destruct (append_coded_spec b l len size code n r out Hrep Hlen Hsize Hn Hok)
      as (r' & b' & -> & Hw & Hin). exists r', b'. split_and!; auto. intros. apply Hin; [done|lia]. }
  destruct Hok as (Hout & Hle & Hcode). subst size. rewrite bind_ret.
  rewrite (proj2 (Z.ltb_ge n 0)) by lia. pose proof (nul_byte_size_cases b) as Hnul.
  destruct (expand_spec b l n Hrep) as (e & b1 & -> & Hfl & Hrep1 & Hr & Hin & _); [lia|].
  rewrite bind_ret.
  destruct Hr as [[-> Hroom]|[Hneg ->]]; cbn [Z.ltb Z.compare].
  2: { rewrite (proj2 (Z.ltb_lt e 0)) by done. exists e, b.
       split_and!; [done|split; [by apply writes_fail|lia]|]. intros _ _ Hfit. destruct (Hin Hfit); lia. }
  set (l1 := take (Z.to_nat pos) l). set (l2 := drop (Z.to_nat pos) l).
  assert (l = l1 ++ l2) as Hl by (symmetry; apply take_drop).
  assert (pos = blen l1) as Hp by (subst l1; rewrite blen_take; lia).
  clearbody l1 l2. subst l. pose proof Hrep1 as [Hu1 Hf1 Hc1 _].
  destruct (gap_spec b1 l1 l2 pos n Hrep1 Hp)
    as (b2 & gap & rest & -> & Hfl2 & Hc2 & Hu2 & Hs2 & Hg & Hcap2); [lia|lia|].
  rewrite bind_ret. unfold run_coder.
  destruct (data b2) as [m|] eqn:Hd.
  2: { unfold storage in Hcap2. rewrite Hd in Hcap2. cbn in Hcap2. change (blen []) with 0 in Hcap2.
       pose proof (blen_nonneg (l1 ++ l2)). lia. }
  assert (storage b2 = m) as Hm by (unfold storage; by rewrite Hd). rewrite Hm in *.
  destruct (Hcode l1 gap (l2 ++ rest) Hg) as (mid' & Hrun & Hmid & Heq).
  rewrite Hp, Hs2, Hrun, !bind_ret. set (b3 := set_data b2 (Some (l1 ++ mid' ++ l2 ++ rest))).
  assert (blen m = blen (l1 ++ l2) + n + blen rest) as Hlm
    by (rewrite Hs2, !blen_app, Hg; lia).
  assert (flags b3 = flags b /\ capacity b3 = capacity b1 /\ used b3 = used b
    /\ storage b3 = l1 ++ mid' ++ l2 ++ rest) as (Hfl3 & Hc3 & Hu3 & Hs3).
  { subst b3. autorewrite with buf. split_and!; try done; [congruence|lia]. }
  clearbody b3. pose proof (blen_nonneg rest).
  destruct (Z.eqb_spec r n) as [->|Hne]; cbn [negb].
  - rewrite Heq in * by done.
    assert (rep (set_used b3 (used b3 + n)) (l1 ++ out ++ l2)) as Hrep3.
    { apply (rep_intro _ _ rest); autorewrite with buf.
      - by rewrite Hs3, <- !app_assoc.
      - rewrite !blen_app in *. lia.
      - rewrite Hs3, !blen_app in *. lia.
      - lia. }
    destruct (finish_room _ _ Hrep3) as (b' & -> & Hfl' & Hrep' & Hterm & _).
    { rewrite (nul_byte_size_flags b) by (by autorewrite with buf). autorewrite with buf. lia. }
    autorewrite with buf in Hfl'. exists 0, b'. split_and!; [done| |done]. split; [|done].
    apply writes_done; [congruence|done|done].
  - assert (exists b4, buf_move b3 (blen l1) (blen l1 + n) (used b3 - blen l1) = Ret b4
      /\ flags b4 = flags b /\ rep b4 (l1 ++ l2)) as (b4 & -> & Hfl4 & Hrep4).
    { unfold buf_move. destruct (Z.eqb_spec (used b3 - blen l1) 0); [lia|].
      rewrite Hs3, (mem_move_down l1 mid' l2 rest) by (rewrite ?blen_app in *; lia).
      rewrite bind_ret. eexists. split; [done|]. autorewrite with buf. split; [done|].
      apply (rep_intro _ _ (drop (length l2) (mid' ++ l2 ++ rest))); autorewrite with buf.
      - by rewrite <- app_assoc.
      - lia.
      - rewrite !blen_app, blen_drop, !blen_app in *. unfold blen in *. lia.
      - lia. }
    rewrite bind_ret. destruct (finish_spec b4 _ Hrep4) as (e' & b' & -> & [Hfl' Hw] & _).
    rewrite bind_ret. eexists _, b'. split; [done|].
    assert ((if r <? 0 then r else - EINVAL) < 0) as Hlt by (destruct (Z.ltb_spec r 0); zlia).
    split; [|lia]. split; [|lia].
    apply writes_fail; [congruence|done|]. by destruct Hw as [(_ & ? & _)|[_ ?]].
Qed.

(** ** Whole runs of operations *)

Inductive buf_op :=
| OpAppend (bs : list Z) | OpAppendChar (c : Z) | OpSet (bs : list Z)
| OpSetAt (pos : Z) (bs : list Z) | OpSetCharAt (pos c : Z)
| OpInsert (pos : Z) (bs : list Z) | OpInsertChar (pos c : Z)
| OpRemove (offset size : Z) | OpPrintf (text : list Z)
| OpResize (n : Z) | OpEnsure (n : Z) | OpExpand (n : Z) | OpTrim.

Definition run_op (op : buf_op) (b : sol_buffer) : outcome (Z * sol_buffer) :=
  match op with
  | OpAppend bs => sol_buffer_append_bytes b bs
  | OpAppendChar c => sol_buffer_append_char b c
  | OpSet bs => sol_buffer_set_slice b bs
  | OpSetAt pos bs => sol_buffer_set_slice_at b pos bs
  | OpSetCharAt pos c => sol_buffer_set_char_at b pos c
  | OpInsert pos bs => sol_buffer_insert_bytes b pos bs
  | OpInsertChar pos c => sol_buffer_insert_char b pos c
  | OpRemove offset size => sol_buffer_remove_data b offset size
  | OpPrintf text => sol_buffer_append_vprintf b (inr text)
  | OpResize n => sol_buffer_resize b n
  | OpEnsure n => sol_buffer_ensure b n
  | OpExpand n => sol_buffer_expand b n
  | OpTrim => sol_buffer_trim b
  end.

(** Results in order, and the buffer at the end *)
Fixpoint run_ops (ops : list buf_op) (b : sol_buffer) : outcome (list Z * sol_buffer) :=
  match ops with
  | [] => Ret ([], b)
  | op :: ops => '(r, b) ← run_op op b; '(rs, b) ← run_ops ops b; Ret (r :: rs, b)
  end.

(** What the arguments can be: sizes and positions are [size_t], a formatted
    text is at most [INT_MAX] long. *)
Definition op_args (op : buf_op) : Prop :=
  match op with
  | OpAppend bs => blen bs < SIZE_MAX
  | OpSet bs => blen bs <= SIZE_MAX
  | OpSetAt pos bs => 0 <= pos /\ blen bs <= SIZE_MAX
  | OpInsert pos bs => 0 <= pos /\ blen bs < SIZE_MAX
  | OpSetCharAt pos _ | OpInsertChar pos _ => 0 <= pos
  | OpRemove offset size => 0 <= offset /\ 0 <= size <= SIZE_MAX
  | OpPrintf text => blen text <= INT_MAX
  | OpResize n | OpEnsure n => 0 <= n
  | OpExpand n => 0 <= n < SIZE_MAX
  | OpAppendChar _ | OpTrim => True
  end.

(** The list operation an operation stands for, and when it is accepted *)
Definition op_effect (op : buf_op) (l : list Z) : list Z :=
  match op with
  | OpAppend bs | OpPrintf bs => l ++ bs
  | OpAppendChar c => l ++ [c]
  | OpSet bs => bs
  | OpSetAt pos bs => if bool_decide (bs = []) then l else overwrite pos bs l
  | OpSetCharAt pos c => overwrite pos [c] l
  | OpInsert pos bs => take (Z.to_nat pos) l ++ bs ++ drop (Z.to_nat pos) l
  | OpInsertChar pos c => take (Z.to_nat pos) l ++ [c] ++ drop (Z.to_nat pos) l
  | OpRemove offset size => take (Z.to_nat offset) l ++ drop (Z.to_nat (offset + size)) l
  | OpResize n => take (Z.to_nat n) l
  | OpEnsure _ | OpExpand _ | OpTrim => l
  end.

Definition op_accepts (op : buf_op) (l : list Z) : Prop :=
  match op with
  | OpSetAt pos bs => bs = [] \/ pos <= blen l
  | OpSetCharAt pos _ | OpInsert pos _ | OpInsertChar pos _ => pos <= blen l
  | OpRemove offset size => offset <= blen l /\ size + offset <= SIZE_MAX
  | _ => True
  end.

(** Two operations may report an error although their effect took place. *)
Definition op_may_be_late (op : buf_op) : Prop :=
  match op with OpRemove _ _ | OpSetCharAt _ _ => True | _ => False end.

Definition spec_step (op : buf_op) (l : list Z) (r : Z) (l' : list Z) : Prop :=
  r = 0 /\ op_accepts op l /\ l' = op_effect op l
  \/ r < 0 /\ (l' = l \/ op_may_be_late op /\ op_accepts op l /\ l' = op_effect op l).

Inductive spec_run : list buf_op -> list Z -> list Z -> list Z -> Prop :=
| spec_nil l : spec_run [] l [] l
| spec_cons op ops l r l1 rs l2 :
    spec_step op l r l1 -> spec_run ops l1 rs l2 -> spec_run (op :: ops) l (r :: rs) l2.

Lemma trim_spec b l :
  rep b l -> exists r b', sol_buffer_trim b = Ret (r, b') /\ r <= 0
    /\ flags b' = flags b /\ rep b' l.
Proof.
  intros Hrep. pose proof Hrep as [Hu Hf Hc _]. pose proof (blen_nonneg l). unfold sol_buffer_trim.
  rewrite (proj2 (Z.eqb_neq (used b) SIZE_MAX)), andb_false_r by zlia.
  set (n := if has b _ then used b else used b + 1).
  assert (used b <= n) as Hn by (subst n; destruct (has b _); lia).
  destruct (Z.eqb_spec n (capacity b)); [exists 0, b; done|].
  destruct (resize_spec b l n Hrep) as (r & b' & -> & Hfl & Hcase & _); [lia|].
  exists r, b'. split; [done|]. destruct Hcase as [(-> & Hrep' & _)|([-> | ->] & ->)];
    [|split; [zlia|done]..].
  rewrite take_take_all in Hrep' by lia. done.
Qed.

Lemma run_op_spec op b l :
  rep b l -> op_args op ->
  exists r b' l', run_op op b = Ret (r, b') /\ flags b' = flags b /\ rep b' l'
    /\ spec_step op l r l'.
Proof.
  intros Hrep Hargs. pose proof Hrep as [Hu _ _ _].
  assert (Hw : forall r b' l1, writes r b b' l l1 -> op_effect op l = l1 ->
    (r = 0 -> op_accepts op l) -> exists l', flags b' = flags b /\ rep b' l' /\ spec_step op l r l').
  { intros r b' l1 [Hfl [(-> & Hr & _)|(Hneg & Hr)]] Heff Hacc; [exists l1|exists l];
      (split; [done|]; split; [done|]); [left|right]; auto. }
  destruct op; cbn [run_op op_args] in *.
  - destruct (append_bytes_spec b l bs Hrep Hargs) as (r & b' & -> & Hwr & _).
    destruct (Hw _ _ _ Hwr) as (l' & ?); [done|done|eauto].
  - destruct (append_char_spec b l c Hrep) as (r & b' & -> & Hwr & _).
    destruct (Hw _ _ _ Hwr) as (l' & ?); [done|done|eauto].
  - destruct (set_slice_spec b l bs Hrep) as (r & b' & -> & Hwr & _).
    destruct (Hw _ _ _ Hwr) as (l' & ?); [done|done|eauto].
  - destruct Hargs as [Hpos Hbs]. destruct (decide (bs = [])) as [->|Hne].
    { exists 0, b, l. split_and!; [done|done|done|]. left. cbn. auto. }
    destruct (set_slice_at_spec b l pos bs Hrep Hpos Hbs Hne) as (r & b' & -> & Hfl & Hcase).
    exists r, b'. destruct Hcase as [(-> & Hle & Hr & _)|(Hneg & Hr)].
    + exists (overwrite pos bs l). split_and!; [done|done|done|]. left. cbn.
      rewrite bool_decide_false by done. split_and!; [done|right; lia|done].
    + exists l. split_and!; [done|done|done|]. right. auto.
  - destruct (set_char_at_spec b l pos c Hrep Hargs) as (r & b' & -> & Hfl & Hcase).
    exists r, b'. destruct Hcase as [(-> & Hle & Hr & _)|(Hneg & [Hr|(Hcap & Hle & Hr)])].
    + exists (overwrite pos [c] l). split_and!; [done|done|done|]. left. cbn. split_and!; lia || done.
    + exists l. split_and!; [done|done|done|]. right. auto.
    + exists (overwrite pos [c] l). split_and!; [done|done|done|]. right. rewrite Hu in Hle. cbn. auto.
  - destruct Hargs as [Hpos Hbs].
    destruct (insert_bytes_spec b l pos bs Hrep Hpos Hbs) as (r & b' & -> & Hwr & Hacc & _).
    destruct (Hw _ _ _ Hwr) as (l' & ?); [done|intros; cbn; rewrite <- Hu; auto|eauto].
  - destruct (insert_char_spec b l pos c Hrep Hargs) as (r & b' & -> & Hwr & Hacc).
    destruct (Hw _ _ _ Hwr) as (l' & ?); [done|intros; cbn; rewrite <- Hu; auto|eauto].
  - destruct Hargs as [Hoff Hsize].
    destruct (remove_data_spec b l offset size Hrep Hoff Hsize) as (r & b' & -> & Hfl & _ & Hcase).
    case_bool_decide as Hacc; rewrite Hu in Hacc.
    + destruct Hcase as [Hr Hle]. exists r, b'. eexists. split_and!; [done|done|exact Hr|].
      destruct (Z.eq_dec r 0) as [->|]; [left; done|]. right. split; [lia|]. right. done.
    + destruct Hcase as [Hneg ->]. exists r, b, l. split_and!; [done|done|done|]. right. auto.
  - destruct (append_vprintf_spec b l text Hrep Hargs) as (r & b' & -> & Hfl & Hcase).
    exists r, b'. destruct Hcase as [(-> & Hr & _)|(Hneg & Hr)].
    + exists (l ++ text). split_and!; [done|done|done|]. by left.
    + exists l. split_and!; [done|done|done|]. right. auto.
  - destruct (resize_spec b l n Hrep Hargs) as (r & b' & -> & Hfl & Hcase & _). exists r, b'.
    destruct Hcase as [(-> & Hr & _)|(Hneg & ->)].
    + exists (take (Z.to_nat n) l). split_and!; [done|done|done|]. by left.
    + exists l. split_and!; [done|done|done|]. right. split; [destruct Hneg as [-> | ->]; zlia|auto].
  - destruct (ensure_spec b l n Hrep Hargs) as (r & b' & -> & Hfl & Hr & Hcase & _). exists r, b', l.
    split_and!; [done|done|done|]. destruct Hcase as [(-> & _)|(Hneg & _)]; [by left|right; auto].
  - destruct (expand_spec b l n Hrep Hargs) as (r & b' & -> & Hfl & Hr & Hcase & _). exists r, b', l.
    split_and!; [done|done|done|]. destruct Hcase as [(-> & _)|(Hneg & _)]; [by left|right; auto].
  - destruct (trim_spec b l Hrep) as (r & b' & -> & Hle & Hfl & Hr). exists r, b', l.
    split_and!; [done|done|done|]. destruct (Z.eq_dec r 0) as [->|]; [by left|right; auto with lia].
Qed.

(** ** Growing a buffer that owns its memory *)

(** The allocator refused a size that an object can have. *)
Definition refused : Prop := exists n, 0 <= n <= SSIZE_MAX /\ alloc_ok n = false.

(** Memory of its own, and no NUL behind the contents *)
Definition own_bytes (b : sol_buffer) : Prop := flags b = SOL_BUFFER_FLAGS_NO_NUL_BYTE.

Lemma own_bytes_flags b : own_bytes b -> nul_byte_size b = 0
  /\ has b SOL_BUFFER_FLAGS_MEMORY_NOT_OWNED = false /\ has b SOL_BUFFER_FLAGS_NO_NUL_BYTE = true.
Proof. unfold own_bytes, nul_byte_size, has. by intros ->. Qed.

Lemma aligned_size_fits n : 0 <= n <= 2 ^ 62 -> 0 <= align_power2_size n <= SSIZE_MAX.
Proof.
  intros Hn. destruct (Z.le_gt_cases n 1).
  { assert (n = 0 \/ n = 1) as [-> | ->] by lia; vm_compute; split; discriminate. }
  split; [apply align_size_range; zlia|]. destruct (align_size_least n 62) as [_ Hle]; [lia..|]. zlia.
Qed.

Lemma own_ensure b l n :
  rep b l -> own_bytes b -> 0 <= n <= 2 ^ 62 ->
  exists r b', sol_buffer_ensure b n = Ret (r, b') /\ own_bytes b' /\ rep b' l
    /\ (r = 0 /\ n <= capacity b' \/ r < 0 /\ refused).
Proof.
  intros Hrep Hown Hn. destruct (own_bytes_flags b Hown) as (Hnul & Hnot & _).
  destruct (ensure_spec b l n Hrep ltac:(lia)) as (r & b' & -> & Hfl & Hrep' & Hcase & _ & Hok).
  rewrite Hnul, Z.add_0_r in *. exists r, b'. split_and!; [done|unfold own_bytes in *; congruence|done|].
  destruct Hcase as [[-> ?]|[Hneg _]]; [by left|]. right. split; [done|].
  exists (align_power2_size n). split; [by apply aligned_size_fits|].
  destruct (alloc_ok (align_power2_size n)) eqn:Ha; [|done]. rewrite Hok in Hneg; [lia|done|done|zlia].
Qed.

Lemma own_append b l bs :
  rep b l -> own_bytes b -> blen l + blen bs <= 2 ^ 62 ->
  exists r b', sol_buffer_append_bytes b bs = Ret (r, b') /\ own_bytes b'
    /\ (r = 0 /\ rep b' (l ++ bs) \/ r < 0 /\ refused).
Proof.
  intros Hrep Hown Hlen. destruct (own_bytes_flags b Hown) as (Hnul & Hnot & _).
  pose proof (blen_nonneg bs). pose proof (blen_nonneg l). pose proof Hrep as [Hu Hf _ _].
  destruct (append_bytes_spec b l bs Hrep ltac:(zlia)) as (r & b' & -> & [Hfl Hw] & Hin & Hok).
  rewrite Hnul, Z.add_0_r, Hu in *. exists r, b'. split_and!; [done|unfold own_bytes in *; congruence|].
  destruct Hw as [(-> & ? & _)|[Hneg _]]; [by left|]. right. split; [done|].
  destruct (decide (bs = [])) as [->|Hne]; [rewrite blen_nil in Hin; rewrite (proj1 (Hin ltac:(lia))) in Hneg; lia|].
  exists (align_power2_size (blen l + blen bs)). split; [apply aligned_size_fits; lia|].
  destruct (alloc_ok _) eqn:Ha; [|done]. rewrite Hok in Hneg; [lia|done..|zlia].
Qed.

Lemma own_append_char b l c :
  rep b l -> own_bytes b -> blen l + 1 <= 2 ^ 62 ->
  exists r b', sol_buffer_append_char b c = Ret (r, b') /\ own_bytes b'
    /\ (r = 0 /\ rep b' (l ++ [c]) \/ r < 0 /\ refused).
Proof.
  intros Hrep Hown Hlen. destruct (own_bytes_flags b Hown) as (Hnul & Hnot & _).
  pose proof (blen_nonneg l). pose proof Hrep as [Hu Hf _ _].
  destruct (append_char_spec b l c Hrep) as (r & b' & Hrun & [Hfl Hw] & _).
  exists r, b'. split_and!; [done|unfold own_bytes in *; congruence|].
  destruct Hw as [(-> & ? & _)|[Hneg _]]; [by left|]. right. split; [done|].
  destruct (expand_spec b l 1 Hrep ltac:(zlia)) as (e & b1 & Hexp & Hfl1 & Hrep1 & Hcase & _ & Hok).
  destruct Hcase as [[-> Hroom]|[He _]].
  - destruct (append_char_spec b1 l c Hrep1) as (r1 & b2 & Hrun1 & _ & Hin).
    pose proof (rep_used _ _ Hrep1). rewrite (nul_byte_size_flags b b1) in Hin by done. rewrite Hin in Hrun1 by lia.
    destruct (expand_spec b1 l 1 Hrep1 ltac:(zlia)) as (e1 & b3 & Hexp1 & _ & _ & _ & Hin1 & _).
    rewrite (nul_byte_size_flags b b1) in Hin1 by done. destruct (Hin1 ltac:(lia)) as [-> ->].
    unfold sol_buffer_append_char in Hrun, Hrun1. rewrite Hexp in Hrun. rewrite Hexp1 in Hrun1. rewrite Hrun in Hrun1.
    injection Hrun1 as -> _. lia.
  - rewrite Hnul, Z.add_0_r, Hu in *. exists (align_power2_size (blen l + 1)). split; [apply aligned_size_fits; lia|].
    destruct (alloc_ok _) eqn:Ha; [|done]. rewrite Hok in He; [lia|done..|zlia].
Qed.

Lemma buf_store_flags b off bs b' : buf_store b off bs = Ret b' -> flags b' = flags b.
Proof.
  unfold buf_store. destruct (blen bs =? 0); [by intros [= <-]|]. by intros (m & _ & [= <-])%bind_Ret_inv.
Qed.

Lemma buf_move_flags b dst src n b' : buf_move b dst src n = Ret b' -> flags b' = flags b.
Proof.
  unfold buf_move. destruct (n =? 0); [by intros [= <-]|]. by intros (m & _ & [= <-])%bind_Ret_inv.
Qed.

Lemma finish_own b : own_bytes b -> finish b = Ret (0, b).
Proof.
  intros Hown. destruct (own_bytes_flags b Hown) as (_ & _ & Hnul).
  unfold finish, SOL_BUFFER_NEEDS_NUL_BYTE. by rewrite Hnul.
Qed.

Lemma own_expand b l n :
  rep b l -> own_bytes b -> 0 <= n -> blen l + n <= 2 ^ 62 ->
  exists r b', sol_buffer_expand b n = Ret (r, b') /\ own_bytes b' /\ rep b' l
    /\ (r = 0 /\ blen l + n <= capacity b' \/ r < 0 /\ refused).
Proof.
  intros Hrep Hown Hn Hle. destruct (own_bytes_flags b Hown) as (Hnul & Hnot & _). pose proof (blen_nonneg l).
  destruct (expand_spec b l n Hrep ltac:(zlia)) as (r & b' & -> & Hfl & Hrep' & Hcase & _ & Hok).
  rewrite Hnul, Z.add_0_r, (rep_used _ _ Hrep) in *. exists r, b'.
  split_and!; [done|unfold own_bytes in *; congruence|done|].
  destruct Hcase as [[-> ?]|[Hneg _]]; [left; split; [done|lia]|]. right. split; [done|].
  exists (align_power2_size (blen l + n)). split; [by apply aligned_size_fits; lia|].
  destruct (alloc_ok _) eqn:Ha; [|done]. rewrite Hok in Hneg; [lia|done..|zlia].
Qed.

Lemma own_set_char_end b l c :
  rep b l -> own_bytes b -> blen l + 1 <= 2 ^ 62 ->
  exists r b', sol_buffer_set_char_at b (blen l) c = Ret (r, b') /\ own_bytes b'
    /\ (r = 0 /\ rep b' (l ++ [c]) \/ r < 0 /\ refused).
Proof.
  intros Hrep Hown Hle. destruct (own_bytes_flags b Hown) as (Hnul & _ & _). pose proof (blen_nonneg l).
  destruct (set_char_at_spec b l (blen l) c Hrep ltac:(lia)) as (r & b' & Hrun & Hfl & Hcase).
  exists r, b'. split_and!; [done|unfold own_bytes in *; congruence|].
  destruct Hcase as [(-> & _ & Hrep' & _)|[Hneg _]].
  { left. split; [done|]. unfold overwrite in Hrep'. rewrite blen_to_nat, take_ge, drop_ge, app_nil_r in Hrep'; [done|lia|lia]. }
  right. split; [done|]. destruct (own_ensure b l (blen l + 1) Hrep Hown ltac:(lia)) as (e & b1 & He & _ & _ & Hcase).
  destruct Hcase as [[-> _]|[_ ?]]; [|done]. exfalso. unfold sol_buffer_set_char_at in Hrun.
  rewrite (rep_used _ _ Hrep), (proj2 (Z.ltb_ge _ _)), Hnul, He in Hrun by lia. cbv zeta in Hrun.
  destruct (Hrep) as [_ Hf Hc _].
  rewrite wrapu_small, Z.geb_leb, (proj2 (Z.leb_gt _ 1)) in Hrun by zlia. rewrite bind_ret in Hrun.
  apply bind_Ret_inv in Hrun as (b2 & _ & Hrun). cbn in Hrun. injection Hrun as <- _. lia.
Qed.

Lemma own_insert b l pos bs :
  rep b l -> own_bytes b -> 0 <= pos <= blen l -> blen l + blen bs <= 2 ^ 62 ->
  exists r b', sol_buffer_insert_bytes b pos bs = Ret (r, b') /\ own_bytes b'
    /\ (r = 0 /\ rep b' (take (Z.to_nat pos) l ++ bs ++ drop (Z.to_nat pos) l) \/ r < 0 /\ rep b' l /\ refused).
Proof.
  intros Hrep Hown Hpos Hle. pose proof (blen_nonneg bs).
  destruct (insert_bytes_spec b l pos bs Hrep ltac:(lia) ltac:(zlia)) as (r & b' & Hrun & [Hfl Hw] & _ & _).
  exists r, b'. split_and!; [done|unfold own_bytes in *; congruence|].
  destruct Hw as [(-> & ? & _)|[Hneg ?]]; [by left|]. right. split_and!; [done..|].
  unfold sol_buffer_insert_bytes in Hrun. rewrite (rep_used _ _ Hrep), Z.gtb_ltb, (proj2 (Z.ltb_ge _ _)) in Hrun by lia.
  destruct (Z.eqb_spec (blen bs) 0) as [Hz|Hz]; [rewrite finish_own in Hrun by done; injection Hrun as <- _; lia|].
  destruct (Z.eqb_spec pos (blen l)) as [->|].
  { destruct (own_append b l bs Hrep Hown Hle) as (r2 & b2 & Ha & _ & [[-> _]|[_ ?]]); [|done].
    rewrite Ha in Hrun. injection Hrun as <- _. lia. }
  destruct (own_expand b l (blen bs) Hrep Hown ltac:(lia) Hle) as (e & b1 & He & Hown1 & _ & [[-> _]|[_ ?]]); [|done].
  exfalso. rewrite He, bind_ret in Hrun. apply bind_Ret_inv in Hrun as (b2 & Hm%buf_move_flags & Hrun).
  apply bind_Ret_inv in Hrun as (b3 & Hst%buf_store_flags & Hrun).
  rewrite finish_own in Hrun by (unfold own_bytes in *; autorewrite with buf; congruence).
  injection Hrun as <- _. lia.
Qed.

(** A store inside the contents *)
Lemma store_inside b pre old bs post :
  rep b (pre ++ old ++ post) -> blen old = blen bs ->
  exists b', buf_store b (blen pre) bs = Ret b' /\ flags b' = flags b /\ capacity b' = capacity b
    /\ rep b' (pre ++ bs ++ post).
Proof.
  intros Hrep Hlen. pose proof Hrep as [Hu Hf _ _]. rewrite !blen_app in *.
  pose proof (blen_nonneg pre). pose proof (blen_nonneg post). pose proof (blen_nonneg bs).
  destruct (store_at_spec b _ (blen pre) bs Hrep ltac:(lia) ltac:(lia)) as (b' & Hrun & Hfl & Hcap & Hused & Hrep' & _).
  exists b'. split_and!; [done|done|done|]. rewrite Z.max_l in Hrep' by lia.
  replace (set_used b' (used b)) with b' in Hrep' by (rewrite <- Hused; by destruct b').
  unfold overwrite in Hrep'. rewrite blen_to_nat, take_app_length, drop_app_add in Hrep'.
  by rewrite drop_app_length' in Hrep' by (unfold blen in Hlen; lia).
Qed.

(** ** The coders of the library as coders of buffers *)

Lemma base64_encoder_ok map bs :
  map_ok map -> Forall is_byte bs -> small (blen bs) ->
  coder_ok (fun m p n => sol_util_base64_encode m p n bs map)
    (b64_len (blen bs)) (b64_len (blen bs)) (b64 map bs).
Proof.
  intros Hm Hb Hs. split; [apply blen_b64|]. split; [lia|]. intros pre mid post Hmid.
  exists (b64 map bs). rewrite blen_b64. split_and!; [|done|done].
  rewrite <- Hmid at 1. by rewrite base64_encode_spec.
Qed.

Lemma base64_decoder_ok map bs :
  map_ok map -> Forall is_byte bs -> small (blen bs) ->
  coder_ok (fun m p n => sol_util_base64_decode m p n (b64 map bs) map) (blen bs) (blen bs) bs.
Proof.
  intros Hm Hb Hs. split; [done|]. split; [lia|]. intros pre mid post Hmid.
  exists bs. split_and!; [|done|done]. rewrite <- Hmid at 1. by rewrite base64_decode_spec.
Qed.

Lemma base16_encoder_ok u bs :
  Forall is_byte bs -> 2 * blen bs <= SSIZE_MAX ->
  coder_ok (fun m p n => sol_util_base16_encode m p n bs u)
    (2 * blen bs) (2 * blen bs) (b16 u bs).
Proof.
  intros Hb Hs. split; [apply blen_b16|]. split; [lia|]. intros pre mid post Hmid.
  exists (b16 u bs). rewrite blen_b16. split_and!; [|done|done].
  rewrite <- Hmid at 1. by rewrite base16_encode_spec.
Qed.

(** Any text: either its bytes come out, or an error. *)
Lemma base16_decoder_ok dc cs :
  blen cs <= SSIZE_MAX ->
  exists r out, coder_ok (fun m p n => sol_util_base16_decode m p n cs dc) (blen cs / 2) r out
    /\ (forall bs, unhex dc cs = Some bs -> r = blen cs / 2 /\ out = bs)
    /\ (unhex dc cs = None -> r = - EINVAL).
Proof.
  intros Hmax. pose proof (blen_nonneg cs). destruct (unhex dc cs) as [bs|] eqn:Hu.
  - exists (blen cs / 2), bs.
    assert (blen bs = blen cs / 2) as Hlen.
    { destruct (base16_decode_spec dc cs [] (replicate (Z.to_nat (blen cs / 2)) 0) [] Hmax)
        as (bs' & _ & _ & Hok); [rewrite blen_replicate; dlia|].
      by destruct (Hok bs Hu) as [-> ?]. }
    split_and!; [|by intros ? [= <-]|done]. split; [done|]. split; [done|].
    intros pre mid post Hmid. exists bs.
    destruct (base16_decode_spec dc cs pre mid post Hmax) as (bs' & Hrun & _ & Hok); [lia|].
    destruct (Hok bs Hu) as [<- _]. rewrite Hu, Hlen in Hrun. split_and!; [|done|done].
    rewrite Hmid in Hrun. rewrite Hrun, drop_ge; [done|]. unfold blen in *. lia.
  - exists (- EINVAL), (replicate (Z.to_nat (blen cs / 2)) 0). split_and!; [|done|done].
    split; [rewrite blen_replicate; dlia|]. split; [dlia|]. intros pre mid post Hmid.
    destruct (base16_decode_spec dc cs pre mid post Hmax) as (bs' & Hrun & Hle & _); [lia|].
    rewrite Hu, Hmid in Hrun. exists (bs' ++ drop (length bs') mid). rewrite Hrun.
    split_and!; [by rewrite <- app_assoc| |dlia].
    rewrite blen_app, blen_drop. unfold blen in *. lia.
Qed.

(** ** Giving the memory away *)

Lemma memdup_spec m n :
  0 <= n <= blen m ->
  exists r, sol_util_memdup (Some m) n = Ret r
    /\ (r = None <-> alloc_ok n = false)
    /\ (forall d, r = Some d -> blen d = n /\ d = take (Z.to_nat n) m).
Proof.
  intros Hn. unfold sol_util_memdup, c_malloc. destruct (alloc_ok n) eqn:Hok.
  2: { exists None. split_and!; done. }
  eexists. rewrite mem_load_ok by lia.
  assert ((if n =? 0 then Ret [] else Ret (take (Z.to_nat n) (drop (Z.to_nat 0) m)))
    = Ret (take (Z.to_nat n) m)) as ->.
  { destruct (Z.eqb_spec n 0) as [->|]; [done|]. by rewrite drop_0. }
  rewrite bind_ret, mem_store_ok by (rewrite ?blen_take, ?blen_fresh; lia). rewrite bind_ret.
  split; [done|]. split; [done|]. intros d [= <-].
  cbn [Z.to_nat take Nat.add app]. rewrite drop_ge, app_nil_r.
  2: { assert (blen (fresh 0 n) = n) by (rewrite blen_fresh; lia).
       rewrite length_take. unfold blen in *. lia. }
  split; [rewrite blen_take; lia|done].
Qed.

(** ** Properties *)

(** C18: any sequence of buffer operations, with any arguments the C types
    admit and any allocator, runs without undefined behaviour and refines the
    operations on byte lists: after each step the contents are the list
    operation applied to the previous contents when 0 was returned, and the
    previous contents when an error was returned, except that a removal or a
    character store that already took place may still report an error. *)
Theorem buffer_runs_refine_lists ops b l :
  rep b l -> Forall op_args ops ->
  exists rs b' l', run_ops ops b = Ret (rs, b') /\ flags b' = flags b
    /\ rep b' l' /\ spec_run ops l rs l'.
Proof.
  intros Hrep Hops. revert b l Hrep. induction Hops as [|op ops Hop _ IH]; intros b l Hrep.
  - exists [], b, l. split_and!; [done|done|done|constructor].
  - destruct (run_op_spec op b l Hrep Hop) as (r & b1 & l1 & Hrun & Hfl1 & Hrep1 & Hstep).
    destruct (IH b1 l1 Hrep1) as (rs & b' & l' & Hruns & Hfl & Hrep' & Hspec).
    exists (r :: rs), b', l'. cbn [run_ops]. rewrite Hrun, bind_ret, Hruns, bind_ret.
    split_and!; [done|congruence|done|]. by econstructor.
Qed.

(** Appending and inserting bytes.  The call always returns; on success
    the bytes are in place, the rest of the contents is unchanged and the
    result is a C string unless the buffer asks for none; on an error the
    contents are unchanged.  It succeeds when there is room for the bytes and
    the terminator; an append also succeeds on a buffer that owns its memory
    when the allocator grants the rounded-up size. *)
Theorem buffer_append_insert_correct b l pos bs :
  rep b l -> 0 <= pos <= used b -> bs <> [] -> used b + blen bs < SSIZE_MAX ->
  (exists r b', sol_buffer_append_bytes b bs = Ret (r, b') /\ writes r b b' l (l ++ bs)
    /\ (used b + blen bs + nul_byte_size b <= capacity b
        \/ has b SOL_BUFFER_FLAGS_MEMORY_NOT_OWNED = false
           /\ alloc_ok (align_power2_size (used b + blen bs + nul_byte_size b)) = true -> r = 0))
  /\ (exists r b', sol_buffer_insert_bytes b pos bs = Ret (r, b')
    /\ writes r b b' l (take (Z.to_nat pos) l ++ bs ++ drop (Z.to_nat pos) l)
    /\ (used b + blen bs + nul_byte_size b <= capacity b -> r = 0)).
Proof.
  intros Hrep Hpos Hne Hbs. pose proof (nul_byte_size_cases b). split.
  - destruct (append_bytes_spec b l bs Hrep) as (r & b' & -> & Hw & Hin & Hok); [zlia|].
    exists r, b'. split_and!; [done|done|]. intros [?|[? ?]]; [by apply Hin|apply Hok; done || zlia].
  - destruct (insert_bytes_spec b l pos bs Hrep) as (r & b' & -> & Hw & _ & Hin); [lia|zlia|].
    exists r, b'. split_and!; [done|done|]. intros. apply Hin; lia.
Qed.

(** Encoding into a buffer.  Appending or inserting data as base64 or
    base16 puts exactly the encoding at the position, never more, and keeps
    the contents on an error. *)
Theorem buffer_encoders_correct b l pos bs map u :
  rep b l -> 0 <= pos <= used b -> map_ok map -> Forall is_byte bs -> bs <> [] ->
  blen bs <= INT_MAX ->
  (exists r b', sol_buffer_insert_as_base64 b pos bs map = Ret (r, b')
    /\ writes r b b' l (take (Z.to_nat pos) l ++ b64 map bs ++ drop (Z.to_nat pos) l)
    /\ (used b + b64_len (blen bs) + nul_byte_size b <= capacity b -> r = 0))
  /\ (exists r b', sol_buffer_insert_as_base16 b pos bs u = Ret (r, b')
    /\ writes r b b' l (take (Z.to_nat pos) l ++ b16 u bs ++ drop (Z.to_nat pos) l)
    /\ (used b + 2 * blen bs + nul_byte_size b <= capacity b -> r = 0))
  /\ (exists r b', sol_buffer_append_as_base16 b bs u = Ret (r, b')
    /\ writes r b b' l (l ++ b16 u bs)).
Proof.
  intros Hrep Hpos Hm Hb Hne Hmax.
  assert (0 < blen bs) as Hlen.
  { destruct bs; [done|]. rewrite blen_cons. pose proof (blen_nonneg bs). lia. }
  assert (small (blen bs)) as Hsm by (unfold small, b64_len; dlia).
  split_and!.
  - destruct (insert_coded_spec b l pos (blen bs) _ _ _ _ _ Hrep ltac:(lia) ltac:(lia)
      (encoded_len_spec bs Hsm) ltac:(unfold b64_len; dlia) (base64_encoder_ok map bs Hm Hb Hsm))
      as (r & b' & Hrun & [Hw _] & Hin). exists r, b'. split_and!; [done|done|]. intros. apply Hin; lia.
  - destruct (insert_coded_spec b l pos (blen bs) _ _ _ _ _ Hrep ltac:(lia) ltac:(lia)
      (encoded_len16_spec bs ltac:(zlia)) ltac:(zlia) (base16_encoder_ok u bs Hb ltac:(zlia)))
      as (r & b' & Hrun & [Hw _] & Hin). exists r, b'. split_and!; [done|done|]. intros. apply Hin; lia.
  - destruct (append_coded_spec b l (blen bs) _ _ _ _ _ Hrep ltac:(lia)
      (encoded_len16_spec bs ltac:(zlia)) ltac:(zlia) (base16_encoder_ok u bs Hb ltac:(zlia)))
      as (r & b' & Hrun & [Hw _] & _). by exists r, b'.
Qed.

(** Decoding base16 into a buffer.  For any text, inserting its decoding
    either succeeds, and then the text consists of digit pairs and their values
    are at the position, or returns an error and leaves the contents as they
    were, even though bytes were written while decoding. *)
Theorem buffer_insert_from_base16_total b l pos cs dc :
  rep b l -> 0 <= pos -> 2 <= blen cs <= SSIZE_MAX ->
  exists r b', sol_buffer_insert_from_base16 b pos cs dc = Ret (r, b')
    /\ flags b' = flags b
    /\ (r = 0 /\ terminated b'
        /\ (exists bs, unhex dc cs = Some bs
            /\ rep b' (take (Z.to_nat pos) l ++ bs ++ drop (Z.to_nat pos) l))
        \/ r < 0 /\ rep b' l).
Proof.
  intros Hrep Hpos Hcs.
  destruct (base16_decoder_ok dc cs) as (r & out & Hok & Hgood & Hbad); [lia|].
  destruct (insert_coded_spec b l pos (blen cs) (Ret (blen cs / 2)) _ _ r out Hrep Hpos
    ltac:(lia) eq_refl ltac:(dlia) Hok) as (r' & b' & Hrun & [[Hfl Hw] Hr] & _).
  exists r', b'. split; [exact Hrun|]. split; [done|].
  destruct Hw as [(-> & Hrep' & Hterm)|[? ?]]; [left|by right]. split_and!; [done|done|].
  specialize (Hr eq_refl). destruct (unhex dc cs) as [bs|].
  - destruct (Hgood bs eq_refl) as [_ <-]. eauto.
  - rewrite (Hbad eq_refl) in Hr. dlia.
Qed.

(** Handing over the memory.  Stealing gives the caller the block that
    holds the contents and leaves an empty buffer; when the memory may not be
    freed nothing is given.  [steal_or_copy] and [copy] of a buffer with a
    block of at least [used + 1] bytes give a block that begins with the
    contents; the copy may be freed. *)
Theorem buffer_steal_and_copy b l m :
  rep b l -> data b = Some m -> used b + nul_byte_size b <= blen m ->
  (has b SOL_BUFFER_FLAGS_NO_FREE = false ->
   sol_buffer_steal b = ((Some m, blen l), set_capacity (set_used (set_data b None) 0) 0)
   /\ sol_buffer_steal_or_copy b = Ret (sol_buffer_steal b)
   /\ rep (snd (sol_buffer_steal b)) [])
  /\ (has b SOL_BUFFER_FLAGS_NO_FREE = true ->
   sol_buffer_steal b = ((None, 0), b)
   /\ exists d, sol_buffer_steal_or_copy b = Ret ((d, if d is Some _ then blen l else 0), b)
      /\ (forall x, d = Some x -> take (length l) x = l))
  /\ exists c, sol_buffer_copy b = Ret c
      /\ (forall x, c = Some x -> sol_buffer_get_slice x = Ret l /\ used x = used b
            /\ capacity x = capacity b /\ has x SOL_BUFFER_FLAGS_NO_FREE = false).
Proof.
  intros Hrep Hd Hroom. pose proof Hrep as [Hu Hf Hc [rest Hs]].
  pose proof (nul_byte_size_cases b) as Hnul. pose proof (blen_nonneg l).
  assert (m = l ++ rest) as Hm by (unfold storage in Hs; by rewrite Hd in Hs).
  destruct (memdup_spec m (used b + nul_byte_size b)) as (d & Hdup & Hnone & Hsome); [lia|].
  assert (forall x, d = Some x -> take (length l) x = l) as Hpre.
  { intros x Hx. destruct (Hsome x Hx) as [_ ->]. rewrite take_take, Hm.
    rewrite Nat.min_l by (unfold blen in *; lia). by rewrite take_app_length. }
  split_and!.
  - intros Hno. unfold sol_buffer_steal_or_copy, sol_buffer_steal. rewrite Hno, Hd, Hu.
    split_and!; [done|done|]. split; [done| |done|by exists []]. split; done.
  - intros Hno. unfold sol_buffer_steal_or_copy, sol_buffer_steal. rewrite Hno. split; [done|].
    rewrite Hd, Hdup, bind_ret. exists d. split; [|done]. rewrite <- Hu. by destruct d.
  - unfold sol_buffer_copy. destruct (alloc_ok sizeof_sol_buffer); cbn [negb]; [|exists None; by split].
    rewrite Hd, Hdup, bind_ret. destruct d as [x|]; [|exists None; by split].
    eexists. split; [done|]. intros c [= <-]. destruct (Hsome x eq_refl) as [Hlen _].
    split_and!; [|done|done|].
    + unfold sol_buffer_get_slice, buf_load. cbn [set_flags set_data used].
      destruct (Z.eqb_spec (used b) 0) as [Hz|].
      * f_equal. symmetry. apply blen_zero_nil. lia.
      * change (storage _) with x. rewrite mem_load_ok by lia. rewrite drop_0, Hu, blen_to_nat. f_equal. by apply Hpre.
    + unfold has. cbn [set_flags flags]. unfold SOL_BUFFER_FLAGS_NO_FREE.
      rewrite <- Z.land_assoc. by rewrite Z.land_0_r.
Qed.
End Proofs.

(** *** Witnesses: the buffer of a small program *)

Definition hello : sol_buffer :=
  {| data := Some [104; 105; 0; 0; 0; 0; 0; 0]; capacity := 8; used := 2; flags := 0 |}.

Lemma rep_hello : rep hello [104; 105].
Proof. split; [done|done|done|]. by exists [0; 0; 0; 0; 0; 0]. Qed.

Lemma buffer_runs_refine_lists_witness :
  exists rs b' l',
    run_ops (H := gcc5) (H0 := roomy)
      [OpAppend [33; 33]; OpInsert 9 [1]; OpRemove 1 1; OpPrintf [48; 49]] hello = Ret (rs, b')
    /\ flags b' = 0 /\ rep b' l'
    /\ spec_run [OpAppend [33; 33]; OpInsert 9 [1]; OpRemove 1 1; OpPrintf [48; 49]]
         [104; 105] rs l'.
Proof.
  apply (buffer_runs_refine_lists (H := gcc5) (H0 := roomy)); [exact rep_hello|].
  repeat constructor; cbn; unfold blen; cbn; zlia.
Defined.

Lemma buffer_append_insert_correct_witness :
  exists r b', sol_buffer_append_bytes (H := gcc5) (H0 := roomy) hello [33] = Ret (r, b')
    /\ writes r hello b' [104; 105] [104; 105; 33]
    /\ (3 + 1 <= 8 \/ has hello SOL_BUFFER_FLAGS_MEMORY_NOT_OWNED = false
         /\ alloc_ok (Allocator := roomy) (align_power2_size 4) = true -> r = 0).
Proof.
  apply (buffer_append_insert_correct (H := gcc5) (H0 := roomy) hello [104; 105] 1 [33]);
    [exact rep_hello|split; discriminate|discriminate|reflexivity].
Defined.

Lemma buffer_encoders_correct_witness :
  exists r b', sol_buffer_append_as_base16 (H := gcc5) (H0 := roomy) hello [255] true = Ret (r, b')
    /\ writes r hello b' [104; 105] [104; 105; 70; 70].
Proof.
  apply (buffer_encoders_correct (H := gcc5) (H0 := roomy) hello [104; 105] 1 [255] SOL_BASE64_MAP true);
    [exact rep_hello|split; discriminate|exact SOL_BASE64_MAP_ok|
     apply (bool_decide_unpack _); by vm_compute|discriminate|discriminate].
Defined.

Lemma buffer_insert_from_base16_total_witness :
  exists r b', sol_buffer_insert_from_base16 (H := gcc5) (H0 := roomy) hello 1 [102; 122] SOL_DECODE_BOTH
    = Ret (r, b') /\ flags b' = 0
    /\ (r = 0 /\ terminated b'
        /\ (exists bs, unhex SOL_DECODE_BOTH [102; 122] = Some bs
            /\ rep b' (take (Z.to_nat 1) [104; 105] ++ bs ++ drop (Z.to_nat 1) [104; 105]))
        \/ r < 0 /\ rep b' [104; 105]).
Proof.
  apply (buffer_insert_from_base16_total (H := gcc5) (H0 := roomy) hello [104; 105] 1);
    [exact rep_hello|discriminate|split; discriminate].
Defined.

Lemma buffer_steal_and_copy_witness :
  has hello SOL_BUFFER_FLAGS_NO_FREE = false
  /\ sol_buffer_steal hello
   = ((Some [104; 105; 0; 0; 0; 0; 0; 0], 2), set_capacity (set_used (set_data hello None) 0) 0)
   /\ sol_buffer_steal_or_copy (H0 := roomy) hello = Ret (sol_buffer_steal hello)
   /\ rep (snd (sol_buffer_steal hello)) [].
Proof.
  split; [reflexivity|].
  apply (buffer_steal_and_copy (H0 := roomy) hello [104; 105] [104; 105; 0; 0; 0; 0; 0; 0]);
    [exact rep_hello|reflexivity|discriminate|reflexivity].
Defined.

(** *** What does not hold *)

(** The copy of a buffer with spare capacity claims that capacity for a block
    that does not have it: an append within the capacity leaves the block. *)
Lemma buffer_copy_overflows :
  exists c, sol_buffer_copy (H0 := roomy) hello = Ret (Some c) /\ capacity c = 8
    /\ blen (storage c) = 3 /\ sol_buffer_append_bytes (H := gcc5) (H0 := roomy) c [1; 2; 3] = UB.
Proof. eexists. split; [vm_compute; reflexivity|]. split_and!; reflexivity. Qed.

(** [steal_or_copy] of an empty buffer copies a byte from NULL; on a constant
    buffer it reads a byte past the end. *)
Lemma buffer_steal_or_copy_invalid_reads :
  sol_buffer_steal_or_copy (H0 := roomy) sol_buffer_init = UB
  /\ sol_buffer_steal_or_copy (H0 := roomy) (SOL_BUFFER_INIT_CONST [1; 2]) = UB.
Proof. split; reflexivity. Qed.

(** A failed [append_vprintf] overwrites the terminator. *)
Lemma buffer_vprintf_loses_terminator :
  let b := {| data := Some [97; 0; 0; 0]; capacity := 4; used := 1;
              flags := SOL_BUFFER_FLAGS_MEMORY_NOT_OWNED |} in
  sol_buffer_append_vprintf (H := gcc5) (H0 := roomy) b (inr [104; 101; 108; 108; 111])
  = Ret (- ENOMEM, set_data b (Some [97; 104; 101; 0])).
Proof. reflexivity. Qed.

(** Base64 text with too much padding: the insertion fails, but has overwritten
    the contents behind the position. *)
Lemma buffer_insert_from_base64_corrupts :
  exists b', sol_buffer_insert_from_base64 (H := gcc5) (H0 := roomy)
      {| data := Some [1; 2; 3; 4; 0; 0; 0; 0]; capacity := 8; used := 4; flags := 0 |}
      0 [65;65;65;65;61;61;61;61] SOL_BASE64_MAP = Ret (- EINVAL, b')
    /\ sol_buffer_get_slice b' = Ret [0; 4; 3; 4].
Proof. eexists. split; [vm_compute; reflexivity|reflexivity]. Qed.
End Buffer.
