(* ===== verification/Uuid.v ===== *)
(** * UUID strings

    Models sol_util_uuid_string_from_bytes, sol_util_uuid_bytes_from_string
    and uuid_gen of src/src/lib/common/sol-util.c, which build on the buffers
    of Buffer and on the base16 coder and validity test of Codec.  The random
    engine is an argument: the bytes it produced or its error. *)

From S2P Require Import Prelude Arith Codec Buffer.
Import Base16 Buffer.

#[local] Open Scope Z_scope.

Module UuidStr.

Section Operations.
Context `{BuildConfig} `{Allocator}.

(** The loop over [hyphens_pos] *)
Fixpoint insert_hyphens (positions : list Z) (uuid_str : sol_buffer) : outcome (Z * sol_buffer) :=
  match positions with
  | [] => Ret (0, uuid_str)
  | pos :: positions =>
      '(r, uuid_str) ← sol_buffer_insert_slice uuid_str pos [45];
      if r <? 0 then Ret (r, uuid_str) else insert_hyphens positions uuid_str
  end.

Definition sol_util_uuid_string_from_bytes (uppercase with_hyphens : bool) (uuid : list Z)
    (uuid_str : sol_buffer) : outcome (Z * sol_buffer) :=
  '(r, uuid_str) ← sol_buffer_append_as_base16 uuid_str uuid uppercase;
  if r <? 0 then Ret (r, uuid_str)
  else if with_hyphens then insert_hyphens [8; 13; 18; 23] uuid_str
  else Ret (0, uuid_str).

(** The loop over the groups between the hyphens; [prev] is [slices[i-1]]. *)
Fixpoint append_groups (prev : Z) (slices : list Z) (uuid_str : list Z) (uuid_bytes : sol_buffer)
    : outcome (Z * sol_buffer) :=
  match slices with
  | [] => Ret (0, uuid_bytes)
  | s :: slices =>
      let len := s - prev - 1 in
      '(r, uuid_bytes) ← sol_buffer_append_from_base16 uuid_bytes
          (take (Z.to_nat len) uuid_str) SOL_DECODE_BOTH;
      if r <? 0 then Ret (r, uuid_bytes)
      else append_groups s slices (drop (Z.to_nat (len + 1)) uuid_str) uuid_bytes
  end.

Definition sol_util_uuid_bytes_from_string (uuid_str : list Z) (uuid_bytes : sol_buffer)
    : outcome (Z * sol_buffer) :=
  if negb (Uuid.sol_util_uuid_str_is_valid uuid_str) then Ret (- EINVAL, uuid_bytes)
  else if blen uuid_str =? 32
  then sol_buffer_append_from_base16 uuid_bytes uuid_str SOL_DECODE_BOTH
  else append_groups (-1) [8; 13; 18; 23; 36] uuid_str uuid_bytes.

(** [random] is what the engine put into the sixteen bytes, or the error of
    creating it. *)
Definition uuid_gen (random : Z + list Z) : Z + list Z :=
  match random with
  | inl errno => inl (- errno)
  | inr bytes =>
      if negb (blen bytes =? 16) then inl (- EIO) else inr (Uuid.assert_uuid_v4 bytes)
  end.

Definition sol_util_uuid_gen (uppercase with_hyphens : bool) (random : Z + list Z)
    (uuid_buf : sol_buffer) : outcome (Z * sol_buffer) :=
  match uuid_gen random with
  | inl r => Ret (r, uuid_buf)
  | inr uuid => sol_util_uuid_string_from_bytes uppercase with_hyphens uuid uuid_buf
  end.
End Operations.

(** ** The textual forms *)

Definition hex_form (u : bool) (uuid : list Z) : list Z := b16 u uuid.

Definition hyphen_form (u : bool) (uuid : list Z) : list Z :=
  let h := b16 u uuid in
  take 8 h ++ [45] ++ take 4 (drop 8 h) ++ [45] ++ take 4 (drop 12 h) ++ [45]
  ++ take 4 (drop 16 h) ++ [45] ++ drop 20 h.

Definition text_form (u hyphens : bool) (uuid : list Z) : list Z :=
  if hyphens then hyphen_form u uuid else hex_form u uuid.

Definition is_uuid (uuid : list Z) : Prop := length uuid = 16%nat /\ Forall is_byte uuid.

(** Sixteen bytes, spelt out *)
Ltac split_uuid l H :=
  do 16 (destruct l as [|? l]; [discriminate H|]); destruct l; [clear H|discriminate H].

Ltac all_bytes := repeat first [apply Forall_nil_2 | apply Forall_cons_2; [assumption|]].

Section Proofs.
Context `{BuildConfig} `{Allocator}.

(** A sequence of insertions of one hyphen each, at positions inside *)
Fixpoint hyphenate (positions : list Z) (l : list Z) : list Z :=
  match positions with
  | [] => l
  | pos :: positions => hyphenate positions (take (Z.to_nat pos) l ++ [45] ++ drop (Z.to_nat pos) l)
  end.

Lemma insert_hyphens_spec positions b l :
  rep b l -> Forall (fun pos => 0 <= pos) positions ->
  exists r b' l', insert_hyphens positions b = Ret (r, b') /\ flags b' = flags b /\ rep b' l'
    /\ r <= 0 /\ (r = 0 -> l' = hyphenate positions l).
Proof.
  intros Hrep Hpos. revert b l Hrep. induction Hpos as [|pos positions Hp _ IH]; intros b l Hrep.
  { exists 0, b, l. split_and!; done. }
  cbn [insert_hyphens hyphenate]. unfold sol_buffer_insert_slice.
  destruct (insert_bytes_spec b l pos [45] Hrep Hp) as (r & b1 & -> & [Hfl Hw] & _ & _); [done|].
  rewrite bind_ret. destruct Hw as [(-> & Hrep1 & _)|[Hneg Hrep1]].
  - cbn [Z.ltb Z.compare]. destruct (IH b1 _ Hrep1) as (r & b' & l' & -> & Hfl' & Hr' & Hle & Heq).
    exists r, b', l'. split_and!; auto; congruence.
  - rewrite (proj2 (Z.ltb_lt r 0)) by done. exists r, b1, l. split_and!; done || lia.
Qed.

Lemma hyphenate_form u uuid :
  is_uuid uuid -> hyphenate [8; 13; 18; 23] (b16 u uuid) = hyphen_form u uuid.
Proof. intros [Hl _]. split_uuid uuid Hl. reflexivity. Qed.

Lemma blen_uuid uuid : is_uuid uuid -> blen uuid = 16.
Proof. intros [Hl _]. unfold blen. by rewrite Hl. Qed.

Lemma string_from_bytes_spec u hy uuid b :
  rep b [] -> is_uuid uuid ->
  exists r b' l', sol_util_uuid_string_from_bytes u hy uuid b = Ret (r, b')
    /\ flags b' = flags b /\ rep b' l' /\ r <= 0 /\ (r = 0 -> l' = text_form u hy uuid).
Proof.
  intros Hrep Huuid. pose proof (blen_uuid uuid Huuid) as Hlen.
  unfold sol_util_uuid_string_from_bytes, sol_buffer_append_as_base16.
  destruct (append_coded_spec b [] (blen uuid) _ _ _ _ _ Hrep ltac:(lia)
      (encoded_len16_spec uuid ltac:(zlia)) ltac:(zlia)
      (base16_encoder_ok u uuid (proj2 Huuid) ltac:(zlia)))
      as (r & b1 & -> & [[Hfl Hw] _] & _). rewrite bind_ret.
  destruct Hw as [(-> & Hrep1 & _)|[Hneg Hrep1]].
  2: { rewrite (proj2 (Z.ltb_lt r 0)) by done. exists r, b1, []. split_and!; done || lia. }
  cbn [Z.ltb Z.compare app] in *. destruct hy.
  - destruct (insert_hyphens_spec [8; 13; 18; 23] b1 _ Hrep1) as (r & b' & l' & -> & Hfl' & Hr' & Hle & Heq);
      [repeat constructor; lia|]. exists r, b', l'. split_and!; try done; [congruence|].
    intros Hz. rewrite Heq by done. by apply hyphenate_form.
  - exists 0, b1, (b16 u uuid). split_and!; done.
Qed.

(** ** Validity and decoding of the textual forms *)

Lemma hex_form_valid u uuid : is_uuid uuid -> Uuid.sol_util_uuid_str_is_valid (hex_form u uuid) = true.
Proof.
  intros Hu. unfold Uuid.sol_util_uuid_str_is_valid, hex_form.
  rewrite blen_b16, (blen_uuid uuid Hu). apply Uuid.b16_xdigits, Hu.
Qed.

Lemma hyphen_form_valid u uuid :
  is_uuid uuid -> Uuid.sol_util_uuid_str_is_valid (hyphen_form u uuid) = true.
Proof.
  intros [Hl Hb]. pose proof (Uuid.b16_xdigits u uuid Hb) as Hx.
  split_uuid uuid Hl. cbn [b16 forallb] in Hx. unfold hyphen_form. cbn [b16 take drop app].
  unfold Uuid.sol_util_uuid_str_is_valid.
  match goal with |- context [blen ?l] => change (blen l) with 36 end.
  cbn [Z.eqb Pos.eqb Uuid.uuid_chars]. repeat rewrite andb_true_iff in Hx.
  repeat match goal with H : _ /\ _ |- _ => destruct H end.
  cbn. repeat match goal with H : Uuid.isxdigit _ = true |- _ => rewrite H; clear H end. reflexivity.
Qed.

(** Appending the decoding of one group of digits *)
Lemma append_group_spec b l cs bs :
  rep b l -> unhex SOL_DECODE_BOTH cs = Some bs -> 2 <= blen cs <= SSIZE_MAX ->
  exists r b', sol_buffer_append_from_base16 b cs SOL_DECODE_BOTH = Ret (r, b')
    /\ writes r b b' l (l ++ bs).
Proof.
  intros Hrep Hun Hcs.
  destruct (base16_decoder_ok SOL_DECODE_BOTH cs) as (r & out & Hok & Hgood & _); [lia|].
  destruct (append_coded_spec b l (blen cs) (Ret (blen cs / 2)) _ _ r out Hrep
    ltac:(lia) eq_refl ltac:(dlia) Hok) as (r' & b' & Hrun & [Hw _] & _).
  destruct (Hgood bs Hun) as [_ ->]. by exists r', b'.
Qed.

Lemma append_groups_cons prev s slices uuid_str b l bs :
  rep b l -> unhex SOL_DECODE_BOTH (take (Z.to_nat (s - prev - 1)) uuid_str) = Some bs ->
  2 <= blen (take (Z.to_nat (s - prev - 1)) uuid_str) <= SSIZE_MAX ->
  (exists r b', append_groups prev (s :: slices) uuid_str b = Ret (r, b') /\ r < 0
     /\ flags b' = flags b /\ rep b' l)
  \/ (exists b', rep b' (l ++ bs) /\ flags b' = flags b /\ terminated b'
     /\ append_groups prev (s :: slices) uuid_str b
        = append_groups s slices (drop (Z.to_nat (s - prev - 1 + 1)) uuid_str) b').
Proof.
  intros Hrep Hun Hlen. cbn [append_groups].
  destruct (append_group_spec b l _ bs Hrep Hun Hlen) as (r & b' & -> & [Hfl Hw]).
  rewrite bind_ret. destruct Hw as [(-> & Hr & Ht)|[Hneg Hr]].
  - right. exists b'. done.
  - left. exists r, b'. by rewrite (proj2 (Z.ltb_lt r 0)).
Qed.

(** What a failed decoding leaves behind is a prefix of the groups. *)
Definition decoded_prefix (r : Z) (b b' : sol_buffer) (l uuid : list Z) : Prop :=
  flags b' = flags b
  /\ (r = 0 /\ rep b' (l ++ uuid) /\ terminated b'
      \/ r < 0 /\ exists k, rep b' (l ++ take k uuid)).

Lemma decoded_prefix_group r b b1 b' l bs rest :
  flags b1 = flags b -> decoded_prefix r b1 b' (l ++ bs) rest -> decoded_prefix r b b' l (bs ++ rest).
Proof.
  intros Hfl [Hfl' Hw]. split; [congruence|].
  destruct Hw as [(? & Hr & Ht)|(? & k & Hr)]; rewrite <- app_assoc in Hr; [by left|].
  right. split; [done|]. exists (length bs + k)%nat. by rewrite take_app_add.
Qed.

(** One group of [2 * length g] digits followed by a hyphen or the end *)
Lemma append_groups_step u g prev s slices b l text rest :
  Forall is_byte g -> g <> [] -> blen g <= 8 -> rep b l ->
  s - prev - 1 = 2 * blen g -> take (Z.to_nat (2 * blen g)) text = b16 u g ->
  (forall b1, rep b1 (l ++ g) -> terminated b1 -> flags b1 = flags b ->
    exists r b', append_groups s slices (drop (Z.to_nat (2 * blen g + 1)) text) b1 = Ret (r, b')
      /\ decoded_prefix r b1 b' (l ++ g) rest) ->
  exists r b', append_groups prev (s :: slices) text b = Ret (r, b')
    /\ decoded_prefix r b b' l (g ++ rest).
Proof.
  intros Hb Hne Hlen Hrep Hs Htext Hnext.
  assert (1 <= blen g) as H1 by (destruct g; [done|]; rewrite blen_cons; pose proof (blen_nonneg g); lia).
  destruct (append_groups_cons prev s slices text b l g Hrep) as [(r & b' & -> & Hneg & Hfl & Hr)
    |(b1 & Hr & Hfl & Ht & ->)].
  - rewrite Hs, Htext. by apply unhex_b16.
  - rewrite Hs, Htext, blen_b16. zlia.
  - exists r, b'. split; [done|]. split; [done|]. right. split; [done|]. exists 0%nat.
    cbn [take]. by rewrite app_nil_r.
  - rewrite Hs. destruct (Hnext b1 Hr Ht Hfl) as (r & b' & -> & Hd). exists r, b'.
    split; [done|]. by eapply decoded_prefix_group.
Qed.

Lemma bytes_from_string_spec u hy uuid b l :
  rep b l -> is_uuid uuid ->
  exists r b', sol_util_uuid_bytes_from_string (text_form u hy uuid) b = Ret (r, b')
    /\ decoded_prefix r b b' l uuid.
Proof.
  intros Hrep Hu. pose proof (blen_uuid uuid Hu) as Hlen.
  unfold sol_util_uuid_bytes_from_string. destruct hy; unfold text_form.
  - rewrite hyphen_form_valid by done. cbn [negb].
    assert ((blen (hyphen_form u uuid) =? 32) = false) as ->.
    { destruct Hu as [Hl _]. split_uuid uuid Hl. reflexivity. }
    destruct Hu as [Hl Hb].
    destruct uuid as [|a0 [|a1 [|a2 [|a3 [|a4 [|a5 [|a6 [|a7 [|a8 [|a9 [|a10 [|a11 [|a12 [|a13 [|a14 [|a15 [|? ?]]]]]]]]]]]]]]]]]; try discriminate Hl.
    repeat match goal with H : Forall is_byte (_ :: _) |- _ => apply Forall_cons_1 in H as [? ?] end.
    apply (append_groups_step u [a0; a1; a2; a3] _ _ _ _ _ _ [a4; a5; a6; a7; a8; a9; a10; a11; a12; a13; a14; a15]);
      [all_bytes|done|done|done|done|done|].
    intros b1 Hr1 Ht1 _. change (drop _ _) with
      (b16 u [a4; a5] ++ 45 :: b16 u [a6; a7] ++ 45 :: b16 u [a8; a9] ++ 45 :: b16 u [a10; a11; a12; a13; a14; a15]).
    apply (append_groups_step u [a4; a5] _ _ _ _ _ _ [a6; a7; a8; a9; a10; a11; a12; a13; a14; a15]);
      [all_bytes|done|done|done|done|done|].
    intros b2 Hr2 Ht2 _. change (drop _ _) with
      (b16 u [a6; a7] ++ 45 :: b16 u [a8; a9] ++ 45 :: b16 u [a10; a11; a12; a13; a14; a15]).
    apply (append_groups_step u [a6; a7] _ _ _ _ _ _ [a8; a9; a10; a11; a12; a13; a14; a15]);
      [all_bytes|done|done|done|done|done|].
    intros b3 Hr3 Ht3 _. change (drop _ _) with
      (b16 u [a8; a9] ++ 45 :: b16 u [a10; a11; a12; a13; a14; a15]).
    apply (append_groups_step u [a8; a9] _ _ _ _ _ _ [a10; a11; a12; a13; a14; a15]);
      [all_bytes|done|done|done|done|done|].
    intros b4 Hr4 Ht4 _. change (drop _ _) with
      (b16 u [a10; a11; a12; a13; a14; a15]).
    apply (append_groups_step u [a10; a11; a12; a13; a14; a15] _ _ _ _ _ _ []);
      [all_bytes|done|done|done|done|done|].
    intros b5 Hr5 Ht5 _. exists 0, b5. split; [done|]. split; [done|]. left.
    by rewrite app_nil_r.
  - rewrite hex_form_valid by done. cbn [negb]. unfold hex_form. rewrite blen_b16, Hlen.
    cbn [Z.eqb Pos.eqb Z.mul Pos.mul].
    destruct (append_group_spec b l (b16 u uuid) uuid Hrep) as (r & b' & -> & [Hfl Hw]).
    + by apply unhex_b16, Hu.
    + rewrite blen_b16, Hlen. zlia.
    + exists r, b'. split; [done|]. split; [done|]. destruct Hw as [?|[? ?]]; [by left|].
      right. split; [done|]. exists 0%nat. cbn [take]. by rewrite app_nil_r.
Qed.

(** Writing a UUID into an empty buffer and reading it back.  When both
    calls succeed, the text passes the validity test, has the short or the
    hyphenated form in the requested case, and parsing it appends exactly the
    sixteen bytes to the destination.  Failures are error codes, never
    undefined behaviour; a failed parse leaves a prefix of the bytes. *)
Theorem uuid_roundtrip u hy uuid str dst l :
  rep str [] -> rep dst l -> is_uuid uuid ->
  exists r str' text, sol_util_uuid_string_from_bytes u hy uuid str = Ret (r, str')
    /\ rep str' text /\ r <= 0
    /\ (r = 0 -> Uuid.sol_util_uuid_str_is_valid text = true /\ text = text_form u hy uuid
        /\ exists r' dst', sol_util_uuid_bytes_from_string text dst = Ret (r', dst')
           /\ decoded_prefix r' dst dst' l uuid).
Proof.
  intros Hstr Hdst Hu.
  destruct (string_from_bytes_spec u hy uuid str Hstr Hu) as (r & str' & text & -> & _ & Hr & Hle & Heq).
  exists r, str', text. split_and!; [done|done|done|]. intros ->. rewrite (Heq eq_refl).
  split_and!; [|done|by apply bytes_from_string_spec].
  destruct hy; [by apply hyphen_form_valid|by apply hex_form_valid].
Qed.

(** The bytes of a generated UUID carry version 4 and the RFC 4122
    variant, keep all other random bits, and a short read is reported. *)
Theorem uuid_gen_version4 bytes :
  is_uuid bytes ->
  exists uuid, uuid_gen (inr bytes) = inr uuid /\ is_uuid uuid
    /\ uuid !!! 6%nat / 16 = 4 /\ uuid !!! 8%nat / 64 = 2
    /\ uuid !!! 6%nat mod 16 = bytes !!! 6%nat mod 16
    /\ uuid !!! 8%nat mod 64 = bytes !!! 8%nat mod 64
    /\ (forall i, i <> 6%nat -> i <> 8%nat -> uuid !! i = bytes !! i).
Proof.
  intros [Hl Hb]. unfold uuid_gen. unfold blen. rewrite Hl. cbn [negb Z.of_nat Z.eqb Pos.eqb].
  eexists. split; [reflexivity|]. unfold Uuid.assert_uuid_v4.
  assert (Hbits : forall x, is_byte x ->
    let a := Z.lor (Z.land x 15) 64 in let c := Z.lor (Z.land x 63) 128 in
    a / 16 = 4 /\ a mod 16 = x mod 16 /\ c / 64 = 2 /\ c mod 64 = x mod 64 /\ is_byte a /\ is_byte c).
  { intros x Hx a c.
    set (f x := let a := Z.lor (Z.land x 15) 64 in let c := Z.lor (Z.land x 63) 128 in
      (a / 16 =? 4) && (a mod 16 =? x mod 16) && (c / 64 =? 2) && (c mod 64 =? x mod 64)
      && bool_decide (is_byte a) && bool_decide (is_byte c)).
    enough (f x = true) as Hf.
    { subst f. cbn beta zeta in Hf. rewrite !andb_true_iff, !Z.eqb_eq, !bool_decide_eq_true in Hf. tauto. }
    apply (range_forall 256 f); [vm_compute; reflexivity|unfold is_byte in Hx; lia]. }
  split_uuid bytes Hl.
  repeat match goal with H : Forall is_byte (_ :: _) |- _ => apply Forall_cons_1 in H as [? ?] end.
  cbn [insert list_insert lookup_total list_lookup_total].
  match goal with H : is_byte ?x |- context [Z.lor (Z.land ?x 15) 64] => destruct (Hbits x H) as (? & ? & _ & _ & ? & _) end.
  match goal with H : is_byte ?x |- context [Z.lor (Z.land ?x 63) 128] => destruct (Hbits x H) as (_ & _ & ? & ? & _ & ?) end.
  split_and!; try done; [split; [done|all_bytes]|].
  intros i Hi6 Hi8. do 16 (destruct i as [|i]; [done|]). done.
Qed.
End Proofs.

Definition sample : list Z := [1;2;3;4;5;6;7;8;9;10;11;12;13;14;15;255].

Lemma sample_is_uuid : is_uuid sample.
Proof. split; [done|]. apply (bool_decide_unpack _). by vm_compute. Qed.

Lemma uuid_roundtrip_witness :
  exists r str' text,
    sol_util_uuid_string_from_bytes (H := gcc5) (H0 := roomy) true true sample sol_buffer_init
    = Ret (r, str')
    /\ rep str' text /\ r <= 0
    /\ (r = 0 -> Uuid.sol_util_uuid_str_is_valid text = true /\ text = text_form true true sample
        /\ exists r' dst',
             sol_util_uuid_bytes_from_string (H := gcc5) (H0 := roomy) text hello = Ret (r', dst')
           /\ decoded_prefix r' hello dst' [104; 105] sample).
Proof.
  apply (uuid_roundtrip (H := gcc5) (H0 := roomy)); [exact buf_rep_init|exact rep_hello|exact sample_is_uuid].
Defined.

Lemma uuid_gen_version4_witness :
  exists uuid, uuid_gen (inr sample) = inr uuid /\ is_uuid uuid
    /\ uuid !!! 6%nat / 16 = 4 /\ uuid !!! 8%nat / 64 = 2
    /\ uuid !!! 6%nat mod 16 = sample !!! 6%nat mod 16
    /\ uuid !!! 8%nat mod 64 = sample !!! 8%nat mod 64
    /\ (forall i, i <> 6%nat -> i <> 8%nat -> uuid !! i = sample !! i).
Proof. apply (uuid_gen_version4 sample). exact sample_is_uuid. Defined.

(** On a buffer that already holds text the hyphens land at absolute
    positions, in the middle of the old contents. *)
Lemma uuid_string_hyphens_misplaced :
  exists b', sol_util_uuid_string_from_bytes (H := gcc5) (H0 := roomy) true true sample
      {| data := Some (replicate 64 120); capacity := 64; used := 16; flags := 4 |} = Ret (0, b')
    /\ (text ← sol_buffer_get_slice b'; Ret (take 17 text))
       = Ret [120;120;120;120;120;120;120;120;45;120;120;120;120;45;120;120;120].
Proof. eexists. split; vm_compute; reflexivity. Qed.
End UuidStr.
