(* ===== verification/Blob.v ===== *)
(** * Reference-counted blobs (sol_blob)

    Models src/src/lib/common/sol-blob.c and sol_buffer_to_blob of
    src/src/lib/datatypes/sol-buffer.c.  Blobs live in a heap, a finite map
    from addresses; a blob that was freed is no longer in the map, so using it
    is undefined behaviour.  A blob counts the references its clients hold and
    one reference for every live blob it is the parent of. *)

From stdpp Require Import gmap.
From S2P Require Import Prelude Arith Buffer.

#[local] Open Scope Z_scope.

Module Blob.

Inductive sol_blob_type :=
| SOL_BLOB_TYPE_DEFAULT | SOL_BLOB_TYPE_NO_FREE_DATA | SOL_BLOB_TYPE_NO_FREE.

#[export] Instance blob_type_eq_dec : EqDecision sol_blob_type.
Proof. solve_decision. Defined.

(** Addresses are non-zero integers; [None] is NULL.  [mem] is the address of
    the data. *)
Record sol_blob := {
  type : sol_blob_type; parent : option Z; mem : Z; size : Z; refcnt : Z }.

Definition set_refcnt (b : sol_blob) n :=
  {| type := type b; parent := parent b; mem := mem b; size := size b; refcnt := n |}.
Definition set_parent (b : sol_blob) p :=
  {| type := type b; parent := p; mem := mem b; size := size b; refcnt := refcnt b |}.

(** The blobs, and the data blocks freed so far *)
Record heap := { blobs : gmap Z sol_blob; freed : list Z }.

Definition put_blob (h : heap) (a : Z) (b : sol_blob) : heap :=
  {| blobs := <[a := b]> (blobs h); freed := freed h |}.

Definition deref (h : heap) (a : Z) : outcome sol_blob :=
  match blobs h !! a with Some b => Ret b | None => UB end.

(** free(blob) *)
Definition free_blob (h : heap) (a : Z) : outcome heap :=
  _ ← deref h a; Ret {| blobs := delete a (blobs h); freed := freed h |}.

(** [blob->type->free(blob)], or [free(blob)] when the type has no callback *)
Definition type_free (h : heap) (a : Z) : outcome heap :=
  b ← deref h a;
  match type b with
  | SOL_BLOB_TYPE_DEFAULT => free_blob {| blobs := blobs h; freed := mem b :: freed h |} a
  | SOL_BLOB_TYPE_NO_FREE_DATA => free_blob h a
  | SOL_BLOB_TYPE_NO_FREE => Ret h
  end.

(** What SOL_BLOB_CHECK lets through; a blob always has a type here. *)
Definition sol_blob_check (h : heap) (blob : option Z) : outcome (option (Z * sol_blob)) :=
  match blob with
  | None => Ret None
  | Some a => b ← deref h a; Ret (if refcnt b =? 0 then None else Some (a, b))
  end.

(** The returned pointer and the heap *)
Definition sol_blob_ref (h : heap) (blob : option Z) : outcome (option Z * heap) :=
  c ← sol_blob_check h blob;
  match c with
  | None => Ret (None, h)
  | Some (a, b) =>
      if refcnt b =? UINT16_MAX then Ret (None, h)
      else Ret (Some a, put_blob h a (set_refcnt b (refcnt b + 1)))
  end.

(** [fuel] bounds the length of the chain of parents. *)
Fixpoint sol_blob_unref (fuel : nat) (h : heap) (blob : option Z) : outcome heap :=
  match fuel with
  | O => UB
  | S fuel =>
      c ← sol_blob_check h blob;
      match c with
      | None => Ret h
      | Some (a, b) =>
          let b := set_refcnt b (refcnt b - 1) in
          let h := put_blob h a b in
          if refcnt b >? 0 then Ret h
          else
            h ← (match parent b with
                 | Some p => sol_blob_unref fuel h (Some p)
                 | None => Ret h
                 end);
            type_free h a
      end
  end.

Definition sol_blob_set_parent (fuel : nat) (h : heap) (blob : option Z) (new_parent : option Z)
    : outcome heap :=
  c ← sol_blob_check h blob;
  match c with
  | None => Ret h
  | Some (a, _) =>
      ok ← (match new_parent with
            | Some p => c ← sol_blob_check h (Some p);
                        match c with
                        | None => Ret None
                        | Some _ => '(_, h) ← sol_blob_ref h (Some p); Ret (Some h)
                        end
            | None => Ret (Some h)
            end);
      match ok with
      | None => Ret h
      | Some h =>
          b ← deref h a;
          h ← (match parent b with
               | Some q => sol_blob_unref fuel h (Some q)
               | None => Ret h
               end);
          b ← deref h a;
          Ret (put_blob h a (set_parent b new_parent))
      end
  end.

(** [parent] is left as it was: the struct belongs to the caller. *)
Definition sol_blob_setup (b : sol_blob) (t : sol_blob_type) (m sz : Z) : sol_blob :=
  {| type := t; parent := parent b; mem := m; size := sz; refcnt := 1 |}.

(** [calloc]ed memory *)
Definition zero_blob : sol_blob :=
  {| type := SOL_BLOB_TYPE_DEFAULT; parent := None; mem := 0; size := 0; refcnt := 0 |}.

(** [addr] is what calloc returned. *)
Definition sol_blob_new (fuel : nat) (h : heap) (addr : option Z) (t : sol_blob_type)
    (new_parent : option Z) (m sz : Z) : outcome (option Z * heap) :=
  match addr with
  | None => Ret (None, h)
  | Some a =>
      let h := put_blob h a (sol_blob_setup zero_blob t m sz) in
      h ← (match new_parent with
           | Some p => sol_blob_set_parent fuel h (Some a) (Some p)
           | None => Ret h
           end);
      Ret (Some a, h)
  end.

(** [block_addr] is the address of the block that was stolen or copied. *)
Definition sol_buffer_to_blob `{Allocator} (h : heap) (addr : option Z) (block_addr : Z)
    (buf : Buffer.sol_buffer) : outcome (option Z * heap * Buffer.sol_buffer) :=
  '((v, s), buf) ← Buffer.sol_buffer_steal_or_copy buf;
  match v with
  | None => Ret (None, h, buf)
  | Some _ =>
      '(blob, h) ← sol_blob_new 1 h addr SOL_BLOB_TYPE_DEFAULT None block_addr s;
      match blob with
      | None => Ret (None, {| blobs := blobs h; freed := block_addr :: freed h |}, buf)
      | Some a => Ret (Some a, h, buf)
      end
  end.

(** ** Counting *)

(** Is this blob live and a child of [a]? *)
Definition child (a : Z) (b : sol_blob) : Z :=
  if bool_decide (0 < refcnt b /\ parent b = Some a) then 1 else 0.

Definition kids (m : gmap Z sol_blob) (a : Z) : Z :=
  map_fold (fun _ b acc => child a b + acc) 0 m.

Lemma kids_insert_new m k b a : m !! k = None -> kids (<[k := b]> m) a = child a b + kids m a.
Proof. intros Hk. unfold kids. rewrite map_fold_insert_L; [done|intros; lia|done]. Qed.

Lemma kids_delete m k b a : m !! k = Some b -> kids m a = child a b + kids (delete k m) a.
Proof.
  intros Hk. rewrite <- (insert_delete_id m k b Hk) at 1.
  apply kids_insert_new, lookup_delete_eq.
Qed.

Lemma kids_update m k b b' a :
  m !! k = Some b -> kids (<[k := b']> m) a = kids m a - child a b + child a b'.
Proof.
  intros Hk. rewrite (kids_delete m k b a Hk), (kids_delete (<[k := b']> m) k b' a).
  - rewrite delete_insert_eq. lia.
  - apply lookup_insert_eq.
Qed.

(** Decide the tests of [child] from the context. *)
Ltac bool_known :=
  repeat match goal with
  | |- context [bool_decide ?P] =>
      first [ rewrite (bool_decide_true P) by (repeat split; first [assumption | lia | congruence])
            | rewrite (bool_decide_false P)
                by (first [intros [? ?]; first [lia | congruence] | intros ?; congruence]) ]
  end.

Lemma child_bounds a b : 0 <= child a b <= 1.
Proof. unfold child. case_bool_decide; lia. Qed.

Lemma kids_nonneg m a : 0 <= kids m a.
Proof.
  unfold kids. apply (map_fold_weak_ind (fun r _ => 0 <= r)); [lia|].
  intros i b m' r _ ?. pose proof (child_bounds a b). lia.
Qed.

Lemma kids_pos m k b a : m !! k = Some b -> 0 < refcnt b -> parent b = Some a -> 0 < kids m a.
Proof.
  intros Hk Hr Hp. rewrite (kids_delete m k b a Hk). pose proof (kids_nonneg (delete k m) a).
  unfold child. rewrite bool_decide_true by done. lia.
Qed.

(** ** The invariant

    [ext a] is the number of references clients hold; [rank] orders parents
    before children; [pend] are dead blobs whose release is under way. *)

Record blob_ok (rank : Z -> nat) (pend : list Z) (m : gmap Z sol_blob) (ext : Z -> Z)
    (a : Z) (b : sol_blob) : Prop := {
  ok_bound : 0 <= refcnt b <= UINT16_MAX;
  ok_count : refcnt b = ext a + kids m a;
  ok_ext : 0 <= ext a;
  ok_order : forall p, parent b = Some p -> (rank p < rank a)%nat;
  ok_parent : 0 < refcnt b -> forall p, parent b = Some p ->
    exists pb, m !! p = Some pb /\ 0 < refcnt pb;
  ok_dead : refcnt b = 0 -> type b = SOL_BLOB_TYPE_NO_FREE \/ a ∈ pend
}.

Definition inv (rank : Z -> nat) (pend : list Z) (m : gmap Z sol_blob) (ext : Z -> Z) : Prop :=
  (forall a b, m !! a = Some b -> blob_ok rank pend m ext a b)
  /\ (forall a, m !! a = None -> ext a = 0).

(** One more or one less reference for [a] *)
Definition bump (ext : Z -> Z) (a d : Z) (x : Z) : Z := if x =? a then ext x + d else ext x.

Lemma bump_eq ext a d : bump ext a d a = ext a + d.
Proof. unfold bump. by rewrite Z.eqb_refl. Qed.
Lemma bump_ne ext a d x : x <> a -> bump ext a d x = ext x.
Proof. intros. unfold bump. by rewrite (proj2 (Z.eqb_neq x a)). Qed.

Lemma inv_ext rank pend m ext ext' : (forall x, ext x = ext' x) -> inv rank pend m ext -> inv rank pend m ext'.
Proof.
  intros He [Hok Hno]. split.
  - intros a b Hb. destruct (Hok a b Hb). split; try done; by rewrite <- He.
  - intros a Ha. rewrite <- He. auto.
Qed.

(** Changing the count of a live blob that stays live *)
Lemma inv_count rank pend m ext a b d :
  inv rank pend m ext -> m !! a = Some b -> 0 < refcnt b -> 0 < refcnt b + d <= UINT16_MAX ->
  0 <= ext a + d ->
  inv rank pend (<[a := set_refcnt b (refcnt b + d)]> m) (bump ext a d).
Proof.
  intros [Hok Hno] Ha Hlive Hd He.
  assert (Hk : forall x, kids (<[a := set_refcnt b (refcnt b + d)]> m) x = kids m x).
  { intros x. rewrite (kids_update m a b _ x Ha). unfold child. cbn [refcnt parent set_refcnt].
    destruct (decide (parent b = Some x)); bool_known; lia. }
  split.
  - intros x bx Hx. destruct (decide (x = a)) as [->|Hne].
    + rewrite lookup_insert_eq in Hx. injection Hx as <-. destruct (Hok a b Ha).
      split; cbn [refcnt set_refcnt parent type]; rewrite ?Hk, ?bump_eq; try lia.
      * done.
      * intros _ p Hp. destruct (ok_parent0 Hlive p Hp) as (pb & Hpb & Hpos).
        destruct (decide (p = a)) as [->|]; [specialize (ok_order0 a Hp); lia|].
        rewrite lookup_insert_ne by done. eauto.
    + rewrite lookup_insert_ne in Hx by done. destruct (Hok x bx Hx).
      split; rewrite ?Hk, ?bump_ne by done; try done.
      intros Hbx p Hp. destruct (ok_parent0 Hbx p Hp) as (pb & Hpb & Hpos).
      destruct (decide (p = a)) as [->|].
      * rewrite lookup_insert_eq. eexists. split; [done|]. cbn. lia.
      * rewrite lookup_insert_ne by done. eauto.
  - intros x Hx. apply lookup_insert_None in Hx as [Hx Hne]. rewrite bump_ne by done. auto.
Qed.

(** The last reference goes: the blob is dead, its parent's reference becomes
    a client's. *)
Lemma inv_die rank pend m ext a b ext' :
  inv rank pend m ext -> m !! a = Some b -> refcnt b = 1 -> 0 < ext a ->
  (forall x, ext' x = bump ext a (-1) x + (if bool_decide (parent b = Some x) then 1 else 0)) ->
  inv rank (a :: pend) (<[a := set_refcnt b 0]> m) ext'.
Proof.
  intros [Hok Hno] Ha Hone Hea He. pose proof (Hok a b Ha) as [_ Hcnt _ Hord Hpar _].
  assert (kids m a = 0) as Hk0 by (pose proof (kids_nonneg m a); lia).
  assert (Hk : forall x, kids (<[a := set_refcnt b 0]> m) x
    = kids m x - (if bool_decide (parent b = Some x) then 1 else 0)).
  { intros x. rewrite (kids_update m a b _ x Ha). unfold child. cbn [refcnt parent set_refcnt].
    destruct (decide (parent b = Some x)); bool_known; lia. }
  assert (Hself : parent b <> Some a).
  { intros Hp. specialize (Hord a Hp). lia. }
  split.
  - intros x bx Hx. destruct (decide (x = a)) as [->|Hne].
    + rewrite lookup_insert_eq in Hx. injection Hx as <-.
      split; cbn [refcnt set_refcnt parent type]; rewrite ?Hk, ?He, ?bump_eq; try zlia;
        rewrite ?bool_decide_false by done; try lia; [done|]. intros _. right. by left.
    + rewrite lookup_insert_ne in Hx by done. destruct (Hok x bx Hx) as [? ? ? ? Hpar' Hdead].
      split; rewrite ?Hk, ?He, ?bump_ne by done; try done.
      * case_bool_decide; lia.
      * case_bool_decide; lia.
      * intros Hbx p Hp. destruct (Hpar' Hbx p Hp) as (pb & Hpb & Hpos).
        destruct (decide (p = a)) as [->|].
        { pose proof (kids_pos m x bx a Hx Hbx Hp). lia. }
        rewrite lookup_insert_ne by done. eauto.
      * intros Hz. destruct (Hdead Hz); [by left|right; by right].
  - intros x Hx. apply lookup_insert_None in Hx as [Hx Hne]. rewrite He, bump_ne by done.
    rewrite bool_decide_false; [rewrite Hno by done; lia|].
    intros Hp. destruct (Hpar ltac:(lia) x Hp) as (pb & Hpb & _). congruence.
Qed.

(** Releasing a dead blob *)
Lemma inv_release rank pend m ext a b :
  inv rank (a :: pend) m ext -> m !! a = Some b -> refcnt b = 0 ->
  inv rank pend (if bool_decide (type b = SOL_BLOB_TYPE_NO_FREE) then m else delete a m) ext.
Proof.
  intros [Hok Hno] Ha Hz. pose proof (Hok a b Ha) as [_ Hcnt He _ _ _].
  assert (kids m a = 0 /\ ext a = 0) as [Hk0 Hx0] by (pose proof (kids_nonneg m a); lia).
  case_bool_decide as Ht.
  - split; [|done]. intros x bx Hx. destruct (Hok x bx Hx). split; try done.
    intros Hbz. destruct (ok_dead0 Hbz) as [?|[->|]%elem_of_cons]; [by left| |by right].
    left. congruence.
  - assert (Hk : forall x, kids (delete a m) x = kids m x).
    { intros x. rewrite (kids_delete m a b x Ha). unfold child. rewrite bool_decide_false by lia. lia. }
    split.
    + intros x bx Hx. apply lookup_delete_Some in Hx as [Hne Hx].
      destruct (Hok x bx Hx) as [? ? ? ? Hpar Hdead]. split; rewrite ?Hk; try done.
      * intros Hbx p Hp. destruct (Hpar Hbx p Hp) as (pb & Hpb & Hpos).
        destruct (decide (p = a)) as [->|].
        { assert (pb = b) by congruence. subst. lia. }
        rewrite lookup_delete_ne by done. eauto.
      * intros Hbz. destruct (Hdead Hbz) as [?|[->|]%elem_of_cons]; [by left|done|by right].
    + intros x Hx. apply lookup_delete_None in Hx as [->|Hx]; auto.
Qed.

(** ** Operations keep the invariant *)

Lemma live_blob rank pend h ext a :
  inv rank pend (blobs h) ext -> 0 < ext a ->
  exists b, blobs h !! a = Some b /\ 0 < refcnt b.
Proof.
  intros [Hok Hno] Ha. destruct (blobs h !! a) as [b|] eqn:Hb.
  - exists b. split; [done|]. destruct (Hok a b Hb). pose proof (kids_nonneg (blobs h) a). lia.
  - rewrite (Hno a Hb) in Ha. lia.
Qed.

Lemma deref_some h a b : blobs h !! a = Some b -> deref h a = Ret b.
Proof. unfold deref. by intros ->. Qed.

Lemma check_live h a b :
  blobs h !! a = Some b -> 0 < refcnt b -> sol_blob_check h (Some a) = Ret (Some (a, b)).
Proof.
  intros Hb Hlive. cbn [sol_blob_check]. unfold deref. rewrite Hb, bind_ret.
  by rewrite (proj2 (Z.eqb_neq _ _)) by lia.
Qed.

Lemma unref_spec fuel rank pend h ext a :
  inv rank pend (blobs h) ext -> 0 < ext a -> (rank a < fuel)%nat ->
  exists h', sol_blob_unref fuel h (Some a) = Ret h'
    /\ inv rank pend (blobs h') (bump ext a (-1))
    /\ (forall x b, blobs h !! x = Some b -> refcnt b = 0 -> blobs h' !! x = Some b)
    /\ (forall x, blobs h !! x = None -> blobs h' !! x = None).
Proof.
  revert pend h ext a. induction fuel as [|fuel IH]; intros pend h ext a Hinv Ha Hf; [lia|].
  destruct (live_blob _ _ _ _ _ Hinv Ha) as (b & Hb & Hlive).
  cbn [sol_blob_unref]. rewrite (check_live h a b), bind_ret by done.
  cbn [refcnt set_refcnt parent]. rewrite Z.gtb_ltb.
  destruct (Z.ltb_spec 0 (refcnt b - 1)).
  { eexists. split; [done|]. cbn [blobs put_blob].
    destruct Hinv as [Hok Hno]. pose proof (Hok a b Hb) as Hbok. split_and!.
    - apply inv_count; [by split|done|done| |lia]. destruct Hbok. lia.
    - intros x bx Hx Hz. rewrite lookup_insert_ne; [done|]. intros ->. assert (bx = b) by congruence.
      subst. lia.
    - intros x Hx. rewrite lookup_insert_ne; [done|]. intros ->. congruence. }
  assert (refcnt b = 1) as Hone by lia.
  set (ext1 := fun x => bump ext a (-1) x + (if bool_decide (parent b = Some x) then 1 else 0)).
  assert (inv rank (a :: pend) (<[a := set_refcnt b 0]> (blobs h)) ext1) as Hinv1
    by (by apply (inv_die rank pend _ ext)).
  replace (refcnt b - 1) with 0 by lia. set (h1 := put_blob h a (set_refcnt b 0)).
  assert (Hpar : forall p, parent b = Some p -> (rank p < rank a)%nat)
    by (intros; by eapply (proj1 Hinv)).
  assert (exists h2, match parent b with
      | Some p => sol_blob_unref fuel h1 (Some p) | None => Ret h1 end = Ret h2
    /\ inv rank (a :: pend) (blobs h2) (bump ext a (-1))
    /\ (forall x b, blobs h1 !! x = Some b -> refcnt b = 0 -> blobs h2 !! x = Some b)
    /\ (forall x, blobs h1 !! x = None -> blobs h2 !! x = None))
    as (h2 & -> & Hinv2 & Hdead & Hnone).
  { destruct (parent b) as [p|] eqn:Hp.
    - assert (p <> a) as Hne by (intros ->; specialize (Hpar a eq_refl); lia).
      assert (ext1 p = ext p + 1) as He1
        by (subst ext1; cbn beta; rewrite bump_ne, bool_decide_true by done; done).
      assert (0 <= ext p) as Hep.
      { destruct (blobs h !! p) as [pb|] eqn:Hpb; [by destruct (proj1 Hinv p pb Hpb)|].
        rewrite (proj2 Hinv p Hpb). lia. }
      destruct (IH (a :: pend) h1 ext1 p) as (h2 & Hrun & Hinv2 & Hd & Hn);
        [done|lia|specialize (Hpar p eq_refl); lia|].
      exists h2. split_and!; try done. eapply inv_ext; [|done]. intros x. unfold ext1.
      destruct (decide (x = p)) as [->|].
      + rewrite bump_eq, bool_decide_true by done. lia.
      + rewrite (bump_ne _ p), bool_decide_false by congruence. lia.
    - exists h1. split_and!; try done. eapply inv_ext; [|done]. intros x. unfold ext1.
      rewrite bool_decide_false by done. lia. }
  rewrite bind_ret.
  assert (blobs h2 !! a = Some (set_refcnt b 0)) as Ha2
    by (apply Hdead; [apply lookup_insert_eq|done]).
  unfold h1 in Hdead, Hnone. cbn [put_blob blobs] in Hdead, Hnone.
  pose proof (inv_release rank pend _ _ a _ Hinv2 Ha2 eq_refl) as Hinv3. cbn [type set_refcnt] in Hinv3.
  unfold type_free, free_blob, deref. rewrite Ha2, bind_ret. cbn [type set_refcnt].
  assert (Hkeep : forall m : gmap Z sol_blob, (forall x, x <> a -> m !! x = blobs h2 !! x) ->
    forall x bx, blobs h !! x = Some bx -> refcnt bx = 0 -> m !! x = Some bx).
  { intros m Hm x bx Hx Hz. assert (x <> a) by (intros ->; assert (bx = b) by congruence; subst; lia).
    rewrite Hm by done. apply Hdead; [|done]. by rewrite lookup_insert_ne. }
  assert (Hstay : forall m : gmap Z sol_blob, (forall x, x <> a -> m !! x = blobs h2 !! x) ->
    forall x, blobs h !! x = None -> m !! x = None).
  { intros m Hm x Hx. assert (x <> a) by (intros ->; congruence).
    rewrite Hm by done. apply Hnone. by rewrite lookup_insert_ne. }
  destruct (type b) eqn:Ht; cbn [blobs]; rewrite ?Ha2, ?bind_ret;
    (eexists; split; [reflexivity|]); cbn [blobs].
  - rewrite bool_decide_false in Hinv3 by done. split_and!; [done|..];
      [apply Hkeep|apply Hstay]; intros; by rewrite lookup_delete_ne.
  - rewrite bool_decide_false in Hinv3 by done. split_and!; [done|..];
      [apply Hkeep|apply Hstay]; intros; by rewrite lookup_delete_ne.
  - rewrite bool_decide_true in Hinv3 by done. split_and!; [done|by apply Hkeep|by apply Hstay].
Qed.

(** Taking a reference on a live blob *)
Lemma ref_spec rank pend h ext a b :
  inv rank pend (blobs h) ext -> blobs h !! a = Some b -> 0 < refcnt b ->
  sol_blob_ref h (Some a)
  = Ret (if refcnt b =? UINT16_MAX then (None, h)
         else (Some a, put_blob h a (set_refcnt b (refcnt b + 1))))
  /\ (refcnt b < UINT16_MAX ->
      inv rank pend (<[a := set_refcnt b (refcnt b + 1)]> (blobs h)) (bump ext a 1)).
Proof.
  intros Hinv Hb Hlive. unfold sol_blob_ref. rewrite (check_live h a b), bind_ret by done.
  split; [by destruct (refcnt b =? UINT16_MAX)|]. intros Hmax.
  destruct (proj1 Hinv a b Hb). apply inv_count; try done; lia.
Qed.

(** Re-parenting a blob whose old parent reference was turned over to the
    client: the client's reference on the new parent becomes the blob's. *)
Lemma inv_reparent rank pend m ext a b p :
  inv rank pend m ext -> m !! a = Some b -> 0 < refcnt b ->
  (forall q, p = Some q -> (rank q < rank a)%nat /\ 0 < ext q) ->
  inv rank pend (<[a := set_parent b p]> m)
    (fun x => ext x + (if bool_decide (parent b = Some x) then 1 else 0)
              - (if bool_decide (p = Some x) then 1 else 0)).
Proof.
  intros [Hok Hno] Hb Hlive Hp.
  assert (Hpnew : forall q, p = Some q -> q <> a /\ exists pb, m !! q = Some pb /\ 0 < refcnt pb).
  { intros q Hq. destruct (Hp q Hq) as [Hr He]. split; [intros ->; lia|].
    destruct (m !! q) as [qb|] eqn:Hqb; [|rewrite (Hno q Hqb) in He; lia]. exists qb. split; [done|].
    destruct (Hok q qb Hqb). pose proof (kids_nonneg m q). lia. }
  assert (Hk : forall x, kids (<[a := set_parent b p]> m) x
    = kids m x - (if bool_decide (parent b = Some x) then 1 else 0)
      + (if bool_decide (p = Some x) then 1 else 0)).
  { intros x. rewrite (kids_update m a b _ x Hb). unfold child. cbn [refcnt parent set_parent].
    destruct (decide (parent b = Some x)), (decide (p = Some x)); bool_known; lia. }
  assert (Hext : forall x, 0 <= ext x -> 0 <= ext x + (if bool_decide (parent b = Some x) then 1 else 0)
              - (if bool_decide (p = Some x) then 1 else 0)).
  { intros x Hx. repeat case_bool_decide; try lia; destruct (Hp x ltac:(done)); lia. }
  split.
  - intros x bx Hx. destruct (decide (x = a)) as [->|Hne].
    + rewrite lookup_insert_eq in Hx. injection Hx as <-. destruct (Hok a b Hb).
      split; cbn [refcnt set_parent parent type]; rewrite ?Hk; auto; [lia| |].
      * intros q Hq. by destruct (Hp q Hq).
      * intros _ q Hq. destruct (Hpnew q Hq) as [Hqa (pb & Hpb & ?)].
        exists pb. by rewrite lookup_insert_ne.
    + rewrite lookup_insert_ne in Hx by done. destruct (Hok x bx Hx) as [? ? ? ? Hpar Hdead].
      split; rewrite ?Hk; auto; [lia|].
      intros Hbx q Hq. destruct (Hpar Hbx q Hq) as (pb & Hpb & Hpos).
      destruct (decide (q = a)) as [->|].
      * rewrite lookup_insert_eq. eexists. split; [done|]. done.
      * rewrite lookup_insert_ne by done. eauto.
  - intros x Hx. apply lookup_insert_None in Hx as [Hx Hne]. rewrite Hno by done.
    rewrite !bool_decide_false; [lia|..].
    + intros Hq. destruct (Hpnew x Hq) as [_ (pb & ? & _)]. congruence.
    + intros Hq. destruct (ok_parent _ _ _ _ _ _ (Hok a b Hb) Hlive x Hq) as (pb & ? & _). congruence.
Qed.

(** Unreferencing a blob that comes before [a] in the order neither looks at
    [a] nor changes it. *)
Definition ordered (rank : Z -> nat) (m : gmap Z sol_blob) : Prop :=
  forall x b p, m !! x = Some b -> parent b = Some p -> (rank p < rank x)%nat.

Lemma put_put h x a b b' : x <> a ->
  put_blob (put_blob h x b) a b' = put_blob (put_blob h a b') x b.
Proof. intros. unfold put_blob. cbn [blobs freed]. by rewrite insert_insert_ne. Qed.

Lemma type_free_frame h x a b' h' :
  x <> a -> type_free h x = Ret h' ->
  type_free (put_blob h a b') x = Ret (put_blob h' a b') /\ blobs h' !! a = blobs h !! a.
Proof.
  intros Hne. unfold type_free, deref. cbn [blobs put_blob]. rewrite lookup_insert_ne by done.
  destruct (blobs h !! x) as [b|] eqn:Hb; [|done]. rewrite !bind_ret.
  destruct (type b); unfold free_blob, deref; cbn [blobs freed put_blob];
    rewrite ?(lookup_insert_ne _ a x) by done; rewrite ?Hb, ?bind_ret; intros [= <-];
    cbn [blobs freed put_blob].
  - split; [|by rewrite lookup_delete_ne]. unfold put_blob. cbn [blobs freed].
    by rewrite delete_insert_ne by done.
  - split; [|by rewrite lookup_delete_ne]. unfold put_blob. cbn [blobs freed].
    by rewrite delete_insert_ne by done.
  - done.
Qed.

Lemma ordered_insert rank m x b b' :
  ordered rank m -> m !! x = Some b -> parent b' = parent b -> ordered rank (<[x := b']> m).
Proof.
  intros Hord Hb Hp y by_ p Hy Hpar. destruct (decide (y = x)) as [->|].
  - rewrite lookup_insert_eq in Hy. injection Hy as <-. rewrite Hp in Hpar. by eapply Hord.
  - rewrite lookup_insert_ne in Hy by done. by eapply Hord.
Qed.

Lemma unref_frame fuel rank h x a b' h' :
  ordered rank (blobs h) -> (rank x < rank a)%nat ->
  sol_blob_unref fuel h (Some x) = Ret h' ->
  sol_blob_unref fuel (put_blob h a b') (Some x) = Ret (put_blob h' a b')
  /\ blobs h' !! a = blobs h !! a.
Proof.
  revert h x h'. induction fuel as [|fuel IH]; intros h x h' Hord Hx; [done|].
  assert (x <> a) as Hne by (intros ->; lia).
  cbn [sol_blob_unref sol_blob_check]. unfold deref. cbn [blobs put_blob].
  rewrite lookup_insert_ne by done.
  destruct (blobs h !! x) as [b|] eqn:Hb; [|done]. rewrite !bind_ret.
  destruct (Z.eqb_spec (refcnt b) 0) as [Hz|Hz].
  { by intros [= <-]. }
  cbn [refcnt set_refcnt parent]. rewrite <- (put_put h x a (set_refcnt b (refcnt b - 1)) b') by done.
  set (h1 := put_blob h x (set_refcnt b (refcnt b - 1))).
  assert (blobs h1 !! a = blobs h !! a) as Ha1
    by (unfold h1; cbn [blobs put_blob]; by rewrite lookup_insert_ne).
  destruct (refcnt b - 1 >? 0).
  { by intros [= <-]. }
  destruct (parent b) as [p|] eqn:Hp.
  - intros (h2 & Hrun & Hfree)%bind_Ret_inv.
    assert (ordered rank (blobs h1)) as Hord1 by (eapply ordered_insert; done).
    pose proof (Hord x b p Hb Hp).
    destruct (IH h1 p h2 Hord1 ltac:(lia) Hrun) as [-> Ha2]. rewrite bind_ret.
    destruct (type_free_frame h2 x a b' h' Hne Hfree) as [-> Ha3]. split; [done|congruence].
  - rewrite !bind_ret. intros Hfree. destruct (type_free_frame h1 x a b' h' Hne Hfree) as [-> Ha3].
    split; [done|congruence].
Qed.

Lemma inv_ordered rank pend m ext : inv rank pend m ext -> ordered rank m.
Proof. intros [Hok _] x b p Hb. destruct (Hok x b Hb). auto. Qed.

(** Giving a live blob another parent, or none *)
Lemma set_parent_spec fuel rank h ext a b p :
  inv rank [] (blobs h) ext -> blobs h !! a = Some b -> 0 < refcnt b ->
  (forall x, rank x < fuel)%nat ->
  (forall q, p = Some q -> (rank q < rank a)%nat
     /\ exists qb, blobs h !! q = Some qb /\ 0 < refcnt qb < UINT16_MAX) ->
  exists h', sol_blob_set_parent fuel h (Some a) p = Ret h' /\ inv rank [] (blobs h') ext
    /\ (exists b', blobs h' !! a = Some b' /\ parent b' = p /\ refcnt b' = refcnt b)
    /\ (forall x, blobs h !! x = None -> blobs h' !! x = None).
Proof.
  intros Hinv Hb Hlive Hfuel Hp. unfold sol_blob_set_parent.
  rewrite (check_live h a b), bind_ret by done.
  (* the reference on the new parent *)
  assert (exists h1, (match p with
      | Some p => c ← sol_blob_check h (Some p);
                  match c with
                  | None => Ret None
                  | Some _ => '(_, h) ← sol_blob_ref h (Some p); Ret (Some h)
                  end
      | None => Ret (Some h) end) = Ret (Some h1)
    /\ inv rank [] (blobs h1) (fun x => ext x + (if bool_decide (p = Some x) then 1 else 0))
    /\ blobs h1 !! a = Some b /\ (forall x, blobs h !! x = None -> blobs h1 !! x = None))
    as (h1 & -> & Hinv1 & Hb1 & Hn1).
  { destruct p as [q|].
    - destruct (Hp q eq_refl) as (Hr & qb & Hq & Hqpos).
      assert (q <> a) by (intros ->; lia).
      rewrite (check_live h q qb), bind_ret by (done || lia).
      destruct (ref_spec rank [] h ext q qb Hinv Hq) as [-> Hinv1]; [lia|].
      rewrite (proj2 (Z.eqb_neq _ _)), bind_ret by lia. eexists. split; [done|].
      cbn [blobs put_blob]. split_and!.
      + eapply inv_ext; [|apply Hinv1; lia]. intros x. destruct (decide (x = q)) as [->|].
        * rewrite bump_eq, bool_decide_true by done. done.
        * rewrite bump_ne, bool_decide_false by congruence. lia.
      + by rewrite lookup_insert_ne.
      + intros x Hx. rewrite lookup_insert_ne; [done|congruence].
    - exists h. split_and!; try done. eapply inv_ext; [|done]. intros x.
      rewrite bool_decide_false by done. lia. }
  rewrite bind_ret, (deref_some h1 a b), bind_ret by done.
  (* what the code does to the old parent, on the heap where [a] already has the new one *)
  assert (inv rank [] (<[a := set_parent b p]> (blobs h1))
    (fun x => ext x + (if bool_decide (parent b = Some x) then 1 else 0))) as Hinv2.
  { eapply inv_ext; [|apply (inv_reparent rank [] _ _ a b p Hinv1 Hb1 Hlive)].
    - intros x. cbn beta. lia.
    - intros q Hq. destruct (Hp q Hq) as (Hr & qb & Hqb & Hqpos). split; [done|].
      cbn beta. rewrite bool_decide_true by done.
      pose proof (ok_ext _ _ _ _ _ _ (proj1 Hinv q qb Hqb)). lia. }
  set (h2 := put_blob h1 a (set_parent b p)).
  destruct (parent b) as [old|] eqn:Hold.
  - assert (rank old < rank a)%nat as Hr by (by eapply (proj1 Hinv)).
    assert (old <> a) by (intros ->; lia).
    assert (0 <= ext old) as Heo.
    { destruct (blobs h !! old) as [ob|] eqn:Hob; [by destruct (proj1 Hinv old ob Hob)|].
      rewrite (proj2 Hinv old Hob). lia. }
    destruct (unref_spec fuel rank [] h2 _ old Hinv2) as (h3 & Hrun & Hinv3 & _ & Hn3);
      [rewrite bool_decide_true by done; lia|apply Hfuel|].
    destruct (unref_frame fuel rank h2 old a b h3) as [Hframe Ha3];
      [by eapply inv_ordered|done|done|].
    assert (put_blob h2 a b = h1) as Hback.
    { unfold h2, put_blob. cbn [blobs freed]. rewrite insert_insert_eq, insert_id by done.
      by destruct h1. }
    rewrite Hback in Hframe. rewrite Hframe, bind_ret. rewrite (deref_some _ a b), bind_ret by apply lookup_insert_eq.
    eexists. split; [done|]. cbn [blobs put_blob].
    rewrite insert_insert_eq.
    assert (blobs h3 !! a = Some (set_parent b p)) as Ha3'
      by (rewrite Ha3; unfold h2; cbn [blobs put_blob]; apply lookup_insert_eq).
    rewrite insert_id by done. split_and!.
    + eapply inv_ext; [|done]. intros x. destruct (decide (x = old)) as [->|].
      * rewrite bump_eq, bool_decide_true by done. lia.
      * rewrite bump_ne, bool_decide_false by congruence. lia.
    + eexists. split; [done|]. done.
    + intros x Hx. apply Hn3. unfold h2. cbn [blobs put_blob]. rewrite lookup_insert_ne; [auto|congruence].
  - rewrite bind_ret, (deref_some h1 a b), bind_ret by done. exists h2. split; [done|].
    unfold h2. cbn [blobs put_blob]. split_and!.
    + eapply inv_ext; [|done]. intros x. cbn beta. rewrite bool_decide_false by done. lia.
    + eexists. split; [apply lookup_insert_eq|]. done.
    + intros x Hx. rewrite lookup_insert_ne; [auto|congruence].
Qed.

(** ** Programs that use blobs *)

Inductive client_op :=
| CNew (addr : Z) (t : sol_blob_type) (p : option Z) (m sz : Z)
| CRef (a : Z) | CUnref (a : Z) | CSetParent (a : Z) (p : option Z).

Definition run_client (fuel : nat) (op : client_op) (h : heap) : outcome heap :=
  match op with
  | CNew addr t p m sz => '(_, h) ← sol_blob_new fuel h (Some addr) t p m sz; Ret h
  | CRef a => '(_, h) ← sol_blob_ref h (Some a); Ret h
  | CUnref a => sol_blob_unref fuel h (Some a)
  | CSetParent a p => sol_blob_set_parent fuel h (Some a) p
  end.

(** The references the client holds afterwards *)
Definition client_ext (op : client_op) (ext : Z -> Z) : Z -> Z :=
  match op with
  | CNew addr _ _ _ _ => bump ext addr 1
  | CRef a => bump ext a 1
  | CUnref a => bump ext a (-1)
  | CSetParent _ _ => ext
  end.

Definition live (h : heap) (a : Z) : Prop := exists b, blobs h !! a = Some b /\ 0 < refcnt b.
Definition spare (h : heap) (a : Z) : Prop :=
  exists b, blobs h !! a = Some b /\ 0 < refcnt b < UINT16_MAX.

(** What a program has to respect: it releases only references it holds, uses
    live blobs, keeps counters below their maximum and parents before
    children. *)
Definition client_may (rank : Z -> nat) (op : client_op) (h : heap) (ext : Z -> Z) : Prop :=
  match op with
  | CNew addr _ p _ _ => blobs h !! addr = None
      /\ (forall q, p = Some q -> (rank q < rank addr)%nat /\ spare h q)
  | CRef a => spare h a
  | CUnref a => 0 < ext a
  | CSetParent a p => live h a /\ (forall q, p = Some q -> (rank q < rank a)%nat /\ spare h q)
  end.

(** States reachable by such programs; [runs] also says that every operation
    on the way is defined. *)
Inductive runs (fuel : nat) (rank : Z -> nat) : heap -> (Z -> Z) -> Prop :=
| runs_start : runs fuel rank {| blobs := ∅; freed := [] |} (fun _ => 0)
| runs_step op h ext h' :
    runs fuel rank h ext -> client_may rank op h ext -> run_client fuel op h = Ret h' ->
    runs fuel rank h' (client_ext op ext).

Lemma inv_new rank m ext a t dt sz :
  inv rank [] m ext -> m !! a = None ->
  inv rank [] (<[a := sol_blob_setup zero_blob t dt sz]> m) (bump ext a 1).
Proof.
  intros [Hok Hno] Ha.
  assert (Hk : forall x, kids (<[a := sol_blob_setup zero_blob t dt sz]> m) x = kids m x).
  { intros x. rewrite kids_insert_new by done. unfold child. cbn. rewrite bool_decide_false; [done|]. by intros [_ ?]. }
  assert (kids m a = 0) as Hka.
  { unfold kids. apply (map_fold_weak_ind (fun r m' => m' ⊆ m -> r = 0)); [done| |done].
    intros i b m' r Hi IH Hsub.
    assert (m !! i = Some b) as Hib by (eapply lookup_weaken; [apply lookup_insert_eq|done]).
    rewrite IH by (etrans; [by apply insert_subseteq|done]).
    unfold child. destruct (Hok i b Hib). rewrite bool_decide_false; [done|].
    intros [Hlive Hp]. destruct (ok_parent0 Hlive a Hp) as (pb & ? & _). congruence. }
  split.
  - intros x bx Hx. destruct (decide (x = a)) as [->|Hne].
    + rewrite lookup_insert_eq in Hx. injection Hx as <-.
      split; cbn; rewrite ?Hk, ?bump_eq, ?(Hno a Ha); try zlia; done.
    + rewrite lookup_insert_ne in Hx by done. destruct (Hok x bx Hx).
      split; rewrite ?Hk, ?bump_ne by done; try done.
      intros Hbx p Hp. destruct (ok_parent0 Hbx p Hp) as (pb & Hpb & Hpos).
      exists pb. rewrite lookup_insert_ne; [done|congruence].
  - intros x Hx. apply lookup_insert_None in Hx as [Hx Hne]. rewrite bump_ne by done. auto.
Qed.

Lemma client_step fuel rank op h ext :
  (forall x, rank x < fuel)%nat -> inv rank [] (blobs h) ext -> client_may rank op h ext ->
  exists h', run_client fuel op h = Ret h' /\ inv rank [] (blobs h') (client_ext op ext).
Proof.
  intros Hfuel Hinv Hmay. destruct op as [addr t p m sz|a|a|a p]; cbn [run_client client_ext client_may] in *.
  - destruct Hmay as [Hnew Hp]. cbn [sol_blob_new]. set (h1 := put_blob h addr _).
    pose proof (inv_new rank _ ext addr t m sz Hinv Hnew) as Hinv1.
    destruct p as [q|]; [|rewrite !bind_ret; by exists h1].
    destruct (Hp q eq_refl) as (Hr & qb & Hq & Hqpos).
    destruct (set_parent_spec fuel rank h1 (bump ext addr 1) addr
      (sol_blob_setup zero_blob t m sz) (Some q)) as (h' & -> & Hinv' & _); [done|..].
    + apply lookup_insert_eq.
    + done.
    + done.
    + intros ? [= <-]. split; [done|]. exists qb. split; [|done].
      unfold h1. cbn [blobs put_blob]. rewrite lookup_insert_ne; [done|congruence].
    + rewrite !bind_ret. by exists h'.
  - destruct Hmay as (b & Hb & Hpos).
    destruct (ref_spec rank [] h ext a b Hinv Hb) as [-> Hinv1]; [lia|].
    rewrite (proj2 (Z.eqb_neq _ _)), bind_ret by lia. eexists. split; [done|]. apply Hinv1. lia.
  - destruct (unref_spec fuel rank [] h ext a Hinv Hmay) as (h' & -> & Hinv' & _); [auto|]. by exists h'.
  - destruct Hmay as ((b & Hb & Hlive) & Hp).
    destruct (set_parent_spec fuel rank h ext a b p Hinv Hb Hlive Hfuel Hp) as (h' & -> & Hinv' & _).
    by exists h'.
Qed.

Lemma runs_inv fuel rank h ext :
  (forall x, rank x < fuel)%nat -> runs fuel rank h ext -> inv rank [] (blobs h) ext.
Proof.
  intros Hfuel. induction 1 as [|op h ext h' Hruns IH Hmay Hrun].
  - split; [done|done].
  - destruct (client_step fuel rank op h ext Hfuel IH Hmay) as (h'' & Hrun' & Hinv). congruence.
Qed.

(** C19: reference counting is safe.  In every state a well-behaved program
    reaches, (1) the next operation it may perform is defined: no blob is used
    after it was freed and the chain of releases ends; (2) the counter of a
    blob is the number of references clients hold plus its live children;
    (3) every blob a client still references is in memory, and a live blob's
    parent is live; (4) a heap blob without references has been freed. *)
Theorem blob_references_safe fuel rank h ext :
  (forall x, rank x < fuel)%nat -> runs fuel rank h ext ->
  (forall op, client_may rank op h ext -> exists h', run_client fuel op h = Ret h')
  /\ (forall a b, blobs h !! a = Some b -> refcnt b = ext a + kids (blobs h) a)
  /\ (forall a, 0 < ext a -> live h a)
  /\ (forall a b p, blobs h !! a = Some b -> 0 < refcnt b -> parent b = Some p -> live h p)
  /\ (forall a b, blobs h !! a = Some b -> ext a = 0 -> kids (blobs h) a = 0 ->
      type b = SOL_BLOB_TYPE_NO_FREE).
Proof.
  intros Hfuel Hruns. pose proof (runs_inv fuel rank h ext Hfuel Hruns) as Hinv.
  split_and!.
  - intros op Hmay. destruct (client_step fuel rank op h ext Hfuel Hinv Hmay) as (h' & ? & _). by exists h'.
  - intros a b Hb. by destruct (proj1 Hinv a b Hb).
  - intros a Ha. by apply (live_blob rank [] h ext).
  - intros a b p Hb Hlive Hp. by apply (ok_parent _ _ _ _ _ _ (proj1 Hinv a b Hb)).
  - intros a b Hb He Hk. destruct (proj1 Hinv a b Hb) as [_ Hc _ _ _ Hdead].
    destruct Hdead as [?|Hin]; [lia|done|]. by apply elem_of_nil in Hin.
Qed.

(** A blob and its child, released in the order that needs the chain *)
Definition demo_rank (x : Z) : nat := if x =? 16 then 0%nat else 1%nat.

Lemma blob_references_safe_witness :
  live {| blobs := {[ 16 := {| type := SOL_BLOB_TYPE_DEFAULT; parent := None; mem := 1000;
                               size := 8; refcnt := 1 |} ]}; freed := [] |} 16.
Proof.
  apply (blob_references_safe 2 demo_rank _ (bump (fun _ => 0) 16 1)); [|..].
  - intros x. unfold demo_rank. destruct (x =? 16); lia.
  - apply (runs_step _ _ (CNew 16 SOL_BLOB_TYPE_DEFAULT None 1000 8)
             {| blobs := ∅; freed := [] |} (fun _ => 0)).
    + constructor.
    + split; [done|discriminate].
    + reflexivity.
  - reflexivity.
Defined.

(** The reference on a parent whose counter is at its maximum is not taken,
    yet the child gives it back: the parent then loses a client's reference. *)
Lemma blob_saturated_parent_loses_reference :
  let p := {| type := SOL_BLOB_TYPE_DEFAULT; parent := None; mem := 1; size := 1; refcnt := UINT16_MAX |} in
  let c := {| type := SOL_BLOB_TYPE_DEFAULT; parent := None; mem := 2; size := 1; refcnt := 1 |} in
  let h := {| blobs := <[16 := p]> {[ 32 := c ]}; freed := [] |} in
  (h ← sol_blob_set_parent 3 h (Some 32) (Some 16);
   h ← sol_blob_unref 3 h (Some 32);
   b ← deref h 16; Ret (refcnt b)) = Ret (UINT16_MAX - 1).
Proof. reflexivity. Qed.
End Blob.
