(* ===== verification/Str.v ===== *)
(** * String slices and string tables

    Models src/src/lib/datatypes/sol-str-slice.c, the inline functions of
    include/sol-str-slice.h, and src/src/lib/datatypes/sol-str-table.c.
    The bytes a slice covers are a list; a slice that is cut out of another
    one is a [span] of its text.  [sol_str_slice_split] builds a real
    [sol_vector] of slices.  Search and comparison functions of the C
    library are defined as the C standard describes them. *)

From S2P Require Import Prelude Arith Vector.

#[local] Open Scope Z_scope.

(** ** The C library's string functions *)

Module CString.

Definition isspace (c : Z) : bool := (c =? 32) || ((9 <=? c) && (c <=? 13)).

Definition isdigit (c : Z) : bool := (48 <=? c) && (c <=? 57).

Definition tolower (c : Z) : Z := if (65 <=? c) && (c <=? 90) then c + 32 else c.

(** The string in front of the first NUL. *)
Fixpoint cstr (s : list Z) : list Z :=
  match s with
  | [] => []
  | c :: s' => if c =? 0 then [] else c :: cstr s'
  end.

Fixpoint starts (s p : list Z) : bool :=
  match p, s with
  | [], _ => true
  | c :: p', d :: s' => (d =? c) && starts s' p'
  | _ :: _, [] => false
  end.

(** memmem: the distance of the first occurrence. *)
Fixpoint memmem (h n : list Z) : option nat :=
  if starts h n then Some O
  else match h with
       | [] => None
       | _ :: h' => S <$> memmem h' n
       end.

Fixpoint memchr (h : list Z) (c : Z) : option nat :=
  match h with
  | [] => None
  | d :: h' => if d =? c then Some O else S <$> memchr h' c
  end.

(** strncmp(a, b, n) == 0 and strncasecmp(a, b, n) == 0 on blocks that
    hold at least the bytes the comparison reaches. *)
Fixpoint strn_eq (f : Z -> Z) (a b : list Z) (n : nat) : outcome bool :=
  match n with
  | O => Ret true
  | S n' =>
      match a, b with
      | x :: a', y :: b' =>
          if negb (f x =? f y) then Ret false
          else if x =? 0 then Ret true
          else strn_eq f a' b' n'
      | _, _ => UB
      end
  end.

(** *** strtol with base 0 *)

Definition digit_value (c : Z) : Z :=
  if (48 <=? c) && (c <=? 57) then c - 48
  else if (97 <=? tolower c) && (tolower c <=? 122) then tolower c - 87
  else 99.

(** The value of the leading digits and how many there are. *)
Fixpoint digits (base : Z) (s : list Z) (acc : Z) (n : Z) : Z * Z :=
  match s with
  | c :: s' => if digit_value c <? base then digits base s' (acc * base + digit_value c) (n + 1)
               else (acc, n)
  | [] => (acc, n)
  end.

Fixpoint skip_spaces (s : list Z) : list Z :=
  match s with
  | c :: s' => if isspace c then skip_spaces s' else s
  | [] => []
  end.

Record strtol_result := { value : Z; consumed : Z; error : Z }.

(** [s] is the NUL-terminated text without its NUL. *)
Definition strtol (s : list Z) : strtol_result :=
  let t := skip_spaces s in
  let '(neg, t) := match t with
                   | c :: t' => if c =? 45 then (true, t')
                                else if c =? 43 then (false, t') else (false, t)
                   | [] => (false, t)
                   end in
  let '(v, n) :=
    match t with
    | c :: t' =>
        if c =? 48 then
          match t' with
          | x :: t'' =>
              if tolower x =? 120 then
                let '(v, n) := digits 16 t'' 0 0 in
                if n =? 0 then (0, 1) else (v, n + 2)
              else digits 8 t 0 0
          | [] => digits 8 t 0 0
          end
        else digits 10 t 0 0
    | [] => (0, 0)
    end in
  let pos := blen s - blen t + n in
  if n =? 0 then {| value := 0; consumed := 0; error := 0 |}
  else
    let r := if neg then - v else v in
    if r >? INT64_MAX then {| value := INT64_MAX; consumed := pos; error := ERANGE |}
    else if r <? INT64_MIN then {| value := INT64_MIN; consumed := pos; error := ERANGE |}
    else {| value := r; consumed := pos; error := 0 |}.

(** *** Lemmas *)

Lemma starts_spec s p : starts s p = true <-> exists t, s = p ++ t.
Proof.
  revert s. induction p as [|c p IH]; intros s.
  - split; [by exists s|by destruct s].
  - destruct s as [|d s]; cbn [starts]; [split; [done|by intros (t & ?)]|].
    rewrite andb_true_iff, Z.eqb_eq, IH. split.
    + intros (-> & t & ->). by exists t.
    + intros (t & [= -> ->]). split; [done|by exists t].
Qed.

(** [n] occurs in [h] at distance [i]. *)
Definition occurs_at (h n : list Z) (i : nat) : Prop :=
  exists a b, h = a ++ n ++ b /\ length a = i.

Definition occurs (h n : list Z) : Prop := exists i, occurs_at h n i.

Lemma occurs_at_cons c h n i : occurs_at (c :: h) n (S i) <-> occurs_at h n i.
Proof.
  split; intros (a & b & E & L).
  - destruct a as [|x a]; [done|]. injection E as -> ->. injection L as L. by exists a, b.
  - exists (c :: a), b. simpl. by rewrite E, L.
Qed.

Lemma memmem_found h n i :
  memmem h n = Some i -> occurs_at h n i /\ forall j, occurs_at h n j -> (i <= j)%nat.
Proof.
  revert i. induction h as [|c h IH]; intros i; cbn [memmem].
  - destruct (starts [] n) eqn:E; [|done]. intros [= <-].
    split; [|lia]. apply starts_spec in E as (t & E). by exists [], t.
  - destruct (starts (c :: h) n) eqn:E.
    + intros [= <-]. split; [|lia]. apply starts_spec in E as (t & E). by exists [], t.
    + destruct (memmem h n) as [k|] eqn:F; [|done]. intros [= <-].
      destruct (IH k eq_refl) as [H1 H2]. split; [by apply occurs_at_cons|].
      intros [|j] Hj; [|apply occurs_at_cons, H2 in Hj; lia].
      destruct Hj as (a & b & Hh & Ha). destruct a; [|done].
      assert (starts (c :: h) n = true) by (apply starts_spec; by exists b). congruence.
Qed.

Lemma memmem_none h n : memmem h n = None -> ~ occurs h n.
Proof.
  induction h as [|c h IH]; cbn [memmem]; destruct (starts _ n) eqn:E; try done;
    intros Hn (i & Hi).
  - destruct Hi as (a & b & Hh & Ha). destruct a; [|done].
    assert (starts [] n = true) by (apply starts_spec; by exists b). congruence.
  - destruct (memmem h n); [done|]. destruct i as [|i].
    + destruct Hi as (a & b & Hh & Ha). destruct a; [|done].
      assert (starts (c :: h) n = true) by (apply starts_spec; by exists b). congruence.
    + apply IH; [done|]. exists i. by apply occurs_at_cons in Hi.
Qed.

Lemma memchr_memmem h c : memchr h c = memmem h [c].
Proof.
  induction h as [|d h IH]; [done|]. cbn [memchr memmem starts].
  rewrite IH. by destruct (d =? c), h.
Qed.

Lemma cstr_all s : Forall (fun c => c <> 0) s -> cstr s = s.
Proof. induction 1 as [|c s Hc _ IH]; [done|]. simpl. bknown. by rewrite IH. Qed.

Lemma length_cstr s : blen (cstr s) <= blen s.
Proof. induction s as [|c s IH]; [done|]. simpl. destruct (c =? 0); blia. Qed.

Lemma skip_spaces_none s :
  (forall c, head s = Some c -> isspace c = false) -> skip_spaces s = s.
Proof. destruct s as [|c s]; [done|]. simpl. intros H. by rewrite H. Qed.
End CString.

(** ** Slices *)

Module StrSlice.
Import CString.

(** A part of a text. *)
Record span := Span { off : Z; len : Z }.

Definition view (text : list Z) (s : span) : list Z :=
  take (Z.to_nat (len s)) (drop (Z.to_nat (off s)) text).

Definition memcmp_eq (a b : list Z) (n : Z) : outcome bool :=
  x ← mem_load a 0 n; y ← mem_load b 0 n; Ret (bool_decide (x = y)).

(** [b] is a C string without its NUL, or NULL. *)
Definition sol_str_slice_str_eq (a : list Z) (b : option (list Z)) : outcome bool :=
  match b with
  | None => Ret false
  | Some b => if blen a =? blen b then memcmp_eq a b (blen a) else Ret false
  end.

Definition sol_str_slice_eq (a b : list Z) : outcome bool :=
  if blen a =? blen b then memcmp_eq a b (blen a) else Ret false.

Definition sol_str_slice_str_case_eq (a : list Z) (b : option (list Z)) : outcome bool :=
  match b with
  | None => Ret false
  | Some b => if blen a =? blen b then strn_eq tolower a b (Z.to_nat (blen a)) else Ret false
  end.

Definition sol_str_slice_case_eq (a b : list Z) : outcome bool :=
  if blen a =? blen b then strn_eq tolower a b (Z.to_nat (blen a)) else Ret false.

Definition sol_str_slice_starts_with (s prefix : list Z) : outcome bool :=
  if blen s >=? blen prefix then strn_eq id s prefix (Z.to_nat (blen prefix)) else Ret false.

Definition sol_str_slice_contains (haystack needle : list Z) : option nat :=
  match needle with
  | [c] => memchr haystack c
  | _ => memmem haystack needle
  end.

(** The destination block receives the bytes and a NUL. *)
Definition sol_str_slice_copy (dst src : list Z) : outcome block :=
  dst ← mem_store dst 0 src; mem_store dst (blen src) [0].

Definition sol_str_slice_to_str `{Allocator} (s : list Z) : option block :=
  if alloc_ok (blen (cstr s) + 1) then Some (cstr s ++ [0]) else None.

Definition sol_util_strtol_n (s : list Z) : strtol_result := strtol (cstr s).

(** The error, and the value stored when it is 0. *)
Definition sol_str_slice_to_int (s : list Z) : Z * Z :=
  if blen s =? 0 then (- EINVAL, 0)
  else
    let r := sol_util_strtol_n s in
    if negb (error r =? 0) then (- error r, 0)
    else if negb (consumed r =? blen s) then (- EINVAL, 0)
    else if negb (wraps 32 (value r) =? value r) then (- ERANGE, 0)
    else (0, value r).

(** *** Trimming *)

Definition sol_str_slice_remove_leading_whitespace (s : list Z) : list Z := skip_spaces s.

(** The length left when trailing spaces of the first [n] bytes go. *)
Fixpoint trailing (s : list Z) (n : nat) : outcome nat :=
  match n with
  | O => Ret O
  | S n' =>
      c ← mem_load s (Z.of_nat n') 1;
      match c with
      | [c] => if isspace c then trailing s n' else Ret n
      | _ => UB
      end
  end.

Definition sol_str_slice_remove_trailing_whitespace (s : list Z) : outcome (list Z) :=
  n ← trailing s (length s);
  if negb (blen s - Z.of_nat n =? 0) then Ret (take n s) else Ret s.

Definition sol_str_slice_trim (s : list Z) : outcome (list Z) :=
  sol_str_slice_remove_trailing_whitespace (sol_str_slice_remove_leading_whitespace s).

(** *** Splitting *)

(** A slice as the vector stores it; [base] is the address of the text. *)
Definition slice_size : Z := 16.

Definition slice_bytes (base : Z) (s : span) : block :=
  le_bytes 8 (len s) ++ le_bytes 8 (base + off s).

Section Split.
Context `{BuildConfig} `{Allocator} (base : Z) (text : list Z).

Definition create_slice (v : Vector.sol_vector) (s : span) : outcome (option Vector.sol_vector) :=
  '(r, v) ← Vector.sol_vector_append v;
  match r with
  | inl _ => Ret None
  | inr p => d ← mem_store (Vector.storage v) p (slice_bytes base s);
             Ret (Some (Vector.set_data v (Some d)))
  end.

(** [None] is the exit through the label [err]. *)
Fixpoint split_loop (delim : list Z) (maxsplit : Z) (v : Vector.sol_vector) (str n : Z)
    (fuel : nat) : outcome (option Vector.sol_vector) :=
  match fuel with
  | O => UB
  | S fuel =>
      if negb (Vector.len v <? maxsplit + 1) then Ret (Some v)
      else
        here ← mem_load text str n;
        match memmem here delim with
        | None => create_slice v (Span str n)
        | Some t =>
            let token := Z.of_nat t in
            r ← create_slice v (if Vector.len v =? wrapu 16 maxsplit
                                then Span str n else Span str token);
            match r with
            | None => Ret None
            | Some v => split_loop delim maxsplit v (str + token + blen delim)
                          (n - (token + blen delim)) fuel
            end
        end
  end.

(** Every round appends an element, so 65536 rounds are more than a vector
    allows. *)
Definition split_fuel : nat := Z.to_nat 65537.

Definition sol_str_slice_split (delim : option (list Z)) (maxsplit : Z)
    : outcome Vector.sol_vector :=
  let v := Vector.sol_vector_init slice_size in
  match delim with
  | None => Ret v
  | Some delim =>
      if blen text =? 0 then Ret v
      else
        let maxsplit := if negb (maxsplit =? 0) then maxsplit else blen text - 1 in
        let maxsplit := if maxsplit =? SIZE_MAX then maxsplit - 1 else maxsplit in
        r ← split_loop delim maxsplit v 0 (blen text) split_fuel;
        match r with
        | Some v => Ret v
        | None => Ret (Vector.sol_vector_clear v)
        end
  end.
End Split.

(** The tail of [sol_str_slice_split_iterate]: the token that starts where
    [to_search] does, and the new iterator. *)
Definition iterate_search (text delim : list Z) (to_search : span)
    : outcome (option (span * Z)) :=
  here ← mem_load text (off to_search) (len to_search);
  let token := match sol_str_slice_contains here delim with
               | None => to_search
               | Some sep => Span (off to_search) (Z.of_nat sep)
               end in
  Ret (Some (token, off token + len token)).

(** The iterator is the position after the last token, or NULL. *)
Definition sol_str_slice_split_iterate (text delim : list Z) (itr : option Z)
    : outcome (option (span * Z)) :=
  match itr with
  | None => iterate_search text delim (Span 0 (blen text))
  | Some p =>
      let n := wrapu 64 (blen text - p) in
      if n =? 0 then Ret None
      else iterate_search text delim (Span (p + blen delim) (wrapu 64 (n - blen delim)))
  end.

(** while (sol_str_slice_split_iterate(...)) *)
Fixpoint split_all (text delim : list Z) (itr : option Z) (fuel : nat) : outcome (list span) :=
  match fuel with
  | O => UB
  | S fuel =>
      r ← sol_str_slice_split_iterate text delim itr;
      match r with
      | None => Ret []
      | Some (token, itr) => rest ← split_all text delim (Some itr) fuel; Ret (token :: rest)
      end
  end.
End StrSlice.

(** ** Tables of strings *)

Module StrTable.
Import CString StrSlice.

(** One table type per value type; the end is an entry without a key. *)
Record str_table (V : Type) := Item { key : option (list Z); klen : Z; val : V }.
Arguments Item {V} key klen val.
Arguments key {V} s.
Arguments klen {V} s.
Arguments val {V} s.

Section Lookup.
Context {V : Type}.

(** The entry found, and [errno].  A key block holds the characters; its
    NUL is not counted. *)
Fixpoint table_iter (table : list (str_table V)) (k : list Z)
    : outcome (option (str_table V) * Z) :=
  match table with
  | [] => UB
  | iter :: rest =>
      match key iter with
      | None => Ret (None, ENOENT)
      | Some s =>
          hit ← (if klen iter =? blen k then memcmp_eq (s ++ [0]) k (blen k) else Ret false);
          if (hit : bool) then Ret (Some iter, 0) else table_iter rest k
      end
  end.

Definition sol_str_table_entry_lookup (table : option (list (str_table V))) (k : list Z)
    : outcome (option (str_table V) * Z) :=
  match table with
  | None => Ret (None, EINVAL)
  | Some table => table_iter table k
  end.

Definition sol_str_table_ptr_lookup_fallback (table : option (list (str_table V))) (k : list Z)
    (fallback : V) : outcome (V * Z) :=
  '(entry, errno) ← sol_str_table_entry_lookup table k;
  match entry with
  | None => Ret (fallback, errno)
  | Some e => Ret (val e, errno)
  end.

End Lookup.

(** Values are [int16_t]; [errno] is left at [EINVAL] even on a hit,
    because the check of [table] that follows the lookup sets it first. *)
Definition sol_str_table_lookup_fallback (table : option (list (str_table Z))) (k : list Z)
    (fallback : Z) : outcome (Z * Z) :=
  if blen k >? INT16_MAX then Ret (fallback, EINVAL)
  else
    '(entry, errno) ← sol_str_table_entry_lookup table k;
    match entry with
    | None => Ret (fallback, errno)
    | Some e => Ret (val e, EINVAL)
    end.

(** The macro: INT16_MAX as the mark of a miss; the value stored. *)
Definition sol_str_table_lookup (table : option (list (str_table Z))) (k : list Z)
    : outcome (option Z) :=
  '(v, _) ← sol_str_table_lookup_fallback table k INT16_MAX;
  Ret (if negb (v =? INT16_MAX) then Some v else None).
End StrTable.

(** ** Correctness *)

Module StrProofs.
Import CString StrSlice.

(** *** Splitting a list at the leftmost delimiters *)

Fixpoint join (delim : list Z) (ps : list (list Z)) : list Z :=
  match ps with
  | [] => []
  | [p] => p
  | p :: ps' => p ++ delim ++ join delim ps'
  end.

(** [splits delim k l ps]: cutting [l] at the first delimiter, [k] times at
    most, leaves the pieces [ps]. *)
Inductive splits (delim : list Z) : nat -> list Z -> list (list Z) -> Prop :=
| splits_limit l : splits delim 0 l [l]
| splits_last k l : ~ occurs l delim -> splits delim k l [l]
| splits_cut k a b ps :
    (forall i, occurs_at (a ++ delim ++ b) delim i -> (length a <= i)%nat) ->
    splits delim k b ps -> splits delim (S k) (a ++ delim ++ b) (a :: ps).

Lemma splits_nonempty d k l ps : splits d k l ps -> ps <> [].
Proof. by destruct 1. Qed.

Lemma splits_join d k l ps : splits d k l ps -> join d ps = l.
Proof.
  induction 1 as [| |k a b ps Hfirst Hs IH]; [done|done|].
  pose proof (splits_nonempty _ _ _ _ Hs). destruct ps; [done|]. cbn [join]. by rewrite <- IH.
Qed.

Lemma splits_count d k l ps : splits d k l ps -> (length ps <= S k)%nat.
Proof. induction 1; simpl; lia. Qed.

Lemma splits_count_text d k l ps : d <> [] -> splits d k l ps -> (length ps <= S (length l))%nat.
Proof.
  intros Hd. induction 1 as [| |k a b ps Hfirst Hs IH]; simpl; [lia|lia|].
  rewrite !length_app. destruct d; [done|]. simpl. lia.
Qed.

(** More cuts than there are places to cut change nothing. *)
Lemma splits_more d k k' l ps :
  d <> [] -> (length l < k <= k')%nat -> splits d k l ps -> splits d k' l ps.
Proof.
  intros Hd Hk Hs. revert k' Hk. induction Hs as [|k l Hn|k a b ps Hfirst Hs IH]; intros k' Hk.
  - lia.
  - by apply splits_last.
  - destruct k' as [|k']; [lia|]. apply splits_cut; [done|]. apply IH.
    rewrite !length_app in Hk. destruct d; [done|]. simpl in Hk. lia.
Qed.

(** No piece holds the delimiter; the last one may when the limit is reached. *)
Lemma splits_free d k l ps : d <> [] -> splits d k l ps ->
  forall i p, ps !! i = Some p -> (S i < length ps \/ length ps <= k)%nat -> ~ occurs p d.
Proof.
  intros Hd. induction 1 as [l|k l Hn|k a b ps Hfirst Hs IH]; intros i p Hi Hlt.
  - destruct i; simpl in *; [lia|done].
  - destruct i; [by injection Hi as <-|done].
  - destruct i as [|i].
    + injection Hi as <-. intros (j & x & y & -> & Hx).
      specialize (Hfirst j). rewrite !length_app in Hfirst.
      assert (j < length x + (length d + length y))%nat
        by (destruct d; [done|simpl; lia]).
      unshelve epose proof (Hfirst _); [|lia].
      exists x, (y ++ d ++ b). by rewrite <- !app_assoc.
    + apply (IH i p Hi). simpl in Hlt. lia.
Qed.

Lemma memmem_cut h d t :
  memmem h d = Some t ->
  exists a b, h = a ++ d ++ b /\ length a = t
    /\ forall i, occurs_at (a ++ d ++ b) d i -> (length a <= i)%nat.
Proof.
  intros ((a & b & -> & Ha) & Hfirst)%memmem_found. exists a, b. subst t. done.
Qed.

Lemma contains_memmem h n : sol_str_slice_contains h n = memmem h n.
Proof. destruct n as [|c [|]]; try done. apply memchr_memmem. Qed.

Lemma view_mid pre a b o n :
  o = blen pre -> n = blen a -> view (pre ++ a ++ b) (Span o n) = a.
Proof.
  intros -> ->. unfold view. cbn [off len]. by rewrite !blen_to_nat, drop_app_length, take_app_length.
Qed.

Lemma view_end pre a o n :
  o = blen pre -> n = blen a -> view (pre ++ a) (Span o n) = a.
Proof. intros. rewrite <- (app_nil_r a) at 1. by apply view_mid. Qed.

Lemma mem_load_end pre a o n :
  o = blen pre -> n = blen a -> mem_load (pre ++ a) o n = Ret a.
Proof. intros. rewrite <- (app_nil_r a) at 1. by apply mem_load_app. Qed.

Lemma blen_slice_bytes base s : blen (slice_bytes base s) = slice_size.
Proof. unfold slice_bytes. rewrite blen_app. unfold blen. by rewrite !length_le_bytes. Qed.

(** *** sol_str_slice_split *)

Section SplitProofs.
Context `{BuildConfig} `{Allocator} (base : Z).

Definition plenty : Prop := forall n, n <= SSIZE_MAX -> alloc_ok n = true.

Lemma create_slice_spec v l s :
  Vector.vec_rep v l -> Vector.elem_size v = slice_size ->
  exists r, create_slice base v s = Ret r
    /\ match r with
       | None => plenty -> blen l = UINT16_MAX
       | Some v' => Vector.vec_rep v' (l ++ [slice_bytes base s])
           /\ Vector.elem_size v' = slice_size
       end.
Proof.
  intros Hrep Hes. pose proof (blen_nonneg l).
  destruct (Vector.rep_len _ _ Hrep) as [Hlen Hmax].
  unfold create_slice, Vector.sol_vector_append.
  destruct (Vector.append_n_spec v l 1 Hrep ltac:(zlia))
    as (r & v' & E & [(e & -> & He & ->)|(-> & Hes' & Hrep')]).
  - rewrite E, bind_ret. eexists. split; [done|]. intros Hp.
    destruct (Z.eq_dec (blen l) UINT16_MAX); [done|].
    pose proof (Vector.grow_succeeds v l 1 Hrep ltac:(lia) ltac:(lia) Hp) as Hg.
    unfold Vector.sol_vector_append_n in E. cbn [Z.eqb] in E.
    destruct (Vector.sol_vector_grow v 1) as [err v1]. simpl in Hg. subst err.
    cbn [Z.ltb Z.compare] in E.
    destruct (int_op _); [|done]. rewrite bind_ret in E. by destruct (mem_store _ _ _).
  - rewrite E, bind_ret, Hes in *. change (Z.to_nat 1) with 1%nat in Hrep'.
    cbn [replicate] in Hrep'.
    destruct (Vector.store_elem_spec _ _ (blen l) (slice_bytes base s) Hrep') as (d & Hd & Hr).
    { rewrite blen_app. unfold blen. simpl. lia. }
    { rewrite blen_slice_bytes. congruence. }
    rewrite Hes' in Hd. rewrite Hd, bind_ret. eexists. split; [done|]. split; [|done].
    rewrite blen_to_nat, insert_app_r_alt, Nat.sub_diag in Hr by lia. done.
Qed.

Lemma split_loop_spec text delim m v l pre here str n fuel :
  text = pre ++ here -> str = blen pre -> n = blen here ->
  Vector.vec_rep v l -> Vector.elem_size v = slice_size ->
  0 <= m <= UINT16_MAX -> blen l <= m -> 65537 - blen l <= Z.of_nat fuel ->
  exists r, split_loop base text delim m v str n fuel = Ret r
    /\ match r with
       | None => plenty -> delim <> [] -> UINT16_MAX <= blen l + blen here
       | Some v' => exists ss, Vector.vec_rep v' (l ++ (slice_bytes base <$> ss))
           /\ splits delim (Z.to_nat (m - blen l)) here (view text <$> ss)
       end.
Proof.
  revert v l pre here str n. induction fuel as [|fuel IH];
    intros v l pre here str n -> -> -> Hrep Hes Hm Hl Hfuel;
    destruct (Vector.rep_len _ _ Hrep) as [Hlen Hmax]; [zlia|].
  cbn [split_loop]. bknown. rewrite mem_load_end, bind_ret by done.
  destruct (memmem here delim) as [t|] eqn:E.
  - apply memmem_cut in E as (a & b & -> & <- & Hfirst).
    rewrite (wrapu_small 16 m) by zlia. set (s := if _ =? _ then _ else _).
    destruct (create_slice_spec v l s Hrep Hes) as (r & -> & Hr). rewrite bind_ret.
    destruct r as [v'|].
    2: { eexists. split; [done|]. intros Hp _. rewrite (Hr Hp). blia. }
    destruct Hr as [Hrep' Hes'].
    destruct (decide (blen l = m)) as [Heq|Hne].
    + destruct fuel; [zlia|]. cbn [split_loop].
      destruct (Vector.rep_len _ _ Hrep') as [Hlen' _]. rewrite blen_app in Hlen'.
      rewrite blen_cons, blen_nil in Hlen'. bknown. eexists. split; [done|].
      exists [s]. split; [done|]. rewrite Heq, Z.sub_diag. cbn [fmap list_fmap].
      subst s. rewrite Hlen, Heq, Z.eqb_refl, view_end by done. constructor.
    + destruct (IH v' (l ++ [slice_bytes base s]) (pre ++ a ++ delim) b
                  (blen pre + Z.of_nat (length a) + blen delim)
                  (blen (a ++ delim ++ b) - (Z.of_nat (length a) + blen delim)))
        as (r & -> & Hr); try done.
      { by rewrite <- !app_assoc. }
      { rewrite !blen_app. unfold blen. lia. }
      { rewrite !blen_app. unfold blen. lia. }
      { rewrite blen_app, blen_cons, blen_nil. lia. }
      { rewrite blen_app, blen_cons, blen_nil. lia. }
      eexists. split; [done|]. destruct r as [v''|].
      * destruct Hr as (ss & Hr & Hs). exists (s :: ss). split.
        { by rewrite <- app_assoc in Hr. }
        cbn [fmap list_fmap]. rewrite blen_app, blen_cons, blen_nil in Hs.
        replace (Z.to_nat (m - blen l)) with (S (Z.to_nat (m - (blen l + (1 + 0))))) by lia.
        subst s. bknown. rewrite view_mid by done. by constructor.
      * intros Hp Hd. specialize (Hr Hp Hd). rewrite !blen_app in *.
        rewrite blen_cons, blen_nil in Hr. pose proof (blen_nonneg a).
        assert (0 < blen delim) by (destruct delim; [done|blia]). lia.
  - destruct (create_slice_spec v l (Span (blen pre) (blen here)) Hrep Hes) as (r & -> & Hr).
    eexists. split; [done|]. destruct r as [v'|].
    + exists [Span (blen pre) (blen here)]. split; [apply Hr|].
      cbn [fmap list_fmap]. rewrite view_end by done. apply splits_last. by apply memmem_none.
    + intros Hp _. rewrite (Hr Hp). blia.
Qed.

Lemma split_fuel_enough : Z.of_nat split_fuel = 65537.
Proof. unfold split_fuel. by rewrite Z2Nat.id. Qed.

(** sol_str_slice_split terminates, and unless memory runs out (or the
    pieces outnumber what a vector holds) it returns the pieces that cutting
    the text at the first delimiters leaves, at most [maxsplit] cuts: joined
    with the delimiter they are the text, and no piece holds the delimiter,
    but for the last one when the limit is reached.  The limit has to fit
    the vector's 16-bit length, given or by default. *)
Theorem split_correct text delim maxsplit :
  text <> [] -> delim <> [] ->
  (1 <= maxsplit <= UINT16_MAX \/ maxsplit = 0 /\ blen text <= UINT16_MAX) ->
  let m := if maxsplit =? 0 then blen text - 1 else maxsplit in
  exists v, sol_str_slice_split base text (Some delim) maxsplit = Ret v
    /\ ((Vector.vec_rep v [] /\ (plenty -> UINT16_MAX <= blen text))
        \/ exists ss, Vector.vec_rep v (slice_bytes base <$> ss)
             /\ splits delim (Z.to_nat m) text (view text <$> ss)
             /\ join delim (view text <$> ss) = text
             /\ blen ss <= m + 1
             /\ forall i p, (view text <$> ss) !! i = Some p ->
                  (S i < length ss)%nat \/ blen ss <= m -> ~ occurs p delim).
Proof.
  intros Ht Hd Hm m. pose proof (blen_nonneg text).
  assert (0 < blen text) by (destruct text; [done|blia]).
  unfold sol_str_slice_split. bknown.
  assert (0 <= m <= UINT16_MAX) by (subst m; destruct (Z.eqb_spec maxsplit 0); zlia).
  replace (if negb (maxsplit =? 0) then maxsplit else blen text - 1) with m
    by (subst m; by destruct (maxsplit =? 0)).
  clearbody m. bknown. pose proof split_fuel_enough as Hf. revert Hf.
  generalize split_fuel. intros fuel Hf.
  destruct (split_loop_spec text delim m (Vector.sol_vector_init slice_size) [] [] text
              0 (blen text) fuel) as (r & -> & Hr); try done.
  all: try (rewrite blen_nil; lia).
  rewrite bind_ret. destruct r as [v|].
  - exists v. split; [done|]. right. destruct Hr as (ss & Hv & Hs).
    rewrite blen_nil, Z.sub_0_r in Hs. exists ss.
    pose proof (splits_count _ _ _ _ Hs) as Hc. rewrite length_fmap in Hc.
    split_and!; [done|done|by eapply splits_join|unfold blen; lia|].
    intros i p Hi Hlt. eapply splits_free; [done|exact Hs|exact Hi|].
    rewrite length_fmap. unfold blen in Hlt. lia.
  - eexists. split; [done|]. left. split.
    + eapply Vector.clear_spec, Vector.rep_init. by unfold slice_size.
    + intros Hp. by apply Hr.
Qed.
End SplitProofs.

Lemma split_correct_witness :
  let text := [97; 44; 98; 44; 99] in
  text <> [] /\ [44] <> []
  /\ exists v, sol_str_slice_split (H := gcc5) (H0 := roomy) 4096 text (Some [44]) 1 = Ret v.
Proof.
  intros text. split_and!; [done|done|].
  destruct (split_correct (H := gcc5) (H0 := roomy) 4096 text [44] 1) as (v & Hv & _);
    [done|done|left; zlia|]. by exists v.
Defined.

(** A limit above 65535 is compared in 16 bits with the number of pieces:
    the piece that should end at the first comma runs to the end of the
    text. *)
Lemma split_limit_truncated :
  exists v, sol_str_slice_split (H := gcc5) (H0 := roomy) 4096 [97; 44; 98] (Some [44]) 65536 = Ret v
    /\ take 32 (Vector.storage v)
      = slice_bytes 4096 (Span 0 3) ++ slice_bytes 4096 (Span 2 1).
Proof. eexists. split; vm_compute; reflexivity. Qed.

(** Without a limit the default, one less than the length, is too small for
    a text that is a delimiter: it is returned uncut. *)
Lemma split_default_limit_too_small :
  exists v, sol_str_slice_split (H := gcc5) (H0 := roomy) 4096 [44] (Some [44]) 0 = Ret v
    /\ Vector.len v = 1 /\ take 16 (Vector.storage v) = slice_bytes 4096 (Span 0 1).
Proof. eexists. split_and!; vm_compute; reflexivity. Qed.

(** *** sol_str_slice_split_iterate *)

Section IterateProofs.
Context (text delim : list Z) (Hdelim : delim <> []) (Hbound : blen text <= SSIZE_MAX).

Lemma delim_pos : 0 < blen delim.
Proof. destruct delim; [done|blia]. Qed.

(** What one call and the calls after it produce. *)
Definition tokens_from (s : span) (fuel : nat) : outcome (list span) :=
  r ← iterate_search text delim s;
  match r with
  | None => Ret []
  | Some (token, itr) =>
      rest ← split_all text delim (Some itr) fuel; Ret (token :: rest)
  end.

Lemma tokens_from_spec fuel : forall pre rest,
  text = pre ++ rest -> blen rest + 1 < Z.of_nat fuel ->
  exists ss, tokens_from (Span (blen pre) (blen rest)) fuel = Ret ss
    /\ splits delim (S (length rest)) rest (view text <$> ss).
Proof.
  pose proof delim_pos. induction fuel as [|fuel IH]; intros pre rest Ht Hf; [blia|].
  pose proof (blen_nonneg rest). pose proof (blen_nonneg pre).
  unfold tokens_from, iterate_search. cbn [off len].
  assert (mem_load text (blen pre) (blen rest) = Ret rest) as -> by (rewrite Ht; by apply mem_load_end).
  rewrite !bind_ret, contains_memmem.
  assert (blen text = blen pre + blen rest) as Hlen by (by rewrite Ht, blen_app).
  destruct (memmem rest delim) as [t|] eqn:E; cbn [off len split_all sol_str_slice_split_iterate].
  - apply memmem_cut in E as (a & b & -> & <- & Hfirst). fold (blen a) in *.
    rewrite !blen_app in *. pose proof (blen_nonneg a). pose proof (blen_nonneg b).
    rewrite !wrapu_small by zlia. bknown.
    destruct (IH (pre ++ a ++ delim) b) as (ss & Hss & Hs).
    { by rewrite <- !app_assoc. }
    { lia. }
    unfold tokens_from in Hss. rewrite !blen_app in Hss.
    replace (blen pre + blen a + blen delim) with (blen pre + (blen a + blen delim)) by lia.
    replace (blen text - (blen pre + blen a) - blen delim) with (blen b) by lia.
    rewrite Hss, bind_ret. eexists. split; [done|]. cbn [fmap list_fmap].
    assert (view text (Span (blen pre) (blen a)) = a) as -> by (rewrite Ht; by apply view_mid).
    apply splits_cut; [done|]. eapply splits_more; [done| |exact Hs].
    rewrite !length_app. unfold blen in *. lia.
  - rewrite Hlen, Z.sub_diag, wrapu_small by lia. cbn [Z.eqb]. rewrite !bind_ret.
    eexists. split; [done|]. cbn [fmap list_fmap].
    assert (view text (Span (blen pre) (blen rest)) = rest) as -> by (rewrite Ht; by apply view_end).
    apply splits_last. by apply memmem_none.
Qed.

(** Calling sol_str_slice_split_iterate until it returns false ends, and
    the tokens it produced are the pieces the text has when it is cut at
    every delimiter, first to last; no position outside the text is read. *)
Theorem split_iterate_correct :
  exists ss, split_all text delim None (S (S (S (length text)))) = Ret ss
    /\ splits delim (S (length text)) text (view text <$> ss)
    /\ join delim (view text <$> ss) = text
    /\ forall i p, (view text <$> ss) !! i = Some p -> ~ occurs p delim.
Proof.
  destruct (tokens_from_spec (S (S (length text))) [] text) as (ss & Hss & Hs);
    [done|unfold blen; lia|].
  exists ss. split_and!; [exact Hss|done|by eapply splits_join|].
  intros i p Hi. eapply splits_free; [done|exact Hs|exact Hi|].
  right. rewrite length_fmap. rewrite <- (length_fmap (view text)).
  by eapply splits_count_text.
Qed.
End IterateProofs.

Lemma split_iterate_correct_witness :
  [44] <> [] /\ blen [97; 44; 98] <= SSIZE_MAX
  /\ exists ss, split_all [97; 44; 98] [44] None 6 = Ret ss /\ view [97; 44; 98] <$> ss = [[97]; [98]].
Proof.
  split_and!; [done|done|].
  destruct (split_iterate_correct [97; 44; 98] [44]) as (ss & Hss & _); [done|done|].
  exists ss. split; [exact Hss|]. vm_compute in Hss. injection Hss as <-. reflexivity.
Defined.

(** An empty delimiter is found where the search starts, and the iterator
    never moves. *)
Lemma split_iterate_empty_delimiter_stuck text p :
  0 <= p < blen text -> blen text <= SSIZE_MAX ->
  sol_str_slice_split_iterate text [] (Some p) = Ret (Some (Span p 0, p)).
Proof.
  intros Hp Hb. unfold sol_str_slice_split_iterate, iterate_search. cbn [off len]. change (blen (@nil Z)) with 0.
  rewrite !wrapu_small by (rewrite ?wrapu_small; zlia). bknown.
  rewrite mem_load_ok, bind_ret by lia. cbn [sol_str_slice_contains].
  assert (forall h, memmem h [] = Some O) as -> by (by intros []).
  cbn [off len Z.of_nat]. by rewrite !Z.add_0_r.
Qed.

(** *** Trimming *)

Lemma skip_spaces_spec s :
  exists a, s = a ++ skip_spaces s /\ Forall (fun c => isspace c = true) a
    /\ forall c, head (skip_spaces s) = Some c -> isspace c = false.
Proof.
  induction s as [|c s (a & Hs & Ha & Hc)]; [by exists []|]. cbn [skip_spaces].
  destruct (isspace c) eqn:E.
  - exists (c :: a). split_and!; [simpl; by rewrite <- Hs|by constructor|done].
  - exists []. split_and!; [done|constructor|]. by intros ? [= <-].
Qed.

Lemma trailing_spec s b :
  exists r a, trailing (s ++ b) (length s) = Ret (length r)
    /\ s = r ++ a /\ Forall (fun c => isspace c = true) a
    /\ forall c, last r = Some c -> isspace c = false.
Proof.
  revert b. induction s as [|c s IH] using rev_ind; intros b; [by exists [], []|].
  rewrite length_app, Nat.add_1_r. cbn [trailing].
  rewrite <- (app_assoc s), (mem_load_app s [c]), bind_ret by done.
  destruct (isspace c) eqn:E.
  - destruct (IH ([c] ++ b)) as (r & a & Hr & -> & Ha & Hc). exists r, (a ++ [c]).
    split_and!; [exact Hr|by rewrite app_assoc| |done].
    apply Forall_app. split; [done|]. by constructor.
  - exists (s ++ [c]), []. split_and!; [|by rewrite app_nil_r|done|].
    + by rewrite length_app, Nat.add_1_r.
    + intros c'. rewrite last_snoc. by intros [= <-].
Qed.

(** Sol_str_slice_trim removes exactly the white space around a text:
    what it returns neither starts nor ends with a space, and only spaces
    were cut off. *)
Theorem trim_correct s :
  exists a r b, sol_str_slice_trim s = Ret r /\ s = a ++ r ++ b
    /\ Forall (fun c => isspace c = true) (a ++ b)
    /\ (forall c, head r = Some c -> isspace c = false)
    /\ (forall c, last r = Some c -> isspace c = false).
Proof.
  destruct (skip_spaces_spec s) as (a & Hs & Ha & Hhead).
  unfold sol_str_slice_trim, sol_str_slice_remove_leading_whitespace.
  set (t := skip_spaces s) in *. clearbody t. subst s.
  destruct (trailing_spec t []) as (r & b & Hr & -> & Hb & Hlast). rewrite app_nil_r in Hr.
  exists a, r, b. split_and!; [|done|by apply Forall_app|by destruct r|done].
  unfold sol_str_slice_remove_trailing_whitespace. rewrite Hr, bind_ret, blen_app.
  rewrite take_app_length.
  destruct (Z.eqb_spec (blen r + blen b - Z.of_nat (length r)) 0) as [Hz|]; [|done].
  assert (b = []) as -> by (apply blen_zero_nil; unfold blen in *; lia). by rewrite app_nil_r.
Qed.

(** *** Numbers *)

Definition decimal (ds : list Z) : Z := foldl (fun v d => v * 10 + d) 0 ds.

Definition ascii_digits (ds : list Z) : list Z := (Z.add 48) <$> ds.

Lemma digits_decimal ds rest acc n :
  Forall (fun d => 0 <= d <= 9) ds ->
  (forall c, head rest = Some c -> 10 <= digit_value c) ->
  digits 10 (ascii_digits ds ++ rest) acc n
  = (foldl (fun v d => v * 10 + d) acc ds, n + blen ds).
Proof.
  intros Hds Hrest. revert acc n. induction Hds as [|d ds Hd _ IH]; intros acc n.
  - cbn [ascii_digits fmap list_fmap app foldl]. rewrite blen_nil, Z.add_0_r.
    destruct rest as [|c rest]; [done|]. cbn [digits]. specialize (Hrest c eq_refl). by bknown.
  - cbn [ascii_digits fmap list_fmap app foldl digits].
    assert (digit_value (48 + d) = d) as Hv by (unfold digit_value; bknown; lia).
    rewrite Hv. bknown. unfold ascii_digits in IH. rewrite IH, blen_cons. f_equal. lia.
Qed.

Lemma decimal_nonneg ds : Forall (fun d => 0 <= d <= 9) ds -> 0 <= decimal ds.
Proof.
  unfold decimal. assert (forall v, 0 <= v -> Forall (fun d => 0 <= d <= 9) ds ->
    0 <= foldl (fun v d => v * 10 + d) v ds) as Hg; [|apply Hg; lia].
  induction ds as [|d ds IH]; intros v Hv Hall; [done|].
  apply Forall_cons_1 in Hall as [??]. cbn [foldl]. apply IH; [lia|done].
Qed.

Definition signed (neg : bool) (ds : list Z) : Z := if neg then - decimal ds else decimal ds.

Definition sign_bytes (neg : bool) : list Z := if neg then [45] else [].

Lemma strtol_decimal neg d ds rest :
  1 <= d <= 9 -> Forall (fun d => 0 <= d <= 9) ds ->
  (forall c, head rest = Some c -> 10 <= digit_value c) ->
  let s := sign_bytes neg ++ ascii_digits (d :: ds) ++ rest in
  let v := signed neg (d :: ds) in
  strtol s = if bool_decide (INT64_MIN <= v <= INT64_MAX)
             then {| value := v; consumed := blen s - blen rest; error := 0 |}
             else {| value := if v >? 0 then INT64_MAX else INT64_MIN;
                     consumed := blen s - blen rest; error := ERANGE |}.
Proof.
  intros Hd Hds Hrest s v.
  assert (Forall (fun d => 0 <= d <= 9) (d :: ds)) as Hall by (constructor; [lia|done]).
  pose proof (decimal_nonneg _ Hall) as Hpos.
  pose proof (digits_decimal (d :: ds) rest 0 0 Hall Hrest) as Hdig.
  fold (decimal (d :: ds)) in Hdig. set (t := ascii_digits (d :: ds) ++ rest) in *.
  assert (exists t', t = 48 + d :: t') as (t' & Ht) by (by eexists).
  assert (blen t = blen (d :: ds) + blen rest) as Hlen.
  { subst t. unfold ascii_digits. by rewrite blen_app, blen_fmap. }
  assert (skip_spaces s = s) as Hskip.
  { apply skip_spaces_none. subst s. intros c. destruct neg; simpl; rewrite ?Ht; simpl.
    - intros [= <-]. done.
    - intros [= <-]. unfold isspace. bknown. done. }
  unfold strtol. rewrite Hskip.
  assert ((match s with
           | c :: t' => if c =? 45 then (true, t') else if c =? 43 then (false, t') else (false, s)
           | [] => (false, s) end) = (neg, t)) as ->.
  { subst s. destruct neg; simpl; [done|]. rewrite Ht. by bknown. }
  assert ((match t with
           | c :: t' => if c =? 48 then
                          match t' with
                          | x :: t'' =>
                              if tolower x =? 120 then
                                let '(v, n) := digits 16 t'' 0 0 in
                                if n =? 0 then (0, 1) else (v, n + 2)
                              else digits 8 t 0 0
                          | [] => digits 8 t 0 0
                          end
                        else digits 10 t 0 0
           | [] => (0, 0) end) = digits 10 t 0 0) as ->.
  { rewrite Ht. by bknown. }
  rewrite Hdig.
  assert (blen s = blen (sign_bytes neg) + blen t) as Hs by (subst s; apply blen_app).
  pose proof (blen_nonneg ds). rewrite blen_cons in *. bknown.
  replace (blen s - blen t + (0 + (1 + blen ds))) with (blen s - blen rest) by lia.
  fold (signed neg (d :: ds)). subst v.
  set (v := signed neg (d :: ds)). case_bool_decide; [by bknown|].
  destruct (Z.gtb_spec v INT64_MAX).
  - by bknown.
  - by bknown.
Qed.

Lemma cstr_app a b : Forall (fun c => c <> 0) a -> cstr (a ++ b) = a ++ cstr b.
Proof. induction 1 as [|c a Hc _ IH]; [done|]. simpl. bknown. by rewrite IH. Qed.

Lemma number_nonzero neg ds :
  Forall (fun d => 0 <= d <= 9) ds ->
  Forall (fun c => c <> 0) (sign_bytes neg ++ ascii_digits ds).
Proof.
  intros Hds. apply Forall_app. split; [destruct neg; by repeat constructor|].
  apply Forall_fmap. eapply Forall_impl; [exact Hds|]. simpl. lia.
Qed.

Lemma decimal_nonempty neg d ds : 0 < blen (sign_bytes neg ++ ascii_digits (d :: ds)).
Proof.
  rewrite blen_app. unfold ascii_digits. rewrite blen_fmap, blen_cons.
  pose proof (blen_nonneg ds). pose proof (blen_nonneg (sign_bytes neg)). lia.
Qed.

Lemma to_int_decimal neg d ds :
  1 <= d <= 9 -> Forall (fun d => 0 <= d <= 9) ds ->
  let v := signed neg (d :: ds) in
  sol_str_slice_to_int (sign_bytes neg ++ ascii_digits (d :: ds))
  = (if bool_decide (INT_MIN <= v <= INT_MAX) then (0, v) else (- ERANGE, 0)).
Proof.
  intros Hd Hds v. set (s := sign_bytes neg ++ ascii_digits (d :: ds)).
  assert (Forall (fun c => c <> 0) s) as Hnz by (apply number_nonzero; constructor; [lia|done]).
  pose proof (decimal_nonempty neg d ds) as Hlen. fold s in Hlen.
  unfold sol_str_slice_to_int, sol_util_strtol_n.
  rewrite cstr_all by done. pose proof (strtol_decimal neg d ds [] Hd Hds ltac:(done)) as Hs. cbv zeta in Hs.
  rewrite app_nil_r, blen_nil, Z.sub_0_r in Hs. fold s v in Hs. rewrite Hs.
  bknown. case_bool_decide; cbn [error consumed value]; bknown; [|by rewrite bool_decide_false by zlia].
  unfold wraps. case_bool_decide; bknownd; done.
Qed.

(** Parsing a decimal number with sol_str_slice_to_int gives exactly the
    number when it fits an int and -ERANGE when it does not; when anything
    that is not a digit follows, the call is refused. *)
Theorem str_slice_to_int_decimal neg d ds :
  1 <= d <= 9 -> Forall (fun d => 0 <= d <= 9) ds ->
  let s := sign_bytes neg ++ ascii_digits (d :: ds) in
  let v := signed neg (d :: ds) in
  sol_str_slice_to_int s
  = (if bool_decide (INT_MIN <= v <= INT_MAX) then (0, v) else (- ERANGE, 0))
  /\ forall c rest, 10 <= digit_value c -> fst (sol_str_slice_to_int (s ++ c :: rest)) < 0.
Proof.
  intros Hd Hds s v. split; [by apply to_int_decimal|].
  assert (Forall (fun c => c <> 0) s) as Hnz by (apply number_nonzero; constructor; [lia|done]).
  pose proof (decimal_nonempty neg d ds : 0 < blen s).
  intros c rest Hc. unfold sol_str_slice_to_int, sol_util_strtol_n. rewrite cstr_app by done.
  assert (forall c', head (cstr (c :: rest)) = Some c' -> 10 <= digit_value c') as Hhead.
  { simpl. destruct (c =? 0); [done|]. by intros c' [= <-]. }
  pose proof (strtol_decimal neg d ds (cstr (c :: rest)) Hd Hds Hhead) as Hs.
  cbv zeta in Hs. rewrite app_assoc in Hs. fold s v in Hs. rewrite Hs.
  pose proof (length_cstr (c :: rest)). rewrite !blen_app, blen_cons in *.
  pose proof (blen_nonneg rest). bknown.
  case_bool_decide; cbn [error consumed value]; [|by bknown]. by bknown.
Qed.

Lemma str_slice_to_int_decimal_witness :
  1 <= 4 <= 9 /\ Forall (fun d => 0 <= d <= 9) [2]
  /\ sol_str_slice_to_int (sign_bytes true ++ ascii_digits [4; 2]) = (0, -42).
Proof.
  split; [lia|]. split; [repeat constructor; lia|].
  rewrite (proj1 (str_slice_to_int_decimal true 4 [2] ltac:(lia) ltac:(repeat constructor; lia))).
  reflexivity.
Defined.

(** *** Comparisons *)

Lemma mem_load_all (a : block) : mem_load a 0 (blen a) = Ret a.
Proof. rewrite mem_load_ok by (pose proof (blen_nonneg a); lia). by rewrite drop_0, blen_to_nat, take_ge. Qed.

Lemma memcmp_eq_spec a b t : blen a = blen b -> memcmp_eq a (b ++ t) (blen a) = Ret (bool_decide (a = b)).
Proof.
  intros Hl. unfold memcmp_eq. rewrite mem_load_all, bind_ret, Hl.
  by rewrite (mem_load_app [] b t).
Qed.

Lemma memcmp_eq_spec_l a b t : blen a = blen b -> memcmp_eq (a ++ t) b (blen b) = Ret (bool_decide (a = b)).
Proof.
  intros Hl. unfold memcmp_eq. rewrite mem_load_all, <- Hl.
  by rewrite (mem_load_app [] a t).
Qed.

(** Comparing [n] characters of texts without NUL compares prefixes. *)
Lemma strn_eq_spec f a b n :
  Forall (fun c => c <> 0) a -> (n <= length a)%nat -> (n <= length b)%nat ->
  strn_eq f a b n = Ret (bool_decide (f <$> take n a = f <$> take n b)).
Proof.
  intros Ha. revert b n. induction Ha as [|x a Hx _ IH]; intros b n Hla Hlb.
  - destruct n; [done|simpl in *; lia].
  - destruct n as [|n]; [done|]. destruct b as [|y b]; [simpl in *; lia|]. simpl in *.
    destruct (Z.eqb_spec (f x) (f y)) as [Hf|Hf]; cbn [negb].
    + bknown. rewrite IH by lia. f_equal. apply bool_decide_ext. rewrite Hf.
      change (list_fmap Z Z f) with (fmap (M := list) f). split; intros; congruence.
    + rewrite bool_decide_false; [done|congruence].
Qed.

(** The slice comparisons: sol_str_slice_eq and sol_str_slice_str_eq
    decide equality of the bytes; on texts without NUL the case-insensitive
    ones decide equality up to ASCII case, and sol_str_slice_starts_with
    decides whether the second text is a prefix of the first. *)
Theorem slice_comparisons_correct a b :
  sol_str_slice_eq a b = Ret (bool_decide (a = b))
  /\ sol_str_slice_str_eq a (Some b) = Ret (bool_decide (a = b))
  /\ sol_str_slice_str_eq a None = Ret false
  /\ (Forall (fun c => c <> 0) a ->
      sol_str_slice_case_eq a b = Ret (bool_decide (tolower <$> a = tolower <$> b))
      /\ sol_str_slice_str_case_eq a (Some b) = Ret (bool_decide (tolower <$> a = tolower <$> b))
      /\ sol_str_slice_starts_with a b = Ret (bool_decide (b `prefix_of` a))).
Proof.
  assert (blen a <> blen b -> a <> b) as Hne by (intros ? ->; done).
  split_and!; [..|done|intros Ha; split_and!]; unfold sol_str_slice_eq, sol_str_slice_str_eq,
    sol_str_slice_case_eq, sol_str_slice_str_case_eq, sol_str_slice_starts_with.
  1, 2: destruct (Z.eqb_spec (blen a) (blen b));
    [rewrite <- (app_nil_r b) at 1; by apply memcmp_eq_spec|rewrite bool_decide_false; auto].
  1, 2: destruct (Z.eqb_spec (blen a) (blen b)) as [Hl|Hl];
    [rewrite strn_eq_spec, blen_to_nat by (done || unfold blen in *; lia);
     rewrite !take_ge by (unfold blen in *; lia); done
    |rewrite bool_decide_false; [done|];
     intros E%(f_equal blen); by rewrite !blen_fmap in E].
  destruct (Z.geb_spec (blen a) (blen b)) as [Hl|Hl].
  - rewrite strn_eq_spec, blen_to_nat by (done || unfold blen in *; lia).
    f_equal. apply bool_decide_ext. rewrite !list_fmap_id, (take_ge b) by done. split.
    + intros Ht. exists (drop (length b) a). rewrite <- Ht at 1. by rewrite take_drop.
    + intros (t & ->). apply take_app_length.
  - rewrite bool_decide_false; [done|]. intros (t & ->). rewrite blen_app in Hl.
    pose proof (blen_nonneg t). lia.
Qed.

(** A NUL ends the comparison of starts_with: texts that differ after it
    pass for a prefix. *)
Lemma starts_with_stops_at_nul : sol_str_slice_starts_with [0; 1] [0; 2] = Ret true.
Proof. reflexivity. Qed.

(** *** Tables *)

Section Tables.
Import StrTable.
Context {V : Type}.

(** Entries made with SOL_STR_TABLE_ITEM, then an empty one. *)
Definition item (kv : list Z * V) : str_table V := Item (Some kv.1) (blen kv.1) kv.2.

Definition table_of (items : list (list Z * V)) (end_ : str_table V) (after : list (str_table V)) :=
  (item <$> items) ++ end_ :: after.

(** The first entry with this key. *)
Fixpoint first_entry (items : list (list Z * V)) (k : list Z) : option (list Z * V) :=
  match items with
  | [] => None
  | kv :: rest => if bool_decide (kv.1 = k) then Some kv else first_entry rest k
  end.

Lemma table_iter_spec items end_ after k :
  key end_ = None ->
  table_iter (table_of items end_ after) k
  = Ret (match first_entry items k with
         | Some kv => (Some (item kv), 0)
         | None => (None, ENOENT)
         end).
Proof.
  intros He. induction items as [|[s v] items IH]; cbn.
  - by rewrite He.
  - destruct (Z.eqb_spec (blen s) (blen k)) as [Hl|Hl].
    + rewrite memcmp_eq_spec_l, bind_ret by done.
      case_bool_decide; [done|exact IH].
    + rewrite bind_ret, bool_decide_false by congruence. exact IH.
Qed.

Lemma first_entry_some items k kv :
  first_entry items k = Some kv ->
  exists before rest, items = before ++ kv :: rest /\ kv.1 = k
    /\ Forall (fun e => e.1 <> k) before.
Proof.
  induction items as [|e items IH]; [done|]. cbn. case_bool_decide as He.
  - intros [= ->]. by exists [], items.
  - intros (before & rest & -> & Hk & Hall)%IH. exists (e :: before), rest.
    split_and!; [done|done|by constructor].
Qed.

Lemma first_entry_none items k : first_entry items k = None -> Forall (fun e => e.1 <> k) items.
Proof. induction items as [|e items IH]; [done|]. cbn. case_bool_decide; [done|]. eauto. Qed.
End Tables.

Lemma table_fallback_spec items end_ after k fallback :
  StrTable.key end_ = None ->
  exists e, StrTable.sol_str_table_lookup_fallback (Some (table_of items end_ after)) k fallback
    = Ret (if blen k <=? INT16_MAX then default fallback (snd <$> first_entry items k) else fallback, e).
Proof.
  intros He. unfold StrTable.sol_str_table_lookup_fallback, StrTable.sol_str_table_entry_lookup.
  breflect; try zlia; [|by eexists].
  rewrite table_iter_spec, bind_ret by done. destruct (first_entry items k); by eexists.
Qed.
(** Lookup in a string table that ends with an empty entry returns the
    first entry with the key and errno 0, and NULL with -ENOENT when no
    entry has it; the fallback variants return the value of that entry or
    the fallback, and an int16 table refuses keys longer than INT16_MAX. *)
Theorem table_lookup_correct {V} items end_ after k (fallback : V) ints end' after' fallback' :
  StrTable.key end_ = None -> StrTable.key end' = None ->
  let table := Some (table_of items end_ after) in
  (exists e, StrTable.sol_str_table_lookup_fallback (Some (table_of ints end' after')) k fallback'
    = Ret (if blen k <=? INT16_MAX then default fallback' (snd <$> first_entry ints k)
           else fallback', e))
  /\ match StrTable.sol_str_table_entry_lookup table k with
  | Ret (Some e, errno) => errno = 0
      /\ exists before v rest, items = before ++ (k, v) :: rest /\ e = item (k, v)
        /\ Forall (fun kv => kv.1 <> k) before
        /\ StrTable.sol_str_table_ptr_lookup_fallback table k fallback = Ret (v, 0)
  | Ret (None, errno) => errno = ENOENT /\ Forall (fun kv => kv.1 <> k) items
        /\ StrTable.sol_str_table_ptr_lookup_fallback table k fallback = Ret (fallback, ENOENT)
  | UB => False
  end.
Proof.
  intros He He' table. split; [by apply table_fallback_spec|]. subst table.
  unfold StrTable.sol_str_table_ptr_lookup_fallback, StrTable.sol_str_table_entry_lookup.
  rewrite table_iter_spec, bind_ret by done.
  destruct (first_entry items k) as [[k' v]|] eqn:E.
  - apply first_entry_some in E as (before & rest & -> & [= ->] & Hb).
    split; [done|]. by exists before, v, rest.
  - split_and!; [done|by apply first_entry_none|done].
Qed.

Lemma table_lookup_correct_witness :
  let stop := StrTable.Item (V := Z) None 0 0 in
  StrTable.key stop = None
  /\ exists e, StrTable.sol_str_table_lookup_fallback
        (Some (table_of [([97], 1); ([98], 2)] stop [])) [98] 7 = Ret (2, e).
Proof.
  intros stop. split; [done|].
  destruct (table_lookup_correct [] stop [] [98] 0 [([97], 1); ([98], 2)] stop [] 7) as [[e He] _];
    [done|done|]. exists e. exact He.
Defined.

(** A hit in an int16 table leaves errno at EINVAL, the mark of invalid
    arguments. *)
Lemma table_hit_reports_einval :
  StrTable.sol_str_table_lookup_fallback
    (Some (table_of [([97], 1)] (StrTable.Item None 0 0) [])) [97] 7 = Ret (1, EINVAL).
Proof. reflexivity. Qed.

End StrProofs.
