(* ===== verification/Arena.v ===== *)
(** * Arenas of strings (sol_arena)

    Models src/src/lib/datatypes/sol-arena.c: an arena owns every string it
    duplicates, recorded in a [sol_ptr_vector], and frees them all when it
    is deleted.  The C heap is the finite map of the live strings; [strndup]
    and [vasprintf] get the address of the block they return, or NULL, as an
    argument, and freeing what is not live is undefined. *)

From stdpp Require Import gmap.
From S2P Require Import Prelude Arith Vector PtrVector Str.
Import PtrVector.

#[local] Open Scope Z_scope.

Module Arena.
Import CString.

Abbreviation heap := (gmap Z block).

Record sol_arena := { str_vector : sol_ptr_vector }.

Record str_slice := { slen : Z; sdata : Z }.

Definition free (h : heap) (p : Z) : outcome heap :=
  if bool_decide (p = 0) then Ret h
  else match h !! p with
       | Some _ => Ret (delete p h)
       | None => UB
       end.

(** The block [strndup(src, n)] fills: characters up to the first NUL, [n]
    at most; reading past the source is undefined. *)
Definition strndup_bytes (src : block) (n : Z) : outcome block :=
  if bool_decide (n <= blen src \/ blen (cstr src) < blen src)
  then Ret (cstr (take (Z.to_nat n) src) ++ [0]) else UB.

Section Operations.
Context `{BuildConfig} `{Allocator}.

(** [None] is a failed calloc. *)
Definition sol_arena_new (ok : bool) : option sol_arena :=
  if ok then Some {| str_vector := sol_ptr_vector_init |} else None.

(** SOL_PTR_VECTOR_FOREACH_IDX with free, from position [i]. *)
Fixpoint free_all (h : heap) (pv : sol_ptr_vector) (i : Z) (fuel : nat) : outcome heap :=
  match fuel with
  | O => Ret h
  | S fuel =>
      s ← sol_ptr_vector_get_no_check pv i; h ← free h s; free_all h pv (i + 1) fuel
  end.

Definition sol_arena_del (h : heap) (arena : sol_arena) : outcome heap :=
  free_all h (str_vector arena) 0 (Z.to_nat (len (str_vector arena))).

(** [addr] is what strndup returned, [dst] the slice when the result is 0. *)
Definition sol_arena_slice_dup_str_n (h : heap) (arena : sol_arena) (addr : Z)
    (src : option block) (n : Z) : outcome (Z * option str_slice * heap * sol_arena) :=
  match src with
  | None => Ret (- EINVAL, None, h, arena)
  | Some src =>
      if n <=? 0 then Ret (- EINVAL, None, h, arena)
      else if addr =? 0 then Ret (- ENOMEM, None, h, arena)
      else
        bytes ← strndup_bytes src n;
        let h := <[addr := bytes]> h in
        '(r, pv) ← sol_ptr_vector_append (str_vector arena) addr;
        let arena := {| str_vector := pv |} in
        if r <? 0 then h ← free h addr; Ret (r, None, h, arena)
        else Ret (0, Some {| slen := n; sdata := addr |}, h, arena)
  end.

Definition sol_arena_slice_dup_str h arena addr (src : option block) :=
  match src with
  | None => Ret (- EINVAL, None, h, arena)
  | Some s => sol_arena_slice_dup_str_n h arena addr src (blen (cstr s))
  end.

Definition sol_arena_slice_dup h arena addr (src : block) :=
  sol_arena_slice_dup_str_n h arena addr (Some src) (blen src).

(** [printed] is what vasprintf produced, or its negative result; the slice
    is written before the string is registered. *)
Definition sol_arena_slice_sprintf (h : heap) (arena : sol_arena) (addr : Z)
    (printed : block + Z) : outcome (Z * option str_slice * heap * sol_arena) :=
  match printed with
  | inr r => Ret (r, None, h, arena)
  | inl text =>
      let h := <[addr := text ++ [0]]> h in
      let dst := {| slen := blen text; sdata := addr |} in
      '(r, pv) ← sol_ptr_vector_append (str_vector arena) addr;
      let arena := {| str_vector := pv |} in
      if r <? 0 then h ← free h addr; Ret (r, Some dst, h, arena)
      else Ret (0, Some dst, h, arena)
  end.

Definition sol_arena_str_dup_n (h : heap) (arena : sol_arena) (addr : Z)
    (src : option block) (n : Z) : outcome (Z * heap * sol_arena) :=
  match src with
  | None => Ret (0, h, arena)
  | Some src =>
      if n <=? 0 then Ret (0, h, arena)
      else if addr =? 0 then Ret (0, h, arena)
      else
        bytes ← strndup_bytes src n;
        let h := <[addr := bytes]> h in
        '(r, pv) ← sol_ptr_vector_append (str_vector arena) addr;
        let arena := {| str_vector := pv |} in
        if r <? 0 then h ← free h addr; Ret (0, h, arena)
        else Ret (addr, h, arena)
  end.

Definition sol_arena_strdup h arena addr (src : option block) :=
  match src with
  | None => Ret (0, h, arena)
  | Some s => sol_arena_str_dup_n h arena addr src (blen (cstr s))
  end.

Definition sol_arena_strdup_slice h arena addr (src : block) :=
  sol_arena_str_dup_n h arena addr (Some src) (blen src).

(** ** Whole lives of an arena *)

Inductive arena_op :=
| SliceDupN (addr : Z) (src : option block) (n : Z)
| SliceDupStr (addr : Z) (src : option block)
| SliceDup (addr : Z) (src : block)
| SliceSprintf (addr : Z) (printed : block + Z)
| StrDupN (addr : Z) (src : option block) (n : Z)
| StrDup (addr : Z) (src : option block)
| StrDupSlice (addr : Z) (src : block).

(** What a call hands out: a result and the slice it wrote, or a pointer. *)
Inductive given :=
| GivenSlice (r : Z) (dst : option str_slice)
| GivenString (p : Z).

Definition run_op (op : arena_op) (h : heap) (arena : sol_arena)
    : outcome (given * heap * sol_arena) :=
  let slice (r : outcome (Z * option str_slice * heap * sol_arena)) :=
    '(r, dst, h, arena) ← r; Ret (GivenSlice r dst, h, arena) in
  let str (r : outcome (Z * heap * sol_arena)) :=
    '(p, h, arena) ← r; Ret (GivenString p, h, arena) in
  match op with
  | SliceDupN addr src n => slice (sol_arena_slice_dup_str_n h arena addr src n)
  | SliceDupStr addr src => slice (sol_arena_slice_dup_str h arena addr src)
  | SliceDup addr src => slice (sol_arena_slice_dup h arena addr src)
  | SliceSprintf addr printed => slice (sol_arena_slice_sprintf h arena addr printed)
  | StrDupN addr src n => str (sol_arena_str_dup_n h arena addr src n)
  | StrDup addr src => str (sol_arena_strdup h arena addr src)
  | StrDupSlice addr src => str (sol_arena_strdup_slice h arena addr src)
  end.

Fixpoint run_ops (ops : list arena_op) (h : heap) (arena : sol_arena)
    : outcome (list given * heap * sol_arena) :=
  match ops with
  | [] => Ret ([], h, arena)
  | op :: ops =>
      '(g, h, arena) ← run_op op h arena;
      '(gs, h, arena) ← run_ops ops h arena; Ret (g :: gs, h, arena)
  end.
End Operations.

(** ** The invariant

    [h0] is the heap the arena was created in: the recorded strings are the
    live strings that are not in [h0]. *)

Record arena_inv (h0 h : heap) (arena : sol_arena) (ps : list Z) : Prop := {
  inv_rep : ptr_rep (str_vector arena) ps;
  inv_nodup : NoDup ps;
  inv_live : forall p, p ∈ ps -> p <> 0 /\ h0 !! p = None /\ is_Some (h !! p);
  inv_frame : forall p, p ∉ ps -> h !! p = h0 !! p
}.

(** strndup returned NULL or a new block. *)
Definition addr_ok (h : heap) (addr : Z) : Prop :=
  addr <> 0 /\ is_uint 64 addr /\ h !! addr = None.

Definition readable (src : option block) (n : Z) : Prop :=
  match src with
  | None => True
  | Some src => n <= blen src \/ blen (cstr src) < blen src
  end.

Definition terminated (src : option block) : Prop :=
  match src with
  | None => True
  | Some src => blen (cstr src) < blen src
  end.

(** What the caller and the C library guarantee of a call. *)
Definition op_ok (op : arena_op) (h : heap) : Prop :=
  match op with
  | SliceDupN addr src n | StrDupN addr src n =>
      (addr = 0 \/ addr_ok h addr) /\ readable src n
  | SliceDupStr addr src | StrDup addr src => (addr = 0 \/ addr_ok h addr) /\ terminated src
  | SliceDup addr src | StrDupSlice addr src => addr = 0 \/ addr_ok h addr
  | SliceSprintf addr (inl _) => addr_ok h addr
  | SliceSprintf _ (inr r) => r < 0
  end.

(** ** What a caller asks for and gets *)

(** The address the C library gives for a call. *)
Definition addr_of (op : arena_op) : Z :=
  match op with
  | SliceDupN addr _ _ | SliceDupStr addr _ | SliceDup addr _ | SliceSprintf addr _
  | StrDupN addr _ _ | StrDup addr _ | StrDupSlice addr _ => addr
  end.

(** The text of the first [n] bytes, up to a NUL, and the length asked for;
    nothing is asked for by no bytes. *)
Definition copy_of (s : block) (n : Z) : option (block * Z) :=
  if n <=? 0 then None else Some (cstr (take (Z.to_nat n) s), n).

Definition asked (op : arena_op) : option (block * Z) :=
  match op with
  | SliceDupN _ (Some s) n | StrDupN _ (Some s) n => copy_of s n
  | SliceDupStr _ (Some s) | StrDup _ (Some s) => copy_of s (blen (cstr s))
  | SliceDup _ s | StrDupSlice _ s => copy_of s (blen s)
  | SliceSprintf _ (inl text) => Some (text, blen text)
  | _ => None
  end.

(** The form of the answer of a call that gives [n] characters at [p], and of
    one that gives nothing. *)
Definition success (op : arena_op) (n p : Z) : given :=
  match op with
  | SliceDupN _ _ _ | SliceDupStr _ _ | SliceDup _ _ | SliceSprintf _ _ =>
      GivenSlice 0 (Some {| slen := n; sdata := p |})
  | StrDupN _ _ _ | StrDup _ _ | StrDupSlice _ _ => GivenString p
  end.

Definition declined (op : arena_op) (g : given) : Prop :=
  match op with
  | SliceDupN _ _ _ | SliceDupStr _ _ | SliceDup _ _ | SliceSprintf _ _ =>
      exists r dst, g = GivenSlice r dst /\ r < 0
  | StrDupN _ _ _ | StrDup _ _ | StrDupSlice _ _ => g = GivenString 0
  end.

(** The strings an answer hands out. *)
Definition handed (g : given) : list Z :=
  match g with
  | GivenSlice r (Some d) => if r =? 0 then [sdata d] else []
  | GivenSlice _ None => []
  | GivenString p => if p =? 0 then [] else [p]
  end.

(** An arena of [n] strings cannot record another: it is full, or there is no
    memory for a longer vector. *)
Definition no_record `{Allocator} (n : Z) : Prop :=
  UINT16_MAX <= n \/ exists size, 0 <= size <= SSIZE_MAX /\ alloc_ok size = false.

(** [g] answers [op]: the text asked for is the string at the address handed
    out; or nothing was asked for, the C library had no memory or the arena
    could not record the string, and nothing is handed out. *)
Definition kept `{Allocator} (h : heap) (n : Z) (op : arena_op) (g : given) : Prop :=
  (exists text l, asked op = Some (text, l) /\ g = success op l (addr_of op)
     /\ addr_of op <> 0 /\ h !! addr_of op = Some (text ++ [0]))
  \/ declined op g /\ (asked op = None \/ addr_of op = 0 \/ no_record n).

Section Proofs.
Context `{BuildConfig} `{Allocator}.

Fixpoint ops_ok (ops : list arena_op) (h : heap) (arena : sol_arena) : Prop :=
  match ops with
  | [] => True
  | op :: ops => op_ok op h /\
      match run_op op h arena with
      | Ret (_, h, arena) => ops_ok ops h arena
      | UB => True
      end
  end.

Lemma append_refusal pv ps x r pv' :
  ptr_rep pv ps -> sol_ptr_vector_append pv x = Ret (r, pv') -> r < 0 -> no_record (blen ps).
Proof.
  intros (Hrep & Hes & _) E Hr. unfold sol_ptr_vector_append in E.
  destruct (Vector.append_error_agrees _ _ Hrep) as (r1 & v' & Ha & Hcase). rewrite Ha, bind_ret in E.
  rewrite Hes, blen_fmap in Hcase.
  destruct Hcase as [(Hneg & -> & ->)|Hz].
  - exact (Vector.append_error_reason ptr_size _ ltac:(done) (blen_nonneg ps) Hneg).
  - destruct (Vector.append_n_spec (base pv) _ 1 Hrep ltac:(zlia)) as (r2 & v2 & Ha2 & Hc2).
    unfold Vector.sol_vector_append in Ha. rewrite Ha in Ha2. injection Ha2 as <- <-.
    destruct Hc2 as [(e & _ & _ & ->)|(-> & _)].
    + destruct Hrep as (_ & Hl & _). destruct Hz as (_ & _ & Hl' & _).
      rewrite Hl, blen_app, blen_fmap in Hl'. unfold blen in Hl'. cbn in Hl'. lia.
    + destruct (store_ptr _ _ _); cbn in E; [|done]. injection E as <- _. lia.
Qed.

(** Recording a new string, or giving it back. *)
Lemma register_spec h0 h arena ps addr bytes :
  arena_inv h0 h arena ps -> addr_ok h addr ->
  exists r pv, sol_ptr_vector_append (str_vector arena) addr = Ret (r, pv)
    /\ ((r < 0 /\ pv = str_vector arena /\ free (<[addr := bytes]> h) addr = Ret h
          /\ no_record (blen ps))
        \/ (r = 0 /\ arena_inv h0 (<[addr := bytes]> h) {| str_vector := pv |} (ps ++ [addr]))).
Proof.
  intros [Hrep Hnd Hlive Hframe] (Hnz & Hu & Hnew).
  destruct (append_spec _ _ addr Hrep Hu) as (r & pv & E & [(Hr & ->)|(-> & Hrep')]).
  - exists r, (str_vector arena). split; [done|]. left.
    split_and!; [done|done| |by eapply append_refusal].
    unfold free. rewrite bool_decide_false by done. rewrite lookup_insert_eq.
    by rewrite delete_insert_id.
  - exists 0, pv. split; [done|]. right. split; [done|].
    assert (addr ∉ ps) as Hni.
    { intros Hin. pose proof (proj2 (proj2 (Hlive _ Hin))) as Hs. by rewrite Hnew, is_Some_alt in Hs. }
    split; [done| | |].
    + apply NoDup_app. split_and!; [done| |apply NoDup_singleton].
      intros p Hp ->%list_elem_of_singleton. done.
    + intros p [Hp| ->%list_elem_of_singleton]%elem_of_app.
      * destruct (Hlive p Hp) as (? & ? & ?). split_and!; [done|done|].
        by rewrite lookup_insert_ne by (intros ->; done).
      * split_and!; [done|by rewrite <- Hframe|]. rewrite lookup_insert_eq. by eexists.
    + intros p [Hp Hne]%not_elem_of_app. rewrite lookup_insert_ne; [by apply Hframe|].
      intros ->. by apply Hne, list_elem_of_singleton.
Qed.

Lemma strndup_ok src n : readable (Some src) n -> exists b, strndup_bytes src n = Ret b.
Proof. intros. unfold strndup_bytes. rewrite bool_decide_true by done. by eexists. Qed.

Lemma new_inv h : arena_inv h h {| str_vector := sol_ptr_vector_init |} [].
Proof. split; [apply ptr_rep_init|constructor|set_solver|done]. Qed.

(** The two shapes all operations have. *)
Lemma slice_dup_inv h0 h arena ps addr src n :
  arena_inv h0 h arena ps -> addr = 0 \/ addr_ok h addr -> readable src n ->
  exists r dst h' arena' ps', sol_arena_slice_dup_str_n h arena addr src n = Ret (r, dst, h', arena')
    /\ arena_inv h0 h' arena' ps'
    /\ ((r < 0 /\ dst = None /\ h' = h /\ ps' = ps
           /\ (src = None \/ n <= 0 \/ addr = 0 \/ no_record (blen ps)))
        \/ exists s, r = 0 /\ src = Some s /\ 0 < n /\ addr <> 0 /\ ps' = ps ++ [addr]
             /\ dst = Some {| slen := n; sdata := addr |}
             /\ h' = <[addr := cstr (take (Z.to_nat n) s) ++ [0]]> h).
Proof.
  intros Hinv Haddr Hsrc. unfold sol_arena_slice_dup_str_n.
  destruct src as [s|]; [|do 5 eexists; split_and!; [done|done|left; split_and!; auto; done]].
  destruct (Z.leb_spec n 0); [do 5 eexists; split_and!; [done|done|left; split_and!; auto; done]|].
  destruct (Z.eqb_spec addr 0) as [|Hnz];
    [do 5 eexists; split_and!; [done|done|left; split_and!; auto; done]|].
  destruct Haddr as [|Haddr]; [done|].
  unfold strndup_bytes. rewrite bool_decide_true, bind_ret by done.
  destruct (register_spec _ _ _ _ addr (cstr (take (Z.to_nat n) s) ++ [0]) Hinv Haddr)
    as (r & pv & -> & [(Hr & -> & Hf & Hno)|(-> & Hinv')]); rewrite bind_ret.
  - bknown. rewrite Hf, bind_ret. do 5 eexists. split_and!; [done| |left; split_and!; auto].
    by destruct arena.
  - do 5 eexists. split_and!; [done|done|]. right. by exists s.
Qed.

Lemma str_dup_inv h0 h arena ps addr src n :
  arena_inv h0 h arena ps -> addr = 0 \/ addr_ok h addr -> readable src n ->
  exists r h' arena' ps', sol_arena_str_dup_n h arena addr src n = Ret (r, h', arena')
    /\ arena_inv h0 h' arena' ps'
    /\ ((r = 0 /\ h' = h /\ ps' = ps
           /\ (src = None \/ n <= 0 \/ addr = 0 \/ no_record (blen ps)))
        \/ exists s, r = addr /\ src = Some s /\ 0 < n /\ addr <> 0 /\ ps' = ps ++ [addr]
             /\ h' = <[addr := cstr (take (Z.to_nat n) s) ++ [0]]> h).
Proof.
  intros Hinv Haddr Hsrc. unfold sol_arena_str_dup_n.
  destruct src as [s|]; [|do 4 eexists; split_and!; [done|done|left; split_and!; auto]].
  destruct (Z.leb_spec n 0); [do 4 eexists; split_and!; [done|done|left; split_and!; auto]|].
  destruct (Z.eqb_spec addr 0) as [|Hnz];
    [do 4 eexists; split_and!; [done|done|left; split_and!; auto]|].
  destruct Haddr as [|Haddr]; [done|].
  unfold strndup_bytes. rewrite bool_decide_true, bind_ret by done.
  destruct (register_spec _ _ _ _ addr (cstr (take (Z.to_nat n) s) ++ [0]) Hinv Haddr)
    as (r & pv & -> & [(Hr & -> & Hf & Hno)|(-> & Hinv')]); rewrite bind_ret.
  - bknown. rewrite Hf, bind_ret. do 4 eexists. split_and!; [done| |left; split_and!; auto].
    by destruct arena.
  - do 4 eexists. split_and!; [done|done|]. right. by exists s.
Qed.

Lemma sprintf_inv h0 h arena ps addr printed :
  arena_inv h0 h arena ps -> op_ok (SliceSprintf addr printed) h ->
  exists r dst h' arena' ps', sol_arena_slice_sprintf h arena addr printed = Ret (r, dst, h', arena')
    /\ arena_inv h0 h' arena' ps'
    /\ ((r < 0 /\ h' = h /\ ps' = ps /\ (printed = inr r \/ no_record (blen ps)))
        \/ exists text, r = 0 /\ printed = inl text /\ addr <> 0 /\ ps' = ps ++ [addr]
             /\ dst = Some {| slen := blen text; sdata := addr |}
             /\ h' = <[addr := text ++ [0]]> h).
Proof.
  intros Hinv Hok. destruct printed as [text|r]; cbn [op_ok] in Hok.
  2: { do 5 eexists. split_and!; [done|done|left; split_and!; auto]. }
  unfold sol_arena_slice_sprintf.
  destruct (register_spec _ _ _ _ addr (text ++ [0]) Hinv Hok)
    as (r & pv & -> & [(Hr & -> & Hf & Hno)|(-> & Hinv')]); rewrite bind_ret.
  - bknown. rewrite Hf, bind_ret. do 5 eexists. split_and!; [done| |left; split_and!; auto].
    by destruct arena.
  - do 5 eexists. split_and!; [done|done|]. right. exists text. by destruct Hok.
Qed.

Lemma copy_of_none s n : n <= 0 -> copy_of s n = None.
Proof. intros. unfold copy_of. by rewrite (proj2 (Z.leb_le n 0)). Qed.

Lemma copy_of_some s n : 0 < n -> copy_of s n = Some (cstr (take (Z.to_nat n) s), n).
Proof. intros. unfold copy_of. by rewrite (proj2 (Z.leb_gt n 0)). Qed.

(** A call answers as asked and records what it hands out. *)
Definition answers_op (h0 h : heap) (arena : sol_arena) (ps : list Z) (op : arena_op)
    (o : outcome (given * heap * sol_arena)) : Prop :=
  exists g h' arena', o = Ret (g, h', arena') /\ arena_inv h0 h' arena' (ps ++ handed g)
    /\ kept h' (blen ps) op g /\ (forall p, p ∈ ps -> h' !! p = h !! p).

Lemma answers_nothing h0 h arena ps op g h' arena' :
  arena_inv h0 h' arena' ps -> h' = h -> handed g = [] -> declined op g ->
  asked op = None \/ addr_of op = 0 \/ no_record (blen ps) ->
  answers_op h0 h arena ps op (Ret (g, h', arena')).
Proof.
  intros Hinv -> Hg Hd Hwhy. exists g, h, arena'. rewrite Hg, app_nil_r.
  split_and!; [done|done|by right|done].
Qed.

Lemma answers_text h0 h arena ps op text l arena' :
  arena_inv h0 (<[addr_of op := text ++ [0]]> h) arena' (ps ++ [addr_of op]) ->
  addr_of op <> 0 -> asked op = Some (text, l) ->
  answers_op h0 h arena ps op (Ret (success op l (addr_of op), <[addr_of op := text ++ [0]]> h, arena')).
Proof.
  intros Hinv Hnz Hask. exists (success op l (addr_of op)), (<[addr_of op := text ++ [0]]> h), arena'.
  assert (handed (success op l (addr_of op)) = [addr_of op]) as Hh.
  { destruct op; cbn in *; try done; by rewrite (proj2 (Z.eqb_neq _ 0)). }
  rewrite Hh. split_and!; [done|done| |].
  - left. exists text, l. split_and!; [done|done|done|]. apply lookup_insert_eq.
  - intros p Hp. apply lookup_insert_ne. intros Heq. destruct Hinv as [_ Hnd _ _].
    apply NoDup_app in Hnd as (_ & Hni & _). by apply (Hni p Hp), list_elem_of_singleton.
Qed.

Lemma slice_answers h0 h arena ps op src n :
  arena_inv h0 h arena ps -> addr_of op = 0 \/ addr_ok h (addr_of op) -> readable src n ->
  asked op = match src with Some s => copy_of s n | None => None end ->
  (forall l p, success op l p = GivenSlice 0 (Some {| slen := l; sdata := p |})) ->
  (forall r dst, r < 0 -> declined op (GivenSlice r dst)) ->
  answers_op h0 h arena ps op
    ('(r, dst, h, arena) ← sol_arena_slice_dup_str_n h arena (addr_of op) src n;
     Ret (GivenSlice r dst, h, arena)).
Proof.
  intros Hinv Ha Hr Hask Hsucc Hdecl.
  destruct (slice_dup_inv _ _ _ _ (addr_of op) src n Hinv Ha Hr)
    as (r & dst & h' & a' & ps' & -> & Hi & [(Hneg & -> & -> & -> & Hwhy)|(s & -> & -> & Hn & Hnz & -> & -> & ->)]);
    rewrite bind_ret.
  - apply answers_nothing; [done|done|done|by apply Hdecl|].
    destruct Hwhy as [-> |[Hn|[?|?]]]; [by left|left|by right; left|by right; right].
    rewrite Hask. destruct src; [by apply copy_of_none|done].
  - rewrite copy_of_some in Hask by done. rewrite <- Hsucc. by apply answers_text.
Qed.

Lemma str_answers h0 h arena ps op src n :
  arena_inv h0 h arena ps -> addr_of op = 0 \/ addr_ok h (addr_of op) -> readable src n ->
  asked op = match src with Some s => copy_of s n | None => None end ->
  (forall l p, success op l p = GivenString p) -> declined op (GivenString 0) ->
  answers_op h0 h arena ps op
    ('(p, h, arena) ← sol_arena_str_dup_n h arena (addr_of op) src n; Ret (GivenString p, h, arena)).
Proof.
  intros Hinv Ha Hr Hask Hsucc Hdecl.
  destruct (str_dup_inv _ _ _ _ (addr_of op) src n Hinv Ha Hr)
    as (p & h' & a' & ps' & -> & Hi & [(-> & -> & -> & Hwhy)|(s & -> & -> & Hn & Hnz & -> & ->)]);
    rewrite bind_ret.
  - apply answers_nothing; [done|done|done|done|].
    destruct Hwhy as [-> |[Hn|[?|?]]]; [by left|left|by right; left|by right; right].
    rewrite Hask. destruct src; [by apply copy_of_none|done].
  - rewrite copy_of_some in Hask by done. rewrite <- (Hsucc n). by apply answers_text.
Qed.

Lemma sprintf_answers h0 h arena ps addr printed :
  arena_inv h0 h arena ps -> op_ok (SliceSprintf addr printed) h ->
  answers_op h0 h arena ps (SliceSprintf addr printed) (run_op (SliceSprintf addr printed) h arena).
Proof.
  intros Hinv Hok. cbn [run_op].
  destruct (sprintf_inv _ _ _ _ addr printed Hinv Hok)
    as (r & dst & h' & a' & ps' & -> & Hi & [(Hneg & -> & -> & Hwhy)|(t & -> & -> & Hnz & -> & -> & ->)]);
    rewrite bind_ret.
  - apply answers_nothing; [done|done| |by exists r, dst|].
    + cbn. destruct dst; [|done]. by rewrite (proj2 (Z.eqb_neq r 0)) by lia.
    + destruct Hwhy as [->|]; [by left|by right; right].
  - by apply (answers_text h0 h arena ps (SliceSprintf addr (inl t))).
Qed.

Lemma run_op_answers h0 h arena ps op :
  arena_inv h0 h arena ps -> op_ok op h -> answers_op h0 h arena ps op (run_op op h arena).
Proof.
  intros Hinv Hok.
  destruct op as [addr src n|addr [s|]|addr s|addr printed|addr src n|addr [s|]|addr s];
    [..|by apply sprintf_answers| | | |]; cbn [op_ok] in Hok.
  - apply (slice_answers h0 h arena ps (SliceDupN addr src n)); try done; try apply Hok. intros; by do 2 eexists.
  - apply (slice_answers h0 h arena ps (SliceDupStr addr (Some s)) (Some s)); try done; [apply Hok| |].
    + right. apply Hok.
    + intros; by do 2 eexists.
  - apply answers_nothing; [done|done|done|by do 2 eexists|by left].
  - apply (slice_answers h0 h arena ps (SliceDup addr s) (Some s)); try done; [by left|]. intros; by do 2 eexists.
  - apply (str_answers h0 h arena ps (StrDupN addr src n)); try done; apply Hok.
  - apply (str_answers h0 h arena ps (StrDup addr (Some s)) (Some s)); try done; [apply Hok|]. right. apply Hok.
  - apply answers_nothing; [done|done|done|done|by left].
  - apply (str_answers h0 h arena ps (StrDupSlice addr s) (Some s)); try done. by left.
Qed.

(** What was handed out stays as it was. *)
Lemma kept_later h h' n n' op g :
  kept h n op g -> n <= n' -> (forall p, p ∈ handed g -> h' !! p = h !! p) -> kept h' n' op g.
Proof.
  intros [(t & l & Hask & -> & Hnz & Ht)|(Hd & Hwhy)] Hn Hsame.
  - left. exists t, l. split_and!; [done|done|done|]. rewrite Hsame; [done|].
    destruct op; cbn in *; rewrite ?(proj2 (Z.eqb_neq _ 0)) by done; by left.
  - right. split; [done|]. destruct Hwhy as [?|[?|[?|?]]]; [by left|by right; left| |by right; right; right].
    right; right; left. lia.
Qed.

Lemma run_ops_inv h0 ops : forall h arena ps,
  arena_inv h0 h arena ps -> ops_ok ops h arena ->
  exists gs h' arena', run_ops ops h arena = Ret (gs, h', arena')
    /\ arena_inv h0 h' arena' (ps ++ (gs ≫= handed))
    /\ Forall2 (kept h' (blen (ps ++ (gs ≫= handed)))) ops gs
    /\ (forall p, p ∈ ps -> h' !! p = h !! p).
Proof.
  induction ops as [|op ops IH]; intros h arena ps Hinv Hok.
  { exists [], h, arena. cbn. rewrite app_nil_r. by split_and!. }
  destruct Hok as [Hop Hok]. cbn [run_ops].
  destruct (run_op_answers _ _ _ _ op Hinv Hop) as (g & h' & a' & E & Hinv' & Hk & Hsame). rewrite E in *.
  rewrite bind_ret.
  destruct (IH _ _ _ Hinv' Hok) as (gs & h2 & a2 & -> & Hinv2 & Hks & Hsame2). rewrite bind_ret.
  exists (g :: gs), h2, a2. cbn [mbind list_bind]. rewrite (app_assoc ps). split_and!; [done|done| |].
  - constructor; [|done]. eapply kept_later; [done| |].
    + rewrite !blen_app. pose proof (blen_nonneg (handed g)). pose proof (blen_nonneg (gs ≫= handed)). lia.
    + intros p Hp. apply Hsame2, elem_of_app. by right.
  - intros p Hp. rewrite Hsame2 by (apply elem_of_app; by left). by apply Hsame.
Qed.

(** Freeing the strings from position [i] on. *)
Lemma free_all_spec pv fuel : forall h done_ ps,
  ptr_rep pv (done_ ++ ps) -> NoDup ps -> length ps = fuel ->
  (forall p, p ∈ ps -> p <> 0 /\ is_Some (h !! p)) ->
  exists h', free_all h pv (blen done_) fuel = Ret h'
    /\ forall p, h' !! p = if bool_decide (p ∈ ps) then None else h !! p.
Proof.
  induction fuel as [|fuel IH]; intros h dn ps Hrep Hnd Hl Hlive.
  - destruct ps; [|done]. exists h. split; [done|]. intros p.
    by rewrite bool_decide_false by set_solver.
  - destruct ps as [|q ps]; [done|]. apply NoDup_cons in Hnd as [Hni Hnd]. cbn [free_all].
    rewrite (get_no_check_spec pv (dn ++ q :: ps) (blen dn) q), bind_ret.
    2: { done. }
    2: { split; [apply blen_nonneg|]. rewrite blen_to_nat, lookup_app_r, Nat.sub_diag by lia. done. }
    destruct (Hlive q) as [Hq [b Hb]]; [by left|].
    unfold free. rewrite bool_decide_false by done. rewrite Hb, bind_ret.
    destruct (IH (delete q h) (dn ++ [q]) ps) as (h' & Hh & Hp).
    { by rewrite <- app_assoc. }
    { done. }
    { by injection Hl. }
    { intros p Hp. destruct (Hlive p) as [? ?]; [by right|]. split; [done|].
      rewrite lookup_delete_ne; [done|]. by intros ->. }
    rewrite blen_app, blen_cons, blen_nil in Hh. exists h'. split; [exact Hh|].
    intros p. rewrite Hp. destruct (decide (p = q)) as [->|Hne].
    + rewrite (bool_decide_true (q ∈ q :: ps)) by (by left).
      rewrite bool_decide_false by done. apply lookup_delete_eq.
    + rewrite lookup_delete_ne by done.
      rewrite (bool_decide_ext (p ∈ q :: ps) (p ∈ ps)); [done|].
      rewrite elem_of_cons. split; [by intros [|]|by right].
Qed.

(** C22: However an arena is used - with sources that are terminated or as
    long as the caller says, and a C library that answers with NULL or a new
    block - every string it hands out holds the text that was asked for (the
    bytes of the source, up to a NUL among them, or what was printed) and a
    terminator, in a live block of its own that keeps it until the arena is
    deleted; a slice has the length that was asked for.  A call that hands
    out nothing was asked for nothing, found no memory, or met a full arena.
    sol_arena_del frees the strings handed out, each once and nothing else:
    the heap is then the one the arena was created in.  (A
    sol_arena_slice_sprintf that fails to record its string has written the
    slice before; it is not handed out, the result says so.) *)
Theorem arena_owns_its_strings h0 ops arena :
  sol_arena_new true = Some arena -> ops_ok ops h0 arena ->
  exists gs h arena', run_ops ops h0 arena = Ret (gs, h, arena')
    /\ (let ps := gs ≫= handed in
       Forall2 (kept h (blen ps)) ops gs
       /\ ptr_rep (str_vector arena') ps /\ NoDup ps
       /\ (forall p, p ∈ ps <-> h0 !! p = None /\ is_Some (h !! p)))
    /\ (forall p, is_Some (h0 !! p) -> h !! p = h0 !! p)
    /\ sol_arena_del h arena' = Ret h0.
Proof.
  intros [= <-] Hok.
  destruct (run_ops_inv h0 ops h0 _ [] (new_inv h0) Hok) as (gs & h & a & E & Hinv & Hk & _).
  exists gs, h, a. cbn [app] in *. set (ps := gs ≫= handed) in *. cbv zeta.
  pose proof Hinv as [Hrep Hnd Hlive Hframe].
  split_and!; [done|done|done|done| | |].
  - intros p. split; [intros Hp; by destruct (Hlive p Hp) as (? & ? & ?)|].
    intros [Hn Hs]. destruct (decide (p ∈ ps)) as [|Hni]; [done|].
    rewrite (Hframe _ Hni), Hn, is_Some_alt in Hs. done.
  - intros p Hp. apply Hframe. intros Hin. destruct (Hlive p Hin) as (_ & Hn & _).
    by rewrite Hn, is_Some_alt in Hp.
  - unfold sol_arena_del. rewrite (full_fuel _ ps Hrep).
    destruct (free_all_spec (str_vector a) (length ps) h [] ps) as (h' & Hh & Hp); try done.
    { intros p Hp. by destruct (Hlive p Hp) as (? & ? & ?). }
    rewrite blen_nil in Hh. rewrite Hh. f_equal. apply map_eq. intros p. rewrite Hp.
    case_bool_decide as Hin; [by destruct (Hlive p Hin) as (_ & -> & _)|by apply Hframe].
Qed.
End Proofs.

(** A duplicated string, the first byte of an unterminated one, a printed
    text and a NULL source. *)
Lemma arena_owns_its_strings_witness :
  let ops := [SliceDupStr 64 (Some [104; 105; 0]); StrDupN 96 (Some [104; 105]) 1;
              SliceSprintf 128 (inl [52; 50]); StrDup 160 None] in
  let arena := {| str_vector := sol_ptr_vector_init |} in
  ops_ok (H := gcc5) (H0 := roomy) ops ∅ arena
  /\ match run_ops (H := gcc5) (H0 := roomy) ops ∅ arena with
     | Ret (gs, h, arena') =>
         (gs = [GivenSlice 0 (Some {| slen := 2; sdata := 64 |}); GivenString 96;
                GivenSlice 0 (Some {| slen := 2; sdata := 128 |}); GivenString 0]
          /\ h !! 96 = Some [104; 0])
         /\ sol_arena_del h arena' = Ret ∅
     | UB => False
     end.
Proof.
  intros ops arena.
  assert (ops_ok (H := gcc5) (H0 := roomy) ops ∅ arena) as Hok.
  { vm_compute. split_and!; try done; [right; by split_and!|right; by split_and!|by left|by right]. }
  split; [exact Hok|].
  assert (match run_ops (H := gcc5) (H0 := roomy) ops ∅ arena with
          | Ret (gs, h, _) =>
              gs = [GivenSlice 0 (Some {| slen := 2; sdata := 64 |}); GivenString 96;
                    GivenSlice 0 (Some {| slen := 2; sdata := 128 |}); GivenString 0]
              /\ h !! 96 = Some [104; 0]
          | UB => False
          end) as Hgs by (vm_compute; split; reflexivity).
  destruct (arena_owns_its_strings (H := gcc5) (H0 := roomy) ∅ ops arena eq_refl Hok)
    as (gs & h & a & Hrun & _ & _ & Hdel).
  rewrite Hrun in Hgs |- *. split; [exact Hgs|exact Hdel].
Defined.

(** strndup stops at a NUL, but the slice is as long as asked for: it covers
    bytes behind the block it points to. *)
Lemma arena_slice_longer_than_block :
  exists h arena, sol_arena_slice_dup_str_n (H := gcc5) (H0 := roomy) ∅
      {| str_vector := sol_ptr_vector_init |} 64 (Some [97; 0; 98; 99]) 4
    = Ret (0, Some {| slen := 4; sdata := 64 |}, h, arena)
    /\ h !! 64 = Some [97; 0].
Proof. do 2 eexists. split; vm_compute; reflexivity. Qed.
End Arena.
