(* ===== verification/FbpScanner.v ===== *)
(** * The scanner of the FBP language

    Models src/src/shared/sol-fbp-internal-scanner.c: a machine whose states
    are functions, run until a token is complete.  The scanner keeps the
    input that is still unread ([rest]); pointers into the input are
    distances from its first byte.  A state returns the next state, or
    [None] where the code returns NULL. *)

From S2P Require Import Prelude Str.
Import CString(isdigit).

#[local] Open Scope Z_scope.

Module FbpScanner.

Inductive sol_fbp_token_type :=
| T_NONE | T_ARROW | T_BRACKET_CLOSE | T_BRACKET_OPEN | T_COLON | T_COMMA | T_DOT
| T_EOF | T_ERROR | T_EQUAL | T_IDENTIFIER | T_INPORT_KEYWORD | T_INTEGER
| T_OUTPORT_KEYWORD | T_PAREN_CLOSE | T_PAREN_OPEN | T_STMT_SEPARATOR | T_STRING
| T_DECLARE_KEYWORD | T_OPTION_KEYWORD.

#[export] Instance token_type_eq_dec : EqDecision sol_fbp_token_type.
Proof. solve_decision. Defined.

Record sol_fbp_token := {
  type : sol_fbp_token_type; start : Z; end_ : Z; line : Z; column : Z
}.

(** The state functions. *)
Inductive state :=
| S_default | S_space | S_comment | S_carriage_return | S_arrow | S_error
| S_export_ident | S_export_port_index | S_export_port_array | S_export
| S_inport_equal | S_inport | S_outport_equal | S_outport
| S_declare_end | S_declare_contents | S_declare_second_sep | S_declare_metatype
| S_declare_first_sep | S_declare_name | S_declare_equal | S_declare
| S_option_end | S_option_name | S_option_second_sep | S_option_node_option
| S_option_first_sep | S_option_node_name | S_option_equal | S_option
| S_identifier | S_identifier_or_keyword | S_port_index | S_port_array
| S_string_start | S_meta_item | S_meta | S_component.

Record sol_fbp_scanner := {
  rest : list Z;
  token : sol_fbp_token;
  sstate : option state;
  start_pos : Z * Z;   (** line and column where the token starts *)
  cur_pos : Z * Z
}.

Definition sol_fbp_scanner_init (input : list Z) : sol_fbp_scanner := {|
  rest := input;
  token := {| type := T_NONE; start := 0; end_ := 0; line := 0; column := 0 |};
  sstate := Some S_default;
  start_pos := (1, 1); cur_pos := (1, 1)
|}.

Definition set_state (s : sol_fbp_scanner) st : sol_fbp_scanner :=
  {| rest := rest s; token := token s; sstate := st; start_pos := start_pos s; cur_pos := cur_pos s |}.

Definition pos_step (p : Z * Z) (c : Z) : Z * Z :=
  if c =? 10 then (wrapu 32 (p.1 + 1), 1) else (p.1, wrapu 32 (p.2 + 1)).

(** The character read is 0 at the end of the input. *)
Definition next (s : sol_fbp_scanner) : Z * sol_fbp_scanner :=
  match rest s with
  | [] => (0, s)
  | c :: r =>
      let t := token s in
      (c, {| rest := r;
             token := {| type := type t; start := start t; end_ := end_ t + 1;
                         line := line t; column := column t |};
             sstate := sstate s; start_pos := start_pos s; cur_pos := pos_step (cur_pos s) c |})
  end.

(** A call of [next] whose result is not used. *)
Definition advance (s : sol_fbp_scanner) : sol_fbp_scanner := (next s).2.

Definition set_token (s : sol_fbp_scanner) (ty : sol_fbp_token_type) : sol_fbp_scanner :=
  let t := token s in
  {| rest := rest s;
     token := {| type := ty; start := start t; end_ := end_ t;
                 line := (start_pos s).1; column := (start_pos s).2 |};
     sstate := sstate s; start_pos := start_pos s; cur_pos := cur_pos s |}.

Definition peek (s : sol_fbp_scanner) : Z :=
  match rest s with [] => 0 | c :: _ => c end.

Definition ignore (s : sol_fbp_scanner) : sol_fbp_scanner :=
  let t := token s in
  {| rest := rest s;
     token := {| type := type t; start := end_ t; end_ := end_ t; line := line t; column := column t |};
     sstate := sstate s; start_pos := cur_pos s; cur_pos := cur_pos s |}.

Definition isblank (c : Z) : bool := (c =? 32) || (c =? 9).
Definition isalnum (c : Z) : bool :=
  isdigit c || ((65 <=? c) && (c <=? 90)) || ((97 <=? c) && (c <=? 122)).

Definition is_node_ident (c : Z) : bool := isalnum c || (c =? 95) || (c =? 45).

Definition is_meta_ident (c : Z) : bool :=
  isalnum c || (c =? 95) || (c =? 47) || (c =? 124) || (c =? 58) || (c =? 46) || (c =? 45).

Definition is_component_ident (c : Z) : bool := isalnum c || (c =? 95) || (c =? 47) || (c =? 45).

(** while (p(peek(s))) next(s), for a [p] that is false on 0; [r] is the
    unread input. *)
Fixpoint skip_while (p : Z -> bool) (r : list Z) (s : sol_fbp_scanner) : sol_fbp_scanner :=
  match r with
  | c :: r' => if p c then skip_while p r' (advance s) else s
  | [] => s
  end.

Definition skip (p : Z -> bool) (s : sol_fbp_scanner) : sol_fbp_scanner := skip_while p (rest s) s.

(** ** State functions *)

Abbreviation result := (option state * sol_fbp_scanner)%type.

Definition error_state (s : sol_fbp_scanner) : result := (None, set_token s T_ERROR).

Definition space_state (s : sol_fbp_scanner) : result :=
  (Some S_default, ignore (skip isblank s)).

Definition comment_state (s : sol_fbp_scanner) : result :=
  (Some S_default, skip (fun c => negb (c =? 10) && negb (c =? 0)) s).

Definition carriage_return_state (s : sol_fbp_scanner) : result :=
  let s := advance s in
  if negb (peek s =? 10) then (Some S_error, s) else (Some S_default, s).

Definition arrow_state (s : sol_fbp_scanner) : result :=
  let s := advance s in
  let '(c, s) := next s in
  if negb (c =? 62) then (Some S_error, s)
  else (Some S_default, set_token s T_ARROW).

(** One separator character, then the next state. *)
Definition expect (c : Z) (ty : sol_fbp_token_type) (st : state) (s : sol_fbp_scanner) : result :=
  let '(d, s) := next s in
  if negb (d =? c) then (Some S_error, s) else (Some st, set_token s ty).

(** A run of identifier characters, possibly empty, then the next state. *)
Definition ident (p : Z -> bool) (ty : sol_fbp_token_type) (st : state) (s : sol_fbp_scanner) : result :=
  (Some st, set_token (skip p s) ty).

(** One character that is the token. *)
Definition punct (ty : sol_fbp_token_type) (st : state) (s : sol_fbp_scanner) : result :=
  (Some st, set_token (advance s) ty).

Definition export_ident_state := ident is_node_ident T_IDENTIFIER S_export.

Definition export_port_index_state := ident isdigit T_INTEGER S_export_port_array.

Definition export_port_array_state (s : sol_fbp_scanner) : result :=
  let c := peek s in
  if c =? 93 then punct T_BRACKET_CLOSE S_export s
  else if isdigit c then (Some S_export_port_index, s) else (Some S_error, s).

(** ',', ' ', newline, carriage return, tab, '#' and the end. *)
Definition ends_statement (c : Z) : bool :=
  (c =? 44) || (c =? 32) || (c =? 10) || (c =? 13) || (c =? 9) || (c =? 35) || (c =? 0).

Definition export_state (s : sol_fbp_scanner) : result :=
  let c := peek s in
  if c =? 46 then punct T_DOT S_export_ident s
  else if c =? 58 then punct T_COLON S_export_ident s
  else if c =? 91 then punct T_BRACKET_OPEN S_export_port_array s
  else if ends_statement c then (Some S_default, s)
  else (Some S_error, s).

Definition inport_equal_state := expect 61 T_EQUAL S_export_ident.

Definition inport_state (s : sol_fbp_scanner) : result :=
  (Some S_inport_equal, set_token s T_INPORT_KEYWORD).

Definition outport_equal_state := expect 61 T_EQUAL S_export_ident.

Definition outport_state (s : sol_fbp_scanner) : result :=
  (Some S_outport_equal, set_token s T_OUTPORT_KEYWORD).

Definition declare_end_state (s : sol_fbp_scanner) : result :=
  if ends_statement (peek s) then (Some S_default, s) else (Some S_error, advance s).

Definition declare_contents_state (s : sol_fbp_scanner) : result :=
  ident (fun c => negb (c =? 10) && negb (c =? 0) && negb (c =? 44)) T_IDENTIFIER S_declare_end s.

Definition declare_second_sep_state := expect 58 T_COLON S_declare_contents.

Definition declare_metatype_state := ident is_node_ident T_IDENTIFIER S_declare_second_sep.

Definition declare_first_sep_state := expect 58 T_COLON S_declare_metatype.

Definition declare_name_state := ident is_node_ident T_IDENTIFIER S_declare_first_sep.

Definition declare_equal_state := expect 61 T_EQUAL S_declare_name.

Definition declare_state (s : sol_fbp_scanner) : result :=
  (Some S_declare_equal, set_token s T_DECLARE_KEYWORD).

Definition option_end_state (s : sol_fbp_scanner) : result :=
  if ends_statement (peek s) then (Some S_default, s) else (Some S_error, advance s).

Definition option_name_state := ident is_node_ident T_IDENTIFIER S_option_end.

Definition option_second_sep_state := expect 58 T_COLON S_option_name.

Definition option_node_option_state := ident is_node_ident T_IDENTIFIER S_option_second_sep.

Definition option_first_sep_state := expect 46 T_DOT S_option_node_option.

Definition option_node_name_state := ident is_node_ident T_IDENTIFIER S_option_first_sep.

Definition option_equal_state := expect 61 T_EQUAL S_option_node_name.

Definition option_state (s : sol_fbp_scanner) : result :=
  (Some S_option_equal, set_token s T_OPTION_KEYWORD).

Definition keyword_table : list (StrTable.str_table state) :=
  let entry k st := StrTable.Item (Some k) (blen k) st in
  [ entry [73; 78; 80; 79; 82; 84] S_inport;
    entry [79; 85; 84; 80; 79; 82; 84] S_outport;
    entry [68; 69; 67; 76; 65; 82; 69] S_declare;
    entry [79; 80; 84; 73; 79; 78] S_option;
    StrTable.Item None 0 S_default ].

Definition identifier_state (s : sol_fbp_scanner) : result :=
  (Some S_default, set_token s T_IDENTIFIER).

(** [input] is the whole input, which the token's pointers refer to. *)
Definition identifier_or_keyword_state (input : list Z) (s : sol_fbp_scanner) : outcome result :=
  let s := skip is_node_ident s in
  identifier ← mem_load input (start (token s)) (end_ (token s) - start (token s));
  '(next_state, _) ← StrTable.sol_str_table_ptr_lookup_fallback (Some keyword_table) identifier S_identifier;
  Ret (Some next_state, s).

Definition port_index_state := ident isdigit T_INTEGER S_port_array.

Definition port_array_state (s : sol_fbp_scanner) : result :=
  let c := peek s in
  if c =? 93 then punct T_BRACKET_CLOSE S_default s
  else if isdigit c then (Some S_port_index, s) else (Some S_error, s).

(** The characters that may follow a backslash: a b f n r t v, backslash
    and the two quotes. *)
Definition is_escape (c : Z) : bool :=
  (c =? 97) || (c =? 98) || (c =? 102) || (c =? 110) || (c =? 114) || (c =? 116)
  || (c =? 118) || (c =? 92) || (c =? 34) || (c =? 39).

(** string_state, with the calls of string_escape_state and
    string_end_state; [r] is the unread input. *)
Fixpoint string_state (r : list Z) (s : sol_fbp_scanner) : result :=
  match r with
  | [] => (Some S_error, s)
  | c :: r =>
      if c =? 92 then
        let s := advance s in
        match r with
        | [] => (Some S_error, s)
        | e :: r => if is_escape e then string_state r (advance s) else (Some S_error, s)
        end
      else if c =? 34 then punct T_STRING S_meta s
      else if (c =? 0) || (c =? 10) || (c =? 13) then (Some S_error, s)
      else string_state r (advance s)
  end.

Definition string_start_state (s : sol_fbp_scanner) : result :=
  if peek s =? 34 then let s := advance s in string_state (rest s) s
  else (Some S_error, s).

Definition meta_item_state := ident is_meta_ident T_IDENTIFIER S_meta.

Definition meta_state (s : sol_fbp_scanner) : result :=
  let c := peek s in
  if c =? 58 then punct T_COLON S_meta s
  else if c =? 41 then punct T_PAREN_CLOSE S_default s
  else if c =? 61 then punct T_EQUAL S_meta s
  else if c =? 44 then punct T_COMMA S_meta s
  else if (c =? 32) || (c =? 9) || (c =? 10) || (c =? 13) then (Some S_meta, ignore (advance s))
  else if c =? 34 then (Some S_string_start, s)
  else if is_meta_ident c then (Some S_meta_item, s)
  else (Some S_error, s).

Definition component_state := ident is_component_ident T_IDENTIFIER S_meta.

Definition default_state (s : sol_fbp_scanner) : result :=
  let c := peek s in
  if c =? 0 then (None, set_token s T_EOF)
  else if (c =? 32) || (c =? 9) then (Some S_space, s)
  else if c =? 13 then (Some S_carriage_return, s)
  else if c =? 35 then (Some S_comment, s)
  else if c =? 45 then (Some S_arrow, s)
  else if (c =? 10) || (c =? 44) then punct T_STMT_SEPARATOR S_default s
  else if c =? 40 then punct T_PAREN_OPEN S_component s
  else if c =? 91 then punct T_BRACKET_OPEN S_port_array s
  else if is_node_ident c then (Some S_identifier_or_keyword, s)
  else (Some S_error, s).

(** ** Running the machine *)

Definition call_state (input : list Z) (st : state) (s : sol_fbp_scanner) : outcome result :=
  match st with
  | S_identifier_or_keyword => identifier_or_keyword_state input s
  | S_default => Ret (default_state s)
  | S_space => Ret (space_state s)
  | S_comment => Ret (comment_state s)
  | S_carriage_return => Ret (carriage_return_state s)
  | S_arrow => Ret (arrow_state s)
  | S_error => Ret (error_state s)
  | S_export_ident => Ret (export_ident_state s)
  | S_export_port_index => Ret (export_port_index_state s)
  | S_export_port_array => Ret (export_port_array_state s)
  | S_export => Ret (export_state s)
  | S_inport_equal => Ret (inport_equal_state s)
  | S_inport => Ret (inport_state s)
  | S_outport_equal => Ret (outport_equal_state s)
  | S_outport => Ret (outport_state s)
  | S_declare_end => Ret (declare_end_state s)
  | S_declare_contents => Ret (declare_contents_state s)
  | S_declare_second_sep => Ret (declare_second_sep_state s)
  | S_declare_metatype => Ret (declare_metatype_state s)
  | S_declare_first_sep => Ret (declare_first_sep_state s)
  | S_declare_name => Ret (declare_name_state s)
  | S_declare_equal => Ret (declare_equal_state s)
  | S_declare => Ret (declare_state s)
  | S_option_end => Ret (option_end_state s)
  | S_option_name => Ret (option_name_state s)
  | S_option_second_sep => Ret (option_second_sep_state s)
  | S_option_node_option => Ret (option_node_option_state s)
  | S_option_first_sep => Ret (option_first_sep_state s)
  | S_option_node_name => Ret (option_node_name_state s)
  | S_option_equal => Ret (option_equal_state s)
  | S_option => Ret (option_state s)
  | S_identifier => Ret (identifier_state s)
  | S_port_index => Ret (port_index_state s)
  | S_port_array => Ret (port_array_state s)
  | S_string_start => Ret (string_start_state s)
  | S_meta_item => Ret (meta_item_state s)
  | S_meta => Ret (meta_state s)
  | S_component => Ret (component_state s)
  end.

(** do { s->state = s->state(s); } while (s->token.type == NONE); calling
    NULL, or not ending in [fuel] rounds, is undefined. *)
Fixpoint scan_loop (input : list Z) (fuel : nat) (s : sol_fbp_scanner) : outcome sol_fbp_scanner :=
  match fuel, sstate s with
  | S fuel, Some st =>
      '(st, s) ← call_state input st s;
      let s := set_state s st in
      if decide (type (token s) = T_NONE) then scan_loop input fuel s else Ret s
  | _, _ => UB
  end.

(** Eight rounds per unread character are more than a token takes. *)
Definition scan_fuel (s : sol_fbp_scanner) : nat := 8 * length (rest s) + 8.

Definition sol_fbp_scan_token (input : list Z) (s : sol_fbp_scanner) : outcome sol_fbp_scanner :=
  if bool_decide (type (token s) = T_EOF \/ type (token s) = T_ERROR) then Ret s
  else
    let t := token s in
    let s := {| rest := rest s;
                token := {| type := type t; start := end_ t; end_ := end_ t;
                            line := line t; column := column t |};
                sstate := sstate s; start_pos := cur_pos s; cur_pos := cur_pos s |} in
    scan_loop input (scan_fuel s) (set_token s T_NONE).

(** The loop of a client: scan until the input ends or fails. *)
Fixpoint scan_all (input : list Z) (fuel : nat) (s : sol_fbp_scanner) : outcome (list sol_fbp_token) :=
  match fuel with
  | O => UB
  | S fuel =>
      s ← sol_fbp_scan_token input s;
      if bool_decide (type (token s) = T_EOF \/ type (token s) = T_ERROR) then Ret [token s]
      else more ← scan_all input fuel s; Ret (token s :: more)
  end.

(** ** Positions *)

(** The line a position is on, and its column, after the characters [l]. *)
Definition line_after (l : list Z) : Z := wrapu 32 (1 + blen (filter (fun c => c = 10) l)).

Fixpoint since_newline (l : list Z) (n : Z) : Z :=
  match l with
  | [] => n
  | c :: l => since_newline l (if c =? 10 then 0 else n + 1)
  end.

Definition column_after (l : list Z) : Z := wrapu 32 (1 + since_newline l 0).

Definition pos_after (l : list Z) : Z * Z := (line_after l, column_after l).

Lemma wrapu_succ x : wrapu 32 (wrapu 32 x + 1) = wrapu 32 (x + 1).
Proof. unfold wrapu. by rewrite Zplus_mod_idemp_l. Qed.

Lemma since_newline_snoc l c n :
  since_newline (l ++ [c]) n = if c =? 10 then 0 else since_newline l n + 1.
Proof. revert n. induction l as [|d l IH]; intros n; [done|]. apply IH. Qed.

Lemma pos_after_snoc l c : pos_after (l ++ [c]) = pos_step (pos_after l) c.
Proof.
  unfold pos_after, pos_step, line_after, column_after. cbn [fst snd].
  rewrite since_newline_snoc, filter_app, blen_app, !wrapu_succ.
  destruct (Z.eqb_spec c 10) as [->|Hc].
  - f_equal. by rewrite Z.add_assoc.
  - rewrite filter_cons_False, filter_nil, blen_nil by done. f_equal; f_equal; lia.
Qed.

(** ** Where the scanner is

    [at_input input b t s]: the token starts behind [b], its text so far is
    [t], the rest is unread, and the positions are those of [b] and [b ++ t]. *)
Record at_input (input b t : list Z) (s : sol_fbp_scanner) : Prop := {
  at_split : input = b ++ t ++ rest s;
  at_start : start (token s) = blen b;
  at_end : end_ (token s) = blen (b ++ t);
  at_start_pos : start_pos s = pos_after b;
  at_cur_pos : cur_pos s = pos_after (b ++ t)
}.

Lemma at_advance input b t s c r :
  at_input input b t s -> rest s = c :: r ->
  at_input input b (t ++ [c]) (advance s) /\ rest (advance s) = r
  /\ type (token (advance s)) = type (token s) /\ (next s).1 = c.
Proof.
  intros [Hi Hs He Hsp Hcp] Hr. unfold advance, next. rewrite Hr. cbn.
  split; [|done]. rewrite Hr in Hi. split; cbn; try done.
  - by rewrite <- app_assoc.
  - rewrite He, !blen_app, blen_cons, blen_nil. lia.
  - by rewrite Hcp, app_assoc, pos_after_snoc.
Qed.

Lemma at_set_token input b t s ty : at_input input b t s -> at_input input b t (set_token s ty).
Proof. by intros []. Qed.

Lemma at_ignore input b t s : at_input input b t s -> at_input input (b ++ t) [] (ignore s).
Proof. intros []. split; cbn; rewrite ?app_nil_r; try done. by rewrite <- app_assoc. Qed.

Lemma at_skip p input b t s :
  at_input input b t s ->
  exists u, rest s = u ++ rest (skip p s) /\ Forall (fun c => p c = true) u
    /\ (forall c, head (rest (skip p s)) = Some c -> p c = false)
    /\ at_input input b (t ++ u) (skip p s)
    /\ type (token (skip p s)) = type (token s).
Proof.
  unfold skip. remember (rest s) as r eqn:Hr. symmetry in Hr.
  revert t s Hr. induction r as [|c r IH]; intros t s Hr Hat; cbn [skip_while].
  - exists []. rewrite Hr, (app_nil_r t). split_and!; [done|apply Forall_nil_2|done|done|done].
  - destruct (p c) eqn:Hp.
    + destruct (at_advance _ _ _ _ _ _ Hat Hr) as (Hat' & Hr' & Hty & _).
      destruct (IH _ _ Hr' Hat') as (u & Hu & Hall & Hhead & Hat'' & Hty').
      exists (c :: u). rewrite <- app_assoc in Hat''.
      split_and!; [cbn [app]; by rewrite <- Hu|by apply Forall_cons_2|done|done|congruence].
    + exists []. rewrite (app_nil_r t). split_and!; [done|apply Forall_nil_2| |done|done].
      rewrite Hr. by intros ? [= <-].
Qed.

(** ** What tokens look like *)

Definition is_space (c : Z) : Prop := c = 32 \/ c = 9 \/ c = 10 \/ c = 13.

Definition comment (t : list Z) : Prop :=
  exists c, t = 35 :: c /\ Forall (fun x => x <> 10 /\ x <> 0) c.

(** The inside of a string literal. *)
Inductive string_body : list Z -> Prop :=
| body_end : string_body []
| body_char c l : c <> 34 -> c <> 92 -> c <> 0 -> c <> 10 -> c <> 13 ->
    string_body l -> string_body (c :: l)
| body_escape e l : is_escape e = true -> string_body l -> string_body (92 :: e :: l).

Definition lexeme (ty : sol_fbp_token_type) (t : list Z) : Prop :=
  match ty with
  | T_NONE => False
  | T_ERROR => True
  | T_EOF => t = [] \/ comment t
  | T_ARROW => t = [45; 62]
  | T_BRACKET_CLOSE => t = [93]
  | T_BRACKET_OPEN => t = [91]
  | T_COLON => t = [58]
  | T_COMMA => t = [44]
  | T_DOT => t = [46]
  | T_EQUAL => t = [61]
  | T_PAREN_CLOSE => t = [41]
  | T_PAREN_OPEN => t = [40]
  | T_IDENTIFIER => Forall (fun c => c <> 10 /\ c <> 0 /\ c <> 44) t
  | T_INTEGER => t <> [] /\ Forall (fun c => 48 <= c <= 57) t
  | T_INPORT_KEYWORD => t = [73; 78; 80; 79; 82; 84]
  | T_OUTPORT_KEYWORD => t = [79; 85; 84; 80; 79; 82; 84]
  | T_DECLARE_KEYWORD => t = [68; 69; 67; 76; 65; 82; 69]
  | T_OPTION_KEYWORD => t = [79; 80; 84; 73; 79; 78]
  | T_STMT_SEPARATOR =>
      t = [44] \/ exists u, t = u ++ [10] /\ (u = [] \/ u = [13] \/ comment u)
  | T_STRING => exists u, t = [34] ++ u ++ [34] /\ string_body u
  end.

Definition next_is (p : Z -> bool) (r : list Z) : Prop := exists c r', r = c :: r' /\ p c = true.

(** What holds when a state function is called: the text read so far and
    the next character. *)
Definition entry (st : state) (t r : list Z) : Prop :=
  match st with
  | S_error => True
  | S_default =>
      t = [] \/ (t = [13] /\ next_is (Z.eqb 10) r)
      \/ (comment t /\ (r = [] \/ next_is (fun c => (c =? 10) || (c =? 0)) r))
  | S_space => t = [] /\ next_is isblank r
  | S_comment => t = [] /\ next_is (Z.eqb 35) r
  | S_carriage_return => t = [] /\ next_is (Z.eqb 13) r
  | S_arrow => t = [] /\ next_is (Z.eqb 45) r
  | S_identifier_or_keyword => t = [] /\ next_is is_node_ident r
  | S_identifier => Forall (fun c => is_node_ident c = true) t
  | S_inport => t = [73; 78; 80; 79; 82; 84]
  | S_outport => t = [79; 85; 84; 80; 79; 82; 84]
  | S_declare => t = [68; 69; 67; 76; 65; 82; 69]
  | S_option => t = [79; 80; 84; 73; 79; 78]
  | S_export_port_index | S_port_index => t = [] /\ next_is isdigit r
  | S_meta_item => t = [] /\ next_is is_meta_ident r
  | S_string_start => t = [] /\ next_is (Z.eqb 34) r
  | _ => t = []
  end.

(** Rounds left that read nothing, at most 7. *)
Definition rank (st : state) : nat :=
  match st with
  | S_declare_metatype | S_declare_name => 3
  | S_declare_contents | S_option_name | S_export_ident => 3
  | S_identifier | S_inport | S_outport | S_declare | S_option => 2
  | S_option_node_option | S_option_node_name => 3
  | S_export | S_export_port_array | S_port_array | S_declare_end | S_option_end | S_component => 2
  | S_default | S_export_port_index | S_port_index | S_meta
  | S_inport_equal | S_outport_equal | S_declare_equal | S_option_equal
  | S_declare_second_sep | S_declare_first_sep
  | S_option_second_sep | S_option_first_sep => 1
  | _ => 0
  end.

Definition measure (st : state) (s : sol_fbp_scanner) : nat := 8 * length (rest s) + rank st.

(** The result of one round that started with [m] rounds to go. *)
Definition good (input b : list Z) (m : nat) (res : result) : Prop :=
  let '(st, s) := res in
  exists g t, Forall is_space g /\ at_input input (b ++ g) t s
    /\ (forall st', st = Some st' -> (measure st' s < m)%nat)
    /\ if decide (type (token s) = T_NONE) then
         exists st', st = Some st' /\ entry st' t (rest s)
       else lexeme (type (token s)) t
         /\ (line (token s), column (token s)) = pos_after (b ++ g)
         /\ match st with
            | Some st' => entry st' [] (rest s) /\ type (token s) <> T_EOF /\ type (token s) <> T_ERROR
            | None => type (token s) = T_EOF /\ peek s = 0 \/ type (token s) = T_ERROR
            end.

(** ** The shapes states have *)

Section Rounds.
Context (input b : list Z) (s : sol_fbp_scanner).

Lemma good_goto t st m :
  at_input input b t s -> type (token s) = T_NONE -> entry st t (rest s) ->
  (measure st s < m)%nat -> good input b m (Some st, s).
Proof.
  intros Hat Hty He Hm. exists [], t. rewrite app_nil_r. rewrite decide_True by done.
  split_and!; [constructor|done|by intros ? [= <-]|by exists st].
Qed.

Lemma good_error t m :
  at_input input b t s -> type (token s) = T_NONE -> (0 < m - 8 * length (rest s))%nat ->
  good input b m (Some S_error, s).
Proof. intros Hat Hty Hm. eapply good_goto; [done|done|done|]. unfold measure. simpl. lia. Qed.

(** The token [t] is complete. *)
Lemma good_token t ty st m :
  at_input input b t s -> ty <> T_NONE -> lexeme ty t -> entry st [] (rest s) ->
  ty <> T_EOF -> ty <> T_ERROR -> (measure st s < m)%nat ->
  good input b m (Some st, set_token s ty).
Proof.
  intros Hat Hty Hlex He Heof Herr Hm. exists [], t. rewrite app_nil_r.
  cbn [token set_token type]. rewrite decide_False by done.
  split_and!; [constructor|by apply at_set_token|by intros ? [= <-]|done| |done|done|done].
  cbn. by rewrite <- surjective_pairing, (at_start_pos _ _ _ _ Hat).
Qed.

Lemma good_stop t ty m :
  at_input input b t s -> lexeme ty t -> ty = T_EOF /\ peek s = 0 \/ ty = T_ERROR ->
  good input b m (None, set_token s ty).
Proof.
  intros Hat Hlex Hty. exists [], t. rewrite app_nil_r. cbn [token set_token type].
  rewrite decide_False by (destruct Hty as [[-> _]| ->]; done).
  split_and!; [constructor|by apply at_set_token|done|done| |done].
  cbn. by rewrite <- surjective_pairing, (at_start_pos _ _ _ _ Hat).
Qed.

Lemma peek_spec : peek s = default 0 (head (rest s)).
Proof. unfold peek. by destruct (rest s). Qed.

Lemma peek_cons c : peek s = c -> c <> 0 -> exists r, rest s = c :: r.
Proof. unfold peek. destruct (rest s) as [|d r]; [congruence|]. intros ->. eauto. Qed.
End Rounds.

Lemma good_punct input b s c ty st m :
  at_input input b [] s -> peek s = c -> c <> 0 -> lexeme ty [c] ->
  ty <> T_EOF -> ty <> T_ERROR -> (forall r, entry st [] r) ->
  (8 * length (rest s) <= m)%nat ->
  good input b m (punct ty st s).
Proof.
  intros Hat Hc Hnz Hlex H1 H2 He Hm. destruct (peek_cons s c Hc Hnz) as [r Hr].
  destruct (at_advance _ _ _ _ _ _ Hat Hr) as (Hat' & Hr' & _ & _). unfold punct.
  eapply (good_token _ _ _ [c]); try done; [by intros ->| ].
  unfold measure. rewrite Hr'. rewrite Hr in Hm. simpl in Hm.
  assert (rank st <= 7)%nat by (destruct st; simpl; lia). lia.
Qed.

Lemma good_expect input b s c ty st m :
  at_input input b [] s -> type (token s) = T_NONE -> c <> 0 -> lexeme ty [c] ->
  ty <> T_EOF -> ty <> T_ERROR -> (forall r, entry st [] r) ->
  (8 * length (rest s) < m)%nat ->
  good input b m (expect c ty st s).
Proof.
  intros Hat Hty Hnz Hlex H1 H2 He Hm. unfold expect, next.
  destruct (rest s) as [|d r] eqn:Hr.
  - cbv iota beta. rewrite (proj2 (Z.eqb_neq 0 c)) by lia. cbn [negb].
    eapply good_error; [done|done|]. rewrite Hr. simpl in *. lia.
  - destruct (at_advance _ _ _ _ _ _ Hat Hr) as (Hat' & Hr' & Hty' & _).
    unfold advance, next in Hat', Hr', Hty'. rewrite Hr in Hat', Hr', Hty'. cbn [snd] in *.
    destruct (Z.eqb_spec d c) as [->|]; cbn [negb].
    + eapply (good_token _ _ _ [c]); try done; [by intros ->|].
      unfold measure. rewrite Hr'. simpl in Hm.
      assert (rank st <= 7)%nat by (destruct st; simpl; lia). lia.
    + eapply good_error; [done|congruence|]. rewrite Hr'. simpl in Hm. lia.
Qed.

Lemma good_ident input b p s ty st m :
  at_input input b [] s ->
  (forall u, Forall (fun c => p c = true) u -> (u <> [] \/ ~ next_is p (rest s)) -> lexeme ty u) ->
  ty <> T_NONE -> ty <> T_EOF -> ty <> T_ERROR -> (forall r, entry st [] r) ->
  (next_is p (rest s) /\ (8 * length (rest s) <= m)%nat
   \/ (8 * length (rest s) + rank st < m)%nat) ->
  good input b m (ident p ty st s).
Proof.
  intros Hat Hlex H1 H2 H3 He Hm.
  destruct (at_skip p _ _ _ _ Hat) as (u & Hu & Hall & Hhead & Hat' & Hty).
  assert (u <> [] \/ ~ next_is p (rest s)) as Hne.
  { destruct u; [right|by left]. intros (c & r & Hr & Hp). simpl in Hu.
    rewrite Hr in Hu. rewrite <- Hu in Hhead. by rewrite (Hhead c eq_refl) in Hp. }
  unfold ident. eapply (good_token _ _ _ u); try done; [by apply Hlex|].
  unfold measure. assert (length (rest s) = length u + length (rest (skip p s)))%nat as Hl
    by (rewrite Hu at 1; apply length_app).
  assert (rank st <= 7)%nat by (destruct st; simpl; lia).
  destruct Hm as [[Hn Hm]|Hm]; [|lia].
  destruct Hne as [Hne|]; [|done]. destruct u; [done|]. simpl in Hl. lia.
Qed.

(** ** Every state keeps the invariant and makes progress *)

Lemma next_is_peek p s : next_is p (rest s) <-> rest s <> [] /\ p (peek s) = true.
Proof.
  unfold next_is, peek. destruct (rest s) as [|c r]; split.
  - by intros (? & ? & ? & ?).
  - by intros [? _].
  - intros (? & ? & [= -> ->] & ?). by split.
  - intros [_ ?]. by exists c, r.
Qed.

Lemma peek_rest s : peek s <> 0 -> rest s <> [].
Proof. unfold peek. by destruct (rest s). Qed.

Lemma default_text s t : entry S_default t (rest s) -> peek s <> 0 -> peek s <> 10 -> t = [].
Proof.
  intros [->|[[-> (c & r & Hr & Hc)]|[_ [Hr|(c & r & Hr & Hc)]]]] H0 H10; [done|..];
    unfold peek in *; rewrite Hr in *; [|done|].
  - apply Z.eqb_eq in Hc. congruence.
  - apply orb_true_iff in Hc as [Hc|Hc]; apply Z.eqb_eq in Hc; congruence.
Qed.

Lemma node_ident_plain c : is_node_ident c = true -> c <> 10 /\ c <> 0 /\ c <> 44.
Proof. unfold is_node_ident, isalnum, isdigit. intros H. split_and!; intros ->; done. Qed.

Lemma meta_ident_plain c : is_meta_ident c = true -> c <> 10 /\ c <> 0 /\ c <> 44.
Proof. unfold is_meta_ident, isalnum, isdigit. intros H. split_and!; intros ->; done. Qed.

Lemma component_ident_plain c : is_component_ident c = true -> c <> 10 /\ c <> 0 /\ c <> 44.
Proof. unfold is_component_ident, isalnum, isdigit. intros H. split_and!; intros ->; done. Qed.

Lemma plain_lexeme p : (forall c, p c = true -> c <> 10 /\ c <> 0 /\ c <> 44) ->
  forall u, Forall (fun c => p c = true) u -> lexeme T_IDENTIFIER u.
Proof. intros Hp u Hu. eapply Forall_impl; [exact Hu|exact Hp]. Qed.

Lemma digits_lexeme u : Forall (fun c => isdigit c = true) u -> u <> [] -> lexeme T_INTEGER u.
Proof.
  intros Hu Hne. split; [done|]. eapply Forall_impl; [exact Hu|].
  intros c. unfold isdigit. intros [??]%andb_true_iff. lia.
Qed.

(** Case analysis on the next test of a state function. *)
Ltac bcase E :=
  match goal with
  | |- context [if ?c then _ else _] => destruct c eqn:E
  end.

Section States.
Context (input b : list Z).

Lemma default_good t s :
  at_input input b t s -> type (token s) = T_NONE -> entry S_default t (rest s) ->
  good input b (measure S_default s) (default_state s).
Proof.
  intros Hat Hty He. unfold default_state.
  assert (measure S_default s = 8 * length (rest s) + 1)%nat as -> by done.
  destruct (Z.eqb_spec (peek s) 0) as [H0|H0].
  { eapply good_stop; [exact Hat| |by left].
    destruct He as [->|[[-> (c & r & Hr & Hc)]|[Hc _]]]; [by left| |by right].
    unfold peek in H0. rewrite Hr in H0. subst. done. }
  pose proof (peek_rest _ H0) as Hne.
  assert (forall st, peek s <> 10 -> rank st = 0%nat -> entry st [] (rest s) ->
    good input b (8 * length (rest s) + 1) (Some st, s)) as Hgo.
  { intros st H10 Hr Hst. rewrite (default_text s t He H0 H10) in Hat.
    eapply good_goto; [exact Hat|done|done|]. unfold measure. lia. }
  assert (forall c ty st, peek s = c -> c <> 0 -> c <> 10 -> lexeme ty [c] -> ty <> T_EOF ->
    ty <> T_ERROR -> (forall r, entry st [] r) ->
    good input b (8 * length (rest s) + 1) (punct ty st s)) as Hpunct.
  { intros c ty st Hc Hc0 Hc10 Hl H1 H2 Hst.
    rewrite (default_text s t He) in Hat by congruence.
    eapply good_punct; [exact Hat|exact Hc|done..|lia]. }
  assert (forall p, p (peek s) = true -> next_is p (rest s)) as Hn by (intros; by apply next_is_peek).
  bcase E; [apply Hgo; [lia|done|]; split; [done|]; apply Hn; unfold isblank; lia|].
  bcase E13; [apply Hgo; [lia|done|]; split; [done|]; apply Hn; lia|].
  bcase E35; [apply Hgo; [lia|done|]; split; [done|]; apply Hn; lia|].
  bcase E45; [apply Hgo; [lia|done|]; split; [done|]; apply Hn; lia|].
  bcase Esep.
  { destruct (Z.eqb_spec (peek s) 44) as [H44|H44].
    { eapply Hpunct; first [exact H44|done|by left]. }
    assert (peek s = 10) as H10 by lia.
    destruct (peek_cons s 10 H10 ltac:(done)) as [r Hr].
    destruct (at_advance _ _ _ _ _ _ Hat Hr) as (Hat' & Hr' & _ & _).
    eapply good_token; [exact Hat'|done| |by left|done|done|].
    - right. exists t. split; [done|]. destruct He as [->|[[-> _]|[Hc _]]]; eauto.
    - unfold measure. rewrite Hr', Hr. simpl. lia. }
  bcase E40; [eapply (Hpunct 40); first [lia|done]|].
  bcase E91; [eapply (Hpunct 91); first [lia|done]|].
  bcase Ei; [apply Hgo; [lia|done|]; split; [done|]; by apply Hn|].
  rewrite (default_text s t He) in Hat by lia.
  eapply good_error; [exact Hat|done|lia].
Qed.

Lemma space_good t s :
  at_input input b t s -> type (token s) = T_NONE -> entry S_space t (rest s) ->
  good input b (measure S_space s) (space_state s).
Proof.
  intros Hat Hty [-> (c & r & Hr & Hc)]. unfold space_state.
  destruct (at_skip isblank _ _ _ _ Hat) as (u & Hu & Hall & Hhead & Hat' & Hty').
  exists u, []. split_and!.
  - eapply Forall_impl; [exact Hall|]. intros x. unfold isblank, is_space. lia.
  - by apply at_ignore in Hat'.
  - intros ? [= <-]. unfold measure. cbn [rest ignore rank].
    assert (length (rest s) = length u + length (rest (skip isblank s)))%nat as Hl
      by (rewrite Hu at 1; apply length_app).
    destruct u; [|simpl in Hl; lia]. simpl in Hu. rewrite Hr in Hu. rewrite <- Hu in Hhead.
    by rewrite (Hhead c eq_refl) in Hc.
  - cbn [token ignore type]. rewrite decide_True by congruence. exists S_default.
    split; [done|by left].
Qed.

Lemma comment_good t s :
  at_input input b t s -> type (token s) = T_NONE -> entry S_comment t (rest s) ->
  good input b (measure S_comment s) (comment_state s).
Proof.
  intros Hat Hty [-> (c & r & Hr & Hc)]. unfold comment_state.
  set (p := fun c => _). assert (p c = true) as Hp by (subst p; apply Z.eqb_eq in Hc; by subst).
  destruct (at_skip p _ _ _ _ Hat) as (u & Hu & Hall & Hhead & Hat' & Hty').
  destruct u as [|x u].
  { simpl in Hu. rewrite Hr in Hu. rewrite <- Hu in Hhead. by rewrite (Hhead c eq_refl) in Hp. }
  rewrite Hr in Hu. injection Hu as <- Hu.
  eapply good_goto; [exact Hat'|congruence| |].
  - right. right. split.
    + exists u. split; [apply Z.eqb_eq in Hc; by subst|].
      apply Forall_cons_1 in Hall as [_ Hall]. eapply Forall_impl; [exact Hall|].
      intros y. subst p. cbn. lia.
    + destruct (rest (skip p s)) as [|y r'] eqn:E; [by left|right]. exists y, r'. split; [done|].
      specialize (Hhead y eq_refl). subst p. cbn in Hhead. lia.
  - unfold measure. rewrite Hr. cbn [length rank]. rewrite Hu, length_app. lia.
Qed.

Lemma carriage_return_good t s :
  at_input input b t s -> type (token s) = T_NONE -> entry S_carriage_return t (rest s) ->
  good input b (measure S_carriage_return s) (carriage_return_state s).
Proof.
  intros Hat Hty [-> (c & r & Hr & Hc)]. unfold carriage_return_state.
  destruct (at_advance _ _ _ _ _ _ Hat Hr) as (Hat' & Hr' & Hty' & _).
  bcase E.
  - eapply good_error; [exact Hat'|congruence|]. unfold measure. rewrite Hr, Hr'. simpl. lia.
  - eapply good_goto; [exact Hat'|congruence| |].
    + right. left. split; [apply Z.eqb_eq in Hc; by subst|].
      apply next_is_peek. split; [apply peek_rest|]; lia.
    + unfold measure. rewrite Hr, Hr'. simpl. lia.
Qed.

Lemma arrow_good t s :
  at_input input b t s -> type (token s) = T_NONE -> entry S_arrow t (rest s) ->
  good input b (measure S_arrow s) (arrow_state s).
Proof.
  intros Hat Hty [-> (c & r & Hr & Hc)]. apply Z.eqb_eq in Hc. subst c. unfold arrow_state.
  destruct (at_advance _ _ _ _ _ _ Hat Hr) as (Hat' & Hr' & Hty' & _).
  destruct (next (advance s)) as [d s'] eqn:En.
  assert (s' = advance (advance s)) as -> by (unfold advance at 1; by rewrite En).
  destruct r as [|e r].
  - unfold next in En. rewrite Hr' in En. injection En as <- <-. cbn [negb Z.eqb Pos.eqb].
    eapply good_error; [exact Hat'|congruence|]. unfold measure. rewrite Hr, Hr'. simpl. lia.
  - destruct (at_advance _ _ _ _ _ _ Hat' Hr') as (Hat2 & Hr2 & Hty2 & Hn).
    rewrite En in Hn. cbn in Hn. subst d. bcase E.
    + eapply good_error; [exact Hat2|congruence|]. unfold measure. rewrite Hr, Hr2. simpl. lia.
    + eapply (good_token _ _ _ _ T_ARROW); [exact Hat2|done| |by left|done|done|].
      * cbn. do 2 f_equal. lia.
      * unfold measure. rewrite Hr, Hr2. simpl. lia.
Qed.

Lemma export_good t s :
  at_input input b t s -> type (token s) = T_NONE -> entry S_export t (rest s) ->
  good input b (measure S_export s) (export_state s).
Proof.
  intros Hat Hty ->. unfold export_state.
  assert (measure S_export s = 8 * length (rest s) + 2)%nat as -> by done.
  bcase E1; [eapply (good_punct _ _ _ 46); first [exact Hat|lia|done]|].
  bcase E2; [eapply (good_punct _ _ _ 58); first [exact Hat|lia|done]|].
  bcase E3; [eapply (good_punct _ _ _ 91); first [exact Hat|lia|done]|].
  bcase E4.
  - eapply good_goto; [exact Hat|done|by left|unfold measure; simpl; lia].
  - eapply good_error; [exact Hat|done|lia].
Qed.

Lemma port_array_good t s st st' :
  (forall t r, entry st t r -> t = []) -> (2 <= rank st)%nat ->
  (rank st' = 1)%nat -> (forall t r, entry st' t r <-> t = [] /\ next_is isdigit r) ->
  forall after, (forall r, entry after [] r) ->
  at_input input b t s -> type (token s) = T_NONE -> entry st t (rest s) ->
  good input b (measure st s)
    (if peek s =? 93 then punct T_BRACKET_CLOSE after s
     else if isdigit (peek s) then (Some st', s) else (Some S_error, s)).
Proof.
  intros Hst Hrk Hrk' Hst' after Hafter Hat Hty He. rewrite (Hst _ _ He) in Hat.
  unfold measure. bcase E1.
  { eapply (good_punct _ _ _ 93); first [exact Hat|exact Hafter|lia|done]. }
  bcase E2.
  - eapply good_goto; [exact Hat|done| |unfold measure; lia]. apply Hst'. split; [done|].
    apply next_is_peek. split; [|done]. apply peek_rest. intros Hz. by rewrite Hz in E2.
  - eapply good_error; [exact Hat|done|lia].
Qed.

Lemma statement_end_good t s st :
  (forall t r, entry st t r -> t = []) -> (rank st = 2)%nat ->
  at_input input b t s -> type (token s) = T_NONE -> entry st t (rest s) ->
  good input b (measure st s)
    (if ends_statement (peek s) then (Some S_default, s) else (Some S_error, advance s)).
Proof.
  intros Hst Hrk Hat Hty He. rewrite (Hst _ _ He) in Hat. unfold measure. rewrite Hrk. bcase E.
  - eapply good_goto; [exact Hat|done|by left|unfold measure; simpl; lia].
  - assert (rest s <> []) as Hne by (apply peek_rest; intros Hz; by rewrite Hz in E).
    destruct (rest s) as [|c r] eqn:Hr; [done|].
    destruct (at_advance _ _ _ _ _ _ Hat Hr) as (Hat' & Hr' & Hty' & _).
    eapply good_error; [exact Hat'|congruence|]. rewrite Hr'. simpl. lia.
Qed.

(** A string literal, from its first inner character on. *)
Lemma string_state_good m n : forall r s t,
  (length r <= n)%nat -> rest s = r -> (8 * length r + 8 <= m)%nat ->
  (forall u, string_body u -> string_body (t ++ u)) ->
  at_input input b (34 :: t) s -> type (token s) = T_NONE ->
  good input b m (string_state r s).
Proof.
  induction n as [|n IH]; intros r s t Hn Hr Hm Hbody Hat Hty.
  { destruct r; [|simpl in Hn; lia]. cbn. eapply good_error; [exact Hat|done|]. rewrite Hr. simpl. lia. }
  destruct r as [|c r]; cbn [string_state].
  { eapply good_error; [exact Hat|done|]. rewrite Hr. simpl. lia. }
  destruct (at_advance _ _ _ _ _ _ Hat Hr) as (Hat' & Hr' & Hty' & _).
  simpl in Hn, Hm. bcase E1.
  { apply Z.eqb_eq in E1. subst c. destruct r as [|e r].
    { eapply good_error; [exact Hat'|congruence|]. rewrite Hr'. simpl. lia. }
    destruct (at_advance _ _ _ _ _ _ Hat' Hr') as (Hat2 & Hr2 & Hty2 & _). bcase E2.
    - apply (IH r _ (t ++ [92; e])); try done; [simpl in Hn; lia|simpl in *; lia| | |congruence].
      + intros u Hu. rewrite <- app_assoc. apply Hbody. by apply body_escape.
      + by rewrite <- app_assoc in Hat2.
    - eapply good_error; [exact Hat'|congruence|]. rewrite Hr'. simpl in *. lia. }
  bcase E2.
  { apply Z.eqb_eq in E2. subst c. unfold punct.
    eapply (good_token _ _ _ _ T_STRING); [exact Hat'|done| |done|done|done|].
    - exists t. split; [done|]. rewrite <- (app_nil_r t). apply Hbody, body_end.
    - unfold measure. rewrite Hr'. simpl. lia. }
  bcase E3.
  { eapply good_error; [exact Hat|done|]. rewrite Hr. simpl. lia. }
  apply (IH r _ (t ++ [c])); try done; [lia|lia| |congruence].
  intros u Hu. rewrite <- app_assoc. apply Hbody, body_char; [lia..|done].
Qed.

Lemma string_start_good t s :
  at_input input b t s -> type (token s) = T_NONE -> entry S_string_start t (rest s) ->
  good input b (measure S_string_start s) (string_start_state s).
Proof.
  intros Hat Hty [-> (c & r & Hr & Hc)]. apply Z.eqb_eq in Hc. subst c. unfold string_start_state.
  destruct (at_advance _ _ _ _ _ _ Hat Hr) as (Hat' & Hr' & Hty' & _).
  unfold peek. rewrite Hr. cbn [Z.eqb Pos.eqb].
  eapply (string_state_good _ (length r) _ _ []); [by rewrite Hr'|done| |done|exact Hat'|congruence].
  unfold measure. rewrite Hr, Hr'. simpl. lia.
Qed.

Lemma meta_good t s :
  at_input input b t s -> type (token s) = T_NONE -> entry S_meta t (rest s) ->
  good input b (measure S_meta s) (meta_state s).
Proof.
  intros Hat Hty ->. unfold meta_state.
  assert (measure S_meta s = 8 * length (rest s) + 1)%nat as -> by done.
  bcase E1; [eapply (good_punct _ _ _ 58); first [exact Hat|lia|done]|].
  bcase E2; [eapply (good_punct _ _ _ 41); first [exact Hat|lia|done|by left]|].
  bcase E3; [eapply (good_punct _ _ _ 61); first [exact Hat|lia|done]|].
  bcase E4; [eapply (good_punct _ _ _ 44); first [exact Hat|lia|done]|].
  bcase E5.
  { destruct (peek_cons s (peek s) eq_refl ltac:(lia)) as [r Hr].
    destruct (at_advance _ _ _ _ _ _ Hat Hr) as (Hat' & Hr' & Hty' & _).
    exists [peek s], []. split_and!.
    - apply Forall_singleton. unfold is_space. lia.
    - by apply at_ignore in Hat'.
    - intros ? [= <-]. unfold measure. cbn [rest ignore rank]. rewrite Hr', Hr. simpl. lia.
    - cbn [token ignore type]. rewrite decide_True by congruence. by exists S_meta. }
  assert (forall p st, p (peek s) = true -> p 0 = false -> rank st = 0%nat ->
    (next_is p (rest s) -> entry st [] (rest s)) ->
    good input b (8 * length (rest s) + 1) (Some st, s)) as Hgo.
  { intros p st Hp H0 Hrk He. eapply good_goto; [exact Hat|done| |unfold measure; lia].
    apply He, next_is_peek. split; [|done].
    apply peek_rest. intros Hz. by rewrite Hz, H0 in Hp. }
  bcase E6; [apply (Hgo (Z.eqb 34)); first [done|lia]|].
  bcase E7; [by apply (Hgo is_meta_ident)|].
  eapply good_error; [exact Hat|done|lia].
Qed.

Lemma keyword_lookup u :
  Forall (fun c => is_node_ident c = true) u ->
  exists st e, StrTable.sol_str_table_ptr_lookup_fallback (Some keyword_table) u S_identifier
    = Ret (st, e) /\ (forall r, entry st u r) /\ rank st = 2%nat.
Proof.
  intros Hu.
  unfold StrTable.sol_str_table_ptr_lookup_fallback, StrTable.sol_str_table_entry_lookup.
  set (items := [([73; 78; 80; 79; 82; 84], S_inport); ([79; 85; 84; 80; 79; 82; 84], S_outport);
    ([68; 69; 67; 76; 65; 82; 69], S_declare); ([79; 80; 84; 73; 79; 78], S_option)]).
  change keyword_table with (StrProofs.table_of items (StrTable.Item None 0 S_default) []).
  rewrite StrProofs.table_iter_spec, bind_ret by done.
  destruct (StrProofs.first_entry items u) as [[k st]|] eqn:E.
  - exists st, 0. split; [done|].
    apply StrProofs.first_entry_some in E as (before & after & E & [= ->] & _).
    assert ((u, st) ∈ items) as Hin by (rewrite E; set_solver).
    unfold items in Hin. rewrite !elem_of_cons, elem_of_nil in Hin.
    by destruct Hin as [[= -> ->]|[[= -> ->]|[[= -> ->]|[[= -> ->]|[]]]]].
  - by exists S_identifier, ENOENT.
Qed.

(** The word just read, and what the keyword table says of it. *)
Lemma identifier_or_keyword_good t s :
  at_input input b t s -> type (token s) = T_NONE -> entry S_identifier_or_keyword t (rest s) ->
  exists res, identifier_or_keyword_state input s = Ret res
    /\ good input b (measure S_identifier_or_keyword s) res.
Proof.
  intros Hat Hty [-> (c & r & Hr & Hc)]. unfold identifier_or_keyword_state.
  destruct (at_skip is_node_ident _ _ _ _ Hat) as (u & Hu & Hall & Hhead & Hat' & Hty').
  set (s' := skip is_node_ident s) in *. pose proof Hat' as [Hi Hs He _ _].
  assert (mem_load input (start (token s')) (end_ (token s') - start (token s')) = Ret u) as ->.
  { rewrite Hs, He, Hi. cbn [app]. apply mem_load_app; [done|]. rewrite blen_app. lia. }
  rewrite bind_ret.
  destruct (keyword_lookup u) as (st & e & -> & Hent & Hrk).
  { eapply Forall_impl; [exact Hall|]. auto. }
  rewrite bind_ret. eexists. split; [done|]. cbn [app] in Hat'.
  eapply good_goto; [exact Hat'|congruence|by apply Hent|].
  unfold measure. rewrite Hrk. cbn [rank].
  assert (length (rest s) = length u + length (rest s'))%nat as Hl
    by (rewrite Hu at 1; apply length_app).
  destruct u; [|simpl in Hl; lia]. simpl in Hu. rewrite Hr in Hu. rewrite <- Hu in Hhead.
  by rewrite (Hhead c eq_refl) in Hc.
Qed.

(** ** One round *)

Lemma call_state_good t s st :
  at_input input b t s -> type (token s) = T_NONE -> entry st t (rest s) ->
  exists res, call_state input st s = Ret res /\ good input b (measure st s) res.
Proof.
  intros Hat Hty He.
  assert (forall ty st' , entry st t (rest s) -> lexeme ty t -> ty <> T_NONE -> ty <> T_EOF ->
    ty <> T_ERROR -> entry st' [] (rest s) -> (rank st' < rank st)%nat ->
    good input b (measure st s) (Some st', set_token s ty)) as Hkey.
  { intros ty st' _ Hl H1 H2 H3 He' Hrk. eapply good_token; try done. unfold measure. lia. }
  assert (forall c ty st', t = [] -> c <> 0 -> lexeme ty [c] -> ty <> T_EOF -> ty <> T_ERROR ->
    (forall r, entry st' [] r) -> rank st = 1%nat ->
    good input b (measure st s) (expect c ty st' s)) as Hexp.
  { intros c ty st' -> Hc Hl H1 H2 He' Hrk. apply good_expect; try done. unfold measure. lia. }
  assert (forall p st', t = [] -> (forall c, p c = true -> c <> 10 /\ c <> 0 /\ c <> 44) ->
    (forall r, entry st' [] r) -> (rank st' < rank st)%nat ->
    good input b (measure st s) (ident p T_IDENTIFIER st' s)) as Hid.
  { intros p st' -> Hp He' Hrk. apply good_ident; try done.
    - intros u Hu _. by eapply plain_lexeme.
    - right. unfold measure. lia. }
  assert (forall p st', t = [] -> next_is p (rest s) ->
    (forall u, Forall (fun c => p c = true) u -> u <> [] -> lexeme T_IDENTIFIER u) ->
    (forall r, entry st' [] r) -> good input b (measure st s) (ident p T_IDENTIFIER st' s)) as Hid1.
  { intros p st' -> Hn Hl He'. apply good_ident; try done.
    - intros u Hu [Hne|]; [by apply Hl|done].
    - left. split; [done|unfold measure; lia]. }
  assert (forall st', t = [] -> next_is isdigit (rest s) -> (forall r, entry st' [] r) ->
    good input b (measure st s) (ident isdigit T_INTEGER st' s)) as Hdig.
  { intros st' -> Hn He'. apply good_ident; try done.
    - intros u Hu [Hne|]; [by apply digits_lexeme|done].
    - left. split; [done|unfold measure; lia]. }
  destruct st; cbn [call_state]; try (eexists; split; [reflexivity|]).
  - by apply (default_good t).
  - by apply (space_good t).
  - by apply (comment_good t).
  - by apply (carriage_return_good t).
  - by apply (arrow_good t).
  - apply (good_stop _ _ _ t); [done|done|by right].
  - apply Hid; [done|apply node_ident_plain|done|simpl; lia].
  - apply Hdig; [apply He..|done].
  - apply (port_array_good t s S_export_port_array S_export_port_index); (done || simpl; lia).
  - by apply (export_good t).
  - by apply Hexp.
  - apply Hkey; try done. simpl; lia.
  - by apply Hexp.
  - apply Hkey; try done. simpl; lia.
  - by apply (statement_end_good t s S_declare_end).
  - apply Hid; [done|lia|done|simpl; lia].
  - by apply Hexp.
  - apply Hid; [done|apply node_ident_plain|done|simpl; lia].
  - by apply Hexp.
  - apply Hid; [done|apply node_ident_plain|done|simpl; lia].
  - by apply Hexp.
  - apply Hkey; try done. simpl; lia.
  - by apply (statement_end_good t s S_option_end).
  - apply Hid; [done|apply node_ident_plain|done|simpl; lia].
  - by apply Hexp.
  - apply Hid; [done|apply node_ident_plain|done|simpl; lia].
  - by apply Hexp.
  - apply Hid; [done|apply node_ident_plain|done|simpl; lia].
  - by apply Hexp.
  - apply Hkey; try done. simpl; lia.
  - apply Hkey; try done; [|by left|simpl; lia].
    by eapply plain_lexeme; [apply node_ident_plain|].
  - by apply (identifier_or_keyword_good t).
  - apply Hdig; [apply He..|done].
  - apply (port_array_good t s S_port_array S_port_index); first [done|by left|simpl; lia].
  - by apply (string_start_good t).
  - destruct He as [-> Hn]. apply Hid1; [done|done| |done].
    intros u Hu _. by eapply plain_lexeme; [apply meta_ident_plain|].
  - by apply (meta_good t).
  - apply Hid; [done|apply component_ident_plain|done|simpl; lia].
Qed.
End States.

(** ** Whole tokens *)

(** The scanner between two calls; [b] is what has been read. *)
Definition ready (input b : list Z) (s : sol_fbp_scanner) : Prop :=
  at_input input b [] (ignore s) /\ type (token s) <> T_EOF /\ type (token s) <> T_ERROR
  /\ exists st, sstate s = Some st /\ entry st [] (rest s).

(** The token of [s] covers [t], behind the blanks [g] that follow [b]. *)
Definition token_at (b g t : list Z) (tk : sol_fbp_token) : Prop :=
  Forall is_space g /\ lexeme (type tk) t
  /\ start tk = blen (b ++ g) /\ end_ tk = blen (b ++ g ++ t)
  /\ (line tk, column tk) = pos_after (b ++ g).

Definition rounds_left (s : sol_fbp_scanner) : nat :=
  match sstate s with Some st => measure st s | None => 0 end.

(** The end, or the next call's state. *)
Definition after_token (input b : list Z) (m : nat) (s : sol_fbp_scanner) : Prop :=
  type (token s) = T_EOF /\ peek s = 0 \/ type (token s) = T_ERROR
  \/ ready input b s /\ (rounds_left s < m)%nat.

Lemma at_input_ready input b t s : at_input input b t s -> at_input input (b ++ t) [] (ignore s).
Proof. apply at_ignore. Qed.

Lemma at_set_state input b t s st : at_input input b t s -> at_input input b t (set_state s st).
Proof. by intros []. Qed.

Lemma scan_loop_spec input fuel : forall b t s st,
  at_input input b t s -> type (token s) = T_NONE -> sstate s = Some st -> entry st t (rest s) ->
  (measure st s < fuel)%nat ->
  exists s' g t', scan_loop input fuel s = Ret s'
    /\ at_input input (b ++ g) t' s' /\ token_at b g t' (token s')
    /\ after_token input (b ++ g ++ t') (measure st s) s'.
Proof.
  induction fuel as [|fuel IH]; intros b t s st Hat Hty Hst He Hm; [lia|].
  cbn [scan_loop]. rewrite Hst.
  destruct (call_state_good input b t s st Hat Hty He) as ([st' s'] & -> & Hgood).
  rewrite bind_ret. destruct Hgood as (g & t' & Hg & Hat' & Hm' & Hres).
  cbn [set_state token]. destruct (decide (type (token s') = T_NONE)) as [Hn|Hn].
  - destruct Hres as (st2 & -> & He2). specialize (Hm' st2 eq_refl).
    destruct (IH (b ++ g) t' (set_state s' (Some st2)) st2) as (s'' & g' & t'' & Hrun & Hat2 & Htok & Haft);
      [by apply at_set_state|done|done|done|unfold measure in *; simpl in *; lia|].
    exists s'', (g ++ g'), t''. rewrite Hrun. unfold token_at in *. rewrite <- !app_assoc in *.
    split_and!; try done.
    + apply Forall_app. split; [done|apply Htok].
    + apply Htok.
    + apply Htok.
    + apply Htok.
    + apply Htok.
    + unfold after_token in *. destruct Haft as [?|[?|[Hr Hlt]]]; [by left|by right; left|].
      right. right. split; [done|]. unfold measure in *. simpl in *. lia.
  - exists (set_state s' st'), g, t'. destruct Hres as (Hlex & Hpos & Hend).
    split_and!; [done|by apply at_set_state| |].
    + split_and!; [done|done|apply Hat'|rewrite app_assoc; apply Hat'|done].
    + unfold after_token. destruct st' as [st2|].
      * destruct Hend as (He2 & H1 & H2). right. right. split; [|by apply Hm'].
        split_and!; [|done|done|by exists st2].
        rewrite app_assoc. by apply at_ignore, at_set_state.
      * destruct Hend as [?|?]; [by left|by right; left].
Qed.

(** C35: From any state between two calls, sol_fbp_scan_token ends with a
    token: blanks are skipped, the token's text has the form of its type,
    its start, end, line and column are those of that text in the input,
    and the scanner is ready for the next call unless the input is at its
    end or an error was found.  Each call makes progress. *)
Theorem scan_token_correct input b s :
  ready input b s ->
  exists s' g t, sol_fbp_scan_token input s = Ret s'
    /\ input = b ++ g ++ t ++ rest s'
    /\ token_at b g t (token s')
    /\ after_token input (b ++ g ++ t) (rounds_left s) s'.
Proof.
  intros (Hat & H1 & H2 & st & Hst & He). unfold sol_fbp_scan_token.
  rewrite bool_decide_false by (intros [?|?]; done). cbv zeta.
  set (s0 := set_token _ T_NONE).
  assert (at_input input b [] s0) as Hat0.
  { destruct Hat as [Hi Hs Hend Hsp Hcp]. split; done. }
  destruct (scan_loop_spec input (scan_fuel s0) b [] s0 st Hat0 eq_refl Hst He)
    as (s' & g & t & Hrun & Hat' & Htok & Haft).
  { unfold measure, scan_fuel. assert (rank st <= 7)%nat by (destruct st; simpl; lia). lia. }
  exists s', g, t. split_and!; [exact Hrun| |done|].
  - rewrite (at_split _ _ _ _ Hat'). by rewrite <- app_assoc.
  - unfold rounds_left. rewrite Hst. exact Haft.
Qed.

Lemma scanner_ready input : ready input [] (sol_fbp_scanner_init input).
Proof. split_and!; [by split|done|done|]. exists S_default. split; [done|by left]. Qed.

(** The tokens tile what is left of the input. *)
Fixpoint tiles (b r : list Z) (tks : list sol_fbp_token) : Prop :=
  match tks with
  | [] => True
  | tk :: tks =>
      exists g t r', r = g ++ t ++ r' /\ token_at b g t tk
        /\ (tks = [] -> type tk = T_EOF /\ (r' = [] \/ head r' = Some 0) \/ type tk = T_ERROR)
        /\ (tks <> [] -> type tk <> T_EOF /\ type tk <> T_ERROR)
        /\ tiles (b ++ g ++ t) r' tks
  end.

Lemma scan_all_spec input fuel : forall b r s,
  ready input b s -> input = b ++ r -> (rounds_left s < fuel)%nat ->
  exists tks, scan_all input fuel s = Ret tks /\ tks <> [] /\ tiles b r tks.
Proof.
  induction fuel as [|fuel IH]; intros b r s Hready Hi Hm; [lia|].
  cbn [scan_all]. destruct (scan_token_correct input b s Hready) as (s' & g & t & -> & Hi' & Htok & Haft).
  rewrite bind_ret. assert (r = g ++ t ++ rest s') as Hr by (rewrite Hi in Hi'; by simplify_list_eq).
  destruct Haft as [[Hty Hp]|[Hty|[Hready' Hlt]]].
  - rewrite bool_decide_true by (by left). eexists. split_and!; [done|done|].
    exists g, t, (rest s'). split_and!; [done|done| |done|done]. intros _. left. split; [done|].
    unfold peek in Hp. destruct (rest s'); [by left|right]. simpl. by rewrite Hp.
  - rewrite bool_decide_true by (by right). eexists. split_and!; [done|done|].
    exists g, t, (rest s'). split_and!; [done|done|by right|done|done].
  - pose proof Hready' as (_ & H1 & H2 & _). rewrite bool_decide_false by (intros [?|?]; done).
    destruct (IH (b ++ g ++ t) (rest s') s' Hready') as (tks & -> & Hne & Htiles).
    { by rewrite Hi', <- !app_assoc. }
    { lia. }
    rewrite bind_ret. eexists. split_and!; [done|done|].
    exists g, t, (rest s'). by split_and!.
Qed.

(** C36: Scanning any input to its end terminates without reading outside
    it: the tokens, with the blanks between them, tile the input from its
    first byte on; only the last one is the end (at a NUL or behind the
    last byte) or an error. *)
Theorem scan_all_tiles input :
  exists tks, scan_all input (8 * length input + 8) (sol_fbp_scanner_init input) = Ret tks
    /\ tks <> [] /\ tiles [] input tks.
Proof.
  apply scan_all_spec; [apply scanner_ready|done|].
  unfold rounds_left, measure. simpl. lia.
Qed.

(** A[B] -> C *)
Lemma scan_token_correct_witness :
  let input := [65; 32; 79; 85; 84; 91; 49; 93; 32; 45; 62; 32; 73; 78; 32; 66] in
  ready input [] (sol_fbp_scanner_init input)
  /\ exists s, sol_fbp_scan_token input (sol_fbp_scanner_init input) = Ret s
      /\ type (token s) = T_IDENTIFIER.
Proof.
  intros input. split; [exact (scanner_ready input)|].
  destruct (scan_token_correct input [] _ (scanner_ready input)) as (s & g & t & Hs & _).
  exists s. split; [exact Hs|]. vm_compute in Hs. injection Hs as <-. reflexivity.
Defined.
End FbpScanner.
