(* ===== verification/FbpGraph.v ===== *)
(** * The graph of a flow program

    Models src/src/shared/sol-fbp-graph.c (structures in sol-fbp.h).  A slice
    is the text it covers, so that [slice_eq] is what sol_str_slice_eq
    decides ([slice_eq_agrees]).  A vector of structures is the list of its
    elements; appending fails exactly when [Vector.sol_vector_append] does
    for that length and element size ([Vector.append_error_agrees]).  The arena is
    represented by what it answers when asked to keep a text. *)

From S2P Require Import Prelude Arith Vector Str.
Import Vector.

#[local] Open Scope Z_scope.

Module FbpGraph.

(** ** Structures *)

Definition EADDRINUSE := 98.

Definition sol_fbp_position : Type := Z * Z.

Record sol_fbp_port := { port_name : list Z; port_position : sol_fbp_position }.

Record sol_fbp_meta := {
  meta_key : list Z; meta_value : list Z; meta_position : sol_fbp_position
}.

Record sol_fbp_node := {
  name : list Z; component : list Z; position : sol_fbp_position;
  meta : list sol_fbp_meta; in_ports : list sol_fbp_port; out_ports : list sol_fbp_port
}.

Record sol_fbp_conn := {
  src : Z; src_port : list Z; src_port_idx : Z;
  dst : Z; dst_port : list Z; dst_port_idx : Z;
  conn_position : sol_fbp_position
}.

Record sol_fbp_exported_port := {
  ep_node : Z; ep_port : list Z; ep_port_idx : Z; exported_name : list Z;
  ep_position : sol_fbp_position
}.

Record sol_fbp_declaration := {
  dec_name : list Z; metatype : list Z; contents : list Z; dec_position : sol_fbp_position
}.

Record sol_fbp_option := {
  opt_name : list Z; node_option : list Z; opt_node : Z; opt_position : sol_fbp_position
}.

Record sol_fbp_graph := {
  nodes : list sol_fbp_node; conns : list sol_fbp_conn;
  exported_in_ports : list sol_fbp_exported_port;
  exported_out_ports : list sol_fbp_exported_port;
  declarations : list sol_fbp_declaration; options : list sol_fbp_option
}.

Definition sol_fbp_graph_init : sol_fbp_graph :=
  {| nodes := []; conns := []; exported_in_ports := []; exported_out_ports := [];
     declarations := []; options := [] |}.

(** sizeof of the elements (LP64). *)
Definition port_bytes := 24.
Definition meta_bytes := 40.
Definition node_bytes := 96.
Definition conn_bytes := 56.
Definition exported_port_bytes := 48.
Definition declaration_bytes := 56.
Definition option_bytes := 48.

Definition set_nodes (g : sol_fbp_graph) l := {| nodes := l; conns := conns g; exported_in_ports := exported_in_ports g; exported_out_ports := exported_out_ports g; declarations := declarations g; options := options g |}.
Definition set_conns (g : sol_fbp_graph) l := {| nodes := nodes g; conns := l; exported_in_ports := exported_in_ports g; exported_out_ports := exported_out_ports g; declarations := declarations g; options := options g |}.
Definition set_exported_in (g : sol_fbp_graph) l := {| nodes := nodes g; conns := conns g; exported_in_ports := l; exported_out_ports := exported_out_ports g; declarations := declarations g; options := options g |}.
Definition set_exported_out (g : sol_fbp_graph) l := {| nodes := nodes g; conns := conns g; exported_in_ports := exported_in_ports g; exported_out_ports := l; declarations := declarations g; options := options g |}.
Definition set_declarations (g : sol_fbp_graph) l := {| nodes := nodes g; conns := conns g; exported_in_ports := exported_in_ports g; exported_out_ports := exported_out_ports g; declarations := l; options := options g |}.
Definition set_options (g : sol_fbp_graph) l := {| nodes := nodes g; conns := conns g; exported_in_ports := exported_in_ports g; exported_out_ports := exported_out_ports g; declarations := declarations g; options := l |}.

Definition set_component (n : sol_fbp_node) c := {| name := name n; component := c; position := position n; meta := meta n; in_ports := in_ports n; out_ports := out_ports n |}.
Definition set_meta (n : sol_fbp_node) l := {| name := name n; component := component n; position := position n; meta := l; in_ports := in_ports n; out_ports := out_ports n |}.
Definition set_in_ports (n : sol_fbp_node) l := {| name := name n; component := component n; position := position n; meta := meta n; in_ports := l; out_ports := out_ports n |}.
Definition set_out_ports (n : sol_fbp_node) l := {| name := name n; component := component n; position := position n; meta := meta n; in_ports := in_ports n; out_ports := l |}.

(** ** Helpers *)

Definition slice_eq (a b : list Z) : bool := bool_decide (a = b).

Lemma slice_eq_agrees a b : StrSlice.sol_str_slice_eq a b = Ret (slice_eq a b).
Proof. apply StrProofs.slice_comparisons_correct. Qed.

(** SOL_VECTOR_FOREACH_IDX up to the first element that passes a test. *)
Fixpoint find_from {A} (test : A -> bool) (i : Z) (l : list A) : option (Z * A) :=
  match l with
  | [] => None
  | x :: l => if test x then Some (i, x) else find_from test (i + 1) l
  end.

(** The text of an [int] in decimal. *)
Fixpoint digits_text (fuel : nat) (n : Z) : list Z :=
  match fuel with
  | O => []
  | S fuel => if n <? 10 then [48 + n] else digits_text fuel (n / 10) ++ [48 + n mod 10]
  end.

Definition int_text (n : Z) : list Z :=
  if n <? 0 then 45 :: digits_text 20 (- n) else digits_text 20 n.

(** "#anon:%d:%d"; %d takes an int where the position is unsigned. *)
Definition anon_name (p : sol_fbp_position) : list Z :=
  [35; 97; 110; 111; 110; 58] ++ int_text (wraps 32 p.1) ++ [58] ++ int_text (wraps 32 p.2).

(** The index that sol_vector_get looks at: a uint16_t *)
Definition vector_index (node : Z) : nat := Z.to_nat (wrapu 16 node).

(** What sol_arena_slice_sprintf answers when it is to keep a text: 0 or a
    negative error. *)
Class NameArena := { keep_text : list Z -> Z }.

Section Operations.
Context `{BuildConfig} `{Allocator} `{NameArena}.

(** ** Operations *)

Definition append_node (g : sol_fbp_graph) (nm comp : list Z) (pos : sol_fbp_position)
    : Z * option sol_fbp_node * sol_fbp_graph :=
  let e := append_error node_bytes (blen (nodes g)) in
  if e <? 0 then (e, None, g)
  else
    let n := {| name := nm; component := comp; position := pos; meta := [];
                in_ports := []; out_ports := [] |} in
    let g := set_nodes g (nodes g ++ [n]) in
    (blen (nodes g) - 1, Some n, g).

(** The node through [out_node] matters only for -EEXIST. *)
Definition sol_fbp_graph_add_node (g : sol_fbp_graph) (nm comp : list Z) (pos : sol_fbp_position)
    : Z * option sol_fbp_node * sol_fbp_graph :=
  let declared_component := negb (blen comp =? 0) in
  if slice_eq nm [95] then
    if blen comp =? 0 then (- EINVAL, None, g)
    else
      let nm := anon_name pos in
      let r := keep_text nm in
      if r <? 0 then (r, None, g) else append_node g nm comp pos
  else
    match find_from (fun n => slice_eq (name n) nm) 0 (nodes g) with
    | Some (i, n) =>
        if declared_component then
          if negb (blen (component n) =? 0) then (- EEXIST, Some n, g)
          else (i, None, set_nodes g (<[Z.to_nat i := set_component n comp]> (nodes g)))
        else (i, None, g)
    | None => append_node g nm comp pos
    end.

Definition sol_fbp_graph_add_meta (g : sol_fbp_graph) (node : Z) (key value : list Z)
    (pos : sol_fbp_position) : Z * sol_fbp_graph :=
  if node <? 0 then (- EINVAL, g)
  else
    match nodes g !! vector_index node with
    | None => (- EINVAL, g)
    | Some n =>
        match find_from (fun m => slice_eq (meta_key m) key) 0 (meta n) with
        | Some _ => (- EEXIST, g)
        | None =>
            let e := append_error meta_bytes (blen (meta n)) in
            if e <? 0 then (e, g)
            else
              let m := {| meta_key := key; meta_value := value; meta_position := pos |} in
              (0, set_nodes g (<[vector_index node := set_meta n (meta n ++ [m])]> (nodes g)))
        end
    end.

Definition sol_fbp_graph_add_in_port (g : sol_fbp_graph) (node : Z) (nm : list Z)
    (pos : sol_fbp_position) : Z * sol_fbp_graph :=
  if node <? 0 then (- EINVAL, g)
  else
    match nodes g !! vector_index node with
    | None => (- EINVAL, g)
    | Some n =>
        match find_from (fun p => slice_eq (port_name p) nm) 0 (in_ports n) with
        | Some _ => (0, g)
        | None =>
            let e := append_error port_bytes (blen (in_ports n)) in
            if e <? 0 then (e, g)
            else
              let p := {| port_name := nm; port_position := pos |} in
              (0, set_nodes g (<[vector_index node := set_in_ports n (in_ports n ++ [p])]> (nodes g)))
        end
    end.

Definition sol_fbp_graph_add_out_port (g : sol_fbp_graph) (node : Z) (nm : list Z)
    (pos : sol_fbp_position) : Z * sol_fbp_graph :=
  if node <? 0 then (- EINVAL, g)
  else
    match nodes g !! vector_index node with
    | None => (- EINVAL, g)
    | Some n =>
        match find_from (fun p => slice_eq (port_name p) nm) 0 (out_ports n) with
        | Some _ => (0, g)
        | None =>
            let e := append_error port_bytes (blen (out_ports n)) in
            if e <? 0 then (e, g)
            else
              let p := {| port_name := nm; port_position := pos |} in
              (0, set_nodes g (<[vector_index node := set_out_ports n (out_ports n ++ [p])]> (nodes g)))
        end
    end.

Definition same_conn (src0 : Z) src_port0 src_port_idx0 dst0 dst_port0 dst_port_idx0
    (c : sol_fbp_conn) : bool :=
  (src c =? src0) && (dst c =? dst0) && (src_port_idx c =? src_port_idx0)
  && (dst_port_idx c =? dst_port_idx0)
  && slice_eq (src_port c) src_port0 && slice_eq (dst_port c) dst_port0.

Definition sol_fbp_graph_add_conn (g : sol_fbp_graph) (src0 : Z) (src_port0 : list Z)
    (src_port_idx0 dst0 : Z) (dst_port0 : list Z) (dst_port_idx0 : Z)
    (pos : sol_fbp_position) : Z * sol_fbp_graph :=
  if src0 <? 0 then (- EINVAL, g)
  else if dst0 <? 0 then (- EINVAL, g)
  else if (blen src_port0 =? 0) || (blen dst_port0 =? 0) then (- EINVAL, g)
  else
    match find_from (same_conn src0 src_port0 src_port_idx0 dst0 dst_port0 dst_port_idx0) 0 (conns g) with
    | Some _ => (- EEXIST, g)
    | None =>
        let e := append_error conn_bytes (blen (conns g)) in
        if e <? 0 then (e, g)
        else
          let c := {| src := src0; src_port := src_port0; src_port_idx := src_port_idx0;
                      dst := dst0; dst_port := dst_port0; dst_port_idx := dst_port_idx0;
                      conn_position := pos |} in
          (blen (conns g), set_conns g (conns g ++ [c]))
    end.

(** The first exported port in the way, with the error it causes. *)
Fixpoint export_clash (node : Z) (port : list Z) (port_idx : Z) (nm : list Z)
    (l : list sol_fbp_exported_port) : option (Z * sol_fbp_exported_port) :=
  match l with
  | [] => None
  | ep :: l =>
      if slice_eq (exported_name ep) nm then Some (- EEXIST, ep)
      else if (ep_node ep =? node)
              && ((ep_port_idx ep =? port_idx) || ((ep_port_idx ep =? -1) || (port_idx =? -1)))
              && slice_eq (ep_port ep) port then Some (- EADDRINUSE, ep)
      else export_clash node port port_idx nm l
  end.

(** The error, the port through [out_ep], and the new vector. *)
Definition add_exported (l : list sol_fbp_exported_port) (node : Z) (port : list Z) (port_idx : Z)
    (nm : list Z) (pos : sol_fbp_position)
    : Z * option sol_fbp_exported_port * list sol_fbp_exported_port :=
  match export_clash node port port_idx nm l with
  | Some (err, ep) => (err, Some ep, l)
  | None =>
      let e := append_error exported_port_bytes (blen l) in
      if e <? 0 then (e, None, l)
      else
        let ep := {| ep_node := node; ep_port := port; ep_port_idx := port_idx;
                     exported_name := nm; ep_position := pos |} in
        (0, Some ep, l ++ [ep])
  end.

Definition sol_fbp_graph_add_exported_in_port (g : sol_fbp_graph) node port port_idx nm pos :=
  let '(err, ep, l) := add_exported (exported_in_ports g) node port port_idx nm pos in
  (err, ep, set_exported_in g l).

Definition sol_fbp_graph_add_exported_out_port (g : sol_fbp_graph) node port port_idx nm pos :=
  let '(err, ep, l) := add_exported (exported_out_ports g) node port port_idx nm pos in
  (err, ep, set_exported_out g l).

Definition sol_fbp_graph_declare (g : sol_fbp_graph) (nm mt cont : list Z) (pos : sol_fbp_position)
    : Z * sol_fbp_graph :=
  if (blen nm =? 0) || (blen mt =? 0) || (blen cont =? 0) then (- EINVAL, g)
  else
    match find_from (fun d => slice_eq (dec_name d) nm) 0 (declarations g) with
    | Some _ => (- EEXIST, g)
    | None =>
        let e := append_error declaration_bytes (blen (declarations g)) in
        if e <? 0 then (e, g)
        else
          let d := {| dec_name := nm; metatype := mt; contents := cont; dec_position := pos |} in
          (blen (declarations g), set_declarations g (declarations g ++ [d]))
    end.

Definition sol_fbp_graph_option (g : sol_fbp_graph) (node : Z) (nm node_opt : list Z)
    (pos : sol_fbp_position) : Z * sol_fbp_graph :=
  if (blen nm =? 0) || (blen node_opt =? 0) then (- EINVAL, g)
  else
    match find_from (fun o => slice_eq (opt_name o) nm) 0 (options g) with
    | Some _ => (- EEXIST, g)
    | None =>
        let e := append_error option_bytes (blen (options g)) in
        if e <? 0 then (e, g)
        else
          let o := {| opt_name := nm; node_option := node_opt; opt_node := node; opt_position := pos |} in
          (blen (options g), set_options g (options g ++ [o]))
    end.

End Operations.

(** ** Finding *)

Lemma find_from_spec {A} (test : A -> bool) l : forall i,
  match find_from test i l with
  | Some (j, x) => i <= j /\ l !! Z.to_nat (j - i) = Some x /\ test x = true
      /\ Forall (fun y => test y = false) (take (Z.to_nat (j - i)) l)
  | None => Forall (fun y => test y = false) l
  end.
Proof.
  induction l as [|x l IH]; intros i; cbn [find_from]; [constructor|].
  destruct (test x) eqn:E.
  - rewrite Z.sub_diag. split_and!; [lia|done|done|constructor].
  - specialize (IH (i + 1)). destruct (find_from test (i + 1) l) as [[j y]|]; [|by constructor].
    destruct IH as (Hj & Hy & Ht & Hf).
    replace (Z.to_nat (j - i)) with (S (Z.to_nat (j - (i + 1)))) by lia.
    split_and!; [lia|done|done|by constructor].
Qed.

Lemma slice_eq_true a b : slice_eq a b = true <-> a = b.
Proof. apply bool_decide_eq_true. Qed.
Lemma slice_eq_false a b : slice_eq a b = false <-> a <> b.
Proof. apply bool_decide_eq_false. Qed.

(** ** Well-formed graphs *)

Definition anonymous (nm : list Z) : Prop := head nm = Some 35.
#[export] Instance anonymous_dec nm : Decision (anonymous nm).
Proof. unfold anonymous. apply _. Defined.

Definition conn_key (c : sol_fbp_conn) := (src c, src_port c, src_port_idx c, dst c, dst_port c, dst_port_idx c).

(** Two exported ports that may stand together. *)
Definition compatible (a b : sol_fbp_exported_port) : Prop :=
  exported_name a <> exported_name b
  /\ ~ (ep_node a = ep_node b /\ ep_port a = ep_port b
        /\ (ep_port_idx a = ep_port_idx b \/ ep_port_idx a = -1 \/ ep_port_idx b = -1)).

Definition node_ok (n : sol_fbp_node) : Prop :=
  NoDup (meta_key <$> meta n) /\ NoDup (port_name <$> in_ports n) /\ NoDup (port_name <$> out_ports n)
  /\ blen (meta n) <= UINT16_MAX /\ blen (in_ports n) <= UINT16_MAX /\ blen (out_ports n) <= UINT16_MAX.

Definition valid_node (g : sol_fbp_graph) (i : Z) : Prop := 0 <= i < blen (nodes g).

Definition exports_ok (g : sol_fbp_graph) (l : list sol_fbp_exported_port) : Prop :=
  ForallOrdPairs compatible l /\ Forall (fun ep => valid_node g (ep_node ep)) l /\ blen l <= UINT16_MAX.

(** Names are given once (the generated ones apart), connections, exports
    and options lead to nodes of the graph, and nothing is there twice. *)
Record graph_ok (g : sol_fbp_graph) : Prop := {
  go_names : NoDup (filter (fun nm => ~ anonymous nm) (name <$> nodes g));
  go_nodes : Forall node_ok (nodes g) /\ blen (nodes g) <= UINT16_MAX;
  go_conns : NoDup (conn_key <$> conns g) /\ blen (conns g) <= UINT16_MAX
    /\ Forall (fun c => valid_node g (src c) /\ valid_node g (dst c)
                 /\ src_port c <> [] /\ dst_port c <> []) (conns g);
  go_exports : exports_ok g (exported_in_ports g) /\ exports_ok g (exported_out_ports g);
  go_declarations : NoDup (dec_name <$> declarations g) /\ blen (declarations g) <= UINT16_MAX
    /\ Forall (fun d => dec_name d <> [] /\ metatype d <> [] /\ contents d <> []) (declarations g);
  go_options : NoDup (opt_name <$> options g) /\ blen (options g) <= UINT16_MAX
    /\ Forall (fun o => valid_node g (opt_node o) /\ opt_name o <> [] /\ node_option o <> []) (options g)
}.

Lemma graph_init_ok : graph_ok sol_fbp_graph_init.
Proof. split; cbn; split_and?; try constructor; try done; split_and?; try constructor; done. Qed.

Lemma exports_mono g g' l : blen (nodes g) <= blen (nodes g') -> exports_ok g l -> exports_ok g' l.
Proof.
  intros Hle (Ho & Hv & Hl). split_and!; [done| |done].
  eapply Forall_impl; [exact Hv|]. unfold valid_node. intros; lia.
Qed.

(** A change of the nodes that loses none and gives no name twice. *)
Lemma nodes_ok g l :
  graph_ok g -> blen (nodes g) <= blen l <= UINT16_MAX -> Forall node_ok l ->
  NoDup (filter (fun nm => ~ anonymous nm) (name <$> l)) -> graph_ok (set_nodes g l).
Proof.
  intros [_ _ (Hc1 & Hc2 & Hc3) [He1 He2] Hd (Ho1 & Ho2 & Ho3)] Hlen Hn Hnames.
  assert (forall i, valid_node g i -> valid_node (set_nodes g l) i) as Hval
    by (unfold valid_node; cbn; intros; lia).
  split; cbn.
  - done.
  - split; [done|lia].
  - split_and!; [done|done|]. eapply Forall_impl; [exact Hc3|]. cbn. intros c (? & ? & ? & ?). auto.
  - split; (eapply exports_mono; [|done]; cbn; lia).
  - done.
  - split_and!; [done|done|]. eapply Forall_impl; [exact Ho3|]. cbn. intros o (? & ? & ?). auto.
Qed.

Lemma node_update g i n n' :
  graph_ok g -> nodes g !! i = Some n -> name n' = name n -> node_ok n' ->
  graph_ok (set_nodes g (<[i := n']> (nodes g))).
Proof.
  intros Hg Hi Hnm Hok. pose proof (go_nodes _ Hg) as [Hall Hlen].
  apply nodes_ok; [done|unfold blen in *; rewrite length_insert; lia|by apply Forall_insert|].
  rewrite list_fmap_insert, list_insert_id; [apply Hg|]. by rewrite list_lookup_fmap, Hi, Hnm.
Qed.

Lemma node_append g n :
  graph_ok g -> blen (nodes g) < UINT16_MAX -> node_ok n ->
  (~ anonymous (name n) -> name n ∉ name <$> nodes g) ->
  graph_ok (set_nodes g (nodes g ++ [n])).
Proof.
  intros Hg Hlt Hok Hnew. pose proof (go_nodes _ Hg) as [Hall Hlen].
  apply nodes_ok; [done|rewrite blen_app, blen_cons, blen_nil; lia| |].
  - apply Forall_app. split; [done|]. by apply Forall_singleton.
  - rewrite fmap_app, filter_app. change (name <$> [n]) with [name n]. rewrite filter_cons, filter_nil.
    apply NoDup_app. split; [apply Hg|]. destruct (decide (~ anonymous (name n))) as [Ha|Ha].
    + split; [|apply NoDup_singleton]. intros x Hx ->%list_elem_of_singleton.
      apply list_elem_of_filter in Hx as [_ Hx]. by apply Hnew.
    + split; [intros x _ ?%not_elem_of_nil; done|constructor].
Qed.

Lemma node_ok_fresh nm comp pos :
  node_ok {| name := nm; component := comp; position := pos; meta := []; in_ports := []; out_ports := [] |}.
Proof. split_and!; cbn; try constructor; done. Qed.

Section Ops.
Context `{BuildConfig} `{Allocator} `{NameArena}.

(** What an operation may change of the nodes: names stay, new ones come
    behind. *)
Definition extends (g g' : sol_fbp_graph) : Prop := (name <$> nodes g) `prefix_of` (name <$> nodes g').

Lemma graph_extends_refl g : extends g g.
Proof. unfold extends. done. Qed.
#[local] Hint Resolve graph_extends_refl : core.

Lemma extends_len g g' : extends g g' -> blen (nodes g) <= blen (nodes g').
Proof.
  intros Hp. apply prefix_length in Hp. rewrite !length_fmap in Hp. unfold blen. lia.
Qed.

Lemma extends_valid g g' i : extends g g' -> valid_node g i -> valid_node g' i.
Proof. intros He%extends_len. unfold valid_node. lia. Qed.

Lemma append_node_spec g nm comp pos :
  graph_ok g -> (~ anonymous nm -> nm ∉ name <$> nodes g) ->
  exists r o g', append_node g nm comp pos = (r, o, g') /\ graph_ok g' /\ extends g g'
    /\ ((r < 0 /\ g' = g)
        \/ (r = blen (nodes g) /\ exists n, g' = set_nodes g (nodes g ++ [n])
            /\ name n = nm /\ component n = comp /\ position n = pos
            /\ meta n = [] /\ in_ports n = [] /\ out_ports n = [])).
Proof.
  intros Hg Hnew. unfold append_node.
  destruct (append_error_cases node_bytes (blen (nodes g)) ltac:(done) (blen_nonneg _)) as [He|[He Hl]];
    [rewrite (proj2 (Z.ltb_lt _ 0) He)|rewrite He; cbn [Z.ltb Z.compare]].
  - do 3 eexists. split; [done|]. split_and!; [done|done|]. by left.
  - do 3 eexists. split; [done|]. split_and!.
    + apply node_append; [done|done|apply node_ok_fresh|done].
    + unfold extends. cbn. rewrite fmap_app. by apply prefix_app_r.
    + right. cbn. rewrite blen_app, blen_cons, blen_nil. split; [lia|]. eexists. by split_and!.
Qed.

Lemma find_name g nm :
  match find_from (fun n => slice_eq (name n) nm) 0 (nodes g) with
  | Some (i, n) => nodes g !! Z.to_nat i = Some n /\ 0 <= i /\ name n = nm
  | None => nm ∉ name <$> nodes g
  end.
Proof.
  pose proof (find_from_spec (fun n => slice_eq (name n) nm) (nodes g) 0) as Hf.
  destruct (find_from _ 0 _) as [[i n]|].
  - destruct Hf as (Hi & Hn & Ht & _). rewrite Z.sub_0_r in Hn. apply slice_eq_true in Ht. done.
  - intros (n & -> & Hn)%list_elem_of_fmap. rewrite Forall_forall in Hf.
    specialize (Hf n Hn). apply slice_eq_false in Hf. done.
Qed.

(** Adding a node: the index answered is that of a node with the name, or
    the generated one, and with the type if one was given. *)
Lemma add_node_spec g nm comp pos :
  graph_ok g ->
  exists r o g', sol_fbp_graph_add_node g nm comp pos = (r, o, g') /\ graph_ok g' /\ extends g g'
    /\ ((r < 0 /\ g' = g)
        \/ (valid_node g' r /\ exists n, nodes g' !! Z.to_nat r = Some n
            /\ name n = (if decide (nm = [95]) then anon_name pos else nm)
            /\ (comp <> [] -> component n = comp))).
Proof.
  intros Hg. unfold sol_fbp_graph_add_node.
  assert (forall nm' r o g', (exists n, g' = set_nodes g (nodes g ++ [n]) /\ name n = nm' /\ component n = comp) ->
    r = blen (nodes g) -> (append_node g nm' comp pos) = (r, o, g') ->
    valid_node g' r /\ exists n, nodes g' !! Z.to_nat r = Some n /\ name n = nm' /\ (comp <> [] -> component n = comp)) as Happ.
  { intros nm' r o g' (n & -> & <- & <-) -> _. split.
    - unfold valid_node, blen. cbn. rewrite length_app. cbn. lia.
    - exists n. split_and!; [|done|done]. cbn. rewrite blen_to_nat, lookup_app_r, Nat.sub_diag by lia. done. }
  destruct (slice_eq nm [95]) eqn:E.
  - apply slice_eq_true in E as ->. rewrite decide_True by done.
    destruct (blen comp =? 0); [do 3 eexists; split; [done|]; split_and!; [done|done|by left]|].
    destruct (Z.ltb_spec (keep_text (anon_name pos)) 0); [do 3 eexists; split; [done|]; split_and!; [done|done|by left]|].
    destruct (append_node_spec g (anon_name pos) comp pos Hg) as (r & o & g' & Hrun & Hg' & He & Hr); [by destruct 1|].
    exists r, o, g'. split_and!; [done|done|done|].
    destruct Hr as [?|(-> & n & -> & ? & ? & _)]; [by left|right]. eapply Happ; [by exists n|done|done].
  - apply slice_eq_false in E. rewrite decide_False by done. pose proof (find_name g nm) as Hf.
    destruct (find_from _ 0 _) as [[i n]|].
    + destruct Hf as (Hi & Hi0 & Hnm).
      assert (valid_node g i) as Hv by (apply lookup_lt_Some in Hi; unfold valid_node, blen; lia).
      destruct (Z.eqb_spec (blen comp) 0) as [Hc|Hc]; cbn [negb].
      * do 3 eexists. split; [done|]. split_and!; [done|done|]. right. split; [done|].
        exists n. split_and!; [done|done|]. by intros []; apply blen_zero_nil.
      * destruct (blen (component n) =? 0); cbn [negb].
        -- do 3 eexists. split; [done|].
           pose proof (go_nodes _ Hg) as [Hall _]. rewrite Forall_lookup in Hall.
           split_and!.
           ++ eapply node_update; [done|done|done|]. exact (Hall _ _ Hi).
           ++ unfold extends. cbn. rewrite list_fmap_insert, list_insert_id; [done|].
              by rewrite list_lookup_fmap, Hi.
           ++ right. split; [unfold valid_node, blen in *; cbn; rewrite length_insert; lia|].
              eexists. cbn. rewrite list_lookup_insert_eq by (by eapply lookup_lt_Some). by split_and!.
        -- do 3 eexists. split; [done|]. split_and!; [done|done|by left].
    + destruct (append_node_spec g nm comp pos Hg ltac:(done)) as (r & o & g' & Hrun & Hg' & He & Hr).
      exists r, o, g'. split_and!; [done|done|done|].
      destruct Hr as [?|(-> & n & -> & ? & ? & _)]; [by left|right]. eapply Happ; [by exists n|done|done].
Qed.
End Ops.

(** *** Everything else *)

Lemma nodup_snoc {A B} (f : A -> B) l x :
  NoDup (f <$> l) -> (f x ∉ f <$> l) -> NoDup (f <$> (l ++ [x])).
Proof.
  intros Hl Hx. rewrite fmap_app. apply NoDup_app. split_and!; [done| |apply NoDup_singleton].
  intros y Hy ->%list_elem_of_singleton. done.
Qed.

(** No element passed the test for the key [k]. *)
Lemma find_from_new {A B} (f : A -> B) (test : A -> bool) k l :
  (forall x, test x = false -> f x <> k) -> find_from test 0 l = None -> k ∉ f <$> l.
Proof.
  intros Ht Hf. pose proof (find_from_spec test l 0) as Hs. rewrite Hf in Hs.
  intros (x & -> & Hx)%list_elem_of_fmap. rewrite Forall_forall in Hs. by apply (Ht x (Hs x Hx)).
Qed.

Ltac append_cases es n :=
  let He := fresh "He" in let Hl := fresh "Hroom" in
  destruct (append_error_cases es n ltac:(done) (blen_nonneg _)) as [He|[He Hl]];
  [rewrite (proj2 (Z.ltb_lt _ 0) He)|rewrite He; cbn [Z.ltb Z.compare]].

(** What an operation that answers [(r, g')] keeps. *)
Definition keeps_ok (g : sol_fbp_graph) (rg : Z * sol_fbp_graph) : Prop :=
  graph_ok rg.2 /\ extends g rg.2 /\ (blen (nodes rg.2) = blen (nodes g)).

Lemma keeps_same g r : graph_ok g -> keeps_ok g (r, g).
Proof. intros Hg. split_and!; [done|unfold extends; done|done]. Qed.

Lemma keeps_node g i n n' r :
  graph_ok g -> nodes g !! i = Some n -> name n' = name n -> node_ok n' ->
  keeps_ok g (r, set_nodes g (<[i := n']> (nodes g))).
Proof.
  intros Hg Hi Hnm Hok. split_and!; cbn.
  - by eapply node_update.
  - unfold extends. cbn. rewrite list_fmap_insert, list_insert_id; [done|].
    by rewrite list_lookup_fmap, Hi, Hnm.
  - unfold blen. by rewrite length_insert.
Qed.

Lemma keeps_nodes g g' r : graph_ok g' -> nodes g' = nodes g -> keeps_ok g (r, g').
Proof. intros Hg He. unfold keeps_ok, extends. cbn. by rewrite He. Qed.

Lemma blen_snoc {A} (l : list A) x : blen l < UINT16_MAX -> blen (l ++ [x]) <= UINT16_MAX.
Proof. rewrite blen_app. unfold blen at 3. simpl. lia. Qed.

Section Ops2.
Context `{BuildConfig} `{Allocator} `{NameArena}.

Lemma add_meta_ok g i k v pos : graph_ok g -> keeps_ok g (sol_fbp_graph_add_meta g i k v pos).
Proof.
  intros Hg. unfold sol_fbp_graph_add_meta. destruct (i <? 0); [by apply keeps_same|].
  destruct (nodes g !! vector_index i) as [n|] eqn:Hn; [|by apply keeps_same].
  pose proof (go_nodes _ Hg) as [Hall _]. rewrite Forall_lookup in Hall.
  destruct (Hall _ _ Hn) as (H1' & H2' & H3' & H4' & H5' & H6').
  destruct (find_from _ 0 (meta n)) as [[? ?]|] eqn:Ef; [by apply keeps_same|].
  append_cases meta_bytes (blen (meta n)); [by apply keeps_same|].
  eapply keeps_node; [done|done|done|]. split_and!; cbn; try done; [|by apply blen_snoc].
  apply nodup_snoc; [done|]. eapply find_from_new; [|exact Ef]. intros x. by rewrite slice_eq_false.
Qed.

Lemma add_in_port_ok g i nm pos : graph_ok g -> keeps_ok g (sol_fbp_graph_add_in_port g i nm pos).
Proof.
  intros Hg. unfold sol_fbp_graph_add_in_port. destruct (i <? 0); [by apply keeps_same|].
  destruct (nodes g !! vector_index i) as [n|] eqn:Hn; [|by apply keeps_same].
  pose proof (go_nodes _ Hg) as [Hall _]. rewrite Forall_lookup in Hall.
  destruct (Hall _ _ Hn) as (H1' & H2' & H3' & H4' & H5' & H6').
  destruct (find_from _ 0 (in_ports n)) as [[? ?]|] eqn:Ef; [by apply keeps_same|].
  append_cases port_bytes (blen (in_ports n)); [by apply keeps_same|].
  eapply keeps_node; [done|done|done|]. split_and!; cbn; try done; [|by apply blen_snoc].
  apply nodup_snoc; [done|]. eapply find_from_new; [|exact Ef]. intros x. by rewrite slice_eq_false.
Qed.

Lemma add_out_port_ok g i nm pos : graph_ok g -> keeps_ok g (sol_fbp_graph_add_out_port g i nm pos).
Proof.
  intros Hg. unfold sol_fbp_graph_add_out_port. destruct (i <? 0); [by apply keeps_same|].
  destruct (nodes g !! vector_index i) as [n|] eqn:Hn; [|by apply keeps_same].
  pose proof (go_nodes _ Hg) as [Hall _]. rewrite Forall_lookup in Hall.
  destruct (Hall _ _ Hn) as (H1' & H2' & H3' & H4' & H5' & H6').
  destruct (find_from _ 0 (out_ports n)) as [[? ?]|] eqn:Ef; [by apply keeps_same|].
  append_cases port_bytes (blen (out_ports n)); [by apply keeps_same|].
  eapply keeps_node; [done|done|done|]. split_and!; cbn; try done; [|by apply blen_snoc].
  apply nodup_snoc; [done|]. eapply find_from_new; [|exact Ef]. intros x. by rewrite slice_eq_false.
Qed.

Lemma same_conn_false s sp si d dp di c :
  same_conn s sp si d dp di c = false -> conn_key c <> (s, sp, si, d, dp, di).
Proof.
  unfold same_conn, conn_key. intros Hf [= <- <- <- <- <- <-].
  rewrite !Z.eqb_refl, !(proj2 (slice_eq_true _ _) eq_refl) in Hf. done.
Qed.

Lemma add_conn_ok g s sp si d dp di pos :
  graph_ok g -> valid_node g s -> valid_node g d ->
  keeps_ok g (sol_fbp_graph_add_conn g s sp si d dp di pos).
Proof.
  intros Hg Hs Hd. unfold sol_fbp_graph_add_conn.
  destruct (s <? 0); [by apply keeps_same|]. destruct (d <? 0); [by apply keeps_same|].
  destruct (Z.eqb_spec (blen sp) 0) as [|Hsp]; [by apply keeps_same|].
  destruct (Z.eqb_spec (blen dp) 0) as [|Hdp]; [by apply keeps_same|]. cbn [orb].
  destruct (find_from _ 0 (conns g)) as [[? ?]|] eqn:Ef; [by apply keeps_same|].
  append_cases conn_bytes (blen (conns g)); [by apply keeps_same|].
  apply keeps_nodes; [|done]. destruct Hg as [? ? (Hc1 & Hc2 & Hc3) ? ? ?]. split; try done. cbn. split_and!.
  - apply nodup_snoc; [done|]. eapply find_from_new; [|exact Ef]. intros x. apply same_conn_false.
  - by apply blen_snoc.
  - apply Forall_app. split; [done|]. apply Forall_singleton. cbn. split_and!; try done; by intros ->.
Qed.

Lemma export_clash_none node port idx nm l :
  export_clash node port idx nm l = None ->
  Forall (fun ep => exported_name ep <> nm
    /\ ~ (ep_node ep = node /\ ep_port ep = port /\ (ep_port_idx ep = idx \/ ep_port_idx ep = -1 \/ idx = -1))) l.
Proof.
  induction l as [|ep l IH]; cbn [export_clash]; [constructor|].
  destruct (slice_eq (exported_name ep) nm) eqn:E1; [done|].
  destruct (_ && _) eqn:E2; [done|]. intros Hn. constructor; [|by apply IH].
  apply slice_eq_false in E1. split; [done|]. intros (<- & <- & Hi).
  rewrite Z.eqb_refl, (proj2 (slice_eq_true _ _) eq_refl), andb_true_r, andb_true_l in E2.
  apply orb_false_iff in E2 as [Ea [Eb Ec]%orb_false_iff]. apply Z.eqb_neq in Ea, Eb, Ec. lia.
Qed.

Lemma add_exported_ok g l node port idx nm pos :
  exports_ok g l -> valid_node g node ->
  exists r o l', add_exported l node port idx nm pos = (r, o, l') /\ exports_ok g l'.
Proof.
  intros (Ho & Hv & Hlen) Hn. unfold add_exported.
  destruct (export_clash node port idx nm l) as [[e ep]|] eqn:E; [by do 3 eexists|].
  append_cases exported_port_bytes (blen l); do 3 eexists; (split; [done|]); [done|].
  split_and!; [| |by apply blen_snoc].
  - apply export_clash_none in E. revert Ho E. clear. intros Ho E. induction Ho as [|ep l Hep Ho IH].
    + constructor; constructor.
    + apply Forall_cons in E as [[Hne Hno] E]. cbn. constructor; [|by apply IH].
      apply Forall_app. split; [done|]. apply Forall_singleton. split; [done|]. cbn. intros (? & ? & ?). tauto.
  - apply Forall_app. split; [done|]. by apply Forall_singleton.
Qed.

Lemma add_exported_in_ok g node port idx nm pos :
  graph_ok g -> valid_node g node ->
  exists r o g', sol_fbp_graph_add_exported_in_port g node port idx nm pos = (r, o, g') /\ keeps_ok g (r, g').
Proof.
  intros Hg Hn. unfold sol_fbp_graph_add_exported_in_port. pose proof (go_exports _ Hg) as [Hi Ho].
  destruct (add_exported_ok g _ node port idx nm pos Hi Hn) as (r & o & l & -> & Hl).
  do 3 eexists. split; [done|]. apply keeps_nodes; [|done]. destruct Hg. by split.
Qed.

Lemma add_exported_out_ok g node port idx nm pos :
  graph_ok g -> valid_node g node ->
  exists r o g', sol_fbp_graph_add_exported_out_port g node port idx nm pos = (r, o, g') /\ keeps_ok g (r, g').
Proof.
  intros Hg Hn. unfold sol_fbp_graph_add_exported_out_port. pose proof (go_exports _ Hg) as [Hi Ho].
  destruct (add_exported_ok g _ node port idx nm pos Ho Hn) as (r & o & l & -> & Hl).
  do 3 eexists. split; [done|]. apply keeps_nodes; [|done]. destruct Hg. by split.
Qed.

Lemma declare_ok g nm mt cont pos : graph_ok g -> keeps_ok g (sol_fbp_graph_declare g nm mt cont pos).
Proof.
  intros Hg. unfold sol_fbp_graph_declare.
  destruct (Z.eqb_spec (blen nm) 0) as [|H1']; [by apply keeps_same|].
  destruct (Z.eqb_spec (blen mt) 0) as [|H2']; [by apply keeps_same|].
  destruct (Z.eqb_spec (blen cont) 0) as [|H3']; [by apply keeps_same|]. cbn [orb].
  destruct (find_from _ 0 (declarations g)) as [[? ?]|] eqn:Ef; [by apply keeps_same|].
  append_cases declaration_bytes (blen (declarations g)); [by apply keeps_same|].
  apply keeps_nodes; [|done]. destruct Hg as [? ? ? ? (Hd1 & Hd2 & Hd3) ?]. split; try done. cbn. split_and!.
  - apply nodup_snoc; [done|]. eapply find_from_new; [|exact Ef]. intros x. by rewrite slice_eq_false.
  - by apply blen_snoc.
  - apply Forall_app. split; [done|]. apply Forall_singleton. cbn. split_and!; by intros ->.
Qed.

Lemma option_ok g node nm opt pos :
  graph_ok g -> valid_node g node -> keeps_ok g (sol_fbp_graph_option g node nm opt pos).
Proof.
  intros Hg Hn. unfold sol_fbp_graph_option.
  destruct (Z.eqb_spec (blen nm) 0) as [|H1']; [by apply keeps_same|].
  destruct (Z.eqb_spec (blen opt) 0) as [|H2']; [by apply keeps_same|]. cbn [orb].
  destruct (find_from _ 0 (options g)) as [[? ?]|] eqn:Ef; [by apply keeps_same|].
  append_cases option_bytes (blen (options g)); [by apply keeps_same|].
  apply keeps_nodes; [|done]. destruct Hg as [? ? ? ? ? (Ho1 & Ho2 & Ho3)]. split; try done. cbn. split_and!.
  - apply nodup_snoc; [done|]. eapply find_from_new; [|exact Ef]. intros x. by rewrite slice_eq_false.
  - by apply blen_snoc.
  - apply Forall_app. split; [done|]. apply Forall_singleton. cbn. split_and!; [done|..]; by intros ->.
Qed.

(** ** Sequences of operations *)

Inductive gop :=
| AddNode (nm comp : list Z) (pos : sol_fbp_position)
| AddMeta (node : Z) (key value : list Z) (pos : sol_fbp_position)
| AddInPort (node : Z) (nm : list Z) (pos : sol_fbp_position)
| AddOutPort (node : Z) (nm : list Z) (pos : sol_fbp_position)
| AddConn (s : Z) (sp : list Z) (si d : Z) (dp : list Z) (di : Z) (pos : sol_fbp_position)
| AddExportedIn (node : Z) (p : list Z) (idx : Z) (nm : list Z) (pos : sol_fbp_position)
| AddExportedOut (node : Z) (p : list Z) (idx : Z) (nm : list Z) (pos : sol_fbp_position)
| AddDeclaration (nm mt cont : list Z) (pos : sol_fbp_position)
| AddOption (node : Z) (nm opt : list Z) (pos : sol_fbp_position).

(** The answer and the new graph. *)
Definition run_gop (g : sol_fbp_graph) (op : gop) : Z * sol_fbp_graph :=
  match op with
  | AddNode nm comp pos => let '(r, _, g) := sol_fbp_graph_add_node g nm comp pos in (r, g)
  | AddMeta n k v pos => sol_fbp_graph_add_meta g n k v pos
  | AddInPort n nm pos => sol_fbp_graph_add_in_port g n nm pos
  | AddOutPort n nm pos => sol_fbp_graph_add_out_port g n nm pos
  | AddConn s sp si d dp di pos => sol_fbp_graph_add_conn g s sp si d dp di pos
  | AddExportedIn n p idx nm pos =>
      let '(r, _, g) := sol_fbp_graph_add_exported_in_port g n p idx nm pos in (r, g)
  | AddExportedOut n p idx nm pos =>
      let '(r, _, g) := sol_fbp_graph_add_exported_out_port g n p idx nm pos in (r, g)
  | AddDeclaration nm mt cont pos => sol_fbp_graph_declare g nm mt cont pos
  | AddOption n nm opt pos => sol_fbp_graph_option g n nm opt pos
  end.

(** The nodes that the code does not look up have to be there. *)
Definition gop_valid (g : sol_fbp_graph) (op : gop) : Prop :=
  match op with
  | AddConn s _ _ d _ _ _ => valid_node g s /\ valid_node g d
  | AddExportedIn n _ _ _ _ | AddExportedOut n _ _ _ _ | AddOption n _ _ _ => valid_node g n
  | _ => True
  end.

Fixpoint run_gops (g : sol_fbp_graph) (ops : list gop) : sol_fbp_graph :=
  match ops with [] => g | op :: ops => run_gops (run_gop g op).2 ops end.

Fixpoint gops_valid (g : sol_fbp_graph) (ops : list gop) : Prop :=
  match ops with [] => True | op :: ops => gop_valid g op /\ gops_valid (run_gop g op).2 ops end.

Lemma run_gop_ok g op : graph_ok g -> gop_valid g op -> graph_ok (run_gop g op).2 /\ extends g (run_gop g op).2.
Proof.
  assert (forall rg, keeps_ok g rg -> graph_ok rg.2 /\ extends g rg.2) as Hk by (intros rg (? & ? & _); done).
  intros Hg Hv. destruct op; cbn [run_gop gop_valid] in *.
  - destruct (add_node_spec g nm comp pos Hg) as (r & o & g' & -> & Hg' & He & _). done.
  - by apply Hk, add_meta_ok.
  - by apply Hk, add_in_port_ok.
  - by apply Hk, add_out_port_ok.
  - destruct Hv. by apply Hk, add_conn_ok.
  - destruct (add_exported_in_ok g node p idx nm pos Hg Hv) as (r & o & g' & -> & Hkeep). by apply (Hk _ Hkeep).
  - destruct (add_exported_out_ok g node p idx nm pos Hg Hv) as (r & o & g' & -> & Hkeep). by apply (Hk _ Hkeep).
  - by apply Hk, declare_ok.
  - by apply Hk, option_ok.
Qed.

(** C37: However a flow graph is built, and whatever runs out of memory on
    the way, it stays well formed: node names that do not start with the
    character # of the generated ones, the keys and ports of a node,
    connections, exports, declarations and options are never twice in it,
    connections, exports and options lead to its nodes as long as the caller
    gives nodes of the graph for them, every vector fits its 16 bit length;
    and nodes keep their index and their name. *)
Theorem graph_operations_keep_ok g ops :
  graph_ok g -> gops_valid g ops -> graph_ok (run_gops g ops) /\ extends g (run_gops g ops).
Proof.
  revert g. induction ops as [|op ops IH]; intros g Hg Hv; cbn [run_gops]; [by split; [|apply graph_extends_refl]|].
  destruct Hv as [Hop Hv]. destruct (run_gop_ok g op Hg Hop) as [Hg1 He1].
  destruct (IH _ Hg1 Hv) as [Hg2 He2]. split; [done|]. unfold extends in *. by etrans.
Qed.
End Ops2.

Section Examples.
#[local] Existing Instances gcc5 roomy.
#[local] Instance any_text : NameArena := {| keep_text := fun _ => 0 |}.

Lemma graph_operations_keep_ok_witness :
  let ops := [AddNode [97] [] (1, 1); AddNode [95] [116] (1, 3); AddOutPort 0 [79] (1, 5);
    AddConn 0 [79] (-1) 1 [73] (-1) (1, 5); AddConn 0 [79] (-1) 1 [73] (-1) (1, 9);
    AddExportedIn 1 [73] 2 [88] (2, 1); AddNode [97] [117] (3, 1); AddMeta 0 [107] [] (3, 4)] in
  graph_ok sol_fbp_graph_init /\ gops_valid sol_fbp_graph_init ops
  /\ graph_ok (run_gops sol_fbp_graph_init ops)
  /\ (component <$> nodes (run_gops sol_fbp_graph_init ops)) = [[117]; [116]]
  /\ length (conns (run_gops sol_fbp_graph_init ops)) = 1%nat.
Proof.
  intros ops. assert (gops_valid sol_fbp_graph_init ops) as Hv by (vm_compute; repeat split; discriminate).
  destruct (graph_operations_keep_ok sol_fbp_graph_init ops graph_init_ok Hv) as [Hok _].
  split; [exact graph_init_ok|]. split; [exact Hv|]. split; [exact Hok|].
  split; vm_compute; reflexivity.
Defined.
(** Two nodes without a name at one position get the same name. *)
Lemma anonymous_names_repeat :
  (name <$> nodes (run_gops sol_fbp_graph_init [AddNode [95] [116] (1, 3); AddNode [95] [117] (1, 3)]))
  = [anon_name (1, 3); anon_name (1, 3)].
Proof. vm_compute. reflexivity. Qed.

(** The index of a node loses its upper bits: 65536 is the first node. *)
Lemma node_index_wraps :
  (meta <$> nodes (run_gops sol_fbp_graph_init [AddNode [97] [116] (1, 1); AddMeta 65536 [107] [] (1, 3)]))
  = [[{| meta_key := [107]; meta_value := []; meta_position := (1, 3) |}]].
Proof. vm_compute. reflexivity. Qed.
End Examples.
End FbpGraph.
