(* ===== verification/FbpParser.v ===== *)
(** * The parser of flow programs

    Models src/src/shared/sol-fbp-parser.c on the scanner of FbpScanner.v and
    the graph of FbpGraph.v.  The parser's state is passed along; a function
    that returns bool and fills variables returns an option.  A message is
    its format with the arguments; whether there is memory to format it is
    what the class [Formatter] answers.  Loops take fuel; running out of it is undefined, and so is a
    failed assert.  The specification is a grammar: statements, the tokens
    that spell them, and what each does to the graph. *)

From Stdlib Require Import String.
From S2P Require Import Prelude Arith Vector Str FbpScanner FbpGraph.
Import FbpScanner FbpGraph.

#[local] Open Scope Z_scope.

Module FbpParser.

Inductive arg := ASlice (s : list Z) | AInt (n : Z).

Record message := { format : string; args : list arg }.

(** Does vasprintf find memory for the text?  Without it the pointer stays as
    it was. *)
Class Formatter := { vasprintf : string -> list arg -> bool }.

Record sol_fbp_parser := {
  scanner : sol_fbp_scanner;
  current_token : sol_fbp_token;
  pending_token : sol_fbp_token;
  error_msg : option message;
  error_pos : sol_fbp_position;
  graph : sol_fbp_graph
}.

Definition set_scanner (p : sol_fbp_parser) s := {| scanner := s; current_token := current_token p; pending_token := pending_token p; error_msg := error_msg p; error_pos := error_pos p; graph := graph p |}.
Definition set_current (p : sol_fbp_parser) t := {| scanner := scanner p; current_token := t; pending_token := pending_token p; error_msg := error_msg p; error_pos := error_pos p; graph := graph p |}.
Definition set_pending (p : sol_fbp_parser) t := {| scanner := scanner p; current_token := current_token p; pending_token := t; error_msg := error_msg p; error_pos := error_pos p; graph := graph p |}.
Definition set_error_msg (p : sol_fbp_parser) m := {| scanner := scanner p; current_token := current_token p; pending_token := pending_token p; error_msg := m; error_pos := error_pos p; graph := graph p |}.
Definition set_error_pos (p : sol_fbp_parser) e := {| scanner := scanner p; current_token := current_token p; pending_token := pending_token p; error_msg := error_msg p; error_pos := e; graph := graph p |}.
Definition set_graph (p : sol_fbp_parser) g := {| scanner := scanner p; current_token := current_token p; pending_token := pending_token p; error_msg := error_msg p; error_pos := error_pos p; graph := g |}.

Definition get_token_position (t : sol_fbp_token) : sol_fbp_position := (line t, column t).

Definition none_token (t : sol_fbp_token) : sol_fbp_token :=
  {| type := T_NONE; start := start t; end_ := end_ t; line := line t; column := column t |}.

(** A piece of the parser: what it finds, or [None] where the code returns
    false, and the new state. *)
Definition parsing (A : Type) : Type := sol_fbp_parser -> outcome (option A * sol_fbp_parser).

Definition found {A} (a : A) : parsing A := fun p => Ret (Some a, p).

Definition and_then {A B} (m : parsing A) (k : A -> parsing B) : parsing B := fun p =>
  '(r, p) ← m p; match r with Some a => k a p | None => Ret (None, p) end.

Notation "x ⇐ m ; k" := (and_then m (fun x => k)) (at level 20, m at level 100, k at level 200,
  right associativity).
Notation "' x ⇐ m ; k" := (and_then m (fun x => k)) (at level 20, x pattern, m at level 100,
  k at level 200, right associativity).
Notation "m ;;; k" := (and_then m (fun _ => k)) (at level 100, k at level 200, right associativity).

Section Parser.
Context `{BuildConfig} `{Allocator} `{NameArena} `{Formatter}.
Context (input : list Z).

Definition next_token (p : sol_fbp_parser) : outcome (sol_fbp_token_type * sol_fbp_parser) :=
  let ty := type (pending_token p) in
  if negb (bool_decide (ty = T_NONE)) then
    Ret (ty, set_pending (set_current p (pending_token p)) (none_token (pending_token p)))
  else
    s ← sol_fbp_scan_token input (scanner p);
    Ret (type (token s), set_current (set_scanner p s) (token s)).

Definition peek_token (p : sol_fbp_parser) : outcome (sol_fbp_token_type * sol_fbp_parser) :=
  let ty := type (pending_token p) in
  if negb (bool_decide (ty = T_NONE)) then Ret (ty, p)
  else
    let old := current_token p in
    '(ty, p) ← next_token p;
    Ret (ty, set_current (set_pending p (current_token p)) old).

(** The text of a token. *)
Definition token_text (t : sol_fbp_token) : list Z :=
  take (Z.to_nat (end_ t - start t)) (drop (Z.to_nat (start t)) input).

Definition get_token_slice (p : sol_fbp_parser) : list Z := token_text (current_token p).

Definition set_parse_error (p : sol_fbp_parser) (fmt : string) (l : list arg) : sol_fbp_parser :=
  let p := if vasprintf fmt l then set_error_msg p (Some {| format := fmt; args := l |}) else p in
  if (error_pos p).1 =? 0 then set_error_pos p (get_token_position (current_token p)) else p.

(** ** As pieces *)

Definition fail {A} (fmt : string) (l : list arg) : parsing A := fun p =>
  Ret (None, set_parse_error p fmt l).

Definition next : parsing sol_fbp_token_type := fun p =>
  '(t, p) ← next_token p; Ret (Some t, p).

Definition peek : parsing sol_fbp_token_type := fun p =>
  '(t, p) ← peek_token p; Ret (Some t, p).

Definition slice : parsing (list Z) := fun p => Ret (Some (get_token_slice p), p).

Definition token_pos : parsing sol_fbp_position := fun p =>
  Ret (Some (get_token_position (current_token p)), p).

Definition on_graph {A} (f : sol_fbp_graph -> A * sol_fbp_graph) : parsing A := fun p =>
  let '(a, g) := f (graph p) in Ret (Some a, set_graph p g).

(** if (next_token(p) != ty) return set_parse_error(...) *)
Definition expect_token (ty : sol_fbp_token_type) (fmt : string) : parsing unit :=
  t ⇐ next; if negb (bool_decide (t = ty)) then fail fmt [] else found tt.

(** assert(next_token(p) == ty) *)
Definition assert_token (ty : sol_fbp_token_type) : parsing unit := fun p =>
  '(t, p) ← next_token p; if bool_decide (t = ty) then Ret (Some tt, p) else UB.

(** ** Statements *)

(** sol_str_slice_to_int(idx, port_idx), the result ignored. *)
Definition to_port_idx (idx : list Z) (port_idx : Z) : Z :=
  let '(r, v) := StrSlice.sol_str_slice_to_int idx in if r =? 0 then v else port_idx.

(** An index in brackets, if there is one. *)
Definition parse_port_idx (port_idx : Z) : parsing Z :=
  t ⇐ peek;
  if negb (bool_decide (t = T_BRACKET_OPEN)) then found port_idx
  else
    next ;;;
    expect_token T_INTEGER "Expected integer number for port index" ;;;
    idx ⇐ slice;
    expect_token T_BRACKET_CLOSE "Expected ']' after port index" ;;;
    found (to_port_idx idx port_idx).

Definition parse_exported_port : parsing (list Z * list Z * Z * list Z) :=
  expect_token T_EQUAL "Expected '=' after exported port keyword" ;;;
  expect_token T_IDENTIFIER "Expected node identifier in export port statement" ;;;
  node ⇐ slice;
  expect_token T_DOT "Expected '.' after node identifier in export port statement" ;;;
  expect_token T_IDENTIFIER "Expected port identifier in export port statement" ;;;
  port ⇐ slice;
  port_idx ⇐ parse_port_idx (-1);
  expect_token T_COLON "Expected ':' after port identifier in export port statement" ;;;
  expect_token T_IDENTIFIER "Expected exported port identifier" ;;;
  exported_port ⇐ slice;
  found (node, port, port_idx, exported_port).

Definition at_position {A} (pos : sol_fbp_position) (m : parsing A) : parsing A := fun p =>
  m (set_error_pos p pos).

Definition handle_node_error {A} (nm : list Z) (pos : sol_fbp_position) (error : Z)
    (err_node : option sol_fbp_node) : parsing A :=
  at_position pos (
    if error =? - EINVAL then
      fail "Anonymous node type must be defined. e.g. '_(nodetype)'" []
    else
      match error =? - EEXIST, err_node with
      | true, Some n =>
          fail "Node '%.*s' already declared with type '%.*s' at %d:%d"
            [ASlice nm; ASlice (component n); AInt (position n).1; AInt (position n).2]
      | _, _ => fail "Couldn't create node '%.*s': %s" [ASlice nm; AInt error]
      end).

Definition handle_conn_error {A} (s : Z) (sp : list Z) (si d : Z) (dp : list Z) (di : Z)
    (pos : sol_fbp_position) (error : Z) : parsing A :=
  at_position pos (fun p =>
    let other := fail "Couldn't add connection '%.*s -> %.*s': %s" [ASlice sp; ASlice dp; AInt error] p in
    if error =? - EEXIST then
      match find_from (same_conn s sp si d dp di) 0 (conns (graph p)) with
      | Some (_, c) =>
          fail "Connection '%.*s[%d] -> %.*s[%d]' already declared at %d:%d"
            [ASlice sp; AInt si; ASlice dp; AInt di; AInt (conn_position c).1; AInt (conn_position c).2] p
      | None => other
      end
    else other).

(** Without the node it returns -EINVAL, which is true as a bool. *)
Definition handle_meta_error (node : Z) (key : list Z) (pos : sol_fbp_position) (error : Z)
    : parsing unit :=
  at_position pos (fun p =>
    match nodes (graph p) !! vector_index node with
    | None => found tt p
    | Some n =>
        let other := fail "Couldn't add option '%.*s': %s" [ASlice key; AInt error] p in
        if error =? - EEXIST then
          match find_from (fun m => slice_eq (meta_key m) key) 0 (meta n) with
          | Some (_, m) =>
              fail "Node '%.*s' option '%.*s' already declared at %d:%d"
                [ASlice (name n); ASlice key; AInt (meta_position m).1; AInt (meta_position m).2] p
          | None => other
          end
        else other
    end).

(** sol_fbp_graph_add_node and the test of its result. *)
Definition add_node (nm comp : list Z) (pos : sol_fbp_position) : parsing Z :=
  '(n, err_node) ⇐ on_graph (fun g => sol_fbp_graph_add_node g nm comp pos);
  if n <? 0 then handle_node_error nm pos n err_node else found n.

(** The messages of the two export statements. *)
Definition export_exists (input_port : bool) : string :=
  if input_port then "Exported input port with name '%.*s' already declared in %d:%d"
  else "Exported output port with name '%.*s' already declared in %d:%d".

Definition export_in_use (input_port : bool) : string :=
  if input_port then "Node '%.*s' and input port '%.*s' already exported as '%.*s' declared in %d:%d"
  else "Node '%.*s' and output port '%.*s' already exported as '%.*s' declared in %d:%d".

(** An exported port statement behind its keyword, for both directions. *)
Definition parse_export_stmt (input_port : bool) : parsing unit :=
  '(node, port, port_idx, exported) ⇐ parse_exported_port;
  pos ⇐ token_pos;
  node_idx ⇐ add_node node [] pos;
  on_graph (fun g => if input_port then sol_fbp_graph_add_in_port g node_idx port pos
                     else sol_fbp_graph_add_out_port g node_idx port pos) ;;;
  if negb (wraps 32 port_idx =? port_idx) then (fun p => Ret (None, p))
  else
    '(err, ep) ⇐ on_graph (fun g =>
      if input_port then sol_fbp_graph_add_exported_in_port g node_idx port port_idx exported pos
      else sol_fbp_graph_add_exported_out_port g node_idx port port_idx exported pos);
    match ep with
    | Some ep =>
        if err =? - EEXIST then
          fail (export_exists input_port)
            [ASlice exported; AInt (ep_position ep).1; AInt (ep_position ep).2]
        else if err =? - EADDRINUSE then
          fail (export_in_use input_port)
            [ASlice node; ASlice port; ASlice (exported_name ep); AInt (ep_position ep).1;
             AInt (ep_position ep).2]
        else found tt
    | None => found tt
    end.

Definition parse_inport_stmt : parsing unit :=
  assert_token T_INPORT_KEYWORD ;;; parse_export_stmt true.

Definition parse_outport_stmt : parsing unit :=
  assert_token T_OUTPORT_KEYWORD ;;; parse_export_stmt false.

Definition parse_declare_stmt : parsing unit :=
  assert_token T_DECLARE_KEYWORD ;;;
  expect_token T_EQUAL "Expected '=' after DECLARE keyword" ;;;
  expect_token T_IDENTIFIER "Expected name in declaration statement" ;;;
  nm ⇐ slice;
  pos ⇐ token_pos;
  expect_token T_COLON "Expected ':' after name in declaration statement" ;;;
  expect_token T_IDENTIFIER "Expected metatype name in declaration statement" ;;;
  mt ⇐ slice;
  expect_token T_COLON "Expected ':' after metatype name in declaration statement" ;;;
  expect_token T_IDENTIFIER "Expected declaration contents" ;;;
  cont ⇐ slice;
  err ⇐ on_graph (fun g => sol_fbp_graph_declare g nm mt cont pos);
  if err =? - EEXIST then at_position pos (fail "Type '%.*s' already declared" [ASlice nm])
  else if err =? - EINVAL then at_position pos (fail "Type '%.*s' with invalid values" [ASlice nm])
  else found tt.

Definition parse_option_stmt : parsing unit :=
  assert_token T_OPTION_KEYWORD ;;;
  expect_token T_EQUAL "Expected '=' after OPTION keyword" ;;;
  expect_token T_IDENTIFIER "Expected node name in option statement" ;;;
  node_name ⇐ slice;
  pos ⇐ token_pos;
  expect_token T_DOT "Expected '.' after node name in option statement" ;;;
  expect_token T_IDENTIFIER "Expected node option's original name in option statement" ;;;
  node_opt ⇐ slice;
  expect_token T_COLON "Expected ':' after option name in option statement" ;;;
  expect_token T_IDENTIFIER "Expected exported option name in option statement" ;;;
  opt ⇐ slice;
  node_idx ⇐ add_node node_name [] pos;
  err ⇐ on_graph (fun g => sol_fbp_graph_option g node_idx opt node_opt pos);
  if err =? - EEXIST then at_position pos (fail "Option '%.*s' already declared" [ASlice opt])
  else if err =? - EINVAL then at_position pos (fail "Option '%.*s' with invalid values" [ASlice opt])
  else if err <? 0 then at_position pos (fail "Failed to parse option '%.*s'" [ASlice opt])
  else found tt.

Definition meta_usage : string :=
  "Expected key for node meta information. e.g. '(nodetype:key1:val2,keyN:valN)'".

(** The key and the value of one pair. *)
Definition parse_meta_item : parsing (list Z * list Z * sol_fbp_position) :=
  expect_token T_IDENTIFIER meta_usage ;;;
  key ⇐ slice;
  pos ⇐ token_pos;
  t ⇐ peek;
  if bool_decide (t = T_EQUAL) then
    next ;;;
    curr ⇐ next;
    if negb (bool_decide (curr = T_IDENTIFIER)) && negb (bool_decide (curr = T_STRING)) then
      fail "Expected value for node meta information. e.g. '(nodetype:key1:val2,keyN:valN)'" []
    else value ⇐ slice; found (key, value, pos)
  else found (key, [], pos).

(** while (peek_token(p) != SOL_FBP_TOKEN_PAREN_CLOSE) *)
Fixpoint parse_meta_loop (fuel : nat) (node : Z) (first : bool) : parsing unit :=
  match fuel with
  | O => fun _ => UB
  | S fuel =>
      t ⇐ peek;
      if bool_decide (t = T_PAREN_CLOSE) then found tt
      else
        (if first then found tt
         else expect_token T_COMMA
           "Expected ',' after key-pair meta information. e.g. '(nodetype:key1:val2,keyN:valN)'") ;;;
        '(key, value, pos) ⇐ parse_meta_item;
        r ⇐ on_graph (fun g => sol_fbp_graph_add_meta g node key value pos);
        if r <? 0 then handle_meta_error node key pos r else parse_meta_loop fuel node false
  end.

(** A round of a loop takes a token; there are fewer than this. *)
Definition parse_fuel : nat := 8 * length input + 10.

Definition parse_meta (node : Z) : parsing unit :=
  t ⇐ peek;
  if negb (bool_decide (t = T_COLON)) then found tt
  else next ;;; parse_meta_loop parse_fuel node true.

Definition parse_node : parsing Z :=
  expect_token T_IDENTIFIER "Expected node identifier. e.g. 'node(nodetype)'" ;;;
  nm ⇐ slice;
  pos ⇐ token_pos;
  t ⇐ peek;
  if negb (bool_decide (t = T_PAREN_OPEN)) then add_node nm [] pos
  else
    next ;;;
    t ⇐ peek;
    if bool_decide (t = T_PAREN_CLOSE) then next ;;; add_node nm [] pos
    else
      expect_token T_IDENTIFIER "Expected node type after '('. e.g. 'node(nodetype)'" ;;;
      comp ⇐ slice;
      n ⇐ add_node nm comp pos;
      parse_meta n ;;;
      expect_token T_PAREN_CLOSE "Expected ')' after node type. e.g. 'node(nodetype)'" ;;;
      found n.

Definition parse_port (port_idx : Z) : parsing (list Z * Z) :=
  expect_token T_IDENTIFIER
    "Expected port identifier. e.g. 'node(nodetype) OUTPUT_PORT_NAME -> INPUT_PORT_NAME node2(nodetype2)'" ;;;
  nm ⇐ slice;
  idx ⇐ parse_port_idx port_idx;
  found (nm, idx).

Definition conn_usage : string :=
  "Expected node and port while defining a connection. e.g. 'node(nodetype) OUTPUT_PORT_NAME -> INPUT_PORT_NAME node2(nodetype2)'".

Definition arrow_usage : string :=
  "Expected '->' between connection statement. e.g. 'node(nodetype) OUTPUT_PORT_NAME -> INPUT_PORT_NAME node2(nodetype2)'".

(** if (peek_token(p) != SOL_FBP_TOKEN_IDENTIFIER) return set_parse_error(...) *)
Definition peek_identifier : parsing unit :=
  t ⇐ peek; if negb (bool_decide (t = T_IDENTIFIER)) then fail conn_usage [] else found tt.

(** One connection; answers the destination node. *)
Definition parse_link (src0 : Z) : parsing Z :=
  '(src_port_name, src_port_idx0) ⇐ parse_port (-1);
  conn_pos ⇐ token_pos;
  on_graph (fun g => sol_fbp_graph_add_out_port g src0 src_port_name conn_pos) ;;;
  t ⇐ next;
  if negb (bool_decide (t = T_ARROW)) then
    if bool_decide (t = T_PAREN_OPEN) then fail conn_usage [] else fail arrow_usage []
  else
    peek_identifier ;;;
    '(dst_port_name, dst_port_idx0) ⇐ parse_port (-1);
    in_port_position ⇐ token_pos;
    peek_identifier ;;;
    dst0 ⇐ parse_node;
    on_graph (fun g => sol_fbp_graph_add_in_port g dst0 dst_port_name in_port_position) ;;;
    if negb (wraps 32 src_port_idx0 =? src_port_idx0) then (fun p => Ret (None, p))
    else if negb (wraps 32 dst_port_idx0 =? dst_port_idx0) then (fun p => Ret (None, p))
    else
      r ⇐ on_graph (fun g => sol_fbp_graph_add_conn g src0 src_port_name src_port_idx0
                               dst0 dst_port_name dst_port_idx0 conn_pos);
      if r <? 0 then
        handle_conn_error src0 src_port_name src_port_idx0 dst0 dst_port_name dst_port_idx0 conn_pos r
      else found dst0.

(** while (peek_token(p) == SOL_FBP_TOKEN_IDENTIFIER) *)
Fixpoint parse_links (fuel : nat) (src0 : Z) : parsing unit :=
  match fuel with
  | O => fun _ => UB
  | S fuel =>
      t ⇐ peek;
      if bool_decide (t = T_IDENTIFIER) then dst0 ⇐ parse_link src0; parse_links fuel dst0
      else found tt
  end.

Definition parse_conn_stmt : parsing unit :=
  src0 ⇐ parse_node;
  t ⇐ peek;
  if negb (bool_decide (t = T_IDENTIFIER)) && negb (bool_decide (t = T_STMT_SEPARATOR))
     && negb (bool_decide (t = T_EOF))
  then fail conn_usage []
  else parse_links parse_fuel src0.

Definition parse_stmt : parsing unit :=
  t ⇐ peek;
  match t with
  | T_INPORT_KEYWORD => parse_inport_stmt
  | T_OUTPORT_KEYWORD => parse_outport_stmt
  | T_DECLARE_KEYWORD => parse_declare_stmt
  | T_OPTION_KEYWORD => parse_option_stmt
  | T_IDENTIFIER => parse_conn_stmt
  | T_STMT_SEPARATOR => next ;;; found tt
  | T_EOF => fun p => Ret (None, p)
  | T_ARROW => next ;;; fail "Arrow symbol must appear between two port names" []
  | _ => next ;;; s ⇐ slice; fail "Couldn't parse statement '%.*s'." [ASlice s]
  end.

(** while (parse_stmt(p)) ; *)
Fixpoint parse_stmts (fuel : nat) (p : sol_fbp_parser) : outcome sol_fbp_parser :=
  match fuel with
  | O => UB
  | S fuel =>
      '(r, p) ← parse_stmt p;
      match r with Some _ => parse_stmts fuel p | None => Ret p end
  end.

Definition parse_stmt_list (p : sol_fbp_parser) : outcome sol_fbp_parser :=
  p ← parse_stmts parse_fuel p;
  match error_msg p with
  | Some _ => Ret p
  | None =>
      '(t, p) ← peek_token p;
      Ret (if negb (bool_decide (t = T_EOF)) then set_parse_error p "Invalid trailing after statements." []
           else p)
  end.

Definition verify_graph (p : sol_fbp_parser) : bool * sol_fbp_parser :=
  match find_from (fun n => blen (component n) =? 0) 0 (nodes (graph p)) with
  | Some (_, n) =>
      (false, set_parse_error (set_error_pos p (position n))
         "Node '%.*s' doesn't have a type, Node type must be defined. e.g. 'node(nodetype)'"
         [ASlice (name n)])
  | None => (true, p)
  end.

Record sol_fbp_error := { e_msg : option message; e_position : sol_fbp_position }.

(** sizeof(struct sol_fbp_error) *)
Definition error_bytes := 16.

Definition parser_init (g : sol_fbp_graph) : sol_fbp_parser :=
  let t := {| type := T_NONE; start := 0; end_ := 0; line := 0; column := 0 |} in
  {| scanner := sol_fbp_scanner_init input; current_token := t; pending_token := t;
     error_msg := None; error_pos := (0, 0); graph := g |}.

(** The error ([None] for NULL) and the graph. *)
Definition sol_fbp_parse (g : sol_fbp_graph) : outcome (option sol_fbp_error * sol_fbp_graph) :=
  p ← parse_stmt_list (parser_init g);
  let '(valid, p) := (match error_msg p with None => verify_graph p | Some _ => (false, p) end) in
  if valid then Ret (None, graph p)
  else
    match c_malloc error_bytes with
    | None => Ret (None, graph p)
    | Some _ => Ret (Some {| e_msg := error_msg p; e_position := error_pos p |}, graph p)
    end.
End Parser.
End FbpParser.
