(* ===== verification/FbpGrammar.v ===== *)
(** * The grammar of flow programs, and the parser's correctness

    A program is a list of statements; [spells] says which tokens write one
    down, [run_stmt] what it does to the graph.  The parser of FbpParser.v is
    compared with the two: it accepts exactly the programs that run, with the
    graph they leave, and ends on every input. *)

From Stdlib Require Import String.
From S2P Require Import Prelude Arith Vector Str FbpScanner FbpGraph FbpParser.
Import FbpScanner FbpGraph FbpParser.

#[local] Open Scope Z_scope.

Module FbpGrammar.

(** ** Streams of tokens *)

Definition final (t : sol_fbp_token) : Prop := type t = T_EOF \/ type t = T_ERROR.
#[export] Instance final_dec t : Decision (final t).
Proof. unfold final. apply _. Defined.

(** What the scanner still answers: the tokens up to the last one, which it
    repeats. *)
Definition scans (input : list Z) (s : sol_fbp_scanner) (tks : list sol_fbp_token) : Prop :=
  exists fuel, scan_all input fuel s = Ret tks.

(** Only the last token is final. *)
Fixpoint stream (tks : list sol_fbp_token) : Prop :=
  match tks with
  | [] => False
  | [t] => final t
  | t :: tks => ~ final t /\ stream tks
  end.

(** The stream behind its first token. *)
Definition behind (t : sol_fbp_token) (tks : list sol_fbp_token) : list sol_fbp_token :=
  match tks with [] => [t] | _ => tks end.

Lemma stream_behind t tks : stream (t :: tks) -> stream (behind t tks).
Proof. destruct tks; [done|]. by intros [? ?]. Qed.

Lemma length_behind t tks : (length (behind t tks) <= length (t :: tks))%nat.
Proof. destruct tks; simpl; lia. Qed.

Lemma behind_more t tks : stream (t :: tks) -> ~ final t -> behind t tks = tks.
Proof. by destruct tks. Qed.

Lemma scan_loop_type input fuel : forall s s', scan_loop input fuel s = Ret s' -> type (token s') <> T_NONE.
Proof.
  induction fuel as [|fuel IH]; intros s s'; cbn [scan_loop]; [done|].
  destruct (sstate s) as [st|]; [|done]. destruct (call_state input st s) as [[st' s2]|]; [|done].
  rewrite bind_ret. cbv zeta. destruct (decide _); [apply IH|]. by intros [= <-].
Qed.

Lemma scan_token_type input s s' : sol_fbp_scan_token input s = Ret s' -> type (token s') <> T_NONE.
Proof.
  unfold sol_fbp_scan_token. case_bool_decide as Hf; [|apply scan_loop_type].
  intros [= <-]. destruct Hf as [-> | ->]; done.
Qed.

Lemma scan_token_final input s : final (token s) -> sol_fbp_scan_token input s = Ret s.
Proof. intros Hf. unfold sol_fbp_scan_token. by rewrite bool_decide_true. Qed.

(** One call of the scanner. *)
Lemma scans_step input s tks :
  scans input s tks ->
  exists s' more, sol_fbp_scan_token input s = Ret s' /\ tks = token s' :: more
    /\ stream tks /\ type (token s') <> T_NONE /\ scans input s' (behind (token s') more).
Proof.
  intros [fuel Hs]. revert s tks Hs.
  induction fuel as [|fuel IH]; intros s tks; cbn [scan_all]; [done|].
  intros (s' & Hs & Hrun)%bind_Ret_inv. pose proof (scan_token_type _ _ _ Hs) as Hty.
  exists s'. case_bool_decide as Hf.
  - injection Hrun as <-. exists []. split_and!; [done|done|done|done|]. exists 1%nat.
    cbn [scan_all]. rewrite scan_token_final, bind_ret by done. by rewrite bool_decide_true.
  - apply bind_Ret_inv in Hrun as (more & Hmore & [= <-]). exists more.
    destruct (IH _ _ Hmore) as (s2 & more2 & _ & -> & Hst & _). split_and!; [done|done| |done|by exists fuel].
    by split.
Qed.

(** ** Statements *)

(** A word of the program, and where it stands. *)
Record word := { w_text : list Z; w_pos : sol_fbp_position }.

(** A port; the index comes with the position of its closing bracket. *)
Record port := { p_name : word; p_index : option (word * sol_fbp_position) }.

Inductive meta_value := NoValue | Ident (w : word) | Str (w : word).

Record pair := { p_key : word; p_value : meta_value }.

(** What follows the name of a node: nothing, [()], or a type in parentheses
    that may be followed by a colon and pairs. *)
Inductive spec := Bare | Empty | Typed (comp : word) (pairs : option (list pair)).

Record node := { n_name : word; n_spec : spec }.

(** A connection: the source port, the destination port and node. *)
Record link := { l_src : port; l_dst : port; l_node : node }.

Inductive stmt :=
| Export (input_port : bool) (node_name : word) (p : port) (exported : word)
| Declaration (nm mt cont : word)
| Option_ (node_name opt nm : word)
| Connect (first : node) (links : list link)
| Separator.

(** *** The tokens that write a statement *)

Inductive sym :=
| P (ty : sol_fbp_token_type)
| W (ty : sol_fbp_token_type) (w : word)
| Bracket (pos : sol_fbp_position).

Definition index_syms (i : option (word * sol_fbp_position)) : list sym :=
  match i with
  | None => []
  | Some (w, pos) => [P T_BRACKET_OPEN; W T_INTEGER w; Bracket pos]
  end.

Definition port_syms (p : port) : list sym := W T_IDENTIFIER (p_name p) :: index_syms (p_index p).

Definition value_syms (v : meta_value) : list sym :=
  match v with
  | NoValue => []
  | Ident w => [P T_EQUAL; W T_IDENTIFIER w]
  | Str w => [P T_EQUAL; W T_STRING w]
  end.

Definition pair_syms (x : pair) : list sym := W T_IDENTIFIER (p_key x) :: value_syms (p_value x).

(** The pairs behind the first are behind commas. *)
Fixpoint pairs_syms (first : bool) (l : list pair) : list sym :=
  match l with
  | [] => []
  | x :: l => (if first then [] else [P T_COMMA]) ++ pair_syms x ++ pairs_syms false l
  end.

Definition spec_syms (sp : spec) : list sym :=
  match sp with
  | Bare => []
  | Empty => [P T_PAREN_OPEN; P T_PAREN_CLOSE]
  | Typed comp None => [P T_PAREN_OPEN; W T_IDENTIFIER comp; P T_PAREN_CLOSE]
  | Typed comp (Some l) =>
      [P T_PAREN_OPEN; W T_IDENTIFIER comp; P T_COLON] ++ pairs_syms true l ++ [P T_PAREN_CLOSE]
  end.

Definition node_syms (n : node) : list sym := W T_IDENTIFIER (n_name n) :: spec_syms (n_spec n).

Definition link_syms (l : link) : list sym :=
  port_syms (l_src l) ++ [P T_ARROW] ++ port_syms (l_dst l) ++ node_syms (l_node l).

Definition export_syms (nm : word) (p : port) (exported : word) : list sym :=
  [P T_EQUAL; W T_IDENTIFIER nm; P T_DOT] ++ port_syms p ++ [P T_COLON; W T_IDENTIFIER exported].

Definition stmt_syms (st : stmt) : list sym :=
  match st with
  | Export input_port nm p exported =>
      P (if input_port then T_INPORT_KEYWORD else T_OUTPORT_KEYWORD) :: export_syms nm p exported
  | Declaration nm mt cont =>
      [P T_DECLARE_KEYWORD; P T_EQUAL; W T_IDENTIFIER nm; P T_COLON; W T_IDENTIFIER mt; P T_COLON;
       W T_IDENTIFIER cont]
  | Option_ nm opt ex =>
      [P T_OPTION_KEYWORD; P T_EQUAL; W T_IDENTIFIER nm; P T_DOT; W T_IDENTIFIER opt; P T_COLON;
       W T_IDENTIFIER ex]
  | Connect first links => node_syms first ++ (links ≫= link_syms)
  | Separator => [P T_STMT_SEPARATOR]
  end.

(** What may stand behind a statement: a node alone ends at a separator, and
    a connection does not run into another. *)
Definition may_follow (st : stmt) (rest : list stmt) : bool :=
  match st, rest with
  | Connect _ [], [] | Connect _ [], Separator :: _ => true
  | Connect _ [], _ => false
  | Connect _ _, Connect _ _ :: _ => false
  | _, _ => true
  end.

Fixpoint separated (l : list stmt) : bool :=
  match l with
  | [] => true
  | st :: l => may_follow st l && separated l
  end.

(** *** What a statement does to the graph; [None] is an error *)

Definition port_index (p : port) : Z :=
  match p_index p with None => -1 | Some (w, _) => to_port_idx (w_text w) (-1) end.

(** Where the port's last token stands. *)
Definition port_end (p : port) : sol_fbp_position :=
  match p_index p with None => w_pos (p_name p) | Some (_, pos) => pos end.

Definition value_text (v : meta_value) : list Z :=
  match v with NoValue => [] | Ident w | Str w => w_text w end.

Section Parsing.
Context `{BuildConfig} `{Allocator} `{NameArena} `{Formatter}.
Context (input : list Z).

(** *** Running *)

Definition run_add_node (nm : word) (comp : list Z) (g : sol_fbp_graph) : option (Z * sol_fbp_graph) :=
  let '(n, _, g) := sol_fbp_graph_add_node g (w_text nm) comp (w_pos nm) in
  if n <? 0 then None else Some (n, g).

Fixpoint run_pairs (n : Z) (l : list pair) (g : sol_fbp_graph) : option sol_fbp_graph :=
  match l with
  | [] => Some g
  | x :: l =>
      let '(r, g) := sol_fbp_graph_add_meta g n (w_text (p_key x)) (value_text (p_value x)) (w_pos (p_key x)) in
      if r <? 0 then None else run_pairs n l g
  end.

Definition run_node (nd : node) (g : sol_fbp_graph) : option (Z * sol_fbp_graph) :=
  match n_spec nd with
  | Bare | Empty => run_add_node (n_name nd) [] g
  | Typed comp l =>
      '(n, g) ← run_add_node (n_name nd) (w_text comp) g;
      g ← run_pairs n (default [] l) g;
      Some (n, g)
  end.

Definition run_link (src0 : Z) (l : link) (g : sol_fbp_graph) : option (Z * sol_fbp_graph) :=
  let a := l_src l in
  let b := l_dst l in
  let g := (sol_fbp_graph_add_out_port g src0 (w_text (p_name a)) (port_end a)).2 in
  '(dst0, g) ← run_node (l_node l) g;
  let g := (sol_fbp_graph_add_in_port g dst0 (w_text (p_name b)) (port_end b)).2 in
  let '(r, g) := sol_fbp_graph_add_conn g src0 (w_text (p_name a)) (port_index a)
                   dst0 (w_text (p_name b)) (port_index b) (port_end a) in
  if r <? 0 then None else Some (dst0, g).

Fixpoint run_links (src0 : Z) (l : list link) (g : sol_fbp_graph) : option sol_fbp_graph :=
  match l with
  | [] => Some g
  | x :: l => '(dst0, g) ← run_link src0 x g; run_links dst0 l g
  end.

(** An export only fails over another one; -ENOMEM goes unnoticed. *)
Definition clash (err : Z) : bool := (err =? - EEXIST) || (err =? - EADDRINUSE).

Definition run_stmt (st : stmt) (g : sol_fbp_graph) : option sol_fbp_graph :=
  match st with
  | Export input_port nm p ex =>
      '(n, g) ← run_add_node {| w_text := w_text nm; w_pos := w_pos ex |} [] g;
      let port := w_text (p_name p) in
      let '(err, _, g) :=
        (if input_port
         then sol_fbp_graph_add_exported_in_port (sol_fbp_graph_add_in_port g n port (w_pos ex)).2
                n port (port_index p) (w_text ex) (w_pos ex)
         else sol_fbp_graph_add_exported_out_port (sol_fbp_graph_add_out_port g n port (w_pos ex)).2
                n port (port_index p) (w_text ex) (w_pos ex)) in
      if clash err then None else Some g
  | Declaration nm mt cont =>
      let '(err, g) := sol_fbp_graph_declare g (w_text nm) (w_text mt) (w_text cont) (w_pos nm) in
      if (err =? - EEXIST) || (err =? - EINVAL) then None else Some g
  | Option_ nm opt ex =>
      '(n, g) ← run_add_node nm [] g;
      let '(err, g) := sol_fbp_graph_option g n (w_text ex) (w_text opt) (w_pos nm) in
      if err <? 0 then None else Some g
  | Connect first links => '(n, g) ← run_node first g; run_links n links g
  | Separator => Some g
  end.

Fixpoint run_stmts (l : list stmt) (g : sol_fbp_graph) : option sol_fbp_graph :=
  match l with
  | [] => Some g
  | st :: l => g ← run_stmt st g; run_stmts l g
  end.

(** *** Spelling *)

Definition fits (s : sym) (t : sol_fbp_token) : Prop :=
  match s with
  | P ty => type t = ty
  | W ty w => type t = ty /\ token_text input t = w_text w /\ get_token_position t = w_pos w
  | Bracket pos => type t = T_BRACKET_CLOSE /\ get_token_position t = pos
  end.

(** [tks] starts with tokens that write [l], then comes [tks']. *)
Definition reads (tks : list sol_fbp_token) (l : list sym) (tks' : list sol_fbp_token) : Prop :=
  exists ts, tks = ts ++ tks' /\ Forall2 fits l ts.

Lemma reads_nil tks tks' : reads tks [] tks' <-> tks = tks'.
Proof.
  split; [|intros ->; by exists []]. by intros (ts & -> & ->%Forall2_nil_inv_l).
Qed.

Lemma reads_cons tks s l tks' :
  reads tks (s :: l) tks' <-> exists t more, tks = t :: more /\ fits s t /\ reads more l tks'.
Proof.
  split.
  - intros (ts & -> & (t & ts' & Ht & Hts & ->)%Forall2_cons_inv_l). exists t, (ts' ++ tks').
    split_and!; [done|done|]. by exists ts'.
  - intros (t & more & -> & Ht & ts & -> & Hts). exists (t :: ts). split; [done|]. by constructor.
Qed.

Lemma reads_app tks a b tks' :
  reads tks (a ++ b) tks' <-> exists mid, reads tks a mid /\ reads mid b tks'.
Proof.
  revert tks. induction a as [|s a IH]; intros tks; cbn [app].
  - split; [intros Hr; exists tks; by rewrite reads_nil|]. intros (mid & ->%reads_nil & Hr). done.
  - rewrite reads_cons. split.
    + intros (t & more & -> & Ht & (mid & Ha & Hb)%IH). exists mid. split; [|done].
      apply reads_cons. by exists t, more.
    + intros (mid & (t & more & -> & Ht & Ha)%reads_cons & Hb). exists t, more. split_and!; [done|done|].
      apply IH. by exists mid.
Qed.

Lemma reads_length tks l tks' : reads tks l tks' -> length tks = (length l + length tks')%nat.
Proof. intros (ts & -> & Hl%Forall2_length). rewrite length_app. lia. Qed.

(** ** The parser's view of its tokens *)

(** The tokens the parser has not consumed. *)
Definition upcoming (p : sol_fbp_parser) (tks : list sol_fbp_token) : Prop :=
  if decide (type (pending_token p) = T_NONE) then scans input (scanner p) tks
  else exists more, tks = pending_token p :: more /\ stream tks
    /\ scans input (scanner p) (behind (pending_token p) more).

(** A state without an error: the tokens ahead (fewer than the fuel of the
    loops), the current one, the graph. *)
Definition cfg : Type := list sol_fbp_token * sol_fbp_token * sol_fbp_graph.

Definition at_ (p : sol_fbp_parser) (c : cfg) : Prop :=
  upcoming p c.1.1 /\ (length c.1.1 < parse_fuel input)%nat
  /\ current_token p = c.1.2 /\ graph p = c.2 /\ error_msg p = None.

Lemma at_stream p c : at_ p c -> stream c.1.1.
Proof.
  intros (Hu & _). unfold upcoming in Hu. destruct (decide _).
  - by destruct (scans_step _ _ _ Hu) as (? & ? & _ & _ & ? & _).
  - by destruct Hu as (? & _ & ? & _).
Qed.

(** [m] finds [a] on the way from [c] to [c']. *)
Definition finds {A} (m : parsing A) (c : cfg) (a : A) (c' : cfg) : Prop :=
  forall p, at_ p c -> exists p', m p = Ret (Some a, p') /\ at_ p' c'.

Lemma finds_found {A} (a : A) c : finds (found a) c a c.
Proof. intros p Hp. by exists p. Qed.

Lemma finds_bind {A B} (m : parsing A) (k : A -> parsing B) c a c' b c'' :
  finds m c a c' -> finds (k a) c' b c'' -> finds (and_then m k) c b c''.
Proof.
  intros Hm Hk p Hp. destruct (Hm p Hp) as (p' & Hr & Hp'). unfold and_then.
  rewrite Hr, bind_ret. by apply Hk.
Qed.

Lemma next_token_spec p t tks cur g :
  at_ p (t :: tks, cur, g) ->
  exists p', next_token input p = Ret (type t, p') /\ at_ p' (behind t tks, t, g)
    /\ type (pending_token p') = T_NONE /\ type t <> T_NONE /\ error_pos p' = error_pos p.
Proof.
  intros (Hu & Hl & Hc & Hg & He). unfold next_token.
  pose proof (length_behind t tks) as Hb. unfold upcoming in Hu. cbn [fst snd] in *.
  destruct (decide _) as [Hn|Hn].
  - rewrite bool_decide_true by done. cbn [negb].
    destruct (scans_step _ _ _ Hu) as (s' & more & -> & [= -> ->] & _ & Hty & Hmore). rewrite bind_ret.
    eexists. split; [done|]. unfold at_. split_and!; try done; [|cbn [fst]; lia]. unfold upcoming.
    cbn [fst snd pending_token set_current set_scanner scanner]. by rewrite decide_True.
  - rewrite bool_decide_false by done. cbn [negb]. destruct Hu as (more & [= -> ->] & _ & Hmore).
    eexists. split; [done|]. unfold at_. split_and!; try done. cbn [fst]; lia.
Qed.

Lemma peek_token_spec p t tks cur g :
  at_ p (t :: tks, cur, g) ->
  exists p', peek_token input p = Ret (type t, p') /\ at_ p' (t :: tks, cur, g) /\ error_pos p' = error_pos p.
Proof.
  intros Hp. pose proof (at_stream _ _ Hp) as Hst. unfold peek_token.
  destruct (decide (type (pending_token p) = T_NONE)) as [Hn|Hn].
  - rewrite bool_decide_true by done. cbn [negb].
    destruct (next_token_spec _ _ _ _ _ Hp) as (p' & -> & Hat & Hpend & Hty & Hep). rewrite bind_ret.
    destruct Hat as (Hu & _ & Hc & Hg & He), Hp as (_ & Hl & Hc0 & _). cbn [fst snd] in *.
    eexists. split; [done|]. split; [|done]. unfold at_. split_and!; try done.
    unfold upcoming in *. cbn [fst snd pending_token set_pending set_current scanner]. rewrite Hc. rewrite decide_True in Hu by done.
    rewrite decide_False by done. by exists tks.
  - rewrite bool_decide_false by done. cbn [negb]. pose proof Hp as (Hu & _). unfold upcoming in Hu.
    rewrite decide_False in Hu by done. destruct Hu as (more & [= -> ->] & _). by exists p.
Qed.

Lemma finds_next t tks cur g : finds (next input) (t :: tks, cur, g) (type t) (behind t tks, t, g).
Proof.
  intros p Hp. destruct (next_token_spec _ _ _ _ _ Hp) as (p' & Hr & Hp' & _).
  unfold next. rewrite Hr, bind_ret. by exists p'.
Qed.

Lemma finds_peek t tks cur g : finds (peek input) (t :: tks, cur, g) (type t) (t :: tks, cur, g).
Proof.
  intros p Hp. destruct (peek_token_spec _ _ _ _ _ Hp) as (p' & Hr & Hp' & _).
  unfold peek. rewrite Hr, bind_ret. by exists p'.
Qed.

Lemma finds_slice tks cur g : finds (slice input) (tks, cur, g) (token_text input cur) (tks, cur, g).
Proof. intros p Hp. exists p. split; [|done]. unfold slice, get_token_slice. destruct Hp as (_ & _ & -> & _). done. Qed.

Lemma finds_pos tks cur g : finds token_pos (tks, cur, g) (get_token_position cur) (tks, cur, g).
Proof. intros p Hp. exists p. split; [|done]. unfold token_pos. destruct Hp as (_ & _ & -> & _). done. Qed.

Lemma finds_graph {A} (f : sol_fbp_graph -> A * sol_fbp_graph) tks cur g a g' :
  f g = (a, g') -> finds (on_graph f) (tks, cur, g) a (tks, cur, g').
Proof.
  intros Hf p (Hu & Hl & Hc & Hg & He). unfold on_graph. cbn [fst snd] in *. rewrite Hg, Hf. eexists. split; [done|]. done.
Qed.

(** ** What a piece of the parser does

    [hoare m c R]: from [c], [m] ends with the graph well formed and its
    nodes kept; it finds something in [R], or leaves an error message, or
    found no memory for one. *)

(** There was no memory for some message. *)
Definition unformatted : Prop := exists fmt l, vasprintf fmt l = false.

Definition gave_up (p : sol_fbp_parser) : Prop := error_msg p <> None \/ unformatted /\ exists c, at_ p c.

Definition hoare {A} (m : parsing A) (c : cfg) (R : A -> cfg -> Prop) : Prop :=
  forall p, at_ p c -> graph_ok c.2 ->
  exists r p', m p = Ret (r, p') /\ graph_ok (graph p') /\ extends c.2 (graph p')
    /\ match r with
       | Some a => exists c', at_ p' c' /\ R a c'
       | None => gave_up p'
       end.

Lemma at_graph p c : at_ p c -> graph p = c.2.
Proof. by intros (_ & _ & _ & ? & _). Qed.

Lemma graph_extends_trans g1 g2 g3 : extends g1 g2 -> extends g2 g3 -> extends g1 g3.
Proof. unfold extends. by intros ? ?; etrans. Qed.

Lemma hoare_found {A} (a : A) c (R : A -> cfg -> Prop) : R a c -> hoare (found a) c R.
Proof.
  intros HR p Hp Hg. exists (Some a), p. rewrite (at_graph _ _ Hp).
  split_and!; [done|done|apply graph_extends_refl|by exists c].
Qed.

Lemma hoare_bind {A B} (m : parsing A) (k : A -> parsing B) c R1 R :
  hoare m c R1 ->
  (forall a c', R1 a c' -> extends c.2 c'.2 -> graph_ok c'.2 -> hoare (k a) c' R) ->
  hoare (and_then m k) c R.
Proof.
  intros Hm Hk p Hp Hg. destruct (Hm p Hp Hg) as (r & p' & Hr & Hg' & He & Hres).
  unfold and_then. rewrite Hr, bind_ret. destruct r as [a|].
  - destruct Hres as (c' & Hp' & HR). rewrite (at_graph _ _ Hp') in *.
    destruct (Hk a c' HR He Hg' p' Hp' Hg') as (r & p2 & Hr2 & Hg2 & He2 & Hres2).
    exists r, p2. split_and!; [done|done|by eapply graph_extends_trans|done].
  - by exists None, p'.
Qed.

Lemma hoare_finds {A B} (m : parsing A) (k : A -> parsing B) c a c' R :
  finds m c a c' -> graph_ok c'.2 -> extends c.2 c'.2 -> hoare (k a) c' R -> hoare (and_then m k) c R.
Proof.
  intros Hm Hg' He Hk. eapply (hoare_bind _ _ _ (fun b d => b = a /\ d = c')).
  - intros p Hp _. destruct (Hm p Hp) as (p' & Hr & Hp'). exists (Some a), p'.
    rewrite (at_graph _ _ Hp'). split_and!; [done|done|done|by exists c'].
  - intros b d [-> ->] _ _. done.
Qed.

Lemma hoare_conseq {A} (m : parsing A) c (R R' : A -> cfg -> Prop) :
  hoare m c R -> (forall a c', R a c' -> extends c.2 c'.2 -> graph_ok c'.2 -> R' a c') -> hoare m c R'.
Proof.
  intros Hm HR p Hp Hg. destruct (Hm p Hp Hg) as (r & p' & Hr & Hg' & He & Hres).
  exists r, p'. split_and!; [done|done|done|]. destruct r; [|done].
  destruct Hres as (c' & Hp' & Ha). exists c'. rewrite (at_graph _ _ Hp') in *. auto.
Qed.

(** Only the state before [m] matters. *)
Lemma hoare_intro {A} (m : parsing A) c R :
  (graph_ok c.2 -> stream c.1.1 -> (length c.1.1 < parse_fuel input)%nat -> hoare m c R) -> hoare m c R.
Proof. intros Hm p Hp Hg. apply Hm; [done|by eapply at_stream|apply Hp|done|done]. Qed.

(** The parser [p] became [p'] by an error. *)
Definition complains (p p' : sol_fbp_parser) : Prop :=
  graph p' = graph p /\ (error_msg p' <> None \/ unformatted /\ forall c, at_ p c -> at_ p' c).

Lemma set_parse_error_complains p fmt l : complains p (set_parse_error p fmt l).
Proof.
  unfold set_parse_error, complains. destruct (vasprintf fmt l) eqn:Hv; (split; [by case_match|]); [left; by case_match|right].
  split; [by exists fmt, l|]. intros c Hc. by case_match.
Qed.

Lemma complains_gave_up p p' c : complains p p' -> at_ p c -> gave_up p'.
Proof. intros (_ & [?|[? Hat]]) Hp; [by left|right]. split; [done|]. exists c. by apply Hat. Qed.

Lemma hoare_fail {A} fmt l c (R : A -> cfg -> Prop) : hoare (fail fmt l) c R.
Proof.
  intros p Hp Hg. unfold fail. do 2 eexists. pose proof (set_parse_error_complains p fmt l) as Hc. rewrite (proj1 Hc), (at_graph _ _ Hp).
  split_and!; [done|done|apply graph_extends_refl|by eapply complains_gave_up].
Qed.

(** A step that always ends in an error, wherever it puts its position. *)
Definition fails {A} (m : parsing A) : Prop :=
  forall p, exists p', m p = Ret (None, p') /\ complains p p'.

Lemma fails_fail {A} fmt l : fails (A := A) (fail fmt l).
Proof.
  intros p. eexists. split; [done|apply set_parse_error_complains].
Qed.

Lemma fails_at {A} pos (m : parsing A) : fails m -> fails (at_position pos m).
Proof. intros Hm p. destruct (Hm (set_error_pos p pos)) as (p' & Hr & Hc). by exists p'. Qed.

Lemma hoare_fails {A} (m : parsing A) c R : fails m -> hoare m c R.
Proof.
  intros Hm p Hp Hg. destruct (Hm p) as (p' & Hr & Hc). exists None, p'.
  rewrite (proj1 Hc), (at_graph _ _ Hp). split_and!; [done|done|apply graph_extends_refl|by eapply complains_gave_up].
Qed.

Lemma hoare_graph {A B} (f : sol_fbp_graph -> A * sol_fbp_graph) (k : A -> parsing B) tks cur g a g' R :
  f g = (a, g') -> graph_ok g' -> extends g g' -> hoare (k a) (tks, cur, g') R ->
  hoare (and_then (on_graph f) k) (tks, cur, g) R.
Proof. intros Hf Hg' He Hk. eapply hoare_finds; [by apply finds_graph|done|done|done]. Qed.

(** ** Tokens one by one *)

Lemma finds_take t more cur g :
  ~ final t -> finds (next input) (t :: more, cur, g) (type t) (more, t, g).
Proof.
  intros Hf p Hp. pose proof (at_stream _ _ Hp) as Hst. cbn in Hst.
  destruct (finds_next t more cur g p Hp) as (p' & Hr & Hp'). exists p'. split; [done|].
  by rewrite (behind_more t more) in Hp'.
Qed.

Lemma finds_expect ty fmt t more cur g :
  type t = ty -> ~ final t -> finds (expect_token input ty fmt) (t :: more, cur, g) tt (more, t, g).
Proof.
  intros Hty Hf. unfold expect_token. eapply finds_bind; [by apply finds_take|].
  rewrite bool_decide_true by done. apply finds_found.
Qed.

Lemma finds_assert ty t more cur g :
  type t = ty -> ~ final t -> finds (assert_token input ty) (t :: more, cur, g) tt (more, t, g).
Proof.
  intros Hty Hf p Hp. destruct (next_token_spec p t more cur g Hp) as (p' & Hr & Hp' & _).
  unfold assert_token. rewrite Hr, bind_ret, bool_decide_true by done. exists p'. split; [done|].
  rewrite behind_more in Hp'; [done|by apply (at_stream _ _ Hp)|done].
Qed.

Definition ends (ty : sol_fbp_token_type) : bool := bool_decide (ty = T_EOF \/ ty = T_ERROR).

Lemma not_final ty t : type t = ty -> ends ty = false -> ~ final t.
Proof. intros <- He. by apply bool_decide_eq_false in He. Qed.

Lemma hoare_head {A} (m : parsing A) tks cur g R :
  (forall t more, tks = t :: more -> graph_ok g -> hoare m (t :: more, cur, g) R) ->
  hoare m (tks, cur, g) R.
Proof.
  intros Hm. apply hoare_intro. intros Hg Hst _. destruct tks as [|t more]; [done|]. by apply Hm.
Qed.

Lemma hoare_peek {B} (k : sol_fbp_token_type -> parsing B) tks cur g R :
  (forall t more, tks = t :: more -> hoare (k (type t)) (t :: more, cur, g) R) ->
  hoare (and_then (peek input) k) (tks, cur, g) R.
Proof.
  intros Hk. apply hoare_head. intros t more -> Hg.
  eapply hoare_finds; [apply finds_peek|done|apply graph_extends_refl|by apply Hk].
Qed.

Lemma hoare_next {B} (k : sol_fbp_token_type -> parsing B) t more cur g R :
  hoare (k (type t)) (behind t more, t, g) R ->
  hoare (and_then (next input) k) (t :: more, cur, g) R.
Proof.
  intros Hk. apply hoare_intro. intros Hg _ _.
  eapply hoare_finds; [apply finds_next|done|apply graph_extends_refl|done].
Qed.

Lemma hoare_expect {B} ty fmt (k : unit -> parsing B) tks cur g R :
  ends ty = false ->
  (forall t more, tks = t :: more -> type t = ty -> hoare (k tt) (more, t, g) R) ->
  hoare (and_then (expect_token input ty fmt) k) (tks, cur, g) R.
Proof.
  intros Hend Hk. apply hoare_head. intros t more -> Hg. destruct (decide (type t = ty)) as [Hty|Hty].
  - eapply hoare_finds; [by apply finds_expect, (not_final ty)|done|apply graph_extends_refl|by apply Hk].
  - eapply (hoare_bind _ _ _ (fun _ _ => False)); [|done]. unfold expect_token.
    apply hoare_next. rewrite bool_decide_false by done. apply hoare_fail.
Qed.

Lemma hoare_take {B} ty (k : sol_fbp_token_type -> parsing B) t more cur g R :
  type t = ty -> ends ty = false -> hoare (k ty) (more, t, g) R ->
  hoare (and_then (next input) k) (t :: more, cur, g) R.
Proof.
  intros Hty Hend Hk. apply hoare_intro. intros Hg _ _. subst ty.
  eapply hoare_finds; [by apply finds_take, (not_final (type t))|done|apply graph_extends_refl|done].
Qed.

Lemma hoare_assert {B} ty (k : unit -> parsing B) t more cur g R :
  type t = ty -> ends ty = false -> hoare (k tt) (more, t, g) R ->
  hoare (and_then (assert_token input ty) k) (t :: more, cur, g) R.
Proof.
  intros Hty Hend Hk. apply hoare_intro. intros Hg _ _.
  eapply hoare_finds; [by apply finds_assert, (not_final ty)|done|apply graph_extends_refl|done].
Qed.

Lemma hoare_slice {B} (k : list Z -> parsing B) tks cur g R :
  hoare (k (token_text input cur)) (tks, cur, g) R -> hoare (and_then (slice input) k) (tks, cur, g) R.
Proof.
  intros Hk. apply hoare_intro. intros Hg _ _.
  eapply hoare_finds; [apply finds_slice|done|apply graph_extends_refl|done].
Qed.

Lemma hoare_pos {B} (k : sol_fbp_position -> parsing B) tks cur g R :
  hoare (k (get_token_position cur)) (tks, cur, g) R -> hoare (and_then token_pos k) (tks, cur, g) R.
Proof.
  intros Hk. apply hoare_intro. intros Hg _ _.
  eapply hoare_finds; [apply finds_pos|done|apply graph_extends_refl|done].
Qed.

(** ** The parser reads what the grammar says *)

Definition word_of (t : sol_fbp_token) : word :=
  {| w_text := token_text input t; w_pos := get_token_position t |}.

Lemma fits_word ty t : type t = ty -> fits (W ty (word_of t)) t.
Proof. intros <-. done. Qed.
#[local] Hint Resolve fits_word : core.

(** Read one more token. *)
Ltac reads_one := apply reads_cons; do 2 eexists; split; [reflexivity|split; [try done; auto|]].

Definition read_index (tks : list sol_fbp_token) (cur : sol_fbp_token) (g : sol_fbp_graph)
    (idx : Z) (c' : cfg) : Prop :=
  exists i, reads tks (index_syms i) c'.1.1 /\ c'.2 = g
    /\ (forall nm, idx = port_index {| p_name := nm; p_index := i |})
    /\ match i with None => c'.1.2 = cur | Some (_, pos) => get_token_position c'.1.2 = pos end.

Lemma hoare_port_idx tks cur g : hoare (parse_port_idx input (-1)) (tks, cur, g) (read_index tks cur g).
Proof.
  unfold parse_port_idx. apply hoare_peek. intros t more ->.
  destruct (decide (type t = T_BRACKET_OPEN)) as [Ht|Ht];
    [rewrite bool_decide_true by done|rewrite bool_decide_false by done]; cbn [negb].
  - eapply hoare_take; [exact Ht|done|]. apply hoare_expect; [done|]. intros t1 m1 -> Ht1.
    apply hoare_slice. apply hoare_expect; [done|]. intros t2 m2 -> Ht2. apply hoare_found.
    exists (Some (word_of t1, get_token_position t2)). split_and!; [|done|done|done].
    cbn [index_syms]. do 3 reads_one. by apply reads_nil.
  - apply hoare_found. exists None. split_and!; [by apply reads_nil|done|done|done].
Qed.

Definition read_port (tks : list sol_fbp_token) (g : sol_fbp_graph) (r : list Z * Z) (c' : cfg) : Prop :=
  exists po, reads tks (port_syms po) c'.1.1 /\ c'.2 = g
    /\ r = (w_text (p_name po), port_index po) /\ get_token_position c'.1.2 = port_end po.

Lemma hoare_port tks cur g : hoare (parse_port input (-1)) (tks, cur, g) (read_port tks g).
Proof.
  unfold parse_port. apply hoare_expect; [done|]. intros t more -> Ht. apply hoare_slice.
  eapply hoare_bind; [apply hoare_port_idx|]. intros idx [[tks' cur'] g'] (i & Hr & Hg & Hi & Hcur) _ _.
  cbn in *. subst g'. apply hoare_found. exists {| p_name := word_of t; p_index := i |}.
  split_and!; [by reads_one|done|by rewrite (Hi (word_of t))|].
  unfold port_end. destruct i as [[w pos]|]; cbn in *; [done|by subst].
Qed.

Lemma hoare_exported_port tks cur g :
  hoare (parse_exported_port input) (tks, cur, g) (fun r c' => exists nm po ex,
    reads tks (export_syms nm po ex) c'.1.1 /\ c'.2 = g
    /\ r = (w_text nm, w_text (p_name po), port_index po, w_text ex)
    /\ get_token_position c'.1.2 = w_pos ex).
Proof.
  unfold parse_exported_port. apply hoare_expect; [done|]. intros t1 m1 -> Ht1.
  apply hoare_expect; [done|]. intros t2 m2 -> Ht2. apply hoare_slice.
  apply hoare_expect; [done|]. intros t3 m3 -> Ht3.
  apply hoare_expect; [done|]. intros t4 m4 -> Ht4. apply hoare_slice.
  eapply hoare_bind; [apply hoare_port_idx|]. intros idx [[tks' cur'] g'] (i & Hr & Hg & Hi & _) _ _.
  cbn [fst snd] in *. subst g'.
  apply hoare_expect; [done|]. intros t5 m5 -> Ht5. apply hoare_expect; [done|]. intros t6 m6 -> Ht6.
  apply hoare_slice. apply hoare_found.
  exists (word_of t2), {| p_name := word_of t4; p_index := i |}, (word_of t6).
  split_and!; [|done|by rewrite (Hi (word_of t4))|done]. unfold export_syms, port_syms. cbn [p_name p_index app].
  do 4 reads_one. apply reads_app. eexists. split; [exact Hr|]. do 2 reads_one. by apply reads_nil.
Qed.

(** The range check of the indices never fails. *)
Lemma to_port_idx_int idx : wraps 32 (to_port_idx idx (-1)) = to_port_idx idx (-1).
Proof.
  unfold to_port_idx, StrSlice.sol_str_slice_to_int. repeat case_match; simplify_eq; try done.
  match goal with Hw : negb _ = false |- _ => apply negb_false_iff, Z.eqb_eq in Hw end. done.
Qed.

Lemma port_index_int po : wraps 32 (port_index po) = port_index po.
Proof. unfold port_index. destruct (p_index po) as [[w ?]|]; [apply to_port_idx_int|done]. Qed.

(** ** Nodes *)

Lemma fails_node_error {A} nm pos e n : fails (A := A) (handle_node_error nm pos e n).
Proof.
  apply fails_at. destruct (e =? - EINVAL); [apply fails_fail|].
  destruct (e =? - EEXIST), n; apply fails_fail.
Qed.

Lemma fails_conn_error {A} s sp si d dp di pos e : fails (A := A) (handle_conn_error s sp si d dp di pos e).
Proof.
  apply fails_at. intros p. destruct (e =? - EEXIST); [|apply fails_fail].
  destruct (find_from _ 0 _) as [[? ?]|]; apply fails_fail.
Qed.

Lemma add_node_ok nm comp pos g :
  graph_ok g ->
  exists r o g', sol_fbp_graph_add_node g nm comp pos = (r, o, g') /\ graph_ok g' /\ extends g g'
    /\ (0 <= r -> valid_node g' r).
Proof.
  intros Hg. destruct (add_node_spec g nm comp pos Hg) as (r & o & g' & Hr & Hg' & He & Hres).
  exists r, o, g'. split_and!; [done|done|done|]. intros Hpos. destruct Hres as [[? _]|[? _]]; [lia|done].
Qed.

Lemma hoare_add_node {B} nm comp pos (k : Z -> parsing B) tks cur g R :
  (forall n g', graph_ok g' -> extends g g' -> valid_node g' n ->
     run_add_node {| w_text := nm; w_pos := pos |} comp g = Some (n, g') -> hoare (k n) (tks, cur, g') R) ->
  hoare (and_then (add_node nm comp pos) k) (tks, cur, g) R.
Proof.
  intros Hk. apply hoare_intro. intros Hg _ _.
  destruct (add_node_ok nm comp pos g Hg) as (n & o & g' & Hr & Hg' & He & Hv).
  eapply (hoare_bind _ _ _ (fun n' c' => c'.1 = (tks, cur) /\ graph_ok c'.2 /\ valid_node c'.2 n'
    /\ run_add_node {| w_text := nm; w_pos := pos |} comp g = Some (n', c'.2))).
  - unfold add_node. eapply (hoare_graph _ _ _ _ _ (n, o) g'); [by rewrite Hr|done|done|].
    destruct (Z.ltb_spec n 0); [apply hoare_fails, fails_node_error|]. apply hoare_found.
    split_and!; [done|done|auto|]. unfold run_add_node. cbn. rewrite Hr. by destruct (Z.ltb_spec n 0); [lia|].
  - intros n' [[? ?] g2] ([= -> ->] & Hg2 & Hv2 & Hrun) He2 _. by apply Hk.
Qed.

Lemma hoare_meta_item tks cur g :
  hoare (parse_meta_item input) (tks, cur, g) (fun r c' => exists x,
    reads tks (pair_syms x) c'.1.1 /\ c'.2 = g
    /\ r = (w_text (p_key x), value_text (p_value x), w_pos (p_key x))).
Proof.
  unfold parse_meta_item. apply hoare_expect; [done|]. intros t1 m1 -> Ht1.
  apply hoare_slice, hoare_pos, hoare_peek. intros t2 m2 ->. case_bool_decide as Ht2.
  - eapply hoare_take; [exact Ht2|done|]. apply hoare_head. intros t3 m3 -> _.
    destruct (decide (type t3 = T_IDENTIFIER)) as [Ht3|Ht3];
      [|destruct (decide (type t3 = T_STRING)) as [Ht4|Ht4]].
    + eapply hoare_take; [exact Ht3|done|]. cbn. apply hoare_slice, hoare_found.
      exists {| p_key := word_of t1; p_value := Ident (word_of t3) |}.
      split_and!; [|done|done]. unfold pair_syms, value_syms. cbn [p_key p_value fst].
      do 3 reads_one. by apply reads_nil.
    + eapply hoare_take; [exact Ht4|done|]. cbn. apply hoare_slice, hoare_found.
      exists {| p_key := word_of t1; p_value := Str (word_of t3) |}.
      split_and!; [|done|done]. unfold pair_syms, value_syms. cbn [p_key p_value fst].
      do 3 reads_one. by apply reads_nil.
    + apply hoare_next. rewrite !bool_decide_false by done. apply hoare_fail.
  - apply hoare_found. exists {| p_key := word_of t1; p_value := NoValue |}.
    split_and!; [|done|done]. unfold pair_syms. cbn [p_key p_value value_syms]. reads_one. by apply reads_nil.
Qed.

Lemma hoare_expect_only ty fmt tks cur g :
  ends ty = false ->
  hoare (expect_token input ty fmt) (tks, cur, g)
    (fun _ c' => exists t, tks = t :: c'.1.1 /\ type t = ty /\ c'.2 = g).
Proof.
  intros Hend. apply hoare_head. intros t more -> _. unfold expect_token.
  destruct (decide (type t = ty)) as [Ht|Ht].
  - eapply hoare_take; [exact Ht|done|]. rewrite bool_decide_true by done. apply hoare_found. by exists t.
  - apply hoare_next. rewrite bool_decide_false by done. apply hoare_fail.
Qed.

Lemma hoare_meta_error n key pos e tks cur g R :
  valid_node g n -> hoare (handle_meta_error n key pos e) (tks, cur, g) R.
Proof.
  intros Hv p Hp Hg. pose proof (at_graph _ _ Hp) as Hgp. cbn [snd] in Hgp.
  assert (exists nd, nodes g !! vector_index n = Some nd) as (nd & Hnd).
  { destruct (go_nodes _ Hg) as [_ Hlen]. apply lookup_lt_is_Some. unfold vector_index, valid_node, blen, UINT16_MAX in *. cbn [snd] in *.
    rewrite wrapu_small by lia. lia. }
  assert (exists p', handle_meta_error n key pos e p = Ret (None, p') /\ complains p p') as (p' & Hr & Hc).
  { unfold handle_meta_error, at_position. cbn [graph set_error_pos]. rewrite Hgp, Hnd.
    destruct (e =? - EEXIST); [destruct (find_from _ 0 _) as [[? ?]|]|];
      eexists; (split; [done|apply (set_parse_error_complains (set_error_pos p pos))]). }
  exists None, p'. rewrite (proj1 Hc), Hgp. split_and!; [done|done|apply graph_extends_refl|by eapply complains_gave_up].
Qed.

Lemma hoare_meta_loop fuel n : forall tks cur g first,
  (length tks < fuel)%nat -> valid_node g n ->
  hoare (parse_meta_loop input fuel n first) (tks, cur, g) (fun _ c' => exists l,
    reads tks (pairs_syms first l) c'.1.1 /\ run_pairs n l g = Some c'.2 /\ valid_node c'.2 n).
Proof.
  induction fuel as [|fuel IH]; intros tks cur g first Hfuel Hv; [lia|]. cbn [parse_meta_loop].
  apply hoare_peek. intros t m ->. case_bool_decide as Ht.
  { apply hoare_found. exists []. split_and!; [by apply reads_nil|done|done]. }
  eapply (hoare_bind _ _ _ (fun _ c' => reads (t :: m) (if first then [] else [P T_COMMA]) c'.1.1 /\ c'.2 = g)).
  { destruct first; [apply hoare_found; by rewrite reads_nil|].
    eapply hoare_conseq; [by apply hoare_expect_only|]. intros _ [[tks' ?] g'] (t1 & [= <- <-] & Ht1 & ->) _ _.
    split; [reads_one; by apply reads_nil|done]. }
  intros _ [[tks1 cur1] g1] [Hr1 Hg1] _ _. cbn [fst snd] in *. subst g1.
  eapply hoare_bind; [apply hoare_meta_item|].
  intros [[key value] pos] [[tks2 cur2] g2] (x & Hr2 & Hg2 & [= -> -> ->]) _ Hok. cbn [fst snd] in *. subst g2.
  destruct (sol_fbp_graph_add_meta g n (w_text (p_key x)) (value_text (p_value x)) (w_pos (p_key x)))
    as [r g3] eqn:Hadd.
  pose proof (add_meta_ok g n (w_text (p_key x)) (value_text (p_value x)) (w_pos (p_key x)) Hok) as Hkeep.
  rewrite Hadd in Hkeep. destruct Hkeep as (Hok3 & He3 & Hlen3). cbn [fst snd] in *.
  eapply hoare_graph; [exact Hadd|done|done|].
  assert (valid_node g3 n) as Hv3 by (by eapply extends_valid).
  destruct (r <? 0) eqn:Er; [by apply hoare_meta_error|].
  apply reads_length in Hr1 as Hl1. apply reads_length in Hr2 as Hl2. unfold pair_syms in Hl2. cbn [length] in *.
  eapply hoare_conseq; [apply IH; [lia|done]|]. intros _ [[tks4 cur4] g4] (l & Hr & Hrun & Hv4) _ _.
  exists (x :: l). cbn [fst snd] in *. split_and!; [|by cbn; rewrite Hadd, Er|done].
  cbn [pairs_syms]. apply reads_app. exists tks1. split; [done|]. apply reads_app. by exists tks2.
Qed.

Definition read_node (tks : list sol_fbp_token) (g : sol_fbp_graph) (n : Z) (c' : cfg) : Prop :=
  exists nd, reads tks (node_syms nd) c'.1.1 /\ run_node nd g = Some (n, c'.2) /\ valid_node c'.2 n.

Lemma hoare_meta n tks cur g :
  valid_node g n ->
  hoare (parse_meta input n) (tks, cur, g) (fun _ c' => exists o,
    reads tks (match o with None => [] | Some l => P T_COLON :: pairs_syms true l end) c'.1.1
    /\ run_pairs n (default [] o) g = Some c'.2 /\ valid_node c'.2 n).
Proof.
  intros Hv. unfold parse_meta. apply hoare_intro. cbn [fst]. intros _ _ Hl. apply hoare_peek.
  intros t m ->. destruct (decide (type t = T_COLON)) as [Ht|Ht].
  - rewrite bool_decide_true by done. cbn [negb]. eapply hoare_take; [exact Ht|done|].
    eapply hoare_conseq; [apply hoare_meta_loop; [cbn [length] in Hl; lia|done]|].
    intros _ c' (l & Hr & Hrun & Hv') _ _. exists (Some l). split_and!; [by reads_one|done|done].
  - rewrite bool_decide_false by done. apply hoare_found. exists None. by rewrite reads_nil.
Qed.

Lemma hoare_add_node_last nm comp pos tks cur g R :
  (forall n g', graph_ok g' -> extends g g' -> valid_node g' n ->
     run_add_node {| w_text := nm; w_pos := pos |} comp g = Some (n, g') -> R n (tks, cur, g')) ->
  hoare (add_node nm comp pos) (tks, cur, g) R.
Proof.
  intros HR. assert (hoare (and_then (add_node nm comp pos) found) (tks, cur, g) R) as Hm.
  { apply hoare_add_node. intros. by apply hoare_found, HR. }
  intros p Hp Hg. destruct (Hm p Hp Hg) as (r & p' & Hr & Hrest). exists r, p'. split; [|done].
  unfold and_then in Hr. destruct (add_node nm comp pos p) as [[[a|] p2]|]; [|done|done].
  rewrite bind_ret in Hr. unfold found in Hr. done.
Qed.

Lemma hoare_node tks cur g : hoare (parse_node input) (tks, cur, g) (read_node tks g).
Proof.
  unfold parse_node. apply hoare_expect; [done|]. intros t m -> Ht.
  apply hoare_slice, hoare_pos, hoare_peek. intros t1 m1 ->. fold (word_of t).
  destruct (decide (type t1 = T_PAREN_OPEN)) as [Ht1|Ht1];
    [rewrite bool_decide_true by done|rewrite bool_decide_false by done]; cbn [negb].
  2:{ apply hoare_add_node_last. intros n g' _ _ Hv Hrun.
      exists {| n_name := word_of t; n_spec := Bare |}. split_and!; [|done|done].
      reads_one. by apply reads_nil. }
  eapply hoare_take; [exact Ht1|done|]. apply hoare_peek. intros t2 m2 ->. case_bool_decide as Ht2.
  - eapply hoare_take; [exact Ht2|done|]. apply hoare_add_node_last. intros n g' _ _ Hv Hrun.
    exists {| n_name := word_of t; n_spec := Empty |}. split_and!; [|done|done].
    unfold node_syms. cbn [n_name n_spec spec_syms]. do 3 reads_one. by apply reads_nil.
  - apply hoare_expect; [done|]. intros ? ? [= <- <-] Ht3. apply hoare_slice, hoare_add_node.
    intros n g' Hok He Hv Hrun. eapply hoare_bind; [by apply hoare_meta|].
    intros _ [[tks3 cur3] g3] (o & Hr & Hpairs & Hv3) _ _. cbn [fst snd] in *.
    apply hoare_expect; [done|]. intros t4 m4 -> Ht4. apply hoare_found.
    exists {| n_name := word_of t; n_spec := Typed (word_of t2) o |}. split_and!; [| |done].
    + unfold node_syms. cbn [n_name n_spec spec_syms fst]. destruct o as [l|]; cbn [app].
      * do 3 reads_one. apply reads_cons in Hr as (t5 & m5 & -> & Ht5 & Hr). reads_one.
        apply reads_app. eexists. split; [exact Hr|]. reads_one. by apply reads_nil.
      * do 3 reads_one. apply reads_nil in Hr as ->. reads_one. by apply reads_nil.
    + unfold run_node. cbn [n_name n_spec snd]. change (w_text (word_of t2)) with (token_text input t2).
      change (run_add_node (word_of t) (token_text input t2) g = Some (n, g')) in Hrun.
      rewrite Hrun. cbn. by rewrite Hpairs.
Qed.

(** ** Connections *)

Lemma add_out_port_keeps g i nm pos :
  graph_ok g -> exists r g', sol_fbp_graph_add_out_port g i nm pos = (r, g') /\ graph_ok g' /\ extends g g'.
Proof.
  intros Hg. destruct (add_out_port_ok g i nm pos Hg) as (Hok & He & _).
  destruct (sol_fbp_graph_add_out_port g i nm pos) as [r g']. by exists r, g'.
Qed.

Lemma add_in_port_keeps g i nm pos :
  graph_ok g -> exists r g', sol_fbp_graph_add_in_port g i nm pos = (r, g') /\ graph_ok g' /\ extends g g'.
Proof.
  intros Hg. destruct (add_in_port_ok g i nm pos Hg) as (Hok & He & _).
  destruct (sol_fbp_graph_add_in_port g i nm pos) as [r g']. by exists r, g'.
Qed.

(** A test of the next token that leaves it there. *)
Lemma hoare_peek_identifier {B} (k : unit -> parsing B) tks cur g R :
  (forall t more, tks = t :: more -> type t = T_IDENTIFIER -> hoare (k tt) (t :: more, cur, g) R) ->
  hoare (and_then (peek_identifier input) k) (tks, cur, g) R.
Proof.
  intros Hk. apply hoare_head. intros t more -> Hg.
  eapply (hoare_bind _ _ _ (fun _ c' => c' = (t :: more, cur, g) /\ type t = T_IDENTIFIER)).
  - unfold peek_identifier. apply hoare_peek. intros ? ? [= <- <-].
    destruct (decide (type t = T_IDENTIFIER)) as [Ht|Ht];
      [rewrite bool_decide_true by done; by apply hoare_found|rewrite bool_decide_false by done; apply hoare_fail].
  - intros [] c' [-> Ht] _ _. by apply Hk.
Qed.

Definition read_link (src0 : Z) (tks : list sol_fbp_token) (g : sol_fbp_graph) (n : Z) (c' : cfg) : Prop :=
  exists l, reads tks (link_syms l) c'.1.1 /\ run_link src0 l g = Some (n, c'.2) /\ valid_node c'.2 n.

Lemma hoare_link src0 tks cur g :
  valid_node g src0 -> hoare (parse_link input src0) (tks, cur, g) (read_link src0 tks g).
Proof.
  intros Hv. unfold parse_link. eapply hoare_bind; [apply hoare_port|].
  intros r [[tks1 cur1] g1] (a & Hr1 & Hg1 & -> & Hpos1) _ Hok. cbn [fst snd] in *. subst g1.
  apply hoare_pos. rewrite Hpos1.
  destruct (add_out_port_keeps g src0 (w_text (p_name a)) (port_end a) Hok) as (e1 & g2 & Hout & Hok2 & He2).
  eapply hoare_graph; [exact Hout|done|done|]. apply hoare_head. intros t m -> _.
  destruct (decide (type t = T_ARROW)) as [Ht|Ht].
  2:{ apply hoare_next. rewrite bool_decide_false by done. cbn [negb].
      case_bool_decide; apply hoare_fail. }
  eapply hoare_take; [exact Ht|done|]. rewrite bool_decide_true by done. cbn [negb].
  apply hoare_peek_identifier. intros t1 m1 -> _. eapply hoare_bind; [apply hoare_port|].
  intros r [[tks3 cur3] g3] (b & Hr3 & Hg3 & -> & Hpos3) _ _. cbn [fst snd] in *. subst g3.
  apply hoare_pos. rewrite Hpos3. apply hoare_peek_identifier. intros t4 m4 -> _.
  eapply hoare_bind; [apply hoare_node|].
  intros dst0 [[tks5 cur5] g5] (nd & Hr5 & Hrun5 & Hv5) He5 Hok5. cbn [fst snd] in *.
  destruct (add_in_port_keeps g5 dst0 (w_text (p_name b)) (port_end b) Hok5) as (e6 & g6 & Hin & Hok6 & He6).
  eapply hoare_graph; [exact Hin|done|done|]. rewrite !port_index_int, !Z.eqb_refl. cbn [negb].
  assert (valid_node g6 src0) as Hs6 by (do 3 (eapply extends_valid; [eassumption|]); done).
  assert (valid_node g6 dst0) as Hd6 by (by eapply extends_valid).
  pose proof (add_conn_ok g6 src0 (w_text (p_name a)) (port_index a) dst0 (w_text (p_name b)) (port_index b)
    (port_end a) Hok6 Hs6 Hd6) as (Hok7 & He7 & _).
  destruct (sol_fbp_graph_add_conn g6 src0 (w_text (p_name a)) (port_index a) dst0 (w_text (p_name b))
    (port_index b) (port_end a)) as [r g7] eqn:Hconn. cbn [fst snd] in *.
  eapply hoare_graph; [exact Hconn|done|done|].
  destruct (r <? 0) eqn:Er; [apply hoare_fails, fails_conn_error|]. apply hoare_found.
  exists {| l_src := a; l_dst := b; l_node := nd |}. cbn [fst snd]. split_and!.
  - unfold link_syms. cbn [l_src l_dst l_node]. apply reads_app. eexists. split; [exact Hr1|].
    cbn [app]. reads_one. apply reads_app. by eexists.
  - unfold run_link. cbn [l_src l_dst l_node]. rewrite Hout. cbn [snd]. rewrite Hrun5. cbn.
    rewrite Hin. cbn [snd]. by rewrite Hconn, Er.
  - by eapply extends_valid.
Qed.

Lemma hoare_links fuel : forall src0 tks cur g,
  (length tks < fuel)%nat -> valid_node g src0 ->
  hoare (parse_links input fuel src0) (tks, cur, g) (fun _ c' => exists l,
    reads tks (l ≫= link_syms) c'.1.1 /\ run_links src0 l g = Some c'.2
    /\ exists t more, c'.1.1 = t :: more /\ type t <> T_IDENTIFIER).
Proof.
  induction fuel as [|fuel IH]; intros src0 tks cur g Hfuel Hv; [lia|]. cbn [parse_links].
  apply hoare_peek. intros t m ->. case_bool_decide as Ht.
  - eapply hoare_bind; [by apply hoare_link|].
    intros dst0 [[tks1 cur1] g1] (x & Hr & Hrun & Hv1) _ _. cbn [fst snd] in *.
    apply reads_length in Hr as Hl. unfold link_syms, port_syms in Hl. cbn [length app] in *.
    eapply hoare_conseq; [apply IH; [lia|done]|].
    intros _ [[tks2 cur2] g2] (l & Hr2 & Hrun2 & Hnext) _ _. exists (x :: l). cbn [fst snd] in *.
    split_and!; [|cbn [run_links]; rewrite Hrun; exact Hrun2|done]. rewrite bind_cons. apply reads_app. by exists tks1.
  - apply hoare_found. exists []. split_and!; [by apply reads_nil|done|by exists t, m].
Qed.

(** The token at the head of the list does not run into the statement. *)
Definition ends_stmt (st : stmt) (tks : list sol_fbp_token) : Prop :=
  match st, tks with
  | Connect _ [], t :: _ => type t = T_STMT_SEPARATOR \/ type t = T_EOF
  | Connect _ _, t :: _ => type t <> T_IDENTIFIER
  | _, _ => True
  end.

Definition read_stmt (tks : list sol_fbp_token) (g : sol_fbp_graph) (c' : cfg) : Prop :=
  exists st, reads tks (stmt_syms st) c'.1.1 /\ run_stmt st g = Some c'.2 /\ ends_stmt st c'.1.1.

Lemma hoare_conn_stmt tks cur g : hoare (parse_conn_stmt input) (tks, cur, g) (fun _ => read_stmt tks g).
Proof.
  unfold parse_conn_stmt. eapply hoare_bind; [apply hoare_node|].
  intros n [[tks1 cur1] g1] (nd & Hr & Hrun & Hv) _ _. cbn [fst snd] in *.
  apply hoare_intro. cbn [fst]. intros _ _ Hl. apply hoare_peek. intros t m ->.
  destruct (_ && _ && _) eqn:Et; [apply hoare_fail|].
  eapply hoare_conseq; [apply hoare_links; done|].
  intros _ [[tks2 cur2] g2] (l & Hr2 & Hrun2 & t2 & m2 & Hm & Ht2) _ _. cbn [fst snd] in *. subst tks2.
  exists (Connect nd l). cbn [fst snd]. split_and!.
  - apply reads_app. by eexists.
  - cbn. by rewrite Hrun.
  - destruct l as [|x l]; [|done]. cbn in *. apply reads_nil in Hr2 as [= -> ->].
    rewrite !andb_false_iff, !negb_false_iff, !bool_decide_eq_true in Et. tauto.
Qed.

(** ** The other statements *)

Definition add_port (input_port : bool) (g : sol_fbp_graph) (n : Z) (nm : list Z) (pos : sol_fbp_position) :=
  if input_port then sol_fbp_graph_add_in_port g n nm pos else sol_fbp_graph_add_out_port g n nm pos.

Definition add_export (input_port : bool) (g : sol_fbp_graph) (n : Z) (nm : list Z) (idx : Z)
    (ex : list Z) (pos : sol_fbp_position) :=
  if input_port then sol_fbp_graph_add_exported_in_port g n nm idx ex pos
  else sol_fbp_graph_add_exported_out_port g n nm idx ex pos.

Lemma add_port_keeps input_port g i nm pos :
  graph_ok g -> exists r g', add_port input_port g i nm pos = (r, g') /\ graph_ok g' /\ extends g g'.
Proof. destruct input_port; [apply add_in_port_keeps|apply add_out_port_keeps]. Qed.

Lemma add_exported_silent l n nm idx ex pos err l' :
  add_exported l n nm idx ex pos = (err, None, l') -> clash err = false.
Proof.
  unfold add_exported. destruct (export_clash _ _ _ _ _) as [[? ?]|]; [done|].
  destruct (Vector.append_error_values exported_port_bytes (blen l) ltac:(done) (blen_nonneg _)) as [He|[He|He]];
    rewrite He; cbn; intros [= <- <-]; done.
Qed.

Lemma add_export_keeps input_port g n nm idx ex pos :
  graph_ok g -> valid_node g n ->
  exists err ep g', add_export input_port g n nm idx ex pos = (err, ep, g') /\ graph_ok g' /\ extends g g'
    /\ (ep = None -> clash err = false).
Proof.
  intros Hg Hn. destruct input_port.
  - destruct (add_exported_in_ok g n nm idx ex pos Hg Hn) as (err & ep & g' & Hr & Hok & He & _).
    exists err, ep, g'. split_and!; [done|done|done|]. intros ->. revert Hr.
    unfold sol_fbp_graph_add_exported_in_port.
    destruct (add_exported _ _ _ _ _ _) as [[? ?] ?] eqn:E. intros [= -> -> _]. by eapply add_exported_silent.
  - destruct (add_exported_out_ok g n nm idx ex pos Hg Hn) as (err & ep & g' & Hr & Hok & He & _).
    exists err, ep, g'. split_and!; [done|done|done|]. intros ->. revert Hr.
    unfold sol_fbp_graph_add_exported_out_port.
    destruct (add_exported _ _ _ _ _ _) as [[? ?] ?] eqn:E. intros [= -> -> _]. by eapply add_exported_silent.
Qed.

Lemma run_export input_port nm po ex g n g1 e g2 err ep g3 :
  run_add_node {| w_text := w_text nm; w_pos := w_pos ex |} [] g = Some (n, g1) ->
  add_port input_port g1 n (w_text (p_name po)) (w_pos ex) = (e, g2) ->
  add_export input_port g2 n (w_text (p_name po)) (port_index po) (w_text ex) (w_pos ex) = (err, ep, g3) ->
  run_stmt (Export input_port nm po ex) g = if clash err then None else Some g3.
Proof.
  intros Hrun Hport Hex. cbn [run_stmt]. rewrite Hrun. cbn [mbind option_bind].
  destruct input_port; cbn [add_port add_export] in *; rewrite Hport; cbn [snd]; by rewrite Hex.
Qed.

Lemma hoare_export_stmt input_port tks cur g :
  hoare (parse_export_stmt input input_port) (tks, cur, g) (fun _ c' => exists nm po ex,
    reads tks (export_syms nm po ex) c'.1.1 /\ run_stmt (Export input_port nm po ex) g = Some c'.2).
Proof.
  unfold parse_export_stmt. eapply hoare_bind; [apply hoare_exported_port|].
  intros r [[tks1 cur1] g1] (nm & po & ex & Hr & Hg & -> & Hpos) _ _. cbn [fst snd] in *. subst g1.
  apply hoare_pos. rewrite Hpos. apply hoare_add_node. intros n g2 Hok2 He2 Hv2 Hrun.
  destruct (add_port_keeps input_port g2 n (w_text (p_name po)) (w_pos ex) Hok2) as (e & g3 & Hport & Hok3 & He3).
  eapply hoare_graph; [exact Hport|done|done|]. rewrite port_index_int, Z.eqb_refl. cbn [negb].
  assert (valid_node g3 n) as Hv3 by (by eapply extends_valid).
  destruct (add_export_keeps input_port g3 n (w_text (p_name po)) (port_index po) (w_text ex) (w_pos ex) Hok3 Hv3)
    as (err & ep & g4 & Hex & Hok4 & He4 & Hsil).
  eapply (hoare_graph _ _ _ _ _ (err, ep) g4).
  { unfold add_export in Hex. destruct input_port; exact Hex. }
  { done. }
  { done. }
  pose proof (run_export _ _ _ _ _ _ _ _ _ _ _ _ Hrun Hport Hex) as Hall. unfold clash in *.
  assert (err <> - EEXIST -> err <> - EADDRINUSE -> hoare (found tt) (tks1, cur1, g4) (fun _ c' =>
    exists nm po ex, reads tks (export_syms nm po ex) c'.1.1
      /\ run_stmt (Export input_port nm po ex) g = Some c'.2)) as Hdone.
  { intros H1' H2'. apply hoare_found. exists nm, po, ex. split; [done|].
    rewrite Hall. by destruct (Z.eqb_spec err (- EEXIST)), (Z.eqb_spec err (- EADDRINUSE)). }
  destruct ep as [ep|].
  - destruct (Z.eqb_spec err (- EEXIST)); [apply hoare_fail|].
    destruct (Z.eqb_spec err (- EADDRINUSE)); [apply hoare_fail|]. by apply Hdone.
  - specialize (Hsil eq_refl). apply orb_false_iff in Hsil as [?%Z.eqb_neq ?%Z.eqb_neq]. by apply Hdone.
Qed.

Lemma hoare_declare_stmt t more cur g :
  type t = T_DECLARE_KEYWORD ->
  hoare (parse_declare_stmt input) (t :: more, cur, g) (fun _ => read_stmt (t :: more) g).
Proof.
  intros Ht. unfold parse_declare_stmt. eapply hoare_assert; [exact Ht|done|].
  apply hoare_expect; [done|]. intros t1 m1 -> Ht1. apply hoare_expect; [done|]. intros t2 m2 -> Ht2.
  apply hoare_slice, hoare_pos. apply hoare_expect; [done|]. intros t3 m3 -> Ht3.
  apply hoare_expect; [done|]. intros t4 m4 -> Ht4. apply hoare_slice.
  apply hoare_expect; [done|]. intros t5 m5 -> Ht5. apply hoare_expect; [done|]. intros t6 m6 -> Ht6.
  apply hoare_slice. apply hoare_intro. cbn [snd]. intros Hok _ _.
  pose proof (declare_ok g (token_text input t2) (token_text input t4) (token_text input t6)
    (get_token_position t2) Hok) as (Hok' & He' & _).
  destruct (sol_fbp_graph_declare g (token_text input t2) (token_text input t4) (token_text input t6)
    (get_token_position t2)) as [err g'] eqn:E. cbn [fst snd] in *.
  eapply hoare_graph; [exact E|done|done|].
  destruct (err =? - EEXIST) eqn:E1; [apply hoare_fails, fails_at, fails_fail|].
  destruct (err =? - EINVAL) eqn:E2; [apply hoare_fails, fails_at, fails_fail|]. apply hoare_found.
  exists (Declaration (word_of t2) (word_of t4) (word_of t6)). split_and!; [|cbn; rewrite E; cbn; by rewrite E1, E2|done].
  cbn [stmt_syms]. do 7 reads_one. by apply reads_nil.
Qed.

Lemma hoare_option_stmt t more cur g :
  type t = T_OPTION_KEYWORD ->
  hoare (parse_option_stmt input) (t :: more, cur, g) (fun _ => read_stmt (t :: more) g).
Proof.
  intros Ht. unfold parse_option_stmt. eapply hoare_assert; [exact Ht|done|].
  apply hoare_expect; [done|]. intros t1 m1 -> Ht1. apply hoare_expect; [done|]. intros t2 m2 -> Ht2.
  apply hoare_slice, hoare_pos. apply hoare_expect; [done|]. intros t3 m3 -> Ht3.
  apply hoare_expect; [done|]. intros t4 m4 -> Ht4. apply hoare_slice.
  apply hoare_expect; [done|]. intros t5 m5 -> Ht5. apply hoare_expect; [done|]. intros t6 m6 -> Ht6.
  apply hoare_slice, hoare_add_node. intros n g1 Hok1 He1 Hv1 Hrun.
  pose proof (option_ok g1 n (token_text input t6) (token_text input t4) (get_token_position t2) Hok1 Hv1)
    as (Hok' & He' & _).
  destruct (sol_fbp_graph_option g1 n (token_text input t6) (token_text input t4) (get_token_position t2))
    as [err g'] eqn:E. cbn [fst snd] in *.
  eapply hoare_graph; [exact E|done|done|].
  destruct (err =? - EEXIST) eqn:E1; [apply hoare_fails, fails_at, fails_fail|].
  destruct (err =? - EINVAL) eqn:E2; [apply hoare_fails, fails_at, fails_fail|].
  destruct (err <? 0) eqn:E3; [apply hoare_fails, fails_at, fails_fail|]. apply hoare_found.
  exists (Option_ (word_of t2) (word_of t4) (word_of t6)). split_and!; [| |done].
  - cbn [stmt_syms]. do 7 reads_one. by apply reads_nil.
  - change (run_add_node (word_of t2) [] g = Some (n, g1)) in Hrun. cbn [run_stmt]. rewrite Hrun. cbn. by rewrite E, E3.
Qed.

(** ** Statements *)

(** A statement is read, or there is none and the tokens are at their end. *)
Definition stmt_result (c : cfg) (r : option unit) (p' : sol_fbp_parser) : Prop :=
  match r with
  | Some _ => exists c', at_ p' c' /\ read_stmt c.1.1 c.2 c'
  | None => gave_up p'
      \/ at_ p' c /\ exists t more, c.1.1 = t :: more /\ type t = T_EOF
  end.

Lemma hoare_stmt_result (m : parsing unit) c p :
  hoare m c (fun _ => read_stmt c.1.1 c.2) -> at_ p c -> graph_ok c.2 ->
  exists r p', m p = Ret (r, p') /\ graph_ok (graph p') /\ extends c.2 (graph p') /\ stmt_result c r p'.
Proof.
  intros Hm Hp Hg. destruct (Hm p Hp Hg) as (r & p' & Hr & Hg' & He & Hres). exists r, p'.
  split_and!; [done|done|done|]. destruct r; [done|by left].
Qed.

Lemma and_then_run {A B} (m : parsing A) (k : A -> parsing B) p a p' :
  m p = Ret (Some a, p') -> and_then m k p = k a p'.
Proof. intros Hr. unfold and_then. by rewrite Hr. Qed.

Lemma stmt_spec p c :
  at_ p c -> graph_ok c.2 ->
  exists r p', parse_stmt input p = Ret (r, p') /\ graph_ok (graph p') /\ extends c.2 (graph p')
    /\ stmt_result c r p'.
Proof.
  intros Hp Hg. destruct c as [[tks cur] g]. pose proof (at_stream _ _ Hp) as Hst. cbn in Hst.
  destruct tks as [|t more]; [done|]. destruct (finds_peek t more cur g p Hp) as (p1 & Hr1 & Hp1).
  unfold parse_stmt. rewrite (and_then_run _ _ _ _ _ Hr1).
  assert (forall (b : bool) (m : parsing unit), (if b then T_INPORT_KEYWORD else T_OUTPORT_KEYWORD) = type t ->
    m = (assert_token input (type t) ;;; parse_export_stmt input b) ->
    hoare m (t :: more, cur, g) (fun _ => read_stmt (t :: more) g)) as Hexport.
  { intros b m Hb ->. eapply hoare_assert; [done|by rewrite <- Hb; destruct b|].
    eapply hoare_conseq; [apply hoare_export_stmt|]. intros _ c' (nm & po & ex & Hr & Hrun) _ _.
    exists (Export b nm po ex). split_and!; [|done|done]. cbn [stmt_syms]. by reads_one. }
  assert (forall k : parsing unit, fails k -> exists r p', (and_then (next input) (fun _ => k) p1)
    = Ret (r, p') /\ graph_ok (graph p') /\ extends g (graph p') /\ stmt_result (t :: more, cur, g) r p') as Hbad.
  { intros k Hk. destruct (finds_next t more cur g p1 Hp1) as (p2 & Hr2 & Hp2).
    rewrite (and_then_run _ _ _ _ _ Hr2).
    destruct (Hk p2) as (p3 & Hr3 & Hc3). pose proof (proj1 Hc3) as Hg3. exists None, p3. pose proof (at_graph _ _ Hp2) as Hg2. cbn in Hg2.
    rewrite Hg3, Hg2. split_and!; [done|done|apply graph_extends_refl|left; by eapply complains_gave_up]. }
  assert (fails (A := unit) (s ⇐ slice input; fail "Couldn't parse statement '%.*s'." [ASlice s])) as Hslice.
  { intros p2. unfold and_then, slice. rewrite bind_ret. apply fails_fail. }
  assert (forall m : parsing unit, hoare m (t :: more, cur, g) (fun _ => read_stmt (t :: more) g) ->
    exists r p', m p1 = Ret (r, p') /\ graph_ok (graph p') /\ extends g (graph p')
    /\ stmt_result (t :: more, cur, g) r p') as Hgood by (intros m Hm; by apply (hoare_stmt_result m _ p1 Hm)).
  destruct (type t) eqn:Ht; try (apply (Hbad _ Hslice)).
  - apply (Hbad _ (fails_fail _ _)).
  - exists None, p1. rewrite (at_graph _ _ Hp1). split_and!; [done|done|apply graph_extends_refl|]. right.
    split; [done|]. by exists t, more.
  - apply Hgood, hoare_conn_stmt.
  - by apply Hgood, (Hexport true).
  - by apply Hgood, (Hexport false).
  - apply Hgood. eapply hoare_take; [exact Ht|done|]. apply hoare_found. exists Separator.
    split_and!; [|done|done]. cbn [stmt_syms]. reads_one. by apply reads_nil.
  - by apply Hgood, hoare_declare_stmt.
  - by apply Hgood, hoare_option_stmt.
Qed.

(** ** Programs *)

Lemma stmt_head st : exists s l, stmt_syms st = s :: l /\ match st with
  | Connect _ _ => exists w, s = W T_IDENTIFIER w
  | Separator => s = P T_STMT_SEPARATOR
  | _ => exists ty, s = P ty /\ ty <> T_IDENTIFIER /\ ty <> T_STMT_SEPARATOR /\ ty <> T_EOF
  end.
Proof.
  destruct st as [[] ? ? ?|? ? ?|? ? ?|nd l|]; do 2 eexists; (split; [reflexivity|]);
    first [by eexists|by eexists; split_and!|done].
Qed.

Lemma reads_stmt_shorter tks st tks' : reads tks (stmt_syms st) tks' -> (length tks' < length tks)%nat.
Proof.
  intros Hl%reads_length. destruct (stmt_head st) as (s & l & Hs & _). rewrite Hs in Hl. simpl in Hl. lia.
Qed.

Lemma ends_may_follow st tks l t :
  ends_stmt st tks -> reads tks (l ≫= stmt_syms) [t] -> type t = T_EOF -> may_follow st l = true.
Proof.
  intros He Hr Ht. destruct st as [| | |nd links|]; try done.
  destruct l as [|st' l]; [by destruct links|]. rewrite bind_cons in Hr.
  apply reads_app in Hr as (mid & Hr & _). destruct (stmt_head st') as (s & l' & Hs & Hst'). rewrite Hs in Hr.
  apply reads_cons in Hr as (t' & more & -> & Hfit & _). destruct links as [|x links]; cbn in He.
  - destruct st'; try done.
    all: try (destruct Hst' as (ty & -> & H1' & H2' & H3'); cbn in Hfit; destruct He; congruence).
    destruct Hst' as (w & ->). destruct Hfit as (Hty & _), He; congruence.
  - destruct st'; try done. destruct Hst' as (w & ->). by destruct Hfit.
Qed.

(** [l] is what [tks] write, up to the end. *)
Definition writes (l : list stmt) (tks : list sol_fbp_token) : Prop :=
  separated l = true /\ exists t, reads tks (l ≫= stmt_syms) [t] /\ type t = T_EOF.

Lemma stmts_spec fuel : forall p c,
  at_ p c -> graph_ok c.2 -> (length c.1.1 < fuel)%nat ->
  exists p', parse_stmts input fuel p = Ret p' /\ graph_ok (graph p') /\ extends c.2 (graph p')
    /\ (gave_up p'
        \/ (exists t cur, at_ p' ([t], cur, graph p') /\ type t = T_EOF)
           /\ exists l, writes l c.1.1 /\ run_stmts l c.2 = Some (graph p')).
Proof.
  induction fuel as [|fuel IH]; intros p c Hp Hg Hfuel; [lia|]. cbn [parse_stmts].
  destruct (stmt_spec p c Hp Hg) as (r & p1 & -> & Hg1 & He1 & Hres). rewrite bind_ret. destruct r as [[]|]; cbn in Hres.
  - destruct Hres as (c1 & Hp1 & st & Hr & Hrun & Hend). rewrite (at_graph _ _ Hp1) in *.
    pose proof (reads_stmt_shorter _ _ _ Hr).
    destruct (IH p1 c1 Hp1 Hg1 ltac:(lia)) as (p2 & Hr2 & Hg2 & He2 & Hres2). exists p2.
    split_and!; [done|done|by eapply graph_extends_trans|].
    destruct Hres2 as [|[Hat (l & [Hsep (t & Hw & Ht)] & Hruns)]]; [by left|right]. split; [done|].
    exists (st :: l). split; [split|].
    + cbn [separated]. by rewrite (ends_may_follow _ _ _ _ Hend Hw Ht).
    + exists t. split; [|done]. rewrite bind_cons. apply reads_app. by eexists.
    + cbn [run_stmts]. by rewrite Hrun.
  - exists p1. split_and!; [done|done|done|]. destruct Hres as [|[Hp1 (t & more & Heq & Ht)]]; [by left|right].
    pose proof (at_stream _ _ Hp1) as Hst. pose proof (at_graph _ _ Hp1) as Hgr.
    destruct c as [[tks cur] g]. cbn [fst snd] in *. subst tks.
    assert (more = []) as -> by (destruct more; [done|]; destruct Hst as [[] _]; by left).
    split; [|exists []; cbn; rewrite Hgr; split; [split; [done|]|done]].
    + exists t, cur. by rewrite Hgr.
    + exists t. by rewrite reads_nil.
Qed.

(** ** The whole parser *)

Definition typed (g : sol_fbp_graph) : Prop := Forall (fun n => component n <> []) (nodes g).
#[export] Instance typed_dec g : Decision (typed g).
Proof. unfold typed. apply _. Defined.

Lemma scan_all_length fuel : forall s tks, scan_all input fuel s = Ret tks -> (length tks <= fuel)%nat.
Proof.
  induction fuel as [|fuel IH]; intros s tks; cbn [scan_all]; [done|].
  intros (s' & _ & Hrun)%bind_Ret_inv. case_bool_decide; [injection Hrun as <-; simpl; lia|].
  apply bind_Ret_inv in Hrun as (more & Hmore%IH & [= <-]). simpl. lia.
Qed.

(** The tokens of the input. *)
Definition tokens (tks : list sol_fbp_token) : Prop :=
  scan_all input (8 * length input + 8) (sol_fbp_scanner_init input) = Ret tks.

Lemma tokens_exist : exists tks, tokens tks.
Proof.
  destruct (scan_all_spec input (8 * length input + 8) [] input _ (scanner_ready input)) as (tks & Hr & _);
    [done| |by exists tks].
  unfold rounds_left, measure. simpl. lia.
Qed.

Lemma at_init tks g : tokens tks -> exists cur, at_ (parser_init input g) (tks, cur, g).
Proof.
  intros Ht. eexists. unfold at_. split_and!; [|cbn [fst]|done|done|done].
  - unfold upcoming. rewrite decide_True by done. by eexists.
  - apply scan_all_length in Ht. unfold parse_fuel. lia.
Qed.

Lemma verify_spec p :
  error_msg p = None ->
  typed (graph p) /\ verify_graph p = (true, p)
  \/ ~ typed (graph p) /\ exists p', verify_graph p = (false, p') /\ graph p' = graph p /\ (error_msg p' <> None \/ unformatted).
Proof.
  intros He. unfold verify_graph, typed.
  pose proof (find_from_spec (fun n => blen (component n) =? 0) (nodes (graph p)) 0) as Hf.
  destruct (find_from _ 0 _) as [[i n]|].
  - right. destruct Hf as (_ & Hn & Ht & _). split.
    + intros Hall. rewrite Forall_lookup in Hall. apply (Hall _ _ Hn). by apply blen_zero_nil, Z.eqb_eq.
    + eexists. split; [done|]. destruct (set_parse_error_complains (set_error_pos p (position n))
        "Node '%.*s' doesn't have a type, Node type must be defined. e.g. 'node(nodetype)'" [ASlice (name n)]) as (Hg & [?|[? _]]); auto.
  - left. split; [|done]. eapply Forall_impl; [exact Hf|]. cbn. intros n ?%Z.eqb_neq Hc. rewrite Hc in *. done.
Qed.

Lemma verify_graph_same p : graph (verify_graph p).2 = graph p.
Proof.
  unfold verify_graph. destruct (find_from _ 0 _) as [[i n]|]; [|done]. apply (set_parse_error_complains (set_error_pos p (position n))).
Qed.

(** The answer to a parser that has seen an error *)
Definition error_answer (p : sol_fbp_parser) : outcome (option sol_fbp_error * sol_fbp_graph) :=
  match c_malloc error_bytes with
  | None => Ret (None, graph p)
  | Some _ => Ret (Some {| e_msg := error_msg p; e_position := error_pos p |}, graph p)
  end.

(** The program was refused with a message, or there was no memory to say so. *)
Definition refused_with (e : option sol_fbp_error) : Prop :=
  match e with Some e => e_msg e <> None | None => alloc_ok error_bytes = false end \/ unformatted.

Lemma error_answer_spec p : error_msg p <> None \/ unformatted ->
  exists e, error_answer p = Ret (e, graph p) /\ refused_with e.
Proof.
  intros Hm. unfold error_answer, refused_with, c_malloc. destruct (alloc_ok error_bytes); eexists; (split; [done|]); [done|by left].
Qed.

(** What comes behind the statements *)
Definition finish (p : sol_fbp_parser) : outcome (option sol_fbp_error * sol_fbp_graph) :=
  let '(valid, p) := (match error_msg p with None => verify_graph p | Some _ => (false, p) end) in
  if valid then Ret (None, graph p) else error_answer p.

Lemma finish_unformatted p : unformatted -> exists e, finish p = Ret (e, graph p) /\ refused_with e.
Proof.
  intros Hu. unfold finish. pose proof (verify_graph_same p) as Hv.
  assert (forall p2, exists e, error_answer p2 = Ret (e, graph p2) /\ refused_with e) as He by (intros p2; apply error_answer_spec; by right).
  destruct (error_msg p); [apply He|]. destruct (verify_graph p) as [[] p2]; cbn [snd] in Hv; rewrite <- Hv; [|apply He].
  exists None. split; [done|by right].
Qed.

(** What sol_fbp_parse does, all cases. *)
Lemma parse_spec tks g :
  tokens tks -> graph_ok g ->
  exists e g', sol_fbp_parse input g = Ret (e, g') /\ graph_ok g' /\ extends g g'
    /\ (e = None /\ (exists l, writes l tks /\ run_stmts l g = Some g') /\ typed g' \/ refused_with e).
Proof.
  intros Htks Hg. destruct (at_init tks g Htks) as (cur & Hp).
  assert (length tks < parse_fuel input)%nat as Hl by (apply scan_all_length in Htks; unfold parse_fuel; lia).
  destruct (stmts_spec (parse_fuel input) _ _ Hp Hg Hl) as (p1 & Hr1 & Hg1 & He1 & Hres). cbn [fst snd] in *.
  unfold sol_fbp_parse, parse_stmt_list. rewrite Hr1, bind_ret. fold error_answer.
  assert (forall p2 e, graph p2 = graph p1 -> refused_with e -> forall x, x = Ret (e, graph p2) -> exists e g', x = Ret (e, g') /\ graph_ok g' /\ extends g g'
      /\ (e = None /\ (exists l, writes l tks /\ run_stmts l g = Some g') /\ typed g' \/ refused_with e)) as Hend.
  { intros p2 e Hgr Hre x ->. exists e, (graph p2). rewrite Hgr. split_and!; [done|done|done|by right]. }
  destruct Hres as [[Herr|[Hu (c & Hat)]]|[(t & cur' & Hp1 & Ht) Hprog]].
  - destruct (error_msg p1) eqn:Em; [|done]. rewrite bind_ret, Em.
    destruct (error_answer_spec p1) as (e & Hrun & He); [left; by rewrite Em|]. by apply (Hend p1 e).
  - pose proof Hat as (_ & _ & _ & Hgc & ->). pose proof (at_stream _ _ Hat) as Hst. destruct c as [[[|t more] cur'] g1]; [done|]. cbn [snd] in Hgc.
    destruct (peek_token_spec p1 t more cur' g1 Hat) as (p2 & -> & Hp2 & _). rewrite !bind_ret.
    pose proof (at_graph _ _ Hp2) as Hg2. cbn [snd] in Hg2. set (p3 := if negb _ then set_parse_error p2 _ _ else p2). assert (graph p3 = graph p1) as Hg3.
    { subst p3. rewrite Hgc, <- Hg2. destruct (negb _); [apply set_parse_error_complains|done]. }
    destruct (finish_unformatted p3 Hu) as (e & Hrun & He). by apply (Hend p3 e).
  - pose proof Hp1 as (_ & _ & _ & _ & Em). rewrite Em.
    destruct (peek_token_spec p1 t [] cur' (graph p1) Hp1) as (p2 & Hr2 & Hp2 & _). rewrite Hr2, bind_ret.
    rewrite bool_decide_true by done. cbn [negb]. rewrite bind_ret.
    pose proof Hp2 as (_ & _ & _ & Hgr & Em2). cbn in Hgr. rewrite Em2.
    destruct (verify_spec p2 Em2) as [[Hty ->]|[Hty (p3 & -> & Hg3 & Em3)]].
    + do 2 eexists. split; [done|]. rewrite Hgr in *. split_and!; [done|done|by left].
    + destruct (error_answer_spec p3 Em3) as (e & Hrun & He). apply (Hend p3 e); [by rewrite Hg3|done|exact Hrun].
Qed.

(** ** What is written is read *)

Definition head_is (Q : sol_fbp_token_type -> Prop) (tks : list sol_fbp_token) : Prop :=
  exists t more, tks = t :: more /\ Q (type t).

Lemma reads_head_is (Q : sol_fbp_token_type -> Prop) tks s l tks' :
  reads tks (s :: l) tks' -> (forall t, fits s t -> Q (type t)) -> head_is Q tks.
Proof. intros (t & more & -> & Hf & _)%reads_cons HQ. exists t, more. auto. Qed.

Lemma finds_expect_bind {B} ty fmt (k : unit -> parsing B) t more cur g b c' :
  type t = ty -> ends ty = false -> finds (k tt) (more, t, g) b c' ->
  finds (and_then (expect_token input ty fmt) k) (t :: more, cur, g) b c'.
Proof. intros Hty He Hk. eapply finds_bind; [by apply finds_expect, (not_final ty)|done]. Qed.

Lemma finds_assert_bind {B} ty (k : unit -> parsing B) t more cur g b c' :
  type t = ty -> ends ty = false -> finds (k tt) (more, t, g) b c' ->
  finds (and_then (assert_token input ty) k) (t :: more, cur, g) b c'.
Proof. intros Hty He Hk. eapply finds_bind; [by apply finds_assert, (not_final ty)|done]. Qed.

Lemma finds_next_bind {B} ty (k : sol_fbp_token_type -> parsing B) t more cur g b c' :
  type t = ty -> ends ty = false -> finds (k ty) (more, t, g) b c' ->
  finds (and_then (next input) k) (t :: more, cur, g) b c'.
Proof.
  intros Hty He Hk. eapply finds_bind; [by apply finds_take, (not_final ty)|]. by rewrite Hty.
Qed.

Lemma finds_peek_bind {B} (k : sol_fbp_token_type -> parsing B) t more cur g b c' :
  finds (k (type t)) (t :: more, cur, g) b c' -> finds (and_then (peek input) k) (t :: more, cur, g) b c'.
Proof. intros Hk. eapply finds_bind; [apply finds_peek|done]. Qed.

Lemma finds_slice_bind {B} (k : list Z -> parsing B) tks cur g b c' :
  finds (k (token_text input cur)) (tks, cur, g) b c' -> finds (and_then (slice input) k) (tks, cur, g) b c'.
Proof. intros Hk. eapply finds_bind; [apply finds_slice|done]. Qed.

Lemma finds_pos_bind {B} (k : sol_fbp_position -> parsing B) tks cur g b c' :
  finds (k (get_token_position cur)) (tks, cur, g) b c' -> finds (and_then token_pos k) (tks, cur, g) b c'.
Proof. intros Hk. eapply finds_bind; [apply finds_pos|done]. Qed.

Lemma finds_graph_bind {A B} (f : sol_fbp_graph -> A * sol_fbp_graph) (k : A -> parsing B) tks cur g a g' b c' :
  f g = (a, g') -> finds (k a) (tks, cur, g') b c' -> finds (and_then (on_graph f) k) (tks, cur, g) b c'.
Proof. intros Hf Hk. eapply finds_bind; [by apply finds_graph|done]. Qed.

(** The next token written, in [Hr], named [t]. *)
Ltac written Hr t Ht :=
  let m := fresh "m" in apply reads_cons in Hr as (t & m & -> & Ht & Hr); cbn [fits] in Ht.

Lemma finds_index i tks tks' cur g :
  reads tks (index_syms i) tks' -> (i = None -> head_is (fun ty => ty <> T_BRACKET_OPEN) tks') ->
  exists cur', (forall nm, finds (parse_port_idx input (-1)) (tks, cur, g)
                  (port_index {| p_name := nm; p_index := i |}) (tks', cur', g))
    /\ match i with None => cur' = cur | Some (_, pos) => get_token_position cur' = pos end.
Proof.
  intros Hr Hnext. destruct i as [[w pos]|]; cbn [index_syms] in Hr.
  - written Hr t1 Ht1. written Hr t2 Ht2. written Hr t3 Ht3. apply reads_nil in Hr as ->.
    destruct Ht2 as (Ht2 & Hw & _), Ht3 as (Ht3 & Hpos). exists t3. split; [|done]. intros nm. unfold parse_port_idx.
    apply finds_peek_bind. rewrite bool_decide_true by done. cbn [negb].
    eapply finds_next_bind; [exact Ht1|done|]. eapply finds_expect_bind; [exact Ht2|done|].
    apply finds_slice_bind. eapply finds_expect_bind; [exact Ht3|done|]. unfold port_index. cbn [p_index].
    rewrite Hw. apply finds_found.
  - apply reads_nil in Hr as ->. exists cur. split; [|done]. intros nm.
    destruct (Hnext eq_refl) as (t & more & -> & Ht).
    unfold parse_port_idx. apply finds_peek_bind. rewrite bool_decide_false by done. apply finds_found.
Qed.

Lemma finds_port po tks tks' cur g :
  reads tks (port_syms po) tks' -> head_is (fun ty => ty <> T_BRACKET_OPEN) tks' ->
  exists cur', finds (parse_port input (-1)) (tks, cur, g) (w_text (p_name po), port_index po) (tks', cur', g)
    /\ get_token_position cur' = port_end po.
Proof.
  intros Hr Hnext. unfold port_syms in Hr. written Hr t Ht. destruct Ht as (Ht & Hw & Hpos).
  destruct (finds_index _ _ _ t g Hr (fun _ => Hnext)) as (cur' & Hf & Hcur). exists cur'. split.
  - unfold parse_port. eapply finds_expect_bind; [exact Ht|done|]. apply finds_slice_bind.
    eapply finds_bind; [apply (Hf (p_name po))|]. rewrite Hw. destruct po. apply finds_found.
  - unfold port_end. destruct (p_index po) as [[? ?]|]; [done|by subst].
Qed.

Lemma finds_add_node nm comp tks cur g n g' text pos :
  run_add_node nm comp g = Some (n, g') -> text = w_text nm -> pos = w_pos nm ->
  finds (add_node text comp pos) (tks, cur, g) n (tks, cur, g').
Proof.
  unfold run_add_node. intros Hrun -> ->. destruct (sol_fbp_graph_add_node _ _ _ _) as [[n' o] g2] eqn:E.
  destruct (n' <? 0) eqn:En; [done|]. injection Hrun as -> ->. unfold add_node.
  eapply (finds_graph_bind _ _ _ _ _ (n, o)); [by rewrite E|]. rewrite En. apply finds_found.
Qed.

Lemma finds_meta_item x tks tks' cur g :
  reads tks (pair_syms x) tks' -> head_is (fun ty => ty <> T_EQUAL) tks' ->
  exists cur', finds (parse_meta_item input) (tks, cur, g)
    (w_text (p_key x), value_text (p_value x), w_pos (p_key x)) (tks', cur', g).
Proof.
  intros Hr (t0 & more & -> & Hnext). unfold pair_syms in Hr. written Hr t Ht. destruct Ht as (Ht & Hw & Hpos).
  unfold parse_meta_item.
  destruct (p_value x) as [|w|w]; cbn [value_syms] in Hr; [|written Hr t1 Ht1; written Hr t2 Ht2..].
  - apply reads_nil in Hr as ->. exists t. eapply finds_expect_bind; [exact Ht|done|].
    apply finds_slice_bind, finds_pos_bind, finds_peek_bind. rewrite bool_decide_false by done.
    rewrite Hw, Hpos. apply finds_found.
  - apply reads_nil in Hr as <-. destruct Ht2 as (Ht2 & Hw2 & _). exists t2. eapply finds_expect_bind; [exact Ht|done|].
    apply finds_slice_bind, finds_pos_bind, finds_peek_bind. rewrite bool_decide_true by done.
    eapply finds_next_bind; [exact Ht1|done|]. eapply finds_next_bind; [exact Ht2|done|]. cbn.
    apply finds_slice_bind. rewrite Hw, Hpos, Hw2. apply finds_found.
  - apply reads_nil in Hr as <-. destruct Ht2 as (Ht2 & Hw2 & _). exists t2. eapply finds_expect_bind; [exact Ht|done|].
    apply finds_slice_bind, finds_pos_bind, finds_peek_bind. rewrite bool_decide_true by done.
    eapply finds_next_bind; [exact Ht1|done|]. eapply finds_next_bind; [exact Ht2|done|]. cbn.
    apply finds_slice_bind. rewrite Hw, Hpos, Hw2. apply finds_found.
Qed.

(** The pairs, up to the closing parenthesis. *)
Lemma finds_meta_loop l : forall fuel first n tks tks' cur g g',
  reads tks (pairs_syms first l) tks' -> head_is (eq T_PAREN_CLOSE) tks' ->
  run_pairs n l g = Some g' -> (length l < fuel)%nat ->
  exists cur', finds (parse_meta_loop input fuel n first) (tks, cur, g) tt (tks', cur', g').
Proof.
  induction l as [|x l IH]; intros [|fuel] first n tks tks' cur g g' Hr Hnext Hrun Hfuel; try (simpl in Hfuel; lia).
  - cbn [pairs_syms] in Hr. apply reads_nil in Hr as ->. injection Hrun as ->. exists cur. cbn [parse_meta_loop].
    destruct Hnext as (t & more & -> & Ht). apply finds_peek_bind. rewrite bool_decide_true by done. apply finds_found.
  - cbn [pairs_syms] in Hr. apply reads_app in Hr as (tks1 & Hr1 & (tks2 & Hr2 & Hr3)%reads_app).
    cbn [run_pairs] in Hrun. destruct (sol_fbp_graph_add_meta _ _ _ _ _) as [r g1] eqn:Eadd.
    destruct (r <? 0) eqn:Er; [done|].
    assert (head_is (fun ty => ty <> T_EQUAL) tks2) as Hhead2.
    { destruct l as [|y l]; cbn [pairs_syms app] in Hr3.
      - apply reads_nil in Hr3 as ->. destruct Hnext as (t & more & -> & Ht). exists t, more. by rewrite <- Ht.
      - eapply reads_head_is; [exact Hr3|]. cbn. intros t ->. done. }
    assert (head_is (fun ty => ty <> T_PAREN_CLOSE) tks) as Hhead.
    { destruct first; [apply reads_nil in Hr1 as ->|].
      - eapply reads_head_is; [exact Hr2|]. intros t (-> & _). done.
      - eapply reads_head_is; [exact Hr1|]. intros t ->. done. }
    cbn [parse_meta_loop].
    assert (exists cur1, finds (if first then found tt else expect_token input T_COMMA
      "Expected ',' after key-pair meta information. e.g. '(nodetype:key1:val2,keyN:valN)'")
      (tks, cur, g) tt (tks1, cur1, g)) as (cur1 & Hf1).
    { destruct first; [apply reads_nil in Hr1 as ->; exists cur; apply finds_found|].
      written Hr1 t1 Ht1. apply reads_nil in Hr1 as ->. exists t1. by apply finds_expect, (not_final T_COMMA). }
    destruct (finds_meta_item x tks1 tks2 cur1 g Hr2 Hhead2) as (cur2 & Hf2).
    destruct (IH fuel false n tks2 tks' cur2 g1 g' Hr3 Hnext Hrun ltac:(simpl in Hfuel; lia)) as (cur3 & Hf3).
    exists cur3. destruct Hhead as (t & more & -> & Ht). apply finds_peek_bind. rewrite bool_decide_false by done.
    eapply finds_bind; [exact Hf1|]. eapply finds_bind; [exact Hf2|].
    eapply (finds_graph_bind _ _ _ _ _ r); [exact Eadd|]. by rewrite Er.
Qed.

Lemma finds_intro {A} (m : parsing A) c a c' :
  (stream c.1.1 -> (length c.1.1 < parse_fuel input)%nat -> finds m c a c') -> finds m c a c'.
Proof. intros Hm p Hp. apply Hm; [by eapply at_stream|apply Hp|done]. Qed.

Lemma pairs_syms_length first l : (length l <= length (pairs_syms first l))%nat.
Proof.
  revert first. induction l as [|x l IH]; intros first; cbn [pairs_syms length]; [lia|].
  rewrite !length_app. specialize (IH false). unfold pair_syms. cbn [length]. lia.
Qed.

Lemma finds_node nd tks tks' cur g n g' :
  reads tks (node_syms nd) tks' -> (n_spec nd = Bare -> head_is (fun ty => ty <> T_PAREN_OPEN) tks') ->
  run_node nd g = Some (n, g') ->
  exists cur', finds (parse_node input) (tks, cur, g) n (tks', cur', g').
Proof.
  intros Hr Hnext Hrun. unfold node_syms in Hr. written Hr t Ht. destruct Ht as (Ht & Hw & Hpos).
  unfold run_node in Hrun. unfold parse_node. destruct (n_spec nd) as [| |comp o]; cbn [spec_syms] in Hr.
  - apply reads_nil in Hr as ->. destruct (Hnext eq_refl) as (t1 & more & -> & Ht1). exists t.
    eapply finds_expect_bind; [exact Ht|done|]. apply finds_slice_bind, finds_pos_bind, finds_peek_bind.
    rewrite bool_decide_false by done. by eapply finds_add_node.
  - written Hr t1 Ht1. written Hr t2 Ht2. apply reads_nil in Hr as ->. exists t2.
    eapply finds_expect_bind; [exact Ht|done|]. apply finds_slice_bind, finds_pos_bind, finds_peek_bind.
    rewrite bool_decide_true by done. cbn [negb]. eapply finds_next_bind; [exact Ht1|done|].
    apply finds_peek_bind. rewrite bool_decide_true by done. eapply finds_next_bind; [exact Ht2|done|].
    by eapply finds_add_node.
  - destruct (run_add_node (n_name nd) (w_text comp) g) as [[n1 g1]|] eqn:Eadd; [|done]. cbn in Hrun.
    destruct (run_pairs n1 (default [] o) g1) as [g2|] eqn:Epairs; [|done]. cbn in Hrun. injection Hrun as -> ->.
    assert (exists t1 t2 m2 mid, m = t1 :: t2 :: m2 /\ type t1 = T_PAREN_OPEN
      /\ (type t2 = T_IDENTIFIER /\ token_text input t2 = w_text comp)
      /\ reads m2 (match o with None => [] | Some l => P T_COLON :: pairs_syms true l end) mid
      /\ reads mid [P T_PAREN_CLOSE] tks') as (t1 & t2 & m2 & mid & -> & Ht1 & [Ht2 Hw2] & Hr2 & Hr3).
    { destruct o as [l|]; cbn [app] in Hr.
      - written Hr t1 Ht1. written Hr t2 Ht2. written Hr t3 Ht3. destruct Ht2 as (? & ? & _).
        apply reads_app in Hr as (mid & Hr & Hr3). do 4 eexists. split_and!; [reflexivity|done|done|done| |exact Hr3]. by reads_one.
      - written Hr t1 Ht1. written Hr t2 Ht2. destruct Ht2 as (? & ? & _). do 4 eexists. split_and!; [reflexivity|done|done|done|by apply reads_nil|exact Hr]. }
    apply reads_cons in Hr3 as (t4 & m4 & -> & Ht4 & Hend%reads_nil). subst m4. cbn [fits] in Ht4.
    assert (exists cur', finds (parse_meta input n) (m2, t2, g1) tt (t4 :: tks', cur', g')) as (cur' & Hmeta).
    { unfold parse_meta. destruct o as [l|].
      - apply reads_cons in Hr2 as (t3 & m3 & -> & Ht3 & Hr2). cbn [fits] in Ht3.
        assert ((length m3 < parse_fuel input)%nat -> exists cur', finds (parse_meta_loop input (parse_fuel input) n true)
          (m3, t3, g1) tt (t4 :: tks', cur', g')) as Hloop.
        { intros Hl. eapply finds_meta_loop; [exact Hr2|by exists t4, tks'|exact Epairs|].
          apply reads_length in Hr2. pose proof (pairs_syms_length true l). cbn [length] in Hr2. lia. }
        destruct (decide (length m3 < parse_fuel input)%nat) as [Hl|Hl].
        + destruct (Hloop Hl) as (cur' & Hf). exists cur'. apply finds_peek_bind.
          rewrite bool_decide_true by done. cbn [negb]. by eapply finds_next_bind.
        + exists t3. apply finds_intro. cbn [fst length]. lia.
      - apply reads_nil in Hr2 as ->. injection Epairs as ->. exists t2. apply finds_peek_bind.
        rewrite bool_decide_false by (by rewrite Ht4). apply finds_found. }
    exists t4. eapply finds_expect_bind; [exact Ht|done|].
    apply finds_slice_bind, finds_pos_bind, finds_peek_bind. rewrite bool_decide_true by done. cbn [negb].
    eapply finds_next_bind; [exact Ht1|done|]. apply finds_peek_bind.
    rewrite bool_decide_false by (by rewrite Ht2). eapply finds_expect_bind; [exact Ht2|done|].
    apply finds_slice_bind. rewrite Hw2. eapply finds_bind; [by eapply finds_add_node|].
    eapply finds_bind; [exact Hmeta|]. eapply finds_expect_bind; [exact Ht4|done|]. apply finds_found.
Qed.

Lemma finds_peek_identifier {B} (k : unit -> parsing B) tks cur g b c' :
  head_is (eq T_IDENTIFIER) tks -> finds (k tt) (tks, cur, g) b c' ->
  finds (and_then (peek_identifier input) k) (tks, cur, g) b c'.
Proof.
  intros (t & more & -> & Ht) Hk. eapply finds_bind; [|exact Hk]. unfold peek_identifier.
  apply finds_peek_bind. rewrite bool_decide_true by done. apply finds_found.
Qed.

Lemma finds_link src0 l tks tks' cur g n g' :
  reads tks (link_syms l) tks' -> head_is (fun ty => ty <> T_PAREN_OPEN) tks' ->
  run_link src0 l g = Some (n, g') ->
  exists cur', finds (parse_link input src0) (tks, cur, g) n (tks', cur', g').
Proof.
  intros Hr Hnext Hrun. unfold link_syms in Hr. apply reads_app in Hr as (tks1 & Hr1 & Hr). cbn [app] in Hr.
  written Hr t Ht. apply reads_app in Hr as (tks3 & Hr3 & Hr4).
  unfold run_link in Hrun. destruct (sol_fbp_graph_add_out_port _ _ _ _) as [e1 g1] eqn:E1. cbn [snd] in Hrun.
  destruct (run_node (l_node l) g1) as [[dst0 g2]|] eqn:E2; [|done]. cbn in Hrun.
  destruct (sol_fbp_graph_add_in_port _ _ _ _) as [e3 g3] eqn:E3. cbn [snd] in Hrun.
  destruct (sol_fbp_graph_add_conn _ _ _ _ _ _ _ _) as [r g4] eqn:E4. destruct (r <? 0) eqn:Er; [done|].
  injection Hrun as -> ->.
  destruct (finds_port _ _ _ cur g Hr1) as (cur1 & Hf1 & Hpos1); [by exists t, m; rewrite Ht|].
  assert (head_is (eq T_IDENTIFIER) tks3) as Hhead3
    by (eapply reads_head_is; [exact Hr4|by intros ? (-> & _)]).
  assert (head_is (eq T_IDENTIFIER) m) as Hheadm
    by (eapply reads_head_is; [exact Hr3|by intros ? (-> & _)]).
  destruct (finds_port _ _ _ t g1 Hr3) as (cur3 & Hf3 & Hpos3).
  { destruct Hhead3 as (t3 & m3 & -> & Ht3). exists t3, m3. by rewrite <- Ht3. }
  destruct (finds_node _ _ _ cur3 g1 _ _ Hr4 (fun _ => Hnext) E2) as (cur4 & Hf4). exists cur4.
  unfold parse_link. eapply finds_bind; [exact Hf1|]. apply finds_pos_bind. rewrite Hpos1.
  eapply finds_graph_bind; [exact E1|]. eapply finds_next_bind; [exact Ht|done|].
  rewrite bool_decide_true by done. cbn [negb]. apply finds_peek_identifier; [done|].
  eapply finds_bind; [exact Hf3|]. apply finds_pos_bind. rewrite Hpos3. apply finds_peek_identifier; [done|].
  eapply finds_bind; [exact Hf4|]. eapply finds_graph_bind; [exact E3|].
  rewrite !port_index_int, !Z.eqb_refl. cbn [negb]. eapply finds_graph_bind; [exact E4|]. rewrite Er. apply finds_found.
Qed.

(** Behind a node or a connection. *)
Definition stops (ty : sol_fbp_token_type) : Prop := ty <> T_IDENTIFIER /\ ty <> T_PAREN_OPEN.

Lemma finds_links l : forall fuel src0 tks tks' cur g g',
  reads tks (l ≫= link_syms) tks' -> head_is stops tks' ->
  run_links src0 l g = Some g' -> (length tks < fuel)%nat ->
  exists cur', finds (parse_links input fuel src0) (tks, cur, g) tt (tks', cur', g').
Proof.
  induction l as [|x l IH]; intros [|fuel] src0 tks tks' cur g g' Hr Hnext Hrun Hfuel; try lia; cbn [parse_links].
  - apply reads_nil in Hr as ->. injection Hrun as ->. destruct Hnext as (t & more & -> & Ht & _). exists cur.
    apply finds_peek_bind. rewrite bool_decide_false by done. apply finds_found.
  - rewrite bind_cons in Hr. apply reads_app in Hr as (tks1 & Hr1 & Hr2). cbn [run_links] in Hrun.
    destruct (run_link src0 x g) as [[dst0 g1]|] eqn:E; [|done]. cbn in Hrun.
    assert (head_is (eq T_IDENTIFIER) tks) as (t & more & -> & Ht)
      by (eapply reads_head_is; [exact Hr1|by intros ? (-> & _)]).
    assert (head_is (fun ty => ty <> T_PAREN_OPEN) tks1) as Hhead1.
    { destruct l as [|y l]; [apply reads_nil in Hr2 as ->; destruct Hnext as (t1 & m1 & -> & _ & ?); by exists t1, m1|].
      rewrite bind_cons in Hr2. apply reads_app in Hr2 as (? & Hr2 & _).
      eapply reads_head_is; [exact Hr2|by intros ? (-> & _)]. }
    destruct (finds_link src0 x _ _ cur g dst0 g1 Hr1 Hhead1 E) as (cur1 & Hf1).
    apply reads_length in Hr1 as Hl. unfold link_syms, port_syms in Hl. cbn [length app] in Hl, Hfuel.
    destruct (IH fuel dst0 tks1 tks' cur1 g1 g' Hr2 Hnext Hrun ltac:(lia)) as (cur2 & Hf2).
    exists cur2. apply finds_peek_bind. rewrite bool_decide_true by done. by eapply finds_bind.
Qed.

Lemma finds_exported_port nm po ex tks tks' cur g :
  reads tks (export_syms nm po ex) tks' ->
  exists cur', finds (parse_exported_port input) (tks, cur, g)
      (w_text nm, w_text (p_name po), port_index po, w_text ex) (tks', cur', g)
    /\ get_token_position cur' = w_pos ex.
Proof.
  intros Hr. unfold export_syms, port_syms in Hr. cbn [app] in Hr.
  written Hr t1 Ht1. written Hr t2 Ht2. written Hr t3 Ht3. written Hr t4 Ht4.
  destruct Ht2 as (Ht2 & Hw2 & _), Ht4 as (Ht4 & Hw4 & _).
  apply reads_app in Hr as (mid & Hr & Hend). written Hend t5 Ht5. written Hend t6 Ht6.
  apply reads_nil in Hend as <-. destruct Ht6 as (Ht6 & Hw6 & Hpos6).
  edestruct (finds_index _ _ _ t4 g Hr) as (cur' & Hf & _).
  { intros _. eexists t5, _. split; [done|]. by rewrite Ht5. }
  exists t6. split; [|done]. unfold parse_exported_port.
  eapply finds_expect_bind; [exact Ht1|done|]. eapply finds_expect_bind; [exact Ht2|done|]. apply finds_slice_bind.
  eapply finds_expect_bind; [exact Ht3|done|]. eapply finds_expect_bind; [exact Ht4|done|]. apply finds_slice_bind.
  eapply finds_bind; [apply (Hf (p_name po))|].
  eapply finds_expect_bind; [exact Ht5|done|]. eapply finds_expect_bind; [exact Ht6|done|]. apply finds_slice_bind.
  rewrite Hw2, Hw4, Hw6. destruct po. apply finds_found.
Qed.

Lemma finds_export_stmt input_port nm po ex tks tks' cur g g' :
  reads tks (export_syms nm po ex) tks' -> run_stmt (Export input_port nm po ex) g = Some g' ->
  exists cur', finds (parse_export_stmt input input_port) (tks, cur, g) tt (tks', cur', g').
Proof.
  intros Hr Hrun. destruct (finds_exported_port _ _ _ _ _ cur g Hr) as (cur1 & Hf1 & Hpos1). exists cur1.
  destruct (run_add_node {| w_text := w_text nm; w_pos := w_pos ex |} [] g) as [[n g1]|] eqn:E1;
    [|cbn [run_stmt] in Hrun; by rewrite E1 in Hrun].
  destruct (add_port input_port g1 n (w_text (p_name po)) (w_pos ex)) as [e g2] eqn:E2.
  destruct (add_export input_port g2 n (w_text (p_name po)) (port_index po) (w_text ex) (w_pos ex))
    as [[err ep] g3] eqn:E3.
  rewrite (run_export _ _ _ _ _ _ _ _ _ _ _ _ E1 E2 E3) in Hrun. destruct (clash err) eqn:Ec; [done|].
  injection Hrun as ->. apply orb_false_iff in Ec as [Ec1 Ec2].
  unfold parse_export_stmt. eapply finds_bind; [exact Hf1|]. apply finds_pos_bind. rewrite Hpos1.
  eapply finds_bind; [by eapply finds_add_node|].
  eapply finds_graph_bind; [unfold add_port in E2; destruct input_port; exact E2|].
  rewrite port_index_int, Z.eqb_refl. cbn [negb].
  eapply (finds_graph_bind _ _ _ _ _ (err, ep)); [unfold add_export in E3; destruct input_port; exact E3|].
  rewrite Ec1, Ec2. destruct ep; apply finds_found.
Qed.

Lemma finds_declare_stmt nm mt cont tks tks' cur g g' :
  reads tks (stmt_syms (Declaration nm mt cont)) tks' -> run_stmt (Declaration nm mt cont) g = Some g' ->
  exists cur', finds (parse_declare_stmt input) (tks, cur, g) tt (tks', cur', g').
Proof.
  intros Hr Hrun. cbn [stmt_syms run_stmt] in *.
  written Hr t Ht. written Hr t1 Ht1. written Hr t2 Ht2. written Hr t3 Ht3. written Hr t4 Ht4.
  written Hr t5 Ht5. written Hr t6 Ht6. apply reads_nil in Hr as <-.
  destruct Ht2 as (Ht2 & Hw2 & Hp2), Ht4 as (Ht4 & Hw4 & _), Ht6 as (Ht6 & Hw6 & _).
  destruct (sol_fbp_graph_declare _ _ _ _ _) as [err g1] eqn:E. destruct (_ || _) eqn:Ee; [done|].
  injection Hrun as ->. apply orb_false_iff in Ee as [E1 E2]. exists t6. unfold parse_declare_stmt.
  eapply finds_assert_bind; [exact Ht|done|]. eapply finds_expect_bind; [exact Ht1|done|].
  eapply finds_expect_bind; [exact Ht2|done|]. apply finds_slice_bind, finds_pos_bind.
  eapply finds_expect_bind; [exact Ht3|done|]. eapply finds_expect_bind; [exact Ht4|done|]. apply finds_slice_bind.
  eapply finds_expect_bind; [exact Ht5|done|]. eapply finds_expect_bind; [exact Ht6|done|]. apply finds_slice_bind.
  rewrite Hw2, Hp2, Hw4, Hw6. eapply finds_graph_bind; [exact E|]. rewrite E1, E2. apply finds_found.
Qed.

Lemma finds_option_stmt nm opt ex tks tks' cur g g' :
  reads tks (stmt_syms (Option_ nm opt ex)) tks' -> run_stmt (Option_ nm opt ex) g = Some g' ->
  exists cur', finds (parse_option_stmt input) (tks, cur, g) tt (tks', cur', g').
Proof.
  intros Hr Hrun. cbn [stmt_syms run_stmt] in *.
  written Hr t Ht. written Hr t1 Ht1. written Hr t2 Ht2. written Hr t3 Ht3. written Hr t4 Ht4.
  written Hr t5 Ht5. written Hr t6 Ht6. apply reads_nil in Hr as <-.
  destruct Ht2 as (Ht2 & Hw2 & Hp2), Ht4 as (Ht4 & Hw4 & _), Ht6 as (Ht6 & Hw6 & _).
  destruct (run_add_node nm [] g) as [[n g1]|] eqn:E1; [|done]. cbn in Hrun.
  destruct (sol_fbp_graph_option _ _ _ _ _) as [err g2] eqn:E. destruct (err <? 0) eqn:Ee; [done|].
  injection Hrun as ->. exists t6. unfold parse_option_stmt.
  eapply finds_assert_bind; [exact Ht|done|]. eapply finds_expect_bind; [exact Ht1|done|].
  eapply finds_expect_bind; [exact Ht2|done|]. apply finds_slice_bind, finds_pos_bind.
  eapply finds_expect_bind; [exact Ht3|done|]. eapply finds_expect_bind; [exact Ht4|done|]. apply finds_slice_bind.
  eapply finds_expect_bind; [exact Ht5|done|]. eapply finds_expect_bind; [exact Ht6|done|]. apply finds_slice_bind.
  rewrite Hw2, Hp2, Hw4, Hw6. eapply finds_bind; [by eapply finds_add_node|].
  eapply finds_graph_bind; [exact E|]. apply Z.ltb_ge in Ee as Hpos.
  rewrite (proj2 (Z.eqb_neq err (- EEXIST))), (proj2 (Z.eqb_neq err (- EINVAL))) by zlia.
  rewrite Ee. apply finds_found.
Qed.

(** Where a statement may end. *)
Definition stops_stmt (st : stmt) (ty : sol_fbp_token_type) : Prop :=
  match st with
  | Connect _ [] => ty = T_STMT_SEPARATOR \/ ty = T_EOF
  | Connect _ _ => stops ty
  | _ => True
  end.

Lemma finds_conn_stmt nd links tks tks' cur g g' :
  reads tks (stmt_syms (Connect nd links)) tks' -> run_stmt (Connect nd links) g = Some g' ->
  head_is (stops_stmt (Connect nd links)) tks' ->
  exists cur', finds (parse_conn_stmt input) (tks, cur, g) tt (tks', cur', g').
Proof.
  intros Hr Hrun Hnext. cbn [stmt_syms run_stmt] in *. apply reads_app in Hr as (mid & Hr1 & Hr2).
  destruct (run_node nd g) as [[n g1]|] eqn:E1; [|done]. cbn in Hrun.
  assert (head_is stops tks') as Hstop.
  { destruct Hnext as (t & more & -> & Ht). exists t, more. split; [done|]. destruct links; [|done].
    destruct Ht as [-> | ->]; done. }
  assert (head_is (fun ty => ty <> T_PAREN_OPEN
    /\ (ty = T_IDENTIFIER \/ ty = T_STMT_SEPARATOR \/ ty = T_EOF)) mid) as (t & more & Hmid & Ht & Hty).
  { destruct links as [|x links].
    - apply reads_nil in Hr2 as ->. destruct Hnext as (t & more & -> & Ht). exists t, more. split; [done|].
      destruct Ht as [-> | ->]; auto.
    - rewrite bind_cons in Hr2. apply reads_app in Hr2 as (? & Hr2 & _).
      eapply reads_head_is; [exact Hr2|]. intros ? (-> & _). auto. }
  edestruct (finds_node nd _ _ cur g n g1 Hr1) as (cur1 & Hf1); [by exists t, more|done|].
  assert ((length mid < parse_fuel input)%nat -> exists cur', finds (parse_links input (parse_fuel input) n)
    (mid, cur1, g1) tt (tks', cur', g')) as Hlinks by (intros Hl; by eapply finds_links).
  assert (forall b c c', finds (parse_links input (parse_fuel input) n) (mid, c, g1) b c' ->
    finds (and_then (peek input) (fun t => if negb (bool_decide (t = T_IDENTIFIER)) && negb (bool_decide (t = T_STMT_SEPARATOR))
      && negb (bool_decide (t = T_EOF)) then fail conn_usage [] else parse_links input (parse_fuel input) n))
      (mid, c, g1) b c') as Hpeek.
  { intros b c c' Hf. subst mid. apply finds_peek_bind. destruct Hty as [-> |[-> | ->]]; exact Hf. }
  destruct (decide (length mid < parse_fuel input)%nat) as [Hl|Hl].
  - destruct (Hlinks Hl) as (cur' & Hf). exists cur'. unfold parse_conn_stmt.
    eapply finds_bind; [exact Hf1|]. by apply Hpeek.
  - exists cur1. eapply finds_bind; [exact Hf1|]. apply finds_intro. cbn [fst]. lia.
Qed.

Lemma finds_stmt st tks tks' cur g g' :
  reads tks (stmt_syms st) tks' -> run_stmt st g = Some g' -> head_is (stops_stmt st) tks' ->
  exists cur', finds (parse_stmt input) (tks, cur, g) tt (tks', cur', g').
Proof.
  intros Hr Hrun Hnext.
  assert (forall m, (exists t more, tks = t :: more
      /\ forall b c, finds m (t :: more, cur, g) b c -> finds (parse_stmt input) (t :: more, cur, g) b c) ->
    (exists cur', finds m (tks, cur, g) tt (tks', cur', g')) ->
    exists cur', finds (parse_stmt input) (tks, cur, g) tt (tks', cur', g')) as Hlift.
  { intros m (t & more & -> & Hm) (cur' & Hf). exists cur'. by apply Hm. }
  destruct st as [b nm po ex|nm mt cont|nm opt ex|nd links|].
  - cbn [stmt_syms] in Hr. apply reads_cons in Hr as (t & m & -> & Ht & Hr). cbn [fits] in Ht.
    destruct (finds_export_stmt b nm po ex m tks' t g g' Hr Hrun) as (cur' & Hf). exists cur'.
    unfold parse_stmt. apply finds_peek_bind. rewrite Ht. destruct b; by eapply finds_assert_bind.
  - eapply Hlift; [|by eapply finds_declare_stmt]. cbn [stmt_syms] in Hr. written Hr t Ht. do 2 eexists. split; [done|].
    intros b c Hf. unfold parse_stmt. apply finds_peek_bind. by rewrite Ht.
  - eapply Hlift; [|by eapply finds_option_stmt]. cbn [stmt_syms] in Hr. written Hr t Ht. do 2 eexists. split; [done|].
    intros b c Hf. unfold parse_stmt. apply finds_peek_bind. by rewrite Ht.
  - eapply Hlift; [|by eapply finds_conn_stmt]. cbn [stmt_syms] in Hr. unfold node_syms in Hr. cbn [app] in Hr.
    written Hr t Ht. destruct Ht as (Ht & _). do 2 eexists. split; [done|].
    intros b c Hf. unfold parse_stmt. apply finds_peek_bind. by rewrite Ht.
  - cbn [stmt_syms] in Hr. written Hr t Ht. apply reads_nil in Hr as <-. injection Hrun as ->. exists t.
    unfold parse_stmt. apply finds_peek_bind. rewrite Ht. eapply finds_next_bind; [exact Ht|done|]. apply finds_found.
Qed.

Lemma may_follow_head st l tks t :
  may_follow st l = true -> reads tks (l ≫= stmt_syms) [t] -> type t = T_EOF -> head_is (stops_stmt st) tks.
Proof.
  intros Hf Hr Ht. destruct l as [|st' l].
  - apply reads_nil in Hr as ->. exists t, []. split; [done|]. rewrite Ht.
    destruct st as [| | |nd [|x links]|]; try done. by right.
  - rewrite bind_cons in Hr. apply reads_app in Hr as (mid & Hr & _).
    destruct (stmt_head st') as (s & l' & Hs & Hst'). rewrite Hs in Hr. eapply reads_head_is; [exact Hr|].
    intros t' Hfit. destruct st as [| | |nd [|x links]|]; try done.
    + destruct st'; try done. subst s. by left.
    + destruct st' as [[] ? ? ?|? ? ?|? ? ?| |]; try done; cbn in Hs; injection Hs as <- <-; cbn in Hfit; by rewrite Hfit.
Qed.

Lemma finds_stmts l : forall fuel p tks cur g g',
  at_ p (tks, cur, g) -> writes l tks -> run_stmts l g = Some g' -> (length tks < fuel)%nat ->
  exists p' t cur', parse_stmts input fuel p = Ret p' /\ at_ p' ([t], cur', g') /\ type t = T_EOF.
Proof.
  induction l as [|st l IH]; intros [|fuel] p tks cur g g' Hp [Hsep (t & Hr & Ht)] Hrun Hfuel; try lia;
    cbn [parse_stmts].
  - apply reads_nil in Hr as ->. injection Hrun as ->.
    destruct (finds_peek t [] cur g' p Hp) as (p1 & Hr1 & Hp1). exists p1, t, cur.
    unfold parse_stmt. rewrite (and_then_run _ _ _ _ _ Hr1), Ht. cbn. by split_and!.
  - rewrite bind_cons in Hr. apply reads_app in Hr as (mid & Hr1 & Hr2). cbn [run_stmts separated] in *.
    apply andb_true_iff in Hsep as [Hfol Hsep].
    destruct (run_stmt st g) as [g1|] eqn:E; [|done]. cbn in Hrun.
    destruct (finds_stmt st tks mid cur g g1 Hr1 E) as (cur1 & Hf); [by eapply may_follow_head|].
    destruct (Hf p Hp) as (p1 & Hrun1 & Hp1). rewrite Hrun1, bind_ret.
    pose proof (reads_stmt_shorter _ _ _ Hr1). eapply IH; [exact Hp1|by split; [|exists t]|done|lia].
Qed.

(** C13: On every input and for every allocator, sol_fbp_parse ends without
    undefined behaviour, with the graph well formed and the nodes it had
    still there.  As long as vasprintf finds memory for the messages: when it
    answers NULL, and not because the error could not be allocated, the tokens
    of the input are a program, the graph is what running it gives, and all
    nodes have a type; otherwise there is a message.  (Without memory for a
    message an error may lack it, and a program that ends too early may be
    accepted, see [refused_without_message].) *)
Theorem fbp_parse_sound g :
  graph_ok g ->
  exists tks e g', tokens tks /\ sol_fbp_parse input g = Ret (e, g') /\ graph_ok g' /\ extends g g'
    /\ (unformatted
        \/ match e with
           | None => alloc_ok error_bytes = true ->
                     (exists l, writes l tks /\ run_stmts l g = Some g') /\ typed g'
           | Some e => e_msg e <> None
           end).
Proof.
  intros Hg. destruct tokens_exist as (tks & Htks).
  destruct (parse_spec tks g Htks Hg) as (e & g' & Hr & Hg' & He & Hres).
  exists tks, e, g'. split_and!; try done. destruct Hres as [(-> & Hl & Hty)|[Hres|?]]; [by right|right|by left].
  destruct e; [done|]. intros Ha. by rewrite Hres in Ha.
Qed.

(** C14: Every program the tokens of the input write is accepted if it runs
    and leaves each node with a type: sol_fbp_parse answers NULL and the
    graph is what the statements, run in order, make of it. *)
Theorem fbp_parse_complete g tks l g' :
  tokens tks -> writes l tks -> run_stmts l g = Some g' -> typed g' ->
  sol_fbp_parse input g = Ret (None, g').
Proof.
  intros Htks Hw Hrun Hty. destruct (at_init tks g Htks) as (cur & Hp).
  destruct (finds_stmts l (parse_fuel input) _ _ _ _ _ Hp Hw Hrun) as (p1 & t & cur1 & Hr1 & Hp1 & Ht);
    [by apply Hp|].
  unfold sol_fbp_parse, parse_stmt_list. rewrite Hr1, bind_ret.
  pose proof Hp1 as (_ & _ & _ & _ & Em1). rewrite Em1.
  destruct (peek_token_spec p1 t [] cur1 g' Hp1) as (p2 & Hr2 & Hp2 & _). rewrite Hr2, bind_ret.
  rewrite bool_decide_true by done. cbn [negb]. rewrite bind_ret.
  pose proof Hp2 as (_ & _ & _ & Hgr & Em2). cbn in Hgr. rewrite Em2.
  destruct (verify_spec p2 Em2) as [[_ ->]|[Hn _]]; [by rewrite Hgr|]. by rewrite Hgr in Hn.
Qed.
End Parsing.

(** ** On concrete programs *)

Section Examples.
#[local] Existing Instances gcc5 roomy.

(** An arena that keeps every text. *)
Definition keeps_all : NameArena := {| keep_text := fun _ => 0 |}.
#[local] Existing Instance keeps_all.

(** Memory for every message, and for none *)
Definition formats_all : Formatter := {| vasprintf := fun _ _ => true |}.
Definition formats_none : Formatter := {| vasprintf := fun _ _ => false |}.
#[local] Existing Instance formats_all.

Definition ascii (s : string) : list Z :=
  (fun c => Z.of_nat (Ascii.nat_of_ascii c)) <$> list_ascii_of_string s.

(** A program of all kinds of statements. *)
Definition sample : list Z :=
  ascii "INPORT=a.IN:X" ++ [10] ++ ascii "OPTION=a.o:opt" ++ [10] ++ ascii "DECLARE=t:fbp:f.fbp" ++ [10]
  ++ ascii "a(t:k=1) OUT[2] -> IN b(u)" ++ [10].

Definition w (s : string) (l c : Z) : word := {| w_text := ascii s; w_pos := (l, c) |}.

Definition plain (s : string) (l c : Z) : port := {| p_name := w s l c; p_index := None |}.

Definition sample_stmts : list stmt :=
  [ Export true (w "a" 1 8) (plain "IN" 1 10) (w "X" 1 13); Separator;
    Option_ (w "a" 2 8) (w "o" 2 10) (w "opt" 2 12); Separator;
    Declaration (w "t" 3 9) (w "fbp" 3 11) (w "f.fbp" 3 15); Separator;
    Connect {| n_name := w "a" 4 1;
               n_spec := Typed (w "t" 4 3) (Some [{| p_key := w "k" 4 5; p_value := Ident (w "1" 4 7) |}]) |}
      [{| l_src := {| p_name := w "OUT" 4 10; p_index := Some (w "2" 4 14, (4, 15)) |};
          l_dst := plain "IN" 4 20;
          l_node := {| n_name := w "b" 4 23; n_spec := Typed (w "u" 4 25) None |} |}];
    Separator ].

Definition sample_tokens : list sol_fbp_token := Eval vm_compute in
  match scan_all sample (8 * length sample + 8) (sol_fbp_scanner_init sample) with Ret l => l | UB => [] end.

Definition sample_graph : sol_fbp_graph := Eval vm_compute in
  default sol_fbp_graph_init (run_stmts sample_stmts sol_fbp_graph_init).

Lemma sample_written : tokens sample sample_tokens /\ writes sample sample_stmts sample_tokens.
Proof.
  split; [vm_compute; reflexivity|]. split; [reflexivity|].
  exists (default {| type := T_NONE; start := 0; end_ := 0; line := 0; column := 0 |} (last sample_tokens)).
  split; [|reflexivity].
  exists (take (length sample_tokens - 1) sample_tokens). split; [reflexivity|].
  repeat (apply Forall2_cons_2; [vm_compute; repeat split|]). apply Forall2_nil_2.
Qed.

Lemma fbp_parse_sound_witness :
  graph_ok sol_fbp_graph_init
  /\ exists e g', sol_fbp_parse (ascii "a(t) -> b(u)") sol_fbp_graph_init = Ret (Some e, g') /\ graph_ok g'.
Proof.
  split; [apply graph_init_ok|].
  destruct (fbp_parse_sound (ascii "a(t) -> b(u)") sol_fbp_graph_init graph_init_ok)
    as (tks & e & g' & _ & Hr & Hok & _).
  destruct e as [e|]; [exists e, g'; split; [exact Hr|exact Hok]|]. vm_compute in Hr. discriminate Hr.
Defined.

Lemma fbp_parse_complete_witness :
  tokens sample sample_tokens /\ writes sample sample_stmts sample_tokens
  /\ run_stmts sample_stmts sol_fbp_graph_init = Some sample_graph /\ typed sample_graph
  /\ sol_fbp_parse sample sol_fbp_graph_init = Ret (None, sample_graph).
Proof.
  destruct sample_written as [Htks Hw].
  assert (run_stmts sample_stmts sol_fbp_graph_init = Some sample_graph) as Hrun by (vm_compute; reflexivity).
  assert (typed sample_graph) as Hty by (repeat constructor; discriminate).
  split; [exact Htks|]. split; [exact Hw|]. split; [exact Hrun|]. split; [exact Hty|].
  exact (fbp_parse_complete sample sol_fbp_graph_init sample_tokens sample_stmts sample_graph Htks Hw Hrun Hty).
Defined.

(** *** Where the code does not do what it means to *)

(** The port indices of the connections of an accepted program. *)
Definition indices (text : string) : option (list (Z * Z)) :=
  match sol_fbp_parse (ascii text) sol_fbp_graph_init with
  | Ret (None, g) => Some ((fun c => (src_port_idx c, dst_port_idx c)) <$> conns g)
  | _ => None
  end.

(** An index that does not fit an int, or is no number in base 8, is taken
    for no index at all. *)
Lemma refused_index_is_no_index :
  indices "a(t) OUT[99999999999] -> IN[08] b(u)" = Some [(-1, -1)].
Proof. vm_compute. reflexivity. Qed.

(** A leading zero makes an index octal. *)
Lemma index_octal : indices "a(t) OUT[010] -> IN[10] b(u)" = Some [(8, 10)].
Proof. vm_compute. reflexivity. Qed.

(** The node an exported port creates is said to stand where the exported
    name does. *)
Lemma exported_node_position :
  match sol_fbp_parse (ascii "INPORT=node.IN:NAME") sol_fbp_graph_init with
  | Ret (Some e, g) => e_position e = (1, 16) /\ (position <$> nodes g) = [(1, 16)]
  | _ => False
  end.
Proof. vm_compute. by split. Qed.
End Examples.

(** Without memory a declaration is dropped and the program accepted. *)
Lemma declaration_lost :
  (sol_fbp_parse (H := gcc5) (H0 := exhausted) (H1 := keeps_all) (H2 := formats_all) (ascii "DECLARE=t:fbp:f") sol_fbp_graph_init)
  = Ret (None, sol_fbp_graph_init)
  /\ run_stmts (H := gcc5) (H0 := roomy) (H1 := keeps_all)
      [Declaration (w "t" 1 9) (w "fbp" 1 11) (w "f" 1 15)] sol_fbp_graph_init <> Some sol_fbp_graph_init.
Proof. split; vm_compute; [reflexivity|discriminate]. Qed.

(** Without memory for the error, a program that is refused is answered as
    one that is accepted. *)
Lemma refused_without_memory :
  (sol_fbp_parse (H := gcc5) (H0 := exhausted) (H1 := keeps_all) (H2 := formats_all) (ascii "->") sol_fbp_graph_init)
  = Ret (None, sol_fbp_graph_init).
Proof. vm_compute. reflexivity. Qed.

(** Without memory for a message, a program that ends in the middle of a
    statement is accepted. *)
Lemma refused_without_message :
  match sol_fbp_parse (H := gcc5) (H0 := roomy) (H1 := keeps_all) (H2 := formats_none) (ascii "a(t) OUT") sol_fbp_graph_init,
        sol_fbp_parse (H := gcc5) (H0 := roomy) (H1 := keeps_all) (H2 := formats_all) (ascii "a(t) OUT") sol_fbp_graph_init with
  | Ret (None, _), Ret (Some _, _) => True
  | _, _ => False
  end.
Proof. vm_compute. done. Qed.
End FbpGrammar.
