(* ===== verification/Mainloop.v ===== *)
(** * The main loop: timeouts, idlers and sources

    Models src/src/lib/common/sol-mainloop-common.c and the inline functions
    of sol-mainloop-common.h.  A kind of handler has the vector new handlers
    go to ([acum]), the vector that is being walked ([proc]; the same vector
    when the build has no threads), the live handlers by address, and the
    number of handlers that wait for their deletion.  Callbacks are
    arbitrary functions of the whole state; what a callback does to the loop
    is the list of calls it makes.  [trace] records the callbacks made.

    The lock and the notification of the main thread are not modelled: calls
    made by other threads are calls that arrive while a callback runs.
    A [dispose] callback is taken not to call back. *)

From stdpp Require Import gmap.
From S2P Require Import Prelude Arith Vector PtrVector.
Import Timespec PtrVector.

#[local] Open Scope Z_scope.

Module Mainloop.

(** ** State *)

Record sol_timeout_common := { timeout : timespec; expire : timespec; t_remove_me : bool }.

Inductive idler_status := idler_ready | idler_deleted | idler_ready_on_next_iteration.

#[export] Instance idler_status_eq_dec : EqDecision idler_status.
Proof. solve_decision. Defined.

(** Which of the optional callbacks a source type has. *)
Record sol_mainloop_source_type := {
  has_prepare : bool; has_get_next_timeout : bool; has_dispose : bool
}.

Record sol_mainloop_source_common := {
  s_type : sol_mainloop_source_type; ready : bool; s_remove_me : bool
}.

Record queue (A : Type) := {
  acum : sol_ptr_vector; proc : sol_ptr_vector; objs : gmap Z A;
  pending : Z; processing : bool
}.
Arguments acum {A} q.
Arguments proc {A} q.
Arguments objs {A} q.
Arguments pending {A} q.
Arguments processing {A} q.

Inductive event :=
| TimeoutCb (a : Z) (due now : timespec)
| IdlerCb (a : Z)
| SourcePrepare (a : Z) | SourceNextTimeout (a : Z) | SourceCheck (a : Z)
| SourceDispatch (a : Z) | SourceDispose (a : Z).

Record mainloop := {
  run_loop : bool;
  timeouts : queue sol_timeout_common;
  idlers : queue idler_status;
  sources : queue sol_mainloop_source_common;
  ticks : Z;             (** how often the clock was read *)
  trace : list event
}.

(** The calls of the API; a new handler's address is what malloc returned,
    0 when it failed. *)
Inductive call :=
| TimeoutAdd (addr timeout_ms : Z) | TimeoutDel (handle : Z)
| IdleAdd (addr : Z) | IdleDel (handle : Z)
| SourceAdd (addr : Z) (ty : sol_mainloop_source_type) | SourceDel (handle : Z)
| LoopQuit.

(** What the loop runs on: the clock, and what each callback returns and
    calls. *)
Class Env := {
  threads : bool;
  clock : Z -> timespec;
  run_cb : event -> mainloop -> bool * list call;
  next_timeout_cb : Z -> mainloop -> option timespec * list call
}.

(** *** Updates *)

Section Queue.
Context {A : Type}.

Definition set_acum (q : queue A) v := {| acum := v; proc := proc q; objs := objs q; pending := pending q; processing := processing q |}.
Definition set_proc (q : queue A) v := {| acum := acum q; proc := v; objs := objs q; pending := pending q; processing := processing q |}.
Definition set_objs (q : queue A) (m : gmap Z A) := {| acum := acum q; proc := proc q; objs := m; pending := pending q; processing := processing q |}.
Definition set_pending (q : queue A) n := {| acum := acum q; proc := proc q; objs := objs q; pending := n; processing := processing q |}.
Definition set_processing (q : queue A) b := {| acum := acum q; proc := proc q; objs := objs q; pending := pending q; processing := b |}.

(** The object a pointer points to; a freed one must not be used. *)
Definition deref (q : queue A) (a : Z) : outcome A :=
  match objs q !! a with Some o => Ret o | None => UB end.

Definition put (q : queue A) (a : Z) (o : A) : queue A := set_objs q (<[a := o]> (objs q)).

Definition q_free (q : queue A) (a : Z) : outcome (queue A) :=
  _ ← deref q a; Ret (set_objs q (delete a (objs q))).
End Queue.

Definition set_run (s : mainloop) b := {| run_loop := b; timeouts := timeouts s; idlers := idlers s; sources := sources s; ticks := ticks s; trace := trace s |}.
Definition set_timeouts (s : mainloop) q := {| run_loop := run_loop s; timeouts := q; idlers := idlers s; sources := sources s; ticks := ticks s; trace := trace s |}.
Definition set_idlers (s : mainloop) q := {| run_loop := run_loop s; timeouts := timeouts s; idlers := q; sources := sources s; ticks := ticks s; trace := trace s |}.
Definition set_sources (s : mainloop) q := {| run_loop := run_loop s; timeouts := timeouts s; idlers := idlers s; sources := q; ticks := ticks s; trace := trace s |}.
Definition tick (s : mainloop) := {| run_loop := run_loop s; timeouts := timeouts s; idlers := idlers s; sources := sources s; ticks := ticks s + 1; trace := trace s |}.
Definition log (s : mainloop) e := {| run_loop := run_loop s; timeouts := timeouts s; idlers := idlers s; sources := sources s; ticks := ticks s; trace := trace s ++ [e] |}.

Section Operations.
Context `{BuildConfig} `{Allocator} `{Env}.

Definition sol_util_timespec_get_current (s : mainloop) : timespec * mainloop :=
  (clock (ticks s), tick s).

Definition sol_mainloop_common_loop_check (s : mainloop) : bool := run_loop s.
Definition sol_mainloop_common_loop_set (s : mainloop) (val : bool) : mainloop := set_run s val.
Definition sol_mainloop_impl_quit (s : mainloop) : mainloop := sol_mainloop_common_loop_set s false.

(** *** The two vectors *)

Section Generic.
Context {A : Type}.

(** [X_PROCESS] *)
Definition process_vector (q : queue A) : sol_ptr_vector := if threads then proc q else acum q.
Definition set_process (q : queue A) v : queue A := if threads then set_proc q v else set_acum q v.

Definition sol_mainloop_ptr_vector_steal (q : queue A) : queue A :=
  if threads then set_acum (set_proc q (acum q)) sol_ptr_vector_init else q.

(** Appending the elements [i ..] of [from], failures ignored. *)
Fixpoint append_all (to from : sol_ptr_vector) (i : Z) (fuel : nat) : outcome sol_ptr_vector :=
  match fuel with
  | O => Ret to
  | S fuel =>
      itr ← sol_ptr_vector_get_no_check from i;
      '(_, to) ← sol_ptr_vector_append to itr;
      append_all to from (i + 1) fuel
  end.

Definition sol_ptr_vector_update (q : queue A) : outcome (queue A) :=
  if threads then
    to ← append_all (acum q) (proc q) 0 (Z.to_nat (len (proc q)));
    Ret (set_proc (set_acum q to) (sol_ptr_vector_clear (proc q)))
  else Ret q.

(** The walk backwards of the three cleanups, from index [fuel - 1]; the
    addresses freed, in order.  [flagged] is what marks a handler for
    deletion. *)
Fixpoint cleanup_walk (flagged : A -> bool) (q : queue A) (fuel : nat)
    : outcome (list Z * queue A) :=
  match fuel with
  | O => Ret ([], q)
  | S i =>
      a ← sol_ptr_vector_get_no_check (acum q) (Z.of_nat i);
      o ← deref q a;
      if negb (flagged o) then cleanup_walk flagged q i
      else
        '(_, v) ← sol_ptr_vector_del (acum q) (Z.of_nat i);
        q ← q_free (set_acum q v) a;
        let q := set_pending q (wrapu 32 (pending q - 1)) in
        if pending q =? 0 then Ret ([a], q)
        else '(freed, q) ← cleanup_walk flagged q i; Ret (a :: freed, q)
  end.

Definition cleanup (flagged : A -> bool) (q : queue A) : outcome (list Z * queue A) :=
  if pending q =? 0 then Ret ([], q)
  else cleanup_walk flagged q (Z.to_nat (len (acum q))).
End Generic.

(** *** Timeouts *)

(** [expire] of the timeout at an address. *)
Definition expire_of (m : gmap Z sol_timeout_common) (a : Z) : timespec :=
  match m !! a with Some t => expire t | None => {| tv_sec := 0; tv_nsec := 0 |} end.

Definition timeout_compare (m : gmap Z sol_timeout_common) (a b : Z) : Z :=
  sol_util_timespec_compare (expire_of m a) (expire_of m b).

Definition set_expire (t : sol_timeout_common) e :=
  {| timeout := timeout t; expire := e; t_remove_me := t_remove_me t |}.
Definition set_t_remove (t : sol_timeout_common) :=
  {| timeout := timeout t; expire := expire t; t_remove_me := true |}.

Definition timeout_cleanup (s : mainloop) : outcome mainloop :=
  '(_, q) ← cleanup t_remove_me (timeouts s); Ret (set_timeouts s q).

Fixpoint insert_all (m : gmap Z sol_timeout_common) (to from : sol_ptr_vector) (i : Z) (fuel : nat)
    : outcome sol_ptr_vector :=
  match fuel with
  | O => Ret to
  | S fuel =>
      itr ← sol_ptr_vector_get_no_check from i;
      '(_, to) ← sol_ptr_vector_insert_sorted (timeout_compare m) to itr;
      insert_all m to from (i + 1) fuel
  end.

Definition timeout_vector_update (q : queue sol_timeout_common) : outcome (queue sol_timeout_common) :=
  if threads then
    to ← insert_all (objs q) (acum q) (proc q) 0 (Z.to_nat (len (proc q)));
    Ret (set_proc (set_acum q to) (sol_ptr_vector_clear (proc q)))
  else Ret q.

Definition sol_mainloop_impl_timeout_add (s : mainloop) (addr timeout_ms : Z)
    : outcome (Z * mainloop) :=
  if addr =? 0 then Ret (0, s)
  else
    let interval := {| tv_sec := timeout_ms / SOL_UTIL_MSEC_PER_SEC;
                       tv_nsec := (timeout_ms mod SOL_UTIL_MSEC_PER_SEC) * SOL_UTIL_NSEC_PER_MSEC |} in
    let '(now, s) := sol_util_timespec_get_current s in
    e ← sol_util_timespec_add now interval;
    let q := put (timeouts s) addr {| timeout := interval; expire := e; t_remove_me := false |} in
    '(ret, v) ← sol_ptr_vector_insert_sorted (timeout_compare (objs q)) (acum q) addr;
    let q := set_acum q v in
    if ret <? 0 then q ← q_free q addr; Ret (0, set_timeouts s q)
    else Ret (addr, set_timeouts s q).

Definition sol_mainloop_impl_timeout_del (s : mainloop) (handle : Z) : outcome (bool * mainloop) :=
  t ← deref (timeouts s) handle;
  if t_remove_me t then Ret (false, s)
  else
    let q := put (timeouts s) handle (set_t_remove t) in
    let q := set_pending q (wrapu 32 (pending q + 1)) in
    let s := set_timeouts s q in
    s ← (if negb (processing q) then timeout_cleanup s else Ret s);
    Ret (true, s).

(** *** Idlers *)

Definition idler_flagged (i : idler_status) : bool := bool_decide (i = idler_deleted).

Definition idler_cleanup (s : mainloop) : outcome mainloop :=
  '(_, q) ← cleanup idler_flagged (idlers s); Ret (set_idlers s q).

Definition sol_mainloop_impl_idle_add (s : mainloop) (addr : Z) : outcome (Z * mainloop) :=
  if addr =? 0 then Ret (0, s)
  else
    let q := put (idlers s) addr
               (if processing (idlers s) then idler_ready_on_next_iteration else idler_ready) in
    '(ret, v) ← sol_ptr_vector_append (acum q) addr;
    let q := set_acum q v in
    if negb (ret =? 0) then q ← q_free q addr; Ret (0, set_idlers s q)
    else Ret (addr, set_idlers s q).

Definition sol_mainloop_impl_idle_del (s : mainloop) (handle : Z) : outcome (bool * mainloop) :=
  i ← deref (idlers s) handle;
  if bool_decide (i = idler_deleted) then Ret (false, s)
  else
    let q := put (idlers s) handle idler_deleted in
    let q := set_pending q (wrapu 32 (pending q + 1)) in
    let s := set_idlers s q in
    s ← (if negb (processing q) then idler_cleanup s else Ret s);
    Ret (true, s).

(** *** Sources *)

Definition set_ready (o : sol_mainloop_source_common) b :=
  {| s_type := s_type o; ready := b; s_remove_me := s_remove_me o |}.
Definition set_s_remove (o : sol_mainloop_source_common) :=
  {| s_type := s_type o; ready := ready o; s_remove_me := true |}.

(** The dispose callbacks of the sources freed by a cleanup of [before]. *)
Definition disposed (before : queue sol_mainloop_source_common) (freed : list Z) : list event :=
  omap (fun a => match objs before !! a with
                 | Some o => if has_dispose (s_type o) then Some (SourceDispose a) else None
                 | None => None
                 end) freed.

Definition log_all (s : mainloop) (es : list event) : mainloop := foldl log s es.

Definition source_cleanup (s : mainloop) : outcome mainloop :=
  '(freed, q) ← cleanup s_remove_me (sources s);
  Ret (set_sources (log_all s (disposed (sources s) freed)) q).

Definition sol_mainloop_impl_source_add (s : mainloop) (addr : Z) (ty : sol_mainloop_source_type)
    : outcome (Z * mainloop) :=
  if addr =? 0 then Ret (0, s)
  else
    let q := put (sources s) addr {| s_type := ty; ready := false; s_remove_me := false |} in
    '(ret, v) ← sol_ptr_vector_append (acum q) addr;
    let q := set_acum q v in
    if negb (ret =? 0) then q ← q_free q addr; Ret (0, set_sources s q)
    else Ret (addr, set_sources s q).

Definition sol_mainloop_impl_source_del (s : mainloop) (handle : Z) : outcome mainloop :=
  o ← deref (sources s) handle;
  if s_remove_me o then Ret s
  else
    let q := put (sources s) handle (set_s_remove o) in
    let q := set_pending q (wrapu 32 (pending q + 1)) in
    let s := set_sources s q in
    if negb (processing q) then source_cleanup s else Ret s.

(** *** Calls and callbacks *)

Definition run_call (c : call) (s : mainloop) : outcome mainloop :=
  match c with
  | TimeoutAdd addr ms => '(_, s) ← sol_mainloop_impl_timeout_add s addr ms; Ret s
  | TimeoutDel handle => '(_, s) ← sol_mainloop_impl_timeout_del s handle; Ret s
  | IdleAdd addr => '(_, s) ← sol_mainloop_impl_idle_add s addr; Ret s
  | IdleDel handle => '(_, s) ← sol_mainloop_impl_idle_del s handle; Ret s
  | SourceAdd addr ty => '(_, s) ← sol_mainloop_impl_source_add s addr ty; Ret s
  | SourceDel handle => sol_mainloop_impl_source_del s handle
  | LoopQuit => Ret (sol_mainloop_impl_quit s)
  end.

Fixpoint run_calls (cs : list call) (s : mainloop) : outcome mainloop :=
  match cs with
  | [] => Ret s
  | c :: cs => s ← run_call c s; run_calls cs s
  end.

Definition callback (e : event) (s : mainloop) : outcome (bool * mainloop) :=
  let s := log s e in
  let '(r, cs) := run_cb e s in
  s ← run_calls cs s; Ret (r, s).

(** *** Processing timeouts *)

(** The loop from index [i]; [None] when [fuel] rounds were not enough. *)
Fixpoint timeout_loop (now : timespec) (i : Z) (fuel : nat) (s : mainloop)
    : outcome (option mainloop) :=
  match fuel with
  | O => Ret None
  | S fuel =>
      if negb (i <? len (process_vector (timeouts s))) then Ret (Some s)
      else
        a ← sol_ptr_vector_get (process_vector (timeouts s)) i;
        if negb (sol_mainloop_common_loop_check s) then Ret (Some s)
        else
          t ← deref (timeouts s) a;
          if t_remove_me t then timeout_loop now (i + 1) fuel s
          else if sol_util_timespec_compare (expire t) now >? 0 then Ret (Some s)
          else
            '(again, s) ← callback (TimeoutCb a (expire t) now) s;
            t ← deref (timeouts s) a;
            if negb again then
              let q := timeouts s in
              let q := if negb (t_remove_me t)
                       then set_pending (put q a (set_t_remove t)) (wrapu 32 (pending q + 1))
                       else q in
              timeout_loop now (i + 1) fuel (set_timeouts s q)
            else
              e ← sol_util_timespec_add now (timeout t);
              let q := put (timeouts s) a (set_expire t e) in
              '(r, v) ← sol_ptr_vector_update_sorted (timeout_compare (objs q)) (process_vector q) i;
              let s := set_timeouts s (set_process q v) in
              if r <? 0 then Ret (Some s)
              else timeout_loop now (if r =? i then i + 1 else i) fuel s
  end.

Definition sol_mainloop_common_timeout_process (fuel : nat) (s : mainloop)
    : outcome (option mainloop) :=
  let s := set_timeouts s (set_processing (sol_mainloop_ptr_vector_steal (timeouts s)) true) in
  let '(now, s) := sol_util_timespec_get_current s in
  r ← timeout_loop now 0 fuel s;
  match r with
  | None => Ret None
  | Some s =>
      q ← timeout_vector_update (timeouts s);
      s ← timeout_cleanup (set_timeouts s q);
      Ret (Some (set_timeouts s (set_processing (timeouts s) false)))
  end.

(** *** Processing idlers *)

(** Vectors hold at most 65535 pointers. *)
Definition walk_fuel : nat := Z.to_nat 65536.

Fixpoint idler_loop (tfuel : nat) (i : Z) (fuel : nat) (s : mainloop) : outcome (option mainloop) :=
  match fuel with
  | O => UB
  | S fuel =>
      if negb (i <? len (process_vector (idlers s))) then Ret (Some s)
      else
        a ← sol_ptr_vector_get_no_check (process_vector (idlers s)) i;
        if negb (sol_mainloop_common_loop_check s) then Ret (Some s)
        else
          st ← deref (idlers s) a;
          if negb (bool_decide (st = idler_ready)) then
            let s := if bool_decide (st = idler_ready_on_next_iteration)
                     then set_idlers s (put (idlers s) a idler_ready) else s in
            idler_loop tfuel (i + 1) fuel s
          else
            '(again, s) ← callback (IdlerCb a) s;
            s ← (if negb again then
                   st ← deref (idlers s) a;
                   if negb (bool_decide (st = idler_deleted)) then
                     let q := put (idlers s) a idler_deleted in
                     Ret (set_idlers s (set_pending q (wrapu 32 (pending q + 1))))
                   else Ret s
                 else Ret s);
            r ← sol_mainloop_common_timeout_process tfuel s;
            match r with
            | None => Ret None
            | Some s => idler_loop tfuel (i + 1) fuel s
            end
  end.

(** The second walk. *)
Fixpoint idler_next_iteration (i : Z) (fuel : nat) (s : mainloop) : outcome mainloop :=
  match fuel with
  | O => Ret s
  | S fuel =>
      a ← sol_ptr_vector_get_no_check (process_vector (idlers s)) i;
      st ← deref (idlers s) a;
      let s := if bool_decide (st = idler_ready_on_next_iteration)
               then set_idlers s (put (idlers s) a idler_ready) else s in
      idler_next_iteration (i + 1) fuel s
  end.

Definition sol_mainloop_common_idler_process (tfuel : nat) (s : mainloop) : outcome (option mainloop) :=
  let s := set_idlers s (set_processing (sol_mainloop_ptr_vector_steal (idlers s)) true) in
  r ← idler_loop tfuel 0 walk_fuel s;
  match r with
  | None => Ret None
  | Some s =>
      s ← idler_next_iteration 0 (Z.to_nat (len (process_vector (idlers s)))) s;
      q ← sol_ptr_vector_update (idlers s);
      s ← idler_cleanup (set_idlers s q);
      Ret (Some (set_idlers s (set_processing (idlers s) false)))
  end.

(** The first handler of a vector that passes a test. *)
Fixpoint first_from {A} (q : queue A) (test : A -> bool) (i : Z) (fuel : nat) : outcome (option Z) :=
  match fuel with
  | O => Ret None
  | S fuel =>
      a ← sol_ptr_vector_get_no_check (acum q) i;
      o ← deref q a;
      if test o then Ret (Some a) else first_from q test (i + 1) fuel
  end.

Definition sol_mainloop_common_timeout_first (s : mainloop) : outcome (option Z) :=
  first_from (timeouts s) (fun t => negb (t_remove_me t)) 0 (Z.to_nat (len (acum (timeouts s)))).

Definition sol_mainloop_common_idler_first (s : mainloop) : outcome (option Z) :=
  first_from (idlers s) (fun i => negb (idler_flagged i)) 0 (Z.to_nat (len (acum (idlers s)))).

(** *** Processing sources

    Four walks over the sources that differ in what they do with one. *)

Section Walk.
Context {R : Type} (body : Z -> sol_mainloop_source_common -> R -> mainloop -> outcome (R * mainloop)).
Context (stops : bool).  (** does quitting end the walk *)

Fixpoint source_walk (i : Z) (fuel : nat) (r : R) (s : mainloop) : outcome (R * mainloop) :=
  match fuel with
  | O => UB
  | S fuel =>
      if negb (i <? len (process_vector (sources s))) then Ret (r, s)
      else
        a ← sol_ptr_vector_get_no_check (process_vector (sources s)) i;
        if stops && negb (sol_mainloop_common_loop_check s) then Ret (r, s)
        else
          o ← deref (sources s) a;
          '(r, s) ← (if s_remove_me o then Ret (r, s) else body a o r s);
          source_walk (i + 1) fuel r s
  end.

Definition source_process (r : R) (s : mainloop) : outcome (R * mainloop) :=
  let s := set_sources s (set_processing (sol_mainloop_ptr_vector_steal (sources s)) true) in
  '(r, s) ← source_walk 0 walk_fuel r s;
  q ← sol_ptr_vector_update (sources s);
  s ← source_cleanup (set_sources s q);
  Ret (r, set_sources s (set_processing (sources s) false)).
End Walk.

(** [source->ready = b] *)
Definition update_ready (a : Z) (f : bool -> bool) (s : mainloop) : outcome (bool * mainloop) :=
  o ← deref (sources s) a;
  Ret (f (ready o), set_sources s (put (sources s) a (set_ready o (f (ready o))))).

Definition prepare_body (a : Z) (o : sol_mainloop_source_common) (any : bool) (s : mainloop)
    : outcome (bool * mainloop) :=
  if has_prepare (s_type o) then
    '(r, s) ← callback (SourcePrepare a) s;
    '(r, s) ← update_ready a (fun _ => r) s; Ret (any || r, s)
  else '(_, s) ← update_ready a (fun _ => false) s; Ret (any, s).

Definition sol_mainloop_common_source_prepare (s : mainloop) : outcome (bool * mainloop) :=
  source_process prepare_body true false s.

Definition check_body (a : Z) (o : sol_mainloop_source_common) (any : bool) (s : mainloop)
    : outcome (bool * mainloop) :=
  '(r, s) ← callback (SourceCheck a) s;
  '(r, s) ← update_ready a (fun b => b || r) s; Ret (any || r, s).

Definition sol_mainloop_common_source_check (s : mainloop) : outcome (bool * mainloop) :=
  source_process check_body true false s.

Definition dispatch_body (a : Z) (o : sol_mainloop_source_common) (any : bool) (s : mainloop)
    : outcome (bool * mainloop) :=
  if ready o then
    '(_, s) ← callback (SourceDispatch a) s;
    '(_, s) ← update_ready a (fun _ => false) s; Ret (any, s)
  else Ret (any, s).

Definition sol_mainloop_common_source_dispatch (s : mainloop) : outcome mainloop :=
  '(_, s) ← source_process dispatch_body true false s; Ret s.

(** A negative time is cut to 0. *)
Definition clamp_timespec (t : timespec) : timespec :=
  if tv_sec t <? 0 then {| tv_sec := 0; tv_nsec := 0 |} else t.

Definition next_timeout_body (a : Z) (o : sol_mainloop_source_common) (best : option timespec)
    (s : mainloop) : outcome (option timespec * mainloop) :=
  if has_get_next_timeout (s_type o) then
    let s := log s (SourceNextTimeout a) in
    let '(r, cs) := next_timeout_cb a s in
    s ← run_calls cs s;
    match r, best with
    | None, _ => Ret (best, s)
    | Some cur, None => Ret (Some (clamp_timespec cur), s)
    | Some cur, Some t =>
        Ret (Some (if sol_util_timespec_compare cur t <? 0 then clamp_timespec cur else t), s)
    end
  else Ret (best, s).

(** [None] is the result false. *)
Definition sol_mainloop_common_source_get_next_timeout (s : mainloop)
    : outcome (option timespec * mainloop) :=
  source_process next_timeout_body false None s.

(** The first timeout is looked up before the sources are asked, whose
    callbacks may delete it. *)
Definition sol_mainloop_common_timespec_first (s : mainloop) : outcome (option timespec * mainloop) :=
  first ← sol_mainloop_common_timeout_first s;
  '(ts, s) ← sol_mainloop_common_source_get_next_timeout s;
  match first with
  | None => Ret (ts, s)
  | Some a =>
      let '(now, s) := sol_util_timespec_get_current s in
      t ← deref (timeouts s) a;
      diff ← sol_util_timespec_sub (expire t) now;
      Ret (match ts with
           | Some ts' => if sol_util_timespec_compare diff ts' <? 0
                         then Some (clamp_timespec diff) else Some ts'
           | None => Some (clamp_timespec diff)
           end, s)
  end.

(** *** Shutting down *)

(** Freeing every handler of a vector. *)
Fixpoint free_handlers {A} (q : queue A) (i : Z) (fuel : nat) : outcome (queue A) :=
  match fuel with
  | O => Ret (set_acum q (sol_ptr_vector_clear (acum q)))
  | S fuel =>
      a ← sol_ptr_vector_get_no_check (acum q) i;
      q ← q_free q a; free_handlers q (i + 1) fuel
  end.

Definition free_queue {A} (q : queue A) : outcome (queue A) :=
  free_handlers q 0 (Z.to_nat (len (acum q))).

Definition sol_mainloop_impl_shutdown (s : mainloop) : outcome mainloop :=
  t ← free_queue (timeouts s);
  i ← free_queue (idlers s);
  Ret (set_idlers (set_timeouts s t) i).

Fixpoint source_shutdown_walk (s : mainloop) (i : Z) (fuel : nat) : outcome mainloop :=
  match fuel with
  | O => Ret (set_sources s (set_acum (sources s) (sol_ptr_vector_clear (acum (sources s)))))
  | S fuel =>
      a ← sol_ptr_vector_get_no_check (acum (sources s)) i;
      o ← deref (sources s) a;
      let s := set_sources s (put (sources s) a (set_s_remove o)) in
      let s := if has_dispose (s_type o) then log s (SourceDispose a) else s in
      q ← q_free (sources s) a;
      source_shutdown_walk (set_sources s q) (i + 1) fuel
  end.

Definition sol_mainloop_common_source_shutdown (s : mainloop) : outcome mainloop :=
  source_shutdown_walk s 0 (Z.to_nat (len (acum (sources s)))).

(** *** Running

    One iteration is the platform's; [None] when [fuel] of them were not
    enough. *)

Section Running.
Context (sol_mainloop_impl_iter : mainloop -> outcome mainloop) (main_thread : bool).

Fixpoint run_iterations (fuel : nat) (s : mainloop) : outcome (option mainloop) :=
  match fuel with
  | O => Ret None
  | S fuel =>
      if sol_mainloop_common_loop_check s
      then s ← sol_mainloop_impl_iter s; run_iterations fuel s
      else Ret (Some s)
  end.

Definition sol_mainloop_impl_run (fuel : nat) (s : mainloop) : outcome (option mainloop) :=
  if negb main_thread then Ret (Some s)
  else run_iterations fuel (sol_mainloop_common_loop_set s true).
End Running.
End Operations.

(** *** Whole runs of the loop's operations *)

Inductive operation :=
| OpCall (c : call) | OpTimeouts | OpIdlers | OpPrepare | OpCheck | OpDispatch | OpNextWakeup.

Section Runs.
Context `{BuildConfig} `{Allocator} `{Env}.

Definition run_operation (fuel : nat) (op : operation) (s : mainloop) : outcome (option mainloop) :=
  match op with
  | OpCall c => s ← run_call c s; Ret (Some s)
  | OpTimeouts => sol_mainloop_common_timeout_process fuel s
  | OpIdlers => sol_mainloop_common_idler_process fuel s
  | OpPrepare => '(_, s) ← sol_mainloop_common_source_prepare s; Ret (Some s)
  | OpCheck => '(_, s) ← sol_mainloop_common_source_check s; Ret (Some s)
  | OpDispatch => s ← sol_mainloop_common_source_dispatch s; Ret (Some s)
  | OpNextWakeup => '(_, s) ← sol_mainloop_common_timespec_first s; Ret (Some s)
  end.

Fixpoint run_operations (fuel : nat) (ops : list operation) (s : mainloop) : outcome (option mainloop) :=
  match ops with
  | [] => Ret (Some s)
  | op :: ops =>
      r ← run_operation fuel op s;
      match r with None => Ret None | Some s => run_operations fuel ops s end
  end.

(** No queue is being processed: the operations above are not nested. *)
Definition at_rest (s : mainloop) : Prop :=
  processing (timeouts s) = false /\ processing (idlers s) = false /\ processing (sources s) = false.
End Runs.

(** Before anything was added. *)
Definition empty_queue {A} `{BuildConfig} : queue A :=
  {| acum := sol_ptr_vector_init; proc := sol_ptr_vector_init; objs := ∅; pending := 0; processing := false |}.

Definition idle_loop `{BuildConfig} : mainloop :=
  {| run_loop := true; timeouts := empty_queue; idlers := empty_queue; sources := empty_queue;
     ticks := 0; trace := [] |}.

(** Periodic timeouts that do nothing, a clock that stands still. *)
Definition quiet (th : bool) : Env := {|
  threads := th; clock := fun _ => {| tv_sec := 5; tv_nsec := 0 |};
  run_cb := fun _ _ => (true, []); next_timeout_cb := fun _ _ => (None, []) |}.

Definition two_zero_timeouts : outcome mainloop :=
  run_calls (H := gcc5) (H0 := roomy) (H1 := quiet false)
    [TimeoutAdd 64 0; TimeoutAdd 96 0] (idle_loop (H := gcc5)).
End Mainloop.
