(* ===== verification/MainloopProofs.v ===== *)
(** * The main loop: invariants and correctness

    Proofs about the model of Mainloop.v.  [queue_ok] is what a kind of
    handler keeps: two vectors of live, distinct handlers, in order, and a
    counter of the marked ones; [cleanup_spec] is what a cleanup does to it.
    Section Run takes the clock and well-behaved callbacks as hypotheses:
    [calls_rel] is what calls made by callbacks may change, [timeout_round]
    one round of the loop over timeouts, [processed] and [swept] whole runs
    of it, with the termination measure [rounds]; idlers and sources follow.
    The properties are at the end, with a started loop, [demo], as witness,
    and with the pair of timeouts for which processing never ends. *)

From stdpp Require Import gmap.
From S2P Require Import Prelude Arith Vector PtrVector Mainloop.
Import Timespec PtrVector Mainloop.

#[local] Open Scope Z_scope.

Module MainloopProofs.

Lemma handler_some {A} (q : queue A) a o : objs q !! a = Some o -> deref q a = Ret o.
Proof. intros Ho. unfold deref. by rewrite Ho. Qed.

(** ** Comparing timeouts *)

Definition time_le (t u : timespec) : Prop := sol_util_timespec_compare t u <= 0.

Lemma compare_cases t u :
  sol_util_timespec_compare t u
  = if (tv_sec t =? tv_sec u) then sol_util_int_compare (tv_nsec t) (tv_nsec u)
    else sol_util_int_compare (tv_sec t) (tv_sec u).
Proof.
  unfold sol_util_timespec_compare, sol_util_int_compare.
  destruct (Z.lt_trichotomy (tv_sec t) (tv_sec u)) as [|[|]]; by bknown.
Qed.

Lemma int_compare_cases x y :
  sol_util_int_compare x y = if x <? y then -1 else if x =? y then 0 else 1.
Proof. unfold sol_util_int_compare. destruct (Z.lt_trichotomy x y) as [|[|]]; by bknown. Qed.

Ltac compare_lia :=
  rewrite !compare_cases, !int_compare_cases in *; breflect;
  repeat match goal with
  | H : context [?a =? ?b] |- _ => destruct (Z.eqb_spec a b)
  | H : context [?a <? ?b] |- _ => destruct (Z.ltb_spec a b)
  end; try lia.

#[export] Instance timeout_comparator m : Comparator (timeout_compare m).
Proof.
  split; unfold timeout_compare.
  - intros x y. rewrite !compare_cases, !int_compare_cases. breflect; lia.
  - intros x y z. rewrite !compare_cases, !int_compare_cases. breflect; lia.
Qed.

(** ** Well-formed queues *)

Section Inv.
Context `{BuildConfig} `{Allocator} `{Env}.

(** The number of handlers marked for deletion. *)
Definition marked {A} (flagged : A -> bool) (m : gmap Z A) : Z :=
  Z.of_nat (size (filter (fun kv => flagged kv.2 = true) m)).

(** [ps] and [pr] are what the two vectors hold: live handlers, each once,
    in the order the vectors keep. *)
Record queue_ok {A} (flagged : A -> bool) (ordered : gmap Z A -> list Z -> Prop)
    (q : queue A) (ps pr : list Z) : Prop := {
  q_acum : ptr_rep (acum q) ps;
  q_proc : ptr_rep (proc q) pr;
  q_nodup : NoDup (ps ++ pr);
  q_live : forall a, a ∈ ps ++ pr -> is_Some (objs q !! a);
  q_order : ordered (objs q) ps /\ ordered (objs q) pr;
  q_single : threads = false -> pr = [];
  q_rest : processing q = false -> pr = [];
  q_count : pending q = wrapu 32 (marked flagged (objs q))
}.

(** An order on lists that only depends on the keys of the handlers they
    hold and that leaving some out keeps. *)
Class Order {A K} (key : A -> K) (ordered : gmap Z A -> list Z -> Prop) : Prop := {
  order_delete : forall m l i, ordered m l -> ordered m (delete i l);
  order_agree : forall m m' l,
    (forall a, a ∈ l -> key <$> m' !! a = key <$> m !! a) -> ordered m l -> ordered m' l;
  order_nil : forall m, ordered m []
}.

Definition no_order {A} (m : gmap Z A) (l : list Z) : Prop := True.
#[export] Instance no_order_order {A} : @Order A unit (fun _ => tt) no_order.
Proof. by split. Qed.

Definition by_expiry (m : gmap Z sol_timeout_common) (l : list Z) : Prop :=
  sorted_by (timeout_compare m) l.

(** Sortedness as an induction on the list. *)
Lemma sorted_by_cons (cmp : Z -> Z -> Z) x l :
  sorted_by cmp (x :: l) <-> (forall y, y ∈ l -> cmp x y <= 0) /\ sorted_by cmp l.
Proof.
  split.
  - intros Hs. split.
    + intros y [j Hj]%list_elem_of_lookup. apply (Hs 0 (Z.of_nat (S j))); [lia|by split|].
      split; [lia|]. by rewrite Nat2Z.id.
    + intros i j y z Hij [Hi Hy] [Hj Hz].
      apply (Hs (i + 1) (j + 1)); [lia|..]; (split; [lia|]).
      * by replace (Z.to_nat (i + 1)) with (S (Z.to_nat i)) by lia.
      * by replace (Z.to_nat (j + 1)) with (S (Z.to_nat j)) by lia.
  - intros [Hx Hs] i j y z Hij [Hi Hy] [Hj Hz].
    replace (Z.to_nat j) with (S (Z.to_nat (j - 1))) in Hz by lia.
    destruct (Z.eq_dec i 0) as [->|].
    + injection Hy as ->. apply Hx. by eapply list_elem_of_lookup_2.
    + replace (Z.to_nat i) with (S (Z.to_nat (i - 1))) in Hy by lia.
      apply (Hs (i - 1) (j - 1)); [lia|..]; (split; [lia|done]).
Qed.

Lemma sorted_by_nil cmp : sorted_by cmp [].
Proof. intros i j x y _ [_ ?]. done. Qed.

#[export] Instance by_expiry_order : Order expire by_expiry.
Proof.
  unfold by_expiry. split.
  - intros m l. induction l as [|x l IH]; intros i Hs; [done|].
    apply sorted_by_cons in Hs as [Hx Hs]. destruct i as [|i]; [done|]. cbn.
    apply sorted_by_cons. split; [|by apply IH].
    intros y Hy. apply Hx. by eapply list_elem_of_delete_inv.
  - intros m m' l Ha. induction l as [|x l IH]; [intros; apply sorted_by_nil|].
    rewrite !sorted_by_cons. intros [Hx Hs]. split.
    + intros y Hy. specialize (Hx y Hy). unfold timeout_compare, expire_of in *.
      pose proof (Ha x ltac:(by constructor)) as Hkx. pose proof (Ha y ltac:(by constructor)) as Hky.
      destruct (m' !! x), (m !! x), (m' !! y), (m !! y); try done;
        cbn in Hkx, Hky; simplify_eq; congruence.
    + apply IH; [|done]. intros a Hin. apply Ha. by constructor.
  - intros m. apply sorted_by_nil.
Qed.

Section Counting.
Context {A : Type} (flagged : A -> bool).

Lemma marked_insert m a o : m !! a = None ->
  marked flagged (<[a := o]> m) = marked flagged m + (if flagged o then 1 else 0).
Proof.
  intros Hn. unfold marked. destruct (flagged o) eqn:E.
  - rewrite map_filter_insert_True by done. rewrite map_size_insert_None; [lia|].
    rewrite map_lookup_filter_None. by left.
  - rewrite map_filter_insert_False by (simpl; congruence).
    rewrite delete_id by done. lia.
Qed.

Lemma marked_delete m a o : m !! a = Some o ->
  marked flagged (delete a m) = marked flagged m - (if flagged o then 1 else 0).
Proof.
  intros Hs. rewrite <- (insert_delete_id m a o Hs) at 2.
  rewrite marked_insert by apply lookup_delete_eq. lia.
Qed.

Lemma marked_update m a o o' : m !! a = Some o ->
  marked flagged (<[a := o']> m)
  = marked flagged m - (if flagged o then 1 else 0) + (if flagged o' then 1 else 0).
Proof.
  intros Hs. rewrite <- insert_delete_eq, marked_insert by apply lookup_delete_eq.
  by rewrite (marked_delete m a o).
Qed.

Lemma marked_nonneg m : 0 <= marked flagged m.
Proof. unfold marked. lia. Qed.

Lemma marked_zero m a o : marked flagged m = 0 -> m !! a = Some o -> flagged o = false.
Proof.
  intros Hz Hs. pose proof (marked_delete m a o Hs). pose proof (marked_nonneg (delete a m)).
  destruct (flagged o); [lia|done].
Qed.
End Counting.

(** *** Deleting *)

Section Cleanup.
Context {A K : Type} (flagged : A -> bool) (key : A -> K) (ordered : gmap Z A -> list Z -> Prop)
  `{!Order key ordered}.

Lemma nodup_delete (ps pr : list Z) i a :
  NoDup (ps ++ pr) -> ps !! i = Some a ->
  NoDup (delete i ps ++ pr) /\ (a ∉ delete i ps ++ pr)
  /\ forall b, (b ∈ ps) <-> (b = a \/ b ∈ delete i ps).
Proof.
  intros Hnd Ha.
  assert (ps ≡ₚ a :: delete i ps) as Hp by (by apply delete_Permutation).
  rewrite Hp in Hnd. cbn in Hnd. apply NoDup_cons in Hnd as [Hni Hnd].
  split_and!; [done|done|]. intros b.
  transitivity (b ∈ a :: delete i ps); [by rewrite <- Hp|apply elem_of_cons].
Qed.

Lemma queue_delete q ps pr i a o :
  queue_ok flagged ordered q ps pr -> at_pos ps i a -> objs q !! a = Some o ->
  exists v, sol_ptr_vector_del (acum q) i = Ret (0, v)
    /\ queue_ok flagged ordered
        (set_pending (set_objs (set_acum q v) (delete a (objs q)))
           (wrapu 32 (pending q - (if flagged o then 1 else 0))))
        (delete (Z.to_nat i) ps) pr.
Proof.
  intros [Ha Hp Hnd Hl [Ho1 Ho2] Hs Hr Hc] Hpos Hobj.
  destruct (ptr_del_spec (acum q) ps i Ha (at_pos_lt _ _ _ Hpos)) as (v & Hv & Hrep).
  exists v. split; [done|]. destruct Hpos as [_ Hpos].
  destruct (nodup_delete ps pr _ a Hnd Hpos) as (Hnd' & Hni & Hin).
  assert (forall b, b ∈ delete (Z.to_nat i) ps ++ pr -> delete a (objs q) !! b = objs q !! b) as Hsame.
  { intros b Hb. apply lookup_delete_ne. by intros ->. }
  split; cbn; try done.
  - intros b Hb. rewrite Hsame by done. apply Hl. apply elem_of_app.
    apply elem_of_app in Hb as [Hb|Hb]; [left; apply Hin; by right|by right].
  - split.
    + eapply order_agree; [|by apply order_delete]. intros b Hb. f_equal. apply Hsame, elem_of_app. by left.
    + eapply order_agree; [|exact Ho2]. intros b Hb. f_equal. apply Hsame, elem_of_app. by right.
  - rewrite (marked_delete flagged _ a o Hobj), Hc. unfold wrapu.
    by rewrite Zminus_mod_idemp_l.
Qed.

Lemma cleanup_walk_spec n : forall q ps pr,
  queue_ok flagged ordered q ps pr -> (n <= length ps)%nat ->
  exists freed q' ps', cleanup_walk flagged q n = Ret (freed, q')
    /\ queue_ok flagged ordered q' ps' pr
    /\ (forall a, a ∈ ps' <-> a ∈ ps /\ a ∉ freed)
    /\ (forall a, a ∈ freed -> a ∈ ps /\ objs q' !! a = None
          /\ exists o, objs q !! a = Some o /\ flagged o = true)
    /\ (forall a, a ∉ freed -> objs q' !! a = objs q !! a)
    /\ proc q' = proc q /\ processing q' = processing q
    /\ (pending q' = 0 \/ forall a o, a ∈ take n ps -> a ∉ freed -> objs q !! a = Some o -> flagged o = false).
Proof.
  induction n as [|n IH]; intros q ps pr Hq Hn.
  { exists [], q, ps. split_and!; try done.
    - intros a. split; [intros ?; split; [done|apply not_elem_of_nil]|by intros []].
    - by intros a ?%not_elem_of_nil.
    - right. by intros a o ?%not_elem_of_nil. }
  cbn [cleanup_walk].
  destruct (lookup_lt_is_Some_2 ps n ltac:(lia)) as [a Ha].
  assert (at_pos ps (Z.of_nat n) a) as Hpos by (split; [lia|by rewrite Nat2Z.id]).
  pose proof Hq as [Hra Hrp Hnd Hl Hord Hs Hre Hc].
  rewrite (get_no_check_spec _ _ _ _ Hra Hpos), bind_ret.
  destruct (Hl a) as [o Ho].
  { apply elem_of_app. left. by eapply list_elem_of_lookup_2. }
  unfold deref at 1. rewrite Ho, bind_ret.
  assert (forall b, b ∈ take (S n) ps <-> b ∈ take n ps \/ b = a) as Htake.
  { intros b. rewrite (take_S_r _ _ a) by done. rewrite elem_of_app, list_elem_of_singleton. done. }
  destruct (flagged o) eqn:Ef; cbn [negb].
  - destruct (queue_delete q ps pr _ a o Hq Hpos Ho) as (v & Hv & Hq'). rewrite Ef in Hq'.
    rewrite Hv, bind_ret. unfold q_free, deref. cbn [objs set_acum]. rewrite Ho, !bind_ret.
    set (q1 := set_pending _ _) in *. rewrite Nat2Z.id in Hq'.
    destruct (nodup_delete ps pr _ a Hnd Ha) as (_ & Hni & Hin).
    assert (forall b, b <> a -> objs q1 !! b = objs q !! b) as Hne
      by (intros b Hb; cbn; by apply lookup_delete_ne).
    assert (objs q1 !! a = None) as Hnone by (cbn; apply lookup_delete_eq).
    destruct (Z.eqb_spec (pending q1) 0) as [Hz|Hz].
    + exists [a], q1, (delete n ps). split_and!; try done.
      * intros b. rewrite Hin, list_elem_of_singleton. split; [|by intros [[?|?] ?]].
        intros Hb. split; [by right|]. intros ->. apply Hni, elem_of_app. by left.
      * intros b ->%list_elem_of_singleton. split_and!; [by eapply list_elem_of_lookup_2|done|eauto].
      * intros b Hb. apply Hne. intros ->. by apply Hb, list_elem_of_singleton.
      * by left.
    + destruct (IH q1 (delete n ps) pr Hq') as (freed & q' & ps' & Hrun & Hq2 & Hps & Hfr & Hun & Hpr & Hpc & Hrest).
      { rewrite length_delete by (by apply lookup_lt_is_Some_2). lia. }
      rewrite Hrun, bind_ret. exists (a :: freed), q', ps'.
      assert (a ∉ delete n ps) as Hni' by (intros ?; apply Hni, elem_of_app; by left).
      split_and!; try done.
      * intros b. rewrite Hps, Hin, elem_of_cons. split.
        -- intros [Hb Hnb]. split; [by right|]. by intros [->|].
        -- intros [[->|Hb] Hnb]; [|split; [done|]]; [by destruct Hnb; left|]. intros ?. apply Hnb. by right.
      * intros b [->|Hb]%elem_of_cons.
        -- split_and!; [by eapply list_elem_of_lookup_2| |by exists o].
           rewrite Hun; [done|]. intros Hb. by destruct (Hfr a Hb) as (? & _).
        -- destruct (Hfr b Hb) as (Hb1 & Hb2 & o' & Hb3 & Hb4). split_and!; [apply Hin; by right|done|].
           exists o'. split; [|done]. rewrite <- Hne; [done|]. intros ->. done.
      * intros b Hb. rewrite elem_of_cons in Hb. rewrite Hun by (intros ?; apply Hb; by right).
        apply Hne. intros ->. apply Hb. by left.
      * destruct Hrest as [?|Hrest]; [by left|right]. intros b ob Hb Hnb Hob.
        rewrite elem_of_cons in Hnb. apply Htake in Hb as [Hb| ->]; [|by destruct Hnb; left].
        apply (Hrest b); [|intros ?; apply Hnb; by right|].
        -- rewrite delete_take_drop, take_app_le, take_take, Nat.min_id by (rewrite length_take; lia). done.
        -- rewrite Hne; [done|]. intros ->. apply Hnb. by left.
  - destruct (IH q ps pr Hq ltac:(lia)) as (freed & q' & ps' & Hrun & Hq2 & Hps & Hfr & Hun & Hpr & Hpc & Hrest).
    exists freed, q', ps'. split_and!; try done. destruct Hrest as [?|Hrest]; [by left|right].
    intros b ob Hb Hnb Hob. apply Htake in Hb as [Hb| ->]; [by eapply Hrest|congruence].
Qed.

Lemma marked_mono (m m' : gmap Z A) :
  (forall a o, m' !! a = Some o -> m !! a = Some o) -> marked flagged m' <= marked flagged m.
Proof.
  intros Hsub. unfold marked. apply inj_le, map_subseteq_size, map_subseteq_spec.
  intros a o [Ho Hf]%map_lookup_filter_Some. apply map_lookup_filter_Some. auto.
Qed.

(** A cleanup frees marked handlers of its vector only, and all of them
    unless more are marked than the counter can count. *)
Lemma cleanup_spec q ps pr :
  queue_ok flagged ordered q ps pr ->
  exists freed q' ps', cleanup flagged q = Ret (freed, q')
    /\ queue_ok flagged ordered q' ps' pr
    /\ (forall a, a ∈ ps' <-> a ∈ ps /\ a ∉ freed)
    /\ (forall a, a ∈ freed -> a ∈ ps /\ objs q' !! a = None
          /\ exists o, objs q !! a = Some o /\ flagged o = true)
    /\ (forall a, a ∉ freed -> objs q' !! a = objs q !! a)
    /\ proc q' = proc q /\ processing q' = processing q
    /\ (marked flagged (objs q) < 2 ^ 32 ->
        forall a o, a ∈ ps' -> objs q' !! a = Some o -> flagged o = false).
Proof.
  intros Hq. unfold cleanup. pose proof (marked_nonneg flagged (objs q)).
  destruct (Z.eqb_spec (pending q) 0) as [Hz|Hz].
  - exists [], q, ps. split_and!; try done.
    + intros a. split; [intros ?; split; [done|apply not_elem_of_nil]|by intros []].
    + by intros a ?%not_elem_of_nil.
    + intros Hm a o _ Ho. rewrite (q_count _ _ _ _ _ Hq), wrapu_small in Hz by lia.
      by eapply marked_zero.
  - rewrite (full_fuel _ ps) by apply Hq.
    destruct (cleanup_walk_spec (length ps) q ps pr Hq ltac:(lia))
      as (freed & q' & ps' & Hrun & Hq' & Hps & Hfr & Hun & Hpr & Hpc & Hrest).
    exists freed, q', ps'. split_and!; try done.
    intros Hm a o Ha Ho. apply Hps in Ha as [Ha Hnf].
    destruct Hrest as [Hz'|Hrest].
    + assert (marked flagged (objs q') <= marked flagged (objs q)) as Hle.
      { apply marked_mono. intros b ob Hb. destruct (decide (b ∈ freed)) as [Hbf|Hbf].
        - destruct (Hfr b Hbf) as (_ & Hn & _). congruence.
        - by rewrite <- Hun. }
      pose proof (marked_nonneg flagged (objs q')).
      rewrite (q_count _ _ _ _ _ Hq'), wrapu_small in Hz' by lia. by eapply marked_zero.
    + rewrite take_ge in Hrest by lia. rewrite Hun in Ho by done. by eapply Hrest.
Qed.

(** *** Changing and adding handlers *)

Definition mark (o : A) : Z := if flagged o then 1 else 0.

Lemma queue_put q ps pr a o o' n :
  queue_ok flagged ordered q ps pr -> objs q !! a = Some o -> key o' = key o ->
  n = wrapu 32 (pending q + (mark o' - mark o)) ->
  queue_ok flagged ordered (set_pending (put q a o') n) ps pr.
Proof.
  intros [Ha Hp Hnd Hl [Ho1 Ho2] Hs Hr Hc] Ho Hk ->.
  assert (forall b, key <$> <[a := o']> (objs q) !! b = key <$> objs q !! b) as Hkey.
  { intros b. destruct (decide (a = b)) as [<-|]; [|by rewrite lookup_insert_ne].
    rewrite lookup_insert_eq, Ho. cbn. by rewrite Hk. }
  split; cbn; try done.
  - intros b Hb. destruct (decide (a = b)) as [<-|]; [rewrite lookup_insert_eq; by eexists|].
    rewrite lookup_insert_ne by done. by apply Hl.
  - split; eapply order_agree; eauto.
  - rewrite (marked_update flagged _ a o o' Ho), Hc. unfold wrapu, mark.
    rewrite Zplus_mod_idemp_l. f_equal. lia.
Qed.

Lemma queue_put_same q ps pr a o o' :
  queue_ok flagged ordered q ps pr -> objs q !! a = Some o -> key o' = key o ->
  flagged o' = flagged o -> queue_ok flagged ordered (put q a o') ps pr.
Proof.
  intros Hq Ho Hk Hf. pose proof (queue_put q ps pr a o o' (pending q) Hq Ho Hk) as Hput.
  replace (set_pending (put q a o') (pending q)) with (put q a o') in Hput by by destruct q.
  apply Hput. unfold mark. rewrite Hf, Z.sub_diag, Z.add_0_r.
  rewrite (q_count _ _ _ _ _ Hq). unfold wrapu. by rewrite Zmod_mod.
Qed.

Lemma queue_new q ps pr a o v ps' :
  queue_ok flagged ordered q ps pr -> objs q !! a = None -> flagged o = false ->
  ptr_rep v ps' -> ps' ≡ₚ a :: ps -> ordered (<[a := o]> (objs q)) ps' ->
  queue_ok flagged ordered (set_acum (put q a o) v) ps' pr.
Proof.
  intros [Ha Hp Hnd Hl [Ho1 Ho2] Hs Hr Hc] Hn Hf Hv Hps Hord.
  assert (a ∉ ps ++ pr) as Hni.
  { intros Hin. pose proof (Hl a Hin) as Hi. by rewrite Hn, is_Some_alt in Hi. }
  split; cbn; try done.
  - rewrite Hps. cbn. by apply NoDup_cons.
  - intros b. rewrite Hps. cbn. intros [->|Hb]%elem_of_cons; [rewrite lookup_insert_eq; by eexists|].
    rewrite lookup_insert_ne by (intros ->; done). by apply Hl.
  - split; [done|]. eapply order_agree; [|exact Ho2]. intros b Hb. f_equal.
    apply lookup_insert_ne. intros ->. apply Hni, elem_of_app. by right.
  - rewrite (marked_insert flagged _ a o Hn), Hf, Z.add_0_r. done.
Qed.

(** A handler that could not be recorded is freed again. *)
Lemma put_free (q : queue A) a o :
  objs q !! a = None -> q_free (set_acum (put q a o) (acum q)) a = Ret q.
Proof.
  intros Hn. unfold q_free, deref. cbn. rewrite lookup_insert_eq, bind_ret.
  rewrite delete_insert_id by done. by destruct q.
Qed.

(** Handlers stay live, with their keys, and marks stay. *)
Definition grows {L} (field : A -> L) (q q' : queue A) : Prop :=
  forall a o, objs q !! a = Some o -> exists o', objs q' !! a = Some o'
    /\ field o' = field o /\ (flagged o = true -> flagged o' = true).

Lemma grows_refl {L} (field : A -> L) q : grows field q q.
Proof. intros ?; eauto. Qed.

Lemma grows_trans {L} (field : A -> L) q1 q2 q3 : grows field q1 q2 -> grows field q2 q3 -> grows field q1 q3.
Proof.
  intros Hg1 Hg2 a o Ho. destruct (Hg1 a o Ho) as (o' & Ho' & Hk & Hf).
  destruct (Hg2 a o' Ho') as (o'' & Ho'' & Hk' & Hf'). exists o''. split_and!; [done|congruence|auto].
Qed.

Lemma grows_put {L} (field : A -> L) q a o o' :
  objs q !! a = Some o -> field o' = field o -> (flagged o = true -> flagged o' = true) ->
  grows field q (put q a o').
Proof.
  intros Ho Hk Hf b ob Hb. cbn.
  destruct (decide (a = b)) as [<-|]; [rewrite lookup_insert_eq|rewrite lookup_insert_ne by done; eauto].
  exists o'. rewrite Ho in Hb. injection Hb as <-. done.
Qed.

Lemma grows_new {L} (field : A -> L) q a o :
  objs q !! a = None -> grows field q (put q a o).
Proof.
  intros Hn b ob Hb. cbn. rewrite lookup_insert_ne by (intros ->; congruence). eauto.
Qed.

(** What a queue keeps whatever is called: the flag, and while it is being
    processed its handlers. *)
Definition keeps {L} (field : A -> L) (q q' : queue A) : Prop :=
  processing q' = processing q /\ (processing q = true -> grows field q q').

Lemma keeps_refl {L} (field : A -> L) q : keeps field q q.
Proof. split; [done|intros _; apply grows_refl]. Qed.

Lemma keeps_trans {L} (field : A -> L) q1 q2 q3 : keeps field q1 q2 -> keeps field q2 q3 -> keeps field q1 q3.
Proof.
  intros [He1 Hg1] [He2 Hg2]. split; [congruence|]. intros Hp.
  eapply grows_trans; [by apply Hg1|]. apply Hg2. congruence.
Qed.

(** Marking a handler; when its queue is at rest a cleanup follows. *)
Lemma delete_handler {L} (field : A -> L) q ps pr a o o' :
  queue_ok flagged ordered q ps pr -> objs q !! a = Some o -> flagged o = false ->
  flagged o' = true -> key o' = key o -> field o' = field o ->
  let q1 := set_pending (put q a o') (wrapu 32 (pending q + 1)) in
  exists freed q' ps',
    (if negb (processing q1) then cleanup flagged q1 else Ret ([], q1)) = Ret (freed, q')
    /\ queue_ok flagged ordered q' ps' pr /\ keeps field q q'
    /\ (processing q = true -> ps' = ps)
    /\ forall b ob, objs q' !! b = Some ob -> exists ob', objs q !! b = Some ob' /\ field ob = field ob'.
Proof.
  intros Hq Ho Hf Hf' Hk Hfl q1.
  assert (queue_ok flagged ordered q1 ps pr) as Hq1.
  { eapply queue_put; try done. unfold mark. by rewrite Hf, Hf'. }
  assert (forall b ob, objs q1 !! b = Some ob -> exists ob', objs q !! b = Some ob' /\ field ob = field ob') as Hback.
  { intros b ob. cbn. destruct (decide (a = b)) as [<-|].
    - rewrite lookup_insert_eq. intros [= <-]. eauto.
    - rewrite lookup_insert_ne by done. eauto. }
  change (processing q1) with (processing q). destruct (processing q) eqn:Ep; cbn [negb].
  - exists [], q1, ps. split_and!; try done. split; [done|]. intros _.
    eapply (grows_put field q a o o'); [done|done|by rewrite Hf].
  - destruct (cleanup_spec q1 ps pr Hq1) as (freed & q' & ps' & -> & Hq' & _ & Hfr & Hun & _ & Hp & _).
    exists freed, q', ps'. split_and!; try done.
    + split; [done|by rewrite Ep].
    + intros b ob Hb. destruct (decide (b ∈ freed)) as [Hin|Hin]; [|by apply Hback; rewrite <- Hun].
      destruct (Hfr b Hin) as (_ & ? & _). congruence.
Qed.
End Cleanup.

(** ** What calls do *)

(** The clock is the monotonic one; 2^60 seconds are far away. *)
Class Clock : Prop := {
  clock_range : forall n, 0 <= tv_sec (clock n) <= 2 ^ 60 /\ 0 <= tv_nsec (clock n) < SOL_UTIL_NSEC_PER_SEC;
  clock_mono : forall n m, n <= m -> nanos (clock n) <= nanos (clock m)
}.

Lemma clock_normal `{Clock} n : normal (clock n).
Proof. destruct (clock_range n). unfold normal. lia. Qed.

Section Run.
Context `{!Clock} (lo : Z) (Hlo : 0 <= lo).  (** the least interval, in ms *)

Definition time_ok (t : sol_timeout_common) : Prop :=
  0 <= tv_sec (timeout t) <= 2 ^ 32 /\ 0 <= tv_nsec (timeout t) < SOL_UTIL_NSEC_PER_SEC
  /\ 0 <= tv_sec (expire t) <= 2 ^ 61 /\ 0 <= tv_nsec (expire t) < SOL_UTIL_NSEC_PER_SEC
  /\ lo * SOL_UTIL_NSEC_PER_MSEC <= nanos (timeout t).

Definition timeouts_ok (q : queue sol_timeout_common) ts tp : Prop :=
  queue_ok t_remove_me by_expiry q ts tp /\ map_Forall (fun _ => time_ok) (objs q).
Definition idlers_ok := queue_ok idler_flagged no_order.
Definition sources_ok := queue_ok s_remove_me no_order.

(** The state: the vectors hold the timeouts [ts] and [tp]. *)
Record loop_ok (s : mainloop) (ts tp : list Z) : Prop := {
  ok_t : timeouts_ok (timeouts s) ts tp;
  ok_i : exists il ip, idlers_ok (idlers s) il ip;
  ok_s : exists sl sp, sources_ok (sources s) sl sp
}.

Definition wf (s : mainloop) : Prop := exists ts tp, loop_ok s ts tp.

Definition fresh {A} (q : queue A) (a : Z) : Prop :=
  a = 0 \/ is_uint 64 a /\ objs q !! a = None.

(** What callers owe: a new block for a new handler, a handle that is live,
    an interval of at least [lo] ms. *)
Definition call_ok (c : call) (s : mainloop) : Prop :=
  match c with
  | TimeoutAdd a ms => fresh (timeouts s) a /\ lo <= ms < 2 ^ 32
  | TimeoutDel h => is_Some (objs (timeouts s) !! h)
  | IdleAdd a => fresh (idlers s) a
  | IdleDel h => is_Some (objs (idlers s) !! h)
  | SourceAdd a _ => fresh (sources s) a
  | SourceDel h => is_Some (objs (sources s) !! h)
  | LoopQuit => True
  end.

Fixpoint calls_ok (cs : list call) (s : mainloop) : Prop :=
  match cs with
  | [] => True
  | c :: cs => call_ok c s /\ forall s', run_call c s = Ret s' -> calls_ok cs s'
  end.

(** Times of a timeout that only the loop itself changes. *)
Definition times (t : sol_timeout_common) := (timeout t, expire t).

(** How calls made during the processing of timeouts change the timeouts:
    new ones lie in the future, and the front of the vector, as far as it is
    due, stays. *)
Record extends (s : mainloop) (ts : list Z) (s' : mainloop) (ts' : list Z) : Prop := {
  ext_new : forall n a t, n <= ticks s -> objs (timeouts s) !! a = None ->
    objs (timeouts s') !! a = Some t ->
    nanos (clock n) + lo * SOL_UTIL_NSEC_PER_MSEC <= nanos (expire t);
  ext_in : forall a, a ∈ ts' -> a ∈ ts \/ objs (timeouts s) !! a = None;
  ext_front : forall n k, n <= ticks s -> (k <= length ts)%nat ->
    (forall a, a ∈ take k ts -> nanos (expire_of (objs (timeouts s)) a) <= nanos (clock n)) ->
    take k ts' = take k ts
}.

(** The timeouts called, with the times they were due. *)
Definition fired (es : list event) : list (Z * timespec) :=
  omap (fun e => match e with TimeoutCb a due _ => Some (a, due) | _ => None end) es.

Definition traces (s : mainloop) (l : list (Z * timespec)) (s' : mainloop) : Prop :=
  exists es, trace s' = trace s ++ es /\ fired es = l.

Lemma traces_refl s s' : trace s' = trace s -> traces s [] s'.
Proof. intros He. exists []. by rewrite He, app_nil_r. Qed.

Lemma traces_trans s1 l1 s2 l2 s3 : traces s1 l1 s2 -> traces s2 l2 s3 -> traces s1 (l1 ++ l2) s3.
Proof.
  intros (es1 & He1 & <-) (es2 & He2 & <-). exists (es1 ++ es2).
  unfold fired. by rewrite omap_app, He2, He1, app_assoc.
Qed.

Record calls_rel (s : mainloop) (ts : list Z) (s' : mainloop) (ts' : list Z) : Prop := {
  cr_trace : traces s [] s';
  cr_ticks : ticks s <= ticks s';
  cr_t : keeps t_remove_me times (timeouts s) (timeouts s');
  cr_ext : processing (timeouts s) = true -> extends s ts s' ts';
  cr_i : keeps idler_flagged (fun _ => tt) (idlers s) (idlers s');
  cr_s : keeps s_remove_me (fun _ => tt) (sources s) (sources s')
}.

Lemma extends_refl s s' ts : timeouts s' = timeouts s -> extends s ts s' ts.
Proof. intros He. split; [rewrite He; congruence|by left|done]. Qed.

Lemma calls_rel_refl s ts : calls_rel s ts s ts.
Proof. split; [by apply traces_refl|lia|apply keeps_refl|intros _; by apply extends_refl|apply keeps_refl..]. Qed.

(** A change that leaves clock and timeouts alone. *)
Lemma calls_rel_other s s' ts :
  traces s [] s' -> ticks s' = ticks s -> timeouts s' = timeouts s ->
  keeps idler_flagged (fun _ => tt) (idlers s) (idlers s') ->
  keeps s_remove_me (fun _ => tt) (sources s) (sources s') -> calls_rel s ts s' ts.
Proof.
  intros Htr Ht Hq Hi Hs. split; [done|lia|rewrite Hq; apply keeps_refl| |done|done].
  intros _. by apply extends_refl.
Qed.

Lemma loop_other s s' ts tp :
  timeouts s' = timeouts s -> (exists il ip, idlers_ok (idlers s') il ip) ->
  (exists sl sp, sources_ok (sources s') sl sp) -> loop_ok s ts tp -> loop_ok s' ts tp.
Proof. intros Ht Hi Hs [? ? ?]. split; [by rewrite Ht|done|done]. Qed.

Lemma expire_of_grows q q' a :
  grows t_remove_me times q q' -> is_Some (objs q !! a) -> expire_of (objs q') a = expire_of (objs q) a.
Proof.
  intros Hg [t Ht]. destruct (Hg a t Ht) as (t' & Ht' & [= _ He] & _).
  unfold expire_of. by rewrite Ht, Ht'.
Qed.

Lemma calls_rel_trans s1 ts1 tp s2 ts2 s3 ts3 :
  loop_ok s1 ts1 tp -> calls_rel s1 ts1 s2 ts2 -> calls_rel s2 ts2 s3 ts3 -> calls_rel s1 ts1 s3 ts3.
Proof.
  intros Hok [Htr1 Hk1 Ht1 He1 Hi1 Hs1] [Htr2 Hk2 Ht2 He2 Hi2 Hs2].
  split; [by eapply (traces_trans _ [] _ [])|lia|by eapply keeps_trans| |by eapply keeps_trans..].
  intros Hp. destruct Ht1 as [Hp1 Hg1]. specialize (Hg1 Hp).
  destruct (He1 Hp) as [Hn1 Hin1 Hf1]. destruct (He2 ltac:(congruence)) as [Hn2 Hin2 Hf2].
  assert (forall a, objs (timeouts s2) !! a = None -> objs (timeouts s1) !! a = None) as Hback.
  { intros a Ha. destruct (objs (timeouts s1) !! a) as [t|] eqn:E; [|done].
    destruct (Hg1 a t E) as (t' & Ht' & _). congruence. }
  split.
  - intros n a t Hn Ha Ht3. destruct (objs (timeouts s2) !! a) as [t2|] eqn:E.
    + destruct Ht2 as [_ Hg2]. destruct (Hg2 ltac:(congruence) a t2 E) as (t' & Ht' & [= _ He] & _).
      rewrite Ht3 in Ht'. injection Ht' as <-. rewrite He. by apply (Hn1 n a t2).
    + apply (Hn2 n a t); [lia|done|done].
  - intros a Ha. destruct (Hin2 a Ha) as [Ha2|Ha2]; [by apply Hin1|right; by apply Hback].
  - intros n k Hn Hk Hdue. rewrite <- (Hf1 n k Hn Hk Hdue). apply (Hf2 n k); [lia| |].
    + pose proof (f_equal length (Hf1 n k Hn Hk Hdue)) as Hl. rewrite !length_take in Hl. lia.
    + intros a Ha. rewrite (Hf1 n k Hn Hk Hdue) in Ha.
      rewrite (expire_of_grows (timeouts s1)); [by apply Hdue|done|].
      apply (q_live _ _ _ _ _ (proj1 (ok_t _ _ _ Hok))), elem_of_app. left.
      apply list_elem_of_lookup in Ha as [j Hj]. apply lookup_take_Some in Hj as [Hj _].
      by eapply list_elem_of_lookup_2.
Qed.

(** *** Adding *)

Lemma compare_nanos t u : normal t -> normal u ->
  sol_util_timespec_compare t u
  = if nanos t <? nanos u then -1 else if nanos t =? nanos u then 0 else 1.
Proof. intros. by rewrite timespec_compare_spec, int_compare_cases. Qed.

Lemma compare_later t u : normal t -> normal u ->
  (sol_util_timespec_compare t u >? 0) = (nanos u <? nanos t).
Proof.
  intros. rewrite compare_nanos by done.
  destruct (Z.ltb_spec (nanos t) (nanos u)), (Z.eqb_spec (nanos t) (nanos u)),
    (Z.ltb_spec (nanos u) (nanos t)); lia || done.
Qed.

Lemma add_to_clock n i :
  0 <= tv_sec i <= 2 ^ 32 -> 0 <= tv_nsec i < SOL_UTIL_NSEC_PER_SEC ->
  exists e, sol_util_timespec_add (clock n) i = Ret e /\ nanos e = nanos (clock n) + nanos i
    /\ 0 <= tv_sec e <= 2 ^ 61 /\ 0 <= tv_nsec e < SOL_UTIL_NSEC_PER_SEC.
Proof.
  intros Hs Hn. pose proof (clock_range n) as [Hc Hcn].
  destruct (timespec_add_spec (clock n) i) as (e & He & Hv & Hb); [apply clock_normal|unfold normal; lia|].
  exists e. split_and!; try done; unfold_times; lia.
Qed.

Lemma time_normal t : time_ok t -> normal (expire t).
Proof. intros (_ & _ & ? & ? & _). unfold normal. lia. Qed.

Lemma expire_normal q ts tp a : timeouts_ok q ts tp -> a ∈ ts ++ tp -> normal (expire_of (objs q) a).
Proof.
  intros [Hq Ht] Ha. destruct (q_live _ _ _ _ _ Hq a Ha) as [t Hat].
  unfold expire_of. rewrite Hat. by apply time_normal, (Ht a t).
Qed.

Lemma interval_value ms : 0 <= ms < 2 ^ 32 ->
  let i := {| tv_sec := ms / SOL_UTIL_MSEC_PER_SEC;
              tv_nsec := (ms mod SOL_UTIL_MSEC_PER_SEC) * SOL_UTIL_NSEC_PER_MSEC |} in
  0 <= tv_sec i <= 2 ^ 32 /\ 0 <= tv_nsec i < SOL_UTIL_NSEC_PER_SEC
  /\ nanos i = ms * SOL_UTIL_NSEC_PER_MSEC.
Proof. intros Hms. cbn. unfold_times. cbn. dlia. Qed.

(** A new timeout in the vector. *)
Lemma insert_timeout q ts tp a t :
  timeouts_ok q ts tp -> objs q !! a = None -> time_ok t -> t_remove_me t = false -> is_uint 64 a ->
  let q' := put q a t in
  exists r v, sol_ptr_vector_insert_sorted (timeout_compare (objs q')) (acum q) a = Ret (r, v)
  /\ ((r < 0 /\ v = acum q)
      \/ (0 <= r /\ timeouts_ok (set_acum q' v) (insert_after (timeout_compare (objs q')) a ts) tp)).
Proof.
  intros [Hq Ht] Hn Hok Hf Ha q'.
  assert (by_expiry (objs q') ts) as Hs.
  { eapply (order_agree (ordered := by_expiry) (objs q)); [|apply (q_order _ _ _ _ _ Hq)].
    intros b Hb. cbn. rewrite lookup_insert_ne; [done|]. intros <-.
    pose proof (q_live _ _ _ _ _ Hq a ltac:(apply elem_of_app; by left)) as Hi.
    rewrite Hn in Hi. by apply is_Some_None in Hi. }
  destruct (insert_sorted_spec (timeout_compare (objs q')) (acum q) ts a (q_acum _ _ _ _ _ Hq) Hs Ha)
    as (r & v & Hrun & Hres).
  exists r, v. split; [done|]. destruct Hres as [|(Hr & Hrep & Hso & _)]; [by left|right].
  split; [done|]. split.
  - eapply queue_new; try done; [exact _|apply insert_after_perm].
  - cbn. by apply map_Forall_insert_2.
Qed.

Lemma timeout_add_ok s ts tp a ms :
  loop_ok s ts tp -> call_ok (TimeoutAdd a ms) s ->
  exists r s' ts', sol_mainloop_impl_timeout_add s a ms = Ret (r, s')
    /\ loop_ok s' ts' tp /\ calls_rel s ts s' ts'.
Proof.
  intros Hok [Hfr Hms]. unfold sol_mainloop_impl_timeout_add.
  destruct (Z.eqb_spec a 0) as [->|Ha0].
  { exists 0, s, ts. split_and!; [done|done|apply calls_rel_refl]. }
  destruct Hfr as [|[Ha Hn]]; [done|].
  destruct (interval_value ms ltac:(lia)) as (His & Hin & Hiv). cbv zeta in His, Hin, Hiv.
  set (i := {| tv_sec := _; tv_nsec := _ |}) in *. clearbody i.
  cbn [sol_util_timespec_get_current timeouts tick].
  destruct (add_to_clock (ticks s) i His Hin) as (e & He & Hev & Hes & Hen). rewrite He, bind_ret.
  set (t := {| timeout := i; expire := e; t_remove_me := false |}).
  assert (time_ok t) as Htok.
  { unfold time_ok. cbn. rewrite Hiv. split_and!; try lia. unfold_times. nia. }
  pose proof (ok_t _ _ _ Hok) as Htq.
  destruct (insert_timeout _ ts tp a t Htq Hn Htok eq_refl Ha) as (r & v & Hrun & Hres).
  cbv zeta in Hrun. change (acum (put ?q _ _)) with (acum q). rewrite Hrun, bind_ret.
  destruct Hres as [[Hr ->]|[Hr Htq']].
  - bknown. change (acum (timeouts s)) with (acum (timeouts (tick s))).
    rewrite put_free by done. rewrite bind_ret. do 2 eexists. exists ts. split; [done|].
    split; [by destruct Hok|]. split; cbn; try apply keeps_refl; [by apply traces_refl|lia|]. intros _. by apply extends_refl.
  - bknown. do 2 eexists. eexists. split; [done|]. split; [by destruct Hok|].
    set (q' := put _ a t) in *.
    assert (forall b, b ∈ ts -> expire_of (objs q') b = expire_of (objs (timeouts s)) b) as Hold.
    { intros b Hb. unfold expire_of. cbn. rewrite lookup_insert_ne; [done|]. intros <-.
      pose proof (q_live _ _ _ _ _ (proj1 Htq) a ltac:(apply elem_of_app; by left)) as Hi.
      rewrite Hn in Hi. by apply is_Some_None in Hi. }
    split; cbn -[q']; try apply keeps_refl; [by apply traces_refl|lia|split; [done|intros _; by apply grows_new]|].
    intros _. split; cbn -[q'].
    + intros n b t' Hle Hnb. cbn. destruct (decide (a = b)) as [<-|].
      * rewrite lookup_insert_eq. intros [= <-]. cbn. rewrite Hev, Hiv.
        pose proof (clock_mono n (ticks s) Hle). unfold_times. lia.
      * rewrite lookup_insert_ne by done. congruence.
    + intros b. rewrite insert_after_perm. intros [->|]%elem_of_cons; [by right|by left].
    + intros n k Hle Hk Hdue. apply insert_after_front; [|done]. intros b Hb.
      assert (b ∈ ts) as Hbs by (apply elem_of_take in Hb as (? & ? & _); by eapply list_elem_of_lookup_2).
      unfold timeout_compare. rewrite (Hold b) by done. unfold expire_of at 1. cbn.
      rewrite lookup_insert_eq. cbn.
      rewrite compare_nanos; [|unfold normal; lia|eapply expire_normal; [done|apply elem_of_app; by left]].
      specialize (Hdue b Hb). pose proof (clock_mono n (ticks s) Hle).
      assert (0 <= nanos i) by (unfold_times; lia).
      destruct (Z.ltb_spec (nanos e) (nanos (expire_of (objs (timeouts s)) b))); [lia|].
      by destruct (_ =? _).
Qed.

(** *** Deleting *)

Lemma timeout_del_ok s ts tp h :
  loop_ok s ts tp -> is_Some (objs (timeouts s) !! h) ->
  exists r s' ts', sol_mainloop_impl_timeout_del s h = Ret (r, s')
    /\ loop_ok s' ts' tp /\ calls_rel s ts s' ts'.
Proof.
  intros Hok [t Ht]. unfold sol_mainloop_impl_timeout_del, deref. rewrite Ht, bind_ret.
  destruct (t_remove_me t) eqn:Ef.
  { exists false, s, ts. split_and!; [done|done|apply calls_rel_refl]. }
  destruct (ok_t _ _ _ Hok) as [Hq Htimes].
  destruct (delete_handler t_remove_me expire by_expiry times (timeouts s) ts tp h t (set_t_remove t) Hq Ht Ef)
    as (freed & q' & ts' & Hrun & Hq' & Hkeep & Hts & Hback); try done.
  cbv zeta. cbv zeta in Hrun. unfold timeout_cleanup. cbn [timeouts set_timeouts].
  change (pending (put ?q _ _)) with (pending q) in Hrun |- *.
  set (q1 := set_pending _ _) in *.
  exists true, (set_timeouts s q'), ts'. split; [|split].
  - destruct (negb (processing q1)); [|by injection Hrun as <- <-].
    by rewrite Hrun.
  - destruct Hok. split; [|done|done]. split; [done|].
    intros b ob Hb. destruct (Hback b ob Hb) as (ob' & Hob & Hfl). specialize (Htimes b ob' Hob).
    injection Hfl as Htm Hex. unfold time_ok in *. by rewrite Htm, Hex.
  - split; [by apply traces_refl|done|done| |apply keeps_refl..].
    intros Hp. rewrite Hts by done. split; cbn; [|by left|done].
    intros n b t' _ Hn Hb. destruct (Hback b t' Hb) as (? & ? & _). congruence.
Qed.

Lemma idle_del_ok s ts tp h :
  loop_ok s ts tp -> is_Some (objs (idlers s) !! h) ->
  exists r s', sol_mainloop_impl_idle_del s h = Ret (r, s')
    /\ loop_ok s' ts tp /\ calls_rel s ts s' ts.
Proof.
  intros Hok [t Ht]. unfold sol_mainloop_impl_idle_del, deref. rewrite Ht, bind_ret.
  case_bool_decide as Ef.
  { exists false, s. split_and!; [done|done|apply calls_rel_refl]. }
  destruct (ok_i _ _ _ Hok) as (il & ip & Hq).
  destruct (delete_handler idler_flagged (fun _ => tt) no_order (fun _ => tt) (idlers s) il ip h t idler_deleted Hq Ht)
    as (freed & q' & il' & Hrun & Hq' & Hkeep & Hts & Hback); try done.
  { unfold idler_flagged. by rewrite bool_decide_eq_false_2. }
  cbv zeta. cbv zeta in Hrun. unfold idler_cleanup. cbn [idlers set_idlers].
  change (pending (put ?q _ _)) with (pending q) in Hrun |- *.
  set (q1 := set_pending _ _) in *.
  exists true, (set_idlers s q'). split; [|split].
  - destruct (negb (processing q1)); [|by injection Hrun as <- <-].
    by rewrite Hrun.
  - destruct Hok. split; [done|by exists il', ip|done].
  - apply calls_rel_other; [by apply traces_refl|done..|apply keeps_refl].
Qed.

Lemma log_all_trace es s : trace (log_all s es) = trace s ++ es.
Proof.
  revert s. induction es as [|e es IH]; intros s; [by rewrite app_nil_r|].
  cbn. unfold log_all in IH. rewrite IH. cbn. by rewrite <- app_assoc.
Qed.

Lemma fired_disposed q freed : fired (disposed q freed) = [].
Proof.
  induction freed as [|a freed IH]; [done|]. unfold disposed. cbn.
  destruct (objs q !! a) as [o|]; [|done]. by destruct (has_dispose _).
Qed.

Lemma log_all_frame es s :
  timeouts (log_all s es) = timeouts s /\ idlers (log_all s es) = idlers s
  /\ sources (log_all s es) = sources s /\ ticks (log_all s es) = ticks s
  /\ run_loop (log_all s es) = run_loop s.
Proof. revert s. induction es as [|e es IH]; intros s; [done|]. apply (IH (log s e)). Qed.

Lemma source_del_ok s ts tp h :
  loop_ok s ts tp -> is_Some (objs (sources s) !! h) ->
  exists s', sol_mainloop_impl_source_del s h = Ret s'
    /\ loop_ok s' ts tp /\ calls_rel s ts s' ts.
Proof.
  intros Hok [t Ht]. unfold sol_mainloop_impl_source_del, deref. rewrite Ht, bind_ret.
  destruct (s_remove_me t) eqn:Ef.
  { exists s. split_and!; [done|done|apply calls_rel_refl]. }
  destruct (ok_s _ _ _ Hok) as (il & ip & Hq).
  destruct (delete_handler s_remove_me (fun _ => tt) no_order (fun _ => tt) (sources s) il ip h t (set_s_remove t) Hq Ht)
    as (freed & q' & il' & Hrun & Hq' & Hkeep & Hts & Hback); try done.
  cbv zeta. cbv zeta in Hrun. unfold source_cleanup. cbn [sources set_sources].
  change (pending (put ?q _ _)) with (pending q) in Hrun |- *.
  set (q1 := set_pending _ _) in *.
  assert (exists s0, timeouts s0 = timeouts s /\ idlers s0 = idlers s /\ ticks s0 = ticks s
    /\ traces s [] s0 /\ (if negb (processing q1)
        then '(freed, q) ← cleanup s_remove_me q1;
             Ret (set_sources (log_all (set_sources s q1) (disposed q1 freed)) q)
        else Ret (set_sources s q1)) = Ret (set_sources s0 q')) as (s0 & Ht0 & Hi0 & Hk0 & Htr0 & ->).
  { destruct (negb (processing q1)).
    - rewrite Hrun, bind_ret.
      destruct (log_all_frame (disposed q1 freed) (set_sources s q1)) as (? & ? & ? & ? & ?).
      eexists. split_and!; [..|reflexivity]; try done. exists (disposed q1 freed).
      split; [apply (log_all_trace _ (set_sources s q1))|apply fired_disposed].
    - injection Hrun as <- <-. exists s. split_and!; try done. by apply traces_refl. }
  exists (set_sources s0 q'). split; [done|split].
  - destruct Hok as [Hot [? [? Hoi]] _]. split; cbn; [by rewrite Ht0|rewrite Hi0; eauto|by exists il', ip].
  - apply calls_rel_other; cbn; [done..|rewrite Hi0; apply keeps_refl|done].
Qed.

(** *** Adding idlers and sources *)

Lemma append_handler {A} (flagged : A -> bool) q ps pr a o :
  queue_ok flagged no_order q ps pr -> objs q !! a = None -> flagged o = false -> is_uint 64 a ->
  exists r v, sol_ptr_vector_append (acum q) a = Ret (r, v)
    /\ ((r <> 0 /\ v = acum q)
        \/ (r = 0 /\ queue_ok flagged no_order (set_acum (put q a o) v) (ps ++ [a]) pr)).
Proof.
  intros Hq Hn Hf Ha. destruct (append_spec (acum q) ps a (q_acum _ _ _ _ _ Hq) Ha)
    as (r & v & Hrun & [[Hr ->]|[-> Hrep]]); do 2 eexists; (split; [done|]); [left; split; [lia|done]|right].
  split; [done|]. eapply (queue_new flagged (fun _ => tt) no_order); try done.
  by rewrite Permutation_app_comm.
Qed.

Lemma idle_add_ok s ts tp a :
  loop_ok s ts tp -> fresh (idlers s) a ->
  exists r s', sol_mainloop_impl_idle_add s a = Ret (r, s')
    /\ loop_ok s' ts tp /\ calls_rel s ts s' ts.
Proof.
  intros Hok Hfr. unfold sol_mainloop_impl_idle_add.
  destruct (Z.eqb_spec a 0) as [->|Ha0].
  { exists 0, s. split_and!; [done|done|apply calls_rel_refl]. }
  destruct Hfr as [|[Ha Hn]]; [done|]. set (st := if processing (idlers s) then _ else _).
  destruct (ok_i _ _ _ Hok) as (il & ip & Hq).
  destruct (append_handler idler_flagged (idlers s) il ip a st Hq Hn) as (r & v & Hrun & Hres); [|done|].
  { by subst st; destruct (processing (idlers s)). }
  change (acum (put ?q _ _)) with (acum q). rewrite Hrun, bind_ret.
  destruct Hres as [[Hr ->]|[-> Hq']].
  - bknown. rewrite put_free by done. rewrite bind_ret. do 2 eexists. split; [done|].
    split; [by destruct Hok|]. apply calls_rel_other; [by apply traces_refl|done..|apply keeps_refl|apply keeps_refl].
  - cbn [Z.eqb negb]. do 2 eexists. split; [done|]. split; [destruct Hok; split; [done|by eexists _, _|done]|].
    apply calls_rel_other; [by apply traces_refl|done..| |apply keeps_refl]. split; [done|]. intros _. by apply grows_new.
Qed.

Lemma source_add_ok s ts tp a ty :
  loop_ok s ts tp -> fresh (sources s) a ->
  exists r s', sol_mainloop_impl_source_add s a ty = Ret (r, s')
    /\ loop_ok s' ts tp /\ calls_rel s ts s' ts.
Proof.
  intros Hok Hfr. unfold sol_mainloop_impl_source_add.
  destruct (Z.eqb_spec a 0) as [->|Ha0].
  { exists 0, s. split_and!; [done|done|apply calls_rel_refl]. }
  destruct Hfr as [|[Ha Hn]]; [done|]. set (o := {| s_type := ty; ready := false; s_remove_me := false |}).
  destruct (ok_s _ _ _ Hok) as (il & ip & Hq).
  destruct (append_handler s_remove_me (sources s) il ip a o Hq Hn) as (r & v & Hrun & Hres); [done|done|].
  change (acum (put ?q _ _)) with (acum q). rewrite Hrun, bind_ret.
  destruct Hres as [[Hr ->]|[-> Hq']].
  - bknown. rewrite put_free by done. rewrite bind_ret. do 2 eexists. split; [done|].
    split; [by destruct Hok|]. apply calls_rel_other; [by apply traces_refl|done..|apply keeps_refl|apply keeps_refl].
  - cbn [Z.eqb negb]. do 2 eexists. split; [done|]. split; [destruct Hok; split; [done|done|by eexists _, _]|].
    apply calls_rel_other; [by apply traces_refl|done..|apply keeps_refl|]. split; [done|]. intros _. by apply grows_new.
Qed.

(** *** Sequences of calls *)

Lemma run_call_ok c s ts tp :
  loop_ok s ts tp -> call_ok c s ->
  exists s' ts', run_call c s = Ret s' /\ loop_ok s' ts' tp /\ calls_rel s ts s' ts'.
Proof.
  intros Hok. destruct c as [a ms|h|a|h|a ty|h|]; intros Hc; cbn [run_call].
  - destruct (timeout_add_ok s ts tp a ms Hok Hc) as (r & s' & ts' & -> & ?). by exists s', ts'.
  - destruct (timeout_del_ok s ts tp h Hok Hc) as (r & s' & ts' & -> & ?). by exists s', ts'.
  - destruct (idle_add_ok s ts tp a Hok Hc) as (r & s' & -> & ?). by exists s', ts.
  - destruct (idle_del_ok s ts tp h Hok Hc) as (r & s' & -> & ?). by exists s', ts.
  - destruct (source_add_ok s ts tp a ty Hok Hc) as (r & s' & -> & ?). by exists s', ts.
  - destruct (source_del_ok s ts tp h Hok Hc) as (s' & -> & ?). by exists s', ts.
  - eexists _, ts. split; [done|]. split; [by destruct Hok|].
    apply calls_rel_other; [by apply traces_refl|done|done|apply keeps_refl|apply keeps_refl].
Qed.

Lemma run_calls_ok cs : forall s ts tp,
  loop_ok s ts tp -> calls_ok cs s ->
  exists s' ts', run_calls cs s = Ret s' /\ loop_ok s' ts' tp /\ calls_rel s ts s' ts'.
Proof.
  induction cs as [|c cs IH]; intros s ts tp Hok Hcs; cbn [run_calls].
  { exists s, ts. split_and!; [done|done|apply calls_rel_refl]. }
  destruct Hcs as [Hc Hcs]. destruct (run_call_ok c s ts tp Hok Hc) as (s1 & ts1 & Hrun & Hok1 & Hrel1).
  rewrite Hrun, bind_ret. destruct (IH s1 ts1 tp Hok1 (Hcs s1 Hrun)) as (s2 & ts2 & Hrun2 & Hok2 & Hrel2).
  exists s2, ts2. split_and!; [done|done|by eapply calls_rel_trans].
Qed.

(** *** Callbacks *)

(** Callbacks make sound calls (they may look at the whole state); those that
    tell the next timeout of a source answer normalised times and delete no
    timeout. *)
Definition deletes_timeout (c : call) : bool := match c with TimeoutDel _ => true | _ => false end.

Definition well_behaved : Prop :=
  (forall e s, wf s -> calls_ok (snd (run_cb e s)) s)
  /\ forall a s, wf s -> calls_ok (snd (next_timeout_cb a s)) s
       /\ Forall (fun c => deletes_timeout c = false) (snd (next_timeout_cb a s))
       /\ forall t, fst (next_timeout_cb a s) = Some t -> normal t.

Context (Hcb : well_behaved).

(** What a step of the loop keeps: of the timeouts only the interval, since
    [expire] moves on. *)
Record loop_rel (s s' : mainloop) : Prop := {
  lr_ticks : ticks s <= ticks s';
  lr_t : keeps t_remove_me timeout (timeouts s) (timeouts s');
  lr_i : keeps idler_flagged (fun _ => tt) (idlers s) (idlers s');
  lr_s : keeps s_remove_me (fun _ => tt) (sources s) (sources s')
}.

Lemma loop_rel_refl s : loop_rel s s.
Proof. split; [lia|apply keeps_refl..]. Qed.

Lemma loop_rel_trans s1 s2 s3 : loop_rel s1 s2 -> loop_rel s2 s3 -> loop_rel s1 s3.
Proof. intros [] []. split; [lia|by eapply keeps_trans..]. Qed.

Lemma calls_loop_rel s ts s' ts' : calls_rel s ts s' ts' -> loop_rel s s'.
Proof.
  intros [_ Hk [Hp Hg] _ Hi Hs]. split; try done. split; [done|]. intros Hpr a o Ho.
  destruct (Hg Hpr a o Ho) as (o' & Ho' & [= Ht _] & Hf). by exists o'.
Qed.

(** The call [traces]: what a callback's event adds to the trace. *)
Lemma callback_ok e s ts tp :
  loop_ok s ts tp ->
  exists r s' ts', callback e s = Ret (r, s') /\ loop_ok s' ts' tp
    /\ calls_rel (log s e) ts s' ts' /\ traces s (fired [e]) s'.
Proof.
  intros Hok. unfold callback.
  assert (loop_ok (log s e) ts tp) as Hok' by (by destruct Hok).
  pose proof (proj1 Hcb e (log s e) (ex_intro _ ts (ex_intro _ tp Hok'))) as Hcalls.
  destruct (run_cb e (log s e)) as [r cs]. cbn [snd] in Hcalls.
  destruct (run_calls_ok cs _ _ _ Hok' Hcalls) as (s' & ts' & Hrun & Hok2 & Hrel).
  rewrite Hrun, bind_ret. exists r, s', ts'. split_and!; try done.
  rewrite <- (app_nil_r (fired [e])). apply (traces_trans _ _ (log s e)); [by exists [e]|apply Hrel].
Qed.

(** *** The vector under processing *)

Definition plist (ts tp : list Z) : list Z := if threads then tp else ts.
Definition olist (ts tp : list Z) : list Z := if threads then ts else tp.

Lemma process_rep {A} flagged ordered (q : queue A) ts tp :
  queue_ok flagged ordered q ts tp -> ptr_rep (process_vector q) (plist ts tp).
Proof. intros Hq. unfold process_vector, plist. destruct threads; apply Hq. Qed.

Lemma plist_perm ts tp : ts ++ tp ≡ₚ plist ts tp ++ olist ts tp.
Proof. unfold plist, olist. destruct threads; [apply Permutation_app_comm|done]. Qed.

Lemma plist_live {A} flagged ordered (q : queue A) ts tp a :
  queue_ok flagged ordered q ts tp -> a ∈ plist ts tp -> is_Some (objs q !! a).
Proof.
  intros Hq Ha. apply (q_live _ _ _ _ _ Hq). rewrite plist_perm. apply elem_of_app. by left.
Qed.

Lemma plist_sorted q ts tp : timeouts_ok q ts tp -> by_expiry (objs q) (plist ts tp).
Proof. intros [Hq _]. unfold plist. destruct (q_order _ _ _ _ _ Hq). by destruct threads. Qed.

(** A timeout of the vector gets a new time and its vector new contents:
    the old ones or all but that timeout. *)
Lemma reorder q ts tp a t e v ps :
  timeouts_ok q ts tp -> a ∈ plist ts tp -> objs q !! a = Some t -> time_ok (set_expire t e) ->
  ptr_rep v ps -> ps ⊆+ plist ts tp ->
  by_expiry (<[a := set_expire t e]> (objs q)) ps ->
  timeouts_ok (set_process (put q a (set_expire t e)) v)
    (if threads then ts else ps) (if threads then ps else tp).
Proof.
  intros [Hq Htimes] Ha Ht Htok Hv Hsub Hord.
  set (t' := set_expire t e) in *.
  assert (objs (set_process (put q a t') v) = <[a := t']> (objs q)) as Hobjs
    by (unfold set_process; by destruct threads).
  assert (NoDup (ps ++ olist ts tp) /\ forall b, b ∈ ps ++ olist ts tp -> b ∈ ts ++ tp) as [Hnd Hin].
  { pose proof (q_nodup _ _ _ _ _ Hq) as Hnd. rewrite plist_perm in Hnd.
    assert (ps ++ olist ts tp ⊆+ plist ts tp ++ olist ts tp) as Hs by by apply submseteq_skips_r.
    split.
    - destruct (submseteq_Permutation _ _ Hs) as [k Hk]. rewrite Hk in Hnd. by apply NoDup_app in Hnd as [? _].
    - intros b Hb. rewrite plist_perm. by eapply elem_of_submseteq. }
  assert (by_expiry (<[a := t']> (objs q)) (olist ts tp)) as Hother.
  { assert (by_expiry (objs q) (olist ts tp)) as Ho
      by (unfold olist; destruct (q_order _ _ _ _ _ Hq); by destruct threads).
    eapply (order_agree (ordered := by_expiry)); [|exact Ho]. intros b Hb.
    rewrite lookup_insert_ne; [done|]. intros <-.
    pose proof (q_nodup _ _ _ _ _ Hq) as Hnd'. rewrite plist_perm in Hnd'.
    apply NoDup_app in Hnd' as (_ & Hd & _). by apply (Hd a). }
  assert (ps ++ olist ts tp ≡ₚ (if threads then ts else ps) ++ (if threads then ps else tp)) as Hperm
    by (unfold olist; destruct threads; [apply Permutation_app_comm|done]).
  split; [split|].
  - unfold set_process. destruct threads; [apply Hq|done].
  - unfold set_process. destruct threads; [done|apply Hq].
  - by rewrite <- Hperm.
  - intros b. rewrite <- Hperm, Hobjs. intros Hb%Hin.
    destruct (decide (a = b)) as [<-|]; [rewrite lookup_insert_eq; by eexists|].
    rewrite lookup_insert_ne by done. by apply Hq.
  - rewrite Hobjs. unfold olist in Hother. by destruct threads.
  - intros Hth. pose proof (q_single _ _ _ _ _ Hq Hth). by rewrite Hth.
  - intros Hp. assert (processing q = false) as Hp' by (unfold set_process in Hp; by destruct threads).
    pose proof (q_rest _ _ _ _ _ Hq Hp') as ->. unfold plist in Hsub.
    destruct threads; [|done]. by apply submseteq_nil_r in Hsub.
  - rewrite Hobjs, (marked_update _ _ a t t' Ht). cbn.
    assert (pending (set_process (put q a t') v) = pending q) as -> by (unfold set_process; by destruct threads).
    rewrite (q_count _ _ _ _ _ Hq). f_equal. lia.
  - rewrite Hobjs. by apply map_Forall_insert_2.
Qed.

(** *** One round of the loop over timeouts *)

(** A timeout the processing at clock reading [n] has yet to call. *)
Definition due_at (n : Z) (s : mainloop) (a : Z) : Prop :=
  exists t, objs (timeouts s) !! a = Some t /\ t_remove_me t = false
    /\ nanos (expire t) <= nanos (clock n).

Lemma expiry_sorted q ts tp i j a b :
  timeouts_ok q ts tp -> i <= j -> at_pos (plist ts tp) i a -> at_pos (plist ts tp) j b ->
  nanos (expire_of (objs q) a) <= nanos (expire_of (objs q) b).
Proof.
  intros Hq Hij Ha Hb. destruct (Z.eq_dec i j) as [->|].
  { by rewrite (at_pos_unique _ _ _ _ Ha Hb). }
  pose proof (plist_sorted q ts tp Hq i j a b ltac:(lia) Ha Hb) as Hc. unfold timeout_compare in Hc.
  assert (forall x, x ∈ plist ts tp -> normal (expire_of (objs q) x)) as Hn.
  { intros x Hx. eapply expire_normal; [done|]. rewrite plist_perm. apply elem_of_app. by left. }
  rewrite compare_nanos in Hc by (apply Hn; eapply list_elem_of_lookup_2; [apply Ha || apply Hb]).
  destruct (Z.ltb_spec (nanos (expire_of (objs q) a)) (nanos (expire_of (objs q) b))); [lia|].
  destruct (Z.eqb_spec (nanos (expire_of (objs q) a)) (nanos (expire_of (objs q) b))); lia.
Qed.

Lemma at_pos_in ps i a : at_pos ps i a -> a ∈ ps.
Proof. intros [_ Ha]. by eapply list_elem_of_lookup_2. Qed.

Lemma at_pos_take_eq ps qs i a :
  take (S (Z.to_nat i)) qs = take (S (Z.to_nat i)) ps -> at_pos ps i a -> at_pos qs i a.
Proof.
  intros Ht [Hi Ha]. split; [done|].
  rewrite <- (lookup_take_lt qs (S (Z.to_nat i))) by lia. by rewrite Ht, lookup_take_lt by lia.
Qed.

(** What the callback of the due timeout at [i] leaves. *)
Record called (n i : Z) (s : mainloop) ts tp a t (s' : mainloop) ts' t' : Prop := {
  ca_ok : loop_ok s' ts' tp;
  ca_rel : loop_rel s s';
  ca_trace : traces s [(a, expire t)] s';
  ca_front : take (S (Z.to_nat i)) (plist ts' tp) = take (S (Z.to_nat i)) (plist ts tp);
  ca_obj : objs (timeouts s') !! a = Some t';
  ca_times : times t' = times t;
  ca_due : 0 < lo -> forall b, due_at n s' b -> due_at n s b;
  ca_new : forall b, b ∈ ts' -> b ∈ ts \/ objs (timeouts s) !! b = None
}.

Lemma fire n i s ts tp a t :
  loop_ok s ts tp -> processing (timeouts s) = true -> n <= ticks s ->
  at_pos (plist ts tp) i a -> objs (timeouts s) !! a = Some t ->
  nanos (expire t) <= nanos (clock n) ->
  exists again s' ts' t',
    callback (TimeoutCb a (expire t) (clock n)) s = Ret (again, s')
    /\ called n i s ts tp a t s' ts' t'.
Proof.
  intros Hok Hp Hn Ha Ht Hdue. set (e := TimeoutCb _ _ _).
  destruct (callback_ok e s ts tp Hok) as (again & s' & ts' & Hrun & Hok' & Hrel & Htr).
  pose proof Hrel as [_ Hk [_ Hg] Hext _ _]. specialize (Hg Hp). destruct (Hext Hp) as [Hnew Hin Hfront].
  change (timeouts (log s e)) with (timeouts s) in *. change (ticks (log s e)) with (ticks s) in *.
  destruct (Hg a t Ht) as (t' & Ht' & Htm & _).
  exists again, s', ts', t'. split; [done|]. split; try done.
  - eapply calls_loop_rel in Hrel. destruct Hrel. by split.
  - pose proof (ok_t _ _ _ Hok) as Htok. pose proof (expiry_sorted (timeouts s) ts tp) as Hsort.
    pose proof (at_pos_lt _ _ _ Ha) as Hlt. unfold plist in *. destruct threads; [done|].
    apply (Hfront n); [done|unfold blen in Hlt; lia|].
    intros b (j & Hj & Hjb)%elem_of_take.
    assert (at_pos ts (Z.of_nat j) b) as Hb by (split; [lia|by rewrite Nat2Z.id]).
    pose proof (Hsort (Z.of_nat j) i b a Htok ltac:(lia) Hb Ha) as Hle.
    assert (nanos (expire_of (objs (timeouts s)) a) <= nanos (clock n)) by (unfold expire_of; by rewrite Ht).
    lia.
  - intros Hl b (tb & Htb & Hf & Hd). destruct (objs (timeouts s) !! b) as [tb0|] eqn:E.
    + destruct (Hg b tb0 E) as (tb' & Htb' & [= _ He] & Hfl). rewrite Htb in Htb'. injection Htb' as <-.
      exists tb0. split_and!; [done| |congruence]. destruct (t_remove_me tb0); [|done]. by rewrite Hfl in Hf.
    + exfalso. pose proof (Hnew n b tb Hn E Htb). unfold_times. lia.
Qed.

(** What a round that called the timeout at [i] leaves; [o] is the index of
    the next round, none when the timeout could not be placed again and is
    lost. *)
Record after_fire (n i : Z) (s : mainloop) ts tp (o : option Z) (s' : mainloop) ts' tp' a t : Prop := {
  af_ok : loop_ok s' ts' tp';
  af_rel : loop_rel s s';
  af_trace : traces s [(a, expire t)] s';
  af_done : 0 < lo -> ~ due_at n s' a;
  af_due : 0 < lo -> forall b, due_at n s' b -> due_at n s b;
  af_other : forall b, b ∈ olist ts' tp' -> b ∈ olist ts tp \/ objs (timeouts s) !! b = None;
  af_next : match o with
            | None => exists b, is_Some (objs (timeouts s') !! b) /\ (b ∉ ts' ++ tp')
            | Some i' => (i' = i \/ i' = i + 1)
                /\ take (Z.to_nat i') (plist ts' tp') = take (Z.to_nat i') (plist ts tp)
                /\ forall b, b ∈ drop (Z.to_nat i') (plist ts' tp') ->
                     nanos (expire t) <= nanos (expire_of (objs (timeouts s')) b)
            end
}.

Lemma due_put n s q a t' :
  timeouts s = q -> ~ (t_remove_me t' = false /\ nanos (expire t') <= nanos (clock n)) ->
  forall v, objs v = <[a := t']> (objs q) ->
  ~ due_at n (set_timeouts s v) a
  /\ forall b, due_at n (set_timeouts s v) b -> due_at n s b.
Proof.
  intros <- Hnot v Hv. unfold due_at. cbn. rewrite Hv. split.
  - intros (t & Ht & ? & ?). rewrite lookup_insert_eq in Ht. injection Ht as <-. by apply Hnot.
  - intros b. destruct (decide (a = b)) as [<-|]; [|by rewrite lookup_insert_ne].
    rewrite lookup_insert_eq. intros (t & [= <-] & ? & ?). by destruct Hnot.
Qed.

Lemma olist_new s ts tp ts' :
  (forall b, b ∈ ts' -> b ∈ ts \/ objs (timeouts s) !! b = None) ->
  forall b, b ∈ olist ts' tp -> b ∈ olist ts tp \/ objs (timeouts s) !! b = None.
Proof. intros Hn b. unfold olist. destruct threads; [apply Hn|by left]. Qed.

Lemma loop_rel_timeouts s q :
  keeps t_remove_me timeout (timeouts s) q -> loop_rel s (set_timeouts s q).
Proof. intros Hk. split; [cbn; lia|done|apply keeps_refl|apply keeps_refl]. Qed.

(** The callback answered false: the timeout is marked. *)
Lemma fire_once n i s ts tp a t s1 ts1 t1 :
  called n i s ts tp a t s1 ts1 t1 -> processing (timeouts s) = true ->
  at_pos (plist ts tp) i a -> objs (timeouts s) !! a = Some t ->
  nanos (expire t) <= nanos (clock n) ->
  let q := timeouts s1 in
  let q' := if negb (t_remove_me t1)
            then set_pending (put q a (set_t_remove t1)) (wrapu 32 (pending q + 1)) else q in
  after_fire n i s ts tp (Some (i + 1)) (set_timeouts s1 q') ts1 tp a t.
Proof.
  intros [Hok Hrel Htr Hfront Hobj Htm Hdue Hnew] Hp Ha Ht Hle q q'.
  assert (objs q' = <[a := set_t_remove t1]> (objs q)) as Hobjs.
  { subst q'. destruct (t_remove_me t1) eqn:E; [|done]. cbn. symmetry. apply insert_id.
    subst q. rewrite Hobj. by destruct t1; cbn in *; subst. }
  destruct (due_put n s1 q a (set_t_remove t1) eq_refl ltac:(by intros []) q' Hobjs) as [Hd1 Hd2].
  destruct (ok_t _ _ _ Hok) as [Hq Htimes].
  assert (timeouts_ok q' ts1 tp) as Hok'.
  { split.
    - subst q'. destruct (t_remove_me t1) eqn:E; [done|]. cbn [negb].
      eapply (queue_put t_remove_me expire by_expiry); try done. unfold mark. by rewrite E.
    - rewrite Hobjs. apply map_Forall_insert_2; [|done]. by pose proof (Htimes a t1 Hobj). }
  assert (processing q' = processing q) as Hpq by (subst q'; by destruct (t_remove_me t1)).
  assert (keeps t_remove_me timeout q q') as Hkeep.
  { split; [done|]. intros _ b ob Hb. rewrite Hobjs.
    destruct (decide (a = b)) as [<-|]; [rewrite lookup_insert_eq|rewrite lookup_insert_ne by done; eauto].
    rewrite (Hobj : objs q !! a = Some t1) in Hb. injection Hb as <-. by exists (set_t_remove t1). }
  split.
  - by destruct Hok.
  - eapply loop_rel_trans; [done|by apply loop_rel_timeouts].
  - destruct Htr as (es & He & Hf). by exists es.
  - done.
  - auto.
  - by apply olist_new.
  - assert (Z.to_nat (i + 1) = S (Z.to_nat i)) as Hi by (destruct Ha; lia). rewrite Hi.
    split_and!; [by right|done|]. intros b [j Hj]%list_elem_of_lookup. rewrite lookup_drop in Hj.
    cbn [timeouts set_timeouts].
    assert (expire_of (objs q') a = expire t) as <-.
    { unfold expire_of. rewrite Hobjs, lookup_insert_eq. by injection Htm. }
    eapply (expiry_sorted q' ts1 tp i (Z.of_nat (S (Z.to_nat i) + j)) a b); [done|lia| |].
    + by eapply at_pos_take_eq.
    + split; [lia|]. by rewrite Nat2Z.id.
Qed.

(** Placing a timeout with a later time again keeps what is before it. *)
Lemma update_front (cmp : Z -> Z -> Z) i a ps :
  at_pos ps i a -> (forall b, b ∈ take (Z.to_nat i) ps -> 0 <= cmp a b) ->
  take (Z.to_nat i) (insert_after cmp a (delete (Z.to_nat i) ps)) = take (Z.to_nat i) ps.
Proof.
  intros [Hi Ha] Hle.
  assert (take (Z.to_nat i) (delete (Z.to_nat i) ps) = take (Z.to_nat i) ps) as Ht.
  { rewrite delete_take_drop, take_app_le, take_take, Nat.min_id; [done|].
    rewrite length_take. apply lookup_lt_Some in Ha. lia. }
  rewrite insert_after_front; [done|by rewrite Ht|].
  rewrite length_delete by (by rewrite Ha). apply lookup_lt_Some in Ha. lia.
Qed.

Lemma nodup_take_drop (l : list Z) k b : NoDup l -> b ∈ take k l -> b ∈ drop k l -> False.
Proof.
  intros Hnd. rewrite <- (take_drop k l) in Hnd. apply NoDup_app in Hnd as (_ & Hd & _).
  intros Ht Hb. by apply (Hd b).
Qed.

(** The state with a fired timeout's time changed and its vector rearranged. *)
Lemma moved n i s ts tp o a t s1 ts1 t1 e v ps :
  called n i s ts tp a t s1 ts1 t1 -> processing (timeouts s) = true -> a ∈ plist ts1 tp ->
  time_ok (set_expire t1 e) -> nanos e = nanos (clock n) + nanos (timeout t1) ->
  ptr_rep v ps -> ps ⊆+ plist ts1 tp -> by_expiry (<[a := set_expire t1 e]> (objs (timeouts s1))) ps ->
  let s' := set_timeouts s1 (set_process (put (timeouts s1) a (set_expire t1 e)) v) in
  let ts' := if threads then ts1 else ps in let tp' := if threads then ps else tp in
  match o with
  | None => exists b, is_Some (objs (timeouts s1) !! b) /\ (b ∉ ts' ++ tp')
  | Some i' => (i' = i \/ i' = i + 1) /\ take (Z.to_nat i') ps = take (Z.to_nat i') (plist ts tp)
      /\ forall b, b ∈ drop (Z.to_nat i') ps ->
           nanos (expire t) <= nanos (expire_of (objs (timeouts s')) b)
  end ->
  after_fire n i s ts tp o s' ts' tp' a t.
Proof.
  intros [Hok Hrel Htr Hfront Hobj Htm Hdue Hnew] Hp Ha Htok He Hv Hsub Hord s' ts' tp' Hnext.
  set (q := put (timeouts s1) a (set_expire t1 e)) in *.
  assert (objs (set_process q v) = <[a := set_expire t1 e]> (objs (timeouts s1))) as Hobjs
    by (unfold set_process; by destruct threads).
  assert (plist ts' tp' = ps /\ olist ts' tp' = olist ts1 tp) as [Hpl Hol]
    by (unfold plist, olist, ts', tp'; by destruct threads).
  destruct (ok_t _ _ _ Hok) as [Hq Htimes].
  assert (0 < lo -> ~ due_at n s' a /\ forall b, due_at n s' b -> due_at n s1 b) as Hd.
  { intros Hl. eapply due_put; [done| |exact Hobjs]. cbn. rewrite He. intros [_ Hc].
    pose proof (Htimes a t1 Hobj) as (_ & _ & _ & _ & Htlo). unfold_times. lia. }
  split.
  - pose proof (reorder _ ts1 tp a t1 e v ps (ok_t _ _ _ Hok) Ha Hobj Htok Hv Hsub Hord) as Hr.
    by destruct Hok.
  - eapply loop_rel_trans; [done|]. apply loop_rel_timeouts. split.
    + unfold set_process. by destruct threads.
    + intros _ b ob Hb. rewrite Hobjs.
      destruct (decide (a = b)) as [<-|]; [rewrite lookup_insert_eq|rewrite lookup_insert_ne by done; eauto].
      rewrite Hobj in Hb. injection Hb as <-. by exists (set_expire t1 e).
  - destruct Htr as (es & Hes & Hf). by exists es.
  - intros Hl. by apply Hd.
  - intros Hl b Hb. by apply Hdue, Hd.
  - rewrite Hol. by apply olist_new.
  - destruct o as [i'|]; [by rewrite Hpl|]. destruct Hnext as (b & [ob Hb] & Hni). exists b. split; [|done].
    cbn. rewrite Hobjs. destruct (decide (a = b)) as [<-|]; [rewrite lookup_insert_eq; by eexists|].
    rewrite lookup_insert_ne by done. by exists ob.
Qed.

(** Where the moved timeout goes: nothing before it moves, nothing after
    it is earlier than it was. *)
Lemma fired_position m m0 ps qs i a (e t : timespec) :
  at_pos ps i a -> NoDup ps -> qs ≡ₚ ps ->
  qs = insert_after (timeout_compare m) a (delete (Z.to_nat i) ps) ->
  (forall b, a <> b -> expire_of m b = expire_of m0 b) -> expire_of m a = e ->
  nanos t <= nanos e -> (forall b, b ∈ ps -> normal (expire_of m0 b)) -> normal e ->
  (forall b, b ∈ take (Z.to_nat i) ps -> nanos (expire_of m0 b) <= nanos t) ->
  (forall b, b ∈ drop (Z.to_nat i) ps -> nanos t <= nanos (expire_of m0 b)) ->
  take (Z.to_nat i) qs = take (Z.to_nat i) ps
  /\ forall b, b ∈ drop (Z.to_nat i) qs -> nanos t <= nanos (expire_of m b).
Proof.
  intros Ha Hnd Hperm Hqs Hne Hea Hte Hnorm Hne' Hbef Haft.
  assert (take (Z.to_nat i) qs = take (Z.to_nat i) ps) as Hfr.
  { rewrite Hqs. apply update_front; [done|]. intros b Hb.
    assert (a <> b) as Hab.
    { intros <-. apply (nodup_take_drop ps (Z.to_nat i) a Hnd Hb).
      rewrite (drop_S _ a) by apply Ha. by left. }
    assert (b ∈ ps) as Hbp by (apply elem_of_take in Hb as (? & ? & _); by eapply list_elem_of_lookup_2).
    unfold timeout_compare. rewrite Hea, (Hne b Hab), compare_nanos by auto.
    specialize (Hbef b Hb). bknown. by destruct (_ =? _). }
  split; [done|]. intros b Hb. destruct (decide (a = b)) as [<-|Hab]; [by rewrite Hea|].
  rewrite (Hne b Hab). apply Haft.
  assert (b ∈ ps) as Hbp.
  { rewrite <- Hperm, <- (take_drop (Z.to_nat i) qs). apply elem_of_app. by right. }
  rewrite <- (take_drop (Z.to_nat i) ps) in Hbp. apply elem_of_app in Hbp as [Hbt|]; [|done].
  exfalso. apply (nodup_take_drop qs (Z.to_nat i) b); [by rewrite Hperm|by rewrite Hfr|done].
Qed.

(** The callback answered true: the timeout moves on by its interval. *)
Lemma fire_again n i s ts tp a t s1 ts1 t1 :
  called n i s ts tp a t s1 ts1 t1 -> processing (timeouts s) = true ->
  at_pos (plist ts tp) i a -> objs (timeouts s) !! a = Some t ->
  nanos (expire t) <= nanos (clock n) ->
  exists e r v, sol_util_timespec_add (clock n) (timeout t1) = Ret e
    /\ let q := put (timeouts s1) a (set_expire t1 e) in
       sol_ptr_vector_update_sorted (timeout_compare (objs q)) (process_vector q) i = Ret (r, v)
    /\ exists ts' tp',
       after_fire n i s ts tp (if r <? 0 then None else Some (if r =? i then i + 1 else i))
         (set_timeouts s1 (set_process q v)) ts' tp' a t.
Proof.
  intros [Hok Hrel Htr Hfront Hobj Htm Hdue Hnew] Hp Ha Ht Hle.
  destruct (ok_t _ _ _ Hok) as [Hq Htimes].
  pose proof (Htimes a t1 Hobj) as (Hts1 & Hts2 & _ & _ & Htlo).
  destruct (add_to_clock n (timeout t1) Hts1 Hts2) as (e & He & Hev & Hes & Hen).
  set (t' := set_expire t1 e). set (m' := <[a := t']> (objs (timeouts s1))).
  assert (time_ok t') as Htok' by (unfold time_ok, t'; cbn [set_expire timeout expire]; tauto).
  set (ps1 := plist ts1 tp) in *.
  assert (at_pos ps1 i a) as Ha1 by by eapply at_pos_take_eq.
  pose proof (plist_sorted _ _ _ (ok_t _ _ _ Hok)) as Hsort. fold ps1 in Hsort.
  assert (NoDup ps1) as Hnd.
  { pose proof (q_nodup _ _ _ _ _ Hq) as Hnd. rewrite (plist_perm ts1 tp) in Hnd. by apply NoDup_app in Hnd as [? _]. }
  assert (a ∉ delete (Z.to_nat i) ps1 ++ olist ts1 tp) as Hni.
  { pose proof (q_nodup _ _ _ _ _ Hq) as Hnd'. rewrite (plist_perm ts1 tp) in Hnd'.
    by destruct (nodup_delete _ _ _ a Hnd' (proj2 Ha1)) as (_ & ? & _). }
  assert (by_expiry m' (delete (Z.to_nat i) ps1)) as Hdsort.
  { eapply (order_agree (ordered := by_expiry)); [|apply (order_delete (ordered := by_expiry)), Hsort].
    intros b Hb. subst m'. rewrite lookup_insert_ne; [done|]. intros <-. apply Hni, elem_of_app. by left. }
  pose proof (process_rep _ _ _ _ _ Hq) as Hrep. fold ps1 in Hrep.
  destruct (update_sorted_spec (timeout_compare m') _ ps1 i a Hrep Ha1 Hdsort) as (r & v & Hrun & Hres).
  exists e, r, v. split; [done|]. intros q.
  split; [by change (process_vector q) with (process_vector (timeouts s1))|].
  destruct Hres as [[Hr Hv]|(qs & Hr & Hv & Hperm & Hqs & Hqsort & Hpos)].
  - bknown. exists (if threads then ts1 else delete (Z.to_nat i) ps1), (if threads then delete (Z.to_nat i) ps1 else tp).
    eapply moved; try done; [by eapply at_pos_in|apply submseteq_delete|].
    exists a. split; [by exists t1|]. intros Hin. apply Hni.
    apply elem_of_app. unfold olist. apply elem_of_app in Hin. destruct threads; tauto.
  - bknown. exists (if threads then ts1 else qs), (if threads then qs else tp).
    eapply moved; try done; [by eapply at_pos_in|by apply Permutation_submseteq|].
    assert (forall b, a <> b -> expire_of m' b = expire_of (objs (timeouts s1)) b) as Hne.
    { intros b Hb. unfold expire_of, m'. by rewrite lookup_insert_ne. }
    assert (expire_of m' a = e) as Hea by (unfold expire_of, m'; by rewrite lookup_insert_eq).
    assert (expire_of (objs (timeouts s1)) a = expire t) as Hta.
    { unfold expire_of. rewrite Hobj. by injection Htm. }
    assert (nanos (clock n) <= nanos e) as Hlate by (unfold_times; lia).
    destruct (fired_position m' (objs (timeouts s1)) ps1 qs i a e (expire t)) as [Hfr Hdr]; try done; [lia|..].
    { intros b Hb. eapply expire_normal; [by apply Hok|]. rewrite plist_perm. apply elem_of_app. by left. }
    { unfold normal. lia. }
    { intros b (j & Hj & Hlt)%elem_of_take. rewrite <- Hta.
      eapply (expiry_sorted _ ts1 tp (Z.of_nat j) i b a); [by apply Hok|lia| |done].
      split; [lia|by rewrite Nat2Z.id]. }
    { intros b [j Hj]%list_elem_of_lookup. rewrite lookup_drop in Hj. rewrite <- Hta.
      eapply (expiry_sorted _ ts1 tp i (Z.of_nat (Z.to_nat i + j)) a b); [by apply Hok|destruct Ha; lia|done|].
      split; [lia|by rewrite Nat2Z.id]. }
    assert (Z.to_nat (i + 1) = S (Z.to_nat i)) as HiS by (destruct Ha; lia).
    assert (take (Z.to_nat i) ps1 = take (Z.to_nat i) (plist ts tp)) as Hfr'.
    { apply (f_equal (take (Z.to_nat i))) in Hfront. by rewrite !take_take, Nat.min_l in Hfront by lia. }
    assert (objs (set_process q v) = m') as Hobjs by (unfold set_process; by destruct threads).
    cbn [timeouts set_timeouts]. fold q. rewrite Hobjs.
    destruct (Z.eqb_spec r i) as [->|].
    + rewrite HiS. split_and!; [by right| |].
      * rewrite (take_S_r _ _ a), (take_S_r (plist ts tp) _ a); [by rewrite Hfr, Hfr'|apply Ha|apply Hpos].
      * intros b Hb. apply Hdr. rewrite <- (take_drop 1 (drop _ _)), drop_drop, Nat.add_1_r.
        apply elem_of_app. by right.
    + split_and!; [by left|by rewrite Hfr, Hfr'|done].
Qed.

(** *** The loop over timeouts *)

Ltac round_head Hin Hget Er Ht Ef :=
  cbn [timeout_loop]; rewrite Hin, Hget, bind_ret; unfold sol_mainloop_common_loop_check;
  rewrite Er; cbn [negb]; rewrite (handler_some _ _ _ Ht), bind_ret, Ef.

Lemma timeout_round n i s ts tp :
  loop_ok s ts tp -> processing (timeouts s) = true -> n <= ticks s -> 0 <= i ->
  ((forall fuel, timeout_loop (clock n) i (S fuel) s = Ret (Some s))
   /\ (blen (plist ts tp) <= i \/ run_loop s = false
       \/ exists a, at_pos (plist ts tp) i a /\ nanos (clock n) < nanos (expire_of (objs (timeouts s)) a)))
  \/ (exists a t, at_pos (plist ts tp) i a /\ objs (timeouts s) !! a = Some t /\ t_remove_me t = true
      /\ forall fuel, timeout_loop (clock n) i (S fuel) s = timeout_loop (clock n) (i + 1) fuel s)
  \/ (exists a t o s' ts' tp', at_pos (plist ts tp) i a /\ objs (timeouts s) !! a = Some t
      /\ t_remove_me t = false /\ nanos (expire t) <= nanos (clock n)
      /\ after_fire n i s ts tp o s' ts' tp' a t
      /\ forall fuel, timeout_loop (clock n) i (S fuel) s
           = match o with None => Ret (Some s') | Some i' => timeout_loop (clock n) i' fuel s' end).
Proof.
  intros Hok Hp Hn Hi. destruct (ok_t _ _ _ Hok) as [Hq Htimes].
  pose proof (process_rep _ _ _ _ _ Hq) as Hrep. pose proof (ptr_rep_len _ _ Hrep) as [Hlen _].
  destruct (Z.ltb_spec i (blen (plist ts tp))) as [Hlt|Hge].
  2:{ left. split; [|by left]. intros fuel. cbn [timeout_loop]. rewrite Hlen. by bknown. }
  destruct (at_pos_ex (plist ts tp) i ltac:(lia)) as [a Ha].
  assert (sol_ptr_vector_get (process_vector (timeouts s)) i = Ret a) as Hget
    by by rewrite (ptr_get_spec _ _ i Hrep Hi), (proj2 Ha).
  assert ((i <? len (process_vector (timeouts s))) = true) as Hin by (rewrite Hlen; by apply Z.ltb_lt).
  destruct (run_loop s) eqn:Er.
  2:{ left. split; [|by right; left]. intros fuel. cbn [timeout_loop]. rewrite Hin, Hget, bind_ret.
      unfold sol_mainloop_common_loop_check. by rewrite Er. }
  destruct (plist_live _ _ _ _ _ a Hq) as [t Ht]; [by eapply at_pos_in|].
  pose proof (time_normal t (Htimes a t Ht)) as Hnt. pose proof (clock_normal n) as Hcn.
  pose proof (compare_later (expire t) (clock n) Hnt Hcn) as Hcmp.
  destruct (t_remove_me t) eqn:Ef; [right; left; exists a, t|].
  { split_and!; try done. intros fuel. round_head Hin Hget Er Ht Ef. done. }
  destruct (Z.le_gt_cases (nanos (expire t)) (nanos (clock n))) as [Hle|Hgt].
  2:{ left. split.
      - intros fuel. round_head Hin Hget Er Ht Ef. by rewrite Hcmp, (proj2 (Z.ltb_lt _ _) Hgt).
      - right; right. exists a. split; [done|]. unfold expire_of. rewrite Ht. lia. }
  assert ((sol_util_timespec_compare (expire t) (clock n) >? 0) = false) as Hpast
    by (rewrite Hcmp; by apply Z.ltb_ge).
  right; right. destruct (fire n i s ts tp a t Hok Hp Hn Ha Ht Hle) as ([] & s1 & ts1 & t1 & Hrun & Hcalled);
    pose proof (ca_obj _ _ _ _ _ _ _ _ _ _ Hcalled) as Ht1.
  - destruct (fire_again n i s ts tp a t s1 ts1 t1 Hcalled Hp Ha Ht Hle) as (e & r & v & He & Hu & ts' & tp' & Haf).
    eexists a, t, _, _, ts', tp'. split_and!; try done. intros fuel.
    round_head Hin Hget Er Ht Ef. rewrite Hpast, Hrun, bind_ret, (handler_some _ _ _ Ht1), bind_ret.
    cbn [negb]. rewrite He, bind_ret, Hu, bind_ret. by destruct (r <? 0); [|destruct (r =? i)].
  - pose proof (fire_once n i s ts tp a t s1 ts1 t1 Hcalled Hp Ha Ht Hle) as Haf.
    eexists a, t, (Some (i + 1)), _, ts1, tp. split_and!; try done. intros fuel.
    round_head Hin Hget Er Ht Ef. by rewrite Hpast, Hrun, bind_ret, (handler_some _ _ _ Ht1), bind_ret.
Qed.

(** Calls in the order of the times they were due, none earlier than [d]. *)
Fixpoint in_order (d : Z) (l : list (Z * timespec)) : Prop :=
  match l with
  | [] => True
  | (_, e) :: l => d <= nanos e /\ in_order (nanos e) l
  end.

(** A timeout was lost: it is live but no vector holds it. *)
Definition lost (s : mainloop) (ts tp : list Z) : Prop :=
  exists b, is_Some (objs (timeouts s) !! b) /\ (b ∉ ts ++ tp).

(** What processing from index [i] comes to. *)
Record processed (n i : Z) (s : mainloop) ts tp (s' : mainloop) ts' tp' l : Prop := {
  pr_ok : loop_ok s' ts' tp';
  pr_rel : loop_rel s s';
  pr_trace : traces s l s';
  pr_order : forall d, (forall b, b ∈ drop (Z.to_nat i) (plist ts tp) ->
      d <= nanos (expire_of (objs (timeouts s)) b)) -> in_order d l;
  pr_past : Forall (fun x => nanos x.2 <= nanos (clock n)) l;
  pr_due : 0 < lo -> forall b, due_at n s' b -> due_at n s b;
  pr_fired : 0 < lo -> NoDup l.*1 /\ forall a, a ∈ l.*1 -> due_at n s a /\ ~ due_at n s' a;
  pr_done : 0 < lo -> (forall b, b ∈ take (Z.to_nat i) (plist ts tp) -> ~ due_at n s b) ->
    (forall b, b ∈ olist ts tp -> ~ due_at n s b) ->
    run_loop s' = false \/ lost s' ts' tp' \/ forall b, b ∈ ts' ++ tp' -> ~ due_at n s' b
}.

Lemma processed_end n i s ts tp :
  loop_ok s ts tp -> 0 <= i ->
  (blen (plist ts tp) <= i \/ run_loop s = false
   \/ exists a, at_pos (plist ts tp) i a /\ nanos (clock n) < nanos (expire_of (objs (timeouts s)) a)) ->
  processed n i s ts tp s ts tp [].
Proof.
  intros Hok Hi Hend.
  split; [done|apply loop_rel_refl|by apply traces_refl|done|done|done| |].
  { intros _. split; [constructor|]. by intros a ?%elem_of_nil. }
  intros Hl Hf Ho. destruct Hend as [Hend|[?|Hend]]; [right; right|by left|right; right];
    intros b; rewrite plist_perm; (intros [Hb|Hb]%elem_of_app; [|by apply Ho]).
  - apply Hf. rewrite take_ge; [done|]. unfold blen in Hend. lia.
  - destruct Hend as (a & Ha & Hlate). rewrite <- (take_drop (Z.to_nat i) (plist ts tp)) in Hb.
    apply elem_of_app in Hb as [Hb|[j Hj]%list_elem_of_lookup]; [by apply Hf|].
    rewrite lookup_drop in Hj. intros (t & Ht & _ & Hle).
    pose proof (expiry_sorted (timeouts s) ts tp i (Z.of_nat (Z.to_nat i + j)) a b (ok_t _ _ _ Hok)
      ltac:(lia) Ha ltac:(split; [lia|by rewrite Nat2Z.id])) as Hs.
    unfold expire_of at 2 in Hs. rewrite Ht in Hs. lia.
Qed.

Lemma in_order_mono d d' l : d <= d' -> in_order d' l -> in_order d l.
Proof. intros Hd. destruct l as [|[a e] l]; [done|]. intros [? ?]. split; [lia|done]. Qed.

Lemma processed_skip n i s ts tp a t s' ts' tp' l :
  at_pos (plist ts tp) i a -> objs (timeouts s) !! a = Some t -> t_remove_me t = true ->
  processed n (i + 1) s ts tp s' ts' tp' l -> processed n i s ts tp s' ts' tp' l.
Proof.
  intros Ha Ht Hf [? ? ? Hord ? ? ? Hdone].
  assert (Z.to_nat (i + 1) = S (Z.to_nat i)) as HiS by (destruct Ha; lia). rewrite HiS in *.
  split; try done.
  - intros d Hd. apply Hord. intros b Hb. apply Hd. rewrite (drop_S _ a) by apply Ha. by right.
  - intros Hl Hfront Ho. apply Hdone; [done| |done]. intros b.
    rewrite (take_S_r _ _ a) by apply Ha. intros [Hb|Hb]%elem_of_app; [by apply Hfront|].
    apply list_elem_of_singleton in Hb as ->. intros (t' & Ht' & Hf' & _). congruence.
Qed.

Lemma processed_fire n i i' s ts tp s1 ts1 tp1 a t s' ts' tp' l :
  loop_ok s ts tp -> n <= ticks s ->
  at_pos (plist ts tp) i a -> objs (timeouts s) !! a = Some t -> t_remove_me t = false ->
  nanos (expire t) <= nanos (clock n) ->
  after_fire n i s ts tp (Some i') s1 ts1 tp1 a t ->
  processed n i' s1 ts1 tp1 s' ts' tp' l -> processed n i s ts tp s' ts' tp' ((a, expire t) :: l).
Proof.
  intros Hok Hn Ha Ht Hf Hle [Hok1 Hrel1 Htr1 Hd1 Hdue1 Hoth (Hi' & Hfront & Hlow)]
    [Hok2 Hrel2 Htr2 Hord Hpast Hdue2 Hfired Hdone].
  assert (due_at n s a) as Hda by by exists t.
  split; [done|by eapply loop_rel_trans|by eapply (traces_trans _ [_])| | | | |].
  - intros d Hd. cbn. split; [|by apply Hord].
    replace (expire t) with (expire_of (objs (timeouts s)) a) by (unfold expire_of; by rewrite Ht).
    apply Hd. rewrite (drop_S _ a) by apply Ha. by left.
  - by constructor.
  - auto.
  - intros Hl. destruct (Hfired Hl) as [Hnd Hin]. split.
    + cbn. constructor; [|done]. intros Hal. destruct (Hin a Hal) as [Hc _]. by apply (Hd1 Hl).
    + cbn. intros b [->|Hb]%elem_of_cons.
      * split; [done|]. intros Hc. by apply (Hd1 Hl), Hdue2.
      * destruct (Hin b Hb). split; [by apply Hdue1|done].
  - intros Hl Hfr Ho. apply Hdone; [done| |].
    + rewrite Hfront. intros b Hb Hc. destruct Hi' as [->| ->]; [by apply (Hfr b Hb), Hdue1|].
      replace (Z.to_nat (i + 1)) with (S (Z.to_nat i)) in Hb by (destruct Ha; lia).
      rewrite (take_S_r _ _ a) in Hb by apply Ha. apply elem_of_app in Hb as [Hb|Hb]; [by apply (Hfr b Hb), Hdue1|].
      apply list_elem_of_singleton in Hb as ->. by apply (Hd1 Hl).
    + intros b Hb Hc. destruct (Hoth b Hb) as [Hb'|Hb']; [by apply (Ho b Hb'), Hdue1|].
      apply (Hdue1 Hl) in Hc as (tb & Htb & _). congruence.
Qed.

Lemma processing_kept s s' : loop_rel s s' -> processing (timeouts s') = processing (timeouts s).
Proof. intros [_ [Hp _] _ _]. done. Qed.

(** However many rounds are run, the state stays sound; when the loop ends
    it has done its work. *)
Lemma timeout_loop_ok n fuel : forall i s ts tp,
  loop_ok s ts tp -> processing (timeouts s) = true -> n <= ticks s -> 0 <= i ->
  exists r, timeout_loop (clock n) i fuel s = Ret r
    /\ forall s', r = Some s' -> exists ts' tp' l, processed n i s ts tp s' ts' tp' l.
Proof.
  induction fuel as [|fuel IH]; intros i s ts tp Hok Hp Hn Hi; [by exists None|].
  destruct (timeout_round n i s ts tp Hok Hp Hn Hi)
    as [[Hrun Hend]|[(a & t & Ha & Ht & Hf & Hrun)|(a & t & o & s1 & ts1 & tp1 & Ha & Ht & Hf & Hle & Haf & Hrun)]];
    rewrite Hrun.
  - eexists. split; [done|]. intros s' [= <-]. exists ts, tp, []. by apply processed_end.
  - destruct (IH (i + 1) s ts tp Hok Hp Hn ltac:(lia)) as (r & -> & Hr). exists r. split; [done|].
    intros s' Hs. destruct (Hr s' Hs) as (ts' & tp' & l & Hpr). exists ts', tp', l. by eapply processed_skip.
  - pose proof (af_ok _ _ _ _ _ _ _ _ _ _ _ Haf) as Hok1. pose proof (af_rel _ _ _ _ _ _ _ _ _ _ _ Haf) as Hrel1.
    destruct o as [i'|].
    + pose proof (af_next _ _ _ _ _ _ _ _ _ _ _ Haf) as (Hi' & _). pose proof (lr_ticks _ _ Hrel1).
      destruct (IH i' s1 ts1 tp1 Hok1) as (r & -> & Hr); [by rewrite (processing_kept _ _ Hrel1)|lia|lia|].
      exists r. split; [done|]. intros s' Hs. destruct (Hr s' Hs) as (ts' & tp' & l & Hpr).
      exists ts', tp', ((a, expire t) :: l). by eapply processed_fire.
    + eexists. split; [done|]. intros s' [= <-]. exists ts1, tp1, [(a, expire t)].
      destruct Haf as [_ _ Htr Hd Hdue Hoth Hnext].
      split; [done|done|done| |by constructor|done| |].
      * intros d Hd'. cbn. split; [|done].
        replace (expire t) with (expire_of (objs (timeouts s)) a) by (unfold expire_of; by rewrite Ht).
        apply Hd'. rewrite (drop_S _ a) by apply Ha. by left.
      * intros Hl. split; [cbn; constructor; [by apply not_elem_of_nil|constructor]|].
        cbn. intros b ->%list_elem_of_singleton. split; [by exists t|by apply Hd].
      * intros _ _ _. by right; left.
Qed.

(** *** Termination *)

Definition due_set (n : Z) (s : mainloop) : gset Z :=
  dom (filter (fun kv => t_remove_me kv.2 = false /\ nanos (expire kv.2) <= nanos (clock n)) (objs (timeouts s))).

Lemma elem_of_due_set n s a : (a ∈ due_set n s) <-> due_at n s a.
Proof.
  unfold due_set, due_at. rewrite elem_of_dom. split.
  - intros [t [Ht [Hf Hd]]%map_lookup_filter_Some]. by exists t.
  - intros (t & Ht & Hf & Hd). exists t. by apply map_lookup_filter_Some.
Qed.

Definition rounds (n i : Z) (s : mainloop) : Z := Z.of_nat (size (due_set n s)) * 65536 + (65536 - i).

Lemma due_set_size n s : (size (due_set n s) <= size (objs (timeouts s)))%nat.
Proof.
  unfold due_set. rewrite size_dom. apply map_subseteq_size, map_filter_subseteq.
Qed.

Lemma timeout_loop_ends n fuel : 0 < lo -> forall i s ts tp,
  loop_ok s ts tp -> processing (timeouts s) = true -> n <= ticks s -> 0 <= i <= 65535 ->
  rounds n i s <= Z.of_nat fuel -> timeout_loop (clock n) i fuel s <> Ret None.
Proof.
  intros Hl. induction fuel as [|fuel IH]; intros i s ts tp Hok Hp Hn Hi Hm; [unfold rounds in Hm; lia|].
  pose proof (process_rep _ _ _ _ _ (proj1 (ok_t _ _ _ Hok))) as Hrep.
  pose proof (ptr_rep_len _ _ Hrep) as [_ Hlen].
  destruct (timeout_round n i s ts tp Hok Hp Hn ltac:(lia))
    as [[Hrun _]|[(a & t & Ha & Ht & Hf & Hrun)|(a & t & o & s1 & ts1 & tp1 & Ha & Ht & Hf & Hle & Haf & Hrun)]];
    rewrite Hrun; [done|pose proof (at_pos_lt _ _ _ Ha) as Hlt; unfold UINT16_MAX in Hlen..].
  - apply (IH (i + 1) s ts tp); try done; [lia|]. unfold rounds in *. lia.
  - destruct o as [i'|]; [|done]. destruct Haf as [Hok1 Hrel1 _ Hd Hdue _ ([Hi'|Hi'] & _)];
      (apply (IH i' s1 ts1 tp1); try done; [by rewrite (processing_kept _ _ Hrel1)|pose proof (lr_ticks _ _ Hrel1); lia|lia|]);
      (assert (due_set n s1 ⊂ due_set n s) as Hsub%subset_size;
       [split; [intros b; rewrite !elem_of_due_set; by apply Hdue
               |intros Hc; apply (Hd Hl), elem_of_due_set, Hc, elem_of_due_set; by exists t]
       |unfold rounds in *; lia]).
Qed.

(** *** Starting and ending the processing of a queue *)

Lemma ptr_clear_rep v (l : list Z) : ptr_rep v l -> ptr_rep (sol_ptr_vector_clear v) [].
Proof. intros (Hr & He & _). split_and!; cbn; [by eapply Vector.clear_spec|done|constructor]. Qed.

Lemma queue_start {A} flagged ordered (q : queue A) ps pr :
  (forall m, ordered m []) ->
  queue_ok flagged ordered q ps pr -> processing q = false ->
  exists ps' pr', queue_ok flagged ordered (set_processing (sol_mainloop_ptr_vector_steal q) true) ps' pr'
    /\ plist ps' pr' = ps /\ olist ps' pr' = [].
Proof.
  intros Hnil Hq Hp. pose proof (q_rest _ _ _ _ _ Hq Hp) as ->.
  destruct Hq as [Ha Hpr Hnd Hl [Ho1 Ho2] Hs Hr Hc]. rewrite app_nil_r in *.
  unfold plist, olist, sol_mainloop_ptr_vector_steal.
  destruct threads eqn:Eth.
  - exists [], ps. split_and!; try done. split; cbn; try done; congruence.
  - exists ps, []. split_and!; try done. split; cbn; try done; by rewrite app_nil_r.
Qed.

Lemma steal_objs {A} (q : queue A) : objs (sol_mainloop_ptr_vector_steal q) = objs q.
Proof. unfold sol_mainloop_ptr_vector_steal. by destruct threads. Qed.

Lemma queue_stop {A} flagged ordered (q : queue A) ps :
  queue_ok flagged ordered q ps [] -> queue_ok flagged ordered (set_processing q false) ps [].
Proof. intros []. by split. Qed.

(** The two vectors become one again. *)
Lemma queue_merge {A} flagged ordered (q : queue A) ps pr v ps' :
  (forall m, ordered m []) -> queue_ok flagged ordered q ps pr -> ptr_rep v ps' -> ps' ⊆+ ps ++ pr ->
  ordered (objs q) ps' ->
  queue_ok flagged ordered (set_proc (set_acum q v) (sol_ptr_vector_clear (proc q))) ps' [].
Proof.
  intros Hnil [Ha Hpr Hnd Hl [Ho1 Ho2] Hs Hr Hc] Hv Hsub Hord. split; cbn; rewrite ?app_nil_r; try done.
  - by eapply ptr_clear_rep.
  - destruct (submseteq_Permutation _ _ Hsub) as [k Hk]. rewrite Hk in Hnd. by apply NoDup_app in Hnd as [? _].
  - intros a Hin. apply Hl. by eapply elem_of_submseteq.
Qed.

Lemma insert_all_spec m from pr fuel : forall to ps i,
  ptr_rep from pr -> ptr_rep to ps -> sorted_by (timeout_compare m) ps -> (i + fuel = length pr)%nat ->
  exists v ps', insert_all m to from (Z.of_nat i) fuel = Ret v /\ ptr_rep v ps'
    /\ sorted_by (timeout_compare m) ps' /\ ps' ⊆+ ps ++ drop i pr.
Proof.
  induction fuel as [|fuel IH]; intros to ps i Hf Ht Hs Hi; cbn [insert_all].
  { exists to, ps. split_and!; try done. by apply submseteq_inserts_r. }
  destruct (lookup_lt_is_Some_2 pr i ltac:(lia)) as [a Ha].
  rewrite (get_no_check_spec from pr _ a Hf) by (split; [lia|by rewrite Nat2Z.id]). rewrite bind_ret.
  assert (is_uint 64 a) as Hu by (destruct Hf as (_ & _ & Hall); by eapply Forall_lookup_1 in Hall).
  destruct (insert_sorted_spec (timeout_compare m) to ps a Ht Hs Hu) as (r & v & -> & Hres). rewrite bind_ret.
  replace (Z.of_nat i + 1) with (Z.of_nat (S i)) by lia. rewrite (drop_S _ a) by done.
  destruct Hres as [[_ ->]|(_ & Hv & Hvs & _)].
  - destruct (IH to ps (S i) Hf Ht Hs ltac:(lia)) as (v & ps' & -> & ? & ? & Hsub). exists v, ps'.
    split_and!; try done. etrans; [exact Hsub|]. apply submseteq_skips_l. by apply submseteq_cons.
  - destruct (IH v _ (S i) Hf Hv Hvs ltac:(lia)) as (v' & ps' & -> & ? & ? & Hsub). exists v', ps'.
    split_and!; try done. etrans; [exact Hsub|]. rewrite insert_after_perm. cbn.
    by rewrite Permutation_middle.
Qed.

Lemma append_all_spec from pr fuel : forall to ps i,
  ptr_rep from pr -> ptr_rep to ps -> (i + fuel = length pr)%nat ->
  exists v ps', append_all to from (Z.of_nat i) fuel = Ret v /\ ptr_rep v ps' /\ ps' ⊆+ ps ++ drop i pr.
Proof.
  induction fuel as [|fuel IH]; intros to ps i Hf Ht Hi; cbn [append_all].
  { exists to, ps. split_and!; try done. by apply submseteq_inserts_r. }
  destruct (lookup_lt_is_Some_2 pr i ltac:(lia)) as [a Ha].
  rewrite (get_no_check_spec from pr _ a Hf) by (split; [lia|by rewrite Nat2Z.id]). rewrite bind_ret.
  assert (is_uint 64 a) as Hu by (destruct Hf as (_ & _ & Hall); by eapply Forall_lookup_1 in Hall).
  destruct (append_spec to ps a Ht Hu) as (r & v & -> & Hres). rewrite bind_ret.
  replace (Z.of_nat i + 1) with (Z.of_nat (S i)) by lia. rewrite (drop_S _ a) by done.
  destruct Hres as [[_ ->]|[_ Hv]].
  - destruct (IH to ps (S i) Hf Ht ltac:(lia)) as (v & ps' & -> & ? & Hsub). exists v, ps'.
    split_and!; try done. etrans; [exact Hsub|]. apply submseteq_skips_l. by apply submseteq_cons.
  - destruct (IH v _ (S i) Hf Hv ltac:(lia)) as (v' & ps' & -> & ? & Hsub). exists v', ps'.
    split_and!; try done. etrans; [exact Hsub|]. by rewrite <- app_assoc.
Qed.

Lemma timeout_vector_update_ok q ps pr :
  timeouts_ok q ps pr ->
  exists q' ps', timeout_vector_update q = Ret q' /\ timeouts_ok q' ps' [] /\ ps' ⊆+ ps ++ pr
    /\ objs q' = objs q /\ processing q' = processing q.
Proof.
  intros [Hq Ht]. unfold timeout_vector_update. destruct threads eqn:Eth.
  - rewrite (full_fuel _ pr) by apply Hq.
    destruct (insert_all_spec (objs q) (proc q) pr (length pr) (acum q) ps 0) as (v & ps' & Hrun & Hv & Hs & Hsub);
      [apply Hq|apply Hq|apply Hq|done|]. change (Z.of_nat 0) with 0 in Hrun. rewrite drop_0 in Hsub.
    rewrite Hrun, bind_ret. do 2 eexists. split; [done|]. split_and!; try done.
    split; [|done]. eapply queue_merge; try done. intros m. apply sorted_by_nil.
  - pose proof (q_single _ _ _ _ _ Hq Eth) as ->. exists q, ps.
    split_and!; try done. by rewrite app_nil_r.
Qed.

Lemma vector_update_ok {A} flagged (q : queue A) ps pr :
  queue_ok flagged no_order q ps pr ->
  exists q' ps', sol_ptr_vector_update q = Ret q' /\ queue_ok flagged no_order q' ps' []
    /\ objs q' = objs q /\ processing q' = processing q.
Proof.
  intros Hq. unfold sol_ptr_vector_update. destruct threads eqn:Eth.
  - rewrite (full_fuel _ pr) by apply Hq.
    destruct (append_all_spec (proc q) pr (length pr) (acum q) ps 0) as (v & ps' & Hrun & Hv & Hsub);
      [apply Hq|apply Hq|done|]. change (Z.of_nat 0) with 0 in Hrun. rewrite drop_0 in Hsub.
    rewrite Hrun, bind_ret. do 2 eexists. split; [done|]. split_and!; try done.
    by eapply queue_merge.
  - pose proof (q_single _ _ _ _ _ Hq Eth) as ->. by exists q, ps.
Qed.

(** *** Processing timeouts *)

(** What one processing of the timeouts, at clock reading [n], comes to. *)
Record swept (n : Z) (s : mainloop) (ts : list Z) (s' : mainloop) (ts' : list Z) (l : list (Z * timespec)) : Prop := {
  sw_ok : loop_ok s' ts' [];
  sw_rel : loop_rel s s';
  sw_trace : traces s l s';
  sw_order : forall d, (forall b, b ∈ ts -> d <= nanos (expire_of (objs (timeouts s)) b)) -> in_order d l;
  sw_past : Forall (fun x => nanos x.2 <= nanos (clock n)) l;
  sw_fired : 0 < lo -> NoDup l.*1 /\ forall a, a ∈ l.*1 -> due_at n s a;
  sw_done : 0 < lo ->
    run_loop s' = false \/ lost s' ts' [] \/ forall b, b ∈ ts' -> ~ due_at n s' b
}.

Lemma processed_swept n s s0 ts ts0 tp0 s' ts' tp' l q1 ps1 (freed : list Z) q2 ps2 :
  loop_ok s ts [] -> processing (timeouts s) = false ->
  objs (timeouts s0) = objs (timeouts s) -> trace s0 = trace s -> ticks s <= ticks s0 ->
  idlers s0 = idlers s -> sources s0 = sources s ->
  plist ts0 tp0 = ts -> olist ts0 tp0 = [] ->
  processed n 0 s0 ts0 tp0 s' ts' tp' l ->
  timeouts_ok q1 ps1 [] -> ps1 ⊆+ ts' ++ tp' -> objs q1 = objs (timeouts s') ->
  timeouts_ok q2 ps2 [] -> (forall a, a ∈ ps2 <-> a ∈ ps1 /\ a ∉ freed) ->
  (forall a, a ∈ freed -> a ∈ ps1) -> (forall a, a ∉ freed -> objs q2 !! a = objs q1 !! a) ->
  swept n s ts (set_timeouts s' (set_processing q2 false)) ps2 l.
Proof.
  intros Hok Hp Ho Htr Htk Hi Hs Hpl Hol [Hok' Hrel Htr' Hord Hpast _ Hfired Hdone] Hq1 Hsub Ho1 Hq2 Hps2 Hfr Hun.
  assert (forall a, due_at n s0 a <-> due_at n s a) as Hdue by (intros a; unfold due_at; by rewrite Ho).
  split; cbn.
  - destruct Hok'. split; [|done|done]. destruct Hq2. split; [by apply queue_stop|done].
  - destruct Hrel as [? _ ? ?]. split; cbn; [lia|split; [done|congruence]|by rewrite <- Hi|by rewrite <- Hs].
  - destruct Htr' as (es & Hes & Hl). exists es. cbn. by rewrite Hes, Htr.
  - intros d Hd. apply Hord. rewrite Ho, Hpl. by rewrite drop_0.
  - done.
  - intros Hl. destruct (Hfired Hl) as [? Hin]. split; [done|]. intros a Ha. by apply Hdue, Hin.
  - intros Hl. destruct (Hdone Hl) as [?|[(b & Hb & Hni)|Hd]].
    + rewrite Hpl, take_0. by intros b ?%not_elem_of_nil.
    + rewrite Hol. by intros b ?%not_elem_of_nil.
    + by left.
    + right; left. exists b. cbn. rewrite app_nil_r.
      assert (b ∉ ps1) as Hnp by (intros ?; apply Hni; by eapply elem_of_submseteq).
      split; [|by intros [? _]%Hps2]. rewrite Hun, Ho1; [done|]. by intros ?%Hfr.
    + right; right. intros b [Hb Hnf]%Hps2 (t & Ht & ? & ?). cbn in Ht. rewrite Hun, Ho1 in Ht by done.
      apply (Hd b); [by eapply elem_of_submseteq|]. by exists t.
Qed.

Lemma cleanup_timeouts q ps :
  timeouts_ok q ps [] ->
  exists freed q' ps', cleanup t_remove_me q = Ret (freed, q') /\ timeouts_ok q' ps' []
    /\ (forall a, a ∈ ps' <-> a ∈ ps /\ a ∉ freed) /\ (forall a, a ∈ freed -> a ∈ ps)
    /\ (forall a, a ∉ freed -> objs q' !! a = objs q !! a) /\ processing q' = processing q.
Proof.
  intros [Hq Ht]. destruct (cleanup_spec t_remove_me expire by_expiry q ps [] Hq)
    as (freed & q' & ps' & Hrun & Hq' & Hps & Hfr & Hun & _ & Hp & _).
  exists freed, q', ps'. split_and!; try done.
  - split; [done|]. intros a t Ha. apply (Ht a). rewrite <- Hun; [done|].
    intros Hf. destruct (Hfr a Hf) as (_ & Hn & _). congruence.
  - intros a Ha. by destruct (Hfr a Ha).
Qed.

Lemma timeout_process_ok fuel s ts tp :
  loop_ok s ts tp -> processing (timeouts s) = false ->
  exists r, sol_mainloop_common_timeout_process fuel s = Ret r
    /\ (forall s', r = Some s' -> exists ts' l, swept (ticks s) s ts s' ts' l)
    /\ (0 < lo -> Z.of_nat (size (objs (timeouts s))) * 65536 + 65536 <= Z.of_nat fuel -> r <> None).
Proof.
  intros Hok Hp. pose proof (q_rest _ _ _ _ _ (proj1 (ok_t _ _ _ Hok)) Hp) as ->.
  destruct (queue_start t_remove_me by_expiry (timeouts s) ts []
              ltac:(intros; apply sorted_by_nil) (proj1 (ok_t _ _ _ Hok)) Hp) as (ts0 & tp0 & Hq0 & Hpl & Hol).
  unfold sol_mainloop_common_timeout_process.
  set (q0 := set_processing _ true) in *.
  assert (objs q0 = objs (timeouts s)) as Ho by apply steal_objs.
  cbn [sol_util_timespec_get_current ticks set_timeouts].
  set (s0 := tick (set_timeouts s q0)).
  assert (loop_ok s0 ts0 tp0) as Hok0.
  { destruct Hok as [[_ Ht] ? ?]. split; [|done|done]. split; [done|]. change (map_Forall (fun _ => time_ok) (objs q0)). by rewrite Ho. }
  destruct (timeout_loop_ok (ticks s) fuel 0 s0 ts0 tp0 Hok0) as (r & Hrun & Hr); [done|cbn; lia|lia|].
  assert (0 < lo -> Z.of_nat (size (objs (timeouts s))) * 65536 + 65536 <= Z.of_nat fuel -> r <> None) as Hend.
  { intros Hl Hf ->. apply (timeout_loop_ends (ticks s) fuel Hl 0 s0 ts0 tp0 Hok0) in Hrun;
      [done|done|cbn; lia|lia|]. unfold rounds. pose proof (due_set_size (ticks s) s0) as Hsz.
    change (objs (timeouts s0)) with (objs q0) in Hsz. rewrite Ho in Hsz. lia. }
  rewrite Hrun, bind_ret. destruct r as [s1|]; [|by exists None].
  destruct (Hr s1 eq_refl) as (ts1 & tp1 & l & Hpr).
  destruct (timeout_vector_update_ok _ _ _ (ok_t _ _ _ (pr_ok _ _ _ _ _ _ _ _ _ Hpr)))
    as (q1 & ps1 & -> & Hq1 & Hsub & Ho1 & _). rewrite bind_ret.
  destruct (cleanup_timeouts q1 ps1 Hq1) as (freed & q2 & ps2 & Hcl & Hq2 & Hps2 & Hfr & Hun & _).
  unfold timeout_cleanup. cbn [timeouts set_timeouts]. rewrite Hcl, !bind_ret.
  eexists. split; [done|]. split; [|done]. intros s' [= <-]. exists ps2, l.
  eapply (processed_swept (ticks s) s s0 ts ts0 tp0 s1 ts1 tp1 l q1 ps1 freed q2 ps2); try done; cbn; lia.
Qed.

(** *** Processing idlers *)

Lemma idlers_put s ts tp a st st' n :
  loop_ok s ts tp -> objs (idlers s) !! a = Some st ->
  (idler_flagged st = true -> idler_flagged st' = true) ->
  n = wrapu 32 (pending (idlers s) + (mark idler_flagged st' - mark idler_flagged st)) ->
  let s' := set_idlers s (set_pending (put (idlers s) a st') n) in
  loop_ok s' ts tp /\ loop_rel s s'.
Proof.
  intros Hok Ha Hf Hn s'. destruct (ok_i _ _ _ Hok) as (il & ip & Hq). split.
  - destruct Hok. split; [done| |done]. exists il, ip.
    by eapply (queue_put idler_flagged (fun _ => tt) no_order).
  - split; cbn; [lia|apply keeps_refl| |apply keeps_refl]. split; [done|]. intros _.
    by eapply (grows_put idler_flagged (fun _ => tt) (idlers s) a st st').
Qed.

Lemma idlers_put_same s ts tp a st st' :
  loop_ok s ts tp -> objs (idlers s) !! a = Some st -> idler_flagged st = idler_flagged st' ->
  let s' := set_idlers s (put (idlers s) a st') in loop_ok s' ts tp /\ loop_rel s s'.
Proof.
  intros Hok Ha Hf s'. destruct (ok_i _ _ _ Hok) as (il & ip & Hq).
  pose proof (idlers_put s ts tp a st st' (pending (idlers s)) Hok Ha ltac:(congruence)) as Hput.
  replace (set_pending (put (idlers s) a st') (pending (idlers s))) with (put (idlers s) a st') in Hput
    by by destruct (idlers s).
  apply Hput. unfold mark. rewrite Hf, Z.sub_diag, Z.add_0_r, (q_count _ _ _ _ _ Hq).
  unfold wrapu. by rewrite Zmod_mod.
Qed.

(** [idler] marked when its callback answered false. *)
Lemma idler_again s ts tp a again :
  loop_ok s ts tp -> is_Some (objs (idlers s) !! a) ->
  exists s', (if negb again then
       st ← deref (idlers s) a;
       if negb (bool_decide (st = idler_deleted)) then
         let q := put (idlers s) a idler_deleted in
         Ret (set_idlers s (set_pending q (wrapu 32 (pending q + 1))))
       else Ret s
     else Ret s) = Ret s' /\ loop_ok s' ts tp /\ loop_rel s s'.
Proof.
  intros Hok [st Ha]. destruct again; cbn [negb]; [exists s; split_and!; [done|done|apply loop_rel_refl]|].
  rewrite (handler_some _ _ _ Ha), bind_ret.
  case_bool_decide as Hst; cbn [negb]; [exists s; split_and!; [done|done|apply loop_rel_refl]|].
  eexists. split; [done|]. eapply (idlers_put s ts tp a st idler_deleted); try done.
  cbn. unfold mark, idler_flagged. by rewrite (bool_decide_eq_false_2 (st = idler_deleted)) by done.
Qed.

Lemma idler_round i s ts tp :
  loop_ok s ts tp -> processing (idlers s) = true -> 0 <= i ->
  (forall tfuel fuel, idler_loop tfuel i (S fuel) s = Ret (Some s))
  \/ (i < 65535 /\ exists s1, loop_ok s1 ts tp /\ loop_rel s s1
      /\ forall tfuel fuel, idler_loop tfuel i (S fuel) s = idler_loop tfuel (i + 1) fuel s1)
  \/ (i < 65535 /\ exists s1 ts1, loop_ok s1 ts1 tp /\ loop_rel s s1
      /\ forall tfuel fuel, idler_loop tfuel i (S fuel) s
           = (r ← sol_mainloop_common_timeout_process tfuel s1;
              match r with None => Ret None | Some s2 => idler_loop tfuel (i + 1) fuel s2 end)).
Proof.
  intros Hok Hp Hi. destruct (ok_i _ _ _ Hok) as (il & ip & Hq).
  pose proof (process_rep _ _ _ _ _ Hq) as Hrep. pose proof (ptr_rep_len _ _ Hrep) as [Hlen Hmax].
  unfold UINT16_MAX in Hmax.
  destruct (Z.ltb_spec i (blen (plist il ip))) as [Hlt|Hge].
  2:{ left. intros. cbn [idler_loop]. rewrite Hlen. by bknown. }
  assert ((i <? len (process_vector (idlers s))) = true) as Hin by (rewrite Hlen; by apply Z.ltb_lt).
  destruct (at_pos_ex (plist il ip) i ltac:(lia)) as [a Ha].
  pose proof (get_no_check_spec _ _ _ _ Hrep Ha) as Hget.
  destruct (run_loop s) eqn:Er.
  2:{ left. intros. cbn [idler_loop]. rewrite Hin, Hget, bind_ret.
      unfold sol_mainloop_common_loop_check. by rewrite Er. }
  destruct (plist_live _ _ _ _ _ a Hq) as [st Hst]; [by eapply at_pos_in|].
  right. destruct (decide (st = idler_ready)) as [->|Hnr].
  - right. split; [lia|].
    destruct (callback_ok (IdlerCb a) s ts tp Hok) as (again & s1 & ts1 & Hrun & Hok1 & Hrel1 & _).
    pose proof (calls_loop_rel _ _ _ _ Hrel1) as Hlr1.
    assert (is_Some (objs (idlers s1) !! a)) as Hlive.
    { destruct Hlr1 as [_ _ [_ Hg] _]. destruct (Hg Hp a _ Hst) as (st' & ? & _). by exists st'. }
    destruct (idler_again s1 ts1 tp a again Hok1 Hlive) as (s2 & Hrun2 & Hok2 & Hlr2).
    exists s2, ts1. split_and!; [done|eapply loop_rel_trans; [by destruct Hlr1|done]|]. intros.
    cbn [idler_loop]. rewrite Hin, Hget, bind_ret. unfold sol_mainloop_common_loop_check. rewrite Er.
    cbn [negb]. rewrite (handler_some _ _ _ Hst), bind_ret. rewrite bool_decide_eq_true_2 by done. cbn [negb].
    cbv zeta in Hrun2. by rewrite Hrun, bind_ret, Hrun2, bind_ret.
  - left. split; [lia|].
    assert (exists s1, loop_ok s1 ts tp /\ loop_rel s s1
      /\ s1 = if bool_decide (st = idler_ready_on_next_iteration)
              then set_idlers s (put (idlers s) a idler_ready) else s) as (s1 & Hok1 & Hlr1 & Hs1).
    { case_bool_decide as Hst'; [|exists s; split_and!; [done|apply loop_rel_refl|done]].
      destruct (idlers_put_same s ts tp a st idler_ready Hok Hst ltac:(by subst)) as [? ?]. eexists. split_and!; [..|reflexivity]; done. }
    exists s1. split_and!; [done|done|]. intros.
    cbn [idler_loop]. rewrite Hin, Hget, bind_ret. unfold sol_mainloop_common_loop_check. rewrite Er.
    cbn [negb]. rewrite (handler_some _ _ _ Hst), bind_ret. rewrite (bool_decide_eq_false_2 (st = idler_ready)) by done.
    cbn [negb]. by rewrite <- Hs1.
Qed.

(** More fuel changes nothing. *)
Lemma timeout_loop_mono now fuel : forall i s s' fuel',
  timeout_loop now i fuel s = Ret (Some s') -> (fuel <= fuel')%nat ->
  timeout_loop now i fuel' s = Ret (Some s').
Proof.
  induction fuel as [|fuel IH]; intros i s s' fuel' Hrun Hle; [done|].
  destruct fuel' as [|fuel']; [lia|]. cbn [timeout_loop] in *.
  destruct (negb _); [done|].
  destruct (sol_ptr_vector_get _ _) as [a|]; [|done]. rewrite !bind_ret in *.
  destruct (negb _); [done|].
  destruct (deref _ _) as [t|]; [|done]. rewrite !bind_ret in *.
  destruct (t_remove_me t); [apply (IH _ _ _ _ Hrun); lia|].
  destruct (_ >? 0); [done|].
  destruct (callback _ _) as [[again s1]|]; [|done]. rewrite !bind_ret in *.
  destruct (deref _ _) as [t1|]; [|done]. rewrite !bind_ret in *.
  destruct (negb again); [apply (IH _ _ _ _ Hrun); lia|].
  destruct (sol_util_timespec_add _ _) as [e|]; [|done]. rewrite !bind_ret in *.
  destruct (sol_ptr_vector_update_sorted _ _ _) as [[r v]|]; [|done]. rewrite !bind_ret in *.
  destruct (r <? 0); [done|]. apply (IH _ _ _ _ Hrun). lia.
Qed.

Lemma timeout_process_mono fuel fuel' s s' :
  sol_mainloop_common_timeout_process fuel s = Ret (Some s') -> (fuel <= fuel')%nat ->
  sol_mainloop_common_timeout_process fuel' s = Ret (Some s').
Proof.
  unfold sol_mainloop_common_timeout_process. cbn [sol_util_timespec_get_current].
  intros Hrun Hle. destruct (timeout_loop _ 0 fuel _) as [[s1|]|] eqn:E; try done.
  by rewrite (timeout_loop_mono _ _ _ _ _ _ E Hle).
Qed.

Lemma idler_loop_ok tfuel fuel : forall i s ts,
  loop_ok s ts [] -> processing (idlers s) = true -> processing (timeouts s) = false ->
  0 <= i <= 65535 -> 65536 - i <= Z.of_nat fuel ->
  exists r, idler_loop tfuel i fuel s = Ret r
    /\ forall s', r = Some s' -> exists ts', loop_ok s' ts' [] /\ loop_rel s s'.
Proof.
  induction fuel as [|fuel IH]; intros i s ts Hok Hp Hpt Hi Hf; [lia|].
  assert (forall s1 ts1, i < 65535 -> loop_ok s1 ts1 [] -> loop_rel s s1 ->
    exists r, idler_loop tfuel (i + 1) fuel s1 = Ret r
      /\ forall s', r = Some s' -> exists ts', loop_ok s' ts' [] /\ loop_rel s s') as Hnext.
  { intros s1 ts1 Hi1 Hok1 Hrel1. destruct Hrel1 as [Hk [Hpt1 ?] [Hpi1 ?] ?].
    destruct (IH (i + 1) s1 ts1 Hok1) as (r & -> & Hr); [congruence|congruence|lia|lia|].
    exists r. split; [done|]. intros s' Hs. destruct (Hr s' Hs) as (ts' & ? & ?). exists ts'.
    split; [done|]. by eapply loop_rel_trans. }
  destruct (idler_round i s ts [] Hok Hp ltac:(lia)) as [Hrun|[(Hi1 & s1 & Hok1 & Hrel1 & Hrun)|(Hi1 & s1 & ts1 & Hok1 & Hrel1 & Hrun)]];
    rewrite Hrun.
  - eexists. split; [done|]. intros s' [= <-]. exists ts. split; [done|apply loop_rel_refl].
  - by eapply Hnext.
  - pose proof (lr_t _ _ Hrel1) as [Hpt1 _].
    destruct (timeout_process_ok tfuel s1 ts1 [] Hok1) as (r & -> & Hr & _); [congruence|]. rewrite bind_ret.
    destruct r as [s2|]; [|by exists None]. destruct (Hr s2 eq_refl) as (ts2 & l & Hsw).
    eapply Hnext; [done|apply Hsw|]. eapply loop_rel_trans; [done|apply Hsw].
Qed.

Lemma timeout_process_ends s ts tp : 0 < lo ->
  loop_ok s ts tp -> processing (timeouts s) = false ->
  exists k s' ts' l, swept (ticks s) s ts s' ts' l
    /\ forall fuel, (k <= fuel)%nat -> sol_mainloop_common_timeout_process fuel s = Ret (Some s').
Proof.
  intros Hl Hok Hp. set (k := Z.to_nat (Z.of_nat (size (objs (timeouts s))) * 65536 + 65536)).
  destruct (timeout_process_ok k s ts tp Hok Hp) as (r & Hrun & Hr & Hend).
  destruct r as [s'|]; [|by destruct Hend; [done|lia|]].
  destruct (Hr s' eq_refl) as (ts' & l & Hsw). exists k, s', ts', l. split; [done|].
  intros fuel Hle. by eapply timeout_process_mono.
Qed.

(** Every idler gets its turn and the walk ends. *)
Lemma idler_loop_ends fuel : 0 < lo -> forall i s ts,
  loop_ok s ts [] -> processing (idlers s) = true -> processing (timeouts s) = false ->
  0 <= i <= 65535 -> 65536 - i <= Z.of_nat fuel ->
  exists k s', forall tfuel, (k <= tfuel)%nat -> idler_loop tfuel i fuel s = Ret (Some s').
Proof.
  intros Hl. induction fuel as [|fuel IH]; intros i s ts Hok Hp Hpt Hi Hf; [lia|].
  destruct (idler_round i s ts [] Hok Hp ltac:(lia)) as [Hrun|[(Hi1 & s1 & Hok1 & Hrel1 & Hrun)|(Hi1 & s1 & ts1 & Hok1 & Hrel1 & Hrun)]].
  - exists 0%nat, s. intros. by rewrite Hrun.
  - pose proof (lr_t _ _ Hrel1) as [Hpt1 _]. pose proof (lr_i _ _ Hrel1) as [Hpi1 _].
    destruct (IH (i + 1) s1 ts Hok1) as (k & s' & Hk); [congruence|congruence|lia|lia|].
    exists k, s'. intros. rewrite Hrun. by apply Hk.
  - pose proof (lr_t _ _ Hrel1) as [Hpt1 _]. pose proof (lr_i _ _ Hrel1) as [Hpi1 _].
    destruct (timeout_process_ends s1 ts1 [] Hl Hok1) as (k1 & s2 & ts2 & l & Hsw & Hk1); [congruence|].
    pose proof (sw_rel _ _ _ _ _ _ Hsw) as Hrel2. pose proof (lr_t _ _ Hrel2) as [Hpt2 _].
    pose proof (lr_i _ _ Hrel2) as [Hpi2 _].
    destruct (IH (i + 1) s2 ts2 (sw_ok _ _ _ _ _ _ Hsw)) as (k2 & s' & Hk2); [congruence|congruence|lia|lia|].
    exists (max k1 k2), s'. intros tfuel Hle. rewrite Hrun, Hk1 by lia. rewrite bind_ret. apply Hk2. lia.
Qed.

Lemma idler_next_ok fuel : forall i s ts tp il ip,
  loop_ok s ts tp -> idlers_ok (idlers s) il ip -> 0 <= i -> i + Z.of_nat fuel <= blen (plist il ip) ->
  exists s', idler_next_iteration i fuel s = Ret s' /\ loop_ok s' ts tp /\ loop_rel s s'.
Proof.
  induction fuel as [|fuel IH]; intros i s ts tp il ip Hok Hq Hi Hf; cbn [idler_next_iteration].
  { exists s. split_and!; [done|done|apply loop_rel_refl]. }
  pose proof (process_rep _ _ _ _ _ Hq) as Hrep.
  destruct (at_pos_ex (plist il ip) i ltac:(lia)) as [a Ha].
  rewrite (get_no_check_spec _ _ _ _ Hrep Ha), bind_ret.
  destruct (plist_live _ _ _ _ _ a Hq) as [st Hst]; [by eapply at_pos_in|].
  rewrite (handler_some _ _ _ Hst), bind_ret. case_bool_decide as Hst'.
  - destruct (idlers_put_same s ts tp a st idler_ready Hok Hst ltac:(by subst)) as [Hok1 Hrel1].
    destruct (IH (i + 1) _ ts tp il ip Hok1) as (s' & Hs' & ? & ?); [|lia|lia|].
    + pose proof (queue_put_same idler_flagged (fun _ => tt) no_order _ _ _ _ _ idler_ready Hq Hst eq_refl) as Hput.
      apply Hput. by subst.
    + exists s'. split_and!; [done|done|by eapply loop_rel_trans].
  - destruct (IH (i + 1) s ts tp il ip Hok Hq) as (s' & ? & ? & ?); [lia|lia|]. by exists s'.
Qed.

(** The end of the processing of idlers. *)
Lemma idler_finish s ts :
  loop_ok s ts [] ->
  exists s', (s ← idler_next_iteration 0 (Z.to_nat (len (process_vector (idlers s)))) s;
      q ← sol_ptr_vector_update (idlers s);
      s ← idler_cleanup (set_idlers s q);
      Ret (Some (set_idlers s (set_processing (idlers s) false)))) = Ret (Some s')
    /\ loop_ok s' ts [] /\ processing (idlers s') = false /\ ticks s <= ticks s'
    /\ keeps t_remove_me timeout (timeouts s) (timeouts s')
    /\ keeps s_remove_me (fun _ => tt) (sources s) (sources s').
Proof.
  intros Hok. destruct (ok_i _ _ _ Hok) as (il & ip & Hq).
  rewrite (full_fuel _ (plist il ip)) by (by eapply process_rep).
  destruct (idler_next_ok (length (plist il ip)) 0 s ts [] il ip Hok Hq) as (s1 & -> & Hok1 & [Hk1 Ht1 _ Hs1]);
    [lia|unfold blen; lia|]. rewrite bind_ret.
  destruct (ok_i _ _ _ Hok1) as (il1 & ip1 & Hq1).
  destruct (vector_update_ok idler_flagged (idlers s1) il1 ip1 Hq1) as (q2 & il2 & -> & Hq2 & _ & _). rewrite bind_ret.
  destruct (cleanup_spec idler_flagged (fun _ => tt) no_order q2 il2 [] Hq2) as (freed & q3 & il3 & Hcl & Hq3 & _).
  unfold idler_cleanup. cbn [idlers set_idlers]. rewrite Hcl, !bind_ret.
  eexists. split; [done|]. split_and!; try done.
  destruct Hok1. split; [done| |done]. exists il3, []. by apply queue_stop.
Qed.

Lemma idler_process_ok tfuel s ts tp :
  loop_ok s ts tp -> processing (timeouts s) = false -> processing (idlers s) = false ->
  exists r, sol_mainloop_common_idler_process tfuel s = Ret r
    /\ forall s', r = Some s' -> exists ts', loop_ok s' ts' [] /\ loop_rel s s'.
Proof.
  intros Hok Hpt Hpi. pose proof (q_rest _ _ _ _ _ (proj1 (ok_t _ _ _ Hok)) Hpt) as ->.
  destruct (ok_i _ _ _ Hok) as (il & ip & Hq).
  destruct (queue_start idler_flagged no_order (idlers s) il ip ltac:(done) Hq Hpi) as (il0 & ip0 & Hq0 & _).
  unfold sol_mainloop_common_idler_process. set (s0 := set_idlers s _).
  assert (loop_ok s0 ts []) as Hok0 by (destruct Hok; split; [done|by exists il0, ip0|done]).
  destruct (idler_loop_ok tfuel walk_fuel 0 s0 ts Hok0) as (r & Hrun & Hr); [done|done|lia|by unfold walk_fuel; lia|].
  rewrite Hrun, bind_ret. destruct r as [s1|]; [|by exists None].
  destruct (Hr s1 eq_refl) as (ts1 & Hok1 & [Hk1 Ht1 _ Hs1]).
  destruct (idler_finish s1 ts1 Hok1) as (s2 & Hfin & Hok2 & Hp2 & Hk2 & Ht2 & Hs2).
  rewrite Hfin. eexists. split; [done|]. intros s' [= <-]. exists ts1. split; [done|]. split.
  - cbn in Hk1. lia.
  - by eapply (keeps_trans _ _ _ (timeouts s1)).
  - split; [congruence|]. congruence.
  - by eapply (keeps_trans _ _ _ (sources s1)).
Qed.

Lemma idler_process_ends s ts tp : 0 < lo ->
  loop_ok s ts tp -> processing (timeouts s) = false -> processing (idlers s) = false ->
  exists k s', forall tfuel, (k <= tfuel)%nat -> sol_mainloop_common_idler_process tfuel s = Ret (Some s').
Proof.
  intros Hl Hok Hpt Hpi. pose proof (q_rest _ _ _ _ _ (proj1 (ok_t _ _ _ Hok)) Hpt) as ->.
  destruct (ok_i _ _ _ Hok) as (il & ip & Hq).
  destruct (queue_start idler_flagged no_order (idlers s) il ip ltac:(done) Hq Hpi) as (il0 & ip0 & Hq0 & _).
  unfold sol_mainloop_common_idler_process. set (s0 := set_idlers s _).
  assert (loop_ok s0 ts []) as Hok0 by (destruct Hok; split; [done|by exists il0, ip0|done]).
  destruct (idler_loop_ends walk_fuel Hl 0 s0 ts Hok0) as (k & s1 & Hk); [done|done|lia|by unfold walk_fuel; lia|].
  destruct (idler_loop_ok k walk_fuel 0 s0 ts Hok0) as (r & Hrun & Hr); [done|done|lia|by unfold walk_fuel; lia|].
  rewrite Hk in Hrun by lia. injection Hrun as <-. destruct (Hr s1 eq_refl) as (ts1 & Hok1 & _).
  destruct (idler_finish s1 ts1 Hok1) as (s2 & Hfin & _). exists k, s2. intros tfuel Hle.
  by rewrite Hk, bind_ret.
Qed.

(** *** Processing sources *)

Lemma update_ready_ok s ts tp a f :
  loop_ok s ts tp -> is_Some (objs (sources s) !! a) ->
  exists r s', update_ready a f s = Ret (r, s') /\ loop_ok s' ts tp /\ loop_rel s s'.
Proof.
  intros Hok [o Ho]. unfold update_ready. rewrite (handler_some _ _ _ Ho), bind_ret.
  do 2 eexists. split; [done|]. destruct (ok_s _ _ _ Hok) as (sl & sp & Hq). split.
  - destruct Hok. split; [done|done|]. exists sl, sp.
    by eapply (queue_put_same s_remove_me (fun _ => tt) no_order).
  - split; cbn; [lia|apply keeps_refl|apply keeps_refl|]. split; [done|]. intros _.
    by eapply (grows_put s_remove_me (fun _ => tt) (sources s) a o).
Qed.

(** A source callback, after which the source is still there. *)
Lemma source_callback_ok e s ts tp a :
  loop_ok s ts tp -> processing (sources s) = true -> is_Some (objs (sources s) !! a) ->
  exists r s' ts', callback e s = Ret (r, s') /\ loop_ok s' ts' tp /\ loop_rel s s'
    /\ is_Some (objs (sources s') !! a).
Proof.
  intros Hok Hp [o Ho]. destruct (callback_ok e s ts tp Hok) as (r & s' & ts' & Hrun & Hok' & Hrel & _).
  apply calls_loop_rel in Hrel as [? ? ? [Hp' Hg]].
  exists r, s', ts'. split_and!; [done|done|by split|].
  destruct (Hg Hp a o Ho) as (o' & ? & _). by exists o'.
Qed.

(** Every timeout is left as it was. *)
Definition timeouts_kept (s s' : mainloop) : Prop :=
  forall a t, objs (timeouts s) !! a = Some t -> objs (timeouts s') !! a = Some t.

Lemma timeouts_kept_refl s : timeouts_kept s s.
Proof. by intros a t. Qed.

Lemma call_keeps_timeouts c s s' :
  call_ok c s -> deletes_timeout c = false -> run_call c s = Ret s' -> timeouts_kept s s'.
Proof.
  intros Hc Hd Hrun a t Ha. destruct c as [b ms|h|b|h|b ty|h|]; cbn [run_call] in Hrun; try discriminate Hd.
  - apply bind_Ret_inv in Hrun as ([r s1] & Hrun & [= <-]). unfold sol_mainloop_impl_timeout_add in Hrun.
    destruct (Z.eqb_spec b 0) as [->|Hb]; [by injection Hrun as _ <-|].
    destruct Hc as [[|[_ Hn]] _]; [done|]. cbn [sol_util_timespec_get_current] in Hrun.
    apply bind_Ret_inv in Hrun as (e & _ & Hrun). apply bind_Ret_inv in Hrun as ([ret v] & _ & Hrun).
    assert (b <> a) by (intros ->; congruence). destruct (ret <? 0).
    + apply bind_Ret_inv in Hrun as (q & Hq & [= _ <-]). unfold q_free in Hq.
      apply bind_Ret_inv in Hq as (? & _ & [= <-]). cbn. by rewrite lookup_delete_ne, lookup_insert_ne by done.
    + injection Hrun as _ <-. cbn. by rewrite lookup_insert_ne by done.
  - apply bind_Ret_inv in Hrun as ([r s1] & Hrun & [= <-]). unfold sol_mainloop_impl_idle_add in Hrun.
    destruct (b =? 0); [by injection Hrun as _ <-|]. apply bind_Ret_inv in Hrun as ([ret v] & _ & Hrun).
    destruct (negb (ret =? 0)); [apply bind_Ret_inv in Hrun as (? & _ & Hrun)|]; by injection Hrun as _ <-.
  - apply bind_Ret_inv in Hrun as ([r s1] & Hrun & [= <-]). unfold sol_mainloop_impl_idle_del in Hrun.
    apply bind_Ret_inv in Hrun as (i & _ & Hrun). case_bool_decide; [by injection Hrun as _ <-|].
    apply bind_Ret_inv in Hrun as (s2 & Hs2 & [= _ <-]). destruct (negb _); [|by injection Hs2 as <-].
    apply bind_Ret_inv in Hs2 as ([f q] & _ & [= <-]). done.
  - apply bind_Ret_inv in Hrun as ([r s1] & Hrun & [= <-]). unfold sol_mainloop_impl_source_add in Hrun.
    destruct (b =? 0); [by injection Hrun as _ <-|]. apply bind_Ret_inv in Hrun as ([ret v] & _ & Hrun).
    destruct (negb (ret =? 0)); [apply bind_Ret_inv in Hrun as (? & _ & Hrun)|]; by injection Hrun as _ <-.
  - unfold sol_mainloop_impl_source_del in Hrun. apply bind_Ret_inv in Hrun as (o & _ & Hrun).
    destruct (s_remove_me o); [by injection Hrun as <-|]. destruct (negb _); [|by injection Hrun as <-].
    apply bind_Ret_inv in Hrun as ([f q] & _ & [= <-]). cbn. by rewrite (proj1 (log_all_frame _ _)).
  - by injection Hrun as <-.
Qed.

Lemma calls_keep_timeouts cs : forall s s',
  calls_ok cs s -> Forall (fun c => deletes_timeout c = false) cs -> run_calls cs s = Ret s' -> timeouts_kept s s'.
Proof.
  induction cs as [|c cs IH]; intros s s' Hok Hall Hrun; [by injection Hrun as <-; intros ?|].
  destruct Hok as [Hc Hok]. apply Forall_cons in Hall as [Hd Hall].
  apply bind_Ret_inv in Hrun as (s1 & Hs1 & Hrun). intros a t Ha.
  apply (IH s1 s' (Hok s1 Hs1) Hall Hrun), (call_keeps_timeouts c s s1 Hc Hd Hs1), Ha.
Qed.

(** What a walk needs of its body; [inv] is an invariant of its result, and
    [still] tells walks that delete no timeout. *)
Definition unchanged (still : bool) (s s' : mainloop) : Prop := still = true -> timeouts_kept s s'.

Lemma unchanged_refl still s : unchanged still s s.
Proof. intros _. apply timeouts_kept_refl. Qed.

#[local] Hint Resolve unchanged_refl : core.

Definition body_ok {R} (inv : R -> Prop) (still : bool)
    (body : Z -> sol_mainloop_source_common -> R -> mainloop -> outcome (R * mainloop)) : Prop :=
  forall a o r s ts tp, loop_ok s ts tp -> processing (sources s) = true -> objs (sources s) !! a = Some o ->
    inv r ->
    exists r' s' ts', body a o r s = Ret (r', s') /\ loop_ok s' ts' tp /\ loop_rel s s'
      /\ inv r' /\ unchanged still s s'.

Definition any_result {R} (r : R) : Prop := True.

Lemma prepare_body_ok : body_ok any_result false prepare_body.
Proof.
  intros a o any s ts tp Hok Hp Ho _. assert (is_Some (objs (sources s) !! a)) as Hs by by exists o.
  unfold prepare_body. destruct (has_prepare _).
  - destruct (source_callback_ok (SourcePrepare a) s ts tp a Hok Hp Hs) as (r & s1 & ts1 & -> & Hok1 & Hrel1 & Hs1).
    rewrite bind_ret. destruct (update_ready_ok s1 ts1 tp a (fun _ => r) Hok1 Hs1) as (r' & s2 & -> & Hok2 & Hrel2).
    rewrite bind_ret. do 3 eexists. split_and!; [done|done|by eapply loop_rel_trans|done|done].
  - destruct (update_ready_ok s ts tp a (fun _ => false) Hok Hs) as (r' & s2 & -> & Hok2 & Hrel2).
    rewrite bind_ret. exists any, s2, ts. by split_and!.
Qed.

Lemma check_body_ok : body_ok any_result false check_body.
Proof.
  intros a o any s ts tp Hok Hp Ho _. assert (is_Some (objs (sources s) !! a)) as Hs by by exists o.
  unfold check_body.
  destruct (source_callback_ok (SourceCheck a) s ts tp a Hok Hp Hs) as (r & s1 & ts1 & -> & Hok1 & Hrel1 & Hs1).
  rewrite bind_ret. destruct (update_ready_ok s1 ts1 tp a (fun b => b || r) Hok1 Hs1) as (r' & s2 & -> & Hok2 & Hrel2).
  rewrite bind_ret. do 3 eexists. split_and!; [done|done|by eapply loop_rel_trans|done|done].
Qed.

Lemma dispatch_body_ok : body_ok any_result false dispatch_body.
Proof.
  intros a o any s ts tp Hok Hp Ho _. assert (is_Some (objs (sources s) !! a)) as Hs by by exists o.
  unfold dispatch_body. destruct (ready o); [|exists any, s, ts; split_and!; [done|done|apply loop_rel_refl|done|done]].
  destruct (source_callback_ok (SourceDispatch a) s ts tp a Hok Hp Hs) as (r & s1 & ts1 & -> & Hok1 & Hrel1 & Hs1).
  rewrite bind_ret. destruct (update_ready_ok s1 ts1 tp a (fun _ => false) Hok1 Hs1) as (r' & s2 & -> & Hok2 & Hrel2).
  rewrite bind_ret. do 3 eexists. split_and!; [done|done|by eapply loop_rel_trans|done|done].
Qed.

Lemma log_ok s e ts tp : loop_ok s ts tp -> loop_ok (log s e) ts tp /\ loop_rel s (log s e).
Proof. intros []. split; [done|]. split; [cbn; lia|apply keeps_refl..]. Qed.

(** A wait that was computed: normalised and not negative. *)
Definition wait_ok (best : option timespec) : Prop :=
  match best with Some t => normal t /\ 0 <= nanos t | None => True end.

Lemma clamp_wait t : normal t ->
  normal (clamp_timespec t) /\ nanos (clamp_timespec t) = Z.max 0 (nanos t).
Proof.
  intros Hn. unfold clamp_timespec. unfold_times.
  destruct (Z.ltb_spec (tv_sec t) 0); cbn; lia.
Qed.

Lemma next_timeout_body_ok : body_ok wait_ok true next_timeout_body.
Proof.
  intros a o best s ts tp Hok Hp Ho Hbest. unfold next_timeout_body.
  destruct (has_get_next_timeout _);
    [|exists best, s, ts; split_and!; [done|done|apply loop_rel_refl|done|done]].
  destruct (log_ok s (SourceNextTimeout a) ts tp Hok) as [Hok1 Hrel1]. cbv zeta. set (s1 := log s _) in *.
  destruct (proj2 Hcb a s1 (ex_intro _ ts (ex_intro _ tp Hok1))) as (Hcalls & Hdel & Hn).
  destruct (next_timeout_cb a s1) as [r cs]. cbn [fst snd] in *.
  destruct (run_calls_ok cs s1 ts tp Hok1 Hcalls) as (s2 & ts2 & Hrun & Hok2 & Hrel2%calls_loop_rel).
  assert (unchanged true s s2) as Hun by (intros _; exact (calls_keep_timeouts cs s1 s2 Hcalls Hdel Hrun)).
  pose proof (loop_rel_trans _ _ _ Hrel1 Hrel2) as Hrel. rewrite Hrun, bind_ret.
  destruct r as [cur|]; [|exists best, s2, ts2; by split_and!]. destruct (clamp_wait cur (Hn cur eq_refl)) as [? Hcl].
  destruct best as [t|]; (do 3 eexists; split_and!; [done|done|done| |done]);
    [destruct (_ <? _); [|done]|]; split; (done || lia).
Qed.

Section WalkProofs.
Context {R : Type} (inv : R -> Prop) (still : bool)
  (body : Z -> sol_mainloop_source_common -> R -> mainloop -> outcome (R * mainloop))
  (Hbody : body_ok inv still body) (stops : bool).

Lemma source_walk_ok fuel : forall i r s ts tp,
  loop_ok s ts tp -> processing (sources s) = true -> inv r ->
  0 <= i <= 65535 -> 65536 - i <= Z.of_nat fuel ->
  exists r' s' ts', source_walk body stops i fuel r s = Ret (r', s') /\ loop_ok s' ts' tp /\ loop_rel s s'
    /\ inv r' /\ unchanged still s s'.
Proof.
  induction fuel as [|fuel IH]; intros i r s ts tp Hok Hp Hinv Hi Hf; [lia|]. cbn [source_walk].
  destruct (ok_s _ _ _ Hok) as (sl & sp & Hq).
  pose proof (process_rep _ _ _ _ _ Hq) as Hrep. pose proof (ptr_rep_len _ _ Hrep) as [Hlen Hmax].
  unfold UINT16_MAX in Hmax. rewrite Hlen.
  assert (exists r' s' ts', Ret (r, s) = Ret (r', s') /\ loop_ok s' ts' tp /\ loop_rel s s'
    /\ inv r' /\ unchanged still s s') as Hstop
    by (exists r, s, ts; split_and!; [done|done|apply loop_rel_refl|done|done]).
  destruct (Z.ltb_spec i (blen (plist sl sp))) as [Hlt|Hge]; cbn [negb]; [|done].
  destruct (at_pos_ex (plist sl sp) i ltac:(lia)) as [a Ha].
  rewrite (get_no_check_spec _ _ _ _ Hrep Ha), bind_ret.
  destruct (stops && negb (sol_mainloop_common_loop_check s)); [done|].
  destruct (plist_live _ _ _ _ _ a Hq) as [o Ho]; [by eapply at_pos_in|].
  rewrite (handler_some _ _ _ Ho), bind_ret.
  assert (exists r1 s1 ts1, (if s_remove_me o then Ret (r, s) else body a o r s) = Ret (r1, s1)
    /\ loop_ok s1 ts1 tp /\ loop_rel s s1 /\ inv r1 /\ unchanged still s s1)
    as (r1 & s1 & ts1 & -> & Hok1 & Hrel1 & Hinv1 & Hun1).
  { destruct (s_remove_me o); [done|exact (Hbody a o r s ts tp Hok Hp Ho Hinv)]. }
  rewrite bind_ret. pose proof (lr_s _ _ Hrel1) as [Hp1 _].
  destruct (IH (i + 1) r1 s1 ts1 tp Hok1) as (r' & s' & ts' & -> & ? & ? & ? & Hun); [congruence|done|lia|lia|].
  exists r', s', ts'. split_and!; [done|done|by eapply loop_rel_trans|done|].
  intros Hs b t Hb. by apply (Hun Hs), (Hun1 Hs).
Qed.

Lemma source_process_ok r s ts tp :
  loop_ok s ts tp -> processing (sources s) = false -> inv r ->
  exists r' s' ts', source_process body stops r s = Ret (r', s') /\ loop_ok s' ts' tp /\ loop_rel s s'
    /\ inv r' /\ unchanged still s s'.
Proof.
  intros Hok Hp Hinv. destruct (ok_s _ _ _ Hok) as (sl & sp & Hq).
  destruct (queue_start s_remove_me no_order (sources s) sl sp ltac:(done) Hq Hp) as (sl0 & sp0 & Hq0 & _).
  unfold source_process. set (s0 := set_sources s _).
  assert (loop_ok s0 ts tp) as Hok0 by (destruct Hok; split; [done|done|by exists sl0, sp0]).
  destruct (source_walk_ok walk_fuel 0 r s0 ts tp Hok0) as (r1 & s1 & ts1 & -> & Hok1 & Hrel1 & Hinv1 & Hun);
    [done|done|lia|by unfold walk_fuel; lia|]. rewrite bind_ret.
  destruct (ok_s _ _ _ Hok1) as (sl1 & sp1 & Hq1).
  destruct (vector_update_ok s_remove_me (sources s1) sl1 sp1 Hq1) as (q2 & sl2 & -> & Hq2 & _ & _). rewrite bind_ret.
  destruct (cleanup_spec s_remove_me (fun _ => tt) no_order q2 sl2 [] Hq2) as (freed & q3 & sl3 & Hcl & Hq3 & _).
  unfold source_cleanup. cbn [sources set_sources]. rewrite Hcl, !bind_ret.
  destruct (log_all_frame (disposed q2 freed) (set_sources s1 q2)) as (Ht & Hi & _ & Hk & _).
  do 3 eexists. split; [done|]. split_and!.
  - destruct Hok1 as [? ? _]. split; cbn; [by rewrite Ht|by rewrite Hi|]. exists sl3, []. by apply queue_stop.
  - destruct Hrel1 as [Hk1 Ht1 Hi1 _]. split; cbn; [cbn in Hk1; rewrite Hk; done|by rewrite Ht|by rewrite Hi|].
    split; [done|congruence].
  - done.
  - intros Hs b t Hb. cbn. rewrite Ht. by apply (Hun Hs).
Qed.
End WalkProofs.

(** *** The next wake-up *)

Lemma first_from_ok {A} flagged ordered (q : queue A) ps pr test fuel : forall i,
  queue_ok flagged ordered q ps pr -> (i + fuel)%nat = length ps ->
  exists r, first_from q test (Z.of_nat i) fuel = Ret r
    /\ match r with
       | Some a => exists j o, (i <= j)%nat /\ ps !! j = Some a /\ objs q !! a = Some o /\ test o = true
           /\ forall k b ob, (i <= k < j)%nat -> ps !! k = Some b -> objs q !! b = Some ob -> test ob = false
       | None => forall k b ob, (i <= k)%nat -> ps !! k = Some b -> objs q !! b = Some ob -> test ob = false
       end.
Proof.
  induction fuel as [|fuel IH]; intros i Hq Hi; cbn [first_from].
  { exists None. split; [done|]. intros k b ob Hk Hb%lookup_lt_Some. lia. }
  destruct (lookup_lt_is_Some_2 ps i ltac:(lia)) as [a Ha].
  rewrite (get_no_check_spec _ _ _ a (q_acum _ _ _ _ _ Hq)) by (split; [lia|by rewrite Nat2Z.id]).
  rewrite bind_ret. destruct (q_live _ _ _ _ _ Hq a) as [o Ho].
  { apply elem_of_app. left. by eapply list_elem_of_lookup_2. }
  rewrite (handler_some _ _ _ Ho), bind_ret. destruct (test o) eqn:Et.
  - eexists. split; [done|]. exists i, o. split_and!; try done. intros. lia.
  - destruct (IH (S i) Hq ltac:(lia)) as (r & Hrun & Hr).
    replace (Z.of_nat i + 1) with (Z.of_nat (S i)) by lia. exists r. split; [done|].
    assert (forall k b ob, (i <= k)%nat -> ~ (S i <= k)%nat -> ps !! k = Some b -> objs q !! b = Some ob -> test ob = false) as Hat.
    { intros k b ob ? ? Hb Hob. assert (k = i) as -> by lia. congruence. }
    destruct r as [b|].
    + destruct Hr as (j & ob & ? & ? & ? & ? & Hbef). exists j, ob. split_and!; try done; [lia|].
      intros k c oc Hk Hc Hoc. destruct (decide (S i <= k)%nat); [eapply Hbef; [|done|done]; lia|].
      eapply Hat; [|done|done|done]. lia.
    + intros k c oc Hk Hc Hoc. destruct (decide (S i <= k)%nat); [by eapply Hr|by eapply Hat].
Qed.

Definition operation_ok (op : operation) (s : mainloop) : Prop :=
  match op with OpCall c => call_ok c s | _ => True end.

Fixpoint operations_ok (ops : list operation) (s : mainloop) : Prop :=
  match ops with
  | [] => True
  | op :: ops => operation_ok op s
      /\ forall fuel s', run_operation fuel op s = Ret (Some s') -> operations_ok ops s'
  end.

(** The next wake-up is computed without touching a timeout, and it is no
    later than any of those there were. *)
Lemma timespec_first_ok s ts tp :
  loop_ok s ts tp -> processing (sources s) = false ->
  exists r s' ts', sol_mainloop_common_timespec_first s = Ret (r, s') /\ loop_ok s' ts' tp /\ loop_rel s s' /\ timeouts_kept s s'
    /\ forall a t, a ∈ ts -> objs (timeouts s) !! a = Some t -> t_remove_me t = false ->
         exists d, r = Some d
           /\ 0 <= nanos d <= Z.max 0 (nanos (expire t) - nanos (clock (ticks s))).
Proof.
  intros Hok Hp. unfold sol_mainloop_common_timespec_first, sol_mainloop_common_timeout_first.
  pose proof (ok_t _ _ _ Hok) as [Hq Htimes].
  rewrite (full_fuel _ ts) by apply Hq.
  destruct (first_from_ok _ _ _ _ _ (fun t => negb (t_remove_me t)) (length ts) 0 Hq) as (f & Hfrun & Hf); [lia|].
  change (Z.of_nat 0) with 0 in Hfrun. rewrite Hfrun, bind_ret.
  destruct (source_process_ok wait_ok true _ next_timeout_body_ok false None s ts tp Hok Hp I)
    as (best & s1 & ts1 & Hrun & Hok1 & Hrel1 & Hbest & Hun).
  unfold sol_mainloop_common_source_get_next_timeout. rewrite Hrun, bind_ret. specialize (Hun eq_refl).
  destruct f as [a|].
  2:{ exists best, s1, ts1. split_and!; try done. intros a t [j Hj]%list_elem_of_lookup Ht Hfl.
      specialize (Hf j a t ltac:(lia) Hj Ht). by rewrite Hfl in Hf. }
  destruct Hf as (j & t & _ & Hj & Ht & Hfl & Hbef). cbn [sol_util_timespec_get_current].
  change (timeouts (tick s1)) with (timeouts s1). rewrite (handler_some _ _ _ (Hun a t Ht)), bind_ret.
  pose proof (clock_mono (ticks s) (ticks s1) (lr_ticks _ _ Hrel1)) as Hlater.
  pose proof (time_normal t (Htimes a t Ht)) as Hnt. pose proof (clock_normal (ticks s1)) as Hnc.
  destruct (timespec_sub_spec _ _ Hnt Hnc) as (diff & -> & Hdiff & Hdn). rewrite bind_ret.
  assert (normal diff) as Hnd.
  { pose proof (Htimes a t Ht) as (_ & _ & ? & ? & _). pose proof (clock_range (ticks s1)). unfold_times. lia. }
  destruct (clamp_wait diff Hnd) as [Hnc' Hcl].
  exists (match best with
          | Some ts' => if sol_util_timespec_compare diff ts' <? 0 then Some (clamp_timespec diff) else Some ts'
          | None => Some (clamp_timespec diff) end), (tick s1), ts1.
  split_and!; [done|by destruct Hok1|destruct Hrel1; split; cbn; [lia|done..]|done|].
  intros b tb Hb Htb Hflb.
  assert (nanos (expire t) <= nanos (expire tb)) as Hle.
  { apply list_elem_of_lookup in Hb as [k Hk].
    destruct (decide (k < j)%nat) as [Hkj|Hkj].
    { specialize (Hbef k b tb ltac:(lia) Hk Htb). by rewrite Hflb in Hbef. }
    destruct (q_order _ _ _ _ _ Hq) as [Hs _].
    destruct (decide (k = j)) as [->|]; [rewrite Hj in Hk; injection Hk as <-; rewrite Ht in Htb; by injection Htb as <-|].
    specialize (Hs (Z.of_nat j) (Z.of_nat k) a b ltac:(lia) ltac:(split; [lia|by rewrite Nat2Z.id])
      ltac:(split; [lia|by rewrite Nat2Z.id])).
    unfold timeout_compare, expire_of in Hs. rewrite Ht, Htb in Hs.
    rewrite compare_nanos in Hs by (done || apply time_normal, (Htimes b tb Htb)).
    destruct (Z.ltb_spec (nanos (expire t)) (nanos (expire tb))); [lia|].
    destruct (Z.eqb_spec (nanos (expire t)) (nanos (expire tb))); lia. }
  destruct best as [w|]; [|eexists; split; [done|lia]]. destruct Hbest as [Hnw Hw].
  rewrite compare_nanos by done.
  destruct (Z.ltb_spec (nanos diff) (nanos w)); [eexists; split; [done|lia]|].
  destruct (Z.eqb_spec (nanos diff) (nanos w)); eexists; (split; [done|lia]).
Qed.
(** *** Whole runs *)

Lemma run_operation_ok fuel op s :
  wf s -> at_rest s -> operation_ok op s ->
  exists r, run_operation fuel op s = Ret r /\ forall s', r = Some s' -> wf s' /\ at_rest s'.
Proof.
  intros (ts & tp & Hok) (Hpt & Hpi & Hps) Hop.
  assert (forall s' ts' tp', loop_ok s' ts' tp' -> loop_rel s s' -> wf s' /\ at_rest s') as Hend.
  { intros s' ts' tp' Hok' [_ [Ht _] [Hi _] [Hs _]]. split; [by exists ts', tp'|].
    unfold at_rest. by rewrite Ht, Hi, Hs. }
  destruct op; cbn [run_operation].
  - destruct (run_call_ok c s ts tp Hok Hop) as (s' & ts' & -> & Hok' & Hrel%calls_loop_rel).
    eexists. split; [done|]. intros ? [= <-]. by eapply Hend.
  - destruct (timeout_process_ok fuel s ts tp Hok Hpt) as (r & -> & Hr & _). exists r. split; [done|].
    intros s' Hs. destruct (Hr s' Hs) as (ts' & l & Hsw). eapply Hend; apply Hsw.
  - destruct (idler_process_ok fuel s ts tp Hok Hpt Hpi) as (r & -> & Hr). exists r. split; [done|].
    intros s' Hs. destruct (Hr s' Hs) as (ts' & ? & ?). by eapply Hend.
  - destruct (source_process_ok any_result false _ prepare_body_ok true false s ts tp Hok Hps I) as (r & s' & ts' & Hrun & ? & ? & _).
    unfold sol_mainloop_common_source_prepare. rewrite Hrun, bind_ret.
    eexists. split; [done|]. intros ? [= <-]. by eapply Hend.
  - destruct (source_process_ok any_result false _ check_body_ok true false s ts tp Hok Hps I) as (r & s' & ts' & Hrun & ? & ? & _).
    unfold sol_mainloop_common_source_check. rewrite Hrun, bind_ret.
    eexists. split; [done|]. intros ? [= <-]. by eapply Hend.
  - destruct (source_process_ok any_result false _ dispatch_body_ok true false s ts tp Hok Hps I) as (r & s' & ts' & Hrun & ? & ? & _).
    unfold sol_mainloop_common_source_dispatch. rewrite Hrun, !bind_ret.
    eexists. split; [done|]. intros ? [= <-]. by eapply Hend.
  - destruct (timespec_first_ok s ts tp Hok Hps) as (r & s' & ts' & -> & ? & ? & _). rewrite bind_ret.
    eexists. split; [done|]. intros ? [= <-]. by eapply Hend.
Qed.

Lemma run_operation_ends op s : 0 < lo ->
  wf s -> at_rest s -> operation_ok op s ->
  exists k s', forall fuel, (k <= fuel)%nat -> run_operation fuel op s = Ret (Some s').
Proof.
  intros Hl Hwf Hrest Hop.
  assert ((forall fuel, run_operation fuel op s = run_operation 0 op s) -> run_operation 0 op s <> Ret None ->
    exists k s', forall fuel, (k <= fuel)%nat -> run_operation fuel op s = Ret (Some s')) as Heasy.
  { intros Hsame Hsome. destruct (run_operation_ok 0 op s Hwf Hrest Hop) as ([s'|] & Hrun & _); [|done].
    exists 0%nat, s'. intros. by rewrite Hsame. }
  destruct Hwf as (ts & tp & Hok), Hrest as (Hpt & Hpi & Hps).
  destruct op; cbn [run_operation] in *.
  2:{ destruct (timeout_process_ends s ts tp Hl Hok Hpt) as (k & s' & ts' & l & _ & Hk). by exists k, s'. }
  2:{ by eapply idler_process_ends. }
  all: apply Heasy; [reflexivity|]; intros Hn; apply bind_Ret_inv in Hn as (x & _ & Hn);
    first [discriminate Hn | destruct x; discriminate Hn].
Qed.

Lemma run_operations_ok ops : forall s,
  wf s -> at_rest s -> operations_ok ops s ->
  (forall fuel, exists r, run_operations fuel ops s = Ret r /\ forall s', r = Some s' -> wf s' /\ at_rest s')
  /\ (0 < lo -> exists k, forall fuel, (k <= fuel)%nat -> exists s', run_operations fuel ops s = Ret (Some s')).
Proof.
  induction ops as [|op ops IH]; intros s Hwf Hrest Hops; cbn [run_operations].
  { split; [|intros _; exists 0%nat; eauto]. intros _. eexists. split; [done|]. by intros ? [= <-]. }
  destruct Hops as [Hop Hops]. split.
  - intros fuel. destruct (run_operation_ok fuel op s Hwf Hrest Hop) as (r & Hrun & Hr).
    rewrite Hrun, bind_ret. destruct r as [s1|]; [|by exists None].
    destruct (Hr s1 eq_refl). by apply IH; [..|eapply Hops].
  - intros Hl. destruct (run_operation_ends op s Hl Hwf Hrest Hop) as (k1 & s1 & Hk1).
    destruct (run_operation_ok k1 op s Hwf Hrest Hop) as (r & Hrun & Hr).
    rewrite Hk1 in Hrun by done. injection Hrun as <-. destruct (Hr s1 eq_refl) as [Hwf1 Hrest1].
    destruct (IH s1 Hwf1 Hrest1 (Hops k1 s1 (Hk1 k1 (le_n k1)))) as [_ Hend]. destruct (Hend Hl) as [k2 Hk2].
    exists (max k1 k2). intros fuel Hle. destruct (Hk2 fuel ltac:(lia)) as (s' & Hs').
    exists s'. rewrite Hk1 by lia. by rewrite bind_ret.
Qed.

(** *** Shutting down *)

Lemma free_handlers_ok {A} fuel : forall (q : queue A) ps i,
  ptr_rep (acum q) ps -> NoDup ps -> (forall a, a ∈ drop i ps -> is_Some (objs q !! a)) ->
  (i + fuel)%nat = length ps ->
  exists q', free_handlers q (Z.of_nat i) fuel = Ret q' /\ ptr_rep (acum q') []
    /\ forall a, objs q' !! a = if decide (a ∈ drop i ps) then None else objs q !! a.
Proof.
  induction fuel as [|fuel IH]; intros q ps i Hrep Hnd Hlive Hi; cbn [free_handlers].
  { eexists. split; [done|]. split; [cbn; by eapply ptr_clear_rep|]. intros a.
    rewrite drop_ge by lia. by rewrite decide_False by apply not_elem_of_nil. }
  destruct (lookup_lt_is_Some_2 ps i ltac:(lia)) as [a Ha].
  rewrite (get_no_check_spec _ ps _ a Hrep) by (split; [lia|by rewrite Nat2Z.id]). rewrite bind_ret.
  pose proof (drop_S ps a i Ha) as Hdrop.
  destruct (Hlive a) as [o Ho]; [rewrite Hdrop; by left|].
  assert (a ∉ drop (S i) ps) as Hni.
  { rewrite <- (take_drop i ps), Hdrop in Hnd. apply NoDup_app in Hnd as (_ & _ & Hnd). by apply NoDup_cons in Hnd as [? _]. }
  unfold q_free. rewrite (handler_some _ _ _ Ho), !bind_ret. replace (Z.of_nat i + 1) with (Z.of_nat (S i)) by lia.
  destruct (IH (set_objs q (delete a (objs q))) ps (S i) Hrep Hnd) as (q' & -> & Hrep' & Hobjs); [|lia|].
  { intros b Hb. cbn. rewrite lookup_delete_ne by (intros ->; done). apply Hlive. rewrite Hdrop. by right. }
  exists q'. split_and!; [done|done|]. intros b. rewrite Hobjs. cbn.
  destruct (decide (a = b)) as [<-|Hab].
  - rewrite decide_False by done. rewrite lookup_delete_eq, decide_True; [done|]. rewrite Hdrop. by left.
  - rewrite lookup_delete_ne by done.
    destruct (decide (b ∈ drop (S i) ps)); [rewrite decide_True; [done|rewrite Hdrop; by right]|].
    rewrite decide_False; [done|]. rewrite Hdrop. by intros [->|]%elem_of_cons.
Qed.

Lemma free_queue_ok {A} flagged ordered (q : queue A) ps :
  queue_ok flagged ordered q ps [] ->
  exists q', free_queue q = Ret q' /\ ptr_rep (acum q') []
    /\ forall a, objs q' !! a = if decide (a ∈ ps) then None else objs q !! a.
Proof.
  intros Hq. unfold free_queue. rewrite (full_fuel _ ps) by apply Hq.
  pose proof (q_nodup _ _ _ _ _ Hq) as Hnd. rewrite app_nil_r in Hnd.
  destruct (free_handlers_ok (length ps) q ps 0) as (q' & Hrun & Hrep & Hobjs); [apply Hq|done| |done|].
  - intros a Ha. apply Hq. rewrite app_nil_r. done.
  - change (Z.of_nat 0) with 0 in Hrun. exists q'. split_and!; [done|done|]. intros a. by rewrite Hobjs, drop_0.
Qed.
End Run.
End Inv.

(** ** Two periodic timeouts of 0 ms

    Each time one fires it is placed after the other, which is equally due,
    so the index stays at 0 and the loop has no end. *)

Definition zero_timeout : sol_timeout_common :=
  {| timeout := {| tv_sec := 0; tv_nsec := 0 |}; expire := {| tv_sec := 5; tv_nsec := 0 |};
     t_remove_me := false |}.

Definition spinning (swapped : bool) (tr : list event) : mainloop :=
  {| run_loop := true;
     timeouts := {|
       acum := {| base := {| Vector.data := Some (if swapped then ptr_bytes 96 ++ ptr_bytes 64
                                           else ptr_bytes 64 ++ ptr_bytes 96);
                             Vector.len := 2; Vector.elem_size := 8 |} |};
       proc := sol_ptr_vector_init; objs := <[96 := zero_timeout]> (<[64 := zero_timeout]> ∅);
       pending := 0; processing := true |};
     idlers := empty_queue (H := gcc5); sources := empty_queue (H := gcc5); ticks := 3; trace := tr |}.

Lemma spinning_round sw tr fuel :
  timeout_loop (H := gcc5) (H0 := roomy) (H1 := quiet false) {| tv_sec := 5; tv_nsec := 0 |} 0 (S fuel) (spinning sw tr)
  = timeout_loop (H := gcc5) (H0 := roomy) (H1 := quiet false) {| tv_sec := 5; tv_nsec := 0 |} 0 fuel
      (spinning (negb sw)
        (tr ++ [TimeoutCb (if sw then 96 else 64) {| tv_sec := 5; tv_nsec := 0 |} {| tv_sec := 5; tv_nsec := 0 |}])).
Proof.
  cbn [timeout_loop]. generalize (timeout_loop (H := gcc5) (H0 := roomy) (H1 := quiet false) {| tv_sec := 5; tv_nsec := 0 |}).
  intros loop. destruct sw; vm_compute; reflexivity.
Qed.

(** Finding: processing never ends, whatever the number of rounds. *)
Lemma zero_timeouts_never_end fuel :
  match two_zero_timeouts with
  | Ret s => sol_mainloop_common_timeout_process (H := gcc5) (H0 := roomy) (H1 := quiet false) fuel s = Ret None
  | UB => False
  end.
Proof.
  assert (forall fuel sw tr, timeout_loop (H := gcc5) (H0 := roomy) (H1 := quiet false)
            {| tv_sec := 5; tv_nsec := 0 |} 0 fuel (spinning sw tr) = Ret None) as Hspin.
  { clear fuel. intros fuel. induction fuel as [|fuel IH]; intros sw tr; [done|].
    rewrite spinning_round. apply IH. }
  assert (two_zero_timeouts = Ret (set_timeouts {| run_loop := true; timeouts := empty_queue (H := gcc5);
     idlers := empty_queue (H := gcc5); sources := empty_queue (H := gcc5); ticks := 2; trace := [] |}
     (set_processing (timeouts (spinning false [])) false))) as -> by (vm_compute; reflexivity).
  unfold sol_mainloop_common_timeout_process. cbn [sol_util_timespec_get_current].
  match goal with |- context [timeout_loop ?now 0 fuel ?s] =>
    change (timeout_loop now 0 fuel s) with
      (timeout_loop (H := gcc5) (H0 := roomy) (H1 := quiet false) {| tv_sec := 5; tv_nsec := 0 |} 0 fuel (spinning false [])) end.
  by rewrite Hspin.
Qed.

(** Finding: a source that deletes the first timeout while it tells its own.
    The pointer to it is used after it was freed. *)
Definition deletes_first : Env := {|
  threads := false; clock := fun _ => {| tv_sec := 5; tv_nsec := 0 |};
  run_cb := fun _ _ => (true, []);
  next_timeout_cb := fun _ _ => (None, [TimeoutDel 64]) |}.

Lemma deleting_the_first_timeout_is_undefined :
  let asking := {| has_prepare := false; has_get_next_timeout := true; has_dispose := false |} in
  match run_calls (H := gcc5) (H0 := roomy) (H1 := deletes_first)
      [TimeoutAdd 64 10; TimeoutAdd 96 20; SourceAdd 128 asking] (idle_loop (H := gcc5)) with
  | Ret s => sol_mainloop_common_timespec_first (H := gcc5) (H0 := roomy) (H1 := deletes_first) s = UB
  | UB => False
  end.
Proof. by vm_compute. Qed.

(** ** The properties *)

Section Properties.
Context `{BuildConfig} `{Allocator} `{Env} `{!Clock} (lo : Z).


(** C16: processing timeouts.  With positive intervals the loop ends; it calls
    no timeout twice, only ones that were due and not deleted, in the order
    they were due; and afterwards no timeout that is left is due, unless the
    loop was told to stop or storage ran out and a timeout was lost. *)
Theorem timeouts_fire_once_in_order s ts :
  0 < lo -> well_behaved lo -> loop_ok lo s ts [] -> processing (timeouts s) = false ->
  let n := ticks s in
  exists k s' ts' l,
    (forall fuel, (k <= fuel)%nat -> sol_mainloop_common_timeout_process fuel s = Ret (Some s'))
    /\ loop_ok lo s' ts' [] /\ processing (timeouts s') = false
    /\ traces s l s' /\ NoDup l.*1
    /\ (forall a, a ∈ l.*1 -> due_at n s a)
    /\ Forall (fun x => nanos x.2 <= nanos (clock n)) l
    /\ (forall d, (forall a, a ∈ ts -> d <= nanos (expire_of (objs (timeouts s)) a)) -> in_order d l)
    /\ (run_loop s' = false \/ lost s' ts' [] \/ forall a, a ∈ ts' -> ~ due_at n s' a).
Proof.
  intros Hl Hcb Hok Hp n.
  destruct (timeout_process_ends lo ltac:(lia) Hcb s ts [] Hl Hok Hp) as (k & s' & ts' & l & Hsw & Hk).
  destruct Hsw as [Hok' Hrel Htr Hord Hpast Hfired Hdone]. destruct (Hfired Hl).
  exists k, s', ts', l. split_and!; try done; [|by apply Hdone].
  by rewrite (processing_kept _ _ Hrel).
Qed.


(** Deleting.  A cleanup frees marked handlers of its vector only, takes
    exactly them out of the vector, leaves every other handler as it is, and
    as long as the counter of marked handlers did not overflow none is left. *)
Theorem cleanup_frees_marked {A K} (flagged : A -> bool) (key : A -> K) ordered
    `{!Order key ordered} (q : queue A) ps pr :
  queue_ok flagged ordered q ps pr ->
  exists freed q' ps', cleanup flagged q = Ret (freed, q')
    /\ queue_ok flagged ordered q' ps' pr
    /\ (forall a, a ∈ ps' <-> a ∈ ps /\ a ∉ freed)
    /\ (forall a, a ∈ freed -> objs q' !! a = None /\ exists o, objs q !! a = Some o /\ flagged o = true)
    /\ (forall a, a ∉ freed -> objs q' !! a = objs q !! a)
    /\ (marked flagged (objs q) < 2 ^ 32 ->
        forall a o, a ∈ ps' -> objs q' !! a = Some o -> flagged o = false).
Proof.
  intros Hq. destruct (cleanup_spec flagged key ordered q ps pr Hq)
    as (freed & q' & ps' & Hrun & Hq' & Hps & Hfr & Hun & _ & _ & Hclean).
  exists freed, q', ps'. split_and!; try done. intros a Ha. by destruct (Hfr a Ha) as (_ & ? & ?).
Qed.

(** Shutting down frees every timeout and idler the vectors hold, once. *)
Theorem shutdown_frees_all s ts tp :
  loop_ok lo s ts tp -> at_rest s ->
  exists s' il, sol_mainloop_impl_shutdown s = Ret s'
    /\ ptr_rep (acum (timeouts s')) [] /\ ptr_rep (acum (idlers s')) []
    /\ (forall a, objs (timeouts s') !! a = if decide (a ∈ ts) then None else objs (timeouts s) !! a)
    /\ idlers_ok (idlers s) il []
    /\ (forall a, objs (idlers s') !! a = if decide (a ∈ il) then None else objs (idlers s) !! a).
Proof.
  intros Hok (Hpt & Hpi & _). pose proof (q_rest _ _ _ _ _ (proj1 (ok_t _ _ _ _ Hok)) Hpt) as ->.
  destruct (ok_i _ _ _ _ Hok) as (il & ip & Hq). pose proof (q_rest _ _ _ _ _ Hq Hpi) as ->.
  destruct (free_queue_ok _ _ _ _ (proj1 (ok_t _ _ _ _ Hok))) as (qt & Ht & Hrt & Hot).
  destruct (free_queue_ok _ _ _ _ Hq) as (qi & Hi & Hri & Hoi).
  unfold sol_mainloop_impl_shutdown. rewrite Ht, bind_ret, Hi, bind_ret.
  eexists _, il. by split_and!.
Qed.
End Properties.

(** *** Witnesses *)

(** Timeouts that delete themselves when they are called. *)
Definition self_deleting : Env := {|
  threads := true; clock := fun _ => {| tv_sec := 5; tv_nsec := 0 |};
  run_cb := fun e s => (true, match e with
    | TimeoutCb a _ _ => match objs (timeouts s) !! a with Some _ => [TimeoutDel a] | None => [] end
    | _ => [] end);
  next_timeout_cb := fun _ _ => (Some {| tv_sec := 3; tv_nsec := 0 |}, [SourceAdd 0 {| has_prepare := true; has_get_next_timeout := false; has_dispose := false |}]) |}.

#[local] Existing Instances gcc5 roomy self_deleting.

#[local] Instance self_deleting_clock : Clock.
Proof. by split. Qed.

Lemma self_deleting_ok lo : well_behaved lo.
Proof.
  split; [|intros ? ? _; split_and!; [split; [by left|done]|by repeat constructor|by intros ? [= <-]]].
  intros e s _. cbn. destruct e; try exact I.
  destruct (objs (timeouts s) !! a) as [t|] eqn:E; [|exact I]. split; [|done]. by exists t.
Qed.

Lemma idle_loop_ok lo : loop_ok lo idle_loop [] [].
Proof.
  assert (forall A flagged (ordered : gmap Z A -> list Z -> Prop), (forall m, ordered m []) ->
    queue_ok flagged ordered empty_queue [] []) as Hempty.
  { intros A flagged ordered Hn. split; cbn; try done; try apply ptr_rep_init.
    - constructor.
    - by intros a ?%not_elem_of_nil. }
  split; [split; [apply Hempty; intros; apply sorted_by_nil|done]|exists [], []; by apply Hempty..].
Qed.

Definition demo_calls : list call :=
  [TimeoutAdd 64 10; TimeoutAdd 96 20; TimeoutAdd 128 1; IdleAdd 32; TimeoutDel 64].

(** A started loop: calls made on an idle one. *)
Definition demo : mainloop :=
  match run_calls demo_calls idle_loop with Ret s => s | UB => idle_loop end.

Lemma calls_ok_step lo c cs s :
  call_ok lo c s -> match run_call c s with Ret s' => calls_ok lo cs s' | UB => True end ->
  calls_ok lo (c :: cs) s.
Proof. intros Hc Hr. split; [done|]. intros s' Hs. by rewrite Hs in Hr. Qed.

Lemma demo_calls_ok : calls_ok 1 demo_calls idle_loop.
Proof.
  unfold demo_calls.
  do 3 (apply calls_ok_step; [split; [right; split; [done|reflexivity]|lia]|];
    match goal with |- context [run_call ?c ?s] => let r := eval vm_compute in (run_call c s) in
      change (run_call c s) with r end; cbv iota).
  apply calls_ok_step; [right; split; [done|reflexivity]|].
  match goal with |- context [run_call ?c ?s] => let r := eval vm_compute in (run_call c s) in
      change (run_call c s) with r end; cbv iota.
  split; [by eexists|done].
Qed.

Lemma demo_ok : exists ts, loop_ok 1 demo ts [].
Proof.
  destruct (run_calls_ok 1 ltac:(lia) demo_calls idle_loop [] [] (idle_loop_ok 1) demo_calls_ok) as (s' & ts' & Hrun & Hok & _).
  exists ts'. unfold demo. by rewrite Hrun.
Qed.


Lemma timeouts_fire_once_in_order_witness :
  exists k s' l, sol_mainloop_common_timeout_process k demo = Ret (Some s')
    /\ traces demo l s' /\ NoDup l.*1.
Proof.
  destruct demo_ok as [ts Hok].
  destruct (timeouts_fire_once_in_order 1 demo ts) as (k & s' & ts' & l & Hk & _ & _ & Htr & Hnd & _).
  - lia.
  - apply self_deleting_ok.
  - exact Hok.
  - reflexivity.
  - exists k, s', l. split_and!; [by apply Hk|exact Htr|exact Hnd].
Defined.


Lemma cleanup_frees_marked_witness :
  exists freed q', cleanup idler_flagged (set_pending (put (idlers demo) 32 idler_deleted) 1) = Ret (freed, q').
Proof.
  destruct demo_ok as [ts Hok]. destruct (ok_i _ _ _ _ Hok) as (il & ip & Hq).
  destruct (cleanup_frees_marked idler_flagged (fun _ => tt) no_order
              (set_pending (put (idlers demo) 32 idler_deleted) 1) il ip) as (freed & q' & ps' & Hrun & _).
  - apply (queue_put idler_flagged (fun _ => tt) no_order _ _ _ _ idler_ready); done.
  - by exists freed, q'.
Defined.

Lemma shutdown_frees_all_witness : exists s', sol_mainloop_impl_shutdown demo = Ret s'.
Proof.
  destruct demo_ok as [ts Hok]. destruct (shutdown_frees_all 1 demo ts []) as (s' & il & Hrun & _).
  - exact Hok.
  - by split_and!.
  - by exists s'.
Defined.
End MainloopProofs.
