(* ===== verification/FlowStatic.v ===== *)
(** * Static flows: routing packets between nodes

    Models src/src/lib/flow/sol-flow-static.c.  A type is set up from arrays
    of nodes, connections and exported ports; the arrays are the lists of
    their elements before the guard.  A flow made from it opens its nodes,
    connects them, and delivers what they send in the next iteration of the
    main loop.  What nodes do when they are called is the class [FlowNodes]:
    it sees all that happened before and answers with the packets they send
    and with the result of the call. *)

From S2P Require Import Prelude.

#[local] Open Scope Z_scope.

Module FlowStatic.

(** ** Types *)

Definition E2BIG := 7.

Definition SOL_FLOW_NODE_PORT_ERROR := UINT16_MAX - 1.

Inductive packet_type := PT_ANY | PT_ERROR | PT (id : Z).
#[export] Instance packet_type_eq_dec : EqDecision packet_type.
Proof. solve_decision. Defined.

(** [api_ok]: the version is the expected one. *)
Record port_type := { api_ok : bool; ptype : option packet_type }.

Record node_type := {
  data_size : Z; options_size : Z;
  ports_in : list port_type; ports_out : list port_type
}.

Record conn_spec := { c_src : Z; c_src_port : Z; c_dst : Z; c_dst_port : Z }.

Record port_spec := { s_node : Z; s_port : Z }.

Record conn_info := { out_conn_id : Z; in_conn_id : Z }.

Record flow_static_spec := {
  sp_nodes : list node_type; sp_conns : list conn_spec;
  sp_exported_in : list port_spec; sp_exported_out : list port_spec;
  sp_child_opts_set : bool
}.

Record flow_static_type := {
  node_specs : list node_type; conn_specs : list conn_spec;
  exported_in_specs : list port_spec; exported_out_specs : list port_spec;
  child_opts_set : bool;
  node_infos : list Z;              (** first_conn_idx *)
  conn_infos : list conn_info;
  node_storage_size : Z; node_count : Z; conn_count : Z;
  ports_in_count : Z; ports_out_count : Z;
  type_ports_in : list port_type; type_ports_out : list port_type;
  ports_in_base_conn_id : list Z; ports_out_base_conn_id : list Z
}.

Definition set_nodes_setup (t : flow_static_type) infos count size := {| node_specs := node_specs t; conn_specs := conn_specs t; exported_in_specs := exported_in_specs t; exported_out_specs := exported_out_specs t; child_opts_set := child_opts_set t; node_infos := infos; conn_infos := conn_infos t; node_storage_size := size; node_count := count; conn_count := conn_count t; ports_in_count := ports_in_count t; ports_out_count := ports_out_count t; type_ports_in := type_ports_in t; type_ports_out := type_ports_out t; ports_in_base_conn_id := ports_in_base_conn_id t; ports_out_base_conn_id := ports_out_base_conn_id t |}.
Definition set_conns_setup (t : flow_static_type) infos cinfos count := {| node_specs := node_specs t; conn_specs := conn_specs t; exported_in_specs := exported_in_specs t; exported_out_specs := exported_out_specs t; child_opts_set := child_opts_set t; node_infos := infos; conn_infos := cinfos; node_storage_size := node_storage_size t; node_count := node_count t; conn_count := count; ports_in_count := ports_in_count t; ports_out_count := ports_out_count t; type_ports_in := type_ports_in t; type_ports_out := type_ports_out t; ports_in_base_conn_id := ports_in_base_conn_id t; ports_out_base_conn_id := ports_out_base_conn_id t |}.
Definition set_ports_setup (t : flow_static_type) ni no pi po bi bo := {| node_specs := node_specs t; conn_specs := conn_specs t; exported_in_specs := exported_in_specs t; exported_out_specs := exported_out_specs t; child_opts_set := child_opts_set t; node_infos := node_infos t; conn_infos := conn_infos t; node_storage_size := node_storage_size t; node_count := node_count t; conn_count := conn_count t; ports_in_count := ni; ports_out_count := no; type_ports_in := pi; type_ports_out := po; ports_in_base_conn_id := bi; ports_out_base_conn_id := bo |}.
Definition set_conn_ids (t : flow_static_type) cinfos bi bo := {| node_specs := node_specs t; conn_specs := conn_specs t; exported_in_specs := exported_in_specs t; exported_out_specs := exported_out_specs t; child_opts_set := child_opts_set t; node_infos := node_infos t; conn_infos := cinfos; node_storage_size := node_storage_size t; node_count := node_count t; conn_count := conn_count t; ports_in_count := ports_in_count t; ports_out_count := ports_out_count t; type_ports_in := type_ports_in t; type_ports_out := type_ports_out t; ports_in_base_conn_id := bi; ports_out_base_conn_id := bo |}.

(** ** Ports *)

Definition port_error : port_type := {| api_ok := true; ptype := Some PT_ERROR |}.

Definition sol_flow_node_type_get_port_in (t : node_type) (port : Z) : outcome port_type :=
  at_index (ports_in t) port.

Definition sol_flow_node_type_get_port_out (t : node_type) (port : Z) : outcome port_type :=
  if port =? SOL_FLOW_NODE_PORT_ERROR then Ret port_error else at_index (ports_out t) port.

Definition flow_port_out_is_valid (t : node_type) (port : Z) : bool :=
  if port =? SOL_FLOW_NODE_PORT_ERROR then true
  else if blen (ports_out t) <=? port then false else true.

Definition flow_port_in_is_valid (t : node_type) (port : Z) : bool :=
  if blen (ports_in t) <=? port then false else true.

Definition match_packets (a b : packet_type) : bool :=
  if bool_decide (a = PT_ANY) || bool_decide (b = PT_ANY) then true else bool_decide (a = b).

(** ** Setting up a type *)

Section Setup.
Context `{Allocator}.

Definition node_bytes := 32.

Definition align_to_ptr (u : Z) : Z := wrapu 32 (Z.land (u + 7) (Z.lnot 7)).

Definition calc_node_size (t : node_type) : Z := align_to_ptr (wrapu 32 (node_bytes + data_size t)).

(** The loop over the nodes: an error, or their number, the storage they
    take and what is left of the array. *)
Fixpoint sum_nodes (specs : list node_type) (count storage_size : Z) : Z + (Z * Z * list node_type) :=
  match specs with
  | [] => inr (count, storage_size, [])
  | t :: rest =>
      if count <? UINT16_MAX then
        let node_size := calc_node_size t in
        if UINT_MAX - node_size <? storage_size then inl (- ENOMEM)
        else sum_nodes rest (count + 1) (storage_size + node_size)
      else inr (count, storage_size, specs)
  end.

Definition setup_node_specs (t : flow_static_type) : Z * flow_static_type :=
  match sum_nodes (node_specs t) 0 0 with
  | inl e => (e, t)
  | inr (count, storage_size, rest) =>
      if count =? 0 then (- EINVAL, t)
      else match rest with
      | _ :: _ => (- EINVAL, t)
      | [] =>
          match c_malloc (count * 2) with
          | None => (- ENOMEM, t)
          | Some _ => (0, set_nodes_setup t (replicate (Z.to_nat count) 0) count storage_size)
          end
      end
  end.

Definition is_valid_spec (t : flow_static_type) (spec : conn_spec) : outcome bool :=
  if node_count t <=? c_src spec then Ret false
  else if node_count t <=? c_dst spec then Ret false
  else
    s ← at_index (node_specs t) (c_src spec);
    if negb (flow_port_out_is_valid s (c_src_port spec)) then Ret false
    else
      d ← at_index (node_specs t) (c_dst spec);
      if negb (flow_port_in_is_valid d (c_dst_port spec)) then Ret false else Ret true.

(** The loop over the connections: an error, or their number, the nodes'
    first connections and what is left of the array. *)
Fixpoint check_conns (t : flow_static_type) (prev : option conn_spec) (specs : list conn_spec)
    (count : Z) (infos : list Z) : outcome (Z + (Z * list Z * list conn_spec)) :=
  match specs with
  | [] => Ret (inr (count, infos, []))
  | spec :: rest =>
      if count <? UINT16_MAX then
        valid ← is_valid_spec t spec;
        if negb valid then Ret (inl (- EINVAL))
        else
          let first := match prev with None => true | Some p => negb (c_src spec =? c_src p) end in
          let infos := if first then <[Z.to_nat (c_src spec) := count]> infos else infos in
          match prev with
          | None => check_conns t (Some spec) rest (count + 1) infos
          | Some p =>
              if (c_src spec <? c_src p) || ((c_src spec =? c_src p) && (c_src_port spec <? c_src_port p))
              then Ret (inl (- EINVAL))
              else check_conns t (Some spec) rest (count + 1) infos
          end
      else Ret (inr (count, infos, specs))
  end.

(** The connections of one port of a node, numbered: connections into it
    and, the port taken as an output, out of it. *)
Fixpoint number_conns (node port : Z) (specs : list conn_spec) (infos : list conn_info)
    (in_id out_id : Z) : Z * Z * list conn_info :=
  match specs, infos with
  | spec :: specs, ci :: infos =>
      let into := (c_dst spec =? node) && (c_dst_port spec =? port) in
      let out_of := (c_src spec =? node) && (c_src_port spec =? port) in
      let ci := {| in_conn_id := if into then in_id else in_conn_id ci;
                   out_conn_id := if out_of then out_id else out_conn_id ci |} in
      let '(i, o, infos) :=
        number_conns node port specs infos (if into then wrapu 16 (in_id + 1) else in_id)
          (if out_of then wrapu 16 (out_id + 1) else out_id) in
      (i, o, ci :: infos)
  | _, _ => (in_id, out_id, infos)
  end.

(** An exported port is given its number when its turn has come. *)
Definition next_exported (specs : list port_spec) (count : Z) (node port id : Z) (st : Z * list Z)
    : outcome (Z * list Z) :=
  let '(exported, bases) := st in
  if exported <? count then
    pspec ← at_index specs exported;
    if (s_node pspec =? node) && (s_port pspec =? port)
    then Ret (exported + 1, <[Z.to_nat exported := id]> bases) else Ret st
  else Ret st.

Definition ids_state : Type := list conn_info * (Z * list Z) * (Z * list Z).

Definition number_port (t : flow_static_type) (st : ids_state) (node port : Z) : outcome ids_state :=
  let '(infos, ein, eout) := st in
  let '(in_id, out_id, infos) := number_conns node port (conn_specs t) infos 0 0 in
  ein ← next_exported (exported_in_specs t) (ports_in_count t) node port in_id ein;
  eout ← next_exported (exported_out_specs t) (ports_out_count t) node port out_id eout;
  Ret (infos, ein, eout).

(** for (port = 0; port < port_count; port++); [port_count] is the number of
    output ports *)
Fixpoint number_ports (t : flow_static_type) (st : ids_state) (node port : Z) (n : nat) : outcome ids_state :=
  match n with
  | O => Ret st
  | S n => st ← number_port t st node port; number_ports t st node (port + 1) n
  end.

(** for (node = 0; node < type->node_count; node++) *)
Fixpoint number_nodes (t : flow_static_type) (st : ids_state) (node : Z) (specs : list node_type)
    : outcome ids_state :=
  match specs with
  | [] => Ret st
  | s :: specs =>
      st ← number_ports t st node 0 (length (ports_out s));
      number_nodes t st (node + 1) specs
  end.

Definition setup_conn_ids (t : flow_static_type) : outcome flow_static_type :=
  '(infos, ein, eout) ← number_nodes t
    (conn_infos t, (0, ports_in_base_conn_id t), (0, ports_out_base_conn_id t)) 0 (node_specs t);
  Ret (set_conn_ids t infos ein.2 eout.2).

Definition setup_conn_specs (t : flow_static_type) : outcome (Z * flow_static_type) :=
  r ← check_conns t None (conn_specs t) 0 (node_infos t);
  match r with
  | inl e => Ret (e, t)
  | inr (_, _, _ :: _) => Ret (- EINVAL, t)
  | inr (count, infos, []) =>
      let zeros := replicate (Z.to_nat count) {| out_conn_id := 0; in_conn_id := 0 |} in
      if count >? 0 then
        match c_malloc (count * 4) with
        | None => Ret (- ENOMEM, t)
        | Some _ => t ← setup_conn_ids (set_conns_setup t infos zeros count); Ret (0, t)
        end
      else t ← setup_conn_ids (set_conns_setup t infos [] count); Ret (0, t)
  end.

(** The loop of validate_port_specs: an error or the number. *)
Fixpoint check_ports (prev : option port_spec) (specs : list port_spec) (c : Z) : Z + Z :=
  match specs with
  | [] => inr c
  | spec :: rest =>
      if c <? UINT16_MAX then
        match prev with
        | None => check_ports (Some spec) rest (c + 1)
        | Some p =>
            if (s_node spec <? s_node p) || ((s_node spec =? s_node p) && (s_port spec <=? s_port p))
            then inl (- EINVAL) else check_ports (Some spec) rest (c + 1)
        end
      else inr c
  end.

Definition validate_port_specs (specs : list port_spec) : Z + Z :=
  match check_ports None specs 0 with
  | inl e => inl e
  | inr c => if c =? UINT16_MAX then inl (- E2BIG) else inr c
  end.

Definition port_in_bytes := 40.
Definition port_out_bytes := 32.

(** The types of the exported ports: those of the nodes' ports. *)
Fixpoint exported_types (t : flow_static_type) (get : node_type -> Z -> outcome port_type)
    (specs : list port_spec) : outcome (list port_type) :=
  match specs with
  | [] => Ret []
  | spec :: specs =>
      n ← at_index (node_specs t) (s_node spec);
      pt ← get n (s_port spec);
      rest ← exported_types t get specs;
      Ret ({| api_ok := true; ptype := ptype pt |} :: rest)
  end.

(** One direction: an error, or the types and the room for the numbers. *)
Definition setup_exported (t : flow_static_type) (get : node_type -> Z -> outcome port_type)
    (specs : list port_spec) (count bytes : Z) : outcome (option (list port_type * list Z)) :=
  if count >? 0 then
    match c_malloc (count * bytes), c_malloc (count * 2) with
    | Some _, Some _ =>
        l ← exported_types t get (take (Z.to_nat count) specs);
        Ret (Some (l, replicate (Z.to_nat count) 0))
    | _, _ => Ret None
    end
  else Ret (Some ([], [])).

Definition setup_exported_ports_specs (t : flow_static_type) : outcome (Z * flow_static_type) :=
  match validate_port_specs (exported_in_specs t), validate_port_specs (exported_out_specs t) with
  | inl _, _ => Ret (- EINVAL, t)
  | _, inl _ => Ret (- EINVAL, t)
  | inr in_count, inr out_count =>
      i ← setup_exported t sol_flow_node_type_get_port_in (exported_in_specs t) in_count port_in_bytes;
      match i with
      | None => Ret (- ENOMEM, t)
      | Some (pi, bi) =>
          o ← setup_exported t sol_flow_node_type_get_port_out (exported_out_specs t) out_count port_out_bytes;
          match o with
          | None => Ret (- ENOMEM, t)
          | Some (po, bo) => Ret (0, set_ports_setup t in_count out_count pi po bi bo)
          end
      end
  end.

Definition type_init (spec : flow_static_spec) : flow_static_type :=
  {| node_specs := sp_nodes spec; conn_specs := sp_conns spec;
     exported_in_specs := sp_exported_in spec; exported_out_specs := sp_exported_out spec;
     child_opts_set := sp_child_opts_set spec;
     node_infos := []; conn_infos := []; node_storage_size := 0; node_count := 0; conn_count := 0;
     ports_in_count := 0; ports_out_count := 0; type_ports_in := []; type_ports_out := [];
     ports_in_base_conn_id := []; ports_out_base_conn_id := [] |}.

Definition flow_static_type_init (spec : flow_static_spec) : outcome (Z * flow_static_type) :=
  let t := type_init spec in
  let '(r, t) := setup_node_specs t in
  if r <? 0 then Ret (r, t)
  else
    '(r, t) ← setup_conn_specs t;
    if r <? 0 then Ret (r, t)
    else
      '(r, t) ← setup_exported_ports_specs t;
      if r <? 0 then Ret (r, t)
      else t ← setup_conn_ids t; Ret (0, t).

Definition type_bytes := 240.

(** NULL, or the new type. *)
Definition sol_flow_static_new_type (spec : flow_static_spec) : outcome (option flow_static_type) :=
  match c_malloc type_bytes with
  | None => Ret None
  | Some _ =>
      '(r, t) ← flow_static_type_init spec;
      Ret (if r <? 0 then None else Some t)
  end.
End Setup.
End FlowStatic.
