(* ===== verification/FlowStaticProofs.v ===== *)
(** * Static flows: theorems

    What a type that was set up satisfies, where a packet goes, and what
    happens to the packets, the connections and the nodes of a flow whatever
    its nodes do. *)

From Stdlib Require Import Sorting.Sorted.
From stdpp Require Import sorting.
From S2P Require Import Prelude FlowStatic.
Import FlowStatic.

#[local] Open Scope Z_scope.

Module FlowStaticProofs.

(** ** Nodes *)

Definition u16 (x : Z) : Prop := 0 <= x <= UINT16_MAX.

Definition node_type_ok (n : node_type) : Prop :=
  u16 (data_size n) /\ u16 (blen (ports_in n)) /\ u16 (blen (ports_out n)).

Definition storage (l : list node_type) : Z := foldr Z.add 0 (calc_node_size <$> l).

Lemma calc_node_size_pos n : u16 (data_size n) -> 0 <= calc_node_size n.
Proof. intros _. unfold calc_node_size, align_to_ptr, wrapu. apply Z.mod_pos_bound. lia. Qed.

Lemma storage_nonneg l : Forall node_type_ok l -> 0 <= storage l.
Proof.
  induction 1 as [|n l [Hn _] _ IH]; unfold storage in *; cbn; [lia|].
  pose proof (calc_node_size_pos n Hn). lia.
Qed.

Lemma sum_nodes_fits l : forall count size,
  Forall node_type_ok l -> 0 <= size -> count + blen l <= UINT16_MAX ->
  sum_nodes l count size
  = (if bool_decide (l <> [] -> size + storage l <= UINT_MAX)
     then inr (count + blen l, size + storage l, []) else inl (- ENOMEM)).
Proof.
  induction l as [|n l IH]; intros count size Hl Hs Hc; cbn [sum_nodes].
  - rewrite bool_decide_true by done. unfold storage. cbn. by rewrite blen_nil, !Z.add_0_r.
  - apply Forall_cons in Hl as [Hn Hl]. rewrite blen_cons in *. pose proof (blen_nonneg l).
    pose proof (calc_node_size_pos n (proj1 Hn)). pose proof (storage_nonneg l Hl).
    change (storage (n :: l)) with (calc_node_size n + storage l).
    destruct (Z.ltb_spec count UINT16_MAX); [|lia].
    destruct (Z.ltb_spec (UINT_MAX - calc_node_size n) size).
    + rewrite bool_decide_false; [done|]. intros Hf. specialize (Hf ltac:(done)). lia.
    + rewrite IH by (done || lia). destruct l as [|n' l].
      * rewrite !bool_decide_true; [|unfold storage; cbn; intros; lia|done].
        rewrite blen_nil. unfold storage. cbn. do 3 f_equal; lia.
      * rewrite (bool_decide_ext _ (n :: n' :: l <> [] -> size + (calc_node_size n + storage (n' :: l)) <= UINT_MAX)).
        { case_bool_decide; [|done]. do 3 f_equal; lia. }
        split; intros Hf _; specialize (Hf ltac:(done)); lia.
Qed.

Lemma sum_nodes_many l : forall count size,
  Forall node_type_ok l -> count <= UINT16_MAX < count + blen l ->
  match sum_nodes l count size with inl e => e < 0 | inr (_, _, rest) => rest <> [] end.
Proof.
  induction l as [|n l IH]; intros count size Hl Hc; cbn [sum_nodes]; [rewrite blen_nil in Hc; lia|].
  apply Forall_cons in Hl as [Hn Hl]. rewrite blen_cons in Hc.
  destruct (Z.ltb_spec count UINT16_MAX); [|done]. destruct (_ <? size); [done|]. apply IH; [done|lia].
Qed.

(** ** Connections *)

Definition same_src (n : Z) (c : conn_spec) : Prop := c_src c = n.
#[export] Instance same_src_dec n c : Decision (same_src n c).
Proof. unfold same_src. apply _. Defined.

(** The index of the first connection from a node, 0 if there is none. *)
Definition first_conn (l : list conn_spec) (n : Z) : Z :=
  match list_find (same_src n) l with Some (i, _) => Z.of_nat i | None => 0 end.

Definition conn_le (a b : conn_spec) : Prop :=
  c_src a < c_src b \/ c_src a = c_src b /\ c_src_port a <= c_src_port b.

Definition conn_fields_ok (c : conn_spec) : Prop :=
  u16 (c_src c) /\ u16 (c_src_port c) /\ u16 (c_dst c) /\ u16 (c_dst_port c).

Definition port_ok (valid : node_type -> Z -> bool) (l : list node_type) (n p : Z) : Prop :=
  match l !! Z.to_nat n with Some s => valid s p = true | None => False end.
#[export] Instance port_ok_dec valid l n p : Decision (port_ok valid l n p).
Proof. unfold port_ok. destruct (l !! Z.to_nat n); apply _. Defined.

(** The ends of a connection are ports of the nodes. *)
Definition conn_ok (l : list node_type) (c : conn_spec) : Prop :=
  port_ok flow_port_out_is_valid l (c_src c) (c_src_port c)
  /\ port_ok flow_port_in_is_valid l (c_dst c) (c_dst_port c).
#[export] Instance conn_ok_dec l c : Decision (conn_ok l c).
Proof. unfold conn_ok. apply _. Defined.

Lemma is_valid_spec_spec t c :
  node_count t = blen (node_specs t) -> conn_fields_ok c ->
  is_valid_spec t c = Ret (bool_decide (conn_ok (node_specs t) c)).
Proof.
  intros Hn (Hs & _ & Hd & _). unfold is_valid_spec. rewrite Hn.
  assert (forall i, u16 i -> blen (node_specs t) <= i -> (node_specs t) !! Z.to_nat i = None) as Hout.
  { intros i Hi Hle. apply lookup_ge_None. unfold blen in Hle. lia. }
  unfold u16 in *. case_bool_decide as Hc; unfold conn_ok, port_ok in Hc.
  - destruct (node_specs t !! Z.to_nat (c_src c)) as [s|] eqn:Es; [|by destruct Hc].
    destruct (node_specs t !! Z.to_nat (c_dst c)) as [d|] eqn:Ed; [|by destruct Hc]. destruct Hc as [Hvs Hvd].
    rewrite (proj2 (Z.leb_gt (blen (node_specs t)) (c_src c))) by (apply lookup_lt_Some in Es; unfold blen; lia).
    rewrite (proj2 (Z.leb_gt (blen (node_specs t)) (c_dst c))) by (apply lookup_lt_Some in Ed; unfold blen; lia).
    rewrite (at_index_some _ (c_src c) s), bind_ret, Hvs by (first [exact Es|lia]). cbn [negb].
    by rewrite (at_index_some _ (c_dst c) d), bind_ret, Hvd by (first [exact Ed|lia]).
  - destruct (Z.leb_spec (blen (node_specs t)) (c_src c)) as [Hle|Hlt]; [done|].
    destruct (Z.leb_spec (blen (node_specs t)) (c_dst c)) as [Hle|Hlt']; [done|].
    destruct (at_index_lt (node_specs t) (c_src c) ltac:(lia)) as (s & Es & ->). rewrite bind_ret, Es in *.
    destruct (flow_port_out_is_valid s (c_src_port c)); cbn [negb]; [|done].
    destruct (at_index_lt (node_specs t) (c_dst c) ltac:(lia)) as (d & Ed & ->). rewrite bind_ret, Ed in *.
    destruct (flow_port_in_is_valid d (c_dst_port c)); [|done]. by destruct Hc.
Qed.

Lemma first_conn_snoc l c n :
  first_conn (l ++ [c]) n
  = if decide (Exists (same_src n) l) then first_conn l n else if decide (c_src c = n) then blen l else 0.
Proof.
  unfold first_conn. destruct (decide (Exists (same_src n) l)) as [He|He].
  - destruct (list_find (same_src n) l) as [[i c']|] eqn:E.
    + by rewrite (list_find_app_l _ _ _ _ _ E).
    + exfalso. apply list_find_None in E. rewrite Forall_forall in E.
      apply Exists_exists in He as (x & Hx & Hs). by apply (E x).
  - assert (list_find (same_src n) l = None) as E by (apply list_find_None; apply Forall_forall; intros x Hx Hs; apply He, Exists_exists; by exists x).
    rewrite list_find_app_r by done. cbn. unfold same_src at 1. destruct (decide (c_src c = n)); cbn; [|done].
    unfold blen. lia.
Qed.

Definition infos_first (nodes : Z) (infos : list Z) (l : list conn_spec) : Prop :=
  blen infos = nodes /\ forall n, 0 <= n < nodes -> infos !! Z.to_nat n = Some (first_conn l n).

Lemma sorted_last l p c :
  StronglySorted conn_le (l ++ [p]) -> conn_le p c -> StronglySorted conn_le ((l ++ [p]) ++ [c]).
Proof.
  intros Hl Hpc. apply StronglySorted_app_2; [|done|repeat constructor].
  intros x y Hx ->%list_elem_of_singleton. apply elem_of_app in Hx as [Hx| ->%list_elem_of_singleton]; [|done].
  assert (conn_le x p) by (eapply StronglySorted_app_1_elem_of; [exact Hl|done|by apply list_elem_of_singleton]).
  unfold conn_le in *. lia.
Qed.

Lemma infos_first_step nodes infos l c :
  infos_first nodes infos l -> 0 <= c_src c < nodes ->
  (forall x, x ∈ l -> c_src x <= c_src c) ->
  infos_first nodes
    (if match last l with None => true | Some p => negb (c_src c =? c_src p) end
     then <[Z.to_nat (c_src c) := blen l]> infos else infos) (l ++ [c]) \/
  exists x, x ∈ l /\ forall p, last l = Some p -> c_src p < c_src x.
Proof.
  intros [Hlen Hinf] Hc Hle.
  destruct (decide (Exists (same_src (c_src c)) l)) as [He|He].
  - (* some earlier one has the source: the last one has *)
    apply Exists_exists in He as (x & Hx & Hsx). unfold same_src in Hsx.
    destruct (last l) as [p|] eqn:El; [|apply last_None in El; subst; by apply not_elem_of_nil in Hx].
    destruct (decide (c_src p = c_src c)) as [Hp|Hp].
    + left. rewrite Hp, Z.eqb_refl. cbn [negb]. split; [done|]. intros n Hn. rewrite (Hinf n Hn), first_conn_snoc.
      destruct (decide (Exists _ l)) as [|He']; [done|]. rewrite decide_False; [|].
      * unfold first_conn. assert (list_find (same_src n) l = None) as ->; [|done].
        apply list_find_None, Forall_forall. intros y Hy Hs. apply He', Exists_exists. by exists y.
      * intros <-. apply He', Exists_exists. by exists x.
    + right. exists x. split; [done|]. intros p' [= <-]. apply last_Some in El as (l' & ->).
      assert (c_src p <= c_src c) by (apply Hle, elem_of_app; right; by apply list_elem_of_singleton). lia.
  - left. assert (match last l with None => true | Some p => negb (c_src c =? c_src p) end = true) as ->.
    { destruct (last l) as [p|] eqn:El; [|done]. apply negb_true_iff, Z.eqb_neq. intros Heq.
      apply He, Exists_exists. exists p. split; [|done]. apply last_Some in El as (l' & ->).
      apply elem_of_app; right; by apply list_elem_of_singleton. }
    split; [by rewrite blen_insert|]. intros n Hn. rewrite first_conn_snoc.
    destruct (decide (n = c_src c)) as [->|Hne].
    + rewrite list_lookup_insert_eq by (unfold blen in Hlen; lia). rewrite decide_False, decide_True by done. done.
    + rewrite list_lookup_insert_ne by lia. rewrite (Hinf n Hn). destruct (decide (Exists _ l)) as [|He']; [done|].
      rewrite decide_False by done. unfold first_conn.
      assert (list_find (same_src n) l = None) as ->; [|done].
      apply list_find_None, Forall_forall. intros y Hy Hs. apply He', Exists_exists. by exists y.
Qed.

Lemma check_conns_spec t l : forall acc infos,
  node_count t = blen (node_specs t) -> Forall conn_fields_ok (acc ++ l) ->
  StronglySorted conn_le acc -> infos_first (node_count t) infos acc ->
  blen (acc ++ l) <= UINT16_MAX ->
  exists r, check_conns t (last acc) l (blen acc) infos = Ret r
    /\ match r with
       | inl e => e = - EINVAL /\ ~ (Forall (conn_ok (node_specs t)) l /\ StronglySorted conn_le (acc ++ l))
       | inr (count, infos', rest) => count = blen (acc ++ l) /\ rest = []
           /\ infos_first (node_count t) infos' (acc ++ l)
           /\ Forall (conn_ok (node_specs t)) l /\ StronglySorted conn_le (acc ++ l)
       end.
Proof.
  induction l as [|c l IH]; intros acc infos Hn Hf Hs Hi Hlen; cbn [check_conns].
  - eexists. split; [done|]. rewrite app_nil_r. split_and!; try done.
  - apply Forall_app in Hf as Hf'. destruct Hf' as [Hfa [Hfc Hfl]%Forall_cons].
    pose proof (blen_nonneg l). rewrite blen_app, blen_cons in Hlen.
    destruct (Z.ltb_spec (blen acc) UINT16_MAX); [|lia].
    rewrite is_valid_spec_spec, bind_ret by done. case_bool_decide as Hc; cbn [negb].
    2:{ eexists. split; [done|]. split; [done|]. intros [[? _]%Forall_cons _]. done. }
    assert (0 <= c_src c < node_count t) as Hsrc.
    { destruct Hc as [Hc _]. unfold port_ok in Hc. destruct (node_specs t !! _) eqn:E; [|done].
      apply lookup_lt_Some in E. destruct Hfc as ([? ?] & _). rewrite Hn. unfold blen. lia. }
    assert (forall p acc', acc = acc' ++ [p] -> ~ conn_le p c -> ~ StronglySorted conn_le (acc ++ c :: l)) as Hbad.
    { intros p acc' -> Hnle Hss. apply Hnle. eapply StronglySorted_app_1_elem_of; [exact Hss|..].
      - apply elem_of_app. right. by apply list_elem_of_singleton.
      - by left. }
    assert ((forall p, last acc = Some p -> conn_le p c) ->
      exists r, check_conns t (Some c) l (blen acc + 1)
        (if match last acc with None => true | Some p => negb (c_src c =? c_src p) end
         then <[Z.to_nat (c_src c) := blen acc]> infos else infos) = Ret r
      /\ match r with
         | inl e => e = - EINVAL /\ ~ (Forall (conn_ok (node_specs t)) (c :: l) /\ StronglySorted conn_le (acc ++ c :: l))
         | inr (count, infos', rest) => count = blen (acc ++ c :: l) /\ rest = []
             /\ infos_first (node_count t) infos' (acc ++ c :: l)
             /\ Forall (conn_ok (node_specs t)) (c :: l) /\ StronglySorted conn_le (acc ++ c :: l)
         end) as Hgo.
    { intros Hle. assert (forall x p, x ∈ acc -> last acc = Some p -> x = p \/ conn_le x p) as Hlast.
      { intros x p Hx (acc' & ->)%last_Some. apply elem_of_app in Hx as [Hx|Hx%list_elem_of_singleton]; [right|by left].
        eapply StronglySorted_app_1_elem_of; [exact Hs|done|by apply list_elem_of_singleton]. }
      assert (forall x, x ∈ acc -> c_src x <= c_src c) as Hall.
      { intros x Hx. destruct (last acc) as [p|] eqn:El; [|apply last_None in El; subst; by apply not_elem_of_nil in Hx].
        specialize (Hle p eq_refl). destruct (Hlast x p Hx eq_refl) as [->|Hxp]; unfold conn_le in *; lia. }
      destruct (infos_first_step _ _ _ _ Hi Hsrc Hall) as [Hi'|(x & Hx & Hgt)].
      2:{ exfalso. destruct (last acc) as [p|] eqn:El; [|apply last_None in El; subst; by apply not_elem_of_nil in Hx].
          specialize (Hgt p eq_refl). destruct (Hlast x p Hx eq_refl) as [->|Hxp]; unfold conn_le in *; lia. }
      assert (StronglySorted conn_le (acc ++ [c])) as Hs'.
      { destruct (last acc) as [p|] eqn:El; [|apply last_None in El; subst; repeat constructor].
        apply last_Some in El as (acc' & ->). apply sorted_last; [done|by apply Hle]. }
      assert (Forall conn_fields_ok ((acc ++ [c]) ++ l)) as Hf2 by (by rewrite <- app_assoc).
      assert (blen ((acc ++ [c]) ++ l) <= UINT16_MAX) as Hlen2
        by (rewrite <- app_assoc, blen_app; cbn [app]; rewrite blen_cons; lia).
      destruct (IH (acc ++ [c]) _ Hn Hf2 Hs' Hi' Hlen2) as (r & Hr & Hres).
      rewrite last_snoc, blen_app, blen_cons, blen_nil in Hr. rewrite <- app_assoc in Hres. cbn [app] in Hres.
      rewrite Z.add_0_r in Hr. exists r. split; [exact Hr|]. destruct r as [e|[[count infos'] rest]].
      - destruct Hres as [-> Hno]. split; [done|]. intros [[_ ?]%Forall_cons ?]. by apply Hno.
      - destruct Hres as (-> & -> & ? & ? & ?). split_and!; try done. by constructor. }
    destruct (last acc) as [p|] eqn:El; [|by apply Hgo].
    destruct (_ || _) eqn:Eo; [|apply Hgo].
    + eexists. split; [done|]. split; [done|]. intros [_ Hss]. apply last_Some in El as (acc' & ->).
      revert Hss. apply (Hbad p acc' eq_refl). unfold conn_le. apply orb_true_iff in Eo as [Eo|Eo].
      * apply Z.ltb_lt in Eo. lia.
      * apply andb_true_iff in Eo as [E1%Z.eqb_eq E2%Z.ltb_lt]. lia.
    + intros p' [= <-]. apply orb_false_iff in Eo as [E1%Z.ltb_ge E2]. unfold conn_le.
      destruct (Z.eqb_spec (c_src c) (c_src p)); [|lia]. cbn in E2. apply Z.ltb_ge in E2. lia.
Qed.

Lemma check_conns_many t l : forall prev count infos,
  node_count t = blen (node_specs t) -> Forall conn_fields_ok l ->
  count <= UINT16_MAX < count + blen l ->
  exists r, check_conns t prev l count infos = Ret r
    /\ match r with inl e => e < 0 | inr (_, _, rest) => rest <> [] end.
Proof.
  induction l as [|c l IH]; intros prev count infos Hn Hf Hc; cbn [check_conns]; [rewrite blen_nil in Hc; lia|].
  apply Forall_cons in Hf as [Hfc Hfl]. rewrite blen_cons in Hc.
  destruct (Z.ltb_spec count UINT16_MAX); [|by eexists].
  rewrite is_valid_spec_spec, bind_ret by done. case_bool_decide; cbn [negb]; [|by eexists].
  destruct prev as [p|]; [destruct (_ || _); [by eexists|]|]; apply IH; (done || lia).
Qed.

(** ** Connection numbers *)

Definition goes_into (n p : Z) (c : conn_spec) : Prop := c_dst c = n /\ c_dst_port c = p.
Definition comes_out (n p : Z) (c : conn_spec) : Prop := c_src c = n /\ c_src_port c = p.
#[export] Instance goes_into_dec n p c : Decision (goes_into n p c).
Proof. unfold goes_into. apply _. Defined.
#[export] Instance comes_out_dec n p c : Decision (comes_out n p c).
Proof. unfold comes_out. apply _. Defined.

(** How many of [l] are connections into, out of, a port. *)
Definition count_into (n p : Z) (l : list conn_spec) : Z := blen (filter (goes_into n p) l).
Definition count_out (n p : Z) (l : list conn_spec) : Z := blen (filter (comes_out n p) l).

Lemma count_into_cons n p c l :
  count_into n p (c :: l) = (if (c_dst c =? n) && (c_dst_port c =? p) then 1 else 0) + count_into n p l.
Proof.
  unfold count_into. rewrite filter_cons. destruct (decide (goes_into n p c)) as [[-> ->]|Hn].
  - rewrite !Z.eqb_refl. cbn [andb]. by rewrite blen_cons.
  - destruct (Z.eqb_spec (c_dst c) n), (Z.eqb_spec (c_dst_port c) p); cbn [andb]; try lia. by destruct Hn.
Qed.

Lemma count_out_cons n p c l :
  count_out n p (c :: l) = (if (c_src c =? n) && (c_src_port c =? p) then 1 else 0) + count_out n p l.
Proof.
  unfold count_out. rewrite filter_cons. destruct (decide (comes_out n p c)) as [[-> ->]|Hn].
  - rewrite !Z.eqb_refl. cbn [andb]. by rewrite blen_cons.
  - destruct (Z.eqb_spec (c_src c) n), (Z.eqb_spec (c_src_port c) p); cbn [andb]; try lia. by destruct Hn.
Qed.

Lemma number_conns_spec n p specs : forall infos in_id out_id,
  length infos = length specs -> 0 <= in_id -> 0 <= out_id ->
  in_id + blen specs <= UINT16_MAX -> out_id + blen specs <= UINT16_MAX ->
  exists infos', number_conns n p specs infos in_id out_id
      = (in_id + count_into n p specs, out_id + count_out n p specs, infos')
    /\ length infos' = length specs
    /\ forall k c ci, specs !! k = Some c -> infos !! k = Some ci ->
         infos' !! k = Some {|
           in_conn_id := if (c_dst c =? n) && (c_dst_port c =? p) then in_id + count_into n p (take k specs) else in_conn_id ci;
           out_conn_id := if (c_src c =? n) && (c_src_port c =? p) then out_id + count_out n p (take k specs) else out_conn_id ci |}.
Proof.
  induction specs as [|c specs IH]; intros [|ci infos] in_id out_id Hl Hi Ho Hib Hob; try done.
  - exists []. cbn. unfold count_into, count_out. cbn. rewrite !Z.add_0_r. by split_and!.
  - cbn [number_conns]. rewrite count_into_cons, count_out_cons. rewrite blen_cons in *.
    set (into := (c_dst c =? n) && (c_dst_port c =? p)). set (out := (c_src c =? n) && (c_src_port c =? p)).
    pose proof (blen_nonneg specs).
    assert ((if into then wrapu 16 (in_id + 1) else in_id) = in_id + (if into then 1 else 0)) as ->.
    { destruct into; [|lia]. apply wrapu_small. unfold UINT16_MAX in *. lia. }
    assert ((if out then wrapu 16 (out_id + 1) else out_id) = out_id + (if out then 1 else 0)) as ->.
    { destruct out; [|lia]. apply wrapu_small. unfold UINT16_MAX in *. lia. }
    destruct (IH infos (in_id + (if into then 1 else 0)) (out_id + (if out then 1 else 0)))
      as (infos' & -> & Hl' & Hk); [by injection Hl|destruct into; lia|destruct out; lia|destruct into; lia|destruct out; lia|].
    eexists. split; [do 2 f_equal; lia|]. split; [cbn; lia|]. intros [|k] c' ci' Hc Hci.
    + injection Hc as <-. injection Hci as <-. cbn [lookup list_lookup take]. unfold count_into, count_out. cbn.
      by rewrite !Z.add_0_r.
    + etransitivity; [exact (Hk k c' ci' Hc Hci)|]. cbn [take].
      rewrite count_into_cons, count_out_cons. do 2 f_equal.
      * destruct ((c_src c' =? n) && (c_src_port c' =? p)) eqn:E; [|done]. fold out. lia.
      * destruct ((c_dst c' =? n) && (c_dst_port c' =? p)) eqn:E; [|done]. fold into. lia.
Qed.

(** The numbers of the connections of the ports [visited]; 0 elsewhere. *)
Definition numbered (specs : list conn_spec) (visited : Z -> Z -> bool) (infos : list conn_info) : Prop :=
  length infos = length specs
  /\ forall k c, specs !! k = Some c -> infos !! k = Some {|
       in_conn_id := if visited (c_dst c) (c_dst_port c) then count_into (c_dst c) (c_dst_port c) (take k specs) else 0;
       out_conn_id := if visited (c_src c) (c_src_port c) then count_out (c_src c) (c_src_port c) (take k specs) else 0 |}.

Lemma numbered_step specs visited infos n p :
  numbered specs visited infos -> blen specs <= UINT16_MAX ->
  exists infos', number_conns n p specs infos 0 0 = (count_into n p specs, count_out n p specs, infos')
    /\ numbered specs (fun a b => visited a b || ((a =? n) && (b =? p))) infos'.
Proof.
  intros [Hl Hn] Hb. destruct (number_conns_spec n p specs infos 0 0 Hl) as (infos' & -> & Hl' & Hk); try lia.
  exists infos'. split; [done|]. split; [done|]. intros k c Hc. rewrite (Hk k c _ Hc (Hn k c Hc)). cbn. do 2 f_equal.
  - destruct (Z.eqb_spec (c_src c) n), (Z.eqb_spec (c_src_port c) p); subst; cbn [andb]; rewrite ?orb_true_r, ?orb_false_r; done.
  - destruct (Z.eqb_spec (c_dst c) n), (Z.eqb_spec (c_dst_port c) p); subst; cbn [andb]; rewrite ?orb_true_r, ?orb_false_r; done.
Qed.

Lemma numbered_ext specs v v' infos :
  numbered specs v infos -> (forall a b, v a b = v' a b) -> numbered specs v' infos.
Proof. intros [Hl Hn] He. split; [done|]. intros k c Hc. rewrite (Hn k c Hc). by rewrite !He. Qed.

(** *** Exported ports *)

Definition port_lt (a b : port_spec) : Prop :=
  s_node a < s_node b \/ s_node a = s_node b /\ s_port a < s_port b.

(** Where the numbering is: the first [k] exported ports have their number,
    the others come at [(n, p)] or later. *)
Definition exported_at (specs : list port_spec) (deg : Z -> Z -> Z) (n p : Z) (st : Z * list Z) : Prop :=
  0 <= st.1 <= blen specs /\ length st.2 = length specs
  /\ (forall k s, specs !! k = Some s -> Z.of_nat k < st.1 -> st.2 !! k = Some (deg (s_node s) (s_port s)))
  /\ (forall k s, specs !! k = Some s -> st.1 <= Z.of_nat k -> n < s_node s \/ s_node s = n /\ p <= s_port s).

Lemma next_exported_spec specs deg n p st :
  StronglySorted port_lt specs -> exported_at specs deg n p st ->
  exists st', next_exported specs (blen specs) n p (deg n p) st = Ret st' /\ exported_at specs deg n (p + 1) st'.
Proof.
  intros Hs (Hk & Hl & Hdone & Hrest). destruct st as [e bases]. cbn [fst snd] in *. unfold next_exported.
  destruct (Z.ltb_spec e (blen specs)) as [Hlt|Hge].
  2:{ eexists. split; [done|]. split; [exact Hk|split; [exact Hl|split; [exact Hdone|]]]. cbn [fst snd]. intros k s Hks Hle. apply lookup_lt_Some in Hks. unfold blen in *. lia. }
  destruct (at_index_lt specs e ltac:(lia)) as (s & Hse & ->). rewrite bind_ret.
  assert (forall k s', specs !! k = Some s' -> e < Z.of_nat k -> port_lt s s') as Hafter.
  { intros k s' Hks Hlt'. eapply StronglySorted_app_1_elem_of
      with (l1 := take (S (Z.to_nat e)) specs) (l2 := drop (S (Z.to_nat e)) specs).
    - by rewrite take_drop.
    - apply elem_of_take. exists (Z.to_nat e). split; [done|lia].
    - apply list_elem_of_lookup. exists (k - S (Z.to_nat e))%nat. rewrite lookup_drop, <- Hks. f_equal. lia. }
  destruct (Hrest (Z.to_nat e) s Hse ltac:(lia)) as [Hns|[Hns Hps]].
  - rewrite (proj2 (Z.eqb_neq (s_node s) n)) by lia. cbn [andb]. eexists. split; [done|].
    split; [exact Hk|split; [exact Hl|split; [exact Hdone|]]]. cbn [fst snd]. intros k s' Hks Hle. left.
    destruct (decide (Z.of_nat k = e)) as [<-|]; [rewrite Nat2Z.id in Hse; congruence|].
    pose proof (Hafter k s' Hks ltac:(lia)) as Hlt'. unfold port_lt in Hlt'. lia.
  - rewrite (proj2 (Z.eqb_eq (s_node s) n)) by done. cbn [andb].
    destruct (Z.eqb_spec (s_port s) p) as [<-|Hne].
    + eexists. split; [done|]. split_and!; cbn [fst snd] in *; [lia|lia|by rewrite length_insert| |].
      * intros k s' Hks Hlt'. destruct (decide (k = Z.to_nat e)) as [->|Hne].
        -- rewrite list_lookup_insert_eq by (rewrite Hl; by eapply lookup_lt_Some).
           rewrite Hse in Hks. injection Hks as <-. by rewrite Hns.
        -- rewrite list_lookup_insert_ne by done. apply (Hdone k s' Hks). lia.
      * intros k s' Hks Hle. pose proof (Hafter k s' Hks ltac:(lia)) as Hlt'. unfold port_lt in Hlt'. lia.
    + eexists. split; [done|]. split; [exact Hk|split; [exact Hl|split; [exact Hdone|]]]. cbn [fst snd]. intros k s' Hks Hle.
      destruct (decide (Z.of_nat k = e)) as [<-|]; [rewrite Nat2Z.id in Hse; simplify_eq; lia|].
      pose proof (Hafter k s' Hks ltac:(lia)) as Hlt'. unfold port_lt in Hlt'. lia.
Qed.

(** The ports that are numbered: a node's ports, in or out, up to the number
    of its output ports. *)
Definition has_number (l : list node_type) (n p : Z) : bool :=
  (0 <=? n) && (0 <=? p) && match l !! Z.to_nat n with Some nt => p <? blen (ports_out nt) | None => false end.

Definition port_fields_ok (s : port_spec) : Prop := u16 (s_node s) /\ u16 (s_port s).

(** Both directions of the exported ports at once; [A] says whether this one
    is followed. *)
Definition following (A : Prop) (specs : list port_spec) (deg : Z -> Z -> Z) (n p count : Z) (st : Z * list Z) : Prop :=
  0 <= st.1 /\ 0 <= count <= blen specs /\ length st.2 = Z.to_nat count
  /\ (A -> count = blen specs /\ exported_at specs deg n p st).

Lemma following_step A specs deg n p count st :
  (A -> StronglySorted port_lt specs) -> following A specs deg n p count st ->
  exists st', next_exported specs count n p (deg n p) st = Ret st' /\ following A specs deg n (p + 1) count st'.
Proof.
  intros Hs (He & Hc & Hl & HA).
  assert (exists st', next_exported specs count n p (deg n p) st = Ret st' /\ 0 <= st'.1 /\ length st'.2 = Z.to_nat count)
    as (st' & Hr & He' & Hl').
  { destruct st as [e bases]. cbn [fst snd] in *. unfold next_exported.
    destruct (Z.ltb_spec e count); [|by eexists].
    destruct (at_index_lt specs e ltac:(lia)) as (s & _ & ->). rewrite bind_ret.
    destruct (_ && _); [|by eexists]. eexists. split; [done|]. cbn. rewrite length_insert. split; [lia|done]. }
  exists st'. split; [done|]. split_and!; [done|lia|lia|done|]. intros HAA.
  destruct (HA HAA) as [Hcount Hat]. split; [done|]. rewrite Hcount in Hr.
  destruct (next_exported_spec specs deg n p st (Hs HAA) Hat) as (st2 & Hr2 & Hat2). congruence.
Qed.

Section Numbering.
Context (t : flow_static_type) (Ai Ao : Prop).
Let specs := conn_specs t.
Let deg_in n p := count_into n p specs.
Let deg_out n p := count_out n p specs.
Context (Hlen : blen specs <= UINT16_MAX).
Context (Hsi : Ai -> StronglySorted port_lt (exported_in_specs t)).
Context (Hso : Ao -> StronglySorted port_lt (exported_out_specs t)).

Definition ids_at (visited : Z -> Z -> bool) (n p : Z) (st : ids_state) : Prop :=
  numbered specs visited st.1.1
  /\ following Ai (exported_in_specs t) deg_in n p (ports_in_count t) st.1.2
  /\ following Ao (exported_out_specs t) deg_out n p (ports_out_count t) st.2.

Lemma number_port_spec visited n p st :
  ids_at visited n p st ->
  exists st', number_port t st n p = Ret st'
    /\ ids_at (fun a b => visited a b || ((a =? n) && (b =? p))) n (p + 1) st'.
Proof.
  destruct st as [[infos ein] eout]. intros (Hn & Hi & Ho). cbn [fst snd] in *. unfold number_port.
  destruct (numbered_step specs visited infos n p Hn Hlen) as (infos' & Hr & Hn'). fold specs. rewrite Hr.
  destruct (following_step Ai _ deg_in n p _ _ Hsi Hi) as (ein' & Hri & Hi').
  change (count_into n p specs) with (deg_in n p). rewrite Hri, bind_ret.
  destruct (following_step Ao _ deg_out n p _ _ Hso Ho) as (eout' & Hro & Ho').
  change (count_out n p specs) with (deg_out n p). rewrite Hro, bind_ret.
  eexists. split; [done|]. done.
Qed.

Lemma ids_at_ext v v' n p st : ids_at v n p st -> (forall a b, v a b = v' a b) -> ids_at v' n p st.
Proof. intros (Hn & ? & ?) He. split_and!; [|done|done]. by eapply numbered_ext. Qed.

Lemma number_ports_spec m : forall visited n p st,
  ids_at visited n p st ->
  exists st', number_ports t st n p m = Ret st'
    /\ ids_at (fun a b => visited a b || ((a =? n) && ((p <=? b) && (b <? p + Z.of_nat m)))) n (p + Z.of_nat m) st'.
Proof.
  induction m as [|m IH]; intros visited n p st Hst; cbn [number_ports].
  - exists st. split; [done|]. rewrite Z.add_0_r. eapply ids_at_ext; [exact Hst|]. intros a b. cbn.
    destruct (visited a b), (a =? n); cbn; try done. symmetry. apply andb_false_iff. lia.
  - destruct (number_port_spec visited n p st Hst) as (st1 & -> & Hst1). rewrite bind_ret.
    destruct (IH _ n (p + 1) st1 Hst1) as (st2 & -> & Hst2). exists st2. split; [done|].
    replace (p + Z.of_nat (S m)) with (p + 1 + Z.of_nat m) by lia. eapply ids_at_ext; [exact Hst2|]. intros a b. cbn.
    destruct (visited a b), (a =? n); cbn; try done.
    destruct (Z.eqb_spec b p), (Z.leb_spec (p + 1) b), (Z.leb_spec p b), (Z.ltb_spec b (p + 1 + Z.of_nat m));
      cbn; (done || lia).
Qed.

(** Behind the last numbered port of a node comes the next node. *)
Lemma following_next_node A exps deg n nt count st :
  (A -> Forall (fun s => port_fields_ok s /\ (s_node s = n -> s_port s < blen (ports_out nt))) exps) ->
  following A exps deg n (blen (ports_out nt)) count st -> following A exps deg (n + 1) 0 count st.
Proof.
  intros HE (He & Hc & Hl & HA). split_and!; [done|lia|lia|done|]. intros HAA. destruct (HA HAA) as [Hcnt (H1 & H2 & H3 & H4)].
  split; [done|]. split; [exact H1|split; [exact H2|split; [exact H3|]]].
  intros k s Hk Hle. specialize (HE HAA). rewrite Forall_lookup in HE. destruct (HE k s Hk) as [[_ [? _]] Hlt].
  destruct (H4 k s Hk Hle) as [Hn|[Hn Hp]]; [lia|]. specialize (Hlt Hn). lia.
Qed.

Lemma number_nodes_spec l : forall pre visited st,
  node_specs t = pre ++ l ->
  (Ai -> Forall (fun s => port_fields_ok s /\ has_number (node_specs t) (s_node s) (s_port s) = true) (exported_in_specs t)) ->
  (Ao -> Forall (fun s => port_fields_ok s /\ has_number (node_specs t) (s_node s) (s_port s) = true) (exported_out_specs t)) ->
  ids_at visited (blen pre) 0 st ->
  exists st', number_nodes t st (blen pre) l = Ret st'
    /\ ids_at (fun a b => visited a b || ((blen pre <=? a) && has_number (node_specs t) a b)) (blen pre + blen l) 0 st'.
Proof.
  induction l as [|nt l IH]; intros pre visited st Hpre Hei Heo Hst; cbn [number_nodes].
  - exists st. split; [done|]. rewrite blen_nil, Z.add_0_r. eapply ids_at_ext; [exact Hst|]. intros a b. cbn.
    destruct (visited a b); [done|]. cbn. symmetry. apply andb_false_iff. destruct (Z.leb_spec (blen pre) a); [right|by left].
    unfold has_number. rewrite Hpre, app_nil_r, lookup_ge_None_2 by (unfold blen in *; lia). by rewrite andb_false_r.
  - destruct (number_ports_spec (length (ports_out nt)) visited (blen pre) 0 st Hst) as (st1 & -> & Hst1). rewrite bind_ret.
    assert (node_specs t !! Z.to_nat (blen pre) = Some nt) as Hnt.
    { rewrite Hpre, blen_to_nat, lookup_app_r, Nat.sub_diag by lia. done. }
    assert (blen (pre ++ [nt]) = blen pre + 1) as Hsnoc by (rewrite blen_app; done).
    assert (forall exps, Forall (fun s => port_fields_ok s /\ has_number (node_specs t) (s_node s) (s_port s) = true) exps ->
      Forall (fun s => port_fields_ok s /\ (s_node s = blen pre -> s_port s < blen (ports_out nt))) exps) as Hexp.
    { intros exps Hall. eapply Forall_impl; [exact Hall|]. intros s [Hf Hh]. split; [done|]. intros Hs.
      unfold has_number in Hh. rewrite Hs, Hnt in Hh. apply andb_true_iff in Hh as [_ Hh%Z.ltb_lt]. done. }
    assert (ids_at (fun a b => visited a b || ((a =? blen pre) && ((0 <=? b) && (b <? 0 + Z.of_nat (length (ports_out nt))))))
      (blen (pre ++ [nt])) 0 st1) as Hst1'.
    { destruct Hst1 as (Hn & Hi & Ho). rewrite Z.add_0_l in Hi, Ho. rewrite Hsnoc.
      split_and!; [done|..]; (eapply following_next_node; [|eassumption]); auto. }
    destruct (IH (pre ++ [nt]) _ st1 ltac:(by rewrite <- app_assoc) Hei Heo Hst1') as (st2 & Hr2 & Hst2).
    rewrite Hsnoc in Hr2, Hst2. exists st2. split; [done|].
    rewrite blen_cons. replace (blen pre + (1 + blen l)) with (blen pre + 1 + blen l) by lia.
    eapply ids_at_ext; [exact Hst2|]. intros a b. cbn. destruct (visited a b); [done|]. cbn.
    pose proof (blen_nonneg pre).
    destruct (Z.eqb_spec a (blen pre)) as [->|Hne].
    + rewrite (proj2 (Z.leb_gt (blen pre + 1) (blen pre))) by lia. cbn. rewrite orb_false_r, Z.leb_refl. cbn.
      unfold has_number. rewrite Hnt, (proj2 (Z.leb_le 0 (blen pre))) by lia. done.
    + cbn. destruct (Z.leb_spec (blen pre + 1) a), (Z.leb_spec (blen pre) a); (done || lia).
Qed.

Lemma setup_conn_ids_spec visited :
  ids_at visited 0 0 (conn_infos t, (0, ports_in_base_conn_id t), (0, ports_out_base_conn_id t)) ->
  (Ai -> Forall (fun s => port_fields_ok s /\ has_number (node_specs t) (s_node s) (s_port s) = true) (exported_in_specs t)) ->
  (Ao -> Forall (fun s => port_fields_ok s /\ has_number (node_specs t) (s_node s) (s_port s) = true) (exported_out_specs t)) ->
  exists infos ei bi eo bo, setup_conn_ids t = Ret (set_conn_ids t infos bi bo)
    /\ ids_at (fun a b => visited a b || has_number (node_specs t) a b) (blen (node_specs t)) 0 (infos, (ei, bi), (eo, bo)).
Proof.
  intros Hst Hei Heo. destruct (number_nodes_spec (node_specs t) [] visited _ eq_refl Hei Heo Hst) as (st & Hr & Hst').
  destruct st as [[infos [ei bi]] [eo bo]]. exists infos, ei, bi, eo, bo. split.
  - unfold setup_conn_ids. change 0 with (blen (@nil node_type)) at 3. by rewrite Hr.
  - rewrite blen_nil, Z.add_0_l in Hst'. eapply ids_at_ext; [exact Hst'|]. intros a b. cbn.
    destruct (visited a b); [done|]. cbn. unfold has_number. destruct (0 <=? a); done.
Qed.
End Numbering.

(** ** What a set up type satisfies *)

(** The port an exported port stands for. *)
Definition get_in (l : list node_type) (s : port_spec) : option port_type :=
  nt ← l !! Z.to_nat (s_node s); ports_in nt !! Z.to_nat (s_port s).

Definition get_out (l : list node_type) (s : port_spec) : option port_type :=
  nt ← l !! Z.to_nat (s_node s);
  if s_port s =? SOL_FLOW_NODE_PORT_ERROR then Some port_error else ports_out nt !! Z.to_nat (s_port s).

Definition all_numbered (l : list node_type) (specs : list port_spec) : Prop :=
  Forall (fun s => has_number l (s_node s) (s_port s) = true) specs.

Record exports_ok (l : list node_type) (get : list node_type -> port_spec -> option port_type)
    (deg : Z -> Z -> Z) (specs : list port_spec) (count : Z) (types : list port_type) (bases : list Z) : Prop := {
  ex_count : count = blen specs /\ count < UINT16_MAX;
  ex_fields : Forall port_fields_ok specs;
  ex_sorted : StronglySorted port_lt specs;
  ex_types : Forall2 (fun s pt => exists p, get l s = Some p /\ ptype pt = ptype p /\ api_ok pt = true) specs types;
  ex_room : length bases = length specs;
  ex_bases : all_numbered l specs -> forall k s, specs !! k = Some s -> bases !! k = Some (deg (s_node s) (s_port s))
}.

Record type_ok (t : flow_static_type) : Prop := {
  ok_nodes : node_count t = blen (node_specs t) /\ 0 < node_count t <= UINT16_MAX /\ Forall node_type_ok (node_specs t);
  ok_conns : conn_count t = blen (conn_specs t) /\ conn_count t <= UINT16_MAX
    /\ Forall conn_fields_ok (conn_specs t) /\ Forall (conn_ok (node_specs t)) (conn_specs t)
    /\ StronglySorted conn_le (conn_specs t);
  ok_first : infos_first (node_count t) (node_infos t) (conn_specs t);
  ok_ids : numbered (conn_specs t) (has_number (node_specs t)) (conn_infos t);
  ok_in : exports_ok (node_specs t) get_in (fun n p => count_into n p (conn_specs t))
    (exported_in_specs t) (ports_in_count t) (type_ports_in t) (ports_in_base_conn_id t);
  ok_out : exports_ok (node_specs t) get_out (fun n p => count_out n p (conn_specs t))
    (exported_out_specs t) (ports_out_count t) (type_ports_out t) (ports_out_base_conn_id t)
}.

(** What the code takes for granted of its argument: fields are 16 bit wide
    and exported ports are ports of the nodes. *)
Record spec_typed (s : flow_static_spec) : Prop := {
  st_nodes : Forall node_type_ok (sp_nodes s);
  st_conns : Forall conn_fields_ok (sp_conns s);
  st_in : Forall (fun e => port_fields_ok e /\ port_ok flow_port_in_is_valid (sp_nodes s) (s_node e) (s_port e)) (sp_exported_in s);
  st_out : Forall (fun e => port_fields_ok e /\ port_ok flow_port_out_is_valid (sp_nodes s) (s_node e) (s_port e)) (sp_exported_out s)
}.

(** What it checks. *)
Record spec_accepted (s : flow_static_spec) : Prop := {
  sa_nodes : 0 < blen (sp_nodes s) <= UINT16_MAX /\ storage (sp_nodes s) <= UINT_MAX;
  sa_conns : blen (sp_conns s) <= UINT16_MAX /\ Forall (conn_ok (sp_nodes s)) (sp_conns s)
    /\ StronglySorted conn_le (sp_conns s);
  sa_in : blen (sp_exported_in s) < UINT16_MAX /\ StronglySorted port_lt (sp_exported_in s);
  sa_out : blen (sp_exported_out s) < UINT16_MAX /\ StronglySorted port_lt (sp_exported_out s)
}.

Lemma port_lt_trans a b c : port_lt a b -> port_lt b c -> port_lt a c.
Proof. unfold port_lt. lia. Qed.

Lemma check_ports_spec l : forall acc,
  StronglySorted port_lt acc -> blen (acc ++ l) <= UINT16_MAX ->
  match check_ports (last acc) l (blen acc) with
  | inl e => e < 0 /\ ~ StronglySorted port_lt (acc ++ l)
  | inr c => c = blen (acc ++ l) /\ StronglySorted port_lt (acc ++ l)
  end.
Proof.
  induction l as [|s l IH]; intros acc Hs Hlen; cbn [check_ports].
  - by rewrite app_nil_r.
  - rewrite blen_app, blen_cons in Hlen. pose proof (blen_nonneg l). destruct (Z.ltb_spec (blen acc) UINT16_MAX); [|lia].
    assert (blen (acc ++ [s]) = blen acc + 1) as Hsnoc by (rewrite blen_app; done).
    assert (StronglySorted port_lt (acc ++ [s]) -> match check_ports (Some s) l (blen acc + 1) with
      | inl e => e < 0 /\ ~ StronglySorted port_lt (acc ++ s :: l)
      | inr c => c = blen (acc ++ s :: l) /\ StronglySorted port_lt (acc ++ s :: l)
      end) as Hgo.
    { intros Hs'. specialize (IH (acc ++ [s]) Hs'). rewrite last_snoc, Hsnoc, <- app_assoc in IH. cbn [app] in IH.
      apply IH. rewrite blen_app, blen_cons. lia. }
    destruct (last acc) as [p|] eqn:El.
    + apply last_Some in El as (acc' & ->). destruct (_ || _) eqn:Eo.
      * split; [done|]. intros Hss. assert (port_lt p s) as Hps.
        { eapply StronglySorted_app_1_elem_of; [exact Hss| |by left].
          apply elem_of_app. right. by apply list_elem_of_singleton. }
        unfold port_lt in Hps. apply orb_true_iff in Eo as [Eo%Z.ltb_lt|[E1%Z.eqb_eq E2%Z.leb_le]%andb_true_iff]; lia.
      * apply Hgo. apply StronglySorted_app_2; [|done|repeat constructor].
        assert (port_lt p s) as Hps.
        { apply orb_false_iff in Eo as [E1%Z.ltb_ge E2]. unfold port_lt.
          destruct (Z.eqb_spec (s_node s) (s_node p)); [|lia]. cbn in E2. apply Z.leb_gt in E2. lia. }
        intros x y Hx ->%list_elem_of_singleton. apply elem_of_app in Hx as [Hx| ->%list_elem_of_singleton]; [|done].
        eapply port_lt_trans; [|exact Hps].
        eapply StronglySorted_app_1_elem_of; [exact Hs|done|by apply list_elem_of_singleton].
    + apply last_None in El as ->. apply Hgo. repeat constructor.
Qed.

Lemma check_ports_many l : forall prev c,
  0 <= c <= UINT16_MAX -> UINT16_MAX <= c + blen l ->
  match check_ports prev l c with inl e => e < 0 | inr c => c = UINT16_MAX end.
Proof.
  induction l as [|s l IH]; intros prev c Hc Hlen; cbn [check_ports]; [rewrite blen_nil in Hlen; lia|].
  rewrite blen_cons in Hlen. destruct (Z.ltb_spec c UINT16_MAX); [|lia].
  destruct prev as [p|]; [destruct (_ || _); [done|]|]; apply IH; lia.
Qed.

Lemma validate_port_specs_spec l :
  match validate_port_specs l with
  | inl e => e < 0 /\ ~ (blen l < UINT16_MAX /\ StronglySorted port_lt l)
  | inr c => c = blen l /\ blen l < UINT16_MAX /\ StronglySorted port_lt l
  end.
Proof.
  unfold validate_port_specs. destruct (decide (blen l < UINT16_MAX)) as [Hlt|Hge].
  - pose proof (check_ports_spec l [] ltac:(constructor) ltac:(cbn [app]; lia)) as Hc. cbn [last app] in Hc.
    change (blen (@nil port_spec)) with 0 in Hc. destruct (check_ports None l 0) as [e|c].
    + destruct Hc as [? Hno]. split; [done|]. by intros [_ ?].
    + destruct Hc as [-> Hs]. rewrite (proj2 (Z.eqb_neq _ _)) by lia. done.
  - pose proof (check_ports_many l None 0 ltac:(zlia) ltac:(lia)) as Hc. destruct (check_ports None l 0) as [e|c].
    + split; [done|]. intros [? _]. lia.
    + subst c. cbn. split; [done|]. intros [? _]. lia.
Qed.

Lemma get_in_some l s :
  port_fields_ok s -> port_ok flow_port_in_is_valid l (s_node s) (s_port s) ->
  exists nt p, l !! Z.to_nat (s_node s) = Some nt /\ at_index l (s_node s) = Ret nt
    /\ sol_flow_node_type_get_port_in nt (s_port s) = Ret p /\ get_in l s = Some p.
Proof.
  intros [[? _] [? _]] Hp. unfold port_ok in Hp. destruct (l !! Z.to_nat (s_node s)) as [nt|] eqn:E; [|done].
  unfold flow_port_in_is_valid in Hp. destruct (Z.leb_spec (blen (ports_in nt)) (s_port s)); [done|].
  destruct (at_index_lt (ports_in nt) (s_port s) ltac:(lia)) as (p & Hl & Ha).
  exists nt, p. split_and!; [done|by apply at_index_some|done|]. unfold get_in. by rewrite E.
Qed.

Lemma get_out_some l s :
  port_fields_ok s -> port_ok flow_port_out_is_valid l (s_node s) (s_port s) ->
  exists nt p, l !! Z.to_nat (s_node s) = Some nt /\ at_index l (s_node s) = Ret nt
    /\ sol_flow_node_type_get_port_out nt (s_port s) = Ret p /\ get_out l s = Some p.
Proof.
  intros [[? _] [? _]] Hp. unfold port_ok in Hp. destruct (l !! Z.to_nat (s_node s)) as [nt|] eqn:E; [|done].
  unfold flow_port_out_is_valid, sol_flow_node_type_get_port_out, get_out in *. rewrite E. cbn [mbind option_bind].
  destruct (s_port s =? SOL_FLOW_NODE_PORT_ERROR).
  - exists nt, port_error. split_and!; [done|by apply at_index_some|done|done].
  - destruct (Z.leb_spec (blen (ports_out nt)) (s_port s)); [done|].
    destruct (at_index_lt (ports_out nt) (s_port s) ltac:(lia)) as (p & Hl & Ha).
    exists nt, p. split_and!; [done|by apply at_index_some|done|done].
Qed.

Lemma exported_types_spec t (get : node_type -> Z -> outcome port_type) (look : list node_type -> port_spec -> option port_type) specs :
  Forall (fun s => exists nt p, at_index (node_specs t) (s_node s) = Ret nt /\ get nt (s_port s) = Ret p
            /\ look (node_specs t) s = Some p) specs ->
  exists l, exported_types t get specs = Ret l
    /\ Forall2 (fun s pt => exists p, look (node_specs t) s = Some p /\ ptype pt = ptype p /\ api_ok pt = true) specs l.
Proof.
  induction 1 as [|s specs (nt & p & Hn & Hp & Hl) _ (l & Hr & IH)]; cbn [exported_types]; [by exists []|].
  rewrite Hn, bind_ret, Hp, bind_ret, Hr, bind_ret. eexists. split; [done|]. constructor; [|done]. by exists p.
Qed.

Section SetupProofs.
Context `{Allocator}.

(** Some request of a moderate size failed. *)
Definition out_of_memory : Prop := exists n, 0 <= n <= 4194304 /\ alloc_ok n = false.

Lemma malloc_or_fail n : 0 <= n <= 4194304 -> (exists m, c_malloc n = Some m) \/ (c_malloc n = None /\ out_of_memory).
Proof.
  intros Hn. unfold c_malloc. destruct (alloc_ok n) eqn:E; [left; by eexists|]. right. split; [done|]. by exists n.
Qed.

Lemma setup_exported_spec t get look specs bytes :
  Forall (fun s => exists nt p, at_index (node_specs t) (s_node s) = Ret nt /\ get nt (s_port s) = Ret p
            /\ look (node_specs t) s = Some p) specs ->
  blen specs < UINT16_MAX -> 0 <= bytes <= 64 ->
  (setup_exported t get specs (blen specs) bytes = Ret None /\ out_of_memory)
  \/ exists l, setup_exported t get specs (blen specs) bytes = Ret (Some (l, replicate (length specs) 0))
      /\ Forall2 (fun s pt => exists p, look (node_specs t) s = Some p /\ ptype pt = ptype p /\ api_ok pt = true) specs l.
Proof.
  intros Hs Hlen Hb. unfold setup_exported. rewrite Z.gtb_ltb.
  destruct (Z.ltb_spec 0 (blen specs)) as [Hpos|Hz].
  - destruct (malloc_or_fail (blen specs * bytes)) as [[m1 ->]|[-> Hm]]; [unfold UINT16_MAX in *; nia| |by left].
    destruct (malloc_or_fail (blen specs * 2)) as [[m2 ->]|[-> Hm]]; [unfold UINT16_MAX in *; nia| |by left].
    right. rewrite take_ge by (rewrite blen_to_nat; lia).
    destruct (exported_types_spec t get look specs Hs) as (l & -> & Hl). rewrite bind_ret, blen_to_nat. by exists l.
  - right. assert (specs = []) as -> by (apply blen_zero_nil; pose proof (blen_nonneg specs); lia). by exists [].
Qed.

Lemma setup_node_specs_spec s :
  spec_typed s ->
  (exists r, setup_node_specs (type_init s) = (r, type_init s) /\ r < 0 /\ (~ spec_accepted s \/ out_of_memory))
  \/ setup_node_specs (type_init s)
     = (0, set_nodes_setup (type_init s) (replicate (length (sp_nodes s)) 0) (blen (sp_nodes s)) (storage (sp_nodes s)))
     /\ 0 < blen (sp_nodes s) <= UINT16_MAX /\ storage (sp_nodes s) <= UINT_MAX.
Proof.
  intros Hs. pose proof (st_nodes _ Hs) as Hn. unfold setup_node_specs. cbn [node_specs type_init].
  pose proof (blen_nonneg (sp_nodes s)). destruct (decide (blen (sp_nodes s) <= UINT16_MAX)) as [Hle|Hgt].
  - rewrite sum_nodes_fits by (done || lia). case_bool_decide as Hsto.
    + rewrite !Z.add_0_l. destruct (Z.eqb_spec (blen (sp_nodes s)) 0) as [Hz|Hnz].
      { left. eexists. split; [done|]. split; [done|]. left. intros [[? _] _ _ _]. lia. }
      destruct (malloc_or_fail (blen (sp_nodes s) * 2)) as [[m ->]|[-> Hm]]; [unfold UINT16_MAX in *; lia| |left; eexists; split_and!; [done|done|by right]].
      right. rewrite blen_to_nat. split_and!; [done|lia|lia|]. apply Hsto. intros Hnil. apply Hnz. by rewrite Hnil.
    + left. eexists. split; [done|]. split; [done|]. left. intros [[? ?] _ _ _]. apply Hsto. intros _. lia.
  - left. pose proof (sum_nodes_many (sp_nodes s) 0 0 Hn ltac:(unfold UINT16_MAX in *; lia)) as Hmany.
    assert (~ spec_accepted s) as Hno by (intros [[? _] _ _ _]; lia).
    destruct (sum_nodes (sp_nodes s) 0 0) as [e|[[c sz] rest]]; [eexists; split_and!; [done|done|by left]|].
    destruct (c =? 0); [eexists; split_and!; [done|done|by left]|]. destruct rest; [done|]. eexists; split_and!; [done|done|by left].
Qed.

Lemma infos_first_start n : infos_first (Z.of_nat n) (replicate n 0) [].
Proof. split; [apply blen_replicate|]. intros i Hi. apply lookup_replicate_2. lia. Qed.

Lemma numbered_start l : numbered l (fun _ _ => false) (replicate (length l) {| out_conn_id := 0; in_conn_id := 0 |}).
Proof. split; [apply length_replicate|]. intros k c Hc. apply lookup_replicate_2. by eapply lookup_lt_Some. Qed.

Lemma setup_conn_specs_spec s infos0 size :
  spec_typed s -> 0 < blen (sp_nodes s) <= UINT16_MAX -> infos_first (blen (sp_nodes s)) infos0 [] ->
  let t := set_nodes_setup (type_init s) infos0 (blen (sp_nodes s)) size in
  (exists r, setup_conn_specs t = Ret (r, t) /\ r < 0 /\ (~ spec_accepted s \/ out_of_memory))
  \/ exists infos cinfos, setup_conn_specs t = Ret (0, set_conns_setup t infos cinfos (blen (sp_conns s)))
     /\ infos_first (blen (sp_nodes s)) infos (sp_conns s) /\ numbered (sp_conns s) (has_number (sp_nodes s)) cinfos
     /\ blen (sp_conns s) <= UINT16_MAX /\ Forall (conn_ok (sp_nodes s)) (sp_conns s)
     /\ StronglySorted conn_le (sp_conns s).
Proof.
  intros Hs Hn Hi t. pose proof (st_conns _ Hs) as Hf. unfold setup_conn_specs. cbn [conn_specs node_infos t set_nodes_setup type_init].
  pose proof (blen_nonneg (sp_conns s)) as Hnn. destruct (decide (blen (sp_conns s) <= UINT16_MAX)) as [Hle|Hgt].
  - destruct (check_conns_spec t (sp_conns s) [] infos0 eq_refl Hf ltac:(constructor) Hi Hle) as (r & Hr & Hres).
    cbn [last app] in Hr, Hres. change (blen (@nil conn_spec)) with 0 in Hr. rewrite Hr, bind_ret.
    destruct r as [e|[[count infos] rest]].
    { left. destruct Hres as [-> Hno]. eexists. split_and!; [done|done|]. left. intros [_ (_ & ? & ?) _ _]. by apply Hno. }
    destruct Hres as (-> & -> & Hfirst & Hok & Hsorted). rewrite Z.gtb_ltb.
    set (zeros := replicate (Z.to_nat (blen (sp_conns s))) {| out_conn_id := 0; in_conn_id := 0 |}).
    assert (numbered (sp_conns s) (fun _ _ => false) zeros) as Hz by (unfold zeros; rewrite blen_to_nat; apply numbered_start).
    assert (forall exps, following False exps (fun _ _ => 0) 0 0 0 (0, [])) as Hfol.
    { intros exps. pose proof (blen_nonneg exps). split_and!; cbn; (done || lia). }
    assert (exists cinfos, setup_conn_ids (set_conns_setup t infos zeros (blen (sp_conns s)))
      = Ret (set_conns_setup t infos cinfos (blen (sp_conns s)))
      /\ numbered (sp_conns s) (has_number (sp_nodes s)) cinfos) as (cinfos & Hids & Hnum).
    { destruct (setup_conn_ids_spec (set_conns_setup t infos zeros (blen (sp_conns s))) False False Hle
        ltac:(done) ltac:(done) (fun _ _ => false)) as (ci & ei & bi & eo & bo & Hrun & Hnum & (_ & _ & Hbi & _) & (_ & _ & Hbo & _)).
      { split_and!; cbn; [exact Hz|..]; (pose proof (blen_nonneg (sp_exported_in s)); pose proof (blen_nonneg (sp_exported_out s));
          split_and!; cbn; (done || lia)). }
      { done. }
      { done. }
      cbn in Hbi, Hbo. destruct bi, bo; try done. exists ci. split; [exact Hrun|]. cbn in Hnum.
      eapply numbered_ext; [exact Hnum|]. done. }
    destruct (Z.ltb_spec 0 (blen (sp_conns s))) as [Hpos|Hz0].
    + destruct (malloc_or_fail (blen (sp_conns s) * 4)) as [[m ->]|[-> Hm]];
        [unfold UINT16_MAX in *; lia| |left; eexists; split_and!; [done|done|by right]].
      right. exists infos, cinfos. by rewrite Hids, bind_ret.
    + right. exists infos, cinfos.
      assert ([] = zeros) as -> by (unfold zeros; by replace (blen (sp_conns s)) with 0 by lia). by rewrite Hids, bind_ret.
  - left. destruct (check_conns_many t (sp_conns s) None 0 infos0 eq_refl Hf ltac:(unfold UINT16_MAX in *; lia)) as (r & Hr & Hres).
    rewrite Hr, bind_ret. assert (~ spec_accepted s) as Hno by (intros [_ [? _] _ _]; lia).
    destruct r as [e|[[c i] rest]]; [eexists; split_and!; [done|done|by left]|]. destruct rest; [done|]. eexists; split_and!; [done|done|by left].
Qed.

Lemma setup_exported_ports_spec s t :
  spec_typed s -> node_specs t = sp_nodes s -> exported_in_specs t = sp_exported_in s ->
  exported_out_specs t = sp_exported_out s ->
  (exists r, setup_exported_ports_specs t = Ret (r, t) /\ r < 0 /\ (~ spec_accepted s \/ out_of_memory))
  \/ exists pi po, setup_exported_ports_specs t
       = Ret (0, set_ports_setup t (blen (sp_exported_in s)) (blen (sp_exported_out s)) pi po
                   (replicate (length (sp_exported_in s)) 0) (replicate (length (sp_exported_out s)) 0))
     /\ Forall2 (fun e pt => exists p, get_in (sp_nodes s) e = Some p /\ ptype pt = ptype p /\ api_ok pt = true) (sp_exported_in s) pi
     /\ Forall2 (fun e pt => exists p, get_out (sp_nodes s) e = Some p /\ ptype pt = ptype p /\ api_ok pt = true) (sp_exported_out s) po
     /\ (blen (sp_exported_in s) < UINT16_MAX /\ StronglySorted port_lt (sp_exported_in s))
     /\ (blen (sp_exported_out s) < UINT16_MAX /\ StronglySorted port_lt (sp_exported_out s)).
Proof.
  intros Hs Hn Hei Heo. unfold setup_exported_ports_specs. rewrite Hei, Heo.
  pose proof (validate_port_specs_spec (sp_exported_in s)) as Hvi.
  pose proof (validate_port_specs_spec (sp_exported_out s)) as Hvo.
  destruct (validate_port_specs (sp_exported_in s)) as [e|ci].
  { left. eexists. split_and!; [done|done|]. left. intros [_ _ ? _]. by apply Hvi. }
  destruct (validate_port_specs (sp_exported_out s)) as [e|co].
  { left. eexists. split_and!; [done|done|]. left. intros [_ _ _ ?]. by apply Hvo. }
  destruct Hvi as (-> & Hli & Hsi), Hvo as (-> & Hlo & Hso).
  destruct (setup_exported_spec t sol_flow_node_type_get_port_in get_in (sp_exported_in s) port_in_bytes)
    as [[-> Hm]|(pi & -> & Hpi)]; [|done|done| |].
  { eapply Forall_impl; [apply (st_in _ Hs)|]. intros e [Hf Hp]. rewrite Hn.
    destruct (get_in_some _ _ Hf Hp) as (nt & p & _ & ? & ? & ?). by exists nt, p. }
  { left. rewrite bind_ret. eexists. split_and!; [done|done|by right]. }
  rewrite bind_ret.
  destruct (setup_exported_spec t sol_flow_node_type_get_port_out get_out (sp_exported_out s) port_out_bytes)
    as [[-> Hm]|(po & -> & Hpo)]; [|done|done| |].
  { eapply Forall_impl; [apply (st_out _ Hs)|]. intros e [Hf Hp]. rewrite Hn.
    destruct (get_out_some _ _ Hf Hp) as (nt & p & _ & ? & ? & ?). by exists nt, p. }
  { left. rewrite bind_ret. eexists. split_and!; [done|done|by right]. }
  rewrite bind_ret, Hn in *. right. by exists pi, po.
Qed.

Lemma exported_start specs deg :
  Forall port_fields_ok specs ->
  exported_at specs deg 0 0 (0, replicate (length specs) 0).
Proof.
  intros Hf. pose proof (blen_nonneg specs). split_and!; cbn [fst snd]; [done|done|apply length_replicate|lia|].
  intros k s Hk _. rewrite Forall_lookup in Hf. destruct (Hf k s Hk) as [[? _] [? _]]. lia.
Qed.

Lemma following_start A specs deg :
  Forall port_fields_ok specs -> following A specs deg 0 0 (blen specs) (0, replicate (length specs) 0).
Proof.
  intros Hf. pose proof (blen_nonneg specs). split; [done|]. split; [lia|]. split.
  - cbn [snd]. by rewrite length_replicate, blen_to_nat.
  - intros _. split; [done|]. by apply exported_start.
Qed.

(** Behind the last node every exported port has its number. *)
Lemma exported_end l specs deg e bases :
  all_numbered l specs -> exported_at specs deg (blen l) 0 (e, bases) ->
  forall k s, specs !! k = Some s -> bases !! k = Some (deg (s_node s) (s_port s)).
Proof.
  intros Hall (_ & _ & Hdone & Hrest) k s Hk. cbn [fst snd] in *. apply (Hdone k s Hk).
  destruct (Z.lt_ge_cases (Z.of_nat k) e) as [|Hge]; [done|]. exfalso.
  unfold all_numbered in Hall. rewrite Forall_lookup in Hall. specialize (Hall k s Hk). unfold has_number in Hall.
  destruct (l !! Z.to_nat (s_node s)) eqn:El; [|by rewrite andb_false_r in Hall].
  apply lookup_lt_Some in El. destruct (Hrest k s Hk Hge); unfold blen in *; lia.
Qed.

Lemma flow_static_type_init_spec s :
  spec_typed s ->
  exists r t, flow_static_type_init s = Ret (r, t)
    /\ (r = 0 /\ spec_accepted s /\ type_ok t
          /\ (node_specs t, conn_specs t, exported_in_specs t, exported_out_specs t)
             = (sp_nodes s, sp_conns s, sp_exported_in s, sp_exported_out s)
        \/ r < 0 /\ (~ spec_accepted s \/ out_of_memory)).
Proof.
  intros Hs. unfold flow_static_type_init.
  destruct (setup_node_specs_spec s Hs) as [(r & -> & Hr & Hwhy)|(-> & Hn & Hsto)].
  { rewrite (proj2 (Z.ltb_lt r 0) Hr). exists r, (type_init s). split; [done|]. by right. }
  cbn [Z.ltb Z.compare].
  destruct (setup_conn_specs_spec s (replicate (length (sp_nodes s)) 0) (storage (sp_nodes s)) Hs Hn
    (infos_first_start _)) as [(r & -> & Hr & Hwhy)|(infos & cinfos & -> & Hfirst & Hnum & Hcl & Hcok & Hcs)].
  { rewrite bind_ret, (proj2 (Z.ltb_lt r 0) Hr). do 2 eexists. split; [done|]. by right. }
  rewrite bind_ret. cbn [Z.ltb Z.compare].
  set (t1 := set_conns_setup _ infos cinfos _).
  destruct (setup_exported_ports_spec s t1 Hs eq_refl eq_refl eq_refl)
    as [(r & -> & Hr & Hwhy)|(pi & po & -> & Hpi & Hpo & [Hil His] & [Hol Hos])].
  { rewrite bind_ret, (proj2 (Z.ltb_lt r 0) Hr). do 2 eexists. split; [done|]. by right. }
  rewrite bind_ret. cbn [Z.ltb Z.compare]. set (t2 := set_ports_setup t1 _ _ pi po _ _).
  set (Ai := all_numbered (sp_nodes s) (sp_exported_in s)). set (Ao := all_numbered (sp_nodes s) (sp_exported_out s)).
  assert (forall A exps, A = all_numbered (sp_nodes s) exps -> Forall port_fields_ok exps -> A ->
    Forall (fun e => port_fields_ok e /\ has_number (sp_nodes s) (s_node e) (s_port e) = true) exps) as Hboth.
  { intros A exps -> Hf HA. apply Forall_and. by split. }
  assert (Forall port_fields_ok (sp_exported_in s)) as Hfi by (eapply Forall_impl; [apply (st_in _ Hs)|by intros ? []]).
  assert (Forall port_fields_ok (sp_exported_out s)) as Hfo by (eapply Forall_impl; [apply (st_out _ Hs)|by intros ? []]).
  destruct (setup_conn_ids_spec t2 Ai Ao Hcl (fun _ => His) (fun _ => Hos) (has_number (sp_nodes s)))
    as (ci & ei & bi & eo & bo & Hids & Hnum2 & (_ & _ & Hbi & HAi) & (_ & _ & Hbo & HAo)).
  { split; [exact Hnum|]. split; by apply following_start. }
  { by apply Hboth. }
  { by apply Hboth. }
  rewrite Hids, bind_ret. do 2 eexists. split; [done|]. left. split; [done|]. split; [by split|]. split; [|done].
  cbn [fst snd] in Hbi, Hbo, HAi, HAo, Hnum2.
  split; cbn; try done.
  - split_and!; [done|lia|lia|apply Hs].
  - split_and!; [done|done|apply Hs|done|done].
  - eapply numbered_ext; [exact Hnum2|]. intros a b. cbn. by destruct (has_number _ a b).
  - split; [done|done|done|exact Hpi|rewrite Hbi; apply blen_to_nat|].
    intros HA. destruct (HAi HA) as [_ Hat]. exact (exported_end _ _ _ _ _ HA Hat).
  - split; [done|done|done|exact Hpo|rewrite Hbo; apply blen_to_nat|].
    intros HA. destruct (HAo HA) as [_ Hat]. exact (exported_end _ _ _ _ _ HA Hat).
Qed.

(** C38: Making a static flow type never goes outside its arrays when the
    exported ports are ports of the nodes.  It succeeds exactly for the
    specifications it is meant to accept, unless memory runs out; then each
    node has the index of its first connection, and connections and exported
    ports are numbered: a connection's number counts the earlier ones of the
    same port, as long as the port is below the number of the node's output
    ports. *)
Theorem flow_type_setup_correct s :
  spec_typed s ->
  exists r, sol_flow_static_new_type s = Ret r
    /\ match r with
       | Some t => spec_accepted s /\ type_ok t
           /\ (node_specs t, conn_specs t, exported_in_specs t, exported_out_specs t)
              = (sp_nodes s, sp_conns s, sp_exported_in s, sp_exported_out s)
       | None => ~ spec_accepted s \/ out_of_memory
       end.
Proof.
  intros Hs. unfold sol_flow_static_new_type.
  destruct (malloc_or_fail type_bytes) as [[m ->]|[-> Hm]]; [done| |exists None; split; [done|by right]].
  destruct (flow_static_type_init_spec s Hs) as (r & t & -> & [(-> & Ha & Ht & Hsame)|(Hr & Hwhy)]); rewrite bind_ret.
  - by exists (Some t).
  - rewrite (proj2 (Z.ltb_lt r 0) Hr). by exists None.
Qed.
End SetupProofs.

(** ** Examples *)

#[local] Existing Instance roomy.

Definition a_port : port_type := {| api_ok := true; ptype := Some (PT 1) |}.

(** A source, and a node that has one port in and one out. *)
Definition a_source : node_type := {| data_size := 8; options_size := 4; ports_in := []; ports_out := [a_port] |}.
Definition a_filter : node_type := {| data_size := 0; options_size := 4; ports_in := [a_port]; ports_out := [a_port] |}.
Definition a_sink : node_type := {| data_size := 0; options_size := 4; ports_in := [a_port]; ports_out := [] |}.

(** Two sources into the filter, which can be reached from around. *)
Definition a_flow : flow_static_spec := {|
  sp_nodes := [a_source; a_source; a_filter];
  sp_conns := [{| c_src := 0; c_src_port := 0; c_dst := 2; c_dst_port := 0 |}; {| c_src := 1; c_src_port := 0; c_dst := 2; c_dst_port := 0 |}];
  sp_exported_in := [{| s_node := 2; s_port := 0 |}]; sp_exported_out := [{| s_node := 2; s_port := 0 |}];
  sp_child_opts_set := true
|}.

Lemma a_flow_typed : spec_typed a_flow.
Proof. split; repeat constructor; done. Qed.

Lemma flow_type_setup_correct_witness :
  spec_typed a_flow /\ exists t, sol_flow_static_new_type a_flow = Ret (Some t) /\ type_ok t
    /\ in_conn_id <$> conn_infos t = [0; 1] /\ ports_in_base_conn_id t = [2].
Proof.
  split; [exact a_flow_typed|]. destruct (flow_type_setup_correct a_flow a_flow_typed) as (r & Hr & Hres).
  destruct r as [t|]; [|vm_compute in Hr; discriminate Hr].
  exists t. split; [exact Hr|]. split; [apply Hres|]. vm_compute in Hr. injection Hr as <-. split; reflexivity.
Defined.

(** Connections into a node are numbered only up to the number of its output
    ports: those into a sink all have the number 0, and so has the exported
    port beside them. *)
Definition into_sink : flow_static_spec := {|
  sp_nodes := [a_source; a_source; a_sink]; sp_conns := sp_conns a_flow;
  sp_exported_in := [{| s_node := 2; s_port := 0 |}]; sp_exported_out := []; sp_child_opts_set := false
|}.

Lemma sink_connections_share_a_number :
  exists t, sol_flow_static_new_type into_sink = Ret (Some t)
    /\ in_conn_id <$> conn_infos t = [0; 0] /\ ports_in_base_conn_id t = [0].
Proof. eexists. split; [vm_compute; reflexivity|]. done. Qed.

(** Connections are checked against the nodes, exported ports are not. *)
Definition export_of_nothing : flow_static_spec := {|
  sp_nodes := [a_source]; sp_conns := []; sp_exported_in := []; sp_exported_out := [{| s_node := 1; s_port := 0 |}];
  sp_child_opts_set := false
|}.

Lemma exported_ports_are_not_checked : sol_flow_static_new_type export_of_nothing = UB.
Proof. vm_compute. reflexivity. Qed.
End FlowStaticProofs.
