(* ===== verification/FlowRun.v ===== *)
(** * Static flows: opening, running and closing

    The second half of src/src/lib/flow/sol-flow-static.c, with
    sol_flow_node_init, sol_flow_node_fini and sol_flow_send_packet of
    sol-flow.c.  The state of a flow is its queue of packets and its timeout;
    the log records every call of a node and the fate of every packet.  Nodes
    may send packets whenever they are called; they do not delete the flow
    from within. *)

From S2P Require Import Prelude FlowStatic.
Import FlowStatic.

#[local] Open Scope Z_scope.

Module FlowRun.

Record packet := { pk_id : Z; pk_type : option packet_type }.

Record delayed_packet := { dp_packet : packet; source_idx : Z; source_port_idx : Z }.

Inductive event :=
| Init (node : Z) | Fini (node : Z)
| ConnectOut (node port conn_id : Z) | ConnectIn (node port conn_id : Z)
| DisconnectOut (node port conn_id : Z) | DisconnectIn (node port conn_id : Z)
| Process (node port conn_id : Z) (p : packet)      (** delivered along a connection *)
| Input (node port conn_id : Z) (p : packet)        (** delivered from an exported port *)
| Accepted (dp : delayed_packet)                    (** queued *)
| Rejected (p : packet)                             (** deleted by the sender *)
| Deleted (p : packet)                              (** deleted by the flow *)
| ExportedOut (port : Z) (p : packet)               (** handed to the flow around *)
| TimeoutAdd | TimeoutDel.

(** [delay_send] is the pointer, which may outlive the timeout. *)
Record flow_static_data := {
  delayed_packets : list delayed_packet; delay_send : bool; timeout_armed : bool; log : list event
}.

Definition set_delayed (w : flow_static_data) l := {| delayed_packets := l; delay_send := delay_send w; timeout_armed := timeout_armed w; log := log w |}.
Definition set_timeout (w : flow_static_data) d a := {| delayed_packets := delayed_packets w; delay_send := d; timeout_armed := a; log := log w |}.
Definition note (w : flow_static_data) e := {| delayed_packets := delayed_packets w; delay_send := delay_send w; timeout_armed := timeout_armed w; log := log w ++ [e] |}.

(** What the nodes and the system do, given all that happened: the packets
    (node, port, packet) a node sends while it is called, what the call
    answers, and whether requests succeed. *)
Class FlowNodes := {
  sends : list event -> list (Z * Z * packet);
  answer : list event -> Z;
  timeout_ok : list event -> bool;
  packet_memory : list event -> bool;
  options_ok : list event -> bool
}.

Section Running.
Context `{Allocator} `{FlowNodes} (t : flow_static_type).

(** ** Sending *)

Definition flow_delay_send (w : flow_static_data) : Z * flow_static_data :=
  if delay_send w then (0, w)
  else if timeout_ok (log w) then (0, set_timeout (note w TimeoutAdd) true true)
  else (- ENOMEM, w).

Definition flow_send (w : flow_static_data) (src_idx port : Z) (p : packet) : outcome (Z * flow_static_data) :=
  n ← at_index (node_specs t) src_idx;
  pt ← sol_flow_node_type_get_port_out n port;
  match pk_type p with
  | None => Ret (- EINVAL, w)
  | Some ty =>
      let matched := match ptype pt with Some pty => match_packets pty ty | None => bool_decide (ty = PT_ANY) end in
      if negb matched then
        (* the names of both types go into the warning *)
        match ptype pt with Some _ => Ret (- EINVAL, w) | None => UB end
      else if negb (flow_port_out_is_valid n port) then Ret (- EINVAL, w)
      else
        let '(r, w) := flow_delay_send w in
        if r <? 0 then Ret (r, w)
        else if packet_memory (log w) then
          let dp := {| dp_packet := p; source_idx := src_idx; source_port_idx := port |} in
          Ret (0, note (set_delayed w (delayed_packets w ++ [dp])) (Accepted dp))
        else Ret (- ENOMEM, w)
  end.

(** For a node inside a flow. *)
Definition sol_flow_send_packet (w : flow_static_data) (src port : Z) (p : packet) : outcome (Z * flow_static_data) :=
  '(ret, w) ← flow_send w src port p;
  Ret (ret, if negb (ret =? 0) then note w (Rejected p) else w).

Fixpoint send_all (w : flow_static_data) (l : list (Z * Z * packet)) : outcome flow_static_data :=
  match l with
  | [] => Ret w
  | (n, port, p) :: l => '(_, w) ← sol_flow_send_packet w n port p; send_all w l
  end.

(** A node is called: it may send, and answers. *)
Definition call (w : flow_static_data) (e : event) : outcome (Z * flow_static_data) :=
  let w := note w e in
  let r := answer (log w) in
  w ← send_all w (sends (log w)); Ret (r, w).

(** ** Delivery *)

Definition dispatch_process (w : flow_static_data) (node port conn_id : Z) (p : packet) : outcome flow_static_data :=
  n ← at_index (node_specs t) node;
  _ ← sol_flow_node_type_get_port_in n port;
  '(_, w) ← call w (Process node port conn_id p); Ret w.

(** The connections from the first one of the source on, while they are of
    the source; [i] is the index of the first of [specs]. *)
Fixpoint deliver (w : flow_static_data) (src_idx port : Z) (p : packet) (specs : list conn_spec) (i : Z)
    : outcome flow_static_data :=
  match specs with
  | [] => Ret w
  | spec :: specs =>
      if c_src spec =? src_idx then
        if negb (c_src_port spec =? port) then deliver w src_idx port p specs (i + 1)
        else
          ci ← at_index (conn_infos t) i;
          w ← dispatch_process w (c_dst spec) (c_dst_port spec) (in_conn_id ci) p;
          deliver w src_idx port p specs (i + 1)
      else Ret w
  end.

(** The exported port of an output port. *)
Fixpoint exported_port (specs : list port_spec) (node port i : Z) : option Z :=
  match specs with
  | [] => None
  | s :: specs =>
      if (s_node s =? node) && (s_port s =? port) then Some i else exported_port specs node port (i + 1)
  end.

Definition flow_send_do (w : flow_static_data) (src_idx port : Z) (p : packet) : outcome flow_static_data :=
  first ← at_index (node_infos t) src_idx;
  if blen (conn_specs t) <? first then UB
  else
    w ← deliver w src_idx port p (drop (Z.to_nat first) (conn_specs t)) first;
    match (if ports_out_count t >? 0 then exported_port (exported_out_specs t) src_idx port 0 else None) with
    | Some k => '(_, w) ← call w (ExportedOut k p); Ret w
    | None => Ret (note w (Deleted p))
    end.

Fixpoint send_stolen (w : flow_static_data) (l : list delayed_packet) : outcome flow_static_data :=
  match l with
  | [] => Ret w
  | dp :: l => w ← flow_send_do w (source_idx dp) (source_port_idx dp) (dp_packet dp); send_stolen w l
  end.

(** The timeout fires; it does not stay. *)
Definition flow_send_idle (w : flow_static_data) : outcome flow_static_data :=
  let w := set_timeout w false false in
  send_stolen (set_delayed w []) (delayed_packets w).

Definition delete_delayed_packets (w : flow_static_data) : flow_static_data :=
  let w := if delay_send w then set_timeout (note w TimeoutDel) (delay_send w) false else w in
  foldl (fun w dp => note w (Deleted (dp_packet dp))) (set_delayed w []) (delayed_packets w).

(** ** Exported ports *)

(** The node's port behind an exported input port, and the number there. *)
Definition exported_in_target (port conn_id : Z) : outcome (Z * Z * Z) :=
  s ← at_index (exported_in_specs t) port;
  base ← at_index (ports_in_base_conn_id t) port;
  Ret (s_node s, s_port s, wrapu 16 (base + conn_id)).

Definition exported_out_target (port conn_id : Z) : outcome (Z * Z * Z) :=
  s ← at_index (exported_out_specs t) port;
  base ← at_index (ports_out_base_conn_id t) port;
  Ret (s_node s, s_port s, wrapu 16 (base + conn_id)).

Definition flow_exported_port_process (w : flow_static_data) (port conn_id : Z) (p : packet)
    : outcome (Z * flow_static_data) :=
  '(child, child_port, child_id) ← exported_in_target port conn_id;
  n ← at_index (node_specs t) child;
  _ ← sol_flow_node_type_get_port_in n child_port;
  '(_, w) ← call w (Input child child_port child_id p); Ret (0, w).

Definition flow_exported_connect_port_in (w : flow_static_data) (port conn_id : Z) : outcome (Z * flow_static_data) :=
  '(child, child_port, child_id) ← exported_in_target port conn_id;
  n ← at_index (node_specs t) child;
  _ ← sol_flow_node_type_get_port_in n child_port;
  call w (ConnectIn child child_port child_id).

Definition flow_exported_disconnect_port_in (w : flow_static_data) (port conn_id : Z) : outcome (Z * flow_static_data) :=
  '(child, child_port, child_id) ← exported_in_target port conn_id;
  n ← at_index (node_specs t) child;
  _ ← sol_flow_node_type_get_port_in n child_port;
  call w (DisconnectIn child child_port child_id).

Definition flow_exported_connect_port_out (w : flow_static_data) (port conn_id : Z) : outcome (Z * flow_static_data) :=
  '(child, child_port, child_id) ← exported_out_target port conn_id;
  n ← at_index (node_specs t) child;
  _ ← sol_flow_node_type_get_port_out n child_port;
  call w (ConnectOut child child_port child_id).

Definition flow_exported_disconnect_port_out (w : flow_static_data) (port conn_id : Z) : outcome (Z * flow_static_data) :=
  '(child, child_port, child_id) ← exported_out_target port conn_id;
  n ← at_index (node_specs t) child;
  _ ← sol_flow_node_type_get_port_out n child_port;
  call w (DisconnectOut child child_port child_id).

(** ** Connections *)

Definition dispatch_connect_out w (node port conn_id : Z) := call w (ConnectOut node port conn_id).
Definition dispatch_connect_in w (node port conn_id : Z) := call w (ConnectIn node port conn_id).
Definition dispatch_disconnect_out w (node port conn_id : Z) := call w (DisconnectOut node port conn_id).
Definition dispatch_disconnect_in w (node port conn_id : Z) := call w (DisconnectIn node port conn_id).

(** The ports of a connection. *)
Definition conn_ports (spec : conn_spec) : outcome (port_type * port_type) :=
  s ← at_index (node_specs t) (c_src spec);
  d ← at_index (node_specs t) (c_dst spec);
  src_port_type ← sol_flow_node_type_get_port_out s (c_src_port spec);
  dst_port_type ← sol_flow_node_type_get_port_in d (c_dst_port spec);
  Ret (src_port_type, dst_port_type).

(** How the loop over the connections ends: all made, a return from within,
    or a jump to dispatch_error at an index. *)
Inductive connect_end := AllConnected | Returned (r : Z) | DispatchError (r i : Z).

Fixpoint connect_loop (w : flow_static_data) (specs : list conn_spec) (i : Z)
    : outcome (connect_end * flow_static_data) :=
  match specs with
  | [] => Ret (AllConnected, w)
  | spec :: specs =>
      '(spt, dpt) ← conn_ports spec;
      ci ← at_index (conn_infos t) i;
      if negb (api_ok spt) || negb (api_ok dpt) then Ret (Returned (- EINVAL), w)
      else
        match ptype spt, ptype dpt with
        | None, _ | _, None => Ret (Returned (- EINVAL), w)
        | Some a, Some b =>
            if negb (match_packets a b) then Ret (DispatchError (- EINVAL) i, w)
            else
              '(r, w) ← dispatch_connect_out w (c_src spec) (c_src_port spec) (out_conn_id ci);
              if r <? 0 then Ret (DispatchError r i, w)
              else
                '(r, w) ← dispatch_connect_in w (c_dst spec) (c_dst_port spec) (in_conn_id ci);
                if r <? 0 then
                  '(_, w) ← dispatch_disconnect_out w (c_src spec) (c_src_port spec) (out_conn_id ci);
                  Ret (DispatchError r i, w)
                else connect_loop w specs (i + 1)
        end
  end.

(** The connections below [n], last first; [in_first] tells the order of
    the two calls. *)
Fixpoint disconnect_loop (in_first : bool) (w : flow_static_data) (n : nat) : outcome flow_static_data :=
  match n with
  | O => Ret w
  | S n =>
      spec ← at_index (conn_specs t) (Z.of_nat n);
      ci ← at_index (conn_infos t) (Z.of_nat n);
      _ ← conn_ports spec;
      if in_first then
        '(_, w) ← dispatch_disconnect_in w (c_dst spec) (c_dst_port spec) (in_conn_id ci);
        '(_, w) ← dispatch_disconnect_out w (c_src spec) (c_src_port spec) (out_conn_id ci);
        disconnect_loop in_first w n
      else
        '(_, w) ← dispatch_disconnect_out w (c_src spec) (c_src_port spec) (out_conn_id ci);
        '(_, w) ← dispatch_disconnect_in w (c_dst spec) (c_dst_port spec) (in_conn_id ci);
        disconnect_loop in_first w n
  end.

Definition connect_nodes (w : flow_static_data) : outcome (Z * flow_static_data) :=
  '(e, w) ← connect_loop w (conn_specs t) 0;
  match e with
  | AllConnected => Ret (0, w)
  | Returned r => Ret (r, w)
  | DispatchError r i => w ← disconnect_loop true w (Z.to_nat i); Ret (r, w)
  end.

Definition teardown_connections (w : flow_static_data) : outcome flow_static_data :=
  disconnect_loop false w (Z.to_nat (conn_count t)).

(** ** Opening and closing *)

Definition setup_flow_data : Z * flow_static_data :=
  let w := {| delayed_packets := []; delay_send := false; timeout_armed := false; log := [] |} in
  match c_malloc (node_count t * 8), c_malloc (node_storage_size t) with
  | Some _, Some _ => (0, w)
  | _, _ => (- ENOMEM, w)
  end.

Definition sol_flow_node_init (w : flow_static_data) (i : Z) : outcome (Z * flow_static_data) :=
  '(r, w) ← call w (Init i); Ret (if r <? 0 then r else 0, w).

Definition sol_flow_node_fini (w : flow_static_data) (i : Z) : outcome flow_static_data :=
  '(_, w) ← call w (Fini i); Ret w.

(** sizeof(struct sol_flow_node_options) *)
Definition options_bytes := 4.

(** The loop over the nodes: [r] so far, the index reached, and whether it
    went to error_nodes. *)
Fixpoint open_nodes (w : flow_static_data) (specs : list node_type) (i r : Z)
    : outcome (bool * Z * Z * flow_static_data) :=
  match specs with
  | [] => Ret (true, r, i, w)
  | n :: specs =>
      if child_opts_set t && (options_size n <? options_bytes) then Ret (false, r, i, w)
      else if child_opts_set t && negb (options_ok (log w)) then Ret (false, - ENOMEM, i, w)
      else
        '(r, w) ← sol_flow_node_init w i;
        if r <? 0 then Ret (false, r, i, w) else open_nodes w specs (i + 1) r
  end.

(** for (i--; i >= 0; i--) sol_flow_node_fini(fsd->nodes[i]) *)
Fixpoint fini_nodes (w : flow_static_data) (n : nat) : outcome flow_static_data :=
  match n with
  | O => Ret w
  | S n => w ← sol_flow_node_fini w (Z.of_nat n); fini_nodes w n
  end.

Definition flow_node_open : outcome (Z * flow_static_data) :=
  let '(r, w) := setup_flow_data in
  if r <? 0 then Ret (r, w)
  else
    let '(r, w) := flow_delay_send w in
    if r <? 0 then Ret (r, w)
    else
      '(opened, r, i, w) ← open_nodes w (node_specs t) 0 r;
      '(r, w) ← (if opened then connect_nodes w else Ret (r, w));
      if opened && negb (r <? 0) then Ret (0, w)
      else w ← fini_nodes w (Z.to_nat i); Ret (r, delete_delayed_packets w).

Definition flow_node_close (w : flow_static_data) : outcome flow_static_data :=
  let w := delete_delayed_packets w in
  w ← teardown_connections w;
  fini_nodes w (Z.to_nat (node_count t)).

(** ** What happens between *)

Inductive action :=
| Send (node port : Z) (p : packet)          (** a node sends on its own account *)
| Fire                                       (** an iteration of the main loop *)
| Receive (port conn_id : Z) (p : packet).   (** a packet for an exported port *)

Definition run_action (w : flow_static_data) (a : action) : outcome flow_static_data :=
  match a with
  | Send n port p => '(_, w) ← sol_flow_send_packet w n port p; Ret w
  | Fire => if timeout_armed w then flow_send_idle w else Ret w
  | Receive port conn_id p => '(_, w) ← flow_exported_port_process w port conn_id p; Ret w
  end.

Fixpoint run_actions (w : flow_static_data) (l : list action) : outcome flow_static_data :=
  match l with [] => Ret w | a :: l => w ← run_action w a; run_actions w l end.
End Running.
End FlowRun.
