(* ===== verification/FlowRunProofs.v ===== *)
(** * Static flows at work: theorems

    Whatever its nodes do when they are called, a flow delivers the packets
    it accepts once, in order and in the next iteration of the main loop, and
    a flow that fails to open has undone what it did. *)

From Stdlib Require Import Sorting.Sorted.
From stdpp Require Import sorting.
From S2P Require Import Prelude FlowStatic FlowStaticProofs FlowRun.
Import FlowStatic FlowStaticProofs FlowRun.

#[local] Open Scope Z_scope.

Module FlowRunProofs.

(** ** What is on the log *)

(** Events of sending, which come whenever nodes are called. *)
Definition is_sending (e : event) : bool :=
  match e with Accepted _ | Rejected _ | TimeoutAdd => true | _ => false end.

Definition is_delivery (e : event) : bool :=
  match e with Process _ _ _ _ | ExportedOut _ _ | Deleted _ => true | _ => false end.

Definition kept (e : event) : bool := negb (is_sending e).

Definition trace (h : list event) : list event := List.filter kept h.

Definition deliveries (h : list event) : list event := List.filter is_delivery h.

Definition accepted (h : list event) : list delayed_packet :=
  omap (fun e => match e with Accepted dp => Some dp | _ => None end) h.

Lemma accepted_app h h' : accepted (h ++ h') = accepted h ++ accepted h'.
Proof. apply omap_app. Qed.

Lemma deliveries_app h h' : deliveries (h ++ h') = deliveries h ++ deliveries h'.
Proof. apply List.filter_app. Qed.

Lemma trace_app h h' : trace (h ++ h') = trace h ++ trace h'.
Proof. apply List.filter_app. Qed.

Lemma deliveries_trace h : deliveries (trace h) = deliveries h.
Proof. induction h as [|[] h IH]; [done|..]; first [exact IH|cbn; f_equal; exact IH]. Qed.

Section Logs.
Context (t : flow_static_type).

Definition dp_ok (dp : delayed_packet) : Prop := 0 <= source_idx dp < node_count t.

(** From [w] to [w'] the flow does [es], while nodes may send. *)
Record logs (es : list event) (w w' : flow_static_data) : Prop := {
  lg_log : exists l, log w' = log w ++ l /\ trace l = es
    /\ delayed_packets w' = delayed_packets w ++ accepted l /\ Forall dp_ok (accepted l);
  lg_timeout :
    delay_send w' = delay_send w /\ timeout_armed w' = timeout_armed w
      /\ (delay_send w = true \/ delayed_packets w' = delayed_packets w)
    \/ delay_send w = false /\ delay_send w' = true /\ timeout_armed w' = true
}.

Lemma logs_refl w : logs [] w w.
Proof.
  split; [|left; split_and!; [done|done|by right]]. exists []. cbn. rewrite !app_nil_r. by split_and!.
Qed.

Lemma logs_trans es es' w w1 w2 : logs es w w1 -> logs es' w1 w2 -> logs (es ++ es') w w2.
Proof.
  intros [(l & Hl & Ht & Hd & Hok) Hto] [(l' & Hl' & Ht' & Hd' & Hok') Hto']. split.
  - exists (l ++ l'). rewrite Hl', Hl, trace_app, Ht, Ht', Hd', Hd, accepted_app, !app_assoc.
    split_and!; [done..|]. by apply Forall_app.
  - destruct Hto as [(H1 & H2 & Hs)|(H1 & H2 & H3)], Hto' as [(H1' & H2' & Hs')|(H1' & H2' & H3')];
      [left|right..]; rewrite ?H1', ?H2', ?H1, ?H2 in *; [|done..].
    split_and!; [done|done|]. destruct Hs as [?|Hs]; [by left|]. destruct Hs' as [?|Hs']; [by left|right; congruence].
Qed.

Lemma logs_note e w : kept e = true -> logs [e] w (note w e).
Proof.
  intros He. split; [|left; split_and!; [done|done|by right]]. exists [e].
  split_and!; [done|cbn; by rewrite He|..]; destruct e; try done; cbn; by rewrite ?app_nil_r.
Qed.

Lemma logs_trace es w w' : logs es w w' -> trace (log w') = trace (log w) ++ es.
Proof. intros [(l & -> & <- & _) _]. apply trace_app. Qed.

Lemma logs_deliveries es w w' : logs es w w' -> deliveries (log w') = deliveries (log w) ++ deliveries es.
Proof. intros [(l & -> & <- & _) _]. by rewrite deliveries_app, deliveries_trace. Qed.
End Logs.

(** ** Connections and where packets go *)

Section Routes.
Context (t : flow_static_type).

Definition connections : list (conn_spec * conn_info) := zip (conn_specs t) (conn_infos t).

Definition from_port (src port : Z) (x : conn_spec * conn_info) : Prop := comes_out src port x.1.
#[export] Instance from_port_dec src port x : Decision (from_port src port x).
Proof. unfold from_port. apply _. Defined.

Definition process_of (p : packet) (x : conn_spec * conn_info) : event :=
  Process (c_dst x.1) (c_dst_port x.1) (in_conn_id x.2) p.

Definition exports (src port : Z) (s : port_spec) : Prop := s_node s = src /\ s_port s = port.
#[export] Instance exports_dec src port s : Decision (exports src port s).
Proof. unfold exports. apply _. Defined.

(** What becomes of a packet: it goes along every connection of its port, in
    the order of the connections, then out of the flow if the port is
    exported, or is deleted. *)
Definition delivery (dp : delayed_packet) : list event :=
  let '(p, src, port) := (dp_packet dp, source_idx dp, source_port_idx dp) in
  (process_of p <$> filter (from_port src port) connections)
  ++ [match list_find (exports src port) (exported_out_specs t) with
      | Some (k, _) => ExportedOut (Z.of_nat k) p
      | None => Deleted p
      end].

Lemma exported_port_find src port specs : forall i,
  exported_port specs src port i
  = match list_find (exports src port) specs with Some (k, _) => Some (i + Z.of_nat k) | None => None end.
Proof.
  induction specs as [|s specs IH]; intros i; cbn [exported_port list_find]; [done|].
  rewrite IH. destruct (decide (exports src port s)) as [[-> ->]|Hn].
  - rewrite !Z.eqb_refl. cbn. f_equal. lia.
  - assert ((s_node s =? src) && (s_port s =? port) = false) as ->.
    { destruct (Z.eqb_spec (s_node s) src), (Z.eqb_spec (s_port s) port); try done. by destruct Hn. }
    destruct (list_find (exports src port) specs) as [[k ?]|]; cbn; [f_equal; lia|done].
Qed.

(** The connections at the front that are of the source: those the loop of
    flow_send_do goes over. *)
Fixpoint of_source (src : Z) (l : list (conn_spec * conn_info)) : list (conn_spec * conn_info) :=
  match l with
  | [] => []
  | x :: l => if c_src x.1 =? src then x :: of_source src l else []
  end.

Lemma of_source_none src port (l : list (conn_spec * conn_info)) :
  Forall (fun x => src < c_src x.1) l -> filter (from_port src port) l = [] .
Proof.
  induction 1 as [|x l Hx _ IH]; [done|]. rewrite filter_cons.
  destruct (decide (from_port src port x)) as [[? _]|]; [lia|done].
Qed.

Lemma of_source_filter src port (l : list (conn_spec * conn_info)) :
  StronglySorted conn_le l.*1 -> Forall (fun x => src <= c_src x.1) l ->
  filter (from_port src port) (of_source src l) = filter (from_port src port) l.
Proof.
  induction l as [|x l IH]; intros Hs Hge; [done|]. cbn [of_source].
  apply Forall_cons in Hge as [Hx Hge]. cbn in Hs. apply StronglySorted_inv in Hs as [Hs Hle].
  destruct (Z.eqb_spec (c_src x.1) src) as [He|Hne].
  - rewrite !filter_cons, IH by done. done.
  - rewrite (of_source_none src port (x :: l)); [done|]. constructor; [lia|].
    rewrite Forall_fmap in Hle. eapply Forall_impl; [exact Hle|]. intros y. unfold conn_le. cbn. lia.
Qed.

Lemma of_source_nil src (l : list (conn_spec * conn_info)) :
  Forall (fun x => c_src x.1 <> src) l -> of_source src l = [].
Proof. destruct 1 as [|x l Hx _]; cbn; [done|]. by destruct (Z.eqb_spec (c_src x.1) src). Qed.

Lemma no_source_filter src port (l : list (conn_spec * conn_info)) :
  Forall (fun x => c_src x.1 <> src) l -> filter (from_port src port) l = [].
Proof.
  induction 1 as [|x l Hx _ IH]; [done|]. rewrite filter_cons.
  by destruct (decide (from_port src port x)) as [[? _]|].
Qed.

(** The loop starts at the node's first connection and stops at the first one
    of another node: it meets exactly the connections of the port. *)
Lemma route_from_first src port (l : list (conn_spec * conn_info)) :
  StronglySorted conn_le l.*1 ->
  filter (from_port src port) (of_source src (drop (Z.to_nat (first_conn l.*1 src)) l))
  = filter (from_port src port) l.
Proof.
  intros Hs. unfold first_conn. destruct (list_find (same_src src) l.*1) as [[i c]|] eqn:E.
  - apply list_find_Some in E as (Hi & Hc & Hbefore). rewrite Nat2Z.id.
    rewrite <- (take_drop i l) at 2. rewrite filter_app, (no_source_filter src port (take i l)).
    + cbn [app]. apply of_source_filter.
      * rewrite <- (take_drop i l), fmap_app in Hs. by apply StronglySorted_app in Hs as (_ & _ & ?).
      * apply list_lookup_fmap_Some in Hi as (x & -> & Hx). rewrite (drop_S _ _ _ Hx) in *.
        rewrite <- (take_drop i l), fmap_app, (drop_S _ _ _ Hx) in Hs.
        apply StronglySorted_app in Hs as (_ & _ & Hs). cbn in Hs. apply StronglySorted_inv in Hs as [_ Hs].
        rewrite Forall_fmap in Hs. unfold same_src in Hc. constructor; [lia|].
        eapply Forall_impl; [exact Hs|]. intros y. unfold conn_le. cbn. lia.
    + apply Forall_lookup. intros k x Hk. apply lookup_take_Some in Hk as [Hk Hlt].
      apply (Hbefore k x.1); [|done]. by rewrite list_lookup_fmap, Hk.
  - apply list_find_None in E. rewrite Forall_fmap in E. cbn [Z.to_nat]. rewrite drop_0.
    rewrite (of_source_nil src l E), (no_source_filter src port l E). done.
Qed.
End Routes.

(** ** A flow whose nodes keep to the rules *)

Section Run.
Context `{Allocator} `{FlowNodes} (t : flow_static_type).

Definition out_port_exists (n port : Z) : Prop :=
  u16 n /\ u16 port /\ port_ok flow_port_out_is_valid (node_specs t) n port.

Definition port_good (pt : port_type) : Prop := api_ok pt = true /\ ptype pt <> None.

(** The type was set up, its ports have the library's version and a packet
    type, and nodes only ever send from ports they have. *)
Record flow_ok : Prop := {
  fo_type : type_ok t;
  fo_ports : Forall (fun n => Forall port_good (ports_in n) /\ Forall port_good (ports_out n)) (node_specs t);
  fo_sends : forall h, Forall (fun x : Z * Z * packet => out_port_exists x.1.1 x.1.2) (sends h)
}.
Context (Hok : flow_ok).

Lemma get_out_good s p : get_out (node_specs t) s = Some p -> port_good p.
Proof.
  unfold get_out. destruct (node_specs t !! Z.to_nat (s_node s)) as [nt|] eqn:E; [|done]. cbn [mbind option_bind].
  destruct (s_port s =? SOL_FLOW_NODE_PORT_ERROR); [by intros [= <-]|]. intros Hp.
  pose proof (fo_ports Hok) as Hf. rewrite Forall_lookup in Hf. destruct (Hf _ _ E) as [_ Hf2].
  rewrite Forall_lookup in Hf2. by eapply Hf2.
Qed.

Lemma get_in_good s p : get_in (node_specs t) s = Some p -> port_good p.
Proof.
  unfold get_in. destruct (node_specs t !! Z.to_nat (s_node s)) as [nt|] eqn:E; [|done]. cbn [mbind option_bind].
  intros Hp. pose proof (fo_ports Hok) as Hf. rewrite Forall_lookup in Hf. destruct (Hf _ _ E) as [Hf2 _].
  rewrite Forall_lookup in Hf2. by eapply Hf2.
Qed.

(** The port types of an output port and of an input port. *)
Lemma out_port n port :
  out_port_exists n port -> exists nt pt, at_index (node_specs t) n = Ret nt
    /\ sol_flow_node_type_get_port_out nt port = Ret pt /\ flow_port_out_is_valid nt port = true
    /\ port_good pt /\ 0 <= n < node_count t.
Proof.
  intros (Hn & Hp & Hv).
  destruct (get_out_some (node_specs t) {| s_node := n; s_port := port |}) as (nt & pt & Hl & Ha & Hg & Hs); [done|done|].
  exists nt, pt. split_and!; [done|done| |by eapply get_out_good|apply Hn|].
  - unfold port_ok in Hv. cbn in Hl. by rewrite Hl in Hv.
  - destruct (ok_nodes _ (fo_type Hok)) as (-> & _). apply lookup_lt_Some in Hl. cbn in Hl. unfold blen, u16 in *. lia.
Qed.

Lemma in_port n port :
  u16 n -> u16 port -> port_ok flow_port_in_is_valid (node_specs t) n port ->
  exists nt pt, at_index (node_specs t) n = Ret nt /\ sol_flow_node_type_get_port_in nt port = Ret pt /\ port_good pt.
Proof.
  intros Hn Hp Hv.
  destruct (get_in_some (node_specs t) {| s_node := n; s_port := port |}) as (nt & pt & Hl & Ha & Hg & Hs); [done|done|].
  exists nt, pt. split_and!; [done|done|by eapply get_in_good].
Qed.

(** ** Sending and calling *)

Lemma flow_delay_send_spec w :
  exists r w', flow_delay_send w = (r, w')
    /\ (r = 0 /\ logs t [] w w' /\ delay_send w' = true /\ delayed_packets w' = delayed_packets w \/ r < 0 /\ w' = w).
Proof.
  unfold flow_delay_send. destruct (delay_send w) eqn:E; [|destruct (timeout_ok (log w))]; do 2 eexists; (split; [done|]).
  - left. split_and!; [done|apply logs_refl|done|done].
  - left. split_and!; [done| |done|done]. split; [|by right]. exists [TimeoutAdd]. cbn. rewrite app_nil_r.
    split_and!; [done..|constructor].
  - by right.
Qed.

Lemma flow_send_spec w n port p :
  out_port_exists n port -> exists r w', flow_send t w n port p = Ret (r, w') /\ logs t [] w w'.
Proof.
  intros Hp. destruct (out_port n port Hp) as (nt & pt & Ha & Hg & Hv & [_ Hty] & Hn). unfold flow_send.
  rewrite Ha, bind_ret, Hg, bind_ret. pose proof (logs_refl t w) as Href.
  destruct (pk_type p) as [ty|]; [|by do 2 eexists]. destruct (ptype pt) as [pty|]; [|done].
  cbv zeta. destruct (negb (match_packets pty ty)); [by do 2 eexists|]. rewrite Hv. cbn [negb].
  destruct (flow_delay_send_spec w) as (r & w' & -> & [(-> & Hl & Hd & _)|[Hr ->]]).
  - cbn [Z.ltb Z.compare]. destruct (packet_memory (log w')); [|by do 2 eexists].
    do 2 eexists. split; [done|]. apply (logs_trans t [] [] w w'); [done|].
    split; [|left; by split_and!; [..|left]]. eexists [_]. split_and!; [done..|]. repeat constructor; done || apply Hn.
  - rewrite (proj2 (Z.ltb_lt r 0) Hr). by do 2 eexists.
Qed.

Lemma send_packet_spec w n port p :
  out_port_exists n port -> exists r w', sol_flow_send_packet t w n port p = Ret (r, w') /\ logs t [] w w'.
Proof.
  intros Hp. destruct (flow_send_spec w n port p Hp) as (r & w' & Hs & Hl). unfold sol_flow_send_packet.
  rewrite Hs, bind_ret. do 2 eexists. split; [done|]. destruct (negb (r =? 0)); [|done].
  apply (logs_trans t [] [] w w'); [done|]. split; [|left; split_and!; [done|done|by right]].
  eexists [_]. split_and!; [done|done|cbn; by rewrite app_nil_r|constructor].
Qed.

Lemma send_all_spec l : forall w,
  Forall (fun x : Z * Z * packet => out_port_exists x.1.1 x.1.2) l -> exists w', send_all t w l = Ret w' /\ logs t [] w w'.
Proof.
  induction l as [|[[n port] p] l IH]; intros w Hl; cbn [send_all]; [exists w; split; [done|apply logs_refl]|].
  apply Forall_cons in Hl as [Hp Hl]. destruct (send_packet_spec w n port p Hp) as (r & w1 & -> & H1). rewrite bind_ret.
  destruct (IH w1 Hl) as (w2 & -> & H2). exists w2. split; [done|]. by apply (logs_trans t [] [] w w1).
Qed.

Lemma call_spec w e : kept e = true -> exists r w', call t w e = Ret (r, w') /\ logs t [e] w w'.
Proof.
  intros He. unfold call. destruct (send_all_spec (sends (log (note w e))) (note w e) (fo_sends Hok _)) as (w' & -> & Hl).
  rewrite bind_ret. do 2 eexists. split; [done|]. apply (logs_trans t [e] [] w (note w e)); [by apply logs_note|done].
Qed.

(** ** Delivering *)

Lemma dispatch_process_spec w n port id p :
  u16 n -> u16 port -> port_ok flow_port_in_is_valid (node_specs t) n port ->
  exists w', dispatch_process t w n port id p = Ret w' /\ logs t [Process n port id p] w w'.
Proof.
  intros Hn Hp Hv. destruct (in_port n port Hn Hp Hv) as (nt & pt & Ha & Hg & _). unfold dispatch_process.
  rewrite Ha, bind_ret, Hg, bind_ret. destruct (call_spec w (Process n port id p) eq_refl) as (r & w' & -> & Hl).
  rewrite bind_ret. by exists w'.
Qed.

Definition conn_there (c : conn_spec) : Prop := conn_fields_ok c /\ conn_ok (node_specs t) c.

Lemma conns_there : Forall conn_there (conn_specs t).
Proof. destruct (ok_conns _ (fo_type Hok)) as (_ & _ & ? & ? & _). apply Forall_and. by split. Qed.

Lemma infos_at (i : nat) ci infos :
  drop i (conn_infos t) = ci :: infos ->
  at_index (conn_infos t) (Z.of_nat i) = Ret ci /\ drop (S i) (conn_infos t) = infos.
Proof.
  intros Hd. assert (conn_infos t !! i = Some ci) as Hi.
  { rewrite <- (Nat.add_0_r i), <- lookup_drop, Hd. done. }
  split; [apply at_index_some; [lia|by rewrite Nat2Z.id]|]. rewrite (drop_S _ _ _ Hi) in Hd. congruence.
Qed.

Lemma deliver_spec src port p specs : forall infos i w,
  length infos = length specs -> drop i (conn_infos t) = infos -> Forall conn_there specs ->
  exists w', deliver t w src port p specs (Z.of_nat i) = Ret w'
    /\ logs t (process_of p <$> filter (from_port src port) (of_source src (zip specs infos))) w w'.
Proof.
  induction specs as [|c specs IH]; intros [|ci infos] i w Hlen Hd Hc; try done; cbn [deliver].
  { exists w. split; [done|apply logs_refl]. }
  apply Forall_cons in Hc as [[(_ & _ & Hdst & Hdp) [_ Hv]] Hc]. destruct (infos_at i ci infos Hd) as [Ha Hd'].
  cbn [zip zip_with of_source fst]. destruct (Z.eqb_spec (c_src c) src) as [Hs|Hs]; [|exists w; split; [done|apply logs_refl]].
  rewrite filter_cons. replace (Z.of_nat i + 1) with (Z.of_nat (S i)) by lia.
  destruct (Z.eqb_spec (c_src_port c) port) as [Hp|Hp]; cbn [negb].
  - destruct (decide (from_port src port (c, ci))) as [_|Hn]; [|by destruct Hn].
    rewrite Ha, bind_ret. destruct (dispatch_process_spec w (c_dst c) (c_dst_port c) (in_conn_id ci) p Hdst Hdp Hv) as (w1 & -> & H1).
    rewrite bind_ret. destruct (IH infos (S i) w1 ltac:(by injection Hlen) Hd' Hc) as (w2 & -> & H2).
    exists w2. split; [done|]. exact (logs_trans t [_] _ w w1 w2 H1 H2).
  - destruct (decide (from_port src port (c, ci))) as [[_ ?]|_]; [done|]. by apply IH; [injection Hlen|..].
Qed.

Lemma conns_lengths : length (conn_infos t) = length (conn_specs t).
Proof. apply (ok_ids _ (fo_type Hok)). Qed.

Lemma connections_specs : (connections t).*1 = conn_specs t.
Proof. apply fst_zip. rewrite conns_lengths. lia. Qed.

Lemma first_in_bounds n : 0 <= first_conn (conn_specs t) n <= blen (conn_specs t).
Proof.
  unfold first_conn. destruct (list_find (same_src n) (conn_specs t)) as [[i c]|] eqn:E; [|pose proof (blen_nonneg (conn_specs t)); lia].
  apply list_find_Some in E as (Hi & _). apply lookup_lt_Some in Hi. unfold blen. lia.
Qed.

Lemma zip_drop {A B} (l : list A) (k : list B) i : zip (drop i l) (drop i k) = drop i (zip l k).
Proof.
  revert l k. induction i as [|i IH]; intros [|a l] [|b k]; cbn; [done..| |exact (IH l k)].
  by destruct (drop i l).
Qed.

(** The exported output ports are looked for only if there are any. *)
Lemma exported_lookup src port :
  (if ports_out_count t >? 0 then exported_port (exported_out_specs t) src port 0 else None)
  = match list_find (exports src port) (exported_out_specs t) with Some (k, _) => Some (Z.of_nat k) | None => None end.
Proof.
  destruct (ok_out _ (fo_type Hok)) as [[-> _] _ _ _ _ _]. rewrite exported_port_find, Z.gtb_ltb.
  destruct (Z.ltb_spec 0 (blen (exported_out_specs t))) as [|Hz]; [done|].
  assert (exported_out_specs t = []) as -> by (apply blen_zero_nil; pose proof (blen_nonneg (exported_out_specs t)); lia). done.
Qed.

Lemma flow_send_do_spec w dp :
  dp_ok t dp -> exists w', flow_send_do t w (source_idx dp) (source_port_idx dp) (dp_packet dp) = Ret w'
    /\ logs t (delivery t dp) w w'.
Proof.
  intros Hdp. set (src := source_idx dp). set (port := source_port_idx dp). set (p := dp_packet dp). unfold flow_send_do.
  destruct (ok_first _ (fo_type Hok)) as [_ Hfirst]. rewrite (at_index_some _ src _ (proj1 Hdp) (Hfirst src Hdp)), bind_ret.
  pose proof (first_in_bounds src) as Hb. rewrite (proj2 (Z.ltb_ge _ _)) by lia.
  set (i := Z.to_nat (first_conn (conn_specs t) src)). replace (first_conn (conn_specs t) src) with (Z.of_nat i) by lia.
  destruct (deliver_spec src port p (drop i (conn_specs t)) (drop i (conn_infos t)) i w) as (w1 & -> & H1).
  { rewrite !length_drop, conns_lengths. done. }
  { done. }
  { apply Forall_drop, conns_there. }
  rewrite bind_ret. rewrite zip_drop in H1. fold (connections t) in H1.
  replace i with (Z.to_nat (first_conn (connections t).*1 src)) in H1 by by rewrite connections_specs.
  rewrite route_from_first in H1 by (rewrite connections_specs; by destruct (ok_conns _ (fo_type Hok)) as (_ & _ & _ & _ & ?)).
  rewrite exported_lookup. unfold delivery. fold src port p.
  destruct (list_find (exports src port) (exported_out_specs t)) as [[k s]|].
  - destruct (call_spec w1 (ExportedOut (Z.of_nat k) p) eq_refl) as (r & w2 & -> & H2). rewrite bind_ret. exists w2.
    split; [done|]. exact (logs_trans t _ [_] w w1 w2 H1 H2).
  - eexists. split; [done|]. apply (logs_trans t _ [Deleted p] w w1); [exact H1|by apply logs_note].
Qed.

Lemma send_stolen_spec l : forall w,
  Forall (dp_ok t) l -> exists w', send_stolen t w l = Ret w' /\ logs t (l ≫= delivery t) w w'.
Proof.
  induction l as [|dp l IH]; intros w Hl; cbn [send_stolen]; [exists w; split; [done|apply logs_refl]|].
  apply Forall_cons in Hl as [Hdp Hl]. destruct (flow_send_do_spec w dp Hdp) as (w1 & -> & H1). rewrite bind_ret.
  destruct (IH w1 Hl) as (w2 & -> & H2). exists w2. split; [done|]. exact (logs_trans t _ _ w w1 w2 H1 H2).
Qed.

(** ** The queue *)

(** The packets accepted so far are those handled and those waiting; what
    was delivered is what the handled ones had to cause, in order; a timeout
    waits for the others. *)
Record in_order (w : flow_static_data) : Prop := {
  io_queue : exists handled, accepted (log w) = handled ++ delayed_packets w
    /\ deliveries (log w) = handled ≫= delivery t;
  io_valid : Forall (dp_ok t) (delayed_packets w);
  io_timeout : delay_send w = timeout_armed w;
  io_armed : delayed_packets w <> [] -> timeout_armed w = true
}.

Lemma in_order_logs es w w' : in_order w -> logs t es w w' -> deliveries es = [] -> in_order w'.
Proof.
  intros [(handled & Hacc & Hdel) Hv Hto Har] Hlogs Hes. pose proof (logs_deliveries _ _ _ _ Hlogs) as Hd.
  destruct Hlogs as [(l & Hl & Ht & Hq & Hval) Hor]. split.
  - exists handled. rewrite Hd, Hes, app_nil_r, Hl, accepted_app, Hacc, Hq, app_assoc. done.
  - rewrite Hq. by apply Forall_app.
  - destruct Hor as [(-> & -> & _)|(_ & -> & ->)]; done.
  - destruct Hor as [(? & -> & Hs)|(_ & _ & ->)]; [|done]. intros Hne.
    destruct Hs as [Hs|Hs]; [congruence|]. apply Har. congruence.
Qed.

Lemma deliveries_delivered l : deliveries (l ≫= delivery t) = l ≫= delivery t.
Proof.
  induction l as [|dp l IH]; [done|]. cbn [mbind list_bind]. rewrite deliveries_app, IH. f_equal.
  unfold delivery. rewrite deliveries_app. f_equal.
  - induction (filter _ (connections t)) as [|x k IHk]; [done|]. cbn. f_equal. exact IHk.
  - by destruct (list_find _ _) as [[]|].
Qed.

Lemma flow_send_idle_spec w :
  in_order w ->
  exists w', flow_send_idle t w = Ret w' /\ in_order w' /\ deliveries (log w') = accepted (log w) ≫= delivery t
    /\ exists l, log w' = log w ++ l /\ delayed_packets w' = accepted l.
Proof.
  intros [(handled & Hacc & Hdel) Hv Hto Har]. unfold flow_send_idle. cbn [delayed_packets set_timeout].
  set (w0 := set_delayed (set_timeout w false false) []).
  destruct (send_stolen_spec (delayed_packets w) w0 Hv) as (w' & Hrun & Hlogs). exists w'. split; [exact Hrun|].
  pose proof (logs_deliveries _ _ _ _ Hlogs) as Hd. destruct Hlogs as [(l & Hl & Ht & Hq & Hval) Hor].
  cbn in Hl, Hq, Hor.
  change (log w0) with (log w) in Hd. rewrite deliveries_delivered, Hdel, <- bind_app, <- Hacc in Hd.
  split_and!; [|done|by exists l]. split.
  - exists (accepted (log w)). split; [|exact Hd]. by rewrite Hl, accepted_app, Hq.
  - by rewrite Hq.
  - destruct Hor as [(Hs & Ht' & _)|(_ & Hs & Ht')]; by rewrite Hs, Ht'.
  - intros Hne. destruct Hor as [(_ & _ & [?|Hnil])|(_ & _ & ?)]; congruence.
Qed.

(** ** Packets from around *)

Lemma at_index_u16 {A} (l : list A) (port : Z) : 0 <= port < blen l -> exists x, at_index l port = Ret x /\ l !! Z.to_nat port = Some x.
Proof. intros Hp. destruct (at_index_lt l port Hp) as (x & ? & ?). by exists x. Qed.

(** The port of a node behind an exported input port. *)
Lemma exported_in_target_spec port id :
  0 <= port < ports_in_count t ->
  exists s base, exported_in_specs t !! Z.to_nat port = Some s /\ ports_in_base_conn_id t !! Z.to_nat port = Some base
    /\ exported_in_target t port id = Ret (s_node s, s_port s, wrapu 16 (base + id))
    /\ exists nt pt, at_index (node_specs t) (s_node s) = Ret nt /\ sol_flow_node_type_get_port_in nt (s_port s) = Ret pt.
Proof.
  intros Hp. destruct (ok_in _ (fo_type Hok)) as [[Hc _] Hf _ Hty Hroom _]. rewrite Hc in Hp.
  destruct (at_index_u16 (exported_in_specs t) port Hp) as (s & Hs & Hls).
  destruct (at_index_u16 (ports_in_base_conn_id t) port) as (base & Hb & Hlb); [unfold blen in *; by rewrite Hroom|].
  exists s, base. split_and!; [done|done| |].
  - unfold exported_in_target. by rewrite Hs, bind_ret, Hb, bind_ret.
  - rewrite Forall_lookup in Hf. destruct (Hf _ _ Hls) as [[? _] [? _]].
    destruct (Forall2_lookup_l _ _ _ _ _ Hty Hls) as (q & _ & p & Hg & _ & _). unfold get_in in Hg.
    destruct (node_specs t !! Z.to_nat (s_node s)) as [nt|] eqn:E; [|done]. cbn [mbind option_bind] in Hg.
    exists nt, p. split; by apply at_index_some.
Qed.

Lemma flow_exported_port_process_spec w port id p :
  0 <= port < ports_in_count t ->
  exists n np nid w', flow_exported_port_process t w port id p = Ret (0, w') /\ logs t [Input n np nid p] w w'.
Proof.
  intros Hp. destruct (exported_in_target_spec port id Hp) as (s & base & _ & _ & Htg & nt & pt & Ha & Hg).
  unfold flow_exported_port_process. rewrite Htg, bind_ret, Ha, bind_ret, Hg, bind_ret.
  destruct (call_spec w (Input (s_node s) (s_port s) (wrapu 16 (base + id)) p) eq_refl) as (r & w' & -> & Hl).
  rewrite bind_ret. by do 4 eexists.
Qed.

(** ** Whatever happens *)

Definition action_ok (a : action) : Prop :=
  match a with
  | Send n port p => out_port_exists n port
  | Fire => True
  | Receive port _ _ => 0 <= port < ports_in_count t
  end.

Lemma run_action_spec a w :
  action_ok a -> in_order w -> exists w', run_action t w a = Ret w' /\ in_order w'.
Proof.
  intros Ha Hw. destruct a as [n port p| |port id p]; cbn [run_action action_ok] in *.
  - destruct (send_packet_spec w n port p Ha) as (r & w' & -> & Hl). rewrite bind_ret. exists w'. split; [done|].
    by apply (in_order_logs [] w).
  - destruct (timeout_armed w); [|by exists w]. destruct (flow_send_idle_spec w Hw) as (w' & -> & ? & _). by exists w'.
  - destruct (flow_exported_port_process_spec w port id p Ha) as (n & np & nid & w' & -> & Hl). rewrite bind_ret.
    exists w'. split; [done|]. by apply (in_order_logs _ w w' Hw Hl).
Qed.

Lemma run_actions_spec l : forall w,
  Forall action_ok l -> in_order w -> exists w', run_actions t w l = Ret w' /\ in_order w'.
Proof.
  induction l as [|a l IH]; intros w Hl Hw; cbn [run_actions]; [by exists w|]. apply Forall_cons in Hl as [Ha Hl].
  destruct (run_action_spec a w Ha Hw) as (w1 & -> & H1). rewrite bind_ret. by apply IH.
Qed.

Lemma in_order_deliveries w : in_order w ->
  exists w', run_action t w Fire = Ret w' /\ deliveries (log w') = accepted (log w) ≫= delivery t
    /\ exists l, log w' = log w ++ l /\ delayed_packets w' = accepted l.
Proof.
  intros Hw. cbn [run_action]. destruct (timeout_armed w) eqn:E.
  - destruct (flow_send_idle_spec w Hw) as (w' & -> & _ & ? & ?). by exists w'.
  - destruct Hw as [(handled & Hacc & Hdel) _ _ Har].
    assert (delayed_packets w = []) as Hnil by (destruct (delayed_packets w); [done|]; by rewrite Har in E).
    exists w. rewrite Hnil, app_nil_r in Hacc. rewrite Hacc. split_and!; [done|done|]. exists []. by rewrite app_nil_r.
Qed.

(** ** Connecting and disconnecting *)

Definition up (x : conn_spec * conn_info) : list event :=
  [ConnectOut (c_src x.1) (c_src_port x.1) (out_conn_id x.2); ConnectIn (c_dst x.1) (c_dst_port x.1) (in_conn_id x.2)].

(** Undone while opening, and when the flow closes. *)
Definition undo (x : conn_spec * conn_info) : list event :=
  [DisconnectIn (c_dst x.1) (c_dst_port x.1) (in_conn_id x.2); DisconnectOut (c_src x.1) (c_src_port x.1) (out_conn_id x.2)].
Definition down (x : conn_spec * conn_info) : list event :=
  [DisconnectOut (c_src x.1) (c_src_port x.1) (out_conn_id x.2); DisconnectIn (c_dst x.1) (c_dst_port x.1) (in_conn_id x.2)].

(** What is left of a connection that could not be made: nothing was called,
    or the source refused, or the destination did and the source was told. *)
Inductive attempt (x : conn_spec * conn_info) : list event -> Prop :=
| attempt_types : attempt x []
| attempt_out : attempt x [ConnectOut (c_src x.1) (c_src_port x.1) (out_conn_id x.2)]
| attempt_in : attempt x (up x ++ [DisconnectOut (c_src x.1) (c_src_port x.1) (out_conn_id x.2)]).

Lemma conn_ports_spec c :
  conn_there c -> exists spt dpt, conn_ports t c = Ret (spt, dpt) /\ port_good spt /\ port_good dpt.
Proof.
  intros [(Hs & Hsp & Hd & Hdp) [Ho Hi]]. destruct (out_port (c_src c) (c_src_port c) ltac:(done)) as (s & spt & Ha & Hg & _ & Hgood & _).
  destruct (in_port (c_dst c) (c_dst_port c) Hd Hdp Hi) as (d & dpt & Ha' & Hg' & Hgood'). exists spt, dpt.
  unfold conn_ports. rewrite Ha, bind_ret, Ha', bind_ret, Hg, bind_ret, Hg', bind_ret. done.
Qed.

(** The loop over the connections [l], the first of which has index [i]. *)
Definition connect_ended (i : nat) (l : list (conn_spec * conn_info)) (w : flow_static_data) (e : connect_end) (w' : flow_static_data) : Prop :=
  e = AllConnected /\ logs t (l ≫= up) w w'
  \/ exists r made x rest tried, e = DispatchError r (Z.of_nat (i + length made)) /\ r < 0
       /\ l = made ++ x :: rest /\ attempt x tried /\ logs t ((made ≫= up) ++ tried) w w'.

Lemma connect_ended_here i x l r tried w w' :
  r < 0 -> attempt x tried -> logs t tried w w' ->
  exists e w'', Ret (DispatchError r (Z.of_nat i), w') = Ret (e, w'') /\ connect_ended i (x :: l) w e w''.
Proof.
  intros Hr Ht Hl. do 2 eexists. split; [done|]. right. exists r, [], x, l, tried.
  cbn [length]. rewrite Nat.add_0_r. by split_and!.
Qed.

Lemma connect_ended_next i x l w e w1 w' :
  logs t (up x) w w1 -> connect_ended (S i) l w1 e w' -> connect_ended i (x :: l) w e w'.
Proof.
  intros H1 [[-> H2]|(r & made & y & rest & tried & -> & Hr & -> & Ht & H2)].
  - left. split; [done|]. exact (logs_trans t _ _ _ _ _ H1 H2).
  - right. exists r, (x :: made), y, rest, tried. split_and!; [|done|done|done|].
    + cbn [length]. do 2 f_equal. lia.
    + exact (logs_trans t _ _ _ _ _ H1 H2).
Qed.

Lemma connect_loop_spec specs : forall infos i w,
  length infos = length specs -> drop i (conn_infos t) = infos -> Forall conn_there specs ->
  exists e w', connect_loop t w specs (Z.of_nat i) = Ret (e, w') /\ connect_ended i (zip specs infos) w e w'.
Proof.
  induction specs as [|c specs IH]; intros [|ci infos] i w Hlen Hd Hc; try done; cbn [connect_loop].
  { do 2 eexists. split; [done|]. left. split; [done|apply logs_refl]. }
  apply Forall_cons in Hc as [Hc0 Hc]. destruct (infos_at i ci infos Hd) as [Ha Hd'].
  destruct (conn_ports_spec c Hc0) as (spt & dpt & -> & [Has Hps] & [Had Hpd]). rewrite bind_ret, Ha, bind_ret, Has, Had.
  cbn [negb orb]. destruct (ptype spt) as [a|]; [|done]. destruct (ptype dpt) as [b|]; [|done]. cbn [zip zip_with].
  destruct (negb (match_packets a b)); [eapply connect_ended_here; [done|apply attempt_types|apply logs_refl]|].
  unfold dispatch_connect_out, dispatch_connect_in, dispatch_disconnect_out.
  destruct (call_spec w (ConnectOut (c_src c) (c_src_port c) (out_conn_id ci)) eq_refl) as (r1 & w1 & -> & H1).
  rewrite bind_ret. destruct (Z.ltb_spec r1 0) as [Hr1|_]; [by eapply connect_ended_here; [done|apply attempt_out|]|].
  destruct (call_spec w1 (ConnectIn (c_dst c) (c_dst_port c) (in_conn_id ci)) eq_refl) as (r2 & w2 & -> & H2).
  rewrite bind_ret. pose proof (logs_trans t _ _ _ _ _ H1 H2) as H12. destruct (Z.ltb_spec r2 0) as [Hr2|_].
  - destruct (call_spec w2 (DisconnectOut (c_src c) (c_src_port c) (out_conn_id ci)) eq_refl) as (r3 & w3 & -> & H3).
    rewrite bind_ret. eapply connect_ended_here; [done|apply attempt_in|]. exact (logs_trans t _ _ _ _ _ H12 H3).
  - replace (Z.of_nat i + 1) with (Z.of_nat (S i)) by lia.
    destruct (IH infos (S i) w2 ltac:(by injection Hlen) Hd' Hc) as (e & w3 & -> & H3).
    do 2 eexists. split; [done|]. exact (connect_ended_next i (c, ci) _ _ _ _ _ H12 H3).
Qed.

Lemma disconnect_loop_spec (in_first : bool) n : forall w,
  (n <= length (connections t))%nat ->
  exists w', disconnect_loop t in_first w n = Ret w'
    /\ logs t (reverse (take n (connections t)) ≫= (if in_first then undo else down)) w w'.
Proof.
  induction n as [|n IH]; intros w Hn; cbn [disconnect_loop]; [exists w; split; [done|apply logs_refl]|].
  destruct (lookup_lt_is_Some_2 (connections t) n Hn) as [[c ci] Hx].
  destruct (proj1 (lookup_zip_with_Some _ _ _ _ _) Hx) as (c' & ci' & [= <- <-] & Hc & Hci).
  rewrite (at_index_some _ _ c), bind_ret, (at_index_some _ _ ci), bind_ret by (by rewrite ?Nat2Z.id || lia).
  destruct (conn_ports_spec c) as (spt & dpt & -> & _); [pose proof conns_there as Hf; rewrite Forall_lookup in Hf; by eapply Hf|].
  rewrite bind_ret, (take_S_r _ _ _ Hx), reverse_snoc. unfold dispatch_disconnect_in, dispatch_disconnect_out.
  destruct in_first.
  - destruct (call_spec w (DisconnectIn (c_dst c) (c_dst_port c) (in_conn_id ci)) eq_refl) as (r1 & w1 & -> & H1). rewrite bind_ret.
    destruct (call_spec w1 (DisconnectOut (c_src c) (c_src_port c) (out_conn_id ci)) eq_refl) as (r2 & w2 & -> & H2). rewrite bind_ret.
    destruct (IH w2 ltac:(lia)) as (w3 & -> & H3). exists w3. split; [done|].
    exact (logs_trans t _ _ _ _ _ (logs_trans t _ _ _ _ _ H1 H2) H3).
  - destruct (call_spec w (DisconnectOut (c_src c) (c_src_port c) (out_conn_id ci)) eq_refl) as (r1 & w1 & -> & H1). rewrite bind_ret.
    destruct (call_spec w1 (DisconnectIn (c_dst c) (c_dst_port c) (in_conn_id ci)) eq_refl) as (r2 & w2 & -> & H2). rewrite bind_ret.
    destruct (IH w2 ltac:(lia)) as (w3 & -> & H3). exists w3. split; [done|].
    exact (logs_trans t _ _ _ _ _ (logs_trans t _ _ _ _ _ H1 H2) H3).
Qed.

Lemma connect_nodes_spec w :
  exists r w', connect_nodes t w = Ret (r, w')
    /\ (r = 0 /\ logs t (connections t ≫= up) w w'
        \/ exists made x rest tried, r < 0 /\ connections t = made ++ x :: rest /\ attempt x tried
             /\ logs t (((made ≫= up) ++ tried) ++ (reverse made ≫= undo)) w w').
Proof.
  unfold connect_nodes.
  destruct (connect_loop_spec (conn_specs t) (conn_infos t) 0 w conns_lengths (drop_0 _) conns_there)
    as (e & w1 & Hrun & [[-> H1]|(r & made & x & rest & tried & -> & Hr & Hz & Ht & H1)]).
  - change (Z.of_nat 0) with 0 in Hrun. rewrite Hrun, bind_ret. do 2 eexists. split; [done|]. by left.
  - change (Z.of_nat 0) with 0 in Hrun. rewrite Hrun, bind_ret. cbn [Nat.add]. rewrite Nat2Z.id.
    destruct (disconnect_loop_spec true (length made) w1) as (w2 & -> & H2).
    { unfold connections. rewrite Hz, length_app. lia. }
    rewrite bind_ret. do 2 eexists. split; [done|]. right. exists made, x, rest, tried. split_and!; [done|done|done|].
    unfold connections in H2. rewrite Hz, take_app_length in H2. exact (logs_trans t _ _ _ _ _ H1 H2).
Qed.

Lemma teardown_connections_spec w :
  exists w', teardown_connections t w = Ret w' /\ logs t (reverse (connections t) ≫= down) w w'.
Proof.
  unfold teardown_connections. destruct (ok_conns _ (fo_type Hok)) as (-> & _). rewrite blen_to_nat.
  assert (length (connections t) = length (conn_specs t)) as Hl.
  { by rewrite <- connections_specs, length_fmap. }
  destruct (disconnect_loop_spec false (length (conn_specs t)) w) as (w' & -> & Hlogs); [by rewrite Hl|].
  exists w'. split; [done|]. by rewrite take_ge in Hlogs by lia.
Qed.

(** ** Opening and closing *)

Definition inits (n : nat) : list event := (fun i => Init (Z.of_nat i)) <$> seq 0 n.
Definition finis (n : nat) : list event := (fun i => Fini (Z.of_nat i)) <$> reverse (seq 0 n).

Lemma fini_nodes_spec n : forall w, exists w', fini_nodes t w n = Ret w' /\ logs t (finis n) w w'.
Proof.
  induction n as [|n IH]; intros w; cbn [fini_nodes]; [exists w; split; [done|apply logs_refl]|].
  unfold sol_flow_node_fini. destruct (call_spec w (Fini (Z.of_nat n)) eq_refl) as (r & w1 & -> & H1). rewrite !bind_ret.
  destruct (IH w1) as (w2 & -> & H2). exists w2. split; [done|]. unfold finis.
  rewrite seq_S, reverse_snoc, fmap_cons. exact (logs_trans t _ _ _ _ _ H1 H2).
Qed.

(** Every options structure is large enough for its header, or none is copied. *)
Definition options_large : Prop := child_opts_set t = true -> Forall (fun n => options_bytes <= options_size n) (node_specs t).

Lemma open_nodes_spec specs : forall i r w,
  (child_opts_set t = true -> Forall (fun n => options_bytes <= options_size n) specs) -> 0 <= r ->
  exists opened r' n w', open_nodes t w specs (Z.of_nat i) r = Ret (opened, r', Z.of_nat (i + n), w')
    /\ (opened = true /\ 0 <= r' /\ n = length specs
          /\ logs t ((fun k => Init (Z.of_nat k)) <$> seq i n) w w'
        \/ opened = false /\ r' < 0 /\ (n < length specs)%nat
          /\ exists tried, (tried = [] \/ tried = [Init (Z.of_nat (i + n))])
          /\ logs t (((fun k => Init (Z.of_nat k)) <$> seq i n) ++ tried) w w').
Proof.
  induction specs as [|s specs IH]; intros i r w Hopt Hr; cbn [open_nodes].
  { exists true, r, 0%nat, w. rewrite Nat.add_0_r. split; [done|]. left. split_and!; [done|done|done|apply logs_refl]. }
  assert (child_opts_set t && (options_size s <? options_bytes) = false) as ->.
  { destruct (child_opts_set t); [|done]. destruct (Forall_cons_1 _ _ _ (Hopt eq_refl)) as [Hs _]. by apply Z.ltb_ge. }
  destruct (child_opts_set t && negb (options_ok (log w))).
  { exists false, (- ENOMEM), 0%nat, w. rewrite Nat.add_0_r. split; [done|]. right. split_and!; [done|done|cbn; lia|].
    exists []. split; [by left|apply logs_refl]. }
  unfold sol_flow_node_init. destruct (call_spec w (Init (Z.of_nat i)) eq_refl) as (r1 & w1 & -> & H1). rewrite !bind_ret.
  destruct (Z.ltb_spec r1 0) as [Hr1|Hr1].
  { rewrite (proj2 (Z.ltb_lt r1 0) Hr1). exists false, r1, 0%nat, w1. rewrite Nat.add_0_r. split; [done|]. right.
    split_and!; [done|done|cbn; lia|]. exists [Init (Z.of_nat i)]. split; [by right|exact H1]. }
  cbn [Z.ltb Z.compare]. replace (Z.of_nat i + 1) with (Z.of_nat (S i)) by lia.
  destruct (IH (S i) 0 w1) as (opened & r' & n & w2 & -> & Hend); [|done|].
  { intros Hc. by apply (Forall_cons_1 _ s specs), Hopt. }
  exists opened, r', (S n), w2. split; [do 3 f_equal; lia|].
  destruct Hend as [(-> & Hr' & -> & H2)|(-> & Hr' & Hn & tried & Ht & H2)]; [left|right].
  - split_and!; [done|done|done|]. exact (logs_trans t _ _ _ _ _ H1 H2).
  - split_and!; [done|done|cbn; lia|]. exists tried. split; [by rewrite <- Nat.add_succ_comm|].
    exact (logs_trans t _ _ _ _ _ H1 H2).
Qed.

Definition deleted (l : list delayed_packet) : list event := (fun dp => Deleted (dp_packet dp)) <$> l.

Lemma deleted_trace l : trace (deleted l) = deleted l /\ accepted (deleted l) = [].
Proof. induction l as [|dp l [IH1 IH2]]; [done|]. split; cbn; [f_equal; exact IH1|exact IH2]. Qed.

Lemma delete_delayed_packets_spec w :
  let w' := delete_delayed_packets w in
  delayed_packets w' = [] /\ delay_send w' = delay_send w
  /\ timeout_armed w' = (if delay_send w then false else timeout_armed w)
  /\ log w' = log w ++ (if delay_send w then [TimeoutDel] else []) ++ deleted (delayed_packets w).
Proof.
  unfold delete_delayed_packets. set (w1 := if delay_send w then _ else w).
  assert (forall l v, delayed_packets v = [] ->
    let v' := foldl (fun v dp => note v (Deleted (dp_packet dp))) v l in
    delayed_packets v' = [] /\ delay_send v' = delay_send v /\ timeout_armed v' = timeout_armed v /\ log v' = log v ++ deleted l) as Hfold.
  { induction l as [|dp l IH]; intros v Hv; cbn [foldl deleted fmap list_fmap]; [by rewrite app_nil_r|].
    destruct (IH (note v (Deleted (dp_packet dp))) Hv) as (? & -> & -> & ->). split_and!; [done..|]. cbn [log note].
    by rewrite <- app_assoc. }
  destruct (Hfold (delayed_packets w) (set_delayed w1 []) eq_refl) as (Hd & Hs & Ha & Hl).
  assert (delayed_packets w1 = delayed_packets w) as -> by (unfold w1; by destruct (delay_send w)).
  cbn zeta. rewrite Hs, Ha, Hl. unfold w1. destruct (delay_send w) eqn:E; cbn [delay_send timeout_armed log set_delayed set_timeout note];
    rewrite ?E; split_and!; try done; by rewrite <- ?app_assoc.
Qed.

(** What a flow that failed to open has done and undone. *)
Inductive undone : list event -> Prop :=
| undone_nodes i tried : (i < length (node_specs t))%nat -> tried = [] \/ tried = [Init (Z.of_nat i)] ->
    undone ((inits i ++ tried) ++ finis i)
| undone_conns made x rest tried : connections t = made ++ x :: rest -> attempt x tried ->
    undone ((inits (length (node_specs t)) ++ ((made ≫= up) ++ tried) ++ (reverse made ≫= undo)) ++ finis (length (node_specs t))).

Definition opened_events : list event := inits (length (node_specs t)) ++ (connections t ≫= up).

Definition closed_events : list event := (reverse (connections t) ≫= down) ++ finis (length (node_specs t)).

Definition start : flow_static_data := {| delayed_packets := []; delay_send := false; timeout_armed := false; log := [] |}.

(** The rest of a failed opening: the nodes opened are closed, the timeout and
    what was sent are deleted. *)
Lemma open_failed n done w r :
  logs t done start w -> delay_send w = true -> r < 0 -> undone (done ++ finis n) ->
  exists w', (w' ← fini_nodes t w n; Ret (r, delete_delayed_packets w')) = Ret (r, w')
    /\ delayed_packets w' = [] /\ timeout_armed w' = false
    /\ exists l, undone l /\ trace (log w') = l ++ TimeoutDel :: deleted (accepted (log w')).
Proof.
  intros Hl Hd Hr Hu. destruct (fini_nodes_spec n w) as (w1 & -> & H1). rewrite bind_ret. eexists. split; [done|].
  pose proof (logs_trans t _ _ _ _ _ Hl H1) as H01.
  assert (delay_send w1 = true) as Hd1 by (destruct H1 as [_ [(-> & _)|(_ & -> & _)]]; done).
  destruct (delete_delayed_packets_spec w1) as (Hq & _ & Ha & Hlog). rewrite Hd1 in Ha, Hlog.
  split_and!; [done|done|]. exists (done ++ finis n). split; [done|]. rewrite Hlog, trace_app, accepted_app.
  assert (accepted (log w1) = delayed_packets w1) as ->.
  { destruct H01 as [(l & Hlw & _ & Hdel & _) _]. by rewrite Hlw, Hdel. }
  rewrite (logs_trace t _ _ _ H01). change (trace (log start)) with (@nil event). cbn [app].
  destruct (deleted_trace (delayed_packets w1)) as [Hk1 Hk2].
  change (trace (TimeoutDel :: deleted (delayed_packets w1))) with (TimeoutDel :: trace (deleted (delayed_packets w1))).
  change (accepted (TimeoutDel :: deleted (delayed_packets w1))) with (accepted (deleted (delayed_packets w1))).
  by rewrite Hk1, Hk2, app_nil_r.
Qed.

Lemma flow_node_open_spec :
  options_large ->
  exists r w, flow_node_open t = Ret (r, w)
    /\ (r = 0 /\ logs t opened_events start w /\ delay_send w = true
        \/ r < 0 /\ delayed_packets w = [] /\ timeout_armed w = false
           /\ (trace (log w) = [] \/ exists l, undone l /\ trace (log w) = l ++ TimeoutDel :: deleted (accepted (log w)))).
Proof.
  intros Hopt. unfold flow_node_open, setup_flow_data. fold start.
  assert (forall (o : option block) (o' : option block), (if match o, o' with Some _, Some _ => true | _, _ => false end
    then (0, start) else (- ENOMEM, start)) = match o, o' with Some _, Some _ => (0, start) | _, _ => (- ENOMEM, start) end) as Hm by by intros [] [].
  rewrite <- Hm. clear Hm. destruct (match c_malloc _, c_malloc _ with Some _, Some _ => true | _, _ => false end).
  2: { do 2 eexists. split; [done|]. right. split_and!; [done|done|done|by left]. }
  cbn [Z.ltb Z.compare]. destruct (flow_delay_send_spec start) as (r & w1 & -> & [(-> & H1 & Hd1 & _)|[Hr ->]]).
  2: { rewrite (proj2 (Z.ltb_lt r 0) Hr). do 2 eexists. split; [done|]. right. split_and!; [done|done|done|by left]. }
  assert (forall es w, logs t es w1 w -> delay_send w = true) as Hds.
  { intros es w [_ [(-> & _)|(_ & -> & _)]]; done. }
  cbn [Z.ltb Z.compare]. destruct (open_nodes_spec (node_specs t) 0 0 w1 Hopt ltac:(done)) as (opened & r & n & w2 & Hrun & Hend).
  change (Z.of_nat 0) with 0 in Hrun. rewrite Hrun, bind_ret. cbn [Nat.add] in *. rewrite Nat2Z.id.
  destruct Hend as [(-> & Hr & -> & H2)|(-> & Hr & Hn & tried & Ht & H2)].
  - destruct (connect_nodes_spec w2) as (r3 & w3 & -> & [(-> & H3)|(made & x & rest & tried & Hr3 & Hz & Ht & H3)]); rewrite bind_ret.
    + cbn [andb negb Z.ltb Z.compare]. do 2 eexists. split; [done|]. left. pose proof (logs_trans t _ _ _ _ _ H2 H3) as H23.
      split_and!; [done|exact (logs_trans t _ _ _ _ _ H1 H23)|by eapply Hds].
    + rewrite (proj2 (Z.ltb_lt r3 0) Hr3). cbn [andb negb]. pose proof (logs_trans t _ _ _ _ _ H2 H3) as H23.
      destruct (open_failed (length (node_specs t)) _ w3 r3 (logs_trans t _ _ _ _ _ H1 H23) (Hds _ _ H23) Hr3) as (w4 & -> & ? & ? & ?).
      { by eapply undone_conns. }
      do 2 eexists. split; [done|]. right. split_and!; [done|done|done|by right].
  - rewrite bind_ret. cbn [andb].
    destruct (open_failed n _ w2 r (logs_trans t _ _ _ _ _ H1 H2) (Hds _ _ H2) Hr) as (w4 & -> & ? & ? & ?).
    { by apply undone_nodes. }
    do 2 eexists. split; [done|]. right. split_and!; [done|done|done|by right].
Qed.

Lemma flow_node_close_spec w :
  exists w', flow_node_close t w = Ret w'
    /\ trace (log w') = trace (log w) ++ ((if delay_send w then [TimeoutDel] else []) ++ deleted (delayed_packets w)) ++ closed_events.
Proof.
  unfold flow_node_close. destruct (delete_delayed_packets_spec w) as (_ & _ & _ & Hlog).
  destruct (teardown_connections_spec (delete_delayed_packets w)) as (w1 & -> & H1). rewrite bind_ret.
  destruct (ok_nodes _ (fo_type Hok)) as (-> & _). rewrite blen_to_nat.
  destruct (fini_nodes_spec (length (node_specs t)) w1) as (w2 & -> & H2). exists w2. split; [done|].
  rewrite (logs_trace t _ _ _ (logs_trans t _ _ _ _ _ H1 H2)), Hlog, trace_app, <- app_assoc. f_equal. f_equal.
  rewrite trace_app. f_equal; [by destruct (delay_send w)|]. apply deleted_trace.
Qed.

Lemma in_order_open w : logs t opened_events start w -> delay_send w = true -> in_order w.
Proof.
  intros Hl Hd. apply (in_order_logs opened_events start); [|done|].
  - split; [by exists []|constructor|done|done].
  - unfold opened_events. rewrite deliveries_app. unfold inits.
    induction (seq 0 (length (node_specs t))) as [|i l IH]; cbn; [|exact IH].
    by induction (connections t).
Qed.

Lemma open_result w : options_large -> flow_node_open t = Ret (0, w) -> logs t opened_events start w /\ delay_send w = true.
Proof.
  intros Hopt Hw. destruct (flow_node_open_spec Hopt) as (r & w' & Hrun & Hres). rewrite Hw in Hrun. injection Hrun as <- <-.
  by destruct Hres as [(_ & ? & ?)|(Hr & _)].
Qed.

(** C2: Take a flow of a type that was set up ([type_ok]), whose ports all
    have the version of the library and a packet type, whose nodes send only
    from ports they have, and which copies no options or has options of every
    node that are as large as their header.  Once it was opened it never goes
    outside its arrays, whatever its nodes answer and send.  It handles the packets it
    accepts once and in the order they were sent: each goes to every
    connection of its port, in the order of the connections, and then to the
    exported port or is deleted.  All that was accepted is delivered in the
    next iteration of the main loop, for which a timeout waits whenever there
    are packets; what nodes send meanwhile waits for the one after. *)
Theorem flow_delivers_in_order acts w :
  options_large -> flow_node_open t = Ret (0, w) -> Forall action_ok acts ->
  exists w', run_actions t w acts = Ret w' /\ in_order w'
    /\ exists w'' l, run_action t w' Fire = Ret w'' /\ deliveries (log w'') = accepted (log w') ≫= delivery t
         /\ log w'' = log w' ++ l /\ delayed_packets w'' = accepted l.
Proof.
  intros Hopt Hw Hacts. destruct (open_result w Hopt Hw) as [Hl Hd].
  destruct (run_actions_spec acts w Hacts (in_order_open w Hl Hd)) as (w' & Hrun & Hio). exists w'. split_and!; [done|done|].
  destruct (in_order_deliveries w' Hio) as (w'' & ? & ? & l & ? & ?). by exists w'', l.
Qed.

(** C17: For the same flows (ports with the version of the library and a packet
    type, nodes that send only from ports they have, options as large as
    their header when they are copied; [untyped_port_leaves_connections] and
    [small_options_answer_success] show what happens to others) opening is
    all or nothing.  It answers 0 with its nodes opened
    in order and then its connections made in order, or with a negative error
    and with every node it opened closed again, every connection undone, last
    first, no packet and no timeout left.  Closing a flow undoes its
    connections and closes its nodes, last first. *)
Theorem flow_opens_completely :
  options_large ->
  (exists r w, flow_node_open t = Ret (r, w)
    /\ (r = 0 /\ trace (log w) = opened_events
        \/ r < 0 /\ delayed_packets w = [] /\ timeout_armed w = false
           /\ (trace (log w) = [] \/ exists l, undone l /\ trace (log w) = l ++ TimeoutDel :: deleted (accepted (log w)))))
  /\ forall w, exists w', flow_node_close t w = Ret w'
       /\ trace (log w') = trace (log w) ++ ((if delay_send w then [TimeoutDel] else []) ++ deleted (delayed_packets w)) ++ closed_events.
Proof.
  intros Hopt. split; [|exact flow_node_close_spec].
  destruct (flow_node_open_spec Hopt) as (r & w & Hrun & Hres). exists r, w. split; [done|].
  destruct Hres as [(-> & Hl & _)|Hres]; [left|by right]. split; [done|]. apply (logs_trace t _ _ _ Hl).
Qed.
End Run.

(** ** Examples *)

#[local] Existing Instance roomy.

Definition a_packet (k : Z) : packet := {| pk_id := k; pk_type := Some (PT 1) |}.

(** Nodes that send what they are given, the filter of [a_flow] being node 2. *)
Definition forwarding : FlowNodes := {|
  sends := fun h => match last h with
    | Some (Process 2 _ _ p) | Some (Input 2 _ _ p) => [(2, 0, {| pk_id := 10 + pk_id p; pk_type := pk_type p |})]
    | _ => []
    end;
  answer := fun _ => 0; timeout_ok := fun _ => true; packet_memory := fun _ => true; options_ok := fun _ => true
|}.

(** The type made from a specification. *)
Definition made (s : flow_static_spec) : flow_static_type :=
  match sol_flow_static_new_type s with Ret (Some t) => t | _ => type_init s end.

Lemma a_flow_ok : flow_ok (H0 := forwarding) (made a_flow).
Proof.
  split.
  - destruct (flow_static_type_init_spec a_flow a_flow_typed) as (r & t & Ht & [(_ & _ & Hok & _)|[Hr _]]).
    + assert (made a_flow = t) as ->; [|exact Hok]. vm_compute in Ht. injection Ht as _ <-. vm_compute. reflexivity.
    + vm_compute in Ht. injection Ht as <- _. discriminate Hr.
  - vm_compute made. repeat constructor; done.
  - intros h. cbn. destruct (last h) as [[]|]; try constructor.
    all: destruct node as [|[|[]|]|]; try constructor; [|constructor].
    all: vm_compute made; split_and!; done.
Qed.

Lemma a_flow_options : options_large (made a_flow).
Proof. intros _. vm_compute made. repeat constructor; done. Qed.

Definition a_run : list action := [Send 0 0 (a_packet 1); Send 1 0 (a_packet 2); Fire; Receive 0 0 (a_packet 3)].

Lemma flow_delivers_in_order_witness :
  exists w w' w'', options_large (made a_flow) /\ Forall (action_ok (made a_flow)) a_run
    /\ flow_node_open (H0 := forwarding) (made a_flow) = Ret (0, w)
    /\ run_actions (H0 := forwarding) (made a_flow) w a_run = Ret w' /\ in_order (made a_flow) w'
    /\ deliveries (log w') = [Process 2 0 0 (a_packet 1); Deleted (a_packet 1); Process 2 0 1 (a_packet 2); Deleted (a_packet 2)]
    /\ run_action (H0 := forwarding) (made a_flow) w' Fire = Ret w''
    /\ deliveries (log w'') = accepted (log w') ≫= delivery (made a_flow)
    /\ deliveries (log w'') = deliveries (log w') ++ [ExportedOut 0 (a_packet 11); ExportedOut 0 (a_packet 12); ExportedOut 0 (a_packet 13)].
Proof.
  destruct (flow_node_open (H0 := forwarding) (made a_flow)) as [[r w]|] eqn:Hw; [|vm_compute in Hw; discriminate Hw].
  assert (r = 0) as ->; [vm_compute in Hw; injection Hw as <- _; reflexivity|].
  assert (Forall (action_ok (made a_flow)) a_run) as Ha.
  { repeat constructor; cbn; vm_compute; (reflexivity || discriminate || auto). }
  destruct (flow_delivers_in_order (H0 := forwarding) (made a_flow) a_flow_ok a_run w a_flow_options Hw Ha)
    as (w' & Hrun & Hio & w'' & l & Hfire & Hdel & _).
  exists w, w', w''. split; [exact a_flow_options|]. split; [exact Ha|]. split; [reflexivity|].
  split; [exact Hrun|]. split; [exact Hio|].
  vm_compute in Hw. injection Hw as <-. vm_compute in Hrun. injection Hrun as <-. split; [reflexivity|].
  split; [exact Hfire|]. split; [exact Hdel|]. vm_compute in Hfire. injection Hfire as <-. reflexivity.
Defined.

(** Nodes like these, one of which cannot be opened. *)
Definition stubborn : FlowNodes := {|
  sends := fun h => match last h with Some (Init 0) => [(0, 0, a_packet 1)] | _ => [] end;
  answer := fun h => match last h with Some (ConnectIn 2 _ 1) => - EINVAL | _ => 0 end;
  timeout_ok := fun _ => true; packet_memory := fun _ => true; options_ok := fun _ => true
|}.

Lemma stubborn_ok : flow_ok (H0 := stubborn) (made a_flow).
Proof.
  destruct a_flow_ok as [Ht Hp _]. split; [exact Ht|exact Hp|].
  intros h. cbn. destruct (last h) as [[[]| | | | | | | | | | | | |]|]; try constructor; [|constructor].
  vm_compute made. split_and!; done.
Qed.

Lemma flow_opens_completely_witness :
  options_large (made a_flow)
  /\ exists r w, flow_node_open (H0 := stubborn) (made a_flow) = Ret (r, w) /\ r = - EINVAL
    /\ exists l, undone (made a_flow) l /\ trace (log w) = l ++ [TimeoutDel; Deleted (a_packet 1)].
Proof.
  split; [exact a_flow_options|].
  destruct (flow_opens_completely (H0 := stubborn) (made a_flow) stubborn_ok a_flow_options) as [(r & w & Hrun & Hres) _].
  exists r, w. split; [exact Hrun|]. vm_compute in Hrun. injection Hrun as <- <-. split; [reflexivity|].
  destruct Hres as [[Hr _]|(_ & _ & _ & [Htr|Hund])]; [discriminate Hr|discriminate Htr|exact Hund].
Defined.

(** ** What the code does outside these rules *)

(** A destination port without a packet type: the open fails at once and the
    connection made before it is not undone. *)
Definition untyped_flow : flow_static_spec := {|
  sp_nodes := [a_source; a_filter; {| data_size := 0; options_size := 4; ports_in := [{| api_ok := true; ptype := None |}]; ports_out := [a_port] |}];
  sp_conns := [{| c_src := 0; c_src_port := 0; c_dst := 1; c_dst_port := 0 |}; {| c_src := 0; c_src_port := 0; c_dst := 2; c_dst_port := 0 |}];
  sp_exported_in := []; sp_exported_out := []; sp_child_opts_set := false
|}.

Lemma untyped_port_leaves_connections :
  exists w, flow_node_open (H0 := forwarding) (made untyped_flow) = Ret (- EINVAL, w)
    /\ trace (log w) = [Init 0; Init 1; Init 2; ConnectOut 0 0 0; ConnectIn 1 0 0; Fini 2; Fini 1; Fini 0; TimeoutDel].
Proof. eexists. split; [vm_compute; reflexivity|]. vm_compute. reflexivity. Qed.

(** Options too small for their header: every node is closed again, the data
    of the flow is released, and the answer is 0. *)
Definition small_options : flow_static_spec := {|
  sp_nodes := [a_source; {| data_size := 0; options_size := 2; ports_in := []; ports_out := [a_port] |}];
  sp_conns := []; sp_exported_in := []; sp_exported_out := []; sp_child_opts_set := true
|}.

Lemma small_options_answer_success :
  exists w, flow_node_open (H0 := forwarding) (made small_options) = Ret (0, w)
    /\ trace (log w) = [Init 0; Fini 0; TimeoutDel].
Proof. eexists. split; [vm_compute; reflexivity|]. vm_compute. reflexivity. Qed.

(** Nodes that send a packet when they are closed. *)
Definition parting : FlowNodes := {|
  sends := fun h => match last h with Some (Fini 0) => [(0, 0, a_packet 1)] | _ => [] end;
  answer := fun _ => 0; timeout_ok := fun _ => true; packet_memory := fun _ => true; options_ok := fun _ => true
|}.

(** The queue was emptied before: the packet is never deleted; after an
    iteration of the main loop even a timeout is left on the closed flow. *)
Lemma packets_sent_while_closing_stay :
  (exists w w', flow_node_open (H0 := parting) (made a_flow) = Ret (0, w) /\ flow_node_close (H0 := parting) (made a_flow) w = Ret w'
     /\ delayed_packets w' = [{| dp_packet := a_packet 1; source_idx := 0; source_port_idx := 0 |}] /\ timeout_armed w' = false)
  /\ (exists w w1 w', flow_node_open (H0 := parting) (made a_flow) = Ret (0, w)
     /\ run_action (H0 := parting) (made a_flow) w Fire = Ret w1 /\ flow_node_close (H0 := parting) (made a_flow) w1 = Ret w'
     /\ timeout_armed w' = true).
Proof. split; repeat eexists; vm_compute; reflexivity. Qed.

(** The type of the port is looked at before its index is checked. *)
Lemma sending_from_no_port :
  exists w, flow_node_open (H0 := forwarding) (made a_flow) = Ret (0, w)
    /\ sol_flow_send_packet (H0 := forwarding) (made a_flow) w 0 1 (a_packet 1) = UB.
Proof. eexists. split; vm_compute; reflexivity. Qed.
End FlowRunProofs.
