(* ===== verification/JsonScanner.v ===== *)
(** * The JSON scanner

    Models the scanner of src/src/lib/parsers/sol-json.c and the inline
    functions of src/src/lib/parsers/include/sol-json.h: tokens, skipping of
    values, the loops over arrays and objects, and the numbers of tokens.  The
    document is a block of memory [doc]; pointers into it are offsets, and a
    pointer that may be NULL is an option.  A function that answers false has
    set errno: the answer is [None] for true and that errno for false. *)

From S2P Require Import Prelude Arith Str.
Import Arith.Overflow CString.

#[local] Open Scope Z_scope.

Module JsonScanner.

Record sol_json_scanner := { mem : Z; mem_end : Z; current : Z }.

Record sol_json_token := { tk_start : option Z; tk_end : option Z }.

Inductive sol_json_type :=
| UNKNOWN | OBJECT_START | OBJECT_END | ARRAY_START | ARRAY_END
| ELEMENT_SEP | PAIR_SEP | TRUE | FALSE | NULL | STRING | NUMBER.
#[export] Instance json_type_eq_dec : EqDecision sol_json_type.
Proof. solve_decision. Defined.

Inductive sol_json_loop_status := REASON_OK | REASON_INVALID.
#[export] Instance loop_status_eq_dec : EqDecision sol_json_loop_status.
Proof. solve_decision. Defined.

Definition set_current (s : sol_json_scanner) (p : Z) : sol_json_scanner :=
  {| mem := mem s; mem_end := mem_end s; current := p |}.

Definition no_token : sol_json_token := {| tk_start := None; tk_end := None |}.
Definition token_at (a b : Z) : sol_json_token := {| tk_start := Some a; tk_end := Some b |}.

Definition sol_json_scanner_init (m size : Z) : sol_json_scanner :=
  {| mem := m; mem_end := m + size; current := m |}.

(** A slice is its place and its length. *)
Definition sol_json_scanner_init_from_slice (d len : Z) : sol_json_scanner := sol_json_scanner_init d len.
Definition sol_json_token_init_from_slice (d len : Z) : sol_json_token := token_at d (d + len).

Definition sol_json_scanner_init_from_scanner (other : sol_json_scanner) : sol_json_scanner :=
  {| mem := mem other; mem_end := mem_end other; current := mem other |}.

(** A pointer that must not be NULL. *)
Definition deref (p : option Z) : outcome Z := match p with Some p => Ret p | None => UB end.

Definition sol_json_scanner_init_from_token (t : sol_json_token) : outcome sol_json_scanner :=
  a ← deref (tk_start t); b ← deref (tk_end t); Ret {| mem := a; mem_end := b; current := a |}.

Definition sol_json_scanner_get_size_remaining (s : sol_json_scanner) : Z := wrapu 64 (mem_end s - current s).

Definition sol_json_scanner_get_mem_offset (s : sol_json_scanner) (p : Z) : Z :=
  if (p <? mem s) || (p >? mem_end s) then SIZE_MAX else p - mem s.

(** strchr finds the NUL at the end of its string, too. *)
Definition type_of_char (c : Z) : sol_json_type :=
  if c =? 123 then OBJECT_START else if c =? 125 then OBJECT_END
  else if c =? 91 then ARRAY_START else if c =? 93 then ARRAY_END
  else if c =? 44 then ELEMENT_SEP else if c =? 58 then PAIR_SEP
  else if c =? 116 then TRUE else if c =? 102 then FALSE else if c =? 110 then NULL
  else if c =? 34 then STRING
  else if c =? 0 then UNKNOWN
  else if isdigit c || (c =? 45) || (c =? 43) then NUMBER
  else UNKNOWN.

(** "true", "false", "null" *)
Definition symbol_true : list Z := [116; 114; 117; 101].
Definition symbol_false : list Z := [102; 97; 108; 115; 101].
Definition symbol_null : list Z := [110; 117; 108; 108].

(** The characters of escape sequences: quote, backslash, slash, b, f, n, r,
    t and u. *)
Definition escapable_chars : list Z := [34; 92; 47; 98; 102; 110; 114; 116; 117].

Definition is_escapable (c : Z) : bool := bool_decide (c ∈ escapable_chars).

Section Scanner.
Context `{BuildConfig} (doc : block).

Definition byte_at (p : Z) : outcome Z := at_index doc p.

Definition sol_json_mem_get_type (p : Z) : outcome sol_json_type := c ← byte_at p; Ret (type_of_char c).

Definition sol_json_token_get_type (t : sol_json_token) : outcome sol_json_type :=
  p ← deref (tk_start t); sol_json_mem_get_type p.

Definition sol_json_token_get_size (t : sol_json_token) : outcome Z :=
  a ← deref (tk_start t); b ← deref (tk_end t); Ret (wrapu 64 (b - a)).

(** The bytes of a token. *)
Definition sol_json_token_to_slice (t : sol_json_token) : outcome (list Z) :=
  a ← deref (tk_start t); b ← deref (tk_end t); mem_load doc a (b - a).

Definition answer : Type := option Z.

(** ** Tokens *)

Definition check_symbol (s : sol_json_scanner) (symname : list Z)
    : outcome (answer * sol_json_scanner * sol_json_token) :=
  if sol_json_scanner_get_size_remaining s <? blen symname then Ret (Some EINVAL, s, no_token)
  else
    text ← mem_load doc (current s) (blen symname);
    if negb (bool_decide (text = symname)) then Ret (Some EINVAL, s, no_token)
    else
      let e := current s + blen symname in
      Ret (None, set_current s e, token_at (current s) e).

(** The loop over the [n] characters that are left: where the string ends, or
    where the loop stopped without its end. *)
Fixpoint string_loop (n : nat) (p : Z) (escaped : bool) : outcome (bool * Z) :=
  match n with
  | O => Ret (false, p)
  | S n =>
      c ← byte_at p;
      if escaped then
        if negb (is_escapable c) then Ret (false, p) else string_loop n (p + 1) false
      else if c =? 92 then string_loop n (p + 1) true
      else if c =? 34 then Ret (true, p + 1)
      else string_loop n (p + 1) false
  end.

Definition check_string (s : sol_json_scanner) : outcome (answer * sol_json_scanner * sol_json_token) :=
  '(found, p) ← string_loop (Z.to_nat (mem_end s - (current s + 1))) (current s + 1) false;
  let s' := set_current s p in
  if negb found then Ret (Some EINVAL, s', no_token)
  else Ret (None, s', token_at (current s) p).

(** Where the loop stops, and the places of the point and of the exponent;
    [n] is more than the characters left. *)
Fixpoint number_loop (e : Z) (n : nat) (p : Z) (frac exp : option Z) : outcome (Z * option Z * option Z) :=
  match n with
  | O => Ret (p, frac, exp)
  | S n =>
      if negb (p <? e) then Ret (p, frac, exp)
      else
        c ← byte_at p;
        if (48 <=? c) && (c <=? 57) then number_loop e n (p + 1) frac exp
        else if bool_decide (exp <> None) then Ret (p, frac, exp)
        else if (c =? 101) || (c =? 69) then
          p ← (if p + 1 <? e then c ← byte_at (p + 1); Ret (if (c =? 45) || (c =? 43) then p + 1 else p)
               else Ret p);
          number_loop e n (p + 1) frac (Some p)
        else if bool_decide (frac = None) && (c =? 46) then number_loop e n (p + 1) (Some p) exp
        else Ret (p, frac, exp)
  end.

Definition check_number (s : sol_json_scanner) : outcome (answer * sol_json_scanner * sol_json_token) :=
  '(p, frac, exp) ← number_loop (mem_end s) (Z.to_nat (mem_end s - current s)) (current s + 1) None None;
  let s' := set_current s p in
  if bool_decide (frac = Some p) || bool_decide (exp = Some p) then Ret (Some EINVAL, s', no_token)
  else Ret (None, s', token_at (current s) p).

(** The loop over the [n] characters that are left. *)
Fixpoint next_loop (n : nat) (s : sol_json_scanner) : outcome (answer * sol_json_scanner * sol_json_token) :=
  match n with
  | O => Ret (Some 0, s, no_token)
  | S n =>
      ty ← sol_json_mem_get_type (current s);
      match ty with
      | UNKNOWN =>
          c ← byte_at (current s);
          if negb (isspace c) then Ret (Some EINVAL, s, no_token)
          else next_loop n (set_current s (current s + 1))
      | OBJECT_START | OBJECT_END | ARRAY_START | ARRAY_END | ELEMENT_SEP | PAIR_SEP =>
          let e := current s + 1 in Ret (None, set_current s e, token_at (current s) e)
      | TRUE => check_symbol s symbol_true
      | FALSE => check_symbol s symbol_false
      | NULL => check_symbol s symbol_null
      | STRING => check_string s
      | NUMBER => check_number s
      end
  end.

Definition sol_json_scanner_next (s : sol_json_scanner) : outcome (answer * sol_json_scanner * sol_json_token) :=
  next_loop (Z.to_nat (mem_end s - current s)) s.

(** ** Values *)

(** How a token changes the level; [None] for a token that is none. *)
Definition level_step (ty : sol_json_type) (level : Z) : outcome (option Z) :=
  match ty with
  | UNKNOWN => Ret None
  | OBJECT_START | ARRAY_START => l ← int_op (level + 1); Ret (Some l)
  | OBJECT_END | ARRAY_END => if level - 1 <? 0 then Ret None else Ret (Some (level - 1))
  | _ => Ret (Some level)
  end.

Fixpoint skip_loop (fuel : nat) (level : Z) (s : sol_json_scanner) (t : sol_json_token)
    : outcome (answer * sol_json_scanner * sol_json_token) :=
  match fuel with
  | O => UB
  | S fuel =>
      ty ← sol_json_token_get_type t;
      l ← level_step ty level;
      match l with
      | None => Ret (Some EINVAL, s, t)
      | Some level =>
          if level >? 0 then
            '(r, s, t) ← sol_json_scanner_next s;
            match r with Some _ => Ret (Some EINVAL, s, t) | None => skip_loop fuel level s t end
          else Ret (None, s, t)
      end
  end.

(** Every round reads a token, of one character at least. *)
Definition skip_fuel (s : sol_json_scanner) : nat := S (Z.to_nat (mem_end s - current s)).

Definition sol_json_scanner_skip (s : sol_json_scanner) (t : sol_json_token)
    : outcome (answer * sol_json_scanner * sol_json_token) :=
  e ← deref (tk_end t);
  let s := set_current s e in skip_loop (skip_fuel s) 0 s t.

(** The token for the value is filled in while the pair is read. *)
Definition sol_json_scanner_get_dict_pair (s : sol_json_scanner) (key value : sol_json_token)
    : outcome (answer * sol_json_scanner * sol_json_token) :=
  ty ← sol_json_token_get_type key;
  if negb (bool_decide (ty = STRING)) then Ret (Some EINVAL, s, value)
  else
    '(r, s, value) ← sol_json_scanner_next s;
    if bool_decide (r <> None) then Ret (Some EINVAL, s, value)
    else
      ty ← sol_json_token_get_type value;
      if negb (bool_decide (ty = PAIR_SEP)) then Ret (Some EINVAL, s, value)
      else
        '(r, s, value) ← sol_json_scanner_next s;
        if bool_decide (r <> None) then Ret (Some EINVAL, s, value)
        else
          let start := tk_start value in
          '(r, s, value) ← sol_json_scanner_skip s value;
          if bool_decide (r <> None) then Ret (Some EINVAL, s, value)
          else Ret (None, s, {| tk_start := start; tk_end := tk_end value |}).

(** ** Loops *)

Definition sol_json_loop_iterate_generic (s : sol_json_scanner) (t : sol_json_token) (end_type : sol_json_type)
    (reason : sol_json_loop_status) : outcome (bool * sol_json_scanner * sol_json_token * sol_json_loop_status) :=
  if negb (bool_decide (reason = REASON_OK)) then Ret (false, s, t, reason)
  else
    '(r, s, t) ← sol_json_scanner_next s;
    if bool_decide (r <> None) then Ret (false, s, t, REASON_INVALID)
    else
      ty ← sol_json_token_get_type t;
      if bool_decide (ty = end_type) then Ret (false, s, t, REASON_OK)
      else if bool_decide (ty = ELEMENT_SEP) then
        '(r, s, t) ← sol_json_scanner_next s;
        if bool_decide (r <> None) then Ret (false, s, t, REASON_INVALID) else Ret (true, s, t, reason)
      else Ret (true, s, t, reason).

Definition sol_json_loop_iterate_array (s : sol_json_scanner) (t : sol_json_token) (reason : sol_json_loop_status)
    (element_type : sol_json_type) : outcome (bool * sol_json_scanner * sol_json_token * sol_json_loop_status) :=
  '(more, s, t, reason) ← sol_json_loop_iterate_generic s t ARRAY_END reason;
  if negb more then Ret (false, s, t, reason)
  else
    ty ← sol_json_token_get_type t;
    if bool_decide (ty = element_type) then Ret (true, s, t, REASON_OK) else Ret (false, s, t, REASON_INVALID).

(** Also fills in the key and the value. *)
Definition sol_json_loop_iterate_object (s : sol_json_scanner) (t key value : sol_json_token) (reason : sol_json_loop_status)
    : outcome (bool * sol_json_scanner * sol_json_token * sol_json_token * sol_json_token * sol_json_loop_status) :=
  '(more, s, t, reason) ← sol_json_loop_iterate_generic s t OBJECT_END reason;
  if negb more then Ret (false, s, t, key, value, reason)
  else
    let key := t in
    '(r, s, value) ← sol_json_scanner_get_dict_pair s key value;
    if bool_decide (r <> None) then Ret (false, s, t, key, value, REASON_INVALID)
    else Ret (true, s, t, key, value, REASON_OK).

Definition sol_json_loop_iterate_init (s : sol_json_scanner) (start_type : sol_json_type)
    : outcome (sol_json_loop_status * sol_json_scanner * sol_json_token) :=
  '(r, s, t) ← sol_json_scanner_next s;
  if bool_decide (r <> None) then Ret (REASON_INVALID, s, t)
  else
    ty ← sol_json_token_get_type t;
    if negb (bool_decide (ty = start_type)) then Ret (REASON_INVALID, s, t) else Ret (REASON_OK, s, t).

(** *mem_end[-1] is read before anything else. *)
Definition sol_json_is_valid_type (s : sol_json_scanner) (type : sol_json_type) : outcome bool :=
  c ← byte_at (mem_end s - 1);
  let last_position := if c =? 0 then mem_end s - 1 else mem_end s in
  '(r, s, t) ← sol_json_scanner_next s;
  if bool_decide (r <> None) then Ret false
  else
    ty ← sol_json_token_get_type t;
    if negb (bool_decide (ty = type)) then Ret false
    else
      '(r, s, t) ← sol_json_scanner_skip s t;
      Ret (bool_decide (r = None) && bool_decide (tk_end t = Some last_position)).

(** The token is a string, which the code asserts. *)
Definition sol_json_token_str_eq (t : sol_json_token) (str : list Z) : outcome bool :=
  ty ← sol_json_token_get_type t;
  if negb (bool_decide (ty = STRING)) then UB
  else
    size ← sol_json_token_get_size t;
    if negb (size =? wrapu 64 (blen str + 2)) then Ret false
    else
      a ← deref (tk_start t);
      text ← mem_load doc (a + 1) (blen str); Ret (bool_decide (text = str)).

(** ** Numbers *)

(** The loop over the [n] characters that are left: the error and the value. *)
Fixpoint uint64_loop (n : nat) (p tmpvar : Z) : outcome (Z * Z) :=
  match n with
  | O => Ret (0, tmpvar)
  | S n =>
      c ← byte_at p;
      if (48 <=? c) && (c <=? 57) then
        let '(r, tmpvar) := sol_util_uint64_mul tmpvar 10 tmpvar in
        if r <? 0 then Ret (- ERANGE, UINT64_MAX)
        else
          let '(r, tmpvar) := sol_util_uint64_add tmpvar (c - 48) tmpvar in
          if r <? 0 then Ret (- ERANGE, UINT64_MAX)
          else uint64_loop n (p + 1) tmpvar
      else Ret (- EINVAL, tmpvar)
  end.

Definition token_get_uint64 (start e : Z) : outcome (Z * Z) :=
  c ← byte_at start;
  let itr := if c =? 43 then start + 1 else start in
  uint64_loop (Z.to_nat (e - itr)) itr 0.

(** [sign * tmpvar] is unsigned; the conversion to int64_t wraps. *)
Definition token_get_int64 (start e : Z) : outcome (Z * Z) :=
  c ← byte_at start;
  let negative := c =? 45 in
  '(r, tmpvar) ← token_get_uint64 (if negative then start + 1 else start) e;
  let value := wraps 64 (if negative then wrapu 64 (- tmpvar) else tmpvar) in
  if r =? 0 then
    if negb negative && (tmpvar >? INT64_MAX) then Ret (- ERANGE, INT64_MAX)
    else if negative && (tmpvar >? INT64_MAX + 1) then Ret (- ERANGE, INT64_MIN)
    else Ret (0, value)
  else if r =? - ERANGE then Ret (r, if negative then INT64_MIN else INT64_MAX)
  else if negb negative && (tmpvar >? INT64_MAX) then Ret (r, INT64_MAX)
  else if negative && (tmpvar >? INT64_MAX + 1) then Ret (r, INT64_MIN)
  else Ret (r, value).

(** The error and the value. *)
Definition sol_json_token_get_uint64 (t : sol_json_token) : outcome (Z * Z) :=
  match tk_start t, tk_end t with
  | Some a, Some b =>
      if b <=? a then Ret (- EINVAL, 0)
      else
        ty ← sol_json_mem_get_type a;
        if negb (bool_decide (ty = NUMBER)) then Ret (- EINVAL, 0)
        else
          c ← byte_at a;
          if c =? 45 then Ret (- ERANGE, 0) else token_get_uint64 a b
  | None, None => Ret (- EINVAL, 0)
  | _, _ => UB
  end.

Definition sol_json_token_get_int64 (t : sol_json_token) : outcome (Z * Z) :=
  match tk_start t, tk_end t with
  | Some a, Some b =>
      if b <=? a then Ret (- EINVAL, 0)
      else
        ty ← sol_json_mem_get_type a;
        if negb (bool_decide (ty = NUMBER)) then Ret (- EINVAL, 0) else token_get_int64 a b
  | None, None => Ret (- EINVAL, 0)
  | _, _ => UB
  end.

Definition sol_json_token_get_uint32 (t : sol_json_token) : outcome (Z * Z) :=
  '(r, tmp) ← sol_json_token_get_uint64 t;
  if tmp >? UINT32_MAX then Ret (if r =? 0 then - ERANGE else r, UINT32_MAX) else Ret (r, tmp).

Definition sol_json_token_get_int32 (t : sol_json_token) : outcome (Z * Z) :=
  '(r, tmp) ← sol_json_token_get_int64 t;
  if tmp >? INT32_MAX then Ret (if r =? 0 then - ERANGE else r, INT32_MAX)
  else if tmp <? INT32_MIN then Ret (if r =? 0 then - ERANGE else r, INT32_MIN)
  else Ret (r, tmp).
End Scanner.
End JsonScanner.
