(* ===== verification/JsonScannerProofs.v ===== *)
(** * The JSON scanner: theorems

    What the scanner takes for a token, and that it finds the tokens of a
    document, the ends of its values and the members of its objects. *)

From Stdlib Require Import Ascii String.
From S2P Require Import Prelude Arith Str JsonScanner.
Import CString JsonScanner.

#[local] Open Scope Z_scope.

Module JsonScannerProofs.

(** ** Tokens as texts *)

(** The text of a string behind its first quote and before its last one,
    [esc] after a backslash. *)
Fixpoint string_body (esc : bool) (l : list Z) : bool :=
  match l with
  | [] => negb esc
  | c :: l =>
      if esc then is_escapable c && string_body false l
      else if c =? 92 then string_body true l
      else if c =? 34 then false
      else string_body false l
  end.

(** The text of a number behind its first character: digits, a point and
    digits, an exponent with a sign and digits; no digits need be there. *)
Inductive number_state := N_INT | N_FRAC | N_EXP_SIGN | N_EXP.

Definition number_step (st : number_state) (c : Z) : option number_state :=
  if isdigit c then Some (match st with N_EXP_SIGN => N_EXP | _ => st end)
  else if (c =? 101) || (c =? 69) then match st with N_INT | N_FRAC => Some N_EXP_SIGN | _ => None end
  else if c =? 46 then match st with N_INT => Some N_FRAC | _ => None end
  else if (c =? 45) || (c =? 43) then match st with N_EXP_SIGN => Some N_EXP | _ => None end
  else None.

(** The longest such text at the front of [l]. *)
Fixpoint munch (st : number_state) (l : list Z) : list Z :=
  match l with
  | [] => []
  | c :: l => match number_step st c with Some st' => c :: munch st' l | None => [] end
  end.

Definition symbols : list (list Z) :=
  [[123]; [125]; [91]; [93]; [44]; [58]; symbol_true; symbol_false; symbol_null].

Definition is_string (l : list Z) : Prop := exists body, l = 34 :: body ++ [34] /\ string_body false body = true.

Definition is_number (l : list Z) : Prop :=
  exists c a, l = c :: a /\ type_of_char c = NUMBER /\ munch N_INT a = a.

Definition lexeme (l : list Z) : Prop := l ∈ symbols \/ is_string l \/ is_number l.

Definition spaces (l : list Z) : Prop := Forall (fun c => isspace c = true) l.

(** In front of [rest] a number ends with [l]. *)
Definition ends_token (l rest : list Z) : Prop :=
  match l with c :: a => type_of_char c = NUMBER -> munch N_INT (a ++ rest) = a | [] => True end.

Lemma digit_test c : (48 <=? c) && (c <=? 57) = isdigit c.
Proof. done. Qed.

Lemma isdigit_spec c : isdigit c = true <-> 48 <= c <= 57.
Proof. unfold isdigit. rewrite andb_true_iff, !Z.leb_le. done. Qed.

Lemma type_number c : type_of_char c = NUMBER <-> isdigit c = true \/ c = 45 \/ c = 43.
Proof.
  unfold type_of_char. split.
  - destruct (isdigit c); [by left|]. destruct (Z.eqb_spec c 45); [tauto|]. destruct (Z.eqb_spec c 43); [tauto|].
    cbn [orb]. repeat (case_match; try done).
  - intros Hc. rewrite isdigit_spec in Hc. bknown. destruct Hc as [Hc|[->| ->]]; [|done..].
    by rewrite (proj2 (isdigit_spec c) Hc).
Qed.

Lemma lexeme_nonempty l : lexeme l -> l <> [].
Proof.
  intros [Hs|[(body & -> & _)|(c & a & -> & _)]]; [|done..]. intros ->. unfold symbols in Hs.
  repeat (apply elem_of_cons in Hs as [Hs|Hs]; [discriminate Hs|]). by apply elem_of_nil in Hs.
Qed.

(** The first character tells what a token is. *)
Lemma lexeme_inv c l :
  lexeme (c :: l) ->
  match type_of_char c with
  | UNKNOWN => False
  | TRUE => c :: l = symbol_true | FALSE => c :: l = symbol_false | NULL => c :: l = symbol_null
  | STRING => exists body, l = body ++ [34] /\ string_body false body = true
  | NUMBER => munch N_INT l = l
  | _ => l = []
  end.
Proof.
  intros [Hs|[(body & [= -> ->] & Hb)|(c' & a & [= <- <-] & Hc & Ha)]].
  - unfold symbols in Hs. repeat (apply elem_of_cons in Hs as [[= -> ->]|Hs]; [done|]). by apply elem_of_nil in Hs.
  - by exists body.
  - by rewrite Hc.
Qed.

Lemma isspace_type c : isspace c = true -> type_of_char c = UNKNOWN.
Proof.
  unfold isspace. rewrite orb_true_iff, andb_true_iff, Z.eqb_eq, !Z.leb_le. intros Hc.
  unfold type_of_char, isdigit. bknown. done.
Qed.

Lemma symbol_lexeme l : l ∈ symbols -> lexeme l.
Proof. by left. Qed.

(** ** Places in a document *)

Section Views.
Context (doc : block).

(** The text [l] stands at [p]. *)
Definition view (p : Z) (l : list Z) : Prop := exists pre post, doc = pre ++ l ++ post /\ p = blen pre.

Lemma view_cons p c l : view p (c :: l) -> byte_at doc p = Ret c /\ view (p + 1) l.
Proof.
  intros (pre & post & Hd & ->). split.
  - apply at_index_some; [blia|]. by rewrite Hd, blen_to_nat, lookup_app_r, Nat.sub_diag by lia.
  - exists (pre ++ [c]), post. split; [by rewrite Hd, <- !app_assoc|blia].
Qed.

Lemma view_app p a b : view p (a ++ b) -> view (p + blen a) b.
Proof.
  intros (pre & post & Hd & ->). exists (pre ++ a), post. split; [by rewrite Hd, <- !app_assoc|blia].
Qed.

Lemma view_prefix p a b : view p (a ++ b) -> view p a.
Proof. intros (pre & post & Hd & ->). exists pre, (b ++ post). by rewrite Hd, <- !app_assoc. Qed.

Lemma view_load p l : view p l -> mem_load doc p (blen l) = Ret l.
Proof. intros (pre & post & Hd & ->). rewrite Hd. by apply mem_load_app. Qed.

Lemma view_load_some p l n : view p l -> 0 <= n <= blen l -> mem_load doc p n = Ret (take (Z.to_nat n) l).
Proof.
  intros Hv Hn. rewrite <- (take_drop (Z.to_nat n) l) in Hv. rewrite <- (view_load p _ (view_prefix _ _ _ Hv)). f_equal. blia.
Qed.

Lemma view_bounds p l : view p l -> 0 <= p /\ p + blen l <= blen doc.
Proof. intros (pre & post & Hd & ->). rewrite Hd. blia. Qed.

(** ** Strings *)

Lemma string_loop_spec l : forall p esc, view p l ->
  exists b q, string_loop doc (length l) p esc = Ret (b, q) /\ p <= q <= p + blen l
    /\ if b then exists body rest, l = body ++ 34 :: rest /\ string_body esc body = true /\ q = p + blen body + 1
       else forall body rest, l = body ++ 34 :: rest -> string_body esc body = false.
Proof.
  induction l as [|c l IH]; intros p esc Hv; cbn [string_loop length].
  { exists false, p. split_and!; [done|lia|blia|]. by intros []. }
  apply view_cons in Hv as [-> Hv]. rewrite bind_ret.
  assert (forall esc', (forall body, string_body esc (c :: body) = string_body esc' body) ->
    (esc = false -> c <> 34) ->
    exists b q, string_loop doc (length l) (p + 1) esc' = Ret (b, q) /\ p <= q <= p + blen (c :: l)
    /\ if b then exists body rest, c :: l = body ++ 34 :: rest /\ string_body esc body = true /\ q = p + blen body + 1
       else forall body rest, c :: l = body ++ 34 :: rest -> string_body esc body = false) as Hstep.
  { intros esc' Hesc Hc. destruct (IH (p + 1) esc' Hv) as (b & q & -> & Hq & Hb). exists b, q.
    split_and!; [done|lia|blia|]. destruct b.
    - destruct Hb as (body & rest & -> & Hbody & ->). exists (c :: body), rest. rewrite Hesc.
      split_and!; [done|done|blia].
    - intros [|c' body] rest; [|intros [= -> Hl]; rewrite Hesc; by eapply Hb].
      intros [= -> ->]. destruct esc; [done|]. by destruct (Hc eq_refl). }
  destruct esc.
  - destruct (is_escapable c) eqn:E; cbn [negb].
    + apply Hstep; [|done]. intros body. cbn. by rewrite E.
    + exists false, p. split_and!; [done|lia|blia|]. intros [|c' body] rest; [done|]. intros [= <- _]. cbn. by rewrite E.
  - destruct (Z.eqb_spec c 92) as [->|Hb]; [by apply Hstep|]. destruct (Z.eqb_spec c 34) as [->|Hq].
    + exists true, (p + 1). split_and!; [done|lia|blia|]. exists [], l. split_and!; [done|done|]. rewrite blen_nil. lia.
    + apply Hstep; [|done]. intros body. cbn. by rewrite (proj2 (Z.eqb_neq c 92) Hb), (proj2 (Z.eqb_neq c 34) Hq).
Qed.

Lemma string_body_unique esc a : forall b r r',
  string_body esc a = true -> string_body esc b = true -> a ++ 34 :: r = b ++ 34 :: r' -> a = b.
Proof.
  revert esc. induction a as [|c a IH]; intros esc [|d b] r r' Ha Hb; [done|..]; cbn [app].
  - intros [= <- _]. cbn in Ha, Hb. by destruct esc.
  - intros [= -> _]. cbn in Ha, Hb. by destruct esc.
  - intros [= <- Heq]. cbn in Ha, Hb. f_equal. destruct esc.
    + apply andb_true_iff in Ha as [_ Ha], Hb as [_ Hb]. by eapply IH.
    + destruct (c =? 92); [by eapply IH|]. destruct (c =? 34); [done|by eapply IH].
Qed.

(** ** Numbers *)

Lemma munch_prefix l : forall st, exists r, l = munch st l ++ r.
Proof.
  induction l as [|c l IH]; intros st; cbn; [by exists []|]. destruct (number_step st c) as [st'|]; [|by eexists].
  destruct (IH st') as [r Hr]. exists r. cbn. by f_equal.
Qed.

Lemma munch_app a : forall st r, munch st (a ++ r) = a -> munch st a = a.
Proof.
  induction a as [|c a IH]; intros st r; [done|]. cbn. destruct (number_step st c) as [st'|]; [|done].
  intros [= Ha]. f_equal. by eapply IH.
Qed.

(** Behind the exponent's sign, or without one. *)
Lemma munch_exp l : match l with c :: _ => (c =? 45) || (c =? 43) = false | [] => True end ->
  munch N_EXP_SIGN l = munch N_EXP l.
Proof.
  destruct l as [|c l]; intros Hc; [done|]. cbn. unfold number_step.
  destruct (isdigit c); [done|]. destruct ((c =? 101) || (c =? 69)); [done|]. destruct (c =? 46); [done|]. by rewrite Hc.
Qed.

Lemma sign_digit d : (d =? 45) || (d =? 43) = true -> isdigit d = false.
Proof. rewrite orb_true_iff, !Z.eqb_eq. by intros [->| ->]. Qed.
Lemma sign_exp d : (d =? 45) || (d =? 43) = true -> (d =? 101) || (d =? 69) = false.
Proof. rewrite orb_true_iff, !Z.eqb_eq. by intros [->| ->]. Qed.
Lemma sign_point d : (d =? 45) || (d =? 43) = true -> (d =? 46) = false.
Proof. rewrite orb_true_iff, !Z.eqb_eq. by intros [->| ->]. Qed.

(** The state of the loop. *)
Definition loop_state (frac exp : option Z) : number_state :=
  match exp, frac with Some _, _ => N_EXP | None, Some _ => N_FRAC | None, None => N_INT end.

Definition below (o : option Z) (p : Z) : Prop := forall q, o = Some q -> q < p.

Lemma below_more o p q : below o p -> p <= q -> below o q.
Proof. intros Ho Hpq x Hx. specialize (Ho x Hx). lia. Qed.

(** The loop stops behind the longest text of a number. *)
Lemma number_loop_spec n : forall l p frac exp, view p l -> (length l < n)%nat -> below frac p -> below exp p ->
  exists frac' exp', let q := p + blen (munch (loop_state frac exp) l) in
    number_loop doc (p + blen l) n p frac exp = Ret (q, frac', exp') /\ below frac' q /\ below exp' q.
Proof.
  induction n as [|n IH]; intros l p frac exp Hv Hn Hf He; [lia|]. cbn [number_loop].
  destruct l as [|c l].
  { rewrite (proj2 (Z.ltb_ge p (p + blen []))) by (rewrite blen_nil; lia). exists frac, exp. cbn [munch].
    rewrite blen_nil, Z.add_0_r. done. }
  rewrite (proj2 (Z.ltb_lt _ _)) by blia. cbn [negb].
  pose proof Hv as [-> Hv']%view_cons. rewrite bind_ret, digit_test. cbn [length] in Hn.
  assert (forall l' p' frac' exp' st, view p' l' -> p + blen (c :: l) = p' + blen l' -> (length l' < n)%nat -> p <= p' ->
    below frac' p' -> below exp' p' -> munch st l' = munch (loop_state frac' exp') l' ->
    p + blen (munch (loop_state frac exp) (c :: l)) = p' + blen (munch st l') ->
    exists frac1 exp1, let q := p + blen (munch (loop_state frac exp) (c :: l)) in
    number_loop doc (p + blen (c :: l)) n p' frac' exp' = Ret (q, frac1, exp1) /\ below frac1 q /\ below exp1 q) as Hgo.
  { intros l' p' frac' exp' st Hv1 Hlen Hn1 Hp Hf1 He1 Hst Hq. rewrite Hlen, Hq, Hst. by apply IH. }
  cbn [munch] in Hgo |- *. unfold number_step in Hgo |- *. destruct (isdigit c) eqn:Ed.
  { apply (Hgo l (p + 1) frac exp (loop_state frac exp)); [done|blia|lia|lia|eapply below_more; [eassumption|lia]..|done|].
    destruct frac, exp; cbn [loop_state]; rewrite blen_cons; lia. }
  destruct (bool_decide_reflect (exp <> None)) as [Hx|Hx].
  { destruct exp as [x|]; [|done]. exists frac, (Some x). cbn [loop_state]. destruct ((c =? 101) || (c =? 69)), (c =? 46), ((c =? 45) || (c =? 43));
      cbn zeta; by rewrite blen_nil, Z.add_0_r. }
  destruct exp as [x|]; [by destruct Hx|]. clear Hx. destruct ((c =? 101) || (c =? 69)) eqn:Ee.
  { destruct l as [|d l].
    - rewrite (proj2 (Z.ltb_ge _ _)) by (rewrite blen_cons, blen_nil; lia). rewrite bind_ret.
      apply (Hgo [] (p + 1) frac (Some p) N_EXP_SIGN); [done|blia|lia|lia|eapply below_more; [eassumption|lia]| |done|].
      + intros q [= <-]. lia.
      + destruct frac; cbn [loop_state munch]; rewrite blen_cons, blen_nil; lia.
    - rewrite (proj2 (Z.ltb_lt _ _)) by blia. pose proof Hv' as [-> Hv'']%view_cons. rewrite bind_ret, bind_ret.
      cbn [length] in Hn. destruct ((d =? 45) || (d =? 43)) eqn:Es.
      + apply (Hgo l (p + 1 + 1) frac (Some (p + 1)) N_EXP); [done|blia|lia|lia|eapply below_more; [eassumption|lia]| |done|].
        * intros q [= <-]. lia.
        * destruct frac; cbn [loop_state munch]; unfold number_step; rewrite Es, sign_digit, sign_exp, sign_point by done;
            rewrite !blen_cons; lia.
      + apply (Hgo (d :: l) (p + 1) frac (Some p) N_EXP_SIGN); [done|blia|cbn; lia|lia|eapply below_more; [eassumption|lia]| | |].
        * intros q [= <-]. lia.
        * by apply munch_exp.
        * destruct frac; cbn [loop_state]; rewrite blen_cons; lia. }
  destruct (c =? 46) eqn:Ep.
  - destruct (bool_decide_reflect (frac = None)) as [->|Hx]; cbn [andb].
    + apply (Hgo l (p + 1) (Some p) None N_FRAC); [done|blia|lia|lia| |done|done|cbn [loop_state]; rewrite blen_cons; lia].
      intros q [= <-]. lia.
    + destruct frac as [x|]; [|done]. exists (Some x), None. cbn [loop_state]. cbn zeta. by rewrite blen_nil, Z.add_0_r.
  - rewrite andb_false_r. exists frac, None. cbn zeta. destruct ((c =? 45) || (c =? 43)), frac; cbn [loop_state]; by rewrite blen_nil, Z.add_0_r.
Qed.


(** ** The next token *)

Context (Hdoc : blen doc <= SSIZE_MAX).

(** The text the scanner has in front of it. *)
Definition ahead (s : sol_json_scanner) (l : list Z) : Prop := view (current s) l /\ mem_end s = current s + blen l.

Lemma ahead_move s a b : ahead s (a ++ b) -> ahead (set_current s (current s + blen a)) b.
Proof. intros [Hv He]. split; [by apply view_app|]. cbn. rewrite He. blia. Qed.

(** No token stands in front of [l], spaces aside. *)
Definition no_lexeme (l : list Z) : Prop :=
  forall w t rest, l = w ++ t ++ rest -> spaces w -> lexeme t -> ends_token t rest -> False.

Definition next_ok (s : sol_json_scanner) (l : list Z) (r : answer) (s' : sol_json_scanner) (t : sol_json_token) : Prop :=
  match r with
  | None => exists w tok rest, l = w ++ tok ++ rest /\ spaces w /\ lexeme tok /\ ends_token tok rest
      /\ let p := current s + blen w in t = token_at p (p + blen tok) /\ s' = set_current s (p + blen tok)
  | Some e => t = no_token /\ (exists q, s' = set_current s q /\ current s <= q <= mem_end s)
      /\ (e = 0 /\ spaces l \/ e = EINVAL /\ no_lexeme l)
  end.

Definition finds (s : sol_json_scanner) (l : list Z) (m : outcome (answer * sol_json_scanner * sol_json_token)) : Prop :=
  exists r s' t, m = Ret (r, s', t) /\ next_ok s l r s' t.

Lemma finds_token s tok rest m :
  lexeme tok -> ends_token tok rest ->
  m = Ret (None, set_current s (current s + blen tok), token_at (current s) (current s + blen tok)) ->
  finds s (tok ++ rest) m.
Proof.
  intros Hl He ->. do 3 eexists. split; [done|]. exists [], tok, rest. cbn. rewrite Z.add_0_r.
  split_and!; [done|constructor|done..].
Qed.

Lemma finds_none s c l m q :
  isspace c = false -> ahead s (c :: l) -> current s <= q <= mem_end s ->
  (forall t rest, c :: l = t ++ rest -> lexeme t -> ends_token t rest -> False) ->
  m = Ret (Some EINVAL, set_current s q, no_token) -> finds s (c :: l) m.
Proof.
  intros Hc Ha Hq Hno ->. do 3 eexists. split; [done|]. split_and!; [done|by exists q|]. right. split; [done|].
  intros [|c' w] t rest Heq Hw Ht; [by apply Hno|]. injection Heq as <- _. inversion Hw; congruence.
Qed.

Lemma set_current_same s : set_current s (current s) = s.
Proof. by destruct s. Qed.

Lemma check_symbol_spec s c l sym :
  ahead s (c :: l) -> isspace c = false -> sym ∈ symbols ->
  (forall t, lexeme (c :: t) -> c :: t = sym) -> type_of_char c <> NUMBER ->
  finds s (c :: l) (check_symbol doc s sym).
Proof.
  intros Ha Hc Hsym Honly Hnum. pose proof Ha as [Hv He]. pose proof (view_bounds _ _ Hv) as Hb.
  unfold check_symbol, sol_json_scanner_get_size_remaining.
  replace (mem_end s - current s) with (blen (c :: l)) by lia. rewrite wrapu_small by (unfold SSIZE_MAX in *; blia).
  destruct (decide (sym `prefix_of` (c :: l))) as [[rest Heq]|Hno].
  - rewrite Heq in *. rewrite (proj2 (Z.ltb_ge _ _)) by blia. rewrite (view_load _ sym) by (by eapply view_prefix).
    rewrite bind_ret, bool_decide_true by done. cbn [negb].
    apply finds_token; [by apply symbol_lexeme| |done]. destruct sym as [|c' sym]; [done|].
    injection Heq as -> _. intros Hn. by destruct Hnum.
  - assert (forall t rest, c :: l = t ++ rest -> lexeme t -> ends_token t rest -> False) as Hbad.
    { intros [|c' t] rest Heq Ht _; [by apply lexeme_nonempty in Ht|]. injection Heq as <- Hl.
      apply Hno. exists rest. by rewrite <- (Honly t Ht), Hl. }
    assert (finds s (c :: l) (Ret (Some EINVAL, s, no_token))) as Hfail.
    { apply (finds_none s c l _ (current s) Hc Ha); [blia|done|by rewrite set_current_same]. }
    destruct (Z.ltb_spec (blen (c :: l)) (blen sym)) as [|Hlen]; [done|].
    rewrite (view_load_some _ (c :: l)), blen_to_nat, bind_ret by (done || blia).
    rewrite bool_decide_false; [done|]. intros Ht. apply Hno. exists (drop (length sym) (c :: l)).
    by rewrite <- Ht at 1; rewrite take_drop.
Qed.

Lemma check_string_spec s l :
  ahead s (34 :: l) -> finds s (34 :: l) (check_string doc s).
Proof.
  intros Ha. pose proof Ha as [Hv He]. pose proof (view_bounds _ _ Hv) as Hb. apply view_cons in Hv as [_ Hv].
  unfold check_string. replace (Z.to_nat (mem_end s - (current s + 1))) with (length l) by (rewrite He; unfold blen; cbn; lia).
  destruct (string_loop_spec l (current s + 1) false Hv) as (b & q & -> & Hq & Hb'). rewrite bind_ret. destruct b; cbn [negb].
  - destruct Hb' as (body & rest & -> & Hbody & ->).
    replace (34 :: body ++ 34 :: rest) with ((34 :: body ++ [34]) ++ rest) by (cbn; by rewrite <- app_assoc).
    apply finds_token; [right; left; by exists body|done|].
    replace (current s + blen (34 :: body ++ [34])) with (current s + 1 + blen body + 1) by blia. done.
  - apply (finds_none s 34 l _ q); [done|done|blia| |done].
    intros [|c t] rest Heq Ht _; [by apply lexeme_nonempty in Ht|]. injection Heq as <- ->.
    destruct (lexeme_inv _ _ Ht) as (body & -> & Hbody).
    rewrite (Hb' body rest) in Hbody by by rewrite <- app_assoc. done.
Qed.

(** A number is always found: the test for missing digits never holds. *)
Lemma check_number_spec s c l :
  ahead s (c :: l) -> type_of_char c = NUMBER -> finds s (c :: l) (check_number doc s).
Proof.
  intros Ha Hc. pose proof Ha as [Hv He]. pose proof (view_bounds _ _ Hv) as Hb. apply view_cons in Hv as [_ Hv].
  unfold check_number.
  destruct (number_loop_spec (Z.to_nat (mem_end s - current s)) l (current s + 1) None None Hv) as (f & e & Hrun & Hf & He').
  { rewrite He. unfold blen. cbn. lia. }
  { done. }
  { done. }
  cbn zeta in Hrun. replace (current s + 1 + blen l) with (mem_end s) in Hrun by (rewrite He; blia). rewrite Hrun, bind_ret.
  cbn [loop_state] in *. destruct (munch_prefix l N_INT) as [rest Hl]. set (a := munch N_INT l) in *.
  rewrite !bool_decide_false.
  - cbn [orb]. rewrite Hl. change (c :: a ++ rest) with ((c :: a) ++ rest). apply finds_token.
    + right. right. exists c, a. split_and!; [done|done|]. apply (munch_app a N_INT rest). by rewrite <- Hl.
    + intros _. by rewrite <- Hl.
    + replace (current s + blen (c :: a)) with (current s + 1 + blen a) by blia. done.
  - intros Hx. specialize (He' _ Hx). lia.
  - intros Hx. specialize (Hf _ Hx). lia.
Qed.

Lemma finds_punctuation s c l :
  ahead s (c :: l) -> [c] ∈ symbols ->
  finds s (c :: l) (Ret (None, set_current s (current s + 1), token_at (current s) (current s + 1))).
Proof.
  intros Ha Hc. apply (finds_token s [c] l); [by apply symbol_lexeme| |done]. unfold symbols in Hc.
  repeat (apply elem_of_cons in Hc as [Hc|Hc]; [first [discriminate Hc|injection Hc as ->; by intros]|]).
  by apply elem_of_nil in Hc.
Qed.

(** Only one text can be the token that starts with one of these letters. *)
Lemma symbol_only c sym t : type_of_char c = TRUE /\ sym = symbol_true \/ type_of_char c = FALSE /\ sym = symbol_false
  \/ type_of_char c = NULL /\ sym = symbol_null -> lexeme (c :: t) -> c :: t = sym.
Proof. intros Hc Ht%lexeme_inv. destruct Hc as [[Hc ->]|[[Hc ->]|[Hc ->]]]; by rewrite Hc in Ht. Qed.

Lemma type_not_space c : type_of_char c <> UNKNOWN -> isspace c = false.
Proof. intros Hc. destruct (isspace c) eqn:E; [|done]. by apply isspace_type in E. Qed.

Lemma type_punctuation c :
  match type_of_char c with
  | OBJECT_START | OBJECT_END | ARRAY_START | ARRAY_END | ELEMENT_SEP | PAIR_SEP => [c] ∈ symbols
  | STRING => c = 34
  | _ => True
  end.
Proof.
  assert (forall x, x ∈ symbols <-> bool_decide (x ∈ symbols) = true) as Hdec by (intros x; by rewrite bool_decide_eq_true).
  unfold type_of_char.
  repeat match goal with
  | |- context [if c =? ?n then _ else _] =>
      lazymatch n with 0 => fail | _ => destruct (Z.eqb_spec c n) as [->|_]; [first [done|rewrite Hdec; vm_compute; reflexivity]|] end
  end.
  destruct (c =? 0), (isdigit c), (c =? 45), (c =? 43); done.
Qed.

Lemma next_loop_spec l : forall s, ahead s l -> finds s l (next_loop doc (length l) s).
Proof.
  induction l as [|c l IH]; intros s Ha; cbn [next_loop length].
  { do 3 eexists. split; [done|]. split_and!; [done| |left; by split; [|constructor]].
    exists (current s). rewrite set_current_same. destruct Ha as [_ ->]. rewrite blen_nil. split; [done|lia]. }
  pose proof Ha as [Hv He]. pose proof (view_bounds _ _ Hv) as Hb. apply view_cons in Hv as [Hat Hv].
  unfold sol_json_mem_get_type. rewrite Hat, !bind_ret. pose proof (type_punctuation c) as Hp.
  destruct (type_of_char c) eqn:Ety; [|exact (finds_punctuation s c l Ha Hp)..| | | | |].
  - destruct (isspace c) eqn:Es; cbn [negb].
    + destruct (IH (set_current s (current s + 1))) as (r & s' & t & -> & Hok); [by apply (ahead_move s [c])|].
      do 3 eexists. split; [done|]. destruct r as [e|].
      * destruct Hok as (-> & (q & -> & Hq) & Hres). cbn in Hq. split_and!; [done|exists q; split; [done|lia]|].
        destruct Hres as [[-> Hsp]|[-> Hno]]; [left; split; [done|by constructor]|right; split; [done|]].
        intros [|c' w] t rest Heq Hw Ht Hend.
        { destruct t as [|c' t]; [by apply lexeme_nonempty in Ht|]. injection Heq as <- _.
          apply lexeme_inv in Ht. by rewrite Ety in Ht. }
        injection Heq as <- Heq. apply Forall_cons in Hw as [_ Hw]. by eapply Hno.
      * destruct Hok as (w & tok & rest & -> & Hw & Htok & Hend & -> & ->). exists (c :: w), tok, rest. cbn zeta. cbn [current set_current].
        replace (current s + blen (c :: w)) with (current s + 1 + blen w) by blia. split_and!; [done|by constructor|done..].
    + apply (finds_none s c l _ (current s)); [done|done|blia| |by rewrite set_current_same].
      intros [|c' t] rest Heq Ht _; [by apply lexeme_nonempty in Ht|]. injection Heq as <- _.
      apply lexeme_inv in Ht. by rewrite Ety in Ht.
  - apply (check_symbol_spec s c l); [done|apply type_not_space; congruence|by apply (bool_decide_unpack _)| |congruence].
    intros t. apply symbol_only. by left.
  - apply (check_symbol_spec s c l); [done|apply type_not_space; congruence|by apply (bool_decide_unpack _)| |congruence].
    intros t. apply symbol_only. by right; left.
  - apply (check_symbol_spec s c l); [done|apply type_not_space; congruence|by apply (bool_decide_unpack _)| |congruence].
    intros t. apply symbol_only. by right; right.
  - subst c. by apply check_string_spec.
  - by apply check_number_spec.
Qed.

Lemma scanner_next_spec s l : ahead s l -> finds s l (sol_json_scanner_next doc s).
Proof.
  intros Ha. unfold sol_json_scanner_next. replace (Z.to_nat (mem_end s - current s)) with (length l).
  - by apply next_loop_spec.
  - destruct Ha as [_ ->]. unfold blen. lia.
Qed.

(** Two tokens at the front of a text are the same. *)
Lemma lexeme_unique t r t' r' :
  t ++ r = t' ++ r' -> lexeme t -> ends_token t r -> lexeme t' -> ends_token t' r' -> t = t'.
Proof.
  destruct t as [|c t]; [by intros _ Ht%lexeme_nonempty|]. destruct t' as [|c' t']; [by intros _ _ _ Ht%lexeme_nonempty|].
  cbn [app]. intros Heq Ht He Ht' He'. injection Heq as <- Heq. pose proof (lexeme_inv _ _ Ht) as H1.
  pose proof (lexeme_inv _ _ Ht') as H2. cbn in He, He'. destruct (type_of_char c); try congruence; [done|..].
  - destruct H1 as (b & -> & Hb), H2 as (b' & -> & Hb'). rewrite <- !app_assoc in Heq.
    do 2 f_equal. by eapply string_body_unique.
  - rewrite <- (He eq_refl), <- (He' eq_refl). by rewrite Heq.
Qed.

Lemma lexeme_not_space c t : lexeme (c :: t) -> isspace c = false.
Proof. intros Ht%lexeme_inv. apply type_not_space. by destruct (type_of_char c). Qed.

Lemma spaces_unique w : forall w' t r t' r',
  w ++ t ++ r = w' ++ t' ++ r' -> spaces w -> spaces w' -> lexeme t -> lexeme t' -> w = w'.
Proof.
  induction w as [|c w IH]; intros [|c' w'] t r t' r' Heq Hw Hw' Ht Ht'; [done|..].
  - destruct t as [|d t]; [by apply lexeme_nonempty in Ht|]. injection Heq as -> _. apply lexeme_not_space in Ht.
    apply Forall_cons in Hw' as [? _]. congruence.
  - destruct t' as [|d t']; [by apply lexeme_nonempty in Ht'|]. injection Heq as -> _. apply lexeme_not_space in Ht'.
    apply Forall_cons in Hw as [? _]. congruence.
  - injection Heq as -> Heq. f_equal. apply Forall_cons in Hw as [_ Hw], Hw' as [_ Hw']. by eapply IH.
Qed.

(** A token that stands ahead is found. *)
Lemma next_complete s w tok rest :
  ahead s (w ++ tok ++ rest) -> spaces w -> lexeme tok -> ends_token tok rest ->
  let p := current s + blen w in
  sol_json_scanner_next doc s = Ret (None, set_current s (p + blen tok), token_at p (p + blen tok)).
Proof.
  intros Ha Hw Ht He. destruct (scanner_next_spec s _ Ha) as ([e|] & s' & t & -> & Hok).
  - destruct Hok as (_ & _ & [[_ Hsp]|[_ Hno]]).
    + apply Forall_app in Hsp as [_ Hsp]. destruct tok as [|c tok]; [by apply lexeme_nonempty in Ht|].
      apply lexeme_not_space in Ht. apply Forall_cons in Hsp as [? _]. congruence.
    + by destruct (Hno w tok rest).
  - destruct Hok as (w' & tok' & rest' & Heq & Hw' & Ht' & He' & -> & ->).
    pose proof (spaces_unique w w' tok rest tok' rest' Heq Hw Hw' Ht Ht') as <-. apply app_inv_head in Heq.
    by rewrite (lexeme_unique tok rest tok' rest' Heq Ht He Ht' He').
Qed.

(** C23: Reading a token never leaves the document.  The scanner skips spaces
    and answers true with the token that stands there (a symbol, a string with
    its escapes, or the longest number) and goes behind it; it answers false
    with errno 0 at the end, and with EINVAL where no token stands.  Whatever
    token stands ahead is the one found. *)
Theorem json_next_correct s l :
  ahead s l ->
  finds s l (sol_json_scanner_next doc s)
  /\ forall w tok rest, l = w ++ tok ++ rest -> spaces w -> lexeme tok -> ends_token tok rest ->
       let p := current s + blen w in
       sol_json_scanner_next doc s = Ret (None, set_current s (p + blen tok), token_at p (p + blen tok)).
Proof.
  intros Ha. split; [by apply scanner_next_spec|]. intros w tok rest -> Hw Ht He. by eapply next_complete.
Qed.
End Views.

Definition text_of (s : String.string) : list Z := (fun c => Z.of_nat (Ascii.nat_of_ascii c)) <$> String.list_ascii_of_string s.

Lemma json_next_correct_witness :
  let doc := text_of " -1.5e+3]" in
  let s := sol_json_scanner_init 0 (blen doc) in
  blen doc <= SSIZE_MAX /\ ahead doc s doc
  /\ sol_json_scanner_next doc s = Ret (None, set_current s 8, token_at 1 8).
Proof.
  cbv zeta. split; [vm_compute; discriminate|].
  assert (ahead (text_of " -1.5e+3]") (sol_json_scanner_init 0 (blen (text_of " -1.5e+3]"))) (text_of " -1.5e+3]")) as Ha.
  { split; [|reflexivity]. exists [], []. split; reflexivity. }
  split; [exact Ha|].
  destruct (json_next_correct (text_of " -1.5e+3]") ltac:(vm_compute; discriminate) _ _ Ha) as [_ Hnext].
  apply (Hnext [32] (text_of "-1.5e+3") [93]); [reflexivity|repeat constructor| |intros _; vm_compute; reflexivity].
  right. right. exists 45, (text_of "1.5e+3"). split; [reflexivity|]. split; vm_compute; reflexivity.
Defined.

(** The test for missing digits compares with the place behind them: a point
    or an exponent without digits, or a sign alone, is a number. *)
Lemma numbers_without_digits :
  let doc := text_of "1.,1e,-" in
  let s := sol_json_scanner_init 0 (blen doc) in
  sol_json_scanner_next doc s = Ret (None, set_current s 2, token_at 0 2)
  /\ sol_json_scanner_next doc (set_current s 3) = Ret (None, set_current s 5, token_at 3 5)
  /\ sol_json_scanner_next doc (set_current s 6) = Ret (None, set_current s 7, token_at 6 7)
  /\ sol_json_token_get_int64 (H := gcc5) doc (token_at 6 7) = UB.
Proof. by vm_compute. Qed.

(** An empty document is read before its first byte. *)
Lemma empty_document_is_read : sol_json_is_valid_type [] (sol_json_scanner_init 0 0) OBJECT_START = UB.
Proof. done. Qed.
End JsonScannerProofs.
