(* ===== verification/JsonPath.v ===== *)
(** * Values of a JSON document

    Models the lookups of src/src/lib/parsers/sol-json.c: the value of a key
    of an object, the element of an array, and the value at a path, with the
    scanner of paths.  The path is a block of
    its own; its segments are lists of bytes. *)

From S2P Require Import Prelude Arith Str Codec Buffer JsonScanner.
Import CString Buffer JsonScanner.

#[local] Open Scope Z_scope.

Module JsonPath.

(** ** Objects and arrays *)

Section Lookup.
Context (doc : block).

(** The loop over the members, with [key] and [value] as they are left. *)
Fixpoint key_loop (fuel : nat) (s : sol_json_scanner) (t key value : sol_json_token) (reason : sol_json_loop_status)
    (k : list Z) : outcome (Z * sol_json_scanner * sol_json_token) :=
  match fuel with
  | O => UB
  | S fuel =>
      '(more, s, t, key, value, reason) ← sol_json_loop_iterate_object doc s t key value reason;
      if negb more then Ret (if bool_decide (reason = REASON_OK) then - ENOENT else - EINVAL, s, value)
      else
        eq ← sol_json_token_str_eq doc key k;
        if eq : bool then Ret (0, s, value) else key_loop fuel s t key value reason k
  end.

(** Every round reads a token. *)
Definition loop_fuel (s : sol_json_scanner) : nat := S (Z.to_nat (mem_end s - current s)).

(** [value] is what it was unless a member was read. *)
Definition sol_json_object_get_value_by_key (s : sol_json_scanner) (key_slice : list Z) (value : sol_json_token)
    : outcome (Z * sol_json_scanner * sol_json_token) :=
  ty ← sol_json_mem_get_type doc (current s);
  if negb (bool_decide (ty = OBJECT_START)) then Ret (- EINVAL, s, value)
  else
    '(reason, s, t) ← sol_json_loop_iterate_init doc s OBJECT_START;
    key_loop (loop_fuel s) s t no_token value reason key_slice.

Fixpoint index_loop (fuel : nat) (s : sol_json_scanner) (value : sol_json_token) (reason : sol_json_loop_status)
    (i cur_index : Z) : outcome (Z * sol_json_scanner * sol_json_token) :=
  match fuel with
  | O => UB
  | S fuel =>
      '(more, s, value, reason) ← sol_json_loop_iterate_generic doc s value ARRAY_END reason;
      if negb more then Ret (if bool_decide (reason = REASON_OK) then - ENOENT else - EINVAL, s, value)
      else if i =? cur_index then Ret (0, s, value)
      else
        '(r, s, value) ← sol_json_scanner_skip doc s value;
        if bool_decide (r <> None) then Ret (- ENOENT, s, value)
        else index_loop fuel s value reason i (wrapu 16 (cur_index + 1))
  end.

Definition sol_json_array_get_at_index (s : sol_json_scanner) (i : Z) (value : sol_json_token)
    : outcome (Z * sol_json_scanner * sol_json_token) :=
  ty ← sol_json_mem_get_type doc (current s);
  if negb (bool_decide (ty = ARRAY_START)) then Ret (- EINVAL, s, value)
  else
    '(reason, s, value) ← sol_json_loop_iterate_init doc s ARRAY_START;
    index_loop (loop_fuel s) s value reason i 0.
End Lookup.

(** ** Paths *)

Section Path.
Context (path : block).

(** memchr(path + p, c, n): the bytes are read one by one up to the first
    [c]; [fuel] is more than the bytes there are. *)
Fixpoint memchr_at (fuel : nat) (p c n : Z) : outcome (option Z) :=
  match fuel with
  | O => UB
  | S fuel =>
      if n <=? 0 then Ret None
      else
        x ← at_index path p;
        if x =? c then Ret (Some p) else memchr_at fuel (p + 1) c (n - 1)
  end.

(** The number of bytes is converted to size_t. *)
Definition path_memchr (p c n : Z) : outcome (option Z) := memchr_at (S (length path)) p c (wrapu 64 n).

Definition get_lowest_not_null_pointer (p p2 : option Z) : option Z :=
  match p, p2 with
  | Some a, Some b => if a <? b then p else p2
  | Some _, None => p
  | None, _ => p2
  end.

(** The path ends where the block ends; a scanner is its current place. *)
Definition path_end : Z := blen path.

(** The segment, if there is one, and the place behind it. *)
Definition json_path_parse_key_after_dot (current : Z) : outcome (option (list Z * Z)) :=
  let start := current + 1 in
  first_dot ← path_memchr start 46 (path_end - start);
  first_bracket_start ← path_memchr start 91 (path_end - start);
  let e := default path_end (get_lowest_not_null_pointer first_dot first_bracket_start) in
  if e =? start then Ret None
  else slice ← mem_load path start (e - start); Ret (Some (slice, e)).

(** The loop to the first quote without a backslash in front: where it stops,
    or [None] for the return from within. *)
Fixpoint quote_loop (fuel : nat) (p : Z) : outcome (option Z) :=
  match fuel with
  | O => UB
  | S fuel =>
      if negb (p <? path_end) then Ret (Some p)
      else
        q ← path_memchr p 39 (path_end - p);
        match q with
        | None => Ret None
        | Some p =>
            c ← at_index path (p - 1);
            if negb (c =? 92) then Ret (Some p) else quote_loop fuel (p + 1)
        end
  end.

Definition json_path_parse_key_in_brackets (current : Z) : outcome (option (list Z * Z)) :=
  let p := current + 1 in
  let take_to (p : Z) := slice ← mem_load path current (p + 1 - current); Ret (Some (slice, p + 1)) in
  c ← at_index path p;
  if c =? 39 then
    q ← quote_loop (S (length path)) (p + 1);
    match q with
    | None => Ret None
    | Some p =>
        let p := p + 1 in
        if path_end <=? p then Ret None
        else c ← at_index path p; if negb (c =? 93) then Ret None else take_to p
    end
  else if negb (c =? 93) then
    let p := p + 1 in
    q ← path_memchr p 93 (path_end - p);
    match q with None => Ret None | Some p => take_to p end
  else Ret None.

(** A segment, the end of the path, or an error. *)
Inductive segment := Segment (slice : list Z) (current : Z) | PathEnd (current : Z) | PathError (current : Z).

Definition sol_json_path_get_next_segment (current : Z) : outcome segment :=
  if path_end =? 0 then Ret (PathError current)
  else
    start ← (if current =? 0 then
               c ← at_index path 0; Ret (if negb (c =? 36) then None else Some 1)
             else Ret (Some current));
    match start with
    | None => Ret (PathError current)
    | Some current =>
        if path_end <=? current then Ret (PathEnd current)
        else
          c ← at_index path current;
          if c =? 91 then
            k ← json_path_parse_key_in_brackets current;
            Ret (match k with Some (slice, p) => Segment slice p | None => PathError current end)
          else if c =? 46 then
            k ← json_path_parse_key_after_dot current;
            Ret (match k with Some (slice, p) => Segment slice p | None => PathError current end)
          else Ret (PathError current)
    end.
End Path.

Definition sol_json_path_is_array_key (slice : list Z) : bool :=
  match slice with a :: b :: _ => (a =? 91) && negb (b =? 39) | _ => false end.

Definition sol_json_path_array_get_segment_index (key : list Z) : Z :=
  if blen key <? 3 then - EINVAL
  else if negb (sol_json_path_is_array_key key) then - EINVAL
  else
    let '(r, index_val) := StrSlice.sol_str_slice_to_int (take (length key - 2) (drop 1 key)) in
    if r <? 0 then r
    else if negb (wrapu 16 index_val =? index_val) then - ERANGE
    else index_val.

Section Key.
Context `{BuildConfig} `{Allocator}.

(** The loop over the quotes of a key: the error, where it stopped and what
    was appended. *)
Fixpoint unescape_loop (key : list Z) (fuel : nat) (p : Z) (b : sol_buffer) : outcome (Z * Z * sol_buffer) :=
  match fuel with
  | O => UB
  | S fuel =>
      if negb (p <? blen key) then Ret (0, p, b)
      else
        q ← path_memchr key p 39 (blen key - p);
        match q with
        | None => Ret (0, p, b)
        | Some p2 =>
            before ← mem_load key p (p2 - p - 1);
            '(r, b) ← sol_buffer_append_slice b before;
            if r <? 0 then Ret (r, p, b)
            else
              '(r, b) ← sol_buffer_append_char b 39;
              if r <? 0 then Ret (r, p, b) else unescape_loop key fuel (p2 + 1) b
        end
  end.

Definition view_flags : Z := Z.lor SOL_BUFFER_FLAGS_MEMORY_NOT_OWNED SOL_BUFFER_FLAGS_NO_NUL_BYTE.

(** A buffer over memory that belongs to another one. *)
Definition view_of (m : block) : sol_buffer := set_used (sol_buffer_init_flags (Some m) (blen m) view_flags) (blen m).

Definition json_path_parse_object_key (slice : list Z) : outcome (Z * sol_buffer) :=
  c ← at_index slice 0;
  if negb (c =? 91) then Ret (0, view_of slice)
  else
    key ← mem_load slice 2 (blen slice - 4);
    let b := sol_buffer_init_flags None 0 SOL_BUFFER_FLAGS_NO_NUL_BYTE in
    '(r, p, b) ← unescape_loop key (S (length key)) 0 b;
    if r <? 0 then Ret (r, b)
    else
      match data b with
      | None => Ret (0, view_of key)
      | Some _ =>
          rest ← mem_load key p (blen key - p);
          '(r, b) ← sol_buffer_append_slice b rest;
          Ret (if r <? 0 then r else 0, b)
      end.
End Key.

Section Value.
Context `{BuildConfig} `{Allocator} (doc : block).

(** One segment: an error to answer, or the scanner and the value. *)
Definition step_into (s : sol_json_scanner) (key_slice : list Z) (value : sol_json_token)
    : outcome (Z * sol_json_scanner * sol_json_token) :=
  ty ← sol_json_mem_get_type doc (current s);
  match ty with
  | OBJECT_START =>
      if sol_json_path_is_array_key key_slice then Ret (- ENOENT, s, value)
      else
        '(r, current_key) ← json_path_parse_object_key key_slice;
        if r <? 0 then Ret (r, s, value)
        else
          k ← sol_buffer_get_slice current_key;
          '(r, s, value) ← sol_json_object_get_value_by_key doc s k value;
          Ret (if r =? 0 then 0 else - ENOENT, s, value)
  | ARRAY_START =>
      if negb (sol_json_path_is_array_key key_slice) then Ret (- ENOENT, s, value)
      else
        let index_val := sol_json_path_array_get_segment_index key_slice in
        if index_val <? 0 then Ret (- ENOENT, s, value)
        else
          '(r, s, value) ← sol_json_array_get_at_index doc s index_val value;
          Ret (if r <? 0 then - ENOENT else 0, s, value)
  | _ => Ret (- ENOENT, s, value)
  end.

(** The loop over the segments of a path. *)
Fixpoint path_loop (path : list Z) (fuel : nat) (at_ : Z) (s : sol_json_scanner) (value : sol_json_token)
    : outcome (Z * sol_json_scanner * sol_json_token) :=
  match fuel with
  | O => UB
  | S fuel =>
      seg ← sol_json_path_get_next_segment path at_;
      match seg with
      | PathEnd _ => Ret (0, s, value)
      | PathError _ => Ret (- ENOENT, s, value)
      | Segment slice next =>
          '(r, s, value) ← step_into s slice value;
          if r <? 0 then Ret (r, s, value)
          else start ← deref (tk_start value); path_loop path fuel next (set_current s start) value
      end
  end.

Definition sol_json_get_value_by_path (s : sol_json_scanner) (path : list Z) (value : sol_json_token)
    : outcome (Z * sol_json_scanner * sol_json_token) :=
  let start := current s in
  '(r, s, value) ← path_loop path (S (length path)) 0 s value;
  if r <? 0 then Ret (r, s, value)
  else if start =? current s then Ret (0, s, token_at start (start + 1))
  else Ret (0, s, value).
End Value.
End JsonPath.
