(* ===== verification/JsonPathProofs.v ===== *)
(** * Values of a JSON document: theorems

    A document is the tokens of a value with spaces between them.  The scanner
    skips exactly a value; the lookups find exactly the members, elements and
    values that the tree has. *)

From Stdlib Require Import String.
From S2P Require Import Prelude Arith Str Codec Buffer JsonScanner JsonScannerProofs JsonPath.
Import JsonScanner JsonScannerProofs JsonPath.

#[local] Open Scope Z_scope.

Module JsonPathProofs.

(** ** Trees and their tokens *)

Local Unset Elimination Schemes.

(** The keys are the texts between the quotes. *)
Inductive json := Atom (tok : list Z) | Arr (items : list json) | Obj (members : list (list Z * json)).

Local Set Elimination Schemes.

Section Induction.
Variable P : json -> Prop.
Hypothesis P_atom : forall a, P (Atom a).
Hypothesis P_arr : forall l, Forall P l -> P (Arr l).
Hypothesis P_obj : forall l, Forall (fun m => P m.2) l -> P (Obj l).

Fixpoint json_ind (v : json) : P v :=
  match v with
  | Atom a => P_atom a
  | Arr l => P_arr l ((fix go l : Forall P l :=
      match l with [] => Forall_nil_2 _ | x :: l => Forall_cons_2 _ _ _ (json_ind x) (go l) end) l)
  | Obj l => P_obj l ((fix go l : Forall (fun m => P m.2) l :=
      match l with [] => Forall_nil_2 _ | x :: l => Forall_cons_2 (fun m => P m.2) _ _ (json_ind x.2) (go l) end) l)
  end.
End Induction.

(** Lists of tokens behind commas, and with commas between them. *)
Definition commas (l : list (list (list Z))) : list (list Z) := concat (cons [44] <$> l).
Definition join (l : list (list (list Z))) : list (list Z) := match l with [] => [] | x :: l => x ++ commas l end.

Definition key_token (k : list Z) : list Z := 34 :: k ++ [34].

Fixpoint toks (v : json) : list (list Z) :=
  match v with
  | Atom a => [a]
  | Arr l => [91] :: join (toks <$> l) ++ [[93]]
  | Obj l => [123] :: join ((fun m => key_token m.1 :: [58] :: toks m.2) <$> l) ++ [[125]]
  end.

Definition member_toks (m : list Z * json) : list (list Z) := key_token m.1 :: [58] :: toks m.2.

(** Atoms are literals, strings and numbers. *)
Definition scalar (t : list Z) : Prop :=
  lexeme t /\ match t with
              | c :: _ => match type_of_char c with TRUE | FALSE | NULL | STRING | NUMBER => True | _ => False end
              | [] => False
              end.

Fixpoint wf (v : json) : Prop :=
  match v with
  | Atom a => scalar a
  | Arr l => Forall id (wf <$> l)
  | Obj l => Forall (fun m => string_body false m.1 = true) l /\ Forall id ((fun m => wf m.2) <$> l)
  end.

(** The tokens [ls] stand at the front of a text. *)
Inductive stands : list (list Z) -> list Z -> Prop :=
| stands_end l : stands [] l
| stands_token w t ls rest : spaces w -> lexeme t -> ends_token t rest -> stands ls rest ->
    stands (t :: ls) (w ++ t ++ rest).

Lemma stands_app a b l : stands (a ++ b) l -> exists r, stands b r.
Proof. revert l. induction a as [|t a IH]; cbn; intros l Hl; [by exists l|]. inversion Hl; subst. by eapply IH. Qed.

Lemma stands_length ls l : stands ls l -> blen ls <= blen l.
Proof.
  induction 1 as [|w t ls rest _ Ht _ _ IH]; [cbn; apply blen_nonneg|].
  destruct t as [|c t]; [by apply lexeme_nonempty in Ht|]. blia.
Qed.

(** ** Levels *)

Definition token_type (t : list Z) : sol_json_type := match t with c :: _ => type_of_char c | [] => UNKNOWN end.

Definition delta (t : list Z) : Z :=
  match token_type t with OBJECT_START | ARRAY_START => 1 | OBJECT_END | ARRAY_END => -1 | _ => 0 end.

(** The tokens take the level from [lv] to 0 with the last one, *)
Fixpoint closes (lv : Z) (ls : list (list Z)) : Prop :=
  match ls with
  | [] => False
  | t :: ls => 0 < lv + delta t /\ closes (lv + delta t) ls \/ lv + delta t = 0 /\ ls = []
  end.

(** or leave it above 0, at [lv'] in the end. *)
Fixpoint passes (lv lv' : Z) (ls : list (list Z)) : Prop :=
  match ls with [] => lv = lv' | t :: ls => 0 < lv + delta t /\ passes (lv + delta t) lv' ls end.

Lemma passes_app a : forall lv lv' lv'' b, passes lv lv' a -> passes lv' lv'' b -> passes lv lv'' (a ++ b).
Proof. induction a as [|t a IH]; cbn; intros lv lv' lv'' b; [by intros ->|]. intros [? ?] ?. split; [done|by eapply IH]. Qed.

Lemma passes_closes a : forall lv lv' b, passes lv lv' a -> closes lv' b -> closes lv (a ++ b).
Proof. induction a as [|t a IH]; cbn; intros lv lv' b; [by intros ->|]. intros [? ?] ?. left. split; [done|by eapply IH]. Qed.

Lemma passes_commas l lv : 0 < lv -> Forall (fun ls => passes lv lv ls) l -> passes lv lv (commas l).
Proof.
  intros Hlv. induction 1 as [|x l Hx _ IH]; [done|]. cbn. rewrite Z.add_0_r. split; [done|]. by eapply passes_app.
Qed.

Lemma passes_join l lv : 0 < lv -> Forall (fun ls => passes lv lv ls) l -> passes lv lv (join l).
Proof. intros Hlv [|x k Hx Hk]; [done|]. eapply passes_app; [exact Hx|by apply passes_commas]. Qed.

Lemma scalar_delta t : scalar t -> delta t = 0.
Proof. intros [_ Ht]. unfold delta, token_type. destruct t as [|c t]; [done|]. by destruct (type_of_char c). Qed.

Lemma passes_value v : wf v -> forall lv, 0 < lv -> passes lv lv (toks v).
Proof.
  induction v as [a|l IH|l IH] using json_ind; intros Hv lv Hlv.
  - cbn. rewrite scalar_delta by done. split; [lia|lia].
  - cbn in Hv. rewrite Forall_fmap in Hv. cbn [toks passes]. change (delta [91]) with 1. split; [lia|].
    eapply passes_app; [apply (passes_join _ (lv + 1)); [lia|]|cbn; change (delta [93]) with (-1); lia].
    rewrite Forall_fmap. eapply Forall_impl; [apply Forall_and; split; [exact IH|exact Hv]|].
    intros x [Hx Hw]. apply Hx; [exact Hw|lia].
  - cbn in Hv. destruct Hv as [_ Hv]. rewrite Forall_fmap in Hv. cbn [toks passes]. change (delta [123]) with 1. split; [lia|].
    eapply passes_app; [apply (passes_join _ (lv + 1)); [lia|]|cbn; change (delta [125]) with (-1); lia].
    rewrite Forall_fmap. eapply Forall_impl; [apply Forall_and; split; [exact IH|exact Hv]|].
    intros x [Hx Hw]. cbn. change (delta (key_token x.1)) with 0. change (delta [58]) with 0.
    rewrite !Z.add_0_r. split_and!; [lia|lia|]. apply Hx; [exact Hw|lia].
Qed.

Lemma closes_value v : wf v -> closes 0 (toks v).
Proof.
  intros Hv. destruct v as [a|l|l].
  - cbn. rewrite scalar_delta by done. right. by split.
  - cbn in Hv. rewrite Forall_fmap in Hv. cbn [toks closes]. change (delta [91]) with 1. left. split; [lia|].
    eapply passes_closes; [apply (passes_join _ 1); [lia|]|cbn; change (delta [93]) with (-1); by right].
    rewrite Forall_fmap. eapply Forall_impl; [exact Hv|]. intros x Hx. apply passes_value; [exact Hx|lia].
  - cbn in Hv. destruct Hv as [_ Hv]. rewrite Forall_fmap in Hv. cbn [toks closes]. change (delta [123]) with 1. left. split; [lia|].
    eapply passes_closes; [apply (passes_join _ 1); [lia|]|cbn; change (delta [125]) with (-1); by right].
    rewrite Forall_fmap. eapply Forall_impl; [exact Hv|]. intros x Hx. cbn.
    change (delta (key_token x.1)) with 0. change (delta [58]) with 0. split_and!; [lia|lia|]. by apply passes_value.
Qed.

Lemma toks_cons v : wf v -> exists t ls, toks v = t :: ls /\ lexeme t
  /\ token_type t = match v with Arr _ => ARRAY_START | Obj _ => OBJECT_START | Atom a => token_type a end.
Proof.
  intros Hv. destruct v as [a|l|l]; cbn [toks].
  - exists a, []. split_and!; [done|apply Hv|done].
  - do 2 eexists. split_and!; [done|by apply symbol_lexeme, (bool_decide_unpack _)|done].
  - do 2 eexists. split_and!; [done|by apply symbol_lexeme, (bool_decide_unpack _)|done].
Qed.

(** ** Reading tokens one by one *)

(** The answer was true. *)
Ltac answered :=
  match goal with |- context [@bool_decide (?a <> ?a) ?i] => rewrite (@bool_decide_false (a <> a) i) by (intros Hn; exact (Hn eq_refl)) end.

(** Both sides are the same. *)
Ltac same :=
  match goal with |- context [@bool_decide (?a = ?a) ?i] => rewrite (@bool_decide_true (a = a) i eq_refl) end; cbn [negb].


Section Reading.
Context (doc : block) (Hdoc : blen doc <= INT_MAX).

Lemma small_doc : blen doc <= SSIZE_MAX.
Proof. unfold_limits. lia. Qed.

(** The tokens ahead of the scanner. *)
Definition tokens_ahead (s : sol_json_scanner) (ls : list (list Z)) : Prop :=
  exists l, ahead doc s l /\ stands ls l.

(** The token [tk] of the document has the text [t]. *)
Definition is_token (tk : sol_json_token) (t : list Z) : Prop :=
  exists p, tk = token_at p (p + blen t) /\ view doc p t /\ lexeme t.

Lemma ahead_bounds s l : ahead doc s l -> 0 <= current s /\ mem_end s <= blen doc /\ blen l = mem_end s - current s.
Proof. intros [Hv ->]. pose proof (view_bounds doc _ _ Hv). lia. Qed.

Lemma tokens_bounds s ls : tokens_ahead s ls -> 0 <= current s /\ blen ls <= mem_end s - current s /\ mem_end s <= blen doc.
Proof. intros (l & Ha & Hl%stands_length). pose proof (ahead_bounds s l Ha). lia. Qed.

(** The first of the tokens stands at [p] itself. *)
Definition stands_at (s : sol_json_scanner) (p : Z) (t : list Z) (ls : list (list Z)) : Prop :=
  exists txt, ahead doc (set_current s p) (t ++ txt) /\ lexeme t /\ ends_token t txt /\ stands ls txt.

(** From [p] to [q] the document has the tokens, with spaces in front of each. *)
Inductive span : Z -> list (list Z) -> Z -> Prop :=
| span_end p : span p [] p
| span_token p w t ls q : spaces w -> view doc p (w ++ t) -> span (p + blen (w ++ t)) ls q -> span p (t :: ls) q.

Lemma next_token s t ls :
  tokens_ahead s (t :: ls) ->
  exists tk q, sol_json_scanner_next doc s = Ret (None, set_current s q, tk) /\ is_token tk t
    /\ tk_end tk = Some q /\ current s < q /\ tokens_ahead (set_current s q) ls
    /\ (exists p, tk_start tk = Some p /\ stands_at s p t ls /\ current s <= p)
    /\ exists w, spaces w /\ view doc (current s) (w ++ t) /\ q = current s + blen (w ++ t).
Proof.
  intros (l & Ha & Hl). inversion Hl as [|w t' ls' rest Hw Ht He Hls]; subst.
  pose proof (next_complete doc small_doc s w t rest Ha Hw Ht He) as Hnext. cbn zeta in Hnext.
  exists (token_at (current s + blen w) (current s + blen w + blen t)), (current s + blen w + blen t).
  pose proof (blen_nonneg w). split_and!; [done| |done| | | |].
  - exists (current s + blen w). split_and!; [done| |done]. destruct Ha as [Hv _].
    apply view_app in Hv. by apply view_prefix in Hv.
  - destruct t as [|c t]; [by apply lexeme_nonempty in Ht|]. blia.
  - exists rest. split; [|done]. apply (ahead_move doc s w) in Ha. by apply (ahead_move doc _ t) in Ha.
  - exists (current s + blen w). split_and!; [done| |lia]. exists rest. split_and!; [|done..]. by apply (ahead_move doc s w) in Ha.
  - exists w. split_and!; [done| |rewrite blen_app; lia]. destruct Ha as [Hv _]. rewrite app_assoc in Hv. by apply view_prefix in Hv.
Qed.

Lemma is_token_type tk t : is_token tk t -> sol_json_token_get_type doc tk = Ret (token_type t).
Proof.
  intros (p & -> & Hv & Ht). destruct t as [|c t]; [by apply lexeme_nonempty in Ht|].
  unfold sol_json_token_get_type. cbn [tk_start token_at deref]. rewrite bind_ret. unfold sol_json_mem_get_type.
  apply view_cons in Hv as [-> _]. by rewrite bind_ret.
Qed.

(** ** Skipping *)

Lemma level_step_spec t lv : lexeme t -> 0 <= lv <= INT_MAX - 1 -> 0 <= lv + delta t ->
  level_step (token_type t) lv = Ret (Some (lv + delta t)).
Proof.
  intros Ht Hlv Hd. unfold delta in *. destruct t as [|c t]; [by apply lexeme_nonempty in Ht|]. apply lexeme_inv in Ht.
  cbn [token_type] in *. unfold level_step. destruct (type_of_char c); try done; rewrite ?Z.add_0_r; try done.
  all: first [rewrite int_op_ok by (unfold_limits; lia); done
             |replace (lv - 1) with (lv + -1) by lia; by rewrite (proj2 (Z.ltb_ge _ _))].
Qed.

Lemma skip_loop_spec ls : forall lv fuel s tk t rest,
  closes lv (t :: ls) -> 0 <= lv -> lv + blen (t :: ls) <= INT_MAX -> is_token tk t -> tk_end tk = Some (current s) ->
  tokens_ahead s (ls ++ rest) -> (length ls < fuel)%nat ->
  exists tk' q, skip_loop doc fuel lv s tk = Ret (None, set_current s q, tk') /\ tk_end tk' = Some q /\ current s <= q
    /\ tokens_ahead (set_current s q) rest /\ span (current s) ls q.
Proof.
  induction ls as [|t' ls IH]; intros lv [|fuel] s tk t rest Hc Hlv Hb Htk Hend Ha Hf; try lia; cbn [skip_loop].
  - destruct Hc as [[_ []]|[Hz _]]. rewrite (is_token_type tk t Htk), bind_ret.
    assert (lexeme t) as Hlex by by destruct Htk as (? & _ & _ & ?). rewrite blen_cons in Hb.
    pose proof (blen_nonneg (@nil (list Z))). rewrite (level_step_spec t lv Hlex) by lia. rewrite bind_ret, Hz.
    cbn. exists tk, (current s). rewrite set_current_same. split_and!; [done..|constructor].
  - destruct Hc as [[Hpos Hc]|[_ ?]]; [|done]. rewrite (is_token_type tk t Htk), bind_ret.
    assert (lexeme t) as Hlex by by destruct Htk as (? & _ & _ & ?).
    rewrite blen_cons in Hb. pose proof (blen_nonneg (t' :: ls)). rewrite (level_step_spec t lv Hlex) by lia.
    rewrite bind_ret, Z.gtb_ltb, (proj2 (Z.ltb_lt _ _)) by lia.
    destruct (next_token s t' (ls ++ rest) Ha) as (tk1 & q & -> & Htk1 & Hend1 & Hq & Ha1 & _ & w & Hw & Hvw & Hqw). rewrite bind_ret.
    assert (delta t <= 1) as Hd by (unfold delta; destruct (token_type t); lia).
    destruct (IH (lv + delta t) fuel (set_current s q) tk1 t' rest) as (tk2 & q2 & -> & Hend2 & Hq2 & Ha2 & Hsp).
    { exact Hc. }
    { lia. }
    { lia. }
    { done. }
    { done. }
    { done. }
    { cbn in Hf. lia. }
    exists tk2, q2. cbn in Hq2, Hsp. split_and!; [done|done|lia|done|]. apply (span_token _ w); [done|done|by rewrite <- Hqw].
Qed.

(** The value stands where the scanner is, with the tokens [rest] behind it. *)
Definition value_at (s : sol_json_scanner) (v : json) (rest : list (list Z)) : Prop :=
  exists t ls, toks v = t :: ls /\ stands_at s (current s) t (ls ++ rest).

Lemma skip_value s tk t ls v e rest :
  wf v -> toks v = t :: ls -> is_token tk t -> tk_end tk = Some e -> tokens_ahead (set_current s e) (ls ++ rest) ->
  exists tk' q, sol_json_scanner_skip doc s tk = Ret (None, set_current s q, tk') /\ tk_end tk' = Some q /\ e <= q
    /\ tokens_ahead (set_current s q) rest /\ span e ls q.
Proof.
  intros Hv Ht Htk He Ha. unfold sol_json_scanner_skip. rewrite He. cbn [deref]. rewrite bind_ret.
  pose proof (tokens_bounds _ _ Ha) as (Hb1 & Hb2 & Hb3). cbn [current set_current mem_end] in Hb1, Hb2, Hb3.
  rewrite blen_app in Hb2. pose proof (blen_nonneg rest).
  assert (1 <= e) as He1.
  { destruct Htk as (p & -> & Hv' & Hl). apply view_bounds in Hv'. cbn in He. injection He as <-.
    destruct t as [|c t]; [by apply lexeme_nonempty in Hl|]. blia. }
  pose proof (closes_value v Hv) as Hc. rewrite Ht in Hc.
  destruct (skip_loop_spec ls 0 (skip_fuel (set_current s e)) (set_current s e) tk t rest Hc) as (tk' & q & Hrun & Hend & Hq & Ha' & Hsp).
  { lia. }
  { rewrite blen_cons. lia. }
  { done. }
  { done. }
  { done. }
  { unfold skip_fuel. cbn [current set_current mem_end]. unfold blen in Hb2. lia. }
  cbn zeta. rewrite Hrun. exists tk', q. by split_and!.
Qed.

(** The value that begins at [p] ends at [q]. *)
Definition value_ends (p q : Z) (v : json) : Prop := exists t ls, toks v = t :: ls /\ span (p + blen t) ls q.

Lemma token_start tk t p e : is_token tk t -> tk_start tk = Some p -> tk_end tk = Some e -> e = p + blen t /\ tk = token_at p e.
Proof. intros (p' & -> & _ & _) [= ->] [= <-]. by split. Qed.

(** Reading a value and skipping over it. *)
Lemma next_skip_value s v rest :
  wf v -> tokens_ahead s (toks v ++ rest) ->
  exists tk s1 p tk' q, sol_json_scanner_next doc s = Ret (None, s1, tk) /\ tk_start tk = Some p
    /\ sol_json_scanner_skip doc s1 tk = Ret (None, set_current s q, tk') /\ tk_end tk' = Some q
    /\ current s < q /\ current s <= p /\ value_at (set_current s p) v rest /\ tokens_ahead (set_current s q) rest
    /\ value_ends p q v.
Proof.
  intros Hv Ha. destruct (toks_cons v Hv) as (t & ls & Ht & Hl & _). rewrite Ht in Ha.
  destruct (next_token s t (ls ++ rest) Ha) as (tk & e & -> & Htk & He & Hlt & Ha' & (p & Hp & Hat & Hle) & _).
  destruct (skip_value (set_current s e) tk t ls v e rest Hv Ht Htk He Ha') as (tk' & q & Hskip & Hend & Hq & Ha2 & Hsp).
  destruct (token_start tk t p e Htk Hp He) as [Hpe _].
  exists tk, (set_current s e), p, tk', q. split_and!; [done|done|exact Hskip|done|lia|done| |done|].
  - by exists t, ls.
  - exists t, ls. split; [done|by rewrite <- Hpe].
Qed.

(** ** Members of objects *)

Lemma key_lexeme k : string_body false k = true -> lexeme (key_token k).
Proof. intros Hk. right. left. by exists k. Qed.

(** The value of a pair, from its first byte to its end. *)
Definition value_token (s : sol_json_scanner) (tk : sol_json_token) (q : Z) (v : json) (rest : list (list Z)) : Prop :=
  exists p, tk = token_at p q /\ current s <= p /\ value_at (set_current s p) v rest /\ value_ends p q v.

Lemma value_token_from s q tk e v rest : current s <= q -> value_token (set_current s q) tk e v rest -> value_token s tk e v rest.
Proof. intros Hq (p & -> & Hp & Hat & He). cbn in Hp. exists p. split_and!; [done|lia|exact Hat|exact He]. Qed.

Lemma get_dict_pair_spec s key k v rest value :
  wf v -> is_token key (key_token k) -> tokens_ahead s ([58] :: toks v ++ rest) ->
  exists tk q, sol_json_scanner_get_dict_pair doc s key value = Ret (None, set_current s q, tk) /\ current s < q
    /\ value_token s tk q v rest /\ tokens_ahead (set_current s q) rest.
Proof.
  intros Hv Hkey Ha. unfold sol_json_scanner_get_dict_pair. rewrite (is_token_type key _ Hkey), bind_ret. cbn.
  destruct (next_token s [58] _ Ha) as (tk1 & q1 & -> & Htk1 & _ & Hq1 & Ha1 & _). rewrite bind_ret.
  answered. rewrite (is_token_type tk1 _ Htk1), bind_ret. cbn.
  destruct (next_skip_value _ v rest Hv Ha1) as (tk2 & s2 & p & tk3 & q & -> & Hp & Hskip & Hend & Hq & Hle & Hat & Ha3 & Hve).
  rewrite bind_ret; answered. rewrite Hskip, bind_ret; answered.
  rewrite Hp, Hend. exists (token_at p q), q. cbn in Hq, Hle. split_and!; [done|lia|exists p; split_and!; [done|lia|done|done]|done].
Qed.

(** ** Loops *)

(** The tokens of the values that are left in a loop: behind the opening
    bracket, or behind a value. *)
Definition left_over (first : bool) (l : list (list (list Z))) : list (list Z) := if first then join l else commas l.

Lemma iterate_generic_end s tk first close ty rest :
  token_type close = ty -> ty <> ELEMENT_SEP -> tokens_ahead s (left_over first [] ++ close :: rest) ->
  exists tk' q, sol_json_loop_iterate_generic doc s tk ty REASON_OK = Ret (false, set_current s q, tk', REASON_OK)
    /\ tokens_ahead (set_current s q) rest.
Proof.
  intros Hty Hne Ha. unfold sol_json_loop_iterate_generic. same.
  assert (tokens_ahead s (close :: rest)) as Ha' by by destruct first.
  destruct (next_token s close rest Ha') as (tk' & q & -> & Htk & _ & _ & Ha1 & _). rewrite bind_ret. answered.
  rewrite (is_token_type tk' _ Htk), bind_ret, Hty. same. by exists tk', q.
Qed.

Lemma iterate_generic_value s tk first t ls l ty rest :
  lexeme t -> token_type t <> ty -> token_type t <> ELEMENT_SEP -> ty <> ELEMENT_SEP ->
  tokens_ahead s (left_over first ((t :: ls) :: l) ++ rest) ->
  exists tk' q, sol_json_loop_iterate_generic doc s tk ty REASON_OK = Ret (true, set_current s q, tk', REASON_OK)
    /\ is_token tk' t /\ tk_end tk' = Some q /\ current s < q
    /\ tokens_ahead (set_current s q) (ls ++ left_over false l ++ rest)
    /\ exists p, tk_start tk' = Some p /\ stands_at s p t (ls ++ left_over false l ++ rest) /\ current s <= p.
Proof.
  intros Hl Hty Hne Hne' Ha. unfold sol_json_loop_iterate_generic. same. destruct first; cbn [left_over join] in Ha.
  - rewrite <- app_assoc in Ha. destruct (next_token s t _ Ha) as (tk' & q & -> & Htk & Hend & Hq & Ha1 & (p & Hp & Hat & Hle) & _).
    rewrite bind_ret. answered. rewrite (is_token_type tk' _ Htk), bind_ret, !bool_decide_false by done.
    exists tk', q. split_and!; [done..|by exists p].
  - cbn in Ha. rewrite <- app_assoc in Ha.
    destruct (next_token s [44] _ Ha) as (tk1 & q1 & -> & Htk1 & _ & Hq1 & Ha1 & _). rewrite bind_ret. answered.
    rewrite (is_token_type tk1 _ Htk1), bind_ret. cbn [token_type].
    rewrite bool_decide_false by by intros <-. rewrite bool_decide_true by done.
    destruct (next_token _ t _ Ha1) as (tk' & q & -> & Htk & Hend & Hq & Ha2 & (p & Hp & Hat & Hle) & _). rewrite bind_ret. answered.
    exists tk', q. cbn in Hq, Hle. split_and!; [done..|lia|done|exists p; split_and!; [done|done|lia]].
Qed.

Lemma iterate_object_end s tk key value first rest :
  tokens_ahead s (left_over first [] ++ [125] :: rest) ->
  exists tk' q, sol_json_loop_iterate_object doc s tk key value REASON_OK = Ret (false, set_current s q, tk', key, value, REASON_OK)
    /\ tokens_ahead (set_current s q) rest.
Proof.
  intros Ha. destruct (iterate_generic_end s tk first [125] OBJECT_END rest eq_refl ltac:(done) Ha) as (tk' & q & Hrun & Ha').
  unfold sol_json_loop_iterate_object. rewrite Hrun, bind_ret. by exists tk', q.
Qed.

Lemma iterate_object_member s tk key value first k v l rest :
  wf v -> string_body false k = true ->
  tokens_ahead s (left_over first (member_toks (k, v) :: l) ++ rest) ->
  exists tk' key' value' q,
    sol_json_loop_iterate_object doc s tk key value REASON_OK = Ret (true, set_current s q, tk', key', value', REASON_OK)
    /\ is_token key' (key_token k) /\ current s < q /\ value_token s value' q v (left_over false l ++ rest)
    /\ tokens_ahead (set_current s q) (left_over false l ++ rest).
Proof.
  intros Hv Hk Ha. unfold member_toks in Ha. cbn [fst snd] in Ha.
  destruct (iterate_generic_value s tk first (key_token k) ([58] :: toks v) l OBJECT_END rest (key_lexeme k Hk))
    as (tk' & q & Hrun & Htk & _ & Hq & Ha1 & _); [done..|].
  unfold sol_json_loop_iterate_object. rewrite Hrun, bind_ret. cbn [negb]. cbn [app] in Ha1.
  destruct (get_dict_pair_spec (set_current s q) tk' k v (left_over false l ++ rest) value Hv Htk Ha1)
    as (value' & q2 & -> & Hq2 & Hval & Ha2). rewrite bind_ret. answered.
  exists tk', tk', value', q2. cbn in Hq2. split_and!; [done..|lia| |exact Ha2].
  apply (value_token_from s q); [lia|exact Hval].
Qed.

(** ** Keys *)

Lemma key_length tk k : is_token tk (key_token k) ->
  sol_json_token_get_size tk = Ret (blen k + 2) /\ blen k + 2 <= INT_MAX.
Proof.
  intros (p & -> & Hv & _). apply view_bounds in Hv as [Hp Hb].
  assert (blen (key_token k) = blen k + 2) as Hlen by (unfold key_token; blia). rewrite Hlen in *.
  unfold sol_json_token_get_size. cbn [tk_start tk_end token_at deref]. rewrite !bind_ret.
  rewrite wrapu_small; [split; [f_equal; lia|lia]|]. pose proof (blen_nonneg k). unfold_limits. lia.
Qed.

Lemma str_eq_spec tk k k' :
  is_token tk (key_token k) -> blen k' <= SSIZE_MAX -> sol_json_token_str_eq doc tk k' = Ret (bool_decide (k' = k)).
Proof.
  intros Htk Hk'. destruct (key_length tk k Htk) as [Hsize Hsmall]. unfold sol_json_token_str_eq.
  rewrite (is_token_type tk _ Htk), bind_ret. change (token_type (key_token k)) with STRING. same. rewrite Hsize, bind_ret. pose proof (blen_nonneg k').
  rewrite wrapu_small by (unfold_limits; lia). destruct (Z.eqb_spec (blen k + 2) (blen k' + 2)) as [He|Hne]; cbn [negb].
  - destruct Htk as (p & -> & Hv & _). cbn [tk_start token_at deref]. rewrite bind_ret.
    assert (mem_load doc (p + 1) (blen k') = Ret k) as ->.
    { replace (blen k') with (blen k) by lia. apply view_load. apply (view_app doc p [34]) in Hv. by apply view_prefix in Hv. }
    rewrite bind_ret. f_equal. apply bool_decide_ext. split; by intros ->.
  - rewrite bool_decide_false; [done|]. intros ->. by apply Hne.
Qed.

(** The first member with a key, and the members behind it. *)
Fixpoint find_key (k : list Z) (l : list (list Z * json)) : option (json * list (list Z * json)) :=
  match l with
  | [] => None
  | m :: l => if bool_decide (k = m.1) then Some (m.2, l) else find_key k l
  end.

Definition members_ok (l : list (list Z * json)) : Prop := Forall (fun m => string_body false m.1 = true /\ wf m.2) l.

Lemma fuel_left s ls fuel : tokens_ahead s ls -> mem_end s - current s < Z.of_nat fuel -> exists fuel', fuel = S fuel'.
Proof. intros (_ & Hb & _)%tokens_bounds Hf. pose proof (blen_nonneg ls). destruct fuel as [|fuel]; [lia|by exists fuel]. Qed.

Lemma key_loop_spec k l : forall fuel s tk key value first rest,
  blen k <= SSIZE_MAX -> members_ok l ->
  tokens_ahead s (left_over first (member_toks <$> l) ++ [125] :: rest) -> mem_end s - current s < Z.of_nat fuel ->
  exists r q value', key_loop doc fuel s tk key value REASON_OK k = Ret (r, set_current s q, value')
    /\ match find_key k l with
       | Some (v, after) => r = 0 /\ value_token s value' q v (commas (member_toks <$> after) ++ [125] :: rest)
       | None => r = - ENOENT
       end.
Proof.
  induction l as [|[k' v] l IH]; intros fuel s tk key value first rest Hk Hl Ha Hf;
    destruct (fuel_left _ _ _ Ha Hf) as [fuel' ->]; cbn [key_loop].
  - destruct (iterate_object_end s tk key value first rest Ha) as (tk' & q & -> & Ha'). rewrite bind_ret. cbn [negb]. same.
    by exists (- ENOENT), q, value.
  - apply Forall_cons in Hl as [[Hk' Hv] Hl]. cbn [fst snd] in Hk', Hv.
    destruct (iterate_object_member s tk key value first k' v _ ([125] :: rest) Hv Hk' Ha)
      as (tk' & key' & value' & q & -> & Hkey & Hq & Hval & Ha1). rewrite bind_ret. cbn [negb].
    rewrite (str_eq_spec key' k' k Hkey Hk), bind_ret. cbn [find_key fst snd].
    destruct (bool_decide (k = k')); [by exists 0, q, value'|].
    destruct (IH fuel' (set_current s q) tk' key' value' false rest Hk Hl Ha1) as (r & q2 & value2 & -> & Hres); [cbn in *; lia|].
    exists r, q2, value2. split; [done|]. destruct (find_key k l) as [[v' after]|]; [|done].
    destruct Hres as [-> Hat]. split; [done|]. apply (value_token_from s q); [lia|exact Hat].
Qed.

(** The type of what stands where the scanner is. *)
Lemma value_at_type s v rest : value_at s v rest -> wf v ->
  sol_json_mem_get_type doc (current s) = Ret (match v with Arr _ => ARRAY_START | Obj _ => OBJECT_START | Atom a => token_type a end).
Proof.
  intros (t & ls & Ht & txt & Ha & Hl & _) Hwf. rewrite set_current_same in Ha. destruct Ha as [Hv _]. destruct (toks_cons v Hwf) as (t' & ls' & Ht' & _ & Hty).
  rewrite Ht in Ht'. injection Ht' as <- <-. rewrite <- Hty. destruct t as [|c t]; [by apply lexeme_nonempty in Hl|].
  unfold sol_json_mem_get_type. apply view_cons in Hv as [-> _]. by rewrite bind_ret.
Qed.

Lemma value_at_ahead s v rest : value_at s v rest -> tokens_ahead s (toks v ++ rest).
Proof.
  intros (t & ls & Ht & txt & Ha & Hl & He & Hs). exists (t ++ txt). rewrite set_current_same in Ha. split; [done|].
  rewrite Ht. apply (stands_token [] t); [constructor|done..].
Qed.

(** Opening a bracket. *)
Lemma iterate_init_spec s t ls ty :
  tokens_ahead s (t :: ls) -> token_type t = ty ->
  exists tk q, sol_json_loop_iterate_init doc s ty = Ret (REASON_OK, set_current s q, tk) /\ current s < q
    /\ tokens_ahead (set_current s q) ls.
Proof.
  intros Ha Hty. unfold sol_json_loop_iterate_init. destruct (next_token s t ls Ha) as (tk & q & -> & Htk & _ & Hq & Ha' & _).
  rewrite bind_ret. answered. rewrite (is_token_type tk _ Htk), bind_ret, Hty. same. by exists tk, q.
Qed.

Lemma wf_members l : wf (Obj l) -> members_ok l.
Proof. intros [Hk Hv]. rewrite Forall_fmap in Hv. apply Forall_and. by split. Qed.

Lemma object_get_spec s k l rest value :
  blen k <= SSIZE_MAX -> wf (Obj l) -> value_at s (Obj l) rest ->
  exists r q value', sol_json_object_get_value_by_key doc s k value = Ret (r, set_current s q, value')
    /\ match find_key k l with
       | Some (v, after) => r = 0 /\ value_token (set_current s (current s + 1)) value' q v (commas (member_toks <$> after) ++ [125] :: rest)
       | None => r = - ENOENT
       end.
Proof.
  intros Hk Hwf Hat. unfold sol_json_object_get_value_by_key. rewrite (value_at_type s _ rest Hat Hwf), bind_ret. same.
  pose proof (value_at_ahead s _ rest Hat) as Ha. cbn [toks app] in Ha. rewrite <- app_assoc in Ha. cbn [app] in Ha.
  destruct (iterate_init_spec s [123] _ OBJECT_START Ha eq_refl) as (tk & q & -> & Hq & Ha1). rewrite bind_ret.
  destruct (key_loop_spec k l (loop_fuel (set_current s q)) (set_current s q) tk no_token value true rest Hk (wf_members l Hwf) Ha1)
    as (r & q2 & value' & -> & Hres).
  { unfold loop_fuel. cbn [current mem_end set_current]. lia. }
  exists r, q2, value'. split; [done|]. destruct (find_key k l) as [[v after]|]; [|done].
  destruct Hres as [-> Hp]. split; [done|]. apply (value_token_from (set_current s (current s + 1)) q); [cbn; lia|exact Hp].
Qed.

(** ** Elements of arrays *)

Lemma value_type v t ls : wf v -> toks v = t :: ls ->
  lexeme t /\ token_type t <> ARRAY_END /\ token_type t <> ELEMENT_SEP.
Proof.
  intros Hv Ht. destruct (toks_cons v Hv) as (t' & ls' & Ht' & Hl & Hty). rewrite Ht in Ht'. injection Ht' as <- <-.
  rewrite Hty. destruct v as [a|l|l]; [|done..]. split; [done|]. destruct Hv as [_ Ha]. unfold token_type.
  destruct a as [|c a]; [done|]. by destruct (type_of_char c).
Qed.

(** How much of a value the token a lookup answers has: one byte (the path
    [$]), the first token (elements of arrays: all of an atom, the opening
    bracket of anything else), or everything (members of objects). *)
Inductive extent := OneByte | FirstToken | Everything.

Definition ends_at (e : extent) (p q : Z) (v : json) : Prop :=
  match e with
  | OneByte => q = p + 1
  | FirstToken => exists t ls, toks v = t :: ls /\ q = p + blen t
  | Everything => value_ends p q v
  end.

(** The token begins with the value and ends where the extent says. *)
Definition starts_value (e : extent) (s : sol_json_scanner) (tk : sol_json_token) (v : json) (rest : list (list Z)) : Prop :=
  exists p q, tk = token_at p q /\ current s <= p /\ value_at (set_current s p) v rest /\ ends_at e p q v.

Lemma iterate_array_element s tk first v l rest :
  wf v -> tokens_ahead s (left_over first (toks v :: l) ++ rest) ->
  exists tk' q, sol_json_loop_iterate_generic doc s tk ARRAY_END REASON_OK = Ret (true, set_current s q, tk', REASON_OK)
    /\ current s < q /\ starts_value FirstToken s tk' v (left_over false l ++ rest)
    /\ exists tk2 q2, sol_json_scanner_skip doc (set_current s q) tk' = Ret (None, set_current s q2, tk2) /\ q <= q2
         /\ tokens_ahead (set_current s q2) (left_over false l ++ rest).
Proof.
  intros Hv Ha. destruct (toks_cons v Hv) as (t & ls & Ht & _). rewrite Ht in Ha.
  destruct (value_type v t ls Hv Ht) as (Hl & Hn1 & Hn2).
  destruct (iterate_generic_value s tk first t ls l ARRAY_END rest Hl Hn1 Hn2 ltac:(done) Ha)
    as (tk' & q & Hrun & Htk & Hend & Hq & Ha1 & p & Hp & Hat & Hle).
  exists tk', q. split_and!; [done|done| |].
  - destruct (token_start tk' t p q Htk Hp Hend) as [Hpq ->].
    exists p, q. split_and!; [done|done|exists t, ls; by split|exists t, ls; by split].
  - destruct (skip_value (set_current s q) tk' t ls v q (left_over false l ++ rest) Hv Ht Htk Hend Ha1)
      as (tk2 & q2 & Hskip & _ & Hq2 & Ha2 & _). exists tk2, q2. by split_and!.
Qed.

Lemma index_loop_spec l : forall d fuel s tk first rest i,
  Forall wf l -> Z.of_nat d <= i <= UINT16_MAX ->
  tokens_ahead s (left_over first (toks <$> l) ++ [93] :: rest) -> mem_end s - current s < Z.of_nat fuel ->
  exists r q tk', index_loop doc fuel s tk REASON_OK i (i - Z.of_nat d) = Ret (r, set_current s q, tk')
    /\ match l !! d with
       | Some v => r = 0 /\ starts_value FirstToken s tk' v (commas (toks <$> drop (S d) l) ++ [93] :: rest)
       | None => r = - ENOENT
       end.
Proof.
  induction l as [|v l IH]; intros d fuel s tk first rest i Hl Hi Ha Hf;
    destruct (fuel_left _ _ _ Ha Hf) as [fuel' ->]; cbn [index_loop].
  - destruct (iterate_generic_end s tk first [93] ARRAY_END rest eq_refl ltac:(done) Ha) as (tk' & q & -> & _).
    rewrite bind_ret. cbn [negb]. same. by exists (- ENOENT), q, tk'.
  - apply Forall_cons in Hl as [Hv Hl].
    destruct (iterate_array_element s tk first v _ ([93] :: rest) Hv Ha) as (tk' & q & -> & Hq & Hat & tk2 & q2 & Hskip & Hq2 & Ha2).
    rewrite bind_ret. cbn [negb]. destruct d as [|d].
    + rewrite (proj2 (Z.eqb_eq _ _)) by lia. exists 0, q, tk'. split; [done|]. change ((v :: l) !! 0%nat) with (Some v). split; [done|]. cbn [drop]. by rewrite drop_0.
    + rewrite (proj2 (Z.eqb_neq _ _)) by lia. rewrite Hskip, bind_ret. answered.
      rewrite wrapu_small by (unfold UINT16_MAX in *; lia). replace (i - Z.of_nat (S d) + 1) with (i - Z.of_nat d) by lia.
      destruct (IH d fuel' (set_current s q2) tk2 false rest i Hl ltac:(lia) Ha2) as (r & q3 & tk3 & -> & Hres); [cbn in *; lia|].
      exists r, q3, tk3. split; [done|]. change ((v :: l) !! S d) with (l !! d). destruct (l !! d) as [v'|]; [|done].
      destruct Hres as [-> (p & e & -> & Hle & Hv' & He)]. cbn in Hle. split; [done|]. exists p, e. split_and!; [done|lia|done|done].
Qed.

Lemma array_get_spec s i l rest value :
  0 <= i <= UINT16_MAX -> wf (Arr l) -> value_at s (Arr l) rest ->
  exists r q tk', sol_json_array_get_at_index doc s i value = Ret (r, set_current s q, tk')
    /\ match l !! Z.to_nat i with
       | Some v => r = 0 /\ starts_value FirstToken (set_current s (current s + 1)) tk' v (commas (toks <$> drop (S (Z.to_nat i)) l) ++ [93] :: rest)
       | None => r = - ENOENT
       end.
Proof.
  intros Hi Hwf Hat. unfold sol_json_array_get_at_index. rewrite (value_at_type s _ rest Hat Hwf), bind_ret. same.
  pose proof (value_at_ahead s _ rest Hat) as Ha. cbn [toks app] in Ha. rewrite <- app_assoc in Ha. cbn [app] in Ha.
  destruct (iterate_init_spec s [91] _ ARRAY_START Ha eq_refl) as (tk & q & -> & Hq & Ha1). rewrite bind_ret.
  cbn in Hwf. rewrite Forall_fmap in Hwf.
  destruct (index_loop_spec l (Z.to_nat i) (loop_fuel (set_current s q)) (set_current s q) tk true rest i Hwf ltac:(lia) Ha1)
    as (r & q2 & tk' & Hrun & Hres).
  { unfold loop_fuel. cbn [current mem_end set_current]. lia. }
  replace (i - Z.of_nat (Z.to_nat i)) with 0 in Hrun by lia. rewrite Hrun.
  exists r, q2, tk'. split; [done|]. destruct (l !! Z.to_nat i) as [v|]; [|done].
  destruct Hres as [-> (p & e & -> & Hle & Hv & He)]. cbn in Hle. split; [done|]. exists p, e. split_and!; [done|cbn; lia|done|done].
Qed.
End Reading.

(** ** Paths *)

(** A step of a path: a key behind a point, a key in brackets and quotes, or
    a decimal index in brackets. *)
Inductive step := Dot (k : list Z) | Bracket (k : list Z) | Index (ds : list Z).

(** Quotes are escaped with a backslash. *)
Fixpoint escape (k : list Z) : list Z :=
  match k with [] => [] | c :: k => if c =? 39 then 92 :: 39 :: escape k else c :: escape k end.

Definition step_text (st : step) : list Z :=
  match st with
  | Dot k => 46 :: k
  | Bracket k => 91 :: 39 :: escape k ++ [39; 93]
  | Index ds => 91 :: StrProofs.ascii_digits ds ++ [93]
  end.

Definition path_text (l : list step) : list Z := 36 :: concat (step_text <$> l).

(** What the code gets for a step. *)
Definition step_slice (st : step) : list Z := match st with Dot k => k | _ => step_text st end.

Definition decimal_index (ds : list Z) : Prop :=
  ds = [0] \/ exists d ds', ds = d :: ds' /\ 1 <= d <= 9 /\ Forall (fun d => 0 <= d <= 9) ds'.

Definition step_ok (st : step) : Prop :=
  match st with
  | Dot k => k <> [] /\ (46 ∉ k) /\ (91 ∉ k)
  | Bracket k => last k <> Some 92
  | Index ds => decimal_index ds /\ StrProofs.decimal ds <= UINT16_MAX
  end.

Section Paths.
Context (path : block) (Hpath : blen path <= SSIZE_MAX).

Lemma memchr_at_spec l c : forall fuel p, view path p l -> (length l < fuel)%nat ->
  exists o, memchr_at path fuel p c (blen l) = Ret o
    /\ match o with Some q => exists a r, l = a ++ c :: r /\ (c ∉ a) /\ q = p + blen a | None => c ∉ l end.
Proof.
  induction l as [|x l IH]; intros [|fuel] p Hv Hf; try (cbn in Hf; lia); cbn [memchr_at].
  - exists None. split; [done|]. apply not_elem_of_nil.
  - rewrite (proj2 (Z.leb_gt _ _)) by blia. pose proof Hv as [Hat Hv']%view_cons. unfold byte_at in Hat. rewrite Hat, bind_ret.
    destruct (Z.eqb_spec x c) as [->|Hne].
    + exists (Some p). split; [done|]. exists [], l. split_and!; [done|apply not_elem_of_nil|rewrite blen_nil; lia].
    + replace (blen (x :: l) - 1) with (blen l) by blia. destruct (IH fuel (p + 1) Hv') as (o & -> & Ho); [cbn in Hf; lia|].
      exists o. split; [done|]. destruct o as [q|].
      * destruct Ho as (a & r & -> & Ha & ->). exists (x :: a), r. split_and!; [done| |blia]. by apply not_elem_of_cons.
      * by apply not_elem_of_cons.
Qed.

Lemma path_memchr_spec l c p n : view path p l -> n = blen l ->
  exists o, path_memchr path p c n = Ret o
    /\ match o with Some q => exists a r, l = a ++ c :: r /\ (c ∉ a) /\ q = p + blen a | None => c ∉ l end.
Proof.
  intros Hv ->. pose proof (view_bounds path _ _ Hv). unfold path_memchr. rewrite wrapu_small by (unfold_limits; blia).
  apply memchr_at_spec; [done|]. unfold blen in *. lia.
Qed.

(** The first place of a character is what is in front of it. *)
Lemma first_place (c : Z) a b r r' : a ++ c :: r = b ++ c :: r' -> (c ∉ a) -> (c ∉ b) -> a = b.
Proof.
  revert b. induction a as [|x a IH]; intros [|y b] Heq Ha Hb; [done|..].
  - injection Heq as -> _. by destruct Hb; left.
  - injection Heq as -> _. by destruct Ha; left.
  - injection Heq as -> Heq. apply not_elem_of_cons in Ha as [_ Ha], Hb as [_ Hb]. f_equal. by apply IH.
Qed.

(** What follows a step: nothing, or another one. *)
Definition step_end (post : list Z) : Prop := match post with [] => True | c :: _ => c = 46 \/ c = 91 end.

Lemma key_after_dot_spec k post p :
  view path p (46 :: k ++ post) -> path_end path = p + blen (46 :: k ++ post) ->
  step_ok (Dot k) -> step_end post ->
  json_path_parse_key_after_dot path p = Ret (Some (k, p + blen (46 :: k))).
Proof.
  intros Hv He (Hne & Hd & Hb) Hpost. apply view_cons in Hv as [_ Hv]. unfold json_path_parse_key_after_dot.
  assert (path_end path - (p + 1) = blen (k ++ post)) as Hn by blia. rewrite !Hn.
  destruct (path_memchr_spec (k ++ post) 46 (p + 1) _ Hv eq_refl) as (o1 & -> & H1). rewrite bind_ret.
  destruct (path_memchr_spec (k ++ post) 91 (p + 1) _ Hv eq_refl) as (o2 & -> & H2). rewrite bind_ret.
  assert (default (path_end path) (get_lowest_not_null_pointer o1 o2) = p + 1 + blen k) as ->.
  { destruct post as [|c post].
    - rewrite app_nil_r in *. destruct o1 as [q|]; [destruct H1 as (a & r & -> & _); set_solver|].
      destruct o2 as [q|]; [destruct H2 as (a & r & -> & _); set_solver|]. cbn. blia.
    - assert (forall o x, x ∉ k -> match o with Some q => exists a r, k ++ c :: post = a ++ x :: r /\ (x ∉ a) /\ q = p + 1 + blen a | None => x ∉ k ++ c :: post end ->
        match o with Some q => p + 1 + blen k <= q | None => True end /\ (c = x -> o = Some (p + 1 + blen k))) as Hplace.
      { intros [q|] x Hx Ho; split; try done.
        - destruct Ho as (a & r & Heq & Ha & ->). destruct (decide (blen k <= blen a)) as [|Hlt]; [lia|]. exfalso. apply Hx.
          assert ((k ++ c :: post) !! length a = Some x) as Hl by (by rewrite Heq, lookup_app_r, Nat.sub_diag by lia).
          rewrite lookup_app_l in Hl by (unfold blen in Hlt; lia). by eapply list_elem_of_lookup_2.
        - intros ->. destruct Ho as (a & r & Heq & Ha & ->). by rewrite (first_place x k a post r).
        - intros ->. destruct Ho. apply elem_of_app. right. by left. }
      destruct (Hplace o1 46 Hd H1) as [Hl1 He1], (Hplace o2 91 Hb H2) as [Hl2 He2].
      destruct Hpost as [->| ->].
      + rewrite He1 by done. destruct o2 as [q2|]; cbn; [|done]. destruct (Z.ltb_spec (p + 1 + blen k) q2); cbn; lia.
      + rewrite He2 by done. destruct o1 as [q1|]; cbn; [|done]. destruct (Z.ltb_spec q1 (p + 1 + blen k)); cbn; lia. }
  assert (0 < blen k) by (destruct k; [done|blia]). rewrite (proj2 (Z.eqb_neq _ _)) by lia.
  replace (p + 1 + blen k - (p + 1)) with (blen k) by lia. rewrite (view_load path _ k) by (by eapply view_prefix).
  rewrite bind_ret. do 3 f_equal. blia.
Qed.

(** ** Keys in brackets *)

Lemma escape_plain k : (39 ∉ k) -> escape k = k.
Proof.
  induction k as [|c k IH]; [done|]. intros [Hc Hk]%not_elem_of_cons. cbn [escape].
  rewrite (proj2 (Z.eqb_neq _ _)) by done. by rewrite IH.
Qed.

Lemma escape_app a k : (39 ∉ a) -> escape (a ++ k) = a ++ escape k.
Proof.
  induction a as [|c a IH]; [done|]. intros [Hc Ha]%not_elem_of_cons. cbn [escape app].
  rewrite (proj2 (Z.eqb_neq _ _)) by done. by rewrite IH.
Qed.

(** A key is plain, or has a first quote. *)
Lemma key_cases k : (39 ∉ k) \/ exists a k', k = a ++ 39 :: k' /\ (39 ∉ a) /\ escape k = a ++ 92 :: 39 :: escape k'.
Proof.
  destruct (decide (39 ∈ k)) as [Hin|]; [|by left]. right. apply list_elem_of_split_l in Hin as (a & k' & -> & Ha).
  exists a, k'. split_and!; [done|done|]. by rewrite escape_app.
Qed.

(** The quote that is found in escaped text *)
Lemma memchr_quote l a r n p :
  view path p l -> n = blen l -> l = a ++ 39 :: r -> (39 ∉ a) -> path_memchr path p 39 n = Ret (Some (p + blen a)).
Proof.
  intros Hv Hn -> Ha. destruct (path_memchr_spec _ 39 p n Hv Hn) as (o & -> & Ho). destruct o as [q|].
  - destruct Ho as (a' & r' & Heq & Ha' & ->). by rewrite (first_place 39 a a' r r').
  - destruct Ho. apply elem_of_app. right. by left.
Qed.

Lemma byte_after p l c r : view path p (l ++ c :: r) -> at_index path (p + blen l) = Ret c.
Proof. intros Hv%view_app. by apply view_cons in Hv as [Hc _]. Qed.

Lemma last_byte (x : Z) (k : list Z) : exists k' c, x :: k = k' ++ [c] /\ (c = x \/ last k = Some c).
Proof.
  destruct k as [|c k _] using rev_ind; [exists [], x; by auto|]. exists (x :: k), c. split; [done|]. right. apply last_snoc.
Qed.

Lemma quote_loop_spec n : forall k p x fuel post,
  (length k <= n)%nat -> x <> 92 -> last k <> Some 92 -> view path (p - 1) (x :: escape k ++ 39 :: post) ->
  path_end path = p + blen (escape k ++ 39 :: post) -> (n < fuel)%nat ->
  quote_loop path fuel p = Ret (Some (p + blen (escape k))).
Proof.
  induction n as [|n IH]; intros k p x [|fuel] post Hn Hx Hlast Hv He Hf; try lia; cbn [quote_loop];
    pose proof Hv as [_ Hv1]%view_cons; replace (p - 1 + 1) with p in Hv1 by lia;
    rewrite (proj2 (Z.ltb_lt _ _)) by (rewrite He, blen_app, blen_cons; pose proof (blen_nonneg (escape k)); pose proof (blen_nonneg post); lia); cbn [negb].
  all: destruct (key_cases k) as [Hk|(a & k' & -> & Ha & Hesc)].
  all: try (cbn in Hn; rewrite length_app in Hn; cbn in Hn; lia).
  1-2: rewrite (escape_plain k Hk) in *; rewrite (memchr_quote _ k post _ p Hv1) by (done || lia); rewrite bind_ret;
    destruct (last_byte x k) as (k' & c & Heq & Hc);
    replace (x :: k ++ 39 :: post) with (k' ++ c :: 39 :: post) in Hv
      by (change (x :: k ++ 39 :: post) with ((x :: k) ++ 39 :: post); by rewrite Heq, <- app_assoc);
    assert (blen k' = blen k) as Hlen by (apply (f_equal blen) in Heq; rewrite blen_app in Heq; blia);
    pose proof (byte_after (p - 1) k' c _ Hv) as Hb; rewrite Hlen in Hb;
    replace (p + blen k - 1) with (p - 1 + blen k) by lia; rewrite Hb, bind_ret;
    rewrite (proj2 (Z.eqb_neq _ _)) by (destruct Hc as [->|Hc]; congruence); done.
  rewrite Hesc in *. rewrite <- app_assoc in *. cbn [app] in *.
  rewrite (memchr_quote _ (a ++ [92]) (escape k' ++ 39 :: post) _ p Hv1);
    [|lia|by rewrite <- app_assoc|intros [?|?%list_elem_of_singleton]%elem_of_app; done].
  rewrite bind_ret. rewrite blen_app. change (blen [92]) with 1.
  replace (p + (blen a + 1) - 1) with (p + blen a) by lia. rewrite (byte_after p a 92 _ Hv1), bind_ret. cbn [Z.eqb Pos.eqb negb].
  rewrite (IH k' (p + (blen a + 1) + 1) 39 fuel post).
  - do 2 f_equal. rewrite blen_app, !blen_cons. lia.
  - rewrite length_app in Hn. cbn in Hn. lia.
  - done.
  - intros Hl. apply Hlast. rewrite last_app, last_cons, Hl. done.
  - replace (p + (blen a + 1) + 1 - 1) with (p + blen (a ++ [92])) by (rewrite blen_app; change (blen [92]) with 1; lia).
    apply view_app. by rewrite <- app_assoc.
  - rewrite He. autorewrite with blen. lia.
  - lia.
Qed.

Lemma blen_one (x : Z) : blen [x] = 1.
Proof. done. Qed.

Lemma bracket_spec k post p :
  view path p (step_text (Bracket k) ++ post) -> path_end path = p + blen (step_text (Bracket k) ++ post) ->
  step_ok (Bracket k) ->
  json_path_parse_key_in_brackets path p = Ret (Some (step_text (Bracket k), p + blen (step_text (Bracket k)))).
Proof.
  intros Hv He Hlast. pose proof (view_prefix _ _ _ _ Hv) as Hall. revert Hv He Hall. unfold step_text.
  cbn [app]. rewrite <- app_assoc. cbn [app]. intros Hv He Hall. unfold json_path_parse_key_in_brackets.
  pose proof Hv as [_ Hv1]%view_cons. pose proof Hv1 as [Hq Hv2]%view_cons. unfold byte_at in Hq.
  rewrite Hq, bind_ret. cbn [Z.eqb Pos.eqb].
  assert (length k <= length (escape k))%nat as Hlen.
  { clear. induction k as [|c k IH]; [done|]. cbn. destruct (c =? 39); cbn; lia. }
  pose proof (view_bounds _ _ _ Hv) as Hb. autorewrite with blen in *. pose proof (blen_nonneg post).
  pose proof (blen_nonneg (escape k)).
  rewrite (quote_loop_spec (length k) k (p + 1 + 1) 39 (S (length path)) (93 :: post));
    [|done|done|done|by replace (p + 1 + 1 - 1) with (p + 1) by lia|autorewrite with blen; lia|unfold blen in *; lia].
  rewrite bind_ret. rewrite (proj2 (Z.leb_gt _ _)) by lia.
  pose proof (byte_after (p + 1 + 1) (escape k ++ [39]) 93 post) as H93. rewrite <- app_assoc in H93. cbn [app] in H93.
  specialize (H93 Hv2). rewrite blen_app, blen_one in H93.
  replace (p + 1 + 1 + blen (escape k) + 1) with (p + 1 + 1 + (blen (escape k) + 1)) by lia. rewrite H93, bind_ret.
  cbn [Z.eqb Pos.eqb negb]. set (t := 91 :: 39 :: escape k ++ [39; 93]) in *.
  assert (blen t = blen (escape k) + 4) as Ht by (subst t; autorewrite with blen; lia).
  replace (p + 1 + 1 + (blen (escape k) + 1) + 1 - p) with (blen t) by lia. rewrite (view_load path _ _ Hall), bind_ret.
  do 3 f_equal. lia.
Qed.

Lemma digit_range ds : decimal_index ds -> Forall (fun c => 48 <= c <= 57) (StrProofs.ascii_digits ds).
Proof.
  intros Hd. unfold StrProofs.ascii_digits. apply Forall_fmap. destruct Hd as [->|(d & ds' & -> & Hd & Hds)].
  - repeat constructor; cbn; lia.
  - constructor; [cbn; lia|]. eapply Forall_impl; [exact Hds|]. cbn. lia.
Qed.

Lemma index_spec ds post p :
  view path p (step_text (Index ds) ++ post) -> path_end path = p + blen (step_text (Index ds) ++ post) ->
  decimal_index ds ->
  json_path_parse_key_in_brackets path p = Ret (Some (step_text (Index ds), p + blen (step_text (Index ds)))).
Proof.
  intros Hv He Hd. pose proof (digit_range ds Hd) as Hr. pose proof (view_prefix _ _ _ _ Hv) as Hall. revert Hv He Hall Hr.
  unfold step_text.
  assert (exists c cs, StrProofs.ascii_digits ds = c :: cs) as (c & cs & ->).
  { destruct Hd as [->|(d & ds' & -> & _)]; by do 2 eexists. }
  cbn [app]. rewrite <- app_assoc. cbn [app]. intros Hv He Hall [Hc Hcs]%Forall_cons. unfold json_path_parse_key_in_brackets.
  pose proof Hv as [_ Hv1]%view_cons. pose proof Hv1 as [Hat Hv2]%view_cons. unfold byte_at in Hat.
  rewrite Hat, bind_ret. rewrite (proj2 (Z.eqb_neq c 39)), (proj2 (Z.eqb_neq c 93)) by lia. cbn [negb].
  autorewrite with blen in He.
  destruct (path_memchr_spec (cs ++ 93 :: post) 93 (p + 1 + 1) (path_end path - (p + 1 + 1)) Hv2) as (o & -> & Ho);
    [autorewrite with blen; lia|].
  assert (93 ∉ cs) as Hn by (intros Hin; rewrite Forall_forall in Hcs; specialize (Hcs 93 Hin); lia).
  destruct o as [q|]; [|destruct Ho; apply elem_of_app; right; by left].
  destruct Ho as (a & r & Heq & Ha & ->). apply first_place in Heq as <-; [|done..]. rewrite bind_ret.
  set (t := 91 :: c :: cs ++ [93]) in *. assert (blen t = blen cs + 3) as Ht by (subst t; autorewrite with blen; lia).
  replace (p + 1 + 1 + blen cs + 1 - p) with (blen t) by lia. rewrite (view_load path _ _ Hall), bind_ret.
  do 3 f_equal. lia.
Qed.

(** ** The segments of a path are its steps *)

Lemma step_text_cons st : exists t, step_text st = (match st with Dot _ => 46 | _ => 91 end) :: t.
Proof. destruct st; by eexists. Qed.

Lemma steps_end l : step_end (concat (step_text <$> l)).
Proof. destruct l as [|st l]; [done|]. cbn [fmap list_fmap concat]. destruct (step_text_cons st) as [t ->]. destruct st; cbn; auto. Qed.

Lemma segment_spec st l p :
  0 < p -> view path p (concat (step_text <$> st :: l)) -> path_end path = p + blen (concat (step_text <$> st :: l)) ->
  step_ok st ->
  sol_json_path_get_next_segment path p = Ret (Segment (step_slice st) (p + blen (step_text st))).
Proof.
  intros Hp Hv He Hok. unfold sol_json_path_get_next_segment. cbn [fmap list_fmap concat] in *. fold (fmap step_text l) in *.
  pose proof (steps_end l) as Hpost. set (post := concat (step_text <$> l)) in *. clearbody post.
  destruct (step_text_cons st) as [t Ht]. pose proof (blen_nonneg t). pose proof (blen_nonneg post).
  assert (p < path_end path) as Hlt by (rewrite He, blen_app, Ht, blen_cons; lia).
  rewrite (proj2 (Z.eqb_neq (path_end path) 0)), (proj2 (Z.eqb_neq p 0)) by lia. rewrite bind_ret.
  rewrite (proj2 (Z.leb_gt _ _)) by lia.
  assert (at_index path p = Ret (match st with Dot _ => 46 | _ => 91 end)) as ->.
  { rewrite Ht in Hv. cbn [app] in Hv. by apply view_cons in Hv as [Hc _]. }
  rewrite bind_ret. destruct st as [k|k|ds]; cbn [Z.eqb Pos.eqb].
  - cbn [step_text app] in Hv, He. by rewrite (key_after_dot_spec k post p Hv He Hok Hpost), bind_ret.
  - by rewrite (bracket_spec k post p Hv He Hok), bind_ret.
  - by rewrite (index_spec ds post p Hv He (proj1 Hok)), bind_ret.
Qed.

Lemma segment_end p : 0 < p -> path_end path = p -> sol_json_path_get_next_segment path p = Ret (PathEnd p).
Proof.
  intros Hp He. unfold sol_json_path_get_next_segment. rewrite He.
  rewrite (proj2 (Z.eqb_neq p 0)) by lia. rewrite bind_ret. by rewrite (proj2 (Z.leb_le _ _)) by lia.
Qed.

(** The first call skips the [$]. *)
Lemma segment_start : path_end path <> 0 -> at_index path 0 = Ret 36 -> sol_json_path_get_next_segment path 0 = sol_json_path_get_next_segment path 1.
Proof.
  intros He Hat. unfold sol_json_path_get_next_segment. rewrite (proj2 (Z.eqb_neq _ _) He). change (0 =? 0) with true. change (1 =? 0) with false. cbv iota.
  rewrite Hat, !bind_ret. reflexivity.
Qed.
End Paths.

(** ** Keys and indices *)

Lemma array_key st : step_ok st -> sol_json_path_is_array_key (step_slice st) = match st with Index _ => true | _ => false end.
Proof.
  destruct st as [k|k|ds]; cbn [step_slice step_text]; intros Hok.
  - destruct Hok as (_ & _ & Hb). destruct k as [|a [|b k]]; [done..|]. cbn.
    destruct (Z.eqb_spec a 91) as [->|]; [|done]. destruct Hb. by left.
  - done.
  - destruct Hok as [Hd _]. pose proof (digit_range ds Hd) as Hr. unfold StrProofs.ascii_digits in *.
    destruct Hd as [->|(d & ds' & -> & Hd & _)]; [done|]. cbn [fmap list_fmap app] in *. apply Forall_cons in Hr as [Hr _].
    unfold sol_json_path_is_array_key. by rewrite (proj2 (Z.eqb_neq (48 + d) 39)) by lia.
Qed.

Lemma decimal_index_value ds : decimal_index ds -> StrProofs.decimal ds <= UINT16_MAX ->
  StrSlice.sol_str_slice_to_int (StrProofs.ascii_digits ds) = (0, StrProofs.decimal ds) /\ 0 <= StrProofs.decimal ds.
Proof.
  intros [->|(d & ds' & -> & Hd & Hds)] Hmax; [done|].
  assert (0 <= StrProofs.decimal (d :: ds')) as H0 by (apply StrProofs.decimal_nonneg; constructor; [lia|done]).
  split; [|done]. pose proof (StrProofs.to_int_decimal false d ds' Hd Hds) as Hint. cbn [StrProofs.sign_bytes app] in Hint.
  rewrite Hint. unfold StrProofs.signed. by rewrite bool_decide_true by (unfold UINT16_MAX, INT_MIN, INT_MAX in *; lia).
Qed.

Lemma segment_index_spec ds : step_ok (Index ds) ->
  sol_json_path_array_get_segment_index (step_slice (Index ds)) = StrProofs.decimal ds.
Proof.
  intros Hok. pose proof (array_key (Index ds) Hok) as Hkey. destruct Hok as [Hd Hmax].
  destruct (decimal_index_value ds Hd Hmax) as [Hint H0].
  assert (ds <> []) as Hne by (destruct Hd as [->|(d & ds' & -> & _)]; done).
  assert (0 < blen ds) by (destruct ds; [done|blia]).
  unfold sol_json_path_array_get_segment_index. cbn [step_slice step_text] in *. rewrite Hkey. cbn [negb].
  assert (blen (StrProofs.ascii_digits ds) = blen ds) as Hlen by (unfold StrProofs.ascii_digits; apply blen_fmap).
  rewrite (proj2 (Z.ltb_ge _ _)) by (rewrite blen_cons, blen_app, Hlen; change (blen [93]) with 1; lia).
  replace (take _ _) with (StrProofs.ascii_digits ds).
  - rewrite Hint. rewrite (proj2 (Z.ltb_ge 0 0)) by lia. rewrite wrapu_small by (unfold UINT16_MAX in *; lia).
    by rewrite Z.eqb_refl.
  - change (drop 1 (91 :: ?l)) with l. cbn [length]. rewrite length_app. cbn [length].
    replace (S (length (StrProofs.ascii_digits ds) + 1) - 2)%nat with (length (StrProofs.ascii_digits ds)) by lia.
    by rewrite take_app_length.
Qed.

Section Keys.
Context `{BuildConfig} `{Allocator}.

Lemma rep_nonempty b l : Buffer.rep b l -> l <> [] -> Buffer.data b <> None.
Proof.
  intros [Hu Hf _ [rest Hr]] Hne Hd. unfold Buffer.storage in Hr. rewrite Hd in Hr. by destruct l.
Qed.

Lemma rep_view m : blen m <= SSIZE_MAX -> Buffer.rep (view_of m) m.
Proof. intros Hm. split; cbn; [done|lia|done|]. exists []. by rewrite app_nil_r. Qed.

Lemma rep_empty_key : Buffer.rep (Buffer.sol_buffer_init_flags None 0 Buffer.SOL_BUFFER_FLAGS_NO_NUL_BYTE) [].
Proof. split; [done|done|done|by exists []]. Qed.

(** The keys in brackets, without the escapes: [k1] was appended, [k2] has no
    quotes and is left. *)
Lemma unescape_loop_spec key n : forall k p b acc fuel,
  (length k <= n)%nat -> view key p (escape k) -> blen key = p + blen (escape k) -> blen key <= INT_MAX ->
  Buffer.rep b acc -> Buffer.own_bytes b -> blen acc <= p -> (n < fuel)%nat ->
  exists r p' b', unescape_loop key fuel p b = Ret (r, p', b')
    /\ (r < 0 /\ (39 ∈ k) /\ Buffer.refused
        \/ r = 0 /\ exists k1 k2, k = k1 ++ k2 /\ (39 ∉ k2) /\ mem_load key p' (blen key - p') = Ret k2
           /\ Buffer.rep b' (acc ++ k1) /\ Buffer.own_bytes b'
           /\ (k1 = [] /\ b' = b \/ (39 ∈ k) /\ Buffer.data b' <> None)).
Proof.
  induction n as [|n IH]; intros k p b acc [|fuel] Hn Hv Hlen Hsmall Hrep Hown Hacc Hf; try lia; cbn [unescape_loop];
    assert (blen key <= SSIZE_MAX) as Hmax by (unfold_limits; lia).
  all: destruct (key_cases k) as [Hk|(a & k' & -> & Ha & Hesc)]; [rewrite (escape_plain k Hk) in *|rewrite Hesc in *].
  2: { rewrite length_app in Hn. cbn in Hn. lia. }
  1,2: assert (mem_load key p (blen key - p) = Ret k) as Hload
         by (replace (blen key - p) with (blen k) by lia; by apply view_load);
       assert (exists r p' b', Ret (0, p, b) = Ret (r, p', b') /\ (r < 0 /\ (39 ∈ k) /\ Buffer.refused \/ r = 0 /\ exists k1 k2, k = k1 ++ k2
         /\ (39 ∉ k2) /\ mem_load key p' (blen key - p') = Ret k2 /\ Buffer.rep b' (acc ++ k1) /\ Buffer.own_bytes b'
         /\ (k1 = [] /\ b' = b \/ (39 ∈ k) /\ Buffer.data b' <> None))) as Hdone
         by (exists 0, p, b; split; [done|]; right; split; [done|]; exists [], k; rewrite app_nil_r; split_and!; auto);
       destruct (Z.ltb_spec p (blen key)); cbn [negb]; [|exact Hdone];
       destruct (path_memchr_spec key Hmax k 39 p (blen key - p) Hv) as (o & -> & Ho); [lia|]; rewrite bind_ret;
       destruct o as [q|]; [|exact Hdone]; destruct Ho as (a & r & -> & _); destruct Hk; apply elem_of_app; right; by left.
  destruct (view_bounds _ _ _ Hv) as [Hp0 _].
  autorewrite with blen in Hlen. pose proof (blen_nonneg a). pose proof (blen_nonneg (escape k')).
  rewrite (proj2 (Z.ltb_lt p _)) by lia. cbn [negb].
  rewrite (memchr_quote key Hmax _ (a ++ [92]) (escape k') _ p Hv);
    [|autorewrite with blen; lia|by rewrite <- app_assoc|intros [?|?%list_elem_of_singleton]%elem_of_app; done].
  rewrite bind_ret, blen_app. change (blen [92]) with 1. replace (p + (blen a + 1) - p - 1) with (blen a) by lia.
  rewrite (view_load key p a) by (by eapply view_prefix). rewrite bind_ret.
  assert (39 ∈ a ++ 39 :: k') as Hin by (apply elem_of_app; right; by left).
  destruct (Buffer.own_append b acc a Hrep Hown) as (r & b1 & Happ & Hown1 & Hw); [unfold_limits; lia|].
  unfold Buffer.sol_buffer_append_slice. rewrite Happ, bind_ret. clear Happ.
  destruct Hw as [[-> Hrep1]|[Hneg Href]]; [|rewrite (proj2 (Z.ltb_lt r 0)) by done; exists r, p, b1; by auto].
  rewrite (proj2 (Z.ltb_ge 0 0)) by lia.
  destruct (Buffer.own_append_char b1 _ 39 Hrep1 Hown1) as (r & b2 & -> & Hown2 & Hw); [autorewrite with blen; unfold_limits; lia|].
  rewrite bind_ret. destruct Hw as [[-> Hrep2]|[Hneg Href]]; [|rewrite (proj2 (Z.ltb_lt r 0)) by done; exists r, p, b2; by auto].
  rewrite (proj2 (Z.ltb_ge 0 0)) by lia.
  destruct (IH k' (p + (blen a + 1) + 1) b2 ((acc ++ a) ++ [39]) fuel) as (r & p' & b' & -> & Hres);
    [rewrite length_app in Hn; cbn in Hn; lia| |lia|done|done|done|autorewrite with blen; lia|lia|].
  { replace (p + (blen a + 1) + 1) with (p + blen (a ++ [92; 39])) by (rewrite blen_app; change (blen [92; 39]) with 2; lia).
    apply view_app. by rewrite <- app_assoc. }
  exists r, p', b'. split; [done|]. destruct Hres as [(Hneg & _ & Href)|(-> & k1 & k2 & -> & Hk2 & Hload & Hrep' & Hown' & Hb')]; [by left|].
  right. split; [done|]. exists (a ++ 39 :: k1), k2. split_and!; [by rewrite <- app_assoc|done|done| |done|].
  - by rewrite <- !app_assoc in Hrep'.
  - right. split; [done|]. eapply rep_nonempty; [exact Hrep'|]. intros Hnil. by destruct acc, a.
Qed.

(** The key of a step, or not enough memory for a key with quotes *)
Lemma object_key_spec st k :
  step_ok st -> st = Dot k \/ st = Bracket k -> blen (step_text st) <= INT_MAX ->
  exists r b, json_path_parse_object_key (step_slice st) = Ret (r, b)
    /\ (r = 0 /\ Buffer.rep b k \/ r < 0 /\ st = Bracket k /\ (39 ∈ k) /\ Buffer.refused).
Proof.
  intros Hok [-> | ->] Hmax; cbn [step_slice step_text] in *; unfold json_path_parse_object_key.
  - destruct Hok as (Hne & _ & Hb). destruct k as [|c k]; [done|]. change (at_index (c :: k) 0) with (Ret c). rewrite bind_ret.
    destruct (Z.eqb_spec c 91) as [->|]; [by destruct Hb; left|]. cbn [negb]. exists 0, (view_of (c :: k)).
    split; [done|]. left. split; [done|]. apply rep_view. autorewrite with blen in *. unfold_limits. lia.
  - change (at_index (91 :: ?l) 0) with (Ret 91). rewrite bind_ret. cbn [Z.eqb Pos.eqb negb].
    autorewrite with blen in Hmax. set (t := 91 :: 39 :: escape k ++ [39; 93]).
    assert (mem_load t 2 (blen t - 4) = Ret (escape k)) as ->.
    { replace (blen t - 4) with (blen (escape k)) by (subst t; autorewrite with blen; lia). apply view_load.
      by exists [91; 39], [39; 93]. }
    rewrite bind_ret. assert (length k <= length (escape k))%nat as Hlen.
    { clear. induction k as [|c k IH]; [done|]. cbn. destruct (c =? 39); cbn; lia. }
    destruct (unescape_loop_spec (escape k) (length k) k 0 (Buffer.sol_buffer_init_flags None 0 Buffer.SOL_BUFFER_FLAGS_NO_NUL_BYTE) []
      (S (length (escape k)))) as (r & p' & b' & -> & Hres);
      [lia| |lia|lia|apply rep_empty_key|done|done|lia|].
    { exists [], []. by rewrite app_nil_r. }
    rewrite bind_ret. destruct Hres as [(Hneg & Hin & Href)|(-> & k1 & k2 & -> & Hk2 & Hload & Hrep' & Hown & Hb')].
    { rewrite (proj2 (Z.ltb_lt r 0)) by done. exists r, b'. split; [done|]. right. by split_and!. }
    rewrite (proj2 (Z.ltb_ge 0 0)) by lia. cbn [app] in Hrep'.
    destruct Hb' as [[-> ->]|[Hin Hdata]].
    + cbn [Buffer.data Buffer.sol_buffer_init_flags app]. rewrite (escape_plain k2) by done. eexists _, _. split; [done|].
      left. split; [done|]. apply rep_view. cbn [app] in *. rewrite (escape_plain k2) in Hmax by done. unfold_limits. lia.
    + destruct (Buffer.data b') as [m|]; [|done]. rewrite Hload, bind_ret.
      destruct (Buffer.own_append b' k1 k2 Hrep' Hown) as (r & b2 & Happ & _ & Hw).
      { unfold blen in *. rewrite length_app in Hlen. unfold_limits. lia. }
      unfold Buffer.sol_buffer_append_slice. rewrite Happ, bind_ret. eexists _, b2. split; [done|].
      destruct Hw as [[-> Hrep2]|[Hneg Href]]; [by left|]. right. by rewrite (proj2 (Z.ltb_lt r 0)).
Qed.
End Keys.

(** ** The value at a path *)

(** The child a step names, and the tokens behind it when [rest] is behind
    the whole value. *)
Definition child (st : step) (v : json) (rest : list (list Z)) : option (json * list (list Z)) :=
  match st, v with
  | (Dot k | Bracket k), Obj l =>
      '(v', after) ← find_key k l; Some (v', commas (member_toks <$> after) ++ [125] :: rest)
  | Index ds, Arr l =>
      let i := Z.to_nat (StrProofs.decimal ds) in
      v' ← l !! i; Some (v', commas (toks <$> drop (S i) l) ++ [93] :: rest)
  | _, _ => None
  end.

Fixpoint find_path (steps : list step) (v : json) (rest : list (list Z)) : option (json * list (list Z)) :=
  match steps with
  | [] => Some (v, rest)
  | st :: steps => '(v, rest) ← child st v rest; find_path steps v rest
  end.

(** A key with quotes is copied, and there may be no memory for that. *)
Definition takes_memory `{Allocator} (st : step) : Prop :=
  match st with Bracket k => (39 ∈ k) /\ Buffer.refused | _ => False end.

Lemma find_key_wf k l v after : members_ok l -> find_key k l = Some (v, after) -> wf v.
Proof.
  induction 1 as [|m l [_ Hm] _ IH]; [done|]. cbn [find_key]. destruct m as [k' v']. cbn in Hm.
  cbn [fst snd]. destruct (bool_decide (k = k')); [intros Heq; injection Heq as <- _; exact Hm|exact IH].
Qed.

Lemma child_wf st v rest v' rest' : wf v -> child st v rest = Some (v', rest') -> wf v'.
Proof.
  intros Hv Hc. destruct st as [k|k|ds], v as [a|l|l]; try done; cbn in Hc.
  - destruct (find_key k l) as [[w after]|] eqn:Hf; [|done]. injection Hc as <- <-. eapply find_key_wf; [by apply wf_members|exact Hf].
  - destruct (find_key k l) as [[w after]|] eqn:Hf; [|done]. injection Hc as <- <-. eapply find_key_wf; [by apply wf_members|exact Hf].
  - destruct (l !! Z.to_nat (StrProofs.decimal ds)) as [w|] eqn:Hl; [|done]. injection Hc as <- <-.
    cbn in Hv. rewrite Forall_fmap, Forall_forall in Hv. apply (Hv w). by eapply list_elem_of_lookup_2.
Qed.

Section Steps.
Context `{BuildConfig} `{Allocator} (doc : block) (Hdoc : blen doc <= INT_MAX).

(** What the token of a path has of its value *)
Definition extent_of (steps : list step) : extent :=
  match last steps with None => OneByte | Some (Index _) => FirstToken | Some _ => Everything end.

(** What a lookup answers: the value, or that there is none, or no memory. *)
Definition answers (e : extent) (s : sol_json_scanner) (r : Z) (tk : sol_json_token) (memory : Prop)
    (o : option (json * list (list Z))) : Prop :=
  match o with
  | Some (v, rest) => r = 0 /\ starts_value doc e s tk v rest \/ r < 0 /\ memory
  | None => r = - ENOENT \/ r < 0 /\ memory
  end.

Lemma step_none e st v r tk (memory : Prop) s rest : child st v rest = None -> r = - ENOENT -> answers e s r tk memory (child st v rest).
Proof. intros -> ->. by left. Qed.

Lemma step_into_key st k s v rest value :
  st = Dot k \/ st = Bracket k -> step_ok st -> wf v -> value_at doc s v rest -> blen (step_text st) <= INT_MAX ->
  exists r q tk, step_into doc s (step_slice st) value = Ret (r, set_current s q, tk)
    /\ answers (extent_of [st]) (set_current s (current s + 1)) r tk (takes_memory st) (child st v rest).
Proof.
  intros Hst Hok Hwf Hat Hmax. unfold step_into. rewrite (value_at_type doc s v rest Hat Hwf), bind_ret.
  assert (sol_json_path_is_array_key (step_slice st) = false) as Hkey by (rewrite array_key by done; by destruct Hst as [-> | ->]).
  assert (forall r, r = - ENOENT -> child st v rest = None -> exists r' q tk, Ret (r, s, value) = Ret (r', set_current s q, tk)
    /\ answers (extent_of [st]) (set_current s (current s + 1)) r' tk (takes_memory st) (child st v rest)) as Hnone.
  { intros r -> Hc. exists (- ENOENT), (current s), value. rewrite set_current_same. split; [done|]. by apply step_none. }
  destruct v as [a|l|l].
  - assert (child st (Atom a) rest = None) as Hc by by destruct st.
    destruct Hwf as [_ Ha]. unfold token_type. destruct a as [|c a]; [done|]. destruct (type_of_char c); try done; by apply Hnone.
  - rewrite Hkey. cbn [negb]. apply Hnone; [done|]. by destruct Hst as [-> | ->].
  - rewrite Hkey. destruct (object_key_spec st k Hok Hst Hmax) as (r & b & -> & Hres). rewrite bind_ret.
    destruct Hres as [[-> Hb]|(Hneg & -> & Hin & Href)].
    2: { rewrite (proj2 (Z.ltb_lt r 0)) by done. exists r, (current s), value. rewrite set_current_same. split; [done|].
         unfold answers. destruct (child _ _ _) as [[v' rest']|]; by right. }
    rewrite (proj2 (Z.ltb_ge 0 0)) by lia. rewrite (Buffer.get_slice_spec b k Hb), bind_ret.
    assert (blen k <= SSIZE_MAX) as Hk by (destruct Hb as [_ Hf Hc _]; lia).
    destruct (object_get_spec doc Hdoc s k l rest value Hk Hwf Hat) as (r & q & tk & -> & Hres). rewrite bind_ret.
    assert (child st (Obj l) rest = '(v', after) ← find_key k l; Some (v', commas (member_toks <$> after) ++ [125] :: rest)) as ->
      by by destruct Hst as [-> | ->].
    eexists _, q, tk. split; [done|]. destruct (find_key k l) as [[v' after]|]; cbn.
    + destruct Hres as [-> (p & -> & Hp & Hv' & He)]. left. split; [done|]. exists p, q. split_and!; [done..|]. by destruct Hst as [-> | ->].
    + left. by rewrite Hres.
Qed.

Lemma step_into_index ds s v rest value :
  step_ok (Index ds) -> wf v -> value_at doc s v rest ->
  exists r q tk, step_into doc s (step_slice (Index ds)) value = Ret (r, set_current s q, tk)
    /\ answers FirstToken (set_current s (current s + 1)) r tk False (child (Index ds) v rest).
Proof.
  intros Hok Hwf Hat. unfold step_into. rewrite (value_at_type doc s v rest Hat Hwf), bind_ret.
  pose proof (array_key (Index ds) Hok) as Hkey. cbv iota in Hkey.
  assert (forall r, r = - ENOENT -> child (Index ds) v rest = None -> exists r' q tk, Ret (r, s, value) = Ret (r', set_current s q, tk)
    /\ answers FirstToken (set_current s (current s + 1)) r' tk False (child (Index ds) v rest)) as Hnone.
  { intros r -> Hc. exists (- ENOENT), (current s), value. rewrite set_current_same. split; [done|]. by apply step_none. }
  destruct v as [a|l|l].
  - destruct Hwf as [_ Ha]. unfold token_type. destruct a as [|c a]; [done|]. destruct (type_of_char c); try done; by apply Hnone.
  - rewrite Hkey. cbn [negb]. rewrite (segment_index_spec ds Hok). destruct Hok as [Hd Hmax].
    destruct (decimal_index_value ds Hd Hmax) as [_ H0']. rewrite (proj2 (Z.ltb_ge _ 0)) by done.
    destruct (array_get_spec doc Hdoc s (StrProofs.decimal ds) l rest value (conj H0' Hmax) Hwf Hat) as (r & q & tk & -> & Hres).
    rewrite bind_ret. eexists _, q, tk. split; [done|]. cbn [child].
    destruct (l !! Z.to_nat (StrProofs.decimal ds)) as [v'|].
    + destruct Hres as [-> Hv']. by left.
    + left. by rewrite Hres.
  - rewrite Hkey. by apply Hnone.
Qed.

Lemma step_into_spec st s v rest value :
  step_ok st -> wf v -> value_at doc s v rest -> blen (step_text st) <= INT_MAX ->
  exists r q tk, step_into doc s (step_slice st) value = Ret (r, set_current s q, tk)
    /\ answers (extent_of [st]) (set_current s (current s + 1)) r tk (takes_memory st) (child st v rest).
Proof.
  intros Hok Hwf Hat Hmax. destruct st as [k|k|ds].
  - by apply (step_into_key _ k); [left|..].
  - by apply (step_into_key _ k); [right|..].
  - by apply step_into_index.
Qed.
End Steps.

Section Lookup.
Context `{BuildConfig} `{Allocator} (doc : block) (Hdoc : blen doc <= INT_MAX).

Lemma starts_value_from e s q tk v rest : current s <= q -> starts_value doc e (set_current s q) tk v rest -> starts_value doc e s tk v rest.
Proof. intros Hq (p & z & -> & Hle & Hat & He). cbn in Hle. exists p, z. split_and!; [done|lia|exact Hat|exact He]. Qed.

(** Behind at least one step the scanner stands at the value. *)
Lemma path_loop_spec path steps : forall p fuel s v rest value,
  blen path <= INT_MAX -> 0 < p -> view path p (concat (step_text <$> steps)) ->
  path_end path = p + blen (concat (step_text <$> steps)) -> Forall step_ok steps -> wf v -> value_at doc s v rest ->
  (length steps < fuel)%nat ->
  exists r s' tk, path_loop doc path fuel p s value = Ret (r, s', tk)
    /\ match steps with
       | [] => r = 0 /\ s' = s
       | _ => answers doc (extent_of steps) (set_current s (current s + 1)) r tk (Exists takes_memory steps) (find_path steps v rest)
              /\ (r = 0 -> tk_start tk = Some (current s'))
       end.
Proof.
  induction steps as [|st steps IH]; intros p [|fuel] s v rest value Hint Hp Hv He Hok Hwf Hat Hf; try (cbn in Hf; lia); cbn [path_loop];
    assert (blen path <= SSIZE_MAX) as Hmax by (unfold_limits; lia).
  - rewrite (segment_end path) by (done || (change (blen (concat (step_text <$> []))) with 0 in He; lia)). rewrite bind_ret. by exists 0, s, value.
  - apply Forall_cons in Hok as [Hst Hok]. rewrite (segment_spec path Hmax st steps p Hp Hv He Hst), bind_ret.
    cbn [fmap list_fmap concat] in Hv, He. fold (fmap step_text steps) in Hv, He.
    pose proof (view_bounds _ _ _ (view_prefix _ _ _ _ Hv)) as Hb.
    destruct (step_into_spec doc Hdoc st s v rest value Hst Hwf Hat ltac:(lia)) as (r & q & tk & -> & Hres). rewrite bind_ret.
    cbn [find_path]. unfold answers in Hres. destruct (child st v rest) as [[v' rest']|] eqn:Hc; cbn [mbind option_bind].
    2: { assert (r < 0) as Hr by (destruct Hres as [-> |[? _]]; zlia). rewrite (proj2 (Z.ltb_lt r 0)) by done.
         eexists _, _, _. split; [done|]. split; [|lia]. destruct Hres as [-> |[? Hm]]; [by left|]. right. split; [done|by left]. }
    destruct Hres as [[-> (p' & q' & Htk & Hle & Hat' & Hend)]|[Hr Hm]].
    2: { rewrite (proj2 (Z.ltb_lt r 0)) by done. eexists _, _, _. split; [done|]. split; [|lia]. unfold answers.
         destruct (find_path steps v' rest') as [[v2 rest2]|]; right; (split; [done|by left]). }
    assert (tk_start tk = Some p') as Hp' by by rewrite Htk.
    rewrite (proj2 (Z.ltb_ge 0 0)) by lia. rewrite Hp'. cbn [deref]. rewrite bind_ret. cbn in Hle.
    destruct (IH (p + blen (step_text st)) fuel (set_current (set_current s q) p') v' rest' tk) as (r & s' & tk' & Hrun & Hres);
      [done|pose proof (blen_nonneg (step_text st)); lia|by apply view_app|rewrite He, blen_app; lia|done|by eapply child_wf|exact Hat'|cbn in Hf; lia|].
    exists r, s', tk'. split; [exact Hrun|]. destruct steps as [|st2 steps].
    + destruct Hres as [-> ->]. cbn [path_loop] in Hrun. destruct fuel as [|fuel]; [cbn in Hf; lia|]. cbn [path_loop] in Hrun.
      change (concat (step_text <$> [])) with (@nil Z) in He. rewrite app_nil_r in He.
      rewrite (segment_end path) in Hrun; [|pose proof (blen_nonneg (step_text st)); lia|lia].
      rewrite bind_ret in Hrun. injection Hrun as <-. split; [|done]. left. split; [done|]. exists p', q'. by split_and!.
    + destruct Hres as [Hans Hstart]. split; [|exact Hstart]. unfold answers in *.
      destruct (find_path (st2 :: steps) v' rest') as [[v2 rest2]|].
      * destruct Hans as [[-> Hsv]|[Hr Hm]]; [left|right; split; [done|by right]]. split; [done|].
        apply (starts_value_from _ _ (p' + 1)); [cbn; lia|exact Hsv].
      * destruct Hans as [-> |[Hr Hm]]; [by left|]. right. split; [done|by right].
Qed.

End Lookup.

(** ** Documents with a space behind each token *)

Definition print (ls : list (list Z)) : list Z := concat ((fun t => t ++ [32]) <$> ls).

Lemma munch_space a : forall st r, munch st a = a -> munch st (a ++ 32 :: r) = a.
Proof.
  induction a as [|c a IH]; intros st r; cbn [app munch].
  - by destruct st.
  - destruct (number_step st c) as [st'|]; [|done]. intros Ha. injection Ha as Ha. by rewrite IH.
Qed.

Lemma ends_space t r : lexeme t -> ends_token t (32 :: r).
Proof. intros Ht. destruct t as [|c t]; [done|]. intros Hc. apply munch_space. apply lexeme_inv in Ht. by rewrite Hc in Ht. Qed.

Lemma stands_space ls l : stands ls l -> stands ls (32 :: l).
Proof.
  intros [r|w t' ls' rest Hw Ht He Hs]; [constructor|].
  change (32 :: w ++ t' ++ rest) with ((32 :: w) ++ t' ++ rest). constructor; [by constructor|done..].
Qed.

Lemma stands_print ls : Forall lexeme ls -> stands ls (print ls).
Proof.
  induction 1 as [|t ls Ht Hls IH]; [constructor|]. unfold print. cbn [fmap list_fmap concat]. rewrite <- app_assoc.
  apply (stands_token [] t); [constructor|exact Ht|by apply ends_space|by apply stands_space].
Qed.

Lemma toks_lexemes v : wf v -> Forall lexeme (toks v).
Proof.
  assert (forall t, t ∈ symbols -> lexeme t) as Hsym by apply symbol_lexeme.
  assert (forall l, Forall (Forall lexeme) l -> Forall lexeme (join l)) as Hjoin.
  { intros l Hl. destruct Hl as [|x l Hx Hl]; [constructor|]. cbn. apply Forall_app. split; [done|].
    induction Hl as [|y l Hy _ IH]; [constructor|]. cbn. constructor; [by apply Hsym, (bool_decide_unpack _)|]. apply Forall_app. by split. }
  induction v as [a|l IH|l IH] using json_ind; intros Hv; cbn [toks].
  - constructor; [apply Hv|constructor].
  - cbn in Hv. rewrite Forall_fmap in Hv. constructor; [by apply Hsym, (bool_decide_unpack _)|]. apply Forall_app. split.
    + apply Hjoin, Forall_fmap. eapply Forall_impl; [apply Forall_and; split; [exact IH|exact Hv]|]. intros x [Hx Hw]. exact (Hx Hw).
    + constructor; [by apply Hsym, (bool_decide_unpack _)|constructor].
  - destruct Hv as [Hk Hv]. rewrite Forall_fmap in Hv. constructor; [by apply Hsym, (bool_decide_unpack _)|]. apply Forall_app. split.
    + apply Hjoin, Forall_fmap. eapply Forall_impl; [apply Forall_and; split; [exact IH|apply Forall_and; split; [exact Hk|exact Hv]]|].
      intros x (Hx & Hk' & Hw). cbn. constructor; [right; left; by exists x.1|].
      constructor; [by apply Hsym, (bool_decide_unpack _)|]. exact (Hx Hw).
    + constructor; [by apply Hsym, (bool_decide_unpack _)|constructor].
Qed.

Lemma print_value_at v : wf v ->
  value_at (print (toks v)) (sol_json_scanner_init 0 (blen (print (toks v)))) v [].
Proof.
  intros Hv. destruct (toks_cons v Hv) as (t & ls & Ht & Hl & _). exists t, ls. split; [done|].
  pose proof (toks_lexemes v Hv) as Hlex. rewrite Ht, app_nil_r in *. apply Forall_cons in Hlex as [_ Hlex].
  exists (32 :: print ls). split_and!; [|done|by apply ends_space|by apply stands_space, stands_print].
  change (print (t :: ls)) with ((t ++ [32]) ++ print ls). rewrite <- app_assoc.
  split; [exists [], []; by rewrite app_nil_r|reflexivity].
Qed.

(** { "b'c" : [ 1 , { "x" : true } ] , "d" : null } *)
Definition a_tree : json :=
  Obj [(text_of "b'c", Arr [Atom (text_of "1"); Obj [(text_of "x", Atom (text_of "true"))]]); (text_of "d", Atom (text_of "null"))].

Definition a_path : list step := [Bracket (text_of "b'c"); Index [1]; Dot (text_of "x")].

Lemma a_tree_wf : wf a_tree.
Proof.
  assert (scalar (text_of "true")) by (split; [by apply symbol_lexeme, (bool_decide_unpack _)|done]).
  assert (scalar (text_of "null")) by (split; [by apply symbol_lexeme, (bool_decide_unpack _)|done]).
  assert (scalar (text_of "1")) by (split; [right; right; by exists 49, []|done]).
  repeat first [assumption | split | constructor].
Qed.

Lemma a_path_ok : Forall step_ok a_path.
Proof.
  repeat first [apply Forall_cons; split | apply Forall_nil_2]; cbn; [done| |].
  - split; [right; exists 1, []; split_and!; [done|lia|lia|constructor]|done].
  - split_and!; [done|by apply (bool_decide_unpack _)|by apply (bool_decide_unpack _)].
Qed.


Definition lookup (doc path : String.string) : outcome (Z * sol_json_scanner * sol_json_token) :=
  sol_json_get_value_by_path (H := gcc5) (H0 := roomy) (text_of doc) (sol_json_scanner_init 0 (blen (text_of doc)))
    (text_of path) no_token.

(** The byte behind an opening bracket is read although the path ends there. *)
Lemma path_is_read_beyond_its_end : lookup "[1]" "$[" = UB.
Proof. by vm_compute. Qed.

(** A path into an atom: the documentation says -EINVAL. *)
Lemma atom_document_is_enoent : exists s tk, lookup "123" "$.a" = Ret (- ENOENT, s, tk).
Proof. do 2 eexists. by vm_compute. Qed.

(** An element of an array that is an array is answered with its bracket. *)
Lemma element_is_its_bracket : exists s, lookup "[[1]]" "$[0]" = Ret (0, s, token_at 1 2).
Proof. eexists. by vm_compute. Qed.

(** The value of the path $ is one byte long, whatever the document is. *)
Lemma root_is_one_byte : exists s, lookup "123" "$" = Ret (0, s, token_at 0 1).
Proof. eexists. by vm_compute. Qed.

(** Commas need not be there: the elements of [1 2] are 1 and 2, and the
    first of [,1] is 1.  A comma at the end makes the closing bracket an
    element. *)
Lemma separators_are_optional :
  (exists s, lookup "[1 2]" "$[1]" = Ret (0, s, token_at 3 4))
  /\ (exists s, lookup "[,1]" "$[0]" = Ret (0, s, token_at 2 3))
  /\ (exists s, lookup "[1,]" "$[1]" = Ret (0, s, token_at 3 4)).
Proof. split_and!; eexists; by vm_compute. Qed.
End JsonPathProofs.
