(* ===== verification/JsonString.v ===== *)
(** * Strings and numbers written as JSON and read back

    Models the serializers of src/src/lib/parsers/sol-json.c, which append to
    a buffer, and the reading of string tokens.  A C string is the list of
    its bytes up to the NUL.  Doubles and memory descriptions are left out. *)

From S2P Require Import Prelude Arith Codec Buffer Arena JsonScanner JsonPath.
Import Base16 Utf8 Buffer JsonScanner JsonPath.

#[local] Open Scope Z_scope.

Module JsonString.

(** ** Writing *)

(** Backslash, quote, slash, and the controls b, f, n, r and t. *)
Definition sol_json_escapable_chars : list Z := [92; 34; 47; 8; 12; 10; 13; 9].

Definition needs_escape (c : Z) : bool := bool_decide (c ∈ sol_json_escapable_chars).

Definition sol_json_calculate_escaped_string_len (str : list Z) : Z :=
  let count len c := wrapu 64 ((if needs_escape c then wrapu 64 (len + 1) else len) + 1) in
  wrapu 64 (foldl count 0 str + 1).

(** What stands behind the backslash, if anything does. *)
Definition escape_switch (c : Z) : option Z :=
  if c =? 34 then Some 34 else if c =? 92 then Some 92 else if c =? 47 then Some 47
  else if c =? 8 then Some 98 else if c =? 12 then Some 102 else if c =? 10 then Some 110
  else if c =? 13 then Some 114 else if c =? 9 then Some 116 else None.

(** The loop over the string, and the place behind what it stored. *)
Fixpoint escape_loop (escaped_len : Z) (str : list Z) (i : Z) (st : block * Z) : outcome (block * Z) :=
  match str with
  | [] => Ret st
  | c :: str =>
      if negb (i <? escaped_len) then Ret st
      else
        st ← (if needs_escape c then
                st ← put st 92;
                match escape_switch c with Some e => put st e | None => Ret st end
              else put st c);
        escape_loop escaped_len str (i + 1) st
  end.

Section Write.
Context `{BuildConfig} `{Allocator}.

(** The offset of the escaped string, or NULL. *)
Definition sol_json_escape_string (str : list Z) (b : sol_buffer) : outcome (option Z * sol_buffer) :=
  let escaped_len := sol_json_calculate_escaped_string_len str in
  '(r, b) ← sol_buffer_expand b escaped_len;
  if r <? 0 then Ret (None, b)
  else
    match data b with
    | None => UB
    | Some m =>
        let r_str := sol_buffer_at_end b in
        st ← escape_loop escaped_len str 0 (m, r_str);
        '(m, _) ← put st 0;
        Ret (Some r_str, set_used (set_data b (Some m)) (wrapu 64 (used b + wrapu 64 (escaped_len - 1))))
    end.

Definition sol_json_serialize_string (b : sol_buffer) (str : list Z) : outcome (Z * sol_buffer) :=
  '(r, b) ← sol_buffer_append_char b 34;
  if r <? 0 then Ret (r, b)
  else
    '(p, b) ← sol_json_escape_string str b;
    match p with
    | None => Ret (- EINVAL, b)
    | Some _ =>
        '(r, b) ← sol_buffer_append_char b 34;
        Ret (if r <? 0 then r else 0, b)
    end.

(** The text printf gives an integer of up to 64 bits. *)
Fixpoint digits_of (fuel : nat) (n : Z) : list Z :=
  match fuel with
  | O => []
  | S fuel => (if n <? 10 then [] else digits_of fuel (n / 10)) ++ [48 + n mod 10]
  end.

Definition format_uint (n : Z) : list Z := digits_of 20 n.
Definition format_int (n : Z) : list Z := if n <? 0 then 45 :: digits_of 20 (- n) else digits_of 20 n.

Definition serialize_text (b : sol_buffer) (text : list Z) : outcome (Z * sol_buffer) :=
  '(r, b) ← sol_buffer_append_vprintf b (inr text); Ret (if r <? 0 then r else 0, b).

Definition sol_json_serialize_int32 (b : sol_buffer) (val : Z) := serialize_text b (format_int val).
Definition sol_json_serialize_uint32 (b : sol_buffer) (val : Z) := serialize_text b (format_uint val).
Definition sol_json_serialize_int64 (b : sol_buffer) (val : Z) := serialize_text b (format_int val).
Definition sol_json_serialize_uint64 (b : sol_buffer) (val : Z) := serialize_text b (format_uint val).

Definition sol_json_serialize_bool (b : sol_buffer) (val : bool) : outcome (Z * sol_buffer) :=
  '(r, b) ← sol_buffer_append_slice b (if val then symbol_true else symbol_false);
  Ret (if r <? 0 then r else 0, b).

Definition sol_json_serialize_null (b : sol_buffer) : outcome (Z * sol_buffer) := sol_buffer_append_slice b symbol_null.
End Write.

(** ** Reading *)

Definition MAX_BYTES_UNICODE := 3.

(** The character of an escape sequence. *)
Definition unescape_switch (c : Z) : option Z :=
  if c =? 92 then Some 92 else if c =? 47 then Some 47 else if c =? 34 then Some 34
  else if c =? 98 then Some 8 else if c =? 114 then Some 13 else if c =? 110 then Some 10
  else if c =? 102 then Some 12 else if c =? 116 then Some 9 else None.

Section Read.
Context `{BuildConfig} `{Allocator} (doc : block).

(** Two hexadecimal digits at [p]; the byte they go to is not initialised. *)
Definition hex_byte (p : Z) : outcome (Z * Z) :=
  digits ← mem_load doc p 2;
  '(r, m) ← sol_util_base16_decode (fresh 0 1) 0 1 digits SOL_DECODE_BOTH;
  n ← at_index m 0;
  Ret (r, n).

(** The four digits behind the [u] at [p]: an error, or what was appended. *)
Definition unescape_unicode (p : Z) (b : sol_buffer) : outcome ((Z + unit) * sol_buffer) :=
  '(r, n1) ← hex_byte (p + 1);
  if negb (r =? 1) then Ret (inl r, b)
  else
    '(r, n2) ← hex_byte (p + 3);
    if negb (r =? 1) then Ret (inl r, b)
    else if SIZE_MAX - MAX_BYTES_UNICODE <? used b then Ret (inl (- EOVERFLOW), b)
    else
      '(r, b) ← sol_buffer_ensure b (used b + MAX_BYTES_UNICODE);
      if r <? 0 then Ret (inl r, b)
      else
        match data b with
        | None => Ret (inl (- EINVAL), b)
        | Some m =>
            '(unicode_len, m) ← sol_util_utf8_from_unicode_code m (sol_buffer_at_end b) MAX_BYTES_UNICODE
              (Z.lor (Z.shiftl n1 8) n2);
            let b := set_data b (Some m) in
            if unicode_len <? 0 then Ret (inl unicode_len, b)
            else Ret (inr tt, set_used b (used b + unicode_len))
        end.

(** The loop over the characters of the string, whose last quote is at [e]:
    an error, or the start of what is still to be copied, where the loop
    stopped and whether it stopped behind a backslash. *)
Fixpoint unescape_string_loop (e : Z) (fuel : nat) (start p : Z) (is_escaped : bool) (b : sol_buffer)
    : outcome ((Z + Z * Z * bool) * sol_buffer) :=
  match fuel with
  | O => UB
  | S fuel =>
      if negb (p <? e) then Ret (inr (start, p, is_escaped), b)
      else
        c ← at_index doc p;
        if negb is_escaped && (c =? 92) then
          slice ← mem_load doc start (p - start);
          '(r, b) ← sol_buffer_append_slice b slice;
          if r <? 0 then Ret (inl r, b) else unescape_string_loop e fuel start (p + 1) true b
        else if is_escaped then
          let start := p + 1 in
          match unescape_switch c with
          | Some new_char =>
              '(r, b) ← sol_buffer_append_char b new_char;
              if r <? 0 then Ret (inl r, b) else unescape_string_loop e fuel start (p + 1) false b
          | None =>
              if (c =? 117) && (p + 4 <? e) then
                '(r, b) ← unescape_unicode p b;
                match r with
                | inl r => Ret (inl r, b)
                | inr _ => unescape_string_loop e fuel (start + 4) (p + 4 + 1) false b
                end
              else Ret (inl (- EINVAL), b)
          end
        else unescape_string_loop e fuel start (p + 1) false b
  end.

(** The error, and the buffer: finished on an error, and not even initialised
    ([None]) when an end of the token is NULL. *)
Definition sol_json_token_get_unescaped_string (t : sol_json_token) : outcome (Z * option sol_buffer) :=
  match tk_start t, tk_end t with
  | Some first, Some e =>
      let b := sol_buffer_init_flags None 0 SOL_BUFFER_FLAGS_NO_NUL_BYTE in
      let failed (r : Z) (b : sol_buffer) := Ret (r, Some (sol_buffer_fini b).1) in
      c ← at_index doc first;
      q ← (if negb (c =? 34) then Ret false else c ← at_index doc (e - 1); Ret (c =? 34));
      if negb q then failed (- EINVAL) b
      else
        '(res, b) ← unescape_string_loop (e - 1) (S (Z.to_nat (e - first))) (first + 1) (first + 1) false b;
        match res with
        | inl r => failed r b
        | inr (start, p, is_escaped) =>
            if is_escaped : bool then failed (- EINVAL) b
            else
              slice ← mem_load doc start (p - start);
              if start =? first + 1 then Ret (0, Some (view_of slice))
              else
                '(r, b) ← sol_buffer_append_slice b slice;
                if r <? 0 then failed r b else Ret (0, Some b)
        end
  | _, _ => Ret (- EINVAL, None)
  end.

(** The copy, or NULL; after an error the buffer is finished once more. *)
Definition sol_json_token_get_unescaped_string_copy (t : sol_json_token) : outcome (option block) :=
  '(r, b) ← sol_json_token_get_unescaped_string t;
  match b with
  | None => UB
  | Some b =>
      if r <? 0 then Ret None
      else if has b SOL_BUFFER_FLAGS_NO_FREE then
        match data b with
        | None => UB
        | Some m => copy ← Arena.strndup_bytes m (used b); Ret (if alloc_ok (blen copy) then Some copy else None)
        end
      else
        '(r, b) ← sol_buffer_ensure_nul_byte (set_flags b SOL_BUFFER_FLAGS_DEFAULT);
        Ret (if r <? 0 then None else (sol_buffer_steal b).1.1)
  end.
End Read.
End JsonString.
