(* ===== verification/JsonStringProofs.v ===== *)
(** * Strings and numbers of JSON: theorems

    What the serializers append, what string and number tokens are read as,
    and that reading gives back what was written. *)

From Stdlib Require Import String.
From S2P Require Import Prelude Arith Str Codec Buffer Arena JsonScanner JsonScannerProofs JsonPath JsonPathProofs JsonString.
Import Arith.Overflow CString Base16 Utf8 Buffer JsonScanner JsonScannerProofs JsonPath JsonString.

#[local] Open Scope Z_scope.

Module JsonStringProofs.

(** ** Escaping *)

Fixpoint escaped (str : list Z) : list Z :=
  match str with
  | [] => []
  | c :: str => (match escape_switch c with Some e => [92; e] | None => [c] end) ++ escaped str
  end.

Lemma needs_escape_switch c : needs_escape c = match escape_switch c with Some _ => true | None => false end.
Proof.
  unfold needs_escape, sol_json_escapable_chars, escape_switch.
  repeat match goal with |- context [c =? ?k] => destruct (Z.eqb_spec c k) as [->|]; [done|] end.
  apply bool_decide_eq_false. rewrite !not_elem_of_cons. split_and!; by try apply not_elem_of_nil.
Qed.

Lemma escaped_length str : blen str <= blen (escaped str).
Proof. induction str as [|c str IH]; [done|]. cbn [escaped]. destruct (escape_switch c); autorewrite with blen; lia. Qed.

Lemma escaped_len_spec str : blen (escaped str) < SIZE_MAX ->
  sol_json_calculate_escaped_string_len str = blen (escaped str) + 1.
Proof.
  intros Hmax. unfold sol_json_calculate_escaped_string_len.
  assert (forall l n, 0 <= n -> n + blen (escaped l) <= SIZE_MAX ->
    foldl (fun len c => wrapu 64 ((if needs_escape c then wrapu 64 (len + 1) else len) + 1)) n l = n + blen (escaped l)) as Hfold.
  { clear. induction l as [|c l IH]; intros n H0 Hn; [cbn; rewrite blen_nil; lia|]. cbn [foldl escaped] in *.
    rewrite needs_escape_switch. pose proof (blen_nonneg (escaped l)).
    destruct (escape_switch c); autorewrite with blen in *; rewrite ?(wrapu_small 64 (n + 1)) by zlia;
      rewrite ?wrapu_small by zlia; rewrite IH; lia. }
  rewrite Hfold by zlia. pose proof (blen_nonneg (escaped str)). by rewrite wrapu_small by zlia.
Qed.

Lemma escape_loop_puts n str : forall i st, i + blen str <= n -> escape_loop n str i st = puts st (escaped str).
Proof.
  induction str as [|c str IH]; intros i st Hn; [done|]. cbn [escape_loop escaped]. autorewrite with blen in Hn. pose proof (blen_nonneg str).
  rewrite (proj2 (Z.ltb_lt _ _)) by lia. cbn [negb]. rewrite needs_escape_switch, puts_app.
  destruct (escape_switch c) as [e|]; cbn [puts].
  - destruct (put st 92) as [st1|]; [|done]. rewrite !bind_ret. destruct (put st1 e) as [st2|]; [|done]. rewrite !bind_ret. apply IH. lia.
  - destruct (put st c) as [st1|]; [|done]. rewrite !bind_ret. apply IH. lia.
Qed.

Section Writing.
Context `{BuildConfig} `{Allocator}.

Lemma escape_string_spec b l str :
  rep b l -> blen (escaped str) < SSIZE_MAX ->
  exists o b', sol_json_escape_string str b = Ret (o, b') /\ flags b' = flags b
    /\ (o = Some (blen l) /\ rep b' (l ++ escaped str) \/ o = None /\ rep b' l).
Proof.
  intros Hrep Hmax. unfold sol_json_escape_string. rewrite escaped_len_spec by zlia.
  pose proof (blen_nonneg (escaped str)) as H0'. pose proof (blen_nonneg l).
  destruct (expand_spec b l (blen (escaped str) + 1) Hrep ltac:(zlia)) as (r & b1 & -> & Hfl & Hrep1 & Hcase & _). rewrite bind_ret.
  pose proof (nul_byte_size_cases b) as Hnul. pose proof (rep_used _ _ Hrep) as Hu0.
  destruct Hcase as [[-> Hroom]|[Hneg _]].
  2: { rewrite (proj2 (Z.ltb_lt r 0)) by done. exists None, b1. auto. }
  rewrite (proj2 (Z.ltb_ge 0 0)) by lia. pose proof Hrep1 as [Hu Hf Hc [rest Hs]].
  destruct (data b1) as [m|] eqn:Hd; [|unfold storage in Hf; rewrite Hd in Hf; cbn in Hf; unfold id in Hf; rewrite blen_nil in Hf; lia].
  assert (storage b1 = m) as Hm by (unfold storage; by rewrite Hd). rewrite Hm in *. subst m.
  unfold sol_buffer_at_end. rewrite escape_loop_puts by (pose proof (escaped_length str); lia).
  set (n := (length (escaped str) + 1)%nat).
  assert (l ++ rest = l ++ take n rest ++ drop n rest) as -> by by rewrite take_drop. rewrite blen_app in Hf.
  assert (blen (escaped str ++ [0]) = blen (take n rest)) as Hn.
  { rewrite blen_app. unfold blen in *. rewrite length_take. cbn. lia. }
  pose proof (puts_spec l (take n rest) (drop n rest) (escaped str ++ [0]) Hn) as Hputs. rewrite puts_app in Hputs. rewrite <- Hu in Hputs.
  apply bind_Ret_inv in Hputs as (st & -> & Hput). rewrite bind_ret. rewrite puts_one in Hput. rewrite Hput, bind_ret.
  eexists _, _. split; [done|]. autorewrite with buf. split; [done|]. left. rewrite Hu. split; [done|].
  rewrite (wrapu_small 64 (_ - 1)) by zlia. rewrite wrapu_small by zlia.
  apply (rep_intro _ _ ([0] ++ drop n rest)); autorewrite with buf.
  - by rewrite <- !app_assoc.
  - autorewrite with blen. lia.
  - autorewrite with blen in *. unfold blen in *. lia.
  - lia.
Qed.
End Writing.

Definition string_text (str : list Z) : list Z := 34 :: escaped str ++ [34].

Section Serializing.
Context `{BuildConfig} `{Allocator}.

(** On an error a part of the text may have been appended. *)
Lemma serialize_string_spec b l str :
  rep b l -> blen (escaped str) < SSIZE_MAX ->
  exists r b' t, sol_json_serialize_string b str = Ret (r, b') /\ flags b' = flags b /\ rep b' (l ++ t)
    /\ (r = 0 /\ t = string_text str \/ r < 0 /\ t `prefix_of` string_text str).
Proof.
  intros Hrep Hmax. unfold sol_json_serialize_string, string_text.
  destruct (append_char_spec b l 34 Hrep) as (r & b1 & -> & [Hfl1 Hw] & _). rewrite bind_ret.
  destruct Hw as [(-> & Hrep1 & _)|[Hneg Hrep1]].
  2: { rewrite (proj2 (Z.ltb_lt r 0)) by done. exists r, b1, []. rewrite app_nil_r. split_and!; [done..|]. right. split; [done|apply prefix_nil]. }
  rewrite (proj2 (Z.ltb_ge 0 0)) by lia.
  destruct (escape_string_spec b1 _ str Hrep1 Hmax) as (o & b2 & -> & Hfl2 & Hcase). rewrite bind_ret.
  destruct Hcase as [[-> Hrep2]|[-> Hrep2]].
  2: { exists (- EINVAL), b2, [34]. split_and!; [done|congruence|done|]. right. split; [done|]. by eexists. }
  destruct (append_char_spec b2 _ 34 Hrep2) as (r & b3 & -> & [Hfl3 Hw] & _). rewrite bind_ret.
  destruct Hw as [(-> & Hrep3 & _)|[Hneg Hrep3]].
  - eexists _, b3, (34 :: escaped str ++ [34]). split_and!; [done|congruence| |by left]. by rewrite <- !app_assoc in Hrep3.
  - rewrite (proj2 (Z.ltb_lt r 0)) by done. exists r, b3, (34 :: escaped str). split_and!; [done|congruence| |].
    + by rewrite <- app_assoc in Hrep3.
    + right. split; [done|]. by exists [34].
Qed.
End Serializing.

(** ** Reading strings *)

(** The string a body with escapes stands for, if there is one. *)
Fixpoint unescape (l : list Z) : option (list Z) :=
  match l with
  | [] => Some []
  | c :: l =>
      if c =? 92 then
        match l with
        | [] => None
        | c :: l =>
            match unescape_switch c with
            | Some x => cons x <$> unescape l
            | None =>
                if c =? 117 then
                  match l with
                  | a :: b :: c :: d :: l =>
                      match unhex SOL_DECODE_BOTH [a; b], unhex SOL_DECODE_BOTH [c; d] with
                      | Some [n1], Some [n2] => app (utf8 (256 * n1 + n2)) <$> unescape l
                      | _, _ => None
                      end
                  | _ => None
                  end
                else None
            end
        end
      else cons c <$> unescape l
  end.

Lemma unescape_escaped str : unescape (escaped str) = Some str.
Proof.
  induction str as [|c str IH]; [done|]. cbn [escaped]. destruct (escape_switch c) as [e|] eqn:He; cbn [app unescape].
  - change (92 =? 92) with true. cbv iota. assert (unescape_switch e = Some c) as ->; [|by rewrite IH].
    revert He. unfold escape_switch. repeat match goal with |- context [c =? ?k] => destruct (Z.eqb_spec c k) as [->|]; [by intros [= <-]|] end. done.
  - destruct (Z.eqb_spec c 92) as [->|]; [done|]. by rewrite IH.
Qed.

Lemma unhex_byte dc a b :
  match unhex dc [a; b] with Some l => exists n, l = [n] /\ 0 <= n < 256 | None => True end.
Proof.
  assert (forall c, match hex_value dc c with Some h => 0 <= h < 16 | None => True end) as Hv.
  { intros c. unfold hex_value. destruct dc; cbn [admits_lower admits_upper andb];
      repeat match goal with |- context [(?x <=? c) && (c <=? ?y)] =>
        destruct (Z.leb_spec x c), (Z.leb_spec c y); cbn [andb]; try lia; try done end. }
  cbn [unhex]. pose proof (Hv a) as Ha. pose proof (Hv b) as Hb. destruct (hex_value dc a) as [h|]; [|done]. destruct (hex_value dc b) as [k|]; [|done].
  cbn. exists (16 * h + k). split; [done|]. lia.
Qed.

Section Reading.
Context `{BuildConfig} `{Allocator} (doc : block).

Lemma hex_byte_spec p a b l : view doc p (a :: b :: l) ->
  match unhex SOL_DECODE_BOTH [a; b] with
  | Some bs => exists n, bs = [n] /\ 0 <= n < 256 /\ hex_byte doc p = Ret (1, n)
  | None => exists n, hex_byte doc p = Ret (- EINVAL, n)
  end.
Proof.
  intros Hv. unfold hex_byte. change (a :: b :: l) with ([a; b] ++ l) in Hv. apply view_prefix in Hv.
  rewrite (view_load doc p [a; b] Hv : mem_load doc p 2 = _), bind_ret.
  destruct (base16_decode_spec SOL_DECODE_BOTH [a; b] [] (fresh 0 1) []) as (bs & Hrun & Hlen & Hbs); [done|vm_compute; discriminate|].
  rewrite app_nil_r in Hrun. change (blen (fresh 0 1)) with 1 in Hrun. change (blen []) with 0 in Hrun. cbn [app] in Hrun. rewrite Hrun, bind_ret.
  pose proof (unhex_byte SOL_DECODE_BOTH a b) as Hn. destruct (unhex SOL_DECODE_BOTH [a; b]) as [bs'|].
  - destruct Hn as (n & -> & Hn). destruct (Hbs _ eq_refl) as [<- _]. exists n. split_and!; [done|lia|lia|done].
  - change (blen (fresh 0 1)) with 1 in Hlen. rewrite app_nil_r. destruct bs as [|x [|y bs]]; [eexists; done|eexists; done|].
    autorewrite with blen in Hlen. pose proof (blen_nonneg bs). lia.
Qed.

Lemma code_of_bytes n1 n2 : 0 <= n1 < 256 -> 0 <= n2 < 256 -> Z.lor (Z.shiftl n1 8) n2 = 256 * n1 + n2.
Proof.
  intros H1 H2. apply Z.eqb_eq.
  apply (range_forall2 256 256 (fun n1 n2 => Z.lor (Z.shiftl n1 8) n2 =? 256 * n1 + n2)); [vm_compute; reflexivity|done..].
Qed.

Lemma short_utf8 c : 0 <= c < 65536 -> blen (utf8 c) <= 3.
Proof. intros Hc. unfold utf8. breflect; try lia; done. Qed.

Lemma unescape_unicode_spec p x a b c d l buf acc :
  view doc p (x :: a :: b :: c :: d :: l) -> rep buf acc -> own_bytes buf -> blen acc + 3 <= 2 ^ 62 ->
  exists res buf', unescape_unicode doc p buf = Ret (res, buf') /\ own_bytes buf'
    /\ match unhex SOL_DECODE_BOTH [a; b], unhex SOL_DECODE_BOTH [c; d] with
       | Some [n1], Some [n2] => res = inr tt /\ rep buf' (acc ++ utf8 (256 * n1 + n2)) \/ (exists r, res = inl r /\ r < 0) /\ refused
       | _, _ => exists r, res = inl r /\ r < 0
       end.
Proof.
  intros Hv Hrep Hown Hmax. unfold unescape_unicode. apply view_cons in Hv as [_ Hv].
  pose proof (hex_byte_spec (p + 1) _ _ _ Hv) as H1. apply view_cons in Hv as [_ Hv]. apply view_cons in Hv as [_ Hv].
  replace (p + 1 + 1 + 1) with (p + 3) in Hv by lia. pose proof (hex_byte_spec (p + 3) _ _ _ Hv) as H2.
  destruct (unhex SOL_DECODE_BOTH [a; b]) as [bs1|].
  2: { destruct H1 as [n ->]. rewrite bind_ret. cbn [negb]. exists (inl (- EINVAL)), buf. split_and!; [done|done|]. by exists (- EINVAL). }
  destruct H1 as (n1 & -> & Hn1 & ->). rewrite bind_ret. cbn [negb].
  change (1 =? 1) with true. cbn [negb].
  destruct (unhex SOL_DECODE_BOTH [c; d]) as [bs2|].
  2: { destruct H2 as [n ->]. rewrite bind_ret. cbn [negb]. exists (inl (- EINVAL)), buf. split_and!; [done|done|]. by exists (- EINVAL). }
  destruct H2 as (n2 & -> & Hn2 & ->). rewrite bind_ret. change (1 =? 1) with true. cbn [negb].
  pose proof (rep_used _ _ Hrep) as Hu. pose proof (blen_nonneg acc). unfold MAX_BYTES_UNICODE. rewrite (proj2 (Z.ltb_ge _ _)) by zlia.
  destruct (own_ensure buf acc (used buf + 3) Hrep Hown ltac:(lia)) as (r & b1 & -> & Hown1 & Hrep1 & Hcase). rewrite bind_ret.
  destruct Hcase as [[-> Hroom]|[Hneg Href]].
  2: { rewrite (proj2 (Z.ltb_lt r 0)) by done. exists (inl r), b1. split_and!; [done|done|]. right. split; [by exists r|done]. }
  rewrite (proj2 (Z.ltb_ge 0 0)) by lia. pose proof Hrep1 as [Hu1 Hf Hc [rest Hs]].
  destruct (data b1) as [m|] eqn:Hd; [|unfold storage in Hf; rewrite Hd in Hf; cbn in Hf; unfold id in Hf; rewrite blen_nil in Hf; lia].
  assert (storage b1 = m) as Hm by (unfold storage; by rewrite Hd). rewrite Hm in *. subst m.
  unfold sol_buffer_at_end. rewrite code_of_bytes by done. set (code := 256 * n1 + n2). rewrite blen_app in Hf.
  assert (acc ++ rest = acc ++ take 3 rest ++ drop 3 rest) as -> by by rewrite take_drop.
  assert (blen (take 3 rest) = 3) as H3 by (unfold blen in *; rewrite length_take; lia).
  pose proof (utf8_from_code_spec code acc (take 3 rest) (drop 3 rest) ltac:(subst code; lia)) as Hutf. rewrite H3, <- Hu1 in Hutf. rewrite Hutf.
  pose proof (short_utf8 code ltac:(subst code; lia)) as Hshort. pose proof (blen_utf8 code) as H0'. rewrite (proj2 (Z.ltb_ge 3 _)) by lia. rewrite bind_ret.
  rewrite (proj2 (Z.ltb_ge _ 0)) by lia. eexists _, _. split; [done|]. split; [done|]. left. split; [done|].
  apply (rep_intro _ _ (drop (length (utf8 code)) (take 3 rest) ++ drop 3 rest)); autorewrite with buf.
  - by rewrite <- app_assoc.
  - rewrite blen_app. lia.
  - clear -H3 Hroom Hshort H0' Hf Hu Hu1 Hc. unfold blen in *. rewrite !length_app, !length_drop, length_take. rewrite length_take in H3. lia.
  - lia.
Qed.

(** What the loop leaves when the contents are [acc] and [pend] stands at
    [start], in front of the rest [l] of the body: an error, the place behind
    a backslash at the end, or what is still to be copied. *)
Definition reads (start : Z) (acc pend l : list Z) (res : Z + Z * Z * bool) (b : sol_buffer) : Prop :=
  match unescape l with
  | None => (exists r, res = inl r /\ r < 0) \/ exists q p, res = inr (q, p, true)
  | Some t =>
      (exists q rest acc', res = inr (q, q + blen rest, false) /\ view doc q rest /\ rep b acc' /\ own_bytes b
         /\ acc' ++ rest = acc ++ pend ++ t /\ blen acc' <= q /\ (q = start /\ acc' = acc \/ start < q /\ 92 ∈ l))
      \/ (exists r, res = inl r /\ r < 0) /\ (92 ∈ l) /\ refused
  end.

Lemma reads_refused start acc pend l r b : r < 0 -> 92 ∈ l -> refused -> reads start acc pend l (inl r) b.
Proof. intros Hr Hl Href. unfold reads. destruct (unescape l); [right; split_and!; [by exists r|done|done]|left; by exists r]. Qed.

Lemma reads_invalid start acc pend l r b : unescape l = None -> r < 0 -> reads start acc pend l (inl r) b.
Proof. intros Hl Hr. unfold reads. rewrite Hl. left. by exists r. Qed.

(** Behind an escape for [x]. *)
Lemma reads_escape start acc pend l start' x l' res b :
  unescape l = app x <$> unescape l' -> start < start' -> 92 ∈ l ->
  reads start' ((acc ++ pend) ++ x) [] l' res b -> reads start acc pend l res b.
Proof.
  intros Hl Hs Hin. unfold reads. rewrite Hl. destruct (unescape l') as [t|]; [|done]. cbn.
  intros [(q & rest & acc' & -> & Hv & Hrep & Hown & Heq & Hacc & Hq)|(Herr & _ & Href)].
  - left. exists q, rest, acc'. split_and!; try done.
    + rewrite Heq. by rewrite <- !app_assoc.
    + right. split; [|done]. destruct Hq as [[-> _]|[? _]]; lia.
  - right. by split_and!.
Qed.

(** Behind a plain character. *)
Lemma reads_plain start acc pend c l res b :
  c <> 92 -> reads start acc (pend ++ [c]) l res b -> reads start acc pend (c :: l) res b.
Proof.
  intros Hc. unfold reads. cbn [unescape]. rewrite (proj2 (Z.eqb_neq _ _)) by done. destruct (unescape l) as [t|]; [|done]. cbn.
  intros [(q & rest & acc' & -> & Hv & Hrep & Hown & Heq & Hacc & Hq)|(Herr & Hin & Href)].
  - left. exists q, rest, acc'. split_and!; try done.
    + rewrite Heq. by rewrite <- !app_assoc.
    + destruct Hq as [?|[? ?]]; [by left|right]. split; [done|by right].
  - right. split_and!; [done|by right|done].
Qed.

Lemma view_byte p c l : view doc p (c :: l) -> at_index doc p = Ret c.
Proof. by intros [Hc _]%view_cons. Qed.

Lemma unescape_short l : blen l <= 3 -> unescape (92 :: 117 :: l) = None.
Proof. intros Hl. destruct l as [|a [|b [|c [|d l]]]]; try done. exfalso. autorewrite with blen in Hl. pose proof (blen_nonneg l). lia. Qed.

Lemma unescape_string_loop_spec e n : forall l fuel start p buf acc pend,
  (length l <= n)%nat -> blen doc <= INT_MAX -> view doc start (pend ++ l) -> p = start + blen pend -> e = p + blen l ->
  rep buf acc -> own_bytes buf -> blen acc <= start -> (length l < fuel)%nat ->
  exists res buf', unescape_string_loop doc e fuel start p false buf = Ret (res, buf') /\ reads start acc pend l res buf'.
Proof.
  induction n as [|n IH]; intros l fuel start p buf acc pend Hn Hdoc Hv Hp He Hrep Hown Hacc Hf;
    (destruct fuel as [|fuel]; [lia|]); cbn [unescape_string_loop];
    (destruct l as [|c l]); cbn [length] in Hn, Hf; try lia.
  1,2: autorewrite with blen in He; rewrite (proj2 (Z.ltb_ge _ _)) by lia; cbn [negb]; eexists _, _; (split; [done|]);
    unfold reads; cbn [unescape]; left; exists start, pend, acc; subst p; rewrite app_nil_r in Hv; split_and!; [done|done|done|done|by rewrite app_nil_r|done|by left].
  pose proof (blen_nonneg l). pose proof (view_bounds _ _ _ Hv) as Hb. autorewrite with blen in He, Hb.
  pose proof (blen_nonneg pend). rewrite (proj2 (Z.ltb_lt _ _)) by lia. cbn [negb andb].
  pose proof (view_app doc start pend (c :: l) Hv) as Hvc. rewrite <- Hp in Hvc. rewrite (view_byte _ _ _ Hvc), bind_ret.
  destruct (Z.eqb_spec c 92) as [->|Hc].
  2: { destruct (IH l fuel start (p + 1) buf acc (pend ++ [c])) as (res & buf' & -> & Hres);
         [lia|done|by rewrite <- app_assoc|autorewrite with blen; lia|lia|done..|lia|].
       exists res, buf'. split; [done|by apply reads_plain]. }
  replace (p - start) with (blen pend) by lia. rewrite (view_load doc start pend) by (by eapply view_prefix). rewrite bind_ret.
  destruct (own_append buf acc pend Hrep Hown) as (r & b1 & Happ & Hown1 & Hcase); [zlia|].
  unfold sol_buffer_append_slice. rewrite Happ, bind_ret. clear Happ.
  destruct Hcase as [[-> Hrep1]|[Hneg Href]].
  2: { rewrite (proj2 (Z.ltb_lt r 0)) by done. eexists _, _. split; [done|]. apply reads_refused; [done|by left|done]. }
  rewrite (proj2 (Z.ltb_ge 0 0)) by lia. destruct fuel as [|fuel]; [lia|]. cbn [unescape_string_loop].
  destruct l as [|c l]; cbn [length] in Hn, Hf.
  { rewrite (proj2 (Z.ltb_ge _ _)) by (autorewrite with blen in He; lia). cbn [negb]. eexists _, _. split; [done|]. unfold reads. cbn [unescape]. change (92 =? 92) with true. cbv iota. right. by eexists _, _. }
  autorewrite with blen in He, Hb. pose proof (blen_nonneg l). rewrite (proj2 (Z.ltb_lt _ _)) by lia. cbn [negb andb].
  pose proof (view_cons _ _ _ _ Hvc) as [_ Hvl]. rewrite (view_byte _ _ _ Hvl), bind_ret.
  destruct (unescape_switch c) as [x|] eqn:Hx.
  - destruct (own_append_char b1 _ x Hrep1 Hown1) as (r & b2 & -> & Hown2 & Hcase); [autorewrite with blen; zlia|]. rewrite bind_ret.
    destruct Hcase as [[-> Hrep2]|[Hneg Href]].
    2: { rewrite (proj2 (Z.ltb_lt r 0)) by done. eexists _, _. split; [done|]. apply reads_refused; [done|by left|done]. }
    rewrite (proj2 (Z.ltb_ge 0 0)) by lia. pose proof (view_cons _ _ _ _ Hvl) as [_ Hvl2].
    destruct (IH l fuel (p + 1 + 1) (p + 1 + 1) b2 ((acc ++ pend) ++ [x]) []) as (res & buf' & -> & Hres);
      [lia|done|exact Hvl2|rewrite blen_nil; lia|lia|done..|autorewrite with blen; lia|lia|].
    exists res, buf'. split; [done|]. eapply reads_escape; [|shelve|by left|exact Hres]. 
    cbn [unescape]. change (92 =? 92) with true. cbv iota. by rewrite Hx. Unshelve. lia.
  - destruct (Z.eqb_spec c 117) as [->|Hc]; cbn [andb].
    2: { eexists _, _. split; [done|]. apply reads_invalid; [|done]. cbn [unescape]. change (92 =? 92) with true. cbv iota. rewrite Hx.
         by rewrite (proj2 (Z.eqb_neq _ _)). }
    destruct (Z.ltb_spec (p + 1 + 4) e) as [Hlong|Hshort].
    2: { eexists _, _. split; [done|]. apply reads_invalid; [|done]. apply unescape_short. lia. }
    destruct l as [|a [|b [|c [|d l]]]]; try (autorewrite with blen in He; exfalso; lia).
    autorewrite with blen in *. cbn [length] in Hn, Hf.
    destruct (unescape_unicode_spec (p + 1) 117 a b c d l b1 _ Hvl Hrep1 Hown1) as (res & b2 & -> & Hown2 & Hcase); [autorewrite with blen; zlia|].
    rewrite bind_ret.
    assert (unescape (92 :: 117 :: a :: b :: c :: d :: l) = match unhex SOL_DECODE_BOTH [a; b], unhex SOL_DECODE_BOTH [c; d] with
      | Some [n1], Some [n2] => app (utf8 (256 * n1 + n2)) <$> unescape l | _, _ => None end) as Hun by done.
    pose proof (unhex_byte SOL_DECODE_BOTH a b) as Hn1. pose proof (unhex_byte SOL_DECODE_BOTH c d) as Hn2.
    destruct (unhex SOL_DECODE_BOTH [a; b]) as [bs1|].
    2: { destruct Hcase as (r & -> & Hr). eexists _, _. split; [done|]. by apply reads_invalid. }
    destruct Hn1 as (n1 & -> & Hn1). destruct (unhex SOL_DECODE_BOTH [c; d]) as [bs2|].
    2: { destruct Hcase as (r & -> & Hr). eexists _, _. split; [done|]. by apply reads_invalid. }
    destruct Hn2 as (n2 & -> & Hn2). destruct Hcase as [[-> Hrep2]|[(r & -> & Hr) Href]].
    2: { eexists _, _. split; [done|]. apply reads_refused; [done|by left|done]. }
    assert (view doc (p + 1 + 1 + 4) l) as Hvl2.
    { change (117 :: a :: b :: c :: d :: l) with ([117; a; b; c; d] ++ l) in Hvl. apply view_app in Hvl.
      change (blen [117; a; b; c; d]) with 5 in Hvl. by replace (p + 1 + 1 + 4) with (p + 1 + 5) by lia. }
    pose proof (short_utf8 (256 * n1 + n2) ltac:(lia)) as Hshort.
    replace (p + 1 + 4 + 1) with (p + 1 + 1 + 4) by lia.
    destruct (IH l fuel (p + 1 + 1 + 4) (p + 1 + 1 + 4) b2 ((acc ++ pend) ++ utf8 (256 * n1 + n2)) []) as (res & buf' & -> & Hres);
      [lia|done|exact Hvl2|rewrite blen_nil; lia|lia|done..|autorewrite with blen; lia|lia|].
    exists res, buf'. split; [done|]. eapply reads_escape; [exact Hun|shelve|by left|exact Hres]. Unshelve. lia.
Qed.
End Reading.

Section Strings.
Context `{BuildConfig} `{Allocator}.

(** A string token is read as the reference says, whatever is in it. *)
Lemma get_unescaped_spec doc p body :
  blen doc <= INT_MAX -> view doc p (34 :: body ++ [34]) ->
  exists r b, sol_json_token_get_unescaped_string doc (token_at p (p + blen (34 :: body ++ [34]))) = Ret (r, Some b)
    /\ match unescape body with
       | Some t => r = 0 /\ rep b t /\ blen t <= blen doc /\ (b = view_of t \/ own_bytes b) \/ r < 0 /\ (92 ∈ body) /\ refused
       | None => r < 0
       end.
Proof.
  intros Hdoc Hv. unfold sol_json_token_get_unescaped_string. cbn [tk_start tk_end token_at].
  pose proof (view_bounds _ _ _ Hv) as Hb. autorewrite with blen in *. pose proof (blen_nonneg body).
  rewrite (view_byte doc _ _ _ Hv), bind_ret. change (34 =? 34) with true. cbn [negb].
  pose proof (JsonPathProofs.byte_after doc p (34 :: body) 34 [] Hv) as Hq. rewrite blen_cons in Hq.
  replace (p + (1 + (blen body + (1 + 0))) - 1) with (p + (1 + blen body)) by lia. rewrite Hq, !bind_ret. change (34 =? 34) with true. cbn [negb].
  apply view_cons in Hv as [_ Hv]. apply view_prefix in Hv.
  destruct (unescape_string_loop_spec doc (p + (1 + blen body)) (length body) body
      (S (Z.to_nat (p + (1 + (blen body + (1 + 0))) - p))) (p + 1) (p + 1)
      (sol_buffer_init_flags None 0 SOL_BUFFER_FLAGS_NO_NUL_BYTE) [] []) as (res & b & -> & Hres);
    [lia|done|done|rewrite blen_nil; lia|lia|apply JsonPathProofs.rep_empty_key|done|rewrite blen_nil; lia|unfold blen; lia|].
  rewrite bind_ret. unfold reads in Hres. destruct (unescape body) as [t|].
  - destruct Hres as [(q & rest & acc' & -> & Hvq & Hrep & Hown & Heq & Hacc & Hq')|[(r & -> & Hr) Hin]].
    2: { eexists _, _. split; [done|]. by right. }
    replace (q + blen rest - q) with (blen rest) by lia. rewrite (view_load doc q rest Hvq), bind_ret. cbn [app] in Heq.
    pose proof (view_bounds _ _ _ Hvq) as Hbq.
    assert (blen t <= blen doc) as Hlen by (rewrite <- Heq, blen_app; lia).
    destruct Hq' as [[-> ->]|[Hlt Hin]].
    + rewrite Z.eqb_refl. cbn [app] in Heq. subst t. eexists _, _. split; [done|]. left. split_and!; [done|apply JsonPathProofs.rep_view; unfold_limits; lia|done|by left].
    + rewrite (proj2 (Z.eqb_neq _ _)) by lia.
      destruct (own_append b acc' rest Hrep Hown) as (r & b2 & Happ & Hown2 & Hcase); [zlia|].
      unfold sol_buffer_append_slice. rewrite Happ, bind_ret. rewrite Heq in Hcase. destruct Hcase as [[-> Hrep2]|[Hr Href]].
      * eexists _, _. split; [done|]. left. split_and!; [done|done|done|by right].
      * rewrite (proj2 (Z.ltb_lt r 0)) by done. eexists _, _. split; [done|]. right. by split_and!.
  - destruct Hres as [(r & -> & Hr)|(q & p' & ->)].
    + by eexists _, _.
    + eexists _, _. split; [done|]. zlia.
Qed.

(** The buffer as a C string, in the block that is given away. *)
Lemma own_terminate b l :
  rep b l -> own_bytes b -> blen l + 1 <= 2 ^ 62 ->
  exists r b', sol_buffer_ensure_nul_byte (set_flags b SOL_BUFFER_FLAGS_DEFAULT) = Ret (r, b')
    /\ flags b' = SOL_BUFFER_FLAGS_DEFAULT /\ rep b' l /\ (r = 0 /\ terminated b' \/ r < 0 /\ refused).
Proof.
  intros Hrep Hown Hlen. set (b0 := set_flags b SOL_BUFFER_FLAGS_DEFAULT).
  assert (rep b0 l) as Hrep0 by (destruct Hrep; by split). pose proof (rep_used _ _ Hrep0) as Hu. pose proof (blen_nonneg l).
  destruct (ensure_nul_byte_spec b0 l Hrep0 eq_refl) as (r & b' & Hrun & Hfl & Hrep' & Hcase & _).
  exists r, b'. split_and!; [done|done|done|]. destruct Hcase as [?|[Hr _]]; [by left|]. right. split; [done|].
  unfold sol_buffer_ensure_nul_byte in Hrun. change (has b0 SOL_BUFFER_FLAGS_NO_NUL_BYTE) with false in Hrun. cbv iota in Hrun.
  apply bind_Ret_inv in Hrun as ([] & _ & Hrun); [injection Hrun as <- _; lia|]. rewrite Z.geb_leb, (proj2 (Z.leb_gt _ _)) in Hrun by zlia.
  destruct (ensure_spec b0 l (used b0) Hrep0 ltac:(lia)) as (e & b1 & Hens & _ & _ & _ & _ & Hok). rewrite Hens, bind_ret in Hrun.
  exists (align_power2_size (used b0 + 1)). split; [apply aligned_size_fits; lia|].
  destruct (alloc_ok (align_power2_size (used b0 + 1))) eqn:Ha; [|done].
  rewrite (Hok eq_refl Ha ltac:(change (nul_byte_size b0) with 1; zlia)) in Hrun. change (0 <? 0) with false in Hrun. cbv iota in Hrun.
  apply bind_Ret_inv in Hrun as (b2 & _ & Hrun). injection Hrun as <- _. lia.
Qed.

Lemma cstr_cut l rest : Exists (eq 0) l -> cstr (l ++ rest) = cstr l /\ blen (cstr l) < blen l.
Proof.
  induction 1 as [c l <-|c l _ [IH1 IH2]]; cbn [app cstr].
  - change (0 =? 0) with true. cbv iota. split; [done|]. rewrite blen_nil. pose proof (blen_nonneg l). autorewrite with blen. lia.
  - destruct (c =? 0); [split; [done|]; pose proof (blen_nonneg l); autorewrite with blen; lia|]. rewrite IH1. split; [done|]. autorewrite with blen. lia.
Qed.

Lemma cstr_ends l rest : cstr (l ++ 0 :: rest) = cstr l /\ blen (cstr l) < blen (l ++ 0 :: rest).
Proof.
  induction l as [|c l [IH1 IH2]]; cbn [app cstr].
  - change (0 =? 0) with true. cbv iota. split; [done|]. rewrite blen_nil. pose proof (blen_nonneg rest). autorewrite with blen. lia.
  - destruct (c =? 0); [split; [done|]; pose proof (blen_nonneg (l ++ 0 :: rest)); autorewrite with blen in *; lia|].
    rewrite IH1. split; [done|]. autorewrite with blen in *. lia.
Qed.

Lemma terminated_cstr b l : rep b l -> terminated b -> has b SOL_BUFFER_FLAGS_NO_NUL_BYTE = false ->
  cstr (storage b) = cstr l /\ blen (cstr l) < blen (storage b).
Proof.
  intros [Hu Hf Hc [rest Hs]] Ht Hflag. rewrite Hs. destruct Ht as [Ht|[[Hpos Hz]|[Hlt Hz]]]; [congruence| |]; rewrite Hs, Hu in Hz.
  - rewrite lookup_app_l in Hz by (unfold blen in *; lia).
    destruct (cstr_cut l rest) as [H1 H2]; [apply Exists_exists; exists 0; split; [by eapply list_elem_of_lookup_2|done]|].
    split; [done|]. pose proof (blen_nonneg rest). rewrite blen_app. lia.
  - rewrite lookup_app_r in Hz by (unfold blen; lia). replace (Z.to_nat (blen l) - length l)%nat with 0%nat in Hz by (unfold blen; lia).
    destruct rest as [|x rest]; [done|]. cbn in Hz. injection Hz as ->. apply cstr_ends.
Qed.

Lemma cstr_cstr s : cstr (cstr s) = cstr s.
Proof. induction s as [|c s IH]; [done|]. cbn [cstr]. destruct (c =? 0) eqn:Hc; [done|]. cbn [cstr]. by rewrite Hc, IH. Qed.

(** A copy is the C string of the text; NULL is a refusal. *)
Lemma unescaped_copy_spec doc p body :
  blen doc <= INT_MAX -> view doc p (34 :: body ++ [34]) ->
  exists o, sol_json_token_get_unescaped_string_copy doc (token_at p (p + blen (34 :: body ++ [34]))) = Ret o
    /\ match unescape body with
       | Some t => (exists m, o = Some m /\ cstr m = cstr t /\ blen (cstr m) < blen m) \/ o = None /\ refused
       | None => o = None
       end.
Proof.
  intros Hdoc Hv. destruct (get_unescaped_spec doc p body Hdoc Hv) as (r & b & Hrun & Hres).
  unfold sol_json_token_get_unescaped_string_copy. rewrite Hrun, bind_ret.
  destruct (unescape body) as [t|]; [|rewrite (proj2 (Z.ltb_lt r 0)) by done; by exists None].
  destruct Hres as [(-> & Hrep & Hdoct & Hown)|(Hr & _ & Href)]; [|rewrite (proj2 (Z.ltb_lt r 0)) by done; exists None; by auto].
  change (0 <? 0) with false. cbv iota. destruct Hown as [->|Hown].
  - change (has (view_of t) SOL_BUFFER_FLAGS_NO_FREE) with true. cbn [data view_of used set_used sol_buffer_init_flags].
    unfold Arena.strndup_bytes. rewrite bool_decide_true by (left; lia). rewrite bind_ret, take_ge by (unfold blen; lia).
    eexists. split; [done|]. pose proof (cstr_ends (cstr t) []) as [Hc1 Hc2]. rewrite cstr_cstr in Hc1, Hc2.
    destruct (alloc_ok _) eqn:Ha; [left; eexists; by rewrite Hc1|right]. split; [done|].
    exists (blen (cstr t ++ [0])). split; [|done]. pose proof (length_cstr t). pose proof (blen_nonneg (cstr t)).
    destruct Hrep as [_ Hf Hc _]. cbn in Hf, Hc. autorewrite with blen. zlia.
  - destruct (own_bytes_flags b Hown) as (_ & Hnot & _).
    assert (has b SOL_BUFFER_FLAGS_NO_FREE = false) as -> by (unfold has, own_bytes in *; by rewrite Hown).
    assert (blen t + 1 <= 2 ^ 62) as Hlen by zlia.
    destruct (own_terminate b t Hrep Hown Hlen) as (r & b' & -> & Hfl & Hrep' & Hcase). rewrite bind_ret.
    destruct Hcase as [[-> Hterm]|[Hr Href]]; [|rewrite (proj2 (Z.ltb_lt r 0)) by done; exists None; by auto].
    change (0 <? 0) with false. cbv iota. unfold sol_buffer_steal. assert (has b' SOL_BUFFER_FLAGS_NO_FREE = false) as -> by (unfold has; by rewrite Hfl).
    destruct (terminated_cstr b' t Hrep' Hterm) as [H1 H2]; [unfold has; by rewrite Hfl|]. cbn [fst].
    destruct (data b') as [m|] eqn:Hd.
    + eexists. split; [done|]. left. exists m. unfold storage in *. rewrite Hd in H1, H2. cbn in H1, H2. unfold id in *. by rewrite H1.
    + exfalso. unfold storage in H2. rewrite Hd in H2. change (default [] None) with (@nil Z) in H2. rewrite blen_nil in H2. pose proof (blen_nonneg (cstr t)). lia.
Qed.

(** C24: a string token is read as the text between its quotes with the
    escapes replaced, those of four hexadecimal digits by UTF-8, and refused
    when an escape is none of the grammar's; otherwise only an allocation that
    is refused makes it fail, and only where there is an escape.  The copy is
    the C string of that text. *)
Theorem json_unescape_correct doc p body :
  blen doc <= INT_MAX -> view doc p (34 :: body ++ [34]) ->
  let tk := token_at p (p + blen (34 :: body ++ [34])) in
  exists r b o, sol_json_token_get_unescaped_string doc tk = Ret (r, Some b)
    /\ sol_json_token_get_unescaped_string_copy doc tk = Ret o
    /\ match unescape body with
       | Some t => (r = 0 /\ rep b t \/ r < 0 /\ (92 ∈ body) /\ refused)
                   /\ ((exists m, o = Some m /\ cstr m = cstr t /\ blen (cstr m) < blen m) \/ o = None /\ refused)
       | None => r < 0 /\ o = None
       end.
Proof.
  intros Hdoc Hv tk. destruct (get_unescaped_spec doc p body Hdoc Hv) as (r & b & Hrun & Hres).
  destruct (unescaped_copy_spec doc p body Hdoc Hv) as (o & Hcopy & Ho). exists r, b, o. split_and!; [done|done|].
  destruct (unescape body) as [t|]; [|done]. split; [|exact Ho]. destruct Hres as [(-> & Hrep & _)|?]; [by left|by right].
Qed.

Lemma escaped_body str : string_body false (escaped str) = true.
Proof.
  induction str as [|c str IH]; [done|]. cbn [escaped]. destruct (escape_switch c) as [e|] eqn:He; cbn [app string_body].
  - change (92 =? 92) with true. cbv iota. rewrite IH, andb_true_r. revert He. unfold escape_switch.
    repeat match goal with |- context [c =? ?k] => destruct (Z.eqb_spec c k) as [->|]; [by intros [= <-]|] end. done.
  - revert He. unfold escape_switch. destruct (Z.eqb_spec c 34); [done|]. destruct (Z.eqb_spec c 92); [done|]. done.
Qed.

(** C15: a string that is appended to a document is a token of it, and reading
    the token gives the string back; a failure leaves the document with a part
    of the token behind it. *)
Theorem json_string_roundtrip b l str :
  rep b l -> blen l + blen (string_text str) <= INT_MAX ->
  exists r b' t, sol_json_serialize_string b str = Ret (r, b') /\ rep b' (l ++ t)
    /\ (r < 0 /\ t `prefix_of` string_text str
        \/ r = 0 /\ t = string_text str /\ lexeme t
           /\ exists r2 b2, sol_json_token_get_unescaped_string (l ++ t) (token_at (blen l) (blen (l ++ t))) = Ret (r2, Some b2)
              /\ (r2 = 0 /\ rep b2 str \/ r2 < 0 /\ refused)).
Proof.
  intros Hrep Hmax. assert (blen (string_text str) = blen (escaped str) + 2) as Hlen by (unfold string_text; autorewrite with blen; lia).
  pose proof (blen_nonneg l). pose proof (blen_nonneg (escaped str)).
  destruct (serialize_string_spec b l str Hrep) as (r & b' & t & -> & _ & Hrep' & Hcase); [zlia|].
  exists r, b', t. split_and!; [done|done|]. destruct Hcase as [[-> ->]|?]; [right|by left].
  split_and!; [done|done|right; left; exists (escaped str); split; [done|apply escaped_body]|].
  destruct (get_unescaped_spec (l ++ string_text str) (blen l) (escaped str)) as (r2 & b2 & Hrun & Hres);
    [rewrite blen_app; lia|exists l, []; by rewrite app_nil_r|].
  fold (string_text str) in Hrun. rewrite <- blen_app in Hrun. exists r2, b2. split; [exact Hrun|].
  rewrite unescape_escaped in Hres. destruct Hres as [(-> & ? & _)|(? & _ & ?)]; [by left|by right].
Qed.
End Strings.

(** ** Integers *)

Inductive sign := NoSign | Plus | Minus.
#[export] Instance sign_eq_dec : EqDecision sign.
Proof. solve_decision. Defined.

Definition sign_text (sg : sign) : list Z := match sg with NoSign => [] | Plus => [43] | Minus => [45] end.
Definition integer_text (sg : sign) (ds : list Z) : list Z := sign_text sg ++ StrProofs.ascii_digits ds.
Definition int_value (sg : sign) (ds : list Z) : Z := match sg with Minus => - StrProofs.decimal ds | _ => StrProofs.decimal ds end.

Definition all_digits (ds : list Z) : Prop := ds <> [] /\ Forall (fun d => 0 <= d <= 9) ds.

(** The value, or the nearest one that there is. *)
Definition clamp (lo hi v : Z) : Z * Z :=
  if v <? lo then (- ERANGE, lo) else if hi <? v then (- ERANGE, hi) else (0, v).

Lemma foldl_grows ds : forall v, Forall (fun d => 0 <= d <= 9) ds -> 0 <= v -> v <= foldl (fun v d => v * 10 + d) v ds.
Proof.
  induction ds as [|d ds IH]; intros v Hds Hv; [done|]. apply Forall_cons in Hds as [Hd Hds]. cbn [foldl].
  specialize (IH (v * 10 + d) Hds ltac:(lia)). lia.
Qed.

Lemma digit_first d : 0 <= d <= 9 -> type_of_char (48 + d) = NUMBER /\ isdigit (48 + d) = true.
Proof. intros Hd. assert (isdigit (48 + d) = true) as Hi by (apply isdigit_spec; lia). split; [|done]. apply type_number. by left. Qed.

Lemma digits_munch ds : Forall (fun d => 0 <= d <= 9) ds -> munch N_INT (StrProofs.ascii_digits ds) = StrProofs.ascii_digits ds.
Proof.
  induction 1 as [|d ds Hd _ IH]; [done|]. unfold StrProofs.ascii_digits in *. cbn [fmap list_fmap munch].
  unfold number_step. rewrite (proj2 (digit_first d Hd)). by rewrite IH.
Qed.

Lemma integer_text_lexeme sg ds : all_digits ds -> lexeme (integer_text sg ds).
Proof.
  intros [Hne Hds]. right. right. pose proof (digits_munch ds Hds) as Hm.
  destruct sg; [|by exists 43, (StrProofs.ascii_digits ds)|by exists 45, (StrProofs.ascii_digits ds)].
  destruct ds as [|d ds]; [done|]. apply Forall_cons in Hds as [Hd Hds]. exists (48 + d), (StrProofs.ascii_digits ds).
  split_and!; [done|by apply digit_first|by apply digits_munch].
Qed.

Section Integers.
Context `{BuildConfig} (doc : block).

Lemma uint64_loop_spec ds : forall p v,
  Forall (fun d => 0 <= d <= 9) ds -> 0 <= v <= UINT64_MAX -> view doc p (StrProofs.ascii_digits ds) ->
  let r := foldl (fun v d => v * 10 + d) v ds in
  uint64_loop doc (length ds) p v = Ret (if r <=? UINT64_MAX then (0, r) else (- ERANGE, UINT64_MAX)).
Proof.
  induction ds as [|d ds IH]; intros p v Hds Hv Hview; cbn [foldl]; cbv zeta.
  - cbn. by rewrite (proj2 (Z.leb_le _ _)) by lia.
  - apply Forall_cons in Hds as [Hd Hds]. cbn [length uint64_loop]. unfold StrProofs.ascii_digits in Hview. cbn [fmap list_fmap] in Hview.
    apply view_cons in Hview as [-> Hview]. rewrite bind_ret. rewrite (proj2 (Z.leb_le 48 _)), (proj2 (Z.leb_le _ 57)) by lia. cbn [andb].
    pose proof (foldl_grows ds (v * 10 + d) Hds ltac:(lia)) as Hgrow.
    destruct (Overflow.uint64_mul_checked v 10 v ltac:(lia) ltac:(lia)) as [Hok Hbad].
    destruct (sol_util_uint64_mul v 10 v) as [r w] eqn:Hmul. destruct (Z.le_gt_cases (v * 10) UINT64_MAX) as [Hle|Hgt].
    2: { rewrite (Hbad ltac:(lia) : r = - EOVERFLOW). change (- EOVERFLOW <? 0) with true. cbv iota. rewrite (proj2 (Z.leb_gt _ _)) by lia. done. }
    injection (Hok ltac:(lia)) as -> ->. change (0 <? 0) with false. cbv iota.
    destruct (Overflow.uint64_add_checked (v * 10) (48 + d - 48) (v * 10) ltac:(lia) ltac:(zlia)) as [Hok2 Hbad2].
    destruct (sol_util_uint64_add (v * 10) (48 + d - 48) (v * 10)) as [r2 w2]. replace (48 + d - 48) with d in * by lia.
    destruct (Z.le_gt_cases (v * 10 + d) UINT64_MAX) as [Hle2|Hgt2].
    2: { rewrite (Hbad2 ltac:(lia) : r2 = - EOVERFLOW). change (- EOVERFLOW <? 0) with true. cbv iota. rewrite (proj2 (Z.leb_gt _ _)) by lia. done. }
    injection (Hok2 ltac:(lia)) as -> ->. change (0 <? 0) with false. cbv iota. apply IH; [done|lia|done].
Qed.

Lemma digits_length ds : blen (StrProofs.ascii_digits ds) = blen ds.
Proof. apply blen_fmap. Qed.

Lemma unsigned_token_spec sg ds p :
  sg <> Minus -> all_digits ds -> view doc p (integer_text sg ds) ->
  token_get_uint64 doc p (p + blen (integer_text sg ds)) = Ret (clamp 0 UINT64_MAX (StrProofs.decimal ds)).
Proof.
  intros Hsg [Hne Hds] Hv. pose proof (StrProofs.decimal_nonneg ds Hds) as H0.
  assert (view doc (p + blen (sign_text sg)) (StrProofs.ascii_digits ds)) as Hvd by by apply view_app.
  pose proof (uint64_loop_spec ds _ 0 Hds ltac:(zlia) Hvd) as Hloop. cbv zeta in Hloop. fold (StrProofs.decimal ds) in Hloop.
  assert (clamp 0 UINT64_MAX (StrProofs.decimal ds)
    = if StrProofs.decimal ds <=? UINT64_MAX then (0, StrProofs.decimal ds) else (- ERANGE, UINT64_MAX)) as ->.
  { unfold clamp. rewrite (proj2 (Z.ltb_ge _ _)) by lia. rewrite Z.leb_antisym. by destruct (_ <? _). }
  rewrite <- Hloop. unfold token_get_uint64, integer_text in *. rewrite blen_app, digits_length. destruct sg; [| |done]; cbn [sign_text app] in *.
  - destruct ds as [|d ds]; [done|]. apply Forall_cons in Hds as [Hd Hds]. apply view_cons in Hv as [-> _]. rewrite bind_ret.
    rewrite (proj2 (Z.eqb_neq _ _)) by lia. rewrite blen_nil, Z.add_0_r, Z.add_0_l. f_equal. unfold blen. lia.
  - apply view_cons in Hv as [-> _]. rewrite bind_ret. change (43 =? 43) with true. cbv iota. change (blen [43]) with 1. f_equal. unfold blen. lia.
Qed.

Lemma integer_text_length sg ds : all_digits ds -> 0 < blen (integer_text sg ds).
Proof.
  intros [Hne _]. unfold integer_text. rewrite blen_app, digits_length. pose proof (blen_nonneg (sign_text sg)).
  destruct ds; [done|]. blia.
Qed.

Lemma integer_text_type sg ds p : all_digits ds -> view doc p (integer_text sg ds) ->
  sol_json_mem_get_type doc p = Ret NUMBER
  /\ byte_at doc p = Ret (match sg, ds with NoSign, d :: _ => 48 + d | Plus, _ => 43 | _, _ => 45 end).
Proof.
  intros [Hne Hds] Hv. unfold sol_json_mem_get_type, integer_text in *. destruct sg; cbn [sign_text app] in *.
  - destruct ds as [|d ds]; [done|]. apply Forall_cons in Hds as [Hd _]. apply view_cons in Hv as [-> _].
    rewrite bind_ret. by rewrite (proj1 (digit_first d Hd)).
  - apply view_cons in Hv as [-> _]. by rewrite bind_ret.
  - apply view_cons in Hv as [-> _]. by rewrite bind_ret.
Qed.

Lemma int64_token_spec sg ds p :
  all_digits ds -> view doc p (integer_text sg ds) ->
  token_get_int64 doc p (p + blen (integer_text sg ds)) = Ret (clamp INT64_MIN INT64_MAX (int_value sg ds)).
Proof.
  intros Hall Hv. pose proof Hall as [Hne Hds]. pose proof (StrProofs.decimal_nonneg ds Hds) as H0.
  unfold token_get_int64. rewrite (proj2 (integer_text_type sg ds p Hall Hv)), bind_ret. destruct (decide (sg = Minus)) as [->|Hsg].
  - change (45 =? 45) with true. cbv iota zeta. assert (view doc (p + 1) (integer_text NoSign ds)) as Hv2 by by apply view_cons in Hv as [_ Hv].
    pose proof (unsigned_token_spec NoSign ds (p + 1) ltac:(done) Hall Hv2) as Hu.
    replace (p + 1 + blen (integer_text NoSign ds)) with (p + blen (integer_text Minus ds)) in Hu 
      by (unfold integer_text; rewrite !blen_app; change (blen (sign_text Minus)) with 1; change (blen (sign_text NoSign)) with 0; lia).
    rewrite Hu, bind_ret. clear Hu. cbn [int_value negb andb]. unfold clamp. set (v := StrProofs.decimal ds) in *.
    rewrite (proj2 (Z.ltb_ge v 0)) by lia. destruct (Z.ltb_spec UINT64_MAX v).
    + change (- ERANGE =? 0) with false. change (- ERANGE =? - ERANGE) with true. cbv iota. by rewrite (proj2 (Z.ltb_lt _ _)) by zlia.
    + change (0 =? 0) with true. cbv iota. rewrite Z.gtb_ltb, (proj2 (Z.ltb_ge INT64_MAX _)) by zlia.
      destruct (Z.ltb_spec (INT64_MAX + 1) v); destruct (Z.ltb_spec (- v) INT64_MIN); try zlia; [done|].
      f_equal. f_equal. unfold wrapu, wraps. zify. change (2 ^ 64) with 18446744073709551616. change (2 ^ (64 - 1)) with 9223372036854775808.
      unfold_limits. destruct (decide (v = 0)) as [->|]; [done|].
      rewrite (Z_mod_nz_opp_full v), (Z.mod_small v) by (rewrite ?Z.mod_small; lia).
      destruct (decide (v = 9223372036854775808)) as [->|]; [done|].
      replace (18446744073709551616 - v + 9223372036854775808) with (9223372036854775808 - v + 1 * 18446744073709551616) by lia.
      rewrite Z.mod_add by lia. rewrite Z.mod_small by lia. lia.
  - assert ((match sg, ds with NoSign, d :: _ => 48 + d | Plus, _ => 43 | _, _ => 45 end =? 45) = false) as ->.
    { destruct sg; [|done|done]. destruct ds as [|d ds]; [done|]. apply Forall_cons in Hds as [Hd _]. apply Z.eqb_neq. lia. }
    cbv zeta iota. rewrite (unsigned_token_spec sg ds p Hsg Hall Hv), bind_ret. cbn [negb andb].
    assert (int_value sg ds = StrProofs.decimal ds) as -> by by destruct sg. unfold clamp. set (v := StrProofs.decimal ds) in *.
    rewrite (proj2 (Z.ltb_ge v 0)), (proj2 (Z.ltb_ge v INT64_MIN)) by zlia. destruct (Z.ltb_spec UINT64_MAX v).
    + change (- ERANGE =? 0) with false. change (- ERANGE =? - ERANGE) with true. cbv iota. by rewrite (proj2 (Z.ltb_lt INT64_MAX v)) by zlia.
    + change (0 =? 0) with true. cbv iota. rewrite Z.gtb_ltb. destruct (Z.ltb_spec INT64_MAX v); [done|]. rewrite wraps_small by zlia. done.
Qed.

Lemma integer_tokens sg ds p :
  all_digits ds -> view doc p (integer_text sg ds) ->
  let t := token_at p (p + blen (integer_text sg ds)) in
  let v := int_value sg ds in
  sol_json_token_get_int64 doc t = Ret (clamp INT64_MIN INT64_MAX v)
  /\ sol_json_token_get_int32 doc t = Ret (clamp INT32_MIN INT32_MAX v)
  /\ sol_json_token_get_uint64 doc t = Ret (if sg is Minus then (- ERANGE, 0) else clamp 0 UINT64_MAX v)
  /\ sol_json_token_get_uint32 doc t = Ret (if sg is Minus then (- ERANGE, 0) else clamp 0 UINT32_MAX v).
Proof.
  intros Hall Hv t v. pose proof (integer_text_length sg ds Hall) as Hlen. pose proof (integer_text_type sg ds p Hall Hv) as [Hty Hbyte].
  pose proof Hall as [Hne Hds]. pose proof (StrProofs.decimal_nonneg ds Hds) as H0.
  assert (sol_json_token_get_int64 doc t = Ret (clamp INT64_MIN INT64_MAX v)) as Hi.
  { unfold sol_json_token_get_int64. cbn [tk_start tk_end token_at t]. rewrite (proj2 (Z.leb_gt _ _)) by lia. rewrite Hty, bind_ret.
    cbn [bool_decide negb]. rewrite bool_decide_true by done. cbn [negb]. by apply int64_token_spec. }
  assert (sol_json_token_get_uint64 doc t = Ret (if sg is Minus then (- ERANGE, 0) else clamp 0 UINT64_MAX v)) as Hu.
  { unfold sol_json_token_get_uint64. cbn [tk_start tk_end token_at t]. rewrite (proj2 (Z.leb_gt _ _)) by lia. rewrite Hty, bind_ret.
    rewrite bool_decide_true by done. cbn [negb]. rewrite Hbyte, bind_ret. destruct (decide (sg = Minus)) as [->|Hsg]; [done|].
    assert ((match sg, ds with NoSign, d :: _ => 48 + d | Plus, _ => 43 | _, _ => 45 end =? 45) = false) as ->.
    { destruct sg; [|done|done]. destruct ds as [|d ds]; [done|]. apply Forall_cons in Hds as [Hd _]. apply Z.eqb_neq. lia. }
    rewrite unsigned_token_spec by done. by destruct sg. }
  split_and!; [done| |done|].
  - unfold sol_json_token_get_int32. rewrite Hi, bind_ret. unfold clamp.
    destruct (Z.ltb_spec v INT64_MIN), (Z.ltb_spec INT64_MAX v); rewrite ?Z.gtb_ltb;
      destruct (Z.ltb_spec v INT32_MIN), (Z.ltb_spec INT32_MAX v); try zlia; try done.
  - unfold sol_json_token_get_uint32. rewrite Hu, bind_ret. destruct (decide (sg = Minus)) as [->|Hsg]; [done|].
    assert (0 <= v) as Hv0 by (subst v; destruct sg; cbn; [lia|lia|done]).
    assert ((if sg is Minus then (- ERANGE, 0) else clamp 0 UINT64_MAX v) = clamp 0 UINT64_MAX v) as -> by by destruct sg.
    assert ((if sg is Minus then (- ERANGE, 0) else clamp 0 UINT32_MAX v) = clamp 0 UINT32_MAX v) as -> by by destruct sg.
    unfold clamp. rewrite (proj2 (Z.ltb_ge v 0)) by lia. destruct (Z.ltb_spec UINT64_MAX v); rewrite ?Z.gtb_ltb;
      destruct (Z.ltb_spec UINT32_MAX v); try zlia; done.
Qed.

(** C40: the text of an integer, with any number of digits, is read exactly
    where the type has the value and as -ERANGE and the nearest value of the
    type otherwise, in each of the four types; the unsigned ones refuse a
    minus even in front of 0. *)
Theorem json_integers_correct sg ds p :
  all_digits ds -> view doc p (integer_text sg ds) ->
  let t := token_at p (p + blen (integer_text sg ds)) in
  let v := int_value sg ds in
  sol_json_token_get_int64 doc t = Ret (clamp INT64_MIN INT64_MAX v)
  /\ sol_json_token_get_int32 doc t = Ret (clamp INT32_MIN INT32_MAX v)
  /\ sol_json_token_get_uint64 doc t = Ret (if sg is Minus then (- ERANGE, 0) else clamp 0 UINT64_MAX v)
  /\ sol_json_token_get_uint32 doc t = Ret (if sg is Minus then (- ERANGE, 0) else clamp 0 UINT32_MAX v).
Proof. apply integer_tokens. Qed.
End Integers.

(** ** Printing integers *)

Lemma digits_of_spec fuel : forall n, 0 <= n < 10 ^ Z.of_nat fuel ->
  exists ds, digits_of fuel n = StrProofs.ascii_digits ds /\ Forall (fun d => 0 <= d <= 9) ds /\ StrProofs.decimal ds = n
    /\ (ds = [] -> fuel = 0%nat).
Proof.
  induction fuel as [|fuel IH]; intros n Hn; cbn [digits_of].
  - exists []. split_and!; [done|constructor| |done]. change (10 ^ Z.of_nat 0) with 1 in Hn. unfold StrProofs.decimal. cbn. lia.
  - rewrite Nat2Z.inj_succ, Z.pow_succ_r in Hn by lia. pose proof (Z.mod_pos_bound n 10 ltac:(lia)) as Hm.
    assert (exists ds, (if n <? 10 then [] else digits_of fuel (n / 10)) = StrProofs.ascii_digits ds
      /\ Forall (fun d => 0 <= d <= 9) ds /\ StrProofs.decimal ds = n / 10) as (ds & -> & Hds & Hdec).
    { destruct (Z.ltb_spec n 10).
      - exists []. split_and!; [done|constructor|]. rewrite Z.div_small by lia. done.
      - destruct (IH (n / 10)) as (ds & ? & ? & ? & _); [dlia|by exists ds]. }
    exists (ds ++ [n mod 10]). split_and!; [by unfold StrProofs.ascii_digits; rewrite fmap_app| | |by destruct ds].
    + apply Forall_app. split; [done|]. constructor; [lia|constructor].
    + unfold StrProofs.decimal in *. rewrite foldl_app. cbn [foldl]. rewrite Hdec. dlia.
Qed.

Lemma format_int_spec v : INT64_MIN <= v <= UINT64_MAX ->
  exists sg ds, format_int v = integer_text sg ds /\ all_digits ds /\ int_value sg ds = v /\ sg <> Plus /\ (0 <= v -> sg = NoSign).
Proof.
  intros Hv. unfold format_int. change (10 ^ Z.of_nat 20) with 100000000000000000000 in *. destruct (Z.ltb_spec v 0).
  - destruct (digits_of_spec 20 (- v)) as (ds & -> & Hds & Hdec & Hne); [change (10 ^ Z.of_nat 20) with 100000000000000000000; zlia|].
    exists Minus, ds. split_and!; [done|split; [intros Heq; by specialize (Hne Heq)|done]|cbn; lia|done|lia].
  - destruct (digits_of_spec 20 v) as (ds & -> & Hds & Hdec & Hne); [change (10 ^ Z.of_nat 20) with 100000000000000000000; zlia|].
    exists NoSign, ds. split_and!; [done|split; [intros Heq; by specialize (Hne Heq)|done]|cbn; lia|done|done].
Qed.

Lemma format_uint_int v : 0 <= v -> format_uint v = format_int v.
Proof. intros Hv. unfold format_uint, format_int. by rewrite (proj2 (Z.ltb_ge _ _)) by lia. Qed.

Lemma digits_of_length fuel n : blen (digits_of fuel n) <= Z.of_nat fuel.
Proof.
  revert n. induction fuel as [|fuel IH]; intros n; [done|]. cbn [digits_of]. rewrite blen_app. change (blen [48 + n mod 10]) with 1.
  destruct (n <? 10); [rewrite blen_nil; lia|]. specialize (IH (n / 10)). lia.
Qed.

Section Printing.
Context `{BuildConfig} `{Allocator}.

Lemma serialize_text_spec b l text :
  rep b l -> blen text <= INT_MAX ->
  exists r b', serialize_text b text = Ret (r, b') /\ (r = 0 /\ rep b' (l ++ text) \/ r < 0 /\ rep b' l).
Proof.
  intros Hrep Htext. unfold serialize_text. destruct (append_vprintf_spec b l text Hrep Htext) as (r & b' & -> & _ & Hcase).
  rewrite bind_ret. eexists _, b'. split; [done|]. destruct Hcase as [(-> & ? & _)|[Hr ?]]; [by left|right].
  by rewrite (proj2 (Z.ltb_lt r 0)).
Qed.

(** An integer that is appended to a document is a token of it, and
    reading the token gives the integer back; a failure leaves the document as
    it was. *)
Theorem json_integer_roundtrip b l v :
  rep b l -> INT64_MIN <= v <= UINT64_MAX ->
  let doc := l ++ format_int v in
  let t := token_at (blen l) (blen doc) in
  lexeme (format_int v)
  /\ (v <= INT64_MAX -> sol_json_token_get_int64 doc t = Ret (0, v)
      /\ exists r b', sol_json_serialize_int64 b v = Ret (r, b') /\ (r = 0 /\ rep b' doc \/ r < 0 /\ rep b' l))
  /\ (0 <= v -> sol_json_token_get_uint64 doc t = Ret (0, v)
      /\ exists r b', sol_json_serialize_uint64 b v = Ret (r, b') /\ (r = 0 /\ rep b' doc \/ r < 0 /\ rep b' l)).
Proof.
  intros Hrep Hv doc t. destruct (format_int_spec v Hv) as (sg & ds & Htext & Hall & Hval & Hplus & Hpos).
  assert (blen (format_int v) <= INT_MAX) as Hlen.
  { unfold format_int. pose proof (digits_of_length 20 v). pose proof (digits_of_length 20 (- v)).
    destruct (v <? 0); autorewrite with blen; zlia. }
  assert (view doc (blen l) (integer_text sg ds)) as Hview by (exists l, []; subst doc; by rewrite Htext, app_nil_r).
  destruct (integer_tokens doc sg ds (blen l) Hall Hview) as (Hi & _ & Hu & _).
  rewrite <- Htext, <- blen_app in Hi, Hu. fold doc in Hi, Hu. fold t in Hi, Hu. rewrite Hval in Hi, Hu. unfold clamp in Hi, Hu.
  split_and!; [rewrite Htext; by apply integer_text_lexeme|intros Hmax; split|intros H0'; split].
  - by rewrite Hi, (proj2 (Z.ltb_ge v INT64_MIN)), (proj2 (Z.ltb_ge INT64_MAX v)) by lia.
  - by apply serialize_text_spec.
  - rewrite (Hpos H0') in Hu. by rewrite Hu, (proj2 (Z.ltb_ge v 0)), (proj2 (Z.ltb_ge UINT64_MAX v)) by lia.
  - unfold sol_json_serialize_uint64. rewrite format_uint_int by done. by apply serialize_text_spec.
Qed.
End Printing.

(** ** Examples *)

#[local] Existing Instance gcc5.
#[local] Existing Instance roomy.

Lemma whole_view l : view l 0 l.
Proof. exists [], []. by rewrite app_nil_r. Qed.

(** "a\u00e9\n" *)
Definition an_escaped_body : list Z := text_of "a\u00e9\n".

Lemma json_unescape_correct_witness :
  let doc := 34 :: an_escaped_body ++ [34] in
  (blen doc <= INT_MAX /\ view doc 0 doc)
  /\ unescape an_escaped_body = Some [97; 195; 169; 10]
  /\ exists b, sol_json_token_get_unescaped_string doc (token_at 0 (0 + blen doc)) = Ret (0, Some b) /\ rep b [97; 195; 169; 10].
Proof.
  cbv zeta. assert (blen (34 :: an_escaped_body ++ [34]) <= INT_MAX) as Hlen by (vm_compute; discriminate).
  split; [split; [exact Hlen|apply whole_view]|]. split; [vm_compute; reflexivity|].
  destruct (json_unescape_correct (34 :: an_escaped_body ++ [34]) 0 an_escaped_body Hlen (whole_view _)) as (r & b & o & Hrun & _ & Hres & _).
  assert (r = 0) as Hr by (vm_compute in Hrun; congruence). exists b. rewrite Hrun, Hr. split; [reflexivity|].
  destruct Hres as [[_ Hrep]|[Hneg _]]; [exact Hrep|rewrite Hr in Hneg; discriminate Hneg].
Defined.

Lemma json_string_roundtrip_witness :
  (rep sol_buffer_init [] /\ blen (@nil Z) + blen (string_text (text_of "a/b")) <= INT_MAX)
  /\ exists b', sol_json_serialize_string sol_buffer_init (text_of "a/b") = Ret (0, b')
     /\ rep b' (34 :: text_of "a\/b" ++ [34]) /\ lexeme (34 :: text_of "a\/b" ++ [34]).
Proof.
  assert (blen (@nil Z) + blen (string_text (text_of "a/b")) <= INT_MAX) as Hlen by (vm_compute; discriminate).
  split; [exact (conj buf_rep_init Hlen)|].
  destruct (json_string_roundtrip sol_buffer_init [] (text_of "a/b") buf_rep_init Hlen) as (r & b' & t & Hrun & Hrep & Hres).
  assert (r = 0) as Hr by (vm_compute in Hrun; congruence). exists b'. rewrite Hrun, Hr. split; [reflexivity|].
  destruct Hres as [[Hneg _]|(_ & Ht & Hlex & _)]; [rewrite Hr in Hneg; discriminate Hneg|].
  rewrite Ht in Hrep, Hlex. split; [exact Hrep|exact Hlex].
Defined.

Lemma json_integers_correct_witness :
  let doc := text_of "-2147483649" in
  all_digits [2; 1; 4; 7; 4; 8; 3; 6; 4; 9] /\ view doc 0 doc
  /\ sol_json_token_get_int64 doc (token_at 0 11) = Ret (0, -2147483649)
  /\ sol_json_token_get_int32 doc (token_at 0 11) = Ret (- ERANGE, -2147483648).
Proof.
  cbv zeta. assert (all_digits [2; 1; 4; 7; 4; 8; 3; 6; 4; 9]) as Hd by (split; [discriminate|repeat constructor; lia]).
  split; [exact Hd|]. split; [apply whole_view|].
  destruct (json_integers_correct (text_of "-2147483649") Minus [2; 1; 4; 7; 4; 8; 3; 6; 4; 9] 0 Hd (whole_view _)) as (H64 & H32 & _).
  split; [exact H64|exact H32].
Defined.

Lemma json_integer_roundtrip_witness :
  rep sol_buffer_init [] /\ INT64_MIN <= -42 <= UINT64_MAX
  /\ lexeme (text_of "-42") /\ sol_json_token_get_int64 (text_of "-42") (token_at 0 3) = Ret (0, -42).
Proof.
  assert (INT64_MIN <= -42 <= UINT64_MAX) as Hv by (vm_compute; split; discriminate).
  split; [exact buf_rep_init|]. split; [exact Hv|].
  destruct (json_integer_roundtrip sol_buffer_init [] (-42) buf_rep_init Hv) as (Hlex & H64 & _).
  split; [exact Hlex|]. exact (proj1 (H64 ltac:(vm_compute; discriminate))).
Defined.

(** ** Findings *)

(** Control characters that have no letter are written as they are. *)
Lemma controls_are_not_escaped :
  exists b, sol_json_serialize_string sol_buffer_init [1] = Ret (0, b) /\ sol_buffer_get_slice b = Ret [34; 1; 34].
Proof. eexists. split; by vm_compute. Qed.

(** The two halves of a character outside the basic plane are read as two
    characters of three bytes each. *)
Lemma surrogates_are_not_joined :
  let doc := 34 :: text_of "\ud83d\ude00" ++ [34] in
  exists b, sol_json_token_get_unescaped_string doc (token_at 0 (blen doc)) = Ret (0, Some b)
    /\ sol_buffer_get_slice b = Ret [237; 160; 189; 237; 184; 128].
Proof. eexists. split; by vm_compute. Qed.

(** A token that is not a string is refused. *)
Lemma only_strings_are_read :
  exists b, sol_json_token_get_unescaped_string (text_of "12") (token_at 0 2) = Ret (- EINVAL, Some b).
Proof. eexists. by vm_compute. Qed.

(** The copy of a token without a start finishes a buffer that nobody
    initialised. *)
Lemma copy_of_no_token : sol_json_token_get_unescaped_string_copy [] no_token = UB.
Proof. done. Qed.
End JsonStringProofs.
