(* ===== verification/Coap.v ===== *)
(** * CoAP packets

    Models src/src/lib/comms/coap.c, coap.h and the packet half of
    src/src/lib/comms/sol-coap.c, on a little-endian machine whose [char] is
    signed.  A packet is its struct with the buffer inside it; a pointer into
    the buffer is an offset, [None] when it is NULL.  [option_context] is kept
    without its [buf], which always is the buffer of the packet at hand: the
    functions take that buffer as an argument.  Checks for NULL are left out,
    except for the value of an option, which the documentation lets be NULL.
    A function that returns NULL and sets [errno] returns [inl errno]. *)

From S2P Require Import Prelude Arith Str Codec Buffer.
Import StrSlice Buffer.

#[local] Open Scope Z_scope.

Module Coap.

(** ** Data *)

Definition COAP_VERSION := 1.
Definition COAP_MARKER := 255.

(** sizeof(struct coap_header) and sizeof(struct sol_coap_packet) *)
Definition sizeof_coap_header := 4.
Definition sizeof_coap_packet := 48.

Record sol_coap_packet := { refcnt : Z; buf : sol_buffer; payload_start : Z }.

Definition set_buf (pkt : sol_coap_packet) b :=
  {| refcnt := refcnt pkt; buf := b; payload_start := payload_start pkt |}.
Definition set_payload_start (pkt : sol_coap_packet) p :=
  {| refcnt := refcnt pkt; buf := buf pkt; payload_start := p |}.
Definition set_refcnt (pkt : sol_coap_packet) n :=
  {| refcnt := n; buf := buf pkt; payload_start := payload_start pkt |}.

Record option_context := { pos : Z; delta : Z; opt_used : Z }.

Definition SOL_COAP_OPTION_OBSERVE := 6.
Definition SOL_COAP_OPTION_URI_PATH := 11.

Definition SOL_COAP_MESSAGE_TYPE_CON := 0.
Definition SOL_COAP_MESSAGE_TYPE_NON_CON := 1.
Definition SOL_COAP_MESSAGE_TYPE_ACK := 2.
Definition SOL_COAP_MESSAGE_TYPE_RESET := 3.

Definition SOL_COAP_METHOD_GET := 1.
Definition SOL_COAP_METHOD_POST := 2.
Definition SOL_COAP_METHOD_PUT := 3.
Definition SOL_COAP_METHOD_DELETE := 4.
Definition SOL_COAP_REQUEST_MASK := 7.
Definition SOL_COAP_CODE_EMPTY := 0.

Definition sol_coap_make_response_code (clas det : Z) : Z := Z.lor (Z.shiftl clas 5) det.

Definition SOL_COAP_RESPONSE_CODE_CONTENT := sol_coap_make_response_code 2 5.
Definition SOL_COAP_RESPONSE_CODE_NOT_FOUND := sol_coap_make_response_code 4 4.
Definition SOL_COAP_RESPONSE_CODE_INTERNAL_ERROR := sol_coap_make_response_code 5 0.

(** The values [enum sol_coap_response_code] names *)
Definition sol_coap_response_code : list Z :=
  (sol_coap_make_response_code 2 <$> [0; 1; 2; 3; 4; 5])
  ++ (sol_coap_make_response_code 4 <$> [0; 1; 2; 3; 4; 5; 6; 12; 13; 15])
  ++ (sol_coap_make_response_code 5 <$> [0; 1; 2; 3; 4; 5]).

Definition known_codes : list Z :=
  [SOL_COAP_METHOD_GET; SOL_COAP_METHOD_POST; SOL_COAP_METHOD_PUT; SOL_COAP_METHOD_DELETE]
  ++ sol_coap_response_code ++ [SOL_COAP_CODE_EMPTY].

(** ** Byte order *)

Definition sol_util_uint16_bytes_swap (val : Z) : Z :=
  wrapu 16 (Z.lor (Z.land (Z.shiftr val 8) 255) (Z.shiftl (Z.land val 255) 8)).

Definition sol_util_cpu_to_be16 (val : Z) : Z := sol_util_uint16_bytes_swap val.
Definition sol_util_be16_to_cpu (val : Z) : Z := sol_util_uint16_bytes_swap val.

(** [*p] for a pointer into the buffer *)
Definition load_byte (b : sol_buffer) (p : option Z) : outcome Z :=
  match p with None => UB | Some p => at_index (storage b) p end.

(** A byte is read, changed and written back. *)
Definition update_byte (b : sol_buffer) (p : option Z) (f : Z -> Z) : outcome sol_buffer :=
  match p with
  | None => UB
  | Some p => x ← at_index (storage b) p; buf_store b p [f x]
  end.

(** ** Reading options *)

Definition coap_option_header_get_delta (b : Z) : Z := Z.shiftr (Z.land b 240) 4.
Definition coap_option_header_get_len (b : Z) : Z := Z.land b 15.
Definition coap_option_header_set_delta (b d : Z) : Z := wrapu 8 (Z.lor b (Z.shiftl (Z.land d 15) 4)).
Definition coap_option_header_set_len (b l : Z) : Z := Z.lor b (Z.land l 15).

(** The return value and [*decoded], which on an error keeps the [num] both
    callers have in it. *)
Definition decode_delta (b : sol_buffer) (num : Z) (p : option Z) (buflen : Z) : outcome (Z * Z) :=
  if num =? 13 then
    if buflen <? 1 then Ret (- EINVAL, num)
    else x ← load_byte b p; Ret (1, wrapu 16 (x + 13))
  else if num =? 14 then
    if buflen <? 2 then Ret (- EINVAL, num)
    else x ← load_byte b p; Ret (2, wrapu 16 (sol_util_be16_to_cpu x + 269))
  else if num =? 15 then Ret (- EINVAL, num)
  else Ret (0, wrapu 16 num).

(** The return value, the context, and what went through [value] and [vlen]. *)
Definition coap_parse_option (b : sol_buffer) (c : option_context)
    : outcome (Z * option_context * option span) :=
  if wrapu 64 (used b - pos c) <? 1 then Ret (0, c, None)
  else
    start ← load_byte b (sol_buffer_at b (pos c));
    if start =? COAP_MARKER then Ret (0, c, None)
    else
      let d := coap_option_header_get_delta start in
      let l := coap_option_header_get_len start in
      u ← int_op (opt_used c + 1);
      let c := {| pos := pos c + 1; delta := delta c; opt_used := u |} in
      '(r, d) ← decode_delta b d (sol_buffer_at b (pos c)) (wraps 16 (used b - pos c));
      if r <? 0 then Ret (r, c, None)
      else
        u ← int_op (opt_used c + r);
        let c := {| pos := pos c + r; delta := delta c; opt_used := u |} in
        '(r, l) ← decode_delta b l (sol_buffer_at b (pos c)) (wraps 16 (used b - pos c));
        if r <? 0 then Ret (r, c, None)
        else if wrapu 64 (used b - pos c) <? r + l then Ret (- EINVAL, c, None)
        else
          u ← int_op (opt_used c + (r + l));
          total ← int_op (delta c + d);
          Ret (u, {| pos := pos c + (r + l); delta := total; opt_used := u |},
               Some (Span (pos c + r) l)).

Definition context_at (p : Z) : option_context := {| pos := p; delta := 0; opt_used := 0 |}.

(** An option has at least one byte, so the bytes are fuel enough. *)
Definition option_fuel (b : sol_buffer) : nat := S (Z.to_nat (used b)).

Fixpoint parse_options_loop (b : sol_buffer) (c : option_context) (fuel : nat) : outcome Z :=
  match fuel with
  | O => UB
  | S fuel =>
      '(r, c, _) ← coap_parse_option b c;
      if r <? 0 then Ret (- EINVAL)
      else if r =? 0 then Ret (opt_used c)
      else parse_options_loop b c fuel
  end.

Definition coap_parse_options (pkt : sol_coap_packet) (offset : Z) : outcome Z :=
  parse_options_loop (buf pkt) (context_at offset) (option_fuel (buf pkt)).

Definition coap_get_header_len (pkt : sol_coap_packet) : outcome Z :=
  let hdrlen := sizeof_coap_header in
  if used (buf pkt) <? hdrlen then Ret (- EINVAL)
  else
    x ← load_byte (buf pkt) (sol_buffer_at (buf pkt) 0);
    let tkl := Z.land x 15 in
    if tkl >? 8 then Ret (- EINVAL)
    else if used (buf pkt) <? hdrlen + tkl then Ret (- EINVAL)
    else Ret (hdrlen + tkl).

Definition coap_packet_parse (pkt : sol_coap_packet) : outcome (Z * sol_coap_packet) :=
  hdrlen ← coap_get_header_len pkt;
  if hdrlen <? 0 then Ret (hdrlen, pkt)
  else
    optlen ← coap_parse_options pkt hdrlen;
    if optlen <? 0 then Ret (optlen, pkt)
    else if used (buf pkt) <? hdrlen + optlen then Ret (- EINVAL, pkt)
    else if used (buf pkt) <=? hdrlen + optlen + 1 then Ret (0, set_payload_start pkt 0)
    else Ret (0, set_payload_start pkt (hdrlen + optlen + 1)).

(** [sol_coap_find_options] with a vector of [veclen] slices: the return
    value and the slices counted by it.  The slot behind them is scratch. *)
Fixpoint find_options_loop (b : sol_buffer) (code : Z) (c : option_context) (vec : list span) (room : Z)
    (fuel : nat) : outcome (Z * list span) :=
  match fuel with
  | O => UB
  | S fuel =>
      if negb ((delta c <=? code) && (0 <? room)) then Ret (blen vec, vec)
      else
        '(r, c, o) ← coap_parse_option b c;
        if r <? 0 then Ret (- ENOENT, vec)
        else if r =? 0 then Ret (blen vec, vec)
        else if negb (code =? delta c) then find_options_loop b code c vec room fuel
        else
          match o with
          | None => UB
          | Some s => find_options_loop b code c (vec ++ [s]) (room - 1) fuel
          end
  end.

Definition sol_coap_find_options (pkt : sol_coap_packet) (code veclen : Z) : outcome (Z * list span) :=
  hdrlen ← coap_get_header_len pkt;
  if hdrlen <? 0 then Ret (- EINVAL, [])
  else find_options_loop (buf pkt) code (context_at hdrlen) [] veclen (option_fuel (buf pkt)).

(** The value and its length, or NULL. *)
Definition sol_coap_find_first_option (pkt : sol_coap_packet) (code : Z) : outcome (option span) :=
  '(r, vec) ← sol_coap_find_options pkt code 1;
  if r <=? 0 then Ret None else Ret (head vec).

(** [option.data[i]], a [char] *)
Definition data_at (b : sol_buffer) (s : span) (i : Z) : outcome Z :=
  x ← at_index (storage b) (off s + i); Ret (wraps 8 x).

Definition get_observe_option (pkt : sol_coap_packet) : outcome Z :=
  '(r, vec) ← sol_coap_find_options pkt SOL_COAP_OPTION_OBSERVE 1;
  if r <=? 0 then Ret (- ENOENT)
  else
    match head vec with
    | None => UB
    | Some s =>
        if len s =? 0 then Ret 0
        else if len s =? 1 then data_at (buf pkt) s 0
        else if len s =? 2 then
          d0 ← data_at (buf pkt) s 0; d1 ← data_at (buf pkt) s 1;
          Ret (Z.lor (Z.shiftl d0 0) (Z.shiftl d1 8))
        else if len s =? 3 then
          d0 ← data_at (buf pkt) s 0; d1 ← data_at (buf pkt) s 1; d2 ← data_at (buf pkt) s 2;
          Ret (Z.lor (Z.lor (Z.shiftl d0 0) (Z.shiftl d1 8)) (Z.shiftl d2 16))
        else Ret (- EINVAL)
    end.

(** ** The header *)

Definition header_byte (pkt : sol_coap_packet) (i : Z) : outcome Z := at_index (storage (buf pkt)) i.

Definition sol_coap_header_get_version (pkt : sol_coap_packet) : outcome Z :=
  x ← header_byte pkt 0; Ret (Z.land (Z.shiftr x 6) 3).

Definition sol_coap_header_get_type (pkt : sol_coap_packet) : outcome Z :=
  x ← header_byte pkt 0; Ret (Z.land (Z.shiftr x 4) 3).

(** The token and its length. *)
Definition sol_coap_header_get_token (pkt : sol_coap_packet) : outcome (option Z * Z) :=
  x ← header_byte pkt 0;
  let tkl := Z.land x 15 in
  Ret (if tkl =? 0 then None else Some sizeof_coap_header, tkl).

Definition sol_coap_header_get_id (pkt : sol_coap_packet) : outcome Z :=
  bs ← mem_load (storage (buf pkt)) 2 2; Ret (sol_util_be16_to_cpu (le_value bs)).

(** The return value and [*code], which stays as it is on an error. *)
Definition sol_coap_header_get_code (pkt : sol_coap_packet) : outcome (Z * option Z) :=
  x ← header_byte pkt 1;
  Ret (if bool_decide (x ∈ known_codes) then (0, Some x) else (- EINVAL, None)).

Section Operations.
Context `{BuildConfig} `{Allocator}.

(** What all the setters do: make room for a header, then write to it. *)
Definition with_header (pkt : sol_coap_packet) (write : sol_buffer -> outcome sol_buffer)
    : outcome (Z * sol_coap_packet) :=
  '(r, b) ← sol_buffer_ensure (buf pkt) sizeof_coap_header;
  if r <? 0 then Ret (r, set_buf pkt b) else b ← write b; Ret (0, set_buf pkt b).

Definition sol_coap_header_set_version (pkt : sol_coap_packet) (ver : Z) :=
  with_header pkt (fun b => update_byte b (Some 0) (fun x => Z.lor (Z.land x 63) (Z.shiftl (Z.land ver 3) 6))).

Definition sol_coap_header_set_type (pkt : sol_coap_packet) (type : Z) :=
  with_header pkt (fun b => update_byte b (Some 0) (fun x => Z.lor (Z.land x 207) (Z.shiftl (Z.land type 3) 4))).

Definition sol_coap_header_set_code (pkt : sol_coap_packet) (code : Z) :=
  with_header pkt (fun b => buf_store b 1 [code]).

Definition sol_coap_header_set_id (pkt : sol_coap_packet) (id : Z) :=
  with_header pkt (fun b => buf_store b 2 (le_bytes 2 (sol_util_cpu_to_be16 id))).

Definition sol_coap_header_set_token (pkt : sol_coap_packet) (token : list Z) : outcome (Z * sol_coap_packet) :=
  '(r, b) ← sol_buffer_ensure (buf pkt) sizeof_coap_header;
  if r <? 0 then Ret (r, set_buf pkt b)
  else
    '(r, b) ← sol_buffer_insert_slice b sizeof_coap_header token;
    if r <? 0 then Ret (r, set_buf pkt b)
    else
      b ← update_byte b (Some 0) (fun x => Z.lor (Z.land x 240) (Z.land (blen token) 15));
      Ret (0, set_buf pkt b).

(** ** Creation and references *)

Definition packet_new (b : option sol_buffer) : outcome (Z + sol_coap_packet) :=
  if negb (alloc_ok sizeof_coap_packet) then Ret (inl ENOMEM)
  else
    let b := default (sol_buffer_init_flags None 0 SOL_BUFFER_FLAGS_NO_NUL_BYTE) b in
    '(r, b) ← sol_buffer_ensure b sizeof_coap_header;
    if r <? 0 then Ret (inl r)
    else
      b ← buf_store b 0 [0; 0; 0; 0];
      '(r, pkt) ← sol_coap_header_set_version {| refcnt := 1; buf := b; payload_start := 0 |} COAP_VERSION;
      if r <? 0 then Ret (inl r)
      else Ret (inr (set_buf pkt (set_used (buf pkt) sizeof_coap_header))).

(** A failed [set_token] goes unnoticed: the code looks at the token instead
    of the return value. *)
Definition sol_coap_packet_new (old : option sol_coap_packet) : outcome (Z + sol_coap_packet) :=
  p ← packet_new None;
  match p, old with
  | inl e, _ => Ret (inl e)
  | inr pkt, None => Ret (inr pkt)
  | inr pkt, Some old =>
      id ← sol_coap_header_get_id old;
      '(r, pkt) ← sol_coap_header_set_id pkt id;
      if r <? 0 then Ret (inl (- r))
      else
        type ← sol_coap_header_get_type old;
        '(r, pkt) ← (if type =? SOL_COAP_MESSAGE_TYPE_CON
                     then sol_coap_header_set_type pkt SOL_COAP_MESSAGE_TYPE_ACK
                     else if type =? SOL_COAP_MESSAGE_TYPE_NON_CON
                     then sol_coap_header_set_type pkt SOL_COAP_MESSAGE_TYPE_NON_CON
                     else Ret (r, pkt));
        if r <? 0 then Ret (inl (- r))
        else
          '(token, tkl) ← sol_coap_header_get_token old;
          match token with
          | None => Ret (inr pkt)
          | Some p =>
              bs ← buf_load (buf old) p tkl;
              '(_, pkt) ← sol_coap_header_set_token pkt bs;
              Ret (inr pkt)
          end
  end.

Definition sol_coap_packet_ref (pkt : sol_coap_packet) : outcome sol_coap_packet :=
  n ← int_op (refcnt pkt + 1); Ret (set_refcnt pkt n).

(** [None] when the packet was freed *)
Definition sol_coap_packet_unref (pkt : sol_coap_packet) : option sol_coap_packet :=
  if refcnt pkt >? 1 then Some (set_refcnt pkt (refcnt pkt - 1)) else None.

(** The static counter of requests goes in and out. *)
Definition sol_coap_packet_new_request (request_id method type : Z) : outcome (Z * (Z + sol_coap_packet)) :=
  p ← sol_coap_packet_new None;
  match p with
  | inl e => Ret (request_id, inl e)
  | inr pkt =>
      '(r, pkt) ← sol_coap_header_set_code pkt (wrapu 8 method);
      if r <? 0 then Ret (request_id, inl (- r))
      else
        let request_id := wrapu 16 (request_id + 1) in
        '(r, pkt) ← sol_coap_header_set_id pkt request_id;
        if r <? 0 then Ret (request_id, inl (- r))
        else
          '(r, pkt) ← sol_coap_header_set_type pkt (wrapu 8 type);
          if r <? 0 then Ret (request_id, inl (- r)) else Ret (request_id, inr pkt)
  end.

(** ** Writing options *)

(** The return value, [*value] and the buffer. *)
Definition delta_encode (num : Z) (b : sol_buffer) (offset : Z) : outcome (Z * Z * sol_buffer) :=
  if num <? 13 then Ret (0, wrapu 8 num, b)
  else if num <? 269 then
    '(r, b) ← sol_buffer_insert_char b offset (num - 13);
    Ret (if r <? 0 then r else 1, 13, b)
  else
    let v := sol_util_cpu_to_be16 (wrapu 16 (num - 269)) in
    '(r, b) ← sol_buffer_insert_bytes b offset (le_bytes 2 v);
    Ret (if r <? 0 then r else 2, 14, b).

Definition coap_option_encode (b : sol_buffer) (c : option_context) (code : Z) (value : list Z)
    : outcome (Z * sol_buffer) :=
  let d := code - delta c in
  '(r, b) ← sol_buffer_set_char_at b (pos c) 0;
  if r <? 0 then Ret (r, b)
  else
    '(r, x, b) ← delta_encode d b (pos c + 1);
    if r <? 0 then Ret (- EINVAL, b)
    else
      let offset := 1 + r in
      b ← update_byte b (sol_buffer_at b (pos c)) (fun y => coap_option_header_set_delta y x);
      '(r, x, b) ← delta_encode (blen value) b (pos c + offset);
      if r <? 0 then Ret (r, b)
      else
        let offset := offset + r in
        b ← update_byte b (sol_buffer_at b (pos c)) (fun y => coap_option_header_set_len y x);
        '(r, b) ← sol_buffer_insert_bytes b (pos c + offset) value;
        Ret (if r <? 0 then r else offset + blen value, b).

(** The place behind the options in front of a new one with this code, or
    what is returned instead. *)
Fixpoint last_option_loop (b : sol_buffer) (code : Z) (c : option_context) (fuel : nat)
    : outcome (Z + option_context) :=
  match fuel with
  | O => UB
  | S fuel =>
      if negb (delta c <=? code) then Ret (inr c)
      else
        '(r, c, _) ← coap_parse_option b c;
        if r <? 0 then Ret (inl (- ENOENT))
        else if r =? 0 then Ret (inr c)
        else if code <? delta c then Ret (inl (- EINVAL))
        else last_option_loop b code c fuel
  end.

Definition sol_coap_add_option (pkt : sol_coap_packet) (code : Z) (value : option (list Z))
    : outcome (Z * sol_coap_packet) :=
  match value with
  | None => Ret (- EINVAL, pkt)
  | Some value =>
      if negb (payload_start pkt =? 0) then Ret (- EINVAL, pkt)
      else
        offset ← coap_get_header_len pkt;
        if offset <? 0 then Ret (- EINVAL, pkt)
        else
          p ← last_option_loop (buf pkt) code (context_at offset) (option_fuel (buf pkt));
          match p with
          | inl r => Ret (r, pkt)
          | inr c =>
              '(r, b) ← coap_option_encode (buf pkt) c code value;
              Ret (if r <? 0 then r else 0, set_buf pkt b)
          end
  end.

(** The first [n] characters as an option value; its length is an [uint16_t]. *)
Definition segment_of (rest : list Z) (n : Z) : option (list Z) := Some (take (Z.to_nat (wrapu 16 n)) rest).

(** The loop over a path behind its first slash: [rest] is the string from
    [uri] on without the NUL; one round per slash. *)
Fixpoint uri_path_loop (pkt : sol_coap_packet) (rest : list Z) (fuel : nat) : outcome (Z * sol_coap_packet) :=
  match fuel with
  | O => UB
  | S fuel =>
      match rest with
      | [] => Ret (- EINVAL, pkt)
      | _ =>
          match CString.memchr rest 47 with
          | None => sol_coap_add_option pkt SOL_COAP_OPTION_URI_PATH (segment_of rest (blen rest))
          | Some slash =>
              '(r, pkt) ← sol_coap_add_option pkt SOL_COAP_OPTION_URI_PATH (segment_of rest (Z.of_nat slash));
              if r <? 0 then Ret (r, pkt) else uri_path_loop pkt (drop (S slash) rest) fuel
          end
      end
  end.

Definition sol_coap_packet_add_uri_path_option (pkt : sol_coap_packet) (uri : list Z)
    : outcome (Z * sol_coap_packet) :=
  match uri with
  | [] => Ret (- EINVAL, pkt)
  | c :: rest =>
      if negb (c =? 47) then Ret (- EINVAL, pkt)
      else if blen uri =? 1 then Ret (0, pkt)
      else uri_path_loop pkt rest (S (length rest))
  end.

(** ** The payload *)

Definition sol_coap_packet_has_payload (pkt : sol_coap_packet) : outcome bool :=
  offset ← coap_get_header_len pkt;
  if offset <? 0 then Ret false
  else Ret (negb (payload_start pkt =? 0) || (used (buf pkt) >? offset)).

(** The return value, the packet and [*offset] *)
Definition sol_coap_packet_get_payload (pkt : sol_coap_packet) : outcome (Z * sol_coap_packet * Z) :=
  '(r, pkt) ← (if payload_start pkt =? 0 then
                 '(r, b) ← sol_buffer_append_char (buf pkt) COAP_MARKER;
                 if r <? 0 then Ret (r, set_buf pkt b)
                 else Ret (0, set_payload_start (set_buf pkt b) (used b))
               else Ret (0, pkt));
  Ret (r, pkt, payload_start pkt).

(** Without a code the comparison reads a variable that was never set. *)
Definition is_coap_ping (req : sol_coap_packet) : outcome bool :=
  '(_, tokenlen) ← sol_coap_header_get_token req;
  type ← sol_coap_header_get_type req;
  '(_, code) ← sol_coap_header_get_code req;
  if negb (type =? SOL_COAP_MESSAGE_TYPE_CON) then Ret false
  else
    match code with
    | None => UB
    | Some code =>
        if negb ((code =? SOL_COAP_CODE_EMPTY) && (tokenlen =? 0)) then Ret false
        else p ← sol_coap_packet_has_payload req; Ret (negb p)
    end.

(** ** Paths

    An array of slices ends with an empty one. *)

Fixpoint path_eq_loop (b : sol_buffer) (options : list span) (path : list (list Z)) {struct path} : outcome bool :=
  match path with
  | [] => UB
  | p :: path =>
      if blen p =? 0 then Ret (bool_decide (options = []))
      else
        match options with
        | [] => Ret false
        | o :: options =>
            s ← buf_load b (off o) (len o);
            e ← sol_str_slice_eq s p;
            if (e : bool) then path_eq_loop b options path else Ret false
        end
  end.

Definition uri_path_eq (req : sol_coap_packet) (path : list (list Z)) : outcome bool :=
  '(r, options) ← sol_coap_find_options req SOL_COAP_OPTION_URI_PATH 16;
  if r <? 0 then Ret false else path_eq_loop (buf req) options path.

(** The return value, the buffer and [*size] *)
Fixpoint path_to_buffer_loop (path : list (list Z)) (b : sol_buffer) (cur r : Z)
    : outcome (Z * sol_buffer * Z) :=
  match path with
  | [] => UB
  | p :: path =>
      if blen p =? 0 then Ret (r, b, cur)
      else
        let '(r, new_cur) := sol_util_size_add cur (blen p + 1) 0 in
        if r <? 0 then Ret (r, b, cur)
        else
          '(r, b) ← sol_buffer_insert_char b cur 47;
          let cur := cur + 1 in
          if r <? 0 then Ret (r, b, cur)
          else
            '(r, b) ← sol_buffer_insert_slice b cur p;
            if r <? 0 then Ret (r, b, cur) else path_to_buffer_loop path b new_cur r
  end.

Definition sol_coap_path_to_buffer (path : list (list Z)) (b : sol_buffer) (offset : Z)
    : outcome (Z * sol_buffer * Z) :=
  path_to_buffer_loop path b offset 0.

(** The path as a C string, or the error.  The running sum of the lengths,
    kept only for its overflow check, stays below 2^21. *)
Definition packet_extract_path (req : sol_coap_packet) : outcome (Z + block) :=
  '(r, options) ← sol_coap_find_options req SOL_COAP_OPTION_URI_PATH 16;
  if r <? 0 then Ret (inl r)
  else if r >? 16 then Ret (inl (- EINVAL))
  else
    path ← mapM (fun o => buf_load (buf req) (off o) (len o)) options;
    '(r, b, _) ← sol_coap_path_to_buffer (path ++ [[]]) sol_buffer_init 0;
    if r <? 0 then Ret (inl r)
    else
      match sol_buffer_steal b with
      | (Some m, _, _) => Ret (inr m)
      | (None, _, _) => Ret (inl (- EINVAL))
      end.

(** ** What goes on the wire *)

(** [sol_buffer_append_bytes] of [n] bytes inside another buffer: they are
    read after room was made for them. *)
Definition append_from (b src : sol_buffer) (p : option Z) (n : Z) : outcome (Z * sol_buffer) :=
  '(r, b') ← sol_buffer_expand b n;
  if r <? 0 then Ret (r, b')
  else
    bs ← (match p with None => if n =? 0 then Ret [] else UB | Some p => buf_load src p n end);
    sol_buffer_append_bytes b bs.

(** The buffer that is sent for an outgoing packet; when there is a header,
    its header and token replace those of the packet. *)
Definition prepare_buffer (header : option sol_coap_packet) (payload : sol_coap_packet)
    : outcome (Z * option sol_buffer) :=
  match header with
  | None =>
      Ret (0, Some (set_used (sol_buffer_init_flags (data (buf payload)) (used (buf payload))
                      (Z.lor SOL_BUFFER_FLAGS_MEMORY_NOT_OWNED SOL_BUFFER_FLAGS_NO_NUL_BYTE))
                      (used (buf payload))))
  | Some header =>
      '(_, old_tkl) ← sol_coap_header_get_token payload;
      '(_, new_tkl) ← sol_coap_header_get_token header;
      let new_size := wrapu 16 (used (buf payload) + (new_tkl - old_tkl)) in
      match c_malloc new_size with
      | None => Ret (- ENOMEM, None)
      | Some m =>
          let b := sol_buffer_init_flags (Some m) new_size
                     (Z.lor SOL_BUFFER_FLAGS_FIXED_CAPACITY SOL_BUFFER_FLAGS_NO_NUL_BYTE) in
          let new_offset := sizeof_coap_header + new_tkl in
          let old_offset := sizeof_coap_header + old_tkl in
          '(r, b) ← append_from b (buf header) (Some 0) new_offset;
          if r <? 0 then Ret (- ENOMEM, None)
          else
            '(r, b) ← append_from b (buf payload) (sol_buffer_at (buf payload) old_offset)
                        (wrapu 64 (used (buf payload) - old_offset));
            if r <? 0 then Ret (- ENOMEM, None) else Ret (0, Some b)
      end
  end.
End Operations.
End Coap.
