(* ===== verification/CoapProofs.v ===== *)
(** * CoAP packets: reading

    [packet_bytes] is the grammar of RFC 7252, section 3, as the reader of
    Coap.v takes it: a header with its token, and [options_in], a run of
    options up to a marker or the end.  Parsing accepts exactly that, and the
    search for an option finds what the grammar says is there. *)

From S2P Require Import Prelude Arith Str Codec Buffer Coap.
Import Utf8 StrSlice Buffer Coap.

#[local] Open Scope Z_scope.

Module CoapProofs.

(** ** Bytes and nibbles *)

Lemma get_delta_div x : 0 <= x < 256 -> coap_option_header_get_delta x = x / 16.
Proof.
  intros Hx. apply Z.eqb_eq. revert x Hx.
  apply (range_forall 256 (fun x => coap_option_header_get_delta x =? x / 16)). by vm_compute.
Qed.

Lemma low_nibble x : Z.land x 15 = x mod 16.
Proof. change 15 with (Z.ones 4). by rewrite Z.land_ones. Qed.

Lemma set_delta_zero n : 0 <= n < 16 -> coap_option_header_set_delta 0 n = 16 * n.
Proof.
  intros Hx. apply Z.eqb_eq. revert n Hx.
  apply (range_forall 16 (fun n => coap_option_header_set_delta 0 n =? 16 * n)). by vm_compute.
Qed.

Lemma set_len_nibbles n m : 0 <= n < 16 -> 0 <= m < 16 ->
  coap_option_header_set_len (16 * n) m = 16 * n + m.
Proof.
  intros Hn Hm. apply Z.eqb_eq.
  by apply (range_forall2 16 16 (fun n m => coap_option_header_set_len (16 * n) m =? 16 * n + m)).
Qed.

Lemma swap_div v : 0 <= v < 65536 -> sol_util_uint16_bytes_swap v = 256 * (v mod 256) + v / 256.
Proof.
  intros Hv. unfold sol_util_uint16_bytes_swap.
  change 255 with (Z.ones 8). rewrite !Z.land_ones, Z.shiftr_div_pow2 by lia. change (2 ^ 8) with 256.
  rewrite (Z.mod_small (v / 256)) by dlia. rewrite Z.lor_comm, low_bits by dlia. rewrite wrapu_small by dlia. lia.
Qed.

Lemma swap_byte x : 0 <= x < 256 -> sol_util_be16_to_cpu x = 256 * x.
Proof. intros. unfold sol_util_be16_to_cpu. rewrite swap_div by lia. dlia. Qed.

Lemma be_bytes v : 0 <= v < 65536 -> le_bytes 2 (sol_util_cpu_to_be16 v) = [v / 256; v mod 256].
Proof.
  intros. unfold sol_util_cpu_to_be16. rewrite swap_div by lia. cbn [le_bytes].
  f_equal; [dlia|]. f_equal. dlia.
Qed.

(** ** The grammar of options *)

(** The number a nibble and the bytes that extend it stand for.  Of two
    extending bytes only the first counts. *)
Inductive field : Z -> Z -> list Z -> Prop :=
| field_nibble n : 0 <= n < 13 -> field n n []
| field_byte x : is_byte x -> field (x + 13) 13 [x]
| field_word x y : is_byte x -> is_byte y -> field ((256 * x + 269) mod 65536) 14 [x; y].

(** An option of the wire: how far its number is from the one before, its
    value, and its bytes. *)
Inductive one_option (d : Z) (v : list Z) : list Z -> Prop :=
| one_option_intro nd xd nl xl :
    field d nd xd -> field (blen v) nl xl -> one_option d v ((16 * nd + nl) :: xd ++ xl ++ v).

(** The end of the options *)
Definition stops (bs : list Z) : Prop := bs = [] \/ exists p, bs = COAP_MARKER :: p.

(** [bs] is a run of options with these numbers and values, counted from
    [num], in front of the rest. *)
Inductive options_in : Z -> list Z -> list (Z * list Z) -> list Z -> Prop :=
| options_end num rest : stops rest -> options_in num rest [] rest
| options_cons num d v opt bs os rest :
    one_option d v opt -> options_in (num + d) bs os rest ->
    options_in num (opt ++ bs) ((num + d, v) :: os) rest.

Lemma field_range n nib ext : field n nib ext -> 0 <= nib <= 14 /\ 0 <= n < 65536.
Proof. destruct 1; unfold is_byte in *; split; try lia; dlia. Qed.

Lemma field_functional n n' nib ext ext' bs bs' :
  field n nib ext -> field n' nib ext' -> ext ++ bs = ext' ++ bs' -> n = n' /\ ext = ext' /\ bs = bs'.
Proof. destruct 1; inversion 1; subst; try lia; cbn; intros [=]; by subst. Qed.

Lemma nibbles a b a' b' : 0 <= b < 16 -> 0 <= b' < 16 -> 16 * a + b = 16 * a' + b' -> a = a' /\ b = b'.
Proof. lia. Qed.

Lemma option_functional d v d' v' o o' bs bs' :
  one_option d v o -> one_option d' v' o' -> o ++ bs = o' ++ bs' -> d = d' /\ v = v' /\ bs = bs' /\ o = o'.
Proof.
  intros [nd xd nl xl Hd Hl] [nd' xd' nl' xl' Hd' Hl'].
  pose proof (field_range _ _ _ Hd). pose proof (field_range _ _ _ Hl).
  pose proof (field_range _ _ _ Hd'). pose proof (field_range _ _ _ Hl'). cbn [app].
  intros [= [-> ->]%nibbles He]; [|lia..]. rewrite <- !app_assoc in He.
  destruct (field_functional _ _ _ _ _ _ _ Hd Hd' He) as (-> & -> & He2).
  destruct (field_functional _ _ _ _ _ _ _ Hl Hl' He2) as (Hn & -> & He3).
  apply app_inj_1 in He3 as [-> ->]; [done|]. unfold blen in Hn. lia.
Qed.

Lemma option_not_marker d v o bs p : one_option d v o -> o ++ bs <> COAP_MARKER :: p.
Proof.
  intros [nd xd nl xl Hd Hl]. pose proof (field_range _ _ _ Hd). pose proof (field_range _ _ _ Hl).
  cbn [app]. unfold COAP_MARKER. intros [= He _]. lia.
Qed.

Lemma option_not_stop d v o bs : one_option d v o -> ~ stops (o ++ bs).
Proof. intros Ho [He|[p He]]; [by destruct Ho|by eapply option_not_marker]. Qed.

Lemma options_functional num bs os os' rest rest' :
  options_in num bs os rest -> options_in num bs os' rest' -> os = os' /\ rest = rest'.
Proof.
  intros H1. revert os' rest'. induction H1 as [num rest Hs|num d v o bs os rest Ho _ IH]; intros os' rest' H2.
  - inversion H2 as [|? ? ? ? ? ? ? Ho]; subst; [done|]. by eapply option_not_stop in Ho.
  - inversion H2 as [? ? Hs|? d' v' o' bs' os2 ? Ho' H2' E1 E2 E3]; subst; [by destruct (option_not_stop _ _ _ bs Ho)|].
    destruct (option_functional _ _ _ _ _ _ _ _ Ho Ho' (eq_sym E2)) as (-> & -> & -> & ->).
    by destruct (IH _ _ H2') as [-> ->].
Qed.

Lemma options_cons_inv num d v o bs os rest :
  one_option d v o -> options_in num (o ++ bs) os rest ->
  exists os', os = (num + d, v) :: os' /\ options_in (num + d) bs os' rest.
Proof.
  intros Ho Hos. remember (o ++ bs) as l eqn:Hl. destruct Hos as [num l Hs|num d' v' o' bs' os rest Ho' Hos]; subst.
  - by eapply option_not_stop in Ho.
  - destruct (option_functional _ _ _ _ _ _ _ _ Ho Ho' (eq_sym Hl)) as (-> & -> & -> & _). by eexists.
Qed.

Lemma options_stop_inv num bs os rest : stops bs -> options_in num bs os rest -> os = [] /\ rest = bs.
Proof. intros Hs. destruct 1 as [|num d v o bs os rest Ho]; [done|]. by eapply option_not_stop in Ho. Qed.

Lemma options_rest num bs os rest : options_in num bs os rest -> stops rest /\ blen rest <= blen bs.
Proof.
  induction 1 as [|num d v o bs os rest Ho _ [IH1 IH2]]; [by split; [|lia]|]. split; [done|].
  rewrite blen_app. pose proof (blen_nonneg o). lia.
Qed.

(** ** The reader *)

(** The bytes the reader is given: no more than a datagram holds *)
Record datagram (b : sol_buffer) (l : list Z) : Prop := {
  datagram_rep : rep b l;
  datagram_bytes : Forall is_byte l;
  datagram_short : blen l <= 65535
}.

Lemma load_at b l pre x bs : rep b l -> l = pre ++ x :: bs -> load_byte b (sol_buffer_at b (blen pre)) = Ret x.
Proof.
  intros Hrep ->. destruct (buf_rep_storage _ _ Hrep) as (rest & Hs & _ & Hu).
  unfold sol_buffer_at. rewrite Z.gtb_ltb, (proj2 (Z.ltb_ge _ _)) by (rewrite Hu; blia). cbn [load_byte].
  apply at_index_some; [apply blen_nonneg|]. rewrite Hs, blen_to_nat, <- app_assoc, lookup_app_r by done.
  by rewrite Nat.sub_diag.
Qed.

Lemma left_at b l pre bs : rep b l -> l = pre ++ bs -> used b - blen pre = blen bs.
Proof. intros Hrep ->. rewrite (rep_used _ _ Hrep). blia. Qed.

Lemma bytes_at b l pre bs : datagram b l -> l = pre ++ bs -> Forall is_byte bs.
Proof. intros [_ Hb _] ->. by apply Forall_app in Hb as [_ ?]. Qed.

Lemma short_wraps n : 0 <= n <= 65535 -> wraps 16 n <= n /\ (n <= INT16_MAX -> wraps 16 n = n).
Proof. intros. split; [unfold wraps; dlia|]. intros. apply wraps_small; zlia. Qed.

Lemma decode_delta_spec b l pre bs nib :
  datagram b l -> l = pre ++ bs -> 0 <= nib < 16 ->
  (exists n ext bs', bs = ext ++ bs' /\ field n nib ext
     /\ decode_delta b nib (sol_buffer_at b (blen pre)) (wraps 16 (used b - blen pre)) = Ret (blen ext, n))
  \/ (decode_delta b nib (sol_buffer_at b (blen pre)) (wraps 16 (used b - blen pre)) = Ret (- EINVAL, nib)
      /\ (blen l <= INT16_MAX -> forall n ext bs', bs = ext ++ bs' -> ~ field n nib ext)).
Proof.
  intros Hdg Hl Hnib. pose proof Hdg as [Hrep _ Hlen]. rewrite (left_at _ _ _ _ Hrep Hl). pose proof (bytes_at _ _ _ _ Hdg Hl) as Hb.
  assert (0 <= blen bs <= blen l) as Hle by (subst l; blia).
  destruct (short_wraps (blen bs)) as [Hw1 Hw2]; [lia|]. unfold decode_delta.
  destruct (Z.eqb_spec nib 13) as [->|].
  { destruct (Z.ltb_spec (wraps 16 (blen bs)) 1) as [Hlt|Hge].
    - right. split; [done|]. intros Hs m ext bs' -> Hf. inversion Hf; subst; [lia|].
      rewrite Hw2 in Hlt by lia. blia.
    - destruct bs as [|x bs]; [rewrite blen_nil in *; lia|]. left. exists (x + 13), [x], bs. inversion Hb; subst.
      split_and!; [done|by constructor|]. rewrite (load_at _ _ _ _ _ Hrep eq_refl), bind_ret.
      unfold is_byte in *. by rewrite wrapu_small by lia. }
  destruct (Z.eqb_spec nib 14) as [->|].
  { destruct (Z.ltb_spec (wraps 16 (blen bs)) 2) as [Hlt|Hge].
    - right. split; [done|]. intros Hs m ext bs' -> Hf. inversion Hf; subst; [lia|].
      rewrite Hw2 in Hlt by lia. blia.
    - destruct bs as [|x [|y bs]]; [rewrite blen_nil in *; lia|change (blen [x]) with 1 in *; lia|]. left.
      inversion Hb as [|? ? Hx Hb2]; subst. inversion Hb2; subst.
      exists ((256 * x + 269) mod 65536), [x; y], bs. split_and!; [done|by constructor|].
      rewrite (load_at _ _ _ _ _ Hrep eq_refl), bind_ret. unfold is_byte in *. by rewrite swap_byte by lia. }
  destruct (Z.eqb_spec nib 15) as [->|].
  { right. split; [done|]. intros _ m ext bs' _ Hf. inversion Hf; subst; lia. }
  left. exists nib, [], bs. split_and!; [done|constructor; lia|]. by rewrite wrapu_small by lia.
Qed.

(** Where the reader stands: [done] is what it has read, from the first
    option on. *)
Record reading (l : list Z) (c : option_context) (pre bs : list Z) : Prop := {
  reading_split : l = pre ++ bs;
  reading_pos : pos c = blen pre;
  reading_used : 0 <= opt_used c <= blen pre;
  reading_delta : 0 <= delta c <= 21845 * opt_used c
}.

(** The slice [s] of [l] covers the bytes [v]. *)
Definition spans (l : list Z) (s : span) (v : list Z) : Prop :=
  exists x z, l = x ++ v ++ z /\ s = Span (blen x) (blen v).

Lemma option_length d v o : one_option d v o -> 0 <= d <= 21845 * blen o /\ 1 <= blen o.
Proof.
  intros [nd xd nl xl Hd Hl]. pose proof (blen_nonneg xl). pose proof (blen_nonneg v).
  destruct Hd; unfold is_byte in *; autorewrite with blen; change (blen (@nil Z)) with 0; split; try lia.
  pose proof (Z.mod_pos_bound (256 * x + 269) 65536). lia.
Qed.

Lemma option_head d v o bs bs' start : one_option d v o -> start :: bs = o ++ bs' ->
  exists xd xl, field d (start / 16) xd /\ field (blen v) (start mod 16) xl /\ bs = xd ++ xl ++ v ++ bs'.
Proof.
  intros [nd xd nl xl Hd Hl]. cbn [app]. intros [= -> ->].
  pose proof (field_range _ _ _ Hl). exists xd, xl. rewrite <- !app_assoc.
  replace ((16 * nd + nl) / 16) with nd by dlia. by replace ((16 * nd + nl) mod 16) with nl by dlia.
Qed.

Lemma parse_option_spec b l c pre bs :
  datagram b l -> reading l c pre bs ->
  (stops bs /\ coap_parse_option b c = Ret (0, c, None))
  \/ (exists d v o bs' c' s, bs = o ++ bs' /\ one_option d v o
        /\ coap_parse_option b c = Ret (opt_used c', c', Some s)
        /\ reading l c' (pre ++ o) bs' /\ delta c' = delta c + d /\ opt_used c' = opt_used c + blen o
        /\ spans l s v)
  \/ (exists r c', r < 0 /\ coap_parse_option b c = Ret (r, c', None) /\ ~ stops bs
        /\ (blen l <= INT16_MAX -> forall d v o bs', bs = o ++ bs' -> ~ one_option d v o)).
Proof.
  intros Hdg [Hl Hp Hu Hd]. pose proof Hdg as [Hrep _ Hlen]. unfold coap_parse_option. rewrite Hp, (left_at _ _ _ _ Hrep Hl).
  pose proof (blen_nonneg bs) as Hn. assert (blen l = blen pre + blen bs) as Hlb by (subst l; blia).
  rewrite wrapu_small by lia.
  destruct bs as [|start bs]; [left; split; [by left|done]|].
  rewrite blen_cons. pose proof (blen_nonneg bs). rewrite (proj2 (Z.ltb_ge _ 1)) by lia.
  rewrite (load_at _ _ _ _ _ Hrep Hl), bind_ret.
  destruct (Z.eqb_spec start COAP_MARKER) as [->|Hm]; [left; split; [by right; eexists|done]|].
  pose proof (bytes_at _ _ _ _ Hdg Hl) as Hb. inversion Hb as [|? ? Hx _]; subst x l0. unfold is_byte in Hx.
  rewrite get_delta_div by lia. unfold coap_option_header_get_len. rewrite low_nibble.
  rewrite blen_cons in *. rewrite int_op_ok by zlia. rewrite bind_ret. cbn [pos delta opt_used].
  assert (blen pre + 1 = blen (pre ++ [start])) as -> by blia.
  assert (l = (pre ++ [start]) ++ bs) as Hl1 by (by rewrite <- app_assoc).
  assert (~ stops (start :: bs)) as Hns by (intros [?|[p [= ? _]]]; done).
  destruct (decode_delta_spec _ _ _ _ (start / 16) Hdg Hl1) as [(nd & xd & bs1 & -> & Hfd & Hrun)|[Hrun Hbad]]; [dlia| |];
    rewrite Hrun, bind_ret.
  2: { right. right. eexists _, _. split_and!; [|done|done|]; [done|]. intros Hs d v o bs' He Ho.
       destruct (option_head _ _ _ _ _ _ Ho He) as (xd & xl & Hd' & _ & ->). by eapply (Hbad Hs). }
  pose proof (blen_nonneg xd). pose proof (blen_nonneg bs1). rewrite blen_app in Hlb.
  rewrite (proj2 (Z.ltb_ge _ 0)) by lia. rewrite (int_op_ok (opt_used c + 1 + blen xd)) by zlia. rewrite bind_ret. cbn [pos delta opt_used].
  assert (blen (pre ++ [start]) + blen xd = blen (pre ++ start :: xd)) as -> by blia.
  assert (l = (pre ++ start :: xd) ++ bs1) as Hl2 by (by rewrite Hl1, <- !app_assoc).
  destruct (decode_delta_spec _ _ _ _ (start mod 16) Hdg Hl2) as [(nl & xl & bs2 & -> & Hfl & Hrun2)|[Hrun2 Hbad]]; [dlia| |];
    rewrite Hrun2, bind_ret.
  2: { right. right. eexists _, _. split_and!; [|done|done|]; [done|]. intros Hs d v o bs' He Ho.
       destruct (option_head _ _ _ _ _ _ Ho He) as (xd' & xl & Hd' & Hl' & He').
       destruct (field_functional _ _ _ _ _ _ _ Hfd Hd' He') as (_ & _ & ->). by eapply (Hbad Hs). }
  pose proof (blen_nonneg xl). pose proof (blen_nonneg bs2). rewrite !blen_app in Hlb.
  pose proof (field_range _ _ _ Hfd). pose proof (field_range _ _ _ Hfl).
  rewrite (proj2 (Z.ltb_ge _ 0)) by lia. rewrite (left_at _ _ _ _ Hrep Hl2), blen_app, wrapu_small by lia.
  destruct (Z.ltb_spec (blen xl + blen bs2) (blen xl + nl)) as [Hlt|Hge].
  { right. right. eexists _, _. split_and!; [|done|done|]; [done|]. intros Hs d v o bs' He Ho.
    destruct (option_head _ _ _ _ _ _ Ho He) as (xd' & xl' & Hd' & Hl' & He').
    destruct (field_functional _ _ _ _ _ _ _ Hfd Hd' He') as (_ & _ & He2).
    destruct (field_functional _ _ _ _ _ _ _ Hfl Hl' He2) as (Hv & _ & ->). blia. }
  assert (exists v bs3, bs2 = v ++ bs3 /\ blen v = nl) as (v & bs3 & -> & Hv).
  { exists (take (Z.to_nat nl) bs2), (drop (Z.to_nat nl) bs2). rewrite take_drop. split; [done|]. blia. }
  subst nl. pose proof (blen_nonneg v).
  assert (one_option nd v ((16 * (start / 16) + start mod 16) :: xd ++ xl ++ v)) as Ho by done.
  rewrite <- Z.div_mod in Ho by done. destruct (option_length _ _ _ Ho).
  rewrite (int_op_ok (opt_used c + 1 + blen xd + (blen xl + blen v))) by (autorewrite with blen in *; zlia). rewrite bind_ret.
  rewrite (int_op_ok (delta c + nd)) by (autorewrite with blen in *; zlia). rewrite bind_ret.
  right. left. exists nd, v, (start :: xd ++ xl ++ v), bs3.
  exists {| pos := blen (pre ++ start :: xd) + (blen xl + blen v); delta := delta c + nd;
            opt_used := opt_used c + 1 + blen xd + (blen xl + blen v) |}, (Span (blen (pre ++ start :: xd) + blen xl) (blen v)).
  assert (blen (start :: xd ++ xl ++ v) = 1 + (blen xd + (blen xl + blen v))) as Heq by blia. rewrite Heq in *.
  split_and!; [by rewrite <- app_comm_cons, <- !app_assoc|done|done| |done|cbn [opt_used]; lia|].
  - split; cbn [pos delta opt_used]; [by rewrite Hl, <- app_assoc, <- app_comm_cons, <- !app_assoc|blia|blia|lia].
  - exists (pre ++ start :: xd ++ xl), bs3. split; [by rewrite Hl, <- app_assoc, <- app_comm_cons, <- !app_assoc|].
    f_equal. blia.
Qed.

Lemma options_loop_spec b l fuel c pre bs :
  datagram b l -> reading l c pre bs -> (length bs < fuel)%nat ->
  (exists os rest, options_in (delta c) bs os rest
     /\ parse_options_loop b c fuel = Ret (opt_used c + blen bs - blen rest))
  \/ (parse_options_loop b c fuel = Ret (- EINVAL)
      /\ (blen l <= INT16_MAX -> forall os rest, ~ options_in (delta c) bs os rest)).
Proof.
  intros Hdg. revert c pre bs. induction fuel as [|fuel IH]; intros c pre bs Hr Hf; [lia|].
  cbn [parse_options_loop].
  destruct (parse_option_spec _ _ _ _ _ Hdg Hr)
    as [[Hs Hrun]|[(d & v & o & bs' & c' & s & Hbs & Ho & Hrun & Hr' & Hd & Hu & _)|(r & c' & Hneg & Hrun & Hns & Hbad)]];
    rewrite Hrun, bind_ret.
  - left. exists [], bs. split; [by constructor|]. cbn. f_equal. lia.
  - subst bs. destruct (option_length _ _ _ Ho). pose proof (reading_used _ _ _ _ Hr).
    rewrite (proj2 (Z.ltb_ge _ 0)), (proj2 (Z.eqb_neq _ 0)) by lia.
    destruct (IH _ _ _ Hr') as [(os & rest & Hos & ->)|[-> Hbad]].
    { rewrite length_app in Hf. unfold blen in *. lia. }
    + left. exists ((delta c + d, v) :: os), rest. rewrite Hd in Hos. split; [by econstructor|].
      f_equal. rewrite blen_app. lia.
    + right. split; [done|]. intros Hs os rest Hos.
      destruct (options_cons_inv _ _ _ _ _ _ _ Ho Hos) as (os' & -> & Hos'). rewrite Hd in Hbad. by eapply Hbad.
  - rewrite (proj2 (Z.ltb_lt r 0)) by done. right. split; [done|].
    intros Hs os rest Hos. inversion Hos; subst; [done|]. by eapply (Hbad Hs).
Qed.

Lemma options_ge num bs os rest : options_in num bs os rest -> Forall (fun o => num <= fst o) os.
Proof.
  induction 1 as [|num d v o bs os rest Ho _ IH]; [done|]. destruct (option_length _ _ _ Ho).
  constructor; [cbn; lia|]. eapply Forall_impl; [done|]. cbn. intros. lia.
Qed.

(** The values of the options with this number, in order *)
Definition values (code : Z) (os : list (Z * list Z)) : list (list Z) :=
  snd <$> filter (fun o => fst o = code) os.

Lemma values_none code os : Forall (fun o => code < fst o) os -> values code os = [].
Proof.
  unfold values. induction 1 as [|o os Ho _ IH]; [done|]. rewrite filter_cons_False by lia. done.
Qed.

Lemma find_loop_spec b l code fuel c pre bs vec room os rest :
  datagram b l -> blen l <= INT16_MAX -> reading l c pre bs -> (length bs < fuel)%nat -> 0 <= room ->
  options_in (delta c) bs os rest ->
  exists ss, find_options_loop b code c vec room fuel = Ret (blen (vec ++ ss), vec ++ ss)
    /\ Forall2 (spans l) ss (take (Z.to_nat room) (values code os)).
Proof.
  intros Hdg Hshort. revert c pre bs vec room os. induction fuel as [|fuel IH]; intros c pre bs vec room os Hr Hf Hroom Hos; [lia|].
  cbn [find_options_loop].
  destruct (Z.leb_spec (delta c) code) as [Hle|Hgt]; cbn [andb negb].
  2: { exists []. rewrite app_nil_r. split; [done|]. rewrite values_none, take_nil; [done|].
       eapply Forall_impl; [by eapply options_ge|]. cbn. lia. }
  destruct (Z.ltb_spec 0 room) as [Hlt|]; cbn [negb].
  2: { exists []. rewrite app_nil_r. split; [done|]. by replace room with 0 by lia. }
  destruct (parse_option_spec _ _ _ _ _ Hdg Hr)
    as [[Hs Hrun]|[(d & v & o & bs' & c' & s & Hbs & Ho & Hrun & Hr' & Hd & Hu & Hsp)|(r & c' & Hneg & Hrun & Hns & Hbad)]];
    rewrite ?Hrun, ?bind_ret.
  - destruct (options_stop_inv _ _ _ _ Hs Hos) as [-> ->].
    exists []. change (values code []) with (@nil (list Z)). by rewrite app_nil_r, take_nil.
  - subst bs. destruct (options_cons_inv _ _ _ _ _ _ _ Ho Hos) as (os' & -> & Hos').
    destruct (option_length _ _ _ Ho). pose proof (reading_used _ _ _ _ Hr).
    rewrite (proj2 (Z.ltb_ge _ 0)), (proj2 (Z.eqb_neq _ 0)) by lia.
    rewrite length_app in Hf. assert (length bs' < fuel)%nat by (unfold blen in *; lia). rewrite <- Hd in Hos' |- *.
    unfold values. destruct (Z.eqb_spec code (delta c')) as [->|Hne]; cbn [negb].
    + rewrite filter_cons_True by done. destruct (IH c' _ _ (vec ++ [s]) (room - 1) os' Hr') as (ss & -> & Hss); [done|lia|done|].
      exists (s :: ss). rewrite <- app_assoc. split; [done|].
      replace (Z.to_nat room) with (S (Z.to_nat (room - 1))) by lia. cbn [fmap list_fmap take firstn]. by constructor.
    + rewrite filter_cons_False by (cbn; congruence). by apply (IH c' _ _ vec room os' Hr').
  - destruct Hos; [done|]. by eapply Hbad in Hshort.
Qed.

(** ** Packets *)

(** A header whose token length is that of the token behind it *)
Definition headed (l token body : list Z) : Prop := exists h0 h1 h2 h3,
  l = h0 :: h1 :: h2 :: h3 :: token ++ body /\ blen token = h0 mod 16 /\ blen token <= 8.

(** The grammar of RFC 7252, section 3.1, where both extending bytes count *)
Inductive rfc_field : Z -> Z -> list Z -> Prop :=
| rfc_nibble n : 0 <= n < 13 -> rfc_field n n []
| rfc_byte x : is_byte x -> rfc_field (x + 13) 13 [x]
| rfc_word x y : is_byte x -> is_byte y -> rfc_field (256 * x + y + 269) 14 [x; y].

Inductive rfc_options : Z -> list Z -> list (Z * list Z) -> list Z -> Prop :=
| rfc_options_end num rest : stops rest -> rfc_options num rest [] rest
| rfc_options_cons num d v nd xd nl xl bs os rest :
    rfc_field d nd xd -> rfc_field (blen v) nl xl -> rfc_options (num + d) bs os rest ->
    rfc_options num (((16 * nd + nl) :: xd ++ xl ++ v) ++ bs) ((num + d, v) :: os) rest.

Definition rfc_packet (l token : list Z) (os : list (Z * list Z)) (rest : list Z) : Prop :=
  exists body, headed l token body /\ rfc_options 0 body os rest.

(** The distances and lengths that survive the reader, which drops the second
    of two extending bytes *)
Definition readable (n : Z) : Prop := n < 269 \/ (n - 269) mod 256 = 0.

Fixpoint readable_options (prev : Z) (os : list (Z * list Z)) : Prop :=
  match os with
  | [] => True
  | (n, v) :: os => readable (n - prev) /\ readable (blen v) /\ readable_options n os
  end.

Lemma rfc_field_readable n nib ext : rfc_field n nib ext -> readable n -> n < 65536 -> field n nib ext.
Proof.
  destruct 1 as [n Hn|x Hx|x y Hx Hy]; intros Hr Hs; [by constructor|by constructor|]. unfold readable, is_byte in *.
  assert (y = 0) as -> by (destruct Hr as [Hr|Hr]; [lia|dlia]).
  replace (256 * x + 0 + 269) with ((256 * x + 269) mod 65536) by (rewrite Z.mod_small; lia). by constructor.
Qed.

Lemma rfc_field_nonneg n nib ext : rfc_field n nib ext -> 0 <= n.
Proof. destruct 1; unfold is_byte in *; lia. Qed.

Lemma rfc_options_readable num bs os rest : rfc_options num bs os rest -> 0 <= num -> blen bs < 65536 ->
  readable_options num os -> Forall (fun o => o.1 < 65536) os -> options_in num bs os rest.
Proof.
  induction 1 as [num rest Hs|num d v nd xd nl xl bs os rest Hd Hl _ IH]; intros Hn Hb Hr Hos; [by constructor|].
  destruct Hr as (Hrd & Hrl & Hr). apply Forall_cons in Hos as [Ho Hos]. cbn [fst] in Ho. rewrite Z.add_simpl_l in Hrd.
  pose proof (rfc_field_nonneg _ _ _ Hd). autorewrite with blen in Hb.
  pose proof (blen_nonneg xd). pose proof (blen_nonneg xl). pose proof (blen_nonneg v). pose proof (blen_nonneg bs).
  econstructor; [constructor; by apply rfc_field_readable; [..|lia]|]. apply IH; [lia|lia|done|done].
Qed.

(** A whole packet: header and token, options, and what is behind them. *)
Definition packet_bytes (l token : list Z) (os : list (Z * list Z)) (rest : list Z) : Prop :=
  exists body, headed l token body /\ options_in 0 body os rest.

Lemma headed_functional l token token' body body' :
  headed l token body -> headed l token' body' -> token = token' /\ body = body'.
Proof.
  intros (h0 & h1 & h2 & h3 & -> & Ht & _) (h0' & h1' & h2' & h3' & [= <- <- <- <- He] & Ht' & _).
  apply app_inj_1 in He; [done|]. unfold blen in *. lia.
Qed.

Lemma packet_functional l token token' os os' rest rest' :
  packet_bytes l token os rest -> packet_bytes l token' os' rest' -> token = token' /\ os = os' /\ rest = rest'.
Proof.
  intros (body & Hh & Ho) (body' & Hh' & Ho'). destruct (headed_functional _ _ _ _ _ Hh Hh') as [-> ->].
  by destruct (options_functional _ _ _ _ _ _ Ho Ho') as [-> ->].
Qed.

Lemma header_len_spec pkt l :
  rep (buf pkt) l ->
  (exists token body, headed l token body /\ coap_get_header_len pkt = Ret (4 + blen token))
  \/ (coap_get_header_len pkt = Ret (- EINVAL) /\ forall token body, ~ headed l token body).
Proof.
  intros Hrep. unfold coap_get_header_len, sizeof_coap_header. rewrite (rep_used _ _ Hrep).
  destruct (Z.ltb_spec (blen l) 4) as [Hlt|Hge].
  { right. split; [done|]. intros token body (h0 & h1 & h2 & h3 & -> & _). blia. }
  destruct l as [|h0 [|h1 [|h2 [|h3 l]]]]; try (exfalso; vm_compute in Hge; by apply Hge).
  pose proof (load_at _ _ [] _ _ Hrep eq_refl) as Hload. change (blen (@nil Z)) with 0 in Hload.
  rewrite Hload, bind_ret, low_nibble, Z.gtb_ltb.
  destruct (Z.ltb_spec 8 (h0 mod 16)) as [H8|H8].
  { right. split; [done|]. intros token body (? & ? & ? & ? & [= <- <- <- <- _] & Ht & Ht8). lia. }
  destruct (Z.ltb_spec (blen (h0 :: h1 :: h2 :: h3 :: l)) (4 + h0 mod 16)) as [Hlt|Hge2].
  { right. split; [done|]. intros token body (? & ? & ? & ? & [= <- <- <- <- ->] & Ht & Ht8). blia. }
  rewrite !blen_cons in Hge2. left. exists (take (Z.to_nat (h0 mod 16)) l), (drop (Z.to_nat (h0 mod 16)) l).
  assert (blen (take (Z.to_nat (h0 mod 16)) l) = h0 mod 16) as Ht by (rewrite blen_take; dlia). rewrite Ht.
  split; [|done]. exists h0, h1, h2, h3. by rewrite take_drop, Ht.
Qed.

(** The bytes in front of the options *)
Lemma headed_split l token body : headed l token body ->
  exists pre, l = pre ++ body /\ blen pre = 4 + blen token.
Proof.
  intros (h0 & h1 & h2 & h3 & -> & _). exists (h0 :: h1 :: h2 :: h3 :: token). split; [done|blia].
Qed.

Lemma reading_start l pre body : l = pre ++ body -> reading l (context_at (blen pre)) pre body.
Proof. intros ->. split; cbn; [done|done| |lia]. pose proof (blen_nonneg pre). lia. Qed.

Lemma option_fuel_enough b l pre body : rep b l -> l = pre ++ body -> (length body < option_fuel b)%nat.
Proof. intros Hrep ->. unfold option_fuel. rewrite (rep_used _ _ Hrep), blen_to_nat, length_app. lia. Qed.

(** Where the payload is said to start *)
Definition payload_at (l rest : list Z) : Z := if 1 <? blen rest then blen l - blen rest + 1 else 0.

Lemma packet_parse_spec pkt l :
  datagram (buf pkt) l ->
  exists r pkt', coap_packet_parse pkt = Ret (r, pkt')
    /\ (r = 0 /\ (exists token os rest, packet_bytes l token os rest
                  /\ pkt' = set_payload_start pkt (payload_at l rest))
        \/ r = - EINVAL /\ pkt' = pkt
           /\ (blen l <= INT16_MAX -> forall token os rest, ~ packet_bytes l token os rest)).
Proof.
  intros Hdg. pose proof Hdg as [Hrep _ Hlen]. unfold coap_packet_parse.
  destruct (header_len_spec pkt l Hrep) as [(token & body & Hh & Hrun)|[Hrun Hno]]; rewrite Hrun, bind_ret.
  2: { do 2 eexists. split; [done|]. right. split_and!; [done..|]. intros _ token os rest (body & Hh & _). by eapply Hno. }
  pose proof (blen_nonneg token). rewrite (proj2 (Z.ltb_ge _ 0)) by lia. unfold coap_parse_options.
  destruct (headed_split _ _ _ Hh) as (pre & Hl & Hpre). rewrite <- Hpre.
  pose proof (blen_nonneg pre).
  destruct (options_loop_spec _ _ _ _ _ _ Hdg (reading_start _ _ _ Hl) (option_fuel_enough _ _ _ _ Hrep Hl))
    as [(os & rest & Hos & Hrun2)|[Hrun2 Hbad]]; rewrite Hrun2, bind_ret; cbn [opt_used context_at delta] in *.
  2: { do 2 eexists. split; [done|]. right. split_and!; [done..|]. intros Hs token' os rest (body' & Hh' & Ho).
       destruct (headed_functional _ _ _ _ _ Hh Hh') as [<- <-]. by eapply Hbad. }
  destruct (options_rest _ _ _ _ Hos) as [_ Hle]. pose proof (blen_nonneg rest).
  assert (blen l = blen pre + blen body) as Hbl by (subst l; blia).
  rewrite (rep_used _ _ Hrep), !(proj2 (Z.ltb_ge _ _)) by lia.
  exists 0, (set_payload_start pkt (payload_at l rest)). split.
  - unfold payload_at. destruct (Z.leb_spec (blen l) (blen pre + (0 + blen body - blen rest) + 1)).
    + by rewrite (proj2 (Z.ltb_ge 1 _)) by lia.
    + rewrite (proj2 (Z.ltb_lt 1 _)) by lia. do 3 f_equal. lia.
  - left. split; [done|]. exists token, os, rest. split; [by exists body|done].
Qed.

(** C6: parsing a datagram touches no byte outside it and ends with 0 or
    -EINVAL.  On 0 the datagram is a header with its token, a run of
    options, and a marker or nothing, in the grammar the reader implements
    ([packet_bytes]: of two extending bytes only the first counts), and the
    payload starts right behind the marker when anything is there; on -EINVAL
    the packet is unchanged, and up to 32767 bytes the datagram has no such
    form.  As for RFC 7252 itself ([rfc_packet]): up to 32767 bytes a
    datagram of its form is accepted, with the payload it has, when the
    distances between its option numbers and the lengths of its values are
    below 269 or 269 plus a multiple of 256; others can be misread or refused
    ([second_byte_is_refused]). *)
Theorem coap_parse_correct pkt l :
  datagram (buf pkt) l ->
  exists r pkt', coap_packet_parse pkt = Ret (r, pkt')
    /\ (r = 0 /\ (exists token os rest, packet_bytes l token os rest
                  /\ pkt' = set_payload_start pkt (payload_at l rest))
        \/ r = - EINVAL /\ pkt' = pkt
           /\ (blen l <= INT16_MAX -> forall token os rest, ~ packet_bytes l token os rest))
    /\ (blen l <= INT16_MAX -> forall token os rest, rfc_packet l token os rest -> readable_options 0 os ->
         Forall (fun o => o.1 < 65536) os -> r = 0 /\ pkt' = set_payload_start pkt (payload_at l rest)).
Proof.
  intros Hdg. destruct (packet_parse_spec pkt l Hdg) as (r & pkt' & Hrun & Hcase). exists r, pkt'. split_and!; [done|done|].
  intros Hs token os rest (body & Hh & Ho) Hr Hn.
  assert (packet_bytes l token os rest) as Hpb.
  { exists body. split; [done|]. apply rfc_options_readable; [done|lia| |done|done].
    destruct Hh as (h0 & h1 & h2 & h3 & -> & _). pose proof (blen_nonneg token). autorewrite with blen in Hs. zlia. }
  destruct Hcase as [(-> & token' & os' & rest' & Hpb' & ->)|(_ & _ & Hbad)]; [|by eapply Hbad in Hpb].
  by destruct (packet_functional _ _ _ _ _ _ _ Hpb Hpb') as (_ & _ & ->).
Qed.

Lemma options_find_spec pkt l token os rest code room :
  datagram (buf pkt) l -> blen l <= INT16_MAX -> packet_bytes l token os rest -> 0 <= room ->
  exists ss, sol_coap_find_options pkt code room = Ret (blen ss, ss)
    /\ Forall2 (spans l) ss (take (Z.to_nat room) (values code os)).
Proof.
  intros Hdg Hs (body & Hh & Ho) Hroom. pose proof Hdg as [Hrep _ _]. unfold sol_coap_find_options.
  destruct (header_len_spec pkt l Hrep) as [(token' & body' & Hh' & Hrun)|[Hrun Hno]]; [|by apply Hno in Hh].
  destruct (headed_functional _ _ _ _ _ Hh Hh') as [<- <-]. rewrite Hrun, bind_ret.
  pose proof (blen_nonneg token). rewrite (proj2 (Z.ltb_ge _ 0)) by lia.
  destruct (headed_split _ _ _ Hh) as (pre & Hl & Hpre). rewrite <- Hpre.
  exact (find_loop_spec _ _ code _ _ _ _ [] _ _ _ Hdg Hs (reading_start _ _ _ Hl)
           (option_fuel_enough _ _ _ _ Hrep Hl) Hroom Ho).
Qed.

(** In a well-formed packet of at most 32767 bytes the search for an
    option finds the values of all options with this number, in order and
    without their bytes being copied, up to the room the caller gives. *)
Theorem coap_find_options_correct pkt l token os rest code room :
  datagram (buf pkt) l -> blen l <= INT16_MAX -> packet_bytes l token os rest -> 0 <= room ->
  exists ss, sol_coap_find_options pkt code room = Ret (blen ss, ss)
    /\ Forall2 (spans l) ss (take (Z.to_nat room) (values code os)).
Proof. apply options_find_spec. Qed.

(** *** Witnesses: a packet of test-coap.c *)

Definition packet_of (l : list Z) : sol_coap_packet :=
  {| refcnt := 1; buf := {| data := Some l; capacity := blen l; used := blen l; flags := SOL_BUFFER_FLAGS_NO_NUL_BYTE |};
     payload_start := 0 |}.

Lemma rep_packet_of l : blen l <= SSIZE_MAX -> rep (buf (packet_of l)) l.
Proof. intros. split; cbn; [done|split; done|done|by exists []; rewrite app_nil_r]. Qed.

Lemma datagram_of l : Forall is_byte l -> blen l <= 65535 -> datagram (buf (packet_of l)) l.
Proof. intros ? ?. split; [apply rep_packet_of; zlia|done|done]. Qed.

(** The token "token", an empty option 0, a Content-Format and "payload" *)
Definition simple_pdu : list Z :=
  [85; 165; 18; 52; 116; 111; 107; 101; 110; 0; 193; 0; 255; 112; 97; 121; 108; 111; 97; 100; 0].

Lemma simple_datagram : datagram (buf (packet_of simple_pdu)) simple_pdu.
Proof. apply datagram_of; [|done]. unfold is_byte. repeat apply Forall_cons_2; try apply Forall_nil_2; lia. Qed.

Lemma coap_parse_correct_witness :
  coap_packet_parse (packet_of simple_pdu) = Ret (0, set_payload_start (packet_of simple_pdu) 13)
  /\ exists token os rest, packet_bytes simple_pdu token os rest /\ payload_at simple_pdu rest = 13.
Proof.
  split; [reflexivity|].
  destruct (coap_parse_correct (packet_of simple_pdu) simple_pdu simple_datagram)
    as (r & p & Hrun & [(_ & token & os & rest & Hpb & Hp)|(-> & _)] & _); [|discriminate].
  exists token, os, rest. split; [exact Hpb|].
  assert (payload_start p = 13) as Hs by (by injection Hrun as _ <-). by rewrite Hp in Hs.
Defined.

(** A value of 270 bytes, whose length is extended by 0 and 1, is a datagram of
    the RFC and is refused. *)
Lemma second_byte_is_refused :
  let l := [64; 1; 0; 1] ++ [16 * 1 + 14; 0; 1] ++ replicate (Z.to_nat 270) 7 in
  rfc_packet l [] [(1, replicate (Z.to_nat 270) 7)] []
  /\ ('(r, _) ← coap_packet_parse (packet_of l); Ret r) = Ret (- EINVAL).
Proof.
  split; [|by vm_compute]. eexists. split; [exists 64, 1, 0, 1; split_and!; [reflexivity|done|done]|].
  rewrite <- (app_nil_r ([_; _; _] ++ _)).
  apply (rfc_options_cons 0 1 (replicate (Z.to_nat 270) 7) 1 [] 14 [0; 1] [] [] []); [constructor; lia| |constructor; by left].
  apply (rfc_word 0 1); unfold is_byte; lia.
Qed.

End CoapProofs.
