(* ===== verification/CoapBuild.v ===== *)
(** * CoAP packets: writing, and both ends together

    A [message] and its bytes, [encode]; [represents] ties a packet to the
    message it holds.  The setters, options, payload, replies and what goes on
    the wire are operations on messages, and what is written is read back as
    it was, as far as the reader understands the writer's numbers:
    [readable] tells when it does. *)

From S2P Require Import Prelude Arith Str Codec Buffer Coap CoapProofs.
Import Utf8 StrSlice Buffer Coap CoapProofs.

#[local] Open Scope Z_scope.

Module CoapBuild.

(** ** The writer *)

(** The nibble of a number and the bytes that extend it *)
Definition nibble (n : Z) : Z := if n <? 13 then n else if n <? 269 then 13 else 14.

Definition ext (n : Z) : list Z :=
  if n <? 13 then [] else if n <? 269 then [n - 13] else [(n - 269) / 256; (n - 269) mod 256].

Definition option_bytes (d : Z) (v : list Z) : list Z :=
  (16 * nibble d + nibble (blen v)) :: ext d ++ ext (blen v) ++ v.

Fixpoint encode_options (prev : Z) (os : list (Z * list Z)) : list Z :=
  match os with
  | [] => []
  | (n, v) :: os => option_bytes (n - prev) v ++ encode_options n os
  end.

(** The number of the last option, which the next one is counted from *)
Definition last_number (prev : Z) (os : list (Z * list Z)) : Z := foldl (fun _ o => fst o) prev os.

(** A CoAP message; the payload is there from its marker on. *)
Record message := Message {
  m_ver : Z; m_type : Z; m_code : Z; m_id : Z; m_token : list Z;
  m_options : list (Z * list Z); m_payload : option (list Z)
}.

Definition encode_header (m : message) : list Z :=
  [blen (m_token m) + 16 * m_type m + 64 * m_ver m; m_code m; m_id m / 256; m_id m mod 256] ++ m_token m.

Definition encode_payload (p : option (list Z)) : list Z :=
  match p with None => [] | Some p => COAP_MARKER :: p end.

Definition encode (m : message) : list Z :=
  encode_header m ++ encode_options 0 (m_options m) ++ encode_payload (m_payload m).

(** Options in the order of their numbers, each of which fits its field *)
Fixpoint ordered (prev : Z) (os : list (Z * list Z)) : Prop :=
  match os with
  | [] => True
  | (n, v) :: os => prev <= n < 65536 /\ blen v < 65536 /\ Forall is_byte v /\ ordered n os
  end.

Record wf_message (m : message) : Prop := {
  wf_ver : 0 <= m_ver m < 4;
  wf_type : 0 <= m_type m < 4;
  wf_code : is_byte (m_code m);
  wf_id : 0 <= m_id m < 65536;
  wf_token : blen (m_token m) <= 8;
  wf_token_bytes : Forall is_byte (m_token m);
  wf_options : ordered 0 (m_options m);
  wf_payload : Forall is_byte (default [] (m_payload m))
}.

Lemma last_number_app prev os os' : last_number prev (os ++ os') = last_number (last_number prev os) os'.
Proof. apply foldl_app. Qed.

Lemma encode_options_app prev os os' :
  encode_options prev (os ++ os') = encode_options prev os ++ encode_options (last_number prev os) os'.
Proof.
  revert prev. induction os as [|[n v] os IH]; intros prev; [done|]. cbn [encode_options app].
  rewrite IH, <- app_assoc. done.
Qed.

Lemma ordered_app prev os os' :
  ordered prev (os ++ os') <-> ordered prev os /\ ordered (last_number prev os) os'.
Proof. revert prev. induction os as [|[n v] os IH]; intros prev; cbn; [tauto|]. rewrite IH. cbn. tauto. Qed.

Lemma readable_app prev os os' :
  readable_options prev (os ++ os') <-> readable_options prev os /\ readable_options (last_number prev os) os'.
Proof. revert prev. induction os as [|[n v] os IH]; intros prev; cbn; [tauto|]. rewrite IH. cbn. tauto. Qed.

Lemma last_number_ge prev os : ordered prev os -> prev <= last_number prev os.
Proof.
  revert prev. induction os as [|[n v] os IH]; intros prev; cbn; [lia|]. intros (? & _ & _ & Ho).
  specialize (IH _ Ho). unfold last_number in IH. lia.
Qed.

Lemma nibble_range n : 0 <= n -> 0 <= nibble n <= 14.
Proof. intros. unfold nibble. destruct (Z.ltb_spec n 13), (Z.ltb_spec n 269); lia. Qed.

Lemma ext_bytes n : 0 <= n < 65536 -> Forall is_byte (ext n).
Proof.
  intros. unfold ext, is_byte. destruct (Z.ltb_spec n 13); [constructor|].
  destruct (Z.ltb_spec n 269); repeat constructor; dlia.
Qed.

Lemma blen_ext n : 0 <= blen (ext n) <= 2.
Proof. unfold ext. destruct (n <? 13); [by vm_compute|]. destruct (n <? 269); by vm_compute. Qed.

Lemma field_readable n : 0 <= n < 65536 -> readable n -> field n (nibble n) (ext n).
Proof.
  intros Hn Hr. pose proof (ext_bytes n Hn) as Hb. unfold nibble, ext in *.
  destruct (Z.ltb_spec n 13); [apply field_nibble; lia|].
  destruct (Z.ltb_spec n 269).
  - inversion Hb; subst. replace n with (n - 13 + 13) at 1 by lia. by apply field_byte.
  - destruct Hr as [|Hr]; [lia|]. inversion Hb as [|? ? Hx Hb2]; subst. inversion Hb2; subst.
    replace n with ((256 * ((n - 269) / 256) + 269) mod 65536) at 1; [by apply field_word|].
    rewrite Z.mod_small; dlia.
Qed.

Lemma option_readable d v : 0 <= d < 65536 -> blen v < 65536 -> readable d -> readable (blen v) ->
  one_option d v (option_bytes d v).
Proof. intros. pose proof (blen_nonneg v). constructor; by apply field_readable. Qed.

Lemma options_encode prev os rest :
  0 <= prev -> ordered prev os -> readable_options prev os -> stops rest ->
  options_in prev (encode_options prev os ++ rest) os rest.
Proof.
  revert prev. induction os as [|[n v] os IH]; intros prev Hp; [by constructor|].
  cbn [encode_options ordered readable_options]. intros (Hn & Hv & Hb & Ho) (Hd & Hl & Hr) Hs. rewrite <- app_assoc.
  replace ((n, v) :: os) with ((prev + (n - prev), v) :: os) by (by rewrite Zplus_minus).
  econstructor; [apply option_readable; [lia|done|done|done]|]. rewrite Zplus_minus. apply IH; [lia|done..].
Qed.

Lemma payload_stops p : stops (encode_payload p).
Proof. destruct p as [p|]; [right; by exists p|by left]. Qed.

Lemma headed_encode m : wf_message m ->
  headed (encode m) (m_token m) (encode_options 0 (m_options m) ++ encode_payload (m_payload m)).
Proof.
  intros [Hv Ht Hc Hi Hk _ _ _]. unfold encode, encode_header. do 4 eexists. split; [by rewrite <- app_assoc|].
  split; [|done]. pose proof (blen_nonneg (m_token m)). dlia.
Qed.

Lemma packet_encode m : wf_message m -> readable_options 0 (m_options m) ->
  packet_bytes (encode m) (m_token m) (m_options m) (encode_payload (m_payload m)).
Proof.
  intros Hwf Hr. eexists. split; [by apply headed_encode|].
  apply options_encode; [done|by apply wf_options|done|apply payload_stops].
Qed.

Lemma option_bytes_bytes d v : 0 <= d < 65536 -> blen v < 65536 -> Forall is_byte v -> Forall is_byte (option_bytes d v).
Proof.
  intros Hd Hv Hb. pose proof (blen_nonneg v). unfold option_bytes.
  pose proof (nibble_range d ltac:(lia)). pose proof (nibble_range (blen v) ltac:(lia)).
  constructor; [unfold is_byte; lia|]. rewrite !Forall_app. split_and!; [by apply ext_bytes..|done].
Qed.

Lemma options_bytes prev os : 0 <= prev -> ordered prev os -> Forall is_byte (encode_options prev os).
Proof.
  revert prev. induction os as [|[n v] os IH]; intros prev Hp; [constructor|]. cbn [encode_options ordered].
  intros (? & ? & ? & ?). apply Forall_app. split; [apply option_bytes_bytes; [lia|done|done]|]. apply IH; [lia|done].
Qed.

Lemma encode_bytes m : wf_message m -> Forall is_byte (encode m).
Proof.
  intros [? ? Hc ? ? ? ? ?]. unfold encode, encode_header. rewrite !Forall_app. pose proof (blen_nonneg (m_token m)).
  split_and!; [|done|by apply options_bytes|].
  - repeat apply Forall_cons_2; [..|apply Forall_nil_2]; [unfold is_byte; lia|done|unfold is_byte; dlia|unfold is_byte; dlia].
  - destruct (m_payload m); [|constructor]. by constructor; [unfold is_byte, COAP_MARKER; lia|].
Qed.

Lemma own_flags b b' : flags b' = flags b -> own_bytes b -> own_bytes b'.
Proof. unfold own_bytes. congruence. Qed.

Lemma update_at b pre x post f :
  rep b (pre ++ x :: post) ->
  exists b', update_byte b (sol_buffer_at b (blen pre)) f = Ret b' /\ flags b' = flags b
    /\ capacity b' = capacity b /\ rep b' (pre ++ f x :: post).
Proof.
  intros Hrep. pose proof (load_at b _ pre x post Hrep eq_refl) as Hload. unfold load_byte in Hload.
  unfold sol_buffer_at in *. destruct (blen pre >? used b); [done|]. cbn [update_byte]. rewrite Hload, bind_ret.
  by apply (store_inside b pre [x] [f x] post).
Qed.

Section Writing.
Context `{BuildConfig} `{Allocator}.

Lemma insert_bytes_end b bs : sol_buffer_insert_bytes b (used b) bs = sol_buffer_append_bytes b bs.
Proof.
  unfold sol_buffer_insert_bytes, sol_buffer_append_bytes. rewrite Z.gtb_ltb, Z.ltb_irrefl, Z.eqb_refl.
  by destruct (blen bs =? 0).
Qed.

Lemma delta_encode_spec b l n :
  rep b l -> own_bytes b -> 0 <= n < 65536 -> blen l + 2 <= 2 ^ 62 ->
  exists r x b', delta_encode n b (blen l) = Ret (r, x, b') /\ own_bytes b'
    /\ (r = blen (ext n) /\ x = nibble n /\ rep b' (l ++ ext n) \/ r < 0 /\ refused).
Proof.
  intros Hrep Hown Hn Hle. unfold delta_encode, ext, nibble. pose proof (rep_used _ _ Hrep) as Hu.
  destruct (Z.ltb_spec n 13).
  { do 3 eexists. split; [done|]. split; [done|]. left. rewrite app_nil_r, wrapu_small by lia. done. }
  destruct (Z.ltb_spec n 269).
  - destruct (own_append_char b l (n - 13) Hrep Hown ltac:(lia)) as (r & b' & Hrun & Hown' & Hcase).
    unfold sol_buffer_insert_char. rewrite Hu, Z.gtb_ltb, Z.ltb_irrefl, Z.eqb_refl, Hrun, bind_ret.
    do 3 eexists. split; [done|]. split; [done|]. destruct Hcase as [[-> ?]|[? ?]]; [by left|right].
    by rewrite (proj2 (Z.ltb_lt r 0)).
  - rewrite wrapu_small, be_bytes by lia. rewrite <- Hu, insert_bytes_end.
    destruct (own_append b l [(n - 269) / 256; (n - 269) mod 256] Hrep Hown) as (r & b' & Hrun & Hown' & Hcase); [done|].
    rewrite Hrun, bind_ret. do 3 eexists. split; [done|]. split; [done|]. destruct Hcase as [[-> ?]|[? ?]]; [by left|right].
    by rewrite (proj2 (Z.ltb_lt r 0)).
Qed.

Lemma option_encode_spec b l c code v :
  rep b l -> own_bytes b -> pos c = blen l -> 0 <= code - delta c < 65536 -> blen v < 65536 -> blen l <= 2 ^ 61 ->
  exists r b', coap_option_encode b c code v = Ret (r, b') /\ own_bytes b'
    /\ (0 <= r /\ rep b' (l ++ option_bytes (code - delta c) v) \/ r < 0 /\ refused).
Proof.
  intros Hrep Hown Hp Hd Hv Hle. unfold coap_option_encode. rewrite Hp. set (d := code - delta c) in *. cbv zeta.
  pose proof (blen_nonneg v). pose proof (blen_ext d). pose proof (blen_ext (blen v)).
  pose proof (nibble_range d ltac:(lia)). pose proof (nibble_range (blen v) ltac:(lia)).
  destruct (own_set_char_end b l 0 Hrep Hown ltac:(lia)) as (r & b1 & -> & Hown1 & [[-> Hrep1]|[Hneg ?]]); rewrite bind_ret.
  2: { rewrite (proj2 (Z.ltb_lt r 0)) by done. do 2 eexists. split; [done|]. auto. }
  cbn [Z.ltb Z.compare]. assert (blen l + 1 = blen (l ++ [0])) as -> by blia.
  destruct (delta_encode_spec b1 _ d Hrep1 Hown1 ltac:(lia) ltac:(blia))
    as (r & x & b2 & -> & Hown2 & [(-> & -> & Hrep2)|[Hneg ?]]); rewrite bind_ret.
  2: { rewrite (proj2 (Z.ltb_lt r 0)) by done. do 2 eexists. split; [done|]. split; [done|]. right. split; [zlia|done]. }
  rewrite (proj2 (Z.ltb_ge _ 0)) by lia. rewrite <- app_assoc in Hrep2.
  destruct (update_at b2 l 0 (ext d) (fun y => coap_option_header_set_delta y (nibble d)) Hrep2)
    as (b3 & -> & Hfl3 & _ & Hrep3). rewrite bind_ret. apply (own_flags b2 b3) in Hown2; [|done].
  rewrite set_delta_zero in Hrep3 by lia.
  assert (blen l + (1 + blen (ext d)) = blen (l ++ 16 * nibble d :: ext d)) as -> by blia.
  destruct (delta_encode_spec b3 _ (blen v) Hrep3 Hown2 ltac:(lia) ltac:(blia))
    as (r & x & b4 & -> & Hown4 & [(-> & -> & Hrep4)|[Hneg ?]]); rewrite bind_ret.
  2: { rewrite (proj2 (Z.ltb_lt r 0)) by done. do 2 eexists. split; [done|]. auto. }
  rewrite (proj2 (Z.ltb_ge _ 0)) by lia. rewrite <- app_assoc, <- app_comm_cons in Hrep4.
  destruct (update_at b4 l _ _ (fun y => coap_option_header_set_len y (nibble (blen v))) Hrep4)
    as (b5 & -> & Hfl5 & _ & Hrep5). rewrite bind_ret. apply (own_flags b4 b5) in Hown4; [|done].
  rewrite set_len_nibbles in Hrep5 by lia.
  assert (blen l + (1 + blen (ext d) + blen (ext (blen v))) = used b5) as ->.
  { rewrite (rep_used _ _ Hrep5). blia. }
  rewrite insert_bytes_end.
  destruct (own_append b5 _ v Hrep5 Hown4 ltac:(blia)) as (r & b6 & -> & Hown6 & [[-> Hrep6]|[Hneg ?]]); rewrite bind_ret.
  - do 2 eexists. split; [done|]. split; [done|]. left. cbn [Z.ltb Z.compare]. split; [lia|].
    unfold option_bytes. by rewrite <- app_assoc, <- app_comm_cons, <- app_assoc in Hrep6.
  - rewrite (proj2 (Z.ltb_lt r 0)) by done. do 2 eexists. split; [done|]. auto.
Qed.
End Writing.

(** ** Packets that are built *)

Definition payload_offset (m : message) : Z :=
  match m_payload m with
  | None => 0
  | Some _ => blen (encode_header m ++ encode_options 0 (m_options m)) + 1
  end.

(** The packet holds this message. *)
Record represents (pkt : sol_coap_packet) (m : message) : Prop := {
  represents_bytes : rep (buf pkt) (encode m);
  represents_own : own_bytes (buf pkt);
  represents_payload : payload_start pkt = payload_offset m;
  represents_wf : wf_message m
}.

Lemma last_option_spec b l fuel c pre bs os code :
  datagram b l -> blen l <= INT16_MAX -> reading l c pre bs -> (length bs < fuel)%nat ->
  options_in (delta c) bs os [] -> delta c <= code ->
  Forall (fun o => fst o <= code) os /\ (exists c', last_option_loop b code c fuel = Ret (inr c')
     /\ pos c' = blen l /\ delta c' = last_number (delta c) os)
  \/ ~ Forall (fun o => fst o <= code) os /\ last_option_loop b code c fuel = Ret (inl (- EINVAL)).
Proof.
  intros Hdg Hs. revert c pre bs os. induction fuel as [|fuel IH]; intros c pre bs os Hr Hf Hos Hc; [lia|].
  cbn [last_option_loop]. rewrite (proj2 (Z.leb_le _ _)) by done. cbn [negb].
  destruct (parse_option_spec _ _ _ _ _ Hdg Hr)
    as [[Hst Hrun]|[(d & v & o & bs' & c' & s & Hbs & Ho & Hrun & Hr' & Hd & Hu & _)|(r & c' & Hneg & Hrun & Hns & Hbad)]];
    rewrite Hrun, bind_ret.
  - destruct (options_stop_inv _ _ _ _ Hst Hos) as [-> <-].
    left. split; [done|]. exists c. cbn. split_and!; [done| |done].
    rewrite (reading_pos _ _ _ _ Hr), (reading_split _ _ _ _ Hr). by rewrite app_nil_r.
  - subst bs. destruct (option_length _ _ _ Ho). pose proof (reading_used _ _ _ _ Hr).
    rewrite (proj2 (Z.ltb_ge _ 0)), (proj2 (Z.eqb_neq _ 0)) by lia.
    destruct (options_cons_inv _ _ _ _ _ _ _ Ho Hos) as (os2 & -> & Hos2). rewrite <- Hd in Hos2 |- *.
    destruct (Z.ltb_spec code (delta c')).
    { right. split; [|done]. intros [Hle _]%Forall_cons_1. cbn in Hle. lia. }
    rewrite length_app in Hf. destruct (IH _ _ _ os2 Hr') as [[Hall (c2 & -> & Hp2 & Hd2)]|[Hno ->]];
      [unfold blen in *; lia|done|lia| |].
    + left. split; [by constructor; [cbn; lia|]|]. by exists c2.
    + right. split; [|done]. by intros [_ ?]%Forall_cons_1.
  - destruct Hos; [done|]. by eapply Hbad in Hs.
Qed.

Lemma ordered_le prev os code : ordered prev os -> prev <= code ->
  Forall (fun o => fst o <= code) os <-> last_number prev os <= code.
Proof.
  revert prev. induction os as [|[n v] os IH]; intros prev; cbn [ordered].
  { intros _ ?. split; [by intros|constructor]. }
  intros (Hn & _ & _ & Ho) Hc. change (last_number prev ((n, v) :: os)) with (last_number n os).
  destruct (Z.le_gt_cases n code) as [Hle|Hgt].
  - rewrite Forall_cons, IH by done. cbn. tauto.
  - pose proof (last_number_ge _ _ Ho). split; [intros [? _]%Forall_cons_1; cbn in *; lia|lia].
Qed.

Section Building.
Context `{BuildConfig} `{Allocator}.

Lemma add_option_spec pkt m code v :
  represents pkt m -> readable_options 0 (m_options m) -> blen (encode m) <= INT16_MAX ->
  0 <= code < 65536 -> blen v < 65536 -> Forall is_byte v ->
  exists r pkt', sol_coap_add_option pkt code (Some v) = Ret (r, pkt')
    /\ (r = 0 /\ m_payload m = None /\ last_number 0 (m_options m) <= code
          /\ represents pkt' (Message (m_ver m) (m_type m) (m_code m) (m_id m) (m_token m)
                                      (m_options m ++ [(code, v)]) None)
        \/ r = - EINVAL /\ pkt' = pkt /\ ~ (m_payload m = None /\ last_number 0 (m_options m) <= code)
        \/ r < 0 /\ refused).
Proof.
  intros [Hrep Hown Hstart Hwf] Hread Hs Hcode Hv Hb. pose proof (wf_options _ Hwf) as Hord.
  unfold sol_coap_add_option. rewrite Hstart. unfold payload_offset.
  destruct (m_payload m) as [p|] eqn:Hp.
  { rewrite (proj2 (Z.eqb_neq _ 0)) by (pose proof (blen_nonneg (encode_header m ++ encode_options 0 (m_options m))); lia).
    do 2 eexists. split; [done|]. right. left. split_and!; [done..|]. by intros [? _]. }
  cbn [Z.eqb negb].
  destruct (header_len_spec pkt _ Hrep) as [(token & body & Hh & Hrun)|[_ Hno]].
  2: { exfalso. eapply Hno. by apply headed_encode. }
  destruct (headed_functional _ _ _ _ _ Hh (headed_encode _ Hwf)) as [-> ->]. rewrite Hrun, bind_ret.
  pose proof (blen_nonneg (m_token m)). rewrite (proj2 (Z.ltb_ge _ 0)) by lia.
  destruct (headed_split _ _ _ Hh) as (pre & Hl & Hpre). rewrite <- Hpre.
  assert (datagram (buf pkt) (encode m)) as Hdg by (split; [done|by apply encode_bytes|zlia]).
  pose proof (options_encode 0 (m_options m) [] ltac:(done) Hord Hread ltac:(by left)) as Hin.
  rewrite Hp in Hl. cbn [encode_payload] in Hl.
  destruct (last_option_spec _ _ _ _ _ _ _ code Hdg Hs (reading_start _ _ _ Hl) (option_fuel_enough _ _ _ _ Hrep Hl) Hin ltac:(cbn; lia))
    as [[Hall (c & -> & Hpos & Hdelta)]|[Hno ->]]; rewrite bind_ret; rewrite (ordered_le 0) in * by (done || lia).
  2: { do 2 eexists. split; [done|]. right. left. split_and!; [done..|]. by intros [_ ?]. }
  cbn [delta context_at] in Hdelta. pose proof (last_number_ge _ _ Hord).
  destruct (option_encode_spec (buf pkt) _ c code v Hrep Hown Hpos) as (r & b & -> & Hown' & Hcase); [lia|done|zlia|].
  rewrite bind_ret. do 2 eexists. split; [done|]. destruct Hcase as [[Hr Hrep']|[Hr ?]].
  2: { right. right. by rewrite (proj2 (Z.ltb_lt r 0)). }
  rewrite (proj2 (Z.ltb_ge r 0)) by done. left. split_and!; [done..|]. split; cbn [buf set_buf payload_start]; [|done|by rewrite Hstart; unfold payload_offset; rewrite Hp|].
  - unfold encode in *. rewrite Hp in Hrep'. cbn [m_options m_payload encode_payload] in *. rewrite app_nil_r in *.
    rewrite encode_options_app. cbn [encode_options]. rewrite app_nil_r, <- Hdelta. by rewrite <- app_assoc in Hrep'.
  - destruct Hwf. split; cbn [m_ver m_type m_code m_id m_token m_options m_payload]; try done.
    apply ordered_app. split; [done|]. cbn [ordered]. split_and!; done || lia.
Qed.

(** *** The header *)

Lemma ver_bits x v : 0 <= x < 256 -> 0 <= v < 256 ->
  Z.lor (Z.land x 63) (Z.shiftl (Z.land v 3) 6) = x mod 64 + 64 * (v mod 4).
Proof.
  intros Hx Hv. apply Z.eqb_eq.
  apply (range_forall2 256 256 (fun x v => Z.lor (Z.land x 63) (Z.shiftl (Z.land v 3) 6) =? x mod 64 + 64 * (v mod 4))); [by vm_compute|done|done].
Qed.

Lemma type_bits x t : 0 <= x < 256 -> 0 <= t < 256 ->
  Z.lor (Z.land x 207) (Z.shiftl (Z.land t 3) 4) = x mod 16 + 16 * (t mod 4) + 64 * (x / 64).
Proof.
  intros Hx Ht. apply Z.eqb_eq.
  apply (range_forall2 256 256 (fun x t => Z.lor (Z.land x 207) (Z.shiftl (Z.land t 3) 4)
                                               =? x mod 16 + 16 * (t mod 4) + 64 * (x / 64))); [by vm_compute|done|done].
Qed.

Lemma tkl_bits x n : 0 <= x < 256 -> 0 <= n < 256 ->
  Z.lor (Z.land x 240) (Z.land n 15) = 16 * (x / 16) + n mod 16.
Proof.
  intros Hx Hn. apply Z.eqb_eq.
  apply (range_forall2 256 256 (fun x n => Z.lor (Z.land x 240) (Z.land n 15) =? 16 * (x / 16) + n mod 16)); [by vm_compute|done|done].
Qed.

Lemma with_header_room pkt l write :
  rep (buf pkt) l -> own_bytes (buf pkt) -> 4 <= blen l ->
  with_header pkt write = (b ← write (buf pkt); Ret (0, set_buf pkt b)).
Proof.
  intros Hrep Hown Hl. destruct (own_bytes_flags _ Hown) as (Hnul & _). pose proof (rep_fits _ _ Hrep).
  destruct (ensure_spec (buf pkt) l 4 Hrep ltac:(lia)) as (r & b & Hrun & _ & _ & _ & Hin & _).
  rewrite Hnul in Hin. destruct Hin as [-> ->]; [lia|]. unfold with_header, sizeof_coap_header. by rewrite Hrun, bind_ret.
Qed.

(** The message behind its first byte, and behind its four header bytes *)
Definition body_of (m : message) : list Z :=
  m_token m ++ encode_options 0 (m_options m) ++ encode_payload (m_payload m).

Definition first_byte (m : message) : Z := blen (m_token m) + 16 * m_type m + 64 * m_ver m.

Lemma encode_split m :
  encode m = first_byte m :: m_code m :: m_id m / 256 :: m_id m mod 256 :: body_of m.
Proof. unfold encode, encode_header, body_of. by rewrite <- app_assoc. Qed.

Lemma blen_encode m : blen (encode m) = 4 + blen (body_of m).
Proof. rewrite encode_split. blia. Qed.

Lemma first_byte_range m : wf_message m -> 0 <= first_byte m < 256.
Proof. intros [? ? _ _ ? _ _ _]. unfold first_byte. pose proof (blen_nonneg (m_token m)). lia. Qed.

(** A write to the header turns the message into one that differs in the
    four bytes only. *)
Lemma header_write pkt m m' write :
  represents pkt m -> wf_message m' -> body_of m' = body_of m -> payload_offset m' = payload_offset m ->
  (forall b, rep b (encode m) -> exists b', write b = Ret b' /\ flags b' = flags b /\ rep b' (encode m')) ->
  exists pkt', with_header pkt write = Ret (0, pkt') /\ represents pkt' m'.
Proof.
  intros [Hrep Hown Hstart Hwf] Hwf' Hbody Hoff Hwrite. rewrite (with_header_room _ _ _ Hrep Hown).
  2: { rewrite blen_encode. pose proof (blen_nonneg (body_of m)). lia. }
  destruct (Hwrite _ Hrep) as (b' & -> & Hfl & Hrep'). rewrite bind_ret. eexists. split; [done|].
  split; cbn [buf set_buf payload_start]; [done|by eapply own_flags|congruence|done].
Qed.

Lemma payload_offset_same m m' : blen (m_token m') = blen (m_token m) -> m_options m' = m_options m ->
  m_payload m' = m_payload m -> payload_offset m' = payload_offset m.
Proof. intros Ht Ho Hp. unfold payload_offset. rewrite Hp, Ho. unfold encode_header. destruct (m_payload m); [|done]. blia. Qed.

Lemma update_first b x l f : rep b (x :: l) ->
  exists b', update_byte b (Some 0) f = Ret b' /\ flags b' = flags b /\ rep b' (f x :: l).
Proof.
  intros Hrep. destruct (update_at b [] x l f Hrep) as (b' & Hrun & Hfl & _ & Hrep').
  pose proof (rep_used _ _ Hrep) as Hu. unfold sol_buffer_at in Hrun. rewrite Z.gtb_ltb in Hrun.
  rewrite (proj2 (Z.ltb_ge _ _)) in Hrun by (rewrite Hu; blia). by exists b'.
Qed.

Lemma set_version_spec pkt m v : represents pkt m -> is_byte v ->
  exists pkt', sol_coap_header_set_version pkt v = Ret (0, pkt')
    /\ represents pkt' (Message (v mod 4) (m_type m) (m_code m) (m_id m) (m_token m) (m_options m) (m_payload m)).
Proof.
  intros Hpk Hv. pose proof (represents_wf _ _ Hpk) as Hwf. pose proof (first_byte_range m Hwf) as Hr.
  apply (header_write _ m); [done| |done|by apply payload_offset_same|].
  { destruct Hwf. split; cbn; try done. dlia. }
  intros b Hrep. rewrite encode_split in Hrep. destruct (update_first _ _ _ (fun x => Z.lor (Z.land x 63) (Z.shiftl (Z.land v 3) 6)) Hrep) as (b' & -> & ? & Hrep').
  exists b'. split_and!; [done|done|]. rewrite ver_bits in Hrep' by (unfold is_byte in *; lia).
  rewrite encode_split. unfold first_byte, body_of in *. cbn [m_ver m_type m_code m_id m_token m_options m_payload].
  destruct Hwf. replace (blen (m_token m) + 16 * m_type m + 64 * (v mod 4))
    with ((blen (m_token m) + 16 * m_type m + 64 * m_ver m) mod 64 + 64 * (v mod 4)); [done|].
  pose proof (blen_nonneg (m_token m)). dlia.
Qed.

Lemma set_type_spec pkt m t : represents pkt m -> is_byte t ->
  exists pkt', sol_coap_header_set_type pkt t = Ret (0, pkt')
    /\ represents pkt' (Message (m_ver m) (t mod 4) (m_code m) (m_id m) (m_token m) (m_options m) (m_payload m)).
Proof.
  intros Hpk Ht. pose proof (represents_wf _ _ Hpk) as Hwf. pose proof (first_byte_range m Hwf) as Hr.
  apply (header_write _ m); [done| |done|by apply payload_offset_same|].
  { destruct Hwf. split; cbn; try done. dlia. }
  intros b Hrep. rewrite encode_split in Hrep. destruct (update_first _ _ _ (fun x => Z.lor (Z.land x 207) (Z.shiftl (Z.land t 3) 4)) Hrep) as (b' & -> & ? & Hrep').
  exists b'. split_and!; [done|done|]. rewrite type_bits in Hrep' by (unfold is_byte in *; lia).
  rewrite encode_split. unfold first_byte, body_of in *. cbn [m_ver m_type m_code m_id m_token m_options m_payload].
  destruct Hwf. pose proof (blen_nonneg (m_token m)).
  replace (blen (m_token m) + 16 * (t mod 4) + 64 * m_ver m)
    with ((blen (m_token m) + 16 * m_type m + 64 * m_ver m) mod 16 + 16 * (t mod 4)
          + 64 * ((blen (m_token m) + 16 * m_type m + 64 * m_ver m) / 64)); [done|]. dlia.
Qed.

Lemma set_code_spec pkt m c : represents pkt m -> is_byte c ->
  exists pkt', sol_coap_header_set_code pkt c = Ret (0, pkt')
    /\ represents pkt' (Message (m_ver m) (m_type m) c (m_id m) (m_token m) (m_options m) (m_payload m)).
Proof.
  intros Hpk Hc. pose proof (represents_wf _ _ Hpk) as Hwf.
  apply (header_write _ m); [done| |done|by apply payload_offset_same|].
  { destruct Hwf. by split. }
  intros b Hrep. rewrite encode_split in Hrep. destruct (store_inside b [first_byte m] [m_code m] [c] _ Hrep eq_refl)
    as (b' & Hrun & ? & _ & Hrep'). exists b'. by rewrite encode_split.
Qed.

Lemma set_id_spec pkt m i : represents pkt m -> 0 <= i < 65536 ->
  exists pkt', sol_coap_header_set_id pkt i = Ret (0, pkt')
    /\ represents pkt' (Message (m_ver m) (m_type m) (m_code m) i (m_token m) (m_options m) (m_payload m)).
Proof.
  intros Hpk Hi. pose proof (represents_wf _ _ Hpk) as Hwf.
  apply (header_write _ m); [done| |done|by apply payload_offset_same|].
  { destruct Hwf. by split. }
  intros b Hrep. rewrite encode_split in Hrep. rewrite be_bytes by lia.
  destruct (store_inside b [first_byte m; m_code m] [m_id m / 256; m_id m mod 256] [i / 256; i mod 256] _ Hrep eq_refl)
    as (b' & Hrun & ? & _ & Hrep'). exists b'. by rewrite encode_split.
Qed.

(** Setting the token of a packet that has none; what is behind it, options
    and payload, moves. *)
Lemma set_token_rep pkt m t : rep (buf pkt) (encode m) -> own_bytes (buf pkt) -> wf_message m -> m_token m = [] ->
  blen t <= 8 -> Forall is_byte t -> blen (encode m) <= 2 ^ 61 ->
  exists r b, sol_coap_header_set_token pkt t = Ret (r, set_buf pkt b) /\ own_bytes b
    /\ (r = 0 /\ rep b (encode (Message (m_ver m) (m_type m) (m_code m) (m_id m) t (m_options m) (m_payload m)))
        \/ r < 0 /\ rep b (encode m) /\ refused).
Proof.
  intros Hrep Hown Hwf Htok Ht Hb Hle. pose proof (blen_nonneg t).
  destruct (own_bytes_flags _ Hown) as (Hnul & _). pose proof (rep_fits _ _ Hrep). pose proof (blen_nonneg (body_of m)).
  pose proof (blen_encode m).
  destruct (ensure_spec (buf pkt) _ 4 Hrep ltac:(lia)) as (r & b & Hrun & _ & _ & _ & Hin & _).
  rewrite Hnul in Hin. destruct Hin as [-> ->]; [lia|]. unfold sol_coap_header_set_token, sizeof_coap_header.
  rewrite Hrun, bind_ret. cbn [Z.ltb Z.compare].
  destruct (own_insert (buf pkt) _ 4 t Hrep Hown ltac:(lia) ltac:(lia)) as (r & b1 & Hrun1 & Hown1 & Hcase).
  unfold sol_buffer_insert_slice. rewrite Hrun1, bind_ret. destruct Hcase as [[-> Hrep1]|(Hneg & Hrep1 & ?)].
  2: { rewrite (proj2 (Z.ltb_lt r 0)) by done. do 2 eexists. split; [done|]. split; [done|]. by right. }
  cbn [Z.ltb Z.compare]. rewrite encode_split in Hrep1. change (Z.to_nat 4) with 4%nat in Hrep1. cbn [take drop app] in Hrep1.
  destruct (update_first _ _ _ (fun x => Z.lor (Z.land x 240) (Z.land (blen t) 15)) Hrep1) as (b2 & -> & Hfl & Hrep2).
  rewrite bind_ret. do 2 eexists. split; [done|]. split; [by eapply own_flags|]. left. split; [done|].
  pose proof (first_byte_range m Hwf). rewrite tkl_bits in Hrep2 by lia. destruct Hwf.
  rewrite encode_split. unfold first_byte, body_of in *. cbn [m_ver m_type m_code m_id m_token m_options m_payload].
  rewrite Htok in *. cbn [app] in *. change (blen (@nil Z)) with 0 in *.
  replace (blen t + 16 * m_type m + 64 * m_ver m)
    with (16 * ((0 + 16 * m_type m + 64 * m_ver m) / 16) + blen t mod 16) by dlia. done.
Qed.

Lemma set_token_spec pkt m t : represents pkt m -> m_token m = [] -> m_payload m = None ->
  blen t <= 8 -> Forall is_byte t -> blen (encode m) <= 2 ^ 61 ->
  exists r pkt', sol_coap_header_set_token pkt t = Ret (r, pkt')
    /\ (r = 0 /\ represents pkt' (Message (m_ver m) (m_type m) (m_code m) (m_id m) t (m_options m) None)
        \/ r < 0 /\ represents pkt' m /\ refused).
Proof.
  intros [Hrep Hown Hstart Hwf] Htok Hpay Ht Hb Hle.
  destruct (set_token_rep pkt m t Hrep Hown Hwf Htok Ht Hb Hle) as (r & b & -> & Hown' & Hcase). do 2 eexists. split; [done|].
  destruct Hcase as [[-> Hrep']|(Hneg & Hrep' & ?)]; [left|right; split_and!; [done|by split|done]]. split; [done|]. rewrite Hpay in Hrep'.
  destruct Hwf. split; [done|done|cbn; rewrite Hstart; unfold payload_offset; by rewrite Hpay|by split].
Qed.

(** The message once its payload was asked for *)
Definition opened (m : message) : message :=
  Message (m_ver m) (m_type m) (m_code m) (m_id m) (m_token m) (m_options m) (Some (default [] (m_payload m))).

Lemma encode_opened m : encode (opened m)
  = ((encode_header m ++ encode_options 0 (m_options m)) ++ [COAP_MARKER]) ++ default [] (m_payload m).
Proof. unfold encode, opened. cbn [m_options m_payload encode_payload]. by rewrite <- !app_assoc. Qed.

Lemma payload_offset_opened m :
  payload_offset (opened m) = blen ((encode_header m ++ encode_options 0 (m_options m)) ++ [COAP_MARKER]).
Proof. unfold payload_offset, opened. cbn [m_options m_payload]. rewrite (blen_app _ [COAP_MARKER]). done. Qed.

Lemma encode_opened_none m : m_payload m = None -> encode (opened m) = encode m ++ [COAP_MARKER].
Proof. intros Hp. rewrite encode_opened. unfold encode. rewrite Hp. cbn [default encode_payload]. by rewrite !app_nil_r. Qed.

Lemma opened_some m p : m_payload m = Some p -> opened m = m.
Proof. intros Hp. unfold opened. rewrite Hp. destruct m. cbn in *. by subst. Qed.

Lemma blen_opened m : blen (encode (opened m)) <= blen (encode m) + 1.
Proof.
  destruct (m_payload m) as [p|] eqn:Hp; [rewrite (opened_some _ _ Hp); lia|].
  rewrite encode_opened_none by done. blia.
Qed.

Lemma get_payload_spec pkt m : represents pkt m -> blen (encode m) <= 2 ^ 61 ->
  exists r pkt' p, sol_coap_packet_get_payload pkt = Ret (r, pkt', p)
    /\ (r = 0 /\ represents pkt' (opened m) /\ p = payload_offset (opened m) \/ r < 0 /\ refused).
Proof.
  intros Hpk Hle. pose proof Hpk as [Hrep Hown Hstart Hwf]. unfold sol_coap_packet_get_payload.
  destruct (m_payload m) as [p|] eqn:Hp.
  { rewrite (opened_some _ _ Hp), Hstart. rewrite (proj2 (Z.eqb_neq _ 0)).
    2: { rewrite <- (opened_some _ _ Hp), payload_offset_opened, blen_app. change (blen [COAP_MARKER]) with 1.
         pose proof (blen_nonneg (encode_header m ++ encode_options 0 (m_options m))). lia. }
    rewrite bind_ret. do 3 eexists. split; [done|]. by left. }
  pose proof Hstart as Hz. unfold payload_offset in Hz. rewrite Hp in Hz. rewrite Hz. cbn [Z.eqb].
  pose proof (blen_nonneg (encode m)).
  destruct (own_append_char (buf pkt) _ COAP_MARKER Hrep Hown ltac:(lia)) as (r & b & -> & Hown' & [[-> Hrep']|[Hneg ?]]);
    rewrite bind_ret.
  2: { rewrite (proj2 (Z.ltb_lt r 0)) by done. rewrite bind_ret. do 3 eexists. split; [done|]. auto. }
  cbn [Z.ltb Z.compare]. rewrite bind_ret. do 3 eexists. split; [done|]. left. split; [done|].
  assert (used b = payload_offset (opened m)) as Hu.
  { rewrite (rep_used _ _ Hrep'), payload_offset_opened. unfold encode. rewrite Hp. cbn [encode_payload]. by rewrite app_nil_r. }
  split; [|done]. split; [by rewrite encode_opened_none|done|done|]. destruct Hwf. by split.
Qed.

(** What a program does with the payload: get it, then append to it *)
Definition append_payload (pkt : sol_coap_packet) (bs : list Z) : outcome (Z * sol_coap_packet) :=
  '(r, pkt, _) ← sol_coap_packet_get_payload pkt;
  if r <? 0 then Ret (r, pkt)
  else '(r, b) ← sol_buffer_append_bytes (buf pkt) bs; Ret (r, set_buf pkt b).

Lemma append_payload_spec pkt m bs : represents pkt m -> blen (encode m) + blen bs <= 2 ^ 61 -> Forall is_byte bs ->
  exists r pkt', append_payload pkt bs = Ret (r, pkt')
    /\ (r = 0 /\ represents pkt' (Message (m_ver m) (m_type m) (m_code m) (m_id m) (m_token m) (m_options m)
                                        (Some (default [] (m_payload m) ++ bs)))
        \/ r < 0 /\ refused).
Proof.
  intros Hpk Hle Hb. pose proof (blen_nonneg bs). unfold append_payload.
  destruct (get_payload_spec pkt m Hpk ltac:(lia)) as (r & pkt1 & p & -> & [(-> & Hpk1 & _)|[Hneg ?]]); rewrite bind_ret.
  2: { rewrite (proj2 (Z.ltb_lt r 0)) by done. do 2 eexists. split; [done|]. auto. }
  cbn [Z.ltb Z.compare]. destruct Hpk1 as [Hrep Hown Hstart Hwf].
  pose proof (blen_opened m).
  destruct (own_append (buf pkt1) _ bs Hrep Hown ltac:(lia)) as (r & b & -> & Hown' & [[-> Hrep']|[Hneg ?]]); rewrite bind_ret.
  2: { do 2 eexists. split; [done|]. auto. }
  do 2 eexists. split; [done|]. left. split; [done|]. split; cbn [buf set_buf payload_start]; [|done|by rewrite Hstart|].
  - rewrite encode_opened in Hrep'. unfold encode. cbn [m_options m_payload encode_payload].
    by rewrite <- !app_assoc in Hrep'.
  - destruct Hwf. split; cbn [m_ver m_type m_code m_id m_token m_options m_payload default] in *; try done.
    apply Forall_app. by split.
Qed.

Definition new_message : message := Message COAP_VERSION SOL_COAP_MESSAGE_TYPE_CON 0 0 [] [] None.

Lemma represents_refcnt pkt pkt' m : buf pkt' = buf pkt -> payload_start pkt' = payload_start pkt ->
  represents pkt m -> represents pkt' m.
Proof. intros Hb Hp [? ? ? ?]. split; congruence. Qed.

Lemma update_set_used b u p f :
  update_byte (set_used b u) p f = (b' ← update_byte b p f; Ret (set_used b' u)).
Proof.
  destruct p as [p|]; [|done]. unfold update_byte, buf_store. autorewrite with buf.
  destruct (at_index (storage b) p) as [x|]; [|done]. rewrite !bind_ret.
  destruct (blen [f x] =? 0); [done|]. by destruct (mem_store (storage b) p [f x]).
Qed.

Lemma packet_new_spec :
  (exists e, packet_new None = Ret (inl e) /\ refused)
  \/ (exists pkt, packet_new None = Ret (inr pkt) /\ represents pkt new_message /\ refcnt pkt = 1).
Proof.
  unfold packet_new, sizeof_coap_packet, sizeof_coap_header. destruct (alloc_ok 48) eqn:Ha; cbn [negb].
  2: { left. eexists. split; [done|]. exists 48. by split; [zlia|]. }
  set (b0 := default _ None).
  assert (rep b0 []) as Hrep0 by (split; [done|by vm_compute|by vm_compute|by exists []]). assert (own_bytes b0) as Hown0 by done.
  destruct (own_ensure b0 [] 4 Hrep0 Hown0 ltac:(lia)) as (r & b & -> & Hown & Hrep & [[-> Hcap]|[Hneg ?]]); rewrite bind_ret.
  2: { rewrite (proj2 (Z.ltb_lt r 0)) by done. left. by eexists. }
  cbn [Z.ltb Z.compare]. pose proof (rep_used _ _ Hrep) as Hu. change (blen (@nil Z)) with 0 in Hu.
  destruct (store_at_spec b [] 0 [0; 0; 0; 0] Hrep ltac:(lia) Hcap) as (b1 & -> & Hfl1 & Hcap1 & Hu1 & Hrep1 & _).
  rewrite bind_ret, Hu in *. change (Z.max 0 (0 + blen [0; 0; 0; 0])) with 4 in Hrep1.
  change (overwrite 0 [0; 0; 0; 0] []) with [0; 0; 0; 0] in Hrep1.
  assert (rep b1 []) as Hrepn.
  { pose proof (rep_fits _ _ Hrep1) as Hf. pose proof (rep_cap _ _ Hrep1). autorewrite with buf in *.
    split; [done| |done|by exists (storage b1)]. change (blen (@nil Z)) with 0. change (blen [0; 0; 0; 0]) with 4 in Hf. lia. }
  apply (own_flags b b1) in Hown; [|done]. destruct (own_bytes_flags _ Hown) as (Hnul & _).
  destruct (ensure_spec b1 [] 4 Hrepn ltac:(lia)) as (r & b2 & Hrun & _ & _ & _ & Hin & _).
  rewrite Hnul, Hcap1 in Hin. destruct Hin as [-> ->]; [lia|].
  unfold sol_coap_header_set_version, with_header, sizeof_coap_header. cbn [buf]. rewrite Hrun, bind_ret. cbn [Z.ltb Z.compare].
  destruct (update_first _ _ _ (fun x => Z.lor (Z.land x 63) (Z.shiftl (Z.land COAP_VERSION 3) 6)) Hrep1) as (b3 & Hup & Hfl3 & Hrep3).
  rewrite update_set_used in Hup. apply bind_Ret_inv in Hup as (b4 & -> & [= <-]). rewrite !bind_ret. cbn [Z.ltb Z.compare].
  right. eexists. split; [done|]. split; [|done]. split; [exact Hrep3| |done|].
  - apply (own_flags b1); [|done]. by autorewrite with buf in Hfl3.
  - split; cbn; try done; constructor.
Qed.

(** *** Whole programs that build a packet *)

Inductive packet_op :=
| SetVersion (v : Z) | SetType (t : Z) | SetCode (c : Z) | SetId (i : Z)
| SetToken (t : list Z) | AddOption (n : Z) (v : list Z) | AddPayload (bs : list Z).

Definition run_op (op : packet_op) (pkt : sol_coap_packet) : outcome (Z * sol_coap_packet) :=
  match op with
  | SetVersion v => sol_coap_header_set_version pkt v
  | SetType t => sol_coap_header_set_type pkt t
  | SetCode c => sol_coap_header_set_code pkt c
  | SetId i => sol_coap_header_set_id pkt i
  | SetToken t => sol_coap_header_set_token pkt t
  | AddOption n v => sol_coap_add_option pkt n (Some v)
  | AddPayload bs => append_payload pkt bs
  end.

(** One operation after the other, up to the first error *)
Fixpoint run_ops (ops : list packet_op) (pkt : sol_coap_packet) : outcome (Z * sol_coap_packet) :=
  match ops with
  | [] => Ret (0, pkt)
  | op :: ops => '(r, pkt) ← run_op op pkt; if r <? 0 then Ret (r, pkt) else run_ops ops pkt
  end.

(** What an operation does to the message *)
Definition op_effect (op : packet_op) (m : message) : message :=
  match op with
  | SetVersion v => Message (v mod 4) (m_type m) (m_code m) (m_id m) (m_token m) (m_options m) (m_payload m)
  | SetType t => Message (m_ver m) (t mod 4) (m_code m) (m_id m) (m_token m) (m_options m) (m_payload m)
  | SetCode c => Message (m_ver m) (m_type m) c (m_id m) (m_token m) (m_options m) (m_payload m)
  | SetId i => Message (m_ver m) (m_type m) (m_code m) i (m_token m) (m_options m) (m_payload m)
  | SetToken t => Message (m_ver m) (m_type m) (m_code m) (m_id m) t (m_options m) (m_payload m)
  | AddOption n v =>
      Message (m_ver m) (m_type m) (m_code m) (m_id m) (m_token m) (m_options m ++ [(n, v)]) (m_payload m)
  | AddPayload bs =>
      Message (m_ver m) (m_type m) (m_code m) (m_id m) (m_token m) (m_options m)
              (Some (default [] (m_payload m) ++ bs))
  end.

(** When it is refused with -EINVAL: options go in order and before the payload. *)
Definition op_refused (op : packet_op) (m : message) : Prop :=
  match op with
  | AddOption n _ => ~ (m_payload m = None /\ last_number 0 (m_options m) <= n)
  | _ => False
  end.

(** The arguments that fit their C types, and the documented use: one token,
    before the payload.  An option is added to a packet that its reader
    understands. *)
Definition op_allowed (op : packet_op) (m : message) : Prop :=
  match op with
  | SetVersion x | SetType x | SetCode x => is_byte x
  | SetId i => 0 <= i < 65536
  | SetToken t => m_token m = [] /\ m_payload m = None /\ blen t <= 8 /\ Forall is_byte t
  | AddOption n v =>
      0 <= n < 65536 /\ blen v < 65536 /\ Forall is_byte v
      /\ readable_options 0 (m_options m) /\ blen (encode m) <= INT16_MAX
  | AddPayload bs => Forall is_byte bs /\ blen (encode m) + blen bs <= 2 ^ 61
  end.

Fixpoint ops_allowed (ops : list packet_op) (m : message) : Prop :=
  match ops with
  | [] => True
  | op :: ops => op_allowed op m /\ blen (encode m) <= 2 ^ 61 /\ ops_allowed ops (op_effect op m)
  end.

Lemma packet_op_spec op pkt m : represents pkt m -> op_allowed op m -> blen (encode m) <= 2 ^ 61 ->
  exists r pkt', run_op op pkt = Ret (r, pkt')
    /\ (r = 0 /\ ~ op_refused op m /\ represents pkt' (op_effect op m)
        \/ r = - EINVAL /\ op_refused op m /\ pkt' = pkt
        \/ r < 0 /\ refused).
Proof.
  intros Hpk Hop Hle. destruct op; cbn [run_op op_effect op_refused op_allowed] in *.
  - destruct (set_version_spec _ _ v Hpk Hop) as (pkt' & -> & ?). do 2 eexists. split; [done|]. left. by split_and!; [|intros []|].
  - destruct (set_type_spec _ _ t Hpk Hop) as (pkt' & -> & ?). do 2 eexists. split; [done|]. left. by split_and!; [|intros []|].
  - destruct (set_code_spec _ _ c Hpk Hop) as (pkt' & -> & ?). do 2 eexists. split; [done|]. left. by split_and!; [|intros []|].
  - destruct (set_id_spec _ _ i Hpk Hop) as (pkt' & -> & ?). do 2 eexists. split; [done|]. left. by split_and!; [|intros []|].
  - destruct Hop as (Ht & Hp & H8 & Hb). rewrite Hp.
    destruct (set_token_spec _ _ t Hpk Ht Hp H8 Hb Hle) as (r & pkt' & -> & Hcase). do 2 eexists. split; [done|].
    destruct Hcase as [[-> ?]|(? & _ & ?)]; [left|right; by right]. by split_and!; [|intros []|].
  - destruct Hop as (Hn & Hv & Hb & Hr & Hs).
    destruct (add_option_spec _ _ n v Hpk Hr Hs Hn Hv Hb) as (r & pkt' & -> & Hcase). do 2 eexists. split; [done|].
    destruct Hcase as [(-> & Hp & Hl & ?)|[(-> & -> & ?)|?]]; [left|right; by left|right; by right].
    rewrite Hp. split_and!; [done| |done]. intros []. by split.
  - destruct Hop as [Hb Hs]. destruct (append_payload_spec _ _ bs Hpk Hs Hb) as (r & pkt' & -> & Hcase).
    do 2 eexists. split; [done|]. destruct Hcase as [[-> ?]|?]; [left|right; by right]. by split_and!; [|intros []|].
Qed.

Lemma packet_ops_spec ops pkt m : represents pkt m -> ops_allowed ops m ->
  exists r pkt', run_ops ops pkt = Ret (r, pkt')
    /\ (r = 0 /\ represents pkt' (foldl (flip op_effect) m ops)
        \/ r = - EINVAL /\ (exists before op after, ops = before ++ op :: after
             /\ op_refused op (foldl (flip op_effect) m before)
             /\ represents pkt' (foldl (flip op_effect) m before))
        \/ r < 0 /\ refused).
Proof.
  revert pkt m. induction ops as [|op ops IH]; intros pkt m Hpk; [intros _; do 2 eexists; split; [done|]; by left|].
  cbn [run_ops ops_allowed]. intros (Hop & Hle & Hops).
  destruct (packet_op_spec _ _ _ Hpk Hop Hle) as (r & pkt1 & -> & [(-> & _ & Hpk1)|[(-> & Hno & ->)|[Hneg ?]]]); rewrite bind_ret.
  - cbn [Z.ltb Z.compare]. destruct (IH _ _ Hpk1 Hops) as (r & pkt' & -> & Hcase). do 2 eexists. split; [done|].
    destruct Hcase as [?|[(-> & before & op' & after & -> & ? & ?)|?]]; [by left|right; left|right; by right].
    split; [done|]. by exists (op :: before), op', after.
  - do 2 eexists. split; [done|]. right. left. split; [done|]. by exists [], op, ops.
  - rewrite (proj2 (Z.ltb_lt r 0)) by done. do 2 eexists. split; [done|]. right. by right.
Qed.

(** C5: take a sequence of calls that fill a packet ([ops_allowed]): the token
    is set at most once, before any payload, and has at most eight bytes;
    options are added to at most 32767 bytes and behind options that the
    reader understands ([readable_options]; for others see
    [later_option_is_misplaced], and [long_token_is_lost] for tokens).  A
    packet that is created and filled by the sequence holds, byte for byte,
    the message the calls describe: header, token, options in their order
    with the numbers as differences, marker, payload.  An option out of
    order, or behind the payload, is refused with -EINVAL and changes
    nothing; every other error comes from the allocator. *)
Theorem coap_building_refines ops :
  ops_allowed ops new_message ->
  (exists e, sol_coap_packet_new None = Ret (inl e) /\ refused)
  \/ exists pkt r pkt', sol_coap_packet_new None = Ret (inr pkt) /\ run_ops ops pkt = Ret (r, pkt')
    /\ (r = 0 /\ represents pkt' (foldl (flip op_effect) new_message ops)
        \/ r = - EINVAL /\ (exists before op after, ops = before ++ op :: after
             /\ op_refused op (foldl (flip op_effect) new_message before)
             /\ represents pkt' (foldl (flip op_effect) new_message before))
        \/ r < 0 /\ refused).
Proof.
  intros Hops. unfold sol_coap_packet_new.
  destruct packet_new_spec as [(e & -> & Hr)|(pkt & -> & Hpk & _)]; rewrite bind_ret; [left; by exists e|].
  right. destruct (packet_ops_spec _ _ _ Hpk Hops) as (r & pkt' & Hrun & Hcase). by exists pkt, r, pkt'.
Qed.

(** *** Replies *)

(** The message a packet starts with, whatever is behind its token *)
Definition header_is (pkt : sol_coap_packet) (m : message) : Prop :=
  wf_message m /\ exists body, rep (buf pkt) (encode_header m ++ body).

Lemma header_getters pkt m : header_is pkt m ->
  sol_coap_header_get_version pkt = Ret (m_ver m) /\ sol_coap_header_get_type pkt = Ret (m_type m)
  /\ sol_coap_header_get_id pkt = Ret (m_id m)
  /\ sol_coap_header_get_code pkt = Ret (if bool_decide (m_code m ∈ known_codes) then (0, Some (m_code m)) else (- EINVAL, None))
  /\ sol_coap_header_get_token pkt
     = Ret (if blen (m_token m) =? 0 then None else Some sizeof_coap_header, blen (m_token m))
  /\ buf_load (buf pkt) sizeof_coap_header (blen (m_token m)) = Ret (m_token m).
Proof.
  intros [Hwf [body Hrep]]. destruct (buf_rep_storage _ _ Hrep) as (rest & Hs & _ & _).
  pose proof (first_byte_range m Hwf) as Hr. pose proof Hwf as [? ? ? ? ? _ _ _]. pose proof (blen_nonneg (m_token m)).
  unfold encode_header in Hs. cbn [app] in Hs. fold (first_byte m) in Hs.
  unfold sol_coap_header_get_version, sol_coap_header_get_type, sol_coap_header_get_id, sol_coap_header_get_code,
    sol_coap_header_get_token, buf_load, header_byte, sizeof_coap_header. rewrite Hs.
  change (at_index (first_byte m :: ?x) 0) with (Ret (first_byte m)).
  rewrite !bind_ret, !low_nibble. change 3 with (Z.ones 2). rewrite !Z.land_ones, !Z.shiftr_div_pow2 by lia.
  assert (first_byte m mod 16 = blen (m_token m)) as -> by (unfold first_byte; dlia).
  assert (mem_load (first_byte m :: m_code m :: m_id m / 256 :: m_id m mod 256 :: (m_token m ++ body) ++ rest) 2 2
    = Ret [m_id m / 256; m_id m mod 256]) as -> by (by apply (mem_load_app [first_byte m; m_code m] [m_id m / 256; m_id m mod 256])).
  rewrite bind_ret.
  cbn [le_value]. rewrite Z.mul_0_r, Z.add_0_r. unfold sol_util_be16_to_cpu. rewrite swap_div by dlia.
  split_and!; [| | |done|done|].
  - f_equal. unfold first_byte. dlia.
  - f_equal. unfold first_byte. dlia.
  - f_equal. dlia.
  - destruct (Z.eqb_spec (blen (m_token m)) 0) as [Hz|]; [by rewrite (blen_zero_nil _ Hz)|]. rewrite <- app_assoc.
    by apply (mem_load_app [first_byte m; m_code m; m_id m / 256; m_id m mod 256] (m_token m)).
Qed.

Lemma represents_header pkt m : represents pkt m -> header_is pkt m.
Proof. intros [Hrep _ _ Hwf]. split; [done|]. eexists. exact Hrep. Qed.

(** The type of a reply *)
Definition reply_type (t : Z) : Z :=
  if t =? SOL_COAP_MESSAGE_TYPE_CON then SOL_COAP_MESSAGE_TYPE_ACK
  else if t =? SOL_COAP_MESSAGE_TYPE_NON_CON then SOL_COAP_MESSAGE_TYPE_NON_CON else SOL_COAP_MESSAGE_TYPE_CON.

Definition reply_to (m : message) (token : list Z) : message :=
  Message COAP_VERSION (reply_type (m_type m)) 0 (m_id m) token [] None.

Lemma reply_spec old m :
  header_is old m ->
  (exists e, sol_coap_packet_new (Some old) = Ret (inl e) /\ refused)
  \/ exists pkt, sol_coap_packet_new (Some old) = Ret (inr pkt)
       /\ (represents pkt (reply_to m (m_token m)) \/ refused /\ represents pkt (reply_to m [])).
Proof.
  intros Hold. pose proof Hold as [Hwf _]. destruct (header_getters _ _ Hold) as (_ & Ht & Hi & _ & Hk & Hload).
  unfold sol_coap_packet_new. destruct packet_new_spec as [(e & -> & Hr)|(p0 & -> & Hp0 & _)]; rewrite bind_ret; [left; by exists e|].
  rewrite Hi, bind_ret. destruct (set_id_spec _ _ (m_id m) Hp0 (wf_id _ Hwf)) as (p1 & -> & Hp1). rewrite bind_ret.
  cbn [Z.ltb Z.compare]. rewrite Ht, bind_ret.
  assert (exists p2, (if m_type m =? SOL_COAP_MESSAGE_TYPE_CON then sol_coap_header_set_type p1 SOL_COAP_MESSAGE_TYPE_ACK
    else if m_type m =? SOL_COAP_MESSAGE_TYPE_NON_CON then sol_coap_header_set_type p1 SOL_COAP_MESSAGE_TYPE_NON_CON
    else Ret (0, p1)) = Ret (0, p2) /\ represents p2 (reply_to m [])) as (p2 & -> & Hp2).
  { unfold reply_to, reply_type. destruct (m_type m =? SOL_COAP_MESSAGE_TYPE_CON).
    { by destruct (set_type_spec _ _ SOL_COAP_MESSAGE_TYPE_ACK Hp1) as (p2 & ? & ?); [done|exists p2]. }
    destruct (m_type m =? SOL_COAP_MESSAGE_TYPE_NON_CON); [|by exists p1].
    by destruct (set_type_spec _ _ SOL_COAP_MESSAGE_TYPE_NON_CON Hp1) as (p2 & ? & ?); [done|exists p2]. }
  rewrite bind_ret. cbn [Z.ltb Z.compare]. rewrite Hk, bind_ret. right.
  destruct (Z.eqb_spec (blen (m_token m)) 0) as [Hz|Hz].
  { exists p2. split; [done|]. left. by rewrite (blen_zero_nil _ Hz). }
  rewrite Hload, bind_ret.
  destruct (set_token_spec _ _ (m_token m) Hp2 eq_refl eq_refl (wf_token _ Hwf) (wf_token_bytes _ Hwf) ltac:(by vm_compute))
    as (r & p3 & -> & Hcase). rewrite bind_ret. exists p3. split; [done|].
  destruct Hcase as [[_ ?]|(_ & ? & ?)]; [by left|by right].
Qed.

(** C30: a packet made as the reply to another one has its id and token; it
    acknowledges a confirmable message and answers a non-confirmable one with
    the same type.  Without memory for the token the reply comes without it,
    as if nothing had happened. *)
Theorem coap_reply_correct old m :
  header_is old m ->
  (exists e, sol_coap_packet_new (Some old) = Ret (inl e) /\ refused)
  \/ exists pkt, sol_coap_packet_new (Some old) = Ret (inr pkt)
       /\ (represents pkt (reply_to m (m_token m)) \/ refused /\ represents pkt (reply_to m [])).
Proof. apply reply_spec. Qed.
End Building.

(** ** From one end to the other *)

Lemma load_inside b x bs y : rep b (x ++ bs ++ y) -> buf_load b (blen x) (blen bs) = Ret bs.
Proof.
  intros Hrep. destruct (buf_rep_storage _ _ Hrep) as (rest & Hs & _ & _). unfold buf_load.
  destruct (Z.eqb_spec (blen bs) 0) as [Hz|]; [by rewrite (blen_zero_nil _ Hz)|].
  rewrite Hs, <- !app_assoc. by apply mem_load_app.
Qed.

Lemma encode_assoc m : encode m = (encode_header m ++ encode_options 0 (m_options m)) ++ encode_payload (m_payload m).
Proof. unfold encode. by rewrite app_assoc. Qed.

Section Sending.
Context `{BuildConfig} `{Allocator}.

(** What the receiver of a message can ask for, and what it is told *)
Record received (pkt : sol_coap_packet) (m : message) : Prop := {
  received_version : sol_coap_header_get_version pkt = Ret (m_ver m);
  received_type : sol_coap_header_get_type pkt = Ret (m_type m);
  received_code : sol_coap_header_get_code pkt
    = Ret (if bool_decide (m_code m ∈ known_codes) then (0, Some (m_code m)) else (- EINVAL, None));
  received_id : sol_coap_header_get_id pkt = Ret (m_id m);
  received_token : exists start, sol_coap_header_get_token pkt = Ret (start, blen (m_token m))
    /\ match start with Some p => buf_load (buf pkt) p (blen (m_token m)) = Ret (m_token m) | None => m_token m = [] end;
  received_options n room : 0 <= room -> exists ss, sol_coap_find_options pkt n room = Ret (blen ss, ss)
    /\ Forall2 (fun s v => buf_load (buf pkt) (off s) (len s) = Ret v) ss (take (Z.to_nat room) (values n (m_options m)));
  received_payload p : default [] (m_payload m) = p -> p <> [] -> exists start,
    sol_coap_packet_get_payload pkt = Ret (0, pkt, start) /\ sol_buffer_get_slice_at (buf pkt) start = Ret p
}.

(** C4: a message that is built, sent and received comes out as it went in:
    the receiver parses its bytes with success and gets the same version,
    type, id and token, the same code when it is one the library knows (and
    -EINVAL otherwise), the same values for every option number, and the same
    payload when there is one.  This is for messages of at most 32767 bytes
    whose differences between option numbers and whose value lengths are
    below 269 or 269 plus a multiple of 256 ([readable]: the reader ignores
    the second of two extending bytes, see [second_byte_is_ignored]). *)
Theorem coap_roundtrip pkt m :
  wf_message m -> readable_options 0 (m_options m) -> blen (encode m) <= INT16_MAX -> rep (buf pkt) (encode m) ->
  exists pkt', coap_packet_parse pkt = Ret (0, pkt') /\ buf pkt' = buf pkt /\ received pkt' m.
Proof.
  intros Hwf Hread Hs Hrep.
  assert (datagram (buf pkt) (encode m)) as Hdg by (split; [done|by apply encode_bytes|zlia]).
  pose proof (packet_encode m Hwf Hread) as Hpb.
  destruct (packet_parse_spec pkt _ Hdg) as (r & pkt' & Hrun & [(-> & token & os & rest & Hpb' & ->)|(_ & _ & Hbad)]).
  2: { by eapply Hbad in Hpb. }
  destruct (packet_functional _ _ _ _ _ _ _ Hpb Hpb') as (<- & <- & <-).
  eexists. split; [exact Hrun|]. split; [done|].
  assert (header_is (set_payload_start pkt (payload_at (encode m) (encode_payload (m_payload m)))) m) as Hh by (split; [done|eexists; exact Hrep]).
  destruct (header_getters _ _ Hh) as (Hver & Htype & Hid & Hcode & Htok & Hload). split; [done|done|done|done| | |].
  - eexists. split; [exact Htok|]. destruct (Z.eqb_spec (blen (m_token m)) 0) as [Hz|_]; [by apply blen_zero_nil|exact Hload].
  - intros n room Hroom. set (pkt' := set_payload_start _ _).
    destruct (options_find_spec pkt' _ _ _ _ n room Hdg Hs Hpb Hroom) as (ss & Hfind & Hss). exists ss. split; [exact Hfind|].
    eapply Forall2_impl; [exact Hss|]. intros s v (x & z & Hl & ->). apply (load_inside _ x v z). cbn. by rewrite <- Hl.
  - intros p Hp Hne. destruct (m_payload m) as [p'|] eqn:Hpay; cbn in Hp; subst; [|done].
    assert (payload_at (encode m) (encode_payload (Some p)) = blen ((encode_header m ++ encode_options 0 (m_options m)) ++ [COAP_MARKER])) as Hat.
    { unfold payload_at. cbn [encode_payload]. rewrite encode_assoc, Hpay. cbn [encode_payload].
      destruct p; [done|]. rewrite (proj2 (Z.ltb_lt 1 _)); blia. }
    exists (payload_at (encode m) (encode_payload (Some p))).
    unfold sol_coap_packet_get_payload. cbn [payload_start set_payload_start].
    rewrite (proj2 (Z.eqb_neq _ 0)), bind_ret.
    2: { rewrite Hat, blen_app. change (blen [COAP_MARKER]) with 1.
         pose proof (blen_nonneg (encode_header m ++ encode_options 0 (m_options m))). lia. }
    split; [done|]. cbn [buf set_payload_start]. rewrite Hat. set (pre := _ ++ [COAP_MARKER]).
    assert (encode m = pre ++ p ++ []) as He.
    { unfold pre. rewrite app_nil_r, encode_assoc, Hpay, <- !app_assoc. done. }
    unfold sol_buffer_get_slice_at. rewrite (rep_used _ _ Hrep), He in *. rewrite (proj2 (Z.ltb_ge _ _)) by blia.
    replace (blen (pre ++ p ++ []) - blen pre) with (blen p) by blia. by apply (load_inside _ pre p []).
Qed.

Lemma append_from_spec b l src x bs y p n :
  rep b l -> nul_byte_size b = 0 -> rep src (x ++ bs ++ y) -> p = Some (blen x) -> n = blen bs ->
  blen l + blen bs <= capacity b ->
  exists b', append_from b src p n = Ret (0, b') /\ nul_byte_size b' = 0 /\ capacity b' = capacity b /\ rep b' (l ++ bs).
Proof.
  intros Hrep Hnul Hsrc -> -> Hcap. unfold append_from. pose proof (blen_nonneg bs). pose proof (rep_used _ _ Hrep) as Hu.
  pose proof (rep_cap _ _ Hrep). pose proof (blen_nonneg l).
  destruct (expand_spec b l (blen bs) Hrep ltac:(zlia)) as (r & b1 & -> & _ & _ & _ & Hin & _).
  destruct Hin as [-> _]; [lia|]. rewrite bind_ret. cbn [Z.ltb Z.compare]. rewrite (load_inside _ _ _ _ Hsrc), bind_ret.
  destruct (append_bytes_spec b l bs Hrep ltac:(zlia)) as (r & b' & -> & [Hfl Hw] & Hin & _).
  destruct Hin as [-> Hc']; [lia|]. exists b'. split_and!; [done| |done|].
  - by rewrite (nul_byte_size_flags b b').
  - by destruct Hw as [(_ & ? & _)|[? _]].
Qed.

(** The message of a packet behind the header and token of another one *)
Definition with_header_of (mh m : message) : message :=
  Message (m_ver mh) (m_type mh) (m_code mh) (m_id mh) (m_token mh) (m_options m) (m_payload m).

Lemma wire_bytes_spec header mh pkt m :
  wf_message m -> rep (buf pkt) (encode m) -> blen (encode m) <= 65535 - 8 ->
  match header with None => mh = m | Some h => header_is h mh end ->
  exists r b, prepare_buffer header pkt = Ret (r, b)
    /\ (r = 0 /\ (exists b', b = Some b' /\ rep b' (encode (with_header_of mh m))) \/ r = - ENOMEM /\ refused).
Proof.
  intros Hwf Hrep Hs Hh. unfold prepare_buffer. destruct header as [h|].
  2: { subst mh. do 2 eexists. split; [done|]. left. split; [done|]. eexists. split; [done|].
       replace (with_header_of m m) with m by (by destruct m). destruct Hrep as [Hu Hf Hc Hpre].
       split; cbn [capacity used data sol_buffer_init_flags set_used]; rewrite ?Hu; [done| |lia|done].
       change (blen (encode m) <= blen (encode m) <= blen (storage (buf pkt))). lia. }
  pose proof Hh as [Hwfh [body Hreph]].
  assert (header_is pkt m) as Hm by (split; [done|eexists; exact Hrep]).
  destruct (header_getters _ _ Hm) as (_ & _ & _ & _ & -> & _). destruct (header_getters _ _ Hh) as (_ & _ & _ & _ & -> & _).
  rewrite !bind_ret, (rep_used _ _ Hrep). cbv zeta.
  pose proof (blen_nonneg (m_token m)). pose proof (blen_nonneg (m_token mh)).
  pose proof (wf_token _ Hwf). pose proof (wf_token _ Hwfh).
  set (tail := encode_options 0 (m_options m) ++ encode_payload (m_payload m)).
  assert (encode m = encode_header m ++ tail) as He by done.
  assert (encode (with_header_of mh m) = encode_header mh ++ tail) as Hw by done.
  assert (blen (encode_header m) = 4 + blen (m_token m)) as Hbm by (unfold encode_header; blia).
  assert (blen (encode_header mh) = 4 + blen (m_token mh)) as Hbh by (unfold encode_header; blia).
  pose proof (blen_nonneg tail). assert (blen (encode m) = 4 + blen (m_token m) + blen tail) as Hlm by (rewrite He, blen_app; lia).
  rewrite wrapu_small by lia. unfold c_malloc.
  destruct (alloc_ok _) eqn:Ha.
  2: { do 2 eexists. split; [done|]. right. split; [done|]. eexists. split; [|done]. zlia. }
  set (b0 := sol_buffer_init_flags _ _ _). set (n := blen (encode m) + (blen (m_token mh) - blen (m_token m))) in *.
  assert (n = 4 + blen (m_token mh) + blen tail) as Hn by (subst n; lia). pose proof (alloc_bound n Ha).
  assert (rep b0 []) as Hrep0.
  { split; cbn; [done| |done|by eexists]. autorewrite with blen. change (blen (@nil Z)) with 0. lia. }
  destruct (append_from_spec b0 [] (buf h) [] (encode_header mh) body (Some 0) (sizeof_coap_header + blen (m_token mh)) Hrep0 eq_refl Hreph eq_refl)
    as (b1 & -> & Hnul1 & Hcap1 & Hrep1); [by rewrite Hbh|cbn [capacity b0 sol_buffer_init_flags]; change (blen (@nil Z)) with 0; lia|].
  rewrite bind_ret. cbn [Z.ltb Z.compare]. rewrite He in Hrep. rewrite <- (app_nil_r tail) in Hrep.
  destruct (append_from_spec b1 _ (buf pkt) (encode_header m) tail [] (sol_buffer_at (buf pkt) (sizeof_coap_header + blen (m_token m)))
    (wrapu 64 (blen (encode m) - (sizeof_coap_header + blen (m_token m)))) Hrep1 Hnul1 Hrep) as (b2 & -> & _ & _ & Hrep2).
  - unfold sol_buffer_at, sizeof_coap_header. rewrite (rep_used _ _ Hrep), Z.gtb_ltb, app_nil_r, <- Hbm.
    by rewrite (proj2 (Z.ltb_ge _ _)) by (rewrite blen_app; lia).
  - unfold sizeof_coap_header. rewrite wrapu_small; lia.
  - rewrite Hcap1. cbn [capacity b0 sol_buffer_init_flags app]. lia.
  - rewrite bind_ret. cbn [Z.ltb Z.compare]. do 2 eexists. split; [done|]. left. split; [done|]. eexists. split; [done|].
    by rewrite Hw.
Qed.

(** C28: what the server puts on the wire is the message of the packet or,
    when the outgoing entry has a header of its own, as notifications do,
    that message behind the header and token of the other packet.  Up to
    65527 bytes only the allocator can make this fail (the size of the new
    buffer is 16 bits wide, see [long_packets_wrap]). *)
Theorem coap_wire_bytes_correct header mh pkt m :
  wf_message m -> rep (buf pkt) (encode m) -> blen (encode m) <= 65535 - 8 ->
  match header with None => mh = m | Some h => header_is h mh end ->
  exists r b, prepare_buffer header pkt = Ret (r, b)
    /\ (r = 0 /\ (exists b', b = Some b' /\ rep b' (encode (with_header_of mh m))) \/ r = - ENOMEM /\ refused).
Proof. apply wire_bytes_spec. Qed.
End Sending.

(** ** Paths *)

Lemma str_slice_eq_spec a b : sol_str_slice_eq a b = Ret (bool_decide (a = b)).
Proof.
  unfold sol_str_slice_eq, memcmp_eq. destruct (Z.eqb_spec (blen a) (blen b)) as [He|Hne].
  - pose proof (blen_nonneg a).
    rewrite (mem_load_ok a), (mem_load_ok b) by lia. rewrite !bind_ret. cbn [drop Z.to_nat].
    rewrite (take_ge a), (take_ge b) by (unfold blen in *; lia). done.
  - by rewrite bool_decide_false by (by intros ->).
Qed.

Lemma path_eq_loop_spec b options segs path :
  Forall2 (fun s v => buf_load b (off s) (len s) = Ret v) options segs -> Forall (fun p => p <> []) path ->
  path_eq_loop b options (path ++ [[]]) = Ret (bool_decide (segs = path)).
Proof.
  intros Hopt Hpath. revert options segs Hopt. induction Hpath as [|p path Hp _ IH]; intros options segs Hopt; cbn [path_eq_loop app].
  - change (blen [] =? 0) with true. destruct Hopt; [done|]. by rewrite !bool_decide_false.
  - rewrite (proj2 (Z.eqb_neq _ 0)) by (intros ->%blen_zero_nil; done).
    destruct Hopt as [|s v options segs Hs Hopt]; [by rewrite bool_decide_false|].
    rewrite Hs, bind_ret, str_slice_eq_spec, bind_ret. case_bool_decide as Hv.
    + subst v. rewrite (IH _ _ Hopt). f_equal. apply bool_decide_ext. split; [by intros ->|by intros [= ->]].
    + rewrite bool_decide_false; [done|]. by intros [= ->].
Qed.

(** The text of a path: a slash in front of each segment *)
Definition path_text (segs : list (list Z)) : list Z := concat (cons 47 <$> segs).

Lemma path_text_length segs : (length segs <= length (path_text segs))%nat.
Proof. unfold path_text. induction segs; cbn; [lia|]. rewrite length_app. lia. Qed.

Lemma memchr_segment s c rest : Forall (fun x => x <> c) s -> CString.memchr (s ++ c :: rest) c = Some (length s).
Proof.
  induction 1 as [|x s Hx _ IH]; cbn [CString.memchr app length]; [by rewrite Z.eqb_refl|].
  rewrite (proj2 (Z.eqb_neq _ _)) by done. by rewrite IH.
Qed.

Lemma memchr_last s c : Forall (fun x => x <> c) s -> CString.memchr s c = None.
Proof.
  induction 1 as [|x s Hx _ IH]; cbn [CString.memchr]; [done|]. rewrite (proj2 (Z.eqb_neq _ _)) by done. by rewrite IH.
Qed.

Section Paths.
Context `{BuildConfig} `{Allocator}.

Lemma last_option_error b code c fuel r : last_option_loop b code c fuel = Ret (inl r) -> r < 0.
Proof.
  revert c. induction fuel as [|fuel IH]; intros c; [done|]. cbn [last_option_loop].
  destruct (negb (delta c <=? code)); [done|]. destruct (coap_parse_option b c) as [[[r' c'] o]|]; [|done].
  rewrite bind_ret. destruct (r' <? 0); [by intros [= <-]|]. destruct (r' =? 0); [done|].
  destruct (code <? delta c'); [by intros [= <-]|]. apply IH.
Qed.

Lemma add_option_result pkt code v r pkt' : sol_coap_add_option pkt code v = Ret (r, pkt') -> r <= 0.
Proof.
  unfold sol_coap_add_option. destruct v as [v|]; [|by intros [= <- _]].
  destruct (negb (payload_start pkt =? 0)); [by intros [= <- _]|].
  destruct (coap_get_header_len pkt) as [n|]; [rewrite bind_ret|done]. destruct (n <? 0); [by intros [= <- _]|].
  destruct (last_option_loop _ _ _ _) as [[e|c]|] eqn:Hl; [rewrite bind_ret..|done].
  - intros [= <- _]. apply last_option_error in Hl. lia.
  - intros ([e b] & _ & [= <- _])%bind_Ret_inv. destruct (Z.ltb_spec e 0); lia.
Qed.

Lemma add_last_option pkt n v : sol_coap_add_option pkt n (Some v) = run_ops [AddOption n v] pkt.
Proof.
  cbn [run_ops run_op]. destruct (sol_coap_add_option pkt _ (Some v)) as [[r pkt']|] eqn:Hadd; [|done].
  apply add_option_result in Hadd. rewrite bind_ret. destruct (Z.ltb_spec r 0); [done|]. do 2 f_equal. lia.
Qed.

(** A segment that the options and the text can hold *)
Definition segment_ok (s : list Z) : Prop := Forall (fun x => x <> 47) s /\ blen s < 65536.

Lemma uri_path_loop_spec pkt s segs fuel :
  segment_ok s -> Forall segment_ok segs -> last (s :: segs) <> Some [] -> (length segs < fuel)%nat ->
  uri_path_loop pkt (s ++ path_text segs) fuel = run_ops (AddOption SOL_COAP_OPTION_URI_PATH <$> s :: segs) pkt.
Proof.
  intros Hs Hsegs. revert s pkt fuel Hs. induction Hsegs as [|t segs Ht _ IH]; intros s pkt [|fuel] [Hs Hl] Hlast Hf; try (cbn in Hf; lia);
    pose proof (blen_nonneg s).
  - cbn [path_text fmap list_fmap concat]. rewrite app_nil_r. cbn [uri_path_loop]. rewrite memchr_last by done.
    destruct s as [|x s]; [done|]. unfold segment_of. rewrite wrapu_small, blen_to_nat, take_ge by lia. apply add_last_option.
  - cbn [path_text fmap list_fmap concat app uri_path_loop]. rewrite memchr_segment by done.
    assert (exists x y, s ++ 47 :: t ++ concat (cons 47 <$> segs) = x :: y) as (x & y & Hxy) by (destruct s; eauto). rewrite Hxy.
    rewrite <- Hxy. unfold segment_of. rewrite wrapu_small by (unfold blen in *; lia). rewrite Nat2Z.id, take_app_length.
    change (run_ops (?o :: ?os) pkt) with ('(r, p) ← run_op o pkt; if r <? 0 then Ret (r, p) else run_ops os p). cbn [run_op].
    destruct (sol_coap_add_option pkt _ _) as [[r pkt']|]; [|done]. rewrite !bind_ret. destruct (r <? 0); [done|].
    rewrite drop_app_ge by lia. replace (S (length s) - length s)%nat with 1%nat by lia. cbn [drop].
    apply IH; [done|done|]. cbn in Hf. lia.
Qed.

Lemma uri_path_spec pkt s segs : segment_ok s -> Forall segment_ok segs -> last (s :: segs) <> Some [] ->
  sol_coap_packet_add_uri_path_option pkt (path_text (s :: segs)) = run_ops (AddOption SOL_COAP_OPTION_URI_PATH <$> s :: segs) pkt.
Proof.
  intros Hs Hsegs Hlast. unfold sol_coap_packet_add_uri_path_option. change (path_text (s :: segs)) with (47 :: s ++ path_text segs).
  cbn iota. rewrite Z.eqb_refl. cbn [negb]. rewrite (proj2 (Z.eqb_neq _ 1)).
  - apply uri_path_loop_spec; [done|done|done|]. rewrite length_app. pose proof (path_text_length segs). lia.
  - rewrite blen_cons. intros Hz. assert (blen (s ++ path_text segs) = 0) as [-> Hc]%blen_zero_nil%app_nil by lia.
    destruct segs; [by apply Hlast|done].
Qed.

Lemma uri_path_slash_loop pkt s segs fuel :
  segment_ok s -> Forall segment_ok segs -> (length segs + 1 < fuel)%nat ->
  uri_path_loop pkt ((s ++ path_text segs) ++ [47]) fuel
  = ('(r, pkt) ← run_ops (AddOption SOL_COAP_OPTION_URI_PATH <$> s :: segs) pkt; Ret (if r <? 0 then r else - EINVAL, pkt)).
Proof.
  intros Hs Hsegs. revert s pkt fuel Hs. induction Hsegs as [|t segs Ht _ IH]; intros s pkt [|fuel] [Hs Hl] Hf; try (cbn in Hf; lia);
    pose proof (blen_nonneg s).
  all: assert (forall rest, exists x y, s ++ 47 :: rest = x :: y) as Hne by (intros rest; destruct s; eauto).
  - change (path_text []) with (@nil Z). rewrite app_nil_r. cbn [uri_path_loop]. rewrite memchr_segment by done.
    destruct (Hne []) as (x & y & Hxy). rewrite Hxy, <- Hxy. unfold segment_of. rewrite wrapu_small by (unfold blen in *; lia).
    rewrite Nat2Z.id, take_app_length. cbn [fmap list_fmap run_ops run_op].
    destruct (sol_coap_add_option pkt _ _) as [[r pkt']|]; [|done]. rewrite !bind_ret. destruct (r <? 0) eqn:Hr; rewrite bind_ret; [by rewrite Hr|].
    rewrite drop_app_ge by lia. replace (S (length s) - length s)%nat with 1%nat by lia. cbn [drop]. destruct fuel as [|fuel]; [cbn in Hf; lia|done].
  - change (path_text (t :: segs)) with (47 :: t ++ path_text segs). rewrite <- app_assoc. cbn [app uri_path_loop]. rewrite memchr_segment by done.
    destruct (Hne ((t ++ path_text segs) ++ [47])) as (x & y & Hxy). rewrite Hxy, <- Hxy. unfold segment_of. rewrite wrapu_small by (unfold blen in *; lia).
    rewrite Nat2Z.id, take_app_length. cbn [fmap list_fmap]. change (run_ops (?o :: ?os) pkt) with ('(r, p) ← run_op o pkt; if r <? 0 then Ret (r, p) else run_ops os p).
    cbn [run_op]. destruct (sol_coap_add_option pkt _ _) as [[r pkt']|]; [|done]. rewrite !bind_ret. destruct (r <? 0) eqn:Hr; [by rewrite bind_ret, Hr|].
    rewrite drop_app_ge by lia. replace (S (length s) - length s)%nat with 1%nat by lia. cbn [drop]. apply IH; [done|cbn in Hf; lia].
Qed.

Lemma uri_path_slash_spec pkt s segs : segment_ok s -> Forall segment_ok segs ->
  sol_coap_packet_add_uri_path_option pkt (path_text (s :: segs) ++ [47])
  = ('(r, pkt) ← run_ops (AddOption SOL_COAP_OPTION_URI_PATH <$> s :: segs) pkt; Ret (if r <? 0 then r else - EINVAL, pkt)).
Proof.
  intros Hs Hsegs. unfold sol_coap_packet_add_uri_path_option. change (path_text (s :: segs) ++ [47]) with (47 :: (s ++ path_text segs) ++ [47]).
  cbn iota. rewrite Z.eqb_refl. cbn [negb]. rewrite (proj2 (Z.eqb_neq _ 1)).
  - apply uri_path_slash_loop; [done|done|]. rewrite !length_app. pose proof (path_text_length segs). cbn. lia.
  - pose proof (blen_nonneg (s ++ path_text segs)). blia.
Qed.

Lemma uri_path_eq_spec req l token os rest path : datagram (buf req) l -> blen l <= INT16_MAX -> packet_bytes l token os rest ->
  Forall (fun p => p <> []) path ->
  uri_path_eq req (path ++ [[]]) = Ret (bool_decide (take 16 (values SOL_COAP_OPTION_URI_PATH os) = path)).
Proof.
  intros Hdg Hshort Hpb Hpath. unfold uri_path_eq.
  destruct (options_find_spec req l token os rest SOL_COAP_OPTION_URI_PATH 16 Hdg Hshort Hpb ltac:(lia)) as (ss & -> & Hss).
  rewrite bind_ret, (proj2 (Z.ltb_ge _ 0)) by apply blen_nonneg. apply path_eq_loop_spec; [|done].
  eapply Forall2_impl; [exact Hss|]. intros sp v (x & z & Hl & ->). apply (load_inside _ x v z). cbn. rewrite <- Hl. apply Hdg.
Qed.

(** C29: adding a path that does not end in a slash is adding a Uri-Path
    option for each of its segments; with a slash behind it the options are
    added all the same and then the answer is -EINVAL.  A request is for a
    resource exactly when its first 16 such options are the segments of the
    resource's path. *)
Theorem coap_uri_path_correct s segs :
  segment_ok s -> Forall segment_ok segs -> last (s :: segs) <> Some [] ->
  (forall pkt, sol_coap_packet_add_uri_path_option pkt (path_text (s :: segs))
               = run_ops (AddOption SOL_COAP_OPTION_URI_PATH <$> s :: segs) pkt)
  /\ (forall pkt, sol_coap_packet_add_uri_path_option pkt (path_text (s :: segs) ++ [47])
               = ('(r, pkt) ← run_ops (AddOption SOL_COAP_OPTION_URI_PATH <$> s :: segs) pkt;
                  Ret (if r <? 0 then r else - EINVAL, pkt)))
  /\ forall req l token os rest path, datagram (buf req) l -> blen l <= INT16_MAX -> packet_bytes l token os rest ->
       Forall (fun p => p <> []) path ->
       uri_path_eq req (path ++ [[]]) = Ret (bool_decide (take 16 (values SOL_COAP_OPTION_URI_PATH os) = path)).
Proof.
  intros Hs Hsegs Hlast. split_and!.
  - intros pkt. by apply uri_path_spec.
  - intros pkt. by apply uri_path_slash_spec.
  - intros req l token os rest path. apply uri_path_eq_spec.
Qed.
End Paths.

(** *** Witnesses: the packets of test-coap.c *)

Definition simple_message : message :=
  Message 1 1 165 4660 [116; 111; 107; 101; 110] [(0, []); (12, [0])] (Some [112; 97; 121; 108; 111; 97; 100; 0]).

Lemma encode_simple : encode simple_message = simple_pdu.
Proof. reflexivity. Qed.

Lemma simple_wf : wf_message simple_message.
Proof. split; cbn; unfold is_byte; repeat constructor; lia || done. Qed.

Lemma simple_readable : readable_options 0 (m_options simple_message).
Proof. cbn. unfold readable. split_and!; try done; left; done. Qed.

Lemma simple_bytes : packet_bytes simple_pdu (m_token simple_message) (m_options simple_message)
  (encode_payload (m_payload simple_message)).
Proof. rewrite <- encode_simple. apply packet_encode; [apply simple_wf|apply simple_readable]. Qed.

Lemma coap_roundtrip_witness : exists pkt',
  coap_packet_parse (packet_of simple_pdu) = Ret (0, pkt') /\ buf pkt' = buf (packet_of simple_pdu)
  /\ received (H := gcc5) (H0 := roomy) pkt' simple_message.
Proof.
  exact (coap_roundtrip (H := gcc5) (H0 := roomy) (packet_of simple_pdu) simple_message simple_wf simple_readable ltac:(done)
           (rep_packet_of simple_pdu ltac:(done))).
Defined.

Definition sample_ops : list packet_op :=
  [SetCode 1; SetId 4660; SetToken [7; 7]; AddOption 6 []; AddOption 11 [97]; AddOption 6 [1]; AddPayload [33]].

Lemma sample_allowed : ops_allowed sample_ops new_message.
Proof. cbn. unfold is_byte, readable. split_and!; repeat constructor; done || lia. Qed.

Lemma coap_building_refines_witness :
  exists pkt r pkt', sol_coap_packet_new (H := gcc5) (H0 := roomy) None = Ret (inr pkt)
    /\ run_ops (H := gcc5) (H0 := roomy) sample_ops pkt = Ret (r, pkt') /\ r = - EINVAL.
Proof.
  destruct (coap_building_refines (H := gcc5) (H0 := roomy) sample_ops sample_allowed) as [(e & Hnew & _)|(pkt & r & pkt' & Hnew & Hrun & _)].
  - exfalso. revert Hnew. vm_compute. discriminate.
  - exists pkt, r, pkt'. split; [exact Hnew|]. split; [exact Hrun|].
    revert Hnew. vm_compute. intros [= <-]. revert Hrun. vm_compute. intros [= <- _]. reflexivity.
Defined.

Lemma simple_header : header_is (packet_of simple_pdu) simple_message.
Proof.
  split; [exact simple_wf|]. exists (encode_options 0 (m_options simple_message) ++ encode_payload (m_payload simple_message)).
  apply rep_packet_of. done.
Qed.

Lemma coap_reply_correct_witness :
  exists pkt, sol_coap_packet_new (H := gcc5) (H0 := roomy) (Some (packet_of simple_pdu)) = Ret (inr pkt)
    /\ (represents pkt (reply_to simple_message [116; 111; 107; 101; 110])
        \/ refused (H0 := roomy) /\ represents pkt (reply_to simple_message [])).
Proof.
  destruct (coap_reply_correct (H := gcc5) (H0 := roomy) _ _ simple_header) as [(e & Hnew & _)|(pkt & Hnew & Hp)].
  - exfalso. revert Hnew. vm_compute. discriminate.
  - exists pkt. split; [exact Hnew|exact Hp].
Defined.

(** A notification goes out with the token of the observer. *)
Definition observer_header : message := Message 1 1 69 9 [1; 2] [] None.

Lemma coap_wire_bytes_correct_witness :
  exists r b, prepare_buffer (H := gcc5) (H0 := roomy) (Some (packet_of (encode observer_header))) (packet_of simple_pdu) = Ret (r, b)
    /\ (r = 0 /\ (exists b', b = Some b' /\ rep b' (encode (with_header_of observer_header simple_message)))
        \/ r = - ENOMEM /\ refused (H0 := roomy)).
Proof.
  apply (coap_wire_bytes_correct (H := gcc5) (H0 := roomy) (Some (packet_of (encode observer_header))) observer_header);
    [exact simple_wf|by apply rep_packet_of|done|].
  split; [split; cbn; unfold is_byte; repeat constructor; lia || done|]. exists []. by apply rep_packet_of.
Defined.

Lemma coap_uri_path_correct_witness :
  (forall pkt, sol_coap_packet_add_uri_path_option (H := gcc5) (H0 := roomy) pkt [47; 97; 47; 98; 99]
               = run_ops (H := gcc5) (H0 := roomy) [AddOption 11 [97]; AddOption 11 [98; 99]] pkt)
  /\ uri_path_eq (packet_of simple_pdu) ([] ++ [[]]) = Ret true.
Proof.
  destruct (coap_uri_path_correct (H := gcc5) (H0 := roomy) [97] [[98; 99]]) as (Hadd & _ & Heq);
    [split; [repeat constructor; discriminate|done]|repeat constructor; discriminate || done|discriminate|].
  split; [exact Hadd|].
  exact (Heq _ simple_pdu _ _ _ [] simple_datagram ltac:(done) simple_bytes ltac:(by constructor)).
Defined.

(** *** What does not hold *)

Definition with_options (os : list (Z * list Z)) (p : option (list Z)) : list Z := encode (Message 1 0 1 1 [] os p).

(** Make a packet, then do something with it, and look at the result. *)
Definition with_new (a : Allocator) {A} (f : sol_coap_packet -> outcome A) : outcome A :=
  p ← sol_coap_packet_new (H := gcc5) (H0 := a) None;
  match p with inl _ => UB | inr pkt => f pkt end.

(** An option number 300 is written right and read as 269: of the two
    extending bytes only the first is used. *)
Lemma second_byte_is_ignored : let pkt := packet_of (with_options [(300, [1])] None) in
  sol_coap_find_options pkt 300 1 = Ret (0, []) /\ sol_coap_find_options pkt 269 1 = Ret (1, [Span 7 1]).
Proof. by vm_compute. Qed.

(** The next option is then counted from the misread number: 301 becomes 332
    on the wire. *)
Lemma later_option_is_misplaced :
  with_new roomy (fun pkt =>
    '(r, pkt) ← run_ops (H := gcc5) (H0 := roomy) [SetCode 1; SetId 1; AddOption 300 [1]; AddOption 301 [2]] pkt;
    bs ← sol_buffer_get_slice (buf pkt); Ret (r, bs))
  = Ret (0, with_options [(300, [1]); (332, [2])] None).
Proof. by vm_compute. Qed.

(** The length of what is left is kept in 16 signed bits: with more than
    32767 bytes to go, a well-formed option is refused. *)
Lemma long_packets_are_refused :
  ('(r, _) ← coap_packet_parse (packet_of (with_options [(17, [1])] (Some (replicate (Z.to_nat 32766) 0)))); Ret r)
  = Ret (- EINVAL).
Proof. by vm_compute. Qed.

(** A packet with options counts as one with a payload. *)
Lemma options_count_as_payload :
  sol_coap_packet_has_payload (packet_of (with_options [(11, [97])] None)) = Ret true.
Proof. reflexivity. Qed.

(** The Observe value is read with its low byte first, and a byte from 128 on
    makes it negative, as if there was no such option. *)
Lemma observe_value_is_misread :
  get_observe_option (packet_of (with_options [(6, [1; 0])] None)) = Ret 1
  /\ get_observe_option (packet_of (with_options [(6, [200])] None)) = Ret (-56).
Proof. by vm_compute. Qed.

(** A trailing slash is refused after all segments were added. *)
Lemma trailing_slash_is_late :
  with_new roomy (fun pkt =>
    '(r, pkt) ← sol_coap_packet_add_uri_path_option (H := gcc5) (H0 := roomy) pkt [47; 97; 47];
    found ← sol_coap_find_options pkt 11 16; Ret (r, found))
  = Ret (- EINVAL, (1, [Span 5 1])).
Proof. by vm_compute. Qed.

(** With a header of its own and an 8-byte token a packet of 65528 bytes would
    take 65536, which is 0 in the 16 bits of the new size: the buffer for it
    has no room. *)
Lemma long_packets_wrap :
  let header := packet_of (encode (Message 1 1 69 9 (replicate 8 7) [] None)) in
  let packet := packet_of (encode (Message 1 1 69 9 [] [] (Some (replicate (Z.to_nat 65523) 0)))) in
  used (buf packet) = 65528 /\ match prepare_buffer (H := gcc5) (H0 := roomy) (Some header) packet with Ret (r, _) => r | UB => 1 end <> 0.
Proof. by vm_compute. Qed.

(** An option without a value cannot be added as documented. *)
Lemma null_value_is_refused `{BuildConfig} `{Allocator} pkt : sol_coap_add_option pkt 5 None = Ret (- EINVAL, pkt).
Proof. reflexivity. Qed.

(** An allocator for a packet and eight bytes *)
Program Definition small_heap : Allocator :=
  {| alloc_ok := fun n => (n =? 48) || (n <=? 8); fresh_byte := fun _ => 165 |}.
Next Obligation. intros n. cbn. intros [->%Z.eqb_eq | Hn%Z.leb_le]%orb_true_iff; zlia. Qed.

(** When memory runs out, the first byte of the option stays behind: a packet
    that was well-formed no longer parses. *)
Lemma failed_option_stays :
  with_new small_heap (fun pkt =>
    '(r1, _) ← coap_packet_parse pkt;
    '(r2, pkt) ← sol_coap_add_option (H := gcc5) (H0 := small_heap) pkt 11 (Some (replicate 10 97));
    '(r3, _) ← coap_packet_parse pkt; Ret (r1, r2, r3))
  = Ret (0, - ENOMEM, - EINVAL).
Proof. by vm_compute. Qed.

(** Whether a confirmable packet with an unknown code is a ping depends on a
    variable that was never set. *)
Lemma unknown_code_is_not_read : is_coap_ping (packet_of [64; 31; 0; 1]) = UB.
Proof. reflexivity. Qed.

(** A token of 16 bytes is taken and then counted as none. *)
Lemma long_token_is_lost :
  with_new roomy (fun pkt =>
    '(r, pkt) ← sol_coap_header_set_token (H := gcc5) (H0 := roomy) pkt (replicate 16 7);
    token ← sol_coap_header_get_token pkt; Ret (r, token, used (buf pkt)))
  = Ret (0, (None, 0), 20).
Proof. by vm_compute. Qed.

(** Only the first 16 segments of a path count. *)
Lemma long_paths_are_cut :
  uri_path_eq (packet_of (with_options (replicate 17 (11, [97])) None)) (replicate 16 [97] ++ [[]]) = Ret true.
Proof. by vm_compute. Qed.

(** The path of the root cannot be extracted, and one with an empty segment
    ends there. *)
Lemma paths_are_cut_at_empty_segments :
  packet_extract_path (H := gcc5) (H0 := roomy) (packet_of (with_options [] None)) = Ret (inl (- EINVAL))
  /\ (p ← packet_extract_path (H := gcc5) (H0 := roomy) (packet_of (with_options [(11, [97]); (11, []); (11, [98])] None));
      match p with inl _ => UB | inr m => Ret (take 3 m) end) = Ret [47; 97; 0].
Proof. by vm_compute. Qed.

(** Without memory for the header, errno is set to a negative number. *)
Program Definition one_packet : Allocator := {| alloc_ok := fun n => n =? 48; fresh_byte := fun _ => 165 |}.
Next Obligation. intros n. cbn. intros ->%Z.eqb_eq. zlia. Qed.

Lemma errno_is_negative : sol_coap_packet_new (H := gcc5) (H0 := one_packet) None = Ret (inl (- ENOMEM)).
Proof. reflexivity. Qed.

End CoapBuild.
