(* ===== verification/CoapRequest.v ===== *)
(** * Requests of CoAP: shared steps

    Runs of the operations that build packets, in the order options have;
    requests before their options; a path that goes out of a packet as text
    and into another one. *)

From S2P Require Import Prelude Arith Str Codec Buffer Coap CoapProofs CoapBuild.
Import Buffer Coap CoapProofs CoapBuild.

#[local] Open Scope Z_scope.

Module CoapRequest.

Section Requests.
Context `{BuildConfig} `{Allocator}.

(** Options in the order of their numbers from [last] on, the payload behind
    them *)
Fixpoint in_order (last : Z) (ops : list packet_op) : Prop :=
  match ops with
  | [] => True
  | AddOption n _ :: ops => last <= n /\ in_order n ops
  | AddPayload _ :: ops => ops = []
  | _ :: ops => in_order last ops
  end.

Lemma run_in_order ops pkt m : represents pkt m -> ops_allowed ops m -> m_payload m = None ->
  in_order (last_number 0 (m_options m)) ops ->
  exists r pkt', run_ops ops pkt = Ret (r, pkt')
    /\ (r = 0 /\ represents pkt' (foldl (flip op_effect) m ops) \/ r < 0 /\ refused).
Proof.
  revert pkt m. induction ops as [|op ops IH]; intros pkt m Hpk Hops Hpay Hord; [do 2 eexists; split; [done|]; by left|].
  destruct Hops as (Hop & Hle & Hops). cbn [run_ops foldl].
  destruct (packet_op_spec _ _ _ Hpk Hop Hle) as (r & pkt1 & -> & [(-> & _ & Hpk1)|[(-> & Hno & ->)|[Hneg ?]]]); rewrite bind_ret.
  - cbn [Z.ltb Z.compare]. unfold flip at 2. destruct op; cbn [in_order] in Hord; try (apply IH; done).
    + destruct Hord as [_ Hord]. apply IH; [done|done|done|]. cbn [op_effect m_options]. by rewrite last_number_app.
    + subst ops. do 2 eexists. split; [done|]. by left.
  - destruct op; cbn [op_refused] in Hno; try done. destruct Hno. by destruct Hord.
  - rewrite (proj2 (Z.ltb_lt r 0)) by done. do 2 eexists. split; [done|]. by right.
Qed.

Lemma run_ops_app ops ops' pkt : run_ops (ops ++ ops') pkt
  = '(r, pkt) ← run_ops ops pkt; if r <? 0 then Ret (r, pkt) else run_ops ops' pkt.
Proof.
  revert pkt. induction ops as [|op ops IH]; intros pkt; cbn [run_ops app]; [by rewrite bind_ret|].
  destruct (run_op op pkt) as [[r pkt1]|]; [|done]. rewrite !bind_ret. destruct (r <? 0) eqn:Hr; [by rewrite bind_ret, Hr|]. apply IH.
Qed.

Lemma ops_allowed_app ops ops' m :
  ops_allowed (ops ++ ops') m <-> ops_allowed ops m /\ ops_allowed ops' (foldl (flip op_effect) m ops).
Proof.
  revert m. induction ops as [|op ops IH]; intros m; cbn [ops_allowed app foldl]; [tauto|]. rewrite IH. unfold flip at 2. tauto.
Qed.

Definition uri_ops (segs : list (list Z)) : list packet_op := AddOption SOL_COAP_OPTION_URI_PATH <$> segs.

Lemma uri_in_order last s segs ops : last <= 11 -> in_order 11 ops -> in_order last (uri_ops (s :: segs) ++ ops).
Proof.
  intros Hl Hops. unfold uri_ops. revert last s Hl. induction segs as [|t segs IH]; intros last s Hl; cbn; [by split|].
  split; [done|]. by apply (IH 11 t).
Qed.

Lemma uri_effect segs m : foldl (flip op_effect) m (uri_ops segs)
  = Message (m_ver m) (m_type m) (m_code m) (m_id m) (m_token m)
      (m_options m ++ ((fun s => (SOL_COAP_OPTION_URI_PATH, s)) <$> segs)) (m_payload m).
Proof.
  unfold uri_ops. revert m. induction segs as [|s segs IH]; intros m; cbn [fmap list_fmap foldl].
  - rewrite app_nil_r. by destruct m.
  - unfold flip at 2. fold (fmap (M := list) (AddOption SOL_COAP_OPTION_URI_PATH) segs). rewrite IH. cbn [op_effect m_options m_ver m_type m_code m_id m_token m_payload].
    by rewrite <- app_assoc.
Qed.

(** A request before its token *)
Definition request_start (method type id : Z) : message := Message COAP_VERSION (type mod 4) method id [] [] None.

(** The packet before its token *)
Lemma new_request_spec request_id method type : is_byte method -> is_byte type ->
  (exists e, sol_coap_packet_new_request request_id method type = Ret (request_id, inl e) /\ refused)
  \/ exists pkt, sol_coap_packet_new_request request_id method type = Ret (wrapu 16 (request_id + 1), inr pkt)
       /\ represents pkt (request_start method type (wrapu 16 (request_id + 1))).
Proof.
  intros Hm Ht. unfold sol_coap_packet_new_request, sol_coap_packet_new.
  destruct packet_new_spec as [(e & -> & Hr)|(p0 & -> & Hp0 & _)]; rewrite !bind_ret; [left; by exists e|]. right.
  unfold is_byte in Hm, Ht. rewrite (wrapu_small 8 method) by lia.
  destruct (set_code_spec _ _ method Hp0 Hm) as (p1 & -> & Hp1). rewrite bind_ret. cbn [Z.ltb Z.compare].
  destruct (set_id_spec _ _ (wrapu 16 (request_id + 1)) Hp1) as (p2 & -> & Hp2); [unfold wrapu; apply Z.mod_pos_bound; lia|].
  rewrite bind_ret. cbn [Z.ltb Z.compare]. rewrite (wrapu_small 8 type) by lia.
  destruct (set_type_spec _ _ type Hp2 Ht) as (p3 & -> & Hp3). rewrite bind_ret. cbn [Z.ltb Z.compare]. by exists p3.
Qed.

Lemma uri_last last s segs : last_number last ((fun s => (SOL_COAP_OPTION_URI_PATH, s)) <$> s :: segs) = SOL_COAP_OPTION_URI_PATH.
Proof. revert last s. induction segs as [|t segs IH]; intros last s; [done|]. apply (IH SOL_COAP_OPTION_URI_PATH t). Qed.


(** *** The path of a packet *)

(** A segment that is a component of a path and part of a C string *)
Definition plain_segment (s : list Z) : Prop := s <> [] /\ Forall (fun x => x <> 47 /\ x <> 0) s.

Lemma cstr_before l rest : Forall (fun x => x <> 0) l -> CString.cstr (l ++ 0 :: rest) = l.
Proof.
  induction 1 as [|x l Hx _ IH]; [done|]. cbn [CString.cstr app]. by rewrite (proj2 (Z.eqb_neq x 0)), IH.
Qed.

Lemma path_text_plain segs : Forall plain_segment segs -> Forall (fun x => x <> 0) (path_text segs).
Proof.
  induction 1 as [|s segs [_ Hs] _ IH]; [constructor|]. unfold path_text in *. cbn [fmap list_fmap concat app].
  constructor; [done|]. apply Forall_app. split; [|done]. eapply Forall_impl; [exact Hs|]. by intros x [_ ?].
Qed.

Lemma terminated_text b l : rep b l -> terminated b -> flags b = flags sol_buffer_init -> Forall (fun x => x <> 0) l ->
  CString.cstr (storage b) = l.
Proof.
  intros Hrep Ht Hfl Hl. destruct (buf_rep_storage _ _ Hrep) as (rest & Hs & _ & Hu). unfold terminated in Ht. rewrite Hs in *.
  destruct Ht as [Ht|[[Hpos Ht]|[_ Ht]]].
  - unfold has in Ht. by rewrite Hfl in Ht.
  - exfalso. rewrite lookup_app_l in Ht by (rewrite Hu in *; unfold blen in *; lia).
    apply list_elem_of_lookup_2 in Ht. by eapply Forall_forall in Hl.
  - rewrite Hu, blen_to_nat, lookup_app_r, Nat.sub_diag in Ht by lia. destruct rest as [|x rest]; [done|]. injection Ht as ->.
    by apply cstr_before.
Qed.

Lemma path_to_buffer_spec segs b l : Forall (fun s => s <> []) segs -> rep b l ->
  blen (l ++ path_text segs) <= 2 ^ 60 -> (l <> [] -> terminated b) ->
  exists r b' cur, path_to_buffer_loop (segs ++ [[]]) b (blen l) 0 = Ret (r, b', cur) /\ flags b' = flags b
    /\ (r < 0 /\ (exists t, t `prefix_of` path_text segs /\ rep b' (l ++ t))
        \/ r = 0 /\ rep b' (l ++ path_text segs) /\ cur = blen (l ++ path_text segs) /\ (l ++ path_text segs <> [] -> terminated b')
           /\ (l ++ path_text segs = [] -> b' = b)).
Proof.
  intros Hsegs. revert b l. induction Hsegs as [|s segs Hne _ IH]; intros b l Hrep Hlen Hterm.
  { change (path_text []) with (@nil Z). rewrite app_nil_r. exists 0, b, (blen l). split_and!; [done|done|]. right. by split_and!. }
  change (path_text (s :: segs)) with (47 :: s ++ path_text segs) in *.
  pose proof (blen_nonneg l). pose proof (blen_nonneg s). pose proof (blen_nonneg (path_text segs)).
  rewrite blen_app, blen_cons, blen_app in Hlen. cbn [app path_to_buffer_loop].
  rewrite (proj2 (Z.eqb_neq _ 0)) by (by intros ->%blen_zero_nil).
  assert (sol_util_size_add (blen l) (blen s + 1) 0 = (0, blen l + (blen s + 1))) as ->.
  { apply size_add_exact; zlia. }
  cbn [Z.ltb Z.compare]. destruct (insert_char_spec b l (blen l) 47 Hrep) as (r & b1 & -> & [Hfl1 Hw1] & _); [lia|]. rewrite bind_ret.
  rewrite blen_to_nat, take_ge, drop_ge, app_nil_r in Hw1 by done.
  destruct Hw1 as [(-> & Hrep1 & _)|[Hneg Hrep1]]; [cbn [Z.ltb Z.compare]|rewrite (proj2 (Z.ltb_lt r 0)) by done; do 3 eexists; split_and!; [done|done|]].
  2: { left. split; [done|]. exists []. split; [apply prefix_nil|by rewrite app_nil_r]. }
  unfold sol_buffer_insert_slice. replace (blen l + 1) with (blen (l ++ [47])) by (by rewrite blen_app).
  destruct (insert_bytes_spec b1 _ (blen (l ++ [47])) s Hrep1 ltac:(apply blen_nonneg) ltac:(zlia)) as (r & b2 & -> & [Hfl2 Hw2] & _).
  rewrite bind_ret, blen_to_nat, take_ge, drop_ge, app_nil_r in * by done.
  destruct Hw2 as [(-> & Hrep2 & Ht2)|[Hneg Hrep2]];
    [cbn [Z.ltb Z.compare]|rewrite (proj2 (Z.ltb_lt r 0)) by done; do 3 eexists; split_and!; [done|congruence|]].
  2: { left. split; [done|]. exists [47]. split; [by apply prefix_cons, prefix_nil|done]. }
  replace (blen l + (blen s + 1)) with (blen ((l ++ [47]) ++ s)) by (rewrite !blen_app; change (blen [47]) with 1; lia).
  destruct (IH b2 ((l ++ [47]) ++ s) Hrep2) as (r & b' & cur & -> & Hfl & Hcase).
  - rewrite !blen_app. change (blen [47]) with 1. lia.
  - done.
  - do 3 eexists. split; [done|]. split; [congruence|].
    destruct Hcase as [(Hneg & t & Ht & Hrep')|(-> & Hrep' & Hcur & Ht' & _)]; [left|right]; rewrite <- !app_assoc in *; cbn [app] in *.
    + split; [done|]. exists (47 :: s ++ t). split; [by apply prefix_cons, prefix_app|done].
    + split_and!; [done|done|done|done|]. intros He. by apply app_eq_nil in He as [_ ?].
Qed.

Lemma load_spans b l ss vs : rep b l -> Forall2 (spans l) ss vs ->
  mapM (fun o => buf_load b (StrSlice.off o) (StrSlice.len o)) ss = Ret vs.
Proof.
  intros Hrep. induction 1 as [|sp v ss vs (x & z & Hl & ->) _ IH]; [done|].
  pose proof (load_inside b x v z ltac:(by rewrite <- Hl)) as Hld. cbn -[buf_load mem_load]. rewrite Hld.
  by rewrite bind_ret, IH, bind_ret.
Qed.

(** The text of the Uri-Path options of a packet, up to sixteen of them *)
Lemma extract_path_spec pkt l token os rest : datagram (buf pkt) l -> blen l <= INT16_MAX -> packet_bytes l token os rest ->
  let segs := take 16 (values SOL_COAP_OPTION_URI_PATH os) in
  Forall plain_segment segs -> blen (path_text segs) <= 2 ^ 60 ->
  exists m, packet_extract_path pkt = Ret m
    /\ match m with inl r => r < 0 | inr text => CString.cstr text = path_text segs /\ segs <> [] end.
Proof.
  intros Hdg Hs Hpb segs Hsegs Hlen. unfold packet_extract_path.
  destruct (options_find_spec pkt l token os rest SOL_COAP_OPTION_URI_PATH 16 Hdg Hs Hpb ltac:(lia)) as (ss & -> & Hss).
  change (Z.to_nat 16) with 16%nat in Hss. fold segs in Hss. rewrite bind_ret, (proj2 (Z.ltb_ge _ 0)) by apply blen_nonneg.
  pose proof (Forall2_length _ _ _ Hss) as Hn. assert (length segs <= 16)%nat by (unfold segs; rewrite length_take; lia).
  rewrite Z.gtb_ltb, (proj2 (Z.ltb_ge 16 _)) by (unfold blen; lia).
  rewrite (load_spans _ l ss segs); [|apply Hdg|done].
  assert (Forall (fun s => s <> []) segs) as Hne by (eapply Forall_impl; [exact Hsegs|]; by intros ? [? _]).
  rewrite bind_ret. destruct (path_to_buffer_spec segs sol_buffer_init [] Hne buf_rep_init) as (r & b & cur & Hrun & Hfl & Hcase); [done|done|].
  unfold sol_coap_path_to_buffer. change (blen []) with 0 in Hrun. rewrite Hrun, bind_ret. cbn [app] in Hcase.
  destruct Hcase as [[Hneg _]|(-> & Hrep & _ & Ht & He)]; [rewrite (proj2 (Z.ltb_lt r 0)) by done; by eexists|].
  cbn [Z.ltb Z.compare]. unfold sol_buffer_steal. assert (has b SOL_BUFFER_FLAGS_NO_FREE = false) as -> by (unfold has; by rewrite Hfl).
  destruct (decide (path_text segs = [])) as [Hz|Hz].
  - rewrite (He Hz). by eexists.
  - pose proof (terminated_text b _ Hrep (Ht Hz) Hfl (path_text_plain _ Hsegs)) as Hc. unfold storage in Hc.
    destruct (data b) as [text|]; [|by rewrite <- Hc in Hz]. eexists. split; [done|]. split; [exact Hc|]. by intros ->.
Qed.

(** *** References

    What writes to a packet leaves its references alone. *)

Lemma with_header_refcnt pkt w r pkt' : with_header pkt w = Ret (r, pkt') -> refcnt pkt' = refcnt pkt.
Proof.
  unfold with_header. intros ([e b] & _ & Hp)%bind_Ret_inv. destruct (e <? 0); [by injection Hp as _ <-|].
  by apply bind_Ret_inv in Hp as (b' & _ & [= _ <-]).
Qed.

Lemma set_token_refcnt pkt t r pkt' : sol_coap_header_set_token pkt t = Ret (r, pkt') -> refcnt pkt' = refcnt pkt.
Proof.
  unfold sol_coap_header_set_token. intros ([e b] & _ & Hp)%bind_Ret_inv. destruct (e <? 0); [by injection Hp as _ <-|].
  apply bind_Ret_inv in Hp as ([e' b'] & _ & Hp). destruct (e' <? 0); [by injection Hp as _ <-|].
  by apply bind_Ret_inv in Hp as (b'' & _ & [= _ <-]).
Qed.

Lemma add_option_refcnt pkt n v r pkt' : sol_coap_add_option pkt n v = Ret (r, pkt') -> refcnt pkt' = refcnt pkt.
Proof.
  unfold sol_coap_add_option. destruct v as [v|]; [|by intros [= _ <-]]. destruct (negb _); [by intros [= _ <-]|].
  intros (o & _ & Hp)%bind_Ret_inv. destruct (o <? 0); [by injection Hp as _ <-|]. apply bind_Ret_inv in Hp as ([e|c] & _ & Hp);
    [by injection Hp as _ <-|]. by apply bind_Ret_inv in Hp as ([e b] & _ & [= _ <-]).
Qed.

Lemma get_payload_refcnt pkt r pkt' n : sol_coap_packet_get_payload pkt = Ret (r, pkt', n) -> refcnt pkt' = refcnt pkt.
Proof.
  unfold sol_coap_packet_get_payload. intros ([e p] & Hp & [= _ <- _])%bind_Ret_inv. destruct (payload_start pkt =? 0); [|by injection Hp as _ <-].
  apply bind_Ret_inv in Hp as ([e' b'] & _ & Hp). destruct (e' <? 0); by injection Hp as _ <-.
Qed.

Lemma run_op_refcnt op pkt r pkt' : run_op op pkt = Ret (r, pkt') -> refcnt pkt' = refcnt pkt.
Proof.
  destruct op; cbn [run_op]; try apply with_header_refcnt; [apply set_token_refcnt|apply add_option_refcnt|].
  unfold append_payload. intros ([[e p] n] & Hg & Hp)%bind_Ret_inv. apply get_payload_refcnt in Hg.
  destruct (e <? 0); [by injection Hp as _ <-|]. by apply bind_Ret_inv in Hp as ([e' b'] & _ & [= _ <-]).
Qed.

Lemma run_ops_refcnt ops pkt r pkt' : run_ops ops pkt = Ret (r, pkt') -> refcnt pkt' = refcnt pkt.
Proof.
  revert pkt. induction ops as [|op ops IH]; intros pkt; cbn [run_ops]; [by intros [= _ <-]|].
  intros ([e p] & Hop%run_op_refcnt & Hp)%bind_Ret_inv. destruct (e <? 0); [by injection Hp as _ <-|]. rewrite <- Hop. by apply IH.
Qed.

Lemma packet_new_refcnt pkt : packet_new None = Ret (inr pkt) -> refcnt pkt = 1.
Proof. destruct packet_new_spec as [(e & -> & _)|(p & -> & _ & Hr)]; [done|]. by intros [= <-]. Qed.

Lemma reply_refcnt old pkt : sol_coap_packet_new old = Ret (inr pkt) -> refcnt pkt = 1.
Proof.
  unfold sol_coap_packet_new. intros ([e|p0] & Hnew & Hp)%bind_Ret_inv; [done|]. apply packet_new_refcnt in Hnew.
  destruct old as [old|]; [|by injection Hp as <-]. apply bind_Ret_inv in Hp as (id & _ & Hp).
  apply bind_Ret_inv in Hp as ([r1 p1] & H1%with_header_refcnt & Hp). destruct (r1 <? 0); [done|].
  apply bind_Ret_inv in Hp as (ty & _ & Hp). apply bind_Ret_inv in Hp as ([r2 p2] & H2 & Hp).
  assert (refcnt p2 = refcnt p1) as Hr2.
  { destruct (ty =? _); [by apply with_header_refcnt in H2|]. destruct (ty =? _); [by apply with_header_refcnt in H2|]. by injection H2 as _ <-. }
  destruct (r2 <? 0); [done|]. apply bind_Ret_inv in Hp as ([t tkl] & _ & Hp). destruct t as [t|]; [|injection Hp as <-; congruence].
  apply bind_Ret_inv in Hp as (bs & _ & Hp). apply bind_Ret_inv in Hp as ([r3 p3] & H3%set_token_refcnt & [= <-]). congruence.
Qed.

Lemma request_refcnt i method type i' pkt : sol_coap_packet_new_request i method type = Ret (i', inr pkt) -> refcnt pkt = 1.
Proof.
  unfold sol_coap_packet_new_request. intros ([e|p0] & Hnew & Hp)%bind_Ret_inv; [done|]. apply reply_refcnt in Hnew.
  apply bind_Ret_inv in Hp as ([r1 p1] & H1%with_header_refcnt & Hp). destruct (r1 <? 0); [done|].
  apply bind_Ret_inv in Hp as ([r2 p2] & H2%with_header_refcnt & Hp). destruct (r2 <? 0); [done|].
  apply bind_Ret_inv in Hp as ([r3 p3] & H3%with_header_refcnt & Hp). destruct (r3 <? 0); [done|]. injection Hp as _ <-. congruence.
Qed.
End Requests.
End CoapRequest.
