(* ===== verification/CoapQueue.v ===== *)
(** * The send queue of a CoAP server

    Models the queue of outgoing packets of src/src/lib/comms/sol-coap.c:
    enqueuing, sending when the socket is writable, retransmission of
    confirmable packets, removal on an acknowledgement, cancelling and
    clearing.  Packets and queue entries are objects on a heap, the vector of
    entries a list of their addresses; packets are counted references.  What
    the socket, the timers and the memory answer is the class [CoapEnv],
    which sees the log of all that happened.  Network addresses are only
    compared and passed on: they are numbers. *)

From stdpp Require Export gmap.
From S2P Require Import Prelude Arith Codec Buffer Coap.
Import Buffer Coap.

#[local] Open Scope Z_scope.

Module CoapQueue.

Definition ACK_TIMEOUT_MS := 2345.
Definition MAX_RETRANSMIT := 4.
Definition MAX_PKT_TIMEOUT_MS := Z.shiftl ACK_TIMEOUT_MS MAX_RETRANSMIT.

(** [o_timeout]: the timeout is pending. *)
Record outgoing := { o_pkt : Z; o_header : option Z; o_timeout : bool; cliaddr : Z; counter : Z }.

Definition set_timeout (o : outgoing) t :=
  {| o_pkt := o_pkt o; o_header := o_header o; o_timeout := t; cliaddr := cliaddr o; counter := counter o |}.
Definition set_counter (o : outgoing) c :=
  {| o_pkt := o_pkt o; o_header := o_header o; o_timeout := o_timeout o; cliaddr := cliaddr o; counter := c |}.

Inductive event :=
| Enqueued (oid pid : Z) (header : option Z) (addr : Z)
| Waiting (oid ms : Z)                              (** a timeout was added *)
| Stopped (oid : Z)                                 (** it was deleted *)
| Fired (oid : Z)                                   (** it expired *)
| Sent (oid : Z) (bytes : list Z) (addr r : Z)      (** handed to the socket, which answered [r] *)
| Removed (oid : Z)                                 (** the entry is gone *)
| Freed (pid : Z).                                  (** the packet is gone *)

Record queue := {
  packets : gmap Z sol_coap_packet; outs : gmap Z outgoing; vec : list Z;
  next_id : Z; write_monitor : bool; log : list event
}.

Definition set_packets (q : queue) ps := {| packets := ps; outs := outs q; vec := vec q; next_id := next_id q; write_monitor := write_monitor q; log := log q |}.
Definition set_outs (q : queue) os := {| packets := packets q; outs := os; vec := vec q; next_id := next_id q; write_monitor := write_monitor q; log := log q |}.
Definition set_vec (q : queue) v := {| packets := packets q; outs := outs q; vec := v; next_id := next_id q; write_monitor := write_monitor q; log := log q |}.
Definition set_next (q : queue) n := {| packets := packets q; outs := outs q; vec := vec q; next_id := n; write_monitor := write_monitor q; log := log q |}.
Definition set_monitor (q : queue) m := {| packets := packets q; outs := outs q; vec := vec q; next_id := next_id q; write_monitor := m; log := log q |}.
Definition note (q : queue) e := {| packets := packets q; outs := outs q; vec := vec q; next_id := next_id q; write_monitor := write_monitor q; log := log q ++ [e] |}.

(** Answers of the environment: is there memory for an entry, for the vector
    to grow, for a timeout, and what the socket says: the result of sending
    and the [errno] found afterwards, which a socket may leave as it was. *)
Class CoapEnv := {
  entry_memory : list event -> bool;
  vector_memory : list event -> bool;
  timeout_memory : list event -> bool;
  sendmsg_result : list event -> Z;
  sendmsg_errno : list event -> Z
}.

Definition packet_at (q : queue) (pid : Z) : outcome sol_coap_packet :=
  match packets q !! pid with Some p => Ret p | None => UB end.

Definition out_at (q : queue) (oid : Z) : outcome outgoing :=
  match outs q !! oid with Some o => Ret o | None => UB end.

(** A packet is placed on the heap, as [sol_coap_packet_new] leaves it. *)
Definition new_packet (q : queue) (p : sol_coap_packet) : Z * queue :=
  (next_id q, set_next (set_packets q (<[next_id q := p]> (packets q))) (next_id q + 1)).

(** [sol_coap_packet_ref] and [sol_coap_packet_unref] on the heap *)
Definition packet_ref (q : queue) (pid : Z) : outcome queue :=
  p ← packet_at q pid; p ← sol_coap_packet_ref p; Ret (set_packets q (<[pid := p]> (packets q))).

Definition packet_unref (q : queue) (pid : Z) : outcome queue :=
  p ← packet_at q pid;
  match sol_coap_packet_unref p with
  | Some p => Ret (set_packets q (<[pid := p]> (packets q)))
  | None => Ret (note (set_packets q (delete pid (packets q))) (Freed pid))
  end.

Definition outgoing_free (q : queue) (oid : Z) : outcome queue :=
  o ← out_at q oid;
  let q := if o_timeout o then note q (Stopped oid) else q in
  q ← packet_unref q (o_pkt o);
  q ← (match o_header o with Some h => packet_unref q h | None => Ret q end);
  Ret (note (set_outs q (delete oid (outs q))) (Removed oid)).

(** The place and the address of the first entry that waits for nothing. *)
Fixpoint next_loop (q : queue) (l : list Z) (i : nat) : outcome (option (nat * Z)) :=
  match l with
  | [] => Ret None
  | oid :: l => o ← out_at q oid; if negb (o_timeout o) then Ret (Some (i, oid)) else next_loop q l (S i)
  end.

Definition next_in_queue (q : queue) : outcome (option (nat * Z)) := next_loop q (vec q) 0.

(** The timeout of an entry fires, and is not repeated. *)
Definition timeout_cb (q : queue) (oid : Z) : outcome (bool * queue) :=
  o ← out_at q oid;
  Ret (false, note (set_monitor (set_outs q (<[oid := set_timeout o false]> (outs q))) true) (Fired oid)).

(** The last place of an entry in the first [n] of the vector. *)
Fixpoint last_place (l : list Z) (oid : Z) (n : nat) : option nat :=
  match n with
  | O => None
  | S n => if bool_decide (l !! n = Some oid) then Some n else last_place l oid n
  end.

(** The walk of the vector from its end down to the entry [i - 1]: entries
    that [matches] accepts are removed and freed, all of them or the last one
    only.  An index outside the vector reads outside its storage. *)
Fixpoint remove_loop (matches : queue -> outgoing -> outcome bool) (once : bool) (q : queue) (i : nat) (count : Z)
    : outcome (Z * queue) :=
  match i with
  | O => Ret (count, q)
  | S i =>
      match vec q !! i with
      | None => UB
      | Some oid =>
          o ← out_at q oid;
          m ← matches q o;
          if negb m then remove_loop matches once q i count
          else
            let q := set_vec q (delete i (vec q)) in
            q ← outgoing_free q oid;
            if once then Ret (count + 1, q) else remove_loop matches once q i (count + 1)
      end
  end.

Section Operations.
Context `{BuildConfig} `{Allocator} `{CoapEnv}.

(** [sol_ptr_vector_append] *)
Definition append_result (q : queue) : Z :=
  if blen (vec q) =? UINT16_MAX then - EOVERFLOW else if vector_memory (log q) then 0 else - ENOMEM.

Definition add_timeout (q : queue) (oid ms : Z) : outcome queue :=
  o ← out_at q oid;
  let armed := timeout_memory (log q) in
  let q := set_outs q (<[oid := set_timeout o armed]> (outs q)) in
  Ret (if armed then note q (Waiting oid ms) else q).

Definition timeout_expired (q : queue) (oid : Z) : outcome (bool * queue) :=
  o ← out_at q oid;
  p ← packet_at q (o_pkt o);
  type ← sol_coap_header_get_type p;
  if negb (type =? SOL_COAP_MESSAGE_TYPE_CON) then Ret (false, q)
  else
    timeout ← int_op (Z.shiftl ACK_TIMEOUT_MS (counter o));
    c ← int_op (counter o + 1);
    let q := set_outs q (<[oid := set_counter o c]> (outs q)) in
    match (if c >? MAX_RETRANSMIT then last_place (vec q) oid (length (vec q)) else None) with
    | Some i => q ← outgoing_free (set_vec q (delete i (vec q))) oid; Ret (true, q)
    | None => q ← add_timeout q oid timeout; Ret (false, q)
    end.

(** Entries that were sent too often are dropped on the way: each round
    takes one away. *)
Fixpoint pick_loop (q : queue) (fuel : nat) : outcome (option (nat * Z) * queue) :=
  match fuel with
  | O => UB
  | S fuel =>
      n ← next_in_queue q;
      match n with
      | None => Ret (None, q)
      | Some (idx, oid) =>
          '(expired, q) ← timeout_expired q oid;
          if (expired : bool) then pick_loop q fuel else Ret (Some (idx, oid), q)
      end
  end.

(** What [on_can_write] does with the entry at [idx] that it picked *)
Definition send_picked (q : queue) (idx : nat) (oid : Z) : outcome (bool * queue) :=
  o ← out_at q oid;
  payload ← packet_at q (o_pkt o);
  header ← (match o_header o with Some h => p ← packet_at q h; Ret (Some p) | None => Ret None end);
  '(err, buf) ← prepare_buffer header payload;
  if negb (err =? 0) then Ret (true, q)
  else
    bytes ← (match buf with Some b => sol_buffer_get_slice b | None => UB end);
    let ret := sendmsg_result (log q) in
    let errno := sendmsg_errno (log q) in
    let q := note q (Sent oid bytes (cliaddr o) ret) in
    if (ret <? 0) && (errno =? EAGAIN) then Ret (true, q)
    else if ret <? 0 then Ret (false, q)
    else
      q ← (if negb (o_timeout o) then outgoing_free (set_vec q (delete idx (vec q))) oid else Ret q);
      Ret (negb (bool_decide (vec q = [])), q).

Definition on_can_write (q : queue) : outcome (bool * queue) :=
  if bool_decide (vec q = []) then Ret (false, q)
  else
    '(picked, q) ← pick_loop q (S (length (vec q)));
    match picked with
    | None => Ret (false, q)
    | Some (idx, oid) => send_picked q idx oid
    end.

(** The socket calls [on_can_write] while its answer is true. *)
Definition writable (q : queue) : outcome queue :=
  '(keep, q) ← on_can_write q; Ret (set_monitor q keep).

Definition enqueue_packet (q : queue) (pid : Z) (header : option Z) (addr : Z) : outcome (Z * queue) :=
  if negb (entry_memory (log q)) then Ret (- ENOMEM, q)
  else
    let r := append_result q in
    if r <? 0 then Ret (r, q)
    else
      let oid := next_id q in
      let o := {| o_pkt := pid; o_header := header; o_timeout := false; cliaddr := addr; counter := 0 |} in
      let q := set_next (set_outs (set_vec q (vec q ++ [oid])) (<[oid := o]> (outs q))) (oid + 1) in
      q ← packet_ref q pid;
      q ← (match header with Some h => packet_ref q h | None => Ret q end);
      Ret (0, note (set_monitor q true) (Enqueued oid pid header addr)).

(** Stop sending the confirmable packet whose id [req] answers. *)
Definition is_answered (id : Z) (q : queue) (o : outgoing) : outcome bool :=
  p ← packet_at q (o_pkt o);
  type ← sol_coap_header_get_type p;
  o_id ← sol_coap_header_get_id p;
  Ret (negb (negb (id =? o_id) || negb (type =? SOL_COAP_MESSAGE_TYPE_CON))).

Definition remove_outgoing_confirmable_packet (q : queue) (req : sol_coap_packet) : outcome queue :=
  id ← sol_coap_header_get_id req;
  '(_, q) ← remove_loop (is_answered id) true q (length (vec q)) 0; Ret q.

(** The first half of [sol_coap_cancel_send_packet]: how many entries of the
    packet were removed. *)
Definition is_of (pid : Z) (q : queue) (o : outgoing) : outcome bool :=
  if negb (o_pkt o =? pid) then Ret false
  else p ← packet_at q pid; _ ← sol_coap_header_get_id p; Ret true.

Definition cancel_outgoing (q : queue) (pid : Z) : outcome (Z * queue) :=
  remove_loop (is_of pid) false q (length (vec q)) 0.

(** The first loop of [sol_coap_server_destroy] *)
Definition destroy_outgoing (q : queue) : outcome queue :=
  '(_, q) ← remove_loop (fun _ _ => Ret true) false q (length (vec q)) 0; Ret q.
End Operations.
End CoapQueue.
