(* ===== verification/CoapQueueProofs.v ===== *)
(** * The send queue of a CoAP server: proofs

    The invariant of the queue, [queue_inv]: no entry is listed twice, the
    entries listed are the ones that exist, every packet has as many
    references as its owners and the queue hold, and what the log says of an
    entry is a [life] of it.  [pick] is the choice of the next entry to send
    as a pass over the queue.  Every sequence of the operations the server
    runs keeps the invariant, and so no packet or entry is used after it was
    freed. *)

From S2P Require Import Prelude Arith Codec Buffer Coap CoapProofs CoapBuild CoapQueue.
Import Buffer Coap CoapProofs CoapBuild CoapQueue.

#[local] Open Scope Z_scope.

Module CoapQueueProofs.

(** ** Packets are counted *)

Definition one (pid x : Z) : Z := if bool_decide (x = pid) then 1 else 0.

(** The references an entry holds, and the entries of a queue *)
Definition hits (o : outgoing) (x : Z) : Z :=
  one (o_pkt o) x + match o_header o with Some h => one h x | None => 0 end.

Fixpoint held (os : gmap Z outgoing) (v : list Z) (x : Z) : Z :=
  match v with
  | [] => 0
  | oid :: v => match os !! oid with Some o => hits o x | None => 0 end + held os v x
  end.

Definition holds (p : sol_coap_packet) (m : message) : Prop :=
  wf_message m /\ rep (buf p) (encode m) /\ blen (encode m) <= 65535 - 8.

(** The heap has the packets that are referenced, each with the message it
    was made with. *)
Definition heap_ok (ms : Z -> message) (c : Z -> Z) (ps : gmap Z sol_coap_packet) : Prop :=
  forall pid, match ps !! pid with
  | Some p => refcnt p = c pid /\ 1 <= c pid /\ holds p (ms pid)
  | None => c pid = 0
  end.

Definition notes (q : queue) (es : list event) : queue :=
  {| packets := packets q; outs := outs q; vec := vec q; next_id := next_id q;
     write_monitor := write_monitor q; log := log q ++ es |}.

Lemma notes_nil q : notes q [] = q.
Proof. destruct q. unfold notes. cbn. by rewrite app_nil_r. Qed.

Lemma note_notes q es e : note (notes q es) e = notes q (es ++ [e]).
Proof. unfold note, notes. cbn. by rewrite <- app_assoc. Qed.

Lemma one_range pid x : 0 <= one pid x <= 1.
Proof. unfold one. case_bool_decide; lia. Qed.

Lemma one_same pid : one pid pid = 1.
Proof. unfold one. by rewrite bool_decide_true. Qed.

Lemma one_other pid x : x <> pid -> one pid x = 0.
Proof. unfold one. intros. by rewrite bool_decide_false. Qed.

Lemma hits_range o x : 0 <= hits o x <= 2.
Proof. unfold hits. pose proof (one_range (o_pkt o) x). destruct (o_header o) as [h|]; [pose proof (one_range h x)|]; lia. Qed.

Lemma held_range os v x : 0 <= held os v x <= 2 * blen v.
Proof.
  induction v as [|oid v IH]; cbn [held]; [by split|]. rewrite blen_cons.
  destruct (os !! oid) as [o|]; [pose proof (hits_range o x)|]; lia.
Qed.

Lemma held_app os v v' x : held os (v ++ v') x = held os v x + held os v' x.
Proof. induction v; cbn [held app]; lia. Qed.

Lemma held_ext os os' v x : (forall oid, oid ∈ v -> hits <$> os !! oid = hits <$> os' !! oid) -> held os v x = held os' v x.
Proof.
  induction v as [|oid v IH]; intros He; cbn [held]; [done|].
  assert (held os v x = held os' v x) as -> by (apply IH; intros; apply He; by right).
  specialize (He oid ltac:(by left)). destruct (os !! oid), (os' !! oid); cbn in He; simplify_eq; congruence.
Qed.

Lemma held_delete os v i oid o x : v !! i = Some oid -> os !! oid = Some o ->
  held os v x = hits o x + held os (delete i v) x.
Proof.
  intros Hi Ho. rewrite <- (take_drop_middle v i oid Hi) at 1. rewrite delete_take_drop, !held_app.
  cbn [held]. rewrite Ho. lia.
Qed.

Lemma heap_ext ms c c' ps : (forall x, c x = c' x) -> heap_ok ms c ps -> heap_ok ms c' ps.
Proof. intros He Hh pid. specialize (Hh pid). by rewrite <- He. Qed.

Lemma heap_packet ms c q pid : heap_ok ms c (packets q) -> 1 <= c pid ->
  exists p, packets q !! pid = Some p /\ packet_at q pid = Ret p /\ refcnt p = c pid /\ holds p (ms pid).
Proof.
  intros Hh Hc. specialize (Hh pid). unfold packet_at. destruct (packets q !! pid) as [p|]; [|lia].
  exists p. by destruct Hh as (? & _ & ?).
Qed.

Lemma heap_ref_spec ms c q pid : heap_ok ms c (packets q) -> 1 <= c pid < INT_MAX ->
  exists ps, packet_ref q pid = Ret (set_packets q ps) /\ heap_ok ms (fun x => c x + one pid x) ps.
Proof.
  intros Hh Hc. destruct (heap_packet _ _ _ pid Hh) as (p & Hp & Hat & Hr & Hm); [lia|].
  unfold packet_ref, sol_coap_packet_ref. rewrite Hat, bind_ret. rewrite int_op_ok by zlia. rewrite !bind_ret.
  eexists. split; [done|]. intros x. destruct (decide (x = pid)) as [->|Hne].
  - rewrite lookup_insert_eq, one_same. cbn. split_and!; [lia|lia|exact Hm].
  - rewrite lookup_insert_ne by done. rewrite one_other by done. specialize (Hh x). by rewrite Z.add_0_r.
Qed.

(** Events of no entry *)
Definition entry_of (e : event) : option Z :=
  match e with
  | Enqueued oid _ _ _ | Waiting oid _ | Stopped oid | Fired oid | Sent oid _ _ _ | Removed oid => Some oid
  | Freed _ => None
  end.

Lemma heap_unref_spec ms c q pid : heap_ok ms c (packets q) -> 1 <= c pid ->
  exists ps es, packet_unref q pid = Ret (notes (set_packets q ps) es) /\ Forall (fun e => entry_of e = None) es
    /\ heap_ok ms (fun x => c x - one pid x) ps.
Proof.
  intros Hh Hc. destruct (heap_packet _ _ _ pid Hh) as (p & Hp & Hat & Hr & Hm); [lia|].
  unfold packet_unref, sol_coap_packet_unref. rewrite Hat, bind_ret, Hr. destruct (Z.gtb_spec (c pid) 1).
  - exists (<[pid := set_refcnt p (c pid - 1)]> (packets q)), []. rewrite notes_nil. split_and!; [done|constructor|].
    intros x. destruct (decide (x = pid)) as [->|Hne].
    + rewrite lookup_insert_eq, one_same. cbn. split_and!; [lia|lia|exact Hm].
    + rewrite lookup_insert_ne, one_other by done. specialize (Hh x). by rewrite Z.sub_0_r.
  - exists (delete pid (packets q)), [Freed pid]. split_and!; [done|by constructor|].
    intros x. destruct (decide (x = pid)) as [->|Hne].
    + rewrite lookup_delete_eq, one_same. lia.
    + rewrite lookup_delete_ne, one_other by done. specialize (Hh x). by rewrite Z.sub_0_r.
Qed.

Definition stopping (oid : Z) (o : outgoing) : list event := if o_timeout o then [Stopped oid] else [].

Lemma free_spec ms c q oid o : outs q !! oid = Some o -> heap_ok ms c (packets q) -> (forall x, hits o x <= c x) ->
  exists ps es, outgoing_free q oid
      = Ret (notes (set_outs (set_packets q ps) (delete oid (outs q))) (stopping oid o ++ es ++ [Removed oid]))
    /\ Forall (fun e => entry_of e = None) es /\ heap_ok ms (fun x => c x - hits o x) ps.
Proof.
  intros Ho Hh Hc. unfold outgoing_free, out_at. rewrite Ho, bind_ret. cbv zeta.
  assert ((if o_timeout o then note q (Stopped oid) else q) = notes q (stopping oid o)) as ->.
  { unfold stopping. destruct (o_timeout o); [done|by rewrite notes_nil]. }
  pose proof (Hc (o_pkt o)) as Hp. unfold hits in Hp. rewrite one_same in Hp.
  destruct (heap_unref_spec ms c (notes q (stopping oid o)) (o_pkt o) Hh) as (ps & es & -> & Hes & Hh').
  { destruct (o_header o) as [h|]; [pose proof (one_range h (o_pkt o))|]; lia. }
  rewrite bind_ret. destruct (o_header o) as [h|] eqn:Hhd.
  - pose proof (Hc h) as Hh1. unfold hits in Hh1. rewrite Hhd, one_same in Hh1.
    set (q' := notes (set_packets (notes q (stopping oid o)) ps) es).
    destruct (heap_unref_spec ms _ q' h Hh') as (ps' & es' & -> & Hes' & Hh'').
    { lia. }
    rewrite bind_ret. exists ps', (es ++ es'). split_and!.
    + f_equal. unfold q', note, notes, set_outs, set_packets. cbn. f_equal. by rewrite <- !app_assoc.
    + by apply Forall_app.
    + eapply heap_ext; [|exact Hh'']. intros x. unfold hits. rewrite Hhd. cbv beta. lia.
  - rewrite bind_ret. exists ps, es. split_and!; [|done|].
    + f_equal. unfold note, notes, set_outs, set_packets. cbn. f_equal. by rewrite <- !app_assoc.
    + eapply heap_ext; [|exact Hh']. intros x. unfold hits. rewrite Hhd. cbv beta. lia.
Qed.

(** ** The life of an entry *)

Definition trace (oid : Z) (l : list event) : list event := filter (fun e => entry_of e = Some oid) l.

#[local] Arguments trace : simpl never.

Lemma trace_of_app oid l l' : trace oid (l ++ l') = trace oid l ++ trace oid l'.
Proof. apply filter_app. Qed.

Lemma trace_all oid l : Forall (fun e => entry_of e = Some oid) l -> trace oid l = l.
Proof. induction 1 as [|e l He _ IH]; [done|]. unfold trace in *. rewrite filter_cons_True by done. congruence. Qed.

Lemma trace_none oid l : Forall (fun e => entry_of e <> Some oid) l -> trace oid l = [].
Proof. induction 1 as [|e l He _ IH]; [done|]. unfold trace in *. by rewrite filter_cons_False. Qed.

Section Queue.
Context `{BuildConfig} `{Allocator} `{CoapEnv}.
Variable ms : Z -> message.

(** What is sent for an entry *)
Definition wire (o : outgoing) : list Z :=
  encode (match o_header o with Some h => with_header_of (ms h) (ms (o_pkt o)) | None => ms (o_pkt o) end).

Definition confirmable (o : outgoing) : Prop := m_type (ms (o_pkt o)) = SOL_COAP_MESSAGE_TYPE_CON.

#[global] Instance confirmable_dec o : Decision (confirmable o).
Proof. unfold confirmable. apply _. Defined.

(** One transmission, unless there is no memory to make it *)
Definition sending (oid : Z) (o : outgoing) (es : list event) : Prop :=
  es = [] /\ refused \/ exists r, es = [Sent oid (wire o) (cliaddr o) r].

(** A confirmable packet is sent at most [MAX_RETRANSMIT] times, each time
    with a timeout twice as long as the one before, and is left alone until
    it expires.  Another packet is sent until the socket takes it. *)
Inductive life (oid : Z) : outgoing -> list event -> Prop :=
| life_new pid h addr :
    life oid {| o_pkt := pid; o_header := h; o_timeout := false; cliaddr := addr; counter := 0 |} [Enqueued oid pid h addr]
| life_attempt o tr armed es :
    life oid o tr -> confirmable o -> o_timeout o = false -> counter o < MAX_RETRANSMIT ->
    (armed = false -> exists l, timeout_memory l = false) -> sending oid o es ->
    life oid (set_timeout (set_counter o (counter o + 1)) armed)
      (tr ++ (if armed then [Waiting oid (ACK_TIMEOUT_MS * 2 ^ counter o)] else []) ++ es)
| life_send o tr es : life oid o tr -> ~ confirmable o -> sending oid o es -> life oid o (tr ++ es)
| life_fire o tr : life oid o tr -> o_timeout o = true -> life oid (set_timeout o false) (tr ++ [Fired oid]).

(** Why an entry is gone: it was sent often enough, the socket took it and
    there is nothing to wait for, or an operation removed it. *)
Inductive reason := Exhausted | Delivered | Withdrawn.

Inductive ended (oid : Z) : reason -> list event -> Prop :=
| ended_exhausted o tr : life oid o tr -> confirmable o -> o_timeout o = false -> counter o = MAX_RETRANSMIT ->
    ended oid Exhausted (tr ++ [Removed oid])
| ended_delivered o tr tr' bs a r : life oid o tr -> o_timeout o = false -> tr = tr' ++ [Sent oid bs a r] -> 0 <= r ->
    ended oid Delivered (tr ++ [Removed oid])
| ended_withdrawn o tr : life oid o tr -> ended oid Withdrawn (tr ++ stopping oid o ++ [Removed oid]).

Definition counter_ok (o : outgoing) : Prop :=
  0 <= counter o <= MAX_RETRANSMIT /\ (counter o = 0 -> o_timeout o = false) /\ (~ confirmable o -> counter o = 0).

Lemma life_counter oid o tr : life oid o tr -> counter_ok o.
Proof.
  unfold counter_ok, confirmable, MAX_RETRANSMIT.
  induction 1 as [pid h addr|o tr armed es _ IH Hcon Ht Hc _ _|o tr es _ IH _ _|o tr _ IH Ht].
  - by split_and!.
  - cbn in *. unfold MAX_RETRANSMIT in Hc. split_and!; [lia|lia|lia|done].
  - done.
  - cbn in *. by destruct IH as (? & _ & ?).
Qed.

(** ** The invariant *)

Record queue_inv (ext : Z -> Z) (q : queue) : Prop := {
  inv_distinct : NoDup (vec q);
  inv_listed : forall oid, oid ∈ vec q <-> is_Some (outs q !! oid);
  inv_length : blen (vec q) <= UINT16_MAX;
  inv_owners : forall pid, 0 <= ext pid <= 2 ^ 30;
  inv_heap : heap_ok ms (fun pid => ext pid + held (outs q) (vec q) pid) (packets q);
  inv_fresh : forall id, next_id q <= id -> ext id + held (outs q) (vec q) id = 0 /\ outs q !! id = None /\ trace id (log q) = [];
  inv_lives : forall oid o, outs q !! oid = Some o -> life oid o (trace oid (log q));
  inv_ended : forall oid, outs q !! oid = None -> trace oid (log q) = [] \/ exists why, ended oid why (trace oid (log q))
}.

Lemma inv_at ext q i oid : queue_inv ext q -> vec q !! i = Some oid ->
  exists o, outs q !! oid = Some o /\ out_at q oid = Ret o /\ counter_ok o.
Proof.
  intros Hq Hi. destruct (proj1 (inv_listed _ _ Hq oid)) as [o Ho]; [by eapply list_elem_of_lookup_2|].
  exists o. split_and!; [done|unfold out_at; by rewrite Ho|]. eapply life_counter, inv_lives; done.
Qed.

Lemma inv_place ext q oid o : queue_inv ext q -> outs q !! oid = Some o -> exists i, vec q !! i = Some oid.
Proof. intros Hq Ho. apply list_elem_of_lookup, (inv_listed _ _ Hq). by eexists. Qed.

Lemma inv_payload ext q oid o : queue_inv ext q -> outs q !! oid = Some o ->
  exists p, packet_at q (o_pkt o) = Ret p /\ holds p (ms (o_pkt o)).
Proof.
  intros Hq Ho. destruct (inv_place _ _ _ _ Hq Ho) as [i Hi].
  destruct (heap_packet _ _ q (o_pkt o) (inv_heap _ _ Hq)) as (p & _ & ? & _ & ?); [|by exists p].
  rewrite (held_delete _ _ _ _ _ _ Hi Ho). unfold hits. rewrite one_same.
  pose proof (inv_owners _ _ Hq (o_pkt o)). pose proof (held_range (outs q) (delete i (vec q)) (o_pkt o)).
  destruct (o_header o) as [h|]; [pose proof (one_range h (o_pkt o))|]; lia.
Qed.

Lemma inv_header ext q oid o h : queue_inv ext q -> outs q !! oid = Some o -> o_header o = Some h ->
  exists p, packet_at q h = Ret p /\ holds p (ms h).
Proof.
  intros Hq Ho Hh. destruct (inv_place _ _ _ _ Hq Ho) as [i Hi].
  destruct (heap_packet _ _ q h (inv_heap _ _ Hq)) as (p & _ & ? & _ & ?); [|by exists p].
  rewrite (held_delete _ _ _ _ _ _ Hi Ho). unfold hits. rewrite Hh, one_same.
  pose proof (inv_owners _ _ Hq h). pose proof (held_range (outs q) (delete i (vec q)) h).
  pose proof (one_range (o_pkt o) h). lia.
Qed.

Lemma holds_header p m : holds p m -> header_is p m.
Proof. intros (Hwf & Hrep & _). split; [done|]. eexists. exact Hrep. Qed.

(** An entry goes on with its life. *)
Lemma inv_update ext q oid o o' es b : queue_inv ext q -> outs q !! oid = Some o -> hits o' = hits o ->
  Forall (fun e => entry_of e = Some oid) es -> life oid o' (trace oid (log q) ++ es) ->
  queue_inv ext (set_monitor (notes (set_outs q (<[oid := o']> (outs q))) es) b).
Proof.
  intros Hq Ho Hh Hes Hl.
  assert (forall v x, held (<[oid := o']> (outs q)) v x = held (outs q) v x) as Hheld.
  { intros v x. apply held_ext. intros i _. destruct (decide (i = oid)) as [->|];
      [rewrite lookup_insert_eq, Ho; cbn; congruence|by rewrite lookup_insert_ne]. }
  assert (forall x, x <> oid -> trace x (log q ++ es) = trace x (log q)) as Hother.
  { intros x Hx. rewrite trace_of_app, (trace_none x es), app_nil_r; [done|]. eapply Forall_impl; [exact Hes|]. intros e He. congruence. }
  destruct Hq as [Hnd Hls Hlen Hown Hheap Hfr Hlv Hen]. split; cbn; [done| |done|done| | | |].
  - intros x. rewrite Hls. destruct (decide (x = oid)) as [->|]; [rewrite lookup_insert_eq, Ho; split; eauto|by rewrite lookup_insert_ne].
  - eapply heap_ext; [|exact Hheap]. intros x. cbv beta. by rewrite Hheld.
  - intros id Hid. rewrite Hheld. destruct (Hfr id Hid) as (? & Hn & ?). assert (id <> oid) by congruence.
    rewrite lookup_insert_ne by done. by rewrite Hother.
  - intros x ox. destruct (decide (x = oid)) as [->|]; [|rewrite lookup_insert_ne, Hother by done; apply Hlv].
    rewrite lookup_insert_eq. intros [= <-]. by rewrite trace_of_app, (trace_all oid es).
  - intros x. destruct (decide (x = oid)) as [->|]; [by rewrite lookup_insert_eq|].
    rewrite lookup_insert_ne, Hother by done. apply Hen.
Qed.

Lemma elem_delete (v : list Z) i x oid : NoDup v -> v !! i = Some oid -> x ∈ delete i v <-> x ∈ v /\ x <> oid.
Proof.
  intros Hnd Hi. rewrite delete_take_drop. revert Hnd. rewrite <- (take_drop_middle v i oid Hi) at 1 4.
  rewrite NoDup_app, NoDup_cons, !elem_of_app, elem_of_cons. intros (_ & Hd & Hn & _).
  split; [|intros [[?|[?|?]] ?]; auto; done]. intros Hx. split; [destruct Hx; auto|]. intros ->.
  destruct Hx as [Hx|Hx]; [|done]. apply (Hd oid Hx). by left.
Qed.

(** ** Removing entries *)

(** The transmissions a log tells of *)
Definition is_sent (e : event) : bool := match e with Sent _ _ _ _ => true | _ => false end.

Definition sents (l : list event) : list event := filter (fun e => is_sent e = true) l.

#[local] Arguments sents : simpl never.

Lemma sents_app l l' : sents (l ++ l') = sents l ++ sents l'.
Proof. apply filter_app. Qed.

Lemma sents_freed es : Forall (fun e => entry_of e = None) es -> sents es = [].
Proof. induction 1 as [|[] es He _ IH]; by try discriminate He. Qed.

(** Entries were removed, for a reason [why] tells, and nothing else happened. *)
Record shrunk (why : reason -> Prop) (q q' : queue) : Prop := {
  shrunk_vec : sublist (vec q') (vec q);
  shrunk_outs : forall oid, oid ∈ vec q' -> outs q' !! oid = outs q !! oid;
  shrunk_traces : forall oid, ((oid ∉ vec q) \/ (oid ∈ vec q')) /\ trace oid (log q') = trace oid (log q)
    \/ oid ∈ vec q /\ (oid ∉ vec q') /\ exists w, why w /\ ended oid w (trace oid (log q'));
  shrunk_sents : sents (log q') = sents (log q);
  shrunk_monitor : write_monitor q' = write_monitor q;
  shrunk_next : next_id q' = next_id q
}.

Lemma shrunk_refl why q : shrunk why q q.
Proof. split; try done. intros oid. left. split; [|done]. destruct (decide (oid ∈ vec q)); auto. Qed.

Lemma shrunk_trans why q q' q'' : shrunk why q q' -> shrunk why q' q'' -> shrunk why q q''.
Proof.
  intros [Hv Ho Ht Hs Hm Hn] [Hv' Ho' Ht' Hs' Hm' Hn'].
  assert (forall oid, oid ∈ vec q'' -> oid ∈ vec q') as Hin' by (intros; by eapply elem_of_sublist).
  assert (forall oid, oid ∈ vec q' -> oid ∈ vec q) as Hin by (intros; by eapply elem_of_sublist).
  split; [by etrans| |  |congruence..].
  - intros oid Hoid. rewrite Ho', Ho; auto.
  - intros oid. destruct (Ht oid) as [[Hor Heq0]|(Hi1 & Hi2 & w & Hw & He)]; destruct (Ht' oid) as [[Hor' Heq]|(Hi1' & Hi2' & w' & Hw' & He')].
    + left. split; [|congruence]. destruct Hor, Hor'; [by left|by left|done|by right].
    + right. split_and!; [by apply Hin|done|by eauto].
    + right. split_and!; [done|by intros ?%Hin'|]. rewrite Heq. by eauto.
    + done.
Qed.

Lemma inv_remove (W : reason -> Prop) ext q i oid o o' why : queue_inv ext q -> vec q !! i = Some oid -> outs q !! oid = Some o ->
  hits o' = hits o -> o_timeout o' = o_timeout o ->
  ended oid why (trace oid (log q) ++ stopping oid o ++ [Removed oid]) -> W why ->
  exists q', outgoing_free (set_vec (set_outs q (<[oid := o']> (outs q))) (delete i (vec q))) oid = Ret q'
    /\ queue_inv ext q' /\ shrunk W q q' /\ vec q' = delete i (vec q).
Proof.
  intros Hq Hi Ho Hh Ht Hwhy HW.
  set (q0 := set_vec (set_outs q (<[oid := o']> (outs q))) (delete i (vec q))).
  pose proof (fun x => held_delete _ _ _ _ _ x Hi Ho) as Hsplit.
  destruct (free_spec ms (fun pid => ext pid + held (outs q) (vec q) pid) q0 oid o') as (ps & es & Hrun & Hes & Hheap).
  { apply lookup_insert_eq. } { exact (inv_heap _ _ Hq). }
  { intros x. rewrite Hsplit, Hh. pose proof (inv_owners _ _ Hq x). pose proof (held_range (outs q) (delete i (vec q)) x). lia. }
  replace (delete oid (outs q0)) with (delete oid (outs q)) in Hrun by (symmetry; apply delete_insert_eq).
  eexists. split; [exact Hrun|].
  assert (stopping oid o' = stopping oid o) as Hst by (unfold stopping; by rewrite Ht). rewrite Hst.
  assert (forall x, trace x es = []) as Hnone.
  { intros x. apply trace_none. eapply Forall_impl; [exact Hes|]. intros e He. congruence. }
  assert (trace oid (stopping oid o) = stopping oid o) as Hst'.
  { apply trace_all. unfold stopping. destruct (o_timeout o); by repeat constructor. }
  assert (forall x, x <> oid -> trace x (log q ++ stopping oid o ++ es ++ [Removed oid]) = trace x (log q)) as Hother.
  { intros x Hx. rewrite !trace_of_app, Hnone, (trace_none x (stopping _ _)), (trace_none x [_]), !app_nil_r; [done|..].
    - by repeat constructor; cbn; congruence.
    - unfold stopping. destruct (o_timeout o); repeat constructor. cbn. congruence. }
  assert (trace oid (log q ++ stopping oid o ++ es ++ [Removed oid]) = trace oid (log q) ++ stopping oid o ++ [Removed oid]) as Hsame.
  { rewrite !trace_of_app, Hnone, Hst', (trace_all oid [_]); [done|]. by repeat constructor. }
  split_and!; [| |done].
  2: { pose proof (fun x => elem_delete _ _ x _ (inv_distinct _ _ Hq) Hi) as Hin.
       split; cbn; [apply sublist_delete| | | |done|done].
       - intros x [_ Hx]%Hin. by rewrite lookup_delete_ne by congruence.
       - intros x. destruct (decide (x = oid)) as [->|Hx].
         + right. split; [by eapply list_elem_of_lookup_2|]. split; [by intros [_ ?]%Hin|]. exists why. by rewrite Hsame.
         + left. rewrite Hother, Hin by done. split; [|done]. destruct (decide (x ∈ vec q)); auto.
       - rewrite !sents_app, (sents_freed es), app_nil_r by done. unfold stopping. destruct (o_timeout o); by rewrite app_nil_r. }
  assert (forall x, held (delete oid (outs q)) (delete i (vec q)) x = held (outs q) (delete i (vec q)) x) as Hdel.
  { intros x. apply held_ext. intros y Hy%(elem_delete _ _ _ _ (inv_distinct _ _ Hq) Hi).
    destruct Hy as [_ Hy]. by rewrite lookup_delete_ne by congruence. }
  pose proof Hq as [Hnd Hls Hlen Hown _ Hfr Hlv Hen]. split; cbn; [| | |done| | | |].
  - eapply sublist_NoDup; [exact Hnd|apply sublist_delete].
  - intros x. rewrite (elem_delete _ _ _ _ Hnd Hi), Hls, lookup_delete_is_Some. split; intros [? ?]; auto.
  - rewrite delete_take_drop. rewrite <- (take_drop_middle _ _ _ Hi), !blen_app, blen_cons in Hlen. rewrite blen_app. lia.
  - eapply heap_ext; [|exact Hheap]. intros x. cbv beta. rewrite Hsplit, Hh, Hdel. lia.
  - intros id Hid. destruct (Hfr id Hid) as (Hz & Hn & Ht0). assert (id <> oid) by congruence.
    rewrite lookup_delete_ne, Hother, Hdel by done. split_and!; [|done|done].
    rewrite Hsplit in Hz. pose proof (Hown id). pose proof (hits_range o id). pose proof (held_range (outs q) (delete i (vec q)) id). lia.
  - intros x ox [Hx Hox]%lookup_delete_Some. rewrite Hother by done. by apply Hlv.
  - intros x. destruct (decide (x = oid)) as [->|]; [rewrite Hsame; eauto|].
    rewrite lookup_delete_ne, Hother by done. apply Hen.
Qed.

(** ** The loops over the queue *)

(** [remove_loop] down from the end: the entries that [P] accepts go, and
    the others stay in their order. *)
Definition kept (P : outgoing -> bool) (q : queue) (oid : Z) : Prop :=
  match outs q !! oid with Some o => P o = false | None => True end.

#[global] Instance kept_dec P q oid : Decision (kept P q oid).
Proof. unfold kept. destruct (outs q !! oid); apply _. Defined.

Definition decides (ext : Z -> Z) (matches : queue -> outgoing -> outcome bool) (P : outgoing -> bool) : Prop :=
  forall q oid o, queue_inv ext q -> outs q !! oid = Some o -> matches q o = Ret (P o).

Lemma inv_withdraw ext q i oid o : queue_inv ext q -> vec q !! i = Some oid -> outs q !! oid = Some o ->
  exists q', outgoing_free (set_vec q (delete i (vec q))) oid = Ret q'
    /\ queue_inv ext q' /\ shrunk (eq Withdrawn) q q' /\ vec q' = delete i (vec q).
Proof.
  intros Hq Hi Ho. destruct (inv_remove (eq Withdrawn) ext q i oid o o Withdrawn) as (q' & Hrun & Hrest); try done.
  - apply (ended_withdrawn oid o), inv_lives with (1 := Hq), Ho.
  - rewrite insert_id in Hrun by done. exists q'. by destruct q.
Qed.

Lemma filter_same {A} (P Q : A -> Prop) `{!forall x, Decision (P x)} `{!forall x, Decision (Q x)} (l : list A) :
  (forall x, x ∈ l -> P x <-> Q x) -> filter P l = filter Q l.
Proof.
  induction l as [|x l IH]; intros He; [done|]. rewrite !filter_cons.
  rewrite IH by (intros; apply He; by right). specialize (He x ltac:(by left)).
  destruct (decide (P x)), (decide (Q x)); tauto || done.
Qed.

Lemma around_delete {A} (v : list A) i x : v !! i = Some x -> take i (delete i v) = take i v /\ drop i (delete i v) = drop (S i) v.
Proof.
  intros Hi. apply lookup_lt_Some in Hi. rewrite delete_take_drop.
  rewrite take_app_length', drop_app_length' by (rewrite length_take; lia). done.
Qed.

Lemma remove_all_spec matches P ext i q n : decides ext matches P -> queue_inv ext q -> (i <= length (vec q))%nat ->
  exists q', remove_loop matches false q i n = Ret (n + blen (filter (fun oid => ~ kept P q oid) (take i (vec q))), q')
    /\ queue_inv ext q' /\ shrunk (eq Withdrawn) q q' /\ vec q' = filter (kept P q) (take i (vec q)) ++ drop i (vec q).
Proof.
  intros Hm. revert q n. induction i as [|i IH]; intros q n Hq Hi; cbn [remove_loop].
  - exists q. change (filter _ (take 0 (vec q))) with (@nil Z). rewrite blen_nil, Z.add_0_r. by split_and!; [| |apply shrunk_refl|].
  - destruct (lookup_lt_is_Some_2 (vec q) i) as [oid Hoid]; [lia|]. rewrite Hoid.
    destruct (inv_at _ _ _ _ Hq Hoid) as (o & Ho & -> & _). rewrite bind_ret, (Hm _ _ _ Hq Ho), bind_ret.
    rewrite (take_S_r _ _ _ Hoid), !filter_app, blen_app. destruct (P o) eqn:HP; cbn [negb].
    + destruct (inv_withdraw _ _ _ _ _ Hq Hoid Ho) as (q1 & -> & Hq1 & Hs1 & Hv1). rewrite bind_ret.
      destruct (around_delete _ _ _ Hoid) as [Ht Hd].
      destruct (IH q1 (n + 1) Hq1) as (q' & -> & Hq' & Hs' & Hv').
      { rewrite Hv1, length_delete by by eexists. lia. }
      assert (forall x, x ∈ take i (vec q) -> kept P q1 x <-> kept P q x) as Hkept.
      { intros x Hx. unfold kept. rewrite (shrunk_outs _ _ _ Hs1 x); [done|]. rewrite Hv1, delete_take_drop. set_solver. }
      rewrite Hv1, Ht in Hv' |- *. rewrite Hd in Hv'. rewrite (filter_same _ (kept P q)) in Hv' by done.
      rewrite (filter_same _ (fun x => ~ kept P q x)) by (intros x Hx; by rewrite Hkept).
      exists q'. rewrite filter_cons_True, filter_nil by (unfold kept; rewrite Ho, HP; done).
      rewrite (filter_cons_False (kept P q)), filter_nil, app_nil_r by (unfold kept; rewrite Ho, HP; done).
      rewrite blen_cons, blen_nil. split_and!; [do 2 f_equal; lia|done|by eapply shrunk_trans|done].
    + destruct (IH q n Hq) as (q' & -> & Hq' & Hs' & Hv'); [lia|].
      exists q'. rewrite filter_cons_False, filter_nil by (unfold kept; rewrite Ho; tauto).
      rewrite (filter_cons_True (kept P q)), filter_nil by (unfold kept; rewrite Ho; done).
      rewrite blen_nil, Z.add_0_r, <- app_assoc. cbn [app]. rewrite <- (drop_S _ _ _ Hoid). by split_and!.
Qed.

(** Only the last one goes. *)
Lemma remove_last_spec matches P ext i q n : decides ext matches P -> queue_inv ext q -> (i <= length (vec q))%nat ->
  Forall (kept P q) (take i (vec q)) /\ remove_loop matches true q i n = Ret (n, q)
  \/ exists pre oid post q', take i (vec q) = pre ++ oid :: post /\ ~ kept P q oid /\ Forall (kept P q) post
    /\ remove_loop matches true q i n = Ret (n + 1, q') /\ queue_inv ext q' /\ shrunk (eq Withdrawn) q q'
    /\ vec q' = pre ++ post ++ drop i (vec q).
Proof.
  intros Hm Hq. induction i as [|i IH]; intros Hi; cbn [remove_loop]; [left; by split; [constructor|]|].
  destruct (lookup_lt_is_Some_2 (vec q) i) as [oid Hoid]; [lia|]. rewrite Hoid.
  destruct (inv_at _ _ _ _ Hq Hoid) as (o & Ho & -> & _). rewrite bind_ret, (Hm _ _ _ Hq Ho), bind_ret.
  rewrite (take_S_r _ _ _ Hoid). destruct (P o) eqn:HP; cbn [negb].
  - right. destruct (inv_withdraw _ _ _ _ _ Hq Hoid Ho) as (q1 & -> & Hq1 & Hs1 & Hv1). rewrite bind_ret.
    exists (take i (vec q)), oid, [], q1. split_and!; [done|unfold kept; rewrite Ho, HP; done|constructor|done..|].
    by rewrite Hv1, delete_take_drop.
  - destruct IH as [[Hall ->]|(pre & x & post & q' & Ht & Hx & Hpost & -> & Hq' & Hs' & Hv')]; [lia| |].
    + left. split; [|done]. rewrite Forall_app, Forall_singleton. split; [done|]. unfold kept. by rewrite Ho.
    + right. exists pre, x, (post ++ [oid]), q'. rewrite Ht, <- app_assoc. split_and!; try done.
      * rewrite Forall_app, Forall_singleton. split; [done|]. unfold kept. by rewrite Ho.
      * rewrite Hv', (drop_S _ _ _ Hoid), <- app_assoc. done.
Qed.

(** ** Choosing what to send *)

Definition spent (o : outgoing) : bool := negb (o_timeout o) && (counter o =? MAX_RETRANSMIT).

(** The queue without the spent entries in front of the one to send, and
    that one: the first that neither waits nor was sent often enough. *)
Fixpoint pick (os : gmap Z outgoing) (v : list Z) : list Z * option Z :=
  match v with
  | [] => ([], None)
  | oid :: v =>
      match os !! oid with
      | None => pick os v
      | Some o =>
          if spent o then pick os v
          else if o_timeout o then let '(v, next) := pick os v in (oid :: v, next)
          else (oid :: v, Some oid)
      end
  end.

Definition armed (os : gmap Z outgoing) (oid : Z) : Prop := exists o, os !! oid = Some o /\ o_timeout o = true.

Lemma pick_armed os pre v : Forall (armed os) pre -> pick os (pre ++ v) = (pre ++ (pick os v).1, (pick os v).2).
Proof.
  induction 1 as [|oid pre (o & Ho & Ht) _ IH]; [apply surjective_pairing|]. cbn [app pick].
  unfold spent. rewrite Ho, Ht. cbn. by rewrite IH.
Qed.

Lemma pick_ext os os' v : (forall oid, oid ∈ v -> os !! oid = os' !! oid) -> pick os v = pick os' v.
Proof.
  induction v as [|oid v IH]; intros He; [done|]. cbn [pick]. rewrite <- He by (by left).
  by rewrite IH by (intros; apply He; by right).
Qed.

Lemma next_spec ext q l i : queue_inv ext q -> (forall oid, oid ∈ l -> oid ∈ vec q) ->
  Forall (armed (outs q)) l /\ next_loop q l i = Ret None
  \/ exists pre oid post o, l = pre ++ oid :: post /\ Forall (armed (outs q)) pre /\ outs q !! oid = Some o
     /\ o_timeout o = false /\ next_loop q l i = Ret (Some ((i + length pre)%nat, oid)).
Proof.
  intros Hq. revert i. induction l as [|oid l IH]; intros i Hl; [by left|]. cbn [next_loop].
  destruct (proj1 (list_elem_of_lookup _ _) (Hl oid ltac:(by left))) as [k Hk].
  destruct (inv_at _ _ _ _ Hq Hk) as (o & Ho & -> & _). rewrite bind_ret. destruct (o_timeout o) eqn:Ht; cbn [negb].
  - destruct (IH (S i)) as [[Hall ->]|(pre & x & post & ox & -> & Hpre & Hox & Htx & ->)]; [intros; apply Hl; by right|left|right].
    + split; [|done]. constructor; [by exists o|done].
    + exists (oid :: pre), x, post, ox. split_and!; [done|constructor; [by exists o|done]|done..|]. cbn. do 3 f_equal. lia.
  - right. exists [], oid, l, o. split_and!; [done|constructor|done..|]. cbn. do 3 f_equal. lia.
Qed.

Lemma last_place_spec l i oid n : NoDup l -> l !! i = Some oid -> (i < n)%nat -> last_place l oid n = Some i.
Proof.
  intros Hnd Hi. induction n as [|n IH]; intros Hn; [lia|]. cbn [last_place]. case_bool_decide as Hl.
  - f_equal. by eapply NoDup_lookup.
  - apply IH. assert (n <> i) by congruence. lia.
Qed.

(** The timeout of an entry that is sent: nothing for a packet that is not
    confirmable, the end of one that was sent often enough, and otherwise
    another timeout, if there is memory for it. *)
Lemma timeout_expired_spec ext q i oid o : queue_inv ext q -> vec q !! i = Some oid -> outs q !! oid = Some o ->
  o_timeout o = false ->
  ~ confirmable o /\ timeout_expired q oid = Ret (false, q)
  \/ spent o = true /\ (exists q', timeout_expired q oid = Ret (true, q') /\ queue_inv ext q'
       /\ shrunk (eq Exhausted) q q' /\ vec q' = delete i (vec q))
  \/ confirmable o /\ counter o < MAX_RETRANSMIT /\ exists a,
       timeout_expired q oid = Ret (false, notes (set_outs q (<[oid := set_timeout (set_counter o (counter o + 1)) a]> (outs q)))
                                            (if a then [Waiting oid (ACK_TIMEOUT_MS * 2 ^ counter o)] else []))
       /\ (a = false -> exists l, timeout_memory l = false).
Proof.
  intros Hq Hi Ho Ht. destruct (inv_payload _ _ _ _ Hq Ho) as (p & Hp & Hm).
  destruct (inv_at _ _ _ _ Hq Hi) as (o' & Ho' & Hat & Hc & _ & _). rewrite Ho in Ho'. injection Ho' as <-.
  destruct (header_getters _ _ (holds_header _ _ Hm)) as (_ & Hty & _).
  unfold timeout_expired. rewrite Hat, bind_ret, Hp, bind_ret, Hty, bind_ret.
  destruct (Z.eqb_spec (m_type (ms (o_pkt o))) SOL_COAP_MESSAGE_TYPE_CON) as [Hcon|]; cbn [negb]; [right|by left].
  unfold MAX_RETRANSMIT in Hc. rewrite Z.shiftl_mul_pow2 by lia.
  assert (1 <= 2 ^ counter o <= 16) as Hpow.
  { change 16 with (2 ^ 4). split; [|apply Z.pow_le_mono_r; lia]. apply (Z.pow_le_mono_r 2 0); lia. }
  unfold ACK_TIMEOUT_MS. rewrite !int_op_ok by zlia. rewrite !bind_ret. cbv zeta. unfold MAX_RETRANSMIT.
  destruct (Z.gtb_spec (counter o + 1) 4) as [Hgt|Hle].
  - left. split; [unfold spent, MAX_RETRANSMIT; rewrite Ht; cbn; lia|]. cbn [vec set_outs].
    rewrite (last_place_spec _ i) by (done || apply (inv_distinct _ _ Hq) || by eapply lookup_lt_Some).
    destruct (inv_remove (eq Exhausted) ext q i oid o (set_counter o (counter o + 1)) Exhausted) as (q' & -> & Hrest); try done.
    { unfold stopping. rewrite Ht. apply (ended_exhausted oid o); [by apply (inv_lives _ _ Hq)|done|done|]. unfold MAX_RETRANSMIT. lia. }
    exists q'. by rewrite bind_ret.
  - right. split; [done|]. split; [lia|]. unfold add_timeout, out_at. cbn [outs set_outs log]. rewrite lookup_insert_eq, bind_ret.
    exists (timeout_memory (log q)). split; [|eauto]. rewrite bind_ret.
    f_equal. f_equal. rewrite insert_insert_eq. destruct (timeout_memory (log q)); [done|].
    unfold notes, set_outs. cbn. by rewrite app_nil_r.
Qed.

Lemma pick_loop_spec ext q fuel : queue_inv ext q -> (length (vec q) < fuel)%nat ->
  exists q0, queue_inv ext q0 /\ shrunk (eq Exhausted) q q0 /\ vec q0 = (pick (outs q) (vec q)).1
    /\ match (pick (outs q) (vec q)).2 with
       | None => pick_loop q fuel = Ret (None, q0) /\ Forall (armed (outs q0)) (vec q0)
       | Some oid => exists i o q1, vec q0 !! i = Some oid /\ outs q0 !! oid = Some o /\ o_timeout o = false
           /\ pick_loop q fuel = Ret (Some (i, oid), q1) /\ timeout_expired q0 oid = Ret (false, q1)
           /\ counter o < MAX_RETRANSMIT
       end.
Proof.
  revert q. induction fuel as [|fuel IH]; intros q Hq Hf; [lia|]. cbn [pick_loop]. unfold next_in_queue.
  destruct (next_spec ext q (vec q) 0 Hq) as [[Hall ->]|(pre & oid & post & o & Hv & Hpre & Ho & Ht & ->)]; [done|..]; rewrite bind_ret.
  { exists q. rewrite <- (app_nil_r (vec q)), (pick_armed _ _ _ Hall), app_nil_r. cbn. rewrite app_nil_r. by split_and!; [|apply shrunk_refl|..]. }
  assert (vec q !! length pre = Some oid) as Hi by (rewrite Hv; by apply list_lookup_middle).
  change (0 + length pre)%nat with (length pre).
  rewrite Hv, (pick_armed _ _ _ Hpre). cbn [pick]. rewrite Ho, Ht.
  destruct (timeout_expired_spec _ _ _ _ _ Hq Hi Ho Ht) as [[Hcon Hrun]|[(Hex & q1 & Hrun & Hq1 & Hs1 & Hv1)|(Hcon & Hc & a & Hrun & Ha)]];
    rewrite Hrun, bind_ret.
  - destruct (inv_at _ _ _ _ Hq Hi) as (o' & Ho' & _ & _ & _ & Hc). rewrite Ho in Ho'. injection Ho' as <-.
    assert (spent o = false) as -> by (unfold spent, MAX_RETRANSMIT; rewrite (Hc Hcon), andb_comm; done).
    exists q. cbn [fst snd]. rewrite <- Hv. split_and!; [done|apply shrunk_refl|done|]. exists (length pre), o, q. split_and!; try done.
    rewrite (Hc Hcon). done.
  - rewrite Hex. destruct (IH q1 Hq1) as (q0 & Hq0 & Hs0 & Hv0 & Hcase).
    { pose proof (lookup_lt_Some _ _ _ Hi). rewrite Hv1, length_delete by by eexists. lia. }
    assert (vec q1 = pre ++ post) as Hv1'.
    { rewrite Hv1, Hv, delete_take_drop. rewrite take_app_length. rewrite (cons_middle oid pre post), app_assoc, drop_app_length'; [done|]. rewrite length_app. cbn. lia. }
    assert (pick (outs q1) (vec q1) = (pre ++ (pick (outs q) post).1, (pick (outs q) post).2)) as Hpick.
    { rewrite (pick_ext _ (outs q)) by (apply (shrunk_outs _ _ _ Hs1)). rewrite Hv1'. by apply pick_armed. }
    rewrite Hpick in Hv0, Hcase. exists q0. split_and!; [done|by eapply shrunk_trans|done|done].
  - assert (spent o = false) as -> by (unfold spent, MAX_RETRANSMIT in *; rewrite Ht; lia).
    exists q. cbn [fst snd]. rewrite <- Hv. split_and!; [done|apply shrunk_refl|done|]. do 3 eexists. by split_and!.
Qed.

(** ** Sending *)

Lemma inv_monitor ext q b : queue_inv ext q -> queue_inv ext (set_monitor q b).
Proof. by intros []; split. Qed.

Lemma wire_spec ext q oid o : queue_inv ext q -> outs q !! oid = Some o ->
  exists p hd, packet_at q (o_pkt o) = Ret p
    /\ (match o_header o with Some h => p ← packet_at q h; Ret (Some p) | None => Ret None end) = Ret hd
    /\ exists r b, prepare_buffer hd p = Ret (r, b)
       /\ (r = 0 /\ (exists b', b = Some b' /\ sol_buffer_get_slice b' = Ret (wire o)) \/ r = - ENOMEM /\ refused).
Proof.
  intros Hq Ho. destruct (inv_payload _ _ _ _ Hq Ho) as (p & Hp & Hwf & Hrep & Hlen).
  assert (exists hd mh, (match o_header o with Some h => p ← packet_at q h; Ret (Some p) | None => Ret None end) = Ret hd
    /\ match hd with None => mh = ms (o_pkt o) | Some h => header_is h mh end
    /\ with_header_of mh (ms (o_pkt o)) = match o_header o with Some h => with_header_of (ms h) (ms (o_pkt o)) | None => ms (o_pkt o) end)
    as (hd & mh & Hhd & Hmh & Hw).
  { destruct (o_header o) as [h|] eqn:Hh.
    - destruct (inv_header _ _ _ _ _ Hq Ho Hh) as (x & -> & Hx). exists (Some x), (ms h). rewrite bind_ret.
      split_and!; [done|by apply holds_header|done].
    - exists None, (ms (o_pkt o)). by destruct (ms (o_pkt o)). }
  exists p, hd. split_and!; [done|done|].
  destruct (wire_bytes_spec hd mh p _ Hwf Hrep Hlen Hmh) as (r & b & Hrun & Hcase). exists r, b. split; [done|].
  destruct Hcase as [(-> & b' & -> & Hb')|?]; [left|by right]. split; [done|]. exists b'. split; [done|].
  unfold wire. rewrite <- Hw. by apply get_slice_spec.
Qed.

(** The socket refused with another error than "try again". *)
Definition broken : Prop := exists l, sendmsg_result l < 0 /\ sendmsg_errno l <> EAGAIN.

(** What sending the entry [oid] does: there is no memory, or it is sent and,
    when the socket took it and no timeout is pending, it is done with. *)
Inductive sending_of (q : queue) (i : nat) (oid : Z) (o o1 : outgoing) : bool -> queue -> Prop :=
| no_memory q' : refused -> vec q' = vec q -> outs q' = <[oid := o1]> (outs q) -> sents (log q') = sents (log q) ->
    sending_of q i oid o o1 true q'
| stays keep q' r : vec q' = vec q -> outs q' = <[oid := o1]> (outs q) ->
    sents (log q') = sents (log q) ++ [Sent oid (wire o) (cliaddr o) r] ->
    (exists l, r = sendmsg_result l) -> keep = true \/ broken -> (0 <= r -> o_timeout o1 = true) -> sending_of q i oid o o1 keep q'
| leaves keep q' r : vec q' = delete i (vec q) -> sents (log q') = sents (log q) ++ [Sent oid (wire o) (cliaddr o) r] ->
    (exists l, r = sendmsg_result l) -> keep = true \/ vec q' = [] -> 0 <= r -> o_timeout o1 = false -> ended oid Delivered (trace oid (log q')) ->
    sending_of q i oid o o1 keep q'.

Lemma send_spec ext q i oid o o1 es1 : queue_inv ext q -> vec q !! i = Some oid -> outs q !! oid = Some o ->
  o_pkt o1 = o_pkt o -> o_header o1 = o_header o -> cliaddr o1 = cliaddr o ->
  Forall (fun e => entry_of e = Some oid) es1 -> sents es1 = [] ->
  (forall es, sending oid o es -> life oid o1 (trace oid (log q) ++ es1 ++ es)) ->
  exists keep q', send_picked (notes (set_outs q (<[oid := o1]> (outs q))) es1) i oid = Ret (keep, q')
    /\ queue_inv ext q' /\ sending_of q i oid o o1 keep q'
    /\ (forall x, x <> oid -> (x ∈ vec q' -> outs q' !! x = outs q !! x) /\ trace x (log q') = trace x (log q)).
Proof.
  intros Hq Hi Ho Hpkt Hhdr Hadr Hes1 Hs1 Hl.
  assert (hits o1 = hits o) as Hh by (unfold hits; by rewrite Hpkt, Hhdr).
  assert (forall x, x <> oid -> trace x es1 = []) as Hother.
  { intros x Hx. apply trace_none. eapply Forall_impl; [exact Hes1|]. intros e He. congruence. }
  set (q1 := notes (set_outs q (<[oid := o1]> (outs q))) es1).
  destruct (wire_spec ext q oid o Hq Ho) as (p & hd & Hp & Hhd & r & b & Hprep & Hcase).
  assert (outs q1 !! oid = Some o1) as Hq1 by apply lookup_insert_eq.
  unfold send_picked, out_at. rewrite Hq1, bind_ret, Hpkt, Hhdr.
  change (packet_at q1) with (packet_at q). rewrite Hp, bind_ret, Hhd, bind_ret, Hprep, bind_ret.
  destruct Hcase as [(-> & b' & -> & Hb')|[-> Href]].
  2: { exists true, q1. split_and!; [done| | |].
       - apply (inv_update ext q oid o o1 es1 (write_monitor q) Hq Ho Hh Hes1).
         rewrite <- (app_nil_r es1). apply Hl. by left.
       - apply no_memory; [done..|]. cbn. by rewrite sents_app, Hs1, app_nil_r.
       - intros x Hx. cbn. by rewrite lookup_insert_ne, trace_of_app, Hother, app_nil_r by done. }
  cbn [Z.eqb negb]. rewrite Hb', bind_ret. cbv zeta. rewrite Hadr.
  set (r := sendmsg_result (log q1)). set (sent := Sent oid (wire o) (cliaddr o) r).
  assert (note q1 sent = set_monitor (notes (set_outs q (<[oid := o1]> (outs q))) (es1 ++ [sent])) (write_monitor q)) as Hq2.
  { unfold q1, note, set_monitor, notes. cbn. by rewrite <- app_assoc. }
  rewrite Hq2. set (q2 := set_monitor _ _).
  assert (life oid o1 (trace oid (log q) ++ es1 ++ [sent])) as Hlife by (apply Hl; right; by exists r).
  assert (queue_inv ext q2) as Hinv.
  { apply inv_update with (o := o); try done. apply Forall_app. split; [done|]. by constructor. }
  assert (sents (log q2) = sents (log q) ++ [sent]) as Hsent by (cbn; by rewrite !sents_app, Hs1).
  assert (trace oid (log q2) = trace oid (log q) ++ es1 ++ [sent]) as Htr.
  { cbn. rewrite !trace_of_app, (trace_all oid es1), (trace_all oid [sent]); [done|by constructor|done]. }
  assert (forall x, x <> oid -> (x ∈ vec q2 -> outs q2 !! x = outs q !! x) /\ trace x (log q2) = trace x (log q)) as Hothers.
  { intros x Hx. cbn. rewrite lookup_insert_ne, !trace_of_app, Hother, (trace_none x [sent]) by (done || constructor; cbn; congruence || done).
    by rewrite !app_nil_r. }
  destruct (Z.ltb_spec r 0) as [Hneg|Hpos]; cbn [andb].
  { destruct (Z.eqb_spec (sendmsg_errno (log q1)) EAGAIN) as [Hag|Hag].
    { exists true, q2. split_and!; [done|done| |done]. eapply stays; [done..|exact Hsent|by eexists|by left|lia]. }
    exists false, q2. split_and!; [done|done| |done]. eapply stays; [done..|exact Hsent|by eexists| |lia]. right. by exists (log q1). }
  destruct (o_timeout o1) eqn:Ht; cbn [negb]; rewrite ?bind_ret.
  { eexists _, q2. split_and!; [done|done| |done]. eapply stays; [done..|exact Hsent|by eexists| |done]. left.
    rewrite bool_decide_false; [done|]. cbn. intros Hv. by rewrite Hv in Hi. }
  assert (outs q2 !! oid = Some o1) as Ho2 by (cbn; apply lookup_insert_eq).
  destruct (inv_remove (eq Delivered) ext q2 i oid o1 o1 Delivered) as (q' & Hrun & Hinv' & Hshr & Hv'); try done.
  { unfold stopping. rewrite Ht. cbn [app]. eapply (ended_delivered oid o1 _ (trace oid (log q) ++ es1)).
    - by rewrite Htr. - done. - by rewrite Htr, app_assoc. - done. }
  rewrite insert_id in Hrun by done. change (set_outs q2 (outs q2)) with q2 in Hrun. rewrite Hrun, bind_ret.
  assert (NoDup (vec q2)) as Hnd by apply Hinv.
  exists (negb (bool_decide (vec q' = []))), q'. split_and!; [done|done| |].
  - apply leaves with (r := r); [done| |by eexists| |done|done|].
    + rewrite (shrunk_sents _ _ _ Hshr). done.
    + destruct (decide (vec q' = [])); [by right|left; by rewrite bool_decide_false].
    + destruct (shrunk_traces _ _ _ Hshr oid) as [[[Hn|Hy] _]|(_ & _ & w & <- & ?)]; [| |done].
      * exfalso. apply Hn. by eapply list_elem_of_lookup_2.
      * rewrite Hv' in Hy. apply (elem_delete _ _ _ _ Hnd Hi) in Hy as [_ ?]. done.
  - intros x Hx. destruct (Hothers x Hx) as [Hox <-]. split.
    + intros Hin. rewrite (shrunk_outs _ _ _ Hshr x Hin). apply Hox. eapply elem_of_sublist; [exact Hin|apply Hshr].
    + destruct (shrunk_traces _ _ _ Hshr x) as [[_ ?]|(Hin & Hout & _)]; [done|]. exfalso. apply Hout. rewrite Hv'. by apply elem_delete with (oid := oid).
Qed.

(** The write monitor is off only when every entry waits for its timeout, or
    the socket failed for good. *)
Definition awake (q : queue) : Prop := write_monitor q = true \/ Forall (armed (outs q)) (vec q) \/ broken.

Definition gone_well (q q' : queue) : Prop :=
  forall oid, oid ∈ vec q -> (oid ∉ vec q') -> exists w, w <> Withdrawn /\ ended oid w (trace oid (log q')).

(** The entry [pick] chooses is sent once, and leaves the queue when there is
    nothing to wait for. *)
Definition sends_next (q q' : queue) : Prop :=
  match pick (outs q) (vec q) with
  | (v, None) => vec q' = v /\ sents (log q') = sents (log q) /\ write_monitor q' = false
  | (v, Some oid) => (forall x, x ∈ vec q' -> x <> oid -> outs q' !! x = outs q !! x) /\ exists o, outs q !! oid = Some o
      /\ (refused /\ vec q' = v /\ sents (log q') = sents (log q)
          \/ exists r, sents (log q') = sents (log q) ++ [Sent oid (wire o) (cliaddr o) r]
             /\ (exists l, r = sendmsg_result l)
             /\ (vec q' = v /\ (0 <= r -> confirmable o /\ armed (outs q') oid)
                 \/ vec q' = filter (fun x => x <> oid) v /\ 0 <= r /\ (confirmable o -> exists l, timeout_memory l = false)))
  end.

Lemma delete_filter (v : list Z) i oid : NoDup v -> v !! i = Some oid -> delete i v = filter (fun x => x <> oid) v.
Proof.
  intros Hnd Hi. rewrite delete_take_drop. revert Hnd. rewrite <- (take_drop_middle v i oid Hi) at 1 4.
  rewrite NoDup_app, NoDup_cons. intros (_ & Hd & Hn & _).
  assert (forall l : list Z, (oid ∉ l) -> filter (fun x => x <> oid) l = l) as Hsame.
  { clear. induction l as [|x l IH]; intros Hl; [done|]. rewrite filter_cons_True by set_solver. rewrite IH by set_solver. done. }
  rewrite filter_app, filter_cons_False, !Hsame by (done || tauto || (intros Hx; apply (Hd _ Hx); by left)). done.
Qed.

Lemma writable_spec ext q : queue_inv ext q ->
  exists q', writable q = Ret q' /\ queue_inv ext q' /\ awake q' /\ sends_next q q' /\ gone_well q q'.
Proof.
  intros Hq. unfold writable, on_can_write, awake, gone_well. case_bool_decide as Hv.
  { rewrite bind_ret. exists (set_monitor q false). split_and!; [done|by apply inv_monitor| | |].
    - right. left. cbn. rewrite Hv. constructor.
    - unfold sends_next. rewrite Hv. by split_and!; [cbn|..].
    - intros oid Hin Hout. done. }
  destruct (pick_loop_spec ext q (S (length (vec q))) Hq (Nat.lt_succ_diag_r _)) as (q0 & Hq0 & Hs0 & Hv0 & Hcase).
  unfold sends_next. destruct (pick (outs q) (vec q)) as [v [oid|]]; cbn [fst snd] in Hv0, Hcase.
  2: { destruct Hcase as [-> Harm]. rewrite !bind_ret. exists (set_monitor q0 false).
       split_and!; [done|by apply inv_monitor|by right; left|exact Hv0|apply (shrunk_sents _ _ _ Hs0)|done|].
       intros oid Hin Hout. destruct (shrunk_traces _ _ _ Hs0 oid) as [[[?|?] _]|(_ & _ & w & <- & He)]; [done|done|by exists Exhausted]. }
  destruct Hcase as (i & o & q1 & Hi & Ho & Ht & -> & Hrun & Hc). rewrite bind_ret.
  assert (vec q0 <> []) as _ by (intros Hn; by rewrite Hn in Hi).
  assert (outs q !! oid = Some o) as Hoq.
  { rewrite <- (shrunk_outs _ _ _ Hs0); [done|]. by eapply list_elem_of_lookup_2. }
  assert (exists o1 es1, q1 = notes (set_outs q0 (<[oid := o1]> (outs q0))) es1
    /\ o_pkt o1 = o_pkt o /\ o_header o1 = o_header o /\ cliaddr o1 = cliaddr o
    /\ Forall (fun e => entry_of e = Some oid) es1 /\ sents es1 = []
    /\ (forall es, sending oid o es -> life oid o1 (trace oid (log q0) ++ es1 ++ es))
    /\ (o_timeout o1 = true -> confirmable o) /\ (o_timeout o1 = false -> confirmable o -> exists l, timeout_memory l = false))
    as (o1 & es1 & -> & Hp1 & Hh1 & Ha1 & Hes1 & Hs1 & Hl1 & Hw1 & Hm1).
  { pose proof (inv_lives _ _ Hq0 _ _ Ho) as Hlife.
    destruct (timeout_expired_spec _ _ _ _ _ Hq0 Hi Ho Ht) as [[Hcon Hr]|[(_ & ? & Hr & _)|(Hcon & _ & a & Hr & Ha)]];
      rewrite Hr in Hrun; [injection Hrun as <-|discriminate|injection Hrun as <-].
    - exists o, []. rewrite insert_id, notes_nil by done. split_and!; [by destruct q0|done..|constructor|done| |congruence|done].
      intros es He. exact (life_send oid o _ es Hlife Hcon He).
    - eexists _, _. split; [done|]. split_and!; [done..|destruct a; by repeat constructor|by destruct a| |done|].
      + intros es He. by apply life_attempt.
      + cbn. intros -> _. by apply Ha. }
  destruct (send_spec ext q0 i oid o o1 es1 Hq0 Hi Ho Hp1 Hh1 Ha1 Hes1 Hs1 Hl1) as (keep & q' & -> & Hq' & Hsend & Hother).
  rewrite bind_ret. exists (set_monitor q' keep). split; [done|]. split; [by apply inv_monitor|].
  pose proof (inv_distinct _ _ Hq0) as Hnd. pose proof (shrunk_sents _ _ _ Hs0) as Hss.
  assert (forall x, x ∈ vec q -> (x ∉ vec q') -> x <> oid -> vec q' = vec q0 \/ vec q' = delete i (vec q0) ->
    exists w, w <> Withdrawn /\ ended x w (trace x (log q'))) as Hgone.
  { intros x Hx Hout Hne Hv'. destruct (Hother x Hne) as [_ ->].
    destruct (shrunk_traces _ _ _ Hs0 x) as [[[?|Hin] _]|(_ & _ & w & <- & He)]; [done| |by exists Exhausted].
    exfalso. apply Hout. destruct Hv' as [->| ->]; [done|]. by apply elem_delete with (oid := oid). }
  assert (forall x, x ∈ vec q' -> x <> oid -> vec q' = vec q0 \/ vec q' = delete i (vec q0) -> outs q' !! x = outs q !! x) as Hsame.
  { intros x Hx Hne Hv'. destruct (Hother x Hne) as [Hx' _]. rewrite (Hx' Hx). apply (shrunk_outs _ _ _ Hs0).
    destruct Hv' as [<-|Hv']; [done|]. rewrite Hv' in Hx. by apply (elem_delete _ _ _ _ Hnd Hi) in Hx as [? _]. }
  assert (oid ∈ vec q0) as Hin0 by (by eapply list_elem_of_lookup_2).
  inversion Hsend as [? Href Hve Hou Hse|? ? r Hve Hou Hse Hl Hk Hr|? ? r Hve Hse Hl Hk Hr Ht1 Hen]; subst.
  - split_and!; [by left|intros x Hx Hne; apply Hsame; auto| |].
    + exists o. split; [done|]. left. split_and!; [done|done|by rewrite <- Hss].
    + intros x Hx Hout. apply Hgone; auto. intros ->. apply Hout. cbn. by rewrite Hve.
  - split_and!; [destruct Hk; [by left|by right; right]|intros x Hx Hne; apply Hsame; auto| |].
    + exists o. split; [done|]. right. exists r. split; [by rewrite <- Hss|]. split; [done|]. left. split; [done|].
      intros Hr0. split; [auto|]. exists o1. cbn. rewrite Hou, lookup_insert_eq. auto.
    + intros x Hx Hout. apply Hgone; auto. intros ->. apply Hout. cbn. by rewrite Hve.
  - split_and!; [destruct Hk as [Hk|Hk]; [by left|right; left; cbn; rewrite Hk; constructor]|intros x Hx Hne; apply Hsame; auto| |].
    + exists o. split; [done|]. right. exists r. split; [by rewrite <- Hss|]. split; [done|]. right. split_and!; [|done|auto].
      cbn. rewrite Hve. by apply delete_filter.
    + intros x Hx Hout. destruct (decide (x = oid)) as [->|]; [by exists Delivered|apply Hgone; auto].
Qed.

(** ** The other operations *)

Lemma inv_owner ext ext' q ps es : queue_inv ext q -> (forall pid, 0 <= ext' pid <= 2 ^ 30) ->
  (forall id, next_id q <= id -> ext' id = ext id) ->
  heap_ok ms (fun pid => ext' pid + held (outs q) (vec q) pid) ps -> Forall (fun e => entry_of e = None) es ->
  queue_inv ext' (notes (set_packets q ps) es).
Proof.
  intros [] Ho Hn Hh Hes.
  assert (forall x, trace x (log q ++ es) = trace x (log q)) as Htr.
  { intros x. rewrite trace_of_app, (trace_none x es), app_nil_r; [done|]. eapply Forall_impl; [exact Hes|]. intros e He. congruence. }
  split; cbn; [done..| | |]; [intros id Hid; rewrite Htr, (Hn id Hid); auto|intros oid o Hoid; rewrite Htr; auto|
    intros oid Hoid; rewrite Htr; auto].
Qed.

Lemma owned_count ext q pid : queue_inv ext q -> 1 <= ext pid < 2 ^ 30 + 2 -> 1 <= ext pid + held (outs q) (vec q) pid < INT_MAX - 2.
Proof.
  intros Hq He. pose proof (held_range (outs q) (vec q) pid). pose proof (inv_length _ _ Hq). unfold UINT16_MAX in *. zlia.
Qed.

Lemma packet_ref_spec ext q pid : queue_inv ext q -> 1 <= ext pid < 2 ^ 30 ->
  exists ps, packet_ref q pid = Ret (set_packets q ps) /\ queue_inv (fun x => ext x + one pid x) (set_packets q ps).
Proof.
  intros Hq He. pose proof (owned_count _ _ pid Hq ltac:(lia)).
  destruct (heap_ref_spec ms _ q pid (inv_heap _ _ Hq)) as (ps & Hrun & Hh); [lia|].
  exists ps. split; [done|]. rewrite <- notes_nil. apply (inv_owner ext); [done| | | |constructor].
  - intros x. pose proof (inv_owners _ _ Hq x). unfold one. case_bool_decide; [subst|]; lia.
  - intros id Hid. destruct (inv_fresh _ _ Hq id Hid) as (Hz & _). rewrite one_other; [lia|]. intros ->.
    pose proof (held_range (outs q) (vec q) pid). lia.
  - eapply heap_ext; [|exact Hh]. intros x. cbv beta. lia.
Qed.

Lemma packet_unref_spec ext q pid : queue_inv ext q -> 1 <= ext pid ->
  exists ps es, packet_unref q pid = Ret (notes (set_packets q ps) es)
    /\ Forall (fun e => entry_of e = None) es /\ queue_inv (fun x => ext x - one pid x) (notes (set_packets q ps) es).
Proof.
  intros Hq He. pose proof (inv_owners _ _ Hq pid). pose proof (owned_count _ _ pid Hq ltac:(lia)).
  destruct (heap_unref_spec ms _ q pid (inv_heap _ _ Hq)) as (ps & es & Hrun & Hes & Hh); [lia|].
  exists ps, es. split; [done|]. split; [done|]. apply (inv_owner ext); [done| | | |done].
  - intros x. pose proof (inv_owners _ _ Hq x). unfold one. case_bool_decide; [subst|]; lia.
  - intros id Hid. destruct (inv_fresh _ _ Hq id Hid) as (Hz & _). rewrite one_other; [lia|]. intros ->.
    pose proof (held_range (outs q) (vec q) pid). lia.
  - eapply heap_ext; [|exact Hh]. intros x. cbv beta. lia.
Qed.

Lemma new_packet_spec ext q p : queue_inv ext q -> holds p (ms (next_id q)) -> refcnt p = 1 ->
  queue_inv (fun x => ext x + one (next_id q) x) (new_packet q p).2.
Proof.
  intros Hq Hp Hr. pose proof (inv_fresh _ _ Hq (next_id q) ltac:(lia)) as (Hz & _).
  pose proof (inv_owners _ _ Hq (next_id q)). pose proof (held_range (outs q) (vec q) (next_id q)).
  pose proof Hq as []. split; cbn; try done.
  - intros x. pose proof (inv_owners0 x). unfold one. case_bool_decide; [subst|]; lia.
  - intros x. destruct (decide (x = next_id q)) as [->|Hne].
    + rewrite lookup_insert_eq, one_same. split_and!; [lia|lia|done].
    + rewrite lookup_insert_ne, one_other by done. specialize (inv_heap0 x). by rewrite Z.add_0_r.
  - intros id Hid. destruct (inv_fresh0 id) as (? & ? & ?); [lia|]. rewrite one_other by lia. split_and!; [lia|done|done].
Qed.

(** There was no room for another entry. *)
Definition no_room (q : queue) : Prop :=
  entry_memory (log q) = false \/ blen (vec q) = UINT16_MAX \/ vector_memory (log q) = false.

Lemma enqueue_spec ext q pid header addr : queue_inv ext q -> 1 <= ext pid -> (forall h, header = Some h -> 1 <= ext h) ->
  exists r q', enqueue_packet q pid header addr = Ret (r, q') /\ queue_inv ext q'
    /\ (r < 0 /\ q' = q /\ no_room q
        \/ r = 0 /\ vec q' = vec q ++ [next_id q] /\ log q' = log q ++ [Enqueued (next_id q) pid header addr]
           /\ write_monitor q' = true).
Proof.
  intros Hq Hp Hh. unfold enqueue_packet, append_result, no_room.
  destruct (entry_memory (log q)) eqn:Hem; cbn [negb]; [|exists (- ENOMEM), q; split_and!; [done..|left; split_and!; auto; done]].
  cbv zeta. destruct (Z.eqb_spec (blen (vec q)) UINT16_MAX) as [Hfull|Hroom]; [exists (- EOVERFLOW), q; split_and!; [done..|left; split_and!; auto; done]|].
  destruct (vector_memory (log q)) eqn:Hvm; [|exists (- ENOMEM), q; split_and!; [done..|left; split_and!; auto; done]].
  cbn [Z.ltb Z.compare]. set (oid := next_id q).
  set (o := {| o_pkt := pid; o_header := header; o_timeout := false; cliaddr := addr; counter := 0 |}).
  set (q1 := set_next _ _).
  pose proof (inv_owners _ _ Hq) as Hown. pose proof (inv_length _ _ Hq) as Hlen.
  destruct (inv_fresh _ _ Hq oid ltac:(unfold oid; lia)) as (_ & Hno & Htr0).
  assert (oid ∉ vec q) as Hnin by (rewrite (inv_listed _ _ Hq), Hno; by intros [? ?]).
  assert (forall x, held (<[oid := o]> (outs q)) (vec q ++ [oid]) x = held (outs q) (vec q) x + hits o x) as Hheld.
  { intros x. rewrite held_app. cbn [held]. rewrite lookup_insert_eq, Z.add_0_r. f_equal. apply held_ext.
    intros y Hy. rewrite lookup_insert_ne; [done|]. by intros <-. }
  pose proof (Hown pid). pose proof (owned_count _ _ pid Hq ltac:(lia)) as Hcp.
  destruct (heap_ref_spec ms _ q1 pid (inv_heap _ _ Hq)) as (ps & Hr1 & Hheap1); [lia|].
  assert (exists ps', match header with Some h => packet_ref (set_packets q1 ps) h | None => Ret (set_packets q1 ps) end = Ret (set_packets q1 ps')
    /\ heap_ok ms (fun x => ext x + held (outs q) (vec q) x + hits o x) ps') as (ps' & Hrun & Hheap).
  { destruct header as [h|].
    - pose proof (Hown h). pose proof (Hh h eq_refl). pose proof (owned_count _ _ h Hq ltac:(lia)). pose proof (one_range pid h).
      destruct (heap_ref_spec ms _ (set_packets q1 ps) h Hheap1) as (ps' & -> & Hheap2); [lia|].
      exists ps'. split; [done|]. eapply heap_ext; [|exact Hheap2]. intros x. unfold hits. cbn. lia.
    - exists ps. split; [done|]. eapply heap_ext; [|exact Hheap1]. intros x. unfold hits. cbn. lia. }
  rewrite Hr1, bind_ret, Hrun, bind_ret.
  exists 0. eexists. split; [done|]. split; [|right; by split_and!].
  assert (forall x, x <> oid -> trace x (log q ++ [Enqueued oid pid header addr]) = trace x (log q)) as Hother.
  { intros x Hx. rewrite trace_of_app, (trace_none x [_]), app_nil_r; [done|]. constructor; [cbn; congruence|done]. }
  pose proof Hq as [Hnd Hls _ _ _ Hfr Hlv Hen]. split; cbn.
  - apply NoDup_app. split; [done|]. split; [|by apply NoDup_singleton]. intros x Hx ->%list_elem_of_singleton. done.
  - intros x. rewrite elem_of_app, list_elem_of_singleton, Hls. destruct (decide (x = oid)) as [->|Hx].
    + rewrite lookup_insert_eq. split; eauto.
    + rewrite lookup_insert_ne by done. split; [intros [?|?]; done|by left].
  - rewrite blen_app, blen_cons. change (blen []) with 0. lia.
  - done.
  - eapply heap_ext; [|exact Hheap]. intros x. cbv beta. rewrite Hheld. lia.
  - intros id Hid. assert (id <> oid) by lia. destruct (Hfr id) as (Hz & ? & ?); [unfold oid in *; lia|].
    pose proof (held_range (outs q) (vec q) id). specialize (Hown id). rewrite Hheld, lookup_insert_ne, Hother by done.
    split_and!; [|done|done]. unfold hits. cbn. rewrite one_other by (intros ->; lia).
    destruct header as [h|]; [|lia]. rewrite one_other; [lia|]. intros ->. specialize (Hh h eq_refl). lia.
  - intros x ox. destruct (decide (x = oid)) as [->|Hx]; [|rewrite lookup_insert_ne, Hother by done; apply Hlv].
    rewrite lookup_insert_eq, trace_of_app. unfold oid at 3. fold oid. rewrite Htr0. intros [= <-].
    rewrite (trace_all oid [_]) by (by constructor). apply life_new.
  - intros x. destruct (decide (x = oid)) as [->|Hx]; [by rewrite lookup_insert_eq|]. rewrite lookup_insert_ne, Hother by done. apply Hen.
Qed.

(** ** What a server runs *)

Inductive op :=
| NewPacket (p : sol_coap_packet)
| RefPacket (pid : Z)
| UnrefPacket (pid : Z)
| Enqueue (pid : Z) (header : option Z) (addr : Z)
| Writable
| Expire (oid : Z)
| Acknowledge (req : sol_coap_packet)
| Cancel (pid : Z)
| Destroy.

Definition run_op (x : op) (q : queue) : outcome queue :=
  match x with
  | NewPacket p => Ret (new_packet q p).2
  | RefPacket pid => packet_ref q pid
  | UnrefPacket pid => packet_unref q pid
  | Enqueue pid header addr => '(_, q) ← enqueue_packet q pid header addr; Ret q
  | Writable => writable q
  | Expire oid => '(_, q) ← timeout_cb q oid; Ret q
  | Acknowledge req => remove_outgoing_confirmable_packet q req
  | Cancel pid => '(_, q) ← cancel_outgoing q pid; Ret q
  | Destroy => destroy_outgoing q
  end.

(** The references the users of the queue own *)
Definition owners (x : op) (q : queue) (ext : Z -> Z) : Z -> Z :=
  match x with
  | NewPacket _ => fun pid => ext pid + one (next_id q) pid
  | RefPacket p => fun pid => ext pid + one p pid
  | UnrefPacket p => fun pid => ext pid - one p pid
  | _ => ext
  end.

(** A user gives references it owns, the main loop calls back while the
    monitor is on and when a timeout is pending, and what arrives has a
    header. *)
Definition allowed (x : op) (q : queue) (ext : Z -> Z) : Prop :=
  match x with
  | NewPacket p => holds p (ms (next_id q)) /\ refcnt p = 1
  | RefPacket pid => 1 <= ext pid < 2 ^ 30
  | UnrefPacket pid => 1 <= ext pid
  | Enqueue pid header _ => 1 <= ext pid /\ forall h, header = Some h -> 1 <= ext h
  | Writable => write_monitor q = true
  | Expire oid => armed (outs q) oid
  | Acknowledge req => exists m, header_is req m
  | Cancel _ | Destroy => True
  end.

Definition start : queue :=
  {| packets := ∅; outs := ∅; vec := []; next_id := 0; write_monitor := false; log := [] |}.

Inductive reaches : (Z -> Z) -> queue -> Prop :=
| reaches_start : reaches (fun _ => 0) start
| reaches_step ext q x q' : reaches ext q -> allowed x q ext -> run_op x q = Ret q' -> reaches (owners x q ext) q'.

Definition answered (id : Z) (o : outgoing) : bool := bool_decide (confirmable o /\ m_id (ms (o_pkt o)) = id).

Lemma answered_decides ext id : decides ext (is_answered id) (answered id).
Proof.
  intros q oid o Hq Ho. destruct (inv_payload _ _ _ _ Hq Ho) as (p & Hp & Hm).
  destruct (header_getters _ _ (holds_header _ _ Hm)) as (_ & Hty & Hid & _).
  unfold is_answered. rewrite Hp, bind_ret, Hty, bind_ret, Hid, bind_ret. f_equal. unfold answered, confirmable.
  destruct (Z.eqb_spec id (m_id (ms (o_pkt o)))), (Z.eqb_spec (m_type (ms (o_pkt o))) SOL_COAP_MESSAGE_TYPE_CON); cbn;
    symmetry; (apply bool_decide_eq_true_2 || apply bool_decide_eq_false_2); intuition congruence.
Qed.

Lemma of_decides ext pid : decides ext (is_of pid) (fun o => o_pkt o =? pid).
Proof.
  intros q oid o Hq Ho. destruct (inv_payload _ _ _ _ Hq Ho) as (p & Hp & Hm). unfold is_of.
  destruct (Z.eqb_spec (o_pkt o) pid) as [<-|]; [|done]. cbn [negb].
  destruct (header_getters _ _ (holds_header _ _ Hm)) as (_ & _ & Hid & _). by rewrite Hp, bind_ret, Hid.
Qed.

(** An acknowledgement takes away the last confirmable entry of its id. *)
Definition stops_last (id : Z) (q q' : queue) : Prop :=
  Forall (kept (answered id) q) (vec q) /\ q' = q
  \/ exists pre oid post, vec q = pre ++ oid :: post /\ ~ kept (answered id) q oid /\ Forall (kept (answered id) q) post
     /\ vec q' = pre ++ post.

Lemma acknowledge_spec ext q req m : queue_inv ext q -> header_is req m ->
  exists q', remove_outgoing_confirmable_packet q req = Ret q' /\ queue_inv ext q' /\ shrunk (eq Withdrawn) q q'
    /\ stops_last (m_id m) q q'.
Proof.
  intros Hq Hm. destruct (header_getters _ _ Hm) as (_ & _ & Hid & _).
  unfold remove_outgoing_confirmable_packet. rewrite Hid, bind_ret.
  destruct (remove_last_spec _ _ ext (length (vec q)) q 0 (answered_decides ext (m_id m)) Hq (le_n _))
    as [[Hall ->]|(pre & oid & post & q' & Hv & Hx & Hpost & -> & Hq' & Hs & Hv')]; rewrite ?bind_ret.
  - rewrite firstn_all in Hall. exists q. split_and!; [done|done|apply shrunk_refl|by left].
  - rewrite firstn_all in Hv. rewrite drop_all, app_nil_r in Hv'. exists q'. split_and!; [done..|]. right. eauto 10.
Qed.

Lemma cancel_spec ext q pid : queue_inv ext q ->
  exists q', cancel_outgoing q pid = Ret (blen (filter (fun oid => ~ kept (fun o => o_pkt o =? pid) q oid) (vec q)), q')
    /\ queue_inv ext q' /\ shrunk (eq Withdrawn) q q' /\ vec q' = filter (kept (fun o => o_pkt o =? pid) q) (vec q).
Proof.
  intros Hq. destruct (remove_all_spec _ _ ext (length (vec q)) q 0 (of_decides ext pid) Hq (le_n _)) as (q' & Hrun & Hq' & Hs & Hv).
  rewrite firstn_all in Hrun, Hv. rewrite drop_all, app_nil_r in Hv. by exists q'.
Qed.

Lemma destroy_spec ext q : queue_inv ext q ->
  exists q', destroy_outgoing q = Ret q' /\ queue_inv ext q' /\ shrunk (eq Withdrawn) q q' /\ vec q' = [].
Proof.
  intros Hq. unfold destroy_outgoing.
  destruct (remove_all_spec (fun _ _ => Ret true) (fun _ => true) ext (length (vec q)) q 0) as (q' & -> & Hq' & Hs & Hv); [done..|].
  rewrite bind_ret. exists q'. split_and!; [done..|]. rewrite Hv, drop_all, app_nil_r, firstn_all.
  assert (forall l, (forall x, x ∈ l -> x ∈ vec q) -> filter (kept (fun _ => true) q) l = []) as ->; [|done|done].
  induction l as [|x l IH]; intros Hl; [done|]. rewrite filter_cons_False.
  - apply IH. intros. apply Hl. by right.
  - unfold kept. destruct (proj1 (inv_listed _ _ Hq x) (Hl x ltac:(by left))) as [o ->]. done.
Qed.

Lemma shrunk_awake why q q' : shrunk why q q' -> awake q -> awake q'.
Proof.
  intros Hs [Hm|[Hall|Hb]]; [left; by rewrite (shrunk_monitor _ _ _ Hs)|right; left|by right; right].
  apply Forall_forall. intros oid Hoid. unfold armed. rewrite (shrunk_outs _ _ _ Hs oid Hoid).
  rewrite Forall_forall in Hall. apply Hall. eapply elem_of_sublist; [exact Hoid|apply Hs].
Qed.

Lemma expire_spec ext q oid : queue_inv ext q -> armed (outs q) oid ->
  exists q', timeout_cb q oid = Ret (false, q') /\ queue_inv ext q' /\ write_monitor q' = true.
Proof.
  intros Hq (o & Ho & Ht). unfold timeout_cb, out_at. rewrite Ho, bind_ret. eexists. split; [done|]. split; [|done].
  apply (inv_update ext q oid o (set_timeout o false) [Fired oid] true Hq Ho); [done|by constructor|].
  apply life_fire; [|done]. by apply (inv_lives _ _ Hq).
Qed.

Lemma op_spec ext q x : queue_inv ext q -> awake q -> allowed x q ext ->
  exists q', run_op x q = Ret q' /\ queue_inv (owners x q ext) q' /\ awake q'.
Proof.
  intros Hq Hw Ha. destruct x as [p|pid|pid|pid header addr| |oid|req|pid|]; cbn [allowed run_op owners] in *.
  - eexists. split; [done|]. split; [destruct Ha; by apply (new_packet_spec ext)|exact Hw].
  - destruct (packet_ref_spec _ _ _ Hq Ha) as (ps & -> & Hq'). by exists (set_packets q ps).
  - destruct (packet_unref_spec _ _ _ Hq Ha) as (ps & es & -> & _ & Hq'). by exists (notes (set_packets q ps) es).
  - destruct Ha as [Hp Hh]. destruct (enqueue_spec _ _ pid header addr Hq Hp Hh) as (r & q' & -> & Hq' & Hcase).
    rewrite bind_ret. exists q'. split_and!; [done|done|]. destruct Hcase as [(_ & -> & _)|(_ & _ & _ & ?)]; [done|by left].
  - destruct (writable_spec _ _ Hq) as (q' & -> & Hq' & Hw' & _). by exists q'.
  - destruct (expire_spec _ _ _ Hq Ha) as (q' & -> & Hq' & Hm). rewrite bind_ret. exists q'. split_and!; [done|done|by left].
  - destruct Ha as [m Hm]. destruct (acknowledge_spec _ _ _ _ Hq Hm) as (q' & -> & Hq' & Hs & _).
    exists q'. split_and!; [done|done|by eapply shrunk_awake].
  - destruct (cancel_spec _ _ pid Hq) as (q' & -> & Hq' & Hs & _). rewrite bind_ret.
    exists q'. split_and!; [done|done|by eapply shrunk_awake].
  - destruct (destroy_spec _ _ Hq) as (q' & -> & Hq' & Hs & _). exists q'. split_and!; [done|done|by eapply shrunk_awake].
Qed.

Lemma start_inv : queue_inv (fun _ => 0) start.
Proof.
  split; cbn; [constructor| |done|done| | |done|by left].
  - intros oid. rewrite lookup_empty. split; [by intros ?%not_elem_of_nil|by intros [? ?]].
  - intros pid. by rewrite lookup_empty.
  - intros id Hid. by rewrite lookup_empty.
Qed.

Lemma reached ext q : reaches ext q -> queue_inv ext q /\ awake q.
Proof.
  induction 1 as [|ext q x q' _ [Hq Hw] Ha Hrun]; [split; [apply start_inv|right; left; constructor]|].
  destruct (op_spec _ _ _ Hq Hw Ha) as (q1 & Hrun1 & ? & ?). rewrite Hrun in Hrun1. by injection Hrun1 as <-.
Qed.

(** ** What an entry does in its life *)

Definition waits (tr : list event) : list Z := omap (fun e => match e with Waiting _ t => Some t | _ => None end) tr.

Definition fires (tr : list event) : list Z := omap (fun e => match e with Fired oid => Some oid | _ => None end) tr.

Definition is_enqueued (e : event) : Prop := match e with Enqueued _ _ _ _ => True | _ => False end.

#[local] Arguments waits : simpl never.
#[local] Arguments fires : simpl never.

Lemma waits_app l l' : waits (l ++ l') = waits l ++ waits l'.
Proof. apply omap_app. Qed.

Lemma fires_app l l' : fires (l ++ l') = fires l ++ fires l'.
Proof. apply omap_app. Qed.

Definition delays : list Z := [2345; 4690; 9380; 18760].

Lemma delay_at n : 0 <= n < MAX_RETRANSMIT ->
  take (Z.to_nat (n + 1)) delays = take (Z.to_nat n) delays ++ [ACK_TIMEOUT_MS * 2 ^ n].
Proof.
  unfold MAX_RETRANSMIT. intros Hn.
  assert (n = 0 \/ n = 1 \/ n = 2 \/ n = 3) as [->|[->|[->| ->]]] by lia; reflexivity.
Qed.

Lemma sending_counts oid o es : sending oid o es -> (length (sents es) <= 1)%nat /\ waits es = [] /\ fires es = []
  /\ (forall e, e ∈ sents es -> exists r, e = Sent oid (wire o) (cliaddr o) r) /\ Forall (fun e => ~ is_enqueued e) es.
Proof.
  intros [[-> _]|[r ->]].
  - split_and!; [apply le_S, le_n|done|done|by intros e ?%not_elem_of_nil|constructor].
  - split_and!; [apply le_n|done|done| |by repeat constructor; intros []]. intros e ->%list_elem_of_singleton. by exists r.
Qed.

Record conduct (oid : Z) (o : outgoing) (tr : list event) : Prop := {
  conduct_first : exists tr', tr = Enqueued oid (o_pkt o) (o_header o) (cliaddr o) :: tr' /\ Forall (fun e => ~ is_enqueued e) tr';
  conduct_bytes : forall e, e ∈ sents tr -> exists r, e = Sent oid (wire o) (cliaddr o) r;
  conduct_count : confirmable o -> (length (sents tr) <= 4)%nat /\ sublist (waits tr) delays;
  conduct_timed : confirmable o -> (forall l, timeout_memory l = true) ->
    waits tr = take (length (waits tr)) delays /\ (length (sents tr) <= S (length (fires tr)))%nat;
  conduct_untimed : ~ confirmable o -> waits tr = []
}.

Lemma life_counts oid o tr : life oid o tr -> confirmable o ->
  Z.of_nat (length (sents tr)) <= counter o /\ sublist (waits tr) (take (Z.to_nat (counter o)) delays)
  /\ ((forall l, timeout_memory l = true) -> waits tr = take (Z.to_nat (counter o)) delays
      /\ Z.of_nat (length (fires tr)) + (if o_timeout o then 1 else 0) = counter o).
Proof.
  induction 1 as [pid h addr|o tr armed es Hl IH Hcon Ht Hc Hm Hs|o tr es _ IH Hn Hs|o tr _ IH Ht]; intros Hc'.
  - by split_and!; [|constructor|].
  - destruct (IH Hc') as (Hlen & Hsub & Hall). destruct (life_counter _ _ _ Hl) as [Hr _].
    destruct (sending_counts _ _ _ Hs) as (Hs1 & Hw & Hf & _).
    rewrite sents_app, sents_app, waits_app, waits_app, fires_app, fires_app, Hw, Hf, !app_nil_r, !length_app.
    change (counter (set_timeout _ _)) with (counter o + 1). change (o_timeout (set_timeout _ _)) with armed.
    rewrite (delay_at (counter o)) by lia. rewrite Ht in Hall.
    assert (length (sents (if armed then [Waiting oid (ACK_TIMEOUT_MS * 2 ^ counter o)] else [])) = 0%nat
      /\ length (fires (if armed then [Waiting oid (ACK_TIMEOUT_MS * 2 ^ counter o)] else [])) = 0%nat) as [-> ->] by (by destruct armed).
    split_and!; [lia| |].
    + apply sublist_app; [done|]. destruct armed; [done|]. apply sublist_nil_l.
    + intros Hmem. destruct (Hall Hmem) as [-> ?]. destruct armed.
      * split; [done|]. cbn. lia.
      * destruct (Hm eq_refl) as [l Hlf]. by rewrite Hmem in Hlf.
  - done.
  - destruct (IH Hc') as (Hlen & Hsub & Hall). rewrite sents_app, waits_app, fires_app, !app_nil_r, length_app.
    change (counter (set_timeout _ _)) with (counter o). change (o_timeout (set_timeout _ _)) with false. rewrite Ht in Hall.
    split_and!; [done|done|]. intros Hmem. destruct (Hall Hmem) as [? ?]. split; [done|].
    change (length (fires [Fired oid])) with 1%nat. lia.
Qed.

Lemma life_conduct oid o tr : life oid o tr -> conduct oid o tr.
Proof.
  intros Hl. pose proof (life_counts _ _ _ Hl) as Hcount. destruct (life_counter _ _ _ Hl) as [Hr _]. unfold MAX_RETRANSMIT in Hr.
  split.
  - clear Hcount Hr. induction Hl as [pid h addr|o tr armed es _ (tr' & -> & Hf) _ _ _ _ Hs|o tr es _ (tr' & -> & Hf) _ Hs|o tr _ (tr' & -> & Hf) _];
      [by eexists|..]; (eexists; split; [done|]); rewrite ?Forall_app; split_and?; try done.
    + destruct armed; repeat constructor; intros [].
    + by apply (sending_counts _ _ _ Hs).
    + by apply (sending_counts _ _ _ Hs).
    + repeat constructor; intros [].
  - clear Hcount Hr. induction Hl as [pid h addr|o tr armed es _ IH _ _ _ _ Hs|o tr es _ IH _ Hs|o tr _ IH _]; intros e.
    + by intros ?%not_elem_of_nil.
    + rewrite !sents_app, !elem_of_app. intros [He|[He|He]]; [by apply IH| |by apply (sending_counts _ _ _ Hs)].
      exfalso. by destruct armed; apply not_elem_of_nil in He.
    + rewrite !sents_app, !elem_of_app. intros [He|He]; [by apply IH|by apply (sending_counts _ _ _ Hs)].
    + rewrite !sents_app, !app_nil_r. apply IH.
  - intros Hc. destruct (Hcount Hc) as (? & Hsub & _). split; [lia|]. etrans; [exact Hsub|]. apply sublist_take.
  - intros Hc Hm. destruct (Hcount Hc) as (? & _ & Hall). destruct (Hall Hm) as [-> ?]. split.
    + rewrite length_take, Nat.min_l; [done|cbn; lia].
    + destruct (o_timeout o); lia.
  - clear Hcount Hr. induction Hl as [pid h addr|o tr armed es _ IH Hc _ _ _ Hs|o tr es _ IH _ Hs|o tr _ IH _]; intros Hn; [done|done|..].
    + rewrite waits_app, IH by done. by apply (sending_counts _ _ _ Hs).
    + rewrite waits_app. rewrite IH; [done|]. exact Hn.
Qed.

Lemma ended_conduct oid w tr : ended oid w tr -> exists o, conduct oid o tr.
Proof.
  assert (forall o tr es, conduct oid o tr -> sents es = [] -> waits es = [] -> Forall (fun e => ~ is_enqueued e) es ->
    conduct oid o (tr ++ es)) as Hend.
  { intros o tr' es [(t & -> & Hf) Hb Hc Ht Hu] Hs Hw He.
    split; rewrite ?sents_app, ?waits_app, ?Hs, ?Hw, ?app_nil_r; [|done|done| |done].
    - exists (t ++ es). by rewrite Forall_app.
    - intros Hcon Hm. destruct (Ht Hcon Hm) as [? ?]. split; [done|]. rewrite fires_app, length_app. lia. }
  intros [o t Hl _ _ _|o t t' bs a r Hl _ _ _|o t Hl]; exists o; apply Hend; try (by apply life_conduct);
    unfold stopping; try destruct (o_timeout o); try done; by repeat constructor; intros [].
Qed.

Lemma enqueued_conduct ext q oid pid header addr : queue_inv ext q -> Enqueued oid pid header addr ∈ log q ->
  exists o, o_pkt o = pid /\ o_header o = header /\ cliaddr o = addr /\ conduct oid o (trace oid (log q)).
Proof.
  intros Hq He. assert (Enqueued oid pid header addr ∈ trace oid (log q)) as Hin by (by apply list_elem_of_filter).
  assert (exists o, conduct oid o (trace oid (log q))) as [o Ho].
  { destruct (outs q !! oid) as [o|] eqn:Hout; [exists o; by apply life_conduct, (inv_lives _ _ Hq)|].
    destruct (inv_ended _ _ Hq oid Hout) as [Hn|[w Hw]]; [rewrite Hn in Hin; by apply not_elem_of_nil in Hin|by eapply ended_conduct]. }
  exists o. destruct (conduct_first _ _ _ Ho) as (tr' & Htr & Hf). rewrite Htr in Hin.
  apply elem_of_cons in Hin as [[= -> -> ->]|Hin]; [done|]. rewrite Forall_forall in Hf. by destruct (Hf _ Hin).
Qed.

(** ** Every packet gets its turn *)

Definition sendable (os : gmap Z outgoing) (oid : Z) : Prop :=
  match os !! oid with Some o => o_timeout o = false /\ spent o = false | None => False end.

#[global] Instance sendable_dec os oid : Decision (sendable os oid).
Proof. unfold sendable. destruct (os !! oid); apply _. Defined.

(** The entries that are to be sent, in their order *)
Definition due (q : queue) : list Z := filter (sendable (outs q)) (vec q).

(** The socket calls back while the monitor is on, at most [n] times. *)
Fixpoint serve (n : nat) (q : queue) : outcome queue :=
  match n with
  | O => Ret q
  | S n => if write_monitor q then q ← writable q; serve n q else Ret q
  end.

Lemma pick_due os v : (forall oid, oid ∈ v -> is_Some (os !! oid)) ->
  filter (sendable os) (pick os v).1 = filter (sendable os) v
  /\ match (pick os v).2 with
     | None => filter (sendable os) v = []
     | Some oid => exists rest, filter (sendable os) v = oid :: rest
     end.
Proof.
  induction v as [|oid v IH]; intros Hv; [done|]. cbn [pick].
  destruct (Hv oid ltac:(by left)) as [o Ho]. rewrite Ho.
  destruct IH as [IHe IHn]; [intros; apply Hv; by right|].
  assert (sendable os oid <-> o_timeout o = false /\ spent o = false) as Hs by (unfold sendable; by rewrite Ho).
  destruct (spent o) eqn:Hx; [rewrite (filter_cons_False _ _ v) by (rewrite Hs; intuition discriminate); done|].
  destruct (o_timeout o) eqn:Ht.
  - destruct (pick os v) as [v' next]. cbn [fst snd] in *. rewrite !filter_cons_False by (rewrite Hs; intuition discriminate). done.
  - cbn [fst snd]. split; [done|]. rewrite filter_cons_True by by rewrite Hs. by eexists.
Qed.

Lemma filter_twice {A} (P Q R : A -> Prop) `{!forall x, Decision (P x)} `{!forall x, Decision (Q x)} `{!forall x, Decision (R x)} (l : list A) :
  (forall x, x ∈ l -> R x <-> P x /\ Q x) -> filter P (filter Q l) = filter R l.
Proof.
  induction l as [|x l IH]; intros He; [done|]. rewrite !(filter_cons _ x l). specialize (He x ltac:(by left)) as Hx.
  assert (filter P (filter Q l) = filter R l) as IH' by (apply IH; intros; apply He; by right).
  destruct (decide (Q x)); [rewrite filter_cons; destruct (decide (P x))|]; destruct (decide (R x)); rewrite ?IH'; tauto || done.
Qed.

Lemma due_next ext q q' : queue_inv ext q -> sends_next q q' -> ~ refused -> (forall l, timeout_memory l = true) ->
  (forall l, 0 <= sendmsg_result l) ->
  due q = [] /\ sents (log q') = sents (log q)
  \/ exists oid o r, due q = oid :: due q' /\ outs q !! oid = Some o
     /\ sents (log q') = sents (log q) ++ [Sent oid (wire o) (cliaddr o) r]
     /\ forall x, x ∈ due q' -> outs q' !! x = outs q !! x.
Proof.
  intros Hq Hn Hmem Htim Hsock. unfold sends_next in Hn. unfold due.
  destruct (pick_due (outs q) (vec q)) as [Hkeep Hcase]; [intros oid; apply (inv_listed _ _ Hq)|].
  destruct (pick (outs q) (vec q)) as [v [oid|]]; cbn [fst snd] in *; [right|left; split; [done|apply Hn]].
  destruct Hcase as [rest Hrest]. destruct Hn as (Hsame & o & Ho & [(? & _)|(r & Hs & [l Hl] & Hv)]); [done|].
  specialize (Hsock l). assert (NoDup (filter (sendable (outs q)) (vec q))) as Hnd by apply NoDup_filter, Hq.
  rewrite Hrest in Hnd. apply NoDup_cons in Hnd as [Hnotin _].
  assert (oid ∈ vec q' -> ~ sendable (outs q') oid) as Hgone.
  { intros Hin. destruct Hv as [[Hv Harm]|[Hv _]].
    - destruct Harm as [_ (o1 & Ho1 & Ht1)]; [lia|]. unfold sendable. rewrite Ho1, Ht1. by intros [? _].
    - rewrite Hv in Hin. by apply list_elem_of_filter in Hin as [? _]. }
  assert (forall x, x ∈ vec q' -> sendable (outs q') x <-> sendable (outs q) x /\ x <> oid) as Hiff.
  { intros x Hx. destruct (decide (x = oid)) as [->|Hne]; [specialize (Hgone Hx); tauto|].
    unfold sendable. rewrite (Hsame x Hx Hne). tauto. }
  assert (filter (sendable (outs q')) (vec q') = rest) as Hrest'.
  { assert (filter (fun x => x <> oid) (oid :: rest) = rest) as <-.
    { rewrite filter_cons_False by tauto. clear - Hnotin. induction rest as [|x rest IH]; [done|].
      rewrite filter_cons_True by set_solver. rewrite IH by set_solver. done. }
    rewrite <- Hrest, <- Hkeep. destruct Hv as [[Hv _]|[Hv _]]; rewrite Hv in *.
    - symmetry. apply filter_twice. intros x Hx. rewrite (Hiff x Hx). tauto.
    - rewrite (filter_twice (fun x => x <> oid) (sendable (outs q)) (fun x => sendable (outs q) x /\ x <> oid)) by tauto.
      apply filter_twice. intros x Hx. destruct (decide (x = oid)) as [->|Hne]; [tauto|].
      rewrite Hiff by (by apply list_elem_of_filter). tauto. }
  exists oid, o, r. rewrite Hrest'. split_and!; [done..|]. intros x Hx. apply Hsame.
  - rewrite <- Hrest' in Hx. by apply list_elem_of_filter in Hx as [_ ?].
  - by intros ->.
Qed.

Lemma serve_spec ext n q : queue_inv ext q -> awake q -> ~ refused -> (forall l, timeout_memory l = true) ->
  (forall l, 0 <= sendmsg_result l) -> (length (due q) < n)%nat ->
  exists q' es, serve n q = Ret q' /\ queue_inv ext q' /\ write_monitor q' = false /\ Forall (armed (outs q')) (vec q')
    /\ sents (log q') = sents (log q) ++ es
    /\ Forall2 (fun oid e => exists o r, outs q !! oid = Some o /\ e = Sent oid (wire o) (cliaddr o) r) (due q) es.
Proof.
  intros Hq Hw Hmem Htim Hsock. revert q Hq Hw.
  assert (~ broken) as Hnb by (intros (l & ? & _); specialize (Hsock l); lia).
  assert (forall q, Forall (armed (outs q)) (vec q) -> due q = []) as Hidle.
  { intros q Hall. unfold due. induction Hall as [|oid v (o & Ho & Ht) _ IH]; [done|].
    rewrite filter_cons_False; [done|]. unfold sendable. rewrite Ho, Ht. by intros [? _]. }
  induction n as [|n IH]; intros q Hq Hw Hn; [lia|]. cbn [serve]. destruct (write_monitor q) eqn:Hm.
  2: { destruct Hw as [Hw|[Hall|?]]; [congruence| |done]. exists q, []. rewrite (Hidle q Hall), app_nil_r. by split_and!. }
  destruct (writable_spec ext q Hq) as (q1 & -> & Hq1 & Hw1 & Hnext & _). rewrite bind_ret.
  destruct (due_next ext q q1 Hq Hnext Hmem Htim Hsock) as [[Hdue Hs1]|(oid & o & r & Hdue & Ho & Hs1 & Hsame)].
  - unfold sends_next in Hnext. destruct (pick_due (outs q) (vec q)) as [_ Hcase]; [intros oid; apply (inv_listed _ _ Hq)|].
    destruct (pick (outs q) (vec q)) as [v [oid|]]; cbn [snd] in *.
    { destruct Hcase as [rest Hrest]. unfold due in Hdue. congruence. }
    destruct Hnext as (_ & _ & Hm1). assert (serve n q1 = Ret q1) as -> by (destruct n; cbn [serve]; by rewrite ?Hm1).
    destruct Hw1 as [?|[Hall|?]]; [congruence| |done]. exists q1, []. rewrite Hdue, app_nil_r. by split_and!.
  - destruct (IH q1 Hq1 Hw1) as (q' & es & Hrun & Hq' & Hm' & Hall & Hs' & Hes); [rewrite Hdue in Hn; cbn in Hn; lia|].
    exists q', (Sent oid (wire o) (cliaddr o) r :: es). split_and!; [done..| |].
    + rewrite Hs', Hs1, <- app_assoc. done.
    + rewrite Hdue. constructor; [by exists o, r|]. clear - Hes Hsame. revert es Hes. induction (due q1) as [|x l IH]; intros es Hes.
      * inversion Hes. constructor.
      * apply Forall2_cons_inv_l in Hes as (e & es' & (ox & rx & Hox & ->) & Hes & ->).
        constructor; [exists ox, rx; by rewrite <- Hsame by (by left)|]. apply IH; [|done]. intros y Hy. apply Hsame. by right.
Qed.

(** ** The queue is correct *)

(** C7: whatever a server does with its queue, every packet has as many
    references as its owners and the queue hold and nothing is used after it
    was freed, and every entry leads its [life]; with a socket that fails with
    no other error than [EAGAIN], the socket is watched or every entry waits
    for its timeout (with another one entries may wait unwatched, see
    [failed_packets_wait]); and each operation the server may run next runs to
    its end. *)
Theorem coap_queue_safe ext q : reaches ext q ->
  queue_inv ext q /\ awake q /\ forall x, allowed x q ext -> exists q', run_op x q = Ret q'.
Proof.
  intros Hr. destruct (reached _ _ Hr) as [Hq Hw]. split_and!; [done|done|].
  intros x Hx. destruct (op_spec _ _ _ Hq Hw Hx) as (q' & ? & _). by exists q'.
Qed.

(** C8: a confirmable packet is sent at most four times; with memory for
    timeouts each time has a timeout, which doubles from 2345 ms, and no
    transmission but the first comes before a timeout expired, while a
    transmission that found no memory for its timeout may be repeated at once
    when the socket did not take it.  Another packet is never waited for.  What
    is sent is the packet's message, behind the header of the other packet if
    there is one. *)
Theorem coap_retransmission_correct ext q oid pid header addr :
  reaches ext q -> Enqueued oid pid header addr ∈ log q ->
  exists o, o_pkt o = pid /\ o_header o = header /\ cliaddr o = addr /\ conduct oid o (trace oid (log q)).
Proof. intros Hr. destruct (reached _ _ Hr) as [Hq _]. by apply (enqueued_conduct ext). Qed.

(** C26: when the socket is writable the first entry that waits for nothing
    and was not sent often enough is handed to the socket, once, unless there
    is no memory for its bytes, in which case it stays.  It stays too when the
    socket does not take it, or when it is confirmable and waits; it leaves
    when it was taken and is not confirmable, or there was no memory for its
    timeout.  Other entries leave only when they were sent often enough.
    Afterwards the socket is watched or every entry waits for its timeout,
    with a socket that fails with no other error than [EAGAIN]. *)
Theorem coap_writable_correct ext q : queue_inv ext q ->
  exists q', writable q = Ret q' /\ sends_next q q' /\ gone_well q q' /\ awake q'.
Proof. intros Hq. destruct (writable_spec _ _ Hq) as (q' & ? & _ & ? & ? & ?). by exists q'. Qed.

(** C25: with memory and a socket that takes what it is given, the packets that
    are due go out in the order of the queue, each once, and then the socket
    is left alone. *)
Theorem coap_queue_drains ext q : queue_inv ext q -> awake q ->
  ~ refused -> (forall l, timeout_memory l = true) -> (forall l, 0 <= sendmsg_result l) ->
  exists q' es, serve (S (length (due q))) q = Ret q' /\ write_monitor q' = false /\ Forall (armed (outs q')) (vec q')
    /\ sents (log q') = sents (log q) ++ es
    /\ Forall2 (fun oid e => exists o r, outs q !! oid = Some o /\ e = Sent oid (wire o) (cliaddr o) r) (due q) es.
Proof.
  intros Hq Hw Hm Ht Hs. destruct (serve_spec ext (S (length (due q))) q Hq Hw Hm Ht Hs) as (q' & es & ? & _ & ? & ? & ? & ?); [lia|].
  by exists q', es.
Qed.

(** The packets of an empty queue are the ones others own. *)
Definition only_owned (ext : Z -> Z) (q : queue) : Prop :=
  forall pid, refcnt <$> packets q !! pid = if decide (ext pid = 0) then None else Some (ext pid).

Lemma empty_owned ext q : queue_inv ext q -> vec q = [] -> only_owned ext q.
Proof.
  intros Hq Hv pid. pose proof (inv_heap _ _ Hq pid) as Hh. rewrite Hv in Hh. cbn [held] in Hh.
  destruct (packets q !! pid) as [p|]; cbn.
  - destruct Hh as (-> & ? & _). rewrite decide_False by lia. f_equal. lia.
  - by rewrite decide_True by lia.
Qed.

(** C27: a packet is put at the end or refused for want of room without a
    trace; an acknowledgement stops the last confirmable packet of its id;
    cancelling takes every entry of a packet and counts them; destroying
    empties the queue and leaves the packets that others own. *)
Theorem coap_queue_ops_correct ext q : queue_inv ext q ->
  (forall pid header addr, 1 <= ext pid -> (forall h, header = Some h -> 1 <= ext h) ->
     exists r q', enqueue_packet q pid header addr = Ret (r, q')
       /\ (r < 0 /\ q' = q /\ no_room q
           \/ r = 0 /\ vec q' = vec q ++ [next_id q] /\ log q' = log q ++ [Enqueued (next_id q) pid header addr]
              /\ write_monitor q' = true))
  /\ (forall req m, header_is req m ->
     exists q', remove_outgoing_confirmable_packet q req = Ret q' /\ stops_last (m_id m) q q')
  /\ (forall pid, exists q', cancel_outgoing q pid
       = Ret (blen (filter (fun oid => ~ kept (fun o => o_pkt o =? pid) q oid) (vec q)), q')
       /\ vec q' = filter (kept (fun o => o_pkt o =? pid) q) (vec q))
  /\ exists q', destroy_outgoing q = Ret q' /\ vec q' = [] /\ only_owned ext q'.
Proof.
  intros Hq. split_and!.
  - intros pid header addr Hp Hh. destruct (enqueue_spec _ _ pid header addr Hq Hp Hh) as (r & q' & ? & _ & ?). by exists r, q'.
  - intros req m Hm. destruct (acknowledge_spec _ _ _ _ Hq Hm) as (q' & ? & _ & _ & ?). by exists q'.
  - intros pid. destruct (cancel_spec _ _ pid Hq) as (q' & ? & _ & _ & ?). by exists q'.
  - destruct (destroy_spec _ _ Hq) as (q' & ? & Hq' & _ & Hv). exists q'. split_and!; [done|done|by apply empty_owned].
Qed.
End Queue.

(** ** At work *)

(** Memory for everything, and a socket that takes every packet *)
Definition obliging : CoapEnv :=
  {| entry_memory := fun _ => true; vector_memory := fun _ => true; timeout_memory := fun _ => true;
     sendmsg_result := fun _ => 5; sendmsg_errno := fun _ => 0 |}.

Definition get_message : message := Message 1 0 1 7 [9] [] None.

Definition messages (_ : Z) : message := get_message.

Lemma get_holds : holds (packet_of (encode get_message)) get_message.
Proof.
  split_and!; [split; cbn; unfold is_byte; repeat constructor; lia || done|by apply rep_packet_of|done].
Qed.

Definition after (x : op) (q : queue) : queue :=
  match run_op (H := gcc5) (H0 := roomy) (H1 := obliging) x q with Ret q => q | UB => q end.

Definition with_packet : queue := after (NewPacket (packet_of (encode get_message))) start.
Definition with_entry : queue := after (Enqueue 0 None 7) with_packet.
Definition sent_once : queue := after Writable with_entry.

Definition owner_of_0 : Z -> Z := fun pid => 0 + one 0 pid.

Definition reached_here : (Z -> Z) -> queue -> Prop := reaches (H := gcc5) (H0 := roomy) (H1 := obliging) messages.

Lemma entry_reached : reached_here owner_of_0 with_entry.
Proof.
  assert (reached_here owner_of_0 with_packet) as Hp.
  { apply (reaches_step (H := gcc5) (H0 := roomy) (H1 := obliging) messages (fun _ => 0) start (NewPacket (packet_of (encode get_message))) with_packet).
    - apply reaches_start. - split; [exact get_holds|done]. - by vm_compute. }
  apply (reaches_step (H := gcc5) (H0 := roomy) (H1 := obliging) messages owner_of_0 with_packet (Enqueue 0 None 7) with_entry Hp).
  - split; [done|discriminate].
  - by vm_compute.
Qed.

Lemma sent_reached : reached_here owner_of_0 sent_once.
Proof.
  apply (reaches_step (H := gcc5) (H0 := roomy) (H1 := obliging) messages owner_of_0 with_entry Writable sent_once entry_reached); [done|by vm_compute].
Qed.

Lemma coap_queue_safe_witness :
  exists q', run_op (H := gcc5) (H0 := roomy) (H1 := obliging) (Expire 1) sent_once = Ret q'.
Proof.
  apply (coap_queue_safe (H := gcc5) (H0 := roomy) (H1 := obliging) messages owner_of_0 sent_once sent_reached).
  eexists. split; [vm_compute; reflexivity|done].
Defined.

Lemma coap_retransmission_correct_witness :
  exists o, o_pkt o = 0 /\ o_header o = None /\ cliaddr o = 7
    /\ conduct (H1 := obliging) messages 1 o [Enqueued 1 0 None 7; Waiting 1 2345; Sent 1 [65; 1; 0; 7; 9] 7 5].
Proof.
  destruct (coap_retransmission_correct (H := gcc5) (H0 := roomy) (H1 := obliging) messages owner_of_0 sent_once 1 0 None 7 sent_reached)
    as (o & ? & ? & ? & Hc); [vm_compute; left|]. by exists o.
Defined.

Lemma entry_inv : queue_inv (H0 := roomy) (H1 := obliging) messages owner_of_0 with_entry.
Proof. exact (proj1 (reached (H := gcc5) messages _ _ entry_reached)). Qed.

Lemma coap_writable_correct_witness :
  exists q', writable (H := gcc5) (H0 := roomy) (H1 := obliging) with_entry = Ret q'
    /\ sends_next (H0 := roomy) (H1 := obliging) messages with_entry q'.
Proof.
  destruct (coap_writable_correct (H := gcc5) (H0 := roomy) (H1 := obliging) messages owner_of_0 with_entry entry_inv)
    as (q' & Hrun & Hn & _). by exists q'.
Defined.

Lemma roomy_never_refuses : ~ refused (H0 := roomy).
Proof.
  intros (n & Hn & Ha). revert Ha. cbn. intros Ha. discriminate || (destruct (Z.leb_spec n SSIZE_MAX); [discriminate|lia]).
Qed.

Lemma coap_queue_drains_witness :
  exists q' es, serve (H := gcc5) (H0 := roomy) (H1 := obliging) 2 with_entry = Ret q' /\ write_monitor q' = false
    /\ sents (log q') = [] ++ es
    /\ Forall2 (fun oid e => exists o r, outs with_entry !! oid = Some o /\ e = Sent oid (wire messages o) (cliaddr o) r) [1] es.
Proof.
  destruct (coap_queue_drains (H := gcc5) (H0 := roomy) (H1 := obliging) messages owner_of_0 with_entry entry_inv)
    as (q' & es & Hrun & Hm & _ & Hs & Hes); [by left|exact roomy_never_refuses|done|done|].
  exists q', es. split; [exact Hrun|]. split; [done|]. split; [exact Hs|exact Hes].
Defined.

Lemma coap_queue_ops_correct_witness :
  (exists q', cancel_outgoing with_entry 0 = Ret (1, q') /\ vec q' = [])
  /\ exists q', destroy_outgoing with_entry = Ret q' /\ vec q' = [] /\ only_owned owner_of_0 q'.
Proof.
  destruct (coap_queue_ops_correct (H0 := roomy) (H1 := obliging) messages owner_of_0 with_entry entry_inv)
    as (_ & _ & Hcancel & Hdestroy). split; [exact (Hcancel 0)|exact Hdestroy].
Defined.

(** *** What does not hold *)

(** A packet is sent four times in all, where the transmission parameters of
    the protocol mean four times after the first. *)
Lemma four_transmissions_in_all :
  let q := after Writable (after (Expire 1) (after Writable (after (Expire 1) (after Writable (after (Expire 1) sent_once))))) in
  (length (sents (log q)), length (sents (log (after Writable (after (Expire 1) q)))), vec (after Writable (after (Expire 1) q)))
  = (4%nat, 4%nat, []).
Proof. by vm_compute. Qed.

(** Two packets for two peers with the same id: an acknowledgement of the
    first stops the second, whoever sent it. *)
Lemma acknowledgements_have_no_address :
  let q := after (Enqueue 0 None 8) with_entry in
  vec (after (Acknowledge (packet_of (encode get_message))) q) = [1].
Proof. by vm_compute. Qed.

(** A failed send turns the monitor off with a packet that could be sent. *)
Definition failing : CoapEnv :=
  {| entry_memory := fun _ => true; vector_memory := fun _ => true; timeout_memory := fun _ => false;
     sendmsg_result := fun _ => - EIO; sendmsg_errno := fun _ => EIO |}.

Lemma failed_packets_wait :
  match run_op (H := gcc5) (H0 := roomy) (H1 := failing) Writable with_entry with
  | Ret q => (write_monitor q, due q) = (false, [1])
  | UB => False
  end.
Proof. by vm_compute. Qed.
End CoapQueueProofs.
