(* ===== verification/CoapServer.v ===== *)
(** * A CoAP server: resources, observers and replies

    Models the server half of src/src/lib/comms/sol-coap.c: requests are
    dispatched to the resources of the program, observers are registered and
    notified, and responses find the replies that wait for them.  A server has
    its queue (CoapQueue), a vector of contexts, and pending replies, which
    are objects on a heap.  The callbacks of the program are the class
    [CoapProgram]: they see the server and answer with a result and what they
    send or cancel; memory is the class [ServerEnv].  A packet is a value
    until it is given to the server, which then owns it; resources are
    constant. *)

From S2P Require Import Prelude Arith Str Codec Buffer Coap CoapQueue.
Import Buffer Coap CoapQueue.

#[local] Open Scope Z_scope.

Module CoapServer.

Definition SOL_COAP_FLAGS_WELL_KNOWN := 2.

Definition SOL_NETWORK_LINK_ADDED := 0.
Definition SOL_NETWORK_LINK_CHANGED := 2.
Definition SOL_NETWORK_LINK_MULTICAST := 8.
Definition SOL_NETWORK_LINK_RUNNING := 16.

(** The functions of the program are numbers; a path ends with an empty
    component. *)
Record sol_coap_resource := { get : option Z; post : option Z; put : option Z; del : option Z; res_flags : Z; path : list (list Z) }.

Record resource_observer := { obs_addr : Z; obs_token : list Z }.

Record resource_context := { resource : Z; observers : list resource_observer; age : Z }.

(** [cb] is the callback with its data, [reentrant] the two flags behind it;
    [reply_path] is a C string without its NUL. *)
Record pending_reply := {
  reply_timeout : bool; cb : Z; reply_path : option (list Z); reply_pkt : Z; in_use : bool; delete_me : bool;
  observing : bool; reply_id : Z; reply_token : list Z
}.

Definition set_use (r : pending_reply) u d :=
  {| reply_timeout := reply_timeout r; cb := cb r; reply_path := reply_path r; reply_pkt := reply_pkt r; in_use := u; delete_me := d;
     observing := observing r; reply_id := reply_id r; reply_token := reply_token r |}.

Definition no_timeout (r : pending_reply) :=
  {| reply_timeout := false; cb := cb r; reply_path := reply_path r; reply_pkt := reply_pkt r; in_use := in_use r;
     delete_me := delete_me r; observing := observing r; reply_id := reply_id r; reply_token := reply_token r |}.

Inductive server_event :=
| Awaited (rid pid : Z)                                              (** the reply is pending *)
| Called (rid : Z) (response : option (sol_coap_packet * Z)) (r : bool)
| Dropped (rid : Z)                                                  (** it is gone *)
| Handled (h addr r : Z).                                            (** a request was handled *)

(** [request_id] is the counter of sol_coap_packet_new_request, [socket]
    whether the socket exists, [subscribed] whether [network_event] is called
    with this server when something happens to a link. *)
Record sol_coap_server := {
  q : queue; contexts : list resource_context; pending : list Z; replies : gmap Z pending_reply;
  unknown_handler : option Z; socket : bool; subscribed : bool; request_id : Z; events : list server_event
}.

Definition set_q s x := {| q := x; contexts := contexts s; pending := pending s; replies := replies s; unknown_handler := unknown_handler s; socket := socket s; subscribed := subscribed s; request_id := request_id s; events := events s |}.
Definition set_contexts s x := {| q := q s; contexts := x; pending := pending s; replies := replies s; unknown_handler := unknown_handler s; socket := socket s; subscribed := subscribed s; request_id := request_id s; events := events s |}.
Definition set_pending s x := {| q := q s; contexts := contexts s; pending := x; replies := replies s; unknown_handler := unknown_handler s; socket := socket s; subscribed := subscribed s; request_id := request_id s; events := events s |}.
Definition set_replies s x := {| q := q s; contexts := contexts s; pending := pending s; replies := x; unknown_handler := unknown_handler s; socket := socket s; subscribed := subscribed s; request_id := request_id s; events := events s |}.
Definition set_unknown s x := {| q := q s; contexts := contexts s; pending := pending s; replies := replies s; unknown_handler := x; socket := socket s; subscribed := subscribed s; request_id := request_id s; events := events s |}.
Definition close_socket s := {| q := q s; contexts := contexts s; pending := pending s; replies := replies s; unknown_handler := unknown_handler s; socket := false; subscribed := subscribed s; request_id := request_id s; events := events s |}.
Definition set_request s x := {| q := q s; contexts := contexts s; pending := pending s; replies := replies s; unknown_handler := unknown_handler s; socket := socket s; subscribed := subscribed s; request_id := x; events := events s |}.
Definition record s e := {| q := q s; contexts := contexts s; pending := pending s; replies := replies s; unknown_handler := unknown_handler s; socket := socket s; subscribed := subscribed s; request_id := request_id s; events := events s ++ [e] |}.

(** What a callback does: it sends a packet, with a callback for the reply or
    none, or cancels one it has sent before. *)
Inductive action :=
| Send (p : sol_coap_packet) (addr : Z) (reply_cb : option Z)
| CancelPacket (pid addr : Z).

Class CoapProgram := {
  resource_at : Z -> sol_coap_resource;
  reply_cb : sol_coap_server -> Z -> option (sol_coap_packet * Z) -> list action * bool;
  handler_cb : sol_coap_server -> Z -> sol_coap_packet -> Z -> list action * Z;
  notification_cb : sol_coap_server -> Z -> Z -> Z * option sol_coap_packet
}.

(** Is there memory for a reply, its timeout and its place in the vector, for
    an observer and its place, for a context? *)
Class ServerEnv := {
  reply_memory : sol_coap_server -> bool;
  reply_timeout_memory : sol_coap_server -> bool;
  pending_memory : sol_coap_server -> bool;
  observer_memory : sol_coap_server -> bool;
  observers_memory : sol_coap_server -> bool;
  context_memory : sol_coap_server -> bool
}.

Definition reply_at (s : sol_coap_server) (rid : Z) : outcome pending_reply :=
  match replies s !! rid with Some r => Ret r | None => UB end.

Definition set_reply (s : sol_coap_server) (rid : Z) (r : pending_reply) := set_replies s (<[rid := r]> (replies s)).

(** [sol_ptr_vector_remove] *)
Definition remove_last (l : list Z) (x : Z) : list Z :=
  match last_place l x (length l) with Some i => delete i l | None => l end.

Definition pending_reply_free (s : sol_coap_server) (rid : Z) : outcome sol_coap_server :=
  _ ← reply_at s rid;
  Ret (record (set_replies (set_pending s (remove_last (pending s) rid)) (delete rid (replies s))) (Dropped rid)).

(** [SOL_REENTRANT_FREE(reply->reentrant) pending_reply_free(reply)] *)
Definition reentrant_free (s : sol_coap_server) (rid : Z) : outcome sol_coap_server :=
  r ← reply_at s rid;
  let s := set_reply s rid (set_use r (in_use r) true) in
  if in_use r then Ret s else pending_reply_free s rid.

(** [SOL_VECTOR_FOREACH_IDX] up to the resource *)
Definition find_context (s : sol_coap_server) (res : Z) : option nat := fst <$> list_find (fun c => resource c = res) (contexts s).

Definition update_context (s : sol_coap_server) (i : nat) (c : resource_context) := set_contexts s (<[i := c]> (contexts s)).

Definition set_observers (c : resource_context) l := {| resource := resource c; observers := l; age := age c |}.
Definition set_age (c : resource_context) a := {| resource := resource c; observers := observers c; age := a |}.

(** The token of a packet as its bytes *)
Definition token_of (pkt : sol_coap_packet) : outcome (list Z) :=
  '(t, tkl) ← sol_coap_header_get_token pkt;
  match t with Some p => buf_load (buf pkt) p tkl | None => Ret [] end.

Definition match_reply (r : pending_reply) (pkt : sol_coap_packet) : outcome bool :=
  id ← sol_coap_header_get_id pkt;
  if observing r then t ← token_of pkt; Ret (bool_decide (t = reply_token r)) else Ret (reply_id r =? id).

Definition match_observe_reply (r : pending_reply) (token : list Z) : bool := observing r && bool_decide (token = reply_token r).

Section Operations.
Context `{BuildConfig} `{Allocator} `{CoapEnv} `{CoapProgram} `{ServerEnv}.

(** ** Sending *)

(** The write monitor is set on a socket that must exist. *)
Definition server_enqueue (s : sol_coap_server) (pid : Z) (header : option Z) (addr : Z) : outcome (Z * sol_coap_server) :=
  '(r, x) ← enqueue_packet (q s) pid header addr;
  if negb (r <? 0) && negb (socket s) then UB else Ret (r, set_q s x).

Definition server_unref (s : sol_coap_server) (pid : Z) : outcome sol_coap_server :=
  x ← packet_unref (q s) pid; Ret (set_q s x).

(** A packet is given to the server. *)
Definition take_packet (s : sol_coap_server) (p : sol_coap_packet) : Z * sol_coap_server :=
  let '(pid, x) := new_packet (q s) p in (pid, set_q s x).

(** Is the packet the start of an observation?  The first test is the error. *)
Definition is_observing (p : sol_coap_packet) : outcome (bool * bool) :=
  '(count, opts) ← sol_coap_find_options p SOL_COAP_OPTION_OBSERVE 1;
  if count <? 0 then Ret (true, false)
  else
    match opts with
    | [o] => if StrSlice.len o =? 1 then x ← data_at (buf p) o 0; Ret (false, x =? 0) else Ret (false, false)
    | _ => Ret (false, false)
    end.

(** The label [error]: what was made for the reply is freed. *)
Definition send_failed (s : sol_coap_server) (reply : option Z) (pid err : Z) : outcome (Z * sol_coap_server) :=
  s ← (match reply with Some rid => reentrant_free s rid | None => Ret s end);
  s ← server_unref s pid;
  Ret (err, s).

(** From the label [done] on *)
Definition send_done (s : sol_coap_server) (reply : option Z) (pid addr : Z) : outcome (Z * sol_coap_server) :=
  '(err, s) ← server_enqueue s pid None addr;
  if err <? 0 then send_failed s reply pid err
  else
    match reply with
    | None => s ← server_unref s pid; Ret (0, s)
    | Some rid =>
        let err := if blen (pending s) =? UINT16_MAX then - EOVERFLOW else if pending_memory s then 0 else - ENOMEM in
        if err <? 0 then send_failed s reply pid err
        else s ← server_unref (record (set_pending s (pending s ++ [rid])) (Awaited rid pid)) pid; Ret (0, s)
    end.

Definition sol_coap_send_packet_with_reply (s : sol_coap_server) (p : sol_coap_packet) (addr : Z) (reply_cb : option Z)
    : outcome (Z * sol_coap_server) :=
  let '(pid, s) := take_packet s p in
  '(bad, obs) ← is_observing p;
  if (bad : bool) then send_failed s None pid (- EINVAL)
  else
    match reply_cb with
    | None => if (obs : bool) then send_failed s None pid (- EINVAL) else send_done s None pid addr
    | Some cb =>
        token ← token_of p;
        if negb (reply_memory s) then send_failed s None pid (- ENOMEM)
        else
          id ← sol_coap_header_get_id p;
          let rid := next_id (q s) in
          let reply := {| reply_timeout := reply_timeout_memory s; cb := cb; reply_path := None; reply_pkt := pid; in_use := false;
                          delete_me := false; observing := obs; reply_id := id; reply_token := token |} in
          let s := set_reply (set_q s (set_next (q s) (rid + 1))) rid reply in
          if obs then
            m ← packet_extract_path p;
            match m with
            | inl err => send_failed s (Some rid) pid err
            | inr path =>
                let reply := {| reply_timeout := reply_timeout reply; cb := cb; reply_path := Some (CString.cstr path); reply_pkt := pid;
                                in_use := false; delete_me := false; observing := obs; reply_id := id; reply_token := token |} in
                send_done (set_reply s rid reply) (Some rid) pid addr
            end
          else send_done s (Some rid) pid addr
    end.

Definition sol_coap_send_packet (s : sol_coap_server) (p : sol_coap_packet) (addr : Z) : outcome (Z * sol_coap_server) :=
  sol_coap_send_packet_with_reply s p addr None.

(** A reply to [req] with a change to its header *)
Definition send_answer (s : sol_coap_server) (req : sol_coap_packet) (addr : Z)
    (change : sol_coap_packet -> outcome (Z * sol_coap_packet)) : outcome (Z * sol_coap_server) :=
  p ← sol_coap_packet_new (Some req);
  match p with
  | inl _ => Ret (- ENOMEM, s)
  | inr pkt => '(r, pkt) ← change pkt; if r <? 0 then Ret (r, s) else sol_coap_send_packet s pkt addr
  end.

Definition resource_not_found (s : sol_coap_server) (req : sol_coap_packet) (addr : Z) : outcome (Z * sol_coap_server) :=
  send_answer s req addr (fun pkt => sol_coap_header_set_code pkt SOL_COAP_RESPONSE_CODE_NOT_FOUND).

Definition send_reset_msg (s : sol_coap_server) (req : sol_coap_packet) (addr : Z) : outcome (Z * sol_coap_server) :=
  send_answer s req addr (fun pkt => sol_coap_header_set_type pkt SOL_COAP_MESSAGE_TYPE_RESET).

Definition send_unobserve_packet (s : sol_coap_server) (addr : Z) (path : option (list Z)) (token : list Z)
    : outcome (Z * sol_coap_server) :=
  '(id, p) ← sol_coap_packet_new_request (request_id s) SOL_COAP_METHOD_GET SOL_COAP_MESSAGE_TYPE_CON;
  let s := set_request s id in
  match p with
  | inl _ => Ret (- ENOMEM, s)
  | inr req =>
      '(r, req) ← sol_coap_header_set_token req token;
      if r <? 0 then Ret (- EINVAL, s)
      else
        '(r, req) ← sol_coap_add_option req SOL_COAP_OPTION_OBSERVE (Some [1]);
        if r <? 0 then Ret (- EINVAL, s)
        else
          match path with
          | None => Ret (- EINVAL, s)
          | Some path =>
              '(r, req) ← sol_coap_packet_add_uri_path_option req path;
              if r <? 0 then Ret (- EINVAL, s) else sol_coap_send_packet s req addr
          end
  end.

(** ** Replies that are pending *)

(** The walk over the pending replies of a cancelled packet, from the end
    down; the rest of [sol_coap_cancel_send_packet] *)
Fixpoint cancel_loop (s : sol_coap_server) (pid addr : Z) (i : nat) (count : Z) : outcome (Z * sol_coap_server) :=
  match i with
  | O => Ret (count, s)
  | S i =>
      match pending s !! i with
      | None => UB
      | Some rid =>
          r ← reply_at s rid;
          if negb (reply_pkt r =? pid) then cancel_loop s pid addr i count
          else
            s ← (if observing r
                 then '(_, s) ← send_unobserve_packet s addr (reply_path r) (reply_token r); Ret s
                 else Ret s);
            s ← reentrant_free s rid;
            cancel_loop s pid addr i (wrapu 16 (count + 1))
      end
  end.

Definition sol_coap_cancel_send_packet (s : sol_coap_server) (pid addr : Z) : outcome (Z * sol_coap_server) :=
  '(n, x) ← cancel_outgoing (q s) pid;
  let s := set_q s x in
  '(n, s) ← cancel_loop s pid addr (length (pending s)) (wrapu 16 n);
  Ret (if n =? 0 then - ENOENT else 0, s).

(** What a callback did before it returned *)
Fixpoint run_actions (s : sol_coap_server) (acts : list action) : outcome sol_coap_server :=
  match acts with
  | [] => Ret s
  | Send p addr cb :: acts => '(_, s) ← sol_coap_send_packet_with_reply s p addr cb; run_actions s acts
  | CancelPacket pid addr :: acts => '(_, s) ← sol_coap_cancel_send_packet s pid addr; run_actions s acts
  end.

(** [SOL_REENTRANT_CALL(reply->reentrant)] of the callback *)
Definition call_reply (s : sol_coap_server) (rid : Z) (response : option (sol_coap_packet * Z)) : outcome (bool * sol_coap_server) :=
  r ← reply_at s rid;
  let was_used := in_use r in
  let s := set_reply s rid (set_use r true (delete_me r)) in
  let '(acts, res) := reply_cb s (cb r) response in
  s ← run_actions (record s (Called rid response res)) acts;
  r ← reply_at s rid;
  Ret (res, set_reply s rid (set_use r was_used (delete_me r))).

Definition pending_timeout_cb (s : sol_coap_server) (rid : Z) : outcome (bool * sol_coap_server) :=
  '(res, s) ← call_reply s rid None;
  r ← reply_at s rid;
  if res && negb (delete_me r) then Ret (true, s) else s ← reentrant_free s rid; Ret (false, s).

Fixpoint unobserve_loop (s : sol_coap_server) (addr : Z) (token : list Z) (i : nat) : outcome (Z * sol_coap_server) :=
  match i with
  | O => Ret (- ENOENT, s)
  | S i =>
      match pending s !! i with
      | None => UB
      | Some rid =>
          r ← reply_at s rid;
          if negb (match_observe_reply r token) then unobserve_loop s addr token i
          else
            '(_, s) ← call_reply s rid None;
            r ← reply_at s rid;
            '(res, s) ← send_unobserve_packet s addr (reply_path r) token;
            s ← reentrant_free s rid;
            Ret (res, s)
      end
  end.

Definition sol_coap_unobserve_by_token (s : sol_coap_server) (addr : Z) (token : list Z) : outcome (Z * sol_coap_server) :=
  unobserve_loop s addr token (length (pending s)).

(** The replies that wait for the response [req], from the end down: was one
    found, and is the request to be taken from the queue? *)
Fixpoint answer_loop (s : sol_coap_server) (req : sol_coap_packet) (addr : Z) (i : nat) (found remove : bool)
    : outcome (bool * bool * sol_coap_server) :=
  match i with
  | O => Ret (found, remove, s)
  | S i =>
      match pending s !! i with
      | None => UB
      | Some rid =>
          r ← reply_at s rid;
          m ← match_reply r req;
          if negb m then answer_loop s req addr i found remove
          else
            '(res, s) ← call_reply s rid (Some (req, addr));
            r ← reply_at s rid;
            if negb (res : bool) then
              s ← (if observing r
                   then '(_, s) ← send_unobserve_packet s addr (reply_path r) (reply_token r); Ret s
                   else Ret s);
              s ← reentrant_free s rid;
              answer_loop s req addr i true remove
            else if negb (observing r) then answer_loop s req addr i true false
            else answer_loop (set_reply s rid (no_timeout r)) req addr i true remove
      end
  end.

(** ** Resources *)

Definition find_resource_cb (req : sol_coap_packet) (res : sol_coap_resource) : outcome (option Z) :=
  same ← uri_path_eq req (path res);
  if negb same then Ret None
  else
    '(_, code) ← sol_coap_header_get_code req;
    match code with
    | None => UB
    | Some c =>
        Ret (if c =? SOL_COAP_METHOD_GET then get res
             else if c =? SOL_COAP_METHOD_POST then post res
             else if c =? SOL_COAP_METHOD_PUT then put res
             else if c =? SOL_COAP_METHOD_DELETE then del res else None)
    end.

(** The place of the last observer with this address and token among the
    first [n] *)
Fixpoint find_observer (l : list resource_observer) (addr : Z) (token : list Z) (n : nat) : option nat :=
  match n with
  | O => None
  | S n =>
      match l !! n with
      | Some o => if bool_decide (obs_addr o = addr /\ obs_token o = token) then Some n else find_observer l addr token n
      | None => None
      end
  end.

(** The return value and the observers of the context *)
Definition register_observer (s : sol_coap_server) (c : resource_context) (req : sol_coap_packet) (addr observe : Z)
    : outcome (Z * resource_context) :=
  token ← token_of req;
  match find_observer (observers c) addr token (length (observers c)) with
  | Some i => Ret (0, if observe =? 1 then set_observers c (delete i (observers c)) else c)
  | None =>
      if negb (observer_memory s) then Ret (- ENOMEM, c)
      else if (blen (observers c) =? UINT16_MAX) || negb (observers_memory s) then Ret (- ENOMEM, c)
      else Ret (0, set_observers c (observers c ++ [{| obs_addr := addr; obs_token := token |}]))
  end.

(** The links of the resources from the offset on *)
Fixpoint well_known_loop (cs : list resource_context) (b : sol_buffer) (offset : Z) : outcome (Z * sol_buffer) :=
  match cs with
  | [] => Ret (0, b)
  | c :: cs =>
      let res := resource_at (resource c) in
      if Z.land (res_flags res) SOL_COAP_FLAGS_WELL_KNOWN =? 0 then well_known_loop cs b offset
      else
        '(r, b) ← sol_buffer_insert_char b offset 60;
        if r <? 0 then Ret (r, b)
        else
          let offset := wrapu 64 (offset + 1) in
          '(r, b, tmp) ← sol_coap_path_to_buffer (path res) b offset;
          if r <? 0 then Ret (r, b)
          else
            let offset := wrapu 64 (offset + tmp) in
            '(r, b) ← sol_buffer_insert_char b offset 62;
            if r <? 0 then Ret (r, b)
            else
              let offset := wrapu 64 (offset + 1) in
              '(r, b) ← sol_buffer_insert_char b offset 44;
              if r <? 0 then Ret (r, b) else well_known_loop cs b (wrapu 64 (offset + 1))
  end.

Definition well_known_get (s : sol_coap_server) (req : sol_coap_packet) (addr : Z) : outcome (Z * sol_coap_server) :=
  p ← sol_coap_packet_new (Some req);
  match p with
  | inl _ => Ret (- EINVAL, s)
  | inr resp =>
      '(r, resp) ← sol_coap_header_set_code resp SOL_COAP_RESPONSE_CODE_CONTENT;
      if r <? 0 then Ret (r, s)
      else
        '(r, resp, offset) ← sol_coap_packet_get_payload resp;
        if r <? 0 then Ret (r, s)
        else
          '(r, b) ← well_known_loop (contexts s) (buf resp) offset;
          let resp := set_buf resp b in
          '(_, resp) ← (if r <? 0 then sol_coap_header_set_code resp SOL_COAP_RESPONSE_CODE_INTERNAL_ERROR else Ret (0, resp));
          sol_coap_send_packet s resp addr
  end.

(** [.well-known/core] *)
Definition well_known : sol_coap_resource :=
  {| get := Some 0; post := None; put := None; del := None; res_flags := 0;
     path := [[46; 119; 101; 108; 108; 45; 107; 110; 111; 119; 110]; [99; 111; 114; 101]; []] |}.

(** A handler of the program *)
Definition call_handler (s : sol_coap_server) (h : Z) (req : sol_coap_packet) (addr : Z) : outcome (Z * sol_coap_server) :=
  let '(acts, r) := handler_cb s h req addr in
  s ← run_actions (record s (Handled h addr r)) acts;
  Ret (r, s).

(** The contexts from the index [i] on *)
Fixpoint dispatch_loop (s : sol_coap_server) (req : sol_coap_packet) (addr observe : Z) (cs : list resource_context) (i : nat)
    : outcome (Z * sol_coap_server) :=
  match cs with
  | [] =>
      match unknown_handler s with
      | Some h => call_handler s h req addr
      | None => resource_not_found s req addr
      end
  | c :: cs =>
      h ← find_resource_cb req (resource_at (resource c));
      match h with
      | None => dispatch_loop s req addr observe cs (S i)
      | Some h =>
          s ← (if 0 <=? observe then '(_, c) ← register_observer s c req addr observe; Ret (update_context s i c) else Ret s);
          call_handler s h req addr
      end
  end.

(** What comes in *)
Definition respond_packet (s : sol_coap_server) (req : sol_coap_packet) (addr : Z) : outcome (Z * sol_coap_server) :=
  ping ← is_coap_ping req;
  if (ping : bool) then send_reset_msg s req addr
  else
    '(_, code) ← sol_coap_header_get_code req;
    observe ← get_observe_option req;
    match code with
    | None => UB
    | Some code =>
        if negb (Z.land code (Z.lnot SOL_COAP_REQUEST_MASK) =? 0) then
          '(found, remove, s) ← answer_loop s req addr (length (pending s)) false true;
          s ← (if (remove : bool) then x ← remove_outgoing_confirmable_packet (q s) req; Ret (set_q s x) else Ret s);
          if (0 <=? observe) && negb found then send_reset_msg s req addr else Ret (0, s)
        else if code =? SOL_COAP_CODE_EMPTY then x ← remove_outgoing_confirmable_packet (q s) req; Ret (0, set_q s x)
        else
          h ← find_resource_cb req well_known;
          match h with
          | Some _ => well_known_get s req addr
          | None => dispatch_loop s req addr observe (contexts s) 0
          end
    end.

(** [received]: what the socket says, or the buffer it left and the address *)
Definition on_can_read (s : sol_coap_server) (received : Z + sol_buffer * Z) : outcome sol_coap_server :=
  p ← sol_coap_packet_new None;
  match p, received with
  | inl _, _ | _, inl _ => Ret s
  | inr pkt, inr (b, addr) =>
      '(err, pkt) ← coap_packet_parse (set_buf pkt b);
      if err <? 0 then Ret s else '(_, s) ← respond_packet s pkt addr; Ret s
  end.

(** ** Notifications *)

(** The header of a notification for the observer *)
Definition notification_header (pkt : sol_coap_packet) (o : resource_observer) : outcome (Z + sol_coap_packet) :=
  p ← sol_coap_packet_new None;
  match p with
  | inl _ => Ret (inl (- ENOMEM))
  | inr header =>
      '(_, code) ← sol_coap_header_get_code pkt;
      match code with
      | None => UB
      | Some code =>
          '(r, header) ← sol_coap_header_set_code header code;
          if r <? 0 then Ret (inl r)
          else
            type ← sol_coap_header_get_type pkt;
            '(r, header) ← sol_coap_header_set_type header type;
            if r <? 0 then Ret (inl r)
            else
              '(r, header) ← sol_coap_header_set_token header (obs_token o);
              Ret (if r <? 0 then inl r else inr header)
      end
  end.

(** The same packet for every observer, behind a header of its own *)
Fixpoint notify_loop (s : sol_coap_server) (pid : Z) (pkt : sol_coap_packet) (l : list resource_observer) (r : Z)
    : outcome (Z * sol_coap_server) :=
  match l with
  | [] => Ret (r, s)
  | o :: l =>
      h ← notification_header pkt o;
      match h with
      | inl r => Ret (r, s)
      | inr header =>
          let '(hid, s) := take_packet s header in
          '(r, s) ← server_enqueue s pid (Some hid) (obs_addr o);
          s ← server_unref s hid;
          if r <? 0 then Ret (r, s) else notify_loop s pid pkt l r
      end
  end.

(** A packet of the program for every observer *)
Fixpoint notify_by_callback_loop (s : sol_coap_server) (cb : Z) (l : list resource_observer) (r : Z) : outcome (Z * sol_coap_server) :=
  match l with
  | [] => Ret (r, s)
  | o :: l =>
      let '(r, p) := notification_cb s cb (obs_addr o) in
      if r =? - EPERM then notify_by_callback_loop s cb l r
      else if r <? 0 then Ret (r, s)
      else
        match p with
        | None => Ret (- EINVAL, s)
        | Some p =>
            '(r, p) ← sol_coap_header_set_token p (obs_token o);
            if r <? 0 then Ret (r, s)
            else
              let '(pid, s) := take_packet s p in
              '(r, s) ← server_enqueue s pid None (obs_addr o);
              s ← server_unref s pid;
              if r <? 0 then Ret (r, s) else notify_by_callback_loop s cb l r
        end
  end.

(** The observers of a resource *)
Definition observers_of (s : sol_coap_server) (res : Z) : option (list resource_observer) :=
  i ← find_context s res; observers <$> contexts s !! i.

Definition sol_coap_notify (s : sol_coap_server) (res : Z) (pkt : sol_coap_packet) : outcome (Z * sol_coap_server) :=
  let '(pid, s) := take_packet s pkt in
  '(r, s) ← (match observers_of s res with Some l => notify_loop s pid pkt l 0 | None => Ret (- ENOENT, s) end);
  s ← server_unref s pid;
  Ret (r, s).

Definition sol_coap_notify_by_callback (s : sol_coap_server) (res cb : Z) : outcome (Z * sol_coap_server) :=
  match observers_of s res with Some l => notify_by_callback_loop s cb l 0 | None => Ret (- ENOENT, s) end.

(** The age of a resource grows also when there is no memory for the packet. *)
Definition sol_coap_packet_new_notification (s : sol_coap_server) (res : Z) : outcome (option sol_coap_packet * sol_coap_server) :=
  match find_context s res with
  | None => Ret (None, s)
  | Some i =>
      match contexts s !! i with
      | None => UB
      | Some c =>
          let age' := wrapu 16 (age c + 1) in
          let age' := if age' =? UINT16_MAX then 2 else age' in
          let s := update_context s i (set_age c age') in
          p ← sol_coap_packet_new None;
          match p with
          | inl _ => Ret (None, s)
          | inr pkt =>
              '(r, pkt) ← sol_coap_header_set_type pkt SOL_COAP_MESSAGE_TYPE_NON_CON;
              if r <? 0 then Ret (None, s)
              else
                '(r, pkt) ← sol_coap_add_option pkt SOL_COAP_OPTION_OBSERVE (Some (le_bytes 2 (sol_util_cpu_to_be16 age')));
                Ret (if r <? 0 then None else Some pkt, s)
          end
      end
  end.

(** ** The server *)

Definition sol_coap_server_register_resource (s : sol_coap_server) (res : Z) : Z * sol_coap_server :=
  match find_context s res with
  | Some _ => (- EEXIST, s)
  | None =>
      if (blen (contexts s) =? UINT16_MAX) || negb (context_memory s) then (- ENOMEM, s)
      else (0, set_contexts s (contexts s ++ [{| resource := res; observers := []; age := 2 |}]))
  end.

(** From the end down *)
Fixpoint unregister_loop (s : sol_coap_server) (res : Z) (n : nat) : Z * sol_coap_server :=
  match n with
  | O => (- ENOENT, s)
  | S n =>
      match contexts s !! n with
      | Some c => if resource c =? res then (0, set_contexts s (delete n (contexts s))) else unregister_loop s res n
      | None => (- ENOENT, s)
      end
  end.

Definition sol_coap_server_unregister_resource (s : sol_coap_server) (res : Z) : Z * sol_coap_server :=
  unregister_loop s res (length (contexts s)).

Definition sol_coap_server_set_unknown_resource_handler (s : sol_coap_server) (h : option Z) : Z * sol_coap_server :=
  (0, set_unknown s h).

Fixpoint destroy_loop (s : sol_coap_server) (i : nat) : outcome sol_coap_server :=
  match i with
  | O => Ret s
  | S i =>
      match pending s !! i with
      | None => UB
      | Some rid => '(_, s) ← call_reply s rid None; s ← reentrant_free s rid; destroy_loop s i
      end
  end.

(** What the network tells: the groups of a new link are joined through the
    socket, which must exist.  What joining answers is ignored. *)
Definition network_event (s : sol_coap_server) (event flags : Z) : outcome sol_coap_server :=
  if negb (event =? SOL_NETWORK_LINK_ADDED) && negb (event =? SOL_NETWORK_LINK_CHANGED) then Ret s
  else if (Z.land flags SOL_NETWORK_LINK_RUNNING =? 0) && (Z.land flags SOL_NETWORK_LINK_MULTICAST =? 0) then Ret s
  else if negb (socket s) then UB
  else Ret s.

(** What is left when the memory of the server is given back.  The
    subscription to the events of the network stays. *)
Definition sol_coap_server_destroy (s : sol_coap_server) : outcome sol_coap_server :=
  let s := close_socket s in
  x ← destroy_outgoing (q s);
  let s := set_q s x in
  s ← destroy_loop s (length (pending s));
  Ret (set_contexts s []).
End Operations.
End CoapServer.
