(* ===== verification/CoapServerInv.v ===== *)
(** * A CoAP server: the invariant

    [server_inv]: the queue is in order and owns every packet, the pending
    replies are the ones that exist, a resource has one context and nobody is
    in the list of its observers twice.  What sending does to a server: it
    grows ([grown]), and calls nobody.  The invariant of the queue names the
    message of every packet; here the messages are those of the packets that
    exist so far, and later ones agree with them ([agree]). *)

From S2P Require Import Prelude Arith Str Codec Buffer Coap CoapProofs CoapBuild CoapRequest CoapQueue CoapQueueProofs CoapServer.
Import Buffer Coap CoapProofs CoapBuild CoapRequest CoapQueue CoapQueueProofs CoapServer.

#[local] Open Scope Z_scope.

Module CoapServerInv.

(** ** The messages of a queue

    The invariant of the queue names the message of every packet; new packets
    get theirs while the queue is at work.  That needs that the log speaks of
    packets only that exist already. *)

Definition below (n : Z) (e : event) : Prop :=
  match e with Enqueued _ pid h _ => pid < n /\ (forall x, h = Some x -> x < n) | _ => True end.

Definition not_enqueued (e : event) : Prop := match e with Enqueued _ _ _ _ => False | _ => True end.

(** What happened meanwhile put no entry into the queue. *)
Definition quiet (x y : queue) : Prop := (exists es, log y = log x ++ es /\ Forall not_enqueued es) /\ next_id y = next_id x.

Lemma quiet_refl x : quiet x x.
Proof. split; [|done]. exists []. by rewrite app_nil_r. Qed.

Lemma quiet_trans x y z : quiet x y -> quiet y z -> quiet x z.
Proof.
  intros [(es & He & Hes) Hn] [(es' & He' & Hes') Hn']. split; [|congruence].
  exists (es ++ es'). rewrite He', He, <- app_assoc. split; [done|]. by apply Forall_app.
Qed.

Lemma quiet_note x e : not_enqueued e -> quiet x (note x e).
Proof. intros He. split; [|done]. exists [e]. split; [done|by constructor]. Qed.

Lemma quiet_same x y : log y = log x -> next_id y = next_id x -> quiet x y.
Proof. intros Hl Hn. split; [|done]. exists []. by rewrite app_nil_r. Qed.

Lemma quiet_below x y : quiet x y -> Forall (below (next_id x)) (log x) -> Forall (below (next_id y)) (log y).
Proof.
  intros [(es & -> & Hes) ->] Hb. apply Forall_app. split; [done|]. eapply Forall_impl; [exact Hes|]. by intros [].
Qed.

Create HintDb quiet.
#[export] Hint Resolve quiet_refl quiet_note quiet_same : quiet.

Lemma unref_quiet x pid y : packet_unref x pid = Ret y -> quiet x y.
Proof.
  unfold packet_unref. intros (p & _ & Hp)%bind_Ret_inv. destruct (sol_coap_packet_unref p); injection Hp as <-; [by apply quiet_same|].
  split; [|done]. exists [Freed pid]. split; [done|by constructor].
Qed.

Lemma free_quiet x oid y : outgoing_free x oid = Ret y -> quiet x y.
Proof.
  unfold outgoing_free. intros (o & _ & (x2 & Hx2 & (x3 & Hx3 & [= <-])%bind_Ret_inv)%bind_Ret_inv)%bind_Ret_inv.
  apply (quiet_trans _ (if o_timeout o then note x (Stopped oid) else x)); [destruct (o_timeout o); auto with quiet; by apply quiet_note|].
  apply (quiet_trans _ x2); [exact (unref_quiet _ _ _ Hx2)|]. apply (quiet_trans _ x3).
  - destruct (o_header o); [exact (unref_quiet _ _ _ Hx3)|]. injection Hx3 as <-. apply quiet_refl.
  - split; [|done]. exists [Removed oid]. split; [done|by constructor].
Qed.

Lemma remove_quiet matches once x i n r y : remove_loop matches once x i n = Ret (r, y) -> quiet x y.
Proof.
  revert x n. induction i as [|i IH]; intros x n; cbn [remove_loop]; [intros [= _ <-]; apply quiet_refl|].
  destruct (vec x !! i) as [oid|]; [|done]. intros (o & _ & (m & _ & Hm)%bind_Ret_inv)%bind_Ret_inv.
  destruct m; cbn [negb] in Hm; [|by eapply IH]. apply bind_Ret_inv in Hm as (x1 & Hx1 & Hm).
  assert (quiet x x1) as Hq.
  { apply (quiet_trans _ (set_vec x (delete i (vec x)))); [by apply quiet_same|by eapply free_quiet]. }
  destruct once; [by injection Hm as _ <-|]. apply (quiet_trans _ _ _ Hq). by eapply IH.
Qed.

Section Queue.
Context `{BuildConfig} `{Allocator} `{CoapEnv}.

Lemma timeout_expired_quiet x oid b y : timeout_expired x oid = Ret (b, y) -> quiet x y.
Proof.
  unfold timeout_expired.
  intros (o & _ & (p & _ & (ty & _ & Hy)%bind_Ret_inv)%bind_Ret_inv)%bind_Ret_inv.
  destruct (negb _); [injection Hy as _ <-; apply quiet_refl|].
  apply bind_Ret_inv in Hy as (t & _ & (c & _ & Hy)%bind_Ret_inv). cbv zeta in Hy.
  destruct (if _ >? _ then _ else None) as [i|]; apply bind_Ret_inv in Hy as (x1 & Hx1 & [= _ <-]).
  - eapply quiet_trans; [|by eapply free_quiet]. by apply quiet_same.
  - unfold add_timeout in Hx1. apply bind_Ret_inv in Hx1 as (o' & _ & [= <-]). destruct (timeout_memory _); [|by apply quiet_same].
    split; [|done]. exists [Waiting oid t]. split; [done|by constructor].
Qed.

Lemma pick_loop_quiet x fuel n y : pick_loop x fuel = Ret (n, y) -> quiet x y.
Proof.
  revert x. induction fuel as [|fuel IH]; intros x; [done|]. cbn [pick_loop]. intros (m & _ & Hm)%bind_Ret_inv.
  destruct m as [[idx oid]|]; [|injection Hm as _ <-; apply quiet_refl].
  apply bind_Ret_inv in Hm as ([e x1] & He & Hm). apply timeout_expired_quiet in He.
  destruct e; [|by injection Hm as _ <-]. apply (quiet_trans _ _ _ He). by apply IH.
Qed.

Lemma writable_quiet x y : writable x = Ret y -> quiet x y.
Proof.
  unfold writable, on_can_write. intros ([keep x1] & Hx1 & [= <-])%bind_Ret_inv.
  apply (quiet_trans _ x1); [|by apply quiet_same].
  case_bool_decide; [injection Hx1 as _ <-; apply quiet_refl|]. apply bind_Ret_inv in Hx1 as ([n x2] & Hn & Hx1).
  apply pick_loop_quiet in Hn. apply (quiet_trans _ _ _ Hn). destruct n as [[idx oid]|]; [|injection Hx1 as _ <-; apply quiet_refl].
  unfold send_picked in Hx1.
  apply bind_Ret_inv in Hx1 as (o & _ & (p & _ & (hd & _ & ([e b] & _ & Hx1)%bind_Ret_inv)%bind_Ret_inv)%bind_Ret_inv).
  destruct (negb _); [injection Hx1 as _ <-; apply quiet_refl|]. apply bind_Ret_inv in Hx1 as (bs & _ & Hx1). cbv zeta in Hx1.
  set (x3 := note x2 _) in *. assert (quiet x2 x3) as Hq by (by apply quiet_note). apply (quiet_trans _ _ _ Hq).
  destruct (_ && _); [injection Hx1 as _ <-; apply quiet_refl|]. destruct (_ <? 0); [injection Hx1 as _ <-; apply quiet_refl|].
  apply bind_Ret_inv in Hx1 as (x4 & Hx4 & [= _ <-]). destruct (negb (o_timeout o)); [|injection Hx4 as <-; apply quiet_refl].
  eapply quiet_trans; [|by eapply free_quiet]. by apply quiet_same.
Qed.
End Queue.

(** ** Queues in order *)

(** The messages agree on what exists. *)
Definition agree (n : Z) (ms ms' : Z -> message) : Prop := forall id, id < n -> ms' id = ms id.

Lemma agree_refl n ms : agree n ms ms.
Proof. by intros id. Qed.

Lemma agree_trans n n' ms ms' ms'' : n <= n' -> agree n ms ms' -> agree n' ms' ms'' -> agree n ms ms''.
Proof. intros Hn Ha Ha' id Hid. rewrite Ha' by lia. by apply Ha. Qed.

Definition with_message (ms : Z -> message) (pid : Z) (m : message) : Z -> message :=
  fun id => if decide (id = pid) then m else ms id.

Lemma with_message_same ms pid m : with_message ms pid m pid = m.
Proof. unfold with_message. by rewrite decide_True. Qed.

Lemma with_message_agree ms n m : agree n ms (with_message ms n m).
Proof. intros id Hid. unfold with_message. by rewrite decide_False by lia. Qed.

Section Orderly.
Context `{BuildConfig} `{Allocator} `{CoapEnv}.

Lemma life_enqueued ms oid o tr : life ms oid o tr -> Enqueued oid (o_pkt o) (o_header o) (cliaddr o) ∈ tr.
Proof. induction 1 as [|o tr armed es _ IH|o tr es _ IH|o tr _ IH]; cbn; rewrite ?elem_of_app, ?list_elem_of_singleton; auto. Qed.

Lemma life_agree n ms ms' oid o tr : agree n ms ms' -> o_pkt o < n -> (forall h, o_header o = Some h -> h < n) ->
  life ms oid o tr -> life ms' oid o tr.
Proof.
  intros Ha Hp Hh Hl. revert Hp Hh.
  assert (forall o, o_pkt o < n -> (forall h, o_header o = Some h -> h < n) -> wire ms' o = wire ms o /\ ms' (o_pkt o) = ms (o_pkt o)) as Hw.
  { intros x Hp Hh. split; [|by apply Ha]. unfold wire. destruct (o_header x) as [h|]; rewrite ?Ha; auto. }
  assert (forall o es, o_pkt o < n -> (forall h, o_header o = Some h -> h < n) -> sending ms oid o es -> sending ms' oid o es) as Hs.
  { intros x es Hp Hh [?|(r & ->)]; [by left|right]. exists r. by destruct (Hw x) as [-> _]. }
  assert (forall o, o_pkt o < n -> (forall h, o_header o = Some h -> h < n) -> confirmable ms' o <-> confirmable ms o) as Hc.
  { intros x Hp Hh. unfold confirmable. by destruct (Hw x) as [_ ->]. }
  induction Hl as [pid h addr|o tr armed es _ IH Hcon Ht Hct Hmem Hse|o tr es _ IH Hcon Hse|o tr _ IH Ht]; intros Hp Hh.
  - apply life_new.
  - apply life_attempt; [by apply IH|by apply Hc|done|done|done|by apply Hs].
  - apply life_send; [by apply IH|by rewrite Hc|by apply Hs].
  - apply life_fire; [by apply IH|done].
Qed.

Lemma ended_agree n ms ms' oid why tr : agree n ms ms' -> Forall (below n) tr -> ended ms oid why tr -> ended ms' oid why tr.
Proof.
  intros Ha Hb Hend.
  assert (forall o tr', life ms oid o tr' -> (forall e, e ∈ tr' -> e ∈ tr) -> life ms' oid o tr' /\ (confirmable ms' o <-> confirmable ms o)) as Hl.
  { intros o tr' Hlife Hin. pose proof (Hin _ (life_enqueued _ _ _ _ Hlife)) as He. rewrite Forall_forall in Hb.
    destruct (Hb _ He) as [Hp Hh]. split; [by apply (life_agree n ms)|]. unfold confirmable. by rewrite Ha. }
  destruct Hend as [o tr Hlife Hcon Ht Hc|o tr tr' bs a r Hlife Ht Htr Hr|o tr Hlife]; (destruct (Hl o tr Hlife) as [Hlife' Hc']; [intros; apply elem_of_app; by left|]).
  - apply (ended_exhausted ms' oid o); [done|by apply Hc'|done|done].
  - by eapply (ended_delivered ms').
  - by apply (ended_withdrawn ms' oid o).
Qed.

Lemma queue_inv_agree ms ms' ext x : agree (next_id x) ms ms' -> queue_inv ms ext x -> Forall (below (next_id x)) (log x) ->
  queue_inv ms' ext x.
Proof.
  intros Ha Hq Hb. pose proof Hq as [Hnd Hls Hlen Hown Hheap Hfr Hlv Hen].
  assert (forall oid, Forall (below (next_id x)) (trace oid (log x))) as Htr.
  { intros oid. apply Forall_forall. intros e [_ He]%list_elem_of_filter. by eapply Forall_forall in Hb. }
  split; try done.
  - intros pid. specialize (Hheap pid). destruct (packets x !! pid) as [p|]; [|done]. destruct Hheap as (Hr & Hc & Hm).
    split_and!; [done|done|]. rewrite Ha; [done|]. destruct (Z.lt_ge_cases pid (next_id x)) as [?|Hge]; [done|].
    destruct (Hfr _ Hge) as [? _]. lia.
  - intros oid o Ho. specialize (Hlv _ _ Ho). pose proof (life_enqueued _ _ _ _ Hlv) as He.
    destruct (proj1 (Forall_forall _ _) (Htr oid) _ He) as [Hp Hh]. by apply (life_agree (next_id x) ms).
  - intros oid Ho. destruct (Hen oid Ho) as [?|(w & Hw)]; [by left|right]. exists w. by apply (ended_agree (next_id x) ms).
Qed.

(** A queue whose packets others own as [ext] says *)
Definition orderly (ms : Z -> message) (ext : Z -> Z) (x : queue) : Prop :=
  queue_inv ms ext x /\ awake x /\ Forall (below (next_id x)) (log x).

Lemma orderly_ext ms ext ext' x : (forall id, ext' id = ext id) -> orderly ms ext x -> orderly ms ext' x.
Proof.
  intros He ([Hnd Hls Hlen Hown Hheap Hfr Hlv Hen] & Hw & Hb). split_and!; [|done|done]. split; try done.
  - intros pid. by rewrite He.
  - eapply heap_ext; [|exact Hheap]. intros id. by rewrite He.
  - intros id. rewrite He. auto.
Qed.

Lemma orderly_new ms ext x p m : orderly ms ext x -> holds p m -> refcnt p = 1 ->
  let pid := next_id x in
  orderly (with_message ms pid m) (fun id => ext id + one pid id) (new_packet x p).2.
Proof.
  intros (Hq & Hw & Hb) Hp Hr pid. split_and!.
  - apply new_packet_spec; [|by rewrite with_message_same|done]. eapply queue_inv_agree; [apply with_message_agree|done|done].
  - exact Hw.
  - cbn. eapply Forall_impl; [exact Hb|]. intros []; cbn; try done. intros [? Hh]. split; [lia|]. intros y Hy. specialize (Hh y Hy). lia.
Qed.

Lemma orderly_bump ms ext x : orderly ms ext x -> orderly ms ext (set_next x (next_id x + 1)).
Proof.
  intros (Hq & Hw & Hb). split_and!; [|done|].
  - destruct Hq as [Hnd Hls Hlen Hown Hheap Hfr Hlv Hen]. split; cbn; try done. intros id Hid. apply Hfr. lia.
  - cbn. eapply Forall_impl; [exact Hb|]. intros []; cbn; try done. intros [? Hh]. split; [lia|]. intros y Hy. specialize (Hh y Hy). lia.
Qed.

Lemma orderly_owned ms ext x pid : orderly ms ext x -> 1 <= ext pid -> pid < next_id x.
Proof.
  intros (Hq & _) He. destruct (Z.lt_ge_cases pid (next_id x)) as [?|Hge]; [done|].
  destruct (inv_fresh _ _ _ Hq _ Hge) as [Hz _]. pose proof (held_range (outs x) (vec x) pid). lia.
Qed.

(** An entry at the end of the queue *)
Definition added (x y : queue) (pid : Z) (header : option Z) (addr : Z) : Prop :=
  exists oid, vec y = vec x ++ [oid] /\ outs y = <[oid := {| o_pkt := pid; o_header := header; o_timeout := false; cliaddr := addr; counter := 0 |}]> (outs x)
    /\ outs x !! oid = None /\ next_id x <= oid.

Lemma orderly_enqueue ms ext x pid header addr : orderly ms ext x -> 1 <= ext pid -> (forall h, header = Some h -> 1 <= ext h) ->
  exists r y, enqueue_packet x pid header addr = Ret (r, y) /\ orderly ms ext y /\ next_id x <= next_id y /\ log x `prefix_of` log y
    /\ (r < 0 /\ y = x /\ no_room x \/ r = 0 /\ added x y pid header addr).
Proof.
  intros Ho Hp Hh. pose proof Ho as (Hq & Hw & Hb). destruct (enqueue_spec ms ext x pid header addr Hq Hp Hh) as (r & y & Hrun & Hq' & Hcase).
  exists r, y. split; [done|]. destruct Hcase as [(Hr & -> & Hn)|(-> & Hv & Hl & Hm)]; [split_and!; auto; done|].
  assert (next_id y = next_id x + 1 /\ outs y = <[next_id x := {| o_pkt := pid; o_header := header; o_timeout := false; cliaddr := addr; counter := 0 |}]> (outs x))
    as [Hn Hou].
  { revert Hrun. unfold enqueue_packet. destruct (negb (entry_memory (log x))); [intros [= ? <-]; done|]. cbv zeta.
    destruct (_ <? 0) eqn:Hlt; [intros [= Hz _]; by rewrite Hz in Hlt|].
    intros (x1 & Hx1 & (x2 & Hx2 & [= <-])%bind_Ret_inv)%bind_Ret_inv.
    unfold packet_ref in Hx1. apply bind_Ret_inv in Hx1 as (p1 & _ & (p2 & _ & [= <-])%bind_Ret_inv).
    destruct header as [h|]; [|by injection Hx2 as <-].
    unfold packet_ref in Hx2. by apply bind_Ret_inv in Hx2 as (p3 & _ & (p4 & _ & [= <-])%bind_Ret_inv). }
  split_and!; [|lia|rewrite Hl; by eexists|right; split; [done|]].
  - split_and!; [done|by left|]. rewrite Hl, Hn. apply Forall_app. split.
    + eapply Forall_impl; [exact Hb|]. intros []; cbn; try done. intros [? Hhh]. split; [lia|]. intros z Hz. specialize (Hhh z Hz). lia.
    + constructor; [|done]. cbn. pose proof (orderly_owned _ _ _ pid Ho Hp). split; [lia|]. intros h ->.
      pose proof (orderly_owned _ _ _ h Ho (Hh h eq_refl)). lia.
  - exists (next_id x). split_and!; [done|done| |done]. apply (inv_fresh _ _ _ Hq). lia.
Qed.

Lemma orderly_unref ms ext x pid : orderly ms ext x -> 1 <= ext pid ->
  exists y, packet_unref x pid = Ret y /\ orderly ms (fun id => ext id - one pid id) y /\ vec y = vec x /\ outs y = outs x
    /\ next_id y = next_id x /\ log x `prefix_of` log y.
Proof.
  intros (Hq & Hw & Hb) Hp. destruct (packet_unref_spec ms ext x pid Hq Hp) as (ps & es & Hrun & _ & Hq').
  exists (notes (set_packets x ps) es). split_and!; [done| |done..|by exists es]. split_and!; [done|exact Hw|].
  by apply (quiet_below x); [eapply unref_quiet|].
Qed.
End Orderly.

(** ** Packets for the server *)

(** An observation is asked for by the single byte 0. *)
Definition observes (m : message) : bool := bool_decide (head (values SOL_COAP_OPTION_OBSERVE (m_options m)) = Some [0]).

(** A packet that its receiver can read; an observation has a path that can
    be written and read again. *)
Record proper (p : sol_coap_packet) (m : message) : Prop := {
  proper_holds : holds p m;
  proper_refs : refcnt p = 1;
  proper_readable : readable_options 0 (m_options m);
  proper_short : blen (encode m) <= INT16_MAX;
  proper_path : observes m = true ->
    Forall plain_segment (values SOL_COAP_OPTION_URI_PATH (m_options m)) /\ blen (encode m) <= 32000
}.

Lemma holds_datagram p m : holds p m -> datagram (buf p) (encode m).
Proof. intros (Hwf & Hrep & Hs). split; [done|by apply encode_bytes|lia]. Qed.

Lemma token_of_spec p m : header_is p m -> token_of p = Ret (m_token m).
Proof.
  intros Hp. destruct (header_getters _ _ Hp) as (_ & _ & _ & _ & Hk & Hl). unfold token_of. rewrite Hk, bind_ret.
  destruct (Z.eqb_spec (blen (m_token m)) 0) as [Hz|]; [by rewrite (blen_zero_nil _ Hz)|exact Hl].
Qed.

Lemma proper_header p m : proper p m -> header_is p m.
Proof. intros Hp. by apply holds_header, Hp. Qed.

Lemma data_at_spec b l s x v : rep b l -> Forall is_byte l -> spans l s (x :: v) -> data_at b s 0 = Ret (wraps 8 x) /\ is_byte x.
Proof.
  intros Hrep Hb (y & z & -> & ->). unfold data_at. cbn [StrSlice.off]. split.
  - rewrite Z.add_0_r. destruct (buf_rep_storage _ _ Hrep) as (rest & -> & _ & _).
    rewrite (at_index_some _ _ x); [by rewrite bind_ret|apply blen_nonneg|].
    rewrite blen_to_nat, <- app_assoc, lookup_app_r, Nat.sub_diag by done. done.
  - apply Forall_app in Hb as [_ Hb]. by apply Forall_cons_1 in Hb as [? _].
Qed.

Lemma observing_spec p m : holds p m -> readable_options 0 (m_options m) -> blen (encode m) <= INT16_MAX ->
  is_observing p = Ret (false, observes m).
Proof.
  intros Hp Hread Hs. pose proof (holds_datagram _ _ Hp) as Hdg. destruct Hp as (Hwf & Hrep & _).
  pose proof (packet_encode m Hwf Hread) as Hpb.
  destruct (options_find_spec p _ _ _ _ SOL_COAP_OPTION_OBSERVE 1 Hdg Hs Hpb ltac:(lia)) as (ss & Hf & Hss).
  unfold is_observing, observes. rewrite Hf, bind_ret, (proj2 (Z.ltb_ge _ 0)) by apply blen_nonneg.
  destruct (values SOL_COAP_OPTION_OBSERVE (m_options m)) as [|v vs]; cbn [head].
  { change (take (Z.to_nat 1) []) with (@nil (list Z)) in Hss. inversion Hss; subst. by rewrite bool_decide_false. }
  change (take (Z.to_nat 1) (v :: vs)) with [v] in Hss. inversion Hss as [|o ? ? ? Ho Hn]; subst. inversion Hn; subst.
  assert (StrSlice.len o = blen v) as Hlen by (by destruct Ho as (? & ? & _ & ->)). rewrite Hlen.
  destruct v as [|x [|y v]].
  - cbn. by rewrite bool_decide_false.
  - change (blen [x] =? 1) with true. cbv iota. destruct (data_at_spec _ _ _ _ _ Hrep (datagram_bytes _ _ Hdg) Ho) as [-> Hx].
    rewrite bind_ret. f_equal. f_equal. unfold is_byte in Hx. unfold wraps. case_bool_decide as Hv.
    + by injection Hv as ->.
    + apply Z.eqb_neq. intros Hz. apply Hv. repeat f_equal. dlia.
  - rewrite !blen_cons, (proj2 (Z.eqb_neq _ 1)) by (pose proof (blen_nonneg v); lia). by rewrite bool_decide_false.
Qed.

Lemma proper_observing p m : proper p m -> is_observing p = Ret (false, observes m).
Proof. intros [? _ ? ? _]. by apply observing_spec. Qed.

(** *** Paths that go out again *)

Record path_ok (segs : list (list Z)) : Prop := {
  path_plain : Forall plain_segment segs;
  path_readable : Forall (fun s => readable (blen s) /\ blen s < 65536 /\ Forall is_byte s) segs;
  path_some : segs <> [];
  path_few : (length segs <= 16)%nat;
  path_short : blen (path_text segs) <= 32000
}.

Lemma path_text_values n prev os : blen (path_text (values n os)) <= blen (encode_options prev os).
Proof.
  revert prev. induction os as [|[n' v] os IH]; intros prev; [by vm_compute|]. cbn [encode_options]. unfold option_bytes.
  specialize (IH n'). unfold values. pose proof (blen_nonneg v). pose proof (blen_ext (n' - prev)). pose proof (blen_ext (blen v)).
  rewrite blen_app, blen_cons, !blen_app. rewrite filter_cons. case_decide.
  - fold (values n os). change (path_text (snd <$> (n', v) :: ?l)) with (47 :: v ++ path_text (snd <$> l)). fold (values n os). rewrite blen_cons, blen_app. lia.
  - fold (values n os). lia.
Qed.

Lemma path_text_take n segs : blen (path_text (take n segs)) <= blen (path_text segs).
Proof.
  revert n. induction segs as [|s segs IH]; intros [|n]; cbn [take firstn]; [done|done|apply blen_nonneg|].
  specialize (IH n). change (blen (47 :: s ++ path_text (take n segs)) <= blen (47 :: s ++ path_text segs)). rewrite !blen_cons, !blen_app. lia.
Qed.

Lemma values_ok n prev os : ordered prev os -> readable_options prev os ->
  Forall (fun s => readable (blen s) /\ blen s < 65536 /\ Forall is_byte s) (values n os).
Proof.
  revert prev. induction os as [|[n' v] os IH]; intros prev; [constructor|]. cbn [ordered readable_options].
  intros (_ & Hv & Hb & Ho) (_ & Hl & Hr). unfold values. rewrite filter_cons. case_decide; [constructor|]; [done| |]; by apply (IH n').
Qed.

Lemma proper_extract `{BuildConfig} `{Allocator} p m : proper p m -> observes m = true ->
  exists x, packet_extract_path p = Ret x
    /\ match x with inl r => r < 0 | inr text => exists segs, CString.cstr text = path_text segs /\ path_ok segs end.
Proof.
  intros [Hp _ Hread Hs Hpath] Ho. destruct (Hpath Ho) as [Hplain Hlen]. pose proof Hp as (Hwf & Hrep & _).
  pose proof (path_text_take 16 (values SOL_COAP_OPTION_URI_PATH (m_options m))) as Hle.
  pose proof (path_text_values SOL_COAP_OPTION_URI_PATH 0 (m_options m)) as Hle2.
  assert (blen (encode_options 0 (m_options m)) <= blen (encode m)) as Hle3.
  { unfold encode. rewrite !blen_app. pose proof (blen_nonneg (encode_header m)). pose proof (blen_nonneg (encode_payload (m_payload m))). lia. }
  destruct (extract_path_spec p _ _ _ _ (holds_datagram _ _ Hp) Hs (packet_encode m Hwf Hread)) as (x & Hx & Hcase).
  { by apply Forall_take. }
  { lia. }
  exists x. split; [exact Hx|]. destruct x as [r|text]; [done|]. destruct Hcase as [Ht Hne].
  exists (take 16 (values SOL_COAP_OPTION_URI_PATH (m_options m))). split; [done|]. split; [by apply Forall_take| |done| |lia].
  - apply Forall_take, (values_ok _ 0); [by apply wf_options|done].
  - rewrite length_take. lia.
Qed.

(** ** The invariant of a server *)

(** The references its functions own while they run *)
Fixpoint owned (pids : list Z) (x : Z) : Z :=
  match pids with [] => 0 | pid :: pids => one pid x + owned pids x end.

Definition token_ok (t : list Z) : Prop := blen t <= 8 /\ Forall is_byte t.

Lemma wf_token_ok m : wf_message m -> token_ok (m_token m).
Proof. intros []. by split. Qed.

(** A reply is in use while its callback runs, [busy]; it was made right
    behind its packet. *)
Record reply_ok (busy : option Z) (n rid : Z) (r : pending_reply) : Prop := {
  reply_old : rid < n;
  reply_used : in_use r = bool_decide (busy = Some rid);
  reply_asked : reply_pkt r = rid - 1;
  reply_tokens : token_ok (reply_token r);
  reply_paths : observing r = true -> exists segs, reply_path r = Some (path_text segs) /\ path_ok segs
}.

Record replies_ok (busy : option Z) (n : Z) (pend : list Z) (rs : gmap Z pending_reply) : Prop := {
  replies_distinct : NoDup pend;
  replies_listed rid : rid ∈ pend <-> is_Some (rs !! rid);
  replies_length : blen pend <= UINT16_MAX;
  replies_each rid r : rs !! rid = Some r -> reply_ok busy n rid r
}.

Record context_ok (c : resource_context) : Prop := {
  context_observers : NoDup (observers c);
  context_tokens : Forall (fun o => token_ok (obs_token o)) (observers c);
  context_length : blen (observers c) <= UINT16_MAX;
  context_age : 2 <= age c < UINT16_MAX
}.

(** A resource has one context. *)
Record contexts_ok (cs : list resource_context) : Prop := {
  contexts_distinct : NoDup (resource <$> cs);
  contexts_length : blen cs <= UINT16_MAX;
  contexts_each : Forall context_ok cs
}.

Section Invariant.
Context `{BuildConfig} `{Allocator} `{CoapEnv}.

Record server_inv (ms : Z -> message) (busy : option Z) (pids : list Z) (s : sol_coap_server) : Prop := {
  server_queue : orderly ms (owned pids) (q s);
  server_replies : replies_ok busy (next_id (q s)) (pending s) (replies s);
  server_contexts : contexts_ok (contexts s);
  server_busy b : busy = Some b -> is_Some (replies s !! b)
}.

(** The calls of callbacks an event log tells of *)
Definition is_call (e : server_event) : Prop := match e with Called _ _ _ | Handled _ _ _ => True | _ => False end.

#[global] Instance is_call_dec e : Decision (is_call e).
Proof. destruct e; cbn; apply _. Defined.

Definition calls (es : list server_event) : list server_event := filter is_call es.

Lemma calls_app es es' : calls (es ++ es') = calls es ++ calls es'.
Proof. apply filter_app. Qed.

(** The queue only gets longer, the resources stay. *)
Record steady (ms : Z -> message) (s : sol_coap_server) (ms' : Z -> message) (s' : sol_coap_server) : Prop := {
  steady_agree : agree (next_id (q s)) ms ms';
  steady_next : next_id (q s) <= next_id (q s');
  steady_vec : vec (q s) `prefix_of` vec (q s');
  steady_outs oid o : outs (q s) !! oid = Some o -> outs (q s') !! oid = Some o;
  steady_log : log (q s) `prefix_of` log (q s');
  steady_contexts : contexts s' = contexts s;
  steady_unknown : unknown_handler s' = unknown_handler s;
  steady_socket : socket s' = socket s;
  steady_subscribed : subscribed s' = subscribed s
}.

(** What the calls [es] do, and sending in particular: the server grows. *)
Record grew (es : list server_event) (ms : Z -> message) (s : sol_coap_server) (ms' : Z -> message) (s' : sol_coap_server) : Prop := {
  grown_steady : steady ms s ms' s';
  grown_pending : pending s `prefix_of` pending s';
  grown_replies rid : rid < next_id (q s) -> replies s' !! rid = replies s !! rid;
  grown_calls : calls (events s') = calls (events s) ++ es
}.

Definition grown := grew [].

Lemma steady_refl ms s : steady ms s ms s.
Proof. by split. Qed.

Lemma steady_trans ms s ms' s' ms'' s'' : steady ms s ms' s' -> steady ms' s' ms'' s'' -> steady ms s ms'' s''.
Proof.
  intros [Ha Hn Hv Ho Hl Hc Hu Hs Hw] [Ha' Hn' Hv' Ho' Hl' Hc' Hu' Hs' Hw']. split; try congruence; [by eapply agree_trans|lia|by etrans|auto|by etrans].
Qed.

Lemma grown_refl ms s : grown ms s ms s.
Proof. split; [apply steady_refl|done|done|by rewrite app_nil_r]. Qed.

Lemma grew_trans es es' ms s ms' s' ms'' s'' : grew es ms s ms' s' -> grew es' ms' s' ms'' s'' -> grew (es ++ es') ms s ms'' s''.
Proof.
  intros [Hs Hp Hr He] [Hs' Hp' Hr' He']. split; [by eapply steady_trans|by etrans| |].
  - intros rid Hrid. pose proof (steady_next _ _ _ _ Hs). rewrite Hr' by lia. by apply Hr.
  - by rewrite He', He, app_assoc.
Qed.

Lemma grown_trans ms s ms' s' ms'' s'' : grown ms s ms' s' -> grown ms' s' ms'' s'' -> grown ms s ms'' s''.
Proof. apply (grew_trans [] []). Qed.

Lemma grown_next es ms s ms' s' : grew es ms s ms' s' -> next_id (q s) <= next_id (q s').
Proof. intros Hg. apply Hg. Qed.

(** A change of the queue only *)
Lemma grown_queue ms ms' s y : agree (next_id (q s)) ms ms' -> next_id (q s) <= next_id y -> vec (q s) `prefix_of` vec y ->
  (forall oid o, outs (q s) !! oid = Some o -> outs y !! oid = Some o) -> log (q s) `prefix_of` log y -> grown ms s ms' (set_q s y).
Proof. intros. split; [by split|done|done|by rewrite app_nil_r]. Qed.

Lemma replies_later busy n n' pend rs : n <= n' -> replies_ok busy n pend rs -> replies_ok busy n' pend rs.
Proof.
  intros Hn [Hd Hl Hlen He]. split; try done. intros rid r Hr. destruct (He _ _ Hr) as [Ho Hu Ha Ht Hp]. split; [lia|done..].
Qed.

Lemma inv_set_q ms ms' busy pids pids' s y : server_inv ms busy pids s -> orderly ms' (owned pids') y ->
  next_id (q s) <= next_id y -> server_inv ms' busy pids' (set_q s y).
Proof. intros [_ Hr Hc Hb] Hy Hn. split; [done| |done|done]. by eapply replies_later. Qed.

Lemma set_q_set_q s x y : set_q (set_q s x) y = set_q s y.
Proof. done. Qed.

Lemma owned_in pids pid : pid ∈ pids -> 1 <= owned pids pid.
Proof.
  assert (forall l x, 0 <= owned l x) as Hpos.
  { intros l x. induction l as [|y l IH]; cbn [owned]; [done|]. pose proof (one_range y x). lia. }
  induction 1 as [pid l|pid x l _ IH]; cbn [owned].
  - rewrite one_same. specialize (Hpos l pid). lia.
  - pose proof (one_range x pid). lia.
Qed.

Lemma take_spec ms busy pids s p m : server_inv ms busy pids s -> holds p m -> refcnt p = 1 ->
  let pid := next_id (q s) in
  exists y, take_packet s p = (pid, set_q s y) /\ server_inv (with_message ms pid m) busy (pid :: pids) (set_q s y)
    /\ grown ms s (with_message ms pid m) (set_q s y) /\ log y = log (q s) /\ vec y = vec (q s) /\ outs y = outs (q s) /\ next_id y = pid + 1.
Proof.
  intros Hs Hp Hr pid. eexists. split; [done|]. split_and!; [|apply grown_queue; [apply with_message_agree|cbn; lia|done|done|done]|done..].
  eapply inv_set_q; [done| |cbn; lia]. eapply orderly_ext; [|exact (orderly_new ms _ _ p m (server_queue _ _ _ _ Hs) Hp Hr)].
  intros id. subst pid. cbn [owned]. lia.
Qed.

Lemma enqueue_inv ms busy pids s pid header addr : server_inv ms busy pids s -> socket s = true -> pid ∈ pids ->
  (forall h, header = Some h -> h ∈ pids) ->
  exists r y, server_enqueue s pid header addr = Ret (r, set_q s y) /\ server_inv ms busy pids (set_q s y)
    /\ grown ms s ms (set_q s y) /\ (r < 0 /\ y = q s /\ no_room (q s) \/ r = 0 /\ added (q s) y pid header addr).
Proof.
  intros Hs Hsock Hpid Hh. destruct (orderly_enqueue ms _ _ pid header addr (server_queue _ _ _ _ Hs)) as (r & y & Hrun & Hy & Hn & Hl & Hcase).
  { by apply owned_in. }
  { intros h Hhd. by apply owned_in, Hh. }
  exists r, y. unfold server_enqueue. rewrite Hrun, bind_ret, Hsock, andb_false_r.
  split_and!; [done|by eapply inv_set_q|..].
  - apply grown_queue; [apply agree_refl|done|..]; destruct Hcase as [(_ & -> & _)|(_ & oid & Hv & Ho & Hnone & _)]; try done.
    + rewrite Hv. by exists [oid].
    + intros x o Hx. rewrite Ho, lookup_insert_ne; [done|congruence].
  - done.
Qed.

Lemma unref_inv ms busy pids s pid : server_inv ms busy (pid :: pids) s ->
  exists y, server_unref s pid = Ret (set_q s y) /\ server_inv ms busy pids (set_q s y) /\ grown ms s ms (set_q s y)
    /\ vec y = vec (q s) /\ outs y = outs (q s) /\ next_id y = next_id (q s).
Proof.
  intros Hs. destruct (orderly_unref ms _ _ pid (server_queue _ _ _ _ Hs)) as (y & Hrun & Hy & Hv & Ho & Hn & Hl); [apply owned_in; by left|].
  exists y. unfold server_unref. rewrite Hrun, bind_ret. split_and!; [done| | |done..].
  - eapply inv_set_q; [done| |lia]. eapply orderly_ext; [|exact Hy]. intros id. cbn [owned]. lia.
  - apply grown_queue; [apply agree_refl|lia|by rewrite Hv|by rewrite Ho|done].
Qed.
End Invariant.

(** ** Sending *)

Lemma remove_last_absent l x : x ∉ l -> remove_last l x = l.
Proof.
  intros Hx. unfold remove_last. assert (forall n, last_place l x n = None) as ->; [|done].
  induction n as [|n IH]; cbn [last_place]; [done|]. rewrite bool_decide_false; [done|]. intros Hn. apply Hx. by eapply list_elem_of_lookup_2.
Qed.

Section Sending.
Context `{BuildConfig} `{Allocator} `{CoapEnv} `{ServerEnv}.

Lemma set_reply_again s rid r r' : set_reply (set_reply s rid r) rid r' = set_reply s rid r'.
Proof. unfold set_reply, set_replies. cbn. by rewrite insert_insert_eq. Qed.

Lemma reply_at_same s rid r : reply_at (set_reply s rid r) rid = Ret r.
Proof. unfold reply_at, set_reply. cbn. by rewrite lookup_insert_eq. Qed.

Lemma reply_at_some s rid r : replies s !! rid = Some r -> reply_at s rid = Ret r.
Proof. unfold reply_at. by intros ->. Qed.

(** A reply that is not pending goes away without a trace. *)
Lemma free_loose s rid r : replies s !! rid = None -> (rid ∉ pending s) -> in_use r = false ->
  reentrant_free (set_reply s rid r) rid = Ret (record s (Dropped rid)).
Proof.
  intros Hn Hp Hu. unfold reentrant_free. rewrite reply_at_same, bind_ret, set_reply_again, Hu. unfold pending_reply_free.
  rewrite reply_at_same, bind_ret. f_equal. destruct s. unfold record, set_replies, set_pending, set_reply. cbn in *.
  by rewrite remove_last_absent, delete_insert_id.
Qed.

Lemma enqueue_set_reply s rid r pid header addr : server_enqueue (set_reply s rid r) pid header addr
  = '(x, s) ← server_enqueue s pid header addr; Ret (x, set_reply s rid r).
Proof.
  unfold server_enqueue. cbn. destruct (enqueue_packet _ _ _ _) as [[x y]|]; [|done]. rewrite !bind_ret. by destruct (negb _ && negb _).
Qed.

Lemma unref_set_reply s rid r pid : server_unref (set_reply s rid r) pid = (s ← server_unref s pid; Ret (set_reply s rid r)).
Proof. unfold server_unref. cbn. by destruct (packet_unref _ _) as [y|]. Qed.

Lemma inv_record ms busy pids s e : server_inv ms busy pids s -> server_inv ms busy pids (record s e).
Proof. by intros [? ? ? ?]. Qed.

Lemma grown_record ms ms' s s' e : ~ is_call e -> grown ms s ms' s' -> grown ms s ms' (record s' e).
Proof.
  intros He [[] ? ? ?]. split; [by split|done|done|]. cbn [record events]. rewrite calls_app. unfold calls at 2. by rewrite filter_cons_False, app_nil_r.
Qed.

Lemma inv_loose ms busy pids s rid : server_inv ms busy pids s -> replies s !! rid = None -> rid ∉ pending s.
Proof. intros Hs Hn Hp. apply (replies_listed _ _ _ _ (server_replies _ _ _ _ Hs)) in Hp as [? ?]. congruence. Qed.

Lemma send_failed_none ms busy pids s pid err : server_inv ms busy (pid :: pids) s ->
  exists y, send_failed s None pid err = Ret (err, set_q s y) /\ server_inv ms busy pids (set_q s y) /\ grown ms s ms (set_q s y).
Proof.
  intros Hs. destruct (unref_inv _ _ _ _ _ Hs) as (y & Hrun & Hy & Hg & _). exists y. unfold send_failed. rewrite bind_ret, Hrun, bind_ret. done.
Qed.

Lemma send_failed_loose ms busy pids s rid r pid err : server_inv ms busy (pid :: pids) s -> replies s !! rid = None -> in_use r = false ->
  exists y, send_failed (set_reply s rid r) (Some rid) pid err = Ret (err, set_q (record s (Dropped rid)) y)
    /\ server_inv ms busy pids (set_q (record s (Dropped rid)) y) /\ grown ms s ms (set_q (record s (Dropped rid)) y).
Proof.
  intros Hs Hn Hu. unfold send_failed. rewrite free_loose by (done || by eapply inv_loose). rewrite bind_ret.
  destruct (unref_inv _ _ _ _ _ (inv_record _ _ _ _ (Dropped rid) Hs)) as (y & Hrun & Hy & Hg & _). exists y. rewrite Hrun, bind_ret.
  split_and!; [done|done|]. eapply grown_trans; [|exact Hg]. apply grown_record; [by intros []|apply grown_refl].
Qed.

(** A reply and its packet are added at the ends. *)
Lemma inv_await ms busy pids s rid r e : server_inv ms busy pids s -> replies s !! rid = None -> rid < next_id (q s) ->
  blen (pending s) <> UINT16_MAX -> reply_ok busy (next_id (q s)) rid r ->
  server_inv ms busy pids (record (set_pending (set_reply s rid r) (pending s ++ [rid])) e).
Proof.
  intros Hs Hn Hlt Hlen Hr. pose proof (inv_loose _ _ _ _ _ Hs Hn) as Hp. destruct Hs as [Hq [Hd Hl Hle He] Hc Hb]. split; [done| |done|].
  2: { cbn. intros b Hbs. destruct (decide (b = rid)) as [->|]; [rewrite lookup_insert_eq; eauto|rewrite lookup_insert_ne by done; by apply Hb]. }
  cbn. split.
  - apply NoDup_app. split_and!; [done|by intros x Hx ->%list_elem_of_singleton|apply NoDup_singleton].
  - intros x. rewrite elem_of_app, list_elem_of_singleton, Hl. destruct (decide (x = rid)) as [->|Hx].
    + rewrite lookup_insert_eq. split; [eauto|auto].
    + rewrite lookup_insert_ne by done. tauto.
  - rewrite blen_app. change (blen [rid]) with 1. lia.
  - intros x rx. destruct (decide (x = rid)) as [->|Hx]; [rewrite lookup_insert_eq; by intros [= <-]|].
    rewrite lookup_insert_ne by done. apply He.
Qed.

Lemma added_same x y z pid header addr : added x y pid header addr -> vec z = vec y -> outs z = outs y -> added x z pid header addr.
Proof. intros (oid & Hv & Ho & Hn & Hle) Hvz Hoz. exists oid. by rewrite Hvz, Hoz. Qed.

Lemma added_from x x' y pid header addr : added x y pid header addr -> vec x = vec x' -> outs x = outs x' -> next_id x' <= next_id x ->
  added x' y pid header addr.
Proof. intros (oid & Hv & Ho & Hn & Hle) Hvx Hox Hx. exists oid. rewrite <- Hvx, <- Hox. split_and!; [done..|lia]. Qed.

Lemma send_done_none ms busy pids s pid addr : server_inv ms busy (pid :: pids) s -> socket s = true ->
  exists r y, send_done s None pid addr = Ret (r, set_q s y) /\ server_inv ms busy pids (set_q s y) /\ grown ms s ms (set_q s y)
    /\ (r < 0 /\ vec y = vec (q s) /\ no_room (q s) \/ r = 0 /\ added (q s) y pid None addr).
Proof.
  intros Hs Hsock. destruct (enqueue_inv _ _ _ _ pid None addr Hs Hsock) as (r & y & Hrun & Hy & Hg & Hcase); [by left|done|].
  unfold send_done. rewrite Hrun, bind_ret. destruct Hcase as [(Hneg & -> & Hroom)|[-> Ha]].
  - rewrite (proj2 (Z.ltb_lt r 0)) by done. destruct (unref_inv _ _ _ _ _ Hy) as (y3 & Hrun3 & Hy3 & Hg3 & Hv & _).
    unfold send_failed. rewrite bind_ret, Hrun3, bind_ret. exists r, y3. rewrite set_q_set_q in *.
    split_and!; [done|done|by eapply grown_trans|left; split_and!; [done|exact Hv|done]].
  - cbn [Z.ltb Z.compare]. destruct (unref_inv _ _ _ _ _ Hy) as (y3 & Hrun3 & Hy3 & Hg3 & Hv & Ho & _).
    rewrite Hrun3, bind_ret. exists 0, y3. rewrite set_q_set_q in *. split_and!; [done|done|by eapply grown_trans|right].
    split; [done|]. by eapply added_same.
Qed.

Lemma send_done_loose ms busy pids s rid r pid addr : server_inv ms busy (pid :: pids) s -> socket s = true ->
  replies s !! rid = None -> rid < next_id (q s) -> in_use r = false -> reply_ok busy (next_id (q s)) rid r ->
  exists x s', send_done (set_reply s rid r) (Some rid) pid addr = Ret (x, s') /\ server_inv ms busy pids s'
    /\ (x < 0 /\ grown ms s ms s' /\ pending s' = pending s
        \/ x = 0 /\ exists y, s' = set_q (record (set_pending (set_reply s rid r) (pending s ++ [rid])) (Awaited rid pid)) y
                 /\ added (q s) y pid None addr /\ next_id (q s) <= next_id y /\ log (q s) `prefix_of` log y).
Proof.
  intros Hs Hsock Hnone Hlt Huse Hok. destruct (enqueue_inv _ _ _ _ pid None addr Hs Hsock) as (x & y & Hrun & Hy & Hg & Hcase); [by left|done|].
  unfold send_done. rewrite enqueue_set_reply, Hrun, !bind_ret.
  pose proof (fun err => send_failed_loose _ _ _ _ rid r pid err Hy Hnone Huse) as Hfail.
  destruct Hcase as [(Hneg & -> & _)|[-> Ha]].
  - rewrite (proj2 (Z.ltb_lt x 0)) by done. destruct (Hfail x) as (y2 & -> & Hy2 & Hg2). do 2 eexists. split_and!; [done|done|].
    left. split_and!; [done|by eapply grown_trans|done].
  - change (0 <? 0) with false. cbv iota zeta.
    set (err := if _ =? _ then _ else _). assert (err < 0 \/ err = 0 /\ blen (pending s) <> UINT16_MAX) as Herr.
    { subst err. cbn. destruct (Z.eqb_spec (blen (pending s)) UINT16_MAX); [by left|]. destruct (pending_memory _); [by right|by left]. }
    destruct Herr as [Hneg|[-> Hroom]].
    + rewrite (proj2 (Z.ltb_lt err 0)) by done. destruct (Hfail err) as (y2 & -> & Hy2 & Hg2). do 2 eexists. split_and!; [done|done|].
      left. split_and!; [done|by eapply grown_trans|done].
    + cbn [Z.ltb Z.compare]. pose proof (grown_next _ _ _ _ _ Hg) as Hn. cbn in Hn.
      assert (server_inv ms busy (pid :: pids) (record (set_pending (set_reply (set_q s y) rid r) (pending s ++ [rid])) (Awaited rid pid))) as Hi.
      { apply (inv_await ms busy (pid :: pids) (set_q s y)); [done|done|cbn; lia|done|]. cbn. destruct Hok. split; [lia|done..]. }
      destruct (unref_inv _ _ _ _ _ Hi) as (y3 & Hrun3 & Hy3 & Hg3 & Hv & Ho & Hn3). change (pending (set_reply (set_q s y) rid r)) with (pending s).
      rewrite Hrun3, bind_ret. do 2 eexists. split_and!; [done|done|]. right. split; [done|]. exists y3. split_and!; [done| | |].
      * eapply added_same; [exact Ha|exact Hv|exact Ho].
      * rewrite Hn3. cbn. lia.
      * etrans; [apply (steady_log _ _ _ _ (grown_steady _ _ _ _ _ Hg))|apply (steady_log _ _ _ _ (grown_steady _ _ _ _ _ Hg3))].
Qed.
End Sending.

(** The message went out to [addr], and its reply is waited for. *)
Record awaited (s s' : sol_coap_server) (m : message) (c rid : Z) (r : pending_reply) : Prop := {
  awaited_new : next_id (q s) <= rid;
  awaited_last : pending s' = pending s ++ [rid];
  awaited_reply : replies s' = <[rid := r]> (replies s);
  awaited_cb : cb r = c;
  awaited_packet : reply_pkt r = next_id (q s);
  awaited_id : reply_id r = m_id m;
  awaited_token : reply_token r = m_token m;
  awaited_kind : observing r = observes m
}.

Definition sent (s : sol_coap_server) (ms' : Z -> message) (s' : sol_coap_server) (m : message) (addr : Z) (reply_cb : option Z) : Prop :=
  added (q s) (q s') (next_id (q s)) None addr /\ ms' (next_id (q s)) = m
  /\ match reply_cb with
     | None => pending s' = pending s /\ replies s' = replies s
     | Some c => exists rid r, awaited s s' m c rid r
     end.

(** A packet that was not sent left no reply; one that wants none was not
    sent for want of room in the queue only. *)
Definition unsent `{CoapEnv} (s s' : sol_coap_server) (m : message) (reply_cb : option Z) : Prop :=
  pending s' = pending s /\ (reply_cb = None -> observes m = false -> vec (q s') = vec (q s) /\ no_room (q s)).

Section Send.
Context `{BuildConfig} `{Allocator} `{CoapEnv} `{ServerEnv}.

Lemma grown_await ms ms' s s' rid r pid y : grown ms s ms' s' -> next_id (q s) <= rid -> next_id (q s') <= next_id y ->
  vec (q s') `prefix_of` vec y -> (forall oid o, outs (q s') !! oid = Some o -> outs y !! oid = Some o) -> log (q s') `prefix_of` log y ->
  grown ms s ms' (set_q (record (set_pending (set_reply s' rid r) (pending s' ++ [rid])) (Awaited rid pid)) y).
Proof.
  intros [[Ha Hn Hv Ho Hl Hc Hu Hs Hw] Hp Hr He] Hrid Hny Hvy Hoy Hly. split; [split; cbn; try done| | |]; cbn.
  - lia.
  - by etrans.
  - auto.
  - by etrans.
  - etrans; [exact Hp|]. by exists [rid].
  - intros x Hx. rewrite lookup_insert_ne by lia. by apply Hr.
  - rewrite calls_app. unfold calls at 2. rewrite filter_cons_False, app_nil_r; [done|by intros []].
Qed.

Lemma inv_bump ms busy pids s : server_inv ms busy pids s -> server_inv ms busy pids (set_q s (set_next (q s) (next_id (q s) + 1))).
Proof. intros Hs. eapply inv_set_q; [done|apply orderly_bump, Hs|cbn; lia]. Qed.

Lemma fresh_reply ms busy pids s rid : server_inv ms busy pids s -> next_id (q s) <= rid -> replies s !! rid = None.
Proof.
  intros Hs Hle. destruct (replies s !! rid) as [r|] eqn:Hr; [|done].
  pose proof (reply_old _ _ _ _ (replies_each _ _ _ _ (server_replies _ _ _ _ Hs) _ _ Hr)). lia.
Qed.

(** A packet that the server has taken, with a reply that is made for it *)
Lemma send_made_spec ms0 s0 ms busy pids s rid r pid addr m c : grown ms0 s0 ms s -> pid = next_id (q s0) -> ms pid = m ->
  vec (q s) = vec (q s0) -> outs (q s) = outs (q s0) -> pending s = pending s0 -> replies s = replies s0 -> next_id (q s0) <= rid ->
  server_inv ms busy (pid :: pids) s -> socket s = true -> rid < next_id (q s) -> replies s !! rid = None ->
  in_use r = false -> reply_ok busy (next_id (q s)) rid r ->
  cb r = c -> reply_pkt r = pid -> reply_id r = m_id m -> reply_token r = m_token m -> observing r = observes m ->
  exists x s', send_done (set_reply s rid r) (Some rid) pid addr = Ret (x, s') /\ server_inv ms busy pids s' /\ grown ms0 s0 ms s'
    /\ (x < 0 /\ unsent s0 s' m (Some c) \/ x = 0 /\ sent s0 ms s' m addr (Some c)).
Proof.
  intros Hg Hpid Hm Hv Ho Hpe Hre Hle Hs Hsock Hlt Hnone Huse Hok Hcb Hpk Hid Htok Hobs.
  destruct (send_done_loose ms busy pids s rid r pid addr Hs Hsock Hnone Hlt Huse Hok) as (x & s' & Hrun & Hs' & Hcase).
  exists x, s'. split_and!; [done|done|..]; destruct Hcase as [(Hneg & Hg' & Hp)|(-> & y & -> & Ha & Hn & Hl)].
  - by eapply grown_trans.
  - pose proof Ha as (oid & Hvy & Hoy & Hnew & _). apply grown_await; [done|done|done| | |done].
    + rewrite Hvy. by exists [oid].
    + intros z o Hz. rewrite Hoy, lookup_insert_ne; [done|congruence].
  - left. split; [done|]. split; [congruence|done].
  - right. split; [done|]. subst pid. split_and!; [eapply added_from; [exact Ha|done|done|by eapply grown_next]|done|].
    exists rid, r. split; cbn; try done; congruence.
Qed.

Lemma server_send_spec ms busy pids s p m addr reply_cb : server_inv ms busy pids s -> socket s = true -> proper p m ->
  exists r ms' s', sol_coap_send_packet_with_reply s p addr reply_cb = Ret (r, s') /\ server_inv ms' busy pids s' /\ grown ms s ms' s'
    /\ (r < 0 /\ unsent s s' m reply_cb \/ r = 0 /\ sent s ms' s' m addr reply_cb).
Proof.
  intros Hs Hsock Hp. pose proof (proper_header _ _ Hp) as Hh. destruct (header_getters _ _ Hh) as (_ & _ & Hid & _).
  destruct (take_spec ms busy pids s p m Hs (proper_holds _ _ Hp) (proper_refs _ _ Hp)) as (y & Htake & Hy & Hg & Hl & Hv & Ho & Hn).
  unfold sol_coap_send_packet_with_reply. rewrite Htake, (proper_observing _ _ Hp), bind_ret.
  set (pid := next_id (q s)) in *. set (ms1 := with_message ms pid m) in *. set (s1 := set_q s y) in *.
  assert (forall err, err < 0 -> ~ (reply_cb = None /\ observes m = false) ->
    exists r ms' s', send_failed s1 None pid err = Ret (r, s') /\ server_inv ms' busy pids s' /\ grown ms s ms' s'
      /\ (r < 0 /\ unsent s s' m reply_cb \/ r = 0 /\ sent s ms' s' m addr reply_cb)) as Hfail.
  { intros err Herr Hno. destruct (send_failed_none _ _ _ _ _ err Hy) as (y2 & Hrun & Hy2 & Hg2). exists err, ms1, (set_q s1 y2).
    split; [done|]. split; [done|]. split; [by eapply grown_trans|]. left. split; [done|]. split; [done|]. intros ? ?. by destruct Hno. }
  destruct reply_cb as [c|].
  2: { destruct (observes m) eqn:Hobs; [apply Hfail; [done|by intros [_ ?]]|]. destruct (send_done_none _ _ _ _ _ addr Hy Hsock) as (r & y2 & Hrun & Hy2 & Hg2 & Hcase).
       exists r, ms1, (set_q s1 y2). split_and!; [done|done|by eapply grown_trans|]. destruct Hcase as [(? & Hv2 & Hroom)|[? Ha]]; [left|right].
       { split; [done|]. split; [done|]. intros _ _. split; [cbn in *; congruence|]. unfold no_room in *. cbn in Hroom. by rewrite Hl, Hv in Hroom. }
       split; [done|]. split; [eapply added_from; [exact Ha|done|done|cbn; lia]|]. split; [apply with_message_same|done]. }
  rewrite (token_of_spec _ _ Hh), bind_ret. destruct (negb (reply_memory s1)); [apply Hfail; [done|by intros []]|]. rewrite Hid, bind_ret.
  change (q s1) with y. cbv zeta. set (s2 := set_q s1 _). set (rid := next_id y) in *. set (reply := Build_pending_reply _ _ _ _ _ _ _ _ _).
  assert (server_inv ms1 busy (pid :: pids) s2) as Hs2 by (by apply inv_bump).
  assert (grown ms s ms1 s2) as Hg2.
  { eapply grown_trans; [exact Hg|]. apply grown_queue; [apply agree_refl|cbn; lia|done|done|done]. }
  assert (replies s2 !! rid = None) as Hnone by (apply (fresh_reply _ _ _ _ rid Hy); cbn; lia).
  assert (token_ok (m_token m)) as Htok by (by apply wf_token_ok, Hh).
  assert (busy <> Some rid) as Hbusy by (intros [r Hr]%(server_busy _ _ _ _ Hs2); congruence).
  assert (forall r, reply_token r = m_token m -> in_use r = false -> reply_pkt r = pid ->
    (observing r = true -> exists segs, reply_path r = Some (path_text segs) /\ path_ok segs) -> reply_ok busy (next_id (q s2)) rid r) as Hok.
  { intros r Ht Hu Hpk Hpath. split; [cbn; lia|by rewrite Hu, bool_decide_false|rewrite Hpk; unfold rid; lia|by rewrite Ht|done]. }
  assert (ms1 pid = m) as Hm by apply with_message_same.
  destruct (observes m) eqn:Hobs.
  2: { destruct (send_made_spec ms s ms1 busy pids s2 rid reply pid addr m c) as (x & s' & Hx); try done; [lia|cbn; lia|by apply Hok|].
       by exists x, ms1, s'. }
  destruct (proper_extract _ _ Hp Hobs) as (x & -> & Hx). rewrite bind_ret. destruct x as [e|text].
  - destruct (send_failed_loose _ _ _ _ rid reply pid e Hs2 Hnone eq_refl) as (y2 & -> & Hy2 & Hg3).
    do 3 eexists. split; [done|]. split; [done|]. split; [by eapply grown_trans|]. left. split; [done|]. by split.
  - destruct Hx as (segs & Htext & Hsegs). rewrite set_reply_again.
    set (r2 := Build_pending_reply _ _ _ _ _ _ _ _ _).
    destruct (send_made_spec ms s ms1 busy pids s2 rid r2 pid addr m c) as (x & s' & Hx); try done; [lia|cbn; lia| |by exists x, ms1, s'].
    apply Hok; try done. intros _. exists segs. by rewrite <- Htext.
Qed.
End Send.

(** *** Answers *)

Lemma built_proper pkt m : represents pkt m -> refcnt pkt = 1 -> readable_options 0 (m_options m) -> blen (encode m) <= INT16_MAX ->
  observes m = false -> proper pkt m.
Proof. intros Hpk Hr Hread Hs Ho. split; try done; [|congruence]. split_and!; [apply Hpk|apply Hpk|zlia]. Qed.

Lemma blen_short m : wf_message m -> m_options m = [] -> m_payload m = None -> blen (encode m) <= 12.
Proof.
  intros Hwf Ho Hp. pose proof (wf_token _ Hwf). unfold encode, encode_header. rewrite Ho, Hp. cbn [encode_options encode_payload app].
  rewrite app_nil_r, !blen_cons. lia.
Qed.

Section Answers.
Context `{BuildConfig} `{Allocator} `{CoapEnv} `{ServerEnv}.

(** The answer [change] makes of a message's reply, which may lack its token
    for want of memory; without memory or room for it there is none *)
Definition answered_with (ms : Z -> message) (s : sol_coap_server) (ms' : Z -> message) (s' : sol_coap_server) (f : message -> message)
    (req : message) (addr r : Z) : Prop :=
  r < 0 /\ pending s' = pending s /\ vec (q s') = vec (q s) /\ (refused \/ no_room (q s))
  \/ r = 0 /\ exists token, (token = m_token req \/ refused /\ token = []) /\ sent s ms' s' (f (reply_to req token)) addr None.

Lemma answer_spec ms busy pids s req m addr f change : server_inv ms busy pids s -> socket s = true -> header_is req m ->
  (forall pkt m', represents pkt m' -> exists pkt', change pkt = Ret (0, pkt') /\ represents pkt' (f m') /\ refcnt pkt' = refcnt pkt) ->
  (forall m', m_options (f m') = m_options m' /\ m_payload (f m') = m_payload m') ->
  exists r ms' s', send_answer s req addr change = Ret (r, s') /\ server_inv ms' busy pids s' /\ grown ms s ms' s'
    /\ answered_with ms s ms' s' f m addr r.
Proof.
  intros Hs Hsock Hreq Hch Hf. unfold send_answer.
  destruct (reply_spec req m Hreq) as [(e & -> & Href)|(pkt & Hnew & Hpk)].
  { rewrite bind_ret. exists (- ENOMEM), ms, s. split_and!; [done|done|apply grown_refl|]. left. split_and!; [done..|by left]. }
  pose proof (reply_refcnt _ _ Hnew) as Hr. rewrite Hnew, bind_ret.
  assert (exists token, (token = m_token m \/ refused /\ token = []) /\ represents pkt (reply_to m token)) as (token & Htok & Hpk').
  { destruct Hpk as [?|[? ?]]; eauto 10. }
  destruct (Hch _ _ Hpk') as (pkt' & -> & Hpk2 & Hr2). rewrite bind_ret. cbn [Z.ltb Z.compare].
  destruct (Hf (reply_to m token)) as [Hopt Hpay].
  assert (proper pkt' (f (reply_to m token))) as Hp.
  { apply built_proper; [done|congruence|by rewrite Hopt| |].
    - pose proof (blen_short _ (represents_wf _ _ Hpk2) Hopt Hpay). zlia.
    - unfold observes. by rewrite Hopt, bool_decide_false. }
  destruct (server_send_spec ms busy pids s pkt' _ addr None Hs Hsock Hp) as (r & ms' & s' & Hrun & Hs' & Hg & Hcase).
  exists r, ms', s'. split_and!; [exact Hrun|done|done|]. destruct Hcase as [(? & ? & Hwhy)|[-> ?]]; [left|right; split; [done|by exists token]].
  destruct (Hwhy eq_refl) as [? ?]; [unfold observes; by rewrite Hopt, bool_decide_false|]. split_and!; [done..|by right].
Qed.

Definition with_code (c : Z) (m : message) := Message (m_ver m) (m_type m) c (m_id m) (m_token m) (m_options m) (m_payload m).
Definition with_type (t : Z) (m : message) := Message (m_ver m) t (m_code m) (m_id m) (m_token m) (m_options m) (m_payload m).

Lemma not_found_spec ms busy pids s req m addr : server_inv ms busy pids s -> socket s = true -> header_is req m ->
  exists r ms' s', resource_not_found s req addr = Ret (r, s') /\ server_inv ms' busy pids s' /\ grown ms s ms' s'
    /\ answered_with ms s ms' s' (with_code SOL_COAP_RESPONSE_CODE_NOT_FOUND) m addr r.
Proof.
  intros Hs Hsock Hreq. eapply answer_spec; [done..| |done]. intros pkt m' Hpk.
  destruct (set_code_spec _ _ SOL_COAP_RESPONSE_CODE_NOT_FOUND Hpk) as (pkt' & Hrun & Hpk'); [done|].
  exists pkt'. split_and!; [done|done|by apply with_header_refcnt in Hrun].
Qed.

Lemma reset_spec ms busy pids s req m addr : server_inv ms busy pids s -> socket s = true -> header_is req m ->
  exists r ms' s', send_reset_msg s req addr = Ret (r, s') /\ server_inv ms' busy pids s' /\ grown ms s ms' s'
    /\ answered_with ms s ms' s' (with_type SOL_COAP_MESSAGE_TYPE_RESET) m addr r.
Proof.
  intros Hs Hsock Hreq. eapply answer_spec; [done..| |done]. intros pkt m' Hpk.
  destruct (set_type_spec _ _ SOL_COAP_MESSAGE_TYPE_RESET Hpk) as (pkt' & Hrun & Hpk'); [done|].
  exists pkt'. split_and!; [done|exact Hpk'|by apply with_header_refcnt in Hrun].
Qed.

(** *** The end of an observation *)

Lemma path_options_length prev segs :
  blen (encode_options prev ((fun s => (SOL_COAP_OPTION_URI_PATH, s)) <$> segs)) <= blen (path_text segs) + 4 * blen segs.
Proof.
  revert prev. induction segs as [|s segs IH]; intros prev; [by vm_compute|].
  cbn [fmap list_fmap encode_options]. specialize (IH SOL_COAP_OPTION_URI_PATH). unfold option_bytes.
  change (path_text (s :: segs)) with (47 :: s ++ path_text segs).
  pose proof (blen_ext (SOL_COAP_OPTION_URI_PATH - prev)). pose proof (blen_ext (blen s)).
  autorewrite with blen. lia.
Qed.

Definition unobserve_message (id : Z) (token : list Z) (segs : list (list Z)) : message :=
  Message COAP_VERSION SOL_COAP_MESSAGE_TYPE_CON SOL_COAP_METHOD_GET id token
    ((SOL_COAP_OPTION_OBSERVE, [1]) :: ((fun s => (SOL_COAP_OPTION_URI_PATH, s)) <$> segs)) None.

Lemma unobserve_readable id token segs : path_ok segs -> token_ok token ->
  readable_options 0 (m_options (unobserve_message id token segs)) /\ blen (encode (unobserve_message id token segs)) <= INT16_MAX
  /\ observes (unobserve_message id token segs) = false.
Proof.
  intros [_ Hr _ Hfew Hs] [Ht _]. split_and!.
  - cbn [m_options unobserve_message readable_options]. split_and!; [by left|by left|].
    assert (forall prev, prev = 6 \/ prev = 11 -> readable_options prev ((fun s => (SOL_COAP_OPTION_URI_PATH, s)) <$> segs)) as Hgen; [|apply Hgen; by left].
    clear Hfew Hs. induction Hr as [|s segs (Hl & _) _ IH]; intros prev Hp; [done|]. cbn [fmap list_fmap readable_options].
    split_and!; [left; unfold SOL_COAP_OPTION_URI_PATH; lia|done|]. apply IH. by right.
  - unfold encode, unobserve_message, encode_header. cbn [m_token m_options m_payload m_type m_ver m_code m_id encode_options encode_payload].
    pose proof (path_options_length SOL_COAP_OPTION_OBSERVE segs). assert (blen segs <= 16) by (unfold blen; lia). rewrite app_nil_r, !blen_app, !blen_cons. change (blen (@nil Z)) with 0.
    change (blen (option_bytes (SOL_COAP_OPTION_OBSERVE - 0) [1])) with 2. zlia.
  - unfold observes. cbn. by rewrite bool_decide_false.
Qed.

Definition with_options_behind (m : message) (os : list (Z * list Z)) : message :=
  Message (m_ver m) (m_type m) (m_code m) (m_id m) (m_token m) (m_options m ++ os) (m_payload m).

Lemma blen_options_behind m os : blen (encode m) <= blen (encode (with_options_behind m os)).
Proof.
  unfold encode, with_options_behind, encode_header. cbn [m_token m_options m_payload m_type m_ver m_code m_id].
  rewrite encode_options_app, !blen_app. pose proof (blen_nonneg (encode_options (last_number 0 (m_options m)) os)). lia.
Qed.

Lemma uri_allowed segs m : Forall (fun s => readable (blen s) /\ blen s < 65536 /\ Forall is_byte s) segs ->
  let os := (fun s => (SOL_COAP_OPTION_URI_PATH, s)) <$> segs in
  readable_options 0 (m_options m ++ os) -> blen (encode (with_options_behind m os)) <= INT16_MAX ->
  ops_allowed (uri_ops segs) m.
Proof.
  intros Hsegs. revert m. induction Hsegs as [|s segs (Hl & Hv & Hb) _ IH]; intros m os Hr Hs; [done|].
  pose proof (blen_options_behind m os) as Hle. apply readable_app in Hr as Hr'. destruct Hr' as [Hr' _].
  cbn [uri_ops fmap list_fmap ops_allowed op_allowed]. split_and!; try done; [lia|zlia|].
  subst os. cbn [fmap list_fmap] in *. apply IH.
  - cbn [op_effect m_options]. by rewrite <- app_assoc.
  - revert Hs. unfold with_options_behind. cbn [op_effect m_ver m_type m_code m_id m_token m_options m_payload]. by rewrite <- app_assoc.
Qed.

Lemma inv_set_request ms busy pids s i : server_inv ms busy pids s -> server_inv ms busy pids (set_request s i).
Proof. by intros [? ? ? ?]. Qed.

Lemma grown_set_request ms s i : grown ms s ms (set_request s i).
Proof. split; [by split|done|done|by rewrite app_nil_r]. Qed.

(** The request that ends an observation; without memory there is none. *)
Lemma unobserve_spec ms busy pids s addr segs token : server_inv ms busy pids s -> socket s = true -> path_ok segs -> token_ok token ->
  exists r ms' s', send_unobserve_packet s addr (Some (path_text segs)) token = Ret (r, s') /\ server_inv ms' busy pids s'
    /\ grown ms s ms' s' /\ pending s' = pending s
    /\ (r < 0 /\ (refused \/ no_room (q s))
        \/ r = 0 /\ added (q s) (q s') (next_id (q s)) None addr
           /\ ms' (next_id (q s)) = unobserve_message (wrapu 16 (request_id s + 1)) token segs).
Proof.
  intros Hs Hsock Hpath Htok. pose proof Htok as [Ht8 Htb]. unfold send_unobserve_packet.
  destruct (new_request_spec (request_id s) SOL_COAP_METHOD_GET SOL_COAP_MESSAGE_TYPE_CON) as [(e & -> & Href)|(p0 & Hnew & Hp0)]; [done..| |].
  { rewrite bind_ret. exists (- ENOMEM), ms, (set_request s (request_id s)).
    split; [done|]. split; [by apply inv_set_request|]. split; [apply grown_set_request|]. split; [done|]. left. split; [done|by left]. }
  rewrite Hnew, bind_ret. pose proof (request_refcnt _ _ _ _ _ Hnew) as Hr0. set (i := wrapu 16 _) in *. set (s1 := set_request s i).
  assert (forall e, e < 0 -> refused -> exists r ms' s', Ret (e, s1) = Ret (r, s') /\ server_inv ms' busy pids s' /\ grown ms s ms' s' /\ pending s' = pending s
    /\ (r < 0 /\ (refused \/ no_room (q s)) \/ r = 0 /\ added (q s) (q s') (next_id (q s)) None addr /\ ms' (next_id (q s)) = unobserve_message i token segs)) as Hfail.
  { intros e He Href. exists e, ms, s1. split; [done|]. split; [by apply inv_set_request|]. split; [apply grown_set_request|]. split; [done|].
    left. split; [done|by left]. }
  destruct (unobserve_readable i token segs Hpath Htok) as (Hread & Hshort & Hobs).
  destruct (set_token_spec _ _ token Hp0 eq_refl eq_refl Ht8 Htb ltac:(by vm_compute)) as (r1 & p1 & Hrun1 & Hcase1). rewrite Hrun1, bind_ret.
  destruct Hcase1 as [[-> Hp1]|(Hneg & _ & Href)]; [|rewrite (proj2 (Z.ltb_lt r1 0)) by done; by apply Hfail]. cbn [Z.ltb Z.compare].
  pose proof (blen_short _ (represents_wf _ _ Hp1) eq_refl eq_refl) as H12.
  destruct (add_option_spec p1 _ SOL_COAP_OPTION_OBSERVE [1] Hp1 I ltac:(zlia) ltac:(done) ltac:(done) ltac:(by repeat constructor))
    as (r2 & p2 & Hrun2 & Hcase2). rewrite Hrun2, bind_ret.
  destruct Hcase2 as [(-> & _ & _ & Hp2)|[(-> & _ & Hno)|[Hneg Href]]]; [|exfalso; by apply Hno|rewrite (proj2 (Z.ltb_lt r2 0)) by done; by apply Hfail].
  cbn [Z.ltb Z.compare]. destruct segs as [|x segs]; [by destruct (path_some _ Hpath)|].
  pose proof (path_plain _ Hpath) as Hplain. pose proof (path_readable _ Hpath) as Hrd.
  assert (Forall segment_ok (x :: segs)) as Hok.
  { apply Forall_forall. intros v Hv. rewrite Forall_forall in Hplain, Hrd. destruct (Hplain v Hv) as [_ Hp], (Hrd v Hv) as (_ & ? & _).
    split; [|done]. eapply Forall_impl; [exact Hp|]. by intros ? []. }
  rewrite uri_path_spec; [|by apply Forall_cons_1 in Hok as [? _]|by apply Forall_cons_1 in Hok as [_ ?]|].
  2: { intros Hl%last_Some_elem_of. rewrite Forall_forall in Hplain. by destruct (Hplain _ Hl). }
  fold (uri_ops (x :: segs)).
  destruct (run_in_order (uri_ops (x :: segs)) p2 _ Hp2) as (r3 & p3 & Hrun3 & Hcase3).
  { apply uri_allowed; [done|exact Hread|exact Hshort]. }
  { done. }
  { rewrite <- (app_nil_r (uri_ops _)). by apply uri_in_order. }
  rewrite Hrun3, bind_ret. destruct Hcase3 as [[-> Hp3]|[Hneg Href]]; [|rewrite (proj2 (Z.ltb_lt r3 0)) by done; by apply Hfail].
  cbn [Z.ltb Z.compare]. rewrite uri_effect in Hp3.
  assert (proper p3 (unobserve_message i token (x :: segs))) as Hp.
  { apply built_proper; [exact Hp3| |done..]. rewrite (run_ops_refcnt _ _ _ _ Hrun3), (add_option_refcnt _ _ _ _ _ Hrun2), (set_token_refcnt _ _ _ _ Hrun1). done. }
  destruct (server_send_spec ms busy pids s1 p3 _ addr None (inv_set_request _ _ _ _ i Hs) Hsock Hp) as (r & ms' & s' & Hrun & Hs' & Hg & Hcase).
  exists r, ms', s'. split; [exact Hrun|]. split; [done|]. split; [eapply grown_trans; [apply grown_set_request|exact Hg]|].
  destruct Hcase as [(? & ? & Hwhy)|(-> & Ha & Hm & ? & _)]; (split; [done|]); [left|right; by split_and!].
  split; [done|right]. by apply Hwhy.
Qed.
End Answers.
End CoapServerInv.
