(* ===== verification/CoapServerReplies.v ===== *)
(** * A CoAP server: replies

    The programs considered are [polite]: their callbacks send packets that
    can be read, and those of replies cancel nothing but the packet whose
    reply they are called for, which stays until they have returned.  Then
    every walk over the pending replies calls the callbacks it should, drops
    the replies that want no more and leaves the others as they are
    ([answers]); the observations that are dropped are ended with a request to
    the server that is observed ([observations_end]). *)

From S2P Require Import Prelude Arith Str Codec Buffer Coap CoapProofs CoapBuild CoapRequest CoapQueue CoapQueueProofs CoapServer CoapServerInv.
Import Buffer Coap CoapProofs CoapBuild CoapRequest CoapQueue CoapQueueProofs CoapServer CoapServerInv.

#[local] Open Scope Z_scope.

Module CoapServerReplies.

(** ** The program's callbacks *)

(** The packet whose reply's callback runs *)
Definition own_packet (s : sol_coap_server) (pid : Z) : Prop :=
  exists rid r, replies s !! rid = Some r /\ in_use r = true /\ reply_pkt r = pid.

Definition seemly (s : sol_coap_server) (a : action) : Prop :=
  match a with Send p _ _ => exists m, proper p m | CancelPacket pid _ => own_packet s pid end.

Definition fair (a : action) : Prop := match a with Send p _ _ => exists m, proper p m | CancelPacket _ _ => True end.

(** A notification that fits behind the header of each observer *)
Definition notifiable (p : sol_coap_packet) (m : message) : Prop :=
  holds p m /\ refcnt p = 1 /\ own_bytes (buf p) /\ m_token m = [] /\ blen (encode m) <= 65535 - 16.

(** A program whose callbacks send proper packets, those of replies cancel
    nothing but their own packet, and none of them does anything when the
    server is going away.  The paths of its resources end. *)
Record polite `{CoapProgram} : Prop := {
  polite_reply s c response : Forall (seemly s) (reply_cb s c response).1;
  polite_handler s h req addr : Forall fair (handler_cb s h req addr).1;
  polite_notification s c addr r p : notification_cb s c addr = (r, Some p) -> 0 <= r -> exists m, notifiable p m;
  polite_end s c : socket s = false -> (reply_cb s c None).1 = [];
  polite_path res : exists segs, path (resource_at res) = segs ++ [[]] /\ Forall (fun s => s <> []) segs
    /\ Forall is_byte (path_text segs) /\ blen (path_text segs) <= 32000
}.

(** ** What stays *)

(** The entry of the queue is of a packet that [gone] spares. *)
Definition spared (gone : Z -> Prop) (os : gmap Z outgoing) (oid : Z) : Prop := exists o, os !! oid = Some o /\ ~ gone (o_pkt o).

(** The queue keeps what is not cancelled, the resources stay. *)
Record tended (gone : Z -> Prop) (ms : Z -> message) (s : sol_coap_server) (ms' : Z -> message) (s' : sol_coap_server) : Prop := {
  tended_agree : agree (next_id (q s)) ms ms';
  tended_next : next_id (q s) <= next_id (q s');
  tended_vec l : l `sublist_of` vec (q s) -> Forall (spared gone (outs (q s))) l -> l `sublist_of` vec (q s');
  tended_outs oid o : outs (q s) !! oid = Some o -> ~ gone (o_pkt o) -> outs (q s') !! oid = Some o;
  tended_log : log (q s) `prefix_of` log (q s');
  tended_contexts : contexts s' = contexts s;
  tended_unknown : unknown_handler s' = unknown_handler s;
  tended_socket : socket s' = socket s;
  tended_subscribed : subscribed s' = subscribed s
}.

Lemma steady_tended gone ms s ms' s' : steady ms s ms' s' -> tended gone ms s ms' s'.
Proof.
  intros [Ha Hn [new Hv] Ho Hl Hc Hu Hs Hw]. split; try done; [|by auto].
  intros l Hsub _. rewrite Hv. etrans; [exact Hsub|]. apply sublist_inserts_r. done.
Qed.

Lemma tended_weaken (gone gone' : Z -> Prop) ms s ms' s' : (forall pid, gone pid -> gone' pid) -> tended gone ms s ms' s' -> tended gone' ms s ms' s'.
Proof.
  intros Hg [Ha Hn Hv Ho Hl Hc Hu Hs Hw]. split; try done; [|by intros; apply Ho; auto].
  intros l Hsub Hall. apply Hv; [done|]. eapply Forall_impl; [exact Hall|]. intros oid (o & Hoo & Hno). exists o. auto.
Qed.

Lemma tended_trans gone ms s ms' s' ms'' s'' : tended gone ms s ms' s' -> tended gone ms' s' ms'' s'' -> tended gone ms s ms'' s''.
Proof.
  intros [Ha Hn Hv Ho Hl Hc Hu Hs Hw] [Ha' Hn' Hv' Ho' Hl' Hc' Hu' Hs' Hw']. split; try congruence; [by eapply agree_trans|lia| |auto|by etrans].
  intros l Hsub Hall. apply Hv'; [by apply Hv|]. eapply Forall_impl; [exact Hall|]. intros oid (o & Hoo & Hno). exists o. auto.
Qed.

(** What the callback of [rid] does, with the calls [es]: other replies stay,
    its own may be marked to go. *)
Record acted (es : list server_event) (rid : Z) (ms : Z -> message) (s : sol_coap_server) (ms' : Z -> message) (s' : sol_coap_server) : Prop := {
  acted_tended : tended (eq (rid - 1)) ms s ms' s';
  acted_pending : pending s `prefix_of` pending s';
  acted_replies x : x < next_id (q s) -> x <> rid -> replies s' !! x = replies s !! x;
  acted_own r : replies s !! rid = Some r -> exists d, replies s' !! rid = Some (set_use r (in_use r) d);
  acted_calls : calls (events s') = calls (events s) ++ es
}.

Lemma set_use_same (r : pending_reply) : set_use r (in_use r) (delete_me r) = r.
Proof. by destruct r. Qed.

Lemma grew_acted es rid ms s ms' s' : rid < next_id (q s) -> grew es ms s ms' s' -> acted es rid ms s ms' s'.
Proof.
  intros Hrid [Hst Hp Hr Hc]. split; [by apply steady_tended|done|auto| |done].
  intros r Hrr. exists (delete_me r). by rewrite set_use_same, Hr.
Qed.

Lemma acted_trans es es' rid ms s ms' s' ms'' s'' : acted es rid ms s ms' s' -> acted es' rid ms' s' ms'' s'' -> acted (es ++ es') rid ms s ms'' s''.
Proof.
  intros [Ht Hp Hr Ho Hc] [Ht' Hp' Hr' Ho' Hc']. pose proof (tended_next _ _ _ _ _ Ht). split.
  - by eapply tended_trans.
  - by etrans.
  - intros x Hx Hne. rewrite Hr' by (done || lia). auto.
  - intros r (d & Hd)%Ho. destruct (Ho' _ Hd) as [d' Hd']. by exists d'.
  - by rewrite Hc', Hc, app_assoc.
Qed.

Section Callbacks.
Context `{BuildConfig} `{Allocator} `{CoapEnv} `{ServerEnv}.

Lemma orderly_shrunk ms ext x y : orderly ms ext x -> queue_inv ms ext y -> shrunk ms (eq Withdrawn) x y -> quiet x y -> orderly ms ext y.
Proof.
  intros (_ & Hw & Hb) Hy Hs Hq. split_and!; [done|by eapply shrunk_awake|]. by eapply quiet_below.
Qed.

Lemma inv_update_reply ms busy busy' pids s rid r : server_inv ms busy pids s -> is_Some (replies s !! rid) ->
  reply_ok busy' (next_id (q s)) rid r -> (forall x, x <> rid -> busy = Some x <-> busy' = Some x) ->
  server_inv ms busy' pids (set_reply s rid r).
Proof.
  intros [Hq [Hd Hl Hlen He] Hc Hb] Hsome Hr Hother. split; [done| |done|].
  - split; [done| |done|].
    + intros x. cbn. rewrite Hl. destruct (decide (x = rid)) as [->|Hx]; [rewrite lookup_insert_eq; split; [eauto|done]|by rewrite lookup_insert_ne].
    + intros x rx. cbn. destruct (decide (x = rid)) as [->|Hx]; [rewrite lookup_insert_eq; by intros [= <-]|]. rewrite lookup_insert_ne by done.
      intros Hrx. destruct (He _ _ Hrx) as [Ho Hu Ha Ht Hp]. split; try done. rewrite Hu. by apply bool_decide_ext, Hother.
  - cbn. intros b Hbs. destruct (decide (b = rid)) as [->|Hx]; [rewrite lookup_insert_eq; eauto|]. rewrite lookup_insert_ne by done.
    by apply Hb, Hother.
Qed.

Lemma reply_each ms busy pids s rid r : server_inv ms busy pids s -> replies s !! rid = Some r -> reply_ok busy (next_id (q s)) rid r.
Proof. intros Hs. apply (server_replies _ _ _ _ Hs). Qed.

Lemma reply_idle ms pids s rid r : server_inv ms None pids s -> replies s !! rid = Some r -> in_use r = false.
Proof. intros Hs Hr. by rewrite (reply_used _ _ _ _ (reply_each _ _ _ _ _ _ Hs Hr)), bool_decide_false. Qed.

Lemma inv_pending ms busy pids s i : server_inv ms busy pids s -> (i < length (pending s))%nat ->
  exists rid r, pending s !! i = Some rid /\ replies s !! rid = Some r /\ take (S i) (pending s) = take i (pending s) ++ [rid].
Proof.
  intros Hs Hi. destruct (lookup_lt_is_Some_2 (pending s) i Hi) as [rid Hrid].
  destruct (proj1 (replies_listed _ _ _ _ (server_replies _ _ _ _ Hs) rid) ltac:(by eapply list_elem_of_lookup_2)) as [r Hr].
  exists rid, r. split_and!; [done|done|by apply take_S_r].
Qed.

Lemma path_of_reply ms busy pids s rid r : server_inv ms busy pids s -> replies s !! rid = Some r -> observing r = true ->
  exists segs, reply_path r = Some (path_text segs) /\ path_ok segs.
Proof. intros Hs Hr. by destruct (reply_each _ _ _ _ _ _ Hs Hr). Qed.

(** *** The end of an observation *)

(** Packets that were put in the queue so far *)
Definition queued (es : list event) : list Z := omap (fun e => match e with Enqueued oid _ _ _ => Some oid | _ => None end) es.

(** Memory was refused somewhere, or so many packets were queued that they
    may have filled the queue. *)
Definition lacking (x : queue) : Prop :=
  refused \/ (exists l, entry_memory l = false) \/ (exists l, vector_memory l = false) \/ UINT16_MAX <= blen (queued (log x)).

Lemma queue_queued ms ext x : queue_inv ms ext x -> blen (vec x) <= blen (queued (log x)).
Proof.
  intros Hq. unfold blen. apply inj_le. apply submseteq_length, NoDup_submseteq; [apply Hq|].
  intros oid [o Ho]%(inv_listed _ _ _ Hq). pose proof (life_enqueued _ _ _ _ (inv_lives _ _ _ Hq _ _ Ho)) as [_ He]%list_elem_of_filter.
  apply list_elem_of_omap. by eexists.
Qed.

Lemma lacking_room ms ext x : queue_inv ms ext x -> refused \/ no_room x -> lacking x.
Proof.
  intros Hq [?|[?|[Hl|?]]]; [by left|right; left; eauto| |right; right; left; eauto]. right. right. right. pose proof (queue_queued _ _ _ Hq). lia.
Qed.

Lemma lacking_later x y : log x `prefix_of` log y -> lacking x -> lacking y.
Proof.
  intros [es Hes] [?|[?|[?|Hl]]]; [by left|by right; left|by right; right; left|]. right. right. right.
  unfold queued in *. rewrite Hes, omap_app, blen_app. pose proof (blen_nonneg (omap (fun e => match e with Enqueued oid _ _ _ => Some oid | _ => None end) es)). lia.
Qed.

(** The entry [oid] of the queue is the request that ends the observation of
    the reply [rid]; it is new. *)
Definition ends_observation (ms' : Z -> message) (s s' : sol_coap_server) (addr rid oid : Z) : Prop :=
  exists r segs pid id, replies s !! rid = Some r /\ reply_path r = Some (path_text segs) /\ path_ok segs
    /\ next_id (q s) <= pid < next_id (q s') /\ next_id (q s) <= oid < next_id (q s')
    /\ ms' pid = unobserve_message id (reply_token r) segs
    /\ outs (q s') !! oid = Some {| o_pkt := pid; o_header := None; o_timeout := false; cliaddr := addr; counter := 0 |}.

Lemma out_old ms busy pids s oid o : server_inv ms busy pids s -> outs (q s) !! oid = Some o -> oid < next_id (q s) /\ o_pkt o < next_id (q s).
Proof.
  intros Hs Ho. destruct (server_queue _ _ _ _ Hs) as (Hq & _ & Hb). split.
  - destruct (Z.lt_ge_cases oid (next_id (q s))) as [?|Hge]; [done|]. destruct (inv_fresh _ _ _ Hq _ Hge) as (_ & Hn & _). congruence.
  - pose proof (life_enqueued _ _ _ _ (inv_lives _ _ _ Hq _ _ Ho)) as [_ He]%list_elem_of_filter. rewrite Forall_forall in Hb.
    by destruct (Hb _ He).
Qed.

(** The observation of a reply that observes is ended, other replies have
    none. *)
Lemma maybe_unobserve_spec ms busy pids s rid r addr : server_inv ms busy pids s -> replies s !! rid = Some r -> socket s = true ->
  exists ms' s', (if observing r then '(_, s0) ← send_unobserve_packet s addr (reply_path r) (reply_token r); Ret s0 else Ret s) = Ret s'
    /\ server_inv ms' busy pids s' /\ grown ms s ms' s' /\ pending s' = pending s
    /\ (observing r = true -> lacking (q s') \/ exists oid, ends_observation ms' s s' addr rid oid).
Proof.
  intros Hs Hr Hsock. destruct (observing r) eqn:Ho; [|exists ms, s; split_and!; [done|done|apply grown_refl|done|done]].
  destruct (path_of_reply _ _ _ _ _ _ Hs Hr Ho) as (segs & Hpath & Hsegs). rewrite Hpath.
  pose proof (reply_tokens _ _ _ _ (reply_each _ _ _ _ _ _ Hs Hr)) as Htok.
  destruct (unobserve_spec ms busy pids s addr segs (reply_token r) Hs Hsock Hsegs Htok) as (x & ms3 & s3 & -> & Hs3 & Hg3 & Hp3 & Hcase).
  rewrite bind_ret. exists ms3, s3. split_and!; [done..|]. intros _. destruct Hcase as [(_ & Hwhy)|(_ & (oid & Hv & Hout & _ & Hle) & Hm)].
  - left. eapply lacking_later; [apply (steady_log _ _ _ _ (grown_steady _ _ _ _ _ Hg3))|]. eapply lacking_room; [|exact Hwhy]. by apply Hs.
  - right. exists oid. assert (outs (q s3) !! oid = Some {| o_pkt := next_id (q s); o_header := None; o_timeout := false; cliaddr := addr; counter := 0 |}) as Ho3.
    { rewrite Hout. apply lookup_insert_eq. }
    destruct (out_old _ _ _ _ _ _ Hs3 Ho3) as [Hlt Hlt']. cbn in Hlt'. exists r, segs, (next_id (q s)), (wrapu 16 (request_id s + 1)). split_and!; done || lia.
Qed.

(** *** The callback of a reply *)

Lemma filter_sublist {A} (P : A -> Prop) `{forall x, Decision (P x)} l l' : l `sublist_of` l' -> filter P l `sublist_of` filter P l'.
Proof.
  induction 1 as [|x l l' _ IH|x l l' _ IH]; [done|rewrite !filter_cons; case_decide; [by constructor|done]|].
  rewrite (filter_cons _ x). case_decide; [by constructor|done].
Qed.

Lemma cancel_busy_loop addr i ms pids s count rid : server_inv ms (Some rid) pids s -> socket s = true -> (i <= length (pending s))%nat ->
  exists n ms' s', cancel_loop s (rid - 1) addr i count = Ret (n, s') /\ server_inv ms' (Some rid) pids s'
    /\ acted [] rid ms s ms' s' /\ pending s' = pending s.
Proof.
  revert ms s count. induction i as [|i IH]; intros ms s count Hs Hsock Hi; destruct (server_busy _ _ _ _ Hs rid eq_refl) as [rb Hrb];
    pose proof (reply_each _ _ _ _ _ _ Hs Hrb) as Hb.
  { exists count, ms, s. split_and!; [done|done|apply grew_acted; [apply Hb|apply grown_refl]|done]. }
  cbn [cancel_loop]. destruct (inv_pending _ _ _ _ i Hs Hi) as (x & r & Hx & Hr & _). rewrite Hx, (reply_at_some _ _ _ Hr), bind_ret.
  destruct (Z.eqb_spec (reply_pkt r) (rid - 1)) as [He|Hne]; cbn [negb]; [|apply IH; [done|done|lia]].
  assert (x = rid) as -> by (pose proof (reply_asked _ _ _ _ (reply_each _ _ _ _ _ _ Hs Hr)); lia).
  rewrite Hrb in Hr. injection Hr as <-.
  destruct (maybe_unobserve_spec ms (Some rid) pids s rid rb addr Hs Hrb Hsock) as (ms2 & s2 & -> & Hs2 & Hg2 & Hp2 & _). rewrite bind_ret.
  assert (replies s2 !! rid = Some rb) as Hrb2 by (rewrite (grown_replies _ _ _ _ _ Hg2); [done|apply Hb]).
  unfold reentrant_free. rewrite (reply_at_some _ _ _ Hrb2), bind_ret, (reply_used _ _ _ _ Hb), bool_decide_true by done. cbv zeta. rewrite bind_ret.
  set (s3 := set_reply s2 rid _). pose proof (grown_next _ _ _ _ _ Hg2) as Hn.
  assert (server_inv ms2 (Some rid) pids s3) as Hs3.
  { apply (inv_update_reply _ (Some rid)); [done|eauto| |done]. destruct (reply_each _ _ _ _ _ _ Hs2 Hrb2). split; try done. by rewrite bool_decide_true. }
  assert (acted [] rid ms s ms2 s3) as Ha3.
  { eapply (acted_trans [] []); [apply grew_acted; [apply Hb|exact Hg2]|]. split; try done.
    - intros y _ Hy. cbn. by rewrite lookup_insert_ne.
    - intros r0 Hr0. rewrite Hrb2 in Hr0. injection Hr0 as <-. exists true. cbn. by rewrite lookup_insert_eq, (reply_used _ _ _ _ Hb), bool_decide_true.
    - by rewrite app_nil_r. }
  destruct (IH ms2 s3 (wrapu 16 (count + 1)) Hs3) as (n & ms' & s' & -> & Hs' & Ha' & Hp').
  { rewrite <- Hsock. apply Hg2. }
  { change (pending s3) with (pending s2). rewrite Hp2. lia. }
  exists n, ms', s'. split_and!; [done|done|by eapply (acted_trans [] [])|]. rewrite Hp'. exact Hp2.
Qed.

(** A callback cancels its own packet: the reply stays for now. *)
Lemma cancel_own_spec ms pids s rid addr : server_inv ms (Some rid) pids s -> socket s = true ->
  exists n ms' s', sol_coap_cancel_send_packet s (rid - 1) addr = Ret (n, s') /\ server_inv ms' (Some rid) pids s' /\ acted [] rid ms s ms' s'.
Proof.
  intros Hs Hsock. pose proof (server_queue _ _ _ _ Hs) as Hq.
  destruct (cancel_spec ms (owned pids) (q s) (rid - 1) (proj1 Hq)) as (x & Hrun & Hx & Hsh & Hv). unfold sol_coap_cancel_send_packet. rewrite Hrun, bind_ret. cbv zeta.
  assert (quiet (q s) x) as Hqx by (by eapply remove_quiet). pose proof Hqx as [(es & Hl & _) Hn].
  assert (server_inv ms (Some rid) pids (set_q s x)) as Hsx by (eapply inv_set_q; [exact Hs|by eapply orderly_shrunk|lia]).
  assert (forall oid o, outs (q s) !! oid = Some o -> rid - 1 <> o_pkt o -> oid ∈ vec x /\ outs x !! oid = Some o) as Hkeep.
  { intros oid o Ho Hne. assert (oid ∈ vec x) as Hin.
    { rewrite Hv. apply list_elem_of_filter. unfold kept. rewrite Ho. split; [apply Z.eqb_neq; lia|]. apply (inv_listed _ _ _ (proj1 Hq)). eauto. }
    split; [done|]. by rewrite (shrunk_outs _ _ _ _ Hsh _ Hin). }
  destruct (cancel_busy_loop addr _ ms pids (set_q s x) (wrapu 16 (blen (filter (fun oid => ~ kept (fun o => o_pkt o =? rid - 1) (q s) oid) (vec (q s))))) rid Hsx Hsock (le_n _))
    as (n & ms' & s' & Hrun2 & Hs' & Ha & _).
  rewrite Hrun2, bind_ret. do 3 eexists. split_and!; [done|done|]. eapply (acted_trans [] []); [|exact Ha]. split; try done.
  - split; cbn; try done; [lia| | |by exists es].
    + intros l Hsub Hall. rewrite Hv. assert (filter (kept (fun o => o_pkt o =? rid - 1) (q s)) l = l) as <-.
      { apply filter_all. eapply Forall_impl; [exact Hall|]. intros oid (o & Ho & Hno). destruct (Hkeep _ _ Ho Hno) as [Hin _]. rewrite Hv in Hin.
        by apply list_elem_of_filter in Hin as [? _]. }
      by apply filter_sublist.
    + intros oid o Ho Hno. by apply Hkeep.
  - intros r Hr. exists (delete_me r). by rewrite set_use_same.
  - by rewrite app_nil_r.
Qed.

(** What a callback may do while [rid] is in use *)
Definition seemly_for (rid : Z) (a : action) : Prop :=
  match a with Send p _ _ => exists m, proper p m | CancelPacket pid _ => pid = rid - 1 end.

Lemma seemly_busy ms pids s rid a : server_inv ms (Some rid) pids s -> seemly s a -> seemly_for rid a.
Proof.
  intros Hs. destruct a as [|pid addr]; [done|]. intros (x & r & Hr & Hu & <-). destruct (reply_each _ _ _ _ _ _ Hs Hr) as [_ Hused Hpkt _ _].
  rewrite Hu in Hused. symmetry in Hused. apply bool_decide_eq_true in Hused as [= <-]. exact Hpkt.
Qed.

Lemma acts_spec ms rid pids s acts : server_inv ms (Some rid) pids s -> socket s = true \/ acts = [] -> Forall (seemly_for rid) acts ->
  exists ms' s', run_actions s acts = Ret s' /\ server_inv ms' (Some rid) pids s' /\ acted [] rid ms s ms' s'.
Proof.
  intros Hs Hsock Hacts. revert ms s Hs Hsock. induction Hacts as [|a acts Ha _ IH]; intros ms s Hs Hsock; cbn [run_actions];
    destruct (server_busy _ _ _ _ Hs rid eq_refl) as [r Hr]; pose proof (reply_old _ _ _ _ (reply_each _ _ _ _ _ _ Hs Hr)) as Hlt.
  { exists ms, s. split_and!; [done|done|]. apply grew_acted; [done|apply grown_refl]. }
  destruct Hsock as [Hsock|]; [|done].
  assert (forall x ms1 s1, server_inv ms1 (Some rid) pids s1 -> acted [] rid ms s ms1 s1 ->
    exists ms' s', ('(_, s) ← Ret (x : Z, s1); run_actions s acts) = Ret s' /\ server_inv ms' (Some rid) pids s' /\ acted [] rid ms s ms' s') as Hnext.
  { intros x ms1 s1 Hs1 Ha1. rewrite bind_ret. destruct (IH ms1 s1 Hs1) as (ms' & s' & -> & Hs' & Ha').
    - left. rewrite <- Hsock. apply Ha1.
    - exists ms', s'. split_and!; [done|done|by eapply (acted_trans [] [])]. }
  destruct a as [p addr c|pid addr].
  - destruct Ha as [m Hm]. destruct (server_send_spec ms (Some rid) pids s p m addr c Hs Hsock Hm) as (x & ms1 & s1 & -> & Hs1 & Hg1 & _).
    apply (Hnext x ms1 s1); [done|by apply grew_acted].
  - cbn in Ha. subst pid. destruct (cancel_own_spec ms pids s rid addr Hs Hsock) as (x & ms1 & s1 & -> & Hs1 & Ha1). by apply (Hnext x ms1 s1).
Qed.

Section Polite.
Context `{CoapProgram}.
Hypothesis Hpolite : polite.

(** The callback of a reply is called; the reply stays, and may be marked to
    go. *)
Lemma call_reply_spec ms pids s rid r response : server_inv ms None pids s -> replies s !! rid = Some r ->
  socket s = true \/ socket s = false /\ response = None ->
  exists res ms' s', call_reply s rid response = Ret (res, s') /\ server_inv ms' None pids s'
    /\ acted [Called rid response res] rid ms s ms' s'.
Proof.
  intros Hs Hr Hsock. pose proof (reply_idle _ _ _ _ _ Hs Hr) as Hu. pose proof (reply_each _ _ _ _ _ _ Hs Hr) as [Hold _ Hask Htok Hpath].
  unfold call_reply. rewrite (reply_at_some _ _ _ Hr), bind_ret, Hu. cbv zeta. set (s1 := set_reply s rid _).
  assert (server_inv ms (Some rid) pids s1) as Hs1.
  { apply (inv_update_reply _ None); [done|eauto| |]; [|intros x Hx; split; [done|congruence]]. split; try done. by rewrite bool_decide_true. }
  pose proof (polite_reply Hpolite s1 (cb r) response) as Hacts. pose proof (polite_end Hpolite s1 (cb r)) as Hend.
  destruct (reply_cb s1 (cb r) response) as [acts res] eqn:Hcb. cbn [fst] in Hacts. set (e := Called rid response res).
  destruct (acts_spec ms rid pids (record s1 e) acts) as (ms2 & s2 & -> & Hs2 & Ha2); [by apply inv_record| | |].
  { destruct Hsock as [?|[Hc ->]]; [by left|right]. specialize (Hend Hc). by rewrite Hcb in Hend. }
  { eapply Forall_impl; [exact Hacts|]. intros a. by eapply seemly_busy. }
  rewrite bind_ret. pose proof (tended_next _ _ _ _ _ (acted_tended _ _ _ _ _ _ Ha2)) as Hn. cbn in Hn.
  destruct (acted_own _ _ _ _ _ _ Ha2 (set_use r true (delete_me r))) as [d Hr2]; [cbn; by rewrite lookup_insert_eq|].
  rewrite (reply_at_some _ _ _ Hr2), bind_ret. change (set_use (set_use _ _ _) _ (delete_me _)) with (set_use r false d).
  exists res, ms2, (set_reply s2 rid (set_use r false d)). split; [done|]. split.
  - apply (inv_update_reply _ (Some rid)); [done|eauto| |]; [|intros x Hx; split; [congruence|done]]. split; try done. cbn. lia.
  - destruct Ha2 as [Ht Hp Hrep _ Hcalls]. split; [by destruct Ht|exact Hp| | |].
    + intros x Hx Hne. cbn. rewrite lookup_insert_ne by done. rewrite Hrep by done. cbn. by rewrite lookup_insert_ne.
    + intros r0 Hr0. rewrite Hr in Hr0. injection Hr0 as <-. exists d. cbn. by rewrite lookup_insert_eq, Hu.
    + change (calls (events s2) = calls (events s) ++ [e]). rewrite Hcalls, app_nil_r. change (events (record s1 e)) with (events s ++ [e]).
      by rewrite calls_app.
Qed.
End Polite.

(** *** A reply goes *)

Definition without (s : sol_coap_server) (rid : Z) : sol_coap_server :=
  record (set_replies (set_pending s (filter (fun x => x <> rid) (pending s))) (delete rid (replies s))) (Dropped rid).

Lemma delete_without {A} `{EqDecision A} (l : list A) i x : NoDup l -> l !! i = Some x -> delete i l = filter (fun y => y <> x) l.
Proof.
  intros Hd Hi. rewrite delete_take_drop. pose proof (take_drop_middle _ _ _ Hi) as Hl. rewrite <- Hl in Hd. rewrite <- Hl at 3.
  apply NoDup_app in Hd as (_ & Hd & Hnd). apply NoDup_cons in Hnd as [Hnot _].
  rewrite filter_app, filter_cons_False, !filter_all; [done|..|tauto]; apply Forall_forall; intros y Hy ->; [done|]. apply (Hd x Hy). by left.
Qed.

Lemma remove_last_filter l x : NoDup l -> x ∈ l -> remove_last l x = filter (fun y => y <> x) l.
Proof.
  intros Hd [i Hi]%list_elem_of_lookup. unfold remove_last.
  rewrite (last_place_spec l i x (length l) Hd Hi) by (by eapply lookup_lt_Some). by apply delete_without.
Qed.

Lemma free_reply_spec ms pids s rid r : server_inv ms None pids s -> replies s !! rid = Some r ->
  reentrant_free s rid = Ret (without s rid) /\ server_inv ms None pids (without s rid).
Proof.
  intros Hs Hr. pose proof (reply_idle _ _ _ _ _ Hs Hr) as Hu. destruct Hs as [Hq [Hd Hl Hlen He] Hc Hb]. split.
  - unfold reentrant_free. rewrite (reply_at_some _ _ _ Hr), bind_ret, Hu. unfold pending_reply_free. rewrite reply_at_same, bind_ret.
    f_equal. unfold without, set_reply. cbn. rewrite remove_last_filter by (done || by apply Hl; eexists). unfold set_replies, set_pending, record. cbn.
    by rewrite delete_insert_eq.
  - split; [done| |done|done]. split; cbn.
    + by apply NoDup_filter.
    + intros x. rewrite list_elem_of_filter, Hl. destruct (decide (x = rid)) as [->|Hx].
      * rewrite lookup_delete_eq. split; [by intros []|by intros []].
      * rewrite lookup_delete_ne by done. tauto.
    + pose proof (length_filter (fun y => y <> rid) (pending s)). unfold blen in *. lia.
    + intros x rx. destruct (decide (x = rid)) as [->|Hx]; [by rewrite lookup_delete_eq|]. rewrite lookup_delete_ne by done. apply He.
Qed.

(** The replies that a callback adds are new. *)
Lemma new_replies ms pids s rid ms' s' new : server_inv ms None pids s -> server_inv ms' None pids s' -> pending s' = pending s ++ new ->
  (forall x, x < next_id (q s) -> x <> rid -> replies s' !! x = replies s !! x) -> is_Some (replies s !! rid) ->
  Forall (fun x => next_id (q s) <= x) new.
Proof.
  intros Hs Hs' Hp Hrep Hrid. apply Forall_forall. intros x Hx. destruct (Z.le_gt_cases (next_id (q s)) x) as [?|Hgt]; [done|]. exfalso.
  pose proof (replies_distinct _ _ _ _ (server_replies _ _ _ _ Hs')) as Hd. rewrite Hp in Hd. apply NoDup_app in Hd as (_ & Hd & _).
  pose proof (replies_listed _ _ _ _ (server_replies _ _ _ _ Hs)) as Hl. assert (x <> rid) as Hne by (intros ->; by apply (Hd rid); [apply Hl|]).
  assert (x ∈ pending s') as Hin by (rewrite Hp; apply elem_of_app; by right).
  apply (replies_listed _ _ _ _ (server_replies _ _ _ _ Hs')) in Hin. rewrite Hrep in Hin by done. apply Hl in Hin. by apply (Hd x).
Qed.
End Callbacks.

(** ** Responses *)

(** Is this the response the reply waits for? *)
Definition waits_for (m : message) (r : pending_reply) : bool :=
  if observing r then bool_decide (m_token m = reply_token r) else reply_id r =? m_id m.

Definition waiting (m : message) (rs : gmap Z pending_reply) (rid : Z) : Prop :=
  match rs !! rid with Some r => waits_for m r = true | None => False end.

#[global] Instance waiting_dec m rs rid : Decision (waiting m rs rid).
Proof. unfold waiting. destruct (rs !! rid); apply _. Defined.

Lemma match_reply_spec req m r : header_is req m -> match_reply r req = Ret (waits_for m r).
Proof.
  intros Hm. destruct (header_getters _ _ Hm) as (_ & _ & Hid & _). unfold match_reply, waits_for. rewrite Hid, bind_ret.
  destruct (observing r); [|done]. by rewrite (token_of_spec _ _ Hm), bind_ret.
Qed.

(** A reply whose callback wants more waits without a timeout. *)
Definition settle (r : pending_reply) : pending_reply := if observing r then no_timeout r else r.

(** The packets of the replies [rids] *)
Definition asked (rs : gmap Z pending_reply) (rids : list Z) (pid : Z) : Prop :=
  exists rid r, rid ∈ rids /\ rs !! rid = Some r /\ reply_pkt r = pid.

(** The replies [rids] were looked after, with the calls [es]: those that
    [ans] does not accept are gone, the others stay, marked to go when their
    callback cancelled them; of what was in the queue only packets of these
    replies may be gone. *)
Record answers (ans : Z -> bool) (rids : list Z) (es : list server_event) (ms : Z -> message) (s : sol_coap_server)
    (ms' : Z -> message) (s' : sol_coap_server) : Prop := {
  answers_tended : tended (asked (replies s) rids) ms s ms' s';
  answers_old : Forall (fun x => x < next_id (q s)) rids;
  answers_pending : exists new, pending s' = filter (fun x => ~ (x ∈ rids /\ ans x = false)) (pending s) ++ new
    /\ Forall (fun x => next_id (q s) <= x) new;
  answers_others x : x < next_id (q s) -> (x ∉ rids) -> replies s' !! x = replies s !! x;
  answers_gone x : x ∈ rids -> ans x = false -> replies s' !! x = None;
  answers_stay x : x ∈ rids -> ans x = true -> exists r d, replies s !! x = Some r /\ replies s' !! x = Some (set_use (settle r) false d);
  answers_calls : calls (events s') = calls (events s) ++ es
}.

(** Each callback got the response and answered [ans]. *)
Definition told (response : option (sol_coap_packet * Z)) (ans : Z -> bool) (rids : list Z) : list server_event :=
  (fun x => Called x response (ans x)) <$> rids.

Lemma answers_none ans ms s : answers ans [] [] ms s ms s.
Proof.
  split; try by intros x ?%not_elem_of_nil.
  - apply steady_tended, steady_refl.
  - constructor.
  - exists []. split; [|constructor]. rewrite app_nil_r, filter_all; [done|]. apply Forall_forall. intros x _ [Hx _]. by apply not_elem_of_nil in Hx.
  - done.
  - by rewrite app_nil_r.
Qed.

Lemma answers_cons ans ans' rid rids es es' ms s ms1 s1 ms' s' : answers ans [rid] es ms s ms1 s1 -> answers ans' rids es' ms1 s1 ms' s' ->
  (rid ∉ rids) -> Forall (fun x => x < next_id (q s)) rids ->
  answers (fun x => if decide (x = rid) then ans rid else ans' x) (rid :: rids) (es ++ es') ms s ms' s'.
Proof.
  intros [Ht Ho (new & Hp & Hnew) Hr Hg Hy Hc] [Ht' _ (new' & Hp' & Hnew') Hr' Hg' Hy' Hc'] Hnot Hold. pose proof (tended_next _ _ _ _ _ Ht) as Hn.
  apply Forall_cons_1 in Ho as [Hrid _]. rewrite Forall_forall in Hold.
  assert (forall x, x ∈ rids -> replies s1 !! x = replies s !! x) as Hsame.
  { intros x Hx. apply Hr; [by apply Hold|]. rewrite list_elem_of_singleton. by intros ->. }
  assert (replies s' !! rid = replies s1 !! rid) as Hown by (apply Hr'; [lia|done]). split.
  - eapply tended_trans; (eapply tended_weaken; [|eassumption]); intros pid (x & r & Hx & Hrx & Hpkt); exists x, r.
    + apply list_elem_of_singleton in Hx as ->. split_and!; [by left|done|done].
    + rewrite Hsame in Hrx by done. split_and!; [by right|done|done].
  - constructor; [done|by apply Forall_forall].
  - exists (new ++ new'). rewrite Hp', Hp, filter_app, app_assoc. split.
    + f_equal. f_equal.
      * apply filter_twice. intros x _. rewrite list_elem_of_singleton, elem_of_cons. destruct (decide (x = rid)) as [->|Hx]; [|tauto]. intuition congruence.
      * apply filter_all. eapply Forall_impl; [exact Hnew|]. cbn. intros x Hx [Hin _]. specialize (Hold x Hin). lia.
    + apply Forall_app. split; [done|]. eapply Forall_impl; [exact Hnew'|]. cbn. intros. lia.
  - intros x Hx Hno. apply not_elem_of_cons in Hno as [Hne Hno]. rewrite Hr', Hr by (done || lia || by rewrite list_elem_of_singleton). done.
  - intros x Hx. destruct (decide (x = rid)) as [->|Hne]; [rewrite Hown; apply Hg; by left|]. apply elem_of_cons in Hx as [?|Hx]; [done|]. by apply Hg'.
  - intros x Hx. destruct (decide (x = rid)) as [->|Hne]; [rewrite Hown; apply Hy; by left|]. apply elem_of_cons in Hx as [?|Hx]; [done|].
    rewrite <- Hsame by done. by apply Hy'.
  - by rewrite Hc', Hc, app_assoc.
Qed.

Lemma answers_ext ans ans' rids es ms s ms' s' : (forall x, ans x = ans' x) -> answers ans rids es ms s ms' s' -> answers ans' rids es ms s ms' s'.
Proof.
  intros He [Ht Ho (new & Hp & Hnew) Hr Hg Hy Hc]. split; try done.
  - exists new. split; [|done]. rewrite Hp. f_equal. apply filter_same. intros x _. by rewrite He.
  - intros x. rewrite <- He. apply Hg.
  - intros x. rewrite <- He. apply Hy.
Qed.

Lemma told_cons response ans res rid rids : (rid ∉ rids) ->
  Called rid response res :: told response ans rids = told response (fun x => if decide (x = rid) then res else ans x) (rid :: rids).
Proof.
  intros Hnot. unfold told. cbn [fmap list_fmap]. rewrite decide_True by done. f_equal. apply list_fmap_ext.
  intros i x Hx%list_elem_of_lookup_2. rewrite decide_False; [done|]. by intros ->.
Qed.

Section Responses.
Context `{BuildConfig} `{Allocator} `{CoapEnv} `{ServerEnv} `{CoapProgram}.
Hypothesis Hpolite : polite.

(** A reply is dropped, after a few calls. *)
Lemma dropped_spec es ms pids s rid r ms3 s3 : server_inv ms None pids s -> replies s !! rid = Some r ->
  acted es rid ms s ms3 s3 -> server_inv ms3 None pids s3 ->
  reentrant_free s3 rid = Ret (without s3 rid) /\ server_inv ms3 None pids (without s3 rid)
  /\ answers (fun _ => false) [rid] es ms s ms3 (without s3 rid).
Proof.
  intros Hs Hr [Ht Hp Hrep Hown Hc] Hs3. pose proof (reply_each _ _ _ _ _ _ Hs Hr) as [Hlt _ Hask _ _].
  destruct (Hown r Hr) as [d Hr3]. destruct (free_reply_spec _ _ _ _ _ Hs3 Hr3) as [Hfree Hinv]. split_and!; [done|done|]. split.
  - eapply tended_weaken with (gone := eq (rid - 1)); [|by destruct Ht]. intros pid <-. exists rid, r. split_and!; [by left|done|done].
  - by constructor.
  - destruct Hp as [new Hp]. exists new. pose proof (new_replies ms pids s rid ms3 s3 new Hs Hs3 Hp Hrep ltac:(eauto)) as Hnew.
    split; [|done]. cbn. rewrite Hp, filter_app. f_equal.
    + apply filter_same. intros x _. rewrite list_elem_of_singleton. tauto.
    + apply filter_all. eapply Forall_impl; [exact Hnew|]. cbn. intros x Hx ->. lia.
  - intros x Hx Hne. apply not_elem_of_cons in Hne as [Hne _]. cbn. rewrite lookup_delete_ne by done. by apply Hrep.
  - intros x ->%list_elem_of_singleton _. cbn. by rewrite lookup_delete_eq.
  - done.
  - cbn. rewrite calls_app, Hc. unfold calls at 2. cbn. by rewrite app_nil_r.
Qed.

(** A reply is told and stays. *)
Lemma stays_spec es ms pids s rid r ms2 s2 r2 : server_inv ms None pids s -> replies s !! rid = Some r ->
  acted es rid ms s ms2 s2 -> server_inv ms2 None pids s2 -> replies s2 !! rid = Some r2 ->
  let s' := if observing r then set_reply s2 rid (no_timeout r2) else s2 in
  server_inv ms2 None pids s' /\ answers (fun _ => true) [rid] es ms s ms2 s'.
Proof.
  intros Hs Hr [Ht Hp Hrep Hown Hc] Hs2 Hr2. pose proof (reply_each _ _ _ _ _ _ Hs Hr) as [Hlt Hu Hask _ _]. rewrite bool_decide_false in Hu by done.
  destruct (Hown r Hr) as [d Hd]. rewrite Hr2 in Hd. injection Hd as ->. rewrite Hu in *. cbv zeta. split.
  { destruct (observing r) eqn:Ho; [|done]. apply (inv_update_reply _ None); [done|eauto| |done]. destruct (reply_each _ _ _ _ _ _ Hs2 Hr2). by split. }
  split.
  - eapply tended_weaken with (gone := eq (rid - 1)); [|by destruct (observing r), Ht].
    intros pid <-. exists rid, r. split_and!; [by left|done|done].
  - by constructor.
  - destruct Hp as [new Hp]. exists new. pose proof (new_replies ms pids s rid ms2 s2 new Hs Hs2 Hp Hrep ltac:(eauto)) as Hnew. split; [|done].
    transitivity (pending s2); [by destruct (observing r)|]. rewrite Hp. f_equal. symmetry. apply filter_all, Forall_forall. by intros x _ [_ ?].
  - intros x Hx Hne. apply not_elem_of_cons in Hne as [Hne _]. rewrite <- Hrep by done. destruct (observing r); [cbn; by rewrite lookup_insert_ne|done].
  - done.
  - intros x ->%list_elem_of_singleton _. exists r, d. split; [done|]. unfold settle.
    destruct (observing r); [cbn; by rewrite lookup_insert_eq|done].
  - by destruct (observing r).
Qed.

(** Does a reply that is not repeated stay? *)
Definition keeps (rs : gmap Z pending_reply) (ans : Z -> bool) (rid : Z) : bool :=
  match rs !! rid with Some r => ans rid && negb (observing r) | None => false end.

Lemma existsb_same {A} (f g : A -> bool) l : (forall x, x ∈ l -> f x = g x) -> existsb f l = existsb g l.
Proof.
  induction l as [|x l IH]; intros He; [done|]. cbn. rewrite (He x) by by left. f_equal. apply IH. intros. apply He. by right.
Qed.

(** What is in front of a reply is as it was once the reply was told. *)
Lemma front_kept ms pids s i rid res es ms1 s1 : server_inv ms None pids s -> pending s !! i = Some rid ->
  answers (fun _ => res) [rid] es ms s ms1 s1 ->
  take i (pending s1) = take i (pending s) /\ (i <= length (pending s1))%nat /\ (rid ∉ take i (pending s))
  /\ forall x, x ∈ take i (pending s) -> x < next_id (q s) /\ replies s1 !! x = replies s !! x.
Proof.
  intros Hs Hi [_ _ (new & Hp & _) Hr _ _ _]. pose proof (server_replies _ _ _ _ Hs) as [Hd Hl _ He].
  pose proof (take_drop_middle _ _ _ Hi) as Hsplit. assert (length (take i (pending s)) = i) as Hlen.
  { rewrite length_take. apply lookup_lt_Some in Hi. lia. }
  assert (rid ∉ take i (pending s)) as Hnot.
  { intros Hin. rewrite <- Hsplit in Hd. apply NoDup_app in Hd as (_ & Hd & _). apply (Hd rid Hin). by left. }
  assert (forall x, x ∈ take i (pending s) -> x < next_id (q s) /\ replies s1 !! x = replies s !! x) as Hold.
  { intros x Hx. assert (x ∈ pending s) as Hin by (rewrite <- Hsplit; apply elem_of_app; by left). apply Hl in Hin as [rx Hrx].
    pose proof (reply_old _ _ _ _ (He _ _ Hrx)). split; [done|]. apply Hr; [done|].
    intros ->%list_elem_of_singleton. done. }
  assert (take i (pending s1) = take i (pending s)) as Htake.
  { rewrite Hp, <- Hsplit at 1. rewrite filter_app, filter_all, <- app_assoc.
    - by apply take_app_length'.
    - apply Forall_forall. intros x Hx [->%list_elem_of_singleton _]. done. }
  split_and!; [done| |done|done]. rewrite <- Htake, length_take in Hlen. lia.
Qed.

(** *** Observations that end *)

Lemma Forall2_within {A B} (P Q : A -> B -> Prop) l k : Forall2 P l k -> (forall x y, x ∈ l -> P x y -> Q x y) -> Forall2 Q l k.
Proof. induction 1; intros HQ; constructor; [apply HQ; [by left|done]|]. apply IHForall2. intros. apply HQ; [by right|done]. Qed.

(** An observation whose callback wants no more *)
Definition over (rs : gmap Z pending_reply) (ans : Z -> bool) (rid : Z) : bool :=
  match rs !! rid with Some r => negb (ans rid) && observing r | None => false end.

(** Every observation that is over is ended with a request of its own that is
    put in the queue, unless something was lacking. *)
Definition observations_end (addr : Z) (ans : Z -> bool) (rids : list Z) (s : sol_coap_server) (ms' : Z -> message) (s' : sol_coap_server) : Prop :=
  lacking (q s') \/ exists oids, NoDup oids /\ Forall2 (ends_observation ms' s s' addr) (filter (fun x => over (replies s) ans x = true) rids) oids.

Lemma observations_none addr ans rids s ms' s' : Forall (fun x => over (replies s) ans x = false) rids -> observations_end addr ans rids s ms' s'.
Proof.
  intros Hall. right. exists []. split; [constructor|]. assert (filter (fun x => over (replies s) ans x = true) rids = []) as ->; [|constructor].
  induction Hall as [|x rids Hx _ IH]; [done|]. rewrite filter_cons_False; [done|]. by rewrite Hx.
Qed.

Lemma observation_later gone ms ms1 s1 ms' s s' addr rid oid : agree (next_id (q s1)) ms1 ms' -> ends_observation ms1 s s1 addr rid oid ->
  tended gone ms s1 ms' s' -> (forall pid, next_id (q s) <= pid -> ~ gone pid) -> ends_observation ms' s s' addr rid oid.
Proof.
  intros Hag (r & segs & pid & id & Hr & Hpath & Hsegs & Hpid & Hoid & Hm & Ho) Ht Hno. pose proof (tended_next _ _ _ _ _ Ht).
  exists r, segs, pid, id. split_and!; try (done || lia); [rewrite Hag by lia; done|]. apply (tended_outs _ _ _ _ _ Ht); [done|]. apply Hno. cbn. lia.
Qed.

Lemma observations_cons addr ans ans' pids rid rids es es' ms s ms1 s1 ms' s' : server_inv ms1 None pids s1 ->
  answers ans [rid] es ms s ms1 s1 -> answers ans' rids es' ms1 s1 ms' s' -> (rid ∉ rids) -> Forall (fun x => x < next_id (q s)) rids ->
  observations_end addr ans [rid] s ms1 s1 -> observations_end addr ans' rids s1 ms' s' ->
  observations_end addr (fun x => if decide (x = rid) then ans rid else ans' x) (rid :: rids) s ms' s'.
Proof.
  intros Hs1 Ha Ha' Hnot Hold [Hl|(oids & Hd & Hall)] Hend.
  { left. eapply lacking_later; [|exact Hl]. apply (tended_log _ _ _ _ _ (answers_tended _ _ _ _ _ _ _ Ha')). }
  destruct Hend as [?|(oids' & Hd' & Hall')]; [by left|right]. rewrite Forall_forall in Hold.
  pose proof (tended_next _ _ _ _ _ (answers_tended _ _ _ _ _ _ _ Ha)) as Hn.
  assert (forall x, x ∈ rids -> replies s1 !! x = replies s !! x) as Hsame.
  { intros x Hx. apply (answers_others _ _ _ _ _ _ _ Ha); [by apply Hold|]. rewrite list_elem_of_singleton. by intros ->. }
  exists (oids ++ oids'). split.
  - apply NoDup_app. split_and!; [done| |done]. intros oid Hin Hin'.
    apply list_elem_of_lookup in Hin as [i Hi], Hin' as [j Hj].
    destruct (Forall2_lookup_r _ _ _ _ _ Hall Hi) as (x & _ & r & segs & pid & id & _ & _ & _ & _ & Hlt & _).
    destruct (Forall2_lookup_r _ _ _ _ _ Hall' Hj) as (x' & _ & r' & segs' & pid' & id' & _ & _ & _ & _ & Hlt' & _). lia.
  - assert (filter (fun x => over (replies s) (fun y => if decide (y = rid) then ans rid else ans' y) x = true) (rid :: rids)
      = filter (fun x => over (replies s) ans x = true) [rid] ++ filter (fun x => over (replies s1) ans' x = true) rids) as ->.
    { rewrite (filter_app _ [rid] rids : filter _ (rid :: rids) = _). f_equal; apply filter_same; intros x Hx.
      - apply list_elem_of_singleton in Hx as ->. unfold over. by rewrite decide_True.
      - unfold over. rewrite Hsame by done. rewrite decide_False; [done|]. by intros ->. }
    apply Forall2_app.
    + eapply Forall2_impl; [exact Hall|]. intros x oid Hx. eapply observation_later; [|exact Hx|apply Ha'|]; [apply Ha'|].
      intros pid Hpid (y & r & Hy & Hry & Hask). pose proof (reply_asked _ _ _ _ (reply_each _ _ _ _ _ _ Hs1 Hry)). specialize (Hold _ Hy). lia.
    + eapply Forall2_within; [exact Hall'|]. intros x oid [_ Hx]%list_elem_of_filter (r & segs & pid & id & Hr & Hpath & Hsegs & Hpid & Hoid & Hm & Ho).
      rewrite Hsame in Hr by done. exists r, segs, pid, id. split_and!; done || lia.
Qed.

(** What is done once the callback has answered *)
Lemma told_spec req addr i ms pids s rid r res ms2 s2 r2 remove : server_inv ms None pids s -> replies s !! rid = Some r -> socket s = true ->
  acted [Called rid (Some (req, addr)) res] rid ms s ms2 s2 -> server_inv ms2 None pids s2 -> replies s2 !! rid = Some r2 ->
  exists ms1 s1, server_inv ms1 None pids s1 /\ answers (fun _ => res) [rid] [Called rid (Some (req, addr)) res] ms s ms1 s1
    /\ observations_end addr (fun _ => res) [rid] s ms1 s1
    /\ (if negb res
        then s ← (if observing r2 then '(_, s0) ← send_unobserve_packet s2 addr (reply_path r2) (reply_token r2); Ret s0 else Ret s2);
             s ← reentrant_free s rid; answer_loop s req addr i true remove
        else if negb (observing r2) then answer_loop s2 req addr i true false
        else answer_loop (set_reply s2 rid (no_timeout r2)) req addr i true remove)
       = answer_loop s1 req addr i true (remove && negb (res && negb (observing r))).
Proof.
  intros Hs Hr Hsock Ha2 Hs2 Hr2. destruct (acted_own _ _ _ _ _ _ Ha2 r Hr) as [d Hd]. rewrite Hr2 in Hd. injection Hd as Hd.
  assert (observing r2 = observing r /\ reply_path r2 = reply_path r /\ reply_token r2 = reply_token r) as (Hobs & Hpath & Htok) by (by subst r2).
  pose proof (reply_old _ _ _ _ (reply_each _ _ _ _ _ _ Hs Hr)) as Hlt. destruct res; cbn [negb andb].
  - destruct (stays_spec _ ms pids s rid r ms2 s2 r2 Hs Hr Ha2 Hs2 Hr2) as [Hs1 Ha1].
    exists ms2, (if observing r then set_reply s2 rid (no_timeout r2) else s2). split_and!; [done|done| |].
    + apply observations_none. constructor; [|done]. unfold over. by rewrite Hr.
    + rewrite Hobs. destruct (observing r); cbn [negb]; [by rewrite andb_true_r|by rewrite andb_false_r].
  - rewrite andb_true_r.
    destruct (maybe_unobserve_spec ms2 None pids s2 rid r2 addr Hs2 Hr2) as (ms3 & s3 & -> & Hs3 & Hg3 & _ & Hend); [rewrite <- Hsock; apply Ha2|].
    pose proof (tended_next _ _ _ _ _ (acted_tended _ _ _ _ _ _ Ha2)) as Hn.
    assert (acted [Called rid (Some (req, addr)) false] rid ms s ms3 s3) as Ha3.
    { rewrite <- (app_nil_r [Called _ _ _]). eapply acted_trans; [exact Ha2|]. apply grew_acted; [lia|done]. }
    rewrite bind_ret. destruct (dropped_spec _ ms pids s rid r ms3 s3 Hs Hr Ha3 Hs3) as (-> & Hinv & Ha).
    rewrite bind_ret. exists ms3, (without s3 rid). split_and!; [done|done| |done].
    destruct (observing r) eqn:Ho; [|apply observations_none; constructor; [|done]; unfold over; by rewrite Hr, Ho].
    destruct (Hend Hobs) as [Hl|(oid & rr & segs & pid & id & Hrr & Hp & Hsegs & Hpid & Hoid & Hm & Hout)]; [by left|right]. exists [oid].
    split; [apply NoDup_singleton|]. rewrite filter_cons_True by (unfold over; by rewrite Hr, Ho). rewrite filter_nil. constructor; [|constructor].
    rewrite Hr2 in Hrr. injection Hrr as <-. exists r, segs, pid, id. rewrite <- Hpath, <- Htok. cbn [without q record set_replies set_pending].
    split_and!; done || lia.
Qed.

Lemma answer_loop_spec req m addr i ms pids s found remove : server_inv ms None pids s -> socket s = true -> header_is req m ->
  (i <= length (pending s))%nat ->
  let rids := reverse (filter (waiting m (replies s)) (take i (pending s))) in
  exists ans ms' s', answer_loop s req addr i found remove
      = Ret (found || negb (bool_decide (rids = [])), remove && negb (existsb (keeps (replies s) ans) rids), s')
    /\ server_inv ms' None pids s' /\ answers ans rids (told (Some (req, addr)) ans rids) ms s ms' s'
    /\ observations_end addr ans rids s ms' s'.
Proof.
  revert ms s found remove. induction i as [|i IH]; intros ms s found remove Hs Hsock Hm Hi rids.
  { exists (fun _ => true), ms, s. subst rids. cbn. rewrite orb_false_r, andb_true_r.
    split_and!; [done|done|apply answers_none|by apply observations_none]. }
  cbn [answer_loop]. destruct (lookup_lt_is_Some_2 (pending s) i ltac:(lia)) as [rid Hrid]. rewrite Hrid.
  pose proof (take_S_r _ _ _ Hrid) as Htake.
  destruct (proj1 (replies_listed _ _ _ _ (server_replies _ _ _ _ Hs) rid) ltac:(by eapply list_elem_of_lookup_2)) as [r Hr].
  rewrite (reply_at_some _ _ _ Hr), bind_ret, (match_reply_spec _ _ r Hm), bind_ret.
  assert (waiting m (replies s) rid <-> waits_for m r = true) as Hw by (unfold waiting; by rewrite Hr).
  destruct (waits_for m r) eqn:Hwr; cbn [negb].
  2: { subst rids. rewrite Htake, filter_app, (filter_cons_False _ rid), app_nil_r by (rewrite Hw; done).
       apply (IH ms); [done..|lia]. }
  assert (rids = rid :: reverse (filter (waiting m (replies s)) (take i (pending s)))) as Hrids.
  { subst rids. by rewrite Htake, filter_app, (filter_cons_True _ rid), filter_nil, reverse_app by (by rewrite Hw). }
  set (rest := reverse _) in Hrids. clearbody rids. subst rids.
  destruct (call_reply_spec Hpolite ms pids s rid r (Some (req, addr)) Hs Hr ltac:(by left)) as (res & ms2 & s2 & Hcall & Hs2 & Ha2).
  rewrite Hcall, bind_ret. destruct (acted_own _ _ _ _ _ _ Ha2 r Hr) as [d Hr2]. rewrite (reply_at_some _ _ _ Hr2), bind_ret.
  assert (forall ms1 s1 f1 r1, server_inv ms1 None pids s1 -> answers (fun _ => res) [rid] [Called rid (Some (req, addr)) res] ms s ms1 s1 ->
    observations_end addr (fun _ => res) [rid] s ms1 s1 ->
    exists ans ms' s', answer_loop s1 req addr i f1 r1
        = Ret (f1 || negb (bool_decide (rest = [])), r1 && negb (existsb (keeps (replies s) ans) rest), s')
      /\ server_inv ms' None pids s' /\ ans rid = res /\ answers ans (rid :: rest) (told (Some (req, addr)) ans (rid :: rest)) ms s ms' s'
      /\ observations_end addr ans (rid :: rest) s ms' s') as Hnext.
  { intros ms1 s1 f1 r1 Hs1 Ha1 He1. destruct (front_kept ms pids s i rid res _ ms1 s1 Hs Hrid Ha1) as (Ht & Hlen & Hnot & Hold).
    assert (reverse (filter (waiting m (replies s1)) (take i (pending s1))) = rest) as Hrest.
    { subst rest. rewrite Ht. f_equal. apply filter_same. intros x Hx. unfold waiting. by destruct (Hold x Hx) as [_ ->]. }
    assert (forall x, x ∈ rest -> x ∈ take i (pending s)) as Hin.
    { intros x. subst rest. rewrite elem_of_reverse, list_elem_of_filter. by intros []. }
    assert (rid ∉ rest) as Hnot' by (intros Hx; by apply Hnot, Hin).
    assert (Forall (fun x => x < next_id (q s)) rest) as Hlt by (apply Forall_forall; intros x Hx; by apply Hold, Hin).
    assert (socket s1 = true) as Hsock1 by (rewrite <- Hsock; apply Ha1).
    destruct (IH ms1 s1 f1 r1 Hs1 Hsock1 Hm Hlen) as (ans & ms' & s' & Hrun & Hs' & Ha & He). cbv zeta in Hrun, Ha, He.
    rewrite Hrest in Hrun, Ha, He. fold rest in Hrun, Ha, He.
    exists (fun x => if decide (x = rid) then res else ans x), ms', s'.
    split; [|split; [done|split; [|split]]].
    - rewrite Hrun. f_equal. f_equal. f_equal. f_equal. f_equal. apply existsb_same. intros x Hx. unfold keeps. rewrite (proj2 (Hold x (Hin x Hx))).
      rewrite decide_False; [done|]. by intros ->.
    - by rewrite decide_True.
    - rewrite <- told_cons by done. by apply (answers_cons (fun _ => res) ans rid rest [_] _ _ _ ms1 s1).
    - exact (observations_cons addr (fun _ => res) ans pids rid rest [_] _ ms s ms1 s1 ms' s' Hs1 Ha1 Ha Hnot' Hlt He1 He). }
  rewrite (bool_decide_false (rid :: rest = [])) by done. cbn [negb]. rewrite orb_true_r. cbn [existsb].
  destruct (told_spec req addr i ms pids s rid r res ms2 s2 _ remove Hs Hr Hsock Ha2 Hs2 Hr2) as (ms1 & s1 & Hs1 & Ha1 & He1 & ->).
  destruct (Hnext ms1 s1 true (remove && negb (res && negb (observing r))) Hs1 Ha1 He1) as (ans & ms' & s' & -> & Hs' & Hres & Ha').
  exists ans, ms', s'. split; [|done]. f_equal. f_equal. f_equal. rewrite negb_orb, andb_assoc. f_equal. f_equal. unfold keeps. by rewrite Hr, Hres.
Qed.
End Responses.

(** ** The other ways a reply ends *)

Definition watching (token : list Z) (rs : gmap Z pending_reply) (rid : Z) : Prop :=
  match rs !! rid with Some r => match_observe_reply r token = true | None => False end.

Definition waits_on (pid : Z) (rs : gmap Z pending_reply) (rid : Z) : Prop :=
  match rs !! rid with Some r => reply_pkt r = pid | None => False end.

#[global] Instance waits_on_dec pid rs rid : Decision (waits_on pid rs rid).
Proof. unfold waits_on. destruct (rs !! rid); apply _. Defined.

Section Ends.
Context `{BuildConfig} `{Allocator} `{CoapEnv} `{ServerEnv} `{CoapProgram}.

Lemma cancel_loop_spec pid addr i ms pids s count : server_inv ms None pids s -> socket s = true -> (i <= length (pending s))%nat ->
  let rids := reverse (filter (waits_on pid (replies s)) (take i (pending s))) in
  exists ms' s', cancel_loop s pid addr i (wrapu 16 count) = Ret (wrapu 16 (count + blen rids), s')
    /\ server_inv ms' None pids s' /\ answers (fun _ => false) rids [] ms s ms' s'.
Proof.
  revert ms s count. induction i as [|i IH]; intros ms s count Hs Hsock Hi rids.
  { exists ms, s. subst rids. change (blen (reverse (filter _ _))) with 0. rewrite Z.add_0_r. split_and!; [done|done|apply answers_none]. }
  cbn [cancel_loop]. destruct (inv_pending _ _ _ _ i Hs Hi) as (rid & r & Hrid & Hr & Htake). rewrite Hrid, (reply_at_some _ _ _ Hr), bind_ret.
  assert (waits_on pid (replies s) rid <-> reply_pkt r = pid) as Hw by (unfold waits_on; by rewrite Hr).
  destruct (Z.eqb_spec (reply_pkt r) pid) as [He|Hne]; cbn [negb].
  2: { subst rids. rewrite Htake, filter_app, (filter_cons_False _ rid), app_nil_r by by rewrite Hw. apply (IH ms); [done..|lia]. }
  destruct (maybe_unobserve_spec ms None pids s rid r addr Hs Hr Hsock) as (ms2 & s2 & -> & Hs2 & Hg2 & _). rewrite bind_ret.
  pose proof (reply_old _ _ _ _ (reply_each _ _ _ _ _ _ Hs Hr)) as Hlt.
  destruct (dropped_spec [] ms pids s rid r ms2 s2 Hs Hr (grew_acted _ _ _ _ _ _ Hlt Hg2) Hs2) as (-> & Hinv & Ha). rewrite bind_ret. set (s3 := without s2 rid) in *.
  destruct (front_kept ms pids s i rid false [] ms2 s3 Hs Hrid Ha) as (Ht & Hlen & Hnot & Hold).
  assert (reverse (filter (waits_on pid (replies s3)) (take i (pending s3))) = reverse (filter (waits_on pid (replies s)) (take i (pending s)))) as Hrest.
  { rewrite Ht. f_equal. apply filter_same. intros x Hx. unfold waits_on. by destruct (Hold x Hx) as [_ ->]. }
  assert (socket s3 = true) as Hsock3 by (rewrite <- Hsock; apply Ha).
  assert (wrapu 16 (wrapu 16 count + 1) = wrapu 16 (count + 1)) as -> by (unfold wrapu; by rewrite Zplus_mod_idemp_l).
  destruct (IH ms2 s3 (count + 1) Hinv Hsock3 Hlen) as (ms' & s' & -> & Hs' & Ha'). cbv zeta in Ha'. rewrite Hrest in Ha' |- *.
  exists ms', s'. subst rids. rewrite Htake, filter_app, (filter_cons_True _ rid), filter_nil, reverse_app by by rewrite Hw.
  change (reverse [rid]) with [rid]. cbn [app]. split_and!; [rewrite blen_cons; do 3 f_equal; lia|done|].
  eapply answers_ext; [|apply (answers_cons (fun _ => false) (fun _ => false) rid _ [] [] _ _ ms2 s3); [done|done| |]].
  - intros x. cbn. by destruct (decide (x = rid)).
  - rewrite elem_of_reverse, list_elem_of_filter. by intros [_ ?].
  - apply Forall_forall. intros x. rewrite elem_of_reverse, list_elem_of_filter. intros [_ Hx]. by apply Hold.
Qed.

Section Polite.
Hypothesis Hpolite : polite.

(** The time of a reply is over: it goes on when its callback says so and
    did not cancel it. *)
Lemma timeout_spec ms pids s rid r : server_inv ms None pids s -> replies s !! rid = Some r -> socket s = true ->
  exists res more ms' s', pending_timeout_cb s rid = Ret (more, s') /\ server_inv ms' None pids s' /\ (more = true -> res = true)
    /\ if more then acted [Called rid None res] rid ms s ms' s' else answers (fun _ => false) [rid] [Called rid None res] ms s ms' s'.
Proof.
  intros Hs Hr Hsock. unfold pending_timeout_cb.
  destruct (call_reply_spec Hpolite ms pids s rid r None Hs Hr ltac:(by left)) as (res & ms2 & s2 & -> & Hs2 & Ha2). rewrite bind_ret.
  destruct (acted_own _ _ _ _ _ _ Ha2 r Hr) as [d Hr2]. rewrite (reply_at_some _ _ _ Hr2), bind_ret. exists res.
  destruct (res && negb (delete_me (set_use r (in_use r) d))) eqn:Hmore.
  - apply andb_true_iff in Hmore as [-> _]. by exists true, ms2, s2.
  - destruct (dropped_spec _ ms pids s rid r ms2 s2 Hs Hr Ha2 Hs2) as (-> & Hinv & Ha). rewrite bind_ret. by exists false, ms2, (without s2 rid).
Qed.

Lemma unobserve_loop_spec addr token i ms pids s : server_inv ms None pids s -> socket s = true -> token_ok token -> (i <= length (pending s))%nat ->
  Forall (fun rid => ~ watching token (replies s) rid) (drop i (pending s)) ->
  Forall (fun rid => ~ watching token (replies s) rid) (pending s) /\ unobserve_loop s addr token i = Ret (- ENOENT, s)
  \/ exists pre rid post x res ms' s', pending s = pre ++ rid :: post /\ watching token (replies s) rid
       /\ Forall (fun rid => ~ watching token (replies s) rid) post
       /\ unobserve_loop s addr token i = Ret (x, s') /\ server_inv ms' None pids s'
       /\ answers (fun _ => false) [rid] [Called rid None res] ms s ms' s'.
Proof.
  intros Hs Hsock Htok. induction i as [|i IH]; intros Hi Hpost; [left; by rewrite drop_0 in Hpost|].
  cbn [unobserve_loop]. destruct (inv_pending _ _ _ _ i Hs Hi) as (rid & r & Hrid & Hr & Htake). rewrite Hrid, (reply_at_some _ _ _ Hr), bind_ret.
  assert (watching token (replies s) rid <-> match_observe_reply r token = true) as Hw by (unfold watching; by rewrite Hr).
  destruct (match_observe_reply r token) eqn:Hm; cbn [negb].
  2: { apply IH; [lia|]. rewrite (drop_S _ _ _ Hrid). constructor; [by rewrite Hw|done]. }
  right. destruct (call_reply_spec Hpolite ms pids s rid r None Hs Hr ltac:(by left)) as (res & ms2 & s2 & -> & Hs2 & Ha2). rewrite bind_ret.
  destruct (acted_own _ _ _ _ _ _ Ha2 r Hr) as [d Hr2].
  rewrite (reply_at_some _ _ _ Hr2), bind_ret. apply andb_true_iff in Hm as [Ho _].
  destruct (path_of_reply _ _ _ _ _ _ Hs Hr Ho) as (segs & Hpath & Hsegs). change (reply_path (set_use _ _ _)) with (reply_path r). rewrite Hpath.
  destruct (unobserve_spec ms2 None pids s2 addr segs token Hs2) as (x & ms3 & s3 & -> & Hs3 & Hg3 & _); [|done|done|].
  { rewrite <- Hsock. apply Ha2. }
  pose proof (reply_old _ _ _ _ (reply_each _ _ _ _ _ _ Hs2 Hr2)) as Hlt.
  pose proof (acted_trans _ _ _ _ _ _ _ _ _ Ha2 (grew_acted _ _ _ _ _ _ Hlt Hg3)) as Ha3. rewrite app_nil_r in Ha3.
  rewrite bind_ret. destruct (dropped_spec _ ms pids s rid r ms3 s3 Hs Hr Ha3 Hs3) as (-> & Hinv & Ha).
  rewrite bind_ret. exists (take i (pending s)), rid, (drop (S i) (pending s)), x, res, ms3, (without s3 rid).
  split_and!; [by rewrite take_drop_middle|by apply Hw|done|done|done|done].
Qed.

(** When the server goes away a callback does nothing. *)
Lemma call_closed s rid r : replies s !! rid = Some r -> in_use r = false -> socket s = false ->
  exists res, call_reply s rid None = Ret (res, record s (Called rid None res)).
Proof.
  intros Hr Hu Hc. unfold call_reply. rewrite (reply_at_some _ _ _ Hr), bind_ret, Hu. cbv zeta. set (s1 := set_reply s rid _).
  pose proof (polite_end Hpolite s1 (cb r) Hc) as Hend. destruct (reply_cb s1 (cb r) None) as [acts res]. cbn in Hend. subst acts.
  cbn [run_actions]. rewrite bind_ret. change (reply_at (record s1 (Called rid None res)) rid) with (reply_at s1 rid). subst s1.
  rewrite reply_at_same, bind_ret. change (set_use (set_use _ _ _) _ (delete_me _)) with (set_use r false (delete_me r)). rewrite <- Hu, set_use_same.
  exists res. do 2 f_equal.
  unfold set_reply, set_replies, record. cbn. rewrite insert_insert_eq, insert_id by done. done.
Qed.

Lemma destroy_loop_spec i ms pids s : server_inv ms None pids s -> socket s = false -> i = length (pending s) ->
  exists ans s', destroy_loop s i = Ret s' /\ server_inv ms None pids s' /\ pending s' = [] /\ q s' = q s /\ contexts s' = contexts s /\ subscribed s' = subscribed s
    /\ calls (events s') = calls (events s) ++ told None ans (reverse (pending s)).
Proof.
  revert s. induction i as [|i IH]; intros s Hs Hc Hi.
  { destruct (pending s) eqn:Hp; [|done]. exists (fun _ => true), s. cbn. rewrite app_nil_r. by split_and!. }
  cbn [destroy_loop]. destruct (inv_pending _ _ _ _ i Hs ltac:(lia)) as (rid & r & Hrid & Hr & Htake).
  rewrite <- Hi in Htake || rewrite Hi in Htake. rewrite Hrid. rewrite take_ge in Htake by done.
  pose proof (reply_idle _ _ _ _ _ Hs Hr) as Hu. destruct (call_closed s rid r Hr Hu Hc) as (res & ->). rewrite bind_ret.
  destruct (free_reply_spec ms pids (record s (Called rid None res)) rid r (inv_record _ _ _ _ _ Hs) Hr) as [-> Hinv]. rewrite bind_ret.
  set (s1 := without _ rid) in *.
  assert (pending s1 = take i (pending s)) as Hp1.
  { pose proof (replies_distinct _ _ _ _ (server_replies _ _ _ _ Hs)) as Hnd. rewrite Htake in Hnd. apply NoDup_app in Hnd as (_ & Hnd & _).
    cbn. rewrite Htake at 1. rewrite filter_app, (filter_cons_False _ rid), filter_nil, app_nil_r by tauto. apply filter_all, Forall_forall.
    intros x Hx ->. apply (Hnd rid Hx). by left. }
  destruct (IH s1 Hinv Hc) as (ans & s' & -> & Hs' & Hpend & Hq & Hctx & Hsub & Hcalls); [rewrite Hp1, length_take; lia|].
  exists (fun x => if decide (x = rid) then res else ans x), s'. split_and!; [done|done|done|done|done|done|].
  assert (reverse (pending s) = rid :: reverse (take i (pending s))) as -> by (rewrite Htake at 1; by rewrite reverse_app).
  rewrite Hcalls, Hp1, <- told_cons.
  - change (events s1) with ((events s ++ [Called rid None res]) ++ [Dropped rid]). rewrite !calls_app.
    change (calls [Dropped rid]) with (@nil server_event). change (calls [Called rid None res]) with [Called rid None res].
    by rewrite app_nil_r, <- app_assoc.
  - rewrite elem_of_reverse. intros Hx. pose proof (replies_distinct _ _ _ _ (server_replies _ _ _ _ Hs)) as Hnd. rewrite Htake in Hnd.
    apply NoDup_app in Hnd as (_ & Hnd & _). apply (Hnd rid Hx). by left.
Qed.
End Polite.
End Ends.
End CoapServerReplies.
