(* ===== verification/CoapServerRequests.v ===== *)
(** * A CoAP server: what comes in

    What a datagram tells of its header, path and Observe option ([arrived]);
    observers; dispatch to the resources; the list of resources; responses. *)

From S2P Require Import Prelude Arith Str Codec Buffer Coap CoapProofs CoapBuild CoapRequest CoapQueue CoapQueueProofs CoapServer CoapServerInv CoapServerReplies.
Import Buffer Coap CoapProofs CoapBuild CoapRequest CoapQueue CoapQueueProofs CoapServer CoapServerInv CoapServerReplies.

#[local] Open Scope Z_scope.

Module CoapServerRequests.

(** ** Requests *)

(** What came in: its header and token, its options, and a code that the
    library knows *)
Record arrived (req : sol_coap_packet) (m : message) (os : list (Z * list Z)) : Prop := {
  arrived_header : header_is req m;
  arrived_bytes : exists l rest, datagram (buf req) l /\ blen l <= INT16_MAX /\ packet_bytes l (m_token m) os rest;
  arrived_code : m_code m ∈ known_codes
}.

(** The message of a header *)
Definition header_message (h0 h1 h2 h3 : Z) (token : list Z) : message :=
  Message (h0 / 64) (h0 / 16 mod 4) h1 (256 * h2 + h3) token [] None.

Lemma header_found req h0 h1 h2 h3 token body l : datagram (buf req) l -> l = h0 :: h1 :: h2 :: h3 :: token ++ body ->
  blen token = h0 mod 16 -> blen token <= 8 -> header_is req (header_message h0 h1 h2 h3 token).
Proof.
  intros [Hrep Hb _] -> Ht H8. apply Forall_cons_1 in Hb as [Hb0 Hb]. apply Forall_cons_1 in Hb as [Hb1 Hb].
  apply Forall_cons_1 in Hb as [Hb2 Hb]. apply Forall_cons_1 in Hb as [Hb3 Hb]. apply Forall_app in Hb as [Hb _]. unfold is_byte in *. split.
  - split; cbn; try done; [dlia|dlia|lia].
  - exists body. unfold encode_header, header_message. cbn [m_token m_type m_ver m_code m_id app].
    replace (blen token + 16 * (h0 / 16 mod 4) + 64 * (h0 / 64)) with h0 by dlia.
    replace ((256 * h2 + h3) / 256) with h2 by dlia. replace ((256 * h2 + h3) mod 256) with h3 by dlia. exact Hrep.
Qed.

(** A datagram that parses is a request that has arrived, when its code is known. *)
Lemma parsed_arrived req l : datagram (buf req) l -> blen l <= INT16_MAX -> (forall c, l !! 1%nat = Some c -> c ∈ known_codes) ->
  exists r req', coap_packet_parse req = Ret (r, req') /\ (r < 0 \/ r = 0 /\ exists m os, arrived req' m os).
Proof.
  intros Hdg Hs Hcode. destruct (packet_parse_spec req l Hdg) as (r & req' & Hrun & Hcase). exists r, req'. split; [done|].
  destruct Hcase as [(-> & token & os & rest & Hpb & ->)|(-> & _)]; [right|by left]. split; [done|].
  pose proof Hpb as (body & (h0 & h1 & h2 & h3 & Hl & Ht & H8) & _).
  exists (header_message h0 h1 h2 h3 token), os. split.
  - by apply (header_found _ _ _ _ _ _ body l).
  - by exists l, rest.
  - apply Hcode. by rewrite Hl.
Qed.

(** The value of the first Observe option, its bytes the wrong way round and
    with their signs *)
Definition observe_of (os : list (Z * list Z)) : Z :=
  match head (values SOL_COAP_OPTION_OBSERVE os) with
  | None => - ENOENT
  | Some [] => 0
  | Some [a] => wraps 8 a
  | Some [a; b] => Z.lor (Z.shiftl (wraps 8 a) 0) (Z.shiftl (wraps 8 b) 8)
  | Some [a; b; c] => Z.lor (Z.lor (Z.shiftl (wraps 8 a) 0) (Z.shiftl (wraps 8 b) 8)) (Z.shiftl (wraps 8 c) 16)
  | Some _ => - EINVAL
  end.

Lemma data_at_nth b l s v i x : rep b l -> spans l s v -> v !! i = Some x -> data_at b s (Z.of_nat i) = Ret (wraps 8 x).
Proof.
  intros Hrep (y & z & -> & ->) Hi. unfold data_at. cbn [StrSlice.off]. destruct (buf_rep_storage _ _ Hrep) as (rest & -> & _ & _).
  rewrite (at_index_some _ _ x); [by rewrite bind_ret|pose proof (blen_nonneg y); lia|].
  rewrite Z2Nat.inj_add, blen_to_nat, Nat2Z.id by (apply blen_nonneg || lia). rewrite <- !app_assoc, lookup_app_r by lia.
  replace (length y + i - length y)%nat with i by lia. apply lookup_app_l_Some, Hi.
Qed.

Lemma observe_option_spec req m os : arrived req m os -> get_observe_option req = Ret (observe_of os).
Proof.
  intros [_ (l & rest & Hdg & Hs & Hpb) _]. unfold get_observe_option, observe_of.
  destruct (options_find_spec req l _ os rest SOL_COAP_OPTION_OBSERVE 1 Hdg Hs Hpb ltac:(lia)) as (ss & -> & Hss). rewrite bind_ret.
  pose proof (datagram_rep _ _ Hdg) as Hrep. destruct (values SOL_COAP_OPTION_OBSERVE os) as [|v vs]; cbn [head].
  { change (take (Z.to_nat 1) []) with (@nil (list Z)) in Hss. inversion Hss; subst. done. }
  change (take (Z.to_nat 1) (v :: vs)) with [v] in Hss. inversion Hss as [|o ? ? ? Ho Hn]; subst. inversion Hn; subst.
  change (blen [o] <=? 0) with false. cbn [head].
  assert (StrSlice.len o = blen v) as Hlen by (by destruct Ho as (? & ? & _ & ->)). rewrite Hlen.
  pose proof (fun i x => data_at_nth (buf req) l o v i x Hrep Ho) as Hat.
  destruct v as [|a [|b [|c [|d v]]]]; cbv iota.
  - done.
  - exact (Hat 0%nat a eq_refl).
  - change (blen [a; b] =? 0) with false. change (blen [a; b] =? 1) with false. change (blen [a; b] =? 2) with true. cbv iota.
    rewrite (Hat 0%nat a eq_refl : data_at _ _ 0 = _), bind_ret, (Hat 1%nat b eq_refl : data_at _ _ 1 = _), bind_ret. done.
  - change (blen [a; b; c] =? 0) with false. change (blen [a; b; c] =? 1) with false. change (blen [a; b; c] =? 2) with false.
    change (blen [a; b; c] =? 3) with true. cbv iota.
    rewrite (Hat 0%nat a eq_refl : data_at _ _ 0 = _), bind_ret, (Hat 1%nat b eq_refl : data_at _ _ 1 = _), bind_ret,
      (Hat 2%nat c eq_refl : data_at _ _ 2 = _), bind_ret. done.
  - pose proof (blen_nonneg v). rewrite !blen_cons. rewrite !(proj2 (Z.eqb_neq _ _)) by lia. done.
Qed.

(** The handler of a resource for a method *)
Definition method_of (res : sol_coap_resource) (code : Z) : option Z :=
  if code =? SOL_COAP_METHOD_GET then get res
  else if code =? SOL_COAP_METHOD_POST then post res
  else if code =? SOL_COAP_METHOD_PUT then put res
  else if code =? SOL_COAP_METHOD_DELETE then del res else None.

Definition route (os : list (Z * list Z)) (code : Z) (res : sol_coap_resource) : option Z :=
  if bool_decide (path res = take 16 (values SOL_COAP_OPTION_URI_PATH os) ++ [[]]) then method_of res code else None.

Definition path_ends (res : sol_coap_resource) : Prop := exists segs, path res = segs ++ [[]] /\ Forall (fun s => s <> []) segs.

Lemma code_spec req m os : arrived req m os -> sol_coap_header_get_code req = Ret (0, Some (m_code m)).
Proof.
  intros [Hm _ Hc]. destruct (header_getters _ _ Hm) as (_ & _ & _ & -> & _). by rewrite bool_decide_true.
Qed.

Lemma find_resource_spec req m os res : arrived req m os -> path_ends res ->
  find_resource_cb req res = Ret (route os (m_code m) res).
Proof.
  intros Hreq (segs & Hpath & Hne). pose proof (code_spec _ _ _ Hreq) as Hcode. destruct Hreq as [_ (l & rest & Hdg & Hs & Hpb) _].
  unfold find_resource_cb, route. rewrite Hpath, (uri_path_eq_spec _ _ _ _ _ _ Hdg Hs Hpb Hne), bind_ret.
  assert (bool_decide (segs ++ [[]] = take 16 (values SOL_COAP_OPTION_URI_PATH os) ++ [[]]) = bool_decide (take 16 (values SOL_COAP_OPTION_URI_PATH os) = segs)) as ->.
  { apply bool_decide_ext. split; [by intros ?%app_inv_tail|by intros ->]. }
  case_bool_decide; cbn [negb]; [|done]. rewrite Hcode, bind_ret. done.
Qed.

Lemma ping_spec req m os : arrived req m os -> exists p, is_coap_ping req = Ret p
  /\ (p = true -> m_type m = SOL_COAP_MESSAGE_TYPE_CON /\ m_code m = SOL_COAP_CODE_EMPTY /\ m_token m = []).
Proof.
  intros Hreq. destruct (header_getters _ _ (arrived_header _ _ _ Hreq)) as (_ & Ht & _ & _ & Hk & _).
  unfold is_coap_ping. rewrite Hk, bind_ret, Ht, bind_ret, (code_spec _ _ _ Hreq), bind_ret.
  destruct (Z.eqb_spec (m_type m) SOL_COAP_MESSAGE_TYPE_CON) as [Hty|]; cbn [negb]; [|by exists false].
  destruct (Z.eqb_spec (m_code m) SOL_COAP_CODE_EMPTY) as [Hco|]; cbn [andb negb]; [|by exists false].
  destruct (Z.eqb_spec (blen (m_token m)) 0) as [Htk|]; cbn [negb]; [|by exists false].
  assert (exists p, sol_coap_packet_has_payload req = Ret p) as [p ->].
  { destruct Hreq as [_ (l & rest & Hdg & _ & Hpb) _]. unfold sol_coap_packet_has_payload.
    destruct (header_len_spec req l (datagram_rep _ _ Hdg)) as [(? & ? & _ & ->)|[-> _]]; rewrite bind_ret; by destruct (_ <? 0); eexists. }
  rewrite bind_ret. exists (negb p). split; [done|]. intros _. by apply blen_zero_nil in Htk.
Qed.

(** ** Observers *)

#[global] Instance resource_observer_dec : EqDecision resource_observer.
Proof. solve_decision. Defined.

Lemma find_observer_spec l addr token n : (n <= length l)%nat ->
  match find_observer l addr token n with
  | Some i => l !! i = Some {| obs_addr := addr; obs_token := token |}
  | None => {| obs_addr := addr; obs_token := token |} ∉ take n l
  end.
Proof.
  induction n as [|n IH]; intros Hn; cbn [find_observer]; [by intros ?%not_elem_of_nil|].
  destruct (lookup_lt_is_Some_2 l n ltac:(lia)) as [[a t] Ho]. rewrite Ho. cbn [obs_addr obs_token]. case_bool_decide as Hd.
  - by destruct Hd as [-> ->].
  - specialize (IH ltac:(lia)). destruct (find_observer l addr token n); [done|]. rewrite (take_S_r _ _ _ Ho), elem_of_app, list_elem_of_singleton.
    intros [?|[= -> ->]]; [done|]. by apply Hd.
Qed.

Section Observers.
Context `{ServerEnv}.

(** There is no memory for an observer or no room in the list. *)
Definition no_observer (s : sol_coap_server) (c : resource_context) : Prop :=
  observer_memory s = false \/ observers_memory s = false \/ blen (observers c) = UINT16_MAX.

(** An observer is added once, or taken away. *)
Definition registered (s : sol_coap_server) (o : resource_observer) (observe : Z) (c : resource_context) (r : Z) (c' : resource_context) : Prop :=
  resource c' = resource c /\ age c' = age c
  /\ if decide (o ∈ observers c)
     then r = 0 /\ observers c' = if observe =? 1 then filter (fun x => x <> o) (observers c) else observers c
     else r = 0 /\ observers c' = observers c ++ [o] \/ r = - ENOMEM /\ observers c' = observers c /\ no_observer s c.

Lemma register_observer_spec s c req m addr observe : header_is req m -> context_ok c ->
  exists r c', register_observer s c req addr observe = Ret (r, c') /\ context_ok c'
    /\ registered s {| obs_addr := addr; obs_token := m_token m |} observe c r c'.
Proof.
  intros Hm Hc. pose proof Hc as [Hd Ht Hl Ha]. unfold register_observer. rewrite (token_of_spec _ _ Hm), bind_ret. set (o := Build_resource_observer _ _).
  pose proof (find_observer_spec (observers c) addr (m_token m) _ (le_n _)) as Hf. rewrite firstn_all in Hf. fold o in Hf.
  unfold registered. destruct (find_observer _ _ _ _) as [i|].
  - destruct (decide (o ∈ observers c)) as [_|Hno]; [|by apply list_elem_of_lookup_2 in Hf]. exists 0. destruct (observe =? 1); [|by exists c].
    exists (set_observers c (delete i (observers c))). rewrite (delete_without _ _ _ Hd Hf). split; [done|]. split; [|done].
    split; cbn; [by apply NoDup_filter|apply Forall_forall; intros x [_ Hx]%list_elem_of_filter; by apply (proj1 (Forall_forall _ _) Ht)| |done].
    pose proof (length_filter (fun x => x <> o) (observers c)). unfold blen in *. lia.
  - destruct (decide (o ∈ observers c)) as [?|_]; [done|]. unfold no_observer.
    destruct (observer_memory s) eqn:Hom; cbn [negb]; [|exists (- ENOMEM), c; split_and!; auto 6].
    destruct (Z.eqb_spec (blen (observers c)) UINT16_MAX); cbn [orb]; [exists (- ENOMEM), c; split_and!; auto 6|].
    destruct (observers_memory s) eqn:Hoss; cbn [negb]; [|exists (- ENOMEM), c; split_and!; auto 6].
    exists 0, (set_observers c (observers c ++ [o])). split; [done|]. split; [|by split_and!; [..|left]].
    split; cbn; [| |rewrite blen_app; change (blen [o]) with 1; lia|done].
    + apply NoDup_app. split_and!; [done|by intros x Hx ->%list_elem_of_singleton|apply NoDup_singleton].
    + apply Forall_app. split; [done|]. constructor; [|done]. apply wf_token_ok, Hm.
Qed.
End Observers.

(** ** Dispatch *)

(** The resources and what is around them stay. *)
Record aside (ms : Z -> message) (s : sol_coap_server) (ms' : Z -> message) (s' : sol_coap_server) : Prop := {
  aside_agree : agree (next_id (q s)) ms ms';
  aside_next : next_id (q s) <= next_id (q s');
  aside_contexts : contexts s' = contexts s;
  aside_unknown : unknown_handler s' = unknown_handler s;
  aside_socket : socket s' = socket s;
  aside_subscribed : subscribed s' = subscribed s
}.

Lemma steady_aside ms s ms' s' : steady ms s ms' s' -> aside ms s ms' s'.
Proof. intros []. by split. Qed.

Lemma tended_aside gone ms s ms' s' : tended gone ms s ms' s' -> aside ms s ms' s'.
Proof. intros []. by split. Qed.

Lemma aside_refl ms s : aside ms s ms s.
Proof. by split. Qed.

Lemma aside_trans ms s ms' s' ms'' s'' : aside ms s ms' s' -> aside ms' s' ms'' s'' -> aside ms s ms'' s''.
Proof. intros [Ha Hn Hc Hu Hs Hw] [Ha' Hn' Hc' Hu' Hs' Hw']. split; try congruence; [by eapply agree_trans|lia]. Qed.

Section Dispatch.
Context `{BuildConfig} `{Allocator} `{CoapEnv} `{ServerEnv} `{CoapProgram}.

Lemma cancel_packet_spec ms pids s pid addr : server_inv ms None pids s -> socket s = true ->
  exists n x r ms' s', cancel_outgoing (q s) pid = Ret (n, x) /\ sol_coap_cancel_send_packet s pid addr = Ret (r, s')
    /\ server_inv ms' None pids s' /\ aside ms s ms' s' /\ vec x = filter (kept (fun o => o_pkt o =? pid) (q s)) (vec (q s))
    /\ n = blen (filter (fun oid => ~ kept (fun o => o_pkt o =? pid) (q s) oid) (vec (q s)))
    /\ let rids := reverse (filter (waits_on pid (replies s)) (pending s)) in
       answers (fun _ => false) rids [] ms (set_q s x) ms' s' /\ r = if wrapu 16 (n + blen rids) =? 0 then - ENOENT else 0.
Proof.
  intros Hs Hsock. pose proof (server_queue _ _ _ _ Hs) as Hq.
  destruct (cancel_spec ms (owned pids) (q s) pid (proj1 Hq)) as (x & Hrun & Hx & Hsh & Hv). unfold sol_coap_cancel_send_packet.
  set (n := blen _) in *. rewrite Hrun, bind_ret. cbv zeta.
  assert (quiet (q s) x) as Hqx by (by eapply remove_quiet).
  assert (server_inv ms None pids (set_q s x)) as Hsx.
  { eapply inv_set_q; [exact Hs|by eapply orderly_shrunk|]. destruct Hqx as [_ Hn]. lia. }
  destruct (cancel_loop_spec pid addr _ ms pids (set_q s x) n Hsx Hsock (le_n _)) as (ms' & s' & Hrun2 & Hs' & Ha). cbv zeta in Hrun2, Ha.
  rewrite firstn_all in Hrun2, Ha. cbn [set_q pending replies] in Hrun2, Ha. change (pending (set_q s x)) with (pending s). rewrite Hrun2, bind_ret.
  exists n, x, (if wrapu 16 (n + blen (reverse (filter (waits_on pid (replies s)) (pending s)))) =? 0 then - ENOENT else 0), ms', s'.
  split_and!; try done. eapply aside_trans; [|eapply tended_aside; exact (answers_tended _ _ _ _ _ _ _ Ha)].
  split; try done. cbn. destruct Hqx as [_ ->]. done.
Qed.

Lemma fair_spec ms pids s acts : server_inv ms None pids s -> socket s = true -> Forall fair acts ->
  exists ms' s', run_actions s acts = Ret s' /\ server_inv ms' None pids s' /\ aside ms s ms' s' /\ calls (events s') = calls (events s).
Proof.
  intros Hs Hsock Hacts. revert ms s Hs Hsock. induction Hacts as [|a acts Ha _ IH]; intros ms s Hs Hsock; cbn [run_actions].
  { exists ms, s. split_and!; [done|done|apply aside_refl|done]. }
  assert (forall r ms1 s1, server_inv ms1 None pids s1 -> aside ms s ms1 s1 -> calls (events s1) = calls (events s) ->
    exists ms' s', ('(_, s) ← Ret (r : Z, s1); run_actions s acts) = Ret s' /\ server_inv ms' None pids s' /\ aside ms s ms' s' /\ calls (events s') = calls (events s)) as Hnext.
  { intros r ms1 s1 Hs1 Ha1 Hc1. rewrite bind_ret. destruct (IH ms1 s1 Hs1) as (ms' & s' & -> & Hs' & Ha' & Hc'); [rewrite <- Hsock; apply Ha1|].
    exists ms', s'. split_and!; [done|done|by eapply aside_trans|congruence]. }
  destruct a as [p addr c|pid addr].
  - destruct Ha as [m Hm]. destruct (server_send_spec ms None pids s p m addr c Hs Hsock Hm) as (r & ms1 & s1 & -> & Hs1 & Hg1 & _).
    eapply Hnext; [done|apply steady_aside, Hg1|]. rewrite (grown_calls _ _ _ _ _ Hg1). apply app_nil_r.
  - destruct (cancel_packet_spec ms pids s pid addr Hs Hsock) as (n & x & r & ms1 & s1 & _ & -> & Hs1 & Ha1 & _ & _ & Hans & _).
    eapply Hnext; [done|done|]. rewrite (answers_calls _ _ _ _ _ _ _ Hans). apply app_nil_r.
Qed.

(** The handler [h] answered [r] when it found the server in the state [s],
    and the server is [s'] after what it did. *)
Definition handled_in (s : sol_coap_server) (h : Z) (req : sol_coap_packet) (addr r : Z) (s' : sol_coap_server) : Prop :=
  exists acts, handler_cb s h req addr = (acts, r) /\ run_actions (record s (Handled h addr r)) acts = Ret s'.

Section Polite.
Hypothesis Hpolite : polite.

Lemma call_handler_spec ms pids s h req addr : server_inv ms None pids s -> socket s = true ->
  exists r ms' s', call_handler s h req addr = Ret (r, s') /\ server_inv ms' None pids s' /\ aside ms s ms' s'
    /\ calls (events s') = calls (events s) ++ [Handled h addr r] /\ handled_in s h req addr r s'.
Proof.
  intros Hs Hsock. unfold call_handler, handled_in. pose proof (polite_handler Hpolite s h req addr) as Hacts.
  destruct (handler_cb s h req addr) as [acts r]. cbn [fst] in Hacts.
  destruct (fair_spec ms pids (record s (Handled h addr r)) acts (inv_record _ _ _ _ _ Hs) Hsock Hacts) as (ms' & s' & Hrun & Hs' & [] & Hc).
  rewrite Hrun, bind_ret. exists r, ms', s'. split_and!; [done|done|by split|rewrite Hc; cbn; by rewrite calls_app|by exists acts].
Qed.
End Polite.
End Dispatch.

(** The first resource with the path and a handler for the method *)
Fixpoint routed `{CoapProgram} (os : list (Z * list Z)) (code : Z) (cs : list resource_context) : option (nat * Z) :=
  match cs with
  | [] => None
  | c :: cs =>
      match route os code (resource_at (resource c)) with
      | Some h => Some (0%nat, h)
      | None => prod_map S id <$> routed os code cs
      end
  end.

Section Requests.
Context `{BuildConfig} `{Allocator} `{CoapEnv} `{ServerEnv} `{CoapProgram}.

(** What becomes of a request: the observer is registered, and then its
    resource's handler is called; without one it is the handler for unknown
    resources that is called; without that it is answered with 4.04. *)
Definition dispatched (ms : Z -> message) (s : sol_coap_server) (ms' : Z -> message) (s' : sol_coap_server) (req : sol_coap_packet)
    (m : message) (os : list (Z * list Z)) (addr r : Z) (cs : list resource_context) (i : nat) : Prop :=
  match routed os (m_code m) cs with
  | Some (j, h) =>
      exists c c' x, contexts s !! (i + j)%nat = Some c
        /\ (if 0 <=? observe_of os then registered s {| obs_addr := addr; obs_token := m_token m |} (observe_of os) c x c' else c' = c)
        /\ handled_in (update_context s (i + j) c') h req addr r s'
        /\ contexts s' = <[(i + j)%nat := c']> (contexts s) /\ calls (events s') = calls (events s) ++ [Handled h addr r]
  | None =>
      match unknown_handler s with
      | Some h => handled_in s h req addr r s' /\ contexts s' = contexts s /\ calls (events s') = calls (events s) ++ [Handled h addr r]
      | None => grown ms s ms' s' /\ answered_with ms s ms' s' (with_code SOL_COAP_RESPONSE_CODE_NOT_FOUND) m addr r
      end
  end.

Lemma update_context_same s i c : contexts s !! i = Some c -> update_context s i c = s.
Proof. intros Hi. unfold update_context. rewrite list_insert_id by done. by destruct s. Qed.

Lemma update_context_inv ms busy pids s i c c' : server_inv ms busy pids s -> contexts s !! i = Some c -> context_ok c' ->
  resource c' = resource c -> server_inv ms busy pids (update_context s i c').
Proof.
  intros [Hq Hr [Hd Hl He] Hb] Hi Hc' Hres. split; [done|done| |done]. cbn. split.
  - rewrite list_fmap_insert. rewrite list_insert_id; [done|]. by rewrite list_lookup_fmap, Hi, Hres.
  - unfold blen. by rewrite length_insert.
  - by apply Forall_insert.
Qed.

Section Polite.
Hypothesis Hpolite : polite.

Lemma polite_ends res : path_ends (resource_at res).
Proof. destruct (polite_path Hpolite res) as (segs & ? & ? & _). by exists segs. Qed.

Lemma dispatch_loop_spec req m os addr ms pids s cs i : server_inv ms None pids s -> socket s = true -> arrived req m os ->
  drop i (contexts s) = cs ->
  exists r ms' s', dispatch_loop s req addr (observe_of os) cs i = Ret (r, s') /\ server_inv ms' None pids s'
    /\ dispatched ms s ms' s' req m os addr r cs i /\ agree (next_id (q s)) ms ms' /\ socket s' = true.
Proof.
  intros Hs Hsock Hreq. revert i. induction cs as [|c cs IH]; intros i Hcs; cbn [dispatch_loop]; unfold dispatched; cbn [routed].
  { destruct (unknown_handler s) as [h|].
    - destruct (call_handler_spec Hpolite ms pids s h req addr Hs Hsock) as (r & ms' & s' & -> & Hs' & [] & Hc & Hh).
      exists r, ms', s'. split_and!; try done. congruence.
    - destruct (not_found_spec ms None pids s req m addr Hs Hsock (arrived_header _ _ _ Hreq)) as (r & ms' & s' & -> & Hs' & Hg & Ha).
      exists r, ms', s'. split_and!; try done; [apply Hg|rewrite <- Hsock; apply Hg]. }
  assert (contexts s !! i = Some c) as Hi by (by rewrite <- (Nat.add_0_r i), <- lookup_drop, Hcs).
  rewrite (find_resource_spec _ _ _ _ Hreq (polite_ends _)), bind_ret.
  destruct (route os (m_code m) (resource_at (resource c))) as [h|].
  2: { destruct (IH (S i)) as (r & ms' & s' & Hrun & Hs' & Hd & Ha & Hk).
       { by rewrite <- Nat.add_1_r, <- drop_drop, Hcs. }
       exists r, ms', s'. split_and!; [done|done| |done|done]. unfold dispatched in Hd. destruct (routed os (m_code m) cs) as [[j h]|]; [|done].
       cbn [fmap option_fmap option_map prod_map fst snd id]. by rewrite Nat.add_succ_r. }
  rewrite Nat.add_0_r. destruct (Z.leb_spec 0 (observe_of os)) as [Hobs|Hobs].
  - pose proof (contexts_each _ (server_contexts _ _ _ _ Hs)) as Hall. rewrite Forall_lookup in Hall.
    destruct (register_observer_spec s c req m addr (observe_of os) (arrived_header _ _ _ Hreq) (Hall _ _ Hi)) as (x & c' & Hrun & Hc' & Hreg).
    rewrite Hrun, !bind_ret. pose proof (update_context_inv _ _ _ _ _ _ _ Hs Hi Hc' (proj1 Hreg)) as Hs1.
    destruct (call_handler_spec Hpolite ms pids (update_context s i c') h req addr Hs1 Hsock) as (r & ms' & s' & Hrun2 & Hs' & [Hag _ Hct _ Hsk _] & Hc & Hh).
    exists r, ms', s'. split_and!; [done|done| |done|by rewrite Hsk]. by exists c, c', x.
  - rewrite bind_ret. destruct (call_handler_spec Hpolite ms pids s h req addr Hs Hsock) as (r & ms' & s' & Hrun & Hs' & [] & Hc & Hh).
    exists r, ms', s'. split_and!; [done|done| |done|congruence]. exists c, c, 0. rewrite (update_context_same s i c Hi).
    split_and!; [done|done|done|by rewrite list_insert_id|done].
Qed.
End Polite.
End Requests.

(** ** The list of resources *)

Definition listed `{CoapProgram} (c : resource_context) : Prop :=
  Z.land (res_flags (resource_at (resource c))) SOL_COAP_FLAGS_WELL_KNOWN <> 0.

#[global] Instance listed_dec `{CoapProgram} c : Decision (listed c).
Proof. unfold listed. apply _. Defined.

(** The answer to /.well-known/core *)
Definition core_answer `{CoapProgram} (m : message) (token : list Z) (cs : list resource_context) (t : list Z) : message :=
  Message COAP_VERSION (reply_type (m_type m))
    (if decide (Forall (fun c => ~ listed c) cs) then SOL_COAP_RESPONSE_CODE_CONTENT else SOL_COAP_RESPONSE_CODE_INTERNAL_ERROR)
    (m_id m) token [] (Some t).

(** The list of resources was sent, or there was no memory or room for it. *)
Definition listing_sent `{Allocator} `{CoapEnv} `{CoapProgram} (ms : Z -> message) (s : sol_coap_server) (ms' : Z -> message) (s' : sol_coap_server)
    (m : message) (addr r : Z) : Prop :=
  r < 0 /\ pending s' = pending s /\ vec (q s') = vec (q s) /\ (refused \/ no_room (q s))
  \/ r = 0 /\ exists token t, (token = m_token m \/ refused /\ token = []) /\ (Forall (fun c => ~ listed c) (contexts s) -> t = [])
       /\ sent s ms' s' (core_answer m token (contexts s) t) addr None.

Section WellKnown.
Context `{BuildConfig} `{Allocator} `{CoapEnv} `{ServerEnv} `{CoapProgram}.
Hypothesis Hpolite : polite.

(** The first resource that is listed is written up to its path, and then the
    offset is wrong: it counts what is in front of the path twice. *)
Lemma well_known_loop_spec cs b l : rep b l -> own_bytes b -> 1 <= blen l <= 1000 ->
  exists r b', well_known_loop cs b (blen l) = Ret (r, b') /\ own_bytes b'
    /\ (Forall (fun c => ~ listed c) cs /\ r = 0 /\ b' = b
        \/ ~ Forall (fun c => ~ listed c) cs /\ r < 0
           /\ exists t, rep b' (l ++ t) /\ Forall is_byte t /\ blen t <= 32001).
Proof.
  intros Hrep Hown Hl. induction cs as [|c cs IH]; cbn [well_known_loop].
  { exists 0, b. split_and!; [done|done|]. left. split_and!; [constructor|done|done]. }
  destruct (Z.eqb_spec (Z.land (res_flags (resource_at (resource c))) SOL_COAP_FLAGS_WELL_KNOWN) 0) as [Hz|Hz].
  { destruct IH as (r & b' & Hrun & Hown' & Hcase). exists r, b'. split_and!; [done|done|].
    destruct Hcase as [(Hall & ? & ?)|(Hno & ? & ?)]; [left|right; split_and!; [|done|done]].
    - split_and!; [|done|done]. constructor; [|done]. unfold listed. tauto.
    - by intros [_ ?]%Forall_cons_1. }
  assert (~ Forall (fun c => ~ listed c) (c :: cs)) as Hno by (intros [Hc _]%Forall_cons_1; by apply Hc).
  assert (forall r b' t, own_bytes b' -> r < 0 -> rep b' (l ++ t) -> Forall is_byte t -> blen t <= 32001 ->
    exists r2 b2, Ret (r, b') = Ret (r2, b2) /\ own_bytes b2 /\ (Forall (fun c => ~ listed c) (c :: cs) /\ r2 = 0 /\ b2 = b
      \/ ~ Forall (fun c => ~ listed c) (c :: cs) /\ r2 < 0 /\ exists t, rep b2 (l ++ t) /\ Forall is_byte t /\ blen t <= 32001)) as Hfail.
  { intros r b' t Ho Hr Ht Hb Hlen. exists r, b'. split_and!; [done|done|]. right. split_and!; [done|done|by exists t]. }
  destruct (insert_char_spec b l (blen l) 60 Hrep) as (r1 & b1 & -> & [Hfl1 Hw1] & _); [lia|]. rewrite bind_ret.
  assert (own_bytes b1) as Hown1 by (by eapply own_flags).
  rewrite blen_to_nat, take_ge, drop_ge, app_nil_r in Hw1 by done.
  destruct Hw1 as [(-> & Hrep1 & _)|[Hneg Hrep1]].
  2: { rewrite (proj2 (Z.ltb_lt r1 0)) by done. apply (Hfail r1 b1 []); [done|done|by rewrite app_nil_r|constructor|by vm_compute]. }
  cbn [Z.ltb Z.compare]. destruct (polite_path Hpolite (resource c)) as (segs & Hpath & Hne & Hbytes & Hlen). rewrite Hpath.
  rewrite (wrapu_small 64 (blen l + 1)) by lia. replace (blen l + 1) with (blen (l ++ [60])) by (by rewrite blen_app).
  pose proof (blen_nonneg (path_text segs)). pose proof (blen_app l [60]) as Hl60. change (blen [60]) with 1 in Hl60.
  destruct (path_to_buffer_spec segs b1 (l ++ [60]) Hne Hrep1) as (r2 & b2 & cur & Hrun2 & Hfl2 & Hcase2).
  { rewrite blen_app. lia. }
  { intros _. left. unfold own_bytes in Hown1. unfold has. by rewrite Hown1. }
  unfold sol_coap_path_to_buffer. rewrite Hrun2, bind_ret. assert (own_bytes b2) as Hown2 by (by eapply own_flags).
  destruct Hcase2 as [(Hneg & t & Ht & Hrep2)|(-> & Hrep2 & -> & _)].
  - rewrite (proj2 (Z.ltb_lt r2 0)) by done. destruct Ht as [t' Ht]. rewrite Ht in Hbytes, Hlen. rewrite <- app_assoc in Hrep2.
    apply (Hfail r2 b2 ([60] ++ t)); [done|done|done| |].
    + apply Forall_app in Hbytes as [? _]. by constructor.
    + rewrite blen_app in *. change (blen [60]) with 1. pose proof (blen_nonneg t'). lia.
  - cbn [Z.ltb Z.compare]. pose proof (blen_app (l ++ [60]) (path_text segs)) as Hl2. rewrite (wrapu_small 64 (blen (l ++ [60]) + blen ((l ++ [60]) ++ path_text segs))) by lia.
    destruct (insert_char_spec b2 _ (blen (l ++ [60]) + blen ((l ++ [60]) ++ path_text segs)) 62 Hrep2) as (r3 & b3 & -> & [Hfl3 Hw3] & Hin3).
    { lia. }
    rewrite bind_ret. rewrite (rep_used _ _ Hrep2) in Hin3. destruct Hw3 as [(-> & _)|[Hneg Hrep3]]; [specialize (Hin3 eq_refl); lia|].
    rewrite (proj2 (Z.ltb_lt r3 0)) by done. rewrite <- app_assoc in Hrep3.
    apply (Hfail r3 b3 ([60] ++ path_text segs)); [by eapply own_flags|done|done|by constructor|rewrite blen_app; change (blen [60]) with 1; lia].
Qed.

Lemma core_message m token b l : represents b (opened (with_code SOL_COAP_RESPONSE_CODE_CONTENT (reply_to m token))) -> l = encode (opened (with_code SOL_COAP_RESPONSE_CODE_CONTENT (reply_to m token))) ->
  forall b' t, own_bytes b' -> rep b' (l ++ t) -> Forall is_byte t ->
  represents (set_buf b b') (Message COAP_VERSION (reply_type (m_type m)) SOL_COAP_RESPONSE_CODE_CONTENT (m_id m) token [] (Some t)).
Proof.
  intros [_ _ Hstart Hwf] -> b' t Hown Hrep Ht. destruct Hwf. split; cbn [buf set_buf payload_start]; [|done|exact Hstart|by split].
  rewrite encode_opened in Hrep. rewrite encode_assoc. cbn [encode_payload m_payload] in *. by rewrite app_nil_r, <- app_assoc in Hrep.
Qed.

Lemma core_proper pkt m token code t : represents pkt (Message COAP_VERSION (reply_type (m_type m)) code (m_id m) token [] (Some t)) ->
  refcnt pkt = 1 -> blen t <= 32001 -> proper pkt (Message COAP_VERSION (reply_type (m_type m)) code (m_id m) token [] (Some t)).
Proof.
  intros Hpk Hr Ht. pose proof (wf_token _ (represents_wf _ _ Hpk)) as H8. cbn in H8. apply built_proper; [done|done|done| |].
  - unfold encode, encode_header. cbn [m_token m_options m_payload m_type m_ver m_code m_id encode_options encode_payload].
    autorewrite with blen. change (blen (@nil Z)) with 0. zlia.
  - unfold observes. by rewrite bool_decide_false.
Qed.

Lemma well_known_spec ms busy pids s req m addr : server_inv ms busy pids s -> socket s = true -> header_is req m ->
  exists r ms' s', well_known_get s req addr = Ret (r, s') /\ server_inv ms' busy pids s' /\ grown ms s ms' s'
    /\ listing_sent ms s ms' s' m addr r.
Proof.
  intros Hs Hsock Hreq. unfold well_known_get.
  assert (forall e, e < 0 -> refused -> exists r ms' s', Ret (e, s) = Ret (r, s') /\ server_inv ms' busy pids s' /\ grown ms s ms' s'
    /\ listing_sent ms s ms' s' m addr r) as Hfail.
  { intros e He Href. exists e, ms, s. split; [done|]. split; [done|]. split; [apply grown_refl|]. left. split_and!; [done..|by left]. }
  destruct (reply_spec req m Hreq) as [(e & -> & Href)|(pkt & Hnew & Hpk)]; [rewrite bind_ret; by apply Hfail|].
  pose proof (reply_refcnt _ _ Hnew) as Hr. rewrite Hnew, bind_ret.
  assert (exists token, (token = m_token m \/ refused /\ token = []) /\ represents pkt (reply_to m token)) as (token & Htok & Hpk0).
  { destruct Hpk as [?|[? ?]]; eauto 10. }
  destruct (set_code_spec _ _ SOL_COAP_RESPONSE_CODE_CONTENT Hpk0) as (p1 & Hrun1 & Hp1); [done|]. rewrite Hrun1, bind_ret. cbn [Z.ltb Z.compare].
  apply with_header_refcnt in Hrun1. change (represents p1 (with_code SOL_COAP_RESPONSE_CODE_CONTENT (reply_to m token))) in Hp1. set (m1 := with_code _ _) in *.
  pose proof (blen_short m1 (represents_wf _ _ Hp1) eq_refl eq_refl) as H12.
  destruct (get_payload_spec p1 m1 Hp1 ltac:(lia)) as (r2 & p2 & o & Hrun2 & Hcase2). rewrite Hrun2, bind_ret. apply get_payload_refcnt in Hrun2.
  destruct Hcase2 as [(-> & Hp2 & ->)|[Hneg Href]]; [|rewrite (proj2 (Z.ltb_lt r2 0)) by done; by apply Hfail]. cbn [Z.ltb Z.compare].
  assert (payload_offset (opened m1) = blen (encode (opened m1))) as ->.
  { rewrite payload_offset_opened, encode_opened. change (default [] (m_payload m1)) with (@nil Z). f_equal. symmetry. apply app_nil_r. }
  pose proof (blen_opened m1) as Hlen. assert (1 <= blen (encode (opened m1))) as Hpos.
  { rewrite encode_opened. change (default [] (m_payload m1)) with (@nil Z). rewrite (app_nil_r (_ ++ [COAP_MARKER])), blen_app. change (blen [COAP_MARKER]) with 1.
    pose proof (blen_nonneg (encode_header m1 ++ encode_options 0 (m_options m1))). lia. }
  destruct (well_known_loop_spec (contexts s) (buf p2) _ (represents_bytes _ _ Hp2) (represents_own _ _ Hp2) ltac:(lia))
    as (r3 & b3 & -> & Hown3 & Hcase3). rewrite bind_ret.
  assert (exists t, represents (set_buf p2 b3) (Message COAP_VERSION (reply_type (m_type m)) SOL_COAP_RESPONSE_CODE_CONTENT (m_id m) token [] (Some t))
    /\ blen t <= 32001 /\ (Forall (fun c => ~ listed c) (contexts s) -> t = [])) as (t & Hp3 & Ht & Hnone).
  { destruct Hcase3 as [(Hall & _ & ->)|(Hno & _ & t & Hrep & Hb & Ht)]; [exists []|exists t]; (split; [|split; [done|done]]).
    - apply (core_message _ _ _ _ Hp2 eq_refl); [done|rewrite app_nil_r; apply Hp2|constructor].
    - by apply (core_message _ _ _ _ Hp2 eq_refl). }
  assert (exists p4, (if r3 <? 0 then sol_coap_header_set_code (set_buf p2 b3) SOL_COAP_RESPONSE_CODE_INTERNAL_ERROR else Ret (0, set_buf p2 b3)) = Ret (0, p4)
    /\ represents p4 (core_answer m token (contexts s) t) /\ refcnt p4 = 1) as (p4 & -> & Hp4 & Hr4).
  { unfold core_answer. destruct Hcase3 as [(Hall & -> & _)|(Hno & Hneg & _)].
    - rewrite decide_True by done. exists (set_buf p2 b3). split_and!; [done|done|cbn; congruence].
    - rewrite decide_False by done. rewrite (proj2 (Z.ltb_lt r3 0)) by done.
      destruct (set_code_spec _ _ SOL_COAP_RESPONSE_CODE_INTERNAL_ERROR Hp3) as (p4 & Hrun4 & Hp4); [done|]. exists p4.
      split_and!; [done|done|]. apply with_header_refcnt in Hrun4. cbn in Hrun4. congruence. }
  rewrite bind_ret. pose proof (core_proper _ _ _ _ _ Hp4 Hr4 Ht) as Hproper.
  destruct (server_send_spec ms busy pids s p4 _ addr None Hs Hsock Hproper) as (r & ms' & s' & Hrun & Hs' & Hg & Hcase).
  exists r, ms', s'. split; [exact Hrun|]. split; [done|]. split; [done|]. destruct Hcase as [(? & ? & Hwhy)|[-> ?]].
  - left. destruct (Hwhy eq_refl) as [? ?]; [unfold observes; by rewrite bool_decide_false|]. split_and!; [done..|by right].
  - right. split; [done|]. by exists token, t.
Qed.
End WellKnown.

(** ** What comes in *)

Definition is_response (m : message) : Prop := Z.land (m_code m) (Z.lnot SOL_COAP_REQUEST_MASK) <> 0.

Section Receiving.
Context `{BuildConfig} `{Allocator} `{CoapEnv} `{ServerEnv} `{CoapProgram}.
Hypothesis Hpolite : polite.

Lemma acknowledge_inv ms busy pids s req m : server_inv ms busy pids s -> header_is req m ->
  exists x, remove_outgoing_confirmable_packet (q s) req = Ret x /\ server_inv ms busy pids (set_q s x) /\ aside ms s ms (set_q s x)
    /\ stops_last ms (m_id m) (q s) x.
Proof.
  intros Hs Hm. pose proof (server_queue _ _ _ _ Hs) as Hq.
  destruct (acknowledge_spec ms (owned pids) (q s) req m (proj1 Hq) Hm) as (x & Hrun & Hx & Hsh & Hst). exists x.
  assert (quiet (q s) x) as Hqx.
  { unfold remove_outgoing_confirmable_packet in Hrun. apply bind_Ret_inv in Hrun as (id & _ & ([n y] & Hy & [= <-])%bind_Ret_inv).
    by eapply remove_quiet. }
  pose proof Hqx as [_ Hn]. split_and!; [done| | |done].
  - eapply inv_set_q; [exact Hs|by eapply orderly_shrunk|lia].
  - split; try done. cbn. lia.
Qed.

(** A response: the callbacks of the replies that wait for it are called,
    the last one first, and the observations that are over are ended; the
    confirmable packet it answers is not sent any more, unless a reply waits
    on; a notification nobody waits for is reset. *)
Definition delivered (ms : Z -> message) (s : sol_coap_server) (ms' : Z -> message) (s' : sol_coap_server) (req : sol_coap_packet)
    (m : message) (os : list (Z * list Z)) (addr r : Z) : Prop :=
  let rids := reverse (filter (waiting m (replies s)) (pending s)) in
  exists ans ms1 s1 x, answers ans rids (told (Some (req, addr)) ans rids) ms s ms1 s1 /\ observations_end addr ans rids s ms1 s1
    /\ (if existsb (keeps (replies s) ans) rids then x = q s1 else stops_last ms1 (m_id m) (q s1) x)
    /\ if (0 <=? observe_of os) && bool_decide (rids = [])
       then grown ms1 (set_q s1 x) ms' s' /\ answered_with ms1 (set_q s1 x) ms' s' (with_type SOL_COAP_MESSAGE_TYPE_RESET) m addr r
       else ms' = ms1 /\ s' = set_q s1 x /\ r = 0.

Lemma respond_response ms pids s req m os addr : server_inv ms None pids s -> socket s = true -> arrived req m os -> is_response m ->
  exists r ms' s', respond_packet s req addr = Ret (r, s') /\ server_inv ms' None pids s' /\ delivered ms s ms' s' req m os addr r
    /\ agree (next_id (q s)) ms ms' /\ socket s' = true.
Proof.
  intros Hs Hsock Hreq Hres. unfold respond_packet. destruct (ping_spec _ _ _ Hreq) as ([|] & -> & Hp).
  { destruct (Hp eq_refl) as (_ & Hc & _). unfold is_response in Hres. rewrite Hc in Hres. by destruct Hres. }
  rewrite bind_ret, (code_spec _ _ _ Hreq), bind_ret, (observe_option_spec _ _ _ Hreq), bind_ret, (proj2 (Z.eqb_neq _ 0)) by done. cbn [negb].
  pose proof (arrived_header _ _ _ Hreq) as Hm.
  destruct (answer_loop_spec Hpolite req m addr _ ms pids s false true Hs Hsock Hm (le_n _)) as (ans & ms1 & s1 & Hrun & Hs1 & Ha & He).
  cbv zeta in Hrun, Ha, He. rewrite firstn_all in Hrun, Ha, He. set (rids := reverse _) in *. rewrite Hrun, bind_ret. cbn [orb andb].
  rewrite negb_involutive. assert (socket s1 = true) as Hsock1 by (rewrite <- Hsock; apply Ha).
  assert (exists x, (if negb (existsb (keeps (replies s) ans) rids) then x ← remove_outgoing_confirmable_packet (q s1) req; Ret (set_q s1 x) else Ret s1)
      = Ret (set_q s1 x) /\ server_inv ms1 None pids (set_q s1 x) /\ aside ms1 s1 ms1 (set_q s1 x)
      /\ if existsb (keeps (replies s) ans) rids then x = q s1 else stops_last ms1 (m_id m) (q s1) x) as (x & -> & Hx & Hax & Hst).
  { destruct (existsb _ _); cbn [negb].
    - exists (q s1). destruct s1. split_and!; [done|done|apply aside_refl|done].
    - destruct (acknowledge_inv _ _ _ _ _ _ Hs1 Hm) as (x & -> & Hx & Hax & Hst). rewrite bind_ret. by exists x. }
  rewrite bind_ret. pose proof (answers_tended _ _ _ _ _ _ _ Ha) as [Hag Hn _ _ _ _ _ _ _]. pose proof (aside_next _ _ _ _ Hax) as Hnx.
  destruct ((0 <=? observe_of os) && bool_decide (rids = [])) eqn:Hreset.
  - destruct (reset_spec ms1 None pids (set_q s1 x) req m addr Hx Hsock1 Hm) as (r & ms' & s' & -> & Hs' & Hg & Hans).
    exists r, ms', s'. split; [done|]. split; [done|]. split; [|split].
    + exists ans, ms1, s1, x. fold rids. split; [done|]. split; [done|]. split; [done|]. by rewrite Hreset.
    + eapply agree_trans; [|exact Hag|apply Hg]. cbn in *. lia.
    + rewrite <- Hsock1. apply Hg.
  - exists 0, ms1, (set_q s1 x). split_and!; [done|done| |done|done]. exists ans, ms1, s1, x. fold rids. split_and!; [done|done|done|]. by rewrite Hreset.
Qed.

Lemma well_known_ends : path_ends well_known.
Proof. eexists [_; _]. split; [done|]. by repeat constructor. Qed.

(** A request: the list of resources, or the resource it is for. *)
Definition served (ms : Z -> message) (s : sol_coap_server) (ms' : Z -> message) (s' : sol_coap_server) (req : sol_coap_packet) (m : message)
    (os : list (Z * list Z)) (addr r : Z) : Prop :=
  match route os (m_code m) well_known with
  | Some _ => grown ms s ms' s' /\ listing_sent ms s ms' s' m addr r
  | None => dispatched ms s ms' s' req m os addr r (contexts s) 0
  end.

Lemma respond_request ms pids s req m os addr : server_inv ms None pids s -> socket s = true -> arrived req m os ->
  ~ is_response m -> m_code m <> SOL_COAP_CODE_EMPTY ->
  exists r ms' s', respond_packet s req addr = Ret (r, s') /\ server_inv ms' None pids s' /\ served ms s ms' s' req m os addr r
    /\ agree (next_id (q s)) ms ms' /\ socket s' = true.
Proof.
  intros Hs Hsock Hreq Hres Hcode. unfold respond_packet. destruct (ping_spec _ _ _ Hreq) as ([|] & -> & Hp); [by destruct (Hp eq_refl) as (_ & ? & _)|].
  rewrite bind_ret, (code_spec _ _ _ Hreq), bind_ret, (observe_option_spec _ _ _ Hreq), bind_ret.
  unfold is_response in Hres. destruct (Z.eqb_spec (Z.land (m_code m) (Z.lnot SOL_COAP_REQUEST_MASK)) 0) as [_|]; [|by destruct Hres]. cbn [negb].
  rewrite (proj2 (Z.eqb_neq _ _)) by done. rewrite (find_resource_spec _ _ _ _ Hreq well_known_ends), bind_ret.
  unfold served. destruct (route os (m_code m) well_known) as [h|].
  - destruct (well_known_spec Hpolite ms None pids s req m addr Hs Hsock (arrived_header _ _ _ Hreq)) as (r & ms' & s' & -> & Hs' & Hg & Hcase).
    exists r, ms', s'. split; [done|]. split; [done|]. split; [done|]. split; [apply Hg|rewrite <- Hsock; apply Hg].
  - exact (dispatch_loop_spec Hpolite req m os addr ms pids s (contexts s) 0 Hs Hsock Hreq eq_refl).
Qed.

(** An empty message: a ping is answered with a reset, another one
    acknowledges. *)
Lemma respond_empty ms pids s req m os addr : server_inv ms None pids s -> socket s = true -> arrived req m os ->
  m_code m = SOL_COAP_CODE_EMPTY ->
  exists r ms' s', respond_packet s req addr = Ret (r, s') /\ server_inv ms' None pids s' /\ agree (next_id (q s)) ms ms' /\ socket s' = true
    /\ (answered_with ms s ms' s' (with_type SOL_COAP_MESSAGE_TYPE_RESET) m addr r
        \/ r = 0 /\ exists x, s' = set_q s x /\ stops_last ms (m_id m) (q s) x).
Proof.
  intros Hs Hsock Hreq Hcode. pose proof (arrived_header _ _ _ Hreq) as Hm. unfold respond_packet.
  destruct (ping_spec _ _ _ Hreq) as ([|] & -> & Hp); rewrite bind_ret.
  - destruct (reset_spec ms None pids s req m addr Hs Hsock Hm) as (r & ms' & s' & -> & Hs' & Hg & Hans).
    exists r, ms', s'. split; [done|]. split; [done|]. split; [apply Hg|]. split; [rewrite <- Hsock; apply Hg|by left].
  - rewrite (code_spec _ _ _ Hreq), bind_ret, (observe_option_spec _ _ _ Hreq), bind_ret, Hcode. cbn [negb Z.land Z.eqb SOL_COAP_CODE_EMPTY].
    destruct (acknowledge_inv _ _ _ _ _ _ Hs Hm) as (x & -> & Hx & Hax & Hst). rewrite bind_ret. exists 0, ms, (set_q s x).
    split; [done|]. split; [done|]. split; [apply agree_refl|]. split; [done|]. right. split; [done|]. by exists x.
Qed.

(** A datagram that the reader understands is answered, another one is
    ignored; so it is without memory for it. *)
Lemma on_can_read_spec ms pids s b l addr : server_inv ms None pids s -> socket s = true -> rep b l -> Forall is_byte l -> blen l <= INT16_MAX ->
  (forall c, l !! 1%nat = Some c -> c ∈ known_codes) ->
  exists ms' s', on_can_read s (inr (b, addr)) = Ret s' /\ server_inv ms' None pids s' /\ agree (next_id (q s)) ms ms' /\ socket s' = true.
Proof.
  intros Hs Hsock Hrep Hb Hl Hcode. assert (exists ms' s', Ret s = Ret s' /\ server_inv ms' None pids s' /\ agree (next_id (q s)) ms ms' /\ socket s' = true) as Hsame.
  { exists ms, s. split_and!; [done|done|apply agree_refl|done]. }
  unfold on_can_read, sol_coap_packet_new. destruct packet_new_spec as [(e & -> & _)|(pkt & -> & _ & _)]; rewrite !bind_ret; [done|].
  destruct (parsed_arrived (set_buf pkt b) l) as (r & req & -> & [Hneg|(-> & m & os & Hreq)]); [split; [done|done|zlia]|done|done|..]; rewrite bind_ret.
  { by rewrite (proj2 (Z.ltb_lt r 0)). }
  cbn [Z.ltb Z.compare]. destruct (decide (m_code m = SOL_COAP_CODE_EMPTY)) as [He|He].
  - destruct (respond_empty ms pids s req m os addr Hs Hsock Hreq He) as (r & ms' & s' & -> & Hs' & Ha & Hk & _). rewrite bind_ret. by exists ms', s'.
  - destruct (decide (Z.land (m_code m) (Z.lnot SOL_COAP_REQUEST_MASK) = 0)) as [Hz|Hz].
    + destruct (respond_request ms pids s req m os addr Hs Hsock Hreq) as (r & ms' & s' & -> & Hs' & _ & Ha & Hk); [by unfold is_response; tauto|done|].
      rewrite bind_ret. by exists ms', s'.
    + destruct (respond_response ms pids s req m os addr Hs Hsock Hreq Hz) as (r & ms' & s' & -> & Hs' & _ & Ha & Hk). rewrite bind_ret. by exists ms', s'.
Qed.
End Receiving.
End CoapServerRequests.
