(* ===== verification/CoapServerProofs.v ===== *)
(** * A CoAP server: proofs

    Notifications, the life of resources, and the server as a whole: every
    sequence of the operations of a server and of its polite program keeps
    the invariant, so that nothing is used after it was freed, and the end of
    the server leaves nothing behind. *)

From S2P Require Import Prelude Arith Str Codec Buffer Coap CoapProofs CoapBuild CoapRequest CoapQueue CoapQueueProofs CoapServer CoapServerInv CoapServerReplies CoapServerRequests.
Import Buffer Coap CoapProofs CoapBuild CoapRequest CoapQueue CoapQueueProofs CoapServer CoapServerInv CoapServerReplies CoapServerRequests.

#[local] Open Scope Z_scope.

Module CoapServerProofs.

(** ** Notifications *)

(** The message whose header and token an observer sees *)
Definition observer_message (m : message) (o : resource_observer) : message :=
  Message COAP_VERSION (m_type m) (m_code m) 0 (obs_token o) [] None.

Definition with_token (t : list Z) (m : message) : message :=
  Message (m_ver m) (m_type m) (m_code m) (m_id m) t (m_options m) (m_payload m).

(** The packet is on its way to the observer, behind its header. *)
Definition notified (ms : Z -> message) (x : queue) (pid : Z) (m : message) (oid : Z) (o : resource_observer) : Prop :=
  exists h, h < next_id x /\ ms h = observer_message m o
    /\ outs x !! oid = Some {| o_pkt := pid; o_header := Some h; o_timeout := false; cliaddr := obs_addr o; counter := 0 |}.

(** A packet of the program's is on its way to the observer, with its token. *)
Definition notified_by (ms : Z -> message) (x : queue) (oid : Z) (o : resource_observer) : Prop :=
  exists pid m, pid < next_id x /\ ms pid = with_token (obs_token o) m /\ m_token m = []
    /\ outs x !! oid = Some {| o_pkt := pid; o_header := None; o_timeout := false; cliaddr := obs_addr o; counter := 0 |}.

Section Notifying.
Context `{BuildConfig} `{Allocator} `{CoapEnv} `{ServerEnv}.

Lemma notified_later ms s ms' s' pid m oid o : steady ms s ms' s' -> notified ms (q s) pid m oid o -> notified ms' (q s') pid m oid o.
Proof. intros [Ha Hn _ Ho _ _ _ _ _] (h & Hh & Hm & Hout). exists h. split_and!; [lia|by rewrite Ha|by apply Ho]. Qed.

Lemma notified_by_later ms s ms' s' oid o : steady ms s ms' s' -> notified_by ms (q s) oid o -> notified_by ms' (q s') oid o.
Proof. intros [Ha Hn _ Ho _ _ _ _ _] (p & m & Hp & Hm & Ht & Hout). exists p, m. split_and!; [lia|by rewrite Ha|done|by apply Ho]. Qed.

Lemma notification_header_spec p m o : holds p m -> m_code m ∈ known_codes -> token_ok (obs_token o) ->
  exists x, notification_header p o = Ret x
    /\ match x with inl r => r < 0 /\ refused | inr h => represents h (observer_message m o) /\ refcnt h = 1 end.
Proof.
  intros Hp Hcode [Ht8 Htb]. pose proof (holds_header _ _ Hp) as Hh. destruct (header_getters _ _ Hh) as (_ & Hty & _ & Hco & _).
  pose proof (wf_type _ (proj1 Hh)). pose proof (wf_code _ (proj1 Hh)) as Hcb. unfold notification_header, sol_coap_packet_new.
  destruct packet_new_spec as [(e & -> & Href)|(p0 & -> & Hp0 & Hr0)]; rewrite !bind_ret; [by exists (inl (- ENOMEM))|].
  rewrite Hco, bool_decide_true, bind_ret by done.
  destruct (set_code_spec _ _ (m_code m) Hp0 Hcb) as (p1 & Hrun1 & Hp1). rewrite Hrun1, bind_ret. cbn [Z.ltb Z.compare]. rewrite Hty, bind_ret.
  destruct (set_type_spec _ _ (m_type m) Hp1) as (p2 & Hrun2 & Hp2); [unfold is_byte; lia|]. rewrite Hrun2, bind_ret. cbn [Z.ltb Z.compare].
  destruct (set_token_spec _ _ (obs_token o) Hp2 eq_refl eq_refl Ht8 Htb ltac:(by vm_compute)) as (r & p3 & Hrun3 & Hcase). rewrite Hrun3, bind_ret.
  apply with_header_refcnt in Hrun1, Hrun2. apply set_token_refcnt in Hrun3.
  destruct Hcase as [[-> Hp3]|(Hneg & _ & Href)].
  - exists (inr p3). split; [done|]. split; [|congruence]. cbn [m_ver m_type m_code m_id m_options new_message] in Hp3.
    by rewrite Z.mod_small in Hp3 by lia.
  - exists (inl r). by rewrite (proj2 (Z.ltb_lt r 0)).
Qed.

Lemma observer_holds h m o : represents h (observer_message m o) -> refcnt h = 1 -> holds h (observer_message m o).
Proof.
  intros Hh _. pose proof (blen_short _ (represents_wf _ _ Hh) eq_refl eq_refl). split_and!; [apply Hh|apply Hh|lia].
Qed.

(** Memory was refused somewhere, or the queue is full. *)
Definition want_of_room (x : queue) : Prop :=
  refused \/ (exists l, entry_memory l = false) \/ (exists l, vector_memory l = false) \/ blen (vec x) = UINT16_MAX.

Lemma no_room_want x : no_room x -> want_of_room x.
Proof. intros [?|[?|?]]; unfold want_of_room; eauto 6. Qed.

Lemma want_same x y : vec y = vec x -> want_of_room x -> want_of_room y.
Proof. unfold want_of_room. by intros ->. Qed.

Lemma notify_loop_spec ms busy pids s pid p m l : server_inv ms busy pids s -> socket s = true -> pid ∈ pids -> holds p m ->
  m_code m ∈ known_codes -> Forall (fun o => token_ok (obs_token o)) l ->
  exists k r ms' s' oids, notify_loop s pid p l 0 = Ret (r, s') /\ server_inv ms' busy pids s' /\ grown ms s ms' s' /\ pending s' = pending s
    /\ vec (q s') = vec (q s) ++ oids /\ Forall2 (notified ms' (q s') pid m) oids (take k l)
    /\ (r = 0 /\ k = length l \/ r < 0 /\ (k < length l)%nat /\ want_of_room (q s')).
Proof.
  intros Hs Hsock Hpid Hp Hcode Htok. revert ms s Hs Hsock. induction Htok as [|o l Ho _ IH]; intros ms s Hs Hsock; cbn [notify_loop].
  { exists 0%nat, 0, ms, s, []. split_and!; [done|done|apply grown_refl|done|by rewrite app_nil_r|constructor|by left]. }
  assert (forall r ms1 s1, r < 0 -> want_of_room (q s1) -> server_inv ms1 busy pids s1 -> grown ms s ms1 s1 -> pending s1 = pending s -> vec (q s1) = vec (q s) ->
    exists k r' ms' s' oids, Ret (r, s1) = Ret (r', s') /\ server_inv ms' busy pids s' /\ grown ms s ms' s' /\ pending s' = pending s
      /\ vec (q s') = vec (q s) ++ oids /\ Forall2 (notified ms' (q s') pid m) oids (take k (o :: l))
      /\ (r' = 0 /\ k = length (o :: l) \/ r' < 0 /\ (k < length (o :: l))%nat /\ want_of_room (q s'))) as Hfail.
  { intros r ms1 s1 Hr Hwant Hs1 Hg Hpe Hv. exists 0%nat, r, ms1, s1, []. split_and!; [done|done|done|done|by rewrite app_nil_r|constructor|]. right. split_and!; [done|cbn; lia|done]. }
  destruct (notification_header_spec p m o Hp Hcode Ho) as (x & -> & Hx). rewrite bind_ret. destruct x as [r|h].
  { apply (Hfail r ms s); [apply Hx|left; apply Hx|done|apply grown_refl|done|done]. }
  destruct Hx as [Hh Hr]. destruct (take_spec ms busy pids s h _ Hs (observer_holds _ _ _ Hh Hr) Hr) as (y & -> & Hy & Hg1 & _ & Hv1 & Ho1 & Hn1).
  set (hid := next_id (q s)) in *. set (ms1 := with_message _ _ _) in *.
  destruct (enqueue_inv ms1 busy (hid :: pids) (set_q s y) pid (Some hid) (obs_addr o) Hy Hsock) as (r & y2 & -> & Hy2 & Hg2 & Hcase).
  { by right. }
  { intros h' [= <-]. by left. }
  rewrite bind_ret. destruct (unref_inv _ _ _ _ _ Hy2) as (y3 & -> & Hy3 & Hg3 & Hv3 & Ho3 & Hn3). rewrite bind_ret, !set_q_set_q in *.
  pose proof (grown_trans _ _ _ _ _ _ (grown_trans _ _ _ _ _ _ Hg1 Hg2) Hg3) as Hg. set (s3 := set_q s y3) in *.
  destruct Hcase as [(Hneg & -> & Hroom)|[-> (oid & Hva & Hoa & Hnone & _)]].
  { rewrite (proj2 (Z.ltb_lt r 0)) by done. apply (Hfail r ms1 s3); [done| |done|done|done|cbn in *; congruence].
    apply (want_same (q (set_q s y))); [done|by apply no_room_want]. }
  cbn [Z.ltb Z.compare]. destruct (IH ms1 s3 Hy3 Hsock) as (k & r & ms' & s' & oids & -> & Hs' & Hg' & Hp' & Hv' & Hall & Hend).
  exists (S k), r, ms', s', (oid :: oids). split_and!; [done|done|by eapply grown_trans|done| | |].
  - rewrite Hv'. cbn in *. rewrite Hv3, Hva, Hv1. by rewrite <- app_assoc.
  - cbn [take firstn]. constructor; [|done]. apply (notified_later ms1 s3); [apply Hg'|]. exists hid. split_and!.
    + pose proof (grown_next _ _ _ _ _ Hg2) as Hle. cbn in *. rewrite Hn3. lia.
    + apply with_message_same.
    + cbn. rewrite Ho3. cbn. rewrite Hoa. apply lookup_insert_eq.
  - cbn. destruct Hend as [[? ->]|(? & ? & ?)]; [by left|right]. split_and!; [done|lia|done].
Qed.

Lemma find_context_spec s res : match find_context s res with
  | Some i => exists c, contexts s !! i = Some c /\ resource c = res
  | None => Forall (fun c => resource c <> res) (contexts s)
  end.
Proof.
  unfold find_context. destruct (list_find _ _) as [[i c]|] eqn:Hf; cbn.
  - apply list_find_Some in Hf as (Hi & Hc & _). by exists c.
  - by apply list_find_None in Hf.
Qed.

Lemma observers_tokens ms busy pids s res l : server_inv ms busy pids s -> observers_of s res = Some l -> Forall (fun o => token_ok (obs_token o)) l.
Proof.
  intros Hs. unfold observers_of. pose proof (contexts_each _ (server_contexts _ _ _ _ Hs)) as Hall. rewrite Forall_lookup in Hall.
  destruct (find_context s res) as [i|]; [|done]. cbn. destruct (contexts s !! i) as [c|] eqn:Hi; [|done]. intros [= <-]. apply (Hall _ _ Hi).
Qed.

Lemma notify_spec ms busy pids s res p m : server_inv ms busy pids s -> socket s = true -> holds p m -> refcnt p = 1 -> m_code m ∈ known_codes ->
  exists r ms' s', sol_coap_notify s res p = Ret (r, s') /\ server_inv ms' busy pids s' /\ grown ms s ms' s'
    /\ match observers_of s res with
       | None => r = - ENOENT /\ vec (q s') = vec (q s)
       | Some l => exists k oids, vec (q s') = vec (q s) ++ oids /\ Forall2 (notified ms' (q s') (next_id (q s)) m) oids (take k l)
                   /\ ms' (next_id (q s)) = m /\ (r = 0 /\ k = length l \/ r < 0 /\ (k < length l)%nat /\ want_of_room (q s'))
       end.
Proof.
  intros Hs Hsock Hp Hr Hcode. unfold sol_coap_notify.
  destruct (take_spec ms busy pids s p m Hs Hp Hr) as (y & -> & Hy & Hg1 & _ & Hv1 & Ho1 & Hn1). set (pid := next_id (q s)) in *.
  change (observers_of (set_q s y) res) with (observers_of s res). pose proof (fun l => observers_tokens ms busy pids s res l Hs) as Htok.
  destruct (observers_of s res) as [l|].
  - specialize (Htok l eq_refl).
    destruct (notify_loop_spec _ busy (pid :: pids) (set_q s y) pid p m l Hy Hsock ltac:(by left) Hp Hcode Htok)
      as (k & r & ms2 & s2 & oids & -> & Hs2 & Hg2 & _ & Hv2 & Hall & Hend). rewrite bind_ret.
    destruct (unref_inv _ _ _ _ _ Hs2) as (y3 & -> & Hy3 & Hg3 & Hv3 & _). rewrite bind_ret. exists r, ms2, (set_q s2 y3).
    split; [done|]. split; [done|]. split; [exact (grown_trans _ _ _ _ _ _ (grown_trans _ _ _ _ _ _ Hg1 Hg2) Hg3)|].
    exists k, oids. split; [cbn in *; congruence|]. split.
    + eapply Forall2_impl; [exact Hall|]. intros oid o. eapply notified_later, Hg3.
    + split; [rewrite (steady_agree _ _ _ _ (grown_steady _ _ _ _ _ Hg2)); [apply with_message_same|]; cbn in *; lia|].
      destruct Hend as [?|(? & ? & Hw)]; [by left|right]. split_and!; [done|done|]. by apply (want_same (q s2)).
  - rewrite bind_ret. destruct (unref_inv _ _ _ _ _ Hy) as (y3 & -> & Hy3 & Hg3 & Hv3 & _). rewrite bind_ret.
    exists (- ENOENT), (with_message ms pid m), (set_q s y3). split_and!; [done|done|exact (grown_trans _ _ _ _ _ _ Hg1 Hg3)|done|].
    cbn in *. congruence.
Qed.

Lemma token_set_spec p m t : notifiable p m -> token_ok t ->
  exists r p', sol_coap_header_set_token p t = Ret (r, p')
    /\ (r = 0 /\ holds p' (with_token t m) /\ refcnt p' = 1 \/ r < 0).
Proof.
  intros ((Hwf & Hrep & _) & Hr & Hown & Htok & Hlen) [H8 Hb].
  destruct (set_token_rep p m t Hrep Hown Hwf Htok H8 Hb ltac:(lia)) as (r & b & Hrun & _ & Hcase). exists r, (set_buf p b).
  split; [done|]. destruct Hcase as [[-> Hrep']|[? _]]; [left|by right]. split; [done|]. split; [|exact Hr]. split; [|split; [exact Hrep'|]].
  - destruct Hwf. by split.
  - unfold encode, encode_header, with_token in *. cbn [m_token m_options m_payload m_type m_ver m_code m_id] in *. rewrite Htok in Hlen.
    rewrite !blen_app in *. change (blen []) with 0 in Hlen. revert Hlen. autorewrite with blen. lia.
Qed.

Lemma notify_by_callback_spec `{CoapProgram} ms busy pids s c l : polite -> server_inv ms busy pids s -> socket s = true ->
  Forall (fun o => token_ok (obs_token o)) l -> forall r0,
  exists l' r ms' s' oids, notify_by_callback_loop s c l r0 = Ret (r, s') /\ server_inv ms' busy pids s' /\ grown ms s ms' s'
    /\ vec (q s') = vec (q s) ++ oids /\ Forall2 (notified_by ms' (q s')) oids l' /\ l' `sublist_of` l.
Proof.
  intros Hpolite Hs Hsock Htok. revert ms s Hs Hsock. induction Htok as [|o l Ho _ IH]; intros ms s Hs Hsock r0; cbn [notify_by_callback_loop].
  { exists [], r0, ms, s, []. split_and!; [done|done|apply grown_refl|by rewrite app_nil_r|constructor|done]. }
  assert (forall r : Z, exists l' r' ms' s' oids, Ret (r, s) = Ret (r', s') /\ server_inv ms' busy pids s' /\ grown ms s ms' s'
    /\ vec (q s') = vec (q s) ++ oids /\ Forall2 (notified_by ms' (q s')) oids l' /\ l' `sublist_of` o :: l) as Hstop.
  { intros r. exists [], r, ms, s, []. split_and!; [done|done|apply grown_refl|by rewrite app_nil_r|constructor|apply sublist_nil_l]. }
  pose proof (polite_notification Hpolite s c (obs_addr o)) as Hnot. destruct (notification_cb s c (obs_addr o)) as [r p].
  destruct (Z.eqb_spec r (- EPERM)).
  { destruct (IH ms s Hs Hsock r) as (l' & r' & ms' & s' & oids & ? & ? & ? & ? & ? & ?). exists l', r', ms', s', oids.
    split_and!; try done. by apply sublist_cons. }
  destruct (Z.ltb_spec r 0) as [|Hr]; [apply Hstop|]. destruct p as [p|]; [|apply Hstop].
  destruct (Hnot r p eq_refl Hr) as [m Hm]. destruct (token_set_spec p m _ Hm Ho) as (r1 & p1 & -> & Hcase). rewrite bind_ret.
  destruct Hcase as [(-> & Hp1 & Hr1)|Hneg]; [|rewrite (proj2 (Z.ltb_lt r1 0)) by done; apply Hstop]. cbn [Z.ltb Z.compare].
  destruct (take_spec ms busy pids s p1 _ Hs Hp1 Hr1) as (y & -> & Hy & Hg1 & _ & Hv1 & Ho1 & Hn1). set (pid := next_id (q s)) in *.
  destruct (enqueue_inv _ busy (pid :: pids) (set_q s y) pid None (obs_addr o) Hy Hsock ltac:(by left) ltac:(done)) as (r2 & y2 & -> & Hy2 & Hg2 & Hcase).
  rewrite bind_ret. destruct (unref_inv _ _ _ _ _ Hy2) as (y3 & -> & Hy3 & Hg3 & Hv3 & Ho3 & Hn3). rewrite bind_ret, !set_q_set_q in *.
  pose proof (grown_trans _ _ _ _ _ _ (grown_trans _ _ _ _ _ _ Hg1 Hg2) Hg3) as Hg. set (s3 := set_q s y3) in *.
  destruct Hcase as [(Hneg & -> & _)|[-> (oid & Hva & Hoa & Hnone & _)]].
  { rewrite (proj2 (Z.ltb_lt r2 0)) by done. exists [], r2, (with_message ms pid (with_token (obs_token o) m)), s3, [].
    split_and!; [done|done|done| |constructor|apply sublist_nil_l]. rewrite app_nil_r. cbn in *. congruence. }
  cbn [Z.ltb Z.compare]. destruct (IH _ s3 Hy3 Hsock 0) as (l' & r' & ms' & s' & oids & -> & Hs' & Hg' & Hv' & Hall & Hsub).
  exists (o :: l'), r', ms', s', (oid :: oids). split_and!; [done|done|by eapply grown_trans| | |by constructor].
  - rewrite Hv'. cbn in *. rewrite Hv3, Hva, Hv1. by rewrite <- app_assoc.
  - constructor; [|done]. apply (notified_by_later (with_message ms pid (with_token (obs_token o) m)) s3); [apply Hg'|]. exists pid, m. split_and!.
    + pose proof (grown_next _ _ _ _ _ Hg2) as Hle. cbn in *. rewrite Hn3. lia.
    + apply with_message_same.
    + apply Hm.
    + cbn. rewrite Ho3. cbn. rewrite Hoa. apply lookup_insert_eq.
Qed.
End Notifying.

(** ** Resources come and go *)

Lemma fmap_sublist {A B} (f : A -> B) l l' : l `sublist_of` l' -> f <$> l `sublist_of` f <$> l'.
Proof. induction 1; cbn; by constructor. Qed.

Section Resources.
Context `{BuildConfig} `{Allocator} `{CoapEnv} `{ServerEnv}.

Lemma inv_contexts ms busy pids s cs : server_inv ms busy pids s -> contexts_ok cs -> server_inv ms busy pids (set_contexts s cs).
Proof. by intros [? ? _ ?]. Qed.

Lemma contexts_spec s res : match find_context s res with
  | Some i => res ∈ (resource <$> contexts s)
  | None => res ∉ (resource <$> contexts s)
  end.
Proof.
  pose proof (find_context_spec s res) as Hf. destruct (find_context s res) as [i|].
  - destruct Hf as (c & Hi & <-). apply list_elem_of_fmap. exists c. split; [done|]. by eapply list_elem_of_lookup_2.
  - intros (c & -> & Hc)%list_elem_of_fmap. rewrite Forall_forall in Hf. by apply (Hf c).
Qed.

(** A resource is registered once. *)
Lemma register_resource_spec ms busy pids s res : server_inv ms busy pids s ->
  exists r s', sol_coap_server_register_resource s res = (r, s') /\ server_inv ms busy pids s'
  /\ if decide (res ∈ (resource <$> contexts s)) then r = - EEXIST /\ s' = s
     else r = 0 /\ s' = set_contexts s (contexts s ++ [{| resource := res; observers := []; age := 2 |}]) \/ r = - ENOMEM /\ s' = s.
Proof.
  intros Hs. pose proof (contexts_spec s res) as Hf. unfold sol_coap_server_register_resource.
  destruct (find_context s res) as [i|]; destruct (decide _) as [Hin|Hin]; try done; [by exists (- EEXIST), s|].
  pose proof (server_contexts _ _ _ _ Hs) as [Hd Hl He].
  destruct (Z.eqb_spec (blen (contexts s)) UINT16_MAX); cbn [orb]; [exists (- ENOMEM), s; split_and!; auto|].
  destruct (negb (context_memory s)); [exists (- ENOMEM), s; split_and!; auto|].
  do 2 eexists. split; [done|]. split; [|by left]. apply inv_contexts; [done|]. split.
  - rewrite fmap_app. apply NoDup_app. split_and!; [done| |apply NoDup_singleton]. by intros x Hx ->%list_elem_of_singleton.
  - rewrite blen_app. change (blen [_]) with 1. lia.
  - apply Forall_app. split; [done|]. constructor; [|done]. split; cbn; [constructor|constructor|by vm_compute|done].
Qed.

Lemma delete_context cs i c : NoDup (resource <$> cs) -> cs !! i = Some c -> delete i cs = filter (fun x => resource x <> resource c) cs.
Proof.
  intros Hd Hi. rewrite delete_take_drop. pose proof (take_drop_middle _ _ _ Hi) as Hl. rewrite <- Hl in Hd. rewrite <- Hl at 3.
  rewrite fmap_app, fmap_cons in Hd. apply NoDup_app in Hd as (_ & Hd & Hnd). apply NoDup_cons in Hnd as [Hnot _].
  rewrite filter_app, filter_cons_False, !filter_all; [done|..|tauto]; apply Forall_forall; intros y Hy Heq.
  - apply Hnot, list_elem_of_fmap. by exists y.
  - apply (Hd (resource c)); [apply list_elem_of_fmap; by exists y|by left].
Qed.

Lemma unregister_loop_spec s res n : NoDup (resource <$> contexts s) -> (n <= length (contexts s))%nat ->
  Forall (fun c => resource c <> res) (drop n (contexts s)) ->
  unregister_loop s res n = if decide (res ∈ (resource <$> contexts s)) then (0, set_contexts s (filter (fun c => resource c <> res) (contexts s))) else (- ENOENT, s).
Proof.
  intros Hd. induction n as [|n IH]; intros Hn Hdrop; cbn [unregister_loop].
  - rewrite drop_0 in Hdrop. rewrite decide_False; [done|]. intros (c & -> & Hc)%list_elem_of_fmap. rewrite Forall_forall in Hdrop. by apply (Hdrop c).
  - destruct (lookup_lt_is_Some_2 (contexts s) n ltac:(lia)) as [c Hc]. rewrite Hc. destruct (Z.eqb_spec (resource c) res) as [<-|Hne].
    + rewrite decide_True; [by rewrite (delete_context _ _ _ Hd Hc)|]. apply list_elem_of_fmap. exists c. split; [done|]. by eapply list_elem_of_lookup_2.
    + apply IH; [lia|]. rewrite (drop_S _ _ _ Hc). by constructor.
Qed.

Lemma unregister_spec ms busy pids s res : server_inv ms busy pids s ->
  sol_coap_server_unregister_resource s res
    = (if decide (res ∈ (resource <$> contexts s)) then (0, set_contexts s (filter (fun c => resource c <> res) (contexts s))) else (- ENOENT, s))
  /\ server_inv ms busy pids (set_contexts s (filter (fun c => resource c <> res) (contexts s))).
Proof.
  intros Hs. pose proof (server_contexts _ _ _ _ Hs) as [Hd Hl He]. split.
  - apply unregister_loop_spec; [done|done|]. by rewrite drop_all.
  - apply inv_contexts; [done|]. split.
    + eapply sublist_NoDup; [exact Hd|]. apply fmap_sublist, sublist_filter.
    + pose proof (length_filter (fun c => resource c <> res) (contexts s)). unfold blen in *. lia.
    + apply Forall_forall. intros c [_ Hc]%list_elem_of_filter. by eapply Forall_forall in He.
Qed.

(** The message of a notification that is new *)
Definition notification_message (a : Z) : message :=
  Message COAP_VERSION SOL_COAP_MESSAGE_TYPE_NON_CON 0 0 [] [(SOL_COAP_OPTION_OBSERVE, [a / 256; a mod 256])] None.

Definition next_age (a : Z) : Z := if a + 1 =? UINT16_MAX then 2 else a + 1.

(** Every notification is newer than the one before. *)
Lemma new_notification_spec ms busy pids s res : server_inv ms busy pids s ->
  exists p s', sol_coap_packet_new_notification s res = Ret (p, s') /\ server_inv ms busy pids s'
    /\ match find_context s res with
       | None => p = None /\ s' = s
       | Some i => exists c, contexts s !! i = Some c /\ s' = update_context s i (set_age c (next_age (age c)))
           /\ match p with
              | Some pkt => represents pkt (notification_message (next_age (age c))) /\ refcnt pkt = 1
              | None => refused
              end
       end.
Proof.
  intros Hs. pose proof (find_context_spec s res) as Hf. unfold sol_coap_packet_new_notification. destruct (find_context s res) as [i|].
  2: { by exists None, s. }
  destruct Hf as (c & Hi & _). rewrite Hi. pose proof (contexts_each _ (server_contexts _ _ _ _ Hs)) as Hall. rewrite Forall_lookup in Hall.
  pose proof (Hall _ _ Hi) as [Hd Ht Hl Ha]. unfold UINT16_MAX in Ha.
  rewrite (wrapu_small 16) by lia. fold (next_age (age c)). set (a := next_age (age c)). cbv zeta. set (s1 := update_context s i _).
  assert (2 <= a < UINT16_MAX) as Hage.
  { subst a. unfold next_age, UINT16_MAX. destruct (Z.eqb_spec (age c + 1) 65535); lia. }
  assert (server_inv ms busy pids s1) as Hs1 by (by apply (update_context_inv _ _ _ _ _ c)).
  unfold sol_coap_packet_new. destruct packet_new_spec as [(e & -> & Hre)|(p0 & -> & Hp0 & Hr0)]; rewrite !bind_ret.
  { exists None, s1. split_and!; [done|done|]. exists c. by split_and!. }
  destruct (set_type_spec _ _ SOL_COAP_MESSAGE_TYPE_NON_CON Hp0) as (p1 & Hrun1 & Hp1); [done|]. rewrite Hrun1, bind_ret. cbn [Z.ltb Z.compare].
  unfold UINT16_MAX in Hage. rewrite be_bytes by lia.
  assert (Forall is_byte [a / 256; a mod 256]) as Hbytes by (repeat constructor; unfold is_byte; dlia).
  pose proof (blen_short _ (represents_wf _ _ Hp1) eq_refl eq_refl) as H12.
  destruct (add_option_spec p1 _ SOL_COAP_OPTION_OBSERVE [a / 256; a mod 256] Hp1 I ltac:(zlia) ltac:(done) ltac:(done) Hbytes) as (r & p2 & Hrun2 & Hcase).
  rewrite Hrun2, bind_ret. apply with_header_refcnt in Hrun1. apply add_option_refcnt in Hrun2.
  destruct Hcase as [(-> & _ & _ & Hp2)|[(_ & _ & Hno)|[Hneg Hre]]]; [|exfalso; by apply Hno|rewrite (proj2 (Z.ltb_lt r 0)) by done].
  - exists (Some p2), s1. split_and!; [done|done|]. exists c. split_and!; [done|done|exact Hp2|congruence].
  - exists None, s1. split_and!; [done|done|]. exists c. by split_and!.
Qed.
End Resources.

(** ** A server at work *)

Inductive server_op :=
| Receive (b : sol_buffer) (addr : Z)
| Write
| Resend (oid : Z)                                  (** the timeout of an entry expires *)
| GiveUp (rid : Z)                                  (** the timeout of a reply expires *)
| SendPacket (p : sol_coap_packet) (addr : Z) (reply_cb : option Z)
| CancelSend (pid addr : Z)
| Unobserve (addr : Z) (token : list Z)
| Notify (res : Z) (p : sol_coap_packet)
| NotifyBy (res cb : Z)
| NewNotification (res : Z)
| Register (res : Z)
| Unregister (res : Z)
| SetUnknown (h : option Z)
| Network (event flags : Z).                        (** something happens to a link *)

Definition server_start : sol_coap_server :=
  {| q := start; contexts := []; pending := []; replies := ∅; unknown_handler := None; socket := true; subscribed := true;
     request_id := 0; events := [] |}.

Section Server.
Context `{BuildConfig} `{Allocator} `{CoapEnv} `{ServerEnv} `{CoapProgram}.

Definition run_server_op (x : server_op) (s : sol_coap_server) : outcome sol_coap_server :=
  match x with
  | Receive b addr => on_can_read s (inr (b, addr))
  | Write => y ← writable (q s); Ret (set_q s y)
  | Resend oid => '(_, y) ← timeout_cb (q s) oid; Ret (set_q s y)
  | GiveUp rid => '(_, s) ← pending_timeout_cb s rid; Ret s
  | SendPacket p addr cb => '(_, s) ← sol_coap_send_packet_with_reply s p addr cb; Ret s
  | CancelSend pid addr => '(_, s) ← sol_coap_cancel_send_packet s pid addr; Ret s
  | Unobserve addr token => '(_, s) ← sol_coap_unobserve_by_token s addr token; Ret s
  | Notify res p => '(_, s) ← sol_coap_notify s res p; Ret s
  | NotifyBy res cb => '(_, s) ← sol_coap_notify_by_callback s res cb; Ret s
  | NewNotification res => '(_, s) ← sol_coap_packet_new_notification s res; Ret s
  | Register res => Ret (sol_coap_server_register_resource s res).2
  | Unregister res => Ret (sol_coap_server_unregister_resource s res).2
  | SetUnknown h => Ret (sol_coap_server_set_unknown_resource_handler s h).2
  | Network event flags => network_event s event flags
  end.

(** The program gives proper packets, the main loop calls back when it was
    asked to, and what comes in has a known code and is no longer than a
    reader can count. *)
Definition server_allows (x : server_op) (s : sol_coap_server) : Prop :=
  match x with
  | Receive b _ => exists l, rep b l /\ Forall is_byte l /\ blen l <= INT16_MAX /\ forall c, l !! 1%nat = Some c -> c ∈ known_codes
  | Write => write_monitor (q s) = true
  | Resend oid => armed (outs (q s)) oid
  | GiveUp rid => exists r, replies s !! rid = Some r /\ reply_timeout r = true
  | SendPacket p _ _ => exists m, proper p m
  | Unobserve _ token => token_ok token
  | Notify _ p => exists m, holds p m /\ refcnt p = 1 /\ m_code m ∈ known_codes
  | Network _ _ => subscribed s = true
  | _ => True
  end.

Inductive server_reaches : sol_coap_server -> Prop :=
| server_reaches_start : server_reaches server_start
| server_reaches_step s x s' : server_reaches s -> server_allows x s -> run_server_op x s = Ret s' -> server_reaches s'.

Definition server_ok (s : sol_coap_server) : Prop := exists ms, server_inv ms None [] s /\ socket s = true.

Lemma server_start_ok : server_ok server_start.
Proof.
  exists (fun _ => new_message). split; [|done]. split.
  - split_and!; [apply start_inv|right; left; constructor|constructor].
  - split; cbn; [constructor| |done|done]. intros rid. rewrite lookup_empty. split; [by intros ?%not_elem_of_nil|by intros [? ?]].
  - split; cbn; [constructor|done|constructor].
  - done.
Qed.

Lemma write_spec ms pids s : server_inv ms None pids s -> exists y, writable (q s) = Ret y /\ server_inv ms None pids (set_q s y).
Proof.
  intros Hs. pose proof (server_queue _ _ _ _ Hs) as Hq. destruct (writable_spec ms _ _ (proj1 Hq)) as (y & Hrun & Hy & Hw & _). exists y.
  split; [done|]. pose proof (writable_quiet _ _ Hrun) as Hqt. eapply inv_set_q; [exact Hs| |destruct Hqt as [_ Hn]; lia].
  split_and!; [done|done|]. eapply quiet_below; [done|apply Hq].
Qed.

Lemma resend_spec ms pids s oid : server_inv ms None pids s -> armed (outs (q s)) oid ->
  exists y, timeout_cb (q s) oid = Ret (false, y) /\ server_inv ms None pids (set_q s y).
Proof.
  intros Hs Ha. pose proof (server_queue _ _ _ _ Hs) as Hq. destruct (expire_spec ms _ _ oid (proj1 Hq) Ha) as (y & Hrun & Hy & Hw). exists y.
  split; [done|]. assert (quiet (q s) y) as Hqt.
  { unfold timeout_cb in Hrun. apply bind_Ret_inv in Hrun as (o & _ & [= <-]). split; [|done]. exists [Fired oid]. split; [done|by constructor]. }
  eapply inv_set_q; [exact Hs| |destruct Hqt as [_ Hn]; lia]. split_and!; [done|by left|]. eapply quiet_below; [done|apply Hq].
Qed.

Hypothesis Hpolite : polite.

Lemma server_op_spec x s : server_ok s -> server_allows x s -> exists s', run_server_op x s = Ret s' /\ server_ok s'.
Proof.
  intros (ms & Hs & Hk) Ha. assert (forall ms' s', server_inv ms' None [] s' -> socket s' = socket s -> server_ok s') as Hok.
  { intros ms' s' Hs' Hk'. exists ms'. split; [done|congruence]. }
  destruct x as [b addr| |oid|rid|p addr c|pid addr|addr token|res p|res c|res|res|res|h|event flags]; cbn [run_server_op server_allows] in *.
  - destruct Ha as (l & Hrep & Hb & Hl & Hcode).
    destruct (on_can_read_spec Hpolite ms [] s b l addr Hs Hk Hrep Hb Hl Hcode) as (ms' & s' & -> & Hs' & _ & Hk'). exists s'. split; [done|]. by exists ms'.
  - destruct (write_spec _ _ _ Hs) as (y & -> & Hy). rewrite bind_ret. exists (set_q s y). split; [done|by eapply Hok].
  - destruct (resend_spec _ _ _ _ Hs Ha) as (y & -> & Hy). rewrite bind_ret. exists (set_q s y). split; [done|by eapply Hok].
  - destruct Ha as (r & Hr & _). destruct (timeout_spec Hpolite ms [] s rid r Hs Hr Hk) as (res & more & ms' & s' & -> & Hs' & _ & Hcase). rewrite bind_ret.
    exists s'. split; [done|]. eapply Hok; [done|]. destruct more; apply Hcase.
  - destruct Ha as [m Hm]. destruct (server_send_spec ms None [] s p m addr c Hs Hk Hm) as (r & ms' & s' & -> & Hs' & Hg & _). rewrite bind_ret.
    exists s'. split; [done|]. eapply Hok; [done|apply Hg].
  - destruct (cancel_packet_spec ms [] s pid addr Hs Hk) as (n & y & r & ms' & s' & _ & -> & Hs' & Hg & _). rewrite bind_ret.
    exists s'. split; [done|]. eapply Hok; [done|apply Hg].
  - destruct (unobserve_loop_spec Hpolite addr token _ ms [] s Hs Hk Ha (le_n _)) as [[_ Hrun]|(pre & rid & post & r & res & ms' & s' & _ & _ & _ & Hrun & Hs' & Hans)].
    { by rewrite drop_all. }
    + unfold sol_coap_unobserve_by_token. rewrite Hrun, bind_ret. exists s. split; [done|]. by exists ms.
    + unfold sol_coap_unobserve_by_token. rewrite Hrun, bind_ret. exists s'. split; [done|]. eapply Hok; [done|apply Hans].
  - destruct Ha as (m & Hp & Hr & Hcode). destruct (notify_spec ms None [] s res p m Hs Hk Hp Hr Hcode) as (r & ms' & s' & -> & Hs' & Hg & _).
    rewrite bind_ret. exists s'. split; [done|]. eapply Hok; [done|apply Hg].
  - unfold sol_coap_notify_by_callback. pose proof (fun l => observers_tokens ms None [] s res l Hs) as Htok. destruct (observers_of s res) as [l|].
    + destruct (notify_by_callback_spec ms None [] s c l Hpolite Hs Hk (Htok l eq_refl) 0) as (l' & r & ms' & s' & oids & -> & Hs' & Hg & _).
      rewrite bind_ret. exists s'. split; [done|]. eapply Hok; [done|apply Hg].
    + rewrite bind_ret. exists s. split; [done|]. by exists ms.
  - destruct (new_notification_spec ms None [] s res Hs) as (p & s' & -> & Hs' & Hcase). rewrite bind_ret. exists s'. split; [done|].
    eapply Hok; [done|]. destruct (find_context s res); [by destruct Hcase as (c & _ & -> & _)|by destruct Hcase as [_ ->]].
  - destruct (register_resource_spec ms None [] s res Hs) as (r & s' & -> & Hs' & Hcase). exists s'. split; [done|]. eapply Hok; [done|].
    destruct (decide _); [by destruct Hcase as [_ ->]|by destruct Hcase as [[_ ->]|[_ ->]]].
  - destruct (unregister_spec ms None [] s res Hs) as [-> Hs']. eexists. split; [done|]. destruct (decide _); [by eapply Hok|by eapply Hok].
  - eexists. split; [done|]. eapply (Hok ms); [|done]. by destruct Hs.
  - exists s. split; [|by exists ms]. unfold network_event. rewrite Hk. by repeat case_match.
Qed.

Lemma server_reached s : server_reaches s -> server_ok s.
Proof.
  induction 1 as [|s x s' _ IH Ha Hrun]; [apply server_start_ok|]. destruct (server_op_spec x s IH Ha) as (s1 & Hrun1 & Hs1).
  rewrite Hrun in Hrun1. by injection Hrun1 as <-.
Qed.

(** The end: the callbacks of all replies are called, the last one first,
    and nothing is left. *)
Lemma destroy_server_spec ms s : server_inv ms None [] s ->
  exists ans s', sol_coap_server_destroy s = Ret s' /\ contexts s' = [] /\ pending s' = [] /\ replies s' = ∅
    /\ vec (q s') = [] /\ (forall pid, packets (q s') !! pid = None) /\ subscribed s' = subscribed s
    /\ calls (events s') = calls (events s) ++ told None ans (reverse (pending s)).
Proof.
  intros Hs. unfold sol_coap_server_destroy. set (s0 := close_socket s).
  assert (server_inv ms None [] s0) as Hs0 by (by destruct Hs).
  pose proof (server_queue _ _ _ _ Hs0) as Hq. destruct (destroy_spec ms _ _ (proj1 Hq)) as (x & Hrun & Hx & Hsh & Hv). rewrite Hrun, bind_ret.
  assert (quiet (q s0) x) as Hqx.
  { unfold destroy_outgoing in Hrun. apply bind_Ret_inv in Hrun as ([n y] & Hy & [= <-]). by eapply remove_quiet. }
  assert (server_inv ms None [] (set_q s0 x)) as Hs1.
  { eapply inv_set_q; [exact Hs0|by eapply orderly_shrunk|]. destruct Hqx as [_ Hn]. lia. }
  destruct (destroy_loop_spec Hpolite _ ms [] (set_q s0 x) Hs1 eq_refl eq_refl) as (ans & s' & -> & Hs' & Hp & Hq' & _ & Hsub & Hc). rewrite bind_ret.
  exists ans, (set_contexts s' []). split_and!; [done|done|done| | | |exact Hsub|exact Hc].
  - apply map_eq. intros rid. rewrite lookup_empty. destruct (replies s' !! rid) as [r|] eqn:Hr; [|done].
    assert (rid ∈ pending s') as Hin by (apply (replies_listed _ _ _ _ (server_replies _ _ _ _ Hs')); eauto). rewrite Hp in Hin. by apply not_elem_of_nil in Hin.
  - cbn. rewrite Hq'. done.
  - intros pid. change (packets (q s') !! pid = None). rewrite Hq'. pose proof (empty_owned ms _ _ Hx Hv pid) as Ho.
    change (owned [] pid) with 0 in Ho. rewrite decide_True in Ho by done. cbn. by destruct (packets x !! pid).
Qed.
End Server.

(** ** The server is correct *)

Section Properties.
Context `{BuildConfig} `{Allocator} `{CoapEnv} `{ServerEnv} `{CoapProgram}.

(** C9: whatever a [polite] program does with its server (its callbacks send
    packets that can be read, those of replies cancel nothing but the packet
    they are called for, and they do nothing once the server is going away)
    and whatever datagrams of a known code and at most 32767 bytes come in,
    the queue is in order and owns every packet, the pending replies are the
    ones that exist, one that is cancelled by its own callback until that has
    returned, and nobody is an observer twice; so each operation that may come
    next runs to its end.  Destroying the server calls the callbacks of all
    pending replies, the last one first, and leaves no packet, entry, reply or
    context behind; the subscription to the events of the network stays. *)
Theorem coap_server_safe s : polite -> server_reaches s ->
  (exists ms, server_inv ms None [] s)
  /\ (forall x, server_allows x s -> exists s', run_server_op x s = Ret s')
  /\ exists ans s', sol_coap_server_destroy s = Ret s' /\ contexts s' = [] /\ pending s' = [] /\ replies s' = ∅
       /\ vec (q s') = [] /\ (forall pid, packets (q s') !! pid = None) /\ subscribed s' = subscribed s
       /\ calls (events s') = calls (events s) ++ told None ans (reverse (pending s)).
Proof.
  intros Hp Hr. pose proof (server_reached Hp s Hr) as Hok. pose proof Hok as (ms & Hs & _). split; [by exists ms|]. split.
  - intros x Hx. destruct (server_op_spec Hp x s Hok Hx) as (s' & ? & _). by exists s'.
  - by apply (destroy_server_spec Hp ms).
Qed.



(** The packet that goes to an observer: the notification's options and
    payload behind the observer's token *)
Definition on_its_way (ms : Z -> message) (x : queue) (m : message) (oid : Z) (o : resource_observer) : Prop :=
  exists e, outs x !! oid = Some e /\ cliaddr e = obs_addr o /\ counter e = 0 /\ wire ms e = encode (with_header_of (observer_message m o) m).

(** C12: a notification goes to the observers of its resource, to each behind
    a header with the token it registered, in the order they came; only when
    memory is refused or the queue is full the last ones are left out, and
    then the answer is an error. *)
Theorem coap_notify_correct ms s res p m : server_inv ms None [] s -> socket s = true -> holds p m -> refcnt p = 1 -> m_code m ∈ known_codes ->
  exists r ms' s', sol_coap_notify s res p = Ret (r, s') /\ server_inv ms' None [] s'
    /\ match observers_of s res with
       | None => r = - ENOENT /\ vec (q s') = vec (q s)
       | Some l => exists k oids, vec (q s') = vec (q s) ++ oids /\ Forall2 (on_its_way ms' (q s') m) oids (take k l)
                   /\ (r = 0 /\ k = length l \/ r < 0 /\ (k < length l)%nat /\ want_of_room (q s'))
       end.
Proof.
  intros Hs Hk Hp Hr Hc. destruct (notify_spec ms None [] s res p m Hs Hk Hp Hr Hc) as (r & ms' & s' & Hrun & Hs' & _ & Hcase).
  exists r, ms', s'. split_and!; [done|done|]. destruct (observers_of s res) as [l|]; [|done].
  destruct Hcase as (k & oids & Hv & Hall & Hm & Hend). exists k, oids. split_and!; [done| |done].
  eapply Forall2_impl; [exact Hall|]. intros oid o (h & _ & Hmh & Ho). eexists. split_and!; [exact Ho|done|done|].
  unfold wire. cbn [o_header o_pkt]. by rewrite Hmh, Hm.
Qed.
End Properties.

(** ** At work *)

Definition plenty : ServerEnv :=
  {| reply_memory := fun _ => true; reply_timeout_memory := fun _ => true; pending_memory := fun _ => true;
     observer_memory := fun _ => true; observers_memory := fun _ => true; context_memory := fun _ => true |}.

(** A resource /a that can be read, and its value *)
Definition light : sol_coap_resource := {| get := Some 1; post := None; put := None; del := None; res_flags := 0; path := [[97]; []] |}.

Definition value_message : message := Message 1 1 69 3 [9] [] (Some [49]).

Definition value_packet : sol_coap_packet := packet_of (encode value_message).

(** A callback that cancels its own packet *)
Definition cancel_own (s : sol_coap_server) : list action :=
  if socket s then (fun x : Z * pending_reply => CancelPacket (reply_pkt x.2) 5) <$> filter (fun x => in_use x.2 = true) (map_to_list (replies s)) else [].

(** The handler sends the value; the callback 1 wants more, the callback 3
    cancels its packet. *)
Definition sample_program : CoapProgram :=
  {| resource_at := fun _ => light; reply_cb := fun s c _ => (if c =? 3 then cancel_own s else [], c =? 1);
     handler_cb := fun _ _ _ addr => ([Send value_packet addr None], 0); notification_cb := fun _ _ _ => (- EPERM, None) |}.

Lemma value_proper : proper value_packet value_message.
Proof.
  assert (wf_message value_message) as Hwf by (split; cbn; unfold is_byte; repeat constructor; lia || done).
  split; [split_and!; [done|by apply rep_packet_of|done]|done|done|done|done].
Qed.

Lemma sample_polite : polite (H := sample_program).
Proof.
  split; cbn.
  - intros s c _. destruct (c =? 3); [|constructor]. unfold cancel_own. destruct (socket s); [|constructor]. apply Forall_fmap, Forall_forall.
    intros [rid r] [Hu Hr]%list_elem_of_filter. exists rid, r. by apply elem_of_map_to_list in Hr.
  - intros. constructor; [|done]. exists value_message. exact value_proper.
  - done.
  - intros s c Hs. destruct (c =? 3); [|done]. unfold cancel_own. by rewrite Hs.
  - intros _. exists [[97]]. split_and!; [done|by constructor|by repeat constructor|done].
Qed.

Definition after_op (x : server_op) (s : sol_coap_server) : sol_coap_server :=
  match run_server_op (H := gcc5) (H0 := roomy) (H1 := obliging) (H2 := plenty) (H3 := sample_program) x s with Ret s => s | UB => s end.

(** GET /a, observing *)
Definition observe_message : message := Message 1 0 1 7 [9] [(6, []); (11, [97])] None.

Definition observe_packet : sol_coap_packet := packet_of (encode observe_message).

Definition with_resource : sol_coap_server := after_op (Register 0) server_start.
Definition with_observer : sol_coap_server := after_op (Receive (buf observe_packet) 5) with_resource.

(** A reply whose callback cancels it *)
Definition with_reply : sol_coap_server := after_op (SendPacket (packet_of (encode get_message)) 5 (Some 3)) server_start.

(** An observation of /a whose callback wants no more *)
Definition watch_message : message := Message 1 0 1 7 [9] [(6, [0]); (11, [97])] None.

Definition watch_packet : sol_coap_packet := packet_of (encode watch_message).

Definition with_watch : sol_coap_server := after_op (SendPacket watch_packet 5 (Some 2)) server_start.

Definition server_reached_here : sol_coap_server -> Prop :=
  server_reaches (H := gcc5) (H0 := roomy) (H1 := obliging) (H2 := plenty) (H3 := sample_program).

Lemma observe_wf : wf_message observe_message.
Proof. split; cbn; unfold is_byte; repeat constructor; lia || done. Qed.

Lemma get_proper : proper (packet_of (encode get_message)) get_message.
Proof. split; [exact get_holds|done|done|done|done]. Qed.

Lemma resource_reached : server_reached_here with_resource.
Proof.
  refine (server_reaches_step (H := gcc5) (H0 := roomy) (H1 := obliging) (H2 := plenty) (H3 := sample_program) server_start (Register 0) with_resource _ I _);
    [apply server_reaches_start|reflexivity].
Qed.

Lemma observer_reached : server_reached_here with_observer.
Proof.
  refine (server_reaches_step (H := gcc5) (H0 := roomy) (H1 := obliging) (H2 := plenty) (H3 := sample_program) with_resource
    (Receive (buf observe_packet) 5) with_observer resource_reached _ _).
  - exists (encode observe_message). split_and!; [by apply rep_packet_of|apply encode_bytes, observe_wf|done|]. intros c [= <-]. by vm_compute; left.
  - by vm_compute.
Qed.

Lemma reply_reached : server_reached_here with_reply.
Proof.
  refine (server_reaches_step (H := gcc5) (H0 := roomy) (H1 := obliging) (H2 := plenty) (H3 := sample_program) server_start
    (SendPacket (packet_of (encode get_message)) 5 (Some 3)) with_reply _ _ _); [apply server_reaches_start|exists get_message; exact get_proper|by vm_compute].
Qed.

Lemma watch_proper : proper watch_packet watch_message.
Proof.
  assert (wf_message watch_message) as Hwf by (split; cbn; unfold is_byte; repeat constructor; lia || done).
  split; [split_and!; [done|by apply rep_packet_of|done]|done| |done|].
  - cbn. unfold readable. split_and!; done || (by left).
  - intros _. split; [|done]. constructor; [|constructor]. split; [done|]. by repeat constructor.
Qed.

Lemma watch_reached : server_reached_here with_watch.
Proof.
  refine (server_reaches_step (H := gcc5) (H0 := roomy) (H1 := obliging) (H2 := plenty) (H3 := sample_program) server_start
    (SendPacket watch_packet 5 (Some 2)) with_watch _ _ _); [apply server_reaches_start|exists watch_message; exact watch_proper|by vm_compute].
Qed.

Lemma value_known : 69 ∈ known_codes.
Proof. apply (bool_decide_unpack _). by vm_compute. Qed.

Definition answer_message : message := Message 1 2 69 7 [9] [] (Some [49]).

Lemma arrived_encode m : wf_message m -> readable_options 0 (m_options m) -> blen (encode m) <= INT16_MAX -> m_code m ∈ known_codes ->
  arrived (packet_of (encode m)) m (m_options m).
Proof.
  intros Hwf Hr Hs Hc. assert (rep (buf (packet_of (encode m))) (encode m)) as Hrep by (apply rep_packet_of; zlia). split; [|do 2 eexists; split_and!|done].
  - split; [done|]. eexists. exact Hrep.
  - split; [exact Hrep|by apply encode_bytes|zlia].
  - done.
  - by apply packet_encode.
Qed.

Lemma answer_wf : wf_message answer_message.
Proof. split; cbn; unfold is_byte; repeat constructor; lia || done. Qed.

Lemma answer_arrived : arrived (packet_of (encode answer_message)) answer_message [].
Proof.
  apply arrived_encode; [exact answer_wf|done|done|]. apply value_known.
Qed.

Lemma coap_server_safe_witness :
  (exists s', run_server_op (H := gcc5) (H0 := roomy) (H1 := obliging) (H2 := plenty) (H3 := sample_program)
     (Receive (buf (packet_of (encode answer_message))) 5) with_reply = Ret s')
  /\ exists s', sol_coap_server_destroy (H := gcc5) (H0 := roomy) (H1 := obliging) (H2 := sample_program) (H3 := plenty) with_reply = Ret s'
       /\ vec (q s') = [].
Proof.
  destruct (coap_server_safe (H := gcc5) (H0 := roomy) (H1 := obliging) (H2 := plenty) (H3 := sample_program) with_reply sample_polite reply_reached)
    as (_ & Hrun & (_ & s' & Hd & _ & _ & _ & Hv & _)). split; [|by exists s'].
  apply Hrun. exists (encode answer_message). split; [by apply rep_packet_of|]. split; [apply encode_bytes, answer_wf|]. split; [done|].
  intros c [= <-]. exact value_known.
Defined.


Lemma observe_arrived : arrived observe_packet observe_message [(6, []); (11, [97])].
Proof.
  apply (arrived_encode observe_message); [exact observe_wf|cbn; unfold readable; split_and!; done || (by left)|done|]. apply (bool_decide_unpack _). by vm_compute.
Qed.


Lemma coap_notify_correct_witness :
  exists r ms' s' k oids, sol_coap_notify (H := gcc5) (H0 := roomy) (H1 := obliging) with_observer 0 value_packet = Ret (r, s')
    /\ vec (q s') = vec (q with_observer) ++ oids
    /\ Forall2 (on_its_way ms' (q s') value_message) oids (take k [{| obs_addr := 5; obs_token := [9] |}]).
Proof.
  destruct (server_reached (H := gcc5) (H0 := roomy) (H1 := obliging) (H2 := plenty) (H3 := sample_program) sample_polite _ observer_reached) as (ms & Hs & Hk).
  destruct (coap_notify_correct (H := gcc5) (H0 := roomy) (H1 := obliging) ms with_observer 0 value_packet value_message Hs Hk (proper_holds _ _ value_proper) eq_refl value_known)
    as (r & ms' & s' & Hrun & _ & Hcase).
  assert (observers_of with_observer 0 = Some [{| obs_addr := 5; obs_token := [9] |}]) as Ho by (by vm_compute). rewrite Ho in Hcase.
  destruct Hcase as (k & oids & Hv & Hall & _). exists r, ms', s', k, oids. split; [exact Hrun|]. split; [exact Hv|exact Hall].
Defined.

(** *** What does not hold *)

Fixpoint run_all (env : ServerEnv) (prog : CoapProgram) (xs : list server_op) (s : sol_coap_server) : outcome sol_coap_server :=
  match xs with
  | [] => Ret s
  | x :: xs => s ← run_server_op (H := gcc5) (H0 := roomy) (H1 := obliging) (H2 := env) (H3 := prog) x s; run_all env prog xs s
  end.

Definition seen {A} (x : outcome sol_coap_server) (f : sol_coap_server -> A) : option A := match x with Ret s => Some (f s) | UB => None end.

Definition request (os : list (Z * list Z)) : sol_buffer := buf (packet_of (encode (Message 1 0 1 7 [9] os None))).

(** The list of resources with one resource in it is an internal error with
    the beginning of the list as its payload. *)
Definition listed_program : CoapProgram :=
  {| resource_at := fun _ => {| get := Some 1; post := None; put := None; del := None; res_flags := SOL_COAP_FLAGS_WELL_KNOWN; path := [[97]; []] |};
     reply_cb := fun _ _ _ => ([], false); handler_cb := fun _ _ _ _ => ([], 0); notification_cb := fun _ _ _ => (- EPERM, None) |}.

Lemma listing_resources_fails :
  seen (run_all plenty listed_program [Register 0; Receive (request ((fun s => (11, s)) <$> [[46; 119; 101; 108; 108; 45; 107; 110; 111; 119; 110]; [99; 111; 114; 101]])) 5; Write] server_start)
    (fun s => sents (log (q s))) = Some [Sent 1 [97; 160; 0; 7; 9; 255; 60; 47; 97] 5 5].
Proof. by vm_compute. Qed.

(** Observe: 1 from somebody who is no observer makes an observer. *)
Lemma deregistration_registers :
  seen (run_all plenty sample_program [Register 0; Receive (request [(6, [1]); (11, [97])]) 5] server_start) (fun s => observers_of s 0)
  = Some (Some [{| obs_addr := 5; obs_token := [9] |}]).
Proof. by vm_compute. Qed.

(** A reply that is cancelled by its own callback, which then returns true,
    stays and is called again. *)
Definition cancelling (more : bool) : CoapProgram :=
  {| resource_at := fun _ => light; reply_cb := fun _ _ _ => ([CancelPacket 0 5], more); handler_cb := fun _ _ _ _ => ([], 0);
     notification_cb := fun _ _ _ => (- EPERM, None) |}.

Definition send_get (id : Z) : server_op := SendPacket (packet_of (encode (Message 1 0 1 id [9] [] None))) 5 (Some 1).

Definition answer_to (id : Z) : server_op := Receive (buf (packet_of (encode (Message 1 2 69 id [9] [] None)))) 5.

Lemma cancelled_replies_stay :
  seen (run_all plenty (cancelling true) [send_get 7; answer_to 7; answer_to 7] server_start)
    (fun s => (length (calls (events s)), pending s, delete_me <$> replies s !! 1)) = Some (2%nat, [1], Some true).
Proof. by vm_compute. Qed.

(** The subscription to the events of the network outlives the server, and
    the next one uses it after it was freed. *)
Lemma subscription_outlives_server :
  match sol_coap_server_destroy (H := gcc5) (H0 := roomy) (H1 := obliging) (H2 := sample_program) (H3 := plenty) server_start with
  | Ret s => subscribed s = true /\ network_event s SOL_NETWORK_LINK_ADDED SOL_NETWORK_LINK_RUNNING = UB
  | UB => False
  end.
Proof. by vm_compute. Qed.

(** A callback that cancels an earlier reply makes the walk over the replies
    read outside the vector. *)
Lemma cancelling_others_is_undefined : run_all plenty (cancelling false) [send_get 7; send_get 8; answer_to 8] server_start = UB.
Proof. by vm_compute. Qed.

(** The empty Observe value, which is how 0 is written, is no observation. *)
Lemma empty_observe_is_ignored :
  is_observing (packet_of (encode (Message 1 0 1 7 [9] [(6, []); (11, [97])] None))) = Ret (false, false)
  /\ is_observing (packet_of (encode (Message 1 0 1 7 [9] [(6, [0]); (11, [97])] None))) = Ret (false, true).
Proof. by vm_compute. Qed.

(** Without room for its reply a packet fails to be sent and is sent. *)
Definition cramped : ServerEnv :=
  {| reply_memory := fun _ => true; reply_timeout_memory := fun _ => true; pending_memory := fun _ => false;
     observer_memory := fun _ => true; observers_memory := fun _ => true; context_memory := fun _ => true |}.

Lemma failed_sends_are_sent :
  match sol_coap_send_packet_with_reply (H := gcc5) (H0 := roomy) (H1 := obliging) (H3 := cramped) server_start (packet_of (encode get_message)) 5 (Some 1) with
  | Ret (r, s) => (r, vec (q s), pending s) = (- ENOMEM, [2], [])
  | UB => False
  end.
Proof. by vm_compute. Qed.

(** A confirmable notification goes out with the id 0, and waits for an
    acknowledgement of the id its packet has. *)
Lemma notifications_have_no_id :
  let ops := [Register 0; Receive (request [(6, []); (11, [97])]) 5; Write; Notify 0 (packet_of (encode (Message 1 0 69 7 [] [] None))); Write] in
  let acknowledge id := Receive (buf (packet_of (encode (Message 1 2 0 id [] [] None)))) 5 in
  seen (run_all plenty listed_program ops server_start) (fun s => sents (log (q s))) = Some [Sent 2 [65; 69; 0; 0; 9] 5 5]
  /\ seen (run_all plenty listed_program (ops ++ [acknowledge 0]) server_start) (fun s => vec (q s)) = Some [2]
  /\ seen (run_all plenty listed_program (ops ++ [acknowledge 7]) server_start) (fun s => vec (q s)) = Some [].
Proof. by vm_compute. Qed.

(** A response is for whoever has a request with its id pending, wherever it
    comes from. *)
Lemma responses_have_no_address :
  seen (run_all plenty (cancelling true) [send_get 7; Receive (buf (packet_of (encode (Message 1 2 69 7 [] [] None)))) 99] server_start)
    (fun s => length (calls (events s))) = Some 1%nat.
Proof. by vm_compute. Qed.
End CoapServerProofs.
