(* ===== verification/Lwm2m.v ===== *)
(** * LWM2M: values and requests

    Models src/src/lib/comms/sol-lwm2m-common.c: how resources are written as
    type-length-value entries, read back, and put into a CoAP request.  The
    machine is little-endian with a signed [char], as for Coap.  A vector of
    entries is the list of them, which grows as Vector says; a blob is its
    bytes, a double its 64 bits.  The characters of a slice are its own block:
    reading behind them is undefined. *)

From S2P Require Import Prelude Arith Vector Str Codec Buffer Coap.
Import StrSlice Buffer Coap.

#[local] Open Scope Z_scope.

Module Lwm2m.

(** ** Data *)

Definition TLV_TYPE_MASK := 192.
Definition TLV_ID_SIZE_MASK := 32.
Definition TLV_CONTENT_LENGTH_MASK := 24.
Definition TLV_CONTENT_LENGHT_CUSTOM_MASK := 7.
Definition ID_HAS_16BITS_MASK := 32.
Definition OBJ_LINK_LEN := 4.
Definition LEN_IS_8BITS_MASK := 8.
Definition LEN_IS_16BITS_MASK := 16.
Definition LEN_IS_24BITS_MASK := 24.
Definition UINT24_MAX := 16777215.
Definition LENGTH_SIZE_8_BITS := 8.
Definition LENGTH_SIZE_16_BITS := 16.
Definition LENGTH_SIZE_24_BITS := 24.

Definition SOL_LWM2M_TLV_TYPE_OBJECT_INSTANCE := 0.
Definition SOL_LWM2M_TLV_TYPE_RESOURCE_INSTANCE := 64.
Definition SOL_LWM2M_TLV_TYPE_MULTIPLE_RESOURCES := 128.
Definition SOL_LWM2M_TLV_TYPE_RESOURCE_WITH_VALUE := 192.

Inductive sol_lwm2m_resource_data_type :=
| SOL_LWM2M_RESOURCE_DATA_TYPE_STRING
| SOL_LWM2M_RESOURCE_DATA_TYPE_INT
| SOL_LWM2M_RESOURCE_DATA_TYPE_FLOAT
| SOL_LWM2M_RESOURCE_DATA_TYPE_BOOL
| SOL_LWM2M_RESOURCE_DATA_TYPE_OPAQUE
| SOL_LWM2M_RESOURCE_DATA_TYPE_TIME
| SOL_LWM2M_RESOURCE_DATA_TYPE_OBJ_LINK
| SOL_LWM2M_RESOURCE_DATA_TYPE_NONE.

Inductive sol_lwm2m_resource_type :=
| SOL_LWM2M_RESOURCE_TYPE_SINGLE
| SOL_LWM2M_RESOURCE_TYPE_MULTIPLE
| SOL_LWM2M_RESOURCE_TYPE_UNKNOWN.

(** The union of a resource; reading another member than was written is
    undefined. *)
Inductive data_content := Blob (bytes : list Z) | Integer (i : Z) | Fp (bits : Z).

Record sol_lwm2m_resource_data := { data_id : Z; content : data_content }.

Record sol_lwm2m_resource := {
  res_type : sol_lwm2m_resource_type; data_type : sol_lwm2m_resource_data_type;
  res_id : Z; res_data : list sol_lwm2m_resource_data
}.

Record sol_lwm2m_tlv := { tlv_type : Z; tlv_id : Z; tlv_content : sol_buffer }.

Definition INT8_MIN := -128.
Definition INT8_MAX := 127.
Definition INT16_MIN := -32768.

(** sizeof(struct sol_lwm2m_tlv) *)
Definition sizeof_tlv := 48.

(** The bits of a double that has the value of a float, and of the float a
    double is converted to *)
Class FloatBits := { float_to_double : Z -> Z; double_to_float : Z -> Z }.

(** ** Byte order *)

Fixpoint swap_loop (bs : list Z) (i j : Z) (n : nat) : outcome (list Z) :=
  match n with
  | O => Ret bs
  | S n =>
      swap ← at_index bs i;
      x ← at_index bs j;
      swap_loop (<[Z.to_nat j := swap]> (<[Z.to_nat i := x]> bs)) (i + 1) (wrapu 64 (j - 1)) n
  end.

Definition swap_bytes (to_swap : list Z) (len : Z) : outcome (list Z) :=
  swap_loop to_swap 0 (wrapu 64 (len - 1)) (Z.to_nat (len / 2)).

(** ** Writing *)

Definition get_int_size (i : Z) : Z :=
  if (INT8_MIN <=? i) && (i <=? INT8_MAX) then 1
  else if (INT16_MIN <=? i) && (i <=? INT16_MAX) then 2
  else if (INT32_MIN <=? i) && (i <=? INT32_MAX) then 4
  else 8.

(** [resource->data[index]] *)
Definition data_of (resource : sol_lwm2m_resource) (index : nat) : outcome sol_lwm2m_resource_data :=
  match res_data resource !! index with Some d => Ret d | None => UB end.

Definition blob_of (d : sol_lwm2m_resource_data) : outcome (list Z) :=
  match content d with Blob bs => Ret bs | _ => UB end.
Definition integer_of (d : sol_lwm2m_resource_data) : outcome Z :=
  match content d with Integer i => Ret i | _ => UB end.
Definition fp_of (d : sol_lwm2m_resource_data) : outcome Z :=
  match content d with Fp x => Ret x | _ => UB end.

(** The return value and [*len] *)
Definition get_resource_len (resource : sol_lwm2m_resource) (index : nat) : outcome (Z * Z) :=
  match data_type resource with
  | SOL_LWM2M_RESOURCE_DATA_TYPE_STRING | SOL_LWM2M_RESOURCE_DATA_TYPE_OPAQUE =>
      d ← data_of resource index; bs ← blob_of d; Ret (0, blen bs)
  | SOL_LWM2M_RESOURCE_DATA_TYPE_INT | SOL_LWM2M_RESOURCE_DATA_TYPE_TIME =>
      d ← data_of resource index; i ← integer_of d; Ret (0, get_int_size i)
  | SOL_LWM2M_RESOURCE_DATA_TYPE_BOOL => Ret (0, 1)
  | SOL_LWM2M_RESOURCE_DATA_TYPE_FLOAT => Ret (0, 8)
  | SOL_LWM2M_RESOURCE_DATA_TYPE_OBJ_LINK => Ret (0, OBJ_LINK_LEN)
  | SOL_LWM2M_RESOURCE_DATA_TYPE_NONE => Ret (- EINVAL, 0)
  end.

(** The six bytes at most of a header.  The value of [tlv_data[0]] fits, for
    the types are multiples of 64. *)
Definition tlv_data (tlv_type res_id data_len : Z) : option (list Z) :=
  let '(type, id) :=
    if res_id >? UINT8_MAX
    then (Z.lor tlv_type ID_HAS_16BITS_MASK, [Z.land (Z.shiftr res_id 8) 255; Z.land res_id 255])
    else (tlv_type, [res_id]) in
  if data_len <=? 7 then Some (Z.lor type data_len :: id)
  else if data_len <=? UINT8_MAX then Some (Z.lor type LEN_IS_8BITS_MASK :: id ++ [data_len])
  else if data_len <=? UINT16_MAX
  then Some (Z.lor type LEN_IS_16BITS_MASK :: id ++ [Z.land (Z.shiftr data_len 8) 255; Z.land data_len 255])
  else if data_len <=? UINT24_MAX
  then Some (Z.lor type LEN_IS_24BITS_MASK
             :: id ++ [Z.land (Z.shiftr data_len 16) 255; Z.land (Z.shiftr data_len 8) 255; Z.land data_len 255])
  else None.

Section Operations.
Context `{BuildConfig} `{Allocator} `{FloatBits}.

Definition add_float_resource (b : sol_buffer) (fp len : Z) : outcome (Z * sol_buffer) :=
  bytes ← (if len =? 4 then swap_bytes (le_bytes 4 (double_to_float fp)) len else swap_bytes (le_bytes 8 fp) len);
  bytes ← mem_load bytes 0 len;
  sol_buffer_append_bytes b bytes.

Definition add_int_resource (b : sol_buffer) (i len : Z) : outcome (Z * sol_buffer) :=
  bytes ← swap_bytes (le_bytes 8 (wrapu 64 i)) len;
  bytes ← mem_load bytes 0 len;
  sol_buffer_append_bytes b bytes.

Definition add_resource_bytes_to_buffer (resource : sol_lwm2m_resource) (b : sol_buffer) (idx : nat)
    : outcome (Z * sol_buffer) :=
  '(r, len) ← get_resource_len resource idx;
  if r <? 0 then Ret (r, b)
  else
    d ← data_of resource idx;
    match data_type resource with
    | SOL_LWM2M_RESOURCE_DATA_TYPE_STRING | SOL_LWM2M_RESOURCE_DATA_TYPE_OPAQUE =>
        bs ← blob_of d; sol_buffer_append_slice b bs
    | SOL_LWM2M_RESOURCE_DATA_TYPE_INT | SOL_LWM2M_RESOURCE_DATA_TYPE_TIME
    | SOL_LWM2M_RESOURCE_DATA_TYPE_OBJ_LINK =>
        i ← integer_of d; add_int_resource b i len
    | SOL_LWM2M_RESOURCE_DATA_TYPE_BOOL =>
        i ← integer_of d; sol_buffer_append_bytes b [if negb (i =? 0) then 1 else 0]
    | SOL_LWM2M_RESOURCE_DATA_TYPE_FLOAT => fp ← fp_of d; add_float_resource b fp len
    | SOL_LWM2M_RESOURCE_DATA_TYPE_NONE => Ret (- EINVAL, b)
    end.

Definition setup_tlv_header (tlv_type res_id : Z) (b : sol_buffer) (data_len : Z) : outcome (Z * sol_buffer) :=
  match tlv_data tlv_type res_id data_len with
  | None => Ret (- ENOMEM, b)
  | Some bytes => '(r, b) ← sol_buffer_append_bytes b bytes; Ret (if r <? 0 then r else 0, b)
  end.

(** The sum of the lengths from the element [i] on *)
Fixpoint data_len_loop (resource : sol_lwm2m_resource) (i n : nat) (sum : Z) : outcome (Z * Z) :=
  match n with
  | O => Ret (0, sum)
  | S n =>
      '(r, len) ← get_resource_len resource i;
      if r <? 0 then Ret (r, sum) else data_len_loop resource (S i) n (wrapu 64 (sum + len))
  end.

Fixpoint instance_loop (resource : sol_lwm2m_resource) (b : sol_buffer) (i n : nat) : outcome (Z * sol_buffer) :=
  match n with
  | O => Ret (0, b)
  | S n =>
      '(r, len) ← get_resource_len resource i;
      if r <? 0 then Ret (r, b)
      else
        d ← data_of resource i;
        '(r, b) ← setup_tlv_header SOL_LWM2M_TLV_TYPE_RESOURCE_INSTANCE (data_id d) b len;
        if r <? 0 then Ret (r, b)
        else
          '(r, b) ← add_resource_bytes_to_buffer resource b i;
          if r <? 0 then Ret (r, b) else instance_loop resource b (S i) n
  end.

Definition setup_tlv (resource : sol_lwm2m_resource) (b : sol_buffer) : outcome (Z * sol_buffer) :=
  let n := length (res_data resource) in
  '(r, data_len) ← data_len_loop resource 0 n 0;
  if r <? 0 then Ret (r, b)
  else
    match res_type resource with
    | SOL_LWM2M_RESOURCE_TYPE_SINGLE =>
        '(r, b) ← setup_tlv_header SOL_LWM2M_TLV_TYPE_RESOURCE_WITH_VALUE (res_id resource) b data_len;
        if r <? 0 then Ret (r, b) else add_resource_bytes_to_buffer resource b 0
    | SOL_LWM2M_RESOURCE_TYPE_MULTIPLE =>
        let data_len := wrapu 64 (data_len + Z.of_nat n * 2) in
        '(r, b) ← setup_tlv_header SOL_LWM2M_TLV_TYPE_MULTIPLE_RESOURCES (res_id resource) b data_len;
        if r <? 0 then Ret (r, b) else instance_loop resource b 0 n
    | SOL_LWM2M_RESOURCE_TYPE_UNKNOWN => Ret (- EINVAL, b)
    end.

Fixpoint resources_to_tlv (resources : list sol_lwm2m_resource) (tlvs : sol_buffer) : outcome (Z * sol_buffer) :=
  match resources with
  | [] => Ret (0, tlvs)
  | resource :: resources =>
      '(r, tlvs) ← setup_tlv resource tlvs;
      if r <? 0 then Ret (r, tlvs) else resources_to_tlv resources tlvs
  end.

(** The lengths of the values of an instance, headers not counted *)
Fixpoint instance_len_loop (resources : list sol_lwm2m_resource) (sum : Z) : outcome (Z * Z) :=
  match resources with
  | [] => Ret (0, sum)
  | resource :: resources =>
      '(r, sum) ← data_len_loop resource 0 (length (res_data resource)) sum;
      if r <? 0 then Ret (r, sum) else instance_len_loop resources sum
  end.

Fixpoint instances_to_tlv (instances : list (Z * list sol_lwm2m_resource)) (tlvs : sol_buffer) : outcome (Z * sol_buffer) :=
  match instances with
  | [] => Ret (0, tlvs)
  | (id, resources) :: instances =>
      '(r, instance_data_len) ← instance_len_loop resources 0;
      if r <? 0 then Ret (r, tlvs)
      else
        '(r, tlvs) ← setup_tlv_header SOL_LWM2M_TLV_TYPE_OBJECT_INSTANCE id tlvs instance_data_len;
        if r <? 0 then Ret (r, tlvs)
        else
          '(r, tlvs) ← resources_to_tlv resources tlvs;
          if r <? 0 then Ret (r, tlvs) else instances_to_tlv instances tlvs
  end.

(** ** Reading *)

(** [content.data[i]], a signed character *)
Definition char_at (data : list Z) (i : Z) : outcome Z := x ← at_index data i; Ret (wraps 8 x).

(** The type, the id and the length of the entry at [i], and where its
    content is; [None] when it would be outside. *)
Definition parse_header (data : list Z) (i : Z) : outcome (option (Z * Z * Z * Z)) :=
  c ← char_at data i;
  let type := Z.land c TLV_TYPE_MASK in
  '(id, offset) ← (if negb (Z.land c TLV_ID_SIZE_MASK =? TLV_ID_SIZE_MASK) then
                     x ← char_at data (i + 1); Ret (wrapu 16 x, i + 2)
                   else
                     x ← char_at data (i + 1); y ← char_at data (i + 2);
                     Ret (wrapu 16 (Z.lor (Z.shiftl x 8) y), i + 3));
  if offset >=? blen data then Ret None
  else
    let size := Z.land c TLV_CONTENT_LENGTH_MASK in
    '(len, offset) ← (if size =? LENGTH_SIZE_24_BITS then
                        x ← char_at data offset; y ← char_at data (offset + 1); z ← char_at data (offset + 2);
                        Ret (wrapu 64 (Z.lor (Z.lor (Z.shiftl x 16) (Z.shiftl y 8)) z), offset + 3)
                      else if size =? LENGTH_SIZE_16_BITS then
                        x ← char_at data offset; y ← char_at data (offset + 1);
                        Ret (wrapu 64 (Z.lor (Z.shiftl x 8) y), offset + 2)
                      else if size =? LENGTH_SIZE_8_BITS then
                        x ← char_at data offset; Ret (wrapu 64 x, offset + 1)
                      else Ret (Z.land c TLV_CONTENT_LENGHT_CUSTOM_MASK, offset));
    if offset >=? blen data then Ret None else Ret (Some (type, id, len, offset)).

(** [sol_buffer_append_slice] of [len] characters at [offset]: where they are
    not all in the slice the buffer is made larger before they are read. *)
Definition append_content (b : sol_buffer) (data : list Z) (offset len : Z) : outcome (Z * sol_buffer) :=
  if offset + len <=? blen data then bs ← mem_load data offset len; sol_buffer_append_slice b bs
  else '(r, b) ← sol_buffer_expand b len; if r <? 0 then Ret (r, b) else UB.

(** The return value and the vector, which is cleared after an error.  Every
    round reads a header of at least two characters. *)
Fixpoint parse_tlv_loop (data : list Z) (i : Z) (out : list sol_lwm2m_tlv) (fuel : nat) : outcome (Z * list sol_lwm2m_tlv) :=
  match fuel with
  | O => UB
  | S fuel =>
      if negb (i <? blen data) then Ret (0, out)
      else if Vector.append_error sizeof_tlv (blen out) <? 0 then Ret (- ENOMEM, [])
      else
        h ← parse_header data i;
        match h with
        | None => Ret (- EOVERFLOW, [])
        | Some (type, id, len, offset) =>
            '(r, b) ← append_content sol_buffer_init data offset len;
            if r <? 0 then Ret (r, [])
            else
              let out := out ++ [{| tlv_type := type; tlv_id := id; tlv_content := b |}] in
              let nested := (type =? SOL_LWM2M_TLV_TYPE_MULTIPLE_RESOURCES) || (type =? SOL_LWM2M_TLV_TYPE_OBJECT_INSTANCE) in
              parse_tlv_loop data (if negb nested then offset + len else offset) out fuel
        end
  end.

Definition sol_lwm2m_parse_tlv (data : list Z) : outcome (Z * list sol_lwm2m_tlv) :=
  parse_tlv_loop data 0 [] (S (length data)).

Definition is_resource (tlv : sol_lwm2m_tlv) : Z :=
  if negb (tlv_type tlv =? SOL_LWM2M_TLV_TYPE_RESOURCE_WITH_VALUE)
     && negb (tlv_type tlv =? SOL_LWM2M_TLV_TYPE_RESOURCE_INSTANCE)
  then - EINVAL else 0.

(** An integer of [len] bytes in the order of the network *)
Definition local_value (tlv : sol_lwm2m_tlv) (len : Z) : outcome Z :=
  bs ← buf_load (tlv_content tlv) 0 len; bs ← swap_bytes bs len; Ret (le_value bs).

Definition sol_lwm2m_tlv_get_int (tlv : sol_lwm2m_tlv) : outcome (Z * option Z) :=
  if is_resource tlv <? 0 then Ret (- EINVAL, None)
  else
    let n := used (tlv_content tlv) in
    if (n =? 1) || (n =? 2) || (n =? 4) || (n =? 8)
    then x ← local_value tlv n; Ret (0, Some (wraps (8 * n) x))
    else Ret (- EINVAL, None).

Definition sol_lwm2m_tlv_get_bool (tlv : sol_lwm2m_tlv) : outcome (Z * option bool) :=
  if is_resource tlv <? 0 then Ret (- EINVAL, None)
  else if negb (used (tlv_content tlv) =? 1) then Ret (- EINVAL, None)
  else
    v ← at_index (storage (tlv_content tlv)) 0;
    let v := wraps 8 v in
    if negb (v =? 0) && negb (v =? 1) then Ret (- EINVAL, None) else Ret (0, Some (negb (v =? 0))).

Definition sol_lwm2m_tlv_get_float (tlv : sol_lwm2m_tlv) : outcome (Z * option Z) :=
  if is_resource tlv <? 0 then Ret (- EINVAL, None)
  else if used (tlv_content tlv) =? 4 then x ← local_value tlv 4; Ret (0, Some (float_to_double x))
  else if used (tlv_content tlv) =? 8 then x ← local_value tlv 8; Ret (0, Some x)
  else Ret (- EINVAL, None).

(** The ids of the object and of the instance *)
Definition sol_lwm2m_tlv_get_obj_link (tlv : sol_lwm2m_tlv) : outcome (Z * option (Z * Z)) :=
  if is_resource tlv <? 0 then Ret (- EINVAL, None)
  else if negb (used (tlv_content tlv) =? OBJ_LINK_LEN) then Ret (- EINVAL, None)
  else
    i ← local_value tlv OBJ_LINK_LEN;
    let i := wraps 32 i in
    Ret (0, Some (Z.land (Z.shiftr i 16) 65535, Z.land i 65535)).

Definition sol_lwm2m_tlv_get_bytes (tlv : sol_lwm2m_tlv) (b : sol_buffer) : outcome (Z * sol_buffer) :=
  if is_resource tlv <? 0 then Ret (- EINVAL, b)
  else bs ← buf_load (tlv_content tlv) 0 (used (tlv_content tlv)); sol_buffer_append_bytes b bs.

(** ** Paths *)

Definition PATH_IS_INVALID_OR_EMPTY := 1.
Definition PATH_HAS_OBJECT := 2.
Definition PATH_HAS_INSTANCE := 4.
Definition PATH_HAS_RESOURCE := 8.

(** [path] is a C string without its NUL. *)
Fixpoint path_props_loop (path : list Z) (i slashes props : Z) : Z :=
  match path with
  | [] => if i =? slashes then PATH_IS_INVALID_OR_EMPTY else props
  | c :: path =>
      if c =? 47 then
        if slashes + 1 >? 3 then PATH_IS_INVALID_OR_EMPTY
        else path_props_loop path (i + 1) (slashes + 1) (Z.shiftl props 1)
      else if negb ((48 <=? c) && (c <=? 57)) then PATH_IS_INVALID_OR_EMPTY
      else path_props_loop path (i + 1) slashes props
  end.

Definition sol_lwm2m_common_get_path_props (path : list Z) : Z :=
  path_props_loop path 0 0 PATH_IS_INVALID_OR_EMPTY.

(** ** Requests *)

Definition SOL_COAP_OPTION_CONTENT_FORMAT := 12.
Definition SOL_LWM2M_CONTENT_TYPE_TEXT := 1541.
Definition SOL_LWM2M_CONTENT_TYPE_TLV := 1542.

Definition set_packet_payload (pkt : sol_coap_packet) (bytes : list Z) : outcome (Z * sol_coap_packet) :=
  '(r, pkt, _) ← sol_coap_packet_get_payload pkt;
  if r <? 0 then Ret (r, pkt)
  else '(r, b) ← sol_buffer_append_bytes (buf pkt) bytes; Ret (r, set_buf pkt b).

(** [data] are the bytes of an integer of the machine. *)
Definition add_coap_int_option (pkt : sol_coap_packet) (opt : Z) (data : list Z) : outcome (Z * sol_coap_packet) :=
  let len := blen data in
  bytes ← mem_store (replicate 8 0) 0 data;
  bytes ← swap_bytes bytes len;
  bytes ← mem_load bytes 0 len;
  sol_coap_add_option pkt opt (Some bytes).

(** [*value] holds two bytes. *)
Definition get_coap_int_option (pkt : sol_coap_packet) (opt : Z) (value : list Z) : outcome (Z * list Z) :=
  v ← sol_coap_find_first_option pkt opt;
  match v with
  | None => Ret (- ENOENT, value)
  | Some s =>
      bs ← buf_load (buf pkt) (off s) (StrSlice.len s);
      value ← mem_store value 0 bs;
      value ← swap_bytes value (StrSlice.len s);
      Ret (0, value)
  end.

(** What a request carries: text for an execution, resources, or instances
    of an object with their ids *)
Record request_content := {
  execute_args : option (list Z); resources : option (list sol_lwm2m_resource);
  instances : option (list (Z * list sol_lwm2m_resource))
}.

(** The content type and the bytes of the payload, or an error *)
Definition content_of (c : request_content) : outcome (Z + Z * list Z) :=
  let tlvs := sol_buffer_init_flags None 0 SOL_BUFFER_FLAGS_NO_NUL_BYTE in
  let from_tlvs (written : outcome (Z * sol_buffer)) : outcome (Z + Z * list Z) :=
    '(r, tlvs) ← written;
    if r <? 0 then Ret (inl r)
    else if used tlvs >=? UINT16_MAX then Ret (inl (- ENOMEM))
    else bs ← sol_buffer_get_slice tlvs; Ret (inr (SOL_LWM2M_CONTENT_TYPE_TLV, bs)) in
  match execute_args c, resources c, instances c with
  | Some args, _, _ =>
      if blen args >=? UINT16_MAX then Ret (inl (- ENOMEM)) else Ret (inr (SOL_LWM2M_CONTENT_TYPE_TEXT, args))
  | None, Some rs, _ => from_tlvs (resources_to_tlv rs tlvs)
  | None, None, Some l => from_tlvs (instances_to_tlv l tlvs)
  | None, None, None => Ret (inr (0, []))
  end.

(** The packet after its header and token are set: options and payload *)
Definition fill_request (pkt : sol_coap_packet) (objects_path : option (list Z)) (path : list Z) (obs : option Z)
    (c : request_content) : outcome (Z * sol_coap_packet) :=
  '(r, pkt) ← (match obs with
               | Some x => add_coap_int_option pkt SOL_COAP_OPTION_OBSERVE [x]
               | None => Ret (0, pkt)
               end);
  if r <? 0 then Ret (r, pkt)
  else
    '(r, b) ← (match objects_path with
               | Some p => sol_buffer_append_slice sol_buffer_init p
               | None => Ret (0, sol_buffer_init)
               end);
    if r <? 0 then Ret (r, pkt)
    else
      '(r, b) ← sol_buffer_append_slice b path;
      if r <? 0 then Ret (r, pkt)
      else
        '(r, pkt) ← (if negb (bool_decide (path = [47]))
                     then uri ← sol_buffer_get_slice b; sol_coap_packet_add_uri_path_option pkt uri
                     else Ret (0, pkt));
        if r <? 0 then Ret (r, pkt)
        else
          content ← content_of c;
          match content with
          | inl r => Ret (r, pkt)
          | inr (content_type, bytes) =>
              if blen bytes >? 0 then
                '(r, pkt) ← add_coap_int_option pkt SOL_COAP_OPTION_CONTENT_FORMAT (le_bytes 2 content_type);
                if r <? 0 then Ret (r, pkt)
                else
                  '(r, pkt) ← set_packet_payload pkt bytes;
                  Ret (if r <? 0 then r else 0, pkt)
              else Ret (0, pkt)
          end.

(** [random_new] tells whether there is a source of random numbers, [random]
    what it returns and the number.  The counter of requests goes in and
    out, behind it the return value and the packet, which is dropped after
    an error. *)
Definition setup_coap_packet (random_new : bool) (random : Z * Z) (request_id method type : Z)
    (objects_path : option (list Z)) (path : list Z) (obs : option Z) (c : request_content)
    : outcome (Z * Z * option sol_coap_packet) :=
  if negb random_new then Ret (request_id, - ENOMEM, None)
  else
    '(request_id, p) ← sol_coap_packet_new_request request_id method type;
    match p with
    | inl _ => Ret (request_id, - ENOMEM, None)
    | inr pkt =>
        let '(r, t) := random in
        if r <? 0 then Ret (request_id, r, None)
        else
          '(r, pkt) ← sol_coap_header_set_token pkt (le_bytes 8 (wrapu 64 t));
          if r <? 0 then Ret (request_id, r, None)
          else
            '(r, pkt) ← fill_request pkt objects_path path obs c;
            Ret (request_id, r, if r <? 0 then None else Some pkt)
    end.
End Operations.
End Lwm2m.
