(* ===== verification/Lwm2mProofs.v ===== *)
(** * LWM2M: proofs

    The bytes of values and entries, [wire_value] and [entry]; the grammar of
    entries, [entries_in], and which of them the reader reads, [readable] and
    [last_ok]; writing and reading
    meet in the entries of resources.  Requests are runs of the operations
    that build CoAP packets. *)

From S2P Require Import Prelude Arith Vector Str Codec Buffer Coap CoapProofs CoapBuild CoapRequest Lwm2m.
Import Utf8 StrSlice Buffer Coap CoapProofs CoapBuild CoapRequest Lwm2m.

#[local] Open Scope Z_scope.

Module Lwm2mProofs.

(** ** Byte order *)

Lemma at_index_middle (a : list Z) x b : at_index (a ++ x :: b) (blen a) = Ret x.
Proof. apply at_index_some; [apply blen_nonneg|]. rewrite blen_to_nat. by apply list_lookup_middle. Qed.

Lemma swap_loop_spec a m b n : n = (length m / 2)%nat -> blen a + blen m < 2 ^ 64 ->
  swap_loop (a ++ m ++ b) (blen a) (wrapu 64 (blen a + blen m - 1)) n = Ret (a ++ reverse m ++ b).
Proof.
  revert a m b. induction n as [|n IH]; intros a m b Hn Hlen.
  { destruct m as [|x [|y m]]; [done|done|]. exfalso. cbn [length] in Hn.
    assert (1 <= S (S (length m)) / 2)%nat by (apply Nat.div_le_lower_bound; lia). lia. }
  destruct m as [|x m]; [done|]. destruct (exists_last (l := x :: m)) as [m1 [y Hm]]; [done|].
  destruct m1 as [|x' m']; [by destruct m|].
  injection Hm as <- ->. cbn [swap_loop app].
  pose proof (blen_nonneg a). pose proof (blen_nonneg m'). rewrite blen_cons, blen_app in *. change (blen [y]) with 1 in *.
  rewrite wrapu_small, <- app_assoc by lia. cbn [app]. rewrite at_index_middle, bind_ret.
  replace (blen a + (1 + (blen m' + 1)) - 1) with (blen (a ++ x :: m')) by (rewrite blen_app, blen_cons; lia).
  rewrite (app_comm_cons m'), app_assoc, at_index_middle, bind_ret, !blen_to_nat.
  rewrite <- app_assoc, insert_app_r_alt, Nat.sub_diag by lia. cbn [insert list_insert app].
  rewrite app_comm_cons, app_assoc, insert_app_r_alt by (rewrite !length_app; cbn; lia).
  rewrite !length_app, Nat.sub_diag. cbn [insert list_insert length].
  replace (blen a + 1) with (blen (a ++ [y])) by (by rewrite blen_app).
  replace (blen (a ++ x :: m') - 1) with (blen (a ++ [y]) + blen m' - 1)
    by (rewrite !blen_app, !blen_cons, (@blen_nil Z); lia).
  replace ((a ++ y :: m') ++ x :: b) with ((a ++ [y]) ++ m' ++ (x :: b)) by (by rewrite <- !app_assoc).
  rewrite IH.
  - rewrite reverse_cons, reverse_snoc, <- !app_assoc. done.
  - cbn [length] in Hn. rewrite length_app in Hn. cbn [length] in Hn. replace (S (length m' + 1)) with (length m' + 1 * 2)%nat in Hn by lia.
    rewrite Nat.div_add in Hn by lia. lia.
  - rewrite blen_app. change (blen [y]) with 1. lia.
Qed.

Lemma swap_bytes_spec bs len : 0 <= len <= blen bs -> blen bs < 2 ^ 64 ->
  swap_bytes bs len = Ret (reverse (take (Z.to_nat len) bs) ++ drop (Z.to_nat len) bs).
Proof.
  intros Hl Hb. unfold swap_bytes.
  pose proof (swap_loop_spec [] (take (Z.to_nat len) bs) (drop (Z.to_nat len) bs) (Z.to_nat (len / 2))) as Hloop.
  cbn [app] in Hloop. change (blen []) with 0 in Hloop. rewrite take_drop, blen_take, Z.min_l, Z.add_0_l, Z2Nat.id in Hloop by lia.
  apply Hloop; [|lia]. rewrite length_take, Nat.min_l by (unfold blen in Hl; lia). by rewrite Z2Nat.inj_div by lia.
Qed.

Lemma take_le_bytes n k x : (n <= k)%nat -> take n (le_bytes k x) = le_bytes n x.
Proof.
  revert k x. induction n as [|n IH]; intros [|k] x Hn; try done; [lia|]. cbn [le_bytes take]. by rewrite IH by lia.
Qed.

Lemma le_bytes_mod n x : le_bytes n (x mod 256 ^ Z.of_nat n) = le_bytes n x.
Proof.
  revert x. induction n as [|n IH]; intros x; [done|]. cbn [le_bytes].
  assert (0 < 256 ^ Z.of_nat n) by (by apply Z.pow_pos_nonneg; lia).
  rewrite Nat2Z.inj_succ, Z.pow_succ_r, Z.rem_mul_r by lia. f_equal.
  - rewrite (Z.mul_comm 256), Z.mod_add, Z.mod_mod by lia. done.
  - rewrite <- (IH (x / 256)). f_equal. rewrite (Z.mul_comm 256), Z.div_add, Z.div_small by dlia. lia.
Qed.

Lemma le_bytes_is_byte n x : Forall is_byte (le_bytes n x).
Proof. revert x. induction n as [|n IH]; intros x; cbn [le_bytes]; constructor; [unfold is_byte; dlia|done]. Qed.

(** An integer in the order of the network *)
Definition be (n : nat) (x : Z) : list Z := reverse (le_bytes n x).

Lemma blen_be n x : blen (be n x) = Z.of_nat n.
Proof. unfold be, blen. by rewrite length_reverse, length_le_bytes. Qed.

Lemma be_is_byte n x : Forall is_byte (be n x).
Proof. apply Forall_reverse, le_bytes_is_byte. Qed.

(** ** Values *)

(** The sizes of an integer on the wire, and whether one holds [i] *)
Definition int_sizes : list nat := [1; 2; 4; 8]%nat.
Definition fits (n : nat) (i : Z) : bool :=
  (- 2 ^ (8 * Z.of_nat n - 1) <=? i) && (i <? 2 ^ (8 * Z.of_nat n - 1)).

(** The smallest size that holds [i], an integer of 64 bits *)
Definition int_bytes (i : Z) : nat := default 8%nat (find (fun n => fits n i) int_sizes).

(** The bytes of a value of a type; [None] when the union holds another one. *)
Definition wire_value (t : sol_lwm2m_resource_data_type) (c : data_content) : option (list Z) :=
  match t, c with
  | SOL_LWM2M_RESOURCE_DATA_TYPE_STRING, Blob bs | SOL_LWM2M_RESOURCE_DATA_TYPE_OPAQUE, Blob bs => Some bs
  | SOL_LWM2M_RESOURCE_DATA_TYPE_INT, Integer i | SOL_LWM2M_RESOURCE_DATA_TYPE_TIME, Integer i => Some (be (int_bytes i) i)
  | SOL_LWM2M_RESOURCE_DATA_TYPE_BOOL, Integer i => Some [if negb (i =? 0) then 1 else 0]
  | SOL_LWM2M_RESOURCE_DATA_TYPE_FLOAT, Fp x => Some (be 8 x)
  | SOL_LWM2M_RESOURCE_DATA_TYPE_OBJ_LINK, Integer i => Some (be 4 i)
  | _, _ => None
  end.

Lemma get_int_size_cases i :
  get_int_size i = 1 /\ -128 <= i <= 127 \/ get_int_size i = 2 /\ -32768 <= i <= 32767
  \/ get_int_size i = 4 /\ - 2 ^ 31 <= i < 2 ^ 31 \/ get_int_size i = 8.
Proof. unfold get_int_size, INT8_MIN, INT8_MAX, INT16_MIN. unfold_limits. repeat case_match; lia. Qed.

Lemma int_bytes_le i : (1 <= int_bytes i <= 8)%nat /\ Z.of_nat (int_bytes i) = get_int_size i.
Proof.
  unfold int_bytes, int_sizes, fits, get_int_size, INT8_MIN, INT8_MAX, INT16_MIN. unfold_limits. cbn [find].
  change (2 ^ (8 * Z.of_nat 1 - 1)) with 128. change (2 ^ (8 * Z.of_nat 2 - 1)) with 32768.
  change (2 ^ (8 * Z.of_nat 4 - 1)) with 2147483648.
  repeat case_match; cbn [default from_option id]; lia.
Qed.

Lemma int_bytes_smallest i :
  int_bytes i ∈ int_sizes /\ (forall m, m ∈ int_sizes -> fits m i = true -> (int_bytes i <= m)%nat)
  /\ (- 2 ^ 63 <= i < 2 ^ 63 -> fits (int_bytes i) i = true).
Proof.
  unfold int_bytes, int_sizes. split_and!.
  - cbn [find]. repeat case_match; cbn [default from_option id]; rewrite !elem_of_cons; auto.
  - intros m Hm Hf. cbn [find]. rewrite !elem_of_cons, elem_of_nil in Hm.
    destruct Hm as [->|[->|[->|[->|[]]]]]; rewrite ?Hf; repeat case_match; cbn [default from_option id]; lia.
  - intros Hi. cbn [find]. repeat case_match; cbn [default from_option id]; try done.
    unfold fits. change (8 * Z.of_nat 8 - 1) with 63. lia.
Qed.

Section Values.
Context `{BuildConfig} `{Allocator} `{FloatBits}.

Lemma swapped_int n i : (n <= 8)%nat ->
  (bytes ← swap_bytes (le_bytes 8 (wrapu 64 i)) (Z.of_nat n); mem_load bytes 0 (Z.of_nat n)) = Ret (be n i).
Proof.
  intros Hn. assert (blen (le_bytes 8 (wrapu 64 i)) = 8) as Hb by (unfold blen; by rewrite length_le_bytes).
  rewrite swap_bytes_spec by lia. rewrite bind_ret, Nat2Z.id, take_le_bytes by done.
  assert (le_bytes n (wrapu 64 i) = le_bytes n i) as ->.
  { rewrite <- (take_le_bytes n 8), <- (take_le_bytes n 8 i) by done. f_equal. apply (le_bytes_mod 8 i). }
  apply (mem_load_app []); [done|]. by rewrite blen_be.
Qed.

Lemma add_int_spec b i n : (n <= 8)%nat -> add_int_resource b i (Z.of_nat n) = sol_buffer_append_bytes b (be n i).
Proof.
  intros Hn. unfold add_int_resource. pose proof (swapped_int n i Hn) as Hs. revert Hs.
  destruct (swap_bytes _ _) as [bs|]; [|done]. rewrite !bind_ret. intros ->. by rewrite bind_ret.
Qed.

Lemma resource_bytes_spec r b i d v : res_data r !! i = Some d -> wire_value (data_type r) (content d) = Some v ->
  get_resource_len r i = Ret (0, blen v) /\ add_resource_bytes_to_buffer r b i = sol_buffer_append_bytes b v.
Proof.
  intros Hd Hv. unfold add_resource_bytes_to_buffer, get_resource_len, data_of, blob_of, integer_of, fp_of.
  rewrite Hd. unfold wire_value in Hv.
  destruct (data_type r), (content d) as [bs|x|x] eqn:Hc; simplify_eq; rewrite ?bind_ret, ?Hc, ?bind_ret; cbn [Z.ltb Z.compare];
    rewrite ?bind_ret, ?Hc, ?bind_ret.
  - done.
  - destruct (int_bytes_le x) as [? Hn]. rewrite blen_be, <- Hn. split; [done|]. apply add_int_spec. lia.
  - split; [done|]. unfold add_float_resource. change (8 =? 4) with false. cbv iota. assert (blen (le_bytes 8 x) = 8) as Hb by (unfold blen; by rewrite length_le_bytes).
    rewrite swap_bytes_spec by lia.
    rewrite bind_ret. change (Z.to_nat 8) with 8%nat. rewrite take_le_bytes by done.
    assert (mem_load (reverse (le_bytes 8 x) ++ drop 8 (le_bytes 8 x)) 0 8 = Ret (be 8 x)) as ->; [|done].
    apply (mem_load_app []); [done|]. by rewrite blen_be.
  - done.
  - done.
  - destruct (int_bytes_le x) as [? Hn]. rewrite blen_be, <- Hn. split; [done|]. apply add_int_spec. lia.
  - split; [done|]. apply (add_int_spec b x 4). lia.
Qed.

(** *** Values are read back *)

Lemma le_value_be n x : le_value (reverse (be n x)) = x mod 256 ^ Z.of_nat n.
Proof. unfold be. by rewrite reverse_involutive, le_value_bytes. Qed.

Lemma local_value_spec tlv n x : rep (tlv_content tlv) (be n x) -> (n <= 8)%nat ->
  used (tlv_content tlv) = Z.of_nat n /\ local_value tlv (Z.of_nat n) = Ret (x mod 256 ^ Z.of_nat n).
Proof.
  intros Hrep Hn. split; [by rewrite (rep_used _ _ Hrep), blen_be|]. unfold local_value.
  assert (buf_load (tlv_content tlv) 0 (Z.of_nat n) = Ret (be n x)) as ->.
  { rewrite <- (blen_be n x). apply (load_inside _ [] _ []). by rewrite app_nil_r. }
  rewrite bind_ret, swap_bytes_spec, bind_ret by (rewrite blen_be; lia).
  rewrite Nat2Z.id, take_ge, drop_ge, app_nil_r by (pose proof (blen_be n x); unfold blen in *; lia). by rewrite le_value_be.
Qed.

Lemma wraps_mod w x : 0 < w -> - 2 ^ (w - 1) <= x < 2 ^ (w - 1) -> wraps w (x mod 2 ^ w) = x.
Proof.
  intros Hw Hx. unfold wraps. assert (2 ^ w = 2 * 2 ^ (w - 1)) as Hp by (rewrite <- Z.pow_succ_r by lia; f_equal; lia).
  rewrite Z.add_mod_idemp_l, Z.mod_small by lia. lia.
Qed.

(** Reading a value of a type gives the value. *)
Definition reads_back (tlv : sol_lwm2m_tlv) (t : sol_lwm2m_resource_data_type) (c : data_content) : Prop :=
  match t, c with
  | SOL_LWM2M_RESOURCE_DATA_TYPE_STRING, Blob bs | SOL_LWM2M_RESOURCE_DATA_TYPE_OPAQUE, Blob bs =>
      forall b, sol_lwm2m_tlv_get_bytes tlv b = sol_buffer_append_bytes b bs
  | SOL_LWM2M_RESOURCE_DATA_TYPE_INT, Integer i | SOL_LWM2M_RESOURCE_DATA_TYPE_TIME, Integer i =>
      - 2 ^ 63 <= i < 2 ^ 63 -> sol_lwm2m_tlv_get_int tlv = Ret (0, Some i)
  | SOL_LWM2M_RESOURCE_DATA_TYPE_BOOL, Integer i => sol_lwm2m_tlv_get_bool tlv = Ret (0, Some (negb (i =? 0)))
  | SOL_LWM2M_RESOURCE_DATA_TYPE_FLOAT, Fp x => 0 <= x < 2 ^ 64 -> sol_lwm2m_tlv_get_float tlv = Ret (0, Some x)
  | SOL_LWM2M_RESOURCE_DATA_TYPE_OBJ_LINK, Integer i =>
      forall object instance, 0 <= object < 65536 -> 0 <= instance < 65536 -> i = 65536 * object + instance ->
      sol_lwm2m_tlv_get_obj_link tlv = Ret (0, Some (object, instance))
  | _, _ => False
  end.

Lemma value_reads tlv t c v : is_resource tlv = 0 -> wire_value t c = Some v -> rep (tlv_content tlv) v -> reads_back tlv t c.
Proof.
  intros Hres Hv Hrep. unfold reads_back.
  assert (forall i, v = be (int_bytes i) i -> - 2 ^ 63 <= i < 2 ^ 63 -> sol_lwm2m_tlv_get_int tlv = Ret (0, Some i)) as Hint.
  { intros i -> Hi. destruct (int_bytes_le i) as [Hn Hs].
    destruct (local_value_spec tlv _ i Hrep ltac:(lia)) as [Hu Hl]. unfold sol_lwm2m_tlv_get_int. rewrite Hres, Hu.
    cbn [Z.ltb Z.compare]. rewrite Hl. rewrite Hs in *. change 256 with (2 ^ 8). rewrite <- Z.pow_mul_r by lia.
    destruct (get_int_size_cases i) as [[-> ?]|[[-> ?]|[[-> ?]| ->]]]; cbn [Z.eqb orb Pos.eqb]; rewrite bind_ret; do 3 f_equal;
      apply wraps_mod; lia. }
  assert (forall bs, v = bs -> forall b, sol_lwm2m_tlv_get_bytes tlv b = sol_buffer_append_bytes b bs) as Hbytes.
  { intros bs <- b. unfold sol_lwm2m_tlv_get_bytes. rewrite Hres. cbn [Z.ltb Z.compare].
    pose proof (get_slice_spec _ _ Hrep) as Hg. unfold sol_buffer_get_slice in Hg. by rewrite Hg. }
  unfold wire_value in Hv. destruct t, c as [bs|i|x]; simplify_eq; auto.
  - intros Hx. destruct (local_value_spec tlv 8 x Hrep ltac:(lia)) as [Hu Hl]. unfold sol_lwm2m_tlv_get_float.
    rewrite Hres, Hu. change (Z.of_nat 8) with 8 in *. cbn [Z.ltb Z.compare Z.eqb Pos.eqb]. rewrite Hl, bind_ret. rewrite Z.mod_small; [done|]. exact Hx.
  - unfold sol_lwm2m_tlv_get_bool. rewrite Hres, (rep_used _ _ Hrep). cbn [Z.ltb Z.compare].
    change (blen [_]) with 1. cbn [Z.eqb negb Pos.eqb]. destruct (buf_rep_storage _ _ Hrep) as (rest & -> & _).
    change (at_index ([?x] ++ rest) 0) with (Ret x). rewrite bind_ret. by destruct (i =? 0).
  - intros object instance Ho Hi ->. destruct (local_value_spec tlv 4 _ Hrep ltac:(lia)) as [Hu Hl].
    unfold sol_lwm2m_tlv_get_obj_link, OBJ_LINK_LEN. rewrite Hres, Hu. change (Z.of_nat 4) with 4 in *. cbn [Z.ltb Z.compare Z.eqb negb Pos.eqb].
    rewrite Hl, bind_ret. do 3 f_equal. change 65535 with (Z.ones 16). rewrite !Z.land_ones, Z.shiftr_div_pow2 by lia.
    unfold wraps. f_equal; dlia.
Qed.
End Values.

(** ** The grammar of entries *)

(** The id with the bit that tells its size, and the length with its bits *)
Inductive id_part : Z -> Z -> list Z -> Prop :=
| short_id id : is_byte id -> id_part id 0 [id]
| long_id hi lo : is_byte hi -> is_byte lo -> id_part (256 * hi + lo) 32 [hi; lo].

Inductive len_part : Z -> Z -> list Z -> Prop :=
| len_in_type n : 0 <= n <= 7 -> len_part n n []
| len_8 n : is_byte n -> len_part n 8 [n]
| len_16 a b : is_byte a -> is_byte b -> len_part (256 * a + b) 16 [a; b]
| len_24 a b c : is_byte a -> is_byte b -> is_byte c -> len_part (65536 * a + 256 * b + c) 24 [a; b; c].

Definition tlv_types : list Z := [0; 64; 128; 192].

Inductive head (t id len : Z) : list Z -> Prop :=
| a_head ib lb idb lenb : t ∈ tlv_types -> id_part id ib idb -> len_part len lb lenb ->
    head t id len ((t + ib + lb) :: idb ++ lenb).

Definition is_nested (t : Z) : bool :=
  (t =? SOL_LWM2M_TLV_TYPE_MULTIPLE_RESOURCES) || (t =? SOL_LWM2M_TLV_TYPE_OBJECT_INSTANCE).

(** What is in a nested entry is read as its content and again as entries. *)
Inductive entries_in : list Z -> list (Z * Z * list Z) -> Prop :=
| no_entries : entries_in [] []
| leaf_entry t id h v rest es : head t id (blen v) h -> is_nested t = false ->
    entries_in rest es -> entries_in (h ++ v ++ rest) ((t, id, v) :: es)
| nested_entry t id h v rest es : head t id (blen v) h -> is_nested t = true ->
    entries_in (v ++ rest) es -> entries_in (h ++ v ++ rest) ((t, id, v) :: es).

Lemma head_len t id len h : head t id len h -> 0 <= len /\ 2 <= blen h.
Proof.
  intros [ib lb idb lenb _ Hid Hlen]. rewrite blen_cons, blen_app. pose proof (blen_nonneg lenb).
  destruct Hid; destruct Hlen; unfold is_byte in *; rewrite ?blen_cons; change (blen []) with 0; lia.
Qed.

(** The reader takes characters for signed: neither the low byte of an id nor
    a byte of a length may be above 127 for it to read them. *)
Definition readable_id (id : Z) : Prop := 0 <= id < 65536 /\ id mod 256 < 128.
Definition readable_len (n : Z) : Prop := n mod 256 < 128 /\ n / 256 mod 256 < 128 /\ n / 65536 < 128.
Definition readable (e : Z * Z * list Z) : Prop := readable_id e.1.2 /\ readable_len (blen e.2).

(** The reader wants a byte behind every header: the last entry must not be
    empty. *)
Definition last_ok (es : list (Z * Z * list Z)) : Prop := forall e, last es = Some e -> e.2 <> [].

Lemma last_ok_tail e es : last_ok (e :: es) -> last_ok es.
Proof. intros Hl e' He'. apply Hl. by rewrite last_cons, He'. Qed.

Lemma last_ok_step e rest es : last_ok (e :: es) -> entries_in rest es -> e.2 ++ rest <> [].
Proof.
  intros Hl Hes [Hv ->]%app_eq_nil. remember [] as bs eqn:Hbs. destruct Hes as [|t id h v rest es Hh|t id h v rest es Hh].
  - by eapply Hl.
  - apply head_len in Hh as [_ Hh]. by destruct h.
  - apply head_len in Hh as [_ Hh]. by destruct h.
Qed.

Lemma last_ok_inside t id v rest es : last_ok ((t, id, v) :: es) -> entries_in (v ++ rest) es -> v ++ rest <> [].
Proof.
  intros Hl Hes Hnil. rewrite Hnil in Hes. apply (last_ok_step _ _ _ Hl Hes). cbn [snd].
  apply app_eq_nil in Hnil as [-> _]. done.
Qed.

Lemma char_at_spec pre h k x rest : h !! k = Some x -> char_at (pre ++ h ++ rest) (blen pre + Z.of_nat k) = Ret (wraps 8 x).
Proof.
  intros Hx. unfold char_at. rewrite (at_index_some _ _ x); [done|unfold blen; lia|].
  replace (Z.to_nat (blen pre + Z.of_nat k)) with (length pre + k)%nat by (unfold blen; lia).
  rewrite lookup_app_r by lia. replace (length pre + k - length pre)%nat with k by lia. by apply lookup_app_l_Some.
Qed.

Lemma geb_false x y : (x >=? y) = false <-> x < y.
Proof. rewrite Z.geb_leb. apply Z.leb_gt. Qed.

Lemma small_char x : 0 <= x < 128 -> wraps 8 x = x.
Proof. intros. unfold wraps. cbn. dlia. Qed.

Lemma entry_type_bits t ib lb : t ∈ tlv_types -> ib ∈ [0; 32] -> lb ∈ [0; 1; 2; 3; 4; 5; 6; 7; 8; 16; 24] ->
  let c := wraps 8 (t + ib + lb) in
  Z.land c 192 = t /\ (Z.land c 32 =? 32) = (ib =? 32) /\ Z.land c 24 = (if lb <? 8 then 0 else lb)
  /\ (lb < 8 -> Z.land c 7 = lb).
Proof.
  intros Ht Hi Hl. revert Ht Hi Hl. unfold tlv_types. rewrite !elem_of_cons, !elem_of_nil.
  intros Ht Hi Hl. repeat match goal with H : _ \/ _ |- _ => destruct H as [->|H] end; try done; vm_compute; split_and!; done || (intros; discriminate).
Qed.

(** Reads the next character of the header [h], which lies behind [pre]. *)
Ltac read_char pre h body k :=
  match goal with
  | |- context [char_at (pre ++ h ++ body) ?p] =>
      replace p with (blen pre + Z.of_nat k) by lia;
      rewrite (char_at_spec pre h k _ body eq_refl), bind_ret
  end.

Lemma parse_header_spec pre t id len h body : head t id len h -> readable_id id -> readable_len len -> body <> [] ->
  parse_header (pre ++ h ++ body) (blen pre) = Ret (Some (t, id, len, blen pre + blen h)).
Proof.
  intros [ib lb idb lenb Ht Hid Hlen] Hrid Hrlen Hbody. unfold readable_id, readable_len in *.
  assert (0 < blen body) as Hpos.
  { destruct body as [|x l]; [done|]. rewrite blen_cons. pose proof (blen_nonneg l). lia. }
  set (h' := (t + ib + lb) :: idb ++ lenb).
  pose proof (char_at_spec pre h' 0 _ body eq_refl) as H0. cbn [Z.of_nat] in H0. rewrite Z.add_0_r in H0.
  destruct (entry_type_bits t ib lb Ht) as (Hc1 & Hc2 & Hc3 & Hc4).
  { rewrite !elem_of_cons. destruct Hid; auto. }
  { rewrite !elem_of_cons. destruct Hlen; lia. }
  unfold parse_header. rewrite H0, bind_ret. unfold TLV_TYPE_MASK, TLV_ID_SIZE_MASK, TLV_CONTENT_LENGTH_MASK, TLV_CONTENT_LENGHT_CUSTOM_MASK,
    LENGTH_SIZE_8_BITS, LENGTH_SIZE_16_BITS, LENGTH_SIZE_24_BITS.
  rewrite Hc1, Hc2, Hc3. assert (blen (pre ++ h' ++ body) = blen pre + (1 + blen idb + blen lenb) + blen body) as Hb.
  { unfold h'. rewrite !blen_app, blen_cons, blen_app. lia. }
  rewrite Hb. assert (blen h' = 1 + blen idb + blen lenb) as -> by (unfold h'; rewrite blen_cons, blen_app; lia).
  assert (exists o, (if negb (ib =? 32)
      then x ← char_at (pre ++ h' ++ body) (blen pre + 1); Ret (wrapu 16 x, blen pre + 2)
      else x ← char_at (pre ++ h' ++ body) (blen pre + 1); y ← char_at (pre ++ h' ++ body) (blen pre + 2);
           Ret (wrapu 16 (Z.lor (Z.shiftl x 8) y), blen pre + 3)) = Ret (id, o)
      /\ o = blen pre + 1 + blen idb /\ 1 <= blen idb) as (o & -> & -> & Hidb).
  { destruct Hid as [id Hid|hi lo Hhi Hlo]; unfold is_byte in *; cbn [Z.eqb negb Pos.eqb]; read_char pre h' body 1%nat; [|read_char pre h' body 2%nat].
    - assert (id < 128) by dlia. rewrite small_char, wrapu_small by lia. eexists. split; [done|]. change (blen [id]) with 1. split; lia.
    - assert (lo < 128) by dlia. rewrite (small_char lo), low_bits by lia. exists (blen pre + 3). split; [|change (blen [hi; lo]) with 2; split; lia].
      do 3 f_equal. unfold wrapu, wraps. dlia. }
  rewrite bind_ret, (proj2 (geb_false _ _)) by (pose proof (blen_nonneg lenb); lia).
  assert (forall j x, lenb !! j = Some x -> char_at (pre ++ h' ++ body) (blen pre + 1 + blen idb + Z.of_nat j) = Ret (wraps 8 x))
    as Hread.
  { intros j x Hx. replace (blen pre + 1 + blen idb + Z.of_nat j) with (blen pre + Z.of_nat (S (length idb + j))) by (unfold blen; lia).
    apply char_at_spec. change ((idb ++ lenb) !! (length idb + j)%nat = Some x). rewrite lookup_app_r by lia.
    by replace (length idb + j - length idb)%nat with j by lia. }
  set (p := blen pre + 1 + blen idb) in *.
  assert (forall j x, lenb !! j = Some x -> 0 <= x < 128 -> char_at (pre ++ h' ++ body) (p + Z.of_nat j) = Ret x) as Hread'.
  { intros j x Hx Hsmall. rewrite (Hread j x Hx). by rewrite small_char. }
  assert (char_at (pre ++ h' ++ body) p = char_at (pre ++ h' ++ body) (p + Z.of_nat 0)) as Hp0 by (f_equal; lia).
  replace (blen pre + (1 + blen idb + blen lenb)) with (p + blen lenb) by (unfold p; lia).
  destruct Hlen as [n Hn|n Hn|a b Ha Hb'|a b c Ha Hb' Hc]; unfold is_byte in *;
    [|assert (0 <= n < 128) as Hn' by dlia|assert (0 <= a < 128 /\ 0 <= b < 128) as [Ha' Hb2] by dlia
     |assert (0 <= a < 128 /\ 0 <= b < 128 /\ 0 <= c < 128) as (Ha' & Hb2 & Hc') by dlia].
  - assert ((n <? 8) = true) as Hn8 by (by apply Z.ltb_lt; lia). rewrite Hn8. cbn [Z.eqb]. rewrite bind_ret, Hc4 by lia.
    change (blen []) with 0 in *. rewrite Z.add_0_r, (proj2 (geb_false _ _)) by (unfold p; lia). done.
  - cbn [Z.ltb Z.compare Z.eqb Pos.eqb Pos.compare Pos.compare_cont]. rewrite Hp0, (Hread' 0%nat n), !bind_ret by done.
    rewrite wrapu_small by lia. change (blen [n]) with 1 in *. rewrite (proj2 (geb_false _ _)) by (unfold p; lia). done.
  - cbn [Z.ltb Z.compare Z.eqb Pos.eqb Pos.compare Pos.compare_cont]. rewrite Hp0, (Hread' 0%nat a), bind_ret, (Hread' 1%nat b eq_refl Hb2 : char_at _ (p + 1) = _), !bind_ret by done.
    rewrite low_bits, wrapu_small by lia. change (blen [a; b]) with 2 in *. rewrite (proj2 (geb_false _ _)) by (unfold p; lia).
    do 4 f_equal. lia.
  - cbn [Z.ltb Z.compare Z.eqb Pos.eqb Pos.compare Pos.compare_cont]. rewrite Hp0, (Hread' 0%nat a), bind_ret, (Hread' 1%nat b eq_refl Hb2 : char_at _ (p + 1) = _), bind_ret,
      (Hread' 2%nat c eq_refl Hc' : char_at _ (p + 2) = _), !bind_ret by done.
    replace (Z.shiftl a 16) with (Z.shiftl (Z.shiftl a 8) 8) by (by rewrite Z.shiftl_shiftl by lia).
    rewrite <- Z.shiftl_lor, (low_bits a b 8), low_bits, wrapu_small by lia.
    change (blen [a; b; c]) with 3 in *. rewrite (proj2 (geb_false _ _)) by (unfold p; lia). do 4 f_equal. lia.
Qed.

(** ** Reading entries *)

Definition tlv_is (tlv : sol_lwm2m_tlv) (e : Z * Z * list Z) : Prop :=
  tlv_type tlv = e.1.1 /\ tlv_id tlv = e.1.2 /\ rep (tlv_content tlv) e.2.

Section Reading.
Context `{BuildConfig} `{Allocator}.

(** A string is appended to a buffer made with SOL_BUFFER_INIT_EMPTY. *)
Lemma string_append b l v : rep b l -> flags b = flags sol_buffer_init -> blen l + blen v <= 2 ^ 61 ->
  exists r b', sol_buffer_append_slice b v = Ret (r, b') /\ (r = 0 /\ rep b' (l ++ v) /\ flags b' = flags b \/ r < 0 /\ refused).
Proof.
  intros Hrep Hfl Hv. pose proof (blen_nonneg v). pose proof (blen_nonneg l). unfold sol_buffer_append_slice.
  assert (nul_byte_size b = 1 /\ has b SOL_BUFFER_FLAGS_MEMORY_NOT_OWNED = false) as [Hnul Hnot].
  { unfold nul_byte_size, has. by rewrite Hfl. }
  pose proof (rep_used _ _ Hrep) as Hu.
  destruct (append_bytes_spec b l v Hrep ltac:(zlia)) as (r & b' & Hrun & [Hfl' Hw] & _ & Hok).
  exists r, b'. split; [done|]. destruct Hw as [(-> & ? & _)|[Hneg _]]; [by left|right]. split; [done|]. rewrite Hnul, Hu in Hok.
  exists (align_power2_size (blen l + blen v + 1)). split; [apply aligned_size_fits; lia|].
  destruct (alloc_ok _) eqn:Ha; [|done]. exfalso. destruct (decide (v = [])) as [->|Hne].
  - assert (has b SOL_BUFFER_FLAGS_NO_NUL_BYTE = false) as Hnn by (unfold has; by rewrite Hfl).
    revert Hrun. unfold sol_buffer_append_bytes, finish, SOL_BUFFER_NEEDS_NUL_BYTE, sol_buffer_ensure_nul_byte. rewrite Hnn.
    change (blen [] =? 0) with true. cbn [negb]. intros ([|] & _ & Hrun)%bind_Ret_inv; [injection Hrun as <- _; lia|]. revert Hrun.
    rewrite Z.geb_leb, (proj2 (Z.leb_gt _ _)) by zlia.
    destruct (ensure_spec b l (used b) Hrep ltac:(lia)) as (e & b1 & -> & _ & _ & _ & _ & Hok1). rewrite Hnul, Hu in Hok1.
    rewrite bind_ret. destruct (Z.ltb_spec e 0) as [He|He]; [|intros (b2 & _ & [= <- _])%bind_Ret_inv; lia].
    intros _. change (blen []) with 0 in *. rewrite Z.add_0_r in Ha. rewrite Hok1 in He; [lia|done|done|zlia].
  - rewrite Hok in Hneg; [lia|done|done|done|zlia].
Qed.

Lemma append_content_spec pre v rest : blen (pre ++ v ++ rest) <= 2 ^ 61 ->
  exists r b, append_content sol_buffer_init (pre ++ v ++ rest) (blen pre) (blen v) = Ret (r, b) /\ (r = 0 /\ rep b v \/ r < 0 /\ refused).
Proof.
  intros Hlen. rewrite !blen_app in Hlen. pose proof (blen_nonneg pre). pose proof (blen_nonneg rest).
  unfold append_content. rewrite (proj2 (Z.leb_le _ _)) by (rewrite !blen_app; lia). rewrite mem_load_app, bind_ret by done.
  destruct (string_append sol_buffer_init [] v buf_rep_init eq_refl) as (r & b & Hrun & Hcase); [change (blen []) with 0; lia|].
  exists r, b. split; [done|]. cbn [app] in Hcase. destruct Hcase as [(? & ? & _)|?]; auto.
Qed.

Lemma parse_step pre t id h v rest out fuel : head t id (blen v) h -> readable (t, id, v) -> v ++ rest <> [] ->
  blen (pre ++ h ++ v ++ rest) <= 2 ^ 61 ->
  (exists r, parse_tlv_loop (pre ++ h ++ v ++ rest) (blen pre) out (S fuel) = Ret (r, []) /\ r < 0
     /\ (refused \/ UINT16_MAX <= blen out))
  \/ exists tlv, tlv_is tlv (t, id, v)
     /\ parse_tlv_loop (pre ++ h ++ v ++ rest) (blen pre) out (S fuel)
        = parse_tlv_loop (pre ++ h ++ v ++ rest) (blen (if is_nested t then pre ++ h else pre ++ h ++ v)) (out ++ [tlv]) fuel.
Proof.
  intros Hh [Hrid Hrlen] Hne Hlen. destruct (head_len _ _ _ _ Hh) as [_ H2]. cbn [parse_tlv_loop].
  assert (0 <= blen pre /\ 0 <= blen out /\ 0 <= blen (v ++ rest)) as (? & ? & ?) by (split_and!; apply blen_nonneg).
  rewrite (proj2 (Z.ltb_lt (blen pre) _)) by (rewrite blen_app, blen_app; lia). cbn [negb].
  destruct (Z.ltb_spec (Vector.append_error sizeof_tlv (blen out)) 0) as [Hneg|_].
  { left. eexists. split; [done|]. split; [done|]. apply Vector.append_error_reason in Hneg; [|done|done]. destruct Hneg; auto. }
  rewrite (parse_header_spec pre t id (blen v) h (v ++ rest) Hh Hrid Hrlen Hne), bind_ret.
  rewrite <- blen_app, app_assoc. destruct (append_content_spec (pre ++ h) v rest) as (r & b & -> & Hcase); [by rewrite <- app_assoc|].
  rewrite bind_ret. destruct Hcase as [[-> Hb]|[Hneg Href]].
  - right. exists {| tlv_type := t; tlv_id := id; tlv_content := b |}. split; [done|]. cbn [Z.ltb Z.compare].
    fold (is_nested t). destruct (is_nested t); [done|]. cbn [negb]. by rewrite !blen_app, Z.add_assoc.
  - left. rewrite (proj2 (Z.ltb_lt r 0)) by done. eexists. split; [done|]. auto.
Qed.

Lemma too_many (out : list sol_lwm2m_tlv) done (e : Z * Z * list Z) es : Forall2 tlv_is out done ->
  refused \/ UINT16_MAX <= blen out -> refused \/ UINT16_MAX < blen (done ++ e :: es).
Proof.
  intros Hout [?|Hl]; [by left|right]. pose proof (Forall2_length _ _ _ Hout). pose proof (blen_nonneg es).
  rewrite blen_app, blen_cons. unfold blen in *. lia.
Qed.

Lemma parse_loop_entries pre bytes es done fuel : entries_in bytes es -> Forall readable es -> last_ok es -> blen (pre ++ bytes) <= 2 ^ 61 -> (length bytes < fuel)%nat ->
  forall out, Forall2 tlv_is out done ->
  exists r out', parse_tlv_loop (pre ++ bytes) (blen pre) out fuel = Ret (r, out')
    /\ (r = 0 /\ Forall2 tlv_is out' (done ++ es)
        \/ r < 0 /\ out' = [] /\ (refused \/ UINT16_MAX < blen (done ++ es))).
Proof.
  intros Hes. revert pre done fuel. induction Hes as [|t id h v rest es Hh Hn Hes IH|t id h v rest es Hh Hn Hes IH];
    intros pre done' [|fuel] Hrs Hlast Hlen Hf out Hout; try lia.
  - cbn [parse_tlv_loop]. rewrite app_nil_r, Z.ltb_irrefl. cbn [negb]. exists 0, out. rewrite app_nil_r. by split; [|left].
  - destruct (head_len _ _ _ _ Hh) as [_ H2].
    apply Forall_cons in Hrs as [Hr Hrs].
    pose proof (last_ok_step _ _ _ Hlast Hes) as Hne. destruct (parse_step pre t id h v rest out fuel Hh Hr Hne Hlen) as [(r & -> & Hneg & Hwhy)|(tlv & Htlv & ->)].
    { exists r, []. split; [done|]. right. split_and!; [done|done|]. by apply (too_many out). }
    rewrite Hn. destruct (IH (pre ++ h ++ v) (done' ++ [(t, id, v)]) fuel) with (out := out ++ [tlv]) as (r & out' & Hrun & Hcase).
    + done. + by eapply last_ok_tail. + by rewrite <- !app_assoc. + rewrite !length_app in Hf. unfold blen in H2. lia. + apply Forall2_app; [done|]. by constructor.
    + exists r, out'. rewrite <- (app_assoc done') in Hcase. split; [|exact Hcase]. rewrite <- Hrun. f_equal. by rewrite <- !app_assoc.
  - destruct (head_len _ _ _ _ Hh) as [_ H2].
    apply Forall_cons in Hrs as [Hr Hrs].
    pose proof (last_ok_inside _ _ _ _ _ Hlast Hes) as Hne. destruct (parse_step pre t id h v rest out fuel Hh Hr Hne Hlen) as [(r & -> & Hneg & Hwhy)|(tlv & Htlv & ->)].
    { exists r, []. split; [done|]. right. split_and!; [done|done|]. by apply (too_many out). }
    rewrite Hn. destruct (IH (pre ++ h) (done' ++ [(t, id, v)]) fuel) with (out := out ++ [tlv]) as (r & out' & Hrun & Hcase).
    + done. + by eapply last_ok_tail. + by rewrite <- !app_assoc. + rewrite length_app in Hf. unfold blen in H2. lia. + apply Forall2_app; [done|]. by constructor.
    + exists r, out'. rewrite <- (app_assoc done') in Hcase. split; [|exact Hcase]. rewrite <- Hrun. f_equal. by rewrite <- !app_assoc.
Qed.
End Reading.

(** ** Resources as entries *)

Abbreviation entry := (Z * Z * list Z)%type.

(** The bytes and the entry of an instance of a resource *)
Definition instance_entry (t : sol_lwm2m_resource_data_type) (d : sol_lwm2m_resource_data) : option (list Z * entry) :=
  v ← wire_value t (content d);
  h ← tlv_data SOL_LWM2M_TLV_TYPE_RESOURCE_INSTANCE (data_id d) (blen v);
  Some (h ++ v, (SOL_LWM2M_TLV_TYPE_RESOURCE_INSTANCE, data_id d, v)).

(** The bytes of a resource and its entries.  The length of one with many
    instances counts two bytes for each of their headers. *)
Definition encode_resource (r : sol_lwm2m_resource) : option (list Z * list entry) :=
  match res_type r with
  | SOL_LWM2M_RESOURCE_TYPE_SINGLE =>
      match res_data r with
      | [d] =>
          v ← wire_value (data_type r) (content d);
          h ← tlv_data SOL_LWM2M_TLV_TYPE_RESOURCE_WITH_VALUE (res_id r) (blen v);
          Some (h ++ v, [(SOL_LWM2M_TLV_TYPE_RESOURCE_WITH_VALUE, res_id r, v)])
      | _ => None
      end
  | SOL_LWM2M_RESOURCE_TYPE_MULTIPLE =>
      l ← mapM (instance_entry (data_type r)) (res_data r);
      let n := blen (concat (snd <$> (snd <$> l))) + 2 * blen l in
      let body := concat (fst <$> l) in
      h ← tlv_data SOL_LWM2M_TLV_TYPE_MULTIPLE_RESOURCES (res_id r) n;
      Some (h ++ body, (SOL_LWM2M_TLV_TYPE_MULTIPLE_RESOURCES, res_id r, take (Z.to_nat n) body) :: (snd <$> l))
  | SOL_LWM2M_RESOURCE_TYPE_UNKNOWN => None
  end.

Definition encode_all {A} (encode : A -> option (list Z * list entry)) (xs : list A) : option (list Z * list entry) :=
  l ← mapM encode xs; Some (concat (fst <$> l), concat (snd <$> l)).

Definition encode_resources : list sol_lwm2m_resource -> option (list Z * list entry) := encode_all encode_resource.

(** The values of a resource.  The length of an instance of an object counts
    only them. *)
Definition resource_values (r : sol_lwm2m_resource) : option (list Z) :=
  l ← mapM (fun d => wire_value (data_type r) (content d)) (res_data r); Some (concat l).

Definition encode_instance (x : Z * list sol_lwm2m_resource) : option (list Z * list entry) :=
  '(body, es) ← encode_resources x.2;
  vs ← mapM resource_values x.2;
  let n := blen (concat vs) in
  h ← tlv_data SOL_LWM2M_TLV_TYPE_OBJECT_INSTANCE x.1 n;
  Some (h ++ body, (SOL_LWM2M_TLV_TYPE_OBJECT_INSTANCE, x.1, take (Z.to_nat n) body) :: es).

Definition encode_instances : list (Z * list sol_lwm2m_resource) -> option (list Z * list entry) := encode_all encode_instance.

Lemma encode_all_cons {A} (f : A -> option (list Z * list entry)) x xs res : encode_all f (x :: xs) = Some res ->
  exists bs es y, f x = Some (bs, es) /\ encode_all f xs = Some y /\ res = (bs ++ y.1, es ++ y.2).
Proof.
  unfold encode_all. cbn [mapM]. destruct (f x) as [[bs es]|]; [|done]. cbn [mbind option_bind].
  destruct (mapM f xs) as [l|]; [|done]. intros [= <-]. by exists bs, es, (concat (fst <$> l), concat (snd <$> l)).
Qed.

Section Writing.
Context `{BuildConfig} `{Allocator} `{FloatBits}.

(** [f] appends [bs] to a buffer that owns its memory. *)
Definition appends (f : sol_buffer -> outcome (Z * sol_buffer)) (bs : list Z) : Prop :=
  forall b l, rep b l -> own_bytes b -> blen l + blen bs <= 2 ^ 62 ->
  exists r b', f b = Ret (r, b') /\ own_bytes b' /\ (r = 0 /\ rep b' (l ++ bs) \/ r < 0 /\ refused).

Lemma appends_bytes bs : appends (fun b => sol_buffer_append_bytes b bs) bs.
Proof. intros b l. apply own_append. Qed.

Lemma appends_then {f g bs bs'} : appends f bs -> appends g bs' ->
  appends (fun b => '(r, b) ← f b; if r <? 0 then Ret (r, b) else g b) (bs ++ bs').
Proof.
  intros Hf Hg b l Hrep Hown Hlen. rewrite blen_app in Hlen. pose proof (blen_nonneg bs').
  destruct (Hf b l Hrep Hown ltac:(lia)) as (r & b1 & -> & Hown1 & [[-> Hrep1]|[Hneg Href]]); rewrite bind_ret.
  - cbn [Z.ltb Z.compare]. rewrite app_assoc. apply Hg; [done|done|]. rewrite blen_app. lia.
  - rewrite (proj2 (Z.ltb_lt r 0)) by done. exists r, b1. auto.
Qed.

Lemma appends_ext f g bs : (forall b, f b = g b) -> appends f bs -> appends g bs.
Proof. intros He Hf b l ? ? ?. rewrite <- He. by apply Hf. Qed.

Lemma appends_header t id n h : tlv_data t id n = Some h -> appends (fun b => setup_tlv_header t id b n) h.
Proof.
  intros Hh b l Hrep Hown Hlen. unfold setup_tlv_header. rewrite Hh.
  destruct (own_append b l h Hrep Hown Hlen) as (r & b' & -> & ? & Hcase). rewrite bind_ret. exists (if r <? 0 then r else 0), b'.
  split_and!; [done|done|]. destruct Hcase as [[-> ?]|[Hneg ?]]; [by left|right]. by rewrite (proj2 (Z.ltb_lt r 0)).
Qed.

Lemma appends_value r i d v : res_data r !! i = Some d -> wire_value (data_type r) (content d) = Some v ->
  appends (fun b => add_resource_bytes_to_buffer r b i) v.
Proof.
  intros Hd Hv. eapply appends_ext; [|apply (appends_bytes v)]. intros b. cbv beta.
  by destruct (resource_bytes_spec r b i d v Hd Hv) as [_ ->].
Qed.

Lemma instance_entry_inv t d x : instance_entry t d = Some x ->
  exists v h, wire_value t (content d) = Some v
    /\ tlv_data SOL_LWM2M_TLV_TYPE_RESOURCE_INSTANCE (data_id d) (blen v) = Some h
    /\ x = (h ++ v, (SOL_LWM2M_TLV_TYPE_RESOURCE_INSTANCE, data_id d, v)).
Proof.
  unfold instance_entry. destruct (wire_value _ _) as [v|]; [|done]. cbn [mbind option_bind].
  destruct (tlv_data _ _ _) as [h|] eqn:Hh; [|done]. intros [= <-]. by exists v, h.
Qed.

Definition instances_of (t : sol_lwm2m_resource_data_type) : list sol_lwm2m_resource_data -> list (list Z * entry) -> Prop :=
  Forall2 (fun d x => instance_entry t d = Some x).

Definition values_len (l : list (list Z * entry)) : Z := blen (concat (snd <$> (snd <$> l))).

Lemma values_len_cons x l : values_len (x :: l) = blen x.2.2 + values_len l.
Proof. unfold values_len. cbn [fmap list_fmap concat]. by rewrite blen_app. Qed.

Lemma values_len_nonneg l : 0 <= values_len l.
Proof. apply blen_nonneg. Qed.

(** The values of some data *)
Definition values_of (t : sol_lwm2m_resource_data_type) : list sol_lwm2m_resource_data -> list (list Z) -> Prop :=
  Forall2 (fun d v => wire_value t (content d) = Some v).

Lemma instances_values t ds l : instances_of t ds l -> values_of t ds (snd <$> (snd <$> l)).
Proof.
  induction 1 as [|d x ds l Hx _ IH]; [constructor|]. apply instance_entry_inv in Hx as (v & h & ? & _ & ->). by constructor.
Qed.

Lemma data_len_spec r pre ds vs sum : res_data r = pre ++ ds -> values_of (data_type r) ds vs ->
  0 <= sum -> sum + blen (concat vs) < 2 ^ 64 ->
  data_len_loop r (length pre) (length ds) sum = Ret (0, sum + blen (concat vs)).
Proof.
  intros Hr Hl. revert pre sum Hr. induction Hl as [|d v ds vs Hv _ IH]; intros pre sum Hr Hs Hsum.
  { cbn [length data_len_loop]. change (blen (concat [])) with 0. by rewrite Z.add_0_r. }
  cbn [concat] in *. rewrite blen_app in *. pose proof (blen_nonneg v). pose proof (blen_nonneg (concat vs)). cbn [length data_len_loop].
  destruct (resource_bytes_spec r sol_buffer_init (length pre) d v) as [-> _]; [rewrite Hr; by apply list_lookup_middle|done|].
  rewrite bind_ret. cbn [Z.ltb Z.compare]. rewrite wrapu_small by lia.
  replace (S (length pre)) with (length (pre ++ [d])) by (rewrite length_app; cbn; lia).
  rewrite IH; [do 2 f_equal; lia|by rewrite Hr, <- app_assoc|lia|lia].
Qed.

Lemma instance_loop_spec r pre ds l : res_data r = pre ++ ds -> instances_of (data_type r) ds l ->
  appends (fun b => instance_loop r b (length pre) (length ds)) (concat (fst <$> l)).
Proof.
  intros Hr Hl. revert pre Hr. induction Hl as [|d x ds l Hx _ IH]; intros pre Hr.
  { intros b bs ? ? ?. cbn [length instance_loop]. exists 0, b. rewrite app_nil_r. auto. }
  apply instance_entry_inv in Hx as (v & h & Hv & Hh & ->). cbn [fmap list_fmap concat fst].
  assert (res_data r !! length pre = Some d) as Hd by (rewrite Hr; by apply list_lookup_middle).
  specialize (IH (pre ++ [d])). rewrite length_app in IH. cbn [length] in IH. rewrite Nat.add_1_r in IH.
  specialize (IH ltac:(by rewrite Hr, <- app_assoc)). rewrite <- app_assoc.
  eapply appends_ext; [|apply (appends_then (appends_header _ _ _ _ Hh) (appends_then (appends_value _ _ _ _ Hd Hv) IH))].
  intros b. cbn [length instance_loop]. destruct (resource_bytes_spec r b (length pre) d v Hd Hv) as [-> _].
  rewrite bind_ret. cbn [Z.ltb Z.compare]. unfold data_of. rewrite Hd, bind_ret. done.
Qed.

Lemma blen_body t ds l : instances_of t ds l -> values_len l + 2 * blen l <= blen (concat (fst <$> l)).
Proof.
  induction 1 as [|d x ds l Hx _ IH]; [done|]. apply instance_entry_inv in Hx as (v & h & _ & Hh & ->).
  rewrite values_len_cons, blen_cons. cbn [fmap list_fmap concat fst snd]. rewrite !blen_app.
  enough (2 <= blen h) by lia. revert Hh. unfold tlv_data. repeat case_match; simplify_eq; intros; simplify_eq;
    rewrite ?blen_cons, ?blen_app, ?blen_cons; change (blen (@nil Z)) with 0; lia.
Qed.

Lemma setup_tlv_spec r bs es : encode_resource r = Some (bs, es) -> blen bs <= 2 ^ 62 -> appends (setup_tlv r) bs.
Proof.
  unfold encode_resource. destruct (res_type r) eqn:Ht; [| |done].
  - destruct (res_data r) as [|d [|]] eqn:Hd; [done| |done]. destruct (wire_value _ _) as [v|] eqn:Hv; [|done]. cbn [mbind option_bind].
    destruct (tlv_data _ _ _) as [h|] eqn:Hh; [|done]. intros [= <- <-] Hlen.
    rewrite blen_app in Hlen. pose proof (blen_nonneg v). pose proof (blen_nonneg h).
    assert (res_data r !! 0%nat = Some d) as Hd0 by by rewrite Hd.
    eapply appends_ext; [|apply (appends_then (appends_header _ _ _ _ Hh) (appends_value _ _ _ _ Hd0 Hv))].
    intros b. unfold setup_tlv. rewrite Hd, Ht. cbn [length data_len_loop].
    destruct (resource_bytes_spec r b 0 d v Hd0 Hv) as [-> _]. rewrite bind_ret. cbn [Z.ltb Z.compare].
    rewrite bind_ret, Z.add_0_l, wrapu_small by lia. done.
  - destruct (mapM _ _) as [l|] eqn:Hl; [|done]. apply mapM_Some in Hl. cbn [mbind option_bind].
    destruct (tlv_data _ _ _) as [h|] eqn:Hh; [|done]. intros [= <- <-] Hlen. rewrite blen_app in Hlen.
    pose proof (blen_nonneg h). pose proof (blen_body _ _ _ Hl). pose proof (values_len_nonneg l). pose proof (blen_nonneg l).
    fold (values_len l) in Hh. pose proof (Forall2_length _ _ _ Hl) as Hn.
    eapply appends_ext; [|apply (appends_then (appends_header _ _ _ _ Hh) (instance_loop_spec r [] (res_data r) l eq_refl Hl))].
    intros b. unfold setup_tlv. rewrite Ht.
    pose proof (data_len_spec r [] (res_data r) _ 0 eq_refl (instances_values _ _ _ Hl) ltac:(lia)) as Hsum.
    fold (values_len l) in Hsum. specialize (Hsum ltac:(lia)). cbn [length] in Hsum. rewrite Hsum.
    assert (Z.of_nat (length (res_data r)) = blen l) as -> by (unfold blen; lia).
    rewrite bind_ret. cbn [Z.ltb Z.compare]. rewrite Z.add_0_l, wrapu_small, Z.mul_comm by lia. done.
Qed.

Lemma resources_to_tlv_spec rs bs es : encode_resources rs = Some (bs, es) -> blen bs <= 2 ^ 62 -> appends (resources_to_tlv rs) bs.
Proof.
  revert bs es. induction rs as [|r rs IH]; intros bs es He Hlen.
  { injection He as <- <-. intros b l ? ? ?. exists 0, b. rewrite app_nil_r. auto. }
  apply encode_all_cons in He as (bs1 & es1 & [bs2 es2] & Hr & Hrs & [= -> ->]). cbn [fst] in *. rewrite blen_app in Hlen.
  pose proof (blen_nonneg bs1). pose proof (blen_nonneg bs2).
  apply (appends_then (setup_tlv_spec r bs1 es1 Hr ltac:(lia)) (IH bs2 es2 Hrs ltac:(lia))).
Qed.

Lemma resource_values_le r bs es vs : encode_resource r = Some (bs, es) -> resource_values r = Some vs -> blen vs <= blen bs.
Proof.
  unfold encode_resource, resource_values. destruct (res_type r); [| |done].
  - destruct (res_data r) as [|d [|]]; [done| |done]. cbn [mapM]. destruct (wire_value _ _) as [v|]; [|done]. cbn [mbind option_bind].
    destruct (tlv_data _ _ _) as [h|]; [|done]. intros [= <- _] [= <-]. cbn [concat]. rewrite app_nil_r, blen_app.
    pose proof (blen_nonneg h). lia.
  - destruct (mapM (instance_entry _) _) as [l|] eqn:Hl; [|done]. apply mapM_Some in Hl. cbn [mbind option_bind].
    destruct (tlv_data _ _ _) as [h|]; [|done]. intros [= <- _]. pose proof (instances_values _ _ _ Hl) as Hvs.
    rewrite (proj2 (mapM_Some (fun d => wire_value (data_type r) (content d)) _ _) Hvs). intros [= <-].
    pose proof (blen_body _ _ _ Hl). rewrite blen_app. fold (values_len l).
    pose proof (blen_nonneg h). pose proof (blen_nonneg l). lia.
Qed.

Lemma resources_values_le rs bs es vs : encode_resources rs = Some (bs, es) -> mapM resource_values rs = Some vs ->
  blen (concat vs) <= blen bs.
Proof.
  revert bs es vs. induction rs as [|r rs IH]; intros bs es vs He Hv.
  { injection He as <- <-. injection Hv as <-. done. }
  apply encode_all_cons in He as (bs1 & es1 & [bs2 es2] & Hr & Hrs & [= -> ->]).
  apply mapM_Some, Forall2_cons_inv_l in Hv as (v & vs' & Hv & Hvs & ->). cbn [concat fst]. rewrite !blen_app.
  pose proof (resource_values_le _ _ _ _ Hr Hv). pose proof (IH _ _ _ Hrs (proj2 (mapM_Some _ _ _) Hvs)) as IH'. cbn [fst] in IH'. lia.
Qed.

Lemma instance_len_spec rs vs sum : mapM resource_values rs = Some vs -> 0 <= sum -> sum + blen (concat vs) < 2 ^ 64 ->
  instance_len_loop rs sum = Ret (0, sum + blen (concat vs)).
Proof.
  intros Hvs. apply mapM_Some in Hvs. revert sum. induction Hvs as [|r v rs vs Hv _ IH]; intros sum Hs Hsum.
  { cbn [instance_len_loop]. change (blen (concat [])) with 0. by rewrite Z.add_0_r. }
  cbn [concat] in *. rewrite blen_app in *. pose proof (blen_nonneg v). pose proof (blen_nonneg (concat vs)). cbn [instance_len_loop].
  unfold resource_values in Hv. destruct (mapM _ _) as [l|] eqn:Hl; [|done]. apply mapM_Some in Hl. injection Hv as <-.
  pose proof (data_len_spec r [] (res_data r) l sum eq_refl Hl ltac:(lia) ltac:(lia)) as Hd. cbn [length] in Hd.
  rewrite Hd, bind_ret. cbn [Z.ltb Z.compare]. rewrite IH by lia. do 2 f_equal. lia.
Qed.

Lemma instances_to_tlv_spec l bs es : encode_instances l = Some (bs, es) -> blen bs <= 2 ^ 62 -> appends (instances_to_tlv l) bs.
Proof.
  revert bs es. induction l as [|[id rs] l IH]; intros bs es He Hlen.
  { injection He as <- <-. intros b x ? ? ?. exists 0, b. rewrite app_nil_r. auto. }
  apply encode_all_cons in He as (bs1 & es1 & [bs2 es2] & Hr & Hrs & [= -> ->]). cbn [fst] in *. rewrite blen_app in Hlen.
  pose proof (blen_nonneg bs1). pose proof (blen_nonneg bs2). specialize (IH bs2 es2 Hrs ltac:(lia)). revert Hr.
  unfold encode_instance. cbn [fst snd]. destruct (encode_resources rs) as [[body es']|] eqn:Hbody; [|done]. cbn [mbind option_bind].
  destruct (mapM resource_values rs) as [vs|] eqn:Hvs; [|done]. cbn [mbind option_bind].
  destruct (tlv_data _ _ _) as [h|] eqn:Hh; [|done]. intros [= <- <-]. rewrite blen_app in *. pose proof (blen_nonneg h).
  pose proof (resources_values_le _ _ _ _ Hbody Hvs). pose proof (blen_nonneg (concat vs)). rewrite <- app_assoc.
  eapply appends_ext; [|apply (appends_then (appends_header _ _ _ _ Hh) (appends_then (resources_to_tlv_spec rs body es' Hbody ltac:(lia)) IH))].
  intros b. cbn [instances_to_tlv]. by rewrite (instance_len_spec rs vs 0 Hvs), bind_ret by lia.
Qed.
End Writing.

(** ** What is written can be read *)

(** Membership in a list that is written out *)
Ltac in_list := unfold tlv_types; rewrite !elem_of_cons; repeat (first [by left | right]).

Lemma type_lor t x : t ∈ tlv_types -> x ∈ [0; 32] -> forall n, n ∈ [0; 1; 2; 3; 4; 5; 6; 7; 8; 16; 24] ->
  Z.lor (if x =? 0 then t else Z.lor t ID_HAS_16BITS_MASK) n = t + x + n.
Proof.
  unfold tlv_types. rewrite !elem_of_cons, !elem_of_nil. intros Ht Hx n. rewrite !elem_of_cons, !elem_of_nil. intros Hn.
  repeat match goal with H : _ \/ _ |- _ => destruct H as [->|H] end; done.
Qed.

Lemma tlv_data_head t id n h : t ∈ tlv_types -> 0 <= id < 65536 -> 0 <= n -> tlv_data t id n = Some h ->
  head t id n h.
Proof.
  intros Ht Hid Hn. unfold tlv_data. unfold_limits.
  assert (exists x idb, (if id >? 255 then (Z.lor t ID_HAS_16BITS_MASK, [Z.land (Z.shiftr id 8) 255; Z.land id 255]) else (t, [id]))
    = ((if x =? 0 then t else Z.lor t ID_HAS_16BITS_MASK), idb) /\ x ∈ [0; 32] /\ id_part id x idb) as (x & idb & -> & Hx & Hpart).
  { rewrite Z.gtb_ltb. destruct (Z.ltb_spec 255 id).
    - exists 32. eexists. split_and!; [done|in_list|]. change 255 with (Z.ones 8). rewrite !Z.land_ones, Z.shiftr_div_pow2 by lia.
      change (2 ^ 8) with 256. replace (id / 256 mod 256) with (id / 256) by dlia. replace id with (256 * (id / 256) + id mod 256) at 1 by dlia.
      constructor; unfold is_byte; dlia.
    - exists 0. eexists. split_and!; [done|in_list|]. constructor. unfold is_byte. dlia. }
  intros Hh. destruct (Z.leb_spec n 7); [|destruct (Z.leb_spec n 255); [|destruct (Z.leb_spec n 65535);
    [|destruct (Z.leb_spec n UINT24_MAX) as [H24|]; [unfold UINT24_MAX in H24|done]]]]; injection Hh as <-.
  - rewrite type_lor by (done || (rewrite !elem_of_cons; lia)). rewrite <- (app_nil_r idb). constructor; [done|done|]. constructor. lia.
  - unfold LEN_IS_8BITS_MASK. rewrite type_lor by (done || in_list). constructor; [done|done|]. constructor. unfold is_byte. dlia.
  - unfold LEN_IS_16BITS_MASK. rewrite type_lor by (done || in_list). constructor; [done|done|].
    change 255 with (Z.ones 8). rewrite !Z.land_ones, Z.shiftr_div_pow2 by lia. change (2 ^ 8) with 256.
    replace (n / 256 mod 256) with (n / 256) by dlia. replace n with (256 * (n / 256) + n mod 256) at 1 by dlia.
    constructor; unfold is_byte; dlia.
  - unfold LEN_IS_24BITS_MASK. rewrite type_lor by (done || in_list). constructor; [done|done|].
    change 255 with (Z.ones 8). rewrite !Z.land_ones, !Z.shiftr_div_pow2 by lia. change (2 ^ 8) with 256. change (2 ^ 16) with 65536.
    replace (n / 65536 mod 256) with (n / 65536) by dlia.
    replace n with (65536 * (n / 65536) + 256 * (n / 256 mod 256) + n mod 256) at 1 by dlia. constructor; unfold is_byte; dlia.
Qed.

Lemma leaf_step t id v h rest es : t ∈ tlv_types -> is_nested t = false -> tlv_data t id (blen v) = Some h ->
  readable (t, id, v) -> entries_in rest es -> entries_in ((h ++ v) ++ rest) ((t, id, v) :: es).
Proof.
  intros Ht Hn Hh [[Hid _] _] Hes. rewrite <- app_assoc. constructor; [|done|done].
  apply tlv_data_head; try done. apply blen_nonneg.
Qed.

Lemma instances_entries t ds l rest es : instances_of t ds l -> Forall readable (snd <$> l) ->
  entries_in rest es -> entries_in (concat (fst <$> l) ++ rest) ((snd <$> l) ++ es).
Proof.
  intros Hl. revert rest es. induction Hl as [|d x ds l Hx _ IH]; intros rest es Hr Hes; [done|].
  apply instance_entry_inv in Hx as (v & h & _ & Hh & ->). cbn [fmap list_fmap concat fst snd app] in *.
  apply Forall_cons in Hr as [Hr1 Hr]. rewrite <- app_assoc. apply leaf_step; try done; [in_list|].
  by apply IH.
Qed.

Lemma nested_step t id n h body rest es : t ∈ tlv_types -> is_nested t = true -> 0 <= n <= blen body -> tlv_data t id n = Some h ->
  readable (t, id, take (Z.to_nat n) body) -> entries_in (body ++ rest) es ->
  entries_in ((h ++ body) ++ rest) ((t, id, take (Z.to_nat n) body) :: es).
Proof.
  intros Ht Hn Hle Hh [[Hid _] _] Hes. cbn [fst snd] in Hid.
  assert (blen (take (Z.to_nat n) body) = n) as Hb by (rewrite blen_take; lia).
  rewrite <- (take_drop (Z.to_nat n) body), <- app_assoc in Hes. rewrite <- (take_drop (Z.to_nat n) body) at 1.
  rewrite <- !app_assoc. constructor; [|done|done]. rewrite Hb. apply tlv_data_head; try done. lia.
Qed.

(** The bytes of [encode] are read as its entries, whatever follows. *)
Definition readable_bytes {A} (encode : A -> option (list Z * list entry)) : Prop := forall x bs es1 rest es,
  encode x = Some (bs, es1) -> Forall readable es1 -> entries_in rest es -> entries_in (bs ++ rest) (es1 ++ es).

Lemma resource_entries : readable_bytes encode_resource.
Proof.
  intros r bs es1 rest es. unfold encode_resource. destruct (res_type r); [| |done].
  - destruct (res_data r) as [|d [|]]; [done| |done]. destruct (wire_value _ _) as [v|]; [|done]. cbn [mbind option_bind].
    destruct (tlv_data _ _ _) as [h|] eqn:Hh; [|done]. intros [= <- <-] [Hr _]%Forall_cons Hes. apply leaf_step; try done. in_list.
  - destruct (mapM _ _) as [l|] eqn:Hl; [|done]. apply mapM_Some in Hl. cbn [mbind option_bind].
    destruct (tlv_data _ _ _) as [h|] eqn:Hh; [|done]. intros [= <- <-] [Hr Hrs]%Forall_cons Hes.
    pose proof (blen_body _ _ _ Hl) as Hb. fold (values_len l) in *. apply nested_step; try done; [in_list| |].
    + pose proof (values_len_nonneg l). pose proof (blen_nonneg l). lia.
    + apply (instances_entries _ _ _ _ _ Hl Hrs Hes).
Qed.

Lemma all_entries {A} (f : A -> option (list Z * list entry)) : readable_bytes f -> readable_bytes (encode_all f).
Proof.
  intros Hf xs. induction xs as [|x xs IH]; intros bs es1 rest es He Hr Hes; [by injection He as <- <-|].
  apply encode_all_cons in He as (bs1 & es2 & [bs2 es3] & Hx & Hxs & [= -> ->]). cbn [fst snd] in *.
  apply Forall_app in Hr as [Hr Hr']. rewrite <- !app_assoc. apply (Hf x); try done. by apply IH.
Qed.

Lemma instance_entries : readable_bytes encode_instance.
Proof.
  intros [id rs] bs es1 rest es. unfold encode_instance. cbn [fst snd].
  destruct (encode_resources rs) as [[body es']|] eqn:Hbody; [|done]. cbn [mbind option_bind].
  destruct (mapM resource_values rs) as [vs|] eqn:Hvs; [|done]. cbn [mbind option_bind].
  destruct (tlv_data _ _ _) as [h|] eqn:Hh; [|done]. intros [= <- <-] [Hr Hrs]%Forall_cons Hes.
  apply nested_step; try done; [in_list| |].
  - pose proof (resources_values_le _ _ _ _ Hbody Hvs). split; [apply blen_nonneg|done].
  - apply (all_entries _ resource_entries _ _ _ _ _ Hbody Hrs Hes).
Qed.

Lemma readable_entries {A} (f : A -> option (list Z * list entry)) x bs es :
  readable_bytes f -> f x = Some (bs, es) -> Forall readable es -> entries_in bs es.
Proof.
  intros Hf He Hr. rewrite <- (app_nil_r bs), <- (app_nil_r es). apply (Hf x); try done. constructor.
Qed.

(** *** Values among the entries *)

(** The ids and the values of a resource, one for each of its instances when
    it has many *)
Definition resource_leaves (r : sol_lwm2m_resource) : option (list entry) :=
  vs ← mapM (fun d => wire_value (data_type r) (content d)) (res_data r);
  match res_type r with
  | SOL_LWM2M_RESOURCE_TYPE_SINGLE =>
      Some ((fun v => (SOL_LWM2M_TLV_TYPE_RESOURCE_WITH_VALUE, res_id r, v)) <$> vs)
  | SOL_LWM2M_RESOURCE_TYPE_MULTIPLE =>
      Some (zip_with (fun d v => (SOL_LWM2M_TLV_TYPE_RESOURCE_INSTANCE, data_id d, v)) (res_data r) vs)
  | SOL_LWM2M_RESOURCE_TYPE_UNKNOWN => None
  end.

Definition values_in (rs : list sol_lwm2m_resource) : option (list entry) :=
  l ← mapM resource_leaves rs; Some (concat l).

(** The entries that hold a value and no others *)
Definition leaves (es : list entry) : list entry := filter (fun e => is_nested e.1.1 = false) es.

Lemma values_in_cons r rs l ls : resource_leaves r = Some l -> values_in rs = Some ls -> values_in (r :: rs) = Some (l ++ ls).
Proof.
  unfold values_in. intros Hr. cbn [mapM]. rewrite Hr. cbn [mbind option_bind].
  destruct (mapM resource_leaves rs); [|done]. intros [= <-]. done.
Qed.

Lemma values_in_app rs rs' l l' : values_in rs = Some l -> values_in rs' = Some l' -> values_in (rs ++ rs') = Some (l ++ l').
Proof.
  revert l. induction rs as [|r rs IH]; intros l Hl Hl'; [by injection Hl as <-|]. cbn [app].
  unfold values_in in Hl. cbn [mapM] in Hl. destruct (resource_leaves r) as [x|] eqn:Hr; [|done]. cbn [mbind option_bind] in Hl.
  destruct (mapM resource_leaves rs) as [y|] eqn:Hy; [|done]. injection Hl as <-.
  cbn [concat]. rewrite <- app_assoc. apply values_in_cons; [done|]. apply IH; [|done]. unfold values_in. by rewrite Hy.
Qed.

Lemma leaves_instances t ds l : instances_of t ds l ->
  leaves (snd <$> l) = zip_with (fun d v => (SOL_LWM2M_TLV_TYPE_RESOURCE_INSTANCE, data_id d, v)) ds (snd <$> (snd <$> l)).
Proof.
  unfold leaves. induction 1 as [|d x ds l Hx _ IH]; [done|]. apply instance_entry_inv in Hx as (v & h & _ & _ & ->).
  cbn [fmap list_fmap snd zip_with]. rewrite filter_cons_True by done. by rewrite IH.
Qed.

Lemma encode_resource_leaves r bs es : encode_resource r = Some (bs, es) -> resource_leaves r = Some (leaves es).
Proof.
  unfold encode_resource, resource_leaves, leaves. destruct (res_type r); [| |done].
  - destruct (res_data r) as [|d [|]]; [done| |done]. cbn [mapM]. destruct (wire_value _ _) as [v|]; [|done]. cbn [mbind option_bind].
    destruct (tlv_data _ _ _); [|done]. by intros [= <- <-].
  - destruct (mapM (instance_entry _) _) as [l|] eqn:Hl; [|done]. apply mapM_Some in Hl. cbn [mbind option_bind].
    destruct (tlv_data _ _ _); [|done]. intros [= <- <-]. pose proof (instances_values _ _ _ Hl) as Hvs.
    rewrite (proj2 (mapM_Some (fun d => wire_value (data_type r) (content d)) _ _) Hvs).
    cbn [mbind option_bind]. rewrite filter_cons_False by done. f_equal. symmetry. by apply (leaves_instances (data_type r)).
Qed.

Lemma leaves_app es es' : leaves (es ++ es') = leaves es ++ leaves es'.
Proof. apply filter_app. Qed.

Lemma encode_leaves rs bs es : encode_resources rs = Some (bs, es) -> values_in rs = Some (leaves es).
Proof.
  revert bs es. induction rs as [|r rs IH]; intros bs es He; [by injection He as <- <-|].
  apply encode_all_cons in He as (bs1 & es1 & [bs2 es2] & Hr & Hrs & [= -> ->]). cbn [snd]. rewrite leaves_app.
  apply values_in_cons; [by eapply encode_resource_leaves|by eapply IH].
Qed.

Lemma encode_instances_leaves l bs es : encode_instances l = Some (bs, es) -> values_in (concat (snd <$> l)) = Some (leaves es).
Proof.
  revert bs es. induction l as [|[id rs] l IH]; intros bs es He; [by injection He as <- <-|].
  apply encode_all_cons in He as (bs1 & es1 & [bs2 es2] & Hr & Hrs & [= -> ->]). cbn [snd fmap list_fmap concat]. rewrite leaves_app.
  apply values_in_app; [|by eapply IH]. revert Hr. unfold encode_instance. cbn [fst snd].
  destruct (encode_resources rs) as [[body es']|] eqn:Hbody; [|done]. cbn [mbind option_bind].
  destruct (mapM resource_values rs); [|done]. cbn [mbind option_bind]. destruct (tlv_data _ _ _); [|done].
  intros [= <- <-]. unfold leaves. rewrite filter_cons_False by done. by eapply encode_leaves.
Qed.

Lemma leaves_read tlvs es : Forall2 tlv_is tlvs es ->
  Forall2 tlv_is (filter (fun tlv => is_nested (tlv_type tlv) = false) tlvs) (leaves es).
Proof.
  unfold leaves. induction 1 as [|tlv e tlvs es Htlv _ IH]; [constructor|]. pose proof Htlv as (Ht & _).
  destruct (is_nested e.1.1) eqn:He.
  - rewrite !filter_cons_False by congruence. done.
  - rewrite !filter_cons_True by congruence. by constructor.
Qed.

(** ** Properties *)

Section Properties.
Context `{BuildConfig} `{Allocator} `{FloatBits}.

(** What writes resources, or instances of an object, the bytes and the
    entries they hold *)
Inductive written : (sol_buffer -> outcome (Z * sol_buffer)) -> list Z -> list entry -> list entry -> Prop :=
| written_resources rs bs es ls : encode_resources rs = Some (bs, es) -> values_in rs = Some ls ->
    written (resources_to_tlv rs) bs es ls
| written_instances l bs es ls : encode_instances l = Some (bs, es) -> values_in (concat (snd <$> l)) = Some ls ->
    written (instances_to_tlv l) bs es ls.

Lemma written_leaves f bs es ls : written f bs es ls -> leaves es = ls.
Proof.
  intros [rs bs' es' ls' He Hl|l bs' es' ls' He Hl].
  - apply encode_leaves in He. congruence.
  - apply encode_instances_leaves in He. congruence.
Qed.

Lemma written_spec f bs es ls : written f bs es ls -> blen bs <= 2 ^ 62 -> appends f bs.
Proof. intros []; [by eapply resources_to_tlv_spec|by eapply instances_to_tlv_spec]. Qed.

Lemma written_entries f bs es ls : written f bs es ls -> Forall readable es -> entries_in bs es.
Proof.
  intros [rs bs' es' ls' He|l bs' es' ls' He] Hr; eapply readable_entries; [|exact He|done| |exact He|done].
  - apply all_entries, resource_entries.
  - apply all_entries, instance_entries.
Qed.

Lemma parse_entries bytes es : entries_in bytes es -> Forall readable es -> last_ok es -> blen bytes <= 2 ^ 61 ->
  exists r tlvs, sol_lwm2m_parse_tlv bytes = Ret (r, tlvs)
    /\ (r = 0 /\ Forall2 tlv_is tlvs es \/ r < 0 /\ tlvs = [] /\ (refused \/ UINT16_MAX < blen es)).
Proof.
  intros Hes Hr Hlast Hlen. apply (parse_loop_entries [] bytes es [] _ Hes Hr Hlast Hlen); [lia|constructor].
Qed.

(** C33: bytes that follow the grammar of entries are parsed into these
    entries, in their order, an object instance or a resource with many
    instances also being read inside: the types, ids and contents are those
    written.  Only the allocator makes this fail, or that there are more
    entries than a vector holds.  Two kinds of bytes of the grammar are left
    out, which the code does not read: the low byte of an id and the bytes of
    a length must be below 128, for the reader takes them for signed
    characters ([large_bytes_are_negative]); and the last entry must not be
    empty, for the reader wants a byte behind every header
    ([empty_last_value_is_refused]). *)
Theorem lwm2m_parse_correct bytes es : entries_in bytes es -> Forall readable es -> last_ok es -> blen bytes <= 2 ^ 61 ->
  exists r tlvs, sol_lwm2m_parse_tlv bytes = Ret (r, tlvs)
    /\ (r = 0 /\ Forall2 tlv_is tlvs es \/ r < 0 /\ tlvs = [] /\ (refused \/ UINT16_MAX < blen es)).
Proof. apply parse_entries. Qed.

(** C32: resources, or the instances of an object with their resources, that
    are written into an empty buffer and parsed come out in their order:
    every resource, and every instance of a resource with many, with its id
    and exactly the bytes of its value.  Before them comes, for a resource
    with many instances and for an object instance, an entry with its id;
    its content is what its header says, the beginning of the bytes behind
    it, which is too short where a header has more than two bytes and for
    every object instance that is not empty ([headers_are_not_counted]).
    The low byte of an id and the bytes of a length must be below 128 and the
    last value not empty, as for [lwm2m_parse_correct]. *)
Theorem lwm2m_tlv_roundtrip write bytes es values b :
  written write bytes es values -> Forall readable es -> last_ok es -> blen bytes <= 2 ^ 61 -> rep b [] -> own_bytes b ->
  exists r b', write b = Ret (r, b')
    /\ (r < 0 /\ refused
        \/ r = 0 /\ sol_buffer_get_slice b' = Ret bytes
           /\ exists r' tlvs, sol_lwm2m_parse_tlv bytes = Ret (r', tlvs)
              /\ (r' = 0 /\ Forall2 tlv_is tlvs es
                    /\ Forall2 tlv_is (filter (fun tlv => is_nested (tlv_type tlv) = false) tlvs) values
                  \/ r' < 0 /\ tlvs = [] /\ (refused \/ UINT16_MAX < blen es))).
Proof.
  intros Hw Hr Hlast Hlen Hrep Hown. destruct (written_spec _ _ _ _ Hw ltac:(lia) b [] Hrep Hown) as (r & b' & Hrun & _ & Hcase).
  { change (blen []) with 0. lia. }
  exists r, b'. split; [done|]. destruct Hcase as [[-> Hrep']|?]; [right|by left]. split_and!; [done|by apply get_slice_spec|].
  destruct (parse_entries bytes es) as (r' & tlvs & Hp & Hcase); try done; [by eapply written_entries|].
  exists r', tlvs. split; [exact Hp|]. destruct Hcase as [[-> Htlvs]|?]; [left|by right].
  rewrite <- (written_leaves _ _ _ _ Hw). by split_and!; [| |apply leaves_read].
Qed.

(** C34: for a value of any type its length is the number of the bytes that
    are written for it, in the order of the network: eight for a float, four
    for an object link, one for a boolean, and for an integer of 64 bits the
    smallest of one, two, four and eight that holds it.  An entry of a
    resource with these bytes is read as the value that was written.  (The
    union of the resource must hold a value of its type.) *)
Theorem lwm2m_value_roundtrip r index d v :
  res_data r !! index = Some d -> wire_value (data_type r) (content d) = Some v ->
  get_resource_len r index = Ret (0, blen v)
  /\ appends (fun b => add_resource_bytes_to_buffer r b index) v
  /\ (forall i, data_type r = SOL_LWM2M_RESOURCE_DATA_TYPE_INT \/ data_type r = SOL_LWM2M_RESOURCE_DATA_TYPE_TIME ->
      content d = Integer i -> - 2 ^ 63 <= i < 2 ^ 63 ->
      exists n, v = be n i /\ n ∈ int_sizes /\ fits n i = true
        /\ forall m, m ∈ int_sizes -> fits m i = true -> (n <= m)%nat)
  /\ forall tlv, is_resource tlv = 0 -> rep (tlv_content tlv) v -> reads_back tlv (data_type r) (content d).
Proof.
  intros Hd Hv. split_and!.
  - by apply (resource_bytes_spec r sol_buffer_init index d).
  - by eapply appends_value.
  - intros i Ht Hc Hi. exists (int_bytes i). destruct (int_bytes_smallest i) as (? & ? & Hfits).
    split_and!; [|done|by apply Hfits|done].
    rewrite Hc in Hv. by destruct Ht as [Ht|Ht]; rewrite Ht in Hv; injection Hv.
  - intros tlv Hres Hrep. by eapply value_reads.
Qed.

(** *** Requests *)

Lemma add_int_option_spec pkt opt data : blen data <= 8 ->
  add_coap_int_option pkt opt data = sol_coap_add_option pkt opt (Some (reverse data)).
Proof.
  intros Hn. pose proof (blen_nonneg data). set (zeros := replicate (8 - length data) 0).
  assert (mem_store (replicate 8 0) 0 data = Ret (data ++ zeros)) as Hst.
  { rewrite mem_store_ok by (lia || (change (blen (replicate 8 0)) with 8; lia)). cbn [Z.to_nat take app].
    by rewrite drop_replicate. }
  unfold add_coap_int_option. rewrite Hst, bind_ret. apply mem_store_blen in Hst. change (blen (replicate 8 0)) with 8 in Hst.
  rewrite swap_bytes_spec by lia. rewrite bind_ret, blen_to_nat, take_app_length.
  assert (blen data = blen (reverse data)) as Hb by (unfold blen; by rewrite length_reverse). rewrite Hb at 1.
  match goal with |- context [reverse data ++ ?y] =>
    assert (mem_load (reverse data ++ y) 0 (blen (reverse data)) = Ret (reverse data)) as -> by (by apply (mem_load_app [])) end.
  done.
Qed.

(** The payload of a request: its content type and its bytes *)
Definition content_bytes (c : request_content) : option (Z * list Z) :=
  match execute_args c, resources c, instances c with
  | Some args, _, _ => Some (SOL_LWM2M_CONTENT_TYPE_TEXT, args)
  | None, Some rs, _ => '(bs, _) ← encode_resources rs; Some (SOL_LWM2M_CONTENT_TYPE_TLV, bs)
  | None, None, Some l => '(bs, _) ← encode_instances l; Some (SOL_LWM2M_CONTENT_TYPE_TLV, bs)
  | None, None, None => Some (0, [])
  end.

Lemma content_of_spec c ct bs : content_bytes c = Some (ct, bs) -> blen bs < UINT16_MAX ->
  content_of c = Ret (inr (ct, bs)) \/ exists e, content_of c = Ret (inl e) /\ e < 0 /\ refused.
Proof.
  intros Hc Hlen. unfold content_bytes in Hc. unfold content_of.
  set (b0 := sol_buffer_init_flags None 0 SOL_BUFFER_FLAGS_NO_NUL_BYTE).
  assert (forall f es ls, written f bs es ls -> forall (P := fun (o : outcome (Z + Z * list Z)) =>
    o = Ret (inr (SOL_LWM2M_CONTENT_TYPE_TLV, bs)) \/ exists e, o = Ret (inl e) /\ e < 0 /\ refused),
    P ('(r, tlvs) ← f b0; if r <? 0 then Ret (inl r) else if used tlvs >=? UINT16_MAX then Ret (inl (- ENOMEM))
       else bs ← sol_buffer_get_slice tlvs; Ret (inr (SOL_LWM2M_CONTENT_TYPE_TLV, bs)))) as Htlv.
  { intros f es ls Hw P. unfold_limits.
    destruct (written_spec _ _ _ _ Hw ltac:(zlia) b0 []) as (r & b' & -> & _ & [[-> Hrep]|[Hneg ?]]); rewrite ?bind_ret.
    - split; [done|by vm_compute|by vm_compute|by exists []]. - done. - change (blen []) with 0. zlia.
    - left. cbn [Z.ltb Z.compare app] in Hrep |- *. rewrite (rep_used _ _ Hrep), Z.geb_leb, (proj2 (Z.leb_gt _ _)) by zlia.
      by rewrite (get_slice_spec _ _ Hrep), bind_ret.
    - right. exists r. by rewrite (proj2 (Z.ltb_lt r 0)). }
  destruct (execute_args c) as [args|]; [|destruct (resources c) as [rs|]; [|destruct (instances c) as [l|]]].
  - injection Hc as <- <-. left. by rewrite Z.geb_leb, (proj2 (Z.leb_gt _ _)) by zlia.
  - destruct (encode_resources rs) as [[bs' es]|] eqn:He; [|done]. injection Hc as <- <-. by eapply Htlv, written_resources, encode_leaves.
  - destruct (encode_instances l) as [[bs' es]|] eqn:He; [|done]. injection Hc as <- <-. by eapply Htlv, written_instances, encode_instances_leaves.
  - injection Hc as <- <-. by left.
Qed.

(** The option for an observation, and what carries the content *)
Definition observe_ops (obs : option Z) : list packet_op :=
  match obs with Some x => [AddOption SOL_COAP_OPTION_OBSERVE [x]] | None => [] end.

Definition content_ops (ct : Z) (bytes : list Z) : list packet_op :=
  match bytes with [] => [] | _ => [AddOption SOL_COAP_OPTION_CONTENT_FORMAT (be 2 ct); AddPayload bytes] end.

Definition request_ops (t : Z) (obs : option Z) (segs : list (list Z)) (ct : Z) (bytes : list Z) : list packet_op :=
  SetToken (le_bytes 8 (wrapu 64 t)) :: observe_ops obs ++ uri_ops segs ++ content_ops ct bytes.

(** The whole request *)
Definition request_message (method type id t : Z) (obs : option Z) (segs : list (list Z)) (ct : Z) (bytes : list Z) : message :=
  Message COAP_VERSION (type mod 4) method id (le_bytes 8 (wrapu 64 t))
    ((match obs with Some x => [(SOL_COAP_OPTION_OBSERVE, [x])] | None => [] end)
     ++ ((fun s => (SOL_COAP_OPTION_URI_PATH, s)) <$> segs)
     ++ (match bytes with [] => [] | _ => [(SOL_COAP_OPTION_CONTENT_FORMAT, be 2 ct)] end))
    (match bytes with [] => None | _ => Some bytes end).

Lemma request_effect method type id t obs segs ct bytes :
  foldl (flip op_effect) (request_start method type id) (request_ops t obs segs ct bytes)
  = request_message method type id t obs segs ct bytes.
Proof.
  unfold request_ops, request_message. cbn [foldl]. rewrite !foldl_app, uri_effect.
  destruct obs; destruct bytes; cbn; rewrite ?app_nil_r, <- ?app_assoc; done.
Qed.

Lemma request_path_spec objects path : let full := default [] objects ++ path in blen full <= 2 ^ 61 ->
  (exists r b, ('(r, b) ← (match objects with
                            | Some p => sol_buffer_append_slice sol_buffer_init p
                            | None => Ret (0, sol_buffer_init) end);
                if r <? 0 then Ret (r, b) else sol_buffer_append_slice b path) = Ret (r, b)
     /\ (r = 0 /\ rep b full \/ r < 0 /\ refused)).
Proof.
  intros full Hlen. subst full. rewrite blen_app in Hlen. pose proof (blen_nonneg path). destruct objects as [p|]; cbn [default id from_option] in *.
  - pose proof (blen_nonneg p).
    destruct (string_append sol_buffer_init [] p buf_rep_init eq_refl) as (r & b & -> & [(-> & Hrep & Hfl)|[Hneg ?]]);
      [change (blen []) with 0; lia|..]; rewrite bind_ret.
    + cbn [Z.ltb Z.compare]. destruct (string_append b p path Hrep Hfl ltac:(lia)) as (r & b' & -> & Hcase).
      exists r, b'. split; [done|]. destruct Hcase as [(? & ? & _)|?]; auto.
    + rewrite (proj2 (Z.ltb_lt r 0)) by done. exists r, b. auto.
  - rewrite bind_ret. cbn [Z.ltb Z.compare]. change (blen []) with 0 in *.
    destruct (string_append sol_buffer_init [] path buf_rep_init eq_refl) as (r & b' & -> & Hcase); [change (blen []) with 0; lia|].
    exists r, b'. split; [done|]. destruct Hcase as [(? & ? & _)|?]; auto.
Qed.

Lemma fill_request_spec pkt m objects path obs c s segs ct bytes :
  default [] objects ++ path = path_text (s :: segs) -> path <> [47] -> segment_ok s -> Forall segment_ok segs ->
  last (s :: segs) <> Some [] -> blen (default [] objects ++ path) <= 2 ^ 61 ->
  content_bytes c = Some (ct, bytes) -> blen bytes < UINT16_MAX ->
  represents pkt m -> m_options m = [] -> m_payload m = None ->
  ops_allowed (observe_ops obs ++ uri_ops (s :: segs) ++ content_ops ct bytes) m ->
  exists r pkt', fill_request pkt objects path obs c = Ret (r, pkt')
    /\ (r = 0 /\ represents pkt' (foldl (flip op_effect) m (observe_ops obs ++ uri_ops (s :: segs) ++ content_ops ct bytes))
        \/ r < 0 /\ refused).
Proof.
  intros Hpath Hne Hs Hsegs Hlast Hlen Hc Hsize Hpk Hopt Hpay Hops. unfold fill_request.
  set (before := observe_ops obs ++ uri_ops (s :: segs)) in *. rewrite app_assoc in Hops |- *. fold before in Hops |- *.
  apply ops_allowed_app in Hops as [Hbefore Hafter].
  assert (in_order (last_number 0 (m_options m)) before) as Hord.
  { rewrite Hopt. subst before. rewrite <- (app_nil_r (uri_ops _)). destruct obs; cbn [observe_ops app in_order]; [split; [done|]|]; by apply uri_in_order. }
  pose proof (run_in_order before pkt m Hpk Hbefore Hpay Hord) as Hrun. subst before. rewrite run_ops_app in Hrun.
  assert ((match obs with Some x => add_coap_int_option pkt SOL_COAP_OPTION_OBSERVE [x] | None => Ret (0, pkt) end) = run_ops (observe_ops obs) pkt) as ->.
  { destruct obs as [x|]; [|done]. rewrite add_int_option_spec by done. exact (add_last_option pkt SOL_COAP_OPTION_OBSERVE [x]). }
  destruct (run_ops (observe_ops obs) pkt) as [[r pkt1]|]; [|by destruct Hrun as (? & ? & ? & _)]. rewrite bind_ret in Hrun |- *.
  destruct (Z.ltb_spec r 0) as [Hr|Hr].
  { destruct Hrun as (? & ? & [= <- <-] & Hcase). do 2 eexists. split; [done|]. destruct Hcase as [[? _]|?]; [lia|by right]. }
  destruct (request_path_spec objects path Hlen) as (r2 & b & Hb & Hcase2). revert Hb.
  destruct (match objects with Some p => sol_buffer_append_slice sol_buffer_init p | None => Ret (0, sol_buffer_init) end) as [[r1 b1]|]; [|done].
  rewrite !bind_ret. destruct (Z.ltb_spec r1 0) as [Hr1|Hr1].
  { intros [= <- <-]. do 2 eexists. split; [done|]. destruct Hcase2 as [[? _]|?]; [lia|by right]. }
  intros ->. rewrite bind_ret. destruct (Z.ltb_spec r2 0) as [Hr2|Hr2].
  { do 2 eexists. split; [done|]. destruct Hcase2 as [[? _]|?]; [lia|by right]. }
  destruct Hcase2 as [[-> Hrep]|[? _]]; [|lia]. rewrite bool_decide_false by done. cbn [negb].
  rewrite (get_slice_spec _ _ Hrep), bind_ret, Hpath, uri_path_spec by done. fold (uri_ops (s :: segs)).
  destruct Hrun as (r3 & pkt3 & -> & Hcase3). rewrite bind_ret. destruct (Z.ltb_spec r3 0) as [Hr3|Hr3].
  { do 2 eexists. split; [done|]. destruct Hcase3 as [[? _]|?]; [lia|by right]. }
  destruct Hcase3 as [[-> Hpk3]|[? _]]; [|lia]. rewrite foldl_app.
  destruct (content_of_spec c ct bytes Hc Hsize) as [->|(e & -> & Hneg & ?)]; rewrite bind_ret.
  2: { do 2 eexists. split; [done|]. by right. }
  destruct bytes as [|x bytes]; [do 2 eexists; split; [done|]; by left|].
  rewrite blen_cons, Z.gtb_ltb, (proj2 (Z.ltb_lt _ _)) by (pose proof (blen_nonneg bytes); lia).
  destruct (run_in_order _ _ _ Hpk3 Hafter) as (r4 & pkt4 & Hrun4 & Hcase4).
  { rewrite foldl_app, uri_effect. by destruct obs. }
  { rewrite foldl_app, uri_effect. cbn [m_options]. by rewrite last_number_app, uri_last. }
  cbn [content_ops run_ops run_op] in Hrun4. rewrite add_int_option_spec by done. fold (be 2 ct).
  destruct (sol_coap_add_option _ _ _) as [[r5 pkt5]|]; [|done]. rewrite bind_ret in Hrun4 |- *.
  destruct (r5 <? 0); [injection Hrun4 as <- <-; by exists r5, pkt5|]. change (set_packet_payload pkt5 (x :: bytes)) with (append_payload pkt5 (x :: bytes)).
  destruct (append_payload _ _) as [[r6 pkt6]|]; [|done]. rewrite bind_ret in Hrun4 |- *.
  destruct (r6 <? 0) eqn:Hr6; injection Hrun4 as <- <-; do 2 eexists; (split; [done|]); [done|].
  done.
Qed.

(** C31: a request holds, byte for byte, the message for its arguments: a new
    id, the random token, an Observe option when asked for, a Uri-Path option
    for each segment of the path, and, when there is something to send, its
    content format and the text or the entries as payload.  It fails, and
    leaves no packet, only when the allocator refuses or there is no random
    number, and without one it always fails.  The arguments are those the
    CoAP operations allow: a path that starts with a slash, has segments of
    at most 65535 bytes, does not end in a slash and has something behind the
    path of the objects ([objects_path_is_ignored]), values of the types of their
    resources, and a payload and a message within the limits of
    [sol_coap_add_option].  (The entries are those of [encode_resources] and
    [encode_instances], see [lwm2m_tlv_roundtrip] for the lengths in them.) *)
Theorem lwm2m_request_correct random_new random t request_id method type objects path obs c s segs ct bytes :
  is_byte method -> is_byte type ->
  default [] objects ++ path = path_text (s :: segs) -> path <> [47] -> segment_ok s -> Forall segment_ok segs ->
  last (s :: segs) <> Some [] -> blen (default [] objects ++ path) <= 2 ^ 61 ->
  content_bytes c = Some (ct, bytes) -> blen bytes < UINT16_MAX ->
  let id := wrapu 16 (request_id + 1) in
  ops_allowed (request_ops t obs (s :: segs) ct bytes) (request_start method type id) ->
  exists id' r pkt, setup_coap_packet random_new (random, t) request_id method type objects path obs c = Ret (id', r, pkt)
    /\ (r = 0 /\ random_new = true /\ 0 <= random
        /\ id' = id /\ (exists p, pkt = Some p /\ represents p (request_message method type id t obs (s :: segs) ct bytes))
        \/ r < 0 /\ pkt = None /\ (random_new = false \/ random < 0 \/ refused)).
Proof.
  intros Hm Ht Hpath Hne Hs Hsegs Hlast Hlen Hc Hsize id Hops. unfold setup_coap_packet.
  destruct random_new; cbn [negb].
  2: { do 3 eexists. split; [done|]. right. split_and!; [done|done|auto]. }
  destruct (new_request_spec request_id method type Hm Ht) as [(e & -> & ?)|(p0 & -> & Hp0)]; rewrite bind_ret.
  { do 3 eexists. split; [done|]. right. split_and!; [done|done|auto]. }
  fold id in Hp0 |- *. destruct (Z.ltb_spec random 0) as [|Hrandom].
  { do 3 eexists. split; [done|]. right. split_and!; [done|done|auto]. }
  rewrite <- request_effect. unfold request_ops in *. destruct Hops as (Htok & Hle & Hops).
  destruct Htok as (_ & _ & H8 & Hbytes).
  destruct (set_token_spec _ _ (le_bytes 8 (wrapu 64 t)) Hp0 eq_refl eq_refl H8 Hbytes Hle) as (r & p1 & -> & Hcase). rewrite bind_ret.
  destruct Hcase as [[-> Hp1]|(Hneg & _ & ?)].
  2: { rewrite (proj2 (Z.ltb_lt r 0)) by done. do 3 eexists. split; [done|]. right. split_and!; [done|done|auto]. }
  cbn [Z.ltb Z.compare foldl].
  destruct (fill_request_spec p1 _ objects path obs c s segs ct bytes Hpath Hne Hs Hsegs Hlast Hlen Hc Hsize Hp1 eq_refl eq_refl Hops)
    as (r & p2 & -> & Hcase). rewrite bind_ret. do 3 eexists. split; [done|].
  destruct Hcase as [[-> ?]|[Hneg ?]]; [left|right; rewrite (proj2 (Z.ltb_lt r 0)) by done; split_and!; [done|done|auto]].
  split_and!; [done|done|done|done|]. by exists p2.
Qed.
End Properties.

(** ** Paths *)

Definition is_path_char (c : Z) : bool := (c =? 47) || ((48 <=? c) && (c <=? 57)).
Definition slashes (path : list Z) : Z := blen (filter (fun c => c = 47) path).

Lemma props_loop_spec path i s : 0 <= s <= 3 ->
  path_props_loop path i s (2 ^ s)
  = if forallb is_path_char path && (s + slashes path <=? 3) && negb (i + blen path =? s + slashes path)
    then 2 ^ (s + slashes path) else PATH_IS_INVALID_OR_EMPTY.
Proof.
  revert i s. induction path as [|c path IH]; intros i s Hs; cbn [path_props_loop forallb].
  - change (slashes []) with 0. change (blen []) with 0. rewrite !Z.add_0_r, (proj2 (Z.leb_le s 3)) by lia. by destruct (i =? s).
  - rewrite blen_cons. destruct (Z.eqb_spec c 47) as [->|Hc].
    + assert (slashes (47 :: path) = 1 + slashes path) as -> by (unfold slashes; by rewrite filter_cons_True, blen_cons).
      change (is_path_char 47) with true. cbn [andb]. assert (0 <= slashes path) by apply blen_nonneg.
      rewrite Z.gtb_ltb. destruct (Z.ltb_spec 3 (s + 1)).
      { rewrite (proj2 (Z.leb_gt _ 3)) by lia. by rewrite andb_false_r. }
      rewrite Z.shiftl_mul_pow2, <- Z.pow_add_r, IH by lia.
      by rewrite !Z.add_assoc.
    + assert (slashes (c :: path) = slashes path) as -> by (unfold slashes; by rewrite filter_cons_False).
      assert (is_path_char c = (48 <=? c) && (c <=? 57)) as -> by (unfold is_path_char; by rewrite (proj2 (Z.eqb_neq _ _))).
      destruct ((48 <=? c) && (c <=? 57)); cbn [negb andb]; [|done]. rewrite IH by done. by rewrite !Z.add_assoc.
Qed.

(** A path has an object, an instance or a resource when it has one, two or
    three slashes, digits only beside them and at least one; no digit need
    stand behind any of the slashes. *)
Lemma path_props_spec path : sol_lwm2m_common_get_path_props path
  = if forallb is_path_char path && (slashes path <=? 3) && negb (blen path =? slashes path)
    then 2 ^ slashes path else PATH_IS_INVALID_OR_EMPTY.
Proof. apply (props_loop_spec path 0 0). lia. Qed.

(** *** Witnesses *)

(** The conversions of numbers that are normal as floats *)
#[local] Instance normal_floats : FloatBits := {|
  float_to_double f := if Z.land f (2 ^ 31 - 1) =? 0 then Z.shiftl f 32
                       else Z.shiftl (Z.shiftr f 31) 63 + Z.shiftl (Z.land f (2 ^ 31 - 1)) 29 + Z.shiftl 896 52;
  double_to_float d := if Z.land d (2 ^ 63 - 1) =? 0 then Z.shiftr d 32
                       else Z.shiftl (Z.shiftr d 63) 31 + Z.shiftr (Z.land d (2 ^ 63 - 1)) 29 - Z.shiftl 896 23 |}.

(** The manufacturer, the error codes of a device and its time *)
Definition device : list sol_lwm2m_resource := [
  {| res_type := SOL_LWM2M_RESOURCE_TYPE_SINGLE; data_type := SOL_LWM2M_RESOURCE_DATA_TYPE_STRING; res_id := 0;
     res_data := [{| data_id := 0; content := Blob [83; 111; 108; 101; 116; 116; 97; 33] |}] |};
  {| res_type := SOL_LWM2M_RESOURCE_TYPE_MULTIPLE; data_type := SOL_LWM2M_RESOURCE_DATA_TYPE_INT; res_id := 11;
     res_data := [{| data_id := 0; content := Integer 3 |}; {| data_id := 1; content := Integer (-300) |}] |};
  {| res_type := SOL_LWM2M_RESOURCE_TYPE_SINGLE; data_type := SOL_LWM2M_RESOURCE_DATA_TYPE_TIME; res_id := 13;
     res_data := [{| data_id := 0; content := Integer 1367491215 |}] |}].

Definition device_bytes : list Z :=
  [200; 0; 8; 83; 111; 108; 101; 116; 116; 97; 33; 135; 11; 65; 0; 3; 66; 1; 254; 212; 196; 13; 81; 130; 66; 143].

Definition device_entries : list entry := [
  (192, 0, [83; 111; 108; 101; 116; 116; 97; 33]); (128, 11, [65; 0; 3; 66; 1; 254; 212]);
  (64, 0, [3]); (64, 1, [254; 212]); (192, 13, [81; 130; 66; 143])].

Definition device_values : list entry := [
  (192, 0, [83; 111; 108; 101; 116; 116; 97; 33]); (64, 0, [3]); (64, 1, [254; 212]); (192, 13, [81; 130; 66; 143])].

Lemma device_encoded : encode_resources device = Some (device_bytes, device_entries).
Proof. by vm_compute. Qed.

Lemma device_readable : Forall readable device_entries /\ last_ok device_entries.
Proof.
  split; [|by intros e [= <-]].
  unfold device_entries, readable, readable_id, readable_len. repeat constructor; vm_compute; done.
Qed.

Definition no_bytes : sol_buffer := sol_buffer_init_flags None 0 SOL_BUFFER_FLAGS_NO_NUL_BYTE.

Lemma no_bytes_rep : rep no_bytes [].
Proof. split; [done|by vm_compute|by vm_compute|by exists []]. Qed.

Lemma device_entries_in : entries_in device_bytes device_entries.
Proof.
  destruct device_readable as [Hr _].
  exact (readable_entries (encode_all encode_resource) _ _ _ (all_entries _ resource_entries) device_encoded Hr).
Qed.

Lemma lwm2m_parse_correct_witness : exists r tlvs, sol_lwm2m_parse_tlv (H := gcc5) (H0 := roomy) device_bytes = Ret (r, tlvs)
  /\ (r = 0 /\ Forall2 tlv_is tlvs device_entries
      \/ r < 0 /\ tlvs = [] /\ (refused (H0 := roomy) \/ UINT16_MAX < blen device_entries)).
Proof.
  destruct device_readable as [Hr Hl].
  exact (lwm2m_parse_correct (H := gcc5) (H0 := roomy) device_bytes device_entries device_entries_in Hr Hl ltac:(by vm_compute)).
Defined.

Lemma lwm2m_tlv_roundtrip_witness : exists r b', resources_to_tlv (H := gcc5) (H0 := roomy) device no_bytes = Ret (r, b')
  /\ (r < 0 /\ refused (H0 := roomy)
      \/ r = 0 /\ sol_buffer_get_slice b' = Ret device_bytes
         /\ exists r' tlvs, sol_lwm2m_parse_tlv (H := gcc5) (H0 := roomy) device_bytes = Ret (r', tlvs)
            /\ (r' = 0 /\ Forall2 tlv_is tlvs device_entries
                  /\ Forall2 tlv_is (filter (fun tlv => is_nested (tlv_type tlv) = false) tlvs) device_values
                \/ r' < 0 /\ tlvs = [] /\ (refused (H0 := roomy) \/ UINT16_MAX < blen device_entries))).
Proof.
  destruct device_readable as [Hr Hl].
  apply (lwm2m_tlv_roundtrip (H := gcc5) (H0 := roomy) (resources_to_tlv device) device_bytes device_entries device_values no_bytes);
    [apply written_resources; [exact device_encoded|by vm_compute]|exact Hr|exact Hl|by vm_compute|exact no_bytes_rep|reflexivity].
Defined.

Definition codes : sol_lwm2m_resource := {|
  res_type := SOL_LWM2M_RESOURCE_TYPE_MULTIPLE; data_type := SOL_LWM2M_RESOURCE_DATA_TYPE_INT; res_id := 11;
  res_data := [{| data_id := 0; content := Integer 3 |}; {| data_id := 1; content := Integer (-300) |}] |}.

Lemma lwm2m_value_roundtrip_witness :
  get_resource_len codes 1 = Ret (0, 2)
  /\ appends (H0 := roomy) (fun b => add_resource_bytes_to_buffer (H := gcc5) (H0 := roomy) codes b 1) [254; 212]
  /\ (exists n, [254; 212] = be n (-300) /\ forall m, m ∈ int_sizes -> fits m (-300) = true -> (n <= m)%nat)
  /\ sol_lwm2m_tlv_get_int {| tlv_type := 64; tlv_id := 1; tlv_content := buf (packet_of [254; 212]) |} = Ret (0, Some (-300)).
Proof.
  destruct (lwm2m_value_roundtrip (H := gcc5) (H0 := roomy) codes 1 {| data_id := 1; content := Integer (-300) |} [254; 212] eq_refl eq_refl)
    as (Hlen & Happ & Hsize & Hread).
  split; [exact Hlen|]. split; [exact Happ|]. split.
  - destruct (Hsize (-300) (or_introl eq_refl) eq_refl ltac:(lia)) as (n & Hv & _ & _ & Hmin). exists n. split; [exact Hv|exact Hmin].
  - exact (Hread {| tlv_type := 64; tlv_id := 1; tlv_content := buf (packet_of [254; 212]) |} eq_refl
           (rep_packet_of [254; 212] ltac:(by vm_compute)) ltac:(lia)).
Defined.

(** Writing the device object of a client, observed *)
Lemma lwm2m_request_correct_witness : exists id' r pkt,
  setup_coap_packet (H := gcc5) (H0 := roomy) true (0, 72623859790382856) 41 3 0 (Some [47; 108]) [47; 51; 47; 48] (Some 0)
    {| execute_args := None; resources := Some device; instances := None |} = Ret (id', r, pkt)
  /\ (r = 0 /\ true = true /\ 0 <= 0 /\ id' = 42 /\ (exists p, pkt = Some p
        /\ represents p (Message 1 0 3 42 [8; 7; 6; 5; 4; 3; 2; 1] [(6, [0]); (11, [108]); (11, [51]); (11, [48]); (12, [6; 6])] (Some device_bytes)))
      \/ r < 0 /\ pkt = None /\ (true = false \/ 0 < 0 \/ refused (H0 := roomy))).
Proof.
  apply (lwm2m_request_correct (H := gcc5) (H0 := roomy) true 0 72623859790382856 41 3 0 (Some [47; 108]) [47; 51; 47; 48] (Some 0)
           {| execute_args := None; resources := Some device; instances := None |} [108] [[51]; [48]] 1542 device_bytes);
    [split; lia|split; lia|reflexivity|discriminate|repeat constructor; discriminate|repeat constructor; discriminate|discriminate
    |by vm_compute|by vm_compute|by vm_compute|].
  cbn. unfold is_byte, readable. split_and!; repeat constructor; done || lia.
Defined.

(** *** What does not hold *)

(** Characters are signed: lengths from 128 on are taken for huge ones, which
    are refused or, for 255, read as the whole memory; an id of 200 becomes
    65480. *)
Lemma large_bytes_are_negative :
  sol_lwm2m_parse_tlv (H := gcc5) (H0 := roomy) ([200; 1; 128] ++ replicate 128 7) = Ret (- ENOMEM, [])
  /\ sol_lwm2m_parse_tlv (H := gcc5) (H0 := roomy) ([200; 1; 255] ++ replicate 255 7) = UB
  /\ ('(r, l) ← sol_lwm2m_parse_tlv (H := gcc5) (H0 := roomy) [193; 200; 5]; Ret (r, map tlv_id l)) = Ret (0, [65480]).
Proof. by vm_compute. Qed.

(** Neither the header nor the length is compared with the end of the
    slice before they are used. *)
Lemma entries_are_read_too_far :
  sol_lwm2m_parse_tlv (H := gcc5) (H0 := roomy) [192] = UB
  /\ sol_lwm2m_parse_tlv (H := gcc5) (H0 := roomy) [197; 1; 7] = UB.
Proof. by vm_compute. Qed.

(** An empty value at the end is refused, though it can be written. *)
Lemma empty_last_value_is_refused :
  encode_resources [{| res_type := SOL_LWM2M_RESOURCE_TYPE_SINGLE; data_type := SOL_LWM2M_RESOURCE_DATA_TYPE_STRING; res_id := 1;
                       res_data := [{| data_id := 0; content := Blob [] |}] |}] = Some ([192; 1], [(192, 1, [])])
  /\ sol_lwm2m_parse_tlv (H := gcc5) (H0 := roomy) [192; 1] = Ret (- EOVERFLOW, []).
Proof. by vm_compute. Qed.

(** The length of a resource with many instances counts two bytes for each
    of their headers, which may have up to six; the one of an object instance
    counts no header at all. *)
Lemma headers_are_not_counted :
  (encode_resources [{| res_type := SOL_LWM2M_RESOURCE_TYPE_MULTIPLE; data_type := SOL_LWM2M_RESOURCE_DATA_TYPE_INT; res_id := 5;
                        res_data := [{| data_id := 256; content := Integer 1 |}] |}])
  = Some ([131; 5; 97; 1; 0; 1], [(128, 5, [97; 1; 0]); (64, 256, [1])])
  /\ encode_instances [(0, [{| res_type := SOL_LWM2M_RESOURCE_TYPE_SINGLE; data_type := SOL_LWM2M_RESOURCE_DATA_TYPE_INT; res_id := 5;
                               res_data := [{| data_id := 0; content := Integer 1 |}] |}])]
     = Some ([1; 0; 193; 5; 1], [(0, 0, [193]); (192, 5, [1])]).
Proof. by vm_compute. Qed.

(** Of a single resource with two values the first is written under the
    length of both. *)
Lemma second_value_is_counted :
  ('(r, b) ← setup_tlv (H := gcc5) (H0 := roomy)
      {| res_type := SOL_LWM2M_RESOURCE_TYPE_SINGLE; data_type := SOL_LWM2M_RESOURCE_DATA_TYPE_INT; res_id := 5;
         res_data := [{| data_id := 0; content := Integer 1 |}; {| data_id := 1; content := Integer 2 |}] |} no_bytes;
   bs ← sol_buffer_get_slice b; Ret (r, bs)) = Ret (0, [194; 5; 1]).
Proof. by vm_compute. Qed.

(** A Content-Format of three bytes is copied into two. *)
Lemma long_option_overflows :
  get_coap_int_option (packet_of (with_options [(12, [1; 2; 3])] None)) 12 [0; 0] = UB.
Proof. by vm_compute. Qed.

(** Empty segments count: "//1" has an instance, "1" and "" are the same. *)
Lemma empty_segments_count :
  sol_lwm2m_common_get_path_props [47; 47; 49] = PATH_HAS_INSTANCE /\ sol_lwm2m_common_get_path_props [47; 49; 47] = PATH_HAS_INSTANCE
  /\ sol_lwm2m_common_get_path_props [49] = PATH_IS_INVALID_OR_EMPTY.
Proof. by vm_compute. Qed.

(** For the path "/" the path of the objects is left out of the request. *)
Lemma objects_path_is_ignored :
  ('(_, r, p) ← setup_coap_packet (H := gcc5) (H0 := roomy) true (0, 0) 0 1 0 (Some [47; 108]) [47] None
                  {| execute_args := None; resources := None; instances := None |};
   match p with Some pkt => l ← sol_coap_find_options pkt 11 4; Ret (r, l) | None => UB end) = Ret (0, (0, [])).
Proof. by vm_compute. Qed.

End Lwm2mProofs.
